(* ===== verification/_CoqProject ===== *)
-Q . S2P
Prelude.v
Bytes.v
Float64.v
BlockRange.v
Finality.v
SyncSegments.v
Merkle.v
AgglayerTypes.v
CertStorage.v
StatusChecker.v
Epoch.v
BuildParams.v
Flow.v
AdjustRange.v
Validator.v
GrpcCert.v
Committee.v
Retry.v
Aggsender.v
AggsenderProofs.v
Queriers.v
Downloader.v
ReorgDetector.v
SyncDriver.v
Tables.v
MultiStorage.v
MultiEngine.v
MultiProofs.v
MultiChain.v
MultiRun.v
MultiCases.v
ClaimStorage.v
ClaimProofs.v
ClaimDownloader.v
ClaimDownloaderProofs.v
L2GerSync.v
L2GerProofs.v
ProverFlow.v
ProverProofs.v
TreeTx.v
L1InfoTree.v
L1InfoTreeSync.v
BridgeSync.v
BridgeProofs.v
BridgeService.v
BridgeHandlers.v
BridgeServiceProofs.v
BridgeServiceL2.v
Tracker.v
TrackerResolvers.v
TrackerEngine.v
TrackerProofs.v
TrackerRuns.v
AggOracle.v
TrackerSQLite.v
TrackerSources.v
LETHelpers.v
LETRecovery.v
LETRecoveryProofs.v
