(* ===== verification/Prelude.v ===== *)
(** * Aggkit: the syncers and the aggsender

    A verification development of aggkit, the node that connects a chain to the agglayer.  Syncers
    follow L1 and L2 through JSON-RPC nodes and keep SQLite tables of bridges, claims and the L1 info
    tree; the aggsender turns what is synced into certificates, sends them to the agglayer, stores
    them and follows their status; validators rebuild certificates and sign them when they agree.

    ** How the parts interact

    - A downloader ([sync/evmdownloader.go]) turns the logs of a node into blocks of events, a driver
      ([sync/evmdriver.go]) hands them to the processor of a syncer and handles reorgs, which the
      reorg detector ([reorgdetector/]) finds by comparing tracked hashes with the chain.
    - The processors of [l1infotreesync/] and [bridgesync/] keep tables and Merkle trees ([tree/]) in one
      database transaction per block or batch; an inconsistency with the contracts halts them.
      The multidownloader ([multidownloader/]) downloads the logs of several syncers once, stores them and
      answers their queries, with reorgs of its own.
      [claimsync/] keeps the claims with the arguments found in transaction traces, [l2gersync/] the global
      exit roots injected into L2.
    - The queriers of the aggsender ([aggsender/query/]) read the syncers; the flows
      ([aggsender/flows/]) choose a block range and build a certificate; the storage
      ([aggsender/db/]) keeps it; the status checker ([aggsender/statuschecker/]) follows the agglayer;
      the validator ([aggsender/validator/]) rebuilds and compares; the epoch notifier
      ([aggsender/trigger/]) says when to send.
    - The service ([aggsender/aggsender.go]) composes them: on a tick or a trigger it checks the statuses,
      builds a certificate, validates it, asks the members of the committee for signatures
      ([aggsender/validator_poller.go]), submits it and stores it, with retries ([common/retry_*.go]).
    - The bridge service ([bridgeservice/]) answers users from the syncers: which leaf of the L1 info tree
      contains a deposit, and the proofs with which it is claimed.  The bridge tracker ([bridgetracker/]) follows
      single bridges for them: its engine asks sources for the next step of every supervised bridge and writes
      to a registry, which clients read and subscribe to.
    - The aggoracle ([aggoracle/]) brings the latest global exit root of the L1 info tree to L2, directly or
      through a committee.

    ** Files

    - [Prelude]: machine integers with their wrap-around, results and the state-and-error monad of
      methods that update their receiver, tactics, hints, lemmas on lists.
    - [Bytes], [Float64]: byte strings, big-endian encodings, the Keccak interface ([Class Keccak]);
      floating-point products of the size estimates.
    - [BlockRange], [Finality], [SyncSegments]: [common/block_range.go], [types/block_finality.go],
      the segments and state of the multidownloader ([multidownloader/types], [multidownloader/state.go]).
    - [Merkle]: the append-only and updatable trees over a reverse hash table, their proofs, and the
      transaction callbacks of [db/tx.go].  [mroot] is the specification: the root of a leaf function.
    - [AgglayerTypes], [CertStorage], [StatusChecker], [Epoch]: the agglayer data and its hashes, the
      certificate tables, the pending and start-up checks, the epoch notifier.
    - [BuildParams], [Flow], [AdjustRange], [Validator]: converters and build parameters, the base and
      pessimistic flows, the adjustment of the block range, validation.  [Class BridgeQuerier] and
      [Class L1InfoTreeDataQuerier] are the interfaces the flows are proved against.
    - [GrpcCert], [Committee]: bridge exits and claims as gRPC messages ([agglayer/grpc/]); the signing committee
      and its contract, the hash that is signed, certificates as messages, the validator service, the local and
      remote validators and the poller.
    - [Retry], [Aggsender], [AggsenderProofs]: the retry loop, the service over a record of flow operations, and
      its properties for every flow that keeps [Class FlowLaws], of which both flows are instances.
    - [ProverFlow], [ProverProofs]: the flow with validity proofs: the request to the prover, the reuse of stored
      proofs, the public values and parameters read from the contract, and the optimistic signature.
    - [Queriers]: their implementations over the syncers, whose operations are records of functions.
    - [Downloader], [ReorgDetector], [SyncDriver]: the sync loop, its requests computed from the answers of a node
      that may refuse, fail and give headers of another chain ([requestNode]).  [Class Processor] with
      [Class ProcessorLaws] is what the driver needs of a processor.
    - [Tables], [TreeTx]: what the processors share: orders and searches on tables, the block table,
      transactions around a tree and what survives their failure.
    - [MultiStorage], [MultiEngine]: the tables and the steps of the multidownloader, over a record of the
      answers of a node.  [MultiProofs] are the lemmas on its segments, [MultiChain] its steps over a node that
      serves a chain, [MultiRun] runs of it over nodes that change their chain, [MultiCases] concrete ones.
    - [L1InfoTree], [L1InfoTreeSync]: the processor of the L1 info tree, an instance of the laws, and the
      syncer in front of it, under the querier of the aggsender.
    - [ClaimStorage], [ClaimProofs], [ClaimDownloader], [ClaimDownloaderProofs]: the tables, processor and
      queries of the claim syncer; the events and call traces it reads, and the reader of unset claims.
    - [L2GerSync], [L2GerProofs]: the processor of injected global exit roots, the contract reader, the
      sovereign and legacy downloaders.
    - [BridgeSync], [BridgeProofs]: the processor of the bridges with its exit tree, the rewinding and
      replaying of that tree, reorgs, the syncer in front of it, and the properties of them.
    - [BridgeService], [BridgeHandlers]: the searches for the leaf of a deposit over records of syncers, the
      HTTP handlers, synchronisation status and health.  [BridgeServiceProofs] instantiates the records with
      the processors and proves the answers for deposits of L1, [BridgeServiceL2] those for deposits of L2.
    - [Tracker], [TrackerResolvers], [TrackerEngine]: the path of a bridge and its status, the resolvers of the
      steps over a record of sources, the registry (records in a heap, since subscribers share them) and the
      steps of engine and clients.  [TrackerProofs] are the lemmas on paths, [TrackerRuns] the invariant of runs.
      [TrackerSQLite] is the registry in a database and its agreement with the one in memory, [TrackerSources]
      the sources of certificates and settlements.
    - [LETHelpers], [LETRecovery]: the recovery tool for diverged exit trees ([tools/backward_forward_let/]), its
      trees, diagnosis and calls over a record of clients; [LETRecoveryProofs] what it achieves and where it does harm.
    - [AggOracle]: the loop of the aggoracle, its sender and tasks over a record of contracts and transaction manager.

    Tables are lists of rows in insertion order, or finite maps where the key is the only access; the
    constraints of the migrations are errors of the insertions.  A method that changes its receiver
    returns the state it leaves, on error paths too.  Blocking and concurrency are explicit sequences:
    polls, messages of a channel, actions of the detector and the driver in their order.

    ** What the theorems show

    - Certificates: the block range follows what is settled; the adjusted range keeps every claim provable and the
      size within its limit; the new local exit root is the root of all exits up to the range; an accepted
      certificate is the one the validator would build; the verdict on an honest one depends on its claim proofs and
      its derived last block only; unclaims are filtered alike by both filters; gaps are refused unless empty.
    - Storage and status: the two tables implement the log of attempts per height; statuses follow the agglayer; the
      start-up check ends with what the agglayer has settled.
    - Service: every certificate the agglayer accepted is recorded; nothing is submitted while another certificate
      is open, and what is submitted continues the last one; it carries the signatures of a quorum over its own
      hash; a quorum implies that an honest member validated it as it received it, and what the messages change of
      it; whether it is found does not depend on the order of answers.
    - Validity proofs: the proof covers exactly the certificate and continues the last proven block; the parameters
      a validator accepts determine the state that was proved.
    - Trees: putting a leaf refines appending to the list of leaves, proofs of every stored root verify and bind
      their leaf, reorgs and truncation keep the invariant.
    - Syncing: logs that are answered are fetched completely and in order; the blocks handed over are the chain but
      for the ranges of requests that were given up, and when a request is given up; no reorg is missed by a pass of
      the detector; after a reorg the download resumes after the last block left; retries end; a block reported
      final was confirmed.
    - Multidownloader: after any run of steps, failures, restarts and reorgs an available query is answered with the
      logs of one chain, unless a header is left out between others or a reorg is half processed; blocks a reorg
      moved are reported; the runs that never end or lose logs.
    - Processors: a block or batch is applied entirely or not at all; leaves and bridges correspond to their trees
      after every block, rewinding and reorg; when reorging a rewinding undoes it; the target root of L1 proves
      every final global exit root; injected roots follow the history of insertions and removals, and exactly when a
      reorg equals a fresh sync.
    - Claims: the arguments stored with a claim are the only ones decoded for it; what the merging queries report of
      each global index; the search for the block of a claim and the unset claims of a range are complete for every
      range a node serves.
    - Bridge service: the leaf found for a deposit contains it, and the proofs served for that leaf verify the
      deposit up to the exit roots of the leaf; the binary search ends, and exactly when and how it differs from the
      linear scan, with any number of verifications in a block.
    - Bridge tracker: over any interleaving of the engine and its clients a bridge is finished only when it was
      claimed, settled steps never change, and every resolution returns; both registries give the same answers while
      no tracked bridge leaves its chain; the search for the first settlement that covers a bridge finds it over any
      interruptions.
    - Aggoracle: over any interleaving of its tasks a root is sent only after it was the last of the L1 info tree,
      provable, and after that missing on L2; a constructed sender is allowed to send and never panics.
    - Recovery tool: the frontier, proof and root it computes are those of the tree; a recovery leaves the settled
      exits at the start of the tree of L2, or fails with the tree cut when the contract hashes an exit differently;
      on a network that is only ahead of its certificates it removes bridges.
    - Errors: the situations in which the code does not do what it means to, each with the concrete run that shows
      it.

    ** Parameters, bounds and fuel

    Keccak is a parameter of every hashing definition; no collision-freeness is assumed: a theorem that
    needs it names the nodes that must not collide ([put_ok]) or computes the collision.  Node and
    service answers are functions.  Loops that are not structural take fuel, and their theorems give an
    amount that is enough: one unit per block or attempt, or the measure named in the theorem.  Counters
    are bounded by their machine type, and leaves by the 2^32 of a tree of height 32.

    ** Not modelled

    Failures of the SQL engine other than missing rows and violated constraints; the decoding of logs
    (contract bindings); the calls of the agglayer clients; the activity index, other sources and
    API of the bridge tracker; the fee estimates, health cache and public configuration of the bridge service;
    the command line, configuration, logging and metrics; the other developer tools, which drive these components from
    the command line. *)

From stdpp Require Export base tactics list option gmap strings sorting.
From Stdlib Require Export ZArith Lia.

#[global] Open Scope Z_scope.

(** ** Machine integers

    A Go [uint64], [uint32], [int64] value is a [Z] in the range of its type;
    every operation that can leave the range writes its wrap-around out. *)

Definition pow2_64 : Z := 18446744073709551616.
Definition pow2_32 : Z := 4294967296.
Definition MaxUint64 : Z := 18446744073709551615.
Definition MaxInt64 : Z := 9223372036854775807.

Definition wrap64 (z : Z) : Z := z mod pow2_64.
Definition wrap32 (z : Z) : Z := z mod pow2_32.

(** Two's-complement reading of a 64-bit pattern ([int64(x)] in Go). *)
Definition sint64 (z : Z) : Z :=
  let w := wrap64 z in if w <=? MaxInt64 then w else w - pow2_64.

Definition add64 (a b : Z) : Z := wrap64 (a + b).
Definition sub64 (a b : Z) : Z := wrap64 (a - b).
Definition mul64 (a b : Z) : Z := wrap64 (a * b).
Definition add32 (a b : Z) : Z := wrap32 (a + b).
Definition sub32 (a b : Z) : Z := wrap32 (a - b).
Definition mul32 (a b : Z) : Z := wrap32 (a * b).

Definition is_u64 (z : Z) : Prop := 0 <= z < pow2_64.
Definition is_u32 (z : Z) : Prop := 0 <= z < pow2_32.

Declare Scope go_scope.
Delimit Scope go_scope with go.
Infix "+u64" := add64 (at level 50, left associativity) : go_scope.
Infix "-u64" := sub64 (at level 50, left associativity) : go_scope.
Infix "*u64" := mul64 (at level 40, left associativity) : go_scope.
Infix "+u32" := add32 (at level 50, left associativity) : go_scope.
Infix "-u32" := sub32 (at level 50, left associativity) : go_scope.
Infix "*u32" := mul32 (at level 40, left associativity) : go_scope.
#[global] Open Scope go_scope.

(** ** Results

    A Go function returning [(T, error)] returns a [result E T]. *)

Inductive result (E A : Type) : Type :=
| Ok (a : A)
| Err (e : E).
Arguments Ok {E A} a.
Arguments Err {E A} e.

Definition rbind {E A B : Type} (r : result E A) (k : A -> result E B) : result E B :=
  match r with
  | Ok a => k a
  | Err e => Err e
  end.

Notation "'let?' x ':=' c 'in' k" := (rbind c (fun x => k))
  (at level 10, x pattern, c at level 100, k at level 200) : go_scope.

Definition is_ok {E A : Type} (r : result E A) : bool :=
  match r with Ok _ => true | Err _ => false end.

(** A Go [for range] loop whose body can return an error. *)
Fixpoint rfold {E A S : Type} (body : S -> A -> result E S) (l : list A) (s : S) : result E S :=
  match l with
  | [] => Ok s
  | a :: l' => let? s' := body s a in rfold body l' s'
  end.

(** [for ... { if err := f(x); err != nil { return err } }]. *)
Fixpoint rforeach {E A : Type} (f : A -> result E unit) (l : list A) : result E unit :=
  match l with
  | [] => Ok tt
  | a :: l' => let? _ := f a in rforeach f l'
  end.

(** [out[i], err = f(in[i])] for every element, stopping at the first error. *)
Fixpoint rmap {E A B : Type} (f : A -> result E B) (l : list A) : result E (list B) :=
  match l with
  | [] => Ok []
  | a :: l' => let? b := f a in let? bs := rmap f l' in Ok (b :: bs)
  end.

(** ** Effects

    A Go method that updates its receiver and can fail: the state is kept on errors. *)

Definition eff (S E A : Type) : Type := S -> S * result E A.

Definition sret {S E A} (a : A) : eff S E A := fun s => (s, Ok a).
Definition sfail {S E A} (e : E) : eff S E A := fun s => (s, Err e).
Definition sget {S E} : eff S E S := fun s => (s, Ok s).
Definition smodify {S E} (f : S -> S) : eff S E unit := fun s => (f s, Ok tt).
Definition slift {S E A} (r : result E A) : eff S E A := fun s => (s, r).
Definition sbind {S E A B} (c : eff S E A) (k : A -> eff S E B) : eff S E B :=
  fun s => match c s with (s', Ok a) => k a s' | (s', Err e) => (s', Err e) end.

Notation "'let!' x ':=' c 'in' k" := (sbind c (fun x => k))
  (at level 10, x pattern, c at level 100, k at level 200) : go_scope.

(** Executable filter on a boolean test (a Go loop with [append]). *)
Fixpoint bfilter {A : Type} (p : A -> bool) (l : list A) : list A :=
  match l with
  | [] => []
  | a :: l' => if p a then a :: bfilter p l' else bfilter p l'
  end.

(** ** Shared tactics and hints *)

Create HintDb aggkit.

(** Turn boolean tests in the context into propositions. *)
Ltac bool_hyps :=
  repeat match goal with
  | H : (_ && _)%bool = true |- _ => apply andb_true_iff in H; destruct H
  | H : (_ || _)%bool = false |- _ => apply orb_false_iff in H; destruct H
  | H : negb _ = true |- _ => apply negb_true_iff in H
  | H : negb _ = false |- _ => apply negb_false_iff in H
  | H : (_ <? _) = true |- _ => apply Z.ltb_lt in H
  | H : (_ <? _) = false |- _ => apply Z.ltb_ge in H
  | H : (_ <=? _) = true |- _ => apply Z.leb_le in H
  | H : (_ <=? _) = false |- _ => apply Z.leb_gt in H
  | H : (_ =? _) = true |- _ => apply Z.eqb_eq in H
  | H : (_ =? _) = false |- _ => apply Z.eqb_neq in H
  end.

(** Case analysis on the first [if] or [match] in the goal or a hypothesis. *)
Ltac cases :=
  repeat (match goal with
  | |- context [if ?b then _ else _] => destruct b eqn:?
  | H : context [if ?b then _ else _] |- _ => destruct b eqn:?
  end; simplify_eq/=).

Ltac unfold_words :=
  unfold is_u64, is_u32, wrap64, wrap32, pow2_64, pow2_32, MaxUint64, MaxInt64 in *.

(** Invert a successful [rbind] in hypothesis [H]. *)
Tactic Notation "inv_ok" hyp(H) "as" simple_intropattern(x) ident(E) :=
  match type of H with
  | rbind ?r _ = Ok _ => destruct r as [x|] eqn:E; [ cbn [rbind] in H | discriminate H ]
  end.

(** ** Lemmas on words *)

Lemma wrap64_small z : is_u64 z -> wrap64 z = z.
Proof. unfold wrap64, is_u64, pow2_64. intros. apply Z.mod_small. lia. Qed.

Lemma wrap64_range z : is_u64 (wrap64 z).
Proof. unfold wrap64, is_u64, pow2_64. apply Z.mod_pos_bound. lia. Qed.

Lemma add64_small a b : is_u64 (a + b) -> a +u64 b = a + b.
Proof. apply wrap64_small. Qed.

Lemma sub64_small a b : is_u64 (a - b) -> a -u64 b = a - b.
Proof. apply wrap64_small. Qed.

Lemma add64_range a b : is_u64 (a +u64 b).
Proof. apply wrap64_range. Qed.

Lemma sub64_range a b : is_u64 (a -u64 b).
Proof. apply wrap64_range. Qed.

Lemma wrap32_small z : is_u32 z -> wrap32 z = z.
Proof. unfold wrap32, is_u32, pow2_32. intros. apply Z.mod_small. lia. Qed.

Lemma wrap32_range z : is_u32 (wrap32 z).
Proof. unfold wrap32, is_u32, pow2_32. apply Z.mod_pos_bound. lia. Qed.

(** Addition wraps exactly when the sum leaves the range. *)
Lemma add64_overflow a b :
  is_u64 a -> is_u64 b -> pow2_64 <= a + b -> a +u64 b = a + b - pow2_64.
Proof.
  unfold is_u64, add64, wrap64, pow2_64. intros.
  symmetry. apply (Z.mod_unique_pos _ _ 1); lia.
Qed.

#[export] Hint Resolve add64_range sub64_range wrap64_range wrap32_range : aggkit.

(** Rewrite in-range word operations to their integer counterparts and call [lia]. *)
Ltac word_small :=
  repeat match goal with
  | |- context [?a +u64 ?b] => rewrite (add64_small a b) by (unfold_words; lia)
  | |- context [?a -u64 ?b] => rewrite (sub64_small a b) by (unfold_words; lia)
  | H : context [?a +u64 ?b] |- _ => rewrite (add64_small a b) in H by (unfold_words; lia)
  | H : context [?a -u64 ?b] |- _ => rewrite (sub64_small a b) in H by (unfold_words; lia)
  end.

Ltac word_lia := bool_hyps; word_small; unfold_words; lia.

(** ** Lemmas on results *)

Lemma rbind_Ok_inv {E A B} (r : result E A) (k : A -> result E B) b :
  rbind r k = Ok b -> exists a, r = Ok a /\ k a = Ok b.
Proof. destruct r; simpl; [eauto | discriminate]. Qed.

(** A guarded answer: the guard held and the answer is the one given. *)
Lemma guard_Ok_inv {E A} (b : bool) (x y : A) (e : E) :
  (if b then Ok x else Err e) = Ok y -> b = true /\ x = y.
Proof. by destruct b; [intros [= <-]|]. Qed.

(** A successful sequence is two successful computations. *)
Lemma sbind_Ok_inv {S E A B} (c : eff S E A) (k : A -> eff S E B) s s' b :
  sbind c k s = (s', Ok b) -> exists a s1, c s = (s1, Ok a) /\ k a s1 = (s', Ok b).
Proof. unfold sbind. destruct (c s) as [s1 [a|e]]; [eauto | discriminate]. Qed.

Lemma sbind_run {S E A B} (c : eff S E A) (k : A -> eff S E B) s s1 a :
  c s = (s1, Ok a) -> sbind c k s = k a s1.
Proof. unfold sbind. by intros ->. Qed.

(** Invert a successful [sbind] in hypothesis [H]. *)
Tactic Notation "inv_seq" hyp(H) "as" simple_intropattern(x) simple_intropattern(s) simple_intropattern(E) :=
  apply sbind_Ok_inv in H as (x & s & E & H).

Lemma rforeach_Ok {E A} (f : A -> result E unit) (l : list A) :
  rforeach f l = Ok tt <-> Forall (fun a => f a = Ok tt) l.
Proof.
  induction l as [|a l IH]; simpl; [split; auto|].
  rewrite Forall_cons. destruct (f a) as [[]|]; simpl.
  - rewrite IH. tauto.
  - split; [discriminate | intros [? _]; discriminate].
Qed.

Lemma rmap_Ok {E A B} (f : A -> result E B) (l : list A) bs :
  rmap f l = Ok bs <-> Forall2 (fun a b => f a = Ok b) l bs.
Proof.
  revert bs. induction l as [|a l IH]; intros bs; simpl.
  - split; [intros [= <-]; constructor | intros H; inversion H; done].
  - split.
    + intros H. inv_ok H as b Hb. inv_ok H as bs' Hbs. injection H as <-.
      constructor; [done | by apply IH].
    + intros H. inversion H as [|? b ? bs' Hb Hbs]; subst.
      rewrite Hb. simpl. apply IH in Hbs. by rewrite Hbs.
Qed.

Lemma rmap_length {E A B} (f : A -> result E B) (l : list A) bs :
  rmap f l = Ok bs -> length bs = length l.
Proof. rewrite rmap_Ok. intros H. symmetry. by eapply Forall2_length. Qed.

Lemma rmap_total {E A B} (f : A -> result E B) l os : rmap f l = Ok os -> forall x, In x l -> exists o, f x = Ok o.
Proof.
  revert os. induction l as [|a l IH]; intros os H x; [done|]. cbn in H. inv_ok H as b Hb. inv_ok H as bs Hbs.
  intros [<-|Hx]; [by exists b | by eapply IH].
Qed.

Lemma rmap_members {E A B} (f : A -> result E B) l os : rmap f l = Ok os -> forall o, o ∈ os <-> exists x, In x l /\ f x = Ok o.
Proof.
  revert os. induction l as [|a l IH]; intros os H o; cbn in H.
  - injection H as <-. split; [intros Ho; by apply not_elem_of_nil in Ho | by intros (? & [] & _)].
  - inv_ok H as b Hb. inv_ok H as bs Hbs. injection H as <-. rewrite elem_of_cons, (IH _ eq_refl). split.
    + intros [->|(x & Hx & Ex)]; [exists a; split; [by left | done] | exists x; split; [by right | done]].
    + intros (x & [<-|Hx] & Ex); [left; congruence | right; by exists x].
Qed.

(** ** Lemmas on lists *)

Lemma bfilter_In {A} (p : A -> bool) l x : In x (bfilter p l) <-> In x l /\ p x = true.
Proof.
  induction l as [|a l IH]; simpl; [tauto|].
  destruct (p a) eqn:E; simpl; rewrite IH; intuition (subst; auto; congruence).
Qed.

Lemma bfilter_length_le {A} (p : A -> bool) l : (length (bfilter p l) <= length l)%nat.
Proof. induction l as [|a l IH]; simpl; [lia|]. destruct (p a); simpl; lia. Qed.

Lemma bfilter_bfilter {A} (p q : A -> bool) l :
  bfilter p (bfilter q l) = bfilter (fun x => (q x && p x)%bool) l.
Proof.
  induction l as [|a l IH]; simpl; [done|].
  destruct (q a); simpl; [destruct (p a)|]; by rewrite ?IH.
Qed.

Lemma bfilter_ext {A} (p q : A -> bool) l :
  (forall x, In x l -> p x = q x) -> bfilter p l = bfilter q l.
Proof.
  induction l as [|a l IH]; simpl; intros H; [done|].
  rewrite (H a), IH; auto.
Qed.

Lemma bfilter_all {A} (p : A -> bool) l : (forall x, In x l -> p x = true) -> bfilter p l = l.
Proof.
  induction l as [|a l IH]; simpl; intros H; [done|].
  rewrite (H a), IH; auto.
Qed.

Lemma keep_all {A} (f : A -> Z) n (l : list A) : (forall x, In x l -> f x < n) -> bfilter (fun x => negb (n <=? f x)) l = l.
Proof. intros H. apply bfilter_all. intros x Hx. apply negb_true_iff, Z.leb_gt. by apply H. Qed.

Lemma drop_all {A} (p : A -> bool) (l : list A) : (forall x, In x l -> p x = false) -> bfilter p l = [].
Proof.
  induction l as [|x l IH]; intros H; [done|]. cbn. rewrite (H x (or_introl eq_refl)). apply IH. intros y Hy. apply H. by right.
Qed.

Lemma bfilter_app {A} (p : A -> bool) l1 l2 : bfilter p (l1 ++ l2) = bfilter p l1 ++ bfilter p l2.
Proof. induction l1 as [|x l IH]; cbn; [done|]. destruct (p x); cbn; by rewrite IH. Qed.

Lemma existsb_false_In {A} (p : A -> bool) l : existsb p l = false <-> forall x, In x l -> p x = false.
Proof.
  split.
  - intros E x Hx. destruct (p x) eqn:Ep; [|done].
    assert (existsb p l = true) by (apply existsb_exists; eauto). congruence.
  - intros Hall. destruct (existsb p l) eqn:E; [|done].
    apply existsb_exists in E as (x & Hx & Ep). by rewrite (Hall x Hx) in Ep.
Qed.

Lemma bfilter_StronglySorted {A} (R : A -> A -> Prop) p l : StronglySorted R l -> StronglySorted R (bfilter p l).
Proof.
  induction 1 as [|a l Hs IH Ha]; simpl; [constructor|]. destruct (p a); [|done]. constructor; [done|].
  rewrite Forall_forall in Ha |- *. intros x Hx. apply Ha. apply list_elem_of_In in Hx. apply list_elem_of_In.
  by apply bfilter_In in Hx as [Hx _].
Qed.

Lemma map_bfilter_NoDup {A B} (h : A -> B) p l : NoDup (map h l) -> NoDup (map h (bfilter p l)).
Proof.
  induction l as [|x l IH]; simpl; [done|]. rewrite NoDup_cons. intros [Hx Hnd].
  destruct (p x); simpl; [|auto]. apply NoDup_cons. split; [|auto].
  intros Hin. apply Hx. apply list_elem_of_In in Hin. apply list_elem_of_In.
  apply in_map_iff in Hin as (y & <- & Hy). apply bfilter_In in Hy as [Hy _]. by apply in_map.
Qed.
