(* ===== verification/Bytes.v ===== *)
(** Bytes, big integers and hashes ([common/common.go], and what the sources use of
    [encoding/binary], [math/big] and go-ethereum's [common.Hash]).

    A byte is a [Z] in [0,256), a byte slice a [list Z]; a 32-byte [common.Hash] is the
    number whose big-endian bytes it holds.  [crypto.Keccak256] is code outside the repository:
    it is the parameter [Keccak], and nothing is assumed of it. *)

From S2P Require Import Prelude.

(** ** Byte strings *)

Definition Uint32ByteSize : nat := 4.
Definition Uint64ByteSize : nat := 8.
Definition HashLength : nat := 32.
Definition KB : Z := 1024.

Definition is_byte (b : Z) : Prop := 0 <= b < 256.

(** The [n] low bytes of [z], most significant first. *)
Fixpoint be_bytes (n : nat) (z : Z) : list Z :=
  match n with
  | O => []
  | S n' => be_bytes n' (z / 256) ++ [z mod 256]
  end.

(** The number a big-endian byte string denotes ([big.Int.SetBytes], [binary.BigEndian.Uint…]). *)
Definition be_value (bs : list Z) : Z := fold_left (fun acc b => acc * 256 + b) bs 0.

(** [binary.LittleEndian.PutUint…]. *)
Definition le_bytes (n : nat) (z : Z) : list Z := rev (be_bytes n z).

Definition Uint64ToBigEndianBytes (num : Z) : list Z := be_bytes Uint64ByteSize num.
Definition Uint64ToLittleEndianBytes (num : Z) : list Z := le_bytes Uint64ByteSize num.
Definition Uint32ToBytes (num : Z) : list Z := be_bytes Uint32ByteSize num.
Definition Uint32ToBigEndianBytes (num : Z) : list Z := Uint32ToBytes num.

(** Left-padding to a fixed size; [None] is the panic on an over-long slice. *)
Definition BytesToUint (size : nat) (bs : list Z) : option Z :=
  if (size <? length bs)%nat then None
  else Some (be_value (repeat 0 (size - length bs) ++ bs)).

Definition BytesToUint64 (bs : list Z) : option Z := BytesToUint Uint64ByteSize bs.
Definition BytesToUint32 (bs : list Z) : option Z := BytesToUint Uint32ByteSize bs.

(** Number of bytes of [big.Int.Bytes]: no leading zero byte, none for zero. *)
Definition big_ByteLen (z : Z) : nat :=
  if z =? 0 then O else S (Z.to_nat (Z.log2 z / 8)).

(** [big.Int.Bytes] of the absolute value. *)
Definition big_Bytes (z : Z) : list Z := be_bytes (big_ByteLen (Z.abs z)) (Z.abs z).

(** [for i := 0; i < len(beBytes) && i < HashLength; i++ { leBytes[i] = beBytes[len-1-i] }]. *)
Definition BigIntToLittleEndianBytes (n : Z) : list Z :=
  let low := take HashLength (rev (big_Bytes n)) in
  low ++ repeat 0 (HashLength - length low).

(** ** Hashes *)

(** [common.Hash.Bytes]. *)
Definition Hash_Bytes (h : Z) : list Z := be_bytes HashLength h.

(** [crypto.Keccak256], a parameter. *)
Class Keccak := keccak256 : list Z -> Z.

(** [crypto.Keccak256Hash(chunks...)] hashes the concatenation of its arguments. *)
Definition Keccak256Hash `{Keccak} (chunks : list (list Z)) : Z := keccak256 (concat chunks).

Definition ZeroHash : Z := 0.

(** ** Conversions of [common.go] *)

Inductive convError := ErrUndefined | ErrDoesNotFit.

Definition SafeUint64 (i : option Z) : result convError Z :=
  match i with
  | None => Err ErrUndefined
  | Some v => if (0 <=? v) && (v <? pow2_64) then Ok v else Err ErrDoesNotFit
  end.

Definition SafeUint32 (v : Z) : result convError Z :=
  if pow2_32 - 1 <? v then Err ErrDoesNotFit else Ok v.

(** [total] is a Go [int]; the product is computed on [uint64]. *)
Definition EstimateSliceCapacity (total span fullSpan : Z) : Z :=
  if fullSpan =? 0 then 0
  else
    let result := (wrap64 total *u64 span) / fullSpan in
    if MaxInt64 <? result then MaxInt64 else result.

(** A toy hash used to evaluate the definitions on concrete inputs. *)
Definition toy_keccak : Keccak :=
  fun bs => fold_left (fun acc b => Z.land (33 * acc + b + 1) 1048575) bs 5381.

(** ** Lemmas *)

Lemma be_bytes_length n z : length (be_bytes n z) = n.
Proof. revert z. induction n as [|n IH]; intros z; simpl; [done|]. rewrite length_app, IH. simpl. lia. Qed.

Lemma be_bytes_byte n z : Forall is_byte (be_bytes n z).
Proof.
  revert z. induction n as [|n IH]; intros z; simpl; [constructor|].
  apply Forall_app. split; [done|]. constructor; [|done]. apply Z.mod_pos_bound. lia.
Qed.

Lemma be_value_app a b : be_value (a ++ b) = be_value a * 256 ^ Z.of_nat (length b) + be_value b.
Proof.
  unfold be_value. rewrite fold_left_app.
  set (x := fold_left _ a 0). clearbody x. revert x.
  induction b as [|c b IH] using rev_ind; intros x; simpl; [lia|].
  rewrite !fold_left_app. simpl. rewrite IH, length_app. simpl.
  replace (Z.of_nat (length b + 1)) with (Z.of_nat (length b) + 1) by lia.
  rewrite Z.pow_add_r by lia. lia.
Qed.

(** Writing [n] bytes and reading them back keeps the number modulo [256^n]. *)
Lemma be_value_be_bytes n z : be_value (be_bytes n z) = z mod 256 ^ Z.of_nat n.
Proof.
  revert z. induction n as [|n IH]; intros z; simpl be_bytes.
  - simpl. by rewrite Z.mod_1_r.
  - rewrite be_value_app, IH. unfold be_value at 1. simpl fold_left. simpl length.
    replace (Z.of_nat (S n)) with (1 + Z.of_nat n) by lia.
    rewrite Z.pow_add_r by lia. change (256 ^ 1) with 256. change (256 ^ Z.of_nat 1) with 256.
    rewrite Z.rem_mul_r by lia. lia.
Qed.

Lemma be_value_be_bytes_small n z : 0 <= z < 256 ^ Z.of_nat n -> be_value (be_bytes n z) = z.
Proof. intros. rewrite be_value_be_bytes. by apply Z.mod_small. Qed.

Lemma be_bytes_inj n x y :
  0 <= x < 256 ^ Z.of_nat n -> 0 <= y < 256 ^ Z.of_nat n -> be_bytes n x = be_bytes n y -> x = y.
Proof. intros Hx Hy E. apply (f_equal be_value) in E. by rewrite !be_value_be_bytes_small in E. Qed.

Lemma be_value_repeat0 n : be_value (repeat 0 n) = 0.
Proof. unfold be_value. induction n as [|n IH]; simpl; done. Qed.

Lemma BytesToUint_value size bs :
  (length bs <= size)%nat -> BytesToUint size bs = Some (be_value bs).
Proof.
  intros H. unfold BytesToUint. rewrite (proj2 (Nat.ltb_ge _ _)) by done.
  by rewrite be_value_app, be_value_repeat0.
Qed.

(** [n] bytes of a number are the high bytes followed by the low ones. *)
Lemma be_bytes_add n m z : be_bytes (n + m) z = be_bytes n (z / 256 ^ Z.of_nat m) ++ be_bytes m z.
Proof.
  revert z. induction m as [|m IH]; intros z.
  - rewrite Nat.add_0_r. simpl. rewrite Z.div_1_r. by rewrite app_nil_r.
  - rewrite Nat.add_succ_r. simpl. rewrite IH, <- app_assoc. do 2 f_equal.
    rewrite Z.div_div by lia. f_equal.
    replace (Z.of_nat (S m)) with (1 + Z.of_nat m) by lia. rewrite Z.pow_add_r by lia. done.
Qed.

Lemma big_ByteLen_spec z :
  0 <= z -> z < 256 ^ Z.of_nat (big_ByteLen z) /\
  (forall n, z < 256 ^ Z.of_nat n -> (big_ByteLen z <= n)%nat).
Proof.
  intros Hz. unfold big_ByteLen. destruct (z =? 0) eqn:E; bool_hyps; subst.
  - split; [done | intros; lia].
  - pose proof (Z.log2_spec z ltac:(lia)) as [Hlo Hhi].
    pose proof (Z.log2_nonneg z). pose proof (Z.div_mod (Z.log2 z) 8 ltac:(lia)).
    pose proof (Z.mod_pos_bound (Z.log2 z) 8 ltac:(lia)).
    pose proof (Z.div_pos (Z.log2 z) 8 ltac:(lia) ltac:(lia)). set (q := Z.log2 z / 8) in *.
    split.
    + eapply Z.lt_le_trans; [exact Hhi|]. change 256 with (2 ^ 8). rewrite <- Z.pow_mul_r by lia.
      apply Z.pow_le_mono_r; lia.
    + intros n Hn. change 256 with (2 ^ 8) in Hn. rewrite <- Z.pow_mul_r in Hn by lia.
      assert (Z.log2 z < 8 * Z.of_nat n) by (apply Z.log2_lt_pow2; lia). lia.
Qed.

Lemma be_value_big_Bytes z : 0 <= z -> be_value (big_Bytes z) = z.
Proof.
  intros Hz. unfold big_Bytes. rewrite Z.abs_eq by done.
  apply be_value_be_bytes_small. split; [done|]. by apply big_ByteLen_spec.
Qed.
