(* ===== verification/Float64.v ===== *)
(** Go's [float64] as the binary64 numbers of the standard library's executable IEEE 754
    specification: conversions, the arithmetic the sources use, comparison. *)

From Stdlib Require Import SpecFloat.
From S2P Require Import Prelude.

Definition float64 : Type := spec_float.

(** [float64(z)] of an integer, rounded to nearest even. *)
Definition f64_of_Z (z : Z) : float64 := binary_normalize 53 1024 z 0 false.

Definition f64_add : float64 -> float64 -> float64 := SFadd 53 1024.
Definition f64_mul : float64 -> float64 -> float64 := SFmul 53 1024.
Definition f64_div : float64 -> float64 -> float64 := SFdiv 53 1024.
Definition f64_ltb : float64 -> float64 -> bool := SFltb.

(** [uint(x)]: truncation of a finite non-negative number below [2^64]; outside of that range Go
    leaves the result to the implementation and nothing here relies on it. *)
Definition f64_trunc (x : float64) : Z :=
  match x with
  | S754_finite false m e => Z.shiftl (Zpos m) e
  | _ => 0
  end.

(** A decimal constant [n/d] of the source, as the nearest float. *)
Definition f64_const (n d : Z) : float64 := f64_div (f64_of_Z n) (f64_of_Z d).

Lemma f64_ltb_irrefl x : f64_ltb x x = false.
Proof.
  unfold f64_ltb, SFltb, SFcompare. destruct x as [| [|] | | [|] m e]; try done.
  - rewrite Z.compare_refl. by rewrite Pos.compare_cont_refl.
  - rewrite Z.compare_refl. by rewrite Pos.compare_cont_refl.
Qed.
