(* ===== verification/BlockRange.v ===== *)
(** Block ranges: [common/block_range.go].

    The record [BlockRange] and every method of the Go type, the generic
    [ChunkedRangeQuery], and the theorems that read each method as an operation
    on the set of block numbers a range contains. *)

From stdpp Require Import list_numbers.
From S2P Require Import Prelude.

(** ** Data and operations *)

Record BlockRange : Type := mkBlockRange {
  br_FromBlock : Z;
  br_ToBlock : Z;
  br_isNotEmpty : bool
}.

#[export] Instance BlockRange_eq_dec : EqDecision BlockRange.
Proof. solve_decision. Defined.

Definition BlockRangeZero : BlockRange := mkBlockRange 0 0 false.

Definition NewBlockRange (fromBlock toBlock : Z) : BlockRange :=
  mkBlockRange fromBlock toBlock true.

Definition BlockRange_IsEmpty (b : BlockRange) : bool :=
  negb (br_isNotEmpty b) || (br_ToBlock b <? br_FromBlock b).

Definition BlockRange_CountBlocks (b : BlockRange) : Z :=
  if BlockRange_IsEmpty b then 0
  else if br_ToBlock b <? br_FromBlock b then 0
  else br_ToBlock b -u64 br_FromBlock b +u64 1.

Definition getBlockMinusOne (fromBlock : Z) : Z :=
  if 0 <? fromBlock then fromBlock -u64 1 else 0.

Definition BlockRange_Gap (b other : BlockRange) : BlockRange :=
  if BlockRange_IsEmpty b || BlockRange_IsEmpty other then BlockRangeZero
  else if (getBlockMinusOne (br_FromBlock other) <=? br_ToBlock b)
       && (getBlockMinusOne (br_FromBlock b) <=? br_ToBlock other)
  then BlockRangeZero
  else if br_ToBlock b <? br_FromBlock other
  then NewBlockRange (br_ToBlock b +u64 1) (br_FromBlock other -u64 1)
  else NewBlockRange (br_ToBlock other +u64 1) (getBlockMinusOne (br_FromBlock b)).

Definition BlockRange_Greater (b other : BlockRange) : bool :=
  if BlockRange_IsEmpty b && BlockRange_IsEmpty other then false
  else if BlockRange_IsEmpty b then false
  else if BlockRange_IsEmpty other then true
  else br_ToBlock other <? br_FromBlock b.

Definition BlockRange_IsNextContigousBlock (b next : BlockRange) : bool :=
  if BlockRange_IsEmpty b || BlockRange_IsEmpty next then false
  else br_ToBlock b +u64 1 =? br_FromBlock next.

Definition BlockRange_Overlaps (b other : BlockRange) : bool :=
  if BlockRange_IsEmpty b || BlockRange_IsEmpty other then false
  else (br_FromBlock b <=? br_ToBlock other) && (br_FromBlock other <=? br_ToBlock b).

Definition BlockRange_Extend (b other : BlockRange) : BlockRange :=
  if BlockRange_IsEmpty b then other
  else if BlockRange_IsEmpty other then b
  else NewBlockRange (Z.min (br_FromBlock b) (br_FromBlock other))
                     (Z.max (br_ToBlock b) (br_ToBlock other)).

Definition BlockRange_Merge (b other : BlockRange) : list BlockRange :=
  if BlockRange_IsEmpty b then [other]
  else if BlockRange_IsEmpty other then [b]
  else if BlockRange_Overlaps b other then [BlockRange_Extend b other]
  else if br_FromBlock b <? br_FromBlock other then [b; other]
  else [other; b].

Definition BlockRange_Subtract (b other : BlockRange) : list BlockRange :=
  if negb (BlockRange_Overlaps b other) then [b]
  else
    (if br_FromBlock b <? br_FromBlock other
     then [NewBlockRange (br_FromBlock b) (br_FromBlock other -u64 1)] else [])
    ++
    (if br_ToBlock other <? br_ToBlock b
     then [NewBlockRange (br_ToBlock other +u64 1) (br_ToBlock b)] else []).

Definition BlockRange_Cap (b : BlockRange) (maxBlockNumber : Z) : BlockRange :=
  if BlockRange_IsEmpty b then BlockRangeZero
  else if maxBlockNumber <? br_FromBlock b then BlockRangeZero
  else NewBlockRange (br_FromBlock b) (Z.min (br_ToBlock b) maxBlockNumber).

Definition BlockRange_Contains (b other : BlockRange) : bool :=
  if BlockRange_IsEmpty b then false
  else (br_FromBlock b <=? br_FromBlock other) && (br_ToBlock other <=? br_ToBlock b).

Definition BlockRange_ContainsBlockNumber (b : BlockRange) (number : Z) : bool :=
  if BlockRange_IsEmpty b then false
  else (br_FromBlock b <=? number) && (number <=? br_ToBlock b).

Definition BlockRange_Equal (b other : BlockRange) : bool :=
  if BlockRange_IsEmpty b && BlockRange_IsEmpty other then true
  else (br_FromBlock b =? br_FromBlock other) && (br_ToBlock b =? br_ToBlock other)
       && eqb (BlockRange_IsEmpty b) (BlockRange_IsEmpty other).

Definition BlockRange_Intersect (b other : BlockRange) : BlockRange :=
  if negb (BlockRange_Overlaps b other) then BlockRangeZero
  else NewBlockRange (Z.max (br_FromBlock b) (br_FromBlock other))
                     (Z.min (br_ToBlock b) (br_ToBlock other)).

Definition BlockRange_SplitByBlockNumber (b : BlockRange) (blockNumber : Z)
  : BlockRange * BlockRange :=
  if BlockRange_IsEmpty b then (BlockRangeZero, BlockRangeZero)
  else if blockNumber <? br_FromBlock b then (BlockRangeZero, b)
  else if br_ToBlock b <=? blockNumber then (b, BlockRangeZero)
  else (NewBlockRange (br_FromBlock b) blockNumber,
        NewBlockRange (blockNumber +u64 1) (br_ToBlock b)).

(** The loop [for i := FromBlock; i <= ToBlock; i++] with [i] a [uint64];
    [None] is a loop that has not finished within the fuel. *)
Fixpoint listBlockNumbers_loop (fuel : nat) (i toBlock : Z) (acc : list Z) : option (list Z) :=
  match fuel with
  | O => None
  | S fuel' =>
      if i <=? toBlock then listBlockNumbers_loop fuel' (i +u64 1) toBlock (acc ++ [i])
      else Some acc
  end.

Definition BlockRange_ListBlockNumbers (fuel : nat) (b : BlockRange) : option (list Z) :=
  if BlockRange_IsEmpty b then Some []
  else listBlockNumbers_loop fuel (br_FromBlock b) (br_ToBlock b) [].

Section ChunkedRangeQuery.
Context {E T : Type}.

Inductive chunked_error : Type :=
| ErrMaxRangeZero
| ErrChunk (from to : Z) (e : E).

Variable fetchChunk : Z -> Z -> result E T.
Variable combine : T -> T -> T.

Fixpoint chunked_loop (fuel : nat) (currentFrom toBlock maxRange : Z) (all : T)
  : option (result chunked_error T) :=
  match fuel with
  | O => None
  | S fuel' =>
      if currentFrom <=? toBlock then
        let currentTo := Z.min (currentFrom +u64 maxRange -u64 1) toBlock in
        match fetchChunk currentFrom currentTo with
        | Err e => Some (Err (ErrChunk currentFrom currentTo e))
        | Ok chunk => chunked_loop fuel' (currentTo +u64 1) toBlock maxRange (combine all chunk)
        end
      else Some (Ok all)
  end.

Definition ChunkedRangeQuery (fuel : nat) (fromBlock toBlock maxRange : Z) (empty : T)
  : option (result chunked_error T) :=
  if maxRange =? 0 then Some (Err ErrMaxRangeZero)
  else chunked_loop fuel fromBlock toBlock maxRange empty.
End ChunkedRangeQuery.
Arguments chunked_error E : clear implicits.

(** ** Specification: the set of block numbers of a range *)

(** A range whose bounds are [uint64] values. *)
Definition br_wf (b : BlockRange) : Prop := is_u64 (br_FromBlock b) /\ is_u64 (br_ToBlock b).

Definition br_in (n : Z) (b : BlockRange) : Prop :=
  br_isNotEmpty b = true /\ br_FromBlock b <= n <= br_ToBlock b.

(** The union of a list of ranges. *)
Definition brs_in (n : Z) (bs : list BlockRange) : Prop := Exists (br_in n) bs.

(** Pairwise disjoint, in ascending order. *)
Fixpoint brs_sorted (bs : list BlockRange) : Prop :=
  match bs with
  | a :: ((b :: _) as rest) => br_ToBlock a < br_FromBlock b /\ brs_sorted rest
  | _ => True
  end.

(** The chunks a chunked query is meant to ask for. *)
Fixpoint chunks (n : nat) (from to maxRange : Z) : list (Z * Z) :=
  match n with
  | O => []
  | S n' =>
      if from <=? to
      then (from, Z.min (from + maxRange - 1) to) :: chunks n' (from + maxRange) to maxRange
      else []
  end.

(** Number of chunks of a non-empty range, as a bound on loop iterations. *)
Definition chunk_count (from to maxRange : Z) : nat :=
  Z.to_nat ((to - from) / maxRange + 1).

(** ** Lemmas *)

#[export] Hint Unfold br_in br_wf BlockRangeZero NewBlockRange : aggkit.

(** Unfold the record operations, split every branch and finish with arithmetic. *)
Ltac br_unfold :=
  unfold brs_in, br_in, br_wf, BlockRange_Overlaps, BlockRange_IsEmpty, getBlockMinusOne,
    BlockRangeZero, NewBlockRange in *; simpl in *.

Lemma BlockRange_IsEmpty_false b :
  BlockRange_IsEmpty b = false <-> br_isNotEmpty b = true /\ br_FromBlock b <= br_ToBlock b.
Proof. destruct b as [f t []]; br_unfold; [|naive_solver]. split; intros; bool_hyps; naive_solver lia. Qed.

Lemma BlockRange_IsEmpty_true b :
  BlockRange_IsEmpty b = true <-> forall n, ~ br_in n b.
Proof.
  rewrite <-not_false_iff_true, BlockRange_IsEmpty_false. unfold br_in.
  split; [intros H n ?; apply H; split; [tauto | lia]|].
  intros H [Hne ?]. apply (H (br_FromBlock b)). split; [done | lia].
Qed.

Lemma BlockRange_ContainsBlockNumber_iff b n :
  BlockRange_ContainsBlockNumber b n = true <-> br_in n b.
Proof.
  destruct b as [f t []]; unfold BlockRange_ContainsBlockNumber; br_unfold; [|naive_solver].
  cases; bool_hyps; rewrite ?andb_true_iff, ?Z.leb_le; intuition lia.
Qed.

Lemma BlockRange_Overlaps_iff b o :
  BlockRange_Overlaps b o = true <-> exists n, br_in n b /\ br_in n o.
Proof.
  unfold BlockRange_Overlaps.
  destruct (BlockRange_IsEmpty b) eqn:Eb; simpl.
  { rewrite BlockRange_IsEmpty_true in Eb. naive_solver. }
  destruct (BlockRange_IsEmpty o) eqn:Eo; simpl.
  { rewrite BlockRange_IsEmpty_true in Eo. naive_solver. }
  rewrite BlockRange_IsEmpty_false in Eb, Eo. unfold br_in.
  rewrite andb_true_iff, !Z.leb_le. split.
  - intros. exists (Z.max (br_FromBlock b) (br_FromBlock o)). naive_solver lia.
  - naive_solver lia.
Qed.

Lemma BlockRange_Overlaps_bounds b o :
  BlockRange_Overlaps b o = true ->
  br_isNotEmpty b = true /\ br_isNotEmpty o = true /\
  br_FromBlock b <= br_ToBlock b /\ br_FromBlock o <= br_ToBlock o /\
  br_FromBlock b <= br_ToBlock o /\ br_FromBlock o <= br_ToBlock b.
Proof. rewrite BlockRange_Overlaps_iff. unfold br_in. naive_solver lia. Qed.

#[export] Instance br_in_dec n b : Decision (br_in n b).
Proof.
  destruct (BlockRange_ContainsBlockNumber b n) eqn:E; [left | right];
    rewrite <-BlockRange_ContainsBlockNumber_iff; congruence.
Defined.

Lemma brs_in_nil n : brs_in n [] <-> False.
Proof. apply Exists_nil. Qed.

Lemma brs_in_cons n b bs : brs_in n (b :: bs) <-> br_in n b \/ brs_in n bs.
Proof. apply Exists_cons. Qed.

Lemma brs_in_app n bs cs : brs_in n (bs ++ cs) <-> brs_in n bs \/ brs_in n cs.
Proof. apply Exists_app. Qed.

Lemma br_in_New n f t : br_in n (NewBlockRange f t) <-> f <= n <= t.
Proof. unfold br_in; simpl. tauto. Qed.

Lemma br_in_Zero n : ~ br_in n BlockRangeZero.
Proof. unfold br_in; simpl. naive_solver. Qed.

(** ** Properties of the range operations *)

Lemma BlockRange_Subtract_in b o n :
  br_wf b -> br_wf o ->
  brs_in n (BlockRange_Subtract b o) <-> br_in n b /\ ~ br_in n o.
Proof.
  intros [Hbf Hbt] [Hof Hot]. unfold BlockRange_Subtract.
  destruct (BlockRange_Overlaps b o) eqn:Hov; simpl.
  - apply BlockRange_Overlaps_bounds in Hov. destruct Hov as (Nb & No & ?).
    rewrite brs_in_app.
    assert (br_in n b <-> br_FromBlock b <= n <= br_ToBlock b) as -> by (unfold br_in; tauto).
    assert (br_in n o <-> br_FromBlock o <= n <= br_ToBlock o) as -> by (unfold br_in; tauto).
    destruct (br_FromBlock b <? br_FromBlock o) eqn:E1;
    destruct (br_ToBlock o <? br_ToBlock b) eqn:E2;
    rewrite ?brs_in_cons, ?brs_in_nil, ?br_in_New; word_lia.
  - rewrite brs_in_cons, brs_in_nil.
    assert (~ (br_in n b /\ br_in n o)); [|tauto].
    intros ?. assert (BlockRange_Overlaps b o = true); [|congruence].
    apply BlockRange_Overlaps_iff. eauto.
Qed.

Lemma BlockRange_Subtract_shape b o :
  br_wf b -> br_wf o -> BlockRange_IsEmpty b = false ->
  Forall (fun r => br_wf r /\ BlockRange_IsEmpty r = false) (BlockRange_Subtract b o) /\
  brs_sorted (BlockRange_Subtract b o) /\ (length (BlockRange_Subtract b o) <= 2)%nat.
Proof.
  intros Hb Ho Hne. unfold BlockRange_Subtract.
  destruct (BlockRange_Overlaps b o) eqn:Hov; simpl; [|naive_solver].
  apply BlockRange_Overlaps_bounds in Hov. destruct Hov as (Nb & No & ?).
  destruct Hb, Ho.
  destruct (br_FromBlock b <? br_FromBlock o) eqn:E1;
  destruct (br_ToBlock o <? br_ToBlock b) eqn:E2; simpl;
    rewrite ?Forall_cons, ?BlockRange_IsEmpty_false; unfold br_wf; simpl;
    repeat split; auto with aggkit; try (by constructor); word_lia.
Qed.

Lemma BlockRange_Intersect_in b o n :
  br_in n (BlockRange_Intersect b o) <-> br_in n b /\ br_in n o.
Proof.
  unfold BlockRange_Intersect. destruct (BlockRange_Overlaps b o) eqn:Hov; simpl.
  - apply BlockRange_Overlaps_bounds in Hov. unfold br_in; simpl. naive_solver lia.
  - pose proof (br_in_Zero n). split; [tauto|].
    intros ?. assert (BlockRange_Overlaps b o = true); [|congruence].
    apply BlockRange_Overlaps_iff. eauto.
Qed.

(** [Subtract] and [Intersect] split a range exactly: for every block number, being in
    the range is being either in one of the pieces [Subtract] leaves (at most two, non-empty,
    in ascending order and disjoint) or in the intersection, and never in both. *)
Theorem Subtract_Intersect_partition b o :
  br_wf b -> br_wf o -> BlockRange_IsEmpty b = false ->
  (forall n, br_in n b <-> brs_in n (BlockRange_Subtract b o) \/ br_in n (BlockRange_Intersect b o)) /\
  (forall n, ~ (brs_in n (BlockRange_Subtract b o) /\ br_in n (BlockRange_Intersect b o))) /\
  (length (BlockRange_Subtract b o) <= 2)%nat /\ brs_sorted (BlockRange_Subtract b o) /\
  Forall (fun r => br_wf r /\ BlockRange_IsEmpty r = false) (BlockRange_Subtract b o).
Proof.
  intros Hb Ho Hne. destruct (BlockRange_Subtract_shape b o Hb Ho Hne) as (? & ? & ?).
  split; [|split; [|auto]]; intros n; rewrite BlockRange_Subtract_in, BlockRange_Intersect_in by auto.
  - destruct (br_in_dec n o); tauto.
  - tauto.
Qed.

Lemma Subtract_Intersect_partition_witness :
  br_in 3 (NewBlockRange 1 10) <->
  brs_in 3 (BlockRange_Subtract (NewBlockRange 1 10) (NewBlockRange 4 6)) \/
  br_in 3 (BlockRange_Intersect (NewBlockRange 1 10) (NewBlockRange 4 6)).
Proof.
  refine (proj1 (Subtract_Intersect_partition (NewBlockRange 1 10) (NewBlockRange 4 6) _ _ _) 3);
    [split; split; vm_compute; congruence | split; split; vm_compute; congruence | reflexivity].
Defined.

(** ** Gaps, caps, splits *)

Lemma BlockRange_Gap_in b o n :
  br_wf b -> br_wf o -> BlockRange_IsEmpty b = false -> BlockRange_IsEmpty o = false ->
  br_in n (BlockRange_Gap b o) <->
  br_ToBlock b < n < br_FromBlock o \/ br_ToBlock o < n < br_FromBlock b.
Proof.
  intros [Hbf Hbt] [Hof Hot] Eb Eo. unfold BlockRange_Gap. rewrite Eb, Eo. simpl.
  apply BlockRange_IsEmpty_false in Eb as [_ ?], Eo as [_ ?].
  unfold getBlockMinusOne. pose proof (br_in_Zero n).
  destruct (0 <? br_FromBlock o) eqn:E0, (0 <? br_FromBlock b) eqn:E1; bool_hyps; word_small;
    (destruct (_ && _)%bool eqn:E2; [bool_hyps; split; [tauto | unfold_words; lia]|]);
    apply andb_false_iff in E2; rewrite !Z.leb_gt in E2;
    (destruct (br_ToBlock b <? br_FromBlock o) eqn:E3; rewrite br_in_New; word_lia).
Qed.

(** [Gap] returns exactly the blocks strictly between two non-empty ranges, whichever comes
    first, and is the empty range when they overlap or touch. *)
Theorem Gap_is_strictly_between b o :
  br_wf b -> br_wf o -> BlockRange_IsEmpty b = false -> BlockRange_IsEmpty o = false ->
  (forall n, br_in n (BlockRange_Gap b o) <->
     br_ToBlock b < n < br_FromBlock o \/ br_ToBlock o < n < br_FromBlock b) /\
  (BlockRange_IsEmpty (BlockRange_Gap b o) = true <->
     br_FromBlock o <= br_ToBlock b + 1 /\ br_FromBlock b <= br_ToBlock o + 1).
Proof.
  intros Hb Ho Eb Eo.
  assert (forall n, br_in n (BlockRange_Gap b o) <->
     br_ToBlock b < n < br_FromBlock o \/ br_ToBlock o < n < br_FromBlock b) as Hin.
  { intros n. by apply BlockRange_Gap_in. }
  split; [done|]. rewrite BlockRange_IsEmpty_true.
  setoid_rewrite Hin. split.
  - intros H. pose proof (H (br_ToBlock b + 1)). pose proof (H (br_ToBlock o + 1)). lia.
  - intros H n. apply BlockRange_IsEmpty_false in Eb as [_ ?], Eo as [_ ?]. lia.
Qed.

Lemma Gap_is_strictly_between_witness :
  br_in 15 (BlockRange_Gap (NewBlockRange 20 30) (NewBlockRange 1 10)) <->
  30 < 15 < 1 \/ 10 < 15 < 20.
Proof.
  refine (proj1 (Gap_is_strictly_between (NewBlockRange 20 30) (NewBlockRange 1 10) _ _ _ _) 15);
    [split; split; vm_compute; congruence | split; split; vm_compute; congruence
    | reflexivity | reflexivity].
Defined.

Lemma BlockRange_Cap_in b m n :
  br_in n (BlockRange_Cap b m) <-> br_in n b /\ n <= m.
Proof.
  unfold BlockRange_Cap. destruct (BlockRange_IsEmpty b) eqn:E.
  { rewrite BlockRange_IsEmpty_true in E. pose proof (br_in_Zero n). naive_solver. }
  apply BlockRange_IsEmpty_false in E as [? ?]. pose proof (br_in_Zero n).
  destruct (m <? br_FromBlock b) eqn:E1; bool_hyps; unfold br_in in *; simpl in *; intuition lia.
Qed.

Lemma BlockRange_Extend_hull b o :
  BlockRange_IsEmpty b = false -> BlockRange_IsEmpty o = false ->
  forall n, br_in n (BlockRange_Extend b o) <->
    (exists l u, (br_in l b \/ br_in l o) /\ (br_in u b \/ br_in u o) /\ l <= n <= u).
Proof.
  intros Eb Eo n. unfold BlockRange_Extend. rewrite Eb, Eo, br_in_New.
  apply BlockRange_IsEmpty_false in Eb as [? ?], Eo as [? ?]. unfold br_in. split.
  - intros. exists (Z.min (br_FromBlock b) (br_FromBlock o)), (Z.max (br_ToBlock b) (br_ToBlock o)).
    split; [|split; [|lia]].
    + destruct (Z.min_spec (br_FromBlock b) (br_FromBlock o)) as [[? ->]|[? ->]];
        [left | right]; (split; [done | lia]).
    + destruct (Z.max_spec (br_ToBlock b) (br_ToBlock o)) as [[? ->]|[? ->]];
        [right | left]; (split; [done | lia]).
  - intros (l & u & ? & ? & ?). intuition lia.
Qed.

Lemma BlockRange_Merge_in b o n :
  brs_in n (BlockRange_Merge b o) <-> br_in n b \/ br_in n o.
Proof.
  unfold BlockRange_Merge.
  destruct (BlockRange_IsEmpty b) eqn:Eb.
  { rewrite BlockRange_IsEmpty_true in Eb. rewrite brs_in_cons, brs_in_nil. naive_solver. }
  destruct (BlockRange_IsEmpty o) eqn:Eo.
  { rewrite BlockRange_IsEmpty_true in Eo. rewrite brs_in_cons, brs_in_nil. naive_solver. }
  destruct (BlockRange_Overlaps b o) eqn:Hov.
  - apply BlockRange_Overlaps_bounds in Hov as (Nb & No & ?). unfold BlockRange_Extend.
    rewrite Eb, Eo, brs_in_cons, brs_in_nil, br_in_New. unfold br_in. rewrite Nb, No.
    split; [|intuition lia].
    intros [?|[]]. destruct (decide (n <= br_ToBlock b /\ br_FromBlock b <= n));
      [left | right]; (split; [done | lia]).
  - cases; rewrite !brs_in_cons, brs_in_nil; tauto.
Qed.

(** Splitting at a block number partitions the range. *)
Lemma BlockRange_Split_in b k n :
  br_wf b -> is_u64 k ->
  let '(x, y) := BlockRange_SplitByBlockNumber b k in
  (br_in n x <-> br_in n b /\ n <= k) /\ (br_in n y <-> br_in n b /\ k < n).
Proof.
  intros [? ?] Hk. unfold BlockRange_SplitByBlockNumber. pose proof (br_in_Zero n).
  destruct (BlockRange_IsEmpty b) eqn:E.
  { rewrite BlockRange_IsEmpty_true in E. naive_solver. }
  apply BlockRange_IsEmpty_false in E as [? ?].
  destruct (k <? br_FromBlock b) eqn:E1; [|destruct (br_ToBlock b <=? k) eqn:E2];
    bool_hyps; word_small; rewrite ?br_in_New; unfold br_in in *; simpl in *; intuition lia.
Qed.

(** ** Counting and enumerating *)

Lemma BlockRange_CountBlocks_exact b :
  br_wf b -> BlockRange_IsEmpty b = false ->
  BlockRange_CountBlocks b = wrap64 (br_ToBlock b - br_FromBlock b + 1).
Proof.
  intros [? ?] E. unfold BlockRange_CountBlocks. rewrite E.
  apply BlockRange_IsEmpty_false in E as [_ ?].
  destruct (br_ToBlock b <? br_FromBlock b) eqn:E1; [word_lia|].
  unfold add64. by rewrite sub64_small by (unfold_words; lia).
Qed.

Lemma listBlockNumbers_loop_spec fuel i t acc :
  0 <= i <= t + 1 -> t < MaxUint64 -> (Z.to_nat (t + 1 - i) < fuel)%nat ->
  listBlockNumbers_loop fuel i t acc = Some (acc ++ seqZ i (t + 1 - i)).
Proof.
  revert i acc. induction fuel as [|fuel IH]; intros i acc Hi Ht Hf; [lia|].
  simpl. destruct (i <=? t) eqn:E; bool_hyps.
  - rewrite add64_small by (unfold_words; lia). rewrite IH by lia.
    rewrite <-app_assoc. rewrite (seqZ_cons i) by lia.
    do 3 f_equal; simpl; do 2 f_equal; lia.
  - rewrite seqZ_nil by lia. by rewrite app_nil_r.
Qed.

(** With the last [uint64] as upper bound the counter wraps to 0 and the loop goes on. *)
Lemma listBlockNumbers_loop_diverges fuel i acc :
  is_u64 i -> listBlockNumbers_loop fuel i MaxUint64 acc = None.
Proof.
  revert i acc. induction fuel as [|fuel IH]; intros i acc Hi; [done|].
  simpl. destruct (i <=? MaxUint64) eqn:E; [apply IH, add64_range | word_lia].
Qed.

(** [ListBlockNumbers] of a range that ends before the last [uint64] terminates and lists
    exactly the blocks of the range in ascending order, as many as [CountBlocks] says; of a
    non-empty range that ends at the last [uint64] it never terminates. *)
Theorem ListBlockNumbers_enumerates b :
  br_wf b -> BlockRange_IsEmpty b = false ->
  (br_ToBlock b < MaxUint64 ->
   exists l, (forall fuel, (Z.to_nat (BlockRange_CountBlocks b) < fuel)%nat ->
                BlockRange_ListBlockNumbers fuel b = Some l) /\
     l = seqZ (br_FromBlock b) (BlockRange_CountBlocks b) /\
     (forall n, n ∈ l <-> br_in n b) /\
     Z.of_nat (length l) = BlockRange_CountBlocks b) /\
  (br_ToBlock b = MaxUint64 -> forall fuel, BlockRange_ListBlockNumbers fuel b = None).
Proof.
  intros Hwf E. pose proof (BlockRange_CountBlocks_exact b Hwf E) as Hc.
  destruct Hwf as [Hf Ht]. unfold BlockRange_ListBlockNumbers. rewrite E.
  apply BlockRange_IsEmpty_false in E as [Hne ?]. split.
  - intros Hlt. rewrite wrap64_small in Hc by (unfold_words; lia).
    exists (seqZ (br_FromBlock b) (BlockRange_CountBlocks b)). rewrite Hc. split_and!.
    + intros fuel Hfuel. rewrite listBlockNumbers_loop_spec by (unfold_words; lia).
      simpl. do 2 f_equal. lia.
    + done.
    + intros n. rewrite elem_of_seqZ. unfold br_in. naive_solver lia.
    + rewrite length_seqZ. lia.
  - intros Heq fuel. rewrite Heq. by apply listBlockNumbers_loop_diverges.
Qed.

Lemma ListBlockNumbers_enumerates_witness :
  exists l, (forall fuel, (Z.to_nat (BlockRange_CountBlocks (NewBlockRange 5 7)) < fuel)%nat ->
     BlockRange_ListBlockNumbers fuel (NewBlockRange 5 7) = Some l) /\
     l = seqZ 5 (BlockRange_CountBlocks (NewBlockRange 5 7)) /\
     (forall n, n ∈ l <-> br_in n (NewBlockRange 5 7)) /\
     Z.of_nat (length l) = BlockRange_CountBlocks (NewBlockRange 5 7).
Proof.
  refine (proj1 (ListBlockNumbers_enumerates (NewBlockRange 5 7) _ _) _);
    [split; split; vm_compute; congruence | reflexivity | reflexivity].
Defined.

(** ** Chunked queries *)

Section ChunkedProofs.
Context {E T : Type} (fetchChunk : Z -> Z -> result E T) (combine : T -> T -> T).

(** What the chunked query computes: fetch the chunks in order, stop at the first error. *)
Definition fetch_step (all : T) (c : Z * Z) : result (chunked_error E) T :=
  match fetchChunk c.1 c.2 with
  | Ok chunk => Ok (combine all chunk)
  | Err e => Err (ErrChunk c.1 c.2 e)
  end.

Lemma chunk_count_step from to m :
  0 < m -> from <= to -> chunk_count from to m = S (chunk_count (from + m) to m).
Proof.
  intros Hm Hle. unfold chunk_count.
  replace (to - (from + m)) with (to - from + (-1) * m) by lia.
  rewrite Z.div_add by lia. assert (0 <= (to - from) / m) by (apply Z.div_pos; lia). lia.
Qed.

Lemma chunked_loop_spec fuel from to m all :
  0 < m -> 0 <= from -> to + m < pow2_64 -> (chunk_count from to m < fuel)%nat ->
  chunked_loop fetchChunk combine fuel from to m all =
  Some (rfold fetch_step (chunks (chunk_count from to m) from to m) all).
Proof.
  intros Hm. revert from all. induction fuel as [|fuel IH]; intros from all Hf Hto Hfuel; [lia|].
  simpl. destruct (from <=? to) eqn:Ele; bool_hyps.
  - rewrite chunk_count_step in * by lia. cbn [chunks rfold].
    rewrite (proj2 (Z.leb_le from to)) by lia. cbn [rfold].
    rewrite add64_small by (unfold_words; lia). rewrite sub64_small by (unfold_words; lia).
    unfold fetch_step at 1; simpl.
    destruct (fetchChunk from _) as [chunk|e] eqn:Efetch; simpl; [|done].
    destruct (Z.min_spec (from + m - 1) to) as [[Hlt ->]|[Hge ->]].
    + rewrite add64_small by (unfold_words; lia).
      replace (from + m - 1 + 1) with (from + m) by lia. apply IH; lia.
    + rewrite add64_small by (unfold_words; lia).
      destruct fuel as [|fuel]; [lia|]. simpl.
      rewrite (proj2 (Z.leb_gt (to + 1) to)) by lia.
      destruct (chunk_count (from + m) to m); cbn [chunks]; [done|].
      by rewrite (proj2 (Z.leb_gt (from + m) to)) by lia.
  - destruct (chunk_count from to m); simpl; [done|].
    by rewrite (proj2 (Z.leb_gt from to)) by lia.
Qed.

(** Every block of the range is in exactly one chunk, no chunk is longer than [maxRange]. *)
Lemma chunks_cover n from to m x :
  0 < m -> (chunk_count from to m <= n)%nat ->
  from <= x <= to -> exists c, In c (chunks n from to m) /\ c.1 <= x <= c.2.
Proof.
  intros Hm. revert from. induction n as [|n IH]; intros from Hn Hx.
  - rewrite chunk_count_step in Hn by lia. lia.
  - simpl. rewrite (proj2 (Z.leb_le from to)) by lia.
    destruct (decide (x < from + m)).
    + eexists. split; [left; reflexivity | simpl; lia].
    + destruct (IH (from + m)) as (c & ? & ?); [|lia|exists c; simpl; auto].
      rewrite chunk_count_step in Hn by lia. lia.
Qed.

Lemma chunks_bounds n from to m c :
  0 < m -> In c (chunks n from to m) -> from <= c.1 <= c.2 /\ c.2 <= to /\ c.2 - c.1 < m.
Proof.
  intros Hm. revert from. induction n as [|n IH]; intros from; simpl; [tauto|].
  destruct (from <=? to) eqn:Ele; simpl; [|tauto]. bool_hyps.
  intros [<-|Hin]; simpl; [lia|]. apply IH in Hin. lia.
Qed.

(** When the last chunk cannot overflow [uint64], [ChunkedRangeQuery] terminates within
    [chunk_count] iterations (plus the exit test) and returns what fetching the chunks in order
    and combining them returns, or the first error with its chunk; the chunks lie inside the
    range, cover it, and none exceeds [maxRange] blocks. *)
Theorem ChunkedRangeQuery_correct fuel from to maxRange empty :
  0 < maxRange -> 0 <= from -> to + maxRange < pow2_64 ->
  (chunk_count from to maxRange < fuel)%nat ->
  let cs := chunks (chunk_count from to maxRange) from to maxRange in
  ChunkedRangeQuery fetchChunk combine fuel from to maxRange empty = Some (rfold fetch_step cs empty) /\
  (forall x, from <= x <= to <-> exists c, In c cs /\ c.1 <= x <= c.2) /\
  (forall c, In c cs -> c.2 - c.1 < maxRange).
Proof.
  intros Hm Hf Hto Hfuel cs. split; [|split].
  - unfold ChunkedRangeQuery. rewrite (proj2 (Z.eqb_neq maxRange 0)) by lia.
    by apply chunked_loop_spec.
  - intros x. split; [by apply chunks_cover|].
    intros (c & Hin & ?). apply chunks_bounds in Hin; lia.
  - intros c Hin. apply chunks_bounds in Hin; lia.
Qed.
End ChunkedProofs.

(** Summing the chunk lengths of [10, 25] by 7. *)
Lemma ChunkedRangeQuery_correct_witness :
  ChunkedRangeQuery (E := unit) (fun f t => Ok [(f, t)]) app 10 10 25 7 [] =
  Some (rfold (fetch_step (fun f t => Ok [(f, t)]) app) (chunks (chunk_count 10 25 7) 10 25 7) []).
Proof.
  refine (proj1 (ChunkedRangeQuery_correct (E := unit) (fun f t => Ok [(f, t)]) app 10 10 25 7 [] _ _ _ _));
    [lia | lia | reflexivity | vm_compute; lia].
Defined.

(** A [maxRange] close to [2^64] wraps the end of the first chunk below its start. *)
Example ChunkedRangeQuery_wraps :
  ChunkedRangeQuery (E := unit) (fun f t => Ok [(f, t)]) app 10 5 9 MaxUint64 [] =
  Some (Ok [(5, 3); (4, 2); (3, 1); (2, 0); (1, 9)]).
Proof. vm_compute. reflexivity. Qed.
