(* ===== verification/Finality.v ===== *)
(** Block finality tags: [types/block_finality.go].

    A finality names a moving block (latest, safe, ...) with an offset, or a constant
    block. Modelled: the tags, [Equal], [Validate], [ApplyOffset], [CalculateBlockNumber],
    [LessFinalThan] and [NewBlockName]. The numeric values of the tags come from
    go-ethereum's [rpc] package; the code only relies on their being distinct. *)

From S2P Require Import Prelude.

(** ** Data and operations *)

Inductive BlockName : Type :=
| Constant | Safe | Finalized | Latest | Pending | Empty
| UnknownBlock (n : Z).

#[export] Instance BlockName_eq_dec : EqDecision BlockName.
Proof. solve_decision. Defined.

Record BlockNumberFinality : Type := mkFinality {
  bf_Block : BlockName;
  bf_Offset : Z;
  bf_Specific : Z
}.

#[export] Instance BlockNumberFinality_eq_dec : EqDecision BlockNumberFinality.
Proof. solve_decision. Defined.

Definition FinalizedBlock : BlockNumberFinality := mkFinality Finalized 0 0.
Definition LatestBlock : BlockNumberFinality := mkFinality Latest 0 0.
Definition SafeBlock : BlockNumberFinality := mkFinality Safe 0 0.
Definition PendingBlock : BlockNumberFinality := mkFinality Pending 0 0.
(** The zero value of the struct. *)
Definition NoFinality : BlockNumberFinality := mkFinality Empty 0 0.

Definition MaxPositiveOffsetLatest : Z := 0.
Definition MaxPositiveOffsetFinalized : Z := 32.
Definition MaxPositiveOffsetSafe : Z := 64.
Definition MaxPositiveOffsetPending : Z := 0.

Definition BlockName_IsConstant (b : BlockName) : bool := bool_decide (b = Constant).

Definition NewBlockNumber (number : Z) : BlockNumberFinality := mkFinality Constant 0 number.

Definition Finality_Equal (b other : BlockNumberFinality) : bool :=
  if BlockName_IsConstant (bf_Block b)
  then bool_decide (bf_Block b = bf_Block other) && (bf_Specific b =? bf_Specific other)
  else bool_decide (bf_Block b = bf_Block other) && (bf_Offset b =? bf_Offset other).

Inductive finality_error : Type :=
| ErrInvalidBlockFinality
| ErrOffsetExceedsMaximum (offset maxOffset : Z)
| ErrCannotCompareConstant.

Definition Finality_Validate (b : BlockNumberFinality) : result finality_error unit :=
  let check maxOffset :=
    if maxOffset <? bf_Offset b then Err (ErrOffsetExceedsMaximum (bf_Offset b) maxOffset)
    else Ok tt in
  match bf_Block b with
  | Latest => check MaxPositiveOffsetLatest
  | Pending => check MaxPositiveOffsetPending
  | Safe => check MaxPositiveOffsetSafe
  | Finalized => check MaxPositiveOffsetFinalized
  | _ => Err ErrInvalidBlockFinality
  end.

(** [uint64(-offset)] and [uint64(offset)] are conversions of [int64] values. *)
Definition BlockName_ApplyOffset (b : BlockName) (blockNumber offset : Z) : Z :=
  if BlockName_IsConstant b then blockNumber
  else
    let shifted :=
      if offset <? 0 then
        if blockNumber <? wrap64 (- offset) then 0 else blockNumber +u64 wrap64 offset
      else blockNumber +u64 wrap64 offset in
    if bool_decide (b = Latest) then Z.min shifted blockNumber else shifted.

Definition Finality_CalculateBlockNumber (c : BlockNumberFinality) (baseBlockNumber : Z) : Z :=
  BlockName_ApplyOffset (bf_Block c) baseBlockNumber (bf_Offset c).

Definition blockOrder (b : BlockName) : Z :=
  match b with
  | Finalized => 1 | Safe => 2 | Latest => 3 | Pending => 4 | Empty => 5
  | Constant | UnknownBlock _ => 0
  end.

Definition Finality_LessFinalThan (b other : BlockNumberFinality) : result finality_error bool :=
  if BlockName_IsConstant (bf_Block b) && BlockName_IsConstant (bf_Block other)
  then Ok (bf_Specific b <? bf_Specific other)
  else if BlockName_IsConstant (bf_Block b) || BlockName_IsConstant (bf_Block other)
  then Err ErrCannotCompareConstant
  else if blockOrder (bf_Block other) <? blockOrder (bf_Block b) then Ok true
  else if bool_decide (bf_Block b = bf_Block other) then Ok (bf_Offset other <? bf_Offset b)
  else Ok false.

(** ** Lemmas and properties *)

Definition is_i64 (z : Z) : Prop := - 9223372036854775808 <= z <= MaxInt64.

Lemma Finality_Equal_refl b : Finality_Equal b b = true.
Proof. unfold Finality_Equal. cases; by rewrite bool_decide_eq_true_2, Z.eqb_refl. Qed.

(** [Equal] only looks at the block name and the field that matters for it. *)
Lemma Finality_Equal_iff b o :
  Finality_Equal b o = true <->
  bf_Block b = bf_Block o /\
  (if BlockName_IsConstant (bf_Block b) then bf_Specific b = bf_Specific o
   else bf_Offset b = bf_Offset o).
Proof.
  unfold Finality_Equal. destruct (BlockName_IsConstant (bf_Block b));
    rewrite andb_true_iff, bool_decide_eq_true, Z.eqb_eq; done.
Qed.

Lemma Finality_Equal_sym b o : Finality_Equal b o = Finality_Equal o b.
Proof.
  apply eq_bool_prop_intro. rewrite !Is_true_true, !Finality_Equal_iff.
  split; intros [Hb H]; rewrite Hb in *; split; auto; cases; congruence.
Qed.

Lemma ApplyOffset_exact b n offset :
  is_u64 n -> is_i64 offset -> b <> Constant -> b <> Latest -> n + offset < pow2_64 ->
  BlockName_ApplyOffset b n offset = Z.max 0 (n + offset).
Proof.
  intros Hn Ho Hc Hl Hb. unfold BlockName_ApplyOffset, BlockName_IsConstant.
  rewrite bool_decide_eq_false_2, bool_decide_eq_false_2 by done. unfold is_i64 in Ho.
  destruct (offset <? 0) eqn:E; bool_hyps.
  - rewrite (wrap64_small (- offset)) by (unfold_words; lia).
    destruct (n <? - offset) eqn:E1; bool_hyps; [lia|].
    unfold add64, wrap64, pow2_64 in *. unfold_words.
    rewrite Zplus_mod_idemp_r. rewrite Z.mod_small; lia.
  - rewrite wrap64_small by (unfold_words; lia). word_lia.
Qed.

(** Offsets move a block number the way the tag promises: below zero they saturate at block
    0, a latest tag never points past the latest block, a constant block ignores them, and the
    result is always a [uint64]. *)
Theorem ApplyOffset_bounds b n offset :
  is_u64 n -> is_i64 offset ->
  is_u64 (BlockName_ApplyOffset b n offset) /\
  (b = Constant -> BlockName_ApplyOffset b n offset = n) /\
  (b = Latest -> BlockName_ApplyOffset b n offset <= n) /\
  (offset <= 0 -> b <> Constant -> BlockName_ApplyOffset b n offset = Z.max 0 (n + offset)) /\
  (0 <= offset -> b <> Constant -> b <> Latest -> n + offset < pow2_64 ->
     BlockName_ApplyOffset b n offset = n + offset).
Proof.
  intros Hn Ho. unfold is_i64 in Ho.
  destruct (decide (b = Constant)) as [->|Hc].
  { unfold BlockName_ApplyOffset; simpl. split_and!; intros; (done || lia). }
  destruct (decide (b = Latest)) as [->|Hl].
  - assert (BlockName_ApplyOffset Latest n offset =
            Z.min (BlockName_ApplyOffset Pending n offset) n) as -> by done.
    split_and!; intros; try done; try lia.
    + assert (is_u64 (BlockName_ApplyOffset Pending n offset)); [|unfold_words; lia].
      unfold BlockName_ApplyOffset; simpl. cases; auto with aggkit. unfold_words; lia.
    + rewrite ApplyOffset_exact by (done || (unfold_words; lia)). unfold_words; lia.
  - split_and!; intros; try done.
    + unfold BlockName_ApplyOffset, BlockName_IsConstant.
      rewrite bool_decide_eq_false_2, bool_decide_eq_false_2 by done.
      cases; auto with aggkit. unfold_words; lia.
    + rewrite ApplyOffset_exact by (done || (unfold_words; lia)). done.
    + rewrite ApplyOffset_exact by done. unfold_words; lia.
Qed.

Lemma ApplyOffset_bounds_witness : BlockName_ApplyOffset Latest 100 10 <= 100.
Proof.
  refine (proj1 (proj2 (proj2 (ApplyOffset_bounds Latest 100 10 _ _))) _);
    [split; vm_compute; congruence | split; vm_compute; congruence | reflexivity].
Defined.

(** On comparable tags [LessFinalThan] is a strict order: never both ways, and transitive. *)
Lemma LessFinalThan_asym a b :
  Finality_LessFinalThan a b = Ok true -> Finality_LessFinalThan b a <> Ok true.
Proof.
  destruct a as [[] oa sa], b as [[] ob sb]; unfold Finality_LessFinalThan; simpl;
    intros H; try discriminate; cases; bool_hyps; intros ?; simplify_eq; bool_hyps; try lia;
    repeat match goal with H : bool_decide _ = true |- _ => apply bool_decide_eq_true in H end;
    congruence.
Qed.
