(* ===== verification/SyncSegments.v ===== *)
(** Bookkeeping of the multidownloader: [multidownloader/types/sync_segment.go],
    [set_sync_segment.go], [log_query.go], [syncer_config.go] and [multidownloader/state.go].

    A [SetSyncSegment] keeps one block range per contract: the state of the downloader is one
    such set of synced ranges and one of pending ranges. The Go slice of pointers is a list:
    [Add] stores a pointer to its own copy, so no segment is shared between two sets. The
    iteration order of a Go map (the syncer filters) is an argument, the list of its values.
    Receivers are non-nil, as every caller passes the address of a struct field. *)

From S2P Require Import Prelude BlockRange Finality.

(** ** Data *)

Abbreviation Address := Z (only parsing).

Record SyncSegment : Type := mkSyncSegment {
  ss_ContractAddr : Address;
  ss_BlockRange : BlockRange;
  ss_TargetToBlock : BlockNumberFinality
}.

Abbreviation SetSyncSegment := (list SyncSegment) (only parsing).

Record LogQuery : Type := mkLogQuery {
  lq_Addrs : list Address;
  lq_BlockRange : BlockRange;
  lq_BlockHash : option Z
}.

Record SyncerConfig : Type := mkSyncerConfig {
  sc_SyncerID : string;
  sc_ContractAddresses : list Address;
  sc_FromBlock : Z;
  sc_ToBlock : BlockNumberFinality
}.

Record State : Type := mkState {
  st_Synced : SetSyncSegment;
  st_Pending : SetSyncSegment
}.

Inductive sync_error : Type :=
| ErrFinished
| ErrInternalNoAddresses (br : BlockRange)
| ErrCannotSplitSegment (s : SyncSegment) (brs : list BlockRange)
| ErrBlockNumberNotFound (tag : BlockNumberFinality)
| ErrNoSyncedSegment (addr : Address)
| ErrLogQueryNil
| ErrLogQueryEmpty.

(** ** [log_query.go] *)

Definition NewLogQuery (fromBlock toBlock : Z) (addrs : list Address) : LogQuery :=
  mkLogQuery addrs (NewBlockRange fromBlock toBlock) None.

Definition NewLogQueryBlockHash (blockNumber blockHash : Z) (addrs : list Address) : LogQuery :=
  mkLogQuery addrs
    (if blockNumber =? 0 then BlockRangeZero else NewBlockRange blockNumber blockNumber)
    (Some blockHash).

Definition LogQuery_IsEmpty (l : LogQuery) : bool :=
  Nat.eqb (length (lq_Addrs l)) 0 && BlockRange_IsEmpty (lq_BlockRange l)
  && bool_decide (lq_BlockHash l = None).

Definition LogQuery_IsValid (l : option LogQuery) : bool :=
  match l with
  | None => true
  | Some l =>
      if bool_decide (is_Some (lq_BlockHash l)) then true
      else negb (negb (BlockRange_IsEmpty (lq_BlockRange l))
                 && (br_FromBlock (lq_BlockRange l) =? 0) && (br_ToBlock (lq_BlockRange l) =? 0))
  end.

(** ** [sync_segment.go] *)

Definition SyncSegment_NewBlockRange (s : SyncSegment) (br : BlockRange) : SyncSegment :=
  mkSyncSegment (ss_ContractAddr s) br (ss_TargetToBlock s).

Definition SyncSegment_Empty (s : SyncSegment) : SyncSegment :=
  SyncSegment_NewBlockRange s BlockRangeZero.

Definition SyncSegment_IsEmpty (s : SyncSegment) : bool := BlockRange_IsEmpty (ss_BlockRange s).

Definition SyncSegment_IsValid (s : SyncSegment) : bool :=
  if SyncSegment_IsEmpty s then true
  else negb (negb (BlockRange_IsEmpty (ss_BlockRange s))
             && (br_FromBlock (ss_BlockRange s) =? 0) && (br_ToBlock (ss_BlockRange s) =? 0)).

Definition SyncSegment_Equal (s other : SyncSegment) : bool :=
  (ss_ContractAddr s =? ss_ContractAddr other)
  && BlockRange_Equal (ss_BlockRange s) (ss_BlockRange other)
  && Finality_Equal (ss_TargetToBlock s) (ss_TargetToBlock other).

(** ** [set_sync_segment.go] *)

Fixpoint Set_GetByContract (s : SetSyncSegment) (addr : Address) : option SyncSegment :=
  match s with
  | [] => None
  | segment :: s' =>
      if ss_ContractAddr segment =? addr then Some segment else Set_GetByContract s' addr
  end.

Fixpoint Set_UpdateBlockRange (f : SetSyncSegment) (segment : SyncSegment) (newBlockRange : BlockRange)
  : SetSyncSegment :=
  match f with
  | [] => []
  | s :: f' =>
      if SyncSegment_Equal s segment then SyncSegment_NewBlockRange s newBlockRange :: f'
      else s :: Set_UpdateBlockRange f' segment newBlockRange
  end.

Fixpoint Set_Empty (f : SetSyncSegment) (segment : SyncSegment) : SetSyncSegment :=
  match f with
  | [] => []
  | s :: f' =>
      if SyncSegment_Equal s segment then SyncSegment_Empty s :: f'
      else s :: Set_Empty f' segment
  end.

Definition Set_Add (s : SetSyncSegment) (segment : SyncSegment) : SetSyncSegment :=
  match Set_GetByContract s (ss_ContractAddr segment) with
  | None => s ++ [segment]
  | Some current =>
      let newBlockRange :=
        if BlockRange_IsEmpty (ss_BlockRange current) then ss_BlockRange segment
        else BlockRange_Extend (ss_BlockRange current) (ss_BlockRange segment) in
      Set_UpdateBlockRange s current newBlockRange
  end.

Definition Set_Clone (f : SetSyncSegment) : SetSyncSegment := fold_left Set_Add f [].

Definition LogQuery_segment (logQuery : LogQuery) (addr : Address) : SyncSegment :=
  mkSyncSegment addr (lq_BlockRange logQuery) NoFinality.

Definition NewSetSyncSegmentFromLogQuery (logQuery : LogQuery) : SetSyncSegment :=
  fold_left (fun set addr => Set_Add set (LogQuery_segment logQuery addr)) (lq_Addrs logQuery) [].

Definition Set_SubtractSegment (newSegments : SetSyncSegment) (segment : SyncSegment)
  : result sync_error SetSyncSegment :=
  match Set_GetByContract newSegments (ss_ContractAddr segment) with
  | None => Ok newSegments
  | Some previousSegment =>
      if SyncSegment_IsEmpty previousSegment then Ok newSegments
      else
        match BlockRange_Subtract (ss_BlockRange previousSegment) (ss_BlockRange segment) with
        | [] => Ok (Set_Empty newSegments previousSegment)
        | [br] => Ok (Set_UpdateBlockRange newSegments previousSegment br)
        | brs => Err (ErrCannotSplitSegment segment brs)
        end
  end.

Definition Set_SubtractSegments (f segments : SetSyncSegment) : result sync_error SetSyncSegment :=
  rfold Set_SubtractSegment segments (Set_Clone f).

Definition Set_SubtractLogQuery (f : SetSyncSegment) (logQuery : option LogQuery)
  : result sync_error SetSyncSegment :=
  match logQuery with
  | None => Ok f
  | Some logQuery => Set_SubtractSegments f (NewSetSyncSegmentFromLogQuery logQuery)
  end.

Fixpoint isIncluded (ranges : list BlockRange) (br : BlockRange) : bool :=
  match ranges with
  | [] => false
  | r :: ranges' => if BlockRange_Contains r br then true else isIncluded ranges' br
  end.

(** One outer iteration of [TotalBlocks]: merge every expanded range with the new segment. *)
Definition TotalBlocks_expand (expanded : list BlockRange) (segment : SyncSegment) : list BlockRange :=
  fold_left (fun newExpanded br =>
    fold_left (fun ne m => if isIncluded ne m then ne else ne ++ [m])
      (BlockRange_Merge br (ss_BlockRange segment)) newExpanded)
    expanded [].

Definition Set_TotalBlocks (f : SetSyncSegment) : Z :=
  match f with
  | [] => 0
  | s :: f' =>
      fold_left (fun total br => total +u64 BlockRange_CountBlocks br)
        (fold_left TotalBlocks_expand f' [ss_BlockRange s]) 0
  end.

Definition Set_GetTargetToBlockTags (f : SetSyncSegment) : list BlockNumberFinality :=
  fold_left (fun result segment =>
    if bool_decide (ss_TargetToBlock segment ∈ result) then result
    else result ++ [ss_TargetToBlock segment]) f [].

Fixpoint Set_IsAvailable_loop (f : SetSyncSegment) (addrs : list Address) (br : BlockRange) : bool :=
  match addrs with
  | [] => true
  | addr :: addrs' =>
      match Set_GetByContract f addr with
      | None => false
      | Some segment =>
          if BlockRange_Contains (ss_BlockRange segment) br then Set_IsAvailable_loop f addrs' br
          else false
      end
  end.

Definition Set_IsAvailable (f : SetSyncSegment) (query : LogQuery) : bool :=
  Set_IsAvailable_loop f (lq_Addrs query) (lq_BlockRange query).

(** The loop of [IsPartiallyAvailable]; [maxAvailableToBlock] is a nilable pointer. *)
Fixpoint Set_PartialTo (f : SetSyncSegment) (br : BlockRange) (addrs : list Address)
  (maxAvailableToBlock : option Z) : option Z :=
  match addrs with
  | [] => maxAvailableToBlock
  | addr :: addrs' =>
      match Set_GetByContract f addr with
      | None => None
      | Some segment =>
          let intersection := BlockRange_Intersect (ss_BlockRange segment) br in
          if BlockRange_IsEmpty intersection then None
          else if negb (br_FromBlock intersection =? br_FromBlock br) then None
          else
            Set_PartialTo f br addrs'
              (match maxAvailableToBlock with
               | None => Some (br_ToBlock intersection)
               | Some m => if br_ToBlock intersection <? m then Some (br_ToBlock intersection) else Some m
               end)
      end
  end.

Definition Set_IsPartiallyAvailable (f : SetSyncSegment) (query : LogQuery) : option LogQuery :=
  if Nat.eqb (length (lq_Addrs query)) 0 then None
  else
    match Set_PartialTo f (lq_BlockRange query) (lq_Addrs query) None with
    | None => None
    | Some m => Some (mkLogQuery (lq_Addrs query)
                        (NewBlockRange (br_FromBlock (lq_BlockRange query)) m) None)
    end.

Definition Set_GetLowestFromBlockSegment (f : SetSyncSegment) : option SyncSegment :=
  fold_left (fun lower segment =>
    match lower with
    | None => Some segment
    | Some l =>
        if br_FromBlock (ss_BlockRange segment) <? br_FromBlock (ss_BlockRange l)
        then Some segment else Some l
    end) f None.

Definition Set_GetAddressesForBlockRange (f : SetSyncSegment) (blockRange : BlockRange) : list Address :=
  map ss_ContractAddr (bfilter (fun s => BlockRange_Overlaps (ss_BlockRange s) blockRange) f).

Definition Set_GetAddressesForBlock (f : SetSyncSegment) (blockNumber : Z) : list Address :=
  Set_GetAddressesForBlockRange f (NewBlockRange blockNumber blockNumber).

Definition Set_NextQuery (f : SetSyncSegment) (syncBlockChunkSize maxBlockNumber : Z)
  (applyMaxBlockNumber : bool) : result sync_error LogQuery :=
  match Set_GetLowestFromBlockSegment f with
  | None => Err ErrFinished
  | Some lowestSegment =>
      let lr := ss_BlockRange lowestSegment in
      let br := BlockRange_Intersect lr
        (NewBlockRange (br_FromBlock lr) (br_FromBlock lr +u64 syncBlockChunkSize -u64 1)) in
      let br := if applyMaxBlockNumber then BlockRange_Cap br maxBlockNumber else br in
      if BlockRange_IsEmpty br then Err ErrFinished
      else
        let addrs := Set_GetAddressesForBlockRange f br in
        if Nat.eqb (length addrs) 0 then Err (ErrInternalNoAddresses br)
        else Ok (mkLogQuery addrs br None)
  end.

Definition Set_GetHighestBlockNumber (f : SetSyncSegment) : Z * BlockNumberFinality :=
  fold_left (fun '(highest, finality) segment =>
    if highest <? br_ToBlock (ss_BlockRange segment)
    then (br_ToBlock (ss_BlockRange segment), ss_TargetToBlock segment)
    else (highest, finality)) f (0, LatestBlock).

Definition Set_GetTotalPendingBlockRange (f : SetSyncSegment) : option BlockRange :=
  fold_left (fun totalRange segment =>
    if SyncSegment_IsEmpty segment then totalRange
    else match totalRange with
         | None => Some (ss_BlockRange segment)
         | Some t => Some (BlockRange_Extend t (ss_BlockRange segment))
         end) f None.

Fixpoint Set_Finished (f : SetSyncSegment) : bool :=
  match f with
  | [] => true
  | segment :: f' => if SyncSegment_IsEmpty segment then Set_Finished f' else false
  end.

Definition Set_Remove (f : SetSyncSegment) (segmentToRemove : SyncSegment) : SetSyncSegment :=
  bfilter (fun s => negb (SyncSegment_Equal s segmentToRemove)) f.

Definition Set_AddLogQuery (f : SetSyncSegment) (logQuery : option LogQuery) : SetSyncSegment :=
  match logQuery with
  | None => f
  | Some logQuery =>
      fold_left (fun set addr => Set_Add set (LogQuery_segment logQuery addr)) (lq_Addrs logQuery) f
  end.

Fixpoint Set_SegmentsByContract (s : SetSyncSegment) (addrs : list Address) : list SyncSegment :=
  match addrs with
  | [] => []
  | addr :: addrs' =>
      match Set_GetByContract s addr with
      | Some segment => segment :: Set_SegmentsByContract s addrs'
      | None => Set_SegmentsByContract s addrs'
      end
  end.

Definition Set_GetContracts (s : SetSyncSegment) : list Address := map ss_ContractAddr s.

(** ** [syncer_config.go]: the segments a set of syncers asks for *)

(** The two nested loops of [SyncSegments], over the filters and their contracts. *)
Definition SyncSegments (filters : list SyncerConfig)
  (blockNumbers : BlockNumberFinality -> option Z) : result sync_error SetSyncSegment :=
  rfold (fun segments filter =>
    rfold (fun segments addr =>
      match blockNumbers (sc_ToBlock filter) with
      | None => Err (ErrBlockNumberNotFound (sc_ToBlock filter))
      | Some toBlock =>
          Ok (Set_Add segments
                (mkSyncSegment addr (NewBlockRange (sc_FromBlock filter) toBlock) (sc_ToBlock filter)))
      end) (sc_ContractAddresses filter) segments) filters [].

(** ** [state.go] *)

Definition NewStateFromStorageSyncedBlocks (storageSynced totalToSync : SetSyncSegment)
  : result sync_error State :=
  let? pending := Set_SubtractSegments totalToSync storageSynced in
  Ok (mkState storageSynced pending).

Definition State_Clone (s : State) : State :=
  mkState (Set_Clone (st_Synced s)) (Set_Clone (st_Pending s)).

Definition State_ExtendPendingRange (s : State) (mapBlocks : BlockNumberFinality -> option Z)
  (syncersConfig : list SyncerConfig) : result sync_error State :=
  let? newSyncSegments := SyncSegments syncersConfig mapBlocks in
  rfold (fun s segment =>
    if BlockRange_IsEmpty (ss_BlockRange segment) then Ok s
    else
      match Set_GetByContract (st_Synced s) (ss_ContractAddr segment) with
      | None => Err (ErrNoSyncedSegment (ss_ContractAddr segment))
      | Some synced =>
          match BlockRange_Subtract (ss_BlockRange segment) (ss_BlockRange synced) with
          | [] => Ok s
          | sub0 :: _ =>
              Ok (mkState (st_Synced s) (Set_Add (st_Pending s) (SyncSegment_NewBlockRange segment sub0)))
          end
      end) newSyncSegments s.

Definition State_GetHighestBlockNumberPendingToSync (s : State) : Z * BlockNumberFinality :=
  let '(bn, tag) := Set_GetHighestBlockNumber (st_Pending s) in
  if bn =? 0 then Set_GetHighestBlockNumber (st_Synced s) else (bn, tag).

Definition State_IsAvailable (s : State) (query : LogQuery) : bool :=
  Set_IsAvailable (st_Synced s) query.

Definition State_IsPartiallyAvailable (s : State) (query : LogQuery) : option LogQuery :=
  Set_IsPartiallyAvailable (st_Synced s) query.

Definition State_IsSyncFinished (s : State) : bool := Set_Finished (st_Pending s).

Definition State_TotalBlocksPendingToSync (s : State) : Z := Set_TotalBlocks (st_Pending s).

Definition State_OnNewSyncedLogQuery (s : State) (logQuery : option LogQuery)
  : result sync_error State :=
  match logQuery with
  | None => Err ErrLogQueryNil
  | Some q =>
      if LogQuery_IsEmpty q then Err ErrLogQueryEmpty
      else
        let clonedSynced := Set_Clone (st_Synced s) in
        let clonedPending := Set_Clone (st_Pending s) in
        let clonedSynced := Set_AddLogQuery clonedSynced (Some q) in
        let? clonedPending := Set_SubtractLogQuery clonedPending (Some q) in
        Ok (mkState clonedSynced clonedPending)
  end.

Definition State_NextQueryToSync (s : State) (syncBlockChunkSize maxBlockNumber : Z)
  (applyMaxBlockNumber : bool) : result sync_error LogQuery :=
  Set_NextQuery (st_Pending s) syncBlockChunkSize maxBlockNumber applyMaxBlockNumber.

(** ** Specification

    What a set records about a contract: its range, or nothing. A set is well formed when it
    has one segment per contract and the bounds of its ranges are [uint64] values. *)

Definition range_of (f : SetSyncSegment) (a : Address) : option BlockRange :=
  ss_BlockRange <$> Set_GetByContract f a.

(** Block [n] of contract [a] is covered by the set. *)
Definition covered (f : SetSyncSegment) (a : Address) (n : Z) : Prop :=
  exists br, range_of f a = Some br /\ br_in n br.

Definition set_wf (f : SetSyncSegment) : Prop :=
  NoDup (Set_GetContracts f) /\ Forall (fun s => br_wf (ss_BlockRange s)) f.

(** Pending work: the number of blocks of all segments. *)
Definition pending_work (f : SetSyncSegment) : Z :=
  foldr Z.add 0 (map (fun s => BlockRange_CountBlocks (ss_BlockRange s)) f).

(** ** Lemmas on segment equality and lookup *)

Lemma BlockRange_Equal_refl b : BlockRange_Equal b b = true.
Proof. unfold BlockRange_Equal. cases; [done|]. rewrite !Z.eqb_refl. by destruct (BlockRange_IsEmpty b). Qed.

Lemma SyncSegment_Equal_refl s : SyncSegment_Equal s s = true.
Proof. unfold SyncSegment_Equal. by rewrite Z.eqb_refl, BlockRange_Equal_refl, Finality_Equal_refl. Qed.

Lemma SyncSegment_Equal_addr s o : SyncSegment_Equal s o = true -> ss_ContractAddr s = ss_ContractAddr o.
Proof. unfold SyncSegment_Equal. intros. bool_hyps. done. Qed.

Lemma GetByContract_addr f a s : Set_GetByContract f a = Some s -> ss_ContractAddr s = a.
Proof.
  induction f as [|s' f IH]; simpl; [done|].
  destruct (ss_ContractAddr s' =? a) eqn:E; bool_hyps; [naive_solver | auto].
Qed.

Lemma GetByContract_In f a s : Set_GetByContract f a = Some s -> In s f.
Proof.
  induction f as [|s' f IH]; simpl; [done|].
  destruct (ss_ContractAddr s' =? a); [intros [= ->]; auto | auto].
Qed.

Lemma GetByContract_None f a : Set_GetByContract f a = None <-> a ∉ Set_GetContracts f.
Proof.
  induction f as [|s f IH]; simpl; [split; [intros _; apply not_elem_of_nil | done]|].
  rewrite not_elem_of_cons. destruct (ss_ContractAddr s =? a) eqn:E; bool_hyps; naive_solver.
Qed.

Lemma GetByContract_NoDup f s :
  NoDup (Set_GetContracts f) -> In s f -> Set_GetByContract f (ss_ContractAddr s) = Some s.
Proof.
  induction f as [|s' f IH]; simpl; [done|]. rewrite NoDup_cons. intros [Hni Hnd] [->|Hin].
  - by rewrite Z.eqb_refl.
  - destruct (ss_ContractAddr s' =? ss_ContractAddr s) eqn:E; [|auto]. bool_hyps.
    destruct Hni. rewrite E. apply list_elem_of_In, in_map, Hin.
Qed.

Lemma GetByContract_app f g a :
  Set_GetByContract (f ++ g) a =
  match Set_GetByContract f a with Some s => Some s | None => Set_GetByContract g a end.
Proof. induction f as [|s f IH]; simpl; [done|]. by destruct (ss_ContractAddr s =? a). Qed.

(** Updating the segment a lookup returned changes that contract's range and nothing else. *)
Lemma UpdateBlockRange_lookup f a c br a' :
  Set_GetByContract f a = Some c ->
  Set_GetByContract (Set_UpdateBlockRange f c br) a' =
  if a' =? a then Some (SyncSegment_NewBlockRange c br) else Set_GetByContract f a'.
Proof.
  intros Hget. pose proof (GetByContract_addr _ _ _ Hget) as Ha. revert Hget.
  induction f as [|s f IH]; simpl; [done|].
  destruct (ss_ContractAddr s =? a) eqn:E; bool_hyps.
  - intros [= ->]. rewrite SyncSegment_Equal_refl. simpl. rewrite Ha.
    rewrite (Z.eqb_sym a a'). by destruct (a' =? a).
  - intros Hget. destruct (SyncSegment_Equal s c) eqn:Eq.
    { apply SyncSegment_Equal_addr in Eq. congruence. }
    simpl. rewrite IH by done.
    destruct (ss_ContractAddr s =? a') eqn:E1, (a' =? a) eqn:E2; bool_hyps; congruence.
Qed.

Lemma UpdateBlockRange_contracts f c br :
  Set_GetContracts (Set_UpdateBlockRange f c br) = Set_GetContracts f.
Proof.
  unfold Set_GetContracts. induction f as [|s f IH]; simpl; [done|].
  destruct (SyncSegment_Equal s c); simpl; by rewrite ?IH.
Qed.

Lemma UpdateBlockRange_Forall P f c br :
  Forall P f -> (forall s, P s -> P (SyncSegment_NewBlockRange s br)) ->
  Forall P (Set_UpdateBlockRange f c br).
Proof.
  induction 1; intros; simpl; [done|]. destruct (SyncSegment_Equal x c); auto.
Qed.

(** Emptying is updating with the empty range. *)
Lemma Set_Empty_update f c : Set_Empty f c = Set_UpdateBlockRange f c BlockRangeZero.
Proof. induction f as [|s f IH]; simpl; [done|]. by rewrite IH. Qed.

(** ** Adding *)

Lemma BlockRange_Extend_wf b o : br_wf b -> br_wf o -> br_wf (BlockRange_Extend b o).
Proof.
  intros [? ?] [? ?]. unfold BlockRange_Extend. cases; try done.
  split; simpl; unfold_words; lia.
Qed.

(** The range [Add] leaves for a contract that was there: [Extend] absorbs empty ranges. *)
Lemma Add_range f s a :
  range_of (Set_Add f s) a =
  if a =? ss_ContractAddr s
  then Some (match range_of f a with
             | None => ss_BlockRange s
             | Some br => BlockRange_Extend br (ss_BlockRange s)
             end)
  else range_of f a.
Proof.
  unfold range_of, Set_Add.
  destruct (Set_GetByContract f (ss_ContractAddr s)) as [c|] eqn:Hget.
  - rewrite (UpdateBlockRange_lookup _ _ _ _ _ Hget).
    destruct (a =? ss_ContractAddr s) eqn:E; [|done]. bool_hyps. subst. rewrite Hget. simpl.
    f_equal. unfold BlockRange_Extend. by destruct (BlockRange_IsEmpty (ss_BlockRange c)).
  - rewrite GetByContract_app. simpl. rewrite (Z.eqb_sym (ss_ContractAddr s)).
    destruct (a =? ss_ContractAddr s) eqn:E; bool_hyps; [subst; by rewrite Hget|].
    by destruct (Set_GetByContract f a).
Qed.

Lemma Add_wf f s : set_wf f -> br_wf (ss_BlockRange s) -> set_wf (Set_Add f s).
Proof.
  intros [Hnd Hwf] Hs. unfold Set_Add.
  destruct (Set_GetByContract f (ss_ContractAddr s)) as [c|] eqn:Hget.
  - split; [by rewrite UpdateBlockRange_contracts|].
    apply UpdateBlockRange_Forall; [done|]. intros ? ?. simpl.
    apply GetByContract_In in Hget. rewrite Forall_forall in Hwf.
    cases; [done|]. apply BlockRange_Extend_wf; [|done]. apply Hwf, list_elem_of_In, Hget.
  - apply GetByContract_None in Hget. split.
    + unfold Set_GetContracts in *. rewrite map_app. simpl. apply NoDup_app. split_and!; [done| |].
      * intros x Hx Heq. apply list_elem_of_singleton in Heq. by subst.
      * apply NoDup_singleton.
    + apply Forall_app. auto.
Qed.

(** Adding a segment for a contract the set does not have appends it. *)
Lemma Add_fresh f s : ss_ContractAddr s ∉ Set_GetContracts f -> Set_Add f s = f ++ [s].
Proof. intros H. unfold Set_Add. by rewrite (proj2 (GetByContract_None _ _) H). Qed.

Lemma fold_Add_fresh g f :
  NoDup (Set_GetContracts (f ++ g)) -> fold_left Set_Add g f = f ++ g.
Proof.
  revert f. induction g as [|s g IH]; intros f Hnd; simpl; [by rewrite app_nil_r|].
  rewrite Add_fresh, IH; rewrite <-?app_assoc; simpl; [done | done |].
  unfold Set_GetContracts in *. rewrite map_app in Hnd. simpl in Hnd.
  apply NoDup_app in Hnd as (_ & Hd & _). intros Hin. apply (Hd _ Hin). by left.
Qed.

(** [Clone] of a set with one segment per contract is a copy. *)
Lemma Clone_id f : NoDup (Set_GetContracts f) -> Set_Clone f = f.
Proof. intros. unfold Set_Clone. by rewrite fold_Add_fresh. Qed.

(** ** Subtracting *)

Lemma covered_range f g a n : range_of f a = range_of g a -> covered f a n <-> covered g a n.
Proof. unfold covered. by intros ->. Qed.

Lemma covered_Some f a n br : range_of f a = Some br -> covered f a n <-> br_in n br.
Proof. unfold covered. intros ->. naive_solver. Qed.

Lemma range_of_wf f a br : set_wf f -> range_of f a = Some br -> br_wf br.
Proof.
  intros [_ Hwf] H. unfold range_of in H. apply fmap_Some in H as (s & Hget & ->).
  apply GetByContract_In in Hget. rewrite Forall_forall in Hwf. by apply Hwf, list_elem_of_In.
Qed.

(** Replacing the range of the contract of [c]. *)
Lemma Update_range f a c br a' :
  Set_GetByContract f a = Some c ->
  range_of (Set_UpdateBlockRange f c br) a' = if a' =? a then Some br else range_of f a'.
Proof.
  intros Hget. unfold range_of. rewrite (UpdateBlockRange_lookup _ _ _ _ _ Hget).
  by destruct (a' =? a).
Qed.

Lemma Update_wf f c br : set_wf f -> br_wf br -> set_wf (Set_UpdateBlockRange f c br).
Proof.
  intros [Hnd Hwf] Hbr. split; [by rewrite UpdateBlockRange_contracts|].
  by apply UpdateBlockRange_Forall.
Qed.

Lemma BlockRangeZero_wf : br_wf BlockRangeZero.
Proof. split; split; vm_compute; congruence. Qed.
#[export] Hint Resolve BlockRangeZero_wf Update_wf Add_wf : aggkit.

Lemma Subtract_pieces_wf b o r :
  br_wf b -> br_wf o -> BlockRange_IsEmpty b = false -> In r (BlockRange_Subtract b o) -> br_wf r.
Proof.
  intros Hb Ho Hne Hin. destruct (BlockRange_Subtract_shape b o Hb Ho Hne) as [Hf _].
  rewrite Forall_forall in Hf. by apply Hf, list_elem_of_In.
Qed.

Lemma Update_covered f p s br a n :
  Set_GetByContract f (ss_ContractAddr s) = Some p ->
  (br_in n br <-> br_in n (ss_BlockRange p) /\ ~ br_in n (ss_BlockRange s)) ->
  covered (Set_UpdateBlockRange f p br) a n <->
  covered f a n /\ ~ (a = ss_ContractAddr s /\ br_in n (ss_BlockRange s)).
Proof.
  intros Hget Hbr. pose proof (Update_range _ _ _ br a Hget) as Hr.
  destruct (a =? ss_ContractAddr s) eqn:Ea; bool_hyps; [subst|].
  - rewrite (covered_Some _ _ _ _ Hr).
    rewrite (covered_Some f _ n (ss_BlockRange p)) by (unfold range_of; by rewrite Hget). tauto.
  - rewrite (covered_range _ _ _ _ Hr). tauto.
Qed.

(** One subtraction step, when it succeeds. *)
Lemma SubtractSegment_covered f s g :
  set_wf f -> br_wf (ss_BlockRange s) -> Set_SubtractSegment f s = Ok g ->
  set_wf g /\ Set_GetContracts g = Set_GetContracts f /\
  forall a n, covered g a n <->
    covered f a n /\ ~ (a = ss_ContractAddr s /\ br_in n (ss_BlockRange s)).
Proof.
  intros Hf Hs. unfold Set_SubtractSegment.
  destruct (Set_GetByContract f (ss_ContractAddr s)) as [p|] eqn:Hget; cycle 1.
  { intros [= <-]. split_and!; [done | done|]. intros a n. split; [|tauto].
    intros Hc. split; [done|]. intros [-> _]. destruct Hc as (br & Hr & _).
    unfold range_of in Hr. by rewrite Hget in Hr. }
  assert (range_of f (ss_ContractAddr s) = Some (ss_BlockRange p)) as Hr
    by (unfold range_of; by rewrite Hget).
  destruct (SyncSegment_IsEmpty p) eqn:Hemp.
  { intros [= <-]. split_and!; [done | done|]. intros a n. split; [|tauto].
    intros Hc. split; [done|]. intros [-> _]. apply (covered_Some _ _ _ _ Hr) in Hc.
    unfold SyncSegment_IsEmpty in Hemp. rewrite BlockRange_IsEmpty_true in Hemp. by apply Hemp in Hc. }
  pose proof (range_of_wf _ _ _ Hf Hr) as Hp.
  pose proof (fun n => BlockRange_Subtract_in _ _ n Hp Hs) as Hin.
  pose proof (fun r => Subtract_pieces_wf _ _ r Hp Hs Hemp) as Hpw.
  destruct (BlockRange_Subtract (ss_BlockRange p) (ss_BlockRange s)) as [|br [|? ?]]; [| |done];
    intros [= <-]; rewrite ?Set_Empty_update;
    (split_and!; [apply Update_wf; auto with aggkit; apply Hpw; by left
                 | apply UpdateBlockRange_contracts |]);
    intros a n; apply (Update_covered _ _ _ _ _ _ Hget); rewrite <-Hin, ?brs_in_cons, brs_in_nil;
    pose proof (br_in_Zero n); tauto.
Qed.

Lemma SubtractSegments_covered segs f g :
  set_wf f -> Forall (fun s => br_wf (ss_BlockRange s)) segs ->
  rfold Set_SubtractSegment segs f = Ok g ->
  set_wf g /\ Set_GetContracts g = Set_GetContracts f /\
  forall a n, covered g a n <-> covered f a n /\
    ~ Exists (fun s => a = ss_ContractAddr s /\ br_in n (ss_BlockRange s)) segs.
Proof.
  revert f. induction segs as [|s segs IH]; intros f Hf Hsegs; cbn [rfold].
  { intros [= <-]. split_and!; [done | done|]. intros. rewrite Exists_nil. tauto. }
  apply Forall_cons in Hsegs as [Hs Hsegs]. intros H. inv_ok H as f' Hstep.
  destruct (SubtractSegment_covered _ _ _ Hf Hs Hstep) as (Hf' & Hc' & Hcov').
  destruct (IH _ Hf' Hsegs H) as (Hg & Hc & Hcov). split_and!; [done | congruence|].
  intros a n. rewrite Hcov, Hcov', Exists_cons. tauto.
Qed.

(** ** The segments of a log query *)

Lemma BlockRange_Extend_self b : BlockRange_Extend b b = b.
Proof.
  unfold BlockRange_Extend. destruct (BlockRange_IsEmpty b) eqn:E; [done|].
  apply BlockRange_IsEmpty_false in E as [Hne _]. destruct b; simpl in *; subst.
  unfold NewBlockRange. by rewrite Z.min_id, Z.max_id.
Qed.

Lemma fold_LogQuery_wf q addrs f :
  set_wf f -> br_wf (lq_BlockRange q) ->
  set_wf (fold_left (fun set addr => Set_Add set (LogQuery_segment q addr)) addrs f).
Proof. revert f. induction addrs; simpl; auto with aggkit. Qed.

Lemma BlockRange_Extend_idem b o :
  BlockRange_Extend (BlockRange_Extend b o) o = BlockRange_Extend b o.
Proof.
  unfold BlockRange_Extend at 2 3. destruct (BlockRange_IsEmpty b) eqn:Eb.
  { apply BlockRange_Extend_self. }
  destruct (BlockRange_IsEmpty o) eqn:Eo; [unfold BlockRange_Extend; by rewrite Eb, Eo|].
  unfold BlockRange_Extend. rewrite Eo.
  apply BlockRange_IsEmpty_false in Eb as [_ ?], Eo as [_ ?].
  rewrite (proj2 (BlockRange_IsEmpty_false _)) by (simpl; split; [done | lia]).
  unfold NewBlockRange; simpl. f_equal; lia.
Qed.

Lemma fold_LogQuery_range q addrs f a :
  range_of (fold_left (fun set addr => Set_Add set (LogQuery_segment q addr)) addrs f) a =
  if bool_decide (a ∈ addrs)
  then Some (match range_of f a with
             | None => lq_BlockRange q
             | Some br => BlockRange_Extend br (lq_BlockRange q)
             end)
  else range_of f a.
Proof.
  revert f. induction addrs as [|x addrs IH]; intros f; cbn [fold_left].
  { rewrite bool_decide_eq_false_2; [done | apply not_elem_of_nil]. }
  rewrite IH, Add_range; simpl.
  destruct (a =? x) eqn:E; bool_hyps.
  - subst. rewrite (bool_decide_eq_true_2 (x ∈ x :: addrs)) by left.
    destruct (bool_decide (x ∈ addrs)); [|done].
    destruct (range_of f x) eqn:Hr; [by rewrite BlockRange_Extend_idem | by rewrite BlockRange_Extend_self].
  - erewrite (bool_decide_ext (a ∈ x :: addrs) (a ∈ addrs)); [done|].
    rewrite elem_of_cons. naive_solver.
Qed.

Lemma NewSetFromLogQuery_wf q :
  br_wf (lq_BlockRange q) -> set_wf (NewSetSyncSegmentFromLogQuery q).
Proof. intros. apply fold_LogQuery_wf; [|done]. split; [apply NoDup_nil_2 | constructor]. Qed.

Lemma NewSetFromLogQuery_Exists q a n :
  br_wf (lq_BlockRange q) ->
  Exists (fun s => a = ss_ContractAddr s /\ br_in n (ss_BlockRange s))
    (NewSetSyncSegmentFromLogQuery q) <-> a ∈ lq_Addrs q /\ br_in n (lq_BlockRange q).
Proof.
  intros Hq. pose proof (NewSetFromLogQuery_wf q Hq) as [Hnd _].
  assert (range_of (NewSetSyncSegmentFromLogQuery q) a =
          if bool_decide (a ∈ lq_Addrs q) then Some (lq_BlockRange q) else None) as Hr.
  { unfold NewSetSyncSegmentFromLogQuery. by rewrite fold_LogQuery_range. }
  rewrite Exists_exists. split.
  - intros (s & Hin%list_elem_of_In & -> & Hn).
    unfold range_of in Hr. rewrite (GetByContract_NoDup _ _ Hnd Hin) in Hr.
    destruct (bool_decide_reflect (ss_ContractAddr s ∈ lq_Addrs q)) as [Ha|]; [|discriminate].
    injection Hr as <-. done.
  - intros [Ha Hn]. rewrite bool_decide_eq_true_2 in Hr by done.
    unfold range_of in Hr. apply fmap_Some in Hr as (s & Hget & Heq). exists s.
    split; [apply list_elem_of_In; by eapply GetByContract_In|].
    rewrite <-Heq. split; [by apply GetByContract_addr in Hget | done].
Qed.

(** Recording a synced query in the synced set only adds blocks. *)
Lemma AddLogQuery_covered f q a n :
  covered f a n -> covered (Set_AddLogQuery f (Some q)) a n.
Proof.
  intros (br & Hr & Hn). unfold covered, Set_AddLogQuery. rewrite fold_LogQuery_range, Hr.
  destruct (bool_decide (a ∈ lq_Addrs q)); [|eauto]. eexists. split; [done|].
  unfold BlockRange_Extend. destruct (BlockRange_IsEmpty br) eqn:Eb.
  { rewrite BlockRange_IsEmpty_true in Eb. by apply Eb in Hn. }
  destruct (BlockRange_IsEmpty (lq_BlockRange q)); [done|]. rewrite br_in_New. unfold br_in in Hn. lia.
Qed.

Lemma AddLogQuery_query f q a n :
  a ∈ lq_Addrs q -> br_in n (lq_BlockRange q) -> covered (Set_AddLogQuery f (Some q)) a n.
Proof.
  intros Ha Hn. unfold covered, Set_AddLogQuery.
  rewrite fold_LogQuery_range, bool_decide_eq_true_2 by done. eexists. split; [done|].
  destruct (range_of f a) as [br|]; [|done]. unfold BlockRange_Extend.
  destruct (BlockRange_IsEmpty br); [done|].
  destruct (BlockRange_IsEmpty (lq_BlockRange q)) eqn:Eq.
  { rewrite BlockRange_IsEmpty_true in Eq. by apply Eq in Hn. }
  rewrite br_in_New. unfold br_in in Hn. lia.
Qed.

(** When [OnNewSyncedLogQuery] succeeds, both sets stay well formed, the pending blocks of
    every contract are exactly the pending blocks before minus the blocks of the query for the
    contracts of the query, every block of the query is synced for those contracts, nothing
    synced is lost, and the synced range of the other contracts does not change. *)
Theorem OnNewSyncedLogQuery_bookkeeping s q s' :
  set_wf (st_Synced s) -> set_wf (st_Pending s) -> br_wf (lq_BlockRange q) ->
  State_OnNewSyncedLogQuery s (Some q) = Ok s' ->
  set_wf (st_Synced s') /\ set_wf (st_Pending s') /\
  (forall a n, covered (st_Pending s') a n <->
     covered (st_Pending s) a n /\ ~ (a ∈ lq_Addrs q /\ br_in n (lq_BlockRange q))) /\
  (forall a n, a ∈ lq_Addrs q -> br_in n (lq_BlockRange q) -> covered (st_Synced s') a n) /\
  (forall a n, covered (st_Synced s) a n -> covered (st_Synced s') a n) /\
  (forall a, a ∉ lq_Addrs q -> range_of (st_Synced s') a = range_of (st_Synced s) a).
Proof.
  intros [HsN HsW] Hp Hq. unfold State_OnNewSyncedLogQuery.
  destruct (LogQuery_IsEmpty q); [done|]. rewrite (Clone_id (st_Synced s)) by done.
  unfold Set_SubtractLogQuery, Set_SubtractSegments.
  rewrite (Clone_id (st_Pending s)), (Clone_id (st_Pending s)) by apply Hp.
  intros H. inv_ok H as p' Hsub. injection H as <-.
  destruct (SubtractSegments_covered _ _ _ Hp (proj2 (NewSetFromLogQuery_wf q Hq)) Hsub)
    as (Hp' & _ & Hcov). simpl. split_and!.
  - apply fold_LogQuery_wf; [done | done].
  - done.
  - intros a n. by rewrite Hcov, NewSetFromLogQuery_Exists.
  - intros. by apply AddLogQuery_query.
  - intros. by apply AddLogQuery_covered.
  - intros a Ha. unfold Set_AddLogQuery. by rewrite fold_LogQuery_range, bool_decide_eq_false_2.
Qed.

(** Two contracts pending on [1, 100]; the first 50 blocks of contract 7 get synced. *)
Definition example_pending : SetSyncSegment :=
  [mkSyncSegment 7 (NewBlockRange 1 100) LatestBlock; mkSyncSegment 9 (NewBlockRange 1 100) LatestBlock].

Lemma OnNewSyncedLogQuery_bookkeeping_witness :
  covered (st_Pending (mkState [mkSyncSegment 7 (NewBlockRange 1 50) NoFinality]
    [mkSyncSegment 7 (NewBlockRange 51 100) LatestBlock; mkSyncSegment 9 (NewBlockRange 1 100) LatestBlock])) 7 60
  <-> covered example_pending 7 60 /\ ~ (7 ∈ [7] /\ br_in 60 (NewBlockRange 1 50)).
Proof.
  refine (proj1 (proj2 (proj2 (OnNewSyncedLogQuery_bookkeeping
    (mkState [] example_pending) (NewLogQuery 1 50 [7]) _ _ _ _ _))) 7 60).
  - split; [apply NoDup_nil_2 | constructor].
  - split; [by apply (bool_decide_unpack _) | repeat constructor; vm_compute; congruence].
  - repeat constructor; vm_compute; congruence.
  - vm_compute. reflexivity.
Defined.

(** ** Scheduling the next query *)

Definition lower_of (lower : option SyncSegment) (segment : SyncSegment) : option SyncSegment :=
  match lower with
  | None => Some segment
  | Some l =>
      if br_FromBlock (ss_BlockRange segment) <? br_FromBlock (ss_BlockRange l)
      then Some segment else Some l
  end.

Lemma lower_of_Some a x :
  exists m, lower_of (Some a) x = Some m /\ (m = a \/ m = x) /\
    br_FromBlock (ss_BlockRange m) <= br_FromBlock (ss_BlockRange a) /\
    br_FromBlock (ss_BlockRange m) <= br_FromBlock (ss_BlockRange x).
Proof. unfold lower_of. case (Z.ltb_spec (br_FromBlock (ss_BlockRange x)) (br_FromBlock (ss_BlockRange a))); eauto with lia. Qed.

Lemma lowest_fold f acc :
  exists l, fold_left lower_of f (Some acc) = Some l /\ In l (acc :: f) /\
  forall s, In s (acc :: f) -> br_FromBlock (ss_BlockRange l) <= br_FromBlock (ss_BlockRange s).
Proof.
  revert acc. induction f as [|x f IH]; intros acc; cbn [fold_left].
  { exists acc. split_and!; [done | by left|]. intros s [->|[]]. lia. }
  destruct (lower_of_Some acc x) as (m & -> & Hm & Hma & Hmx).
  destruct (IH m) as (l & Hl & Hin & Hmin). exists l. split_and!; [done| |].
  - destruct Hin as [<-|Hin]; [destruct Hm as [->| ->]; simpl; auto | simpl; auto].
  - pose proof (Hmin m (or_introl eq_refl)). intros s [->|[->|Hs]]; [lia | lia|].
    apply Hmin. by right.
Qed.

Lemma GetLowest_spec f l :
  Set_GetLowestFromBlockSegment f = Some l ->
  In l f /\ forall s, In s f -> br_FromBlock (ss_BlockRange l) <= br_FromBlock (ss_BlockRange s).
Proof.
  destruct f as [|x f]; [done|]. intros Heq.
  destruct (lowest_fold f x) as (l' & Hl & Hspec).
  change (fold_left lower_of f (Some x) = Some l) in Heq.
  rewrite Heq in Hl. injection Hl as <-. done.
Qed.

Lemma GetLowest_is_Some f : f <> [] -> is_Some (Set_GetLowestFromBlockSegment f).
Proof.
  destruct f as [|x f]; [done|]. intros _.
  destruct (lowest_fold f x) as (l & Hl & _). by exists l.
Qed.

(** A drained segment (the empty range [Empty] leaves, whose [FromBlock] is 0) hides every
    other segment from the scheduler: as soon as one contract of the set is drained, [NextQuery]
    answers that there is nothing left to sync, whatever is pending for the other contracts. *)
Theorem NextQuery_drained_segment_hides_pending f s chunk maxBlock apply :
  set_wf f -> In s f -> ss_BlockRange s = BlockRangeZero ->
  Forall (fun s' => BlockRange_IsEmpty (ss_BlockRange s') = true \/ 0 < br_FromBlock (ss_BlockRange s')) f ->
  Set_NextQuery f chunk maxBlock apply = Err ErrFinished.
Proof.
  intros Hwf Hin Hz Hpos. unfold Set_NextQuery.
  destruct (Set_GetLowestFromBlockSegment f) as [l|] eqn:Hl; [|done].
  apply GetLowest_spec in Hl as [Hinl Hmin]. specialize (Hmin s Hin). rewrite Hz in Hmin. simpl in Hmin.
  rewrite Forall_forall in Hpos. destruct (Hpos l) as [He|?]; [by apply list_elem_of_In| |lia].
  assert (forall br, BlockRange_Intersect (ss_BlockRange l) br = BlockRangeZero) as Hi.
  { intros br. unfold BlockRange_Intersect, BlockRange_Overlaps. by rewrite He. }
  rewrite Hi. by destruct apply.
Qed.

(** Contract 7 is fully synced, contract 9 still has 100 pending blocks. *)
Lemma NextQuery_drained_segment_hides_pending_witness :
  let f := [mkSyncSegment 7 BlockRangeZero LatestBlock; mkSyncSegment 9 (NewBlockRange 1 100) LatestBlock] in
  State_OnNewSyncedLogQuery (mkState [] example_pending) (Some (NewLogQuery 1 100 [7]))
    = Ok (mkState [mkSyncSegment 7 (NewBlockRange 1 100) NoFinality] f) /\
  Set_Finished f = false /\ Set_NextQuery f 1000 0 false = Err ErrFinished.
Proof.
  intros f. split; [vm_compute; reflexivity | split; [reflexivity|]].
  refine (NextQuery_drained_segment_hides_pending f (mkSyncSegment 7 BlockRangeZero LatestBlock)
    1000 0 false _ _ _ _).
  - split; [by apply (bool_decide_unpack _) | repeat constructor; vm_compute; congruence].
  - by left.
  - reflexivity.
  - constructor; [left; reflexivity | constructor; [right; vm_compute; reflexivity | constructor]].
Defined.

(** ** Progress of a round *)

(** Every segment is drained or starts at [lo] or later. *)
Definition starts_from (lo : Z) (f : SetSyncSegment) : Prop :=
  Forall (fun s => SyncSegment_IsEmpty s = true \/ lo <= br_FromBlock (ss_BlockRange s)) f.

Definition no_last_block (f : SetSyncSegment) : Prop :=
  Forall (fun s => br_ToBlock (ss_BlockRange s) < MaxUint64) f.

Lemma pending_work_update f a c br :
  Set_GetByContract f a = Some c ->
  pending_work (Set_UpdateBlockRange f c br) =
  pending_work f - BlockRange_CountBlocks (ss_BlockRange c) + BlockRange_CountBlocks br.
Proof.
  intros Hget. pose proof (GetByContract_addr _ _ _ Hget) as Ha. revert Hget.
  unfold pending_work. induction f as [|s f IH]; simpl; [done|].
  destruct (ss_ContractAddr s =? a) eqn:E; bool_hyps.
  - intros [= ->]. rewrite SyncSegment_Equal_refl. simpl. lia.
  - intros Hget. destruct (SyncSegment_Equal s c) eqn:Eq.
    { apply SyncSegment_Equal_addr in Eq. congruence. }
    simpl. rewrite IH by done. lia.
Qed.

Lemma CountBlocks_small b :
  br_wf b -> BlockRange_IsEmpty b = false -> br_ToBlock b < MaxUint64 ->
  BlockRange_CountBlocks b = br_ToBlock b - br_FromBlock b + 1.
Proof.
  intros Hwf E Ht. rewrite BlockRange_CountBlocks_exact by done.
  apply wrap64_small. apply BlockRange_IsEmpty_false in E as [_ ?]. destruct Hwf. unfold_words. lia.
Qed.

(** Subtracting a range that starts no later than the segment leaves at most one piece. *)
Lemma Subtract_from_below b lo hi :
  br_wf b -> BlockRange_IsEmpty b = false -> br_ToBlock b < MaxUint64 ->
  0 <= lo <= hi -> lo <= br_FromBlock b ->
  (BlockRange_Subtract b (NewBlockRange lo hi) = [b] /\ hi < br_FromBlock b) \/
  (br_FromBlock b <= hi /\
   BlockRange_Subtract b (NewBlockRange lo hi) =
     if hi <? br_ToBlock b then [NewBlockRange (hi + 1) (br_ToBlock b)] else []).
Proof.
  intros [Hf Ht] E Hlast Hlo Hle.
  unfold BlockRange_Subtract, BlockRange_Overlaps. rewrite E.
  apply BlockRange_IsEmpty_false in E as [Hne ?].
  rewrite (proj2 (BlockRange_IsEmpty_false (NewBlockRange lo hi))) by (simpl; split; [done|lia]).
  simpl. destruct (br_FromBlock b <=? hi) eqn:E1; simpl; bool_hyps; [|left; split; [done|lia]].
  right. split; [done|]. rewrite (proj2 (Z.leb_le lo (br_ToBlock b))) by lia. simpl.
  rewrite (proj2 (Z.ltb_ge (br_FromBlock b) lo)) by lia. simpl.
  destruct (hi <? br_ToBlock b) eqn:E2; [|done]. bool_hyps.
  by rewrite add64_small by (unfold_words; lia).
Qed.

(** The work of a segment after the subtraction. *)
Lemma piece_smaller b hi :
  br_wf b -> BlockRange_IsEmpty b = false -> br_ToBlock b < MaxUint64 ->
  0 <= hi -> br_FromBlock b <= hi -> hi < br_ToBlock b ->
  br_wf (NewBlockRange (hi + 1) (br_ToBlock b)) /\
  BlockRange_CountBlocks (NewBlockRange (hi + 1) (br_ToBlock b)) < BlockRange_CountBlocks b.
Proof.
  intros Hwf E Hlast Hhi Hf Ht. destruct (Hwf) as [Hbf Hbt].
  assert (br_wf (NewBlockRange (hi + 1) (br_ToBlock b))) as Hw by (split; simpl; unfold_words; lia).
  split; [done|]. rewrite !CountBlocks_small; simpl; try done; [lia|].
  apply BlockRange_IsEmpty_false. simpl. split; [done|lia].
Qed.

(** What a round needs of the pending set, kept by every subtraction of the round. *)
Definition round_inv (lo : Z) (f : SetSyncSegment) : Prop :=
  set_wf f /\ starts_from lo f /\ no_last_block f.

Lemma round_inv_lookup lo f a p :
  round_inv lo f -> Set_GetByContract f a = Some p -> SyncSegment_IsEmpty p = false ->
  br_wf (ss_BlockRange p) /\ br_ToBlock (ss_BlockRange p) < MaxUint64 /\
  lo <= br_FromBlock (ss_BlockRange p).
Proof.
  intros ([_ Hw] & Hs & Hl) Hget Hne. apply GetByContract_In, list_elem_of_In in Hget.
  unfold starts_from, no_last_block in *. rewrite Forall_forall in Hw, Hs, Hl.
  split_and!; [by apply Hw | by apply Hl|]. destruct (Hs p Hget); [congruence | done].
Qed.

Lemma round_inv_update lo f c br :
  round_inv lo f -> br_wf br -> br_ToBlock br < MaxUint64 ->
  BlockRange_IsEmpty br = true \/ lo <= br_FromBlock br ->
  round_inv lo (Set_UpdateBlockRange f c br).
Proof.
  intros (Hw & Hs & Hl) ? ? ?. split_and!; [by apply Update_wf | |];
    by apply UpdateBlockRange_Forall.
Qed.

(** One subtraction of the round: it succeeds, keeps the invariant and never adds work; it
    removes work when the contract has a pending block in the query. *)
Lemma SubtractSegment_round lo hi f a :
  round_inv lo f -> 0 <= lo <= hi ->
  exists g, Set_SubtractSegment f (mkSyncSegment a (NewBlockRange lo hi) NoFinality) = Ok g /\
    round_inv lo g /\ pending_work g <= pending_work f /\
    (forall p, Set_GetByContract f a = Some p ->
       BlockRange_Overlaps (ss_BlockRange p) (NewBlockRange lo hi) = true ->
       pending_work g < pending_work f).
Proof.
  intros Hinv Hlo. unfold Set_SubtractSegment. simpl.
  destruct (Set_GetByContract f a) as [p|] eqn:Hget; [|naive_solver lia].
  destruct (SyncSegment_IsEmpty p) eqn:Hemp.
  { exists f. split_and!; [done | done | lia|]. intros p' [= <-].
    unfold BlockRange_Overlaps. unfold SyncSegment_IsEmpty in Hemp. by rewrite Hemp. }
  destruct (round_inv_lookup _ _ _ _ Hinv Hget Hemp) as (Hw & Hlast & Hfrom).
  destruct (Subtract_from_below _ lo hi Hw Hemp Hlast Hlo Hfrom) as [[-> Hgt]|[Hle ->]].
  - exists (Set_UpdateBlockRange f p (ss_BlockRange p)).
    split_and!; [done | by apply round_inv_update; auto
                | rewrite (pending_work_update _ _ _ _ Hget); lia|].
    intros p' [= <-] Hov. apply BlockRange_Overlaps_bounds in Hov. simpl in Hov. lia.
  - pose proof Hemp as Hne. apply BlockRange_IsEmpty_false in Hne as [_ ?].
    destruct (hi <? br_ToBlock (ss_BlockRange p)) eqn:Ehi; bool_hyps;
      rewrite ?Set_Empty_update; eexists; (split; [reflexivity|]).
    + destruct (piece_smaller _ hi Hw Hemp Hlast) as [Hpw Hpc]; [lia | lia | lia|].
      split_and!; [apply round_inv_update; auto; right; simpl; lia
                  | rewrite (pending_work_update _ _ _ _ Hget); lia
                  | intros; rewrite (pending_work_update _ _ _ _ Hget); lia].
    + pose proof (CountBlocks_small _ Hw Hemp Hlast) as Hc.
      assert (BlockRange_CountBlocks BlockRangeZero = 0) as Hz by reflexivity.
      split_and!; [apply round_inv_update; auto with aggkit; vm_compute; reflexivity
                  | rewrite (pending_work_update _ _ _ _ Hget); lia
                  | intros; rewrite (pending_work_update _ _ _ _ Hget); lia].
Qed.

Lemma SubtractSegments_round lo hi addrs f :
  round_inv lo f -> 0 <= lo <= hi ->
  exists g, rfold Set_SubtractSegment
      (map (fun a => mkSyncSegment a (NewBlockRange lo hi) NoFinality) addrs) f = Ok g /\
    round_inv lo g /\ pending_work g <= pending_work f.
Proof.
  intros Hinv Hlo. revert f Hinv. induction addrs as [|a addrs IH]; intros f Hinv; simpl.
  { exists f. split_and!; [done | done | lia]. }
  destruct (SubtractSegment_round lo hi f a Hinv Hlo) as (g & -> & Hg & Hle & _). simpl.
  destruct (IH g Hg) as (g' & ? & ? & ?). exists g'. split_and!; [done | done | lia].
Qed.

Lemma NewSetFromLogQuery_NoDup q :
  NoDup (lq_Addrs q) ->
  NewSetSyncSegmentFromLogQuery q = map (LogQuery_segment q) (lq_Addrs q).
Proof.
  intros Hnd. unfold NewSetSyncSegmentFromLogQuery.
  rewrite <-(app_nil_l (map _ _)), <-fold_Add_fresh.
  - generalize (@nil SyncSegment). induction (lq_Addrs q) as [|a l IH]; intros f; simpl; [done|].
    apply IH. by apply NoDup_cons in Hnd as [_ ?].
  - simpl. unfold Set_GetContracts. rewrite map_map. simpl. by rewrite map_id.
Qed.

Lemma GetAddressesForBlockRange_In f br a :
  NoDup (Set_GetContracts f) ->
  In a (Set_GetAddressesForBlockRange f br) <->
  exists p, Set_GetByContract f a = Some p /\ BlockRange_Overlaps (ss_BlockRange p) br = true.
Proof.
  intros Hnd. unfold Set_GetAddressesForBlockRange. rewrite in_map_iff. split.
  - intros (p & <- & Hin). apply bfilter_In in Hin as [Hin Hov].
    exists p. split; [by apply GetByContract_NoDup | done].
  - intros (p & Hget & Hov). exists p. split; [by eapply GetByContract_addr|].
    apply bfilter_In. split; [by eapply GetByContract_In | done].
Qed.

(** The range [NextQuery] asks for. *)
Lemma NextQuery_range lr chunk :
  br_wf lr -> BlockRange_IsEmpty lr = false -> 0 < chunk < pow2_32 -> br_FromBlock lr + chunk < pow2_64 ->
  BlockRange_Intersect lr (NewBlockRange (br_FromBlock lr) (br_FromBlock lr +u64 chunk -u64 1)) =
  NewBlockRange (br_FromBlock lr) (Z.min (br_ToBlock lr) (br_FromBlock lr + chunk - 1)).
Proof.
  intros [? ?] E Hc Hb. unfold pow2_32 in *.
  rewrite add64_small by (unfold_words; lia). rewrite sub64_small by (unfold_words; lia).
  unfold BlockRange_Intersect, BlockRange_Overlaps. rewrite E.
  apply BlockRange_IsEmpty_false in E as [? ?].
  rewrite (proj2 (BlockRange_IsEmpty_false (NewBlockRange _ _))) by (simpl; split; [done|lia]).
  simpl. rewrite (proj2 (Z.leb_le _ _)) by lia. rewrite (proj2 (Z.leb_le _ _)) by lia. simpl.
  unfold NewBlockRange. f_equal; lia.
Qed.

(** Addressed contracts are those with a pending block in the asked range. *)
Lemma GetAddresses_covered f lo hi a :
  NoDup (map ss_ContractAddr f) ->
  In a (Set_GetAddressesForBlockRange f (NewBlockRange lo hi)) <->
  exists n, covered f a n /\ lo <= n <= hi.
Proof.
  intros Hnd. rewrite GetAddressesForBlockRange_In by done. split.
  - intros (p & Hget & Hpov). apply BlockRange_Overlaps_iff in Hpov as (n & Hn & Hn').
    exists n. split; [|by apply br_in_New in Hn']. exists (ss_BlockRange p).
    split; [unfold range_of; by rewrite Hget | done].
  - intros (n & (br & Hr & Hn) & ?). unfold range_of in Hr. apply fmap_Some in Hr as (p & Hget & ->).
    exists p. split; [done|]. apply BlockRange_Overlaps_iff. exists n. split; [done|].
    by apply br_in_New.
Qed.

(** Removing a query over the lowest pending blocks succeeds and leaves less work. *)
Lemma SubtractLogQuery_progress f lo hi :
  round_inv lo f -> 0 <= lo <= hi -> NoDup (map ss_ContractAddr f) ->
  let addrs := Set_GetAddressesForBlockRange f (NewBlockRange lo hi) in
  addrs <> [] ->
  exists g, Set_SubtractLogQuery f (Some (mkLogQuery addrs (NewBlockRange lo hi) None)) = Ok g /\
            pending_work g < pending_work f.
Proof.
  intros Hinv Hlohi Hnd addrs Hne.
  assert (NoDup addrs) as Hand by (apply map_bfilter_NoDup, Hnd).
  simpl. rewrite NewSetFromLogQuery_NoDup by done. unfold Set_SubtractSegments. rewrite Clone_id by done.
  pose proof (fun a => GetAddressesForBlockRange_In f (NewBlockRange lo hi) a Hnd) as Haddrs.
  fold addrs in Haddrs. clearbody addrs. destruct addrs as [|a0 addrs']; [done|]. simpl.
  destruct (SubtractSegment_round lo hi f a0 Hinv Hlohi) as (g1 & Hg1 & Hinv1 & _ & Hstrict).
  destruct (proj1 (Haddrs a0) (or_introl eq_refl)) as (p & Hp & Hpov).
  unfold LogQuery_segment at 1. simpl. rewrite Hg1. simpl.
  destruct (SubtractSegments_round lo hi addrs' g1 Hinv1 Hlohi) as (g & Hg & _ & Hgle).
  exists g. split; [exact Hg|]. specialize (Hstrict p Hp Hpov). lia.
Qed.

(** While no pending segment is drained, a round of the downloader makes progress:
    [NextQuery] returns a query that starts at the lowest pending block, spans at most one chunk
    and addresses exactly the contracts with a pending block in it; removing that query from the
    pending set never fails and strictly decreases the pending work. *)
Theorem NextQuery_round_progress f chunk :
  set_wf f -> f <> [] -> Forall (fun s => SyncSegment_IsEmpty s = false) f -> no_last_block f ->
  0 < chunk < pow2_32 -> Forall (fun s => br_FromBlock (ss_BlockRange s) + chunk < pow2_64) f ->
  exists lo hi addrs g,
    Set_NextQuery f chunk 0 false = Ok (mkLogQuery addrs (NewBlockRange lo hi) None) /\
    lo <= hi < lo + chunk /\
    (forall s, In s f -> lo <= br_FromBlock (ss_BlockRange s)) /\
    (exists s, In s f /\ lo = br_FromBlock (ss_BlockRange s)) /\
    (forall a, In a addrs <-> exists n, covered f a n /\ lo <= n <= hi) /\
    Set_SubtractLogQuery f (Some (mkLogQuery addrs (NewBlockRange lo hi) None)) = Ok g /\
    pending_work g < pending_work f.
Proof.
  intros [Hnd Hw] Hnil Hne Hlast Hchunk Hov.
  destruct (GetLowest_is_Some f Hnil) as [l Hl]. destruct (GetLowest_spec _ _ Hl) as [Hinl Hmin].
  pose proof Hinl as Hinl2. apply list_elem_of_In in Hinl2.
  pose proof (proj1 (Forall_forall _ _) Hw l Hinl2) as Hlw.
  pose proof (proj1 (Forall_forall _ _) Hne l Hinl2) as Hle.
  pose proof (proj1 (Forall_forall _ _) Hov l Hinl2) as Hlo.
  set (lo := br_FromBlock (ss_BlockRange l)) in *.
  set (hi := Z.min (br_ToBlock (ss_BlockRange l)) (lo + chunk - 1)).
  set (addrs := Set_GetAddressesForBlockRange f (NewBlockRange lo hi)).
  pose proof (proj1 (BlockRange_IsEmpty_false _) Hle) as [Hlne Hlle].
  assert (0 <= lo <= hi /\ hi < lo + chunk) as [Hlohi Hspan].
  { destruct Hlw as [[? _] _]. subst lo hi. lia. }
  assert (round_inv lo f) as Hinv.
  { split_and!; [done | | done]. apply Forall_forall. intros s Hs. right. by apply Hmin, list_elem_of_In. }
  assert (addrs <> []) as Hane.
  { intros Hnone. apply (in_nil (a := ss_ContractAddr l)). rewrite <- Hnone.
    apply GetAddressesForBlockRange_In; [done|].
    exists l. split; [by apply GetByContract_NoDup|].
    apply BlockRange_Overlaps_iff. exists lo. unfold br_in; simpl. subst lo. auto with lia. }
  destruct (SubtractLogQuery_progress f lo hi Hinv Hlohi Hnd Hane) as (g & Hg & Hwork).
  exists lo, hi, addrs, g. split_and!; [| lia | lia | exact Hmin | by exists l | | done | done].
  - unfold Set_NextQuery. rewrite Hl. rewrite NextQuery_range by done. fold lo hi.
    rewrite (proj2 (BlockRange_IsEmpty_false (NewBlockRange lo hi))) by (simpl; split; [done|lia]).
    fold addrs. by destruct addrs.
  - intros a. by apply GetAddresses_covered.
Qed.

Lemma NextQuery_round_progress_witness :
  exists lo hi addrs g,
    Set_NextQuery example_pending 50 0 false = Ok (mkLogQuery addrs (NewBlockRange lo hi) None) /\
    lo <= hi < lo + 50 /\
    (forall s, In s example_pending -> lo <= br_FromBlock (ss_BlockRange s)) /\
    (exists s, In s example_pending /\ lo = br_FromBlock (ss_BlockRange s)) /\
    (forall a, In a addrs <-> exists n, covered example_pending a n /\ lo <= n <= hi) /\
    Set_SubtractLogQuery example_pending (Some (mkLogQuery addrs (NewBlockRange lo hi) None)) = Ok g /\
    pending_work g < pending_work example_pending.
Proof.
  refine (NextQuery_round_progress example_pending 50 _ _ _ _ _ _).
  - split; [by apply (bool_decide_unpack _) | repeat constructor; vm_compute; congruence].
  - discriminate.
  - repeat constructor.
  - repeat constructor; vm_compute; reflexivity.
  - split; vm_compute; reflexivity.
  - repeat constructor; vm_compute; reflexivity.
Defined.

(** ** Availability *)

Lemma Set_PartialTo_spec f br addrs acc m :
  Set_PartialTo f br addrs acc = Some m ->
  (forall a, In a addrs -> forall n, br_FromBlock br <= n <= m -> covered f a n) /\
  (forall m0, acc = Some m0 -> m <= m0) /\
  ((acc = Some m) \/ exists a r, In a addrs /\ range_of f a = Some r /\
      br_in m r /\ br_in m br /\ m = Z.min (br_ToBlock r) (br_ToBlock br)).
Proof.
  revert acc. induction addrs as [|a addrs IH]; intros acc; simpl.
  { intros ->. split_and!; [done | intros ? [= ->]; lia | auto]. }
  destruct (Set_GetByContract f a) as [s|] eqn:Hget; [|done].
  set (i := BlockRange_Intersect (ss_BlockRange s) br).
  destruct (BlockRange_IsEmpty i) eqn:Ei; [done|].
  destruct (br_FromBlock i =? br_FromBlock br) eqn:Ef; [|done]. simpl. bool_hyps.
  intros H. apply IH in H as (Hall & Hle & Hwit).
  assert (range_of f a = Some (ss_BlockRange s)) as Hr by (unfold range_of; by rewrite Hget).
  pose proof (fun n => BlockRange_Intersect_in (ss_BlockRange s) br n) as Hi. fold i in Hi.
  pose proof (proj1 (BlockRange_IsEmpty_false _) Ei) as [Hine Hile].
  assert (m <= br_ToBlock i) as Hmi.
  { destruct acc as [m0|]; [|by apply Hle]. destruct (br_ToBlock i <? m0) eqn:E; bool_hyps;
      [by apply Hle | specialize (Hle _ eq_refl); lia]. }
  split_and!.
  - intros a' [<-|Ha']; [|by apply Hall]. intros n Hn. apply (covered_Some _ _ _ _ Hr), Hi.
    split; [done | lia].
  - intros m0 ->. destruct (br_ToBlock i <? m0) eqn:E; bool_hyps; specialize (Hle _ eq_refl); lia.
  - destruct Hwit as [Hwit|(a' & r & Ha' & Hrest)]; [|right; exists a', r; naive_solver].
    assert (br_ToBlock i = m -> exists a0 r, (a = a0 \/ In a0 addrs) /\ range_of f a0 = Some r /\
      br_in m r /\ br_in m br /\ m = Z.min (br_ToBlock r) (br_ToBlock br)) as Hnew.
    { intros <-. exists a, (ss_BlockRange s).
      assert (br_in (br_ToBlock i) i) as [? ?]%Hi by (split; [done | lia]).
      split_and!; [by left | done | done | done|].
      subst i. unfold BlockRange_Intersect in *. destruct (BlockRange_Overlaps _ _); [done|discriminate]. }
    destruct acc as [m0|]; [|right; apply Hnew; congruence].
    destruct (br_ToBlock i <? m0) eqn:E; [right; apply Hnew; congruence | left; congruence].
Qed.

(** When [IsPartiallyAvailable] answers with a query, it is a prefix of the asked range for
    the same contracts, all of it is synced for every contract, and it is the longest such
    prefix: the asked range ends there or some contract's synced range does. *)
Theorem IsPartiallyAvailable_maximal_prefix f q q' :
  Set_IsPartiallyAvailable f q = Some q' ->
  let m := br_ToBlock (lq_BlockRange q') in
  lq_Addrs q' = lq_Addrs q /\ br_FromBlock (lq_BlockRange q') = br_FromBlock (lq_BlockRange q) /\
  (forall a n, In a (lq_Addrs q) -> br_in n (lq_BlockRange q') -> covered f a n) /\
  br_in m (lq_BlockRange q) /\
  (m = br_ToBlock (lq_BlockRange q) \/ exists a, In a (lq_Addrs q) /\ ~ covered f a (m + 1)).
Proof.
  unfold Set_IsPartiallyAvailable. destruct (Nat.eqb _ _); [done|].
  destruct (Set_PartialTo f _ _ None) as [m|] eqn:Hm; [|done]. intros [= <-]. simpl.
  apply Set_PartialTo_spec in Hm as (Hall & _ & [?|(a & r & Ha & Hr & Hmr & Hmq & Heq)]); [done|].
  split_and!; [done | done | | done |].
  - intros a' n Ha' Hn. apply br_in_New in Hn. by apply Hall.
  - destruct (Z.min_spec (br_ToBlock r) (br_ToBlock (lq_BlockRange q))) as [[? Hmin]|[? Hmin]];
      [|left; lia].
    right. exists a. split; [done|]. rewrite (covered_Some _ _ _ _ Hr). unfold br_in. lia.
Qed.

Lemma IsPartiallyAvailable_maximal_prefix_witness :
  br_in 60 (NewBlockRange 10 200) /\
  (60 = 200 \/ exists a, In a [7; 9] /\
     ~ covered [mkSyncSegment 7 (NewBlockRange 1 60) LatestBlock; mkSyncSegment 9 (NewBlockRange 5 90) LatestBlock] a (60 + 1)).
Proof.
  refine (proj2 (proj2 (proj2 (IsPartiallyAvailable_maximal_prefix
    [mkSyncSegment 7 (NewBlockRange 1 60) LatestBlock; mkSyncSegment 9 (NewBlockRange 5 90) LatestBlock]
    (NewLogQuery 10 200 [7; 9]) (NewLogQuery 10 60 [7; 9]) _)))).
  vm_compute. reflexivity.
Defined.

(** ** Counting pending blocks *)

(** [TotalBlocks] counts blocks twice when a segment bridges two disjoint ones: ranges
    [1,10], [20,30] and [5,25] cover 30 blocks and are reported as 51, while with the bridging
    segment first the same ranges are reported as 30. *)
Theorem TotalBlocks_depends_on_order :
  let s a f t := mkSyncSegment a (NewBlockRange f t) LatestBlock in
  Set_TotalBlocks [s 1 1 10; s 2 20 30; s 3 5 25] = 51 /\
  Set_TotalBlocks [s 3 5 25; s 1 1 10; s 2 20 30] = 30.
Proof. vm_compute. done. Qed.
