(* ===== verification/Merkle.v ===== *)
(** The Merkle trees of [tree/]: the append-only and the updatable tree over a reverse hash
    table, their proofs, and the transaction callbacks of [db/tx.go] they rely on.

    The database is the content of the two tables the migrations create: [rht], keyed by the
    node hash, and [root], whose primary key is the root hash.  An operation that takes a
    transaction returns the transaction it leaves, and one that mutates the tree object returns
    the object it leaves, on error paths too.  Failures of the SQL engine other than "no rows"
    and "unique constraint" are not modelled. *)

From S2P Require Import Prelude Bytes.

(** ** Data *)

Definition DefaultHeight : nat := 32.

Inductive treeError := ErrNotFound | ErrInvalidIndex | ErrUniqueConstraint.

Record Leaf := mkLeaf { lf_Index : Z; lf_Hash : Z }.

(** The columns of the root table ([Root.BlockHash] is not one). *)
Record Root := mkRoot { rt_Hash : Z; rt_Index : Z; rt_BlockNum : Z; rt_BlockPosition : Z }.

Record TreeNode := mkTreeNode { tn_Hash : Z; tn_Left : Z; tn_Right : Z }.

#[global] Instance TreeNode_eq_dec : EqDecision TreeNode.
Proof. solve_decision. Defined.
#[global] Instance Root_eq_dec : EqDecision Root.
Proof. solve_decision. Defined.

(** The tables of one tree; the rows of [root] in insertion order. *)
Record TreeDB := mkTreeDB { db_rht : gmap Z TreeNode; db_root : list Root }.

Definition emptyTreeDB : TreeDB := mkTreeDB ∅ [].

Record Tree := mkTree { tr_zeroHashes : list Z }.

Record AppendOnlyTree := mkAppendOnlyTree {
  aot_Tree : Tree;
  aot_lastLeftCache : list Z;
  aot_lastIndex : Z
}.

(** ** Transactions ([db/tx.go])

    [tx_saved] is the database at [BeginTx]; the callbacks act on the object that registered
    them, of type [T]. *)
Record Tx (T : Type) := mkTx {
  tx_saved : TreeDB;
  tx_db : TreeDB;
  tx_rollbackCallbacks : list (T -> T);
  tx_commitCallbacks : list (T -> T)
}.
Arguments mkTx {T}.
Arguments tx_saved {T}.
Arguments tx_db {T}.
Arguments tx_rollbackCallbacks {T}.
Arguments tx_commitCallbacks {T}.

Definition NewTx {T} (db : TreeDB) : Tx T := mkTx db db [] [].

Definition AddRollbackCallback {T} (s : Tx T) (cb : T -> T) : Tx T :=
  mkTx (tx_saved s) (tx_db s) (tx_rollbackCallbacks s ++ [cb]) (tx_commitCallbacks s).

Definition AddCommitCallback {T} (s : Tx T) (cb : T -> T) : Tx T :=
  mkTx (tx_saved s) (tx_db s) (tx_rollbackCallbacks s) (tx_commitCallbacks s ++ [cb]).

(** A statement of the transaction changes its view of the database. *)
Definition tx_set {T} (s : Tx T) (db : TreeDB) : Tx T :=
  mkTx (tx_saved s) db (tx_rollbackCallbacks s) (tx_commitCallbacks s).

Definition Tx_Commit {T} (s : Tx T) (o : T) : TreeDB * T :=
  (tx_db s, fold_left (fun o cb => cb o) (tx_commitCallbacks s) o).

Definition Tx_Rollback {T} (s : Tx T) (o : T) : TreeDB * T :=
  (tx_saved s, fold_left (fun o cb => cb o) (tx_rollbackCallbacks s) o).

(** ** Operations of [tree.go] *)

Section Tree.
Context `{Keccak}.

Definition newTreeNode (left right : Z) : TreeNode :=
  mkTreeNode (Keccak256Hash [Hash_Bytes left; Hash_Bytes right]) left right.

(** [zeroHashes[0] = 0], [zeroHashes[i] = keccak(zeroHashes[i-1], zeroHashes[i-1])]. *)
Fixpoint generateZeroHashes (height : nat) : list Z :=
  match height with
  | O => [ZeroHash]
  | S i =>
      let zeroHashes := generateZeroHashes i in
      zeroHashes ++ [Keccak256Hash [Hash_Bytes (nth i zeroHashes 0); Hash_Bytes (nth i zeroHashes 0)]]
  end.

Definition newTree : Tree := mkTree (generateZeroHashes DefaultHeight).

Definition getRHTNode (db : TreeDB) (nodeHash : Z) : result treeError TreeNode :=
  match db_rht db !! nodeHash with
  | Some node => Ok node
  | None => Err ErrNotFound
  end.

(** [index&(1<<h) > 0]. *)
Definition bit_set (index : Z) (h : nat) : bool := 0 <? Z.land index (Z.shiftl 1 (Z.of_nat h)).

(** The loop of [getSiblings] from height [h]-1 down to 0: the siblings of heights 0..h-1 and
    whether a zero hash was used. *)
Fixpoint getSiblings_from (t : Tree) (db : TreeDB) (index currentNodeHash : Z) (h : nat)
  : list Z * bool :=
  match h with
  | O => ([], false)
  | S h' =>
      match getRHTNode db currentNodeHash with
      | Err _ =>
          let '(siblings, _) := getSiblings_from t db index currentNodeHash h' in
          (siblings ++ [nth h' (tr_zeroHashes t) 0], true)
      | Ok currentNode =>
          if bit_set index h' then
            let '(siblings, used) := getSiblings_from t db index (tn_Right currentNode) h' in
            (siblings ++ [tn_Left currentNode], used)
          else
            let '(siblings, used) := getSiblings_from t db index (tn_Left currentNode) h' in
            (siblings ++ [tn_Right currentNode], used)
      end
  end.

Definition getSiblings (t : Tree) (db : TreeDB) (index root : Z) : list Z * bool :=
  getSiblings_from t db index root DefaultHeight.

Definition storeNode (rht : gmap Z TreeNode) (node : TreeNode) : gmap Z TreeNode :=
  match rht !! tn_Hash node with
  | Some _ => rht
  | None => <[tn_Hash node := node]> rht
  end.

(** Repeated entries are ignored. *)
Definition storeNodes (db : TreeDB) (nodes : list TreeNode) : TreeDB :=
  mkTreeDB (fold_left storeNode nodes (db_rht db)) (db_root db).

Definition storeRoot (db : TreeDB) (root : Root) : result treeError TreeDB :=
  if existsb (fun r => rt_Hash r =? rt_Hash root) (db_root db) then Err ErrUniqueConstraint
  else Ok (mkTreeDB (db_rht db) (db_root db ++ [root])).

Definition GetRootByIndex (db : TreeDB) (index : Z) : result treeError Root :=
  match List.find (fun r => rt_Index r =? index) (db_root db) with
  | Some r => Ok r
  | None => Err ErrNotFound
  end.

Definition GetRootByHash (db : TreeDB) (hash : Z) : result treeError Root :=
  match List.find (fun r => rt_Hash r =? hash) (db_root db) with
  | Some r => Ok r
  | None => Err ErrNotFound
  end.

(** Lexicographic order on (block_num, block_position). *)
Definition Root_leb (a b : Root) : bool :=
  (rt_BlockNum a <? rt_BlockNum b) ||
  ((rt_BlockNum a =? rt_BlockNum b) && (rt_BlockPosition a <=? rt_BlockPosition b)).

(** [ORDER BY block_num DESC, block_position DESC LIMIT 1]; of equal rows the last inserted. *)
Definition lastRoot_step (best : option Root) (r : Root) : option Root :=
  match best with
  | None => Some r
  | Some b => if Root_leb b r then Some r else Some b
  end.

Definition GetLastRoot (db : TreeDB) : result treeError Root :=
  match fold_left lastRoot_step (db_root db) None with
  | Some r => Ok r
  | None => Err ErrNotFound
  end.

Fixpoint GetLeaf_from (db : TreeDB) (index currentNodeHash : Z) (h : nat) : result treeError Z :=
  match h with
  | O => Ok currentNodeHash
  | S h' =>
      let? currentNode := getRHTNode db currentNodeHash in
      if bit_set index h' then GetLeaf_from db index (tn_Right currentNode) h'
      else GetLeaf_from db index (tn_Left currentNode) h'
  end.

Definition GetLeaf (db : TreeDB) (index root : Z) : result treeError Z :=
  GetLeaf_from db index root DefaultHeight.

Definition GetProof (t : Tree) (db : TreeDB) (index root : Z) : result treeError (list Z) :=
  Ok (fst (getSiblings t db index root)).

Definition Reorg (db : TreeDB) (firstReorgedBlock : Z) : TreeDB :=
  mkTreeDB (db_rht db) (bfilter (fun r => negb (firstReorgedBlock <=? rt_BlockNum r)) (db_root db)).

Definition BackwardToIndex (db : TreeDB) (targetIndex : Z) : TreeDB :=
  mkTreeDB (db_rht db) (bfilter (fun r => negb (targetIndex <? rt_Index r)) (db_root db)).

(** The node after the iterations for heights 0..k-1 of [CalculateRoot]. *)
Fixpoint CalculateRoot_upto (leafHash : Z) (proof : list Z) (index : Z) (k : nat) : Z :=
  match k with
  | O => leafHash
  | S height =>
      let node := CalculateRoot_upto leafHash proof index height in
      if Z.land (Z.shiftr index (Z.of_nat height)) 1 =? 1
      then Keccak256Hash [Hash_Bytes (nth height proof 0); Hash_Bytes node]
      else Keccak256Hash [Hash_Bytes node; Hash_Bytes (nth height proof 0)]
  end.

Definition CalculateRoot (leafHash : Z) (proof : list Z) (index : Z) : Z :=
  CalculateRoot_upto leafHash proof index DefaultHeight.

(** [true] when the proof is valid. *)
Definition VerifyProof (leaf : Z) (proof : list Z) (index expectedRoot : Z) : bool :=
  CalculateRoot leaf proof index =? expectedRoot.

(** ** The append-only tree ([appendonlytree.go]) *)

Definition NewAppendOnlyTree : AppendOnlyTree :=
  mkAppendOnlyTree newTree (repeat 0 DefaultHeight) (-2).

Definition aot_setCache (t : AppendOnlyTree) (cache : list Z) : AppendOnlyTree :=
  mkAppendOnlyTree (aot_Tree t) cache (aot_lastIndex t).

Definition aot_setIndex (t : AppendOnlyTree) (i : Z) : AppendOnlyTree :=
  mkAppendOnlyTree (aot_Tree t) (aot_lastLeftCache t) i.

(** The loop of [initCache]: [siblings[h] = currentNode.Left] on the path of [index]. *)
Fixpoint initCache_from (db : TreeDB) (index currentNodeHash : Z) (h : nat)
  : result treeError (list Z) :=
  match h with
  | O => Ok []
  | S h' =>
      let? currentNode := getRHTNode db currentNodeHash in
      let? siblings := initCache_from db index
        (if bit_set index h' then tn_Right currentNode else tn_Left currentNode) h' in
      Ok (siblings ++ [tn_Left currentNode])
  end.

(** The reversal loop [for i, j := 0, len-1; i == j; ...] runs no iteration on 32 elements. *)
Definition initCache (t : AppendOnlyTree) (db : TreeDB) : AppendOnlyTree * result treeError unit :=
  match GetLastRoot db with
  | Err ErrNotFound => (aot_setCache (aot_setIndex t (-1)) (repeat 0 DefaultHeight), Ok tt)
  | Err e => (t, Err e)
  | Ok lastRoot =>
      let t := aot_setIndex t (rt_Index lastRoot) in
      match initCache_from db (rt_Index lastRoot) (rt_Hash lastRoot) DefaultHeight with
      | Err e => (t, Err e)
      | Ok siblings => (aot_setCache t siblings, Ok tt)
      end
  end.

(** The iterations for heights 0..k-1 of the loop of [PutLeaf]:
    ([currentChildHash], [lastLeftCache], [newNodes]). *)
Fixpoint AppendOnly_climb (zeroHashes : list Z) (leaf : Leaf) (cache : list Z) (k : nat)
  : Z * list Z * list TreeNode :=
  match k with
  | O => (lf_Hash leaf, cache, [])
  | S h =>
      let '(currentChildHash, cache, newNodes) := AppendOnly_climb zeroHashes leaf cache h in
      if bit_set (lf_Index leaf) h then
        let parent := newTreeNode (nth h cache 0) currentChildHash in
        (tn_Hash parent, cache, newNodes ++ [parent])
      else
        let parent := newTreeNode currentChildHash (nth h zeroHashes 0) in
        (tn_Hash parent, <[h := currentChildHash]> cache, newNodes ++ [parent])
  end.

Definition decreaseIndex (t : AppendOnlyTree) : AppendOnlyTree :=
  aot_setIndex t (aot_lastIndex t - 1).

(** [PutLeaf] once the index is known to follow [lastIndex]. *)
Definition AppendOnly_insert (t : AppendOnlyTree) (tx : Tx AppendOnlyTree)
    (blockNum blockPosition : Z) (leaf : Leaf)
  : AppendOnlyTree * Tx AppendOnlyTree * result treeError Z :=
  let '(root, cache, newNodes) :=
    AppendOnly_climb (tr_zeroHashes (aot_Tree t)) leaf (aot_lastLeftCache t) DefaultHeight in
  let t := aot_setCache t cache in
  match storeRoot (tx_db tx) (mkRoot root (lf_Index leaf) blockNum blockPosition) with
  | Err e => (t, tx, Err e)
  | Ok db =>
      let tx := tx_set tx (storeNodes db newNodes) in
      let t := aot_setIndex t (aot_lastIndex t + 1) in
      (t, AddRollbackCallback tx decreaseIndex, Ok root)
  end.

Definition AppendOnly_PutLeaf (t : AppendOnlyTree) (tx : Tx AppendOnlyTree)
    (blockNum blockPosition : Z) (leaf : Leaf)
  : AppendOnlyTree * Tx AppendOnlyTree * result treeError Z :=
  if negb (lf_Index leaf =? aot_lastIndex t + 1) then
    match initCache t (tx_db tx) with
    | (t, Err e) => (t, tx, Err e)
    | (t, Ok _) =>
        if negb (lf_Index leaf =? aot_lastIndex t + 1) then (t, tx, Err ErrInvalidIndex)
        else AppendOnly_insert t tx blockNum blockPosition leaf
    end
  else AppendOnly_insert t tx blockNum blockPosition leaf.

(** ** The updatable tree ([updatabletree.go]) *)

Fixpoint Updatable_climb (siblings : list Z) (leaf : Leaf) (k : nat) : Z * list TreeNode :=
  match k with
  | O => (lf_Hash leaf, [])
  | S h =>
      let '(currentChildHash, newNodes) := Updatable_climb siblings leaf h in
      let parent :=
        if bit_set (lf_Index leaf) h then newTreeNode (nth h siblings 0) currentChildHash
        else newTreeNode currentChildHash (nth h siblings 0) in
      (tn_Hash parent, newNodes ++ [parent])
  end.

Definition Updatable_rootHash (t : Tree) (db : TreeDB) : Z :=
  match GetLastRoot db with
  | Ok root => rt_Hash root
  | Err _ => nth DefaultHeight (tr_zeroHashes t) 0
  end.

Definition Updatable_PutLeaf (t : Tree) (db : TreeDB) (blockNum blockPosition : Z) (leaf : Leaf)
  : result treeError (TreeDB * Z) :=
  let rootHash := Updatable_rootHash t db in
  let '(siblings, _) := getSiblings t db (lf_Index leaf) rootHash in
  let '(root, newNodes) := Updatable_climb siblings leaf DefaultHeight in
  let? db := storeRoot db (mkRoot root (lf_Index leaf) blockNum blockPosition) in
  Ok (storeNodes db newNodes, root).

End Tree.

(** ** Specification: the Merkle root of a leaf function *)

Section Spec.
Context `{Keccak}.

Definition node_hash (left right : Z) : Z := Keccak256Hash [Hash_Bytes left; Hash_Bytes right].

(** Root of the subtree of height [h] whose leaves are [i*2^h .. (i+1)*2^h - 1]. *)
Fixpoint mroot (f : Z -> Z) (h : nat) (i : Z) : Z :=
  match h with
  | O => f i
  | S h' => node_hash (mroot f h' (2 * i)) (mroot f h' (2 * i + 1))
  end.

Definition mnode (f : Z -> Z) (h : nat) (i : Z) : TreeNode :=
  mkTreeNode (mroot f (S h) i) (mroot f h (2 * i)) (mroot f h (2 * i + 1)).

(** The leaves of an append-only tree; absent leaves are zero. *)
Definition leaves_fn (leaves : list Z) (i : Z) : Z :=
  if i <? 0 then 0 else nth (Z.to_nat i) leaves 0.

Definition leaf_update (f : Z -> Z) (i v : Z) : Z -> Z := fun j => if j =? i then v else f j.

(** The root of a list of leaves, as the deposit contracts compute it. *)
Definition tree_root (leaves : list Z) : Z := mroot (leaves_fn leaves) DefaultHeight 0.

Fixpoint zero_hash (h : nat) : Z :=
  match h with
  | O => 0
  | S h' => let z := zero_hash h' in node_hash z z
  end.

(** The nodes on the path of leaf [i] from its parent to height [k]. *)
Definition path_nodes (f : Z -> Z) (i : Z) (k : nat) : list TreeNode :=
  map (fun h => mnode f h (i / 2 ^ Z.of_nat (S h))) (seq 0 k).

(** No two distinct nodes of the list have the same hash. *)
Definition collision_free (nodes : list TreeNode) : Prop :=
  Forall (fun a => Forall (fun b => tn_Hash a = tn_Hash b -> a = b) nodes) nodes.

Definition rht_nodes (rht : gmap Z TreeNode) : list TreeNode := map snd (map_to_list rht).

(** Every row is stored under its own hash, which is the hash of its children. *)
Definition rht_sound (rht : gmap Z TreeNode) : Prop :=
  map_Forall (fun k nd => tn_Hash nd = k /\ nd = newTreeNode (tn_Left nd) (tn_Right nd)) rht.

End Spec.

(** Conversion unfolds these last: they are trees of height 32. *)
#[global] Strategy 1000 [mroot zero_hash generateZeroHashes].

(** ** Lemmas on indexes *)

Lemma bit_set_testbit index h : 0 <= index -> bit_set index h = Z.testbit index (Z.of_nat h).
Proof.
  intros Hi. unfold bit_set. rewrite Z.shiftl_1_l.
  assert (Z.land index (2 ^ Z.of_nat h) =
          if Z.testbit index (Z.of_nat h) then 2 ^ Z.of_nat h else 0) as ->.
  { apply Z.bits_inj'. intros n Hn. rewrite Z.land_spec, Z.pow2_bits_eqb by lia.
    destruct (Z.eqb_spec (Z.of_nat h) n) as [<-|Hne].
    - rewrite andb_true_r. destruct (Z.testbit index (Z.of_nat h)); [|by rewrite Z.bits_0].
      by rewrite Z.pow2_bits_true by lia.
    - rewrite andb_false_r. destruct (Z.testbit index (Z.of_nat h)); [|by rewrite Z.bits_0].
      by rewrite Z.pow2_bits_false by lia. }
  destruct (Z.testbit index (Z.of_nat h)); [|done].
  apply Z.ltb_lt. apply Z.pow_pos_nonneg; lia.
Qed.

(** [(index>>h)&1 == 1] is the same test. *)

Lemma shift_bit_testbit index h :
  (Z.land (Z.shiftr index (Z.of_nat h)) 1 =? 1) = Z.testbit index (Z.of_nat h).
Proof.
  change 1 with (Z.ones 1) at 1. rewrite Z.land_ones, Z.shiftr_div_pow2 by lia. change (2 ^ 1) with 2.
  pose proof (Z.testbit_spec' index (Z.of_nat h) ltac:(lia)) as E. rewrite <- E.
  by destruct (Z.testbit index (Z.of_nat h)).
Qed.

Lemma pow2_S h : 2 ^ Z.of_nat (S h) = 2 * 2 ^ Z.of_nat h.
Proof. rewrite Nat2Z.inj_succ, Z.pow_succ_r by lia. done. Qed.

Lemma pow2_pos h : 0 < 2 ^ Z.of_nat h.
Proof. apply Z.pow_pos_nonneg; lia. Qed.

#[export] Hint Resolve pow2_pos : aggkit.

(** One step up the path: the parent's index and which child the path comes from. *)
Lemma path_step n h :
  0 <= n ->
  n / 2 ^ Z.of_nat h =
  2 * (n / 2 ^ Z.of_nat (S h)) + (if Z.testbit n (Z.of_nat h) then 1 else 0).
Proof.
  intros Hn. pose proof (Z.testbit_spec' n (Z.of_nat h) ltac:(lia)) as E.
  pose proof (pow2_pos h).
  assert (n / 2 ^ Z.of_nat (S h) = n / 2 ^ Z.of_nat h / 2) as ->.
  { rewrite Z.div_div by lia. f_equal. rewrite pow2_S. lia. }
  pose proof (Z.div_mod (n / 2 ^ Z.of_nat h) 2 ltac:(lia)).
  destruct (Z.testbit n (Z.of_nat h)); simpl in E; lia.
Qed.

(** [n] lies in the span of the node on its path. *)
Lemma path_span n h :
  0 <= n -> n / 2 ^ Z.of_nat h * 2 ^ Z.of_nat h <= n < (n / 2 ^ Z.of_nat h + 1) * 2 ^ Z.of_nat h.
Proof.
  intros Hn. pose proof (pow2_pos h).
  pose proof (Z.div_mod n (2 ^ Z.of_nat h) ltac:(lia)).
  pose proof (Z.mod_pos_bound n (2 ^ Z.of_nat h) ltac:(lia)). lia.
Qed.

Lemma path_index_unique n h i :
  i * 2 ^ Z.of_nat h <= n < (i + 1) * 2 ^ Z.of_nat h -> i = n / 2 ^ Z.of_nat h.
Proof.
  intros Hn. pose proof (pow2_pos h).
  apply (Z.div_unique_pos n (2 ^ Z.of_nat h) i (n - i * 2 ^ Z.of_nat h)); lia.
Qed.

(** ** Lemmas on roots *)

Section RootLemmas.
Context `{Keccak}.

Lemma tree_root_eq leaves : mroot (leaves_fn leaves) DefaultHeight 0 = tree_root leaves.
Proof. unfold tree_root. reflexivity. Qed.

Lemma mroot_0 f i : mroot f 0 i = f i.
Proof. done. Qed.

Lemma mroot_ext f g h i :
  (forall j, i * 2 ^ Z.of_nat h <= j < (i + 1) * 2 ^ Z.of_nat h -> f j = g j) ->
  mroot f h i = mroot g h i.
Proof.
  revert i. induction h as [|h IH]; intros i Hfg; simpl.
  - apply Hfg. simpl. lia.
  - rewrite pow2_S in Hfg. pose proof (pow2_pos h).
    rewrite (IH (2 * i)), (IH (2 * i + 1)); [done | |]; intros j Hj; apply Hfg; lia.
Qed.

Lemma mroot_zero f h i :
  (forall j, i * 2 ^ Z.of_nat h <= j < (i + 1) * 2 ^ Z.of_nat h -> f j = 0) ->
  mroot f h i = zero_hash h.
Proof.
  revert i. induction h as [|h IH]; intros i Hfg; simpl.
  - apply Hfg. simpl. lia.
  - rewrite pow2_S in Hfg. pose proof (pow2_pos h).
    rewrite (IH (2 * i)), (IH (2 * i + 1)); [done | |]; intros j Hj; apply Hfg; lia.
Qed.

(** A leaf outside the span of a node does not change its hash. *)
Lemma mroot_update_off f n v h i :
  0 <= n -> i <> n / 2 ^ Z.of_nat h -> mroot (leaf_update f n v) h i = mroot f h i.
Proof.
  intros Hn Hi. apply mroot_ext. intros j Hj. unfold leaf_update.
  destruct (Z.eqb_spec j n) as [->|]; [|done]. by apply path_index_unique in Hj.
Qed.

Lemma generateZeroHashes_length n : length (generateZeroHashes n) = S n.
Proof. induction n as [|n IH]; simpl; [done|]. rewrite length_app, IH. simpl. lia. Qed.

Lemma generateZeroHashes_nth n h : (h <= n)%nat -> nth h (generateZeroHashes n) 0 = zero_hash h.
Proof.
  revert h. induction n as [|n IH]; intros h Hh; simpl.
  - by replace h with O by lia.
  - destruct (decide (h = S n)) as [->|].
    + rewrite app_nth2; rewrite generateZeroHashes_length; [|lia].
      rewrite Nat.sub_diag. simpl. by rewrite IH.
    + rewrite app_nth1 by (rewrite generateZeroHashes_length; lia). apply IH. lia.
Qed.

Lemma mnode_new f h i : mnode f h i = newTreeNode (mroot f h (2 * i)) (mroot f h (2 * i + 1)).
Proof. done. Qed.

Lemma path_nodes_S f i k :
  path_nodes f i (S k) = path_nodes f i k ++ [mnode f k (i / 2 ^ Z.of_nat (S k))].
Proof. unfold path_nodes. rewrite seq_S, map_app. done. Qed.

Lemma path_nodes_In f i k nd :
  In nd (path_nodes f i k) <-> exists h, (h < k)%nat /\ nd = mnode f h (i / 2 ^ Z.of_nat (S h)).
Proof.
  unfold path_nodes. rewrite in_map_iff. split.
  - intros (h & <- & Hh). apply in_seq in Hh. exists h. split; [lia | done].
  - intros (h & Hh & ->). exists h. split; [done|]. apply in_seq. lia.
Qed.

(** ** The reverse hash table *)

Lemma storeNode_lookup rht nd k nd' : rht !! k = Some nd' -> storeNode rht nd !! k = Some nd'.
Proof.
  intros Hk. unfold storeNode. destruct (rht !! tn_Hash nd) eqn:E; [done|].
  rewrite lookup_insert_ne; [done | congruence].
Qed.

(** A row is never changed or removed. *)
Lemma storeNodes_monotone nodes rht k nd :
  rht !! k = Some nd -> fold_left storeNode nodes rht !! k = Some nd.
Proof.
  revert rht. induction nodes as [|x nodes IH]; intros rht Hk; simpl; [done|].
  apply IH. by apply storeNode_lookup.
Qed.

(** What is found after the insertion was there or was inserted. *)
Lemma storeNodes_inv nodes rht k nd :
  fold_left storeNode nodes rht !! k = Some nd ->
  rht !! k = Some nd \/ (In nd nodes /\ tn_Hash nd = k).
Proof.
  revert rht. induction nodes as [|x nodes IH]; intros rht; simpl; [auto|].
  intros Hk. apply IH in Hk as [Hk|[? ?]]; [|auto].
  unfold storeNode in Hk. destruct (rht !! tn_Hash x) eqn:E; [auto|].
  destruct (decide (tn_Hash x = k)) as [<-|].
  - rewrite lookup_insert_eq in Hk. injection Hk as <-. auto.
  - rewrite lookup_insert_ne in Hk by done. auto.
Qed.

Lemma storeNodes_dom nodes rht nd :
  In nd nodes -> is_Some (fold_left storeNode nodes rht !! tn_Hash nd).
Proof.
  revert rht. induction nodes as [|x nodes IH]; intros rht Hin; [done|].
  destruct Hin as [->|Hin]; simpl; [|by apply IH].
  assert (is_Some (storeNode rht nd !! tn_Hash nd)) as [y Hy].
  { unfold storeNode. destruct (rht !! tn_Hash nd) eqn:E; [by rewrite E|].
    rewrite lookup_insert_eq. by eexists. }
  exists y. by apply storeNodes_monotone.
Qed.

Lemma collision_free_spec nodes a b :
  collision_free nodes -> In a nodes -> In b nodes -> tn_Hash a = tn_Hash b -> a = b.
Proof.
  intros Hc Ha Hb. apply list_elem_of_In in Ha, Hb.
  pose proof (proj1 (Forall_forall _ _) Hc a Ha) as Hc'.
  exact (proj1 (Forall_forall _ _) Hc' b Hb).
Qed.

Lemma rht_nodes_In rht k nd : rht !! k = Some nd -> In nd (rht_nodes rht).
Proof.
  intros Hk. unfold rht_nodes. apply in_map_iff. exists (k, nd). split; [done|].
  apply list_elem_of_In. by apply elem_of_map_to_list.
Qed.

Lemma rht_sound_hash rht k nd : rht_sound rht -> rht !! k = Some nd -> tn_Hash nd = k.
Proof. intros Hs Hk. by destruct (Hs _ _ Hk). Qed.

Lemma newTreeNode_sound l r : newTreeNode l r = newTreeNode (tn_Left (newTreeNode l r)) (tn_Right (newTreeNode l r)).
Proof. done. Qed.

Lemma storeNodes_sound nodes rht :
  Forall (fun nd => nd = newTreeNode (tn_Left nd) (tn_Right nd)) nodes ->
  rht_sound rht -> rht_sound (fold_left storeNode nodes rht).
Proof.
  intros Hn Hs k nd Hk. apply storeNodes_inv in Hk as [Hk|[Hin <-]]; [by apply Hs|].
  split; [done|]. apply list_elem_of_In in Hin. exact (proj1 (Forall_forall _ _) Hn nd Hin).
Qed.

(** Without a collision, an inserted node is found under its hash. *)
Lemma storeNodes_lookup nodes rht nd :
  rht_sound rht -> collision_free (rht_nodes rht ++ nodes) -> In nd nodes ->
  fold_left storeNode nodes rht !! tn_Hash nd = Some nd.
Proof.
  intros Hs Hc Hin. destruct (storeNodes_dom nodes rht nd Hin) as [nd' Hnd'].
  rewrite Hnd'. f_equal. apply (collision_free_spec _ _ _ Hc).
  - apply storeNodes_inv in Hnd' as [Hk|[? _]]; apply in_or_app; [left; by eapply rht_nodes_In | by right].
  - apply in_or_app. by right.
  - apply storeNodes_inv in Hnd' as [Hk|[_ ?]]; [by eapply rht_sound_hash | done].
Qed.

(** ** Walks down the table *)

(** The nodes of the subtrees that hold a leaf below [n] are stored. *)
Definition stored (rht : gmap Z TreeNode) (f : Z -> Z) (n : Z) : Prop :=
  forall h i, (h < DefaultHeight)%nat -> 0 <= i -> i * 2 ^ Z.of_nat (S h) < n ->
  rht !! mroot f (S h) i = Some (mnode f h i).

Lemma stored_path rht f n j h :
  stored rht f n -> 0 <= j < n -> (h < DefaultHeight)%nat ->
  rht !! mroot f (S h) (j / 2 ^ Z.of_nat (S h)) = Some (mnode f h (j / 2 ^ Z.of_nat (S h))).
Proof.
  intros Hs Hj Hh. apply Hs; [done | |].
  - apply Z.div_pos; [lia | apply pow2_pos].
  - pose proof (path_span j (S h) ltac:(lia)). lia.
Qed.

(** The child of a path node on the path. *)
Lemma path_child (f : Z -> Z) j h :
  0 <= j ->
  (if bit_set j h then mroot f h (2 * (j / 2 ^ Z.of_nat (S h)) + 1)
   else mroot f h (2 * (j / 2 ^ Z.of_nat (S h)))) = mroot f h (j / 2 ^ Z.of_nat h).
Proof.
  intros Hj. rewrite (path_step j h Hj), bit_set_testbit by done.
  destruct (Z.testbit j (Z.of_nat h)); f_equal; lia.
Qed.

Lemma GetLeaf_from_stored db f n j h :
  stored (db_rht db) f n -> 0 <= j < n -> (h <= DefaultHeight)%nat ->
  GetLeaf_from db j (mroot f h (j / 2 ^ Z.of_nat h)) h = Ok (f j).
Proof.
  intros Hs Hj. induction h as [|h IH]; intros Hh; simpl GetLeaf_from.
  - simpl. by rewrite Z.div_1_r.
  - unfold getRHTNode. rewrite (stored_path _ f n j h) by (done || lia). simpl rbind.
    pose proof (path_child f j h ltac:(lia)) as Hc.
    destruct (bit_set j h); simpl; rewrite Hc; apply IH; lia.
Qed.

(** The sibling of the path node at height [h]. *)
Definition sibling (f : Z -> Z) (j : Z) (h : nat) : Z :=
  if bit_set j h then mroot f h (2 * (j / 2 ^ Z.of_nat (S h)))
  else mroot f h (2 * (j / 2 ^ Z.of_nat (S h)) + 1).

Lemma getSiblings_from_stored t db f n j h :
  stored (db_rht db) f n -> 0 <= j < n -> (h <= DefaultHeight)%nat ->
  getSiblings_from t db j (mroot f h (j / 2 ^ Z.of_nat h)) h = (map (sibling f j) (seq 0 h), false).
Proof.
  intros Hs Hj. induction h as [|h IH]; intros Hh; simpl getSiblings_from; [done|].
  unfold getRHTNode. rewrite (stored_path _ f n j h) by (done || lia).
  pose proof (path_child f j h ltac:(lia)) as Hc.
  rewrite seq_S, map_app. simpl map at 2. unfold sibling at 2.
  destruct (bit_set j h); simpl; rewrite Hc, IH by lia; done.
Qed.

(** The left sibling or self at height [h]: what the cache of left nodes holds. *)
Definition left_of_path (f : Z -> Z) (j : Z) (h : nat) : Z := mroot f h (2 * (j / 2 ^ Z.of_nat (S h))).

Lemma initCache_from_stored db f n j h :
  stored (db_rht db) f n -> 0 <= j < n -> (h <= DefaultHeight)%nat ->
  initCache_from db j (mroot f h (j / 2 ^ Z.of_nat h)) h = Ok (map (left_of_path f j) (seq 0 h)).
Proof.
  intros Hs Hj. induction h as [|h IH]; intros Hh; simpl initCache_from; [done|].
  unfold getRHTNode. rewrite (stored_path _ f n j h) by (done || lia). simpl rbind.
  pose proof (path_child f j h ltac:(lia)) as Hc. simpl tn_Left. simpl tn_Right.
  rewrite Hc, IH, seq_S, map_app by lia. done.
Qed.

(** ** Proofs *)

Lemma nth_map_seq {A} (g : nat -> A) d n k : (k < n)%nat -> nth k (map g (seq 0 n)) d = g k.
Proof.
  intros Hk. rewrite (nth_indep _ d (g 0%nat)) by (rewrite length_map, length_seq; lia).
  rewrite map_nth. by rewrite seq_nth.
Qed.

Lemma CalculateRoot_siblings f j n k :
  0 <= j -> (k <= n)%nat ->
  CalculateRoot_upto (f j) (map (sibling f j) (seq 0 n)) j k = mroot f k (j / 2 ^ Z.of_nat k).
Proof.
  intros Hj. induction k as [|k IH]; intros Hk; simpl CalculateRoot_upto.
  - simpl. by rewrite Z.div_1_r.
  - rewrite shift_bit_testbit, IH, nth_map_seq by lia. unfold sibling.
    pose proof (path_child f j k Hj) as Hc. rewrite bit_set_testbit in * by done.
    simpl mroot. destruct (Z.testbit j (Z.of_nat k)); rewrite <- Hc; done.
Qed.

Lemma path_top j : 0 <= j < 2 ^ 32 -> j / 2 ^ Z.of_nat DefaultHeight = 0.
Proof. intros. apply Z.div_small. done. Qed.

(** ** Evaluation

    [mroot] visits every leaf; with leaves only below [n] the empty subtrees need no visit. *)
Fixpoint mroot_sparse (zs : list Z) (f : Z -> Z) (n : Z) (h : nat) (i : Z) : Z :=
  if n <=? i * 2 ^ Z.of_nat h then nth h zs 0
  else match h with
       | O => f i
       | S h' => node_hash (mroot_sparse zs f n h' (2 * i)) (mroot_sparse zs f n h' (2 * i + 1))
       end.

Lemma mroot_sparse_eq k f n h i :
  (forall j, n <= j -> f j = 0) -> (h <= k)%nat ->
  mroot f h i = mroot_sparse (generateZeroHashes k) f n h i.
Proof.
  intros Hf. revert i. induction h as [|h IH]; intros i Hh; cbn [mroot_sparse].
  - change (2 ^ Z.of_nat 0) with 1. rewrite generateZeroHashes_nth by lia.
    destruct (n <=? i * 1) eqn:E; [|done]. bool_hyps. apply Hf. lia.
  - destruct (n <=? i * 2 ^ Z.of_nat (S h)) eqn:E; bool_hyps.
    + rewrite generateZeroHashes_nth by lia. apply mroot_zero. intros j Hj. apply Hf. lia.
    + cbn [mroot]. by rewrite !IH by lia.
Qed.

End RootLemmas.

Arguments generateZeroHashes : simpl never.
Arguments mroot : simpl never.
Arguments zero_hash : simpl never.

(** ** The append-only tree refines a list of leaves *)

Section AppendOnlyProofs.
Context `{Keccak}.

Definition Root_lt (a b : Root) : Prop := Root_leb b a = false.

(** The database after the leaves were appended in order: one root row per leaf, whose hash is
    the root of the leaves so far, in increasing (block, position) order, every historical tree
    readable from the hash table. *)
Record db_inv (db : TreeDB) (leaves : list Z) : Prop := {
  di_length : length (db_root db) = length leaves;
  di_rows : forall k r, db_root db !! k = Some r ->
    rt_Index r = Z.of_nat k /\ rt_Hash r = tree_root (take (S k) leaves);
  di_sorted : forall k k' r r', (k < k')%nat ->
    db_root db !! k = Some r -> db_root db !! k' = Some r' -> Root_lt r r';
  di_stored : forall m, (m <= length leaves)%nat ->
    stored (db_rht db) (leaves_fn (take m leaves)) (Z.of_nat m);
  di_sound : rht_sound (db_rht db);
  di_size : Z.of_nat (length leaves) <= 2 ^ 32
}.

(** The cache is right at every height the next leaf will read. *)
Definition cache_ready (leaves : list Z) (cache : list Z) : Prop :=
  let n := Z.of_nat (length leaves) in
  forall h, (h < DefaultHeight)%nat -> bit_set n h = true ->
  nth h cache 0 = left_of_path (leaves_fn leaves) n h.

Record aot_inv (t : AppendOnlyTree) (db : TreeDB) (leaves : list Z) : Prop := {
  ai_zero : tr_zeroHashes (aot_Tree t) = generateZeroHashes DefaultHeight;
  ai_cache : length (aot_lastLeftCache t) = DefaultHeight;
  ai_db : db_inv db leaves;
  ai_index : aot_lastIndex t = -2 \/ Z.of_nat (length leaves) - 1 <= aot_lastIndex t;
  ai_ready : aot_lastIndex t = Z.of_nat (length leaves) - 1 -> cache_ready leaves (aot_lastLeftCache t)
}.

Lemma leaves_fn_nth leaves k : (k < length leaves)%nat -> leaves_fn leaves (Z.of_nat k) = nth k leaves 0.
Proof. intros Hk. unfold leaves_fn. rewrite (proj2 (Z.ltb_ge _ _)) by lia. by rewrite Nat2Z.id. Qed.

Lemma leaves_fn_beyond leaves j : Z.of_nat (length leaves) <= j -> leaves_fn leaves j = 0.
Proof.
  intros Hj. unfold leaves_fn. destruct (j <? 0); [done|]. apply nth_overflow. lia.
Qed.

Lemma leaves_fn_app leaves more j :
  j < Z.of_nat (length leaves) -> leaves_fn (leaves ++ more) j = leaves_fn leaves j.
Proof.
  intros Hj. unfold leaves_fn. destruct (j <? 0) eqn:E; [done|]. bool_hyps. apply app_nth1. lia.
Qed.

(** A left node next to the path of [n] only holds leaves before [n]. *)
Lemma left_of_path_prefix leaves x h :
  let n := Z.of_nat (length leaves) in
  bit_set n h = true ->
  left_of_path (leaves_fn (leaves ++ [x])) n h = left_of_path (leaves_fn leaves) n h.
Proof.
  intros n Hb. unfold left_of_path. apply mroot_ext. intros j Hj. apply leaves_fn_app. fold n.
  rewrite bit_set_testbit in Hb by lia. pose proof (path_step n h ltac:(lia)) as Hp. rewrite Hb in Hp.
  pose proof (path_span n h ltac:(lia)) as Hsp. rewrite Hp in Hsp.
  pose proof (pow2_pos h). lia.
Qed.

(** The right node next to the path of the last leaf is empty. *)
Lemma right_of_path_zero f n h :
  0 <= n -> (forall j, n < j -> f j = 0) -> bit_set n h = false ->
  mroot f h (2 * (n / 2 ^ Z.of_nat (S h)) + 1) = zero_hash h.
Proof.
  intros Hn Hz Hb. apply mroot_zero. intros j Hj. apply Hz.
  rewrite bit_set_testbit in Hb by lia. pose proof (path_step n h ltac:(lia)) as Hp. rewrite Hb in Hp.
  pose proof (path_span n h ltac:(lia)) as Hsp. rewrite Hp in Hsp. pose proof (pow2_pos h). lia.
Qed.

Lemma insert_at_length {A} (l k : list A) n x y :
  length l = n -> <[n := x]> (l ++ y :: k) = l ++ x :: k.
Proof. intros <-. induction l as [|a l IH]; simpl; [done|]. by rewrite <- IH. Qed.

(** The loop of [PutLeaf]: the hash of the path node, the left nodes along the path, the path. *)
Lemma AppendOnly_climb_spec zs f n v cache k :
  (forall h, (h <= DefaultHeight)%nat -> nth h zs 0 = zero_hash h) -> 0 <= n -> f n = v -> (forall j, n < j -> f j = 0) -> length cache = DefaultHeight ->
  (forall h, (h < DefaultHeight)%nat -> bit_set n h = true -> nth h cache 0 = left_of_path f n h) ->
  (k <= DefaultHeight)%nat ->
  AppendOnly_climb zs (mkLeaf n v) cache k =
  (mroot f k (n / 2 ^ Z.of_nat k), map (left_of_path f n) (seq 0 k) ++ drop k cache, path_nodes f n k).
Proof.
  intros Hzs Hn Hv Hz Hlen Hready. induction k as [|k IH]; intros Hk.
  { simpl. by rewrite mroot_0, Z.div_1_r, drop_0, Hv. }
  cbn [AppendOnly_climb lf_Index lf_Hash]. rewrite IH by lia.
  rewrite path_nodes_S, seq_S, map_app. cbn [map Nat.add].
  destruct (drop k cache) as [|c rest] eqn:Hd.
  { apply (f_equal length) in Hd. rewrite length_drop in Hd. simpl in Hd. lia. }
  assert (drop (S k) cache = rest) as ->.
  { replace (S k) with (k + 1)%nat by lia. rewrite <- drop_drop, Hd. done. }
  assert (nth k cache 0 = c) as Hc.
  { rewrite <- (take_drop k cache), Hd, app_nth2; rewrite length_take; [|lia].
    by replace (k - k `min` length cache)%nat with 0%nat by lia. }
  assert (length (map (left_of_path f n) (seq 0 k)) = k) as Hlk by (by rewrite length_map, length_seq).
  pose proof (path_child f n k Hn) as Hchild. rewrite mnode_new.
  destruct (bit_set n k) eqn:Hb; simpl tn_Hash; rewrite <- Hchild.
  - rewrite app_nth2 by lia. rewrite Hlk, Nat.sub_diag. simpl nth.
    rewrite <- Hc, (Hready k) by (done || lia). rewrite <- app_assoc. done.
  - rewrite Hzs by lia. rewrite <- (right_of_path_zero f n k) by done.
    rewrite insert_at_length, <- app_assoc by done. done.
Qed.

Lemma db_inv_empty : db_inv emptyTreeDB [].
Proof.
  split; simpl; try done.
  intros m Hm h i _ Hi Hlt. pose proof (pow2_pos (S h)). nia.
Qed.

(** A fresh tree object over any database of the invariant: start and restart of the process. *)
Lemma aot_inv_new db leaves : db_inv db leaves -> aot_inv NewAppendOnlyTree db leaves.
Proof. intros Hdb. split; simpl; auto; intros; lia. Qed.

(** ** Rebuilding the cache *)

Lemma fold_lastRoot_In l best r :
  fold_left lastRoot_step l best = Some r -> best = Some r \/ In r l.
Proof.
  revert best. induction l as [|x l IH]; intros best; simpl; [auto|].
  intros Hf. apply IH in Hf as [Hf|]; [|auto]. unfold lastRoot_step in Hf.
  destruct best as [b|]; [destruct (Root_leb b x)|]; injection Hf as <-; auto.
Qed.

Lemma Root_lt_leb a b : Root_lt a b -> Root_leb a b = true.
Proof.
  unfold Root_lt, Root_leb. intros Hlt. bool_hyps.
  destruct (rt_BlockNum a <? rt_BlockNum b) eqn:E; [done|]. bool_hyps. simpl.
  assert (rt_BlockNum a = rt_BlockNum b) as -> by lia. rewrite Z.eqb_refl in *. simpl in *. bool_hyps.
  apply Z.leb_le. lia.
Qed.

Lemma GetLastRoot_snoc rht l r :
  (forall x, In x l -> Root_lt x r) -> GetLastRoot (mkTreeDB rht (l ++ [r])) = Ok r.
Proof.
  intros Hall. unfold GetLastRoot. simpl. rewrite fold_left_app. simpl.
  destruct (fold_left lastRoot_step l None) as [b|] eqn:E; simpl; [|done].
  apply fold_lastRoot_In in E as [|Hin]; [done|]. by rewrite (Root_lt_leb _ _ (Hall b Hin)).
Qed.

(** The last row of the table is the root of all the leaves. *)
Lemma GetLastRoot_db_inv db leaves :
  db_inv db leaves -> leaves <> [] ->
  exists r, GetLastRoot db = Ok r /\ rt_Index r = Z.of_nat (length leaves) - 1 /\ rt_Hash r = tree_root leaves.
Proof.
  intros Hdb Hne. pose proof (di_length _ _ Hdb) as Hlen.
  destruct db as [rht rows]. simpl in *.
  destruct rows as [|r rows _] using rev_ind; [destruct leaves; done|].
  rewrite length_app in Hlen. simpl in Hlen.
  assert ((rows ++ [r]) !! length rows = Some r) as Hr by (by apply list_lookup_middle).
  exists r. destruct (di_rows _ _ Hdb _ _ Hr) as [Hi Hh]. split_and!.
  - apply GetLastRoot_snoc. intros x Hx. apply list_elem_of_In, list_elem_of_lookup in Hx as [k Hk].
    pose proof (lookup_lt_Some _ _ _ Hk). eapply (di_sorted _ _ Hdb k (length rows)); simpl; [lia | | done].
    by rewrite lookup_app_l.
  - lia.
  - rewrite Hh. f_equal. apply take_ge. lia.
Qed.

(** The cache of left nodes after the last leaf is ready for the next one. *)
Lemma left_nodes_ready leaves :
  leaves <> [] ->
  cache_ready leaves (map (left_of_path (leaves_fn leaves) (Z.of_nat (length leaves) - 1)) (seq 0 DefaultHeight)).
Proof.
  intros Hne h Hh Hb. rewrite nth_map_seq by done. unfold left_of_path.
  set (n := Z.of_nat (length leaves)) in *.
  assert (0 < n) by (destruct leaves; [done | simpl in n; lia]).
  rewrite bit_set_testbit in Hb by lia. pose proof (path_step n h ltac:(lia)) as Hp. rewrite Hb in Hp.
  pose proof (path_span n h ltac:(lia)) as Hsp. pose proof (pow2_pos h).
  rewrite <- (path_index_unique (n - 1) (S h) (n / 2 ^ Z.of_nat (S h))); [done|].
  pose proof (path_span n (S h) ltac:(lia)). rewrite pow2_S in *. nia.
Qed.

Lemma initCache_from_tree_root db leaves j :
  stored (db_rht db) (leaves_fn leaves) (Z.of_nat (length leaves)) ->
  0 <= j < Z.of_nat (length leaves) -> Z.of_nat (length leaves) <= 2 ^ 32 ->
  initCache_from db j (tree_root leaves) DefaultHeight =
  Ok (map (left_of_path (leaves_fn leaves) j) (seq 0 DefaultHeight)).
Proof.
  intros Hst Hj Hn.
  pose proof (initCache_from_stored db (leaves_fn leaves) _ j DefaultHeight Hst Hj (le_n _)) as Hwalk.
  rewrite path_top in Hwalk by lia. exact Hwalk.
Qed.

Lemma initCache_inv t db leaves :
  aot_inv t db leaves ->
  exists t', initCache t db = (t', Ok tt) /\ aot_inv t' db leaves /\
             aot_lastIndex t' = Z.of_nat (length leaves) - 1.
Proof.
  intros [Hz Hc Hdb Hi Hr]. unfold initCache.
  destruct leaves as [|x leaves0] eqn:El.
  - assert (db_root db = []) as E by (apply nil_length_inv, (di_length _ _ Hdb)).
    unfold GetLastRoot. rewrite E. simpl. eexists. split; [done|]. split; [|done].
    split; simpl; auto; [lia|]. intros _ h _ Hb. simpl in Hb. by rewrite bit_set_testbit, Z.bits_0 in Hb.
  - rewrite <- El in *. assert (leaves <> []) as Hne by (by rewrite El).
    destruct (GetLastRoot_db_inv _ _ Hdb Hne) as (r & -> & Hri & Hrh).
    assert (0 < length leaves)%nat by (rewrite El; simpl; lia).
    pose proof (di_stored _ _ Hdb (length leaves) ltac:(done)) as Hst. rewrite firstn_all in Hst.
    pose proof (di_size _ _ Hdb).
    rewrite Hrh, (initCache_from_tree_root db leaves) by (done || lia).
    eexists. split; [reflexivity|].
    split; [|cbn [aot_lastIndex aot_setCache aot_setIndex]; done].
    split; cbn [aot_Tree aot_lastLeftCache aot_lastIndex aot_setCache aot_setIndex].
    + exact Hz.
    + by rewrite length_map, length_seq.
    + exact Hdb.
    + right. lia.
    + intros _. rewrite Hri. by apply left_nodes_ready.
Qed.

(** ** Appending a leaf *)

Lemma stored_mono rht nodes f n : stored rht f n -> stored (fold_left storeNode nodes rht) f n.
Proof. intros Hs h i Hh Hi Hn. apply storeNodes_monotone. by apply Hs. Qed.

(** The tree of one more leaf is readable once the nodes of its path are stored. *)
Lemma stored_append rht leaves v :
  let n := Z.of_nat (length leaves) in
  let f := leaves_fn (leaves ++ [v]) in
  let nodes := path_nodes f n DefaultHeight in
  stored rht (leaves_fn leaves) n -> rht_sound rht -> collision_free (rht_nodes rht ++ nodes) ->
  stored (fold_left storeNode nodes rht) f (n + 1).
Proof.
  intros n f nodes Hs Hsound Hc h i Hh Hi Hlt.
  destruct (decide (i = n / 2 ^ Z.of_nat (S h))) as [->|Hne].
  - apply (storeNodes_lookup nodes rht (mnode f h (n / 2 ^ Z.of_nat (S h)))); [done | done|].
    apply path_nodes_In. by exists h.
  - assert (i * 2 ^ Z.of_nat (S h) < n) as Hlt'.
    { destruct (decide (i * 2 ^ Z.of_nat (S h) = n)) as [E|]; [|lia]. exfalso. apply Hne.
      apply path_index_unique. pose proof (pow2_pos (S h)). lia. }
    assert (forall k j, j * 2 ^ Z.of_nat k + 2 ^ Z.of_nat k <= n ->
              mroot f k j = mroot (leaves_fn leaves) k j) as Hsame.
    { intros k j Hj. apply mroot_ext. intros x Hx. apply leaves_fn_app. fold n. lia. }
    assert ((i + 1) * 2 ^ Z.of_nat (S h) <= n) as Hspan.
    { destruct (Z.lt_ge_cases n ((i + 1) * 2 ^ Z.of_nat (S h))); [|done].
      exfalso. apply Hne. apply path_index_unique. lia. }
    unfold mnode. pose proof (pow2_pos h). rewrite pow2_S in Hspan.
    rewrite !Hsame by (rewrite ?pow2_S; lia).
    apply storeNodes_monotone. by apply Hs.
Qed.

Lemma db_inv_append db leaves v bn bp :
  let n := Z.of_nat (length leaves) in
  let f := leaves_fn (leaves ++ [v]) in
  let nodes := path_nodes f n DefaultHeight in
  db_inv db leaves -> n < 2 ^ 32 ->
  (forall r, In r (db_root db) -> Root_lt r (mkRoot (tree_root (leaves ++ [v])) n bn bp)) ->
  collision_free (rht_nodes (db_rht db) ++ nodes) ->
  db_inv (storeNodes (mkTreeDB (db_rht db) (db_root db ++ [mkRoot (tree_root (leaves ++ [v])) n bn bp])) nodes)
         (leaves ++ [v]).
Proof.
  intros n f nodes [Hl Hrows Hsort Hst Hsd Hsz] Hn Hlast Hc.
  assert (forall k r, (db_root db ++ [mkRoot (tree_root (leaves ++ [v])) n bn bp]) !! k = Some r ->
    db_root db !! k = Some r \/ (k = length leaves /\ r = mkRoot (tree_root (leaves ++ [v])) n bn bp)) as Hlk.
  { intros k r Hk. apply lookup_app_Some in Hk as [?|[? Hk]]; [auto|]. right.
    apply list_lookup_singleton_Some in Hk as [? <-]. split; [lia | done]. }
  split; cbn [db_root db_rht storeNodes].
  - rewrite !length_app. simpl. lia.
  - intros k r Hk. apply Hlk in Hk as [Hk|[-> ->]].
    + destruct (Hrows k r Hk) as [Hi Hh]. pose proof (lookup_lt_Some _ _ _ Hk).
      split; [done|]. rewrite take_app_le by lia. done.
    + cbn [rt_Index rt_Hash]. split; [done|]. f_equal. symmetry. apply take_ge. rewrite length_app. simpl. lia.
  - intros k k' r r' Hkk Hk Hk'. apply Hlk in Hk as [Hk|[-> ->]], Hk' as [Hk'|[-> ->]].
    + by eapply Hsort.
    + apply Hlast. apply list_elem_of_In. by eapply list_elem_of_lookup_2.
    + apply lookup_lt_Some in Hk'. lia.
    + lia.
  - intros m Hm. rewrite length_app in Hm. simpl in Hm.
    destruct (decide (m = S (length leaves))) as [->|].
    + rewrite take_ge by (rewrite length_app; simpl; lia).
      replace (Z.of_nat (S (length leaves))) with (n + 1) by lia.
      apply stored_append; [|done|done]. specialize (Hst (length leaves) (le_n _)).
      by rewrite firstn_all in Hst.
    + rewrite take_app_le by lia. apply stored_mono, Hst. lia.
  - apply storeNodes_sound; [|done]. apply Forall_forall. intros nd Hnd.
    apply list_elem_of_In, path_nodes_In in Hnd as (h & _ & ->). done.
  - rewrite length_app. simpl. lia.
Qed.

(** What a put needs of its caller: the position follows the stored ones, the new root is not a
    stored one, and its nodes do not collide with the stored ones. *)
Record put_ok (db : TreeDB) (leaves : list Z) (bn bp v : Z) : Prop := {
  po_size : Z.of_nat (length leaves) < 2 ^ 32;
  po_position : forall r, In r (db_root db) ->
    Root_lt r (mkRoot (tree_root (leaves ++ [v])) (Z.of_nat (length leaves)) bn bp);
  po_fresh : forall r, In r (db_root db) -> rt_Hash r <> tree_root (leaves ++ [v]);
  po_nodes : collision_free (rht_nodes (db_rht db) ++
    path_nodes (leaves_fn (leaves ++ [v])) (Z.of_nat (length leaves)) DefaultHeight)
}.

Lemma leaves_fn_snoc_at leaves v : leaves_fn (leaves ++ [v]) (Z.of_nat (length leaves)) = v.
Proof.
  rewrite leaves_fn_nth by (rewrite length_app; simpl; lia).
  by rewrite app_nth2, Nat.sub_diag by lia.
Qed.

Lemma AppendOnly_insert_spec t tx leaves bn bp v :
  let n := Z.of_nat (length leaves) in
  aot_inv t (tx_db tx) leaves -> aot_lastIndex t = n - 1 -> put_ok (tx_db tx) leaves bn bp v ->
  exists t' tx',
    AppendOnly_insert t tx bn bp (mkLeaf n v) = (t', tx', Ok (tree_root (leaves ++ [v]))) /\
    aot_inv t' (tx_db tx') (leaves ++ [v]) /\ aot_lastIndex t' = n /\
    aot_lastLeftCache t' = map (left_of_path (leaves_fn (leaves ++ [v])) n) (seq 0 DefaultHeight) /\
    aot_Tree t' = aot_Tree t /\ tx_saved tx' = tx_saved tx /\
    tx_rollbackCallbacks tx' = tx_rollbackCallbacks tx ++ [decreaseIndex].
Proof.
  intros n [Hz Hc Hdb Hi Hr] Hlast [Hsz Hpos Hfresh Hcoll].
  assert (forall h, (h < DefaultHeight)%nat -> bit_set n h = true ->
    nth h (aot_lastLeftCache t) 0 = left_of_path (leaves_fn (leaves ++ [v])) n h) as Hready.
  { intros h Hh Hb. rewrite left_of_path_prefix by done. by apply Hr. }
  unfold AppendOnly_insert.
  rewrite (AppendOnly_climb_spec _ (leaves_fn (leaves ++ [v])) n v); [| | lia | | | done | done | done].
  2: { intros h Hh. rewrite Hz. by apply generateZeroHashes_nth. }
  2: { apply leaves_fn_snoc_at. }
  2: { intros j Hj. apply leaves_fn_beyond. rewrite length_app. simpl. lia. }
  rewrite path_top by lia. rewrite tree_root_eq.
  rewrite drop_ge, app_nil_r by lia.
  unfold storeRoot. cbn [lf_Index rt_Hash].
  rewrite (proj2 (existsb_false_In _ _)) by (intros r Hin; apply Z.eqb_neq; by apply Hfresh).
  do 2 eexists. split; [reflexivity|].
  cbn [aot_lastIndex aot_lastLeftCache aot_setIndex aot_setCache aot_Tree tx_db tx_set
       AddRollbackCallback tx_saved tx_rollbackCallbacks].
  split_and!; [|lia | done | done | done | done].
  split; cbn [aot_lastIndex aot_lastLeftCache aot_setIndex aot_setCache aot_Tree].
  - done.
  - by rewrite length_map, length_seq.
  - by apply db_inv_append.
  - rewrite length_app. simpl. lia.
  - intros _. assert (n = Z.of_nat (length (leaves ++ [v])) - 1) as -> by (rewrite length_app; simpl; lia).
    apply left_nodes_ready. by destruct leaves.
Qed.

(** The row the insertion adds. *)
Lemma AppendOnly_insert_rows t tx leaf bn bp t' tx' root :
  AppendOnly_insert t tx bn bp leaf = (t', tx', Ok root) ->
  db_root (tx_db tx') = db_root (tx_db tx) ++ [mkRoot root (lf_Index leaf) bn bp] /\
  tx_saved tx' = tx_saved tx /\ tx_commitCallbacks tx' = tx_commitCallbacks tx.
Proof.
  unfold AppendOnly_insert. destruct (AppendOnly_climb _ _ _ _) as [[h c] ns].
  unfold storeRoot. cbn [rt_Hash]. destruct (existsb _ _); [discriminate|]. by intros [= <- <- ->].
Qed.

(** [PutLeaf] with the rows and the transaction it leaves. *)
Lemma PutLeaf_run t tx leaves bn bp v :
  aot_inv t (tx_db tx) leaves -> put_ok (tx_db tx) leaves bn bp v ->
  exists t' tx',
    AppendOnly_PutLeaf t tx bn bp (mkLeaf (Z.of_nat (length leaves)) v) = (t', tx', Ok (tree_root (leaves ++ [v]))) /\
    aot_inv t' (tx_db tx') (leaves ++ [v]) /\
    db_root (tx_db tx') = db_root (tx_db tx) ++ [mkRoot (tree_root (leaves ++ [v])) (Z.of_nat (length leaves)) bn bp] /\
    tx_saved tx' = tx_saved tx /\ tx_commitCallbacks tx' = tx_commitCallbacks tx.
Proof.
  intros Hinv Hput.
  assert (forall u, aot_inv u (tx_db tx) leaves -> aot_lastIndex u = Z.of_nat (length leaves) - 1 ->
    exists t' tx', AppendOnly_insert u tx bn bp (mkLeaf (Z.of_nat (length leaves)) v)
      = (t', tx', Ok (tree_root (leaves ++ [v]))) /\ aot_inv t' (tx_db tx') (leaves ++ [v]) /\
      db_root (tx_db tx') = db_root (tx_db tx) ++ [mkRoot (tree_root (leaves ++ [v])) (Z.of_nat (length leaves)) bn bp] /\
      tx_saved tx' = tx_saved tx /\ tx_commitCallbacks tx' = tx_commitCallbacks tx) as Hins.
  { intros u Hu Hlast. destruct (AppendOnly_insert_spec u tx leaves bn bp v Hu Hlast Hput)
      as (t' & tx' & Hrun & Hinv' & _). exists t', tx'. split; [done|]. split; [done|].
    by apply (AppendOnly_insert_rows _ _ _ _ _ _ _ _ Hrun). }
  unfold AppendOnly_PutLeaf. cbn [lf_Index].
  destruct (Z.of_nat (length leaves) =? aot_lastIndex t + 1) eqn:E; cbn [negb]; bool_hyps.
  - apply Hins; [done | lia].
  - destruct (initCache_inv t _ leaves Hinv) as (t1 & Hinit & Hinv1 & Hlast1). rewrite Hinit.
    rewrite Hlast1, (proj2 (Z.eqb_eq _ _)) by lia. cbn [negb]. by apply Hins.
Qed.

Lemma GetLastRoot_put db leaves bn bp v rows :
  put_ok db leaves bn bp v ->
  rows = db_root db ++ [mkRoot (tree_root (leaves ++ [v])) (Z.of_nat (length leaves)) bn bp] ->
  forall rht, GetLastRoot (mkTreeDB rht rows) = Ok (mkRoot (tree_root (leaves ++ [v])) (Z.of_nat (length leaves)) bn bp).
Proof. intros Hput -> rht. apply GetLastRoot_snoc. apply (po_position _ _ _ _ _ Hput). Qed.

(** C19. [PutLeaf] of the next index refines appending to the list of leaves: whether the cache of
    left nodes is in use or must be rebuilt from the database (fresh process, reorg), it returns
    the Merkle root of all the leaves with the new one, stores it, and keeps the invariant. *)
Theorem PutLeaf_appends t tx leaves bn bp v :
  aot_inv t (tx_db tx) leaves -> put_ok (tx_db tx) leaves bn bp v ->
  exists t' tx',
    AppendOnly_PutLeaf t tx bn bp (mkLeaf (Z.of_nat (length leaves)) v)
      = (t', tx', Ok (tree_root (leaves ++ [v]))) /\
    aot_inv t' (tx_db tx') (leaves ++ [v]) /\
    GetLastRoot (tx_db tx') =
      Ok (mkRoot (tree_root (leaves ++ [v])) (Z.of_nat (length leaves)) bn bp).
Proof.
  intros Hinv Hput. destruct (PutLeaf_run t tx leaves bn bp v Hinv Hput) as (t' & tx' & Hrun & Hinv' & Hrows & _).
  exists t', tx'. split; [done|]. split; [done|]. destruct (tx_db tx') as [rht rows]. by apply (GetLastRoot_put (tx_db tx)).
Qed.

(** A leaf that is neither the next one nor the one the cache expects is refused with
    [ErrInvalidIndex], and nothing is written. *)
Theorem PutLeaf_wrong_index t tx leaves bn bp index v :
  aot_inv t (tx_db tx) leaves ->
  index <> Z.of_nat (length leaves) -> index <> aot_lastIndex t + 1 ->
  exists t', AppendOnly_PutLeaf t tx bn bp (mkLeaf index v) = (t', tx, Err ErrInvalidIndex) /\
             aot_inv t' (tx_db tx) leaves.
Proof.
  intros Hinv Hn Hl. unfold AppendOnly_PutLeaf. cbn [lf_Index].
  rewrite (proj2 (Z.eqb_neq _ _)) by done. cbn [negb].
  destruct (initCache_inv t _ leaves Hinv) as (t1 & Hinit & Hinv1 & Hlast1). rewrite Hinit.
  rewrite Hlast1, (proj2 (Z.eqb_neq _ _)) by lia. cbn [negb]. by exists t1.
Qed.

(** ** Reading back *)

(** Leaves and proofs of any tree the database has held. *)
Lemma GetProof_run t db leaves m j leaf :
  aot_inv t db leaves -> (m <= length leaves)%nat -> take m leaves !! j = Some leaf ->
  GetLeaf db (Z.of_nat j) (tree_root (take m leaves)) = Ok leaf /\
  exists proof, GetProof (aot_Tree t) db (Z.of_nat j) (tree_root (take m leaves)) = Ok proof /\
    length proof = DefaultHeight /\
    VerifyProof leaf proof (Z.of_nat j) (tree_root (take m leaves)) = true.
Proof.
  intros Hinv Hm Hj. pose proof (ai_db _ _ _ Hinv) as Hdb. pose proof (di_size _ _ Hdb).
  pose proof (di_stored _ _ Hdb m Hm) as Hst. set (l := take m leaves) in *.
  pose proof (lookup_lt_Some _ _ _ Hj) as Hjl. assert (length l = m) by (subst l; rewrite length_take; lia).
  assert (leaves_fn l (Z.of_nat j) = leaf) as Hleaf.
  { rewrite leaves_fn_nth by done. apply nth_lookup_Some with (d := 0) in Hj. done. }
  assert (0 <= Z.of_nat j < Z.of_nat m) as Hj' by lia.
  pose proof (GetLeaf_from_stored db _ _ _ DefaultHeight Hst Hj' (le_n _)) as Hget.
  pose proof (getSiblings_from_stored (aot_Tree t) db _ _ _ DefaultHeight Hst Hj' (le_n _)) as Hsib.
  rewrite path_top in Hget, Hsib by lia. rewrite tree_root_eq in Hget, Hsib. rewrite Hleaf in Hget.
  split; [exact Hget|].
  exists (map (sibling (leaves_fn l) (Z.of_nat j)) (seq 0 DefaultHeight)). split_and!.
  - unfold GetProof, getSiblings. by rewrite Hsib.
  - by rewrite length_map, length_seq.
  - unfold VerifyProof, CalculateRoot. apply Z.eqb_eq. rewrite <- Hleaf.
    rewrite CalculateRoot_siblings by (done || lia). rewrite path_top by lia. apply tree_root_eq.
Qed.

(** Every leaf of every tree the database has held is served: for the root after the first
    [m] leaves and an index below [m], [GetLeaf] returns that leaf and [GetProof] returns a proof
    of 32 siblings that [VerifyProof] accepts. *)
Theorem GetProof_verifies t db leaves m j leaf :
  aot_inv t db leaves -> (m <= length leaves)%nat -> take m leaves !! j = Some leaf ->
  GetLeaf db (Z.of_nat j) (tree_root (take m leaves)) = Ok leaf /\
  exists proof, GetProof (aot_Tree t) db (Z.of_nat j) (tree_root (take m leaves)) = Ok proof /\
    length proof = DefaultHeight /\
    VerifyProof leaf proof (Z.of_nat j) (tree_root (take m leaves)) = true.
Proof. apply GetProof_run. Qed.

(** ** Reorgs *)

(** A filter on an initial segment is a prefix. *)
Lemma bfilter_prefix {A} (p : A -> bool) l :
  (forall k k' x y, (k < k')%nat -> l !! k = Some x -> l !! k' = Some y -> p y = true -> p x = true) ->
  exists n, (n <= length l)%nat /\ bfilter p l = take n l /\
    (forall k x, l !! k = Some x -> p x = true <-> (k < n)%nat).
Proof.
  induction l as [|a l IH]; intros Hmono.
  { exists 0%nat. split; [done|]. split; [done|]. intros k x Hk. done. }
  destruct (p a) eqn:Ea.
  - destruct IH as (n & Hn & Hf & Hk).
    { intros k k' x y Hlt Hx Hy. apply (Hmono (S k) (S k')); simpl; [lia | done | done]. }
    exists (S n). split; [simpl; lia|]. split; [simpl; by rewrite Ea, Hf|].
    intros [|k] x Hx; simpl in Hx; [|rewrite (Hk k x Hx); lia]. injection Hx as ->. split; [lia|done].
  - assert (forall k x, (a :: l) !! k = Some x -> p x = false) as Hall.
    { intros [|k] x Hx; simpl in Hx; [by injection Hx as <-|].
      destruct (p x) eqn:Ex; [|done]. rewrite <- Ea. symmetry.
      eapply (Hmono 0%nat (S k)); [lia | done | done | done]. }
    exists 0%nat. split; [lia|]. split.
    + rewrite take_0. destruct (bfilter p (a :: l)) as [|y ys] eqn:E; [done|].
      assert (In y (bfilter p (a :: l))) as Hin by (rewrite E; by left).
      apply bfilter_In in Hin as [Hin Hp]. apply list_elem_of_In, list_elem_of_lookup in Hin as [k Hk].
      rewrite (Hall k y Hk) in Hp. done.
    + intros k x Hx. rewrite (Hall k x Hx). split; [done|lia].
Qed.

Lemma Root_lt_BlockNum a b : Root_lt a b -> rt_BlockNum a <= rt_BlockNum b.
Proof. unfold Root_lt, Root_leb. intros Hl. bool_hyps. lia. Qed.

Lemma db_inv_prefix db leaves k :
  db_inv db leaves -> (k <= length leaves)%nat ->
  db_inv (mkTreeDB (db_rht db) (take k (db_root db))) (take k leaves).
Proof.
  intros [Hl Hrows Hsort Hst Hsd Hsz] Hk.
  split; cbn [db_root db_rht].
  - rewrite !length_take. lia.
  - intros i r Hi. apply lookup_take_Some in Hi as [Hi Hik]. destruct (Hrows i r Hi) as [? ->].
    split; [done|]. rewrite take_take. by rewrite Nat.min_l by lia.
  - intros i i' r r' Hii Hi Hi'. apply lookup_take_Some in Hi as [Hi ?], Hi' as [Hi' ?].
    by apply (Hsort i i').
  - intros m Hm. rewrite length_take in Hm. rewrite take_take, Nat.min_l by lia. apply Hst. lia.
  - done.
  - rewrite length_take. lia.
Qed.

(** The rows a reorg keeps. *)
Lemma Reorg_prefix t db leaves firstReorgedBlock :
  aot_inv t db leaves ->
  exists k, (k <= length leaves)%nat /\
    aot_inv t (Reorg db firstReorgedBlock) (take k leaves) /\ db_root (Reorg db firstReorgedBlock) = take k (db_root db) /\
    (forall i r, db_root db !! i = Some r -> rt_BlockNum r < firstReorgedBlock <-> (i < k)%nat).
Proof.
  intros [Hz Hc Hdb Hi Hr].
  destruct (bfilter_prefix (fun r => negb (firstReorgedBlock <=? rt_BlockNum r)) (db_root db))
    as (k & Hk & Hf & Hiff).
  { intros i i' x y Hlt Hx Hy Hp. pose proof (di_sorted _ _ Hdb i i' x y Hlt Hx Hy) as Hs.
    apply Root_lt_BlockNum in Hs. bool_hyps. apply negb_true_iff, Z.leb_gt. lia. }
  rewrite (di_length _ _ Hdb) in Hk. exists k. split; [done|]. split; [|split].
  - split; [done | done | | |].
    + unfold Reorg. rewrite Hf. by apply db_inv_prefix.
    + rewrite length_take. lia.
    + rewrite length_take. intros E.
      assert (k = length leaves \/ aot_lastIndex t = -2) as [->|E2] by lia; [|lia].
      rewrite firstn_all. apply Hr. lia.
  - exact Hf.
  - intros i r Hir. rewrite <- (Hiff i r Hir). rewrite negb_true_iff, Z.leb_gt. done.
Qed.

(** [Reorg] undoes exactly the leaves of the reorged blocks: the rows it keeps are those of a
    prefix of the leaves, all of earlier blocks, and the tree goes on from that prefix. *)
Theorem Reorg_truncates t db leaves firstReorgedBlock :
  aot_inv t db leaves ->
  exists k, (k <= length leaves)%nat /\
    aot_inv t (Reorg db firstReorgedBlock) (take k leaves) /\
    (forall i r, db_root db !! i = Some r -> rt_BlockNum r < firstReorgedBlock <-> (i < k)%nat).
Proof.
  intros Hinv. destruct (Reorg_prefix t db leaves firstReorgedBlock Hinv) as (k & Hk & Hinv' & _ & Hiff). by exists k.
Qed.

(** ** Rolling back *)

(** Rolling back a transaction that put one leaf restores the database and leaves the tree
    object consistent with it. *)
Theorem Rollback_one_leaf t db leaves bn bp v :
  aot_inv t db leaves -> put_ok db leaves bn bp v ->
  let '(t1, tx1, _) := AppendOnly_PutLeaf t (NewTx db) bn bp (mkLeaf (Z.of_nat (length leaves)) v) in
  let '(db2, t2) := Tx_Rollback tx1 t1 in
  db2 = db /\ aot_inv t2 db leaves.
Proof.
  intros Hinv Hput.
  assert (forall u, aot_inv u db leaves -> aot_lastIndex u = Z.of_nat (length leaves) - 1 ->
    let '(t1, tx1, _) := AppendOnly_insert u (NewTx db) bn bp (mkLeaf (Z.of_nat (length leaves)) v) in
    let '(db2, t2) := Tx_Rollback tx1 t1 in db2 = db /\ aot_inv t2 db leaves) as Hins.
  { intros u Hu Hlast.
    destruct (AppendOnly_insert_spec u (NewTx db) leaves bn bp v Hu Hlast Hput)
      as (t1 & tx1 & -> & _ & Hl1 & Hc1 & Ht1 & Hs1 & Hcb1).
    unfold Tx_Rollback. rewrite Hcb1, Hs1. cbn [NewTx tx_saved tx_rollbackCallbacks app fold_left].
    split; [done|]. destruct Hu as [Hz Hc Hdb Hi Hr].
    split; cbn [decreaseIndex aot_setIndex aot_Tree aot_lastLeftCache aot_lastIndex].
    - by rewrite Ht1.
    - by rewrite Hc1, length_map, length_seq.
    - done.
    - lia.
    - intros _ h Hh Hb. rewrite Hc1, nth_map_seq by done. by apply left_of_path_prefix. }
  unfold AppendOnly_PutLeaf. cbn [lf_Index NewTx tx_db].
  destruct (Z.of_nat (length leaves) =? aot_lastIndex t + 1) eqn:E; cbn [negb]; bool_hyps.
  - apply Hins; [done | lia].
  - destruct (initCache_inv t _ leaves Hinv) as (t1 & Hinit & Hinv1 & Hlast1). rewrite Hinit.
    rewrite Hlast1, (proj2 (Z.eqb_eq _ _)) by lia. cbn [negb]. by apply Hins.
Qed.

End AppendOnlyProofs.

(** ** The updatable tree refines a function from indexes to leaves *)

Section UpdatableProofs.
Context `{Keccak}.

Definition zero_node (h : nat) : TreeNode := newTreeNode (zero_hash h) (zero_hash h).

(** Every node of the tree is stored, or is the root of an empty subtree. *)
Definition stored_or_empty (rht : gmap Z TreeNode) (f : Z -> Z) : Prop :=
  forall h i, (h < DefaultHeight)%nat -> 0 <= i -> i * 2 ^ Z.of_nat (S h) < 2 ^ 32 ->
  rht !! mroot f (S h) i = Some (mnode f h i) \/
  (rht !! mroot f (S h) i = None /\
   forall j, i * 2 ^ Z.of_nat (S h) <= j < (i + 1) * 2 ^ Z.of_nat (S h) -> f j = 0).

Record ut_inv (t : Tree) (db : TreeDB) (f : Z -> Z) : Prop := {
  ui_zero : tr_zeroHashes t = generateZeroHashes DefaultHeight;
  ui_root : Updatable_rootHash t db = mroot f DefaultHeight 0;
  ui_stored : stored_or_empty (db_rht db) f;
  ui_sound : rht_sound (db_rht db)
}.

Record uput_ok (db : TreeDB) (f : Z -> Z) (index v bn bp : Z) : Prop := {
  uo_index : 0 <= index < 2 ^ 32;
  uo_position : forall r, In r (db_root db) ->
    Root_lt r (mkRoot (mroot (leaf_update f index v) DefaultHeight 0) index bn bp);
  uo_nodes : collision_free (rht_nodes (db_rht db) ++
    path_nodes (leaf_update f index v) index DefaultHeight ++ map zero_node (seq 0 DefaultHeight))
}.

(** Below a hash that is not stored, every sibling is a zero hash. *)
Lemma getSiblings_from_missing t db j cur h :
  db_rht db !! cur = None ->
  fst (getSiblings_from t db j cur h) = map (fun k => nth k (tr_zeroHashes t) 0) (seq 0 h).
Proof.
  intros Hc. induction h as [|h IH]; simpl getSiblings_from; [done|].
  unfold getRHTNode. rewrite Hc. destruct (getSiblings_from t db j cur h) as [sib u].
  simpl fst in *. rewrite IH, seq_S, map_app. done.
Qed.

(** Siblings inside an empty subtree are zero hashes. *)
Lemma sibling_empty f j h k :
  0 <= j -> (k < h)%nat ->
  (forall x, j / 2 ^ Z.of_nat h * 2 ^ Z.of_nat h <= x < (j / 2 ^ Z.of_nat h + 1) * 2 ^ Z.of_nat h -> f x = 0) ->
  sibling f j k = zero_hash k.
Proof.
  intros Hj Hk Hf.
  assert (forall c, c = 0 \/ c = 1 -> mroot f k (2 * (j / 2 ^ Z.of_nat (S k)) + c) = zero_hash k) as Hz.
  { intros c Hc. apply mroot_zero. intros x Hx. apply Hf.
    assert (x / 2 ^ Z.of_nat (S k) = j / 2 ^ Z.of_nat (S k)) as E.
    { symmetry. apply path_index_unique. rewrite pow2_S in *. pose proof (pow2_pos k).
      destruct Hc as [-> | ->]; lia. }
    pose proof (pow2_pos h). pose proof (pow2_pos k).
    assert (0 <= j / 2 ^ Z.of_nat (S k)) by (apply Z.div_pos; [done | apply pow2_pos]).
    assert (0 <= x) by (destruct Hc as [-> | ->]; nia).
    assert (x / 2 ^ Z.of_nat h = j / 2 ^ Z.of_nat h) as <-; [|by apply path_span].
    replace (Z.of_nat h) with (Z.of_nat (S k) + (Z.of_nat h - Z.of_nat (S k))) by lia.
    rewrite Z.pow_add_r, <- !Z.div_div by (try apply pow2_pos; try apply Z.pow_pos_nonneg; try apply Z.pow_nonzero; lia).
    by rewrite E. }
  unfold sibling. destruct (bit_set j k); [|by apply Hz; right].
  rewrite <- (Z.add_0_r (2 * _)). apply Hz. by left.
Qed.

Lemma getSiblings_from_stored_or_empty t db f j h :
  tr_zeroHashes t = generateZeroHashes DefaultHeight ->
  stored_or_empty (db_rht db) f -> 0 <= j < 2 ^ 32 -> (h <= DefaultHeight)%nat ->
  fst (getSiblings_from t db j (mroot f h (j / 2 ^ Z.of_nat h)) h) = map (sibling f j) (seq 0 h).
Proof.
  intros Hz Hs Hj. induction h as [|h IH]; intros Hh; [done|].
  assert (0 <= j / 2 ^ Z.of_nat (S h)) by (apply Z.div_pos; [lia | apply pow2_pos]).
  pose proof (path_span j (S h) ltac:(lia)) as Hspan.
  destruct (Hs h (j / 2 ^ Z.of_nat (S h)) ltac:(lia) ltac:(done) ltac:(lia)) as [Hfound|[Hmiss Hempty]].
  - simpl getSiblings_from. unfold getRHTNode. rewrite Hfound.
    pose proof (path_child f j h ltac:(lia)) as Hc. specialize (IH ltac:(lia)).
    rewrite seq_S, map_app. simpl map at 2. unfold sibling at 2.
    destruct (bit_set j h); cbn [mnode tn_Left tn_Right]; rewrite Hc;
      destruct (getSiblings_from t db j _ h) as [sib u]; simpl fst in *; by rewrite IH.
  - rewrite getSiblings_from_missing by done. apply map_ext_in. intros k Hk. apply in_seq in Hk.
    rewrite Hz, generateZeroHashes_nth by lia. symmetry. by apply (sibling_empty f j (S h) k); [lia | lia |].
Qed.

Lemma sibling_update f j v h : 0 <= j -> sibling (leaf_update f j v) j h = sibling f j h.
Proof.
  intros Hj. unfold sibling. pose proof (path_step j h Hj) as Hp. rewrite bit_set_testbit by done.
  destruct (Z.testbit j (Z.of_nat h)); apply mroot_update_off; lia.
Qed.

Lemma Updatable_climb_spec f j v n k :
  0 <= j -> (k <= n)%nat ->
  Updatable_climb (map (sibling f j) (seq 0 n)) (mkLeaf j v) k =
  (mroot (leaf_update f j v) k (j / 2 ^ Z.of_nat k), path_nodes (leaf_update f j v) j k).
Proof.
  intros Hj. induction k as [|k IH]; intros Hk; cbn [Updatable_climb lf_Index lf_Hash].
  { rewrite mroot_0, Z.div_1_r. unfold leaf_update. by rewrite Z.eqb_refl. }
  rewrite IH, path_nodes_S, nth_map_seq by lia. rewrite <- (sibling_update f j v) by done.
  pose proof (path_child (leaf_update f j v) j k Hj) as Hc. unfold sibling. rewrite mnode_new.
  destruct (bit_set j k); rewrite <- Hc; done.
Qed.

(** Storing the path of the changed leaf keeps every node readable. *)
Lemma stored_or_empty_update rht f j v :
  let nodes := path_nodes (leaf_update f j v) j DefaultHeight in
  stored_or_empty rht f -> rht_sound rht -> 0 <= j < 2 ^ 32 ->
  collision_free (rht_nodes rht ++ nodes ++ map zero_node (seq 0 DefaultHeight)) ->
  stored_or_empty (fold_left storeNode nodes rht) (leaf_update f j v).
Proof.
  intros nodes Hs Hsound Hj Hc h i Hh Hi Hlt.
  destruct (decide (i = j / 2 ^ Z.of_nat (S h))) as [->|Hne].
  - left. change (mroot (leaf_update f j v) (S h) (j / 2 ^ Z.of_nat (S h))) with
      (tn_Hash (mnode (leaf_update f j v) h (j / 2 ^ Z.of_nat (S h)))).
    apply storeNodes_lookup; [done | | apply path_nodes_In; by exists h].
    rewrite app_assoc in Hc. unfold collision_free in *. rewrite Forall_app in Hc. destruct Hc as [Hc _].
    eapply Forall_impl; [exact Hc|]. intros a Ha. by apply Forall_app in Ha as [? _].
  - pose proof (path_step j h ltac:(lia)) as Hp.
    assert (mnode (leaf_update f j v) h i = mnode f h i) as Hnode.
    { unfold mnode. rewrite (mroot_update_off f j v (S h)), !(mroot_update_off f j v h); try done; try lia;
        destruct (Z.testbit j (Z.of_nat h)); lia. }
    assert (mroot (leaf_update f j v) (S h) i = mroot f (S h) i) as Hroot by (apply mroot_update_off; [lia | done]).
    rewrite Hnode, Hroot.
    destruct (Hs h i Hh Hi Hlt) as [Hfound|[Hmiss Hempty]]; [left; by apply storeNodes_monotone|].
    destruct (fold_left storeNode nodes rht !! mroot f (S h) i) as [nd|] eqn:E; [left | right].
    + f_equal. apply storeNodes_inv in E as [E|[Hin Hhash]]; [congruence|].
      assert (mnode f h i = zero_node h) as Hzn.
      { rewrite mnode_new. unfold zero_node. rewrite pow2_S in Hempty. pose proof (pow2_pos h).
        f_equal; apply mroot_zero; intros x Hx; apply Hempty; lia. }
      apply (collision_free_spec _ _ _ Hc); [apply in_or_app; right; apply in_or_app; by left | | by rewrite Hhash].
      rewrite Hzn. do 2 (apply in_or_app; right). apply in_map, in_seq. lia.
    + split; [done|]. intros x Hx. unfold leaf_update. destruct (Z.eqb_spec x j) as [->|]; [|by apply Hempty].
      by apply path_index_unique in Hx.
Qed.

(** [PutLeaf] of the updatable tree refines the update of one leaf: it returns the Merkle root
    of the updated tree and keeps the invariant, unless that root is already in the table (an
    update that changes nothing, or goes back to an earlier tree), which is an error. *)
Theorem Updatable_PutLeaf_updates t db f index v bn bp :
  ut_inv t db f -> uput_ok db f index v bn bp ->
  let f' := leaf_update f index v in
  if existsb (fun r => rt_Hash r =? mroot f' DefaultHeight 0) (db_root db)
  then Updatable_PutLeaf t db bn bp (mkLeaf index v) = Err ErrUniqueConstraint
  else exists db', Updatable_PutLeaf t db bn bp (mkLeaf index v) = Ok (db', mroot f' DefaultHeight 0) /\
                   ut_inv t db' f'.
Proof.
  intros [Hz Hroot Hst Hsd] [Hj Hpos Hcoll]. cbv zeta.
  pose proof (getSiblings_from_stored_or_empty t db f index DefaultHeight Hz Hst Hj (le_n _)) as Hsib.
  rewrite path_top in Hsib by done. rewrite <- Hroot in Hsib.
  unfold Updatable_PutLeaf, getSiblings. cbn [lf_Index].
  destruct (getSiblings_from t db index (Updatable_rootHash t db) DefaultHeight) as [sib u].
  cbn [fst] in Hsib. subst sib.
  rewrite Updatable_climb_spec by (done || lia). rewrite path_top by done.
  unfold storeRoot. cbn [rt_Hash]. destruct (existsb _ _) eqn:E; [done|].
  eexists. split; [reflexivity|]. split; [done | | |]; cbn [storeNodes db_rht db_root].
  - unfold Updatable_rootHash, storeNodes. cbn [db_rht db_root]. by rewrite GetLastRoot_snoc.
  - by apply stored_or_empty_update.
  - apply storeNodes_sound; [|done]. apply Forall_forall. intros nd Hnd.
    apply list_elem_of_In, path_nodes_In in Hnd as (h & _ & ->). done.
Qed.

Lemma ut_inv_empty : ut_inv newTree emptyTreeDB (fun _ => 0).
Proof.
  split; [done | | | apply map_Forall_empty].
  - unfold Updatable_rootHash, GetLastRoot. cbn [emptyTreeDB db_root fold_left newTree tr_zeroHashes].
    rewrite generateZeroHashes_nth by done.
    symmetry. by apply mroot_zero.
  - intros h i _ _ _. right. by split.
Qed.

(** ** Binding of proofs *)

(** The bytes hashed at height [h] when recomputing the root. *)
Definition proof_preimage (leaf : Z) (proof : list Z) (index : Z) (h : nat) : list Z :=
  let node := CalculateRoot_upto leaf proof index h in
  if Z.land (Z.shiftr index (Z.of_nat h)) 1 =? 1
  then Hash_Bytes (nth h proof 0) ++ Hash_Bytes node
  else Hash_Bytes node ++ Hash_Bytes (nth h proof 0).

(** Two different byte strings with the same hash, if the proofs meet at height [k]. *)
Fixpoint find_collision (l1 : Z) (p1 : list Z) (l2 : Z) (p2 : list Z) (index : Z) (k : nat)
  : option (list Z * list Z) :=
  match k with
  | O => None
  | S h =>
      let a := proof_preimage l1 p1 index h in
      let b := proof_preimage l2 p2 index h in
      if bool_decide (a = b) then find_collision l1 p1 l2 p2 index h else Some (a, b)
  end.

Definition is_hash (h : Z) : Prop := 0 <= h < 256 ^ Z.of_nat HashLength.

Lemma CalculateRoot_upto_S l p i h : CalculateRoot_upto l p i (S h) = keccak256 (proof_preimage l p i h).
Proof.
  unfold proof_preimage. cbn [CalculateRoot_upto]. unfold Keccak256Hash.
  destruct (_ =? 1); cbn [concat]; by rewrite app_nil_r.
Qed.

Lemma Hash_Bytes_inj x y : is_hash x -> is_hash y -> Hash_Bytes x = Hash_Bytes y -> x = y.
Proof. apply be_bytes_inj. Qed.

Context (keccak_range : forall bs, is_hash (keccak256 bs)).

Lemma CalculateRoot_upto_hash l p i k : is_hash l -> is_hash (CalculateRoot_upto l p i k).
Proof. intros Hl. destruct k; [done|]. rewrite CalculateRoot_upto_S. apply keccak_range. Qed.

(** Equal preimages come from equal nodes one level below. *)
Lemma proof_preimage_inj l1 p1 l2 p2 i h :
  is_hash l1 -> is_hash l2 -> proof_preimage l1 p1 i h = proof_preimage l2 p2 i h ->
  CalculateRoot_upto l1 p1 i h = CalculateRoot_upto l2 p2 i h.
Proof.
  intros H1 H2 E. apply Hash_Bytes_inj; [by apply CalculateRoot_upto_hash.. |].
  unfold proof_preimage in E. destruct (_ =? 1).
  - apply app_inj_1 in E as [_ E]; [done|]. unfold Hash_Bytes. by rewrite !be_bytes_length.
  - apply app_inj_1 in E as [E _]; [done|]. unfold Hash_Bytes. by rewrite !be_bytes_length.
Qed.

Lemma find_collision_spec l1 p1 l2 p2 i k :
  is_hash l1 -> is_hash l2 -> l1 <> l2 ->
  CalculateRoot_upto l1 p1 i k = CalculateRoot_upto l2 p2 i k ->
  exists a b, find_collision l1 p1 l2 p2 i k = Some (a, b) /\ a <> b /\ keccak256 a = keccak256 b.
Proof.
  intros H1 H2 Hne. induction k as [|h IH]; intros E; [done|].
  simpl find_collision. case_bool_decide as Hd.
  - apply IH. by apply proof_preimage_inj.
  - do 2 eexists. split; [done|]. split; [done|]. by rewrite <- !CalculateRoot_upto_S.
Qed.

(** C39. A root binds the leaf at an index: from two accepted proofs of different leaves at the same
    index against the same root, [find_collision] computes two different byte strings with the
    same Keccak hash. *)
Theorem VerifyProof_binding leaf1 proof1 leaf2 proof2 index root :
  is_hash leaf1 -> is_hash leaf2 -> leaf1 <> leaf2 ->
  VerifyProof leaf1 proof1 index root = true -> VerifyProof leaf2 proof2 index root = true ->
  exists a b, find_collision leaf1 proof1 leaf2 proof2 index DefaultHeight = Some (a, b) /\
              a <> b /\ keccak256 a = keccak256 b.
Proof.
  unfold VerifyProof, CalculateRoot. intros H1 H2 Hne E1 E2. apply Z.eqb_eq in E1, E2.
  apply find_collision_spec; [done.. | congruence].
Qed.

End UpdatableProofs.

(** ** Concrete trees *)

Section Sparse.
Context `{Keccak}.

Definition tree_root_sparse (leaves : list Z) : Z :=
  mroot_sparse (generateZeroHashes DefaultHeight) (leaves_fn leaves) (Z.of_nat (length leaves))
    DefaultHeight 0.

Lemma tree_root_sparse_eq leaves : tree_root leaves = tree_root_sparse leaves.
Proof. unfold tree_root, tree_root_sparse. apply mroot_sparse_eq; [apply leaves_fn_beyond | done]. Qed.

Definition path_nodes_sparse (f : Z -> Z) (n i : Z) (k : nat) : list TreeNode :=
  let zs := generateZeroHashes k in
  let m := mroot_sparse zs f n in
  map (fun h => let q := i / 2 ^ Z.of_nat (S h) in mkTreeNode (m (S h) q) (m h (2 * q)) (m h (2 * q + 1)))
      (seq 0 k).

Lemma path_nodes_sparse_eq f n i k :
  (forall j, n <= j -> f j = 0) -> path_nodes f i k = path_nodes_sparse f n i k.
Proof.
  intros Hf. unfold path_nodes, path_nodes_sparse. apply map_ext_in. intros h Hh. apply in_seq in Hh.
  unfold mnode. rewrite !(mroot_sparse_eq k f n) by (done || lia). done.
Qed.

Definition collision_freeb (nodes : list TreeNode) : bool :=
  forallb (fun a => forallb (fun b => if tn_Hash a =? tn_Hash b then bool_decide (a = b) else true) nodes) nodes.

Lemma collision_freeb_sound nodes : collision_freeb nodes = true -> collision_free nodes.
Proof.
  unfold collision_freeb, collision_free. intros Hb. apply Forall_forall. intros a Ha.
  apply Forall_forall. intros b Hb' E. apply list_elem_of_In in Ha, Hb'.
  rewrite forallb_forall in Hb. specialize (Hb a Ha). rewrite forallb_forall in Hb.
  specialize (Hb b Hb'). rewrite E, Z.eqb_refl in Hb. by apply bool_decide_eq_true in Hb.
Qed.

(** Executable test of [put_ok]. *)
Definition put_okb (db : TreeDB) (leaves : list Z) (bn bp v : Z) : bool :=
  let root := tree_root_sparse (leaves ++ [v]) in
  let n := Z.of_nat (length leaves) in
  (n <? 2 ^ 32) &&
  forallb (fun r => negb (Root_leb (mkRoot root n bn bp) r)) (db_root db) &&
  forallb (fun r => negb (rt_Hash r =? root)) (db_root db) &&
  collision_freeb (rht_nodes (db_rht db) ++ path_nodes_sparse (leaves_fn (leaves ++ [v])) (n + 1) n DefaultHeight).

Lemma put_okb_sound db leaves bn bp v : put_okb db leaves bn bp v = true -> put_ok db leaves bn bp v.
Proof.
  unfold put_okb. intros Hb. apply andb_true_iff in Hb as [Hb Hc]. apply andb_true_iff in Hb as [Hb Hf].
  apply andb_true_iff in Hb as [Hn Hp]. rewrite <- tree_root_sparse_eq in *. rewrite forallb_forall in *.
  split.
  - by apply Z.ltb_lt.
  - intros r Hr. specialize (Hp r Hr). by apply negb_true_iff in Hp.
  - intros r Hr. specialize (Hf r Hr). by apply negb_true_iff, Z.eqb_neq in Hf.
  - rewrite (path_nodes_sparse_eq _ (Z.of_nat (length leaves) + 1)); [by apply collision_freeb_sound|].
    intros j Hj. apply leaves_fn_beyond. rewrite length_app. simpl. lia.
Qed.

End Sparse.

#[local] Existing Instance toy_keccak.

(** A tree with one committed leaf. *)
Definition example_t0 : AppendOnlyTree := fst (initCache NewAppendOnlyTree emptyTreeDB).
Definition example_run1 := AppendOnly_insert example_t0 (NewTx emptyTreeDB) 1 0 (mkLeaf 0 11).
Definition example_t1 : AppendOnlyTree := fst (fst example_run1).
Definition example_db1 : TreeDB := tx_db (snd (fst example_run1)).

Lemma example1_inv : aot_inv example_t1 example_db1 [11].
Proof.
  destruct (initCache_inv NewAppendOnlyTree emptyTreeDB [] (aot_inv_new _ _ db_inv_empty))
    as (t' & Hinit & Hinv & Hlast).
  assert (example_t0 = t') as Ht by (unfold example_t0; by rewrite Hinit).
  assert (put_ok emptyTreeDB [] 1 0 11) as Hput by (apply put_okb_sound; vm_compute; reflexivity).
  destruct (AppendOnly_insert_spec t' (NewTx emptyTreeDB) [] 1 0 11 Hinv Hlast Hput)
    as (t1 & tx1 & Hrun & Hinv1 & _).
  unfold example_t1, example_db1, example_run1. rewrite Ht.
  change (AppendOnly_insert t' (NewTx emptyTreeDB) 1 0 (mkLeaf 0 11) = (t1, tx1, Ok (tree_root ([] ++ [11])))) in Hrun.
  rewrite Hrun. exact Hinv1.
Qed.

Lemma PutLeaf_appends_witness :
  exists t' tx',
    AppendOnly_PutLeaf NewAppendOnlyTree (NewTx example_db1) 2 0 (mkLeaf 1 22)
      = (t', tx', Ok (tree_root [11; 22])) /\
    aot_inv t' (tx_db tx') [11; 22] /\
    GetLastRoot (tx_db tx') = Ok (mkRoot (tree_root [11; 22]) 1 2 0).
Proof.
  refine (PutLeaf_appends NewAppendOnlyTree (NewTx example_db1) [11] 2 0 22 _ _).
  - apply aot_inv_new, (ai_db _ _ _ example1_inv).
  - apply put_okb_sound. vm_compute. reflexivity.
Defined.

Lemma PutLeaf_wrong_index_witness :
  exists t', AppendOnly_PutLeaf example_t1 (NewTx example_db1) 2 0 (mkLeaf 7 22)
             = (t', NewTx example_db1, Err ErrInvalidIndex) /\ aot_inv t' example_db1 [11].
Proof.
  refine (PutLeaf_wrong_index example_t1 (NewTx example_db1) [11] 2 0 7 22 example1_inv _ _).
  - simpl. lia.
  - vm_compute. discriminate.
Defined.

Lemma GetProof_verifies_witness :
  GetLeaf example_db1 0 (tree_root (take 1 [11])) = Ok 11 /\
  exists proof, GetProof (aot_Tree example_t1) example_db1 0 (tree_root (take 1 [11])) = Ok proof /\
    length proof = DefaultHeight /\ VerifyProof 11 proof 0 (tree_root (take 1 [11])) = true.
Proof. refine (GetProof_verifies example_t1 example_db1 [11] 1 0 11 example1_inv _ _); auto. Defined.

Lemma Reorg_truncates_witness :
  exists k, (k <= 1)%nat /\ aot_inv example_t1 (Reorg example_db1 1) (take k [11]) /\
    (forall i r, db_root example_db1 !! i = Some r -> rt_BlockNum r < 1 <-> (i < k)%nat).
Proof. refine (Reorg_truncates example_t1 example_db1 [11] 1 example1_inv). Defined.

Lemma Rollback_one_leaf_witness :
  let '(t1, tx1, _) := AppendOnly_PutLeaf example_t1 (NewTx example_db1) 2 0 (mkLeaf 1 22) in
  let '(db2, t2) := Tx_Rollback tx1 t1 in
  db2 = example_db1 /\ aot_inv t2 example_db1 [11].
Proof.
  refine (Rollback_one_leaf example_t1 example_db1 [11] 2 0 22 example1_inv _).
  apply put_okb_sound. vm_compute. reflexivity.
Defined.

(** Rolling back a transaction that put two leaves leaves a stale cache behind: with leaf 11
    committed and leaves 22, 33 rolled back, putting 22 again succeeds and stores the root of the
    tree [33; 22] in place of that of [11; 22]. *)
Theorem Rollback_two_leaves_corrupts :
  let '(ta, txa, _) := AppendOnly_PutLeaf example_t1 (NewTx example_db1) 2 0 (mkLeaf 1 22) in
  let '(tb, txb, _) := AppendOnly_PutLeaf ta txa 2 1 (mkLeaf 2 33) in
  let '(db, t) := Tx_Rollback txb tb in
  db = example_db1 /\
  snd (AppendOnly_PutLeaf t (NewTx db) 2 0 (mkLeaf 1 22)) = Ok (tree_root [33; 22]) /\
  tree_root [33; 22] <> tree_root [11; 22].
Proof. rewrite !tree_root_sparse_eq. vm_compute. split_and!; [reflexivity.. | discriminate]. Qed.

Lemma Updatable_PutLeaf_updates_witness :
  exists db', Updatable_PutLeaf newTree emptyTreeDB 1 0 (mkLeaf 3 7)
                = Ok (db', mroot (leaf_update (fun _ => 0) 3 7) DefaultHeight 0) /\
              ut_inv newTree db' (leaf_update (fun _ => 0) 3 7).
Proof.
  refine (Updatable_PutLeaf_updates newTree emptyTreeDB (fun _ => 0) 3 7 1 0 ut_inv_empty _).
  split; [lia | done|].
  rewrite (path_nodes_sparse_eq _ 4).
  - apply collision_freeb_sound. vm_compute. reflexivity.
  - intros j Hj. unfold leaf_update. by rewrite (proj2 (Z.eqb_neq _ _)) by lia.
Defined.

Lemma VerifyProof_binding_witness :
  exists a b, @find_collision (fun _ => 5) 1 [] 2 [] 0 DefaultHeight = Some (a, b) /\ a <> b /\ 5 = 5.
Proof.
  refine (@VerifyProof_binding (fun _ => 5) _ 1 [] 2 [] 0 5 _ _ _ _ _);
    try (intros; split; vm_compute; congruence); try reflexivity; discriminate.
Defined.
