(* ===== verification/AgglayerTypes.v ===== *)
(** The data exchanged with the agglayer ([agglayer/types/types.go]) and the global index of a
    bridge ([bridgesync/processor.go]).

    A Go pointer or interface value is an [option]; a function that can dereference nil returns an
    [option] too, [None] being the panic.  Validation errors are values of [validationError]. *)

From S2P Require Import Prelude Bytes Merkle.

(** ** Certificate statuses *)

Inductive CertificateStatus := Pending | Proven | Candidate | InError | Settled.

#[global] Instance CertificateStatus_eq_dec : EqDecision CertificateStatus.
Proof. solve_decision. Defined.

Definition NonSettledStatuses : list CertificateStatus := [Pending; Candidate; Proven].
Definition ClosedStatuses : list CertificateStatus := [Settled; InError].

Definition IsOpen (c : CertificateStatus) : bool := bool_decide (c ∈ NonSettledStatuses).
Definition IsClosed (c : CertificateStatus) : bool := negb (IsOpen c).
Definition IsSettled (c : CertificateStatus) : bool := bool_decide (c = Settled).
Definition IsInError (c : CertificateStatus) : bool := bool_decide (c = InError).

(** ** Global index *)

Definition globalIndexPartSize : nat := 4.
Definition mainnetFlagPosition : Z := 64.

Definition GenerateGlobalIndex (mainnetFlag : bool) (rollupIndex depositCount : Z) : Z :=
  let globalIndexBytes :=
    if mainnetFlag then big_Bytes 1 ++ be_bytes globalIndexPartSize 0
    else be_bytes globalIndexPartSize rollupIndex in
  be_value (globalIndexBytes ++ be_bytes globalIndexPartSize depositCount).

Definition GenerateGlobalIndexForNetworkID (networkID depositCount : Z) : Z :=
  let mainnetFlag := networkID =? 0 in
  let rollupIndex := if mainnetFlag then 0 else networkID -u32 1 in
  GenerateGlobalIndex mainnetFlag rollupIndex depositCount.

Definition LegacyZkEVMRollupNetworkID : Z := 1.

Definition GlobalIndexForBridge
    (destinationNetwork blockNum depositCount networkID etrogL1UpgradeBlock : Z) : Z * bool :=
  if (0 <? etrogL1UpgradeBlock) && (destinationNetwork =? LegacyZkEVMRollupNetworkID)
     && (blockNum <=? etrogL1UpgradeBlock)
  then (depositCount, true)
  else (GenerateGlobalIndexForNetworkID networkID depositCount, false).

(** [None]: a part longer than four bytes would make [BytesToUint32] panic. *)
Definition DecodeGlobalIndex (globalIndex : Z) : option (bool * Z * Z) :=
  let globalIndexBytes := big_Bytes globalIndex in
  let l := length globalIndexBytes in
  if (l =? 0)%nat then Some (false, 0, 0)
  else
    let mainnetFlag := Z.testbit globalIndex mainnetFlagPosition in
    let localExitRootFromIdx := (l - globalIndexPartSize)%nat in
    let rollupIndexFromIdx := (localExitRootFromIdx - globalIndexPartSize)%nat in
    rollupIndex ← BytesToUint32
      (take (localExitRootFromIdx - rollupIndexFromIdx) (drop rollupIndexFromIdx globalIndexBytes));
    localExitRootIndex ← BytesToUint32 (drop localExitRootFromIdx globalIndexBytes);
    Some (mainnetFlag, rollupIndex, localExitRootIndex).

Record GlobalIndex := mkGlobalIndex { gi_MainnetFlag : bool; gi_RollupIndex : Z; gi_LeafIndex : Z }.

Definition GlobalIndex_ToBigInt (g : GlobalIndex) : Z :=
  GenerateGlobalIndex (gi_MainnetFlag g) (gi_RollupIndex g) (gi_LeafIndex g).

(** ** Certificates *)

Inductive validationError :=
| ErrCertificateNil
| ErrBridgeExitNil
| ErrLeafType (t : Z)
| ErrNegativeAmount (a : Z)
| ErrTokenInfoNil
| ErrGlobalIndexNil
| ErrImportedBridgeExitNil
| ErrL1LeafNil
| ErrL1LeafInnerNil
| ErrClaimNil
| ErrClaimNilProofs
| ErrClaimDataNil
| ErrL1RootMismatch
| ErrExitRootMismatch
| ErrLeafProof
| ErrGERProof
| ErrLERProof.

Definition LeafTypeAsset : Z := 0.
Definition LeafTypeMessage : Z := 1.

Record TokenInfo := mkTokenInfo { ti_OriginNetwork : Z; ti_OriginTokenAddress : Z }.

Record BridgeExit := mkBridgeExit {
  be_LeafType : Z;
  be_TokenInfo : option TokenInfo;
  be_DestinationNetwork : Z;
  be_DestinationAddress : Z;
  be_Amount : option Z;
  be_Metadata : list Z
}.

Record MerkleProof := mkMerkleProof { mp_Root : Z; mp_Proof : list Z }.

Record L1InfoTreeLeafInner := mkInner {
  in_GlobalExitRoot : Z; in_BlockHash : Z; in_Timestamp : Z
}.

Record L1InfoTreeLeaf := mkL1InfoTreeLeaf {
  ll_L1InfoTreeIndex : Z;
  ll_RollupExitRoot : Z;
  ll_MainnetExitRoot : Z;
  ll_Inner : option L1InfoTreeLeafInner
}.

Record ClaimFromMainnet := mkClaimFromMainnet {
  cm_ProofLeafMER : option MerkleProof;
  cm_ProofGERToL1Root : option MerkleProof;
  cm_L1Leaf : option L1InfoTreeLeaf
}.

Record ClaimFromRollup := mkClaimFromRollup {
  cr_ProofLeafLER : option MerkleProof;
  cr_ProofLERToRER : option MerkleProof;
  cr_ProofGERToL1Root : option MerkleProof;
  cr_L1Leaf : option L1InfoTreeLeaf
}.

(** The [Claim] interface and its two implementations (non-nil pointers). *)
Inductive Claim :=
| Mainnet (c : ClaimFromMainnet)
| Rollup (c : ClaimFromRollup).

Record ImportedBridgeExit := mkImportedBridgeExit {
  ie_BridgeExit : option BridgeExit;
  ie_ClaimData : option Claim;
  ie_GlobalIndex : option GlobalIndex
}.

(** [CustomChainData], [AggchainData] and [L1InfoTreeLeafCount] enter neither the validation nor
    the identifier; the first two are opaque payloads here. *)
Record Certificate := mkCertificate {
  ct_NetworkID : Z;
  ct_Height : Z;
  ct_PrevLocalExitRoot : Z;
  ct_NewLocalExitRoot : Z;
  ct_BridgeExits : list (option BridgeExit);
  ct_ImportedBridgeExits : list (option ImportedBridgeExit);
  ct_L1InfoTreeLeafCount : Z
}.

Definition TokenInfo_Validate (t : option TokenInfo) : result validationError unit :=
  match t with None => Err ErrTokenInfoNil | Some _ => Ok tt end.

Definition BridgeExit_Validate (b : option BridgeExit) : result validationError unit :=
  match b with
  | None => Err ErrBridgeExitNil
  | Some b =>
      if LeafTypeMessage <? be_LeafType b then Err (ErrLeafType (be_LeafType b))
      else match be_Amount b with
           | Some a => if a <? 0 then Err (ErrNegativeAmount a) else TokenInfo_Validate (be_TokenInfo b)
           | None => TokenInfo_Validate (be_TokenInfo b)
           end
  end.

Definition GlobalIndex_Validate (g : option GlobalIndex) : result validationError unit :=
  match g with None => Err ErrGlobalIndexNil | Some _ => Ok tt end.

Definition ImportedBridgeExit_Validate (c : option ImportedBridgeExit) : result validationError unit :=
  match c with
  | None => Err ErrImportedBridgeExitNil
  | Some c =>
      let? _ := BridgeExit_Validate (ie_BridgeExit c) in
      GlobalIndex_Validate (ie_GlobalIndex c)
  end.

Definition Certificate_Validate (c : option Certificate) : result validationError unit :=
  match c with
  | None => Err ErrCertificateNil
  | Some c =>
      let? _ := rforeach BridgeExit_Validate (ct_BridgeExits c) in
      rforeach ImportedBridgeExit_Validate (ct_ImportedBridgeExits c)
  end.

Definition L1InfoTreeLeaf_Validate (l : option L1InfoTreeLeaf) : result validationError unit :=
  match l with
  | None => Err ErrL1LeafNil
  | Some l => match ll_Inner l with None => Err ErrL1LeafInnerNil | Some _ => Ok tt end
  end.

Definition is_nil {A} (o : option A) : bool := match o with None => true | Some _ => false end.

Definition ClaimFromMainnet_Validate (c : ClaimFromMainnet) : result validationError unit :=
  if is_nil (cm_ProofLeafMER c) || is_nil (cm_ProofGERToL1Root c) then Err ErrClaimNilProofs
  else L1InfoTreeLeaf_Validate (cm_L1Leaf c).

Definition ClaimFromRollup_Validate (c : ClaimFromRollup) : result validationError unit :=
  if is_nil (cr_ProofLeafLER c) || is_nil (cr_ProofLERToRER c) || is_nil (cr_ProofGERToL1Root c)
  then Err ErrClaimNilProofs
  else match cr_L1Leaf c with None => Err ErrL1LeafNil | Some _ => Ok tt end.

(** ** Hashes *)

Section Hashes.
Context `{Keccak}.

Definition AddressLength : nat := 20.

Definition EmptyBytesHash : list Z := Hash_Bytes (keccak256 []).

Definition GlobalIndex_Hash (g : GlobalIndex) : Z :=
  Keccak256Hash [BigIntToLittleEndianBytes (GlobalIndex_ToBigInt g)].

(** The bytes hashed for a valid exit; [common.BigToHash] keeps the low 32 bytes. *)
Definition BridgeExit_bytes (b : BridgeExit) (t : TokenInfo) : list (list Z) :=
  [ [be_LeafType b];
    Uint32ToBigEndianBytes (ti_OriginNetwork t);
    be_bytes AddressLength (ti_OriginTokenAddress t);
    Uint32ToBigEndianBytes (be_DestinationNetwork b);
    be_bytes AddressLength (be_DestinationAddress b);
    Hash_Bytes (default 0 (be_Amount b));
    match be_Metadata b with [] => EmptyBytesHash | m => m end ].

Definition BridgeExit_Hash (b : option BridgeExit) : Z :=
  match BridgeExit_Validate b, b with
  | Ok _, Some b =>
      match be_TokenInfo b with
      | Some t => Keccak256Hash (BridgeExit_bytes b t)
      | None => ZeroHash
      end
  | _, _ => ZeroHash
  end.

Definition MerkleProof_Hash (m : MerkleProof) : Z :=
  Keccak256Hash [Hash_Bytes (mp_Root m); concat (map Hash_Bytes (mp_Proof m))].

Definition L1InfoTreeLeafInner_Hash (l : L1InfoTreeLeafInner) : Z :=
  Keccak256Hash [Hash_Bytes (in_GlobalExitRoot l); Hash_Bytes (in_BlockHash l);
                 Uint64ToBigEndianBytes (in_Timestamp l)].

(** Panics when [Inner] is nil. *)
Definition L1InfoTreeLeaf_Hash (l : L1InfoTreeLeaf) : option Z :=
  inner ← ll_Inner l; Some (L1InfoTreeLeafInner_Hash inner).

Definition ClaimFromMainnet_Hash (c : ClaimFromMainnet) : option Z :=
  match ClaimFromMainnet_Validate c with
  | Err _ => Some ZeroHash
  | Ok _ =>
      mer ← cm_ProofLeafMER c; ger ← cm_ProofGERToL1Root c; l ← cm_L1Leaf c;
      hl ← L1InfoTreeLeaf_Hash l;
      Some (Keccak256Hash [Hash_Bytes (MerkleProof_Hash mer); Hash_Bytes (MerkleProof_Hash ger); Hash_Bytes hl])
  end.

Definition ClaimFromRollup_Hash (c : ClaimFromRollup) : option Z :=
  match ClaimFromRollup_Validate c with
  | Err _ => Some ZeroHash
  | Ok _ =>
      ler ← cr_ProofLeafLER c; rer ← cr_ProofLERToRER c; ger ← cr_ProofGERToL1Root c; l ← cr_L1Leaf c;
      hl ← L1InfoTreeLeaf_Hash l;
      Some (Keccak256Hash [Hash_Bytes (MerkleProof_Hash ler); Hash_Bytes (MerkleProof_Hash rer);
                           Hash_Bytes (MerkleProof_Hash ger); Hash_Bytes hl])
  end.

Definition Claim_Hash (c : Claim) : option Z :=
  match c with
  | Mainnet c => ClaimFromMainnet_Hash c
  | Rollup c => ClaimFromRollup_Hash c
  end.

(** Panics on a nil exit, a nil [ClaimData] or a nil [GlobalIndex]. *)
Definition ImportedBridgeExit_Hash (c : option ImportedBridgeExit) : option Z :=
  c ← c;
  claim ← ie_ClaimData c;
  hc ← Claim_Hash claim;
  g ← ie_GlobalIndex c;
  Some (Keccak256Hash [Hash_Bytes (BridgeExit_Hash (ie_BridgeExit c)); Hash_Bytes hc;
                       Hash_Bytes (GlobalIndex_Hash g)]).

Definition certificateID_bytes (c : Certificate) (bridgeExitsPart importedBridgeExitsPart : Z)
  : list (list Z) :=
  [ Uint32ToBigEndianBytes (ct_NetworkID c);
    Uint64ToBigEndianBytes (ct_Height c);
    Hash_Bytes (ct_PrevLocalExitRoot c);
    Hash_Bytes (ct_NewLocalExitRoot c);
    Hash_Bytes bridgeExitsPart;
    Hash_Bytes importedBridgeExitsPart;
    Hash_Bytes ZeroHash ].

Definition CertificateID (c : Certificate) : option Z :=
  importedHashes ← mapM ImportedBridgeExit_Hash (ct_ImportedBridgeExits c);
  let bridgeExitsPart := Keccak256Hash (map (fun b => Hash_Bytes (BridgeExit_Hash b)) (ct_BridgeExits c)) in
  let importedBridgeExitsPart := Keccak256Hash (map Hash_Bytes importedHashes) in
  Some (Keccak256Hash (certificateID_bytes c bridgeExitsPart importedBridgeExitsPart)).

(** ** Inclusion proofs *)

(** [None] is a nil dereference. *)
Definition ClaimFromMainnet_VerifyProofs (c : ClaimFromMainnet) (l1Root leafHash leafIndex : Z)
  : option (result validationError unit) :=
  ger ← cm_ProofGERToL1Root c;
  if negb (mp_Root ger =? l1Root) then Some (Err ErrL1RootMismatch) else
  mer ← cm_ProofLeafMER c;
  l ← cm_L1Leaf c;
  if negb (mp_Root mer =? ll_MainnetExitRoot l) then Some (Err ErrExitRootMismatch) else
  if negb (VerifyProof leafHash (mp_Proof mer) leafIndex (mp_Root mer)) then Some (Err ErrLeafProof) else
  hl ← L1InfoTreeLeaf_Hash l;
  if negb (VerifyProof hl (mp_Proof ger) (ll_L1InfoTreeIndex l) (mp_Root ger)) then Some (Err ErrGERProof) else
  Some (Ok tt).

Definition ClaimFromRollup_VerifyProofs (c : ClaimFromRollup) (l1Root leafHash rollupIndex leafIndex : Z)
  : option (result validationError unit) :=
  ger ← cr_ProofGERToL1Root c;
  if negb (mp_Root ger =? l1Root) then Some (Err ErrL1RootMismatch) else
  rer ← cr_ProofLERToRER c;
  l ← cr_L1Leaf c;
  if negb (mp_Root rer =? ll_RollupExitRoot l) then Some (Err ErrExitRootMismatch) else
  ler ← cr_ProofLeafLER c;
  if negb (VerifyProof leafHash (mp_Proof ler) leafIndex (mp_Root ler)) then Some (Err ErrLeafProof) else
  hl ← L1InfoTreeLeaf_Hash l;
  if negb (VerifyProof hl (mp_Proof ger) (ll_L1InfoTreeIndex l) (mp_Root ger)) then Some (Err ErrGERProof) else
  if negb (VerifyProof (mp_Root ler) (mp_Proof rer) rollupIndex (mp_Root rer)) then Some (Err ErrLERProof) else
  Some (Ok tt).

Definition ImportedBridgeExit_VerifyProofs (c : option ImportedBridgeExit) (l1Root : Z)
  : option (result validationError unit) :=
  match c with
  | None => Some (Err ErrImportedBridgeExitNil)
  | Some c =>
      match ie_ClaimData c with
      | None => Some (Err ErrClaimDataNil)
      | Some (Mainnet cl) =>
          g ← ie_GlobalIndex c;
          ClaimFromMainnet_VerifyProofs cl l1Root (BridgeExit_Hash (ie_BridgeExit c)) (gi_LeafIndex g)
      | Some (Rollup cl) =>
          g ← ie_GlobalIndex c;
          ClaimFromRollup_VerifyProofs cl l1Root (BridgeExit_Hash (ie_BridgeExit c))
            (gi_RollupIndex g) (gi_LeafIndex g)
      end
  end.

End Hashes.

(** ** The global index *)

(** The last [k] bytes of a number that fits in [n] bytes. *)
Lemma drop_be_bytes n k x : drop (n - k) (be_bytes n x) = be_bytes (n `min` k) x.
Proof.
  replace n with ((n - k) + n `min` k)%nat at 2 by lia.
  rewrite be_bytes_add. apply drop_app_length'. symmetry. apply be_bytes_length.
Qed.

Lemma take_be_bytes n m x : (m <= n)%nat -> take m (be_bytes n x) = be_bytes m (x / 256 ^ Z.of_nat (n - m)).
Proof.
  intros Hm. replace n with (m + (n - m))%nat at 1 by lia.
  rewrite be_bytes_add. apply take_app_length'. symmetry. apply be_bytes_length.
Qed.

Lemma be_value_min n k x :
  0 <= x < 256 ^ Z.of_nat n -> be_value (be_bytes (n `min` k) x) = x mod 256 ^ Z.of_nat k.
Proof.
  intros Hx. rewrite be_value_be_bytes. destruct (Nat.min_spec n k) as [[? ->]|[? ->]]; [|done].
  rewrite !Z.mod_small; [done | | done].
  split; [lia|]. eapply Z.lt_le_trans; [apply Hx|]. apply Z.pow_le_mono_r; lia.
Qed.

(** [DecodeGlobalIndex] never panics and reads the flag at bit 64, the rollup index from bits
    32 to 63 and the leaf index from bits 0 to 31, whatever the length of the encoding. *)
Lemma DecodeGlobalIndex_spec globalIndex :
  0 <= globalIndex ->
  DecodeGlobalIndex globalIndex =
  Some (Z.testbit globalIndex 64, (globalIndex / 2 ^ 32) mod 2 ^ 32, globalIndex mod 2 ^ 32).
Proof.
  intros Hx. unfold DecodeGlobalIndex, big_Bytes. rewrite Z.abs_eq by done.
  set (L := big_ByteLen globalIndex). pose proof (proj1 (big_ByteLen_spec globalIndex Hx)) as HL. fold L in HL.
  rewrite be_bytes_length. destruct (Nat.eqb_spec L 0) as [E0|Hne].
  { rewrite E0 in HL. simpl in HL. by replace globalIndex with 0 by lia. }
  unfold globalIndexPartSize. rewrite drop_be_bytes.
  rewrite take_drop_commute. replace (L - 4 - 4 + (L - 4 - (L - 4 - 4)))%nat with (L - 4)%nat by lia.
  rewrite take_be_bytes, drop_be_bytes by lia.
  replace (L - (L - 4))%nat with (L `min` 4)%nat by lia. unfold BytesToUint32.
  rewrite !BytesToUint_value by (rewrite be_bytes_length; unfold Uint32ByteSize; lia).
  simpl mbind. unfold option_bind. change (2 ^ 32) with (256 ^ Z.of_nat 4).
  do 2 f_equal; [f_equal|]; [|by apply be_value_min].
  destruct (Nat.min_spec L 4) as [[? ->]|[? ->]].
  - replace ((L - 4) `min` 4)%nat with 0%nat by lia. rewrite (Z.div_small globalIndex (256 ^ Z.of_nat 4)); [done|].
    split; [lia|]. eapply Z.lt_le_trans; [apply HL|]. apply Z.pow_le_mono_r; lia.
  - apply be_value_min. split; [apply Z.div_pos; lia|]. apply Z.div_lt_upper_bound; [lia|].
    rewrite <- Z.pow_add_r by lia. by replace (Z.of_nat 4 + Z.of_nat (L - 4)) with (Z.of_nat L) by lia.
Qed.

Lemma GenerateGlobalIndex_value m r d :
  is_u32 r -> is_u32 d ->
  GenerateGlobalIndex m r d = (if m then 2 ^ 64 else r * 2 ^ 32) + d.
Proof.
  intros Hr Hd. unfold GenerateGlobalIndex, is_u32, pow2_32, globalIndexPartSize in *.
  rewrite be_value_app, be_bytes_length, (be_value_be_bytes_small 4 d) by lia.
  destruct m.
  - reflexivity.
  - rewrite (be_value_be_bytes_small 4 r) by lia. reflexivity.
Qed.

(** Decoding a generated global index gives its parts back, except that the rollup index of a
    mainnet index is dropped; so two deposits have the same global index only if they agree on the
    flag, the deposit count and, for rollups, the rollup index. *)
Theorem GlobalIndex_roundtrip mainnetFlag rollupIndex depositCount :
  is_u32 rollupIndex -> is_u32 depositCount ->
  DecodeGlobalIndex (GenerateGlobalIndex mainnetFlag rollupIndex depositCount) =
  Some (mainnetFlag, if mainnetFlag then 0 else rollupIndex, depositCount).
Proof.
  intros Hr Hd. rewrite GenerateGlobalIndex_value by done. unfold is_u32, pow2_32 in *.
  assert (0 <= (if mainnetFlag then 2 ^ 64 else rollupIndex * 2 ^ 32)) by (destruct mainnetFlag; lia).
  rewrite DecodeGlobalIndex_spec by lia.
  assert (Z.testbit ((if mainnetFlag then 2 ^ 64 else rollupIndex * 2 ^ 32) + depositCount) 64 = mainnetFlag) as ->.
  { apply Z.b2z_inj. rewrite Z.testbit_spec' by lia. destruct mainnetFlag; simpl Z.b2z.
    - replace ((2 ^ 64 + depositCount) / 2 ^ 64) with 1; [done|]. apply (Z.div_unique_pos _ _ 1 depositCount); lia.
    - rewrite Z.div_small by lia. done. }
  do 2 f_equal; [f_equal|]; destruct mainnetFlag.
  - replace ((2 ^ 64 + depositCount) / 2 ^ 32) with (2 ^ 32); [done|].
    apply (Z.div_unique_pos _ _ (2 ^ 32) depositCount); lia.
  - rewrite Z.div_add_l by lia. rewrite (Z.div_small depositCount), Z.add_0_r by lia. apply Z.mod_small. lia.
  - symmetry. apply (Z.mod_unique_pos _ _ (2 ^ 32)); lia.
  - symmetry. apply (Z.mod_unique_pos _ _ rollupIndex); lia.
Qed.

Lemma GlobalIndex_roundtrip_witness :
  DecodeGlobalIndex (GenerateGlobalIndex false 7 9) = Some (false, 7, 9).
Proof. refine (GlobalIndex_roundtrip false 7 9 _ _); split; vm_compute; congruence. Defined.

(** The documented example: a mainnet deposit 3 is [0x010000000000000003], nine bytes. *)
Example GenerateGlobalIndex_mainnet3 : GenerateGlobalIndex true 0 3 = 0x010000000000000003.
Proof. reflexivity. Qed.

(** ** Identifiers *)

Section HashProofs.
Context `{Keccak}.

(** The claims whose hash dereferences nil: only a rollup claim without the inner leaf. *)
Definition claim_inner_nil (c : Claim) : Prop :=
  match c with
  | Mainnet _ => False
  | Rollup c => ClaimFromRollup_Validate c = Ok tt /\ exists l, cr_L1Leaf c = Some l /\ ll_Inner l = None
  end.

Lemma Claim_Hash_None c : Claim_Hash c = None <-> claim_inner_nil c.
Proof.
  destruct c as [[mer ger l]|[ler rer ger l]]; simpl.
  - unfold ClaimFromMainnet_Hash, ClaimFromMainnet_Validate, L1InfoTreeLeaf_Validate. simpl.
    destruct mer, ger, l as [[? ? ? [inner|]]|]; simpl; naive_solver.
  - unfold ClaimFromRollup_Hash, ClaimFromRollup_Validate. simpl.
    destruct ler, rer, ger, l as [[? ? ? [inner|]]|]; simpl; naive_solver.
Qed.

(** What [Certificate.Validate] leaves unchecked: computing the identifier of a validated
    certificate panics exactly when an imported bridge exit has no claim data, or a rollup claim
    that passes its own validation has a leaf without inner part. *)
Theorem CertificateID_panics_iff c :
  Certificate_Validate (Some c) = Ok tt ->
  CertificateID c = None <->
  exists ie, In (Some ie) (ct_ImportedBridgeExits c) /\
    match ie_ClaimData ie with None => True | Some cl => claim_inner_nil cl end.
Proof.
  intros Hv. simpl in Hv. inv_ok Hv as u Hu. apply rforeach_Ok in Hv.
  assert (CertificateID c = None <-> mapM ImportedBridgeExit_Hash (ct_ImportedBridgeExits c) = None) as ->.
  { unfold CertificateID. destruct (mapM _ _); simpl; naive_solver. }
  induction (ct_ImportedBridgeExits c) as [|ie l IH]; simpl; [naive_solver|].
  apply Forall_cons in Hv as [Hie Hv]. specialize (IH Hv).
  destruct ie as [ie|]; [|discriminate]. simpl in Hie. inv_ok Hie as u' Hu'.
  destruct (ie_GlobalIndex ie) as [g|] eqn:Hg; [|discriminate].
  assert (ImportedBridgeExit_Hash (Some ie) = None <->
    match ie_ClaimData ie with None => True | Some cl => claim_inner_nil cl end) as Hh.
  { simpl. destruct (ie_ClaimData ie) as [cl|]; simpl; [|done]. rewrite <- Claim_Hash_None, Hg.
    destruct (Claim_Hash cl); simpl; naive_solver. }
  destruct (ImportedBridgeExit_Hash (Some ie)) as [h|] eqn:E; simpl.
  - destruct (mapM ImportedBridgeExit_Hash l) as [hs|]; simpl; naive_solver.
  - split; [|done]. intros _. exists ie. split; [by left | by apply Hh].
Qed.

(** Prefixes of equal length of equal concatenations agree. *)
Lemma concat_inj2 (l1 l2 : list (list Z)) :
  Forall2 (fun a b => length a = length b) l1 l2 -> concat l1 = concat l2 -> l1 = l2.
Proof.
  induction 1 as [|a b l1 l2 Hab _ IH]; simpl; [done|]. intros E.
  apply app_inj_1 in E as [-> E]; [|done]. by rewrite (IH E).
Qed.

Lemma list7_inj {A} (a1 a2 a3 a4 a5 a6 a7 b1 b2 b3 b4 b5 b6 b7 : A) :
  [a1; a2; a3; a4; a5; a6; a7] = [b1; b2; b3; b4; b5; b6; b7] ->
  a1 = b1 /\ a2 = b2 /\ a3 = b3 /\ a4 = b4 /\ a5 = b5 /\ a6 = b6.
Proof. naive_solver. Qed.

(** The bytes a certificate identifier is the hash of determine the network, the height, both
    local exit roots and the two digests of the exits: certificates that differ in one of them
    have the same identifier only through a Keccak collision. *)
Theorem CertificateID_encoding_injective c1 c2 b1 b2 i1 i2 :
  is_u32 (ct_NetworkID c1) -> is_u32 (ct_NetworkID c2) ->
  is_u64 (ct_Height c1) -> is_u64 (ct_Height c2) ->
  Forall is_hash [ct_PrevLocalExitRoot c1; ct_NewLocalExitRoot c1; b1; i1] ->
  Forall is_hash [ct_PrevLocalExitRoot c2; ct_NewLocalExitRoot c2; b2; i2] ->
  concat (certificateID_bytes c1 b1 i1) = concat (certificateID_bytes c2 b2 i2) ->
  ct_NetworkID c1 = ct_NetworkID c2 /\ ct_Height c1 = ct_Height c2 /\
  ct_PrevLocalExitRoot c1 = ct_PrevLocalExitRoot c2 /\ ct_NewLocalExitRoot c1 = ct_NewLocalExitRoot c2 /\
  b1 = b2 /\ i1 = i2.
Proof.
  intros Hn1 Hn2 Hh1 Hh2 Hf1 Hf2 E. apply concat_inj2 in E.
  2: { repeat constructor; unfold Uint32ToBigEndianBytes, Uint32ToBytes, Uint64ToBigEndianBytes, Hash_Bytes;
       by rewrite !be_bytes_length. }
  apply list7_inj in E as (En & Eh & Ep & Ew & Eb & Ei). rewrite !Forall_cons in Hf1, Hf2.
  destruct Hf1 as (? & ? & ? & ? & _), Hf2 as (? & ? & ? & ? & _).
  split_and!; [eapply (be_bytes_inj 4); [done..|exact En] | eapply (be_bytes_inj 8); [done..|exact Eh] |
               by apply Hash_Bytes_inj..].
Qed.

(** ** Inclusion proofs *)

Lemma VerifyProof_calculated leaf proof index : VerifyProof leaf proof index (CalculateRoot leaf proof index) = true.
Proof. apply Z.eqb_refl. Qed.

(** [VerifyProofs] of a mainnet claim does not tie the mainnet exit root to the global exit
    root: from any accepted imported exit, every other bridge exit is accepted against the same
    L1 root, with the same proof of the same L1 leaf hash, by naming another mainnet exit root. *)
Theorem VerifyProofs_mainnet_unbound be cl g l1Root :
  ImportedBridgeExit_VerifyProofs (Some (mkImportedBridgeExit be (Some (Mainnet cl)) (Some g))) l1Root
    = Some (Ok tt) ->
  forall be', exists mer l l',
    length (mp_Proof mer) = DefaultHeight /\ cm_L1Leaf cl = Some l /\ ll_Inner l' = ll_Inner l /\ ll_L1InfoTreeIndex l' = ll_L1InfoTreeIndex l /\
    ll_RollupExitRoot l' = ll_RollupExitRoot l /\
    ImportedBridgeExit_VerifyProofs
      (Some (mkImportedBridgeExit be'
        (Some (Mainnet (mkClaimFromMainnet (Some mer) (cm_ProofGERToL1Root cl) (Some l')))) (Some g))) l1Root
      = Some (Ok tt).
Proof.
  destruct cl as [mer ger l].
  cbn [ImportedBridgeExit_VerifyProofs ie_ClaimData ie_GlobalIndex ie_BridgeExit cm_L1Leaf cm_ProofGERToL1Root
       cm_ProofLeafMER mbind option_bind].
  unfold ClaimFromMainnet_VerifyProofs, L1InfoTreeLeaf_Hash.
  cbn [cm_L1Leaf cm_ProofGERToL1Root cm_ProofLeafMER].
  destruct ger as [ger|]; cbn [mbind option_bind]; [|intros [=]].
  destruct (negb (mp_Root ger =? l1Root)); [intros [=]|].
  destruct mer as [mer|]; cbn [mbind option_bind]; [|intros [=]].
  destruct l as [[idx rer mx inner]|]; cbn [mbind option_bind ll_MainnetExitRoot ll_Inner ll_L1InfoTreeIndex]; [|intros [=]].
  destruct (negb (mp_Root mer =? mx)); [intros [=]|].
  destruct (negb (VerifyProof (BridgeExit_Hash be) _ _ _)); [intros [=]|].
  destruct inner as [inner|]; cbn [mbind option_bind]; [|intros [=]].
  destruct (negb (VerifyProof (L1InfoTreeLeafInner_Hash inner) _ _ _)) eqn:Hger; [intros [=]|]. intros _ be'.
  set (zeros := repeat 0 DefaultHeight).
  set (root := CalculateRoot (BridgeExit_Hash be') zeros (gi_LeafIndex g)).
  exists (mkMerkleProof root zeros), (mkL1InfoTreeLeaf idx rer mx (Some inner)),
    (mkL1InfoTreeLeaf idx rer root (Some inner)).
  cbn [mp_Proof mp_Root ll_MainnetExitRoot ll_Inner ll_L1InfoTreeIndex ll_RollupExitRoot mbind option_bind].
  split_and!; [apply repeat_length | reflexivity.. |].
  rewrite Z.eqb_refl. unfold root. rewrite VerifyProof_calculated. cbn [negb]. by rewrite Hger.
Qed.

End HashProofs.

#[local] Existing Instance toy_keccak.

Definition example_exit : BridgeExit := mkBridgeExit 0 (Some (mkTokenInfo 0 1)) 2 3 (Some 100) [].

Definition example_imported : ImportedBridgeExit :=
  mkImportedBridgeExit (Some example_exit) None (Some (mkGlobalIndex true 0 4)).

Definition example_cert (exits : list (option ImportedBridgeExit)) : Certificate :=
  mkCertificate 1 5 10 11 [Some example_exit] exits 0.

Lemma CertificateID_panics_iff_witness :
  CertificateID (example_cert [Some example_imported]) = None <->
  exists ie, In (Some ie) [Some example_imported] /\
    match ie_ClaimData ie with None => True | Some cl => claim_inner_nil cl end.
Proof. refine (CertificateID_panics_iff (example_cert [Some example_imported]) _). reflexivity. Defined.

Lemma CertificateID_encoding_injective_witness :
  ct_NetworkID (example_cert []) = 1 /\ ct_Height (example_cert []) = 5 /\ 10 = 10 /\ 11 = 11 /\ 7 = 7 /\ 8 = 8.
Proof.
  refine (CertificateID_encoding_injective (example_cert []) (example_cert [None]) 7 7 8 8 _ _ _ _ _ _ _);
    repeat constructor; try (vm_compute; congruence).
Defined.

(** An accepted claim: the roots are those of the proofs. *)
Definition example_inner : L1InfoTreeLeafInner := mkInner 21 22 23.
Definition example_claim : ClaimFromMainnet :=
  let mer := CalculateRoot (BridgeExit_Hash (Some example_exit)) (repeat 0 DefaultHeight) 4 in
  let l1 := CalculateRoot (L1InfoTreeLeafInner_Hash example_inner) (repeat 0 DefaultHeight) 6 in
  mkClaimFromMainnet (Some (mkMerkleProof mer (repeat 0 DefaultHeight))) (Some (mkMerkleProof l1 (repeat 0 DefaultHeight)))
    (Some (mkL1InfoTreeLeaf 6 31 mer (Some example_inner))).

Lemma VerifyProofs_mainnet_unbound_witness :
  exists mer l l',
    length (mp_Proof mer) = DefaultHeight /\ cm_L1Leaf example_claim = Some l /\ ll_Inner l' = ll_Inner l /\
    ll_L1InfoTreeIndex l' = ll_L1InfoTreeIndex l /\ ll_RollupExitRoot l' = ll_RollupExitRoot l /\
    ImportedBridgeExit_VerifyProofs
      (Some (mkImportedBridgeExit (Some (mkBridgeExit 1 (Some (mkTokenInfo 9 9)) 8 8 (Some 5) []))
        (Some (Mainnet (mkClaimFromMainnet (Some mer) (cm_ProofGERToL1Root example_claim) (Some l'))))
        (Some (mkGlobalIndex true 0 4)))) (CalculateRoot (L1InfoTreeLeafInner_Hash example_inner) (repeat 0 DefaultHeight) 6)
      = Some (Ok tt).
Proof.
  refine (VerifyProofs_mainnet_unbound (Some example_exit) example_claim (mkGlobalIndex true 0 4)
    (CalculateRoot (L1InfoTreeLeafInner_Hash example_inner) (repeat 0 DefaultHeight) 6) _
    (Some (mkBridgeExit 1 (Some (mkTokenInfo 9 9)) 8 8 (Some 5) []))).
  vm_compute. reflexivity.
Defined.
