(* ===== verification/CertStorage.v ===== *)
(** The aggsender's certificate storage ([aggsender/db]) and its retention policy.

    The state is the content of the tables [certificate_info] (primary key: the height) and
    [certificate_info_history] (primary key: height and retry count), of the key-value entry of the
    last rejected certificate, and of the directory of signed certificates.  SQL statements run
    in a transaction: on an error the tables are those before the call, while files that were
    written or removed stay so.  Failures of the SQL engine or of the file system are not
    modelled, except for the primary keys. *)

From S2P Require Import Prelude Bytes AgglayerTypes.

(** ** Data *)

Inductive CertificateType :=
| CertificateTypeUnknown | CertificateTypePP | CertificateTypeFEP
| CertificateTypeOptimistic | CertificateTypePreconfPP.

Inductive CertificateSource :=
| CertificateSourceAggLayer | CertificateSourceLocal | CertificateSourceUnknown.

(** [signed_cert_<height>_<id>_<retry>.json] and [last_rejected_cert.json] in the directory. *)
Inductive certPath :=
| SignedCertPath (height certificateID retryCount : Z)
| RejectedCertPath.

#[global] Instance certPath_eq_dec : EqDecision certPath.
Proof. solve_decision. Defined.
#[global] Instance certPath_countable : Countable certPath.
Proof.
  refine (inj_countable'
    (fun p => match p with SignedCertPath h i r => Some (h, i, r) | RejectedCertPath => None end)
    (fun o => match o with Some (h, i, r) => SignedCertPath h i r | None => RejectedCertPath end) _).
  by intros [].
Defined.

(** A signed-certificate string: a text, or ["@" ++ path] when it refers to a file. *)
Inductive SignedCert :=
| SignedContent (content : list Z)
| SignedFile (path : certPath).

#[global] Instance SignedCert_eq_dec : EqDecision SignedCert.
Proof. solve_decision. Defined.

Record CertificateHeader := mkCertificateHeader {
  ch_Height : Z;
  ch_RetryCount : Z;
  ch_CertificateID : Z;
  ch_PreviousLocalExitRoot : option Z;
  ch_NewLocalExitRoot : Z;
  ch_FromBlock : Z;
  ch_ToBlock : Z;
  ch_Status : CertificateStatus;
  ch_CreatedAt : Z;
  ch_UpdatedAt : Z;
  ch_FinalizedL1InfoTreeRoot : option Z;
  ch_L1InfoTreeLeafCount : Z;
  ch_CertType : CertificateType;
  ch_CertSource : CertificateSource
}.

(** [types.Certificate]; the aggchain proof and the extra data are opaque. *)
Record StoredCertificate := mkStoredCertificate {
  sc_Header : option CertificateHeader;
  sc_SignedCertificate : option SignedCert;
  sc_AggchainProof : option Z;
  sc_ExtraData : list Z
}.

(** A row of either table ([certificateInfo]); its header columns are a [CertificateHeader]. *)
Record certificateInfo := mkCertificateInfo {
  ci_Header : CertificateHeader;
  ci_SignedCertificate : option SignedCert;
  ci_AggchainProof : option Z;
  ci_ExtraData : list Z
}.

Definition ci_Height (c : certificateInfo) : Z := ch_Height (ci_Header c).
Definition ci_RetryCount (c : certificateInfo) : Z := ch_RetryCount (ci_Header c).
Definition ci_CertificateID (c : certificateInfo) : Z := ch_CertificateID (ci_Header c).
Definition ci_Status (c : certificateInfo) : CertificateStatus := ch_Status (ci_Header c).

Record NonAcceptedCertificate := mkNonAccepted {
  na_Height : Z;
  na_SignedCertificate : SignedCert;
  na_CreatedAt : Z;
  na_CertificateHash : Z;
  na_Error : list Z
}.

Record RetainPolicy := mkRetainPolicy {
  rp_RetainCertificatesCount : Z;
  rp_KeepCertificatesHistory : bool
}.

Definition KeepAllCertificates : Z := 0.
Definition NewStorageRetainCertificatesPolicyDefault : RetainPolicy := mkRetainPolicy KeepAllCertificates true.

(** The two tables, what a transaction restores. *)
Record Tables := mkTables {
  tb_certificate_info : gmap Z certificateInfo;
  tb_certificate_info_history : gmap (Z * Z) certificateInfo;
  tb_non_accepted : option NonAcceptedCertificate
}.

Record Storage := mkStorage {
  st_tables : Tables;
  st_files : gmap certPath SignedCert;
  st_retainPolicy : RetainPolicy
}.

Inductive storageError :=
| ErrStorageNotFound
| ErrNoCertDeleted
| ErrNoCertificateHeader
| ErrPrimaryKey
| ErrNilNonAccepted
| ErrReadFile
| ErrHashMismatch
| ErrScanNull.

#[global] Instance storageError_eq_dec : EqDecision storageError.
Proof. solve_decision. Defined.

Definition set_tables (s : Storage) (t : Tables) : Storage := mkStorage t (st_files s) (st_retainPolicy s).
Definition set_files (s : Storage) (f : gmap certPath SignedCert) : Storage :=
  mkStorage (st_tables s) f (st_retainPolicy s).
Definition set_info (s : Storage) (m : gmap Z certificateInfo) : Storage :=
  set_tables s (mkTables m (tb_certificate_info_history (st_tables s)) (tb_non_accepted (st_tables s))).
Definition set_history (s : Storage) (m : gmap (Z * Z) certificateInfo) : Storage :=
  set_tables s (mkTables (tb_certificate_info (st_tables s)) m (tb_non_accepted (st_tables s))).

Definition cert_info (s : Storage) : gmap Z certificateInfo := tb_certificate_info (st_tables s).
Definition cert_history (s : Storage) : gmap (Z * Z) certificateInfo := tb_certificate_info_history (st_tables s).

(** ** Rows *)

Definition convertCertificateToCertificateInfo (c : StoredCertificate) : result storageError certificateInfo :=
  match sc_Header c with
  | None => Err ErrNoCertificateHeader
  | Some h => Ok (mkCertificateInfo h (sc_SignedCertificate c) (sc_AggchainProof c) (sc_ExtraData c))
  end.

Definition SetSignedCertificateFilename (c : certificateInfo) (filename : certPath) : certificateInfo :=
  mkCertificateInfo (ci_Header c) (Some (SignedFile filename)) (ci_AggchainProof c) (ci_ExtraData c).

Definition SignedCertificateFilename (c : certificateInfo) : option certPath :=
  match ci_SignedCertificate c with
  | Some (SignedFile p) => Some p
  | _ => None
  end.

(** When the file cannot be read the reference itself is returned. *)
Definition SignedCertificateData (s : Storage) (c : certificateInfo) : option SignedCert :=
  match ci_SignedCertificate c with
  | None => None
  | Some (SignedContent d) => Some (SignedContent d)
  | Some (SignedFile p) =>
      match st_files s !! p with
      | Some content => Some content
      | None => Some (SignedFile p)
      end
  end.

Definition toCertificate (s : Storage) (c : certificateInfo) : StoredCertificate :=
  mkStoredCertificate (Some (ci_Header c)) (SignedCertificateData s c) (ci_AggchainProof c) (ci_ExtraData c).

Definition setStatus (c : certificateInfo) (newStatus : CertificateStatus) (updatedAt : Z) : certificateInfo :=
  let h := ci_Header c in
  mkCertificateInfo
    (mkCertificateHeader (ch_Height h) (ch_RetryCount h) (ch_CertificateID h) (ch_PreviousLocalExitRoot h)
       (ch_NewLocalExitRoot h) (ch_FromBlock h) (ch_ToBlock h) newStatus (ch_CreatedAt h) updatedAt
       (ch_FinalizedL1InfoTreeRoot h) (ch_L1InfoTreeLeafCount h) (ch_CertType h) (ch_CertSource h))
    (ci_SignedCertificate c) (ci_AggchainProof c) (ci_ExtraData c).

(** ** Files *)

(** An empty or absent certificate is not written. *)
Definition handleCertificateFile (s : Storage) (c : certificateInfo) : Storage * certificateInfo :=
  match ci_SignedCertificate c with
  | None => (s, c)
  | Some (SignedContent []) => (s, c)
  | Some content =>
      let filePath := SignedCertPath (ci_Height c) (ci_CertificateID c) (ci_RetryCount c) in
      (set_files s (<[filePath := content]> (st_files s)), SetSignedCertificateFilename c filePath)
  end.

(** A file that does not exist is not an error. *)
Definition deleteCertificateFile (s : Storage) (filename : option certPath) : Storage :=
  match filename with
  | None => s
  | Some p => set_files s (delete p (st_files s))
  end.

Definition deleteCertificateFiles (s : Storage) (rows : list certificateInfo) : Storage :=
  fold_left (fun s c => deleteCertificateFile s (SignedCertificateFilename c)) rows s.

(** ** Queries *)

(** [WHERE height = $1], for either table. *)
Definition rows_at (height : Z) (m : gmap (Z * Z) certificateInfo) : list certificateInfo :=
  map snd (map_to_list (filter (fun kv => fst (fst kv) = height) m)).

Definition rows_of_option (o : option certificateInfo) : list certificateInfo :=
  match o with Some c => [c] | None => [] end.

(** [ORDER BY height DESC LIMIT 1] over the rows that satisfy [p]. *)
Definition higher (a b : certificateInfo) : certificateInfo := if ci_Height a <? ci_Height b then b else a.

Definition last_row_step (best : option certificateInfo) (c : certificateInfo) : option certificateInfo :=
  match best with
  | None => Some c
  | Some b => Some (higher b c)
  end.

Definition last_row (p : certificateInfo -> bool) (m : gmap Z certificateInfo) : option certificateInfo :=
  fold_left last_row_step (bfilter p (map snd (map_to_list m))) None.

(** No rows is not an error for height 0. *)
Definition getSelectQueryError {A} (height : Z) (row : option A) : result storageError (option A) :=
  match row with
  | Some r => Ok (Some r)
  | None => if height =? 0 then Ok None else Err ErrStorageNotFound
  end.

Definition GetCertificateByHeight (s : Storage) (height : Z) : result storageError (option StoredCertificate) :=
  let? row := getSelectQueryError height (cert_info s !! height) in
  Ok (toCertificate s <$> row).

Definition GetCertificateHeaderByHeight (s : Storage) (height : Z) : result storageError (option CertificateHeader) :=
  let? row := getSelectQueryError height (cert_info s !! height) in
  Ok (ci_Header <$> row).

Definition GetLastSentCertificate (s : Storage) : result storageError (option StoredCertificate) :=
  let? row := getSelectQueryError 0 (last_row (fun _ => true) (cert_info s)) in
  Ok (toCertificate s <$> row).

Definition GetLastSentCertificateHeader (s : Storage) : result storageError (option CertificateHeader) :=
  let? row := getSelectQueryError 0 (last_row (fun _ => true) (cert_info s)) in
  Ok (ci_Header <$> row).

Definition GetLastSettledCertificate (s : Storage) : result storageError CertificateHeader :=
  match last_row (fun c => bool_decide (ci_Status c = Settled)) (cert_info s) with
  | Some c => Ok (ci_Header c)
  | None => Err ErrStorageNotFound
  end.

Definition GetLastSentCertificateHeaderWithProofIfInError (s : Storage)
  : result storageError (option (CertificateHeader * option Z)) :=
  let? row := getSelectQueryError 0 (last_row (fun _ => true) (cert_info s)) in
  match row with
  | None => Ok None
  | Some c =>
      if IsInError (ci_Status c) then
        match cert_info s !! ci_Height c with
        | None => Err ErrStorageNotFound
        | Some c' => Ok (Some (ci_Header c, ci_AggchainProof c'))
        end
      else Ok (Some (ci_Header c, None))
  end.

(** [ORDER BY height ASC]: insertion into a list sorted by height. *)
Fixpoint insert_by_height (c : certificateInfo) (l : list certificateInfo) : list certificateInfo :=
  match l with
  | [] => [c]
  | d :: l' => if ci_Height c <=? ci_Height d then c :: l else d :: insert_by_height c l'
  end.

Definition GetCertificateHeadersByStatus (s : Storage) (statuses : list CertificateStatus)
  : list CertificateHeader :=
  let p := fun c => match statuses with [] => true | _ => bool_decide (ci_Status c ∈ statuses) end in
  map ci_Header (fold_right insert_by_height [] (bfilter p (map snd (map_to_list (cert_info s))))).

(** ** Updates *)

Definition updateCertStatus (m : gmap Z certificateInfo) (certificateID : Z)
    (newStatus : CertificateStatus) (updatedAt : Z) : gmap Z certificateInfo :=
  (fun c => if ci_CertificateID c =? certificateID then setStatus c newStatus updatedAt else c) <$> m.

Definition UpdateCertificateStatus (s : Storage) (certificateID : Z)
    (newStatus : CertificateStatus) (updatedAt : Z) : Storage :=
  set_info s (updateCertStatus (cert_info s) certificateID newStatus updatedAt).

Definition deleteFromInfo (s : Storage) (height : Z) : Storage * result storageError unit :=
  match rows_of_option (cert_info s !! height) with
  | [] => (s, Err ErrNoCertDeleted)
  | rows =>
      let s := deleteCertificateFiles s rows in
      (set_info s (delete height (cert_info s)), Ok tt)
  end.

Definition deleteFromHistory (s : Storage) (height : Z) : Storage * result storageError unit :=
  match rows_at height (cert_history s) with
  | [] => (s, Err ErrNoCertDeleted)
  | rows =>
      let s := deleteCertificateFiles s rows in
      (set_history s (filter (fun kv => fst (fst kv) <> height) (cert_history s)), Ok tt)
  end.

Definition MoveCertificateToHistory (s : Storage) (height : Z) : Storage * result storageError unit :=
  match cert_info s !! height with
  | None => deleteFromInfo s height
  | Some c =>
      match cert_history s !! (height, ci_RetryCount c) with
      | Some _ => (s, Err ErrPrimaryKey)
      | None => deleteFromInfo (set_history s (<[(height, ci_RetryCount c) := c]> (cert_history s))) height
      end
  end.

Definition DeleteCertificate (s : Storage) (height : Z) (mustDelete : bool) : Storage * result storageError unit :=
  match deleteFromInfo s height with
  | (s1, Err e) =>
      if negb (bool_decide (e = ErrNoCertDeleted)) || mustDelete then (s1, Err e)
      else match deleteFromHistory s1 height with
           | (s2, Err e2) => (s2, if bool_decide (e2 = ErrNoCertDeleted) then Ok tt else Err e2)
           | (s2, Ok _) => (s2, Ok tt)
           end
  | (s1, Ok _) =>
      match deleteFromHistory s1 height with
      | (s2, Err e2) => (s2, if bool_decide (e2 = ErrNoCertDeleted) then Ok tt else Err e2)
      | (s2, Ok _) => (s2, Ok tt)
      end
  end.

(** The old rows of both tables. *)
Definition getCertificatesHeightOlderThanHeight (s : Storage) (maxHeight : Z) : list certificateInfo :=
  map snd (map_to_list (filter (fun kv => fst kv < maxHeight) (cert_info s)))
  ++ map snd (map_to_list (filter (fun kv => fst (fst kv) < maxHeight) (cert_history s))).

(** Their column is read into a string, which a NULL does not fit. *)
Definition unsigned (c : certificateInfo) : bool := match ci_SignedCertificate c with None => true | Some _ => false end.

Definition DeleteOldCertificates (s : Storage) (maxHeight : Z) : Storage * result storageError unit :=
  let old := getCertificatesHeightOlderThanHeight s maxHeight in
  if existsb unsigned old then (s, Err ErrScanNull)
  else let s := deleteCertificateFiles s old in
       (set_history (set_info s (filter (fun kv => ~ fst kv < maxHeight) (cert_info s)))
          (filter (fun kv => ~ fst (fst kv) < maxHeight) (cert_history s)), Ok tt).

Definition OnNewCert (r : RetainPolicy) (s : Storage) (height retryCount : Z)
  : Storage * result storageError unit :=
  if 0 <? retryCount then
    if rp_KeepCertificatesHistory r then MoveCertificateToHistory s height
    else DeleteCertificate s height false
  else if rp_RetainCertificatesCount r =? KeepAllCertificates then (s, Ok tt)
  else if height <? rp_RetainCertificatesCount r then (s, Ok tt)
  else DeleteOldCertificates s (height -u64 rp_RetainCertificatesCount r).

(** [meddler.Insert] into [certificate_info]. *)
Definition insert_info (s : Storage) (c : certificateInfo) : Storage * result storageError unit :=
  match cert_info s !! ci_Height c with
  | Some _ => (s, Err ErrPrimaryKey)
  | None => (set_info s (<[ci_Height c := c]> (cert_info s)), Ok tt)
  end.

(** Rollback: the tables of [s0], the files of [s]. *)
Definition rollback (s0 s : Storage) : Storage := set_tables s (st_tables s0).

Definition SaveLastSentCertificate (s : Storage) (certificate : StoredCertificate)
  : Storage * result storageError unit :=
  match convertCertificateToCertificateInfo certificate with
  | Err e => (s, Err e)
  | Ok certInfo =>
      let '(s1, certInfo) := handleCertificateFile s certInfo in
      match OnNewCert (st_retainPolicy s1) s1 (ci_Height certInfo) (ci_RetryCount certInfo) with
      | (s2, Err e) => (rollback s s2, Err e)
      | (s2, Ok _) =>
          match insert_info s2 certInfo with
          | (s3, Err e) => (rollback s s3, Err e)
          | (s3, Ok _) => (s3, Ok tt)
          end
      end
  end.

Definition SaveOrUpdateCertificate (s : Storage) (certificate : StoredCertificate)
  : Storage * result storageError unit :=
  match convertCertificateToCertificateInfo certificate with
  | Err e => (s, Err e)
  | Ok certInfo =>
      let '(s1, certInfo) := handleCertificateFile s certInfo in
      match cert_info s1 !! ci_Height certInfo with
      | None =>
          match insert_info s1 certInfo with
          | (s2, Err e) => (rollback s s2, Err e)
          | (s2, Ok _) => (s2, Ok tt)
          end
      | Some _ =>
          (set_info s1 (updateCertStatus (cert_info s1) (ci_CertificateID certInfo) (ci_Status certInfo)
                          (ch_UpdatedAt (ci_Header certInfo))), Ok tt)
      end
  end.

(** ** The last rejected certificate *)

Section Rejected.
Context `{Keccak} (path_text : certPath -> list Z).

(** The text of a signed-certificate string; a file reference starts with ["@"]. *)
Definition signed_text (c : SignedCert) : list Z :=
  match c with
  | SignedContent d => d
  | SignedFile p => 64 :: path_text p
  end.

Definition SaveNonAcceptedCertificate (s : Storage) (c : option NonAcceptedCertificate)
  : Storage * result storageError unit :=
  match c with
  | None => (s, Err ErrNilNonAccepted)
  | Some c =>
      let s := set_files s (<[RejectedCertPath := na_SignedCertificate c]> (st_files s)) in
      let entry := mkNonAccepted (na_Height c) (SignedFile RejectedCertPath) (na_CreatedAt c)
                     (Keccak256Hash [signed_text (na_SignedCertificate c)]) (na_Error c) in
      (set_tables s (mkTables (cert_info s) (cert_history s) (Some entry)), Ok tt)
  end.

Definition GetNonAcceptedCertificate (s : Storage) : result storageError (option NonAcceptedCertificate) :=
  match tb_non_accepted (st_tables s) with
  | None => Ok None
  | Some c =>
      match na_SignedCertificate c with
      | SignedContent _ => Ok (Some c)
      | SignedFile p =>
          match st_files s !! p with
          | None => Err ErrReadFile
          | Some data =>
              if negb (Keccak256Hash [signed_text data] =? na_CertificateHash c) then Err ErrHashMismatch
              else Ok (Some (mkNonAccepted (na_Height c) data (na_CreatedAt c) (na_CertificateHash c) (na_Error c)))
          end
      end
  end.

End Rejected.

(** ** Lemmas *)

Lemma deleteCertificateFiles_tables rows s :
  st_tables (deleteCertificateFiles s rows) = st_tables s /\
  st_retainPolicy (deleteCertificateFiles s rows) = st_retainPolicy s.
Proof.
  unfold deleteCertificateFiles. revert s. induction rows as [|c rows IH]; intros s; simpl; [done|].
  destruct (IH (deleteCertificateFile s (SignedCertificateFilename c))) as [-> ->].
  unfold deleteCertificateFile. by destruct (SignedCertificateFilename c).
Qed.

Lemma deleteCertificateFiles_lookup rows s p :
  st_files (deleteCertificateFiles s rows) !! p =
  if bool_decide (Exists (fun c => SignedCertificateFilename c = Some p) rows) then None else st_files s !! p.
Proof.
  unfold deleteCertificateFiles. revert s. induction rows as [|c rows IH]; intros s; cbn [fold_left].
  { done. }
  rewrite IH. clear IH.
  destruct (bool_decide_reflect (Exists (fun c => SignedCertificateFilename c = Some p) rows)) as [He|He].
  { rewrite bool_decide_true; [done|]. apply Exists_cons. by right. }
  unfold deleteCertificateFile. destruct (decide (SignedCertificateFilename c = Some p)) as [Hc|Hc].
  - rewrite bool_decide_true by (apply Exists_cons; by left). rewrite Hc. simpl. apply lookup_delete_eq.
  - rewrite bool_decide_false by (rewrite Exists_cons; tauto).
    destruct (SignedCertificateFilename c) as [q|]; simpl; [|done].
    apply lookup_delete_ne. congruence.
Qed.

Lemma handleCertificateFile_facts s c s1 c1 :
  handleCertificateFile s c = (s1, c1) ->
  st_tables s1 = st_tables s /\ st_retainPolicy s1 = st_retainPolicy s /\
  ci_Header c1 = ci_Header c /\ ci_AggchainProof c1 = ci_AggchainProof c /\ ci_ExtraData c1 = ci_ExtraData c.
Proof.
  unfold handleCertificateFile. destruct (ci_SignedCertificate c) as [[[|]|]|]; intros [= <- <-]; done.
Qed.

(** ** Moving a certificate to the history *)

Lemma deleteFromInfo_found s h c :
  cert_info s !! h = Some c ->
  deleteFromInfo s h =
  (set_info (deleteCertificateFile s (SignedCertificateFilename c)) (delete h (cert_info s)), Ok tt).
Proof.
  intros Hc. unfold deleteFromInfo. rewrite Hc. simpl. unfold deleteCertificateFiles. simpl.
  unfold deleteCertificateFile. by destruct (SignedCertificateFilename c).
Qed.

Lemma MoveCertificateToHistory_found s h c :
  cert_info s !! h = Some c -> cert_history s !! (h, ci_RetryCount c) = None ->
  exists s', MoveCertificateToHistory s h = (s', Ok tt) /\
    cert_info s' = delete h (cert_info s) /\
    cert_history s' = <[(h, ci_RetryCount c) := c]> (cert_history s) /\
    st_files s' = st_files (deleteCertificateFile s (SignedCertificateFilename c)) /\
    st_retainPolicy s' = st_retainPolicy s.
Proof.
  intros Hc Hh. unfold MoveCertificateToHistory. rewrite Hc, Hh.
  rewrite (deleteFromInfo_found _ h c) by done. eexists. split; [reflexivity|].
  unfold deleteCertificateFile. by destruct (SignedCertificateFilename c).
Qed.

(** ** The two tables refine the list of attempts per height

    Abstractly the storage holds, for each height, the certificates saved for it in order. *)

Record attempts_rel (s : Storage) (A : Z -> list certificateInfo) : Prop := {
  ar_info : forall h, cert_info s !! h = last (A h);
  ar_history : forall h r, cert_history s !! (h, r) =
    if 0 <=? r then (removelast (A h)) !! Z.to_nat r else None;
  ar_rows : forall h i c, A h !! i = Some c -> ci_Height c = h /\ ci_RetryCount c = Z.of_nat i
}.

Definition add_attempt (A : Z -> list certificateInfo) (c : certificateInfo) : Z -> list certificateInfo :=
  fun h => if h =? ci_Height c then A h ++ [c] else A h.

Lemma attempts_rel_add s s' A c :
  attempts_rel s A -> ci_RetryCount c = Z.of_nat (length (A (ci_Height c))) ->
  cert_info s' = <[ci_Height c := c]> (cert_info s) ->
  cert_history s' =
    match last (A (ci_Height c)) with
    | Some c0 => <[(ci_Height c, ci_RetryCount c0) := c0]> (cert_history s)
    | None => cert_history s
    end ->
  attempts_rel s' (add_attempt A c).
Proof.
  intros [Hi Hh Hr] Hretry Hinfo Hhist. set (h0 := ci_Height c) in *.
  split; unfold add_attempt; fold h0.
  - intros h. rewrite Hinfo. destruct (Z.eqb_spec h h0) as [->|].
    + by rewrite lookup_insert_eq, last_snoc.
    + by rewrite lookup_insert_ne.
  - intros h r. rewrite Hhist.
    destruct (Z.eqb_spec h h0) as [->|Hne].
    + rewrite removelast_last. destruct (A h0) as [|x l _] eqn:EA using rev_ind.
      { simpl last. rewrite Hh, EA. done. }
      rewrite last_snoc.
      destruct (Hr h0 (length l) x) as [_ Hx]. { rewrite EA. by apply list_lookup_middle. }
      rewrite Hx. destruct (decide (r = Z.of_nat (length l))) as [->|Hrn].
      * rewrite lookup_insert_eq, (proj2 (Z.leb_le _ _)), Nat2Z.id by lia. symmetry. by apply list_lookup_middle.
      * rewrite lookup_insert_ne by congruence. rewrite Hh, EA, removelast_last.
        destruct (0 <=? r) eqn:E; [|done]. bool_hyps.
        destruct (decide (Z.to_nat r < length l)%nat) as [?|?]; [by rewrite lookup_app_l|].
        rewrite !lookup_ge_None_2; [done | rewrite length_app; simpl; lia | lia].
    + destruct (last (A h0)) as [c0|]; [|apply Hh].
      rewrite lookup_insert_ne by congruence. apply Hh.
  - intros h i d. destruct (Z.eqb_spec h h0) as [->|]; [|apply Hr].
    intros Hd. apply lookup_app_Some in Hd as [Hd|[Hlen Hd]]; [by apply Hr|].
    apply list_lookup_singleton_Some in Hd as [Hd <-]. split; [done|]. rewrite Hretry. lia.
Qed.

(** The row [SaveLastSentCertificate] writes. *)
Definition saved_row (s : Storage) (h : CertificateHeader) (c : StoredCertificate) : certificateInfo :=
  snd (handleCertificateFile s (mkCertificateInfo h (sc_SignedCertificate c) (sc_AggchainProof c) (sc_ExtraData c))).

(** Saving the next attempt of a height. *)
Lemma SaveLastSentCertificate_run s A cert hdr :
  attempts_rel s A -> st_retainPolicy s = NewStorageRetainCertificatesPolicyDefault ->
  sc_Header cert = Some hdr -> ch_RetryCount hdr = Z.of_nat (length (A (ch_Height hdr))) ->
  exists s', SaveLastSentCertificate s cert = (s', Ok tt) /\
    attempts_rel s' (add_attempt A (saved_row s hdr cert)) /\
    cert_info s' !! ch_Height hdr = Some (saved_row s hdr cert).
Proof.
  intros HR Hpol Hhdr Hretry. unfold SaveLastSentCertificate, convertCertificateToCertificateInfo, saved_row.
  rewrite Hhdr. set (info := mkCertificateInfo hdr _ _ _).
  destruct (handleCertificateFile s info) as [s1 c1] eqn:Hf.
  destruct (handleCertificateFile_facts _ _ _ _ Hf) as (Ht & Hp & Hh1 & _).
  cbn [snd]. rewrite Hp, Hpol.
  assert (ci_Height c1 = ch_Height hdr) as Hheight by (unfold ci_Height; by rewrite Hh1).
  assert (ci_RetryCount c1 = ch_RetryCount hdr) as Hrc by (unfold ci_RetryCount; by rewrite Hh1).
  assert (cert_info s1 = cert_info s) as Hci by (unfold cert_info; by rewrite Ht).
  assert (cert_history s1 = cert_history s) as Hch by (unfold cert_history; by rewrite Ht).
  pose proof (ar_info _ _ HR (ch_Height hdr)) as Hrow.
  assert (exists s2, OnNewCert NewStorageRetainCertificatesPolicyDefault s1 (ci_Height c1) (ci_RetryCount c1)
      = (s2, Ok tt) /\ cert_info s2 = delete (ci_Height c1) (cert_info s) /\
      cert_history s2 = match last (A (ci_Height c1)) with
        | Some c0 => <[(ci_Height c1, ci_RetryCount c0) := c0]> (cert_history s)
        | None => cert_history s end) as (s2 & Hon & Hi2 & Hh2).
  { unfold OnNewCert. simpl rp_KeepCertificatesHistory. rewrite Hheight, Hrc, Hretry.
    destruct (A (ch_Height hdr)) as [|c0 l _] eqn:EA using rev_ind.
    - simpl. exists s1. split; [done|]. rewrite Hci, Hch. split; [|done].
      symmetry. apply delete_id. by rewrite Hrow.
    - rewrite length_app, last_snoc. simpl length. rewrite (proj2 (Z.ltb_lt _ _)) by lia.
      rewrite last_snoc in Hrow.
      destruct (ar_rows _ _ HR (ch_Height hdr) (length l) c0) as [_ Hr0].
      { rewrite EA. by apply list_lookup_middle. }
      destruct (MoveCertificateToHistory_found s1 (ch_Height hdr) c0) as (s2 & Hm & Hi & Hh & _).
      + by rewrite Hci.
      + rewrite Hch, (ar_history _ _ HR), EA, removelast_last, Hr0, (proj2 (Z.leb_le _ _)), Nat2Z.id by lia.
        by apply lookup_ge_None_2.
      + exists s2. split; [done|]. by rewrite Hi, Hh, Hci, Hch. }
  rewrite Hon. unfold insert_info. rewrite Hi2, lookup_delete_eq. eexists. split; [reflexivity|].
  split; [|simpl; rewrite <- Hheight; apply lookup_insert_eq].
  apply (attempts_rel_add s); [done | by rewrite Hrc, Hheight | | exact Hh2].
  unfold cert_info at 1. cbn. apply insert_delete_eq.
Qed.

(** C22. With the default policy the two tables implement the log of attempts: saving the first
    certificate of a height, or the next retry of one, succeeds and appends it; the certificate
    table then holds the last attempt of every height, the history table all earlier ones. *)
Theorem SaveLastSentCertificate_appends s A cert hdr :
  attempts_rel s A -> st_retainPolicy s = NewStorageRetainCertificatesPolicyDefault ->
  sc_Header cert = Some hdr -> ch_RetryCount hdr = Z.of_nat (length (A (ch_Height hdr))) ->
  exists s', SaveLastSentCertificate s cert = (s', Ok tt) /\
    attempts_rel s' (add_attempt A (saved_row s hdr cert)) /\
    cert_info s' !! ch_Height hdr = Some (saved_row s hdr cert).
Proof. apply SaveLastSentCertificate_run. Qed.

(** ** What is lost and what is kept *)

(** Keeping the history of retries does not keep the certificates: when a retry is saved, the
    row moved to the history still names its file, but the file is deleted, so reading that row
    back gives the file reference in place of the signed certificate. *)
Theorem retry_deletes_history_file s A cert hdr old path :
  attempts_rel s A -> st_retainPolicy s = NewStorageRetainCertificatesPolicyDefault ->
  sc_Header cert = Some hdr -> ch_RetryCount hdr = Z.of_nat (length (A (ch_Height hdr))) ->
  last (A (ch_Height hdr)) = Some old -> SignedCertificateFilename old = Some path ->
  exists s', SaveLastSentCertificate s cert = (s', Ok tt) /\
    cert_history s' !! (ch_Height hdr, ci_RetryCount old) = Some old /\
    SignedCertificateData s' old = Some (SignedFile path).
Proof.
  intros HR Hpol Hhdr Hretry Hlast Hpath.
  unfold SaveLastSentCertificate, convertCertificateToCertificateInfo. rewrite Hhdr.
  set (info := mkCertificateInfo hdr _ _ _).
  destruct (handleCertificateFile s info) as [s1 c1] eqn:Hf.
  destruct (handleCertificateFile_facts _ _ _ _ Hf) as (Ht & Hp & Hh1 & _). rewrite Hp, Hpol.
  assert (ci_Height c1 = ch_Height hdr) as Hheight by (unfold ci_Height; by rewrite Hh1).
  assert (ci_RetryCount c1 = ch_RetryCount hdr) as Hrc by (unfold ci_RetryCount; by rewrite Hh1).
  assert (cert_info s1 = cert_info s) as Hci by (unfold cert_info; by rewrite Ht).
  assert (cert_history s1 = cert_history s) as Hch by (unfold cert_history; by rewrite Ht).
  destruct (A (ch_Height hdr)) as [|c0 l _] eqn:EA using rev_ind; [done|].
  rewrite last_snoc in Hlast. injection Hlast as ->. rewrite length_app in Hretry. simpl in Hretry.
  destruct (ar_rows _ _ HR (ch_Height hdr) (length l) old) as [_ Hr0]. { rewrite EA. by apply list_lookup_middle. }
  destruct (MoveCertificateToHistory_found s1 (ch_Height hdr) old) as (s2 & Hm & Hi & Hh & Hfiles & _).
  { by rewrite Hci, (ar_info _ _ HR), EA, last_snoc. }
  { rewrite Hch, (ar_history _ _ HR), EA, removelast_last, Hr0, (proj2 (Z.leb_le _ _)), Nat2Z.id by lia.
    by apply lookup_ge_None_2. }
  unfold OnNewCert. simpl rp_KeepCertificatesHistory. rewrite Hheight, Hrc, Hretry, (proj2 (Z.ltb_lt _ _)), Hm by lia.
  unfold insert_info. rewrite Hheight, Hi, lookup_delete_eq. eexists. split; [reflexivity|]. split.
  - change (cert_history s2 !! (ch_Height hdr, ci_RetryCount old) = Some old). by rewrite Hh, lookup_insert_eq.
  - unfold SignedCertificateFilename in Hpath. unfold SignedCertificateData.
    destruct (ci_SignedCertificate old) as [[|q]|] eqn:Eo; try done. injection Hpath as ->.
    cbn [set_info set_tables st_files]. rewrite Hfiles. unfold deleteCertificateFile, SignedCertificateFilename.
    rewrite Eo. cbn [set_files st_files]. by rewrite lookup_delete_eq.
Qed.

Lemma DeleteOldCertificates_spec s m :
  existsb unsigned (getCertificatesHeightOlderThanHeight s m) = false ->
  exists s', DeleteOldCertificates s m = (s', Ok tt) /\
    cert_info s' = filter (fun kv => ~ fst kv < m) (cert_info s) /\
    cert_history s' = filter (fun kv => ~ fst (fst kv) < m) (cert_history s).
Proof.
  intros E. unfold DeleteOldCertificates. rewrite E. eexists. split; [done|].
  destruct (deleteCertificateFiles_tables (getCertificatesHeightOlderThanHeight s m) s) as [Ht _]. split.
  - unfold cert_info. cbn. by rewrite Ht.
  - unfold cert_history. cbn. by rewrite Ht.
Qed.

Lemma older_tables s s1 m : st_tables s1 = st_tables s -> getCertificatesHeightOlderThanHeight s1 m = getCertificatesHeightOlderThanHeight s m.
Proof. intros E. unfold getCertificatesHeightOlderThanHeight, cert_info, cert_history. by rewrite E. Qed.

(** C40. Retention with a count of [N]: the first certificate of a height [H >= N] leaves rows of
    heights [H-N] to [H] and nothing below, and every row between survives; so when the heights are
    consecutive [N+1] certificates remain, one more than the configured "last N".  Only when a row
    below holds no certificate, which the aggsender never stores, the save fails and the tables stay. *)
Theorem retention_keeps_one_more s cert hdr N :
  rp_RetainCertificatesCount (st_retainPolicy s) = N -> 0 < N <= ch_Height hdr ->
  is_u64 (ch_Height hdr) -> sc_Header cert = Some hdr -> ch_RetryCount hdr = 0 ->
  cert_info s !! ch_Height hdr = None ->
  if existsb unsigned (getCertificatesHeightOlderThanHeight s (ch_Height hdr - N))
  then exists s', SaveLastSentCertificate s cert = (s', Err ErrScanNull) /\ st_tables s' = st_tables s
  else exists s', SaveLastSentCertificate s cert = (s', Ok tt) /\
    (forall h, is_Some (cert_info s' !! h) <->
       h = ch_Height hdr \/ (ch_Height hdr - N <= h /\ is_Some (cert_info s !! h))) /\
    (forall h r, is_Some (cert_history s' !! (h, r)) <->
       ch_Height hdr - N <= h /\ is_Some (cert_history s !! (h, r))).
Proof.
  intros HN Hle Hu Hhdr Hretry Hfree.
  unfold SaveLastSentCertificate, convertCertificateToCertificateInfo. rewrite Hhdr.
  set (info := mkCertificateInfo hdr _ _ _).
  destruct (handleCertificateFile s info) as [s1 c1] eqn:Hf.
  destruct (handleCertificateFile_facts _ _ _ _ Hf) as (Ht & Hp & Hh1 & _).
  assert (ci_Height c1 = ch_Height hdr) as Hheight by (unfold ci_Height; by rewrite Hh1).
  assert (ci_RetryCount c1 = 0) as Hrc by (unfold ci_RetryCount; by rewrite Hh1).
  unfold OnNewCert. rewrite Hp, HN, Hrc, Hheight. cbn [Z.ltb Z.compare].
  rewrite (proj2 (Z.eqb_neq _ _)), (proj2 (Z.ltb_ge _ _)) by (unfold KeepAllCertificates; lia).
  rewrite sub64_small by (unfold is_u64 in *; lia). rewrite <- (older_tables s s1 _ Ht).
  destruct (existsb unsigned (getCertificatesHeightOlderThanHeight s1 (ch_Height hdr - N))) eqn:Eu.
  { unfold DeleteOldCertificates. rewrite Eu. eexists. split; [reflexivity | done]. }
  destruct (DeleteOldCertificates_spec s1 (ch_Height hdr - N) Eu) as (s2 & -> & Hi & Hh).
  assert (cert_info s1 = cert_info s) as Hci by (unfold cert_info; by rewrite Ht).
  assert (cert_history s1 = cert_history s) as Hch by (unfold cert_history; by rewrite Ht).
  rewrite Hci in Hi. rewrite Hch in Hh.
  unfold insert_info. rewrite Hheight.
  assert (cert_info s2 !! ch_Height hdr = None) as Hnone.
  { rewrite Hi. apply map_lookup_filter_None. by left. }
  rewrite Hnone. eexists. split; [reflexivity|]. split.
  - intros h. change (is_Some (<[ch_Height hdr := c1]> (cert_info s2) !! h) <->
      h = ch_Height hdr \/ (ch_Height hdr - N <= h /\ is_Some (cert_info s !! h))).
    rewrite lookup_insert_is_Some, Hi. unfold is_Some. setoid_rewrite map_lookup_filter_Some. simpl.
    split; [intros [->|(? & x & ? & ?)]; [by left | right; split; [lia | by exists x]] |].
    intros [->|[? [x ?]]]; [by left|]. destruct (decide (ch_Height hdr = h)); [by left|].
    right. split; [done|]. exists x. split; [done | lia].
  - intros h r. change (is_Some (cert_history s2 !! (h, r)) <->
      ch_Height hdr - N <= h /\ is_Some (cert_history s !! (h, r))).
    rewrite Hh. unfold is_Some. setoid_rewrite map_lookup_filter_Some. simpl.
    split; [intros (x & ? & ?); split; [lia | by exists x] | intros (? & x & ?); exists x; split; [done | lia]].
Qed.

(** [SaveOrUpdateCertificate] identifies the stored certificate by height when it looks it up
    and by identifier when it updates it: with another certificate stored at that height it reports
    success and leaves the tables as they were, so the certificate is not saved. *)
Theorem SaveOrUpdate_other_certificate_ignored s cert hdr old :
  sc_Header cert = Some hdr -> cert_info s !! ch_Height hdr = Some old ->
  map_Forall (fun _ c => ci_CertificateID c <> ch_CertificateID hdr) (cert_info s) ->
  exists s', SaveOrUpdateCertificate s cert = (s', Ok tt) /\ st_tables s' = st_tables s.
Proof.
  intros Hhdr Hold Hids. unfold SaveOrUpdateCertificate, convertCertificateToCertificateInfo. rewrite Hhdr.
  set (info := mkCertificateInfo hdr _ _ _).
  destruct (handleCertificateFile s info) as [s1 c1] eqn:Hf.
  destruct (handleCertificateFile_facts _ _ _ _ Hf) as (Ht & _ & Hh1 & _).
  assert (cert_info s1 = cert_info s) as Hci by (unfold cert_info; by rewrite Ht).
  unfold ci_Height at 1. rewrite Hci, Hh1. cbn [ci_Header info]. rewrite Hold.
  eexists. split; [reflexivity|]. unfold set_info, set_tables. cbn [st_tables].
  assert (forall st up, updateCertStatus (cert_info s) (ci_CertificateID c1) st up = cert_info s) as Hu.
  { intros st up. apply map_eq. intros h. unfold updateCertStatus. rewrite lookup_fmap.
    destruct (cert_info s !! h) as [c|] eqn:E; simpl; [|done].
    pose proof (Hids h c E) as Hid. cbn beta in Hid.
    unfold ci_CertificateID at 2. rewrite Hh1. cbn [ci_Header info].
    by rewrite (proj2 (Z.eqb_neq _ _)). }
  rewrite Hu, Ht. unfold cert_info. by destruct (st_tables s).
Qed.

(** The last rejected certificate is read back as it was saved. *)
Theorem NonAccepted_roundtrip `{Keccak} path_text s c :
  let '(s', r) := SaveNonAcceptedCertificate path_text s (Some c) in
  r = Ok tt /\ cert_info s' = cert_info s /\ cert_history s' = cert_history s /\
  exists c', GetNonAcceptedCertificate path_text s' = Ok (Some c') /\
    na_SignedCertificate c' = na_SignedCertificate c /\ na_Height c' = na_Height c /\
    na_CreatedAt c' = na_CreatedAt c /\ na_Error c' = na_Error c.
Proof.
  simpl. split_and!; [done..|]. unfold GetNonAcceptedCertificate. cbn.
  rewrite lookup_insert_eq, Z.eqb_refl. cbn. by eexists.
Qed.

(** ** Examples *)

Definition example_header (height retry id : Z) (st : CertificateStatus) : CertificateHeader :=
  mkCertificateHeader height retry id None 7 1 9 st 100 100 None 3 CertificateTypePP CertificateSourceLocal.

Definition example_stored (height retry id : Z) : StoredCertificate :=
  mkStoredCertificate (Some (example_header height retry id Pending)) (Some (SignedContent [123; 125])) None [].

Definition empty_storage (p : RetainPolicy) : Storage := mkStorage (mkTables ∅ ∅ None) ∅ p.

Lemma attempts_rel_empty p : attempts_rel (empty_storage p) (fun _ => []).
Proof.
  split; [done | | done]. intros h r. unfold cert_history. simpl. rewrite lookup_empty. by destruct (0 <=? r).
Qed.

(** One certificate of height 4, saved. *)
Definition example_storage (p : RetainPolicy) : Storage :=
  fst (SaveLastSentCertificate (empty_storage p) (example_stored 4 0 50)).

Definition example_row : certificateInfo :=
  saved_row (empty_storage NewStorageRetainCertificatesPolicyDefault) (example_header 4 0 50 Pending) (example_stored 4 0 50).

Definition example_attempts : Z -> list certificateInfo := add_attempt (fun _ => []) example_row.

Lemma example_rel : attempts_rel (example_storage NewStorageRetainCertificatesPolicyDefault) example_attempts.
Proof.
  apply (attempts_rel_add (empty_storage NewStorageRetainCertificatesPolicyDefault)); [apply attempts_rel_empty | done..].
Qed.

Lemma SaveLastSentCertificate_appends_witness :
  exists s', SaveLastSentCertificate (example_storage NewStorageRetainCertificatesPolicyDefault) (example_stored 4 1 51)
      = (s', Ok tt) /\
    attempts_rel s' (add_attempt example_attempts
      (saved_row (example_storage NewStorageRetainCertificatesPolicyDefault) (example_header 4 1 51 Pending) (example_stored 4 1 51))) /\
    cert_info s' !! 4 = Some
      (saved_row (example_storage NewStorageRetainCertificatesPolicyDefault) (example_header 4 1 51 Pending) (example_stored 4 1 51)).
Proof.
  refine (SaveLastSentCertificate_appends (example_storage NewStorageRetainCertificatesPolicyDefault) example_attempts
    (example_stored 4 1 51) (example_header 4 1 51 Pending) example_rel _ _ _); reflexivity.
Defined.

Lemma retry_deletes_history_file_witness :
  exists s', SaveLastSentCertificate (example_storage NewStorageRetainCertificatesPolicyDefault) (example_stored 4 1 51)
      = (s', Ok tt) /\
    cert_history s' !! (4, 0) = Some example_row /\
    SignedCertificateData s' example_row = Some (SignedFile (SignedCertPath 4 50 0)).
Proof.
  refine (retry_deletes_history_file (example_storage NewStorageRetainCertificatesPolicyDefault) example_attempts
    (example_stored 4 1 51) (example_header 4 1 51 Pending) example_row (SignedCertPath 4 50 0) example_rel _ _ _ _ _);
    reflexivity.
Defined.

Lemma retention_keeps_one_more_witness :
  exists s', SaveLastSentCertificate (example_storage (mkRetainPolicy 1 true)) (example_stored 5 0 52) = (s', Ok tt) /\
    (forall h, is_Some (cert_info s' !! h) <->
       h = 5 \/ (4 <= h /\ is_Some (cert_info (example_storage (mkRetainPolicy 1 true)) !! h))) /\
    (forall h r, is_Some (cert_history s' !! (h, r)) <->
       4 <= h /\ is_Some (cert_history (example_storage (mkRetainPolicy 1 true)) !! (h, r))).
Proof.
  refine (retention_keeps_one_more (example_storage (mkRetainPolicy 1 true)) (example_stored 5 0 52)
    (example_header 5 0 52 Pending) 1 _ _ _ _ _ _); try reflexivity; split; vm_compute; congruence.
Defined.

Lemma SaveOrUpdate_other_certificate_ignored_witness :
  exists s', SaveOrUpdateCertificate (example_storage NewStorageRetainCertificatesPolicyDefault) (example_stored 4 0 99)
      = (s', Ok tt) /\ st_tables s' = st_tables (example_storage NewStorageRetainCertificatesPolicyDefault).
Proof.
  refine (SaveOrUpdate_other_certificate_ignored (example_storage NewStorageRetainCertificatesPolicyDefault)
    (example_stored 4 0 99) (example_header 4 0 99 Pending) example_row _ _ _); [reflexivity | reflexivity|].
  intros h c Hc. change (cert_info (example_storage NewStorageRetainCertificatesPolicyDefault))
    with (<[4 := example_row]> (∅ : gmap Z certificateInfo)) in Hc.
  apply lookup_insert_Some in Hc as [[<- <-]|[_ Hc]]; [discriminate | by rewrite lookup_empty in Hc].
Defined.
