(* ===== verification/StatusChecker.v ===== *)
(** The certificate status checker of the aggsender ([aggsender/statuschecker]): following pending
    certificates, and reconciling the local storage with the agglayer at start-up.

    The agglayer client is a service, and the certificate querier is used through its interface:
    both are parameters.  The checker mutates the header it holds together with the storage, so
    [updateCertificateStatus] returns both.  Metrics and logs are left out. *)

From S2P Require Import Prelude Bytes AgglayerTypes CertStorage.

(** ** Data *)

(** The fields of the agglayer's [CertificateHeader] the checker reads. *)
Record AgglayerHeader := mkAgglayerHeader {
  ah_Height : Z;
  ah_CertificateID : Z;
  ah_PreviousLocalExitRoot : option Z;
  ah_NewLocalExitRoot : Z;
  ah_Status : CertificateStatus
}.

Record CertStatus := mkCertStatus { ExistPendingCerts : bool; ExistNewInErrorCert : bool }.

Record initialStatus := mkInitialStatus {
  is_AgglayerLastSettledCert : option AgglayerHeader;
  is_AgglayerLastPendingCert : option AgglayerHeader;
  is_LocalLastCert : option CertificateHeader;
  is_LocalLastSettledCert : option CertificateHeader
}.

Inductive initialStatusResult :=
| InitialStatusActionNone
| InitialStatusActionUpdateCurrentCert (cert : AgglayerHeader)
| InitialStatusActionInsertNewCert (cert : AgglayerHeader).

Inductive checkerError :=
| ErrAgglayerInconsistence
| ErrSuspiciousHeight
| ErrManualDBWipe
| ErrWaitForSettlement
| ErrAgglayerClient
| ErrQuerier
| ErrNilCertificate
| ErrStorage (e : storageError).

(** The agglayer client and the certificate querier. *)
Class AgglayerClient := {
  GetCertificateHeader : Z -> result checkerError AgglayerHeader;
  GetLatestSettledCertificateHeader : result checkerError (option AgglayerHeader);
  GetLatestPendingCertificateHeader : result checkerError (option AgglayerHeader)
}.

Class CertificateQuerier := {
  GetLastSettledCertificateToBlock : option AgglayerHeader -> result checkerError Z;
  GetNewCertificateToBlock : Certificate -> result checkerError Z;
  CalculateCertificateType : Certificate -> Z -> CertificateType;
  CalculateCertificateTypeFromToBlock : Z -> CertificateType
}.

(** ** Initial status ([initial_state.go]) *)

Definition checkAgglayerConsistenceCerts (i : initialStatus) : result checkerError unit :=
  match is_AgglayerLastPendingCert i with
  | None => Ok tt
  | Some pending =>
      match is_AgglayerLastSettledCert i with
      | None =>
          if negb (IsInError (ah_Status pending)) && negb (ah_Height pending =? 0)
          then Err ErrAgglayerInconsistence else Ok tt
      | Some settled =>
          if (ah_Height pending =? ah_Height settled) && negb (IsInError (ah_Status settled))
          then Err ErrAgglayerInconsistence
          else if (ah_Height pending <? ah_Height settled) && negb (IsInError (ah_Status settled))
          then Err ErrAgglayerInconsistence
          else Ok tt
      end
  end.

Definition getLatestAggLayerCert (i : initialStatus) : option AgglayerHeader :=
  match is_AgglayerLastPendingCert i with
  | None => is_AgglayerLastSettledCert i
  | Some c => Some c
  end.

(** CASES 1 to 5 of [processLastLocalCert]. *)
Definition processLastLocalCert_cases (i : initialStatus) : result checkerError initialStatusResult :=
  match is_LocalLastCert i, getLatestAggLayerCert i with
  | None, None => Ok InitialStatusActionNone
  | None, Some c => Ok (InitialStatusActionInsertNewCert c)
  | Some _, None => Err ErrManualDBWipe
  | Some l, Some c =>
      if ah_Height c <? ch_Height l then Err ErrManualDBWipe
      else if ah_Height c =? (ch_Height l +u64 1) then Ok (InitialStatusActionInsertNewCert c)
      else if negb (ch_CertificateID l =? ah_CertificateID c) then Err ErrManualDBWipe
      else Ok (InitialStatusActionUpdateCurrentCert c)
  end.

Definition processLastLocalCert (i : initialStatus) : result checkerError initialStatusResult :=
  match is_LocalLastCert i, is_AgglayerLastSettledCert i, is_AgglayerLastPendingCert i with
  | None, None, Some pending =>
      if ah_Height pending =? 0 then Ok (InitialStatusActionInsertNewCert pending)
      else if negb (IsInError (ah_Status pending)) && (0 <? ah_Height pending) then Err ErrSuspiciousHeight
      else if IsInError (ah_Status pending) && (0 <? ah_Height pending) then Ok InitialStatusActionNone
      else processLastLocalCert_cases i
  | _, _, _ => processLastLocalCert_cases i
  end.

Definition processLastSettledCert (i : initialStatus) : result checkerError (option initialStatusResult) :=
  match is_AgglayerLastPendingCert i with
  | None => Ok None
  | Some _ =>
      match is_AgglayerLastSettledCert i, is_LocalLastSettledCert i with
      | None, Some _ => Err ErrManualDBWipe
      | None, None => Ok (Some InitialStatusActionNone)
      | Some settled, None => Ok (Some (InitialStatusActionInsertNewCert settled))
      | Some settled, Some localSettled =>
          if ah_Height settled <? ch_Height localSettled then Err ErrManualDBWipe
          else if ch_Height localSettled =? ah_Height settled then
            if negb (ch_CertificateID localSettled =? ah_CertificateID settled) then Err ErrManualDBWipe
            else Ok (Some InitialStatusActionNone)
          else Ok (Some (InitialStatusActionInsertNewCert settled))
      end
  end.

Definition process (i : initialStatus) : result checkerError (list initialStatusResult) :=
  let? _ := checkAgglayerConsistenceCerts i in
  let? pendingCertAction := processLastLocalCert i in
  let? settledCertAction := processLastSettledCert i in
  Ok (pendingCertAction :: match settledCertAction with Some a => [a] | None => [] end).

(** ** The checker ([cert_status_checker.go]) *)

Definition naAgglayerHeader : SignedCert :=
  SignedContent [110; 97; 47; 97; 103; 103; 108; 97; 121; 101; 114; 32; 104; 101; 97; 100; 101; 114].

Definition setHeaderStatus (c : CertificateHeader) (st : CertificateStatus) (updatedAt : Z) : CertificateHeader :=
  ci_Header (setStatus (mkCertificateInfo c None None []) st updatedAt).

Section Checker.
Context `{AgglayerClient} `{CertificateQuerier} (now : Z).

Definition updateCertificateStatus (s : Storage) (localCert : CertificateHeader) (agglayerCert : AgglayerHeader)
  : Storage * CertificateHeader :=
  if bool_decide (ch_Status localCert = ah_Status agglayerCert) then (s, localCert)
  else
    let localCert := setHeaderStatus localCert (ah_Status agglayerCert) now in
    (UpdateCertificateStatus s (ch_CertificateID localCert) (ch_Status localCert) (ch_UpdatedAt localCert), localCert).

(** The loop over the pending certificates; [Err] is the early return. *)
Fixpoint checkPending_loop (s : Storage) (certs : list CertificateHeader) (pending newInError : bool)
  : Storage * result checkerError (bool * bool) :=
  match certs with
  | [] => (s, Ok (pending, newInError))
  | c :: cs =>
      match GetCertificateHeader (ch_CertificateID c) with
      | Err e => (s, Err e)
      | Ok h =>
          let newInError := newInError || (negb (IsInError (ch_Status c)) && IsInError (ah_Status h)) in
          let '(s, c) := updateCertificateStatus s c h in
          checkPending_loop s cs (pending || negb (IsClosed (ch_Status c))) newInError
      end
  end.

Definition checkPendingCertificatesStatus (s : Storage) : Storage * CertStatus :=
  match checkPending_loop s (GetCertificateHeadersByStatus s NonSettledStatuses) false false with
  | (s, Err _) => (s, mkCertStatus true false)
  | (s, Ok (pending, newInError)) =>
      let newInError :=
        if negb pending && negb newInError
        then match GetCertificateHeadersByStatus s [InError] with [] => false | _ => true end
        else newInError in
      (s, mkCertStatus pending newInError)
  end.

Definition newSettledCertificateInfoFromAgglayerCertHeader (cert : AgglayerHeader)
  : result checkerError StoredCertificate :=
  let? toBlock := GetLastSettledCertificateToBlock (Some cert) in
  Ok (mkStoredCertificate
        (Some (mkCertificateHeader (ah_Height cert) 0 (ah_CertificateID cert) (ah_PreviousLocalExitRoot cert)
                 (ah_NewLocalExitRoot cert) 0 toBlock (ah_Status cert) 0 0 None 0
                 (CalculateCertificateTypeFromToBlock toBlock) CertificateSourceAggLayer))
        (Some naAgglayerHeader) None []).

Definition lift_storage (r : Storage * result storageError unit) : Storage * result checkerError unit :=
  match r with
  | (s, Ok u) => (s, Ok u)
  | (s, Err e) => (s, Err (ErrStorage e))
  end.

Definition updateLocalStorageWithSettledAggLayerCert (s : Storage) (cert : AgglayerHeader)
  : Storage * result checkerError unit :=
  match newSettledCertificateInfoFromAgglayerCertHeader cert with
  | Err e => (s, Err e)
  | Ok c => lift_storage (SaveOrUpdateCertificate s c)
  end.

(** Returns the header of the local certificate too, which the update mutates. *)
Definition executeInitialStatusAction (s : Storage) (action : initialStatusResult)
    (localCert : option CertificateHeader)
  : Storage * option CertificateHeader * result checkerError unit :=
  match action with
  | InitialStatusActionNone => (s, localCert, Ok tt)
  | InitialStatusActionUpdateCurrentCert cert =>
      match localCert with
      | None => (s, localCert, Err ErrNilCertificate)
      | Some l => let '(s, l) := updateCertificateStatus s l cert in (s, Some l, Ok tt)
      end
  | InitialStatusActionInsertNewCert cert =>
      if IsInError (ah_Status cert) then (s, localCert, Ok tt)
      else if IsOpen (ah_Status cert) then (s, localCert, Err ErrWaitForSettlement)
      else let '(s, r) := updateLocalStorageWithSettledAggLayerCert s cert in (s, localCert, r)
  end.

Fixpoint executeActions (s : Storage) (actions : list initialStatusResult) (localCert : option CertificateHeader)
  : Storage * result checkerError unit :=
  match actions with
  | [] => (s, Ok tt)
  | a :: as_ =>
      match executeInitialStatusAction s a localCert with
      | (s, _, Err e) => (s, Err e)
      | (s, localCert, Ok _) => executeActions s as_ localCert
      end
  end.

Definition newInitialStatus (s : Storage) : result checkerError initialStatus :=
  let? settled := GetLatestSettledCertificateHeader in
  let? pending := GetLatestPendingCertificateHeader in
  let? localLast := match GetLastSentCertificateHeader s with Ok c => Ok c | Err e => Err (ErrStorage e) end in
  let? localSettled :=
    match GetLastSettledCertificate s with
    | Ok c => Ok (Some c)
    | Err ErrStorageNotFound => Ok None
    | Err e => Err (ErrStorage e)
    end in
  Ok (mkInitialStatus settled pending localLast localSettled).

Definition checkLastCertificateFromAgglayer (s : Storage) : Storage * result checkerError unit :=
  match newInitialStatus s with
  | Err e => (s, Err e)
  | Ok i =>
      match process i with
      | Err e => (s, Err e)
      | Ok actions => executeActions s actions (is_LocalLastCert i)
      end
  end.

Definition CheckPeriodicallyStatus (s : Storage) : Storage * (CertStatus * result checkerError unit) :=
  let '(s, err) := checkLastCertificateFromAgglayer s in
  let '(s, st) := checkPendingCertificatesStatus s in
  (s, (st, err)).

(** One iteration of the retry loop of [CheckInitialStatus]; the loop stops at the first [Ok]. *)
Definition CheckInitialStatus_iteration (s : Storage) : Storage * result checkerError unit :=
  let '(s, _) := checkPendingCertificatesStatus s in
  checkLastCertificateFromAgglayer s.

End Checker.

(** ** Decisions *)

(** A start-up check that decides to go on never does so against the agglayer: if there is a
    local certificate, the latest certificate of the agglayer is that very certificate, or the one
    of the next height; an update of the local status is only decided in the first case. *)
Theorem process_agrees_with_agglayer i actions l :
  process i = Ok actions -> is_LocalLastCert i = Some l -> is_u64 (ch_Height l + 1) ->
  (length actions <= 2)%nat /\
  exists c, getLatestAggLayerCert i = Some c /\
    ((ah_Height c = ch_Height l + 1 /\ head actions = Some (InitialStatusActionInsertNewCert c)) \/
     (ah_CertificateID c = ch_CertificateID l /\ ch_Height l <= ah_Height c /\
      head actions = Some (InitialStatusActionUpdateCurrentCert c))).
Proof.
  intros Hp Hl Hu. unfold process in Hp. inv_ok Hp as u Hc. inv_ok Hp as a Ha. inv_ok Hp as sa Hs.
  injection Hp as <-. split; [destruct sa; simpl; lia|].
  unfold processLastLocalCert, processLastLocalCert_cases in Ha. rewrite Hl in Ha.
  destruct (getLatestAggLayerCert i) as [c|]; [|discriminate]. exists c. split; [done|].
  destruct (ah_Height c <? ch_Height l) eqn:E1; [discriminate|].
  rewrite add64_small in Ha by done.
  destruct (ah_Height c =? ch_Height l + 1) eqn:E2.
  { injection Ha as <-. bool_hyps. by left. }
  destruct (ch_CertificateID l =? ah_CertificateID c) eqn:E3; [|discriminate].
  injection Ha as <-. bool_hyps. right. simpl. auto.
Qed.

(** ** Rows after status updates *)

Section CheckerProofs.
Context `{AgglayerClient} `{CertificateQuerier} (now : Z).

(** Distinct rows have distinct identifiers, as hashes of their content. *)
Definition ids_unique (s : Storage) : Prop :=
  forall h1 h2 c1 c2, cert_info s !! h1 = Some c1 -> cert_info s !! h2 = Some c2 ->
  ci_CertificateID c1 = ci_CertificateID c2 -> h1 = h2.

Lemma updateCertStatus_lookup m id st t h :
  updateCertStatus m id st t !! h =
  (fun c => if ci_CertificateID c =? id then setStatus c st t else c) <$> m !! h.
Proof. unfold updateCertStatus. by rewrite lookup_fmap. Qed.

Lemma UpdateCertificateStatus_info s id st t :
  cert_info (UpdateCertificateStatus s id st t) = updateCertStatus (cert_info s) id st t.
Proof. done. Qed.

Lemma setStatus_id c st t : ci_CertificateID (setStatus c st t) = ci_CertificateID c.
Proof. done. Qed.

Lemma setStatus_status c st t : ci_Status (setStatus c st t) = st.
Proof. done. Qed.

(** Identifier and status of the row of a height. *)
Definition row_status (s : Storage) (h : Z) : option (Z * CertificateStatus) :=
  (fun c => (ci_CertificateID c, ci_Status c)) <$> cert_info s !! h.

(** Setting the status of the certificates with an identifier. *)
Definition set_if (id : Z) (st : CertificateStatus) (r : Z * CertificateStatus) : Z * CertificateStatus :=
  if fst r =? id then (fst r, st) else r.

Lemma updateCertificateStatus_rows s l a s' l' :
  (forall h r, row_status s h = Some r -> fst r = ch_CertificateID l -> snd r = ch_Status l) ->
  updateCertificateStatus now s l a = (s', l') ->
  ch_Status l' = ah_Status a /\
  forall h, row_status s' h = set_if (ch_CertificateID l) (ah_Status a) <$> row_status s h.
Proof.
  intros Hsame. unfold updateCertificateStatus. case_bool_decide as E; intros [= <- <-].
  - split; [done|]. intros h. specialize (Hsame h). destruct (row_status s h) as [[id st]|]; simpl; [|done].
    unfold set_if. simpl. destruct (Z.eqb_spec id (ch_CertificateID l)) as [->|]; [|done].
    specialize (Hsame _ eq_refl eq_refl). simpl in Hsame. congruence.
  - split; [done|]. intros h. unfold row_status. rewrite UpdateCertificateStatus_info, updateCertStatus_lookup.
    destruct (cert_info s !! h) as [c|]; simpl; [|done]. f_equal. unfold set_if. simpl.
    change (ch_CertificateID (setHeaderStatus l (ah_Status a) now)) with (ch_CertificateID l).
    by destruct (ci_CertificateID c =? ch_CertificateID l).
Qed.

(** ** Following pending certificates *)

Context (agg : Z -> AgglayerHeader).

(** The status of a row after the certificates [ids] were checked. *)
Definition checked (ids : list Z) (r : Z * CertificateStatus) : Z * CertificateStatus :=
  if bool_decide (fst r ∈ ids) then (fst r, ah_Status (agg (fst r))) else r.

Lemma checkPending_loop_spec certs s pending err :
  (forall c, In c certs -> GetCertificateHeader (ch_CertificateID c) = Ok (agg (ch_CertificateID c))) ->
  NoDup (map ch_CertificateID certs) ->
  (forall c h r, In c certs -> row_status s h = Some r -> fst r = ch_CertificateID c -> snd r = ch_Status c) ->
  exists s', checkPending_loop now s certs pending err =
    (s', Ok (pending || existsb (fun c => IsOpen (ah_Status (agg (ch_CertificateID c)))) certs,
             err || existsb (fun c => negb (IsInError (ch_Status c)) &&
                                      IsInError (ah_Status (agg (ch_CertificateID c)))) certs)) /\
    forall h, row_status s' h = checked (map ch_CertificateID certs) <$> row_status s h.
Proof.
  revert s pending err. induction certs as [|c certs IH]; intros s pending err Hget Hnd Hsame; simpl.
  { exists s. split; [by rewrite !orb_false_r|]. intros h. destruct (row_status s h) as [r|]; simpl; [|done].
    unfold checked. rewrite bool_decide_false; [done | apply not_elem_of_nil]. }
  rewrite (Hget c) by (by left). apply NoDup_cons in Hnd as [Hnin Hnd].
  destruct (updateCertificateStatus now s c (agg (ch_CertificateID c))) as [s1 c1] eqn:Hup.
  apply updateCertificateStatus_rows in Hup as [Hst Hrows]; [|intros h r Hr; apply (Hsame c h r); [by left | done]].
  destruct (IH s1 (pending || negb (IsClosed (ch_Status c1)))
              (err || (negb (IsInError (ch_Status c)) && IsInError (ah_Status (agg (ch_CertificateID c))))))
    as (s' & Hloop & Hrows').
  - intros d Hd. apply Hget. by right.
  - done.
  - intros d h r Hd Hr Hid. rewrite Hrows in Hr. apply fmap_Some in Hr as (r0 & Hr0 & ->).
    assert (ch_CertificateID d <> ch_CertificateID c) as Hne.
    { intros E. apply Hnin. rewrite <- E. apply list_elem_of_In. by apply in_map. }
    unfold set_if in *. destruct (Z.eqb_spec (fst r0) (ch_CertificateID c)) as [E|E]; simpl in Hid; [congruence|].
    eapply (Hsame d h r0); [by right | done | done].
  - exists s'. split.
    + rewrite Hloop. unfold IsClosed. rewrite negb_involutive, Hst, <- !orb_assoc. done.
    + intros h. rewrite Hrows', Hrows. destruct (row_status s h) as [[id st]|]; simpl; [|done]. f_equal.
      unfold set_if, checked. simpl. destruct (Z.eqb_spec id (ch_CertificateID c)) as [->|Hne]; simpl.
      * rewrite (bool_decide_true (_ ∈ _ :: _)) by set_solver. by destruct (bool_decide _).
      * destruct (bool_decide_reflect (id ∈ map ch_CertificateID certs)).
        -- by rewrite bool_decide_true by set_solver.
        -- by rewrite bool_decide_false by set_solver.
Qed.

Lemma insert_by_height_Permutation c l : insert_by_height c l ≡ₚ c :: l.
Proof.
  induction l as [|d l IH]; simpl; [done|]. destruct (_ <=? _); [done|]. rewrite IH. apply perm_swap.
Qed.

Lemma sort_by_height_Permutation l : fold_right insert_by_height [] l ≡ₚ l.
Proof. induction l as [|c l IH]; simpl; [done|]. by rewrite insert_by_height_Permutation, IH. Qed.

Lemma GetCertificateHeadersByStatus_In s sts hdr :
  sts <> [] ->
  In hdr (GetCertificateHeadersByStatus s sts) <->
  exists h c, cert_info s !! h = Some c /\ ci_Header c = hdr /\ ci_Status c ∈ sts.
Proof.
  intros Hne. unfold GetCertificateHeadersByStatus. rewrite in_map_iff.
  destruct sts as [|st0 sts0] eqn:Ests; [done|]. rewrite <- Ests. clear Hne.
  setoid_rewrite sort_by_height_Permutation. setoid_rewrite bfilter_In. setoid_rewrite in_map_iff.
  setoid_rewrite bool_decide_eq_true. split.
  - intros (c & <- & ([h c'] & <- & Hin) & Hst). exists h, c'. split; [|done].
    apply elem_of_map_to_list, list_elem_of_In. exact Hin.
  - intros (h & c & Hc & <- & Hst). exists c. split; [done|]. split; [|done].
    exists (h, c). split; [done|]. apply list_elem_of_In. by apply elem_of_map_to_list.
Qed.

Lemma GetCertificateHeadersByStatus_NoDup s sts :
  ids_unique s -> NoDup (map ch_CertificateID (GetCertificateHeadersByStatus s sts)).
Proof.
  intros Hu. unfold GetCertificateHeadersByStatus. rewrite map_map.
  rewrite sort_by_height_Permutation. apply map_bfilter_NoDup. rewrite map_map.
  apply (NoDup_fmap_2_strong (fun kv => ch_CertificateID (ci_Header (snd kv)))); [|apply NoDup_map_to_list].
  intros [h1 c1] [h2 c2] H1 H2 E. apply elem_of_map_to_list in H1, H2. simpl in E.
  assert (h1 = h2) as -> by (by eapply Hu). congruence.
Qed.

Lemma IsOpen_In st : IsOpen st = true <-> st ∈ NonSettledStatuses.
Proof. unfold IsOpen. by rewrite bool_decide_eq_true. Qed.

(** The status of a row after a check that reached the agglayer. *)
Definition followed (r : Z * CertificateStatus) : Z * CertificateStatus :=
  (fst r, if IsOpen (snd r) then ah_Status (agg (fst r)) else snd r).

(** The loop over all pending rows, read on the table. *)
Lemma checkPending_rows s s0 :
  ids_unique s ->
  (forall h, row_status s0 h =
     checked (map ch_CertificateID (GetCertificateHeadersByStatus s NonSettledStatuses)) <$> row_status s h) ->
  forall h, row_status s0 h = followed <$> row_status s h.
Proof.
  intros Hu Hrows h. rewrite Hrows. unfold row_status. destruct (cert_info s !! h) as [c|] eqn:Hc; simpl; [|done].
  f_equal. unfold checked, followed. simpl.
  assert (ci_CertificateID c ∈ map ch_CertificateID (GetCertificateHeadersByStatus s NonSettledStatuses)
          <-> IsOpen (ci_Status c) = true) as Hiff.
  { rewrite list_elem_of_In, in_map_iff, IsOpen_In. split.
    - intros (hdr & Hid & Hin). apply GetCertificateHeadersByStatus_In in Hin as (h' & c' & Hc' & <- & Hst); [|done].
      assert (h = h') as <- by (by eapply Hu). congruence.
    - intros Hst. exists (ci_Header c). split; [done|]. apply GetCertificateHeadersByStatus_In; [done|]. by exists h, c. }
  destruct (bool_decide_reflect (ci_CertificateID c ∈ map ch_CertificateID (GetCertificateHeadersByStatus s NonSettledStatuses))) as [Hin|Hin].
  - by rewrite (proj1 Hiff Hin).
  - destruct (IsOpen (ci_Status c)); [|done]. by destruct Hin; apply Hiff.
Qed.

Lemma pending_In s hdr :
  In hdr (GetCertificateHeadersByStatus s NonSettledStatuses) <->
  exists h c, cert_info s !! h = Some c /\ ci_Header c = hdr /\ IsOpen (ci_Status c) = true.
Proof. setoid_rewrite IsOpen_In. by apply GetCertificateHeadersByStatus_In. Qed.

Lemma still_pending_rows s s' :
  (forall h, row_status s' h = followed <$> row_status s h) ->
  existsb (fun c => IsOpen (ah_Status (agg (ch_CertificateID c)))) (GetCertificateHeadersByStatus s NonSettledStatuses)
    = true <->
  exists h r, row_status s' h = Some r /\ IsOpen (snd r) = true.
Proof.
  intros Hrows. rewrite existsb_exists. setoid_rewrite pending_In. setoid_rewrite Hrows. unfold row_status. split.
  - intros (hdr & (h & c & Hc & <- & Hst) & Ho). exists h. eexists. rewrite Hc. split; [done|].
    unfold followed. simpl. by rewrite Hst.
  - intros (h & r & Hr & Ho). destruct (cert_info s !! h) as [c|] eqn:Hc; simpl in Hr; [|done].
    injection Hr as <-. unfold followed in Ho. simpl in Ho. destruct (IsOpen (ci_Status c)) eqn:E; [|congruence].
    exists (ci_Header c). split; [by exists h, c | done].
Qed.

Lemma new_error_rows s :
  existsb (fun c => negb (IsInError (ch_Status c)) && IsInError (ah_Status (agg (ch_CertificateID c))))
    (GetCertificateHeadersByStatus s NonSettledStatuses) = true <->
  exists h r, row_status s h = Some r /\ IsOpen (snd r) = true /\ ah_Status (agg (fst r)) = InError.
Proof.
  rewrite existsb_exists. setoid_rewrite pending_In. unfold row_status, IsInError. split.
  - intros (hdr & (h & c & Hc & <- & Hst) & He). apply andb_true_iff in He as [_ He].
    apply bool_decide_eq_true in He. exists h. eexists. rewrite Hc. split; [done|]. done.
  - intros (h & r & Hr & Ho & He). destruct (cert_info s !! h) as [c|] eqn:Hc; simpl in Hr; [|done].
    injection Hr as <-. simpl in *. exists (ci_Header c). split; [by exists h, c|].
    apply andb_true_iff. split; [|by apply bool_decide_eq_true].
    apply negb_true_iff, bool_decide_eq_false. intros E. unfold ci_Status in Ho. by rewrite E in Ho.
Qed.

Lemma InError_rows s :
  (match GetCertificateHeadersByStatus s [InError] with [] => false | _ => true end) = true <->
  exists h r, row_status s h = Some r /\ snd r = InError.
Proof.
  pose proof (GetCertificateHeadersByStatus_In s [InError]) as Hin. unfold row_status. split.
  - destruct (GetCertificateHeadersByStatus s [InError]) as [|x l] eqn:E; [done|]. intros _.
    destruct (proj1 (Hin x ltac:(done)) (or_introl eq_refl)) as (h & c & Hc & _ & Hst).
    apply list_elem_of_singleton in Hst. exists h. eexists. rewrite Hc. split; [done|]. done.
  - intros (h & r & Hr & Hst). apply fmap_Some in Hr as (c & Hc & ->). simpl in Hst.
    assert (In (ci_Header c) (GetCertificateHeadersByStatus s [InError])) as Hmem.
    { apply Hin; [done|]. exists h, c. split_and!; [done..|]. by apply list_elem_of_singleton. }
    by destruct (GetCertificateHeadersByStatus s [InError]).
Qed.

(** When the agglayer answers for every pending certificate, the check copies the agglayer's
    status of exactly the pending certificates into the storage, reports pending certificates iff
    some stored certificate is still open afterwards, and reports an error to retry iff a pending
    certificate became erroneous or, with nothing pending, an erroneous one is stored. *)
Theorem checkPending_follows_agglayer s :
  ids_unique s ->
  (forall h c, cert_info s !! h = Some c -> IsOpen (ci_Status c) = true ->
     GetCertificateHeader (ci_CertificateID c) = Ok (agg (ci_CertificateID c))) ->
  exists s' st, checkPendingCertificatesStatus now s = (s', st) /\
    (forall h, row_status s' h = followed <$> row_status s h) /\
    (ExistPendingCerts st = true <-> exists h r, row_status s' h = Some r /\ IsOpen (snd r) = true) /\
    (ExistNewInErrorCert st = true <->
       (exists h r, row_status s h = Some r /\ IsOpen (snd r) = true /\ ah_Status (agg (fst r)) = InError) \/
       (ExistPendingCerts st = false /\ exists h r, row_status s' h = Some r /\ snd r = InError)).
Proof.
  intros Hu Hget.
  destruct (checkPending_loop_spec (GetCertificateHeadersByStatus s NonSettledStatuses) s false false)
    as (s' & Hloop & Hrows).
  { intros hdr Hin. apply pending_In in Hin as (h & c & Hc & <- & Hst). by apply (Hget h). }
  { by apply GetCertificateHeadersByStatus_NoDup. }
  { intros hdr h r Hin Hr Hid. apply pending_In in Hin as (h' & c & Hc & <- & Hst).
    unfold row_status in Hr. apply fmap_Some in Hr as (c' & Hc' & ->). cbn [fst snd] in *.
    assert (h = h') as <- by (by eapply Hu). rewrite Hc in Hc'. by injection Hc' as ->. }
  pose proof (checkPending_rows s s' Hu Hrows) as Hrows'.
  unfold checkPendingCertificatesStatus. rewrite Hloop. cbn [orb].
  pose proof (still_pending_rows s s' Hrows') as Hpb. pose proof (new_error_rows s) as Heb.
  pose proof (InError_rows s') as Herr.
  eexists s', _. split; [reflexivity|]. cbn [ExistPendingCerts ExistNewInErrorCert].
  split; [done|]. split; [done|]. rewrite <- Heb, <- Herr.
  generalize (existsb (fun c => IsOpen (ah_Status (agg (ch_CertificateID c))))
                (GetCertificateHeadersByStatus s NonSettledStatuses)).
  clear. intros pb. destruct (existsb _ _), pb; cbn [negb andb]; intuition congruence.
Qed.

End CheckerProofs.

(** ** Reconciliation at start-up *)

Section RecoveryProofs.
Context `{AgglayerClient} `{CertificateQuerier} (now : Z).

(** The certificate [a] is stored as settled. *)
Definition stored_settled (s : Storage) (a : AgglayerHeader) : Prop :=
  row_status s (ah_Height a) = Some (ah_CertificateID a, Settled).

(** In the storage, the identifier and the height of [a] go together. *)
Definition height_of_id (s : Storage) (a : AgglayerHeader) : Prop :=
  forall h r, row_status s h = Some r -> fst r = ah_CertificateID a <-> h = ah_Height a.

Lemma SaveOrUpdate_rows s cert hdr :
  sc_Header cert = Some hdr ->
  exists s', SaveOrUpdateCertificate s cert = (s', Ok tt) /\
  forall h, row_status s' h =
    match row_status s (ch_Height hdr) with
    | None => if h =? ch_Height hdr then Some (ch_CertificateID hdr, ch_Status hdr) else row_status s h
    | Some _ => set_if (ch_CertificateID hdr) (ch_Status hdr) <$> row_status s h
    end.
Proof.
  intros Hhdr. unfold SaveOrUpdateCertificate, convertCertificateToCertificateInfo. rewrite Hhdr.
  set (info := mkCertificateInfo hdr _ _ _). destruct (handleCertificateFile s info) as [s1 c1] eqn:Hf.
  destruct (handleCertificateFile_facts _ _ _ _ Hf) as (Ht & _ & Hh1 & _).
  assert (cert_info s1 = cert_info s) as Hci by (unfold cert_info; by rewrite Ht).
  assert (ci_Height c1 = ch_Height hdr) as Hheight by (unfold ci_Height; by rewrite Hh1).
  assert (ci_CertificateID c1 = ch_CertificateID hdr) as Hid by (unfold ci_CertificateID; by rewrite Hh1).
  assert (ci_Status c1 = ch_Status hdr) as Hst by (unfold ci_Status; by rewrite Hh1).
  rewrite Hheight, Hci. unfold row_status.
  destruct (cert_info s !! ch_Height hdr) as [old|] eqn:Hold; cbn [fmap option_fmap option_map].
  - eexists. split; [reflexivity|]. intros h. change (cert_info (set_info s1 ?m)) with m.
    rewrite updateCertStatus_lookup, Hid, Hst. destruct (cert_info s !! h) as [c|]; simpl; [|done].
    f_equal. unfold set_if. simpl. by destruct (ci_CertificateID c =? ch_CertificateID hdr).
  - unfold insert_info. rewrite Hheight, Hci, Hold. eexists. split; [reflexivity|]. intros h.
    change (cert_info (set_info s1 ?m)) with m. destruct (Z.eqb_spec h (ch_Height hdr)) as [->|].
    + rewrite lookup_insert_eq. simpl. by rewrite Hid, Hst.
    + by rewrite lookup_insert_ne.
Qed.

(** Inserting a settled certificate of the agglayer. *)
Lemma insert_settled s a l s' l' :
  ah_Status a = Settled ->
  (forall r, row_status s (ah_Height a) = Some r -> fst r = ah_CertificateID a) ->
  executeInitialStatusAction now s (InitialStatusActionInsertNewCert a) l = (s', l', Ok tt) ->
  stored_settled s' a.
Proof.
  intros Hst Hid. simpl. rewrite Hst. simpl.
  unfold updateLocalStorageWithSettledAggLayerCert, newSettledCertificateInfoFromAgglayerCertHeader.
  destruct (GetLastSettledCertificateToBlock (Some a)) as [toBlock|e]; simpl; [|by intros [=]].
  match goal with |- context [SaveOrUpdateCertificate s ?c] =>
    destruct (SaveOrUpdate_rows s c _ eq_refl) as (s1 & Hrun & Hrows) end.
  rewrite Hrun. simpl. intros [= <- <-]. unfold stored_settled. rewrite Hrows. cbn [ch_Height ch_CertificateID ch_Status].
  destruct (row_status s (ah_Height a)) as [r|]; [|by rewrite Z.eqb_refl, Hst].
  simpl. unfold set_if. rewrite (Hid r eq_refl), Z.eqb_refl, Hst. done.
Qed.

Lemma fold_last_row l best c :
  fold_left last_row_step l best = Some c -> best = Some c \/ In c l.
Proof.
  revert best. induction l as [|x l IH]; intros best; simpl; [auto|]. intros Hf.
  apply IH in Hf as [Hf|]; [|auto]. unfold last_row_step, higher in Hf.
  destruct best as [b|]; [destruct (_ <? _)|]; injection Hf as <-; auto.
Qed.

Lemma last_row_In q m c : last_row q m = Some c -> q c = true /\ exists h, m !! h = Some c.
Proof.
  unfold last_row. intros Hf. apply fold_last_row in Hf as [|Hin]; [done|].
  apply bfilter_In in Hin as [Hin Hq]. split; [done|]. apply in_map_iff in Hin as ([h c'] & <- & Hin).
  exists h. apply elem_of_map_to_list, list_elem_of_In. exact Hin.
Qed.

(** Rows are keyed by their height. *)
Definition keyed (s : Storage) : Prop := forall h c, cert_info s !! h = Some c -> ci_Height c = h.

Lemma GetLastSent_row s l :
  keyed s -> GetLastSentCertificateHeader s = Ok (Some l) ->
  row_status s (ch_Height l) = Some (ch_CertificateID l, ch_Status l).
Proof.
  intros Hk. unfold GetLastSentCertificateHeader, getSelectQueryError.
  destruct (last_row _ _) as [c|] eqn:E; simpl; [|done]. intros [= <-].
  apply last_row_In in E as (_ & h & Hc). unfold row_status. rewrite <- (Hk h c Hc) in Hc.
  change (ch_Height (ci_Header c)) with (ci_Height c). by rewrite Hc.
Qed.

Lemma GetLastSettled_row s l :
  keyed s -> GetLastSettledCertificate s = Ok l -> row_status s (ch_Height l) = Some (ch_CertificateID l, Settled).
Proof.
  intros Hk. unfold GetLastSettledCertificate. destruct (last_row _ _) as [c|] eqn:E; [|done]. intros [= <-].
  apply last_row_In in E as (Hst & h & Hc). apply bool_decide_eq_true in Hst. unfold row_status.
  rewrite <- (Hk h c Hc) in Hc. change (ch_Height (ci_Header c)) with (ci_Height c). rewrite Hc.
  simpl. by rewrite Hst.
Qed.

(** Rows of other certificates are not touched by a status update. *)
Lemma updateCertificateStatus_other s l a s' l' h :
  updateCertificateStatus now s l a = (s', l') ->
  (forall r, row_status s h = Some r -> fst r <> ch_CertificateID l) -> row_status s' h = row_status s h.
Proof.
  unfold updateCertificateStatus. case_bool_decide; intros [= <- <-]; [done|]. unfold row_status.
  rewrite UpdateCertificateStatus_info, updateCertStatus_lookup.
  destruct (cert_info s !! h) as [c|]; simpl; [|done]. intros Hne.
  change (ch_CertificateID (setHeaderStatus l (ah_Status a) now)) with (ch_CertificateID l).
  specialize (Hne _ eq_refl). simpl in Hne. by rewrite (proj2 (Z.eqb_neq _ _)).
Qed.

(** The action on the pending certificate leaves the row of the settled one alone. *)
Lemma pending_action_keeps_row s act p l s1 l1 h id :
  (forall r, row_status s h = Some r -> fst r = id) -> ah_CertificateID p <> id -> ah_Height p <> h ->
  act = InitialStatusActionNone \/ act = InitialStatusActionInsertNewCert p \/
    (exists l0, act = InitialStatusActionUpdateCurrentCert p /\ l = Some l0 /\ ch_CertificateID l0 = ah_CertificateID p) ->
  executeInitialStatusAction now s act l = (s1, l1, Ok tt) -> row_status s1 h = row_status s h.
Proof.
  intros Hid Hpid Hph [->|[->|(l0 & -> & -> & Hl0)]]; simpl.
  - by intros [= <- <-].
  - destruct (IsInError _); [by intros [= <- <-]|]. destruct (IsOpen _); [by intros [=]|].
    unfold updateLocalStorageWithSettledAggLayerCert, newSettledCertificateInfoFromAgglayerCertHeader.
    destruct (GetLastSettledCertificateToBlock (Some p)) as [toBlock|e]; simpl; [|by intros [=]].
    match goal with |- context [SaveOrUpdateCertificate s ?c] =>
      destruct (SaveOrUpdate_rows s c _ eq_refl) as (s2 & Hrun & Hrows) end.
    rewrite Hrun. simpl. intros [= <- <-]. rewrite Hrows. cbn [ch_Height ch_CertificateID ch_Status].
    destruct (row_status s (ah_Height p)); [|by rewrite (proj2 (Z.eqb_neq _ _)) by congruence].
    destruct (row_status s h) as [r|] eqn:E; simpl; [|done]. unfold set_if.
    rewrite (Hid r eq_refl). by rewrite (proj2 (Z.eqb_neq _ _)).
  - destruct (updateCertificateStatus now s l0 p) as [s2 l2] eqn:Hup. intros [= <- <-].
    eapply updateCertificateStatus_other; [done|]. intros r Hr. rewrite (Hid r Hr). congruence.
Qed.

(** Updating the local certificate that is the settled one. *)
Lemma update_settled s a l s' l' :
  ah_Status a = Settled -> height_of_id s a -> ch_CertificateID l = ah_CertificateID a ->
  row_status s (ch_Height l) = Some (ch_CertificateID l, ch_Status l) ->
  executeInitialStatusAction now s (InitialStatusActionUpdateCurrentCert a) (Some l) = (s', l', Ok tt) ->
  stored_settled s' a.
Proof.
  intros Hst Hh Hid Hrow. simpl. destruct (updateCertificateStatus now s l a) as [s2 l2] eqn:Hup. intros [= <- <-].
  assert (ch_Height l = ah_Height a) as Hheight by (apply (Hh _ _ Hrow); exact Hid).
  destruct (updateCertificateStatus_rows now s l a s2 l2) as [_ Hrows]; [|exact Hup|].
  - intros h r Hr Hf. assert (h = ah_Height a) as -> by (apply (Hh h r Hr); congruence).
    rewrite Hheight, Hr in Hrow. by injection Hrow as ->.
  - unfold stored_settled. rewrite Hrows, <- Hheight, Hrow. simpl. unfold set_if. simpl.
    by rewrite Z.eqb_refl, Hid, Hst.
Qed.

(** What the decision on the local certificate can be. *)
Lemma processLastLocalCert_inv i act a :
  is_AgglayerLastSettledCert i = Some a -> processLastLocalCert i = Ok act ->
  exists c, getLatestAggLayerCert i = Some c /\
    (act = InitialStatusActionInsertNewCert c \/
     exists l, is_LocalLastCert i = Some l /\ act = InitialStatusActionUpdateCurrentCert c /\
               ch_CertificateID l = ah_CertificateID c).
Proof.
  intros Ha Hact. unfold processLastLocalCert, processLastLocalCert_cases in Hact. rewrite Ha in Hact.
  assert (exists c, getLatestAggLayerCert i = Some c) as [c Hc].
  { unfold getLatestAggLayerCert. rewrite Ha. destruct (is_AgglayerLastPendingCert i); eauto. }
  rewrite Hc in Hact. exists c. split; [done|].
  destruct (is_LocalLastCert i) as [l|].
  - destruct (_ <? _); [discriminate|]. destruct (ah_Height c =? _); [left; congruence|].
    destruct (Z.eqb_spec (ch_CertificateID l) (ah_CertificateID c)); [|discriminate].
    right. exists l. split_and!; [done | simpl in Hact; congruence | done].
  - left. congruence.
Qed.

(** The action decided for the settled certificate, run after that for the pending one. *)
Lemma settled_action s s1 s' a p local lset l1 sact :
  ah_Status a = Settled -> keyed s ->
  (forall r, row_status s (ah_Height a) = Some r -> fst r = ah_CertificateID a) ->
  row_status s1 (ah_Height a) = row_status s (ah_Height a) ->
  (match GetLastSettledCertificate s with Ok c => Ok (Some c) | Err ErrStorageNotFound => Ok None
   | Err e => Err (ErrStorage e) end) = Ok lset ->
  processLastSettledCert (mkInitialStatus (Some a) (Some p) local lset) = Ok sact ->
  executeActions now s1 (match sact with Some x => [x] | None => [] end) l1 = (s', Ok tt) ->
  stored_settled s' a.
Proof.
  intros Hst Hk Hid Hkeep Hlset Hsact Hexec.
  assert (sact = Some (InitialStatusActionInsertNewCert a) -> stored_settled s' a) as Hins.
  { intros ->. unfold executeActions in Hexec.
    destruct (executeInitialStatusAction now s1 _ l1) as [[s2 l2] [[]|]] eqn:He; [|by injection Hexec].
    injection Hexec as <-. eapply insert_settled; [done | | exact He]. by rewrite Hkeep. }
  unfold processLastSettledCert in Hsact. simpl in Hsact.
  destruct lset as [ls|]; [|injection Hsact as <-; by apply Hins].
  destruct (_ <? _); [discriminate|].
  destruct (Z.eqb_spec (ch_Height ls) (ah_Height a)) as [Ehh|]; [|injection Hsact as <-; by apply Hins].
  destruct (Z.eqb_spec (ch_CertificateID ls) (ah_CertificateID a)) as [Eid|]; [|discriminate].
  simpl in Hsact. injection Hsact as <-. simpl in Hexec. injection Hexec as <-.
  assert (GetLastSettledCertificate s = Ok ls) as Hget
    by (destruct (GetLastSettledCertificate s) as [c|[]]; congruence).
  unfold stored_settled. rewrite Hkeep, <- Ehh, <- Eid. by apply GetLastSettled_row.
Qed.

(** After a start-up check that succeeds, the last certificate the agglayer has settled is in
    the local storage, as settled: inserted if it was missing, updated if it was there.  This needs
    that no other certificate is stored at its height. *)
Theorem checkLast_stores_settled s s' a pending :
  GetLatestSettledCertificateHeader = Ok (Some a) -> ah_Status a = Settled ->
  GetLatestPendingCertificateHeader = Ok pending ->
  (forall p, pending = Some p -> ah_CertificateID p <> ah_CertificateID a) ->
  keyed s -> height_of_id s a ->
  checkLastCertificateFromAgglayer now s = (s', Ok tt) ->
  stored_settled s' a.
Proof.
  intros Hset Hst Hpend Hids Hk Hh. unfold checkLastCertificateFromAgglayer, newInitialStatus.
  rewrite Hset, Hpend. cbn [rbind].
  destruct (GetLastSentCertificateHeader s) as [local|] eqn:Hlocal; cbn [rbind]; [|by intros [=]].
  destruct (match GetLastSettledCertificate s with Ok c => Ok (Some c) | Err ErrStorageNotFound => Ok None
            | Err e => Err (ErrStorage e) end) as [lset|] eqn:Hlset; cbn [rbind]; [|by intros [=]].
  set (i := mkInitialStatus (Some a) pending local lset).
  destruct (process i) as [acts|] eqn:Hproc; [|by intros [=]]. intros Hexec.
  unfold process in Hproc. inv_ok Hproc as u Hcons. inv_ok Hproc as act Hact. inv_ok Hproc as sact Hsact.
  injection Hproc as <-. destruct (processLastLocalCert_inv i act a eq_refl Hact) as (c & Hc & Hcase).
  assert (forall r, row_status s (ah_Height a) = Some r -> fst r = ah_CertificateID a) as Hid
    by (intros r Hr; by apply (Hh _ _ Hr)).
  simpl in Hexec.
  destruct (executeInitialStatusAction now s act local) as [[s1 l1] [[]|]] eqn:He1; [|by injection Hexec].
  destruct pending as [p|].
  - injection Hc as <-. assert (ah_Height p <> ah_Height a) as Hph.
    { intros E. unfold checkAgglayerConsistenceCerts in Hcons. simpl in Hcons.
      by rewrite E, Z.eqb_refl, Hst in Hcons. }
    assert (row_status s1 (ah_Height a) = row_status s (ah_Height a)) as Hkeep.
    { destruct Hcase as [->|(l & Hl & -> & Hlid)].
      - eapply (pending_action_keeps_row s _ p local); eauto.
      - eapply (pending_action_keeps_row s _ p local); eauto 8. }
    by eapply settled_action.
  - injection Hc as <-. injection Hsact as <-. injection Hexec as <-.
    destruct Hcase as [->|(l & Hl & -> & Hlid)]; [by eapply insert_settled|].
    simpl in Hl. subst local. eapply update_settled; [done | done | done | by apply GetLastSent_row | done].
Qed.

End RecoveryProofs.

(** ** Examples *)

Definition example_settled : AgglayerHeader := mkAgglayerHeader 4 50 None 7 Settled.
Definition example_client : AgglayerClient :=
  Build_AgglayerClient (fun _ => Ok example_settled) (Ok (Some example_settled)) (Ok None).
Definition example_querier : CertificateQuerier :=
  Build_CertificateQuerier (fun _ => Ok 9) (fun _ => Ok 9) (fun _ _ => CertificateTypePP) (fun _ => CertificateTypePP).

#[local] Existing Instances example_client example_querier.

(** The storage with the pending certificate 50 of height 4. *)
Definition example_local : Storage := example_storage NewStorageRetainCertificatesPolicyDefault.

Lemma example_local_rows h c : cert_info example_local !! h = Some c -> h = 4 /\ c = example_row.
Proof.
  change (cert_info example_local) with (<[4 := example_row]> (∅ : gmap Z certificateInfo)).
  intros Hc. apply lookup_insert_Some in Hc as [[<- <-]|[_ Hc]]; [done | by rewrite lookup_empty in Hc].
Qed.

Lemma process_agrees_with_agglayer_witness :
  (length [InitialStatusActionUpdateCurrentCert example_settled] <= 2)%nat /\
  exists c, Some example_settled = Some c /\
    ((ah_Height c = 4 + 1 /\
      head [InitialStatusActionUpdateCurrentCert example_settled] = Some (InitialStatusActionInsertNewCert c)) \/
     (ah_CertificateID c = 50 /\ 4 <= ah_Height c /\
      head [InitialStatusActionUpdateCurrentCert example_settled] = Some (InitialStatusActionUpdateCurrentCert c))).
Proof.
  refine (process_agrees_with_agglayer
    (mkInitialStatus (Some example_settled) None (Some (example_header 4 0 50 Pending)) None)
    [InitialStatusActionUpdateCurrentCert example_settled] (example_header 4 0 50 Pending) _ _ _);
    [reflexivity | reflexivity | split; vm_compute; congruence].
Defined.

Lemma checkPending_follows_agglayer_witness :
  exists s' st, checkPendingCertificatesStatus 200 example_local = (s', st) /\
    (forall h, row_status s' h = followed (fun _ => example_settled) <$> row_status example_local h) /\
    (ExistPendingCerts st = true <-> exists h r, row_status s' h = Some r /\ IsOpen (snd r) = true) /\
    (ExistNewInErrorCert st = true <->
       (exists h r, row_status example_local h = Some r /\ IsOpen (snd r) = true /\
                    ah_Status example_settled = InError) \/
       (ExistPendingCerts st = false /\ exists h r, row_status s' h = Some r /\ snd r = InError)).
Proof.
  refine (checkPending_follows_agglayer 200 (fun _ => example_settled) example_local _ _).
  - intros h1 h2 c1 c2 H1 H2 _. apply example_local_rows in H1 as [-> _], H2 as [-> _]. reflexivity.
  - reflexivity.
Defined.

Lemma checkLast_stores_settled_witness :
  stored_settled (fst (checkLastCertificateFromAgglayer 200 example_local)) example_settled.
Proof.
  refine (checkLast_stores_settled 200 example_local (fst (checkLastCertificateFromAgglayer 200 example_local))
    example_settled None _ _ _ _ _ _ _); try reflexivity.
  - discriminate.
  - intros h c Hc. by apply example_local_rows in Hc as [-> ->].
  - intros h r Hr. apply fmap_Some in Hr as (c & Hc & ->). by apply example_local_rows in Hc as [-> ->].
Defined.
