(* ===== verification/Epoch.v ===== *)
(** The epoch notifier of the aggsender ([aggsender/trigger/epoch_notifier_per_block.go]): the
    handler of new L1 blocks, which announces every epoch at most once.  The percentages are
    [float64] in the source and here; the publication of an event is the value returned. *)

From Stdlib Require Import Sorted.
From S2P Require Import Prelude Float64.

(** ** Data *)

Record ConfigEpochNotifierPerBlock := mkEpochConfig {
  ec_StartingEpochBlock : Z;
  ec_NumBlockPerEpoch : Z;
  ec_EpochNotificationPercentage : Z
}.

Record internalStatus := mkInternalStatus { lastBlockSeen : Z; waitingForEpoch : Z }.

Record EpochEvent := mkEpochEvent { ev_Epoch : Z; ev_PendingBlocks : Z }.

Inductive epochConfigError := ErrNoBlocksPerEpoch | ErrPercentage.

Definition EpochConfig_Validate (c : ConfigEpochNotifierPerBlock) : result epochConfigError unit :=
  if ec_NumBlockPerEpoch c =? 0 then Err ErrNoBlocksPerEpoch
  else if negb (ec_EpochNotificationPercentage c <? 100) then Err ErrPercentage
  else Ok tt.

(** ** Operations *)

Section Notifier.
Context (c : ConfigEpochNotifierPerBlock).

Definition startingBlockEpoch (epoch : Z) : Z :=
  if epoch =? 0 then ec_StartingEpochBlock c -u64 1
  else ec_StartingEpochBlock c +u64 ((epoch -u64 1) *u64 ec_NumBlockPerEpoch c).

Definition endBlockEpoch (epoch : Z) : Z := startingBlockEpoch (epoch +u64 1).

Definition epochNumber (currentBlock : Z) : Z :=
  if currentBlock <? ec_StartingEpochBlock c then 0
  else 1 +u64 ((currentBlock -u64 ec_StartingEpochBlock c) / ec_NumBlockPerEpoch c).

Definition percentEpoch (currentBlock : Z) : float64 :=
  let epoch := epochNumber currentBlock in
  let startingBlock := startingBlockEpoch epoch in
  let elapsedBlocks := currentBlock -u64 startingBlock in
  f64_div (f64_of_Z elapsedBlocks) (f64_of_Z (ec_NumBlockPerEpoch c)).

Definition thresholdPercent : float64 :=
  let threshold := f64_div (f64_of_Z (ec_EpochNotificationPercentage c)) (f64_of_Z 100) in
  let maxThreshold := f64_div (f64_of_Z (ec_NumBlockPerEpoch c -u64 1)) (f64_of_Z (ec_NumBlockPerEpoch c)) in
  if f64_ltb maxThreshold threshold then maxThreshold else threshold.

Definition isNotificationRequired (currentBlock lastEpochNotified : Z) : bool * Z :=
  if f64_ltb (percentEpoch currentBlock) thresholdPercent then (false, epochNumber currentBlock)
  else
    let nextEpoch := epochNumber currentBlock +u64 1 in
    (lastEpochNotified <? nextEpoch, epochNumber currentBlock).

Definition infoEpoch (currentBlock newEpochNotified : Z) : Z :=
  sint64 (endBlockEpoch newEpochNotified -u64 currentBlock).

Definition step (status : internalStatus) (currentBlock : Z) : internalStatus * option EpochEvent :=
  if currentBlock <? ec_StartingEpochBlock c then (status, None)
  else if currentBlock <=? lastBlockSeen status then (status, None)
  else
    let status := mkInternalStatus currentBlock (waitingForEpoch status) in
    let '(needNotify, closingEpoch) := isNotificationRequired currentBlock (waitingForEpoch status) in
    if needNotify then
      (mkInternalStatus currentBlock (closingEpoch +u64 1),
       Some (mkEpochEvent closingEpoch (infoEpoch currentBlock closingEpoch)))
    else (status, None).

Definition GetEpochStatus (currentBlock : Z) : Z * float64 :=
  (epochNumber currentBlock, percentEpoch currentBlock).

Definition ForcePublishEpochEvent (currentBlock : Z) : EpochEvent :=
  mkEpochEvent (epochNumber currentBlock) (infoEpoch currentBlock (epochNumber currentBlock)).

Definition initialStatus : internalStatus :=
  mkInternalStatus (ec_StartingEpochBlock c) (epochNumber (ec_StartingEpochBlock c)).

(** The loop of [startInternal] over the blocks received: the events published, in order. *)
Fixpoint startInternal (status : internalStatus) (blocks : list Z) : list EpochEvent :=
  match blocks with
  | [] => []
  | b :: blocks' =>
      let '(status, event) := step status b in
      match event with
      | Some e => e :: startInternal status blocks'
      | None => startInternal status blocks'
      end
  end.

(** ** Theorems *)

(** A valid configuration whose epochs stay within [uint64] for the blocks considered. *)
Definition in_range (b : Z) : Prop :=
  0 < ec_StartingEpochBlock c /\ 0 < ec_NumBlockPerEpoch c /\ 0 <= b /\
  b + 2 * ec_NumBlockPerEpoch c + 2 < pow2_64 /\ ec_StartingEpochBlock c < pow2_64.

Lemma epochNumber_value b :
  in_range b -> ec_StartingEpochBlock c <= b ->
  epochNumber b = 1 + (b - ec_StartingEpochBlock c) / ec_NumBlockPerEpoch c /\ 1 <= epochNumber b <= b + 1.
Proof.
  intros (Hs & Hn & Hb & Hu & _) Hle. unfold epochNumber. rewrite (proj2 (Z.ltb_ge _ _)) by lia.
  rewrite sub64_small by (unfold_words; lia).
  pose proof (Z.div_pos (b - ec_StartingEpochBlock c) (ec_NumBlockPerEpoch c) ltac:(lia) ltac:(lia)).
  pose proof (Z.div_le_upper_bound (b - ec_StartingEpochBlock c) (ec_NumBlockPerEpoch c)
    (b - ec_StartingEpochBlock c) ltac:(lia) ltac:(nia)).
  rewrite add64_small by (unfold_words; lia). lia.
Qed.

(** A block lies between the start of its epoch and the start of the next. *)
Lemma epoch_bounds b :
  in_range b -> ec_StartingEpochBlock c <= b ->
  startingBlockEpoch (epochNumber b) =
    ec_StartingEpochBlock c + (epochNumber b - 1) * ec_NumBlockPerEpoch c /\
  startingBlockEpoch (epochNumber b) <= b < startingBlockEpoch (epochNumber b) + ec_NumBlockPerEpoch c.
Proof.
  intros Hr Hle. destruct (epochNumber_value b Hr Hle) as [He Hb]. destruct Hr as (Hs & Hn & Hb0 & Hu & _).
  pose proof (Z.div_mod (b - ec_StartingEpochBlock c) (ec_NumBlockPerEpoch c) ltac:(lia)).
  pose proof (Z.mod_pos_bound (b - ec_StartingEpochBlock c) (ec_NumBlockPerEpoch c) ltac:(lia)).
  set (q := (b - ec_StartingEpochBlock c) / ec_NumBlockPerEpoch c) in *.
  unfold startingBlockEpoch. rewrite (proj2 (Z.eqb_neq _ _)) by lia.
  rewrite sub64_small by (unfold_words; lia). unfold mul64. rewrite wrap64_small by (unfold_words; nia).
  rewrite add64_small by (unfold_words; nia). nia.
Qed.

(** A step only announces the epoch of its block, and then waits for a later one. *)
Lemma step_event status b status' ev :
  in_range b -> step status b = (status', Some ev) ->
  ec_StartingEpochBlock c <= b /\ lastBlockSeen status < b /\ ev_Epoch ev = epochNumber b /\
  waitingForEpoch status <= ev_Epoch ev /\ waitingForEpoch status' = ev_Epoch ev + 1 /\ lastBlockSeen status' = b.
Proof.
  intros Hr. unfold step, isNotificationRequired.
  destruct (b <? ec_StartingEpochBlock c) eqn:E1; [by intros [=]|].
  destruct (b <=? lastBlockSeen status) eqn:E2; [by intros [=]|]. cbn [waitingForEpoch].
  destruct (f64_ltb _ _); [by intros [=]|].
  destruct (waitingForEpoch status <? epochNumber b +u64 1) eqn:E3; [|by intros [=]].
  intros [= <- <-]. cbn [ev_Epoch waitingForEpoch lastBlockSeen]. bool_hyps.
  destruct (epochNumber_value b Hr ltac:(lia)) as [_ Hb]. destruct Hr as (_ & Hn & _ & Hu & _).
  rewrite add64_small in * by (unfold_words; lia). lia.
Qed.

(** Without an event the epoch waited for does not change. *)
Lemma step_no_event status b status' :
  step status b = (status', None) -> waitingForEpoch status' = waitingForEpoch status.
Proof.
  unfold step. destruct (b <? _); [by intros [= <-]|]. destruct (b <=? _); [by intros [= <-]|].
  destruct (isNotificationRequired b _) as [[|] e]; by intros [= <-].
Qed.

Lemma startInternal_events blocks status :
  Forall in_range blocks ->
  StronglySorted Z.lt (map ev_Epoch (startInternal status blocks)) /\
  Forall (fun e => waitingForEpoch status <= ev_Epoch e) (startInternal status blocks).
Proof.
  revert status. induction blocks as [|b blocks IH]; intros status Hr; simpl; [by repeat constructor|].
  apply Forall_cons in Hr as [Hb Hr]. destruct (step status b) as [status' [ev|]] eqn:Hs.
  - destruct (step_event _ _ _ _ Hb Hs) as (_ & _ & _ & Hw & Hw' & _).
    destruct (IH status' Hr) as [Hsort Hge]. split; simpl.
    + constructor; [done|]. apply Forall_map. eapply Forall_impl; [exact Hge|]. simpl. lia.
    + constructor; [done|]. eapply Forall_impl; [exact Hge|]. simpl. lia.
  - destruct (IH status' Hr) as [Hsort Hge]. split; [done|]. by rewrite (step_no_event _ _ _ Hs) in Hge.
Qed.

(** Whatever blocks arrive, in whatever order and however often, the announced epochs are
    strictly increasing: no epoch is announced twice. *)
Theorem epochs_announced_once blocks :
  Forall in_range blocks ->
  StronglySorted Z.lt (map ev_Epoch (startInternal initialStatus blocks)).
Proof. intros Hr. by apply startInternal_events. Qed.

(** The threshold never exceeds the percentage of the last block of an epoch. *)
Lemma last_block_reaches_threshold b :
  in_range b -> ec_StartingEpochBlock c <= b ->
  b + 1 = startingBlockEpoch (epochNumber b) + ec_NumBlockPerEpoch c ->
  f64_ltb (percentEpoch b) thresholdPercent = false.
Proof.
  intros Hr Hle Hlast. destruct (epoch_bounds b Hr Hle) as [_ Hb]. destruct Hr as (Hs & Hn & Hb0 & Hu & _).
  unfold percentEpoch, thresholdPercent. rewrite (sub64_small b) by (unfold_words; lia).
  rewrite (sub64_small (ec_NumBlockPerEpoch c)) by (unfold_words; lia).
  replace (b - startingBlockEpoch (epochNumber b)) with (ec_NumBlockPerEpoch c - 1) by lia.
  set (m := f64_div (f64_of_Z (ec_NumBlockPerEpoch c - 1)) _).
  set (t := f64_div (f64_of_Z (ec_EpochNotificationPercentage c)) _).
  destruct (f64_ltb m t) eqn:E; [apply f64_ltb_irrefl | exact E].
Qed.

(** C38. No epoch is missed: when the last block of an epoch is seen for the first time, the epoch is
    announced by then, at that block if it was not before; the threshold, computed in floating
    point, cannot lie beyond the last block. *)
Theorem epoch_announced_by_its_last_block status b :
  in_range b -> ec_StartingEpochBlock c <= b -> lastBlockSeen status < b ->
  b + 1 = startingBlockEpoch (epochNumber b) + ec_NumBlockPerEpoch c ->
  let '(status', ev) := step status b in
  epochNumber b < waitingForEpoch status' /\
  (waitingForEpoch status <= epochNumber b -> ev_Epoch <$> ev = Some (epochNumber b)).
Proof.
  intros Hr Hle Hseen Hlast. unfold step, isNotificationRequired.
  rewrite (proj2 (Z.ltb_ge _ _)), (proj2 (Z.leb_gt _ _)), last_block_reaches_threshold by done || lia.
  destruct (epochNumber_value b Hr Hle) as [_ Hb]. destruct Hr as (_ & Hn & _ & Hu & _).
  cbn [waitingForEpoch]. rewrite add64_small by (unfold_words; lia).
  destruct (waitingForEpoch status <? epochNumber b + 1) eqn:E; bool_hyps; cbn [waitingForEpoch].
  - split; [lia | done].
  - split; lia.
Qed.

End Notifier.

(** ** Examples *)

Definition example_config : ConfigEpochNotifierPerBlock := mkEpochConfig 100 10 50.

Lemma example_in_range b : 0 <= b <= 1000 -> in_range example_config b.
Proof. unfold in_range, pow2_64. simpl. lia. Qed.

Lemma epochs_announced_once_witness :
  StronglySorted Z.lt (map ev_Epoch
    (startInternal example_config (initialStatus example_config) [104; 105; 105; 109; 112; 111; 119; 118])).
Proof.
  refine (epochs_announced_once example_config [104; 105; 105; 109; 112; 111; 119; 118] _).
  repeat constructor; apply example_in_range; lia.
Defined.

(** Epoch 1 is announced at its middle, epoch 2 at block 119. *)
Example example_run :
  map ev_Epoch (startInternal example_config (initialStatus example_config) [104; 105; 105; 109; 112; 111; 119; 118])
  = [1; 2].
Proof. vm_compute. reflexivity. Qed.

Lemma epoch_announced_by_its_last_block_witness :
  let '(status', ev) := step example_config (initialStatus example_config) 109 in
  epochNumber example_config 109 < waitingForEpoch status' /\
  (waitingForEpoch (initialStatus example_config) <= epochNumber example_config 109 ->
   ev_Epoch <$> ev = Some (epochNumber example_config 109)).
Proof.
  refine (epoch_announced_by_its_last_block example_config (initialStatus example_config) 109 _ _ _ _).
  - apply example_in_range. lia.
  - vm_compute. congruence.
  - vm_compute. reflexivity.
  - vm_compute. reflexivity.
Defined.
