(* ===== verification/BuildParams.v ===== *)
(** The parameters from which a certificate is built ([aggsender/types/certificate_build_params.go],
    [block_range_adjustment.go]), the events they hold and their conversion to the agglayer's data
    ([aggsender/converters]).

    A nil [*big.Int] is [None].  Go panics when it decodes a nil global index; the panic is the
    value [ErrPanic], which every caller passes on as it does an error. *)

From S2P Require Import Prelude Bytes Float64 BlockRange Merkle AgglayerTypes CertStorage StatusChecker.

(** ** Events *)

(** [bridgesync.Bridge]; the transaction data are not used by the flows. *)
Record Bridge := mkBridge {
  br_BlockNum : Z;
  br_BlockPos : Z;
  br_LeafType : Z;
  br_OriginNetwork : Z;
  br_OriginAddress : Z;
  br_DestinationNetwork : Z;
  br_DestinationAddress : Z;
  br_Amount : option Z;
  br_Metadata : list Z;
  br_DepositCount : Z
}.

(** [claimsynctypes.Claim]. *)
Record SyncedClaim := mkSyncedClaim {
  sc_BlockNum : Z;
  sc_BlockPos : Z;
  sc_GlobalIndex : option Z;
  sc_OriginNetwork : Z;
  sc_OriginAddress : Z;
  sc_DestinationAddress : Z;
  sc_Amount : option Z;
  sc_ProofLocalExitRoot : list Z;
  sc_ProofRollupExitRoot : list Z;
  sc_MainnetExitRoot : Z;
  sc_RollupExitRoot : Z;
  sc_GlobalExitRoot : Z;
  sc_DestinationNetwork : Z;
  sc_Metadata : list Z;
  sc_IsMessage : bool
}.

Record Unclaim := mkUnclaim { uc_GlobalIndex : option Z; uc_BlockNumber : Z; uc_LogIndex : Z }.

(** A row of the L1 info tree ([l1infotreesync.L1InfoTreeLeaf]). *)
Record L1InfoLeaf := mkL1InfoLeaf {
  il_BlockNumber : Z;
  il_BlockPosition : Z;
  il_L1InfoTreeIndex : Z;
  il_PreviousBlockHash : Z;
  il_Timestamp : Z;
  il_MainnetExitRoot : Z;
  il_RollupExitRoot : Z;
  il_GlobalExitRoot : Z;
  il_Hash : Z
}.

Definition CalculateGER `{Keccak} (mainnetExitRoot rollupExitRoot : Z) : Z :=
  Keccak256Hash [Hash_Bytes mainnetExitRoot; Hash_Bytes rollupExitRoot].

(** ** Errors of the flows *)

Inductive flowError :=
| ErrPanic
| ErrQuery
| ErrGERNotProvableAgainstRoot
| ErrNoProcessedBlock
| ErrNoNewBlocks
| ErrNoBridgesAndClaims
| ErrNotClosed
| ErrNotSettled
| ErrL1InfoTreeToProveNil
| ErrGERMismatch
| ErrRetryFromBlock
| ErrGapNotEmpty
| ErrBlockGap
| ErrBuildParamsIsNil
| ErrInvalidRange
| ErrMaxL2BlockNumberExceededInARetryCert
| ErrMaxL2BlockRangeExceededInARetryCert
| ErrComplete
| ErrNoBridgesInRange
| ErrLeafCountZero
| ErrRootMismatch
| ErrRootNotFinalized
| ErrUnderRootNotProvable
| ErrNotUnderRootAtStart
| ErrInvalidClaimAtStart
| ErrHigherToBlock
| ErrTrimBeforeStart
| ErrNoProofBuiltYet
| ErrAdjustedAfterProof
| ErrAggchainData
| ErrAggchainParams
| ErrNoSigners
| ErrSignerMismatch.

#[global] Instance flowError_eq_dec : EqDecision flowError.
Proof. solve_decision. Defined.

(** ** Parameters *)

Record CertificateL1InfoTreeData := mkL1InfoTreeData {
  it_L1InfoTreeRootToProve : Z;
  it_L1InfoTreeLeafCount : Z
}.

Record CertificatePreBuildParams := mkPreBuildParams {
  pp_BlockRange : BlockRange;
  pp_RetryCount : Z;
  pp_CertificateType : CertificateType;
  pp_LastSentCertificate : option CertificateHeader;
  pp_L1InfoTreeToProve : option CertificateL1InfoTreeData;
  pp_CreatedAt : Z
}.

(** The aggchain proof and the extra data are opaque. *)
Record CertificateBuildParams := mkBuildParams {
  bp_FromBlock : Z;
  bp_ToBlock : Z;
  bp_Bridges : list Bridge;
  bp_Claims : list SyncedClaim;
  bp_Unclaims : list Unclaim;
  bp_CreatedAt : Z;
  bp_RetryCount : Z;
  bp_LastSentCertificate : option CertificateHeader;
  bp_L1InfoTreeRootFromWhichToProve : Z;
  bp_L1InfoTreeLeafCount : Z;
  bp_AggchainProof : option Z;
  bp_CertificateType : CertificateType;
  bp_ExtraData : list Z
}.

Record BlockRangeAdjustmentOptions := mkOptions {
  op_MaxL2BlockNumber : Z;
  op_MaxL2BlockRange : Z;
  op_AllowResizeRetryCert : bool;
  op_RequireOneBridgeInCertificate : bool;
  op_ValidateRootToProve : bool;
  op_DisableSizeLimit : bool
}.

Definition NumberOfBridges (c : CertificateBuildParams) : Z := Z.of_nat (length (bp_Bridges c)).
Definition NumberOfClaims (c : CertificateBuildParams) : Z := Z.of_nat (length (bp_Claims c)).
Definition NumberOfUnclaims (c : CertificateBuildParams) : Z := Z.of_nat (length (bp_Unclaims c)).

Definition NumberOfBlocks (c : CertificateBuildParams) : Z :=
  let numBlocks := bp_ToBlock c -u64 bp_FromBlock c +u64 1 in
  if MaxInt64 <? numBlocks then MaxInt64 else numBlocks.

Definition IsEmpty (c : CertificateBuildParams) : bool := (NumberOfBridges c =? 0) && (NumberOfClaims c =? 0).

Definition IsARetry (c : CertificateBuildParams) : bool :=
  (0 <? bp_RetryCount c) && negb (is_nil (bp_LastSentCertificate c)).

Definition MaxDepositCount (c : CertificateBuildParams) : Z :=
  match last (bp_Bridges c) with
  | None => 0
  | Some b => br_DepositCount b
  end.

(** The constants are the exact values of Go's constant expressions ([0.09 * 1024 + 32] and so on),
    rounded once; products and sums are rounded one by one, as on a machine without fused
    multiply-add. *)
Definition claimSizeFactor : Z := 200.
Definition sizePerBridge : float64 := f64_const 12416 100.
Definition sizePerClaim : float64 := f64_const 28992 10.
Definition EstimatedAggchainProofSize : float64 := f64_of_Z 10240.
Definition EstimatedAggchainSignatureSize : float64 := f64_const 7168 100.

Definition EstimatedSize (c : CertificateBuildParams) : Z :=
  let sizeBridges := f64_mul sizePerBridge (f64_of_Z (NumberOfBridges c)) in
  let sizeClaims := f64_mul sizePerClaim (f64_of_Z (NumberOfClaims c)) in
  let sizeAggchainData :=
    match bp_CertificateType c with
    | CertificateTypeFEP =>
        f64_add (f64_add (f64_of_Z 0) EstimatedAggchainProofSize) (f64_of_Z (NumberOfClaims c * claimSizeFactor))
    | _ => f64_add (f64_of_Z 0) EstimatedAggchainSignatureSize
    end in
  f64_trunc (f64_add (f64_add sizeBridges sizeClaims) sizeAggchainData).

(** The inner loop of [GetClaimsFilteringUnclaims]: the first unused unclaim of the same index is
    marked. *)
Fixpoint useUnclaim (globalIndex : option Z) (unclaims : list Unclaim) (used : list bool)
  : option (list bool) :=
  match unclaims, used with
  | u :: unclaims', b :: used' =>
      match globalIndex, uc_GlobalIndex u with
      | Some g, Some g' =>
          if (g =? g') && negb b then Some (true :: used')
          else cons b <$> useUnclaim globalIndex unclaims' used'
      | _, _ => cons b <$> useUnclaim globalIndex unclaims' used'
      end
  | _, _ => None
  end.

Fixpoint filterUnclaimed (claims : list SyncedClaim) (unclaims : list Unclaim) (used : list bool)
  : list SyncedClaim :=
  match claims with
  | [] => []
  | c :: claims' =>
      match useUnclaim (sc_GlobalIndex c) unclaims used with
      | Some used' => filterUnclaimed claims' unclaims used'
      | None => c :: filterUnclaimed claims' unclaims used
      end
  end.

Definition GetClaimsFilteringUnclaims (c : CertificateBuildParams) : list SyncedClaim :=
  match bp_Unclaims c with
  | [] => bp_Claims c
  | _ => filterUnclaimed (bp_Claims c) (bp_Unclaims c) (repeat false (length (bp_Unclaims c)))
  end.

(** ** Conversions *)

Section Converters.
Context `{Keccak}.

Definition convertBridgeMetadata (metadata : list Z) : list Z := Hash_Bytes (keccak256 metadata).

Definition ConvertToBridgeExit (b : Bridge) : option BridgeExit :=
  Some (mkBridgeExit (br_LeafType b) (Some (mkTokenInfo (br_OriginNetwork b) (br_OriginAddress b)))
    (br_DestinationNetwork b) (br_DestinationAddress b) (br_Amount b) (convertBridgeMetadata (br_Metadata b))).

Definition ConvertToBridgeExits (bridges : list Bridge) : list (option BridgeExit) :=
  map ConvertToBridgeExit bridges.

Definition ConvertBridgeExitFromClaim (c : SyncedClaim) : BridgeExit :=
  let leafType := if sc_IsMessage c then LeafTypeMessage else LeafTypeAsset in
  mkBridgeExit leafType (Some (mkTokenInfo (sc_OriginNetwork c) (sc_OriginAddress c)))
    (sc_DestinationNetwork c) (sc_DestinationAddress c) (sc_Amount c) (convertBridgeMetadata (sc_Metadata c)).

Definition ConvertToImportedBridgeExitWithoutClaimData (c : SyncedClaim) : result flowError ImportedBridgeExit :=
  match sc_GlobalIndex c ≫= DecodeGlobalIndex with
  | None => Err ErrPanic
  | Some (mainnetFlag, rollupIndex, leafIndex) =>
      Ok (mkImportedBridgeExit (Some (ConvertBridgeExitFromClaim c)) None
            (Some (mkGlobalIndex mainnetFlag rollupIndex leafIndex)))
  end.

(** The claim data built from the leaf and the proof that the L1 info tree returned. *)
Definition claimL1Leaf (c : SyncedClaim) (l1Info : L1InfoLeaf) : L1InfoTreeLeaf :=
  mkL1InfoTreeLeaf (il_L1InfoTreeIndex l1Info) (sc_RollupExitRoot c) (sc_MainnetExitRoot c)
    (Some (mkInner (il_GlobalExitRoot l1Info) (il_PreviousBlockHash l1Info) (il_Timestamp l1Info))).

Definition claimData (c : SyncedClaim) (ibe : ImportedBridgeExit) (g : GlobalIndex) (l1Info : L1InfoLeaf)
    (gerToL1Proof : list Z) (rootFromWhichToProve : Z) : Claim :=
  let l1Leaf := Some (claimL1Leaf c l1Info) in
  let gerProof := Some (mkMerkleProof rootFromWhichToProve gerToL1Proof) in
  if gi_MainnetFlag g then
    Mainnet (mkClaimFromMainnet (Some (mkMerkleProof (sc_MainnetExitRoot c) (sc_ProofLocalExitRoot c))) gerProof l1Leaf)
  else
    Rollup (mkClaimFromRollup
      (Some (mkMerkleProof
         (CalculateRoot (BridgeExit_Hash (ie_BridgeExit ibe)) (sc_ProofLocalExitRoot c) (gi_LeafIndex g))
         (sc_ProofLocalExitRoot c)))
      (Some (mkMerkleProof (sc_RollupExitRoot c) (sc_ProofRollupExitRoot c))) gerProof l1Leaf).

Definition ConvertToImportedBridgeExit
    (getProofForGER : Z -> Z -> result flowError (L1InfoLeaf * list Z))
    (rootFromWhichToProve : Z) (c : SyncedClaim) : result flowError (option ImportedBridgeExit) :=
  let? ibe := ConvertToImportedBridgeExitWithoutClaimData c in
  let? (l1Info, gerToL1Proof) := getProofForGER (sc_GlobalExitRoot c) rootFromWhichToProve in
  match ie_GlobalIndex ibe with
  | None => Err ErrPanic
  | Some g =>
      Ok (Some (mkImportedBridgeExit (ie_BridgeExit ibe)
        (Some (claimData c ibe g l1Info gerToL1Proof rootFromWhichToProve)) (Some g)))
  end.

Definition ConvertToImportedBridgeExits
    (getProofForGER : Z -> Z -> result flowError (L1InfoLeaf * list Z))
    (rootFromWhichToProve : Z) (claims : list SyncedClaim) : result flowError (list (option ImportedBridgeExit)) :=
  rmap (ConvertToImportedBridgeExit getProofForGER rootFromWhichToProve) claims.

Definition ConvertToImportedBridgeExitsWithoutClaimData (claims : list SyncedClaim)
  : result flowError (list (option ImportedBridgeExit)) :=
  rmap (fun c => let? ibe := ConvertToImportedBridgeExitWithoutClaimData c in Ok (Some ibe)) claims.

End Converters.

Definition ConvertAgglayerCertHeaderToAggsender (cert : option AgglayerHeader) : option CertificateHeader :=
  c ← cert;
  Some (mkCertificateHeader (ah_Height c) 0 (ah_CertificateID c) (ah_PreviousLocalExitRoot c)
    (ah_NewLocalExitRoot c) 0 0 (ah_Status c) 0 0 None 0 CertificateTypeUnknown CertificateSourceAggLayer).

Definition ConvertAggsenderCertHeaderToAgglayer (cert : option CertificateHeader) : option AgglayerHeader :=
  c ← cert;
  Some (mkAgglayerHeader (ch_Height c) (ch_CertificateID c) (ch_PreviousLocalExitRoot c)
    (ch_NewLocalExitRoot c) (ch_Status c)).
