(* ===== verification/Flow.v ===== *)
(** The base flow of the aggsender ([aggsender/flows/flow_base.go]): which blocks the next
    certificate covers, what it contains and how it is built.

    The bridge syncer and the L1 info tree are reached through the interfaces [BridgeQuerier] and
    [L1InfoTreeDataQuerier] of the source, type classes here, whose answers do not change during
    one call.  Log messages are left out. *)

From S2P Require Import Prelude Bytes BlockRange Merkle AgglayerTypes CertStorage StatusChecker BuildParams.

(** ** Interfaces and state *)

Class BridgeQuerier := {
  GetLastProcessedBlock : result flowError (option Z);
  GetBridgesAndClaims : Z -> Z -> result flowError (list Bridge * list SyncedClaim);
  GetUnsetClaimsForBlockRange : Z -> Z -> result flowError (list Unclaim);
  GetExitRootByIndex : Z -> result flowError Z;
  OriginNetwork : Z
}.

Class L1InfoTreeDataQuerier := {
  GetTargetL1InfoRoot : result flowError Root;
  GetL1InfoRootByLeafIndex : Z -> result flowError Root;
  GetProofForGER : Z -> Z -> result flowError (L1InfoLeaf * list Z);
  IsGERFinalized : Z -> Z -> result flowError bool;
  DoesGERExistsOnL1 : Z -> result flowError bool
}.

Record BaseFlowConfig := mkBaseFlowConfig {
  fc_MaxCertSize : Z;
  fc_StartL2Block : Z;
  fc_RequireNoFEPBlockGap : bool;
  fc_FullClaimsNeeded : bool
}.

Definition NewBaseFlowConfigDefault : BaseFlowConfig := mkBaseFlowConfig 0 0 false true.

(** The storage is an argument of the operations that read it. *)
Record baseFlow := mkBaseFlow {
  bf_initialLER : Z;
  bf_hasCertQuerier : bool;
  bf_cfg : BaseFlowConfig
}.

Definition lift_db {A} (r : result storageError A) : result flowError A :=
  match r with Ok a => Ok a | Err _ => Err ErrQuery end.

Definition lift_checker {A} (r : result checkerError A) : result flowError A :=
  match r with Ok a => Ok a | Err _ => Err ErrQuery end.

(** ** Operations *)

Section BaseFlow.
Context `{Kc : Keccak} `{Bq : BridgeQuerier} `{Lq : L1InfoTreeDataQuerier} `{Cq : CertificateQuerier}.
Context (f : baseFlow).

Definition StartL2Block : Z := fc_StartL2Block (bf_cfg f).

Definition getLastSentBlockAndRetryCount (lastSent : option CertificateHeader) : Z * Z :=
  match lastSent with
  | None => (StartL2Block, 0)
  | Some c =>
      if bool_decide (ch_Status c = InError) then
        let lastSentBlock := if 0 <? ch_FromBlock c then ch_FromBlock c -u64 1 else ch_ToBlock c in
        (lastSentBlock, ch_RetryCount c + 1)
      else (ch_ToBlock c, 0)
  end.

Definition NextCertificateBlockRange (lastSent : option CertificateHeader) : result flowError (BlockRange * Z) :=
  let? processed := GetLastProcessedBlock in
  match processed with
  | None => Err ErrNoProcessedBlock
  | Some lastL2BlockSynced =>
      let '(previousToBlock, retryCount) := getLastSentBlockAndRetryCount lastSent in
      let? previousToBlock :=
        match lastSent with
        | Some c =>
            if IsSettled (ch_Status c) && bf_hasCertQuerier f
            then lift_checker (GetLastSettledCertificateToBlock (ConvertAggsenderCertHeaderToAgglayer lastSent))
            else Ok previousToBlock
        | None => Ok previousToBlock
        end in
      if lastL2BlockSynced <=? previousToBlock then Err ErrNoNewBlocks
      else Ok (NewBlockRange (previousToBlock +u64 1) lastL2BlockSynced, retryCount)
  end.

Definition GetLastCertificate (s : Storage) : result flowError (option CertificateHeader) :=
  lift_db (GetLastSentCertificateHeader s).

Definition GeneratePreBuildParams (s : Storage) (now : Z) (certType : CertificateType)
  : result flowError CertificatePreBuildParams :=
  let? lastSent := GetLastCertificate s in
  let? (nextBlocks, retryCount) := NextCertificateBlockRange lastSent in
  let? l1InfoRoot := GetTargetL1InfoRoot in
  Ok (mkPreBuildParams nextBlocks retryCount certType lastSent
        (Some (mkL1InfoTreeData (rt_Hash l1InfoRoot) (rt_Index l1InfoRoot +u32 1))) now).

Definition GenerateBuildParams (preParams : CertificatePreBuildParams) : result flowError CertificateBuildParams :=
  match pp_L1InfoTreeToProve preParams with
  | None => Err ErrL1InfoTreeToProveNil
  | Some toProve =>
      let from := br_FromBlock (pp_BlockRange preParams) in
      let to := br_ToBlock (pp_BlockRange preParams) in
      let? (bridges, claims) := GetBridgesAndClaims from to in
      let? unclaims := GetUnsetClaimsForBlockRange from to in
      Ok (mkBuildParams from to bridges claims unclaims (pp_CreatedAt preParams) (pp_RetryCount preParams)
            (pp_LastSentCertificate preParams) (it_L1InfoTreeRootToProve toProve) (it_L1InfoTreeLeafCount toProve)
            None (pp_CertificateType preParams) [])
  end.

Definition GetCertificateBuildParamsInternal (s : Storage) (now : Z) (certType : CertificateType)
  : result flowError CertificateBuildParams :=
  let? preParams := GeneratePreBuildParams s now certType in
  GenerateBuildParams preParams.

Definition verifyClaimGERs (claims : list SyncedClaim) : result flowError unit :=
  rforeach (fun c =>
    if CalculateGER (sc_MainnetExitRoot c) (sc_RollupExitRoot c) =? sc_GlobalExitRoot c
    then Ok tt else Err ErrGERMismatch) claims.

Definition verifyRetryCertStartingBlock (p : CertificateBuildParams) : result flowError unit :=
  match bp_LastSentCertificate p with
  | Some c =>
      if IsARetry p && negb (bp_FromBlock p =? ch_FromBlock c) then Err ErrRetryFromBlock else Ok tt
  | None => Ok tt
  end.

Definition VerifyBuildParams (p : CertificateBuildParams) : result flowError unit :=
  let? _ := verifyRetryCertStartingBlock p in
  verifyClaimGERs (bp_Claims p).

(** The message of a missing previous certificate wraps a nil error; it is an error all the same. *)
Definition getNextHeightAndPreviousLER (s : Storage) (lastSent : option CertificateHeader)
  : result flowError (Z * Z) :=
  match lastSent with
  | None => Ok (0, bf_initialLER f)
  | Some c =>
      if negb (IsClosed (ch_Status c)) then Err ErrNotClosed
      else if IsSettled (ch_Status c) then Ok (ch_Height c +u64 1, ch_NewLocalExitRoot c)
      else if IsInError (ch_Status c) then
        match ch_PreviousLocalExitRoot c with
        | Some ler => Ok (ch_Height c, ler)
        | None =>
            if ch_Height c =? 0 then Ok (0, bf_initialLER f)
            else
              let? settled := lift_db (GetCertificateHeaderByHeight s (ch_Height c -u64 1)) in
              match settled with
              | None => Err ErrNotSettled
              | Some settled =>
                  if negb (IsSettled (ch_Status settled)) then Err ErrNotSettled
                  else Ok (ch_Height c, ch_NewLocalExitRoot settled)
              end
        end
      else Err ErrNotClosed
  end.

Definition getNewLocalExitRoot (p : CertificateBuildParams) (previousLER : Z) : result flowError Z :=
  if NumberOfBridges p =? 0 then Ok previousLER
  else GetExitRootByIndex (MaxDepositCount p).

Definition GetNewLocalExitRoot (s : Storage) (p : CertificateBuildParams) : result flowError Z :=
  let? (_, previousLER) := getNextHeightAndPreviousLER s (bp_LastSentCertificate p) in
  getNewLocalExitRoot p previousLER.

Definition getBridgeExits (bridges : list Bridge) : list (option BridgeExit) := ConvertToBridgeExits bridges.

(** [unclaimCnt]: the decimal string of a global index stands for the index itself. *)
Definition countUnclaims (unclaims : list Unclaim) : gmap Z Z :=
  fold_left (fun cnt u =>
    match uc_GlobalIndex u with
    | Some g => <[g := default 0 (cnt !! g) + 1]> cnt
    | None => cnt
    end) unclaims ∅.

Fixpoint filterByCount (claims : list SyncedClaim) (cnt : gmap Z Z) : list SyncedClaim :=
  match claims with
  | [] => []
  | c :: claims' =>
      match sc_GlobalIndex c with
      | Some g =>
          if 0 <? default 0 (cnt !! g)
          then filterByCount claims' (<[g := default 0 (cnt !! g) - 1]> cnt)
          else c :: filterByCount claims' cnt
      | None => c :: filterByCount claims' cnt
      end
  end.

Definition getImportedBridgeExits (claims : list SyncedClaim) (unclaims : list Unclaim) (rootFromWhichToProve : Z)
  : result flowError (list (option ImportedBridgeExit)) :=
  let filteredClaims := filterByCount claims (countUnclaims unclaims) in
  if fc_FullClaimsNeeded (bf_cfg f)
  then ConvertToImportedBridgeExits GetProofForGER rootFromWhichToProve filteredClaims
  else ConvertToImportedBridgeExitsWithoutClaimData filteredClaims.

Definition BuildCertificate (s : Storage) (p : CertificateBuildParams) (lastSent : option CertificateHeader)
    (allowEmptyCert : bool) : result flowError Certificate :=
  if negb allowEmptyCert && IsEmpty p then Err ErrNoBridgesAndClaims
  else
    let bridgeExits := getBridgeExits (bp_Bridges p) in
    let? importedBridgeExits :=
      getImportedBridgeExits (bp_Claims p) (bp_Unclaims p) (bp_L1InfoTreeRootFromWhichToProve p) in
    let? (height, previousLER) := getNextHeightAndPreviousLER s lastSent in
    let? newLER := getNewLocalExitRoot p previousLER in
    Ok (mkCertificate OriginNetwork height previousLER newLER bridgeExits importedBridgeExits
          (bp_L1InfoTreeLeafCount p)).

(** The last settled range, as [VerifyBlockRangeGaps] reads it off the last certificate sent. *)
Definition lastSettledRange (c : CertificateHeader) : BlockRange :=
  if IsInError (ch_Status c)
  then NewBlockRange 0 (if 0 <? ch_FromBlock c then ch_FromBlock c -u64 1 else 0)
  else NewBlockRange (ch_FromBlock c) (ch_ToBlock c).

Definition VerifyBlockRangeGaps (lastSent : option CertificateHeader) (newFromBlock newToBlock : Z)
  : result flowError unit :=
  match lastSent with
  | None => Ok tt
  | Some c =>
      let nextBlockRange := NewBlockRange newFromBlock newToBlock in
      let lastBlockRange := lastSettledRange c in
      if BlockRange_Greater lastBlockRange nextBlockRange then Ok tt
      else
        let gap := BlockRange_Gap nextBlockRange lastBlockRange in
        if BlockRange_IsEmpty gap then Ok tt
        else
          let? (bridges, claims) := GetBridgesAndClaims (br_FromBlock gap) (br_ToBlock gap) in
          if (0 <? Z.of_nat (length bridges)) || (0 <? Z.of_nat (length claims)) then Err ErrGapNotEmpty
          else if negb (BlockRange_IsEmpty gap) && fc_RequireNoFEPBlockGap (bf_cfg f) then Err ErrBlockGap
          else Ok tt
  end.

End BaseFlow.

(** ** Claims and unclaims *)

Definition has_index (g : Z) (o : option Z) : bool :=
  match o with Some g' => g =? g' | None => false end.

(** The unclaims of index [g] that are not used yet. *)
Fixpoint free_unclaims (g : Z) (unclaims : list Unclaim) (used : list bool) : nat :=
  match unclaims, used with
  | u :: unclaims', b :: used' =>
      ((if has_index g (uc_GlobalIndex u) && negb b then 1 else 0) + free_unclaims g unclaims' used')%nat
  | _, _ => 0%nat
  end.

Definition unclaims_of (g : Z) (unclaims : list Unclaim) : nat :=
  length (bfilter (fun u => has_index g (uc_GlobalIndex u)) unclaims).

Definition claims_of (g : Z) (claims : list SyncedClaim) : list SyncedClaim :=
  bfilter (fun c => has_index g (sc_GlobalIndex c)) claims.

Lemma useUnclaim_nil unclaims used : useUnclaim None unclaims used = None.
Proof.
  revert used. induction unclaims as [|u us IH]; intros [|b bs]; simpl; try done. by rewrite IH.
Qed.

Lemma useUnclaim_free g unclaims used :
  match useUnclaim (Some g) unclaims used with
  | None => free_unclaims g unclaims used = 0%nat
  | Some used' =>
      free_unclaims g unclaims used = S (free_unclaims g unclaims used') /\
      (forall g', g' <> g -> free_unclaims g' unclaims used' = free_unclaims g' unclaims used)
  end.
Proof.
  revert used. induction unclaims as [|u us IH]; intros [|b bs]; simpl; try done.
  specialize (IH bs). destruct (uc_GlobalIndex u) as [gu|]; simpl.
  - destruct ((g =? gu) && negb b) eqn:E; simpl.
    + bool_hyps. subst. rewrite andb_false_r. split; [done|]. intros g' Hg'.
      by rewrite (proj2 (Z.eqb_neq _ _)) by done.
    + destruct (useUnclaim (Some g) us bs) as [used'|]; simpl; [|done].
      destruct IH as [-> IH]. rewrite E. split; [lia|]. intros g' Hg'. by rewrite IH.
  - destruct (useUnclaim (Some g) us bs) as [used'|]; simpl; done.
Qed.

Lemma free_unclaims_all g unclaims :
  free_unclaims g unclaims (repeat false (length unclaims)) = unclaims_of g unclaims.
Proof.
  unfold unclaims_of. induction unclaims as [|u us IH]; simpl; [done|].
  rewrite IH. by destruct (has_index g (uc_GlobalIndex u)).
Qed.

Lemma countUnclaims_lookup g unclaims :
  default 0 (countUnclaims unclaims !! g) = Z.of_nat (unclaims_of g unclaims).
Proof.
  unfold countUnclaims, unclaims_of. set (step := fun cnt u => _).
  enough (forall cnt, default 0 (fold_left step unclaims cnt !! g) =
            default 0 (cnt !! g) + Z.of_nat (length (bfilter (fun u => has_index g (uc_GlobalIndex u)) unclaims)))
    as Hgen by (rewrite Hgen, lookup_empty; simpl; lia).
  induction unclaims as [|u us IH]; intros cnt; simpl; [lia|]. rewrite IH. unfold step.
  destruct (uc_GlobalIndex u) as [gu|]; simpl; [|lia]. destruct (g =? gu) eqn:E; bool_hyps.
  - subst. rewrite lookup_insert_eq. simpl. lia.
  - by rewrite lookup_insert_ne by done.
Qed.

(** Both loops do the same as long as the counters are the numbers of unused unclaims. *)
Lemma filterUnclaimed_filterByCount claims unclaims used cnt :
  (forall g, default 0 (cnt !! g) = Z.of_nat (free_unclaims g unclaims used)) ->
  filterUnclaimed claims unclaims used = filterByCount claims cnt.
Proof.
  revert used cnt. induction claims as [|c cs IH]; intros used cnt Hcnt; simpl; [done|].
  destruct (sc_GlobalIndex c) as [g|]; [|rewrite useUnclaim_nil; f_equal; by apply IH].
  pose proof (useUnclaim_free g unclaims used) as Hu. rewrite Hcnt.
  destruct (useUnclaim (Some g) unclaims used) as [used'|].
  - destruct Hu as [Hg Hne]. rewrite (proj2 (Z.ltb_lt _ _)) by lia. apply IH. intros g'.
    destruct (decide (g' = g)) as [->|Hneq]; [rewrite lookup_insert_eq; simpl; lia|].
    rewrite lookup_insert_ne by done. by rewrite Hne, Hcnt.
  - rewrite Hu. simpl. f_equal. by apply IH.
Qed.

(** The quadratic loop and the counting loop over the same claims and unclaims. *)
Lemma filters_agree claims unclaims :
  filterUnclaimed claims unclaims (repeat false (length unclaims)) = filterByCount claims (countUnclaims unclaims).
Proof.
  apply filterUnclaimed_filterByCount. intros g. by rewrite countUnclaims_lookup, free_unclaims_all.
Qed.

Lemma filterByCount_empty claims : filterByCount claims ∅ = claims.
Proof.
  induction claims as [|c cs IH]; simpl; [done|].
  rewrite IH. destruct (sc_GlobalIndex c); [by rewrite lookup_empty | done].
Qed.

(** The two places that drop unclaimed claims agree: [GetClaimsFilteringUnclaims] of the build
    parameters, a quadratic search that marks unclaims, and the counting loop of
    [getImportedBridgeExits] keep the same claims in the same order. *)
Theorem unclaim_filters_agree (p : CertificateBuildParams) :
  GetClaimsFilteringUnclaims p = filterByCount (bp_Claims p) (countUnclaims (bp_Unclaims p)).
Proof.
  unfold GetClaimsFilteringUnclaims. destruct (bp_Unclaims p) as [|u us] eqn:E.
  - simpl. by rewrite filterByCount_empty.
  - apply filters_agree.
Qed.

Lemma filterByCount_of g claims cnt :
  (forall g', 0 <= default 0 (cnt !! g')) ->
  claims_of g (filterByCount claims cnt) = drop (Z.to_nat (default 0 (cnt !! g))) (claims_of g claims).
Proof.
  unfold claims_of. revert cnt. induction claims as [|c cs IH]; intros cnt Hpos; simpl; [by rewrite drop_nil|].
  destruct (sc_GlobalIndex c) as [gc|] eqn:Egc; simpl; [|rewrite Egc; simpl; by apply IH].
  destruct (0 <? default 0 (cnt !! gc)) eqn:Ecnt; bool_hyps.
  - rewrite IH.
    2:{ intros g'. destruct (decide (g' = gc)) as [->|]; [rewrite lookup_insert_eq; simpl; lia|].
        by rewrite lookup_insert_ne by done. }
    destruct (g =? gc) eqn:E; bool_hyps.
    + subst. rewrite lookup_insert_eq. simpl.
      replace (Z.to_nat (default 0 (cnt !! gc))) with (S (Z.to_nat (default 0 (cnt !! gc) - 1))) by lia. done.
    + by rewrite lookup_insert_ne by done.
  - simpl. rewrite Egc. simpl. rewrite IH by done. destruct (g =? gc) eqn:E; bool_hyps; [|done].
    subst. pose proof (Hpos gc). by replace (default 0 (cnt !! gc)) with 0 by lia.
Qed.

Lemma filterByCount_unindexed claims cnt :
  bfilter (fun c => is_nil (sc_GlobalIndex c)) (filterByCount claims cnt) =
  bfilter (fun c => is_nil (sc_GlobalIndex c)) claims.
Proof.
  revert cnt. induction claims as [|c cs IH]; intros cnt; simpl; [done|].
  destruct (sc_GlobalIndex c) as [g|] eqn:E; simpl.
  - destruct (0 <? _); simpl; rewrite ?E; simpl; by rewrite IH.
  - rewrite E. simpl. by rewrite IH.
Qed.

(** What a certificate imports: of the claims of each global index, the first [k] are left out,
    [k] being the number of unclaims of that index in the range, and all others stay, in their
    order; claims without an index always stay. *)
Theorem imported_claims_per_index (claims : list SyncedClaim) (unclaims : list Unclaim) :
  (forall g, claims_of g (filterByCount claims (countUnclaims unclaims)) =
             drop (unclaims_of g unclaims) (claims_of g claims)) /\
  bfilter (fun c => is_nil (sc_GlobalIndex c)) (filterByCount claims (countUnclaims unclaims)) =
  bfilter (fun c => is_nil (sc_GlobalIndex c)) claims.
Proof.
  split; [intros g | apply filterByCount_unindexed].
  rewrite filterByCount_of by (intros g'; rewrite countUnclaims_lookup; lia).
  by rewrite countUnclaims_lookup, Nat2Z.id.
Qed.

(** ** Block ranges *)

Section RangeProofs.
Context `{Kc : Keccak} `{Bq : BridgeQuerier} `{Lq : L1InfoTreeDataQuerier} `{Cq : CertificateQuerier}.
Context (f : baseFlow).

Definition header_wf (c : CertificateHeader) : Prop :=
  is_u64 (ch_FromBlock c) /\ is_u64 (ch_ToBlock c) /\ ch_FromBlock c <= ch_ToBlock c.

Lemma lastSettledRange_wf c :
  header_wf c -> br_wf (lastSettledRange c) /\ BlockRange_IsEmpty (lastSettledRange c) = false.
Proof.
  intros (Hf & Ht & Hle). rewrite BlockRange_IsEmpty_false. unfold lastSettledRange, br_wf.
  destruct (IsInError _); simpl; [|tauto].
  destruct (0 <? ch_FromBlock c) eqn:E; bool_hyps; word_small; unfold_words; lia.
Qed.

(** The gap of a range that starts beyond another one. *)
Lemma BlockRange_Gap_after b o :
  br_wf b -> br_wf o -> BlockRange_IsEmpty b = false -> BlockRange_IsEmpty o = false ->
  BlockRange_Gap b o =
    if br_FromBlock b <=? br_ToBlock o + 1 then
      if br_FromBlock o <=? br_ToBlock b + 1 then BlockRangeZero
      else NewBlockRange (br_ToBlock b + 1) (br_FromBlock o - 1)
    else NewBlockRange (br_ToBlock o + 1) (br_FromBlock b - 1).
Proof.
  intros [Hbf Hbt] [Hof Hot] Eb Eo. unfold BlockRange_Gap. rewrite Eb, Eo. simpl.
  apply BlockRange_IsEmpty_false in Eb as [_ Hb], Eo as [_ Ho]. unfold getBlockMinusOne.
  destruct (0 <? br_FromBlock o) eqn:E0, (0 <? br_FromBlock b) eqn:E1; bool_hyps; word_small;
    destruct (br_FromBlock b <=? br_ToBlock o + 1) eqn:E2, (br_FromBlock o <=? br_ToBlock b + 1) eqn:E3;
    bool_hyps; try (unfold_words; lia);
    match goal with
    | |- context [(?a <=? ?b') && (?c <=? ?d)] =>
        destruct (Z.leb_spec a b'), (Z.leb_spec c d); simpl; try (unfold_words; lia); try done
    end;
    destruct (Z.ltb_spec (br_ToBlock b) (br_FromBlock o)); try (unfold_words; lia); try (by word_small).
Qed.

(** [VerifyBlockRangeGaps] accepts a new range exactly when it starts no later than one block
    after the last settled one, or when the blocks left out in between are allowed to exist and
    hold neither a bridge nor a claim. *)
Theorem VerifyBlockRangeGaps_iff c newFrom newTo :
  header_wf c -> is_u64 newFrom -> is_u64 newTo -> newFrom <= newTo ->
  let lastTo := br_ToBlock (lastSettledRange c) in
  VerifyBlockRangeGaps f (Some c) newFrom newTo = Ok tt <->
    newFrom <= lastTo + 1 \/
    (fc_RequireNoFEPBlockGap (bf_cfg f) = false /\ GetBridgesAndClaims (lastTo + 1) (newFrom - 1) = Ok ([], [])).
Proof.
  intros Hc Hf Ht Hle lastTo. destruct (lastSettledRange_wf c Hc) as [Hwf Hne].
  assert (BlockRange_IsEmpty (NewBlockRange newFrom newTo) = false) as Hne' by (by apply BlockRange_IsEmpty_false).
  unfold VerifyBlockRangeGaps, BlockRange_Greater. rewrite Hne, Hne'. cbn [andb br_ToBlock NewBlockRange].
  rewrite BlockRange_Gap_after by done. cbn [br_FromBlock br_ToBlock NewBlockRange]. fold lastTo.
  apply BlockRange_IsEmpty_false in Hne as [_ Hne]. fold lastTo in Hne.
  destruct (newTo <? br_FromBlock (lastSettledRange c)) eqn:E1; bool_hyps; [split; [lia | done]|].
  destruct (newFrom <=? lastTo + 1) eqn:E2; bool_hyps.
  - rewrite (proj2 (Z.leb_le _ _)) by lia. simpl. split; [lia | done].
  - replace (BlockRange_IsEmpty (NewBlockRange (lastTo + 1) (newFrom - 1))) with false
      by (symmetry; apply BlockRange_IsEmpty_false; simpl; split; [done | lia]).
    cbn [br_FromBlock br_ToBlock NewBlockRange].
    destruct (GetBridgesAndClaims _ _) as [[[|b bs] [|cl cls]]|e]; simpl;
      try (split; [done | intros [|[_ [=]]]; lia]).
    destruct (fc_RequireNoFEPBlockGap _); split; try done; [intros [|[[=] _]]; lia | by right].
Qed.

(** The next certificate goes up to the last synced block and starts right after what is
    settled: at the configured block for the first one, after the boundary the certificate
    querier derives when the last one settled, and, when the last one failed, at the very block it
    started from, with the retry counter increased, so that the check of the starting block of a
    retry accepts it. *)
Theorem NextCertificateBlockRange_start lastSent range retryCount :
  bf_hasCertQuerier f = true ->
  is_u64 (fc_StartL2Block (bf_cfg f) + 1) ->
  (forall c, lastSent = Some c -> 0 < ch_FromBlock c /\ is_u64 (ch_FromBlock c) /\ 0 <= ch_RetryCount c) ->
  NextCertificateBlockRange f lastSent = Ok (range, retryCount) ->
  GetLastProcessedBlock = Ok (Some (br_ToBlock range)) /\
  match lastSent with
  | None => br_FromBlock range = fc_StartL2Block (bf_cfg f) + 1 /\ retryCount = 0
  | Some c =>
      match ch_Status c with
      | Settled =>
          exists settledTo, retryCount = 0 /\ br_FromBlock range = settledTo +u64 1 /\
            GetLastSettledCertificateToBlock (ConvertAggsenderCertHeaderToAgglayer (Some c)) = Ok settledTo
      | InError =>
          br_FromBlock range = ch_FromBlock c /\ retryCount = ch_RetryCount c + 1 /\
          forall p, bp_LastSentCertificate p = Some c -> bp_FromBlock p = br_FromBlock range ->
            verifyRetryCertStartingBlock p = Ok tt
      | _ => br_FromBlock range = ch_ToBlock c +u64 1 /\ retryCount = 0
      end
  end.
Proof.
  intros Hq Hu Hc. unfold NextCertificateBlockRange, getLastSentBlockAndRetryCount.
  destruct GetLastProcessedBlock as [[synced|]|e]; simpl; try done.
  destruct lastSent as [c|]; simpl.
  2:{ destruct (synced <=? _); intros [= <- <-]. split; [done|]. simpl. split; [|done].
      unfold StartL2Block. by rewrite add64_small. }
  destruct (Hc c eq_refl) as (Hpos & Hf & Hr).
  unfold IsSettled. rewrite Hq, andb_true_r.
  destruct (ch_Status c) eqn:Est; repeat case_bool_decide; try done; simpl.
  - destruct (synced <=? _); intros [= <- <-]. done.
  - destruct (synced <=? _); intros [= <- <-]. done.
  - destruct (synced <=? _); intros [= <- <-]. done.
  - rewrite (proj2 (Z.ltb_lt _ _)) by done.
    destruct (synced <=? _); intros [= <- <-]. split; [done|].
    assert (br_FromBlock (NewBlockRange (ch_FromBlock c -u64 1 +u64 1) synced) = ch_FromBlock c) as ->
      by (simpl; word_small; lia).
    split; [done|]. split; [done|]. intros p Hl Hp. unfold verifyRetryCertStartingBlock.
    rewrite Hl, Hp, Z.eqb_refl. by rewrite andb_false_r.
  - destruct (GetLastSettledCertificateToBlock _) as [settledTo|e] eqn:Eq; simpl; [|done].
    destruct (synced <=? _); intros [= <- <-]. split; [done|]. by exists settledTo.
Qed.

End RangeProofs.

(** ** Examples *)

Definition in_blocks (from to n : Z) : bool := (from <=? n) && (n <=? to).

(** A bridge querier that answers from lists of events. *)
Definition events_querier (bridges : list Bridge) (claims : list SyncedClaim) (unclaims : list Unclaim)
    (synced exitRoot : Z) : BridgeQuerier := {|
  GetLastProcessedBlock := Ok (Some synced);
  GetBridgesAndClaims := fun from to =>
    Ok (bfilter (fun b => in_blocks from to (br_BlockNum b)) bridges,
        bfilter (fun c => in_blocks from to (sc_BlockNum c)) claims);
  GetUnsetClaimsForBlockRange := fun from to =>
    Ok (bfilter (fun u => in_blocks from to (uc_BlockNumber u)) unclaims);
  GetExitRootByIndex := fun _ => Ok exitRoot;
  OriginNetwork := 1
|}.

Definition example_bridge (block depositCount : Z) : Bridge := mkBridge block 0 0 0 1 0 2 (Some 5) [] depositCount.
Definition example_flow : baseFlow := mkBaseFlow 77 true NewBaseFlowConfigDefault.
Definition example_sent (from to : Z) (st : CertificateStatus) : CertificateHeader :=
  mkCertificateHeader 4 2 50 None 7 from to st 0 0 None 0 CertificateTypePP CertificateSourceLocal.
Definition example_events : BridgeQuerier := events_querier [example_bridge 25 3] [] [] 30 99.

Lemma VerifyBlockRangeGaps_iff_witness :
  VerifyBlockRangeGaps (Bq := example_events) example_flow (Some (example_sent 10 15 Settled)) 20 30 = Ok tt <->
    20 <= 15 + 1 \/
    (fc_RequireNoFEPBlockGap (bf_cfg example_flow) = false /\
     GetBridgesAndClaims (BridgeQuerier := example_events) (15 + 1) (20 - 1) = Ok ([], [])).
Proof.
  refine (@VerifyBlockRangeGaps_iff example_events example_flow (example_sent 10 15 Settled) 20 30 _ _ _ _).
  - repeat split; vm_compute; congruence.
  - split; vm_compute; congruence.
  - split; vm_compute; congruence.
  - vm_compute. congruence.
Defined.

Lemma NextCertificateBlockRange_start_witness :
  let range := NewBlockRange 20 30 in
  GetLastProcessedBlock (BridgeQuerier := example_events) = Ok (Some (br_ToBlock range)) /\
  (br_FromBlock range = 20 /\ 3 = 2 + 1 /\
   forall p, bp_LastSentCertificate p = Some (example_sent 20 25 InError) -> bp_FromBlock p = br_FromBlock range ->
     verifyRetryCertStartingBlock p = Ok tt).
Proof.
  refine (@NextCertificateBlockRange_start example_events example_querier example_flow
    (Some (example_sent 20 25 InError)) (NewBlockRange 20 30) 3 _ _ _ _).
  - reflexivity.
  - split; vm_compute; congruence.
  - intros c [= <-]. repeat split; vm_compute; congruence.
  - vm_compute. reflexivity.
Defined.
