(* ===== verification/AdjustRange.v ===== *)
(** The adjustment of the block range of a certificate ([aggsender/flows/adjust_block_range.go]):
    a chain of steps that each may shorten the range from its end.

    [limitCertSize] and [adjustInvalidClaimsAreNotUnclaimed] loop; their definitions take fuel and
    return [None] when it runs out.  The cache of global exit roots, one mutable map per call of
    [AdjustBlockRange], is passed from step to step. *)

From S2P Require Import Prelude Bytes BlockRange Merkle AgglayerTypes CertStorage StatusChecker BuildParams Flow.

(** ** Ranges of parameters *)

Definition filterBridgesInRange (bridges : list Bridge) (fromBlock toBlock : Z) : list Bridge :=
  bfilter (fun b => (fromBlock <=? br_BlockNum b) && (br_BlockNum b <=? toBlock)) bridges.

Definition filterClaimsInRange (claims : list SyncedClaim) (fromBlock toBlock : Z) : list SyncedClaim :=
  bfilter (fun c => (fromBlock <=? sc_BlockNum c) && (sc_BlockNum c <=? toBlock)) claims.

Definition filterUnclaimsInRange (unclaims : list Unclaim) (fromBlock toBlock : Z) : list Unclaim :=
  bfilter (fun u => (fromBlock <=? uc_BlockNumber u) && (uc_BlockNumber u <=? toBlock)) unclaims.

Definition cloneCertificateBuildParamsWithRange (p : CertificateBuildParams) (fromBlock toBlock : Z)
  : result flowError CertificateBuildParams :=
  if (fromBlock <? bp_FromBlock p) || (bp_ToBlock p <? toBlock) then Err ErrInvalidRange
  else if toBlock <? fromBlock then Err ErrInvalidRange
  else if (bp_FromBlock p =? fromBlock) && (bp_ToBlock p =? toBlock) then Ok p
  else Ok (mkBuildParams fromBlock toBlock
             (filterBridgesInRange (bp_Bridges p) fromBlock toBlock)
             (filterClaimsInRange (bp_Claims p) fromBlock toBlock)
             (filterUnclaimsInRange (bp_Unclaims p) fromBlock toBlock)
             (bp_CreatedAt p) (bp_RetryCount p) (bp_LastSentCertificate p)
             (bp_L1InfoTreeRootFromWhichToProve p) (bp_L1InfoTreeLeafCount p)
             (bp_AggchainProof p) (bp_CertificateType p) (bp_ExtraData p)).

Definition trimCertificateToBlock (p : CertificateBuildParams) (newToBlock : Z)
  : result flowError CertificateBuildParams :=
  if bp_ToBlock p <? newToBlock then Err ErrHigherToBlock
  else if bp_ToBlock p =? newToBlock then Ok p
  else if newToBlock <? bp_FromBlock p then Err ErrTrimBeforeStart
  else cloneCertificateBuildParamsWithRange p (bp_FromBlock p) newToBlock.

Definition isUpcomingNextRange (maxL2BlockNumber fromBlock toBlock : Z) : bool :=
  if maxL2BlockNumber =? 0 then false
  else (fromBlock =? maxL2BlockNumber +u64 1) && (maxL2BlockNumber <? toBlock).

(** ** Order of events *)

Definition compareEventOrder (leftBlock leftIndex rightBlock rightIndex : Z) : Z :=
  if leftBlock <? rightBlock then -1
  else if rightBlock <? leftBlock then 1
  else if leftIndex <? rightIndex then -1
  else if rightIndex <? leftIndex then 1
  else 0.

Definition compareClaimToUnclaimOrder (c : SyncedClaim) (u : Unclaim) : Z :=
  compareEventOrder (sc_BlockNum c) (sc_BlockPos c) (uc_BlockNumber u) (uc_LogIndex u).

(** The loop over the unclaims; [Some used'] is the marked slice when one was found. *)
Fixpoint posteriorUnclaim_loop (c : SyncedClaim) (g : Z) (unclaims : list Unclaim) (used : list bool)
  : option (list bool) :=
  match unclaims, used with
  | u :: unclaims', b :: used' =>
      let continue := cons b <$> posteriorUnclaim_loop c g unclaims' used' in
      match uc_GlobalIndex u with
      | None => continue
      | Some g' =>
          if b then continue
          else if negb (g =? g') then continue
          else if 0 <=? compareClaimToUnclaimOrder c u then continue
          else Some (true :: used')
      end
  | _, _ => None
  end.

Definition claimHasPosteriorUnclaim (c : SyncedClaim) (unclaims : list Unclaim) (used : list bool)
  : option (list bool) :=
  match sc_GlobalIndex c with
  | None => None
  | Some g => posteriorUnclaim_loop c g unclaims used
  end.

(** The loop over the claims of missing roots; the slice of used unclaims is shared. *)
Fixpoint firstWithoutUnclaim (missing : list SyncedClaim) (unclaims : list Unclaim) (used : list bool)
  : option SyncedClaim :=
  match missing with
  | [] => None
  | c :: missing' =>
      match claimHasPosteriorUnclaim c unclaims used with
      | Some used' => firstWithoutUnclaim missing' unclaims used'
      | None => Some c
      end
  end.

(** ** Steps *)

(** [existsOnL1] of the cache. *)
Abbreviation gerValidationCache := (gmap Z bool).

Section Adjust.
Context `{Lq : L1InfoTreeDataQuerier}.
Context (f : baseFlow).

Definition adjustToMaxL2Block (p : CertificateBuildParams) (options : BlockRangeAdjustmentOptions)
    (maxL2BlockNumber : Z) (completeOnEmptyRequiredBridge : bool) : result flowError CertificateBuildParams :=
  let? adjusted := cloneCertificateBuildParamsWithRange p (bp_FromBlock p) maxL2BlockNumber in
  if negb (op_RequireOneBridgeInCertificate options) && IsEmpty adjusted then Ok adjusted
  else if op_RequireOneBridgeInCertificate options && (NumberOfBridges adjusted =? 0) then
    if 0 <? NumberOfClaims adjusted then Err ErrNoBridgesInRange
    else if completeOnEmptyRequiredBridge then Err ErrComplete
    else Err ErrNoBridgesInRange
  else Ok adjusted.

Definition adjustMaxL2BlockNumber (p : CertificateBuildParams) (options : BlockRangeAdjustmentOptions)
  : result flowError CertificateBuildParams :=
  if (op_MaxL2BlockNumber options =? 0) || (bp_ToBlock p <=? op_MaxL2BlockNumber options) then Ok p
  else if IsARetry p && negb (op_AllowResizeRetryCert options) then Err ErrMaxL2BlockNumberExceededInARetryCert
  else if isUpcomingNextRange (op_MaxL2BlockNumber options) (bp_FromBlock p) (bp_ToBlock p) then Err ErrComplete
  else if op_MaxL2BlockNumber options <? bp_FromBlock p then Err ErrComplete
  else adjustToMaxL2Block p options (op_MaxL2BlockNumber options) true.

Definition adjustMaxL2BlockRange (p : CertificateBuildParams) (options : BlockRangeAdjustmentOptions)
  : result flowError CertificateBuildParams :=
  if (op_MaxL2BlockRange options =? 0) || (bp_ToBlock p <=? bp_FromBlock p)
     || (bp_ToBlock p -u64 bp_FromBlock p <=? op_MaxL2BlockRange options) then Ok p
  else
    let newToBlock := bp_FromBlock p +u64 op_MaxL2BlockRange options in
    if IsARetry p && negb (op_AllowResizeRetryCert options) then Err ErrMaxL2BlockRangeExceededInARetryCert
    else adjustToMaxL2Block p options newToBlock false.

Definition validateRootToProveIsFinalized (p : CertificateBuildParams) : result flowError unit :=
  if bp_L1InfoTreeLeafCount p =? 0 then Err ErrLeafCountZero
  else
    let? rootForLeafCount := GetL1InfoRootByLeafIndex (bp_L1InfoTreeLeafCount p -u32 1) in
    if negb (rt_Hash rootForLeafCount =? bp_L1InfoTreeRootFromWhichToProve p) then Err ErrRootMismatch
    else
      let? latestFinalizedRoot := GetTargetL1InfoRoot in
      if rt_Index latestFinalizedRoot <? rt_Index rootForLeafCount then Err ErrRootNotFinalized
      else Ok tt.

Definition getGERExistsOnL1 (cache : gerValidationCache) (ger : Z) : result flowError (bool * gerValidationCache) :=
  match cache !! ger with
  | Some exists_ => Ok (exists_, cache)
  | None =>
      let? exists_ := DoesGERExistsOnL1 ger in
      Ok (exists_, <[ger := exists_]> cache)
  end.

Definition lowestBlockClaim (notUnderRoot : option SyncedClaim) (c : SyncedClaim) : option SyncedClaim :=
  match notUnderRoot with
  | None => Some c
  | Some n => if sc_BlockNum c <? sc_BlockNum n then Some c else Some n
  end.

(** The loop of [adjustClaimsNotProvableAgainstRoot]. *)
Fixpoint notUnderRoot_loop (p : CertificateBuildParams) (claims : list SyncedClaim) (cache : gerValidationCache)
    (notUnderRoot : option SyncedClaim) : result flowError (option SyncedClaim * gerValidationCache) :=
  match claims with
  | [] => Ok (notUnderRoot, cache)
  | c :: claims' =>
      match GetProofForGER (sc_GlobalExitRoot c) (bp_L1InfoTreeRootFromWhichToProve p) with
      | Ok _ => notUnderRoot_loop p claims' (<[sc_GlobalExitRoot c := true]> cache) notUnderRoot
      | Err err =>
          let? (existsOnL1, cache) := getGERExistsOnL1 cache (sc_GlobalExitRoot c) in
          if negb existsOnL1 then notUnderRoot_loop p claims' cache notUnderRoot
          else if bool_decide (err = ErrGERNotProvableAgainstRoot) then
            if bp_L1InfoTreeLeafCount p =? 0 then Err ErrLeafCountZero
            else
              let? underRoot := IsGERFinalized (sc_GlobalExitRoot c) (bp_L1InfoTreeLeafCount p) in
              if underRoot then Err ErrUnderRootNotProvable
              else
                notUnderRoot_loop p claims' cache (lowestBlockClaim notUnderRoot c)
          else Err err
      end
  end.

Definition adjustClaimsNotProvableAgainstRoot (p : CertificateBuildParams) (cache : gerValidationCache)
  : result flowError (CertificateBuildParams * gerValidationCache) :=
  let? (notUnderRoot, cache) := notUnderRoot_loop p (bp_Claims p) cache None in
  match notUnderRoot with
  | None => Ok (p, cache)
  | Some c =>
      if sc_BlockNum c <=? bp_FromBlock p then Err ErrNotUnderRootAtStart
      else
        let? trimmed := trimCertificateToBlock p (sc_BlockNum c -u64 1) in
        Ok (trimmed, cache)
  end.

Fixpoint limitCertSize (fuel : nat) (currentCert : CertificateBuildParams)
  : option (result flowError CertificateBuildParams) :=
  match fuel with
  | O => None
  | S fuel' =>
      if (fc_MaxCertSize (bf_cfg f) =? 0) || (EstimatedSize currentCert <=? fc_MaxCertSize (bf_cfg f))
      then Some (Ok currentCert)
      else if NumberOfBlocks currentCert <=? 1 then Some (Ok currentCert)
      else
        match cloneCertificateBuildParamsWithRange currentCert (bp_FromBlock currentCert)
                (bp_ToBlock currentCert -u64 1) with
        | Err e => Some (Err e)
        | Ok nextCert => limitCertSize fuel' nextCert
        end
  end.

(** The loop that collects the claims of missing roots. *)
Fixpoint missingClaims_loop (claims : list SyncedClaim) (cache : gerValidationCache)
  : result flowError (list SyncedClaim * gerValidationCache) :=
  match claims with
  | [] => Ok ([], cache)
  | c :: claims' =>
      let? (existsOnL1, cache) := getGERExistsOnL1 cache (sc_GlobalExitRoot c) in
      let? (missing, cache) := missingClaims_loop claims' cache in
      Ok (if existsOnL1 then missing else c :: missing, cache)
  end.

Definition findFirstMissingGERClaimWithoutFinalUnclaim (p : CertificateBuildParams) (cache : gerValidationCache)
  : result flowError (option SyncedClaim * gerValidationCache) :=
  let? (missing, cache) := missingClaims_loop (bp_Claims p) cache in
  match missing with
  | [] => Ok (None, cache)
  | _ => Ok (firstWithoutUnclaim missing (bp_Unclaims p) (repeat false (length (bp_Unclaims p))), cache)
  end.

Fixpoint adjustInvalidClaimsAreNotUnclaimed (fuel : nat) (current : CertificateBuildParams)
    (cache : gerValidationCache) : option (result flowError CertificateBuildParams) :=
  match fuel with
  | O => None
  | S fuel' =>
      match findFirstMissingGERClaimWithoutFinalUnclaim current cache with
      | Err e => Some (Err e)
      | Ok (None, _) => Some (Ok current)
      | Ok (Some invalidClaim, cache) =>
          if sc_BlockNum invalidClaim <=? bp_FromBlock current then Some (Err ErrInvalidClaimAtStart)
          else
            match trimCertificateToBlock current (sc_BlockNum invalidClaim -u64 1) with
            | Err e => Some (Err e)
            | Ok current => adjustInvalidClaimsAreNotUnclaimed fuel' current cache
            end
      end
  end.

(** The steps before the size limit. *)
Definition adjustBeforeSize (p : CertificateBuildParams) (options : BlockRangeAdjustmentOptions)
  : result flowError (CertificateBuildParams * gerValidationCache) :=
  let? current := adjustMaxL2BlockNumber p options in
  let? current := adjustMaxL2BlockRange current options in
  let? _ := if op_ValidateRootToProve options then validateRootToProveIsFinalized current else Ok tt in
  adjustClaimsNotProvableAgainstRoot current ∅.

Definition AdjustBlockRange (fuel : nat) (buildParams : option CertificateBuildParams)
    (options : BlockRangeAdjustmentOptions) : option (result flowError CertificateBuildParams) :=
  match buildParams with
  | None => Some (Err ErrBuildParamsIsNil)
  | Some p =>
      match adjustBeforeSize p options with
      | Err e => Some (Err e)
      | Ok (current, cache) =>
          match (if op_DisableSizeLimit options then Some (Ok current) else limitCertSize fuel current) with
          | None => None
          | Some (Err e) => Some (Err e)
          | Some (Ok current) => adjustInvalidClaimsAreNotUnclaimed fuel current cache
          end
      end
  end.

End Adjust.

(** ** Shortened parameters *)

(** The parameters cut at block [t]: what every step returns. *)
Definition restrict (p : CertificateBuildParams) (t : Z) : CertificateBuildParams :=
  mkBuildParams (bp_FromBlock p) t
    (filterBridgesInRange (bp_Bridges p) (bp_FromBlock p) t)
    (filterClaimsInRange (bp_Claims p) (bp_FromBlock p) t)
    (filterUnclaimsInRange (bp_Unclaims p) (bp_FromBlock p) t)
    (bp_CreatedAt p) (bp_RetryCount p) (bp_LastSentCertificate p)
    (bp_L1InfoTreeRootFromWhichToProve p) (bp_L1InfoTreeLeafCount p)
    (bp_AggchainProof p) (bp_CertificateType p) (bp_ExtraData p).

(** A non-empty range below the last [uint64] whose events lie in it, as [GenerateBuildParams] makes it. *)
Record params_wf (p : CertificateBuildParams) : Prop := {
  wf_from : is_u64 (bp_FromBlock p);
  wf_to : is_u64 (bp_ToBlock p + 1);
  wf_le : bp_FromBlock p <= bp_ToBlock p;
  wf_bridges : Forall (fun b => bp_FromBlock p <= br_BlockNum b <= bp_ToBlock p) (bp_Bridges p);
  wf_claims : Forall (fun c => bp_FromBlock p <= sc_BlockNum c <= bp_ToBlock p) (bp_Claims p);
  wf_unclaims : Forall (fun u => bp_FromBlock p <= uc_BlockNumber u <= bp_ToBlock p) (bp_Unclaims p)
}.

Lemma bfilter_range_all {A} (block : A -> Z) from to l :
  Forall (fun x => from <= block x <= to) l ->
  bfilter (fun x => (from <=? block x) && (block x <=? to)) l = l.
Proof.
  intros Hl. apply bfilter_all. intros x Hx. rewrite Forall_forall in Hl.
  specialize (Hl x (proj2 (list_elem_of_In _ _) Hx)). apply andb_true_iff. rewrite !Z.leb_le. lia.
Qed.

Lemma bfilter_range_twice {A} (block : A -> Z) from t1 t2 l :
  t2 <= t1 ->
  bfilter (fun x => (from <=? block x) && (block x <=? t2)) (bfilter (fun x => (from <=? block x) && (block x <=? t1)) l)
  = bfilter (fun x => (from <=? block x) && (block x <=? t2)) l.
Proof.
  intros Ht. rewrite bfilter_bfilter. apply bfilter_ext. intros x _.
  destruct (Z.leb_spec from (block x)), (Z.leb_spec (block x) t1), (Z.leb_spec (block x) t2); simpl; try done; lia.
Qed.

Lemma bfilter_range_Forall {A} (block : A -> Z) from to l :
  Forall (fun x => from <= block x <= to) (bfilter (fun x => (from <=? block x) && (block x <=? to)) l).
Proof.
  apply Forall_forall. intros x Hx. apply list_elem_of_In, bfilter_In in Hx as [_ Hx]. bool_hyps. lia.
Qed.

Lemma restrict_self p : params_wf p -> restrict p (bp_ToBlock p) = p.
Proof.
  intros []. unfold restrict, filterBridgesInRange, filterClaimsInRange, filterUnclaimsInRange.
  rewrite !bfilter_range_all by done. by destruct p.
Qed.

Lemma restrict_restrict p t1 t2 : t2 <= t1 -> restrict (restrict p t1) t2 = restrict p t2.
Proof.
  intros Ht. unfold restrict, filterBridgesInRange, filterClaimsInRange, filterUnclaimsInRange. simpl.
  by rewrite !bfilter_range_twice.
Qed.

Lemma restrict_wf p t : params_wf p -> bp_FromBlock p <= t <= bp_ToBlock p -> params_wf (restrict p t).
Proof.
  intros [] Ht. constructor; simpl; try done; try apply bfilter_range_Forall; try lia. unfold_words. lia.
Qed.

Lemma clone_restrict p t :
  params_wf p -> bp_FromBlock p <= t <= bp_ToBlock p ->
  cloneCertificateBuildParamsWithRange p (bp_FromBlock p) t = Ok (restrict p t).
Proof.
  intros Hp Ht. unfold cloneCertificateBuildParamsWithRange.
  rewrite !(proj2 (Z.ltb_ge _ _)) by lia. simpl. rewrite Z.eqb_refl. simpl.
  destruct (bp_ToBlock p =? t) eqn:E; [|done]. bool_hyps. subst. by rewrite restrict_self.
Qed.

Lemma trim_restrict p t :
  params_wf p -> bp_FromBlock p <= t <= bp_ToBlock p -> trimCertificateToBlock p t = Ok (restrict p t).
Proof.
  intros Hp Ht. unfold trimCertificateToBlock. rewrite !(proj2 (Z.ltb_ge _ _)) by lia.
  destruct (bp_ToBlock p =? t) eqn:E; [bool_hyps; subst; by rewrite restrict_self | by apply clone_restrict].
Qed.

(** [q] is [p] shortened. *)
Definition shortened (p q : CertificateBuildParams) : Prop :=
  exists t, bp_FromBlock p <= t <= bp_ToBlock p /\ q = restrict p t.

Lemma shortened_refl p : params_wf p -> shortened p p.
Proof. intros Hp. exists (bp_ToBlock p). split; [destruct Hp; lia | by rewrite restrict_self]. Qed.

Lemma shortened_trans p q r : shortened p q -> shortened q r -> shortened p r.
Proof.
  intros (t1 & Ht1 & ->) (t2 & Ht2 & ->). simpl in Ht2. exists t2.
  split; [lia | apply restrict_restrict; lia].
Qed.

Lemma shortened_wf p q : params_wf p -> shortened p q -> params_wf q.
Proof. intros Hp (t & Ht & ->). by apply restrict_wf. Qed.

Lemma shortened_claims p q c : shortened p q -> In c (bp_Claims q) -> In c (bp_Claims p).
Proof. intros (t & _ & ->) Hc. simpl in Hc. by apply bfilter_In in Hc as [Hc _]. Qed.

Lemma shortened_range p q : shortened p q -> bp_FromBlock q = bp_FromBlock p /\ bp_ToBlock q <= bp_ToBlock p.
Proof. intros (t & Ht & ->). simpl. lia. Qed.

(** ** Limits on blocks *)

Section Limits.
Context (options : BlockRangeAdjustmentOptions).

Lemma adjustToMaxL2Block_short p t complete q :
  params_wf p -> bp_FromBlock p <= t <= bp_ToBlock p ->
  adjustToMaxL2Block p options t complete = Ok q -> q = restrict p t.
Proof.
  intros Hp Ht. unfold adjustToMaxL2Block. rewrite clone_restrict by done. simpl.
  destruct (negb _ && _); [by intros [= <-]|]. destruct (_ && _); [|by intros [= <-]].
  destruct (0 <? _); [done|]. by destruct complete.
Qed.

Lemma adjustMaxL2BlockNumber_short p q :
  params_wf p -> adjustMaxL2BlockNumber p options = Ok q ->
  shortened p q /\ (op_MaxL2BlockNumber options <> 0 -> bp_ToBlock q <= op_MaxL2BlockNumber options).
Proof.
  intros Hp. unfold adjustMaxL2BlockNumber.
  destruct (_ || _) eqn:E1.
  { intros [= <-]. split; [by apply shortened_refl|]. apply orb_true_iff in E1 as [E1|E1]; bool_hyps; lia. }
  destruct (IsARetry p && _); [done|]. destruct (isUpcomingNextRange _ _ _); [done|].
  destruct (op_MaxL2BlockNumber options <? bp_FromBlock p) eqn:E2; [done|]. bool_hyps.
  intros Hq. apply adjustToMaxL2Block_short in Hq as ->; [|done | lia].
  simpl. split; [|lia]. exists (op_MaxL2BlockNumber options). split; [lia | done].
Qed.

Lemma adjustMaxL2BlockRange_short p q :
  params_wf p -> 0 <= op_MaxL2BlockRange options -> adjustMaxL2BlockRange p options = Ok q ->
  shortened p q /\ (op_MaxL2BlockRange options <> 0 -> bp_ToBlock q - bp_FromBlock q <= op_MaxL2BlockRange options).
Proof.
  intros Hp Hr. pose proof (wf_from _ Hp). pose proof (wf_to _ Hp). pose proof (wf_le _ Hp).
  unfold adjustMaxL2BlockRange. rewrite sub64_small by (unfold_words; lia).
  destruct (_ || _) eqn:E1.
  { intros [= <-]. split; [by apply shortened_refl|]. intros Hne.
    apply orb_true_iff in E1 as [E1|E1]; [apply orb_true_iff in E1 as [E1|E1]|]; bool_hyps; lia. }
  bool_hyps. destruct (IsARetry p && _); [done|]. rewrite add64_small by (unfold_words; lia).
  intros Hq. apply adjustToMaxL2Block_short in Hq as ->; [|done | lia].
  simpl. split; [|lia]. exists (bp_FromBlock p + op_MaxL2BlockRange options). split; [lia | done].
Qed.

End Limits.

(** ** The size limit *)

Section Size.
Context (f : baseFlow).

Lemma NumberOfBlocks_one p : params_wf p -> (NumberOfBlocks p <=? 1) = (bp_ToBlock p =? bp_FromBlock p).
Proof.
  intros [Hf Ht Hle _ _ _]. unfold NumberOfBlocks.
  rewrite (sub64_small (bp_ToBlock p)), add64_small by (unfold_words; lia).
  destruct (Z.ltb_spec MaxInt64 (bp_ToBlock p - bp_FromBlock p + 1));
    [destruct (Z.leb_spec MaxInt64 1) | destruct (Z.leb_spec (bp_ToBlock p - bp_FromBlock p + 1) 1)];
    destruct (Z.eqb_spec (bp_ToBlock p) (bp_FromBlock p)); unfold_words; try done; lia.
Qed.

(** Parameters that the size limit accepts. *)
Definition fits (p : CertificateBuildParams) : bool :=
  (fc_MaxCertSize (bf_cfg f) =? 0) || (EstimatedSize p <=? fc_MaxCertSize (bf_cfg f)).

Definition largest_fitting (p q : CertificateBuildParams) : Prop :=
  exists t, bp_FromBlock p <= t <= bp_ToBlock p /\ q = restrict p t /\
    (fits q = true \/ t = bp_FromBlock p) /\
    (forall t', t < t' <= bp_ToBlock p -> fits (restrict p t') = false).

Lemma largest_fitting_self p :
  params_wf p -> fits p = true \/ bp_ToBlock p = bp_FromBlock p -> largest_fitting p p.
Proof.
  intros Hp Hor. exists (bp_ToBlock p). rewrite restrict_self by done. pose proof (wf_le _ Hp).
  split; [lia|]. split; [done|]. split; [done|]. lia.
Qed.

Lemma limitCertSize_spec fuel p :
  params_wf p -> (Z.to_nat (bp_ToBlock p - bp_FromBlock p) < fuel)%nat ->
  exists q, limitCertSize f fuel p = Some (Ok q) /\ largest_fitting p q.
Proof.
  revert p. induction fuel as [|fuel IH]; intros p Hp Hfuel; [lia|]. cbn [limitCertSize]. fold (fits p).
  destruct (fits p) eqn:Hfit.
  { exists p. split; [done|]. apply largest_fitting_self; [done | by left]. }
  rewrite NumberOfBlocks_one by done. destruct (bp_ToBlock p =? bp_FromBlock p) eqn:E; bool_hyps.
  { exists p. split; [done|]. apply largest_fitting_self; [done | by right]. }
  pose proof (wf_from _ Hp). pose proof (wf_to _ Hp). pose proof (wf_le _ Hp).
  rewrite sub64_small by (unfold_words; lia). rewrite clone_restrict by (done || lia).
  destruct (IH (restrict p (bp_ToBlock p - 1))) as (q & Hq & t & Hrange & -> & Hfits & Hmax);
    [apply restrict_wf; [done | lia] | simpl; lia|].
  simpl in *. exists (restrict p t). rewrite restrict_restrict in * by lia. split; [done|].
  exists t. split; [lia|]. split; [done|]. split; [done|]. intros t' Ht'.
  destruct (decide (t' = bp_ToBlock p)) as [->|Hne]; [by rewrite restrict_self|].
  rewrite <- (restrict_restrict p (bp_ToBlock p - 1) t') by lia. apply Hmax. lia.
Qed.

(** C29. [limitCertSize] ends, never fails and is optimal: it cuts the range at the last block at
    which the estimated size is within the limit, and at the first block of the range only when
    no cut fits. *)
Theorem limitCertSize_optimal fuel p :
  params_wf p -> (Z.to_nat (bp_ToBlock p - bp_FromBlock p) < fuel)%nat ->
  exists q, limitCertSize f fuel p = Some (Ok q) /\ largest_fitting p q.
Proof. apply limitCertSize_spec. Qed.

End Size.

(** ** Unclaims that follow their claim *)

(** [u] unclaims [c], later in the order of events. *)
Definition unclaims_after (c : SyncedClaim) (u : Unclaim) : Prop :=
  is_Some (sc_GlobalIndex c) /\ uc_GlobalIndex u = sc_GlobalIndex c /\
  (sc_BlockNum c < uc_BlockNumber u \/ sc_BlockNum c = uc_BlockNumber u /\ sc_BlockPos c < uc_LogIndex u).

(** Every claim of the list has an unclaim of its own. *)
Definition all_unclaimed (claims : list SyncedClaim) (unclaims : list Unclaim) : Prop :=
  exists idxs : list nat, NoDup idxs /\
    Forall2 (fun c i => exists u, unclaims !! i = Some u /\ unclaims_after c u) claims idxs.

Lemma compareClaimToUnclaimOrder_neg c u :
  compareClaimToUnclaimOrder c u < 0 <->
  sc_BlockNum c < uc_BlockNumber u \/ sc_BlockNum c = uc_BlockNumber u /\ sc_BlockPos c < uc_LogIndex u.
Proof.
  unfold compareClaimToUnclaimOrder, compareEventOrder.
  destruct (Z.ltb_spec (sc_BlockNum c) (uc_BlockNumber u)), (Z.ltb_spec (uc_BlockNumber u) (sc_BlockNum c)),
    (Z.ltb_spec (sc_BlockPos c) (uc_LogIndex u)), (Z.ltb_spec (uc_LogIndex u) (sc_BlockPos c)); lia.
Qed.

Lemma posteriorUnclaim_loop_Some c g unclaims used used' :
  posteriorUnclaim_loop c g unclaims used = Some used' ->
  exists i u, unclaims !! i = Some u /\ used !! i = Some false /\ used' = <[i := true]> used /\
    uc_GlobalIndex u = Some g /\ compareClaimToUnclaimOrder c u < 0.
Proof.
  revert used used'. induction unclaims as [|u us IH]; intros [|b bs] used'; simpl; try done.
  assert (cons b <$> posteriorUnclaim_loop c g us bs = Some used' ->
    exists i u', (u :: us) !! i = Some u' /\ (b :: bs) !! i = Some false /\ used' = <[i := true]> (b :: bs) /\
      uc_GlobalIndex u' = Some g /\ compareClaimToUnclaimOrder c u' < 0) as Hcont.
  { intros H. apply fmap_Some in H as (bs' & H & ->). apply IH in H as (i & u' & ? & ? & -> & ?). by exists (S i), u'. }
  destruct (uc_GlobalIndex u) as [g'|] eqn:Eg; [|done]. destruct b; [done|].
  destruct (g =? g') eqn:E1; [|done]. destruct (0 <=? _) eqn:E2; [done|]. bool_hyps. subst.
  intros [= <-]. by exists O, u.
Qed.

Lemma firstWithoutUnclaim_None missing unclaims used :
  firstWithoutUnclaim missing unclaims used = None ->
  exists idxs : list nat, NoDup idxs /\ Forall (fun i => used !! i = Some false) idxs /\
    Forall2 (fun c i => exists u, unclaims !! i = Some u /\ unclaims_after c u) missing idxs.
Proof.
  revert used. induction missing as [|c cs IH]; intros used; simpl; [intros _; exists []; repeat constructor|].
  unfold claimHasPosteriorUnclaim. destruct (sc_GlobalIndex c) as [g|] eqn:Eg; [|done].
  destruct (posteriorUnclaim_loop c g unclaims used) as [used'|] eqn:Ep; [|done]. intros Hf.
  apply posteriorUnclaim_loop_Some in Ep as (i & u & Hu & Hi & -> & Hg & Hord).
  apply IH in Hf as (idxs & Hnd & Hfree & Hm). exists (i :: idxs).
  assert (Forall (fun j => j <> i /\ used !! j = Some false) idxs) as Hfree'.
  { eapply Forall_impl; [exact Hfree|]. intros j Hj. cbv beta in Hj.
    destruct (decide (j = i)) as [->|Hne]; [|by rewrite list_lookup_insert_ne in Hj by done].
    rewrite list_lookup_insert_eq in Hj by (by eapply lookup_lt_Some). done. }
  split; [constructor; [|done]|split; constructor; try done].
  - intros Hin. rewrite Forall_forall in Hfree'. by destruct (Hfree' i Hin).
  - eapply Forall_impl; [exact Hfree'|]. by intros j [_ Hj].
  - exists u. split; [done|]. rewrite compareClaimToUnclaimOrder_neg in Hord. unfold unclaims_after.
    rewrite Eg. by split; [eexists|].
Qed.

Lemma firstWithoutUnclaim_Some missing unclaims used c :
  firstWithoutUnclaim missing unclaims used = Some c -> In c missing.
Proof.
  revert used. induction missing as [|c' cs IH]; intros used; simpl; [done|].
  destruct (claimHasPosteriorUnclaim c' unclaims used); [eauto | intros [= ->]; by left].
Qed.

(** ** Global exit roots *)

Section GER.
Context `{Lq : L1InfoTreeDataQuerier} (root : Z).

Definition provable (c : SyncedClaim) : bool := is_ok (GetProofForGER (sc_GlobalExitRoot c) root).

(** The claim's root can neither be proved nor found on L1. *)
Definition missing (c : SyncedClaim) : bool :=
  negb (provable c) && match DoesGERExistsOnL1 (sc_GlobalExitRoot c) with Ok false => true | _ => false end.

(** What the cache may hold for a root: true once it was proved, the answer of L1 otherwise. *)
Definition ger_status (ger : Z) : result flowError bool :=
  if is_ok (GetProofForGER ger root) then Ok true else DoesGERExistsOnL1 ger.

Definition cache_ok (cache : gerValidationCache) : Prop := forall g b, cache !! g = Some b -> ger_status g = Ok b.

Definition cached (cache : gerValidationCache) (claims : list SyncedClaim) : Prop :=
  forall c, In c claims -> is_Some (cache !! sc_GlobalExitRoot c).

Lemma missing_status c b : ger_status (sc_GlobalExitRoot c) = Ok b -> missing c = negb b.
Proof.
  unfold ger_status, missing, provable. destruct (is_ok _); simpl; [by intros [= <-]|]. intros ->. by destruct b.
Qed.

Lemma cache_ok_insert cache g b : cache_ok cache -> ger_status g = Ok b -> cache_ok (<[g := b]> cache).
Proof. intros Hc Hg g' b' H. apply lookup_insert_Some in H as [[<- <-]|[_ H]]; [done | by apply Hc]. Qed.

Lemma getGERExistsOnL1_status cache g b cache' :
  cache_ok cache -> is_ok (GetProofForGER g root) = false -> getGERExistsOnL1 cache g = Ok (b, cache') ->
  ger_status g = Ok b /\ cache_ok cache' /\ is_Some (cache' !! g) /\
  (forall g', is_Some (cache !! g') -> is_Some (cache' !! g')).
Proof.
  intros Hc Hp. unfold getGERExistsOnL1. destruct (cache !! g) as [b'|] eqn:E.
  { intros [= <- <-]. repeat split; [by apply Hc | done | by rewrite E | done]. }
  destruct (DoesGERExistsOnL1 g) as [b'|e] eqn:Eg; simpl; [|done]. intros [= <- <-].
  assert (ger_status g = Ok b') as Hs by (unfold ger_status; by rewrite Hp).
  split; [done|]. split; [by apply cache_ok_insert|]. rewrite lookup_insert_eq. split; [by eexists|].
  intros g' Hg'. destruct (decide (g' = g)) as [->|]; [by rewrite lookup_insert_eq|]. by rewrite lookup_insert_ne.
Qed.

Lemma missingClaims_loop_cached claims cache :
  cache_ok cache -> cached cache claims ->
  missingClaims_loop claims cache = Ok (bfilter missing claims, cache).
Proof.
  intros Hc. induction claims as [|c cs IH]; intros Hin; simpl; [done|]. unfold getGERExistsOnL1.
  destruct (Hin c (or_introl eq_refl)) as [b Hb]. rewrite Hb. simpl.
  rewrite IH by (intros c' Hc'; apply Hin; by right). simpl.
  rewrite (missing_status c b) by (by apply Hc). by destruct b.
Qed.

Lemma findFirst_cached p cache :
  cache_ok cache -> cached cache (bp_Claims p) ->
  findFirstMissingGERClaimWithoutFinalUnclaim p cache =
  Ok (firstWithoutUnclaim (bfilter missing (bp_Claims p)) (bp_Unclaims p) (repeat false (length (bp_Unclaims p))), cache).
Proof.
  intros Hc Hin. unfold findFirstMissingGERClaimWithoutFinalUnclaim. rewrite missingClaims_loop_cached by done. simpl.
  by destruct (bfilter missing (bp_Claims p)).
Qed.

End GER.

(** ** Claims that cannot be proved *)

Section Steps.
Context `{Lq : L1InfoTreeDataQuerier}.

(** After the loop every root is cached, and a claim that is neither provable nor missing does not
    come before the claim returned. *)
Record loop_post (root : Z) (claims : list SyncedClaim) (cache : gerValidationCache) (nur : option SyncedClaim)
    (nur' : option SyncedClaim) (cache' : gerValidationCache) : Prop := {
  lp_ok : cache_ok root cache';
  lp_mono : forall g, is_Some (cache !! g) -> is_Some (cache' !! g);
  lp_cached : cached cache' claims;
  lp_before : forall n, nur = Some n -> exists n', nur' = Some n' /\ sc_BlockNum n' <= sc_BlockNum n;
  lp_claims : forall c, In c claims -> provable root c = true \/ missing root c = true \/
    exists n', nur' = Some n' /\ sc_BlockNum n' <= sc_BlockNum c;
  lp_source : forall n', nur' = Some n' -> nur = Some n' \/ In n' claims
}.

Lemma loop_post_nil root cache nur : cache_ok root cache -> loop_post root [] cache nur nur cache.
Proof. intros Hc. split; [done | done | by intros c [] | by intros n Hn; exists n | by intros c [] | by left]. Qed.

Lemma loop_post_cons root c claims cache cache1 nur nur1 nur' cache' :
  (forall g, is_Some (cache !! g) -> is_Some (cache1 !! g)) -> is_Some (cache1 !! sc_GlobalExitRoot c) ->
  (forall n, nur = Some n -> exists n1, nur1 = Some n1 /\ sc_BlockNum n1 <= sc_BlockNum n) ->
  (forall n1, nur1 = Some n1 -> nur = Some n1 \/ n1 = c) ->
  provable root c = true \/ missing root c = true \/
    (exists n1, nur1 = Some n1 /\ sc_BlockNum n1 <= sc_BlockNum c) ->
  loop_post root claims cache1 nur1 nur' cache' -> loop_post root (c :: claims) cache nur nur' cache'.
Proof.
  intros Hmono Hcached Hbefore Hsource Hc [H1 H2 H3 H4 H5 H6]. split; [done | auto | | | |].
  - intros c' [<-|Hin]; [auto | by apply H3].
  - intros n Hn. destruct (Hbefore n Hn) as (n1 & Hn1 & Hle). destruct (H4 n1 Hn1) as (n' & -> & Hle').
    exists n'. split; [done | lia].
  - intros c' [<-|Hin]; [|by apply H5]. destruct Hc as [|[|(n1 & Hn1 & Hle)]]; [tauto | tauto|].
    destruct (H4 n1 Hn1) as (n' & -> & Hle'). right. right. exists n'. split; [done | lia].
  - intros n' Hn'. destruct (H6 n' Hn') as [Hn1|]; [|by right; right].
    destruct (Hsource n' Hn1) as [ | -> ]; [by left | by right; left].
Qed.

Lemma lowestBlockClaim_spec nur c :
  exists n1, lowestBlockClaim nur c = Some n1 /\ sc_BlockNum n1 <= sc_BlockNum c /\
    (forall n, nur = Some n -> sc_BlockNum n1 <= sc_BlockNum n) /\ (nur = Some n1 \/ n1 = c).
Proof.
  unfold lowestBlockClaim. destruct nur as [n|]; [|exists c; repeat split; [lia | done | by right]].
  destruct (Z.ltb_spec (sc_BlockNum c) (sc_BlockNum n)); eexists; (split; [done|]); (split; [lia|]);
    (split; [intros ? [= <-]; lia | tauto]).
Qed.

Lemma notUnderRoot_loop_spec p claims cache nur nur' cache' :
  cache_ok (bp_L1InfoTreeRootFromWhichToProve p) cache ->
  notUnderRoot_loop p claims cache nur = Ok (nur', cache') ->
  loop_post (bp_L1InfoTreeRootFromWhichToProve p) claims cache nur nur' cache'.
Proof.
  set (root := bp_L1InfoTreeRootFromWhichToProve p).
  revert cache nur. induction claims as [|c cs IH]; intros cache nur Hc; simpl.
  { intros [= <- <-]. by apply loop_post_nil. }
  fold root. destruct (GetProofForGER (sc_GlobalExitRoot c) root) as [pr|err] eqn:Epr.
  - intros Hl. apply IH in Hl; [|apply cache_ok_insert; [done|]; unfold ger_status; by rewrite Epr].
    eapply loop_post_cons, Hl; [| by rewrite lookup_insert_eq | by intros n Hn; exists n | tauto|].
    + intros g Hg. destruct (decide (g = sc_GlobalExitRoot c)) as [->|];
        [by rewrite lookup_insert_eq | by rewrite lookup_insert_ne].
    + left. unfold provable. by rewrite Epr.
  - destruct (getGERExistsOnL1 cache (sc_GlobalExitRoot c)) as [[b cache1]|e] eqn:Eg; simpl; [|done].
    destruct (getGERExistsOnL1_status root _ _ _ _ Hc ltac:(by rewrite Epr) Eg) as (Hs & Hc1 & Hg1 & Hmono).
    apply missing_status in Hs. destruct b; simpl in *.
    + destruct (bool_decide (err = _)); [|done]. destruct (bp_L1InfoTreeLeafCount p =? 0); [done|].
      destruct (IsGERFinalized _ _) as [[]|]; simpl; try done. intros Hl. apply IH in Hl; [|done].
      destruct (lowestBlockClaim_spec nur c) as (n1 & Hn1 & Hle1 & Hle2 & Hor).
      eapply loop_post_cons, Hl; [done | done | by eauto | intros n2; rewrite Hn1; by intros [= <-] | by eauto].
    + intros Hl. apply IH in Hl; [|done].
      eapply loop_post_cons, Hl; [done | done | by intros n Hn; exists n | tauto | by eauto].
Qed.

(** A loop over claims that are all provable or missing finds nothing. *)
Lemma notUnderRoot_loop_none p claims cache :
  let root := bp_L1InfoTreeRootFromWhichToProve p in
  cache_ok root cache -> (forall c, In c claims -> provable root c = true \/ missing root c = true) ->
  exists cache', notUnderRoot_loop p claims cache None = Ok (None, cache').
Proof.
  intros root. revert cache. induction claims as [|c cs IH]; intros cache Hc Hall; simpl; [by eexists|]. fold root.
  destruct (GetProofForGER (sc_GlobalExitRoot c) root) as [pr|err] eqn:Epr.
  - apply IH; [|intros c' Hc'; apply Hall; by right].
    apply cache_ok_insert; [done|]. unfold ger_status. by rewrite Epr.
  - destruct (Hall c (or_introl eq_refl)) as [Hp|Hm]; [unfold provable in Hp; by rewrite Epr in Hp|].
    assert (exists cache1, getGERExistsOnL1 cache (sc_GlobalExitRoot c) = Ok (false, cache1)) as [cache1 Eg].
    { unfold missing, provable in Hm. rewrite Epr in Hm. simpl in Hm. unfold getGERExistsOnL1.
      destruct (cache !! sc_GlobalExitRoot c) as [b|] eqn:Ec.
      - apply Hc in Ec. unfold ger_status in Ec. rewrite Epr in Ec. simpl in Ec. rewrite Ec in Hm.
        destruct b; [done | by eexists].
      - destruct (DoesGERExistsOnL1 _) as [[]|]; simpl; try done. by eexists. }
    rewrite Eg. simpl. destruct (getGERExistsOnL1_status root _ _ _ _ Hc ltac:(by rewrite Epr) Eg) as (_ & Hc1 & _).
    apply IH; [done | intros c' Hc'; apply Hall; by right].
Qed.

Lemma cache_ok_empty root : cache_ok root ∅.
Proof. intros g b H. by rewrite lookup_empty in H. Qed.

(** A claim that ends up in a certificate. *)
Definition settled_ger (root : Z) (c : SyncedClaim) : Prop := provable root c = true \/ missing root c = true.

Lemma adjustClaims_short p q cache :
  params_wf p -> adjustClaimsNotProvableAgainstRoot p ∅ = Ok (q, cache) ->
  let root := bp_L1InfoTreeRootFromWhichToProve p in
  shortened p q /\ cache_ok root cache /\ cached cache (bp_Claims p) /\
  (forall c, In c (bp_Claims q) -> settled_ger root c).
Proof.
  intros Hp Ha root. unfold adjustClaimsNotProvableAgainstRoot in Ha. inv_ok Ha as [nur cache1] Hl.
  apply notUnderRoot_loop_spec in Hl as [Hok _ Hcached _ Hcl Hsrc]; [|apply cache_ok_empty]. fold root in Hok, Hcl.
  destruct nur as [n|].
  - destruct (sc_BlockNum n <=? bp_FromBlock p) eqn:E; [done|]. bool_hyps.
    destruct (Hsrc n eq_refl) as [[=]|Hn]. pose proof (wf_claims _ Hp) as Hwf. rewrite Forall_forall in Hwf.
    specialize (Hwf n (proj2 (list_elem_of_In _ _) Hn)). simpl in Hwf.
    pose proof (wf_from _ Hp). pose proof (wf_to _ Hp).
    rewrite sub64_small in Ha by (unfold_words; lia). rewrite trim_restrict in Ha by (done || lia).
    injection Ha as <- <-. split; [exists (sc_BlockNum n - 1); split; [lia | done]|].
    split; [done|]. split; [done|]. intros c Hc. simpl in Hc. apply bfilter_In in Hc as [Hc Hr]. bool_hyps.
    destruct (Hcl c Hc) as [|[|(n' & [= <-] & Hle)]]; [by left | by right | lia].
  - injection Ha as <- <-. split; [by apply shortened_refl|]. split; [done|]. split; [done|].
    intros c Hc. by destruct (Hcl c Hc) as [|[|(n' & [=] & _)]]; [left | right].
Qed.

(** No claim of a missing root is left without an unclaim of its own. *)
Definition no_invalid_claim (root : Z) (p : CertificateBuildParams) : Prop :=
  firstWithoutUnclaim (bfilter (missing root) (bp_Claims p)) (bp_Unclaims p) (repeat false (length (bp_Unclaims p)))
  = None.

Lemma adjustInvalid_short root fuel p cache :
  params_wf p -> (Z.to_nat (bp_ToBlock p - bp_FromBlock p) < fuel)%nat ->
  cache_ok root cache -> cached cache (bp_Claims p) ->
  exists r, adjustInvalidClaimsAreNotUnclaimed fuel p cache = Some r /\
    forall q, r = Ok q -> shortened p q /\ no_invalid_claim root q.
Proof.
  revert p. induction fuel as [|fuel IH]; intros p Hp Hfuel Hc Hin; [lia|]. cbn [adjustInvalidClaimsAreNotUnclaimed].
  rewrite (findFirst_cached root) by done.
  destruct (firstWithoutUnclaim _ _ _) as [c|] eqn:Ef.
  2:{ eexists. split; [done|]. intros q [= <-]. split; [by apply shortened_refl | done]. }
  apply firstWithoutUnclaim_Some, bfilter_In in Ef as [Hcl _].
  destruct (sc_BlockNum c <=? bp_FromBlock p) eqn:E; [by eexists|]. bool_hyps.
  pose proof (wf_claims _ Hp) as Hwf. rewrite Forall_forall in Hwf.
  specialize (Hwf c (proj2 (list_elem_of_In _ _) Hcl)). simpl in Hwf.
  pose proof (wf_from _ Hp). pose proof (wf_to _ Hp).
  rewrite sub64_small by (unfold_words; lia). rewrite trim_restrict by (done || lia).
  assert (shortened p (restrict p (sc_BlockNum c - 1))) as Hsh by (eexists; split; [|done]; lia).
  destruct (IH (restrict p (sc_BlockNum c - 1))) as (r & -> & Hr);
    [by eapply shortened_wf | simpl; lia | done | intros c' Hc'; by eapply Hin, shortened_claims |].
  exists r. split; [done|]. intros q Hq. destruct (Hr q Hq) as [Hs Hn]. split; [by eapply shortened_trans | done].
Qed.

Section Main.
Context (f : baseFlow) (options : BlockRangeAdjustmentOptions).

Lemma adjustBeforeSize_short p q cache :
  params_wf p -> 0 <= op_MaxL2BlockRange options -> adjustBeforeSize p options = Ok (q, cache) ->
  shortened p q /\ cache_ok (bp_L1InfoTreeRootFromWhichToProve p) cache /\ cached cache (bp_Claims q) /\
  (forall c, In c (bp_Claims q) -> settled_ger (bp_L1InfoTreeRootFromWhichToProve p) c) /\
  (op_MaxL2BlockNumber options <> 0 -> bp_ToBlock q <= op_MaxL2BlockNumber options) /\
  (op_MaxL2BlockRange options <> 0 -> bp_ToBlock q - bp_FromBlock q <= op_MaxL2BlockRange options).
Proof.
  intros Hp Hr Ha. unfold adjustBeforeSize in Ha. inv_ok Ha as p1 H1. inv_ok Ha as p2 H2. inv_ok Ha as u Hv.
  apply adjustMaxL2BlockNumber_short in H1 as [Hs1 Hmax]; [|done].
  pose proof (shortened_wf _ _ Hp Hs1) as Hp1.
  apply adjustMaxL2BlockRange_short in H2 as [Hs2 Hrange]; [|done | done].
  pose proof (shortened_wf _ _ Hp1 Hs2) as Hp2.
  apply adjustClaims_short in Ha as (Hs3 & Hok & Hcached & Hcl); [|done].
  assert (bp_L1InfoTreeRootFromWhichToProve p2 = bp_L1InfoTreeRootFromWhichToProve p) as Hroot
    by (destruct Hs1 as (? & _ & ->), Hs2 as (? & _ & ->); done).
  rewrite Hroot in Hok, Hcl. destruct (shortened_range _ _ Hs2), (shortened_range _ _ Hs3).
  split; [eauto using shortened_trans|]. split; [done|].
  split; [intros c Hc; by eapply Hcached, shortened_claims|]. split; [done|]. split; lia.
Qed.

(** What the adjustment guarantees of its result. *)
Record adjusted (p q : CertificateBuildParams) : Prop := {
  ad_shortened : shortened p q;
  ad_maxBlock : op_MaxL2BlockNumber options <> 0 -> bp_ToBlock q <= op_MaxL2BlockNumber options;
  ad_maxRange : op_MaxL2BlockRange options <> 0 -> bp_ToBlock q - bp_FromBlock q <= op_MaxL2BlockRange options;
  ad_gers : forall c, In c (bp_Claims q) -> settled_ger (bp_L1InfoTreeRootFromWhichToProve p) c;
  ad_valid : no_invalid_claim (bp_L1InfoTreeRootFromWhichToProve p) q
}.

Lemma AdjustBlockRange_spec fuel p :
  params_wf p -> 0 <= op_MaxL2BlockRange options -> (Z.to_nat (bp_ToBlock p - bp_FromBlock p) < fuel)%nat ->
  exists r, AdjustBlockRange f fuel (Some p) options = Some r /\ forall q, r = Ok q -> adjusted p q.
Proof.
  intros Hp Hr Hfuel. unfold AdjustBlockRange.
  destruct (adjustBeforeSize p options) as [[p1 cache]|e] eqn:Ea; [|by eexists].
  apply adjustBeforeSize_short in Ea as (Hs1 & Hok & Hcached & Hg & Hmax & Hrange); [|done | done].
  pose proof (shortened_wf _ _ Hp Hs1) as Hp1. destruct (shortened_range _ _ Hs1) as [Hf1 Ht1].
  assert (exists p2, (if op_DisableSizeLimit options then Some (Ok p1) else limitCertSize f fuel p1) = Some (Ok p2)
            /\ shortened p1 p2) as (p2 & -> & Hs2).
  { destruct (op_DisableSizeLimit options); [exists p1; split; [done | by apply shortened_refl]|].
    destruct (limitCertSize_spec f fuel p1) as (p2 & -> & t & Ht & -> & _); [done | lia|].
    eexists. split; [done|]. by exists t. }
  pose proof (shortened_wf _ _ Hp1 Hs2) as Hp2. destruct (shortened_range _ _ Hs2) as [Hf2 Ht2].
  destruct (adjustInvalid_short (bp_L1InfoTreeRootFromWhichToProve p) fuel p2 cache) as (r & -> & Hq);
    [done | lia | done | intros c Hc; by eapply Hcached, shortened_claims |].
  exists r. split; [done|]. intros q Hrq. destruct (Hq q Hrq) as [Hs3 Hn].
  destruct (shortened_range _ _ Hs3) as [Hf3 Ht3]. split; [eauto using shortened_trans | lia | lia | | done].
  intros c Hc. apply Hg. by do 2 (eapply shortened_claims; [done|]).
Qed.

(** C3. [AdjustBlockRange] ends, with an error or with a certificate that starts at the same block
    and holds exactly the events up to its new last block; it respects the limits on the last
    block and on the length, every claim in it can be proved against the chosen L1 info root or
    uses a root that does not exist on L1, and each claim of the latter kind is followed, within the
    range, by an unclaim of its own. *)
Theorem AdjustBlockRange_sound fuel p :
  params_wf p -> 0 <= op_MaxL2BlockRange options -> (Z.to_nat (bp_ToBlock p - bp_FromBlock p) < fuel)%nat ->
  let root := bp_L1InfoTreeRootFromWhichToProve p in
  exists r, AdjustBlockRange f fuel (Some p) options = Some r /\
    forall q, r = Ok q ->
      (exists t, bp_FromBlock p <= t <= bp_ToBlock p /\ q = restrict p t) /\
      (op_MaxL2BlockNumber options <> 0 -> bp_ToBlock q <= op_MaxL2BlockNumber options) /\
      (op_MaxL2BlockRange options <> 0 -> bp_ToBlock q - bp_FromBlock q <= op_MaxL2BlockRange options) /\
      (forall c, In c (bp_Claims q) -> provable root c = true \/ missing root c = true) /\
      all_unclaimed (bfilter (missing root) (bp_Claims q)) (bp_Unclaims q).
Proof.
  intros Hp Hr Hfuel root. destruct (AdjustBlockRange_spec fuel p Hp Hr Hfuel) as (r & Hrun & Hq).
  exists r. split; [done|]. intros q Hrq. destruct (Hq q Hrq) as [H1 H2 H3 H4 H5].
  split; [done|]. split; [done|]. split; [done|]. split; [done|].
  apply firstWithoutUnclaim_None in H5 as (idxs & Hnd & _ & Hm). by exists idxs.
Qed.

End Main.

(** Parameters that meet the guarantees are left as they are. *)
Lemma AdjustBlockRange_fixpoint f fuel options p q :
  params_wf p -> 0 <= op_MaxL2BlockRange options -> adjusted options p q ->
  op_DisableSizeLimit options = true ->
  (op_ValidateRootToProve options = true -> validateRootToProveIsFinalized q = Ok tt) ->
  AdjustBlockRange f (S fuel) (Some q) options = Some (Ok q).
Proof.
  intros Hp Hr [Hs Hmax Hrange Hg Hn] Hsize Hval. pose proof (shortened_wf _ _ Hp Hs) as Hq.
  set (root := bp_L1InfoTreeRootFromWhichToProve p) in *.
  assert (bp_L1InfoTreeRootFromWhichToProve q = root) as Hroot by (by destruct Hs as (? & _ & ->)).
  pose proof (wf_from _ Hq) as Hqf. pose proof (wf_to _ Hq) as Hqt. pose proof (wf_le _ Hq) as Hqle.
  assert (adjustMaxL2BlockNumber q options = Ok q) as H1.
  { unfold adjustMaxL2BlockNumber. destruct (op_MaxL2BlockNumber options =? 0) eqn:E; [done|]. bool_hyps. simpl.
    by rewrite (proj2 (Z.leb_le _ _)) by auto. }
  assert (adjustMaxL2BlockRange q options = Ok q) as H2.
  { unfold adjustMaxL2BlockRange. rewrite sub64_small by (unfold_words; lia).
    destruct (op_MaxL2BlockRange options =? 0) eqn:E; [done|]. bool_hyps. simpl.
    rewrite (proj2 (Z.leb_le _ _) (Hrange E)). by rewrite orb_true_r. }
  destruct (notUnderRoot_loop_none q (bp_Claims q) ∅) as [cache Hl];
    [apply cache_ok_empty | rewrite Hroot; exact Hg |].
  assert (adjustBeforeSize q options = Ok (q, cache)) as H3.
  { unfold adjustBeforeSize. rewrite H1. cbn [rbind]. rewrite H2. cbn [rbind].
    assert ((if op_ValidateRootToProve options then validateRootToProveIsFinalized q else Ok tt) = Ok tt) as ->
      by (destruct (op_ValidateRootToProve options); auto).
    cbn [rbind]. unfold adjustClaimsNotProvableAgainstRoot. by rewrite Hl. }
  unfold AdjustBlockRange. rewrite H3, Hsize. cbn [adjustInvalidClaimsAreNotUnclaimed].
  apply notUnderRoot_loop_spec in Hl as [Hok _ Hcached _ _ _]; [|apply cache_ok_empty]. rewrite Hroot in Hok.
  rewrite (findFirst_cached root) by done. unfold no_invalid_claim in Hn. by rewrite Hn.
Qed.

End Steps.

(** ** Examples *)

(** Root 1 is proved, root 2 is on L1 but not under the chosen root, root 3 is not on L1. *)
Definition example_l1 : L1InfoTreeDataQuerier := {|
  GetTargetL1InfoRoot := Ok (mkRoot 40 7 100 0);
  GetL1InfoRootByLeafIndex := fun i => Ok (mkRoot 40 i 100 0);
  GetProofForGER := fun ger _ =>
    if ger =? 1 then Ok (mkL1InfoLeaf 90 0 3 0 0 0 0 1 0, repeat 0 32) else Err ErrGERNotProvableAgainstRoot;
  IsGERFinalized := fun _ _ => Ok false;
  DoesGERExistsOnL1 := fun ger => Ok (ger <=? 2)
|}.

Definition example_synced_claim (block index ger : Z) : SyncedClaim :=
  mkSyncedClaim block 0 (Some index) 0 0 0 (Some 1) [] [] 0 0 ger 0 [] false.

Definition example_params (claims : list SyncedClaim) (unclaims : list Unclaim) : CertificateBuildParams :=
  mkBuildParams 10 20 [example_bridge 11 0; example_bridge 15 1; example_bridge 19 2] claims unclaims 0 0 None
    40 8 None CertificateTypePP [].

Definition example_options : BlockRangeAdjustmentOptions := mkOptions 0 9 true false false false.

(** The claim of root 3 at block 12 is unclaimed at block 14, the one at block 16 is not. *)
Definition example_claims : list SyncedClaim :=
  [example_synced_claim 12 5 3; example_synced_claim 13 6 1; example_synced_claim 16 7 3; example_synced_claim 18 8 2].
Definition example_unclaims : list Unclaim := [mkUnclaim (Some 5) 14 0].

Definition params_wfb (p : CertificateBuildParams) : bool :=
  (0 <=? bp_FromBlock p) && (bp_ToBlock p + 1 <? pow2_64) && (bp_FromBlock p <=? bp_ToBlock p) &&
  forallb (fun b => in_blocks (bp_FromBlock p) (bp_ToBlock p) (br_BlockNum b)) (bp_Bridges p) &&
  forallb (fun c => in_blocks (bp_FromBlock p) (bp_ToBlock p) (sc_BlockNum c)) (bp_Claims p) &&
  forallb (fun u => in_blocks (bp_FromBlock p) (bp_ToBlock p) (uc_BlockNumber u)) (bp_Unclaims p).

Lemma forallb_in_blocks {A} (block : A -> Z) from to l :
  forallb (fun x => in_blocks from to (block x)) l = true -> Forall (fun x => from <= block x <= to) l.
Proof.
  intros H. apply Forall_forall. intros x Hx. rewrite forallb_forall in H.
  specialize (H x (proj1 (list_elem_of_In _ _) Hx)). unfold in_blocks in H. bool_hyps. lia.
Qed.

Lemma params_wfb_sound p : params_wfb p = true -> params_wf p.
Proof.
  unfold params_wfb. intros H. bool_hyps. constructor; try (unfold_words; lia); by apply forallb_in_blocks.
Qed.

(** Cut at block 15: before the claim of block 16, whose root is missing and which is not unclaimed. *)
Example example_adjusted :
  AdjustBlockRange (Lq := example_l1) example_flow 20 (Some (example_params example_claims example_unclaims)) example_options
  = Some (Ok (restrict (example_params example_claims example_unclaims) 15)).
Proof. vm_compute. reflexivity. Qed.

Lemma AdjustBlockRange_sound_witness :
  exists r, AdjustBlockRange (Lq := example_l1) example_flow 20
      (Some (example_params example_claims example_unclaims)) example_options = Some r /\
    forall q, r = Ok q ->
      (exists t, 10 <= t <= 20 /\ q = restrict (example_params example_claims example_unclaims) t) /\
      (0 <> 0 -> bp_ToBlock q <= 0) /\
      (9 <> 0 -> bp_ToBlock q - bp_FromBlock q <= 9) /\
      (forall c, In c (bp_Claims q) ->
         provable (Lq := example_l1) 40 c = true \/ missing (Lq := example_l1) 40 c = true) /\
      all_unclaimed (bfilter (missing (Lq := example_l1) 40) (bp_Claims q)) (bp_Unclaims q).
Proof.
  refine (AdjustBlockRange_sound (Lq := example_l1) example_flow example_options 20
    (example_params example_claims example_unclaims) _ _ _).
  - apply params_wfb_sound. vm_compute. reflexivity.
  - vm_compute. congruence.
  - apply Nat.ltb_lt. vm_compute. reflexivity.
Defined.

Definition example_limited : baseFlow := mkBaseFlow 77 true (mkBaseFlowConfig 320 0 false true).

(** Two bridges fit in 320 bytes, three do not. *)
Example example_limited_cut :
  option_map (fun r => match r with Ok q => bp_ToBlock q | Err _ => 0 end)
    (limitCertSize example_limited 20 (example_params [] [])) = Some 18.
Proof. vm_compute. reflexivity. Qed.

Lemma limitCertSize_optimal_witness :
  exists q, limitCertSize example_limited 20 (example_params [] []) = Some (Ok q) /\
    largest_fitting example_limited (example_params [] []) q.
Proof.
  refine (limitCertSize_optimal example_limited 20 (example_params [] []) _ _).
  - apply params_wfb_sound. vm_compute. reflexivity.
  - apply Nat.ltb_lt. vm_compute. reflexivity.
Defined.
