(* ===== verification/Validator.v ===== *)
(** The pessimistic-proof flow ([aggsender/flows/builder_flow_pp.go], [verifier_flow_pp.go]) and the
    certificate validator ([aggsender/validator/validate_certificate.go], [compare_certs.go]).

    A definition that reaches a loop of the range adjustment takes its fuel and returns [None] when
    it runs out.  A nil dereference is the error value [VPanic]; texts of differences are values of
    [certDiff]. *)

From S2P Require Import Prelude Bytes BlockRange Merkle AgglayerTypes CertStorage StatusChecker.
From S2P Require Import BuildParams Flow AdjustRange.

(** Continue after a step that may run out of fuel. *)
Definition obind {E A B} (r : option (result E A)) (k : A -> option (result E B)) : option (result E B) :=
  match r with
  | None => None
  | Some (Err e) => Some (Err e)
  | Some (Ok a) => k a
  end.

Notation "'let??' x ':=' c 'in' k" := (obind c (fun x => k))
  (at level 10, x pattern, c at level 100, k at level 200) : go_scope.

(** ** The pessimistic-proof flow *)

Record PPBuilderFlow := mkPPBuilderFlow {
  pf_baseFlow : baseFlow;
  pf_forceOneBridgeExit : bool;
  pf_maxL2BlockNumber : Z;
  pf_maxL2BlockRange : Z
}.

Section PPFlow.
Context `{Kc : Keccak} `{Bq : BridgeQuerier} `{Lq : L1InfoTreeDataQuerier} `{Cq : CertificateQuerier}.
Context (p : PPBuilderFlow).

Definition adjustmentOptions (validateRootToProve : bool) : BlockRangeAdjustmentOptions :=
  mkOptions (pf_maxL2BlockNumber p) (pf_maxL2BlockRange p) true (pf_forceOneBridgeExit p)
    validateRootToProve validateRootToProve.

Definition PP_GenerateBuildParams (fuel : nat) (preParams : option CertificatePreBuildParams)
  : option (result flowError CertificateBuildParams) :=
  match preParams with
  | None => Some (Err ErrBuildParamsIsNil)
  | Some preParams =>
      let?? params := Some (GenerateBuildParams preParams) in
      let?? params := AdjustBlockRange (pf_baseFlow p) fuel (Some params) (adjustmentOptions true) in
      let?? _ := Some (VerifyBuildParams params) in
      Some (Ok params)
  end.

(** [Ok None]: nothing to send. *)
Definition PP_GetCertificateBuildParams (fuel : nat) (s : Storage) (now : Z)
  : option (result flowError (option CertificateBuildParams)) :=
  match GetCertificateBuildParamsInternal (pf_baseFlow p) s now CertificateTypePP with
  | Err ErrNoNewBlocks => Some (Ok None)
  | Err e => Some (Err e)
  | Ok buildParams =>
      if pf_forceOneBridgeExit p && (NumberOfBridges buildParams =? 0) then Some (Ok None)
      else if IsEmpty buildParams then Some (Ok None)
      else
        let?? buildParams := AdjustBlockRange (pf_baseFlow p) fuel (Some buildParams) (adjustmentOptions false) in
        let?? _ := Some (VerifyBuildParams buildParams) in
        Some (Ok (Some buildParams))
  end.

Definition PP_BuildCertificate (s : Storage) (buildParams : CertificateBuildParams) : result flowError Certificate :=
  BuildCertificate (pf_baseFlow p) s buildParams (bp_LastSentCertificate buildParams) false.

End PPFlow.

(** ** Comparison of certificates *)

Inductive certDiff :=
| DiffNil | DiffNetworkID | DiffHeight | DiffPrevLocalExitRoot | DiffNewLocalExitRoot | DiffL1InfoTreeLeafCount
| DiffBridgeExitsLength | DiffBridgeExit (i : nat) | DiffImportedLength | DiffImported (i : nat).

Section Diffs.
Context `{Kc : Keccak}.

Fixpoint diffsBridgeExits_loop (i : nat) (expected validating : list (option BridgeExit)) : list certDiff :=
  match expected, validating with
  | e :: expected', v :: validating' =>
      (if BridgeExit_Hash v =? BridgeExit_Hash e then [] else [DiffBridgeExit i])
      ++ diffsBridgeExits_loop (S i) expected' validating'
  | _, _ => []
  end.

Definition DiffsBridgeExits (expected validating : list (option BridgeExit)) : list certDiff :=
  if negb (length expected =? length validating)%nat then [DiffBridgeExitsLength]
  else diffsBridgeExits_loop 0 expected validating.

(** [None]: a nil exit or a nil global index is dereferenced. *)
Fixpoint diffsImported_loop (i : nat) (expected validating : list (option ImportedBridgeExit)) : option (list certDiff) :=
  match expected, validating with
  | e :: expected', v :: validating' =>
      gv ← v ≫= ie_GlobalIndex;
      ge ← e ≫= ie_GlobalIndex;
      rest ← diffsImported_loop (S i) expected' validating';
      Some ((if GlobalIndex_Hash gv =? GlobalIndex_Hash ge then [] else [DiffImported i]) ++ rest)
  | _, _ => Some []
  end.

Definition DiffsImportedBridgeExits (expected validating : list (option ImportedBridgeExit)) : option (list certDiff) :=
  if negb (length expected =? length validating)%nat then Some [DiffImportedLength]
  else diffsImported_loop 0 expected validating.

Definition diff_if (same : bool) (d : certDiff) : list certDiff := if same then [] else [d].

Definition DiffsCertificate (expected validating : option Certificate) : option (list certDiff) :=
  match expected, validating with
  | None, None => Some []
  | Some e, Some v =>
      imported ← DiffsImportedBridgeExits (ct_ImportedBridgeExits e) (ct_ImportedBridgeExits v);
      Some (diff_if (ct_NetworkID v =? ct_NetworkID e) DiffNetworkID
        ++ diff_if (ct_Height v =? ct_Height e) DiffHeight
        ++ diff_if (ct_PrevLocalExitRoot v =? ct_PrevLocalExitRoot e) DiffPrevLocalExitRoot
        ++ diff_if (ct_NewLocalExitRoot v =? ct_NewLocalExitRoot e) DiffNewLocalExitRoot
        ++ diff_if (ct_L1InfoTreeLeafCount v =? ct_L1InfoTreeLeafCount e) DiffL1InfoTreeLeafCount
        ++ DiffsBridgeExits (ct_BridgeExits e) (ct_BridgeExits v)
        ++ imported)
  | _, _ => Some [DiffNil]
  end.

End Diffs.

(** ** The validator *)

Record VerifyIncomingRequest := mkRequest {
  rq_Certificate : option Certificate;
  rq_PreviousCertificate : option AgglayerHeader;
  rq_LastL2BlockInCert : Z
}.

Inductive validatorError :=
| VErrNilCertificate
| VErrQuery
| VErrLastL2Block
| VErrNewToBlock
| VErrFirstHeight
| VErrFirstPrevLER
| VErrHeight
| VErrPrevLER
| VErrPreviousNotSettled
| VErrFlow (e : flowError)
| VErrCertificateID
| VErrDiffs (ds : list certDiff)
| VErrProof (e : validationError)
| VErrVerify
| VPanic.

(** What the validator asks of a flow ([types.AggsenderVerifierFlow]). *)
Record AggsenderVerifierFlow := mkVerifierFlow {
  vf_GenerateBuildParams : option CertificatePreBuildParams -> option (result flowError CertificateBuildParams);
  vf_BuildCertificate : CertificateBuildParams -> result flowError Certificate;
  vf_VerifyCertificate : Certificate -> Z -> Z -> result flowError unit
}.

Definition lift_flow {A} (r : result flowError A) : result validatorError A :=
  match r with Ok a => Ok a | Err e => Err (VErrFlow e) end.

Definition lift_query {A} (r : result checkerError A) : result validatorError A :=
  match r with Ok a => Ok a | Err _ => Err VErrQuery end.

Section Validator.
Context `{Kc : Keccak} `{Lq : L1InfoTreeDataQuerier} `{Cq : CertificateQuerier}.
Context (flow : AggsenderVerifierFlow) (initialLER : Z).

Definition checkIsPreviousCertificateSettled (previous : option AgglayerHeader) : result validatorError unit :=
  match previous with
  | Some c => if negb (IsSettled (ah_Status c)) then Err VErrPreviousNotSettled else Ok tt
  | None => Ok tt
  end.

Definition checkFirstCertificateBlocks (cert : Certificate) : result validatorError unit :=
  if negb (ct_Height cert =? 0) then Err VErrFirstHeight
  else if negb (ct_PrevLocalExitRoot cert =? initialLER) then Err VErrFirstPrevLER
  else Ok tt.

Definition checkContigousCertificates (cert : Certificate) (previous : option AgglayerHeader)
  : result validatorError unit :=
  match previous with
  | None => checkFirstCertificateBlocks cert
  | Some prev =>
      if negb (ah_Height prev +u64 1 =? ct_Height cert) then Err VErrHeight
      else if negb (ct_PrevLocalExitRoot cert =? ah_NewLocalExitRoot prev) then Err VErrPrevLER
      else Ok tt
  end.

Definition validateLastL2BlockInCert (cert : Certificate) (lastL2BlockInCert lastSettledBlock : Z)
  : result validatorError unit :=
  if lastL2BlockInCert <=? lastSettledBlock then Err VErrLastL2Block
  else
    let? newCertToBlock := lift_query (GetNewCertificateToBlock cert) in
    if lastL2BlockInCert <? newCertToBlock then Err VErrNewToBlock else Ok tt.

Definition getCertificatePreBuildParams (cert : Certificate) (previous : option AgglayerHeader)
    (lastL2BlockInCert previousCertToBlock : Z) : result validatorError CertificatePreBuildParams :=
  let lastSent := ConvertAgglayerCertHeaderToAggsender previous in
  let blockRange := NewBlockRange (previousCertToBlock +u64 1) lastL2BlockInCert in
  let certType := CalculateCertificateType cert lastL2BlockInCert in
  let? l1InfoRoot := lift_flow (GetL1InfoRootByLeafIndex (ct_L1InfoTreeLeafCount cert -u32 1)) in
  Ok (mkPreBuildParams blockRange 0 certType lastSent
        (Some (mkL1InfoTreeData (rt_Hash l1InfoRoot) (ct_L1InfoTreeLeafCount cert))) 0).

Definition compareCertificates (incoming local : Certificate) : result validatorError unit :=
  match DiffsCertificate (Some incoming) (Some local), CertificateID incoming, CertificateID local with
  | Some diffs, Some i, Some l =>
      if negb (i =? l) then Err VErrCertificateID
      else match diffs with [] => Ok tt | _ => Err (VErrDiffs diffs) end
  | _, _, _ => Err VPanic
  end.

Definition verifyClaimProofs (importedBridgeExits : list (option ImportedBridgeExit)) (rootFromWhichToProve : Z)
  : result validatorError unit :=
  rforeach (fun ibe =>
    match ImportedBridgeExit_VerifyProofs ibe rootFromWhichToProve with
    | None => Err VPanic
    | Some (Err e) => Err (VErrProof e)
    | Some (Ok _) => Ok tt
    end) importedBridgeExits.

Definition lift_vflow {A} (r : option (result flowError A)) : option (result validatorError A) := lift_flow <$> r.

Definition ValidateCertificate (req : VerifyIncomingRequest) : option (result validatorError unit) :=
  match rq_Certificate req with
  | None => Some (Err VErrNilCertificate)
  | Some cert =>
      let previous := rq_PreviousCertificate req in
      let lastBlock := rq_LastL2BlockInCert req in
      let?? previousToBlock := Some (lift_query (GetLastSettledCertificateToBlock previous)) in
      let?? _ := Some (validateLastL2BlockInCert cert lastBlock previousToBlock) in
      let?? _ := Some (checkContigousCertificates cert previous) in
      let?? _ := Some (checkIsPreviousCertificateSettled previous) in
      let?? preBuildParams := Some (getCertificatePreBuildParams cert previous lastBlock previousToBlock) in
      let?? buildParams := lift_vflow (vf_GenerateBuildParams flow (Some preBuildParams)) in
      let?? certificate := Some (lift_flow (vf_BuildCertificate flow buildParams)) in
      let?? _ := Some (compareCertificates cert certificate) in
      let?? _ := Some (verifyClaimProofs (ct_ImportedBridgeExits cert) (bp_L1InfoTreeRootFromWhichToProve buildParams)) in
      Some (match vf_VerifyCertificate flow cert lastBlock previousToBlock with
            | Ok _ => Ok tt
            | Err _ => Err VErrVerify
            end)
  end.

End Validator.

(** [PPVerifierFlow]: the builder flow, with nothing of its own to verify. *)
Definition ppVerifierFlow `{Kc : Keccak} `{Bq : BridgeQuerier} `{Lq : L1InfoTreeDataQuerier} (fuel : nat) (s : Storage)
    (p : PPBuilderFlow) : AggsenderVerifierFlow := {|
  vf_GenerateBuildParams := PP_GenerateBuildParams p fuel;
  vf_BuildCertificate := PP_BuildCertificate p s;
  vf_VerifyCertificate := fun _ _ _ => Ok tt
|}.

(** ** What the comparison shows *)

Section DiffsProofs.
Context `{Kc : Keccak}.

Lemma diff_if_nil b d : diff_if b d = [] <-> b = true.
Proof. by destruct b. Qed.

Lemma diffsBridgeExits_loop_nil i es vs :
  length es = length vs -> diffsBridgeExits_loop i es vs = [] -> map BridgeExit_Hash es = map BridgeExit_Hash vs.
Proof.
  revert i vs. induction es as [|e es IH]; intros i [|v vs]; simpl; try done. intros [= Hlen] Hd.
  apply app_eq_nil in Hd as [Hd Hds]. destruct (BridgeExit_Hash v =? BridgeExit_Hash e) eqn:E; [|done].
  bool_hyps. rewrite E. f_equal. eauto.
Qed.

Lemma DiffsBridgeExits_nil es vs :
  DiffsBridgeExits es vs = [] -> map BridgeExit_Hash es = map BridgeExit_Hash vs.
Proof.
  unfold DiffsBridgeExits. destruct (length es =? length vs)%nat eqn:E; [|done]. simpl.
  apply Nat.eqb_eq in E. by apply diffsBridgeExits_loop_nil.
Qed.

Definition globalIndexHash (ibe : option ImportedBridgeExit) : option Z := GlobalIndex_Hash <$> (ibe ≫= ie_GlobalIndex).

Lemma diffsImported_loop_nil i es vs :
  length es = length vs -> diffsImported_loop i es vs = Some [] -> map globalIndexHash es = map globalIndexHash vs.
Proof.
  revert i vs. induction es as [|e es IH]; intros i [|v vs]; try done. simpl. intros [= Hlen].
  unfold globalIndexHash at 1 3.
  destruct (v ≫= ie_GlobalIndex) as [gv|], (e ≫= ie_GlobalIndex) as [ge|]; simpl; try done.
  destruct (diffsImported_loop (S i) es vs) as [rest|] eqn:Er; simpl; [|done]. intros [= Hd].
  apply app_eq_nil in Hd as [Hd ->]. destruct (GlobalIndex_Hash gv =? GlobalIndex_Hash ge) eqn:E; [|done].
  bool_hyps. rewrite E. f_equal. eauto.
Qed.

Lemma DiffsImportedBridgeExits_nil es vs :
  DiffsImportedBridgeExits es vs = Some [] -> map globalIndexHash es = map globalIndexHash vs.
Proof.
  unfold DiffsImportedBridgeExits. destruct (length es =? length vs)%nat eqn:E; [|done]. simpl.
  apply Nat.eqb_eq in E. by apply diffsImported_loop_nil.
Qed.

(** Two certificates between which the validator sees no difference. *)
Record same_certificate (c1 c2 : Certificate) : Prop := {
  sm_network : ct_NetworkID c1 = ct_NetworkID c2;
  sm_height : ct_Height c1 = ct_Height c2;
  sm_prevLER : ct_PrevLocalExitRoot c1 = ct_PrevLocalExitRoot c2;
  sm_newLER : ct_NewLocalExitRoot c1 = ct_NewLocalExitRoot c2;
  sm_leafCount : ct_L1InfoTreeLeafCount c1 = ct_L1InfoTreeLeafCount c2;
  sm_exits : map BridgeExit_Hash (ct_BridgeExits c1) = map BridgeExit_Hash (ct_BridgeExits c2);
  sm_imported : map globalIndexHash (ct_ImportedBridgeExits c1) = map globalIndexHash (ct_ImportedBridgeExits c2);
  sm_id : exists id, CertificateID c1 = Some id /\ CertificateID c2 = Some id
}.

Lemma compareCertificates_Ok c1 c2 : compareCertificates c1 c2 = Ok tt -> same_certificate c1 c2.
Proof.
  unfold compareCertificates. destruct (DiffsCertificate (Some c1) (Some c2)) as [ds|] eqn:Ed; [|done].
  destruct (CertificateID c1) as [i1|] eqn:E1; [|done]. destruct (CertificateID c2) as [i2|] eqn:E2; [|done].
  destruct (i1 =? i2) eqn:Eid; [|done]. bool_hyps. subst i2. simpl. destruct ds; [|done]. intros _. simpl in Ed.
  destruct (DiffsImportedBridgeExits _ _) as [imp|] eqn:Ei; [|done]. simpl in Ed. injection Ed as Ed.
  repeat (apply app_eq_nil in Ed as [? Ed]). rewrite diff_if_nil in *. subst imp. bool_hyps.
  split; try done; [by apply DiffsBridgeExits_nil | by apply DiffsImportedBridgeExits_nil | by exists i1].
Qed.

Lemma diffsBridgeExits_loop_refl i es : diffsBridgeExits_loop i es es = [].
Proof. revert i. induction es as [|e es IH]; intros i; simpl; [done|]. by rewrite Z.eqb_refl, IH. Qed.

Lemma diffsImported_loop_refl i es :
  Forall (fun ibe => is_Some (ibe ≫= ie_GlobalIndex)) es -> diffsImported_loop i es es = Some [].
Proof.
  revert i. induction es as [|e es IH]; intros i He; [done|]. apply Forall_cons in He as [[g Hg] He]. simpl.
  rewrite Hg. simpl. rewrite IH by done. simpl. by rewrite Z.eqb_refl.
Qed.

(** A certificate whose imported exits are complete equals itself for the validator. *)
Lemma compareCertificates_refl c :
  Forall (fun ibe => is_Some (ibe ≫= ie_GlobalIndex)) (ct_ImportedBridgeExits c) ->
  is_Some (CertificateID c) -> compareCertificates c c = Ok tt.
Proof.
  intros Hi [id Hid]. unfold compareCertificates, DiffsCertificate, DiffsImportedBridgeExits, DiffsBridgeExits.
  rewrite Nat.eqb_refl. simpl. rewrite diffsImported_loop_refl by done. simpl.
  rewrite !Z.eqb_refl, Nat.eqb_refl. simpl. rewrite diffsBridgeExits_loop_refl, Hid. by rewrite Z.eqb_refl.
Qed.

End DiffsProofs.

Lemma obind_Ok {E A B} (r : option (result E A)) (k : A -> option (result E B)) b :
  obind r k = Some (Ok b) -> exists a, r = Some (Ok a) /\ k a = Some (Ok b).
Proof. destruct r as [[a|e]|]; simpl; try done. eauto. Qed.

(** Split a validation that succeeded at its next step. *)
Ltac next_step H x E := apply obind_Ok in H as (x & E & H).

Section Soundness.
Context `{Kc : Keccak} `{Lq : L1InfoTreeDataQuerier} `{Cq : CertificateQuerier}.
Context (flow : AggsenderVerifierFlow) (initialLER : Z).

(** The certificate continues the chain of certificates. *)
Definition continues (cert : Certificate) (previous : option AgglayerHeader) : Prop :=
  match previous with
  | None => ct_Height cert = 0 /\ ct_PrevLocalExitRoot cert = initialLER
  | Some prev =>
      ah_Status prev = Settled /\ ct_Height cert = ah_Height prev +u64 1 /\
      ct_PrevLocalExitRoot cert = ah_NewLocalExitRoot prev
  end.

Lemma checks_continue cert previous :
  checkContigousCertificates initialLER cert previous = Ok tt ->
  checkIsPreviousCertificateSettled previous = Ok tt -> continues cert previous.
Proof.
  unfold checkContigousCertificates, checkFirstCertificateBlocks, checkIsPreviousCertificateSettled, continues, IsSettled.
  destruct previous as [prev|].
  - destruct (Z.eqb_spec (ah_Height prev +u64 1) (ct_Height cert)); simpl; [|done].
    destruct (Z.eqb_spec (ct_PrevLocalExitRoot cert) (ah_NewLocalExitRoot prev)); simpl; [|done].
    intros _. destruct (bool_decide _) eqn:E; [|done]. apply bool_decide_eq_true in E. auto.
  - destruct (Z.eqb_spec (ct_Height cert) 0); simpl; [|done].
    by destruct (Z.eqb_spec (ct_PrevLocalExitRoot cert) initialLER).
Qed.

Lemma validateLastL2Block_Ok cert lastBlock settled :
  validateLastL2BlockInCert cert lastBlock settled = Ok tt ->
  settled < lastBlock /\ exists n, GetNewCertificateToBlock cert = Ok n /\ n <= lastBlock.
Proof.
  unfold validateLastL2BlockInCert. destruct (lastBlock <=? settled) eqn:E; [done|].
  destruct (GetNewCertificateToBlock cert) as [n|] eqn:En; simpl; [|done].
  destruct (lastBlock <? n) eqn:E2; [done|]. bool_hyps. eauto.
Qed.

(** What acceptance of a request says of its certificate: it continues the settled chain after the last settled
    block, it is the one the flow builds locally, and its claims are proved against the local root. *)
Definition accepted (req : VerifyIncomingRequest) : Prop :=
  exists cert settledTo preParams params local,
    rq_Certificate req = Some cert /\
    GetLastSettledCertificateToBlock (rq_PreviousCertificate req) = Ok settledTo /\
    settledTo < rq_LastL2BlockInCert req /\
    (exists n, GetNewCertificateToBlock cert = Ok n /\ n <= rq_LastL2BlockInCert req) /\
    continues cert (rq_PreviousCertificate req) /\
    pp_BlockRange preParams = NewBlockRange (settledTo +u64 1) (rq_LastL2BlockInCert req) /\
    vf_GenerateBuildParams flow (Some preParams) = Some (Ok params) /\
    vf_BuildCertificate flow params = Ok local /\
    same_certificate cert local /\
    Forall (fun ibe => ImportedBridgeExit_VerifyProofs ibe (bp_L1InfoTreeRootFromWhichToProve params) = Some (Ok tt))
      (ct_ImportedBridgeExits cert) /\
    vf_VerifyCertificate flow cert (rq_LastL2BlockInCert req) settledTo = Ok tt.

Lemma ValidateCertificate_accepted req : ValidateCertificate flow initialLER req = Some (Ok tt) -> accepted req.
Proof.
  unfold ValidateCertificate, accepted. destruct (rq_Certificate req) as [cert|]; [|done]. intros H.
  next_step H settledTo E1. next_step H u1 E2. next_step H u2 E3. next_step H u3 E4. next_step H pre E5.
  next_step H params E6. next_step H local E7. next_step H u4 E8. next_step H u5 E9.
  destruct u1, u2, u3, u4, u5. injection E1 as E1. injection E2 as E2. injection E3 as E3. injection E4 as E4.
  injection E5 as E5. injection E7 as E7. injection E8 as E8. injection E9 as E9.
  apply validateLastL2Block_Ok in E2 as [Hlt Hnew]. exists cert, settledTo, pre, params, local.
  split; [done|]. split; [destruct (GetLastSettledCertificateToBlock _); naive_solver|].
  split; [done|]. split; [done|]. split; [by apply checks_continue|].
  split. { unfold getCertificatePreBuildParams in E5. inv_ok E5 as root Hroot. by injection E5 as <-. }
  split. { unfold lift_vflow in E6. destruct (vf_GenerateBuildParams _ _) as [[]|]; naive_solver. }
  split. { destruct (vf_BuildCertificate flow params); naive_solver. }
  split; [by apply compareCertificates_Ok|]. split.
  - apply rforeach_Ok in E9. eapply Forall_impl; [exact E9|]. intros ibe Hi. cbv beta in Hi |- *.
    destruct (ImportedBridgeExit_VerifyProofs _ _) as [[[]|]|]; done.
  - destruct (vf_VerifyCertificate _ _ _ _) as [[]|]; [done | discriminate H].
Qed.

(** C26. A certificate the validator accepts continues the settled chain (height, previous exit
    root, blocks after the last settled one), is indistinguishable (every compared field, the
    hash of every exit, the identifier) from the one the validator builds itself from the blocks
    after the last settled one up to the block the proposer names, and carries valid inclusion
    proofs against the L1 info root of that local build. *)
Theorem ValidateCertificate_sound req :
  ValidateCertificate flow initialLER req = Some (Ok tt) ->
  exists cert settledTo preParams params local,
    rq_Certificate req = Some cert /\
    GetLastSettledCertificateToBlock (rq_PreviousCertificate req) = Ok settledTo /\
    settledTo < rq_LastL2BlockInCert req /\
    (exists n, GetNewCertificateToBlock cert = Ok n /\ n <= rq_LastL2BlockInCert req) /\
    continues cert (rq_PreviousCertificate req) /\
    pp_BlockRange preParams = NewBlockRange (settledTo +u64 1) (rq_LastL2BlockInCert req) /\
    vf_GenerateBuildParams flow (Some preParams) = Some (Ok params) /\
    vf_BuildCertificate flow params = Ok local /\
    same_certificate cert local /\
    Forall (fun ibe => ImportedBridgeExit_VerifyProofs ibe (bp_L1InfoTreeRootFromWhichToProve params) = Some (Ok tt))
      (ct_ImportedBridgeExits cert) /\
    vf_VerifyCertificate flow cert (rq_LastL2BlockInCert req) settledTo = Ok tt.
Proof. apply ValidateCertificate_accepted. Qed.

End Soundness.

(** ** Agreement of proposer and validator *)

(** What the flows rely on: a query answers with events of its range. *)
Class BridgeQuerierLaws `{Bq : BridgeQuerier} : Prop := {
  bq_within : forall from to bridges claims, GetBridgesAndClaims from to = Ok (bridges, claims) ->
    Forall (fun b => from <= br_BlockNum b <= to) bridges /\ Forall (fun c => from <= sc_BlockNum c <= to) claims;
  bq_unclaims_within : forall from to unclaims, GetUnsetClaimsForBlockRange from to = Ok unclaims ->
    Forall (fun u => from <= uc_BlockNumber u <= to) unclaims
}.
Arguments BridgeQuerierLaws Bq : clear implicits.

(** The queries of a range that ends at [t] answer with what the queries of the range that ends at [to] have up to [t]. *)
Record same_events_up_to `{Bq : BridgeQuerier} (from to t : Z) : Prop := {
  su_events : forall bridges claims, GetBridgesAndClaims from to = Ok (bridges, claims) ->
    GetBridgesAndClaims from t = Ok (filterBridgesInRange bridges from t, filterClaimsInRange claims from t);
  su_unclaims : forall unclaims, GetUnsetClaimsForBlockRange from to = Ok unclaims ->
    GetUnsetClaimsForBlockRange from t = Ok (filterUnclaimsInRange unclaims from t)
}.

(** The target root is the root of its own leaf index. *)
Class L1InfoTreeLaws `{Lq : L1InfoTreeDataQuerier} : Prop :=
  lq_target : forall r, GetTargetL1InfoRoot = Ok r ->
    GetL1InfoRootByLeafIndex (rt_Index r) = Ok r /\ 0 <= rt_Index r /\ is_u32 (rt_Index r + 1).
Arguments L1InfoTreeLaws Lq : clear implicits.

(** The part of the parameters a certificate depends on. *)
Record same_content (p q : CertificateBuildParams) : Prop := {
  cn_from : bp_FromBlock p = bp_FromBlock q;
  cn_to : bp_ToBlock p = bp_ToBlock q;
  cn_bridges : bp_Bridges p = bp_Bridges q;
  cn_claims : bp_Claims p = bp_Claims q;
  cn_unclaims : bp_Unclaims p = bp_Unclaims q;
  cn_root : bp_L1InfoTreeRootFromWhichToProve p = bp_L1InfoTreeRootFromWhichToProve q;
  cn_leafCount : bp_L1InfoTreeLeafCount p = bp_L1InfoTreeLeafCount q
}.

Section Agreement.
Context `{Kc : Keccak} `{Bq : BridgeQuerier} `{Lq : L1InfoTreeDataQuerier} `{Cq : CertificateQuerier}.
Context `{!BridgeQuerierLaws Bq} `{!L1InfoTreeLaws Lq}.

Lemma GenerateBuildParams_wf pre p :
  let r := pp_BlockRange pre in
  is_u64 (br_FromBlock r) -> is_u64 (br_ToBlock r + 1) -> br_FromBlock r <= br_ToBlock r ->
  GenerateBuildParams pre = Ok p -> params_wf p.
Proof.
  intros r Hf Ht Hle Hg. unfold GenerateBuildParams in Hg. destruct (pp_L1InfoTreeToProve pre); [|done].
  inv_ok Hg as [bs cs] Hb. inv_ok Hg as us Hu. injection Hg as <-.
  apply bq_within in Hb as [Hb Hc]. apply bq_unclaims_within in Hu. by constructor.
Qed.

(** Building from the shorter range gives the content of the shortened parameters. *)
Lemma GenerateBuildParams_cut pre p t pre' :
  GenerateBuildParams pre = Ok p -> same_events_up_to (bp_FromBlock p) (bp_ToBlock p) t ->
  br_FromBlock (pp_BlockRange pre') = bp_FromBlock p -> br_ToBlock (pp_BlockRange pre') = t ->
  pp_L1InfoTreeToProve pre' = pp_L1InfoTreeToProve pre ->
  exists q, GenerateBuildParams pre' = Ok q /\ same_content q (restrict p t) /\
    bp_RetryCount q = pp_RetryCount pre' /\ bp_LastSentCertificate q = pp_LastSentCertificate pre'.
Proof.
  intros Hg Hcut Hf' Ht' Hl. unfold GenerateBuildParams in *. rewrite Hl.
  destruct (pp_L1InfoTreeToProve pre) as [toProve|]; [|done].
  inv_ok Hg as [bs cs] Hb. inv_ok Hg as us Hu. injection Hg as <-. simpl in *. rewrite Hf', Ht'.
  rewrite (su_events _ _ _ Hcut _ _ Hb). cbn [rbind]. rewrite (su_unclaims _ _ _ Hcut _ Hu). cbn [rbind].
  eexists. split; [done|]. split; [|done]. by constructor.
Qed.

Lemma adjusted_same_content options p0 p q :
  params_wf p0 -> adjusted options p0 p -> same_content q p -> params_wf q /\ adjusted options q q.
Proof.
  intros Hp0 [Hs Hmax Hrange Hg Hn] [E1 E2 E3 E4 E5 E6 E7].
  pose proof (shortened_wf _ _ Hp0 Hs) as [].
  assert (bp_L1InfoTreeRootFromWhichToProve p = bp_L1InfoTreeRootFromWhichToProve p0) as Hroot
    by (by destruct Hs as (? & _ & ->)).
  assert (params_wf q) as Hq by (constructor; rewrite ?E1, ?E2, ?E3, ?E4, ?E5; done).
  split; [done|]. constructor; [by apply shortened_refl | by rewrite E2 | by rewrite E1, E2 | |].
  - intros c Hc. rewrite E6, Hroot. apply Hg. by rewrite <- E4.
  - unfold no_invalid_claim in *. by rewrite E4, E5, E6, Hroot.
Qed.

Lemma BuildCertificate_same_content f s p q lastSent b :
  same_content p q -> BuildCertificate f s p lastSent b = BuildCertificate f s q lastSent b.
Proof.
  intros [E1 E2 E3 E4 E5 E6 E7].
  unfold BuildCertificate, getNewLocalExitRoot, MaxDepositCount, IsEmpty, NumberOfBridges, NumberOfClaims.
  by rewrite E3, E4, E5, E6, E7.
Qed.

(** After a settled certificate only its height and new exit root matter. *)
Lemma getNextHeight_settled f s c :
  ch_Status c = Settled ->
  getNextHeightAndPreviousLER f s (Some c) = Ok (ch_Height c +u64 1, ch_NewLocalExitRoot c).
Proof. intros Hs. unfold getNextHeightAndPreviousLER. by rewrite Hs. Qed.

Lemma BuildCertificate_settled f s s' p c c' b :
  ch_Status c = Settled -> ch_Status c' = Settled -> ch_Height c' = ch_Height c ->
  ch_NewLocalExitRoot c' = ch_NewLocalExitRoot c ->
  BuildCertificate f s' p (Some c') b = BuildCertificate f s p (Some c) b.
Proof.
  intros Hc Hc' Hh Hl. unfold BuildCertificate. by rewrite !getNextHeight_settled, Hh, Hl.
Qed.

Lemma verify_same_content p q :
  same_content q p -> bp_RetryCount q = 0 -> VerifyBuildParams p = Ok tt -> VerifyBuildParams q = Ok tt.
Proof.
  intros Hc Hr. unfold VerifyBuildParams. intros H. inv_ok H as u Hu.
  unfold verifyRetryCertStartingBlock, IsARetry. rewrite Hr. simpl.
  destruct (bp_LastSentCertificate q); simpl; by rewrite (cn_claims _ _ Hc).
Qed.

(** ** Complete imported exits *)

Definition exit_complete (ibe : option ImportedBridgeExit) : Prop :=
  is_Some (ibe ≫= ie_GlobalIndex) /\ is_Some (ImportedBridgeExit_Hash ibe).

Lemma claimData_Hash c ibe g l proof root : is_Some (Claim_Hash (claimData c ibe g l proof root)).
Proof. unfold claimData. destruct (gi_MainnetFlag g); by eexists. Qed.

Lemma Convert_complete root c ibe :
  ConvertToImportedBridgeExit GetProofForGER root c = Ok ibe -> exit_complete ibe.
Proof.
  unfold ConvertToImportedBridgeExit. intros H. inv_ok H as i Hi. inv_ok H as [l pr] Hp.
  destruct (ie_GlobalIndex i) as [g|]; [|done]. injection H as <-. split; [by eexists|].
  unfold ImportedBridgeExit_Hash. simpl. destruct (claimData_Hash c i g l pr root) as [h ->]. by eexists.
Qed.

Lemma BuildCertificate_complete f s p lastSent b cert :
  fc_FullClaimsNeeded (bf_cfg f) = true -> BuildCertificate f s p lastSent b = Ok cert ->
  Forall exit_complete (ct_ImportedBridgeExits cert) /\ is_Some (CertificateID cert).
Proof.
  intros Hfull. unfold BuildCertificate. destruct (negb b && IsEmpty p); [done|]. intros H.
  inv_ok H as exits He. inv_ok H as [h ler] Hh. inv_ok H as newLER Hn. injection H as <-. simpl.
  unfold getImportedBridgeExits in He. rewrite Hfull in He. apply rmap_Ok in He.
  assert (Forall exit_complete exits) as Hall.
  { clear -He. induction He as [|c ibe cs ibes Hc _ IH]; constructor; [by eapply Convert_complete | done]. }
  split; [done|]. unfold CertificateID. simpl.
  assert (is_Some (mapM ImportedBridgeExit_Hash exits)) as [hs ->]; [|by eexists].
  apply mapM_is_Some. eapply Forall_impl; [exact Hall|]. by intros ibe [_ ?].
Qed.

(** ** The proposer's side *)

Section Proposer.
Context (pf : PPBuilderFlow) (fuel : nat) (s : Storage) (now : Z) (c : CertificateHeader) (settledTo : Z).
Context (Hlast : GetLastSentCertificateHeader s = Ok (Some c)) (Hsettled : ch_Status c = Settled).
Context (Hquery : GetLastSettledCertificateToBlock (ConvertAggsenderCertHeaderToAgglayer (Some c)) = Ok settledTo).
Context (Hto : 0 <= settledTo) (Hrange : 0 <= pf_maxL2BlockRange pf).
Context (Hcfg : bf_hasCertQuerier (pf_baseFlow pf) = true).
Context (Hsynced : forall synced, GetLastProcessedBlock = Ok (Some synced) ->
  is_u64 (synced + 1) /\ (Z.to_nat synced < fuel)%nat).

Lemma proposer_pre pre :
  GeneratePreBuildParams (pf_baseFlow pf) s now CertificateTypePP = Ok pre ->
  exists r synced, GetTargetL1InfoRoot = Ok r /\ GetLastProcessedBlock = Ok (Some synced) /\ settledTo < synced /\
    pp_BlockRange pre = NewBlockRange (settledTo +u64 1) synced /\ pp_LastSentCertificate pre = Some c /\
    pp_L1InfoTreeToProve pre = Some (mkL1InfoTreeData (rt_Hash r) (rt_Index r +u32 1)).
Proof.
  unfold GeneratePreBuildParams, GetLastCertificate, NextCertificateBlockRange. rewrite Hlast. cbn [lift_db rbind].
  destruct GetLastProcessedBlock as [[synced|]|]; cbn [rbind]; try done.
  destruct (getLastSentBlockAndRetryCount _ _) as [prev retry].
  replace (IsSettled (ch_Status c) && bf_hasCertQuerier (pf_baseFlow pf)) with true by (by rewrite Hsettled, Hcfg).
  rewrite Hquery. cbn [lift_checker rbind].
  destruct (Z.leb_spec synced settledTo); cbn [rbind]; [done|].
  destruct GetTargetL1InfoRoot as [r|]; cbn [rbind]; [|done]. intros [= <-]. by exists r, synced.
Qed.

(** The parameters of a certificate the proposer sends. *)
Lemma proposer_params p :
  PP_GetCertificateBuildParams pf fuel s now = Some (Ok (Some p)) ->
  exists pre p0 r, GenerateBuildParams pre = Ok p0 /\ params_wf p0 /\ GetTargetL1InfoRoot = Ok r /\
    GetLastProcessedBlock = Ok (Some (bp_ToBlock p0)) /\
    adjusted (adjustmentOptions pf true) p0 p /\ VerifyBuildParams p = Ok tt /\
    bp_FromBlock p0 = settledTo +u64 1 /\ settledTo +u64 1 = settledTo + 1 /\ bp_LastSentCertificate p = Some c /\
    pp_L1InfoTreeToProve pre = Some (mkL1InfoTreeData (rt_Hash r) (rt_Index r +u32 1)) /\
    bp_L1InfoTreeRootFromWhichToProve p = rt_Hash r /\ bp_L1InfoTreeLeafCount p = rt_Index r +u32 1.
Proof.
  unfold PP_GetCertificateBuildParams, GetCertificateBuildParamsInternal.
  destruct (GeneratePreBuildParams _ s now CertificateTypePP) as [pre|e] eqn:Epre; [|by destruct e].
  cbn [rbind]. destruct (GenerateBuildParams pre) as [p0|e] eqn:Ep0; [|by destruct e].
  destruct (_ && _); [done|]. destruct (IsEmpty p0); [done|]. intros H.
  next_step H q Hq. next_step H u Hv. destruct u. injection Hv as Hv. injection H as ->.
  destruct (proposer_pre pre Epre) as (r & synced & Hr & Hs & Hlt & Hbr & Hsent & Htp).
  destruct (Hsynced synced Hs) as [Hu Hfuel].
  assert (settledTo +u64 1 = settledTo + 1) as Hadd by (apply add64_small; unfold_words; lia).
  assert (params_wf p0) as Hwf.
  { eapply GenerateBuildParams_wf; [..|exact Ep0]; rewrite Hbr; simpl; rewrite ?Hadd; unfold_words; lia. }
  assert (bp_FromBlock p0 = settledTo +u64 1 /\ bp_ToBlock p0 = synced /\ bp_LastSentCertificate p0 = Some c /\
          bp_L1InfoTreeRootFromWhichToProve p0 = rt_Hash r /\ bp_L1InfoTreeLeafCount p0 = rt_Index r +u32 1)
    as (Hf & Ht & Hl & Hroot & Hleaf).
  { unfold GenerateBuildParams in Ep0. rewrite Htp in Ep0. inv_ok Ep0 as [bs cs] Hb. inv_ok Ep0 as us Hus.
    injection Ep0 as <-. simpl. by rewrite Hbr, Hsent. }
  destruct (AdjustBlockRange_spec (pf_baseFlow pf) (adjustmentOptions pf false) fuel p0 Hwf Hrange) as (res & Hres & Had);
    [lia|].
  rewrite Hres in Hq. injection Hq as ->. specialize (Had p eq_refl).
  exists pre, p0, r. rewrite Ht. repeat (split; [done|]).
  split; [by destruct Had|]. split; [done|]. split; [done|]. split; [done|].
  by destruct (ad_shortened _ _ _ Had) as (t & _ & ->).
Qed.

(** What the validator generates for the proposer's certificate. *)
Lemma validator_params p cert vfuel :
  PP_GetCertificateBuildParams pf fuel s now = Some (Ok (Some p)) ->
  (forall synced, GetLastProcessedBlock = Ok (Some synced) -> same_events_up_to (settledTo +u64 1) synced (bp_ToBlock p)) ->
  ct_L1InfoTreeLeafCount cert = bp_L1InfoTreeLeafCount p ->
  exists pre q,
    getCertificatePreBuildParams cert (ConvertAggsenderCertHeaderToAgglayer (Some c)) (bp_ToBlock p) settledTo = Ok pre /\
    PP_GenerateBuildParams pf (S vfuel) (Some pre) = Some (Ok q) /\ same_content q p /\
    bp_LastSentCertificate q = ConvertAgglayerCertHeaderToAggsender (ConvertAggsenderCertHeaderToAgglayer (Some c)).
Proof.
  intros Hp Hcut Hlc.
  destruct (proposer_params p Hp) as (pre & p0 & r & Hg & Hwf & Hr & Hsy & Had & Hv & Hf & Hadd & _ & Htp & Hroot & Hleaf).
  destruct (lq_target r Hr) as (Hidx & Hpos & Hu32).
  assert (rt_Index r +u32 1 = rt_Index r + 1) as Hplus by (by apply wrap32_small).
  assert (rt_Index r + 1 -u32 1 = rt_Index r) as Hminus
    by (unfold sub32; rewrite wrap32_small by (unfold_words; lia); lia).
  unfold getCertificatePreBuildParams. rewrite Hlc, Hleaf, Hplus, Hminus, Hidx. cbn [lift_flow rbind].
  pose proof (ad_shortened _ _ _ Had) as (t & Ht & Ep).
  assert (bp_ToBlock p = t) as Et by (by rewrite Ep).
  destruct (GenerateBuildParams_cut pre p0 t (mkPreBuildParams (NewBlockRange (settledTo +u64 1) t) 0
    (CalculateCertificateType cert t) (ConvertAgglayerCertHeaderToAggsender
    (ConvertAggsenderCertHeaderToAgglayer (Some c))) (Some (mkL1InfoTreeData (rt_Hash r) (rt_Index r + 1))) 0) Hg)
    as (q & Hq & Hsame & Hretry & Hlq); [rewrite Hf, <- Et; by apply Hcut | by rewrite Hf | done | by rewrite Htp, Hplus |].
  rewrite <- Ep in Hsame. rewrite Et. eexists _, q. split; [done|]. split; [|by split].
  destruct (adjusted_same_content _ p0 p q Hwf Had Hsame) as [Hwq Haq].
  unfold PP_GenerateBuildParams. rewrite Hq. cbn [obind].
  rewrite (AdjustBlockRange_fixpoint _ vfuel _ q q) by
    (done || intros _; unfold validateRootToProveIsFinalized; rewrite (cn_leafCount _ _ Hsame), Hleaf, Hplus, Hminus, Hidx;
     rewrite (proj2 (Z.eqb_neq _ _)) by lia; cbn [rbind];
     rewrite (cn_root _ _ Hsame), Hroot, Z.eqb_refl, Hr; cbn [rbind negb]; by rewrite Z.ltb_irrefl).
  cbn [obind]. by rewrite (verify_same_content p q Hsame Hretry Hv).
Qed.


End Proposer.

End Agreement.

(** ** Examples *)

Lemma events_querier_laws bridges claims unclaims synced exitRoot :
  BridgeQuerierLaws (events_querier bridges claims unclaims synced exitRoot).
Proof.
  constructor; simpl.
  - intros from to bs cs [= <- <-]. split; apply bfilter_range_Forall.
  - intros from to us [= <-]. apply bfilter_range_Forall.
Qed.

Lemma events_querier_cuts bridges claims unclaims synced exitRoot from to t :
  t <= to -> same_events_up_to (Bq := events_querier bridges claims unclaims synced exitRoot) from to t.
Proof.
  intros Ht. split; simpl.
  - intros bs cs [= <- <-]. unfold filterBridgesInRange, filterClaimsInRange, in_blocks. by rewrite !bfilter_range_twice by lia.
  - intros us [= <-]. unfold filterUnclaimsInRange, in_blocks. by rewrite bfilter_range_twice by lia.
Qed.

#[local] Existing Instance toy_keccak.

Definition example_prover : L1InfoTreeDataQuerier := {|
  GetTargetL1InfoRoot := Ok (mkRoot 40 7 100 0);
  GetL1InfoRootByLeafIndex := fun i => Ok (mkRoot 40 i 100 0);
  GetProofForGER := fun ger _ => Ok (mkL1InfoLeaf 90 0 3 0 0 0 0 ger 0, repeat 0 32);
  IsGERFinalized := fun _ _ => Ok true;
  DoesGERExistsOnL1 := fun _ => Ok true
|}.

Lemma example_prover_laws : L1InfoTreeLaws example_prover.
Proof. intros r [= <-]. split; [reflexivity|]. split; vm_compute; [congruence | split; congruence]. Qed.

Definition example_chain : BridgeQuerier :=
  events_querier [example_bridge 25 3] [example_synced_claim 12 5 (CalculateGER 0 0)] [] 30 99.
Definition example_last : CertificateHeader := example_sent 1 9 Settled.
Definition example_store : Storage :=
  mkStorage (mkTables {[ 4 := mkCertificateInfo example_last None None [] ]} ∅ None) ∅
    NewStorageRetainCertificatesPolicyDefault.
Definition example_pp : PPBuilderFlow := mkPPBuilderFlow example_flow false 0 0.

Definition example_sent_params : CertificateBuildParams :=
  mkBuildParams 10 30 [example_bridge 25 3] [example_synced_claim 12 5 (CalculateGER 0 0)] [] 100 0 (Some example_last)
    40 8 None CertificateTypePP [].

Definition example_built : Certificate :=
  match PP_BuildCertificate (Bq := example_chain) (Lq := example_prover) example_pp example_store example_sent_params with
  | Ok cert => cert
  | Err _ => mkCertificate 0 0 0 0 [] [] 0
  end.


(** A certificate with one bridge and no claim. *)
Definition example_bridge_only : Certificate :=
  mkCertificate 1 5 7 99 [ConvertToBridgeExit (example_bridge 25 3)] [] 8.
Definition example_request : VerifyIncomingRequest :=
  mkRequest (Some example_bridge_only) (ConvertAggsenderCertHeaderToAgglayer (Some example_last)) 30.
Definition example_verifier : AggsenderVerifierFlow :=
  ppVerifierFlow (Bq := example_events) (Lq := example_prover) 1 example_store example_pp.

Lemma ValidateCertificate_sound_witness :
  exists cert settledTo preParams params local,
    rq_Certificate example_request = Some cert /\
    GetLastSettledCertificateToBlock (CertificateQuerier := example_querier) (rq_PreviousCertificate example_request)
      = Ok settledTo /\
    settledTo < rq_LastL2BlockInCert example_request /\
    (exists n, GetNewCertificateToBlock (CertificateQuerier := example_querier) cert = Ok n /\
       n <= rq_LastL2BlockInCert example_request) /\
    continues 77 cert (rq_PreviousCertificate example_request) /\
    pp_BlockRange preParams = NewBlockRange (settledTo +u64 1) (rq_LastL2BlockInCert example_request) /\
    vf_GenerateBuildParams example_verifier (Some preParams) = Some (Ok params) /\
    vf_BuildCertificate example_verifier params = Ok local /\
    same_certificate cert local /\
    Forall (fun ibe => ImportedBridgeExit_VerifyProofs ibe (bp_L1InfoTreeRootFromWhichToProve params) = Some (Ok tt))
      (ct_ImportedBridgeExits cert) /\
    vf_VerifyCertificate example_verifier cert (rq_LastL2BlockInCert example_request) settledTo = Ok tt.
Proof.
  refine (ValidateCertificate_sound (Lq := example_prover) (Cq := example_querier) example_verifier 77 example_request _).
  vm_compute. reflexivity.
Defined.
