(* ===== verification/GrpcCert.v ===== *)
(** Exits and claims of a certificate on the wire ([agglayer/grpc/agglayer_grpc_client.go] and
    [agglayer/grpc/conversion_to_agglayer.go]): the messages, the conversions in both directions, and what
    survives them.

    The messages are generated code: records with the fields the conversions use.  A pointer is an [option], a
    [FixedBytes…] message its bytes; a conversion that can dereference nil returns an [option], [None] being the
    panic. *)

From S2P Require Import Prelude Bytes Merkle AgglayerTypes BuildParams Validator.

Inductive grpcError := ErrGrpcNil | ErrUnknownLeafType | ErrUnknownClaim | ErrInvalidClaimType | ErrSiblings.

(** [common.BytesToHash] and [common.BytesToAddress] keep the last bytes. *)
Definition BytesToHash (b : list Z) : Z := be_value b mod 256 ^ Z.of_nat HashLength.
Definition BytesToAddress (b : list Z) : Z := be_value b mod 256 ^ Z.of_nat AddressLength.

(** ** Messages *)

Inductive ProtoLeafType := LEAF_TYPE_UNSPECIFIED | LEAF_TYPE_TRANSFER | LEAF_TYPE_MESSAGE.

Record ProtoTokenInfo := mkProtoTokenInfo { pt_OriginNetwork : Z; pt_OriginTokenAddress : option (list Z) }.

Record ProtoBridgeExit := mkProtoBridgeExit {
  pe_LeafType : ProtoLeafType;
  pe_TokenInfo : option ProtoTokenInfo;
  pe_DestNetwork : Z;
  pe_DestAddress : option (list Z);
  pe_Amount : option (list Z);
  pe_Metadata : option (list Z)
}.

Record ProtoMerkleProof := mkProtoMerkleProof { pm_Root : option (list Z); pm_Siblings : list (list Z) }.
Record ProtoInner := mkProtoInner { pn_GlobalExitRoot : option (list Z); pn_BlockHash : option (list Z); pn_Timestamp : Z }.
Record ProtoL1Leaf := mkProtoL1Leaf {
  pl_L1InfoTreeIndex : Z; pl_Rer : option (list Z); pl_Mer : option (list Z); pl_Inner : option ProtoInner
}.

Inductive ProtoClaim :=
| ProtoMainnet (proofLeafMer proofGerL1Root : option ProtoMerkleProof) (l1Leaf : option ProtoL1Leaf)
| ProtoRollup (proofLeafLer proofLerRer proofGerL1Root : option ProtoMerkleProof) (l1Leaf : option ProtoL1Leaf).

Record ProtoImportedBridgeExit := mkProtoImportedBridgeExit {
  pi_BridgeExit : option ProtoBridgeExit; pi_GlobalIndex : option (list Z); pi_Claim : option ProtoClaim
}.

(** ** To the messages *)

Definition leafTypeToProto (leafType : Z) : ProtoLeafType :=
  if leafType =? LeafTypeAsset then LEAF_TYPE_TRANSFER
  else if leafType =? LeafTypeMessage then LEAF_TYPE_MESSAGE else LEAF_TYPE_UNSPECIFIED.

Definition convertToProtoBridgeExit (be : option BridgeExit) : option (option ProtoBridgeExit) :=
  match be with
  | None => Some None
  | Some be =>
      t ← be_TokenInfo be;
      Some (Some (mkProtoBridgeExit (leafTypeToProto (be_LeafType be))
        (Some (mkProtoTokenInfo (ti_OriginNetwork t) (Some (be_bytes AddressLength (ti_OriginTokenAddress t)))))
        (be_DestinationNetwork be)
        (Some (be_bytes AddressLength (be_DestinationAddress be)))
        (match be_Amount be with Some a => Some (Hash_Bytes (Z.abs a)) | None => None end)
        (match be_Metadata be with [] => None | m => Some (Hash_Bytes (BytesToHash m)) end)))
  end.

Definition convertToProtoSiblings (siblings : list Z) : list (list Z) := map Hash_Bytes siblings.

Definition convertToProtoProof (m : MerkleProof) : ProtoMerkleProof :=
  mkProtoMerkleProof (Some (Hash_Bytes (mp_Root m))) (convertToProtoSiblings (mp_Proof m)).

Definition convertToProtoLeaf (l : L1InfoTreeLeaf) : option ProtoL1Leaf :=
  inner ← ll_Inner l;
  Some (mkProtoL1Leaf (ll_L1InfoTreeIndex l) (Some (Hash_Bytes (ll_RollupExitRoot l))) (Some (Hash_Bytes (ll_MainnetExitRoot l)))
    (Some (mkProtoInner (Some (Hash_Bytes (in_GlobalExitRoot inner))) (Some (Hash_Bytes (in_BlockHash inner))) (in_Timestamp inner)))).

Definition convertToProtoClaim (c : option Claim) : option (result grpcError ProtoClaim) :=
  match c with
  | Some (Mainnet c) =>
      mer ← cm_ProofLeafMER c; ger ← cm_ProofGERToL1Root c; l ← cm_L1Leaf c; leaf ← convertToProtoLeaf l;
      Some (Ok (ProtoMainnet (Some (convertToProtoProof mer)) (Some (convertToProtoProof ger)) (Some leaf)))
  | Some (Rollup c) =>
      ler ← cr_ProofLeafLER c; rer ← cr_ProofLERToRER c; ger ← cr_ProofGERToL1Root c; l ← cr_L1Leaf c; leaf ← convertToProtoLeaf l;
      Some (Ok (ProtoRollup (Some (convertToProtoProof ler)) (Some (convertToProtoProof rer)) (Some (convertToProtoProof ger)) (Some leaf)))
  | None => Some (Err ErrInvalidClaimType)
  end.

Definition convertToProtoImportedBridgeExit (ibe : option ImportedBridgeExit)
  : option (result grpcError (option ProtoImportedBridgeExit)) :=
  match ibe with
  | None => Some (Ok None)
  | Some ibe =>
      exit ← convertToProtoBridgeExit (ie_BridgeExit ibe);
      g ← ie_GlobalIndex ibe;
      let?? claim := convertToProtoClaim (ie_ClaimData ibe) in
      Some (Ok (Some (mkProtoImportedBridgeExit exit (Some (Hash_Bytes (GlobalIndex_ToBigInt g))) (Some claim))))
  end.

(** ** From the messages *)

Definition grpcLeafTypeToAgglayer (leafType : ProtoLeafType) : result grpcError Z :=
  match leafType with
  | LEAF_TYPE_TRANSFER => Ok LeafTypeAsset
  | LEAF_TYPE_MESSAGE => Ok LeafTypeMessage
  | LEAF_TYPE_UNSPECIFIED => Err ErrUnknownLeafType
  end.

Definition grpcBridgeExitToAgglayer (bridgeExit : option ProtoBridgeExit) : result grpcError (option BridgeExit) :=
  match bridgeExit with
  | None => Err ErrGrpcNil
  | Some e =>
      let? leafType := grpcLeafTypeToAgglayer (pe_LeafType e) in
      match pe_TokenInfo e with
      | Some (mkProtoTokenInfo network (Some token)) =>
          match pe_DestAddress e with
          | None => Err ErrGrpcNil
          | Some dest =>
              let amount := match pe_Amount e with Some v => be_value v | None => 0 end in
              let metadata := match pe_Metadata e with Some v => v | None => [] end in
              Ok (Some (mkBridgeExit leafType (Some (mkTokenInfo network (BytesToAddress token))) (pe_DestNetwork e)
                    (BytesToAddress dest) (Some amount) metadata))
          end
      | _ => Err ErrGrpcNil
      end
  end.

Definition grpcMerkleProofToAgglayer (proof : option ProtoMerkleProof) : result grpcError (option MerkleProof) :=
  match proof with
  | Some (mkProtoMerkleProof (Some root) (s :: siblings)) =>
      if negb (length (s :: siblings) =? DefaultHeight)%nat then Err ErrSiblings
      else Ok (Some (mkMerkleProof (BytesToHash root) (map BytesToHash (s :: siblings))))
  | _ => Err ErrGrpcNil
  end.

Definition grpcL1LeafToAgglayer (l1Leaf : option ProtoL1Leaf) : result grpcError (option L1InfoTreeLeaf) :=
  match l1Leaf with
  | Some (mkProtoL1Leaf index (Some rer) (Some mer) (Some (mkProtoInner (Some ger) (Some blockHash) timestamp))) =>
      Ok (Some (mkL1InfoTreeLeaf index (BytesToHash rer) (BytesToHash mer)
        (Some (mkInner (BytesToHash ger) (BytesToHash blockHash) timestamp))))
  | _ => Err ErrGrpcNil
  end.

Definition grpcClaimDataToAgglayer (claim : option ProtoClaim) : result grpcError (option Claim) :=
  match claim with
  | Some (ProtoMainnet mer ger leaf) =>
      let? mer := grpcMerkleProofToAgglayer mer in
      let? ger := grpcMerkleProofToAgglayer ger in
      let? leaf := grpcL1LeafToAgglayer leaf in
      Ok (Some (Mainnet (mkClaimFromMainnet mer ger leaf)))
  | Some (ProtoRollup ler rer ger leaf) =>
      let? ler := grpcMerkleProofToAgglayer ler in
      let? rer := grpcMerkleProofToAgglayer rer in
      let? ger := grpcMerkleProofToAgglayer ger in
      let? leaf := grpcL1LeafToAgglayer leaf in
      Ok (Some (Rollup (mkClaimFromRollup ler rer ger leaf)))
  | None => Err ErrUnknownClaim
  end.

(** [None]: the global index does not fit ([DecodeGlobalIndex]). *)
Definition grpcImportedBridgeExitToAgglayer (importedBridgeExit : option ProtoImportedBridgeExit)
  : option (result grpcError (option ImportedBridgeExit)) :=
  match importedBridgeExit with
  | None => Some (Err ErrGrpcNil)
  | Some i =>
      let?? exit := Some (grpcBridgeExitToAgglayer (pi_BridgeExit i)) in
      match pi_GlobalIndex i with
      | None => Some (Err ErrGrpcNil)
      | Some bytes =>
          '(mainnetFlag, rollupIndex, leafIndex) ← DecodeGlobalIndex (be_value bytes);
          let?? claim := Some (grpcClaimDataToAgglayer (pi_Claim i)) in
          Some (Ok (Some (mkImportedBridgeExit exit claim (Some (mkGlobalIndex mainnetFlag rollupIndex leafIndex)))))
      end
  end.

(** The loops over exits. *)
Fixpoint omapM {A B} (f : A -> option (result grpcError B)) (l : list A) : option (result grpcError (list B)) :=
  match l with
  | [] => Some (Ok [])
  | a :: l => let?? b := f a in let?? bs := omapM f l in Some (Ok (b :: bs))
  end.

Definition grpcBridgeExitsToAgglayer (exits : list (option ProtoBridgeExit)) : option (result grpcError (list (option BridgeExit))) :=
  omapM (fun e => Some (grpcBridgeExitToAgglayer e)) exits.

Definition grpcImportedBridgeExitsToAgglayer (exits : list (option ProtoImportedBridgeExit))
  : option (result grpcError (list (option ImportedBridgeExit))) := omapM grpcImportedBridgeExitToAgglayer exits.

(** ** What survives *)

Definition is_hash (h : Z) : Prop := 0 <= h < 256 ^ Z.of_nat HashLength.
Definition is_address (a : Z) : Prop := 0 <= a < 256 ^ Z.of_nat AddressLength.

(** An exit that arrives as it was: the amount is present and fits 32 bytes, and the metadata is empty or has 32 bytes. *)
Record exit_survives (be : BridgeExit) : Prop := {
  xs_leafType : be_LeafType be = LeafTypeAsset \/ be_LeafType be = LeafTypeMessage;
  xs_token : exists t, be_TokenInfo be = Some t /\ is_address (ti_OriginTokenAddress t);
  xs_dest : is_address (be_DestinationAddress be);
  xs_amount : exists a, be_Amount be = Some a /\ is_hash a;
  xs_metadata : be_Metadata be = [] \/ exists h, is_hash h /\ be_Metadata be = Hash_Bytes h
}.

Lemma BytesToHash_Bytes h : is_hash h -> BytesToHash (Hash_Bytes h) = h.
Proof. intros Hh. unfold BytesToHash, Hash_Bytes. rewrite be_value_be_bytes, Z.mod_mod by (vm_compute; discriminate). by apply Z.mod_small. Qed.

Lemma BytesToAddress_bytes a : is_address a -> BytesToAddress (be_bytes AddressLength a) = a.
Proof. intros Ha. unfold BytesToAddress. rewrite be_value_be_bytes, Z.mod_mod by (vm_compute; discriminate). by apply Z.mod_small. Qed.

Lemma BytesToHash_list l : Forall is_hash l -> map BytesToHash (map Hash_Bytes l) = l.
Proof. induction 1 as [|h l Hh _ IH]; [done|]. cbn [map]. by rewrite BytesToHash_Bytes, IH. Qed.

Lemma Hash_Bytes_nonempty h : exists b bs, Hash_Bytes h = b :: bs.
Proof. pose proof (be_bytes_length HashLength h) as Hl. unfold Hash_Bytes. destruct (be_bytes HashLength h); [done | eauto]. Qed.

Lemma exit_roundtrip be : exit_survives be ->
  exists p, convertToProtoBridgeExit (Some be) = Some (Some p) /\ grpcBridgeExitToAgglayer (Some p) = Ok (Some be).
Proof.
  intros [Hl (t & Ht & Hta) Hd (a & Ea & Ha) Hm]. destruct be as [lt ti dn da am md]. cbn [be_LeafType be_TokenInfo be_DestinationAddress be_Amount be_Metadata] in *. subst ti am.
  eexists. split; [reflexivity|]. cbn [be_LeafType be_TokenInfo be_DestinationNetwork be_DestinationAddress be_Amount be_Metadata]. cbn [grpcBridgeExitToAgglayer pe_LeafType pe_TokenInfo pe_DestAddress pe_DestNetwork pe_Amount pe_Metadata].
  assert (Elt : grpcLeafTypeToAgglayer (leafTypeToProto lt) = Ok lt) by (by destruct Hl as [-> | ->]). rewrite Elt. cbn [rbind].
  rewrite !BytesToAddress_bytes by done. rewrite Z.abs_eq by (unfold is_hash in *; lia).
  assert (Eam : be_value (Hash_Bytes a) = a) by (unfold Hash_Bytes; by apply be_value_be_bytes_small).
  rewrite Eam. destruct Hm as [-> | (h & Hh & ->)]; [by destruct t|].
  destruct (Hash_Bytes_nonempty h) as (b & bs & E). rewrite E. cbn beta iota. rewrite <- E, BytesToHash_Bytes by done. by destruct t.
Qed.

(** A proof of the height of the tree, a leaf with its inner part. *)
Definition proof_survives (m : option MerkleProof) : Prop :=
  exists m', m = Some m' /\ is_hash (mp_Root m') /\ Forall is_hash (mp_Proof m') /\ length (mp_Proof m') = DefaultHeight.
Definition leaf_survives (l : option L1InfoTreeLeaf) : Prop :=
  exists l' i, l = Some l' /\ ll_Inner l' = Some i /\ is_hash (ll_RollupExitRoot l') /\ is_hash (ll_MainnetExitRoot l') /\
    is_hash (in_GlobalExitRoot i) /\ is_hash (in_BlockHash i).

Definition claim_survives (c : option Claim) : Prop :=
  match c with
  | Some (Mainnet c) => proof_survives (cm_ProofLeafMER c) /\ proof_survives (cm_ProofGERToL1Root c) /\ leaf_survives (cm_L1Leaf c)
  | Some (Rollup c) => proof_survives (cr_ProofLeafLER c) /\ proof_survives (cr_ProofLERToRER c) /\
      proof_survives (cr_ProofGERToL1Root c) /\ leaf_survives (cr_L1Leaf c)
  | None => False
  end.

(** The global index of mainnet has no rollup index. *)
Definition imported_survives (ibe : option ImportedBridgeExit) : Prop :=
  exists i be g, ibe = Some i /\ ie_BridgeExit i = Some be /\ exit_survives be /\ claim_survives (ie_ClaimData i) /\
    ie_GlobalIndex i = Some g /\ is_u32 (gi_RollupIndex g) /\ is_u32 (gi_LeafIndex g) /\
    (gi_MainnetFlag g = true -> gi_RollupIndex g = 0).

Lemma proof_roundtrip m : proof_survives m ->
  exists m', m = Some m' /\ grpcMerkleProofToAgglayer (Some (convertToProtoProof m')) = Ok m.
Proof.
  intros ([r ps] & -> & Hr & Hps & Hl). cbn [mp_Root mp_Proof] in *. eexists. split; [done|]. unfold convertToProtoProof, convertToProtoSiblings.
  cbn [mp_Root mp_Proof].
  assert (Hl' : length (map Hash_Bytes ps) = DefaultHeight) by (by rewrite length_map).
  assert (Hmap : map BytesToHash (map Hash_Bytes ps) = ps) by (by apply BytesToHash_list).
  destruct (map Hash_Bytes ps) as [|s ss]; [done|]. unfold grpcMerkleProofToAgglayer.
  rewrite (proj2 (Nat.eqb_eq _ _) Hl'). cbn [negb].
  by rewrite Hmap, BytesToHash_Bytes.
Qed.

Lemma leaf_roundtrip l : leaf_survives l ->
  exists l' p, l = Some l' /\ convertToProtoLeaf l' = Some p /\ grpcL1LeafToAgglayer (Some p) = Ok l.
Proof.
  intros ([idx rer mer inner] & [ger bh ts] & -> & Hi & H1 & H2 & H3 & H4).
  cbn [ll_Inner ll_RollupExitRoot ll_MainnetExitRoot in_GlobalExitRoot in_BlockHash] in *. subst inner. eexists _, _. split; [done|].
  split; [reflexivity|]. unfold grpcL1LeafToAgglayer. by rewrite !BytesToHash_Bytes.
Qed.

Lemma claim_roundtrip c : claim_survives c ->
  exists p, convertToProtoClaim c = Some (Ok p) /\ grpcClaimDataToAgglayer (Some p) = Ok c.
Proof.
  destruct c as [[[mer ger leaf]|[ler rer ger leaf]]|]; cbn [claim_survives cm_ProofLeafMER cm_ProofGERToL1Root cm_L1Leaf cr_ProofLeafLER
    cr_ProofLERToRER cr_ProofGERToL1Root cr_L1Leaf]; [| |done].
  - intros (H1 & H2 & H3). destruct (proof_roundtrip _ H1) as (m1 & -> & E1), (proof_roundtrip _ H2) as (m2 & -> & E2).
    destruct (leaf_roundtrip _ H3) as (l & p & -> & El & E3). eexists. unfold convertToProtoClaim.
    cbn [cm_ProofLeafMER cm_ProofGERToL1Root cm_L1Leaf mbind option_bind]. rewrite El. cbn [mbind option_bind]. split; [done|].
    unfold grpcClaimDataToAgglayer. by rewrite E1, E2, E3.
  - intros (H1 & H2 & H3 & H4). destruct (proof_roundtrip _ H1) as (m1 & -> & E1), (proof_roundtrip _ H2) as (m2 & -> & E2).
    destruct (proof_roundtrip _ H3) as (m3 & -> & E3). destruct (leaf_roundtrip _ H4) as (l & p & -> & El & E4). eexists.
    unfold convertToProtoClaim. cbn [cr_ProofLeafLER cr_ProofLERToRER cr_ProofGERToL1Root cr_L1Leaf mbind option_bind].
    rewrite El. cbn [mbind option_bind]. split; [done|]. unfold grpcClaimDataToAgglayer. by rewrite E1, E2, E3, E4.
Qed.

Lemma global_index_bytes g : is_u32 (gi_RollupIndex g) -> is_u32 (gi_LeafIndex g) ->
  be_value (Hash_Bytes (GlobalIndex_ToBigInt g)) = GlobalIndex_ToBigInt g.
Proof.
  intros Hr Hl. apply be_value_be_bytes_small. unfold GlobalIndex_ToBigInt. rewrite GenerateGlobalIndex_value by done.
  unfold is_u32, pow2_32 in *. assert (2 ^ 65 < 256 ^ Z.of_nat HashLength) by (vm_compute; done). destruct (gi_MainnetFlag g); lia.
Qed.

Lemma imported_roundtrip ibe : imported_survives ibe ->
  exists p, convertToProtoImportedBridgeExit ibe = Some (Ok (Some p)) /\ grpcImportedBridgeExitToAgglayer (Some p) = Some (Ok ibe).
Proof.
  intros ([e c gi] & be & g & -> & He & Hbe & Hc & Hg & Hr & Hl & Hm). cbn [ie_BridgeExit ie_ClaimData ie_GlobalIndex] in He, Hc, Hg. subst e gi.
  destruct (exit_roundtrip be Hbe) as (pb & E1 & E2). destruct (claim_roundtrip c Hc) as (pc & E3 & E4). eexists.
  unfold convertToProtoImportedBridgeExit. cbn [ie_BridgeExit ie_ClaimData ie_GlobalIndex]. rewrite E1. cbn [mbind option_bind].
  rewrite E3. cbn [obind]. split; [done|].
  unfold grpcImportedBridgeExitToAgglayer. cbn [pi_BridgeExit pi_GlobalIndex pi_Claim]. rewrite E2. cbn [obind].
  rewrite global_index_bytes by done. unfold GlobalIndex_ToBigInt. rewrite GlobalIndex_roundtrip by done. cbn [mbind option_bind].
  rewrite E4. cbn [obind]. do 5 f_equal. destruct g as [[] r l]; cbn [gi_MainnetFlag gi_RollupIndex gi_LeafIndex] in *; [by rewrite Hm | done].
Qed.

(** Shorter metadata arrives padded, and a missing amount as zero. *)
Example exit_changed_on_the_wire :
  let be := mkBridgeExit 0 (Some (mkTokenInfo 0 9)) 1 8 None [7] in
  (p ← convertToProtoBridgeExit (Some be); Some (grpcBridgeExitToAgglayer p)) =
    Some (Ok (Some (mkBridgeExit 0 (Some (mkTokenInfo 0 9)) 1 8 (Some 0) (repeat 0 31 ++ [7])))).
Proof. vm_compute. reflexivity. Qed.
