(* ===== verification/Committee.v ===== *)
(** The committee that signs certificates: its members and threshold ([aggsender/types/multisig_committee.go],
    [aggsender/query/multisig_committee_query.go]), the hash they sign ([aggsender/validator/cert_hash.go]),
    certificates as gRPC messages ([agglayer/grpc/]), the validator service of a member
    ([validator_service.go]), the client side of it
    ([remote_validator.go], [local_validator.go]) and the collection of signatures by the proposer
    ([aggsender/validator_poller.go]).

    The contract that lists the committee, the connection to a member, the signer and the recovery of the
    address behind a signature are parameters.  The members are asked concurrently: the order in
    which their answers reach the channel is an argument, a list of positions, shorter than the committee
    when the context ends before a request starts. *)

From S2P Require Import Prelude Bytes Merkle AgglayerTypes CertStorage StatusChecker BuildParams Flow AdjustRange Validator GrpcCert.

(** ** The committee *)

Record SignerInfo := mkSignerInfo { si_URL : string; si_Address : Z }.

Definition NewSignerInfo (url : string) (address : Z) : SignerInfo := mkSignerInfo url address.

Record MultisigCommittee := mkCommittee {
  mc_signers : list SignerInfo;
  mc_signersSet : gset Z;
  mc_threshold : Z
}.

Inductive committeeError :=
| errEmptyCommittee
| errZeroThreshold
| ErrCommitteeSize
| ErrDuplicateSigner
| ErrContract
| ErrThresholdNotUint64
| ErrConsensusType
| ErrAggchainType
| ErrUnknownMode.

Definition AddSigner (m : MultisigCommittee) (info : SignerInfo) : result committeeError MultisigCommittee :=
  if bool_decide (si_Address info ∈ mc_signersSet m) then Err ErrDuplicateSigner
  else Ok (mkCommittee (mc_signers m ++ [info]) ({[si_Address info]} ∪ mc_signersSet m) (mc_threshold m)).

Definition NewMultisigCommittee (signers : list SignerInfo) (threshold : Z) : result committeeError MultisigCommittee :=
  if Z.of_nat (length signers) =? 0 then Err errEmptyCommittee
  else if threshold =? 0 then Err errZeroThreshold
  else if Z.of_nat (length signers) <? threshold then Err ErrCommitteeSize
  else rfold AddSigner signers (mkCommittee [] ∅ threshold).

Definition Committee_Size (m : MultisigCommittee) : Z := Z.of_nat (length (mc_signers m)).
Definition IsMember (m : MultisigCommittee) (address : Z) : bool := bool_decide (address ∈ mc_signersSet m).

(** ** Reading it from the contract *)

Inductive AggsenderMode := PessimisticProofMode | AggchainProofMode | PreconfPPMode | AutoMode | OtherMode (name : string).

(** The view functions of the contract. *)
Record MultisigContract := mkMultisigContract {
  sm_Threshold : result committeeError Z;
  sm_GetAggchainSignerInfos : result committeeError (list SignerInfo);
  sm_CONSENSUSTYPE : result committeeError Z;
  sm_AGGCHAINTYPE : result committeeError (Z * Z)
}.

Definition consensusTypeMultiECDSAAndSP1 : Z := 1.
Definition aggchainECDSAMultisig : Z * Z := (0, 0).
Definition aggchainFEP : Z * Z := (0, 1).

(** [None] is the nil override. *)
Definition ReplaceURL (override : option (gmap string string)) (committee : list SignerInfo) : list SignerInfo :=
  match override with
  | None => committee
  | Some m =>
      if Z.of_nat (size m) =? 0 then committee
      else map (fun member =>
             match m !! si_URL member with
             | Some url => mkSignerInfo url (si_Address member)
             | None => member
             end) committee
  end.

Definition GetMultisigCommittee (c : MultisigContract) (override : option (gmap string string))
  : result committeeError MultisigCommittee :=
  let? threshold := sm_Threshold c in
  let? aggChainSigners := sm_GetAggchainSignerInfos c in
  let signerInfos := map (fun s => NewSignerInfo (si_URL s) (si_Address s)) (ReplaceURL override aggChainSigners) in
  if negb ((0 <=? threshold) && (threshold <? pow2_64)) then Err ErrThresholdNotUint64
  else NewMultisigCommittee signerInfos threshold.

Definition ContractMode (c : MultisigContract) : result committeeError AggsenderMode :=
  let? consensusType := sm_CONSENSUSTYPE c in
  if negb (consensusType =? consensusTypeMultiECDSAAndSP1) then Err ErrConsensusType
  else
    let? aggchainType := sm_AGGCHAINTYPE c in
    if bool_decide (aggchainType = aggchainECDSAMultisig) then Ok PessimisticProofMode
    else if bool_decide (aggchainType = aggchainFEP) then Ok AggchainProofMode
    else Err ErrAggchainType.

Definition ResolveAutoMode (c : MultisigContract) (cfgMode : AggsenderMode) : result committeeError AggsenderMode :=
  match cfgMode with
  | PessimisticProofMode | AggchainProofMode => Ok cfgMode
  | AutoMode => ContractMode c
  | _ => Err ErrUnknownMode
  end.

(** ** What is signed *)

Record ECDSAMultisigEntry := mkEntry { me_Index : Z; me_Signature : list Z }.
Record Multisig := mkMultisig { ms_Signatures : list ECDSAMultisigEntry }.

Record AggchainProofData := mkAggchainProofData {
  ad_Proof : list Z;
  ad_Version : string;
  ad_Vkey : list Z;
  ad_AggchainParams : Z;
  ad_Context : list (string * list Z);
  ad_Signature : list Z
}.

Inductive AggchainData :=
| AggchainDataNil
| AggchainDataSignature (signature : list Z)
| AggchainDataProof (proof : AggchainProofData)
| AggchainDataMultisig (multisig : option Multisig)
| AggchainDataMultisigWithProof (multisig : option Multisig) (proof : option AggchainProofData).

(** A certificate with the aggchain data that travels with it. *)
Record FullCertificate := mkFullCertificate { fl_cert : Certificate; fl_AggchainData : AggchainData }.

(** *** On the wire ([agglayer/grpc]) *)

Record ProtoSP1 := mkProtoSP1 { sp_Version : string; sp_Proof : list Z; sp_Vkey : list Z }.
Record ProtoAggchainProof := mkProtoAggchainProof {
  pa_Proof : option ProtoSP1;
  pa_AggchainParams : option (list Z);
  pa_Context : list (string * list Z);
  pa_Signature : option (list Z)
}.
Record ProtoMultisig := mkProtoMultisig { pm_Ecdsa : option (list (Z * list Z)) }.

Inductive ProtoAggchainData :=
| ProtoSignature (signature : option (list Z))
| ProtoGeneric (proof : option ProtoAggchainProof)
| ProtoMultisigData (multisig : option ProtoMultisig)
| ProtoMultisigAndAggchainProof (multisig : option ProtoMultisig) (proof : option ProtoAggchainProof).

(** The custom chain data is an opaque payload, as in [Certificate]. *)
Record ProtoCertificate := mkProtoCertificate {
  pc_NetworkId : Z;
  pc_Height : Z;
  pc_PrevLocalExitRoot : option (list Z);
  pc_NewLocalExitRoot : option (list Z);
  pc_BridgeExits : list (option ProtoBridgeExit);
  pc_ImportedBridgeExits : list (option ProtoImportedBridgeExit);
  pc_AggchainData : option ProtoAggchainData;
  pc_L1InfoTreeLeafCount : option Z
}.

Definition convertAggchainDataProofToProto (p : AggchainProofData) : ProtoAggchainProof :=
  mkProtoAggchainProof (Some (mkProtoSP1 (ad_Version p) (ad_Proof p) (ad_Vkey p))) (Some (Hash_Bytes (ad_AggchainParams p)))
    (ad_Context p) (Some (ad_Signature p)).

Definition convertMultisigToProtoMultisig (m : Multisig) : ProtoMultisig :=
  mkProtoMultisig (Some (map (fun e => (me_Index e, me_Signature e)) (ms_Signatures m))).

Definition convertAggchainData (d : AggchainData) : option ProtoAggchainData :=
  match d with
  | AggchainDataNil => None
  | AggchainDataProof p => Some (ProtoGeneric (Some (convertAggchainDataProofToProto p)))
  | AggchainDataSignature signature => Some (ProtoSignature (Some signature))
  | AggchainDataMultisigWithProof m p =>
      Some (ProtoMultisigAndAggchainProof (convertMultisigToProtoMultisig <$> m) (convertAggchainDataProofToProto <$> p))
  | AggchainDataMultisig m => Some (ProtoMultisigData (convertMultisigToProtoMultisig <$> m))
  end.

Definition ConvertCertToProtoCertificate (c : FullCertificate) : option (result grpcError ProtoCertificate) :=
  let cert := fl_cert c in
  exits ← mapM convertToProtoBridgeExit (ct_BridgeExits cert);
  let?? imported := omapM convertToProtoImportedBridgeExit (ct_ImportedBridgeExits cert) in
  Some (Ok (mkProtoCertificate (ct_NetworkID cert) (ct_Height cert) (Some (Hash_Bytes (ct_PrevLocalExitRoot cert)))
    (Some (Hash_Bytes (ct_NewLocalExitRoot cert))) exits imported (convertAggchainData (fl_AggchainData c))
    (Some (ct_L1InfoTreeLeafCount cert)))).

Definition grpcMultisigToAgglayer (m : option ProtoMultisig) : result grpcError Multisig :=
  match m with
  | Some (mkProtoMultisig (Some entries)) => Ok (mkMultisig (map (fun e => mkEntry (fst e) (snd e)) entries))
  | _ => Err ErrGrpcNil
  end.

Definition grpcAggchainProofToAgglayer (p : option ProtoAggchainProof) : result grpcError AggchainProofData :=
  match p with
  | Some (mkProtoAggchainProof (Some sp1) (Some params) context (Some signature)) =>
      Ok (mkAggchainProofData (sp_Proof sp1) (sp_Version sp1) (sp_Vkey sp1) (BytesToHash params) context signature)
  | _ => Err ErrGrpcNil
  end.

Definition grpcAggchainDataToAgglayer (d : option ProtoAggchainData) : result grpcError AggchainData :=
  match d with
  | None => Ok AggchainDataNil
  | Some (ProtoSignature None) => Err ErrGrpcNil
  | Some (ProtoSignature (Some signature)) => Ok (AggchainDataSignature signature)
  | Some (ProtoGeneric p) => let? proof := grpcAggchainProofToAgglayer p in Ok (AggchainDataProof proof)
  | Some (ProtoMultisigData m) => let? multisig := grpcMultisigToAgglayer m in Ok (AggchainDataMultisig (Some multisig))
  | Some (ProtoMultisigAndAggchainProof m p) =>
      let? proof := grpcAggchainProofToAgglayer p in
      let? multisig := grpcMultisigToAgglayer m in
      Ok (AggchainDataMultisigWithProof (Some multisig) (Some proof))
  end.

Definition ConvertProtoCertToAgglayer (cert : ProtoCertificate) : option (result grpcError FullCertificate) :=
  match pc_PrevLocalExitRoot cert, pc_NewLocalExitRoot cert, pc_L1InfoTreeLeafCount cert with
  | Some prev, Some new, Some leafCount =>
      let?? aggchainData := Some (grpcAggchainDataToAgglayer (pc_AggchainData cert)) in
      let?? exits := grpcBridgeExitsToAgglayer (pc_BridgeExits cert) in
      let?? imported := grpcImportedBridgeExitsToAgglayer (pc_ImportedBridgeExits cert) in
      Some (Ok (mkFullCertificate (mkCertificate (pc_NetworkId cert) (pc_Height cert) (BytesToHash prev) (BytesToHash new)
        exits imported leafCount) aggchainData))
  | _, _, _ => Some (Err ErrGrpcNil)
  end.

(** What arrives of a certificate; the encoding of messages into bytes and back is that of the protobuf library. *)
Definition received (cert cert' : FullCertificate) : Prop :=
  exists proto, ConvertCertToProtoCertificate cert = Some (Ok proto) /\ ConvertProtoCertToAgglayer proto = Some (Ok cert').

(** A certificate that arrives as it was sent. *)
Definition aggchain_survives (d : AggchainData) : Prop :=
  match d with
  | AggchainDataNil | AggchainDataSignature _ => True
  | AggchainDataProof p => is_hash (ad_AggchainParams p)
  | AggchainDataMultisig m => is_Some m
  | AggchainDataMultisigWithProof m p => is_Some m /\ exists p', p = Some p' /\ is_hash (ad_AggchainParams p')
  end.

Record survives (c : FullCertificate) : Prop := {
  sv_exits : Forall (fun e => exists be, e = Some be /\ exit_survives be) (ct_BridgeExits (fl_cert c));
  sv_imported : Forall imported_survives (ct_ImportedBridgeExits (fl_cert c));
  sv_prev : is_hash (ct_PrevLocalExitRoot (fl_cert c));
  sv_new : is_hash (ct_NewLocalExitRoot (fl_cert c));
  sv_aggchain : aggchain_survives (fl_AggchainData c)
}.

Lemma aggchain_roundtrip d : aggchain_survives d -> grpcAggchainDataToAgglayer (convertAggchainData d) = Ok d.
Proof.
  assert (Hm : forall m, grpcMultisigToAgglayer (Some (convertMultisigToProtoMultisig m)) = Ok m).
  { intros [es]. unfold grpcMultisigToAgglayer, convertMultisigToProtoMultisig. cbn [ms_Signatures]. do 2 f_equal.
    rewrite map_map. induction es as [|[] es IH]; [done|]. cbn [map]. by rewrite IH. }
  assert (Hp : forall p, is_hash (ad_AggchainParams p) -> grpcAggchainProofToAgglayer (Some (convertAggchainDataProofToProto p)) = Ok p).
  { intros [] Hh. cbn [ad_AggchainParams] in Hh. unfold grpcAggchainProofToAgglayer, convertAggchainDataProofToProto.
    cbn [ad_Proof ad_Version ad_Vkey ad_AggchainParams ad_Context ad_Signature sp_Proof sp_Version sp_Vkey]. by rewrite BytesToHash_Bytes. }
  destruct d as [|sig|p|m|m p]; cbn [aggchain_survives convertAggchainData grpcAggchainDataToAgglayer]; [done | done | | |].
  - intros Hh. by rewrite Hp.
  - intros [m' ->]. cbn [fmap option_fmap option_map]. by rewrite Hm.
  - intros ([m' ->] & p' & -> & Hh). cbn [fmap option_fmap option_map]. by rewrite Hp, Hm.
Qed.

Lemma received_as_sent c : survives c -> received c c.
Proof.
  destruct c as [[net h prev new exits imported leaves] data]. intros [He Hi Hp Hn Ha]. cbn [fl_cert fl_AggchainData ct_BridgeExits
    ct_ImportedBridgeExits ct_PrevLocalExitRoot ct_NewLocalExitRoot] in *. unfold received, ConvertCertToProtoCertificate.
  assert (Hex : exists ps, mapM convertToProtoBridgeExit exits = Some ps /\ grpcBridgeExitsToAgglayer ps = Some (Ok exits)).
  { clear -He. induction He as [|e es (be & -> & Hbe) _ (ps & E1 & E2)]; [by exists []|].
    destruct (exit_roundtrip be Hbe) as (p & F1 & F2). exists (Some p :: ps). cbn [mapM]. rewrite F1, E1. split; [done|].
    unfold grpcBridgeExitsToAgglayer in *. cbn [omapM]. rewrite F2. cbn [obind]. by rewrite E2. }
  assert (Him : exists ps, omapM convertToProtoImportedBridgeExit imported = Some (Ok ps) /\
    grpcImportedBridgeExitsToAgglayer ps = Some (Ok imported)).
  { clear -Hi. induction Hi as [|e es He _ (ps & E1 & E2)]; [by exists []|].
    destruct (imported_roundtrip e He) as (p & F1 & F2). exists (Some p :: ps). cbn [omapM]. rewrite F1. cbn [obind]. rewrite E1.
    split; [done|]. unfold grpcImportedBridgeExitsToAgglayer in *. cbn [omapM]. rewrite F2. cbn [obind]. by rewrite E2. }
  destruct Hex as (ps & E1 & E2), Him as (qs & E3 & E4). eexists. cbn [fl_cert fl_AggchainData ct_BridgeExits ct_ImportedBridgeExits].
  rewrite E1. cbn [mbind option_bind]. rewrite E3. cbn [obind]. split; [done|]. unfold ConvertProtoCertToAgglayer.
  cbn [pc_NetworkId pc_Height pc_PrevLocalExitRoot pc_NewLocalExitRoot pc_L1InfoTreeLeafCount pc_AggchainData pc_BridgeExits
    pc_ImportedBridgeExits ct_NetworkID ct_Height ct_PrevLocalExitRoot ct_NewLocalExitRoot ct_L1InfoTreeLeafCount].
  rewrite aggchain_roundtrip by done. cbn [obind]. rewrite E2. cbn [obind]. rewrite E4. cbn [obind]. by rewrite !BytesToHash_Bytes.
Qed.

Lemma received_unique c c1 c2 : received c c1 -> received c c2 -> c1 = c2.
Proof. intros (p & E1 & E2) (q & E3 & E4). rewrite E1 in E3. injection E3 as <-. rewrite E2 in E4. by injection E4. Qed.

Definition ExtractAggchainParams (c : FullCertificate) : list Z :=
  match fl_AggchainData c with
  | AggchainDataProof data => Hash_Bytes (ad_AggchainParams data)
  | AggchainDataMultisigWithProof _ (Some proof) => Hash_Bytes (ad_AggchainParams proof)
  | _ => Hash_Bytes ZeroHash
  end.

Section Hash.
Context `{Kc : Keccak}.

(** The bytes of one claim; [None] is a nil dereference, which a validated certificate cannot cause. *)
Definition claimRawMetadata (ibe : option ImportedBridgeExit) : option (list Z) :=
  ibe ← ibe;
  g ← ie_GlobalIndex ibe;
  Some (BigIntToLittleEndianBytes (GlobalIndex_ToBigInt g) ++ Hash_Bytes (BridgeExit_Hash (ie_BridgeExit ibe))).

Definition HashCertificateToSign (c : FullCertificate) : option (result validationError Z) :=
  let cert := fl_cert c in
  match Certificate_Validate (Some cert) with
  | Err e => Some (Err e)
  | Ok _ =>
      claimsRaw ← mapM claimRawMetadata (ct_ImportedBridgeExits cert);
      let claimsHash := keccak256 (concat claimsRaw) in
      certID ← CertificateID cert;
      Some (Ok (Keccak256Hash
        [ Hash_Bytes (ct_NewLocalExitRoot cert);
          Hash_Bytes claimsHash;
          Uint64ToLittleEndianBytes (ct_Height cert);
          ExtractAggchainParams c;
          Hash_Bytes certID ]))
  end.

End Hash.

(** ** Signers and members *)

Inductive pollError :=
| ErrNilRequest
| ErrNilCert
| ErrZeroLastBlock
| ErrCommittee (e : committeeError)
| ErrCreateValidator
| ErrNoValidators
| ErrProposerNotFirst
| ErrHashing (e : validationError)
| ErrSigner
| ErrPreviousCertificate (e : storageError)
| ErrValidatorRequest
| ErrBadSignature
| ErrSignatureAddress
| ErrLocalValidation (e : validatorError)
| ErrServiceNoCertificate
| ErrServiceHeader
| ErrServiceConversion
| ErrServiceValidation (e : validatorError)
| ErrServiceNoSigner
| ErrThresholdNotReached (collected : nat).

(** A signer of hashes ([go_signer]). *)
Record Signer := mkSigner {
  sg_PublicAddress : Z;
  sg_SignHash : Z -> result pollError (list Z)
}.

(** [crypto.SigToPub] followed by [crypto.PubkeyToAddress]; [None] is an invalid signature. *)
Class Ecdsa := recover_address : Z -> list Z -> option Z.

Definition SignatureSize : nat := 65.
Definition EmptySignature : list Z := repeat 0 SignatureSize.

(** [getPreviousCertificate] of [local_validator.go]. *)
Definition getPreviousCertificate (s : Storage) (newCertHeight : Z) : result storageError (option AgglayerHeader) :=
  if newCertHeight =? 0 then Ok None
  else
    let? certHeader := GetCertificateHeaderByHeight s (newCertHeight -u64 1) in
    Ok (ConvertAggsenderCertHeaderToAgglayer certHeader).

Definition lift_poll {E A} (wrap : E -> pollError) (r : result E A) : result pollError A :=
  match r with Ok a => Ok a | Err e => Err (wrap e) end.

(** ** The validator service of a member *)

Section Service.
Context `{Kc : Keccak} `{Ac : AgglayerClient} `{Lq : L1InfoTreeDataQuerier} `{Cq : CertificateQuerier}.
Context (flow : AggsenderVerifierFlow) (initialLER : Z) (signer : option Signer).

Definition signCertificate (cert : FullCertificate) : option (result pollError (list Z)) :=
  match signer with
  | None => Some (Err ErrServiceNoSigner)
  | Some signer =>
      let?? hashToSign := lift_poll ErrHashing <$> HashCertificateToSign cert in
      Some (sg_SignHash signer hashToSign)
  end.

Definition Service_ValidateCertificate (previousCertificateId : option (list Z)) (reqCertificate : option ProtoCertificate)
    (lastL2BlockInCert : Z) : option (result pollError (list Z)) :=
  match reqCertificate with
  | None => Some (Err ErrServiceNoCertificate)
  | Some reqCert =>
      let?? previous := Some
        match previousCertificateId with
        | None => Ok None
        | Some id => match GetCertificateHeader (BytesToHash id) with Ok h => Ok (Some h) | Err _ => Err ErrServiceHeader end
        end in
      let?? cert := lift_poll (fun _ => ErrServiceConversion) <$> ConvertProtoCertToAgglayer reqCert in
      let?? _ := lift_poll ErrServiceValidation <$>
        ValidateCertificate flow initialLER (mkRequest (Some (fl_cert cert)) previous lastL2BlockInCert) in
      signCertificate cert
  end.

(** [LocalValidator.ValidateAndSignCertificate]: validation only, with an empty signature. *)
Definition Local_ValidateAndSign (s : Storage) (cert : FullCertificate) (lastL2BlockInCert : Z)
  : option (result pollError (list Z)) :=
  let?? previous := Some
    (if negb (ct_Height (fl_cert cert) =? 0)
     then lift_poll ErrPreviousCertificate (getPreviousCertificate s (ct_Height (fl_cert cert)))
     else Ok None) in
  let?? _ := lift_poll ErrLocalValidation <$>
    ValidateCertificate flow initialLER (mkRequest (Some (fl_cert cert)) previous lastL2BlockInCert) in
  Some (Ok EmptySignature).

End Service.

(** ** Asking a member *)

Record RemoteValidator := mkRemoteValidator { rv_url : string; rv_address : Z; rv_index : Z }.

Section Poller.
Context `{Kc : Keccak} `{Ec : Ecdsa}.
Context (storage : Storage) (proposer : Signer) (contract : MultisigContract) (override : option (gmap string string)).

(** [NewValidatorClient], which can refuse a URL, and the call of the service behind it. *)
Context (newClient : string -> bool).
Context (client : string -> option Z -> FullCertificate -> Z -> result pollError (list Z)).

Definition NewRemoteValidator (url : string) (address index : Z) : result pollError RemoteValidator :=
  if newClient url then Ok (mkRemoteValidator url address index) else Err ErrCreateValidator.

Definition Remote_ValidateAndSign (v : RemoteValidator) (cert : FullCertificate) (lastL2BlockInCert : Z)
  : option (result pollError (list Z)) :=
  let?? certificateHash := lift_poll ErrHashing <$> HashCertificateToSign cert in
  let?? previous := Some (lift_poll ErrPreviousCertificate (getPreviousCertificate storage (ct_Height (fl_cert cert)))) in
  let?? signature := Some (client (rv_url v) (ah_CertificateID <$> previous) cert lastL2BlockInCert) in
  match recover_address certificateHash signature with
  | None => Some (Err ErrBadSignature)
  | Some recovered => Some (if negb (rv_address v =? recovered) then Err ErrSignatureAddress else Ok signature)
  end.

(** ** The poller *)

Record ValidationRequest := mkValidationRequest { vr_Certificate : option FullCertificate; vr_LastL2BlockInCert : Z }.

Definition validateRequest (req : option ValidationRequest) : result pollError (FullCertificate * Z) :=
  match req with
  | None => Err ErrNilRequest
  | Some r =>
      match vr_Certificate r with
      | None => Err ErrNilCert
      | Some cert =>
          if vr_LastL2BlockInCert r =? 0 then Err ErrZeroLastBlock else Ok (cert, vr_LastL2BlockInCert r)
      end
  end.

(** The loop over the signers, from position [i]; [uint32(i)] wraps. *)
Fixpoint newValidators (i : Z) (signers : list SignerInfo) : result pollError (list RemoteValidator) :=
  match signers with
  | [] => Ok []
  | s :: signers' =>
      let? v := NewRemoteValidator (si_URL s) (si_Address s) (wrap32 i) in
      let? vs := newValidators (i + 1) signers' in
      Ok (v :: vs)
  end.

Definition getValidators : result pollError (list RemoteValidator * Z) :=
  let? committee := lift_poll ErrCommittee (GetMultisigCommittee contract override) in
  let? validators := newValidators 0 (mc_signers committee) in
  match validators with
  | [] => Err ErrNoValidators
  | first :: _ =>
      if negb (rv_address first =? sg_PublicAddress proposer) then Err ErrProposerNotFirst
      else Ok (validators, mc_threshold committee)
  end.

Definition signCertificateForMultisigAsProposer (cert : FullCertificate) : option (result pollError (list Z)) :=
  let?? hashToSign := lift_poll ErrHashing <$> HashCertificateToSign cert in
  Some (sg_SignHash proposer hashToSign).

Definition getSignatureFromValidator (v : RemoteValidator) (cert : FullCertificate) (lastL2BlockInCert : Z)
  : option (result pollError (list Z)) :=
  if rv_address v =? sg_PublicAddress proposer then signCertificateForMultisigAsProposer cert
  else Remote_ValidateAndSign v cert lastL2BlockInCert.

Record signResult := mkSignResult { sr_validator : RemoteValidator; sr_result : result pollError (list Z) }.

(** The results in the order in which they reach the channel; [None] is a crash of a goroutine. *)
Definition executeValidation (arrivals : list nat) (validators : list RemoteValidator) (cert : FullCertificate)
    (lastL2BlockInCert : Z) : option (list signResult) :=
  mapM (fun i =>
    v ← validators !! i;
    r ← getSignatureFromValidator v cert lastL2BlockInCert;
    Some (mkSignResult v r)) arrivals.

Definition isValidSignature (signature : list Z) : bool := (length signature =? SignatureSize)%nat.

(** The loop over the channel, which stops at the threshold. *)
Fixpoint processResults_loop (results : list signResult) (threshold : Z) (signatures : list ECDSAMultisigEntry)
  : list ECDSAMultisigEntry :=
  match results with
  | [] => signatures
  | res :: results' =>
      match sr_result res with
      | Err _ => processResults_loop results' threshold signatures
      | Ok signature =>
          if negb (isValidSignature signature) then processResults_loop results' threshold signatures
          else
            let signatures := signatures ++ [mkEntry (rv_index (sr_validator res)) signature] in
            if threshold <=? Z.of_nat (length signatures) then signatures
            else processResults_loop results' threshold signatures
      end
  end.

Definition isThresholdReached (signatures : list ECDSAMultisigEntry) (threshold : Z) : result pollError Multisig :=
  if Z.of_nat (length signatures) <? threshold then Err (ErrThresholdNotReached (length signatures))
  else Ok (mkMultisig signatures).

Definition processResults (results : list signResult) (threshold : Z) : result pollError Multisig :=
  isThresholdReached (processResults_loop results threshold []) threshold.

Definition PollValidators (arrivals : list nat) (req : option ValidationRequest) : option (result pollError Multisig) :=
  let?? (cert, lastBlock) := Some (validateRequest req) in
  let?? (validators, threshold) := Some getValidators in
  results ← executeValidation arrivals validators cert lastBlock;
  Some (processResults results threshold).

End Poller.

(** ** Lemmas on the committee *)

(** The set of a committee holds the addresses of its signers, all different. *)
Record committee_wf (m : MultisigCommittee) : Prop := {
  cw_NoDup : NoDup (map si_Address (mc_signers m));
  cw_set : forall a, a ∈ mc_signersSet m <-> a ∈ map si_Address (mc_signers m)
}.

Lemma AddSigner_wf m info m' :
  committee_wf m -> AddSigner m info = Ok m' ->
  committee_wf m' /\ mc_signers m' = mc_signers m ++ [info] /\ mc_threshold m' = mc_threshold m.
Proof.
  intros [Hnd Hset]. unfold AddSigner. case_bool_decide as Hin; [done|]. intros [= <-]. split_and!; [|done..].
  split; cbn [mc_signers mc_signersSet]; rewrite map_app.
  - apply NoDup_app. split_and!; [done | | apply NoDup_singleton].
    intros a Ha ->%list_elem_of_singleton. by apply Hin, Hset.
  - intros a. rewrite elem_of_union, Hset. set_solver.
Qed.

Lemma rfold_AddSigner signers m m' :
  committee_wf m -> rfold AddSigner signers m = Ok m' ->
  committee_wf m' /\ mc_signers m' = mc_signers m ++ signers /\ mc_threshold m' = mc_threshold m.
Proof.
  revert m. induction signers as [|info signers IH]; intros m Hm Hf; simpl in Hf.
  { injection Hf as <-. by rewrite app_nil_r. }
  inv_ok Hf as m1 H1. apply AddSigner_wf in H1 as (Hm1 & Hs1 & Ht1); [|done].
  apply IH in Hf as (Hm' & -> & ->); [|done]. by rewrite Hs1, Ht1, <- app_assoc.
Qed.

(** Every committee that can be made: at least one signer, distinct addresses, a reachable threshold. *)
Lemma NewMultisigCommittee_Ok signers threshold m :
  0 <= threshold -> NewMultisigCommittee signers threshold = Ok m ->
  committee_wf m /\ mc_signers m = signers /\ mc_threshold m = threshold /\
  0 < threshold <= Z.of_nat (length signers).
Proof.
  intros Ht. unfold NewMultisigCommittee. cases; [done..|]. intros Hf. bool_hyps.
  apply rfold_AddSigner in Hf as (Hm & Hs & Hth); [|split; [apply NoDup_nil_2 | intros a; simpl; set_solver]].
  split_and!; [done..|lia|lia].
Qed.

Lemma GetMultisigCommittee_Ok c override m :
  GetMultisigCommittee c override = Ok m ->
  committee_wf m /\ 0 < mc_threshold m <= Z.of_nat (length (mc_signers m)).
Proof.
  unfold GetMultisigCommittee. intros H. inv_ok H as t Ht. inv_ok H as l Hl.
  destruct ((0 <=? t) && (t <? pow2_64)) eqn:E; simpl in H; [|done]. bool_hyps.
  apply NewMultisigCommittee_Ok in H as (Hwf & -> & -> & Hle); done.
Qed.

(** ** Lemmas on the collection of signatures *)

(** The entry of a result that counts. *)
Definition valid_entry (res : signResult) : option ECDSAMultisigEntry :=
  match sr_result res with
  | Ok signature => if isValidSignature signature then Some (mkEntry (rv_index (sr_validator res)) signature) else None
  | Err _ => None
  end.

(** The loop takes the first valid entries, up to the threshold. *)
Lemma processResults_loop_take results threshold acc :
  Z.of_nat (length acc) < threshold ->
  processResults_loop results threshold acc =
  acc ++ take (Z.to_nat threshold - length acc) (omap valid_entry results).
Proof.
  revert acc. induction results as [|res results IH]; intros acc Hacc; cbn [processResults_loop omap list_omap].
  { by rewrite take_nil, app_nil_r. }
  unfold valid_entry. destruct (sr_result res) as [signature|e]; [|by apply IH].
  destruct (isValidSignature signature); cbn [negb]; [|by apply IH].
  destruct (Z.leb_spec threshold (Z.of_nat (length (acc ++ [mkEntry (rv_index (sr_validator res)) signature])))) as [Hle|Hlt];
    rewrite length_app in *; cbn [length] in *.
  - replace (Z.to_nat threshold - length acc)%nat with 1%nat by lia. done.
  - rewrite IH by (rewrite length_app; simpl; lia). rewrite length_app. cbn [length].
    replace (Z.to_nat threshold - length acc)%nat with (S (Z.to_nat threshold - (length acc + 1))) by lia.
    by rewrite <- app_assoc.
Qed.

Lemma processResults_Ok results threshold m :
  0 < threshold ->
  processResults results threshold = Ok m <->
  (Z.to_nat threshold <= length (omap valid_entry results))%nat /\
  ms_Signatures m = take (Z.to_nat threshold) (omap valid_entry results).
Proof.
  intros Ht. unfold processResults, isThresholdReached. rewrite processResults_loop_take by (simpl; lia).
  cbn [length app]. rewrite Nat.sub_0_r, length_take.
  destruct (Z.ltb_spec (Z.of_nat (Z.to_nat threshold `min` length (omap valid_entry results))) threshold) as [Hlt|Hge].
  - split; [done | lia].
  - split; [intros [= <-]; split; [lia | done]|]. intros [_ Hm]. destruct m. simpl in Hm. by subst.
Qed.

Section PollProofs.
Context `{Kc : Keccak} `{Ec : Ecdsa}.
Context (storage : Storage) (proposer : Signer) (contract : MultisigContract) (override : option (gmap string string)).
Context (newClient : string -> bool).
Context (client : string -> option Z -> FullCertificate -> Z -> result pollError (list Z)).

Lemma newValidators_Ok i signers vs :
  newValidators newClient i signers = Ok vs ->
  vs = imap (fun k s => mkRemoteValidator (si_URL s) (si_Address s) (wrap32 (i + Z.of_nat k))) signers.
Proof.
  revert i vs. induction signers as [|s signers IH]; intros i vs H; simpl in H; [by injection H as <-|].
  inv_ok H as v Hv. inv_ok H as vs' Hvs. injection H as <-. unfold NewRemoteValidator in Hv.
  apply guard_Ok_inv in Hv as [_ <-]. apply IH in Hvs as ->. cbn [imap]. f_equal; [f_equal; f_equal; lia|].
  apply imap_ext. intros k x _. simpl. do 2 f_equal. lia.
Qed.

(** The validators asked are the committee of the contract, led by the proposer. *)
Lemma getValidators_Ok vs threshold :
  getValidators proposer contract override newClient = Ok (vs, threshold) ->
  exists m, GetMultisigCommittee contract override = Ok m /\ mc_threshold m = threshold /\
    vs = imap (fun k s => mkRemoteValidator (si_URL s) (si_Address s) (wrap32 (Z.of_nat k))) (mc_signers m) /\
    si_Address <$> head (mc_signers m) = Some (sg_PublicAddress proposer).
Proof.
  unfold getValidators. intros H. inv_ok H as m Hm. inv_ok H as vs' Hvs. exists m.
  unfold lift_poll in Hm. destruct (GetMultisigCommittee contract override) as [m'|]; [|done]. injection Hm as ->.
  apply newValidators_Ok in Hvs. destruct vs' as [|v vs']; [done|].
  destruct (Z.eqb_spec (rv_address v) (sg_PublicAddress proposer)) as [Hp|]; simpl in H; [|done].
  injection H as <- <-. split_and!; [done | done | exact Hvs |].
  destruct (mc_signers m) as [|s l]; simpl in Hvs; [done|]. injection Hvs as -> _. simpl in *. by rewrite Hp.
Qed.

(** What the answer of the member at position [k] is. *)
Definition member_answer (m : MultisigCommittee) (cert : FullCertificate) (lastBlock : Z) (k : nat)
  : option (result pollError (list Z)) :=
  s ← mc_signers m !! k;
  getSignatureFromValidator storage proposer client
    (mkRemoteValidator (si_URL s) (si_Address s) (wrap32 (Z.of_nat k))) cert lastBlock.

(** A signature of member [k] over the certificate, of the right length. *)
Definition member_signs (m : MultisigCommittee) (cert : FullCertificate) (lastBlock : Z) (k : nat) (sig : list Z) : Prop :=
  member_answer m cert lastBlock k = Some (Ok sig) /\ length sig = SignatureSize.

#[local] Instance member_signs_dec m cert lastBlock k sig : Decision (member_signs m cert lastBlock k sig).
Proof.
  unfold member_signs. destruct (member_answer m cert lastBlock k) as [[sig'|e]|]; [|right; naive_solver..].
  destruct (decide (sig' = sig)) as [->|]; [|right; naive_solver].
  destruct (decide (length sig = SignatureSize)); [by left | right; naive_solver].
Defined.

(** The entry of the member at position [k], if it signs. *)
Definition member_entry (m : MultisigCommittee) (cert : FullCertificate) (lastBlock : Z) (k : nat)
  : option ECDSAMultisigEntry :=
  match member_answer m cert lastBlock k with
  | Some (Ok sig) => if isValidSignature sig then Some (mkEntry (wrap32 (Z.of_nat k)) sig) else None
  | _ => None
  end.

Lemma member_entry_Some m cert lastBlock k e :
  member_entry m cert lastBlock k = Some e <->
  me_Index e = wrap32 (Z.of_nat k) /\ member_signs m cert lastBlock k (me_Signature e).
Proof.
  unfold member_entry, member_signs, isValidSignature.
  destruct (member_answer m cert lastBlock k) as [[sig|]|]; [|naive_solver..].
  destruct (Nat.eqb_spec (length sig) SignatureSize) as [Hl|Hl]; [|naive_solver].
  split; [by intros [= <-]|]. destruct e as [i s]. simpl. intros (-> & [= ->] & _). done.
Qed.

Lemma executeValidation_entries arrivals m cert lastBlock results :
  executeValidation storage proposer client arrivals
    (imap (fun k s => mkRemoteValidator (si_URL s) (si_Address s) (wrap32 (Z.of_nat k))) (mc_signers m)) cert lastBlock
    = Some results ->
  omap valid_entry results = omap (member_entry m cert lastBlock) arrivals /\
  Forall (fun k => (k < length (mc_signers m))%nat) arrivals.
Proof.
  unfold executeValidation. rewrite mapM_Some.
  induction 1 as [|k res arrivals results Hk _ [IH1 IH2]]; [done|].
  rewrite list_lookup_imap in Hk. destruct (mc_signers m !! k) as [s|] eqn:Hs; [|done]. cbn in Hk.
  split; [|constructor; [by apply lookup_lt_Some in Hs | done]].
  assert (member_answer m cert lastBlock k = getSignatureFromValidator storage proposer client
    (mkRemoteValidator (si_URL s) (si_Address s) (wrap32 (Z.of_nat k))) cert lastBlock) as Ha
    by (unfold member_answer; by rewrite Hs).
  destruct (getSignatureFromValidator _ _ _ _ _ _) as [r|] eqn:Hr; [|done]. simpl in Hk. injection Hk as <-.
  assert (valid_entry (mkSignResult (mkRemoteValidator (si_URL s) (si_Address s) (wrap32 (Z.of_nat k))) r)
          = member_entry m cert lastBlock k) as He.
  { unfold valid_entry, member_entry. rewrite Ha. simpl. by destruct r. }
  cbn [omap list_omap]. rewrite He, IH1. done.
Qed.

Lemma PollValidators_Ok arrivals cert lastBlock ms :
  PollValidators storage proposer contract override newClient client arrivals
    (Some (mkValidationRequest (Some cert) lastBlock)) = Some (Ok ms) ->
  exists m, GetMultisigCommittee contract override = Ok m /\
    si_Address <$> head (mc_signers m) = Some (sg_PublicAddress proposer) /\
    Forall (fun k => (k < length (mc_signers m))%nat) arrivals /\
    Z.of_nat (length (ms_Signatures ms)) = mc_threshold m /\
    ms_Signatures ms = take (Z.to_nat (mc_threshold m)) (omap (member_entry m cert lastBlock) arrivals).
Proof.
  unfold PollValidators, validateRequest. cbn [vr_Certificate vr_LastL2BlockInCert].
  destruct (lastBlock =? 0); [done|]. cbn [obind].
  destruct (getValidators proposer contract override newClient) as [[vs t]|] eqn:Hg; [|done]. cbn [obind].
  apply getValidators_Ok in Hg as (m & Hm & Ht & -> & Hhead).
  destruct (executeValidation _ _ _ _ _ _ _) as [results|] eqn:He; [|done]. simpl. intros [= Hp].
  destruct (GetMultisigCommittee_Ok _ _ _ Hm) as [_ Hpos]. rewrite Ht in Hpos.
  apply executeValidation_entries in He as [He Hlt]. apply processResults_Ok in Hp as [Hlen Hsig]; [|lia].
  rewrite He in Hlen, Hsig. exists m. rewrite Hsig, length_take, Ht. split_and!; [done..|lia | done].
Qed.

End PollProofs.

(** ** A multisig is a quorum *)

(** A signer whose signatures recover to its own address. *)
Definition signs_for `{Ecdsa} (signer : Signer) : Prop :=
  forall h sig, sg_SignHash signer h = Ok sig -> recover_address h sig = Some (sg_PublicAddress signer).

Section Quorum.
Context `{Kc : Keccak} `{Ec : Ecdsa}.
Context (storage : Storage) (proposer : Signer) (contract : MultisigContract) (override : option (gmap string string)).
Context (newClient : string -> bool).
Context (client : string -> option Z -> FullCertificate -> Z -> result pollError (list Z)).

(** A remote signature was checked against the address, and the member had the certificate as it is. *)
Lemma Remote_ValidateAndSign_Ok v cert lastBlock sig :
  Remote_ValidateAndSign storage client v cert lastBlock = Some (Ok sig) ->
  exists h previous, HashCertificateToSign cert = Some (Ok h) /\
    getPreviousCertificate storage (ct_Height (fl_cert cert)) = Ok previous /\
    client (rv_url v) (ah_CertificateID <$> previous) cert lastBlock = Ok sig /\
    recover_address h sig = Some (rv_address v).
Proof.
  unfold Remote_ValidateAndSign. intros H. apply obind_Ok in H as (h & Hh & H).
  apply obind_Ok in H as (previous & Hp & H). apply obind_Ok in H as (sig' & Hs & H).
  destruct (HashCertificateToSign cert) as [[h'|]|]; simpl in Hh; [|done..]. injection Hh as ->.
  exists h, previous. injection Hp as Hp. injection Hs as Hs.
  destruct (recover_address h sig') as [a|] eqn:Ha; [|done].
  destruct (Z.eqb_spec (rv_address v) a) as [<-|]; simpl in H; [|done]. injection H as <-.
  split; [done|]. split; [|done]. by destruct (getPreviousCertificate _ _); simpl in Hp; [injection Hp as ->|].
Qed.

Lemma member_answer_recovers m cert lastBlock k sig :
  signs_for proposer -> member_answer storage proposer client m cert lastBlock k = Some (Ok sig) ->
  exists s h, mc_signers m !! k = Some s /\ HashCertificateToSign cert = Some (Ok h) /\
    recover_address h sig = Some (si_Address s).
Proof.
  intros Hsign. unfold member_answer. destruct (mc_signers m !! k) as [s|]; [|done]. simpl.
  unfold getSignatureFromValidator. cbn [rv_address]. destruct (Z.eqb_spec (si_Address s) (sg_PublicAddress proposer)) as [Ha|_].
  - unfold signCertificateForMultisigAsProposer. intros H. apply obind_Ok in H as (h & Hh & H).
    destruct (HashCertificateToSign cert) as [[h'|]|]; simpl in Hh; [|done..]. injection Hh as ->. injection H as H.
    exists s, h. rewrite Ha. eauto.
  - intros (h & _ & Hh & _ & _ & Hr)%Remote_ValidateAndSign_Ok. by exists s, h.
Qed.

(** Entries come from different arrivals. *)
Lemma member_entries_inj m cert lastBlock arrivals :
  Z.of_nat (length (mc_signers m)) <= pow2_32 -> NoDup arrivals ->
  Forall (fun k => (k < length (mc_signers m))%nat) arrivals ->
  NoDup (map me_Index (omap (member_entry storage proposer client m cert lastBlock) arrivals)).
Proof.
  intros Hsize. induction arrivals as [|k arrivals IH]; intros Hnd Hlt; [apply NoDup_nil_2|].
  apply NoDup_cons in Hnd as [Hk Hnd]. apply Forall_cons in Hlt as [Hlk Hlt]. cbn [omap list_omap].
  destruct (member_entry _ _ _ m cert lastBlock k) as [e|] eqn:He; [|by apply IH].
  cbn [map]. apply NoDup_cons. split; [|by apply IH].
  intros (e' & Hi & He')%list_elem_of_fmap. apply list_elem_of_omap in He' as (k' & Hk' & He').
  apply member_entry_Some in He as [Hi1 _], He' as [Hi2 _]. rewrite Hi1, Hi2 in Hi.
  rewrite Forall_forall in Hlt. specialize (Hlt k' Hk').
  rewrite !wrap32_small in Hi by (unfold_words; lia). assert (k = k') as -> by lia. done.
Qed.

(** The entry of a position in the committee. *)
Definition entry_of (m : MultisigCommittee) (h : Z) (e : ECDSAMultisigEntry) : Prop :=
  exists k s, mc_signers m !! k = Some s /\ me_Index e = Z.of_nat k /\
    length (me_Signature e) = SignatureSize /\ recover_address h (me_Signature e) = Some (si_Address s).

(** Entries with different indices recover to different addresses. *)
Lemma entries_addresses m h es :
  committee_wf m -> Forall (entry_of m h) es -> NoDup (map me_Index es) ->
  NoDup (map (fun e => recover_address h (me_Signature e)) es).
Proof.
  intros [Hnd _]. induction 1 as [|e es (k & s & Hs & Hi & _ & Hr) Hes IH]; [intros _; apply NoDup_nil_2|]. cbn [map].
  rewrite !NoDup_cons. intros [Hnin Hnd']. split; [|by apply IH].
  intros (e' & Hr' & He')%list_elem_of_fmap. apply Hnin. apply list_elem_of_fmap. exists e'. split; [|done].
  rewrite Forall_forall in Hes. destruct (Hes e' He') as (k' & s' & Hs' & Hi' & _ & Hr'').
  rewrite Hi, Hi'. f_equal. cbv beta in Hr'. rewrite Hr, Hr'' in Hr'. injection Hr' as Hr'.
  apply (NoDup_lookup _ _ _ (si_Address s) Hnd).
  - by rewrite list_lookup_fmap, Hs.
  - rewrite list_lookup_fmap, Hs'. simpl. by rewrite Hr'.
Qed.

Lemma NoDup_map_take {A B} (f : A -> B) n l : NoDup (map f l) -> NoDup (map f (take n l)).
Proof. intros H. rewrite <- (take_drop n l), map_app, NoDup_app in H. tauto. Qed.

(** The signatures of [ms] are those of a quorum of the committee over the certificate. *)
Definition quorum (cert : FullCertificate) (ms : Multisig) : Prop :=
  exists m h, GetMultisigCommittee contract override = Ok m /\ HashCertificateToSign cert = Some (Ok h) /\
    Z.of_nat (length (ms_Signatures ms)) = mc_threshold m /\ 0 < mc_threshold m /\
    Forall (entry_of m h) (ms_Signatures ms) /\ NoDup (map me_Index (ms_Signatures ms)) /\
    NoDup (map (fun e => recover_address h (me_Signature e)) (ms_Signatures ms)).

Lemma PollValidators_quorum arrivals cert lastBlock ms :
  NoDup arrivals -> signs_for proposer ->
  (forall m, GetMultisigCommittee contract override = Ok m -> Z.of_nat (length (mc_signers m)) <= pow2_32) ->
  PollValidators storage proposer contract override newClient client arrivals
    (Some (mkValidationRequest (Some cert) lastBlock)) = Some (Ok ms) ->
  quorum cert ms.
Proof.
  unfold quorum.
  intros Hnd Hsign Hsize Hpoll. apply PollValidators_Ok in Hpoll as (m & Hm & _ & Hlt & Hlen & Htake).
  destruct (GetMultisigCommittee_Ok _ _ _ Hm) as [Hwf Hpos]. specialize (Hsize m Hm).
  assert (Forall (fun e => exists h, HashCertificateToSign cert = Some (Ok h) /\ entry_of m h e) (ms_Signatures ms)) as Hall.
  { rewrite Htake. apply Forall_take, Forall_forall. intros e (k & Hk & He)%list_elem_of_omap.
    apply member_entry_Some in He as [Hi [Ha Hl]].
    destruct (member_answer_recovers m cert lastBlock k _ Hsign Ha) as (s & h & Hs & Hh & Hr).
    exists h. split; [done|]. exists k, s. split_and!; [done| |done..]. rewrite Hi.
    apply lookup_lt_Some in Hs. apply wrap32_small. unfold_words. lia. }
  assert (NoDup (map me_Index (ms_Signatures ms))) as Hndi.
  { rewrite Htake. apply NoDup_map_take. by apply member_entries_inj. }
  destruct (ms_Signatures ms) as [|e0 es] eqn:Hes; [simpl in Hlen; lia|].
  pose proof (Forall_inv Hall) as (h & Hh & _). exists m, h.
  assert (Forall (entry_of m h) (e0 :: es)) as Hentries.
  { eapply Forall_impl; [exact Hall|]. cbv beta. intros e (h' & Hh' & He). by simplify_eq. }
  split_and!; [done | done | done | lia | done | done | by eapply entries_addresses].
Qed.

(** A multisig the poller returns is a quorum: it holds exactly the threshold the contract asks for, at
    the indices of different members of the committee, and each signature has the right length and
    recovers, over the hash of this certificate, to the address of the member it is filed under, so that
    all of them are signatures of different members; whatever the order of the answers. *)
Theorem multisig_is_quorum arrivals cert lastBlock ms :
  NoDup arrivals -> signs_for proposer ->
  (forall m, GetMultisigCommittee contract override = Ok m -> Z.of_nat (length (mc_signers m)) <= pow2_32) ->
  PollValidators storage proposer contract override newClient client arrivals
    (Some (mkValidationRequest (Some cert) lastBlock)) = Some (Ok ms) ->
  exists m h, GetMultisigCommittee contract override = Ok m /\ HashCertificateToSign cert = Some (Ok h) /\
    Z.of_nat (length (ms_Signatures ms)) = mc_threshold m /\ 0 < mc_threshold m /\
    Forall (entry_of m h) (ms_Signatures ms) /\ NoDup (map me_Index (ms_Signatures ms)) /\
    NoDup (map (fun e => recover_address h (me_Signature e)) (ms_Signatures ms)).
Proof. apply PollValidators_quorum. Qed.

(** Building the clients fails only as building one of them does. *)
Lemma newValidators_Err i signers e : newValidators newClient i signers = Err e -> e = ErrCreateValidator.
Proof.
  revert i. induction signers as [|s l IH]; intros i; simpl; [done|].
  unfold NewRemoteValidator. destruct (newClient (si_URL s)); simpl; [|by intros [= <-]].
  destruct (newValidators newClient (i + 1) l) eqn:E; simpl; [done|]. intros [= ->]. by eapply IH.
Qed.

Lemma getValidators_run m :
  GetMultisigCommittee contract override = Ok m ->
  getValidators proposer contract override newClient <> Err ErrCreateValidator ->
  si_Address <$> head (mc_signers m) = Some (sg_PublicAddress proposer) ->
  exists vs, getValidators proposer contract override newClient = Ok (vs, mc_threshold m).
Proof.
  intros Hm Hnew Hhead. unfold getValidators in *. rewrite Hm in *. cbn [lift_poll rbind] in *.
  destruct (newValidators newClient 0 (mc_signers m)) as [vs|e] eqn:Hvs; cbn [rbind] in *.
  - apply newValidators_Ok in Hvs as ->. destruct (mc_signers m) as [|s l]; [done|]. simpl in *.
    injection Hhead as Hhead. rewrite Hhead, Z.eqb_refl. simpl. eauto.
  - apply newValidators_Err in Hvs as ->. done.
Qed.

(** Asking a member only crashes when hashing the certificate does. *)
Lemma getSignature_total v cert lastBlock :
  HashCertificateToSign cert <> None -> is_Some (getSignatureFromValidator storage proposer client v cert lastBlock).
Proof.
  intros Hh. unfold getSignatureFromValidator, signCertificateForMultisigAsProposer, Remote_ValidateAndSign.
  destruct (HashCertificateToSign cert) as [[h|]|]; [| |done]; destruct (_ =? _); simpl; try by eexists.
  destruct (getPreviousCertificate _ _); simpl; [|by eexists]. destruct (client _ _ _ _); simpl; [|by eexists].
  destruct (recover_address _ _); by eexists.
Qed.

(** C24. Whether a quorum is found does not depend on the order of the answers: when every member is asked
    and none of the calls crashes, the poller returns a multisig exactly when at least as many members sign as
    the threshold asks for. *)
Theorem quorum_found_in_any_order arrivals m cert lastBlock :
  GetMultisigCommittee contract override = Ok m ->
  getValidators proposer contract override newClient <> Err ErrCreateValidator ->
  si_Address <$> head (mc_signers m) = Some (sg_PublicAddress proposer) ->
  arrivals ≡ₚ seq 0 (length (mc_signers m)) -> lastBlock <> 0 ->
  HashCertificateToSign cert <> None ->
  exists r, PollValidators storage proposer contract override newClient client arrivals
      (Some (mkValidationRequest (Some cert) lastBlock)) = Some r /\
    (is_ok r = true <->
     mc_threshold m <= Z.of_nat (length (omap (member_entry storage proposer client m cert lastBlock)
                                          (seq 0 (length (mc_signers m)))))).
Proof.
  intros Hm Hnew Hhead Hperm Hlast Hhash.
  destruct (getValidators_run m Hm Hnew Hhead) as [vs Hg].
  pose proof (getValidators_Ok _ _ _ _ _ _ Hg) as (m' & Hm' & _ & Hvs & _). rewrite Hm in Hm'. injection Hm' as <-.
  destruct (GetMultisigCommittee_Ok _ _ _ Hm) as [_ Hpos].
  unfold PollValidators, validateRequest. cbn [vr_Certificate vr_LastL2BlockInCert].
  rewrite (proj2 (Z.eqb_neq _ _)) by done. cbn [obind]. rewrite Hg. cbn [obind].
  destruct (executeValidation storage proposer client arrivals vs cert lastBlock) as [results|] eqn:He.
  - simpl. eexists. split; [done|]. rewrite Hvs in He. apply executeValidation_entries in He as [He _].
    assert (length (omap valid_entry results) = length (omap (member_entry storage proposer client m cert lastBlock)
      (seq 0 (length (mc_signers m))))) as Hcount by (by rewrite He, Hperm).
    rewrite <- Hcount. destruct (processResults results (mc_threshold m)) as [ms|e] eqn:Hp; simpl.
    + apply processResults_Ok in Hp as [Hle _]; [|lia]. split; [lia | done].
    + split; [done|]. intros Hle. rewrite (proj2 (processResults_Ok results (mc_threshold m)
        (mkMultisig (take (Z.to_nat (mc_threshold m)) (omap valid_entry results))) ltac:(lia))) in Hp; [done|]. split; [lia | done].
  - exfalso. unfold executeValidation in He. apply mapM_None, Exists_exists in He as (k & Hk & He).
    rewrite Hperm, elem_of_seq in Hk. rewrite Hvs, list_lookup_imap in He.
    destruct (lookup_lt_is_Some_2 (mc_signers m) k) as [s Hs]; [lia|]. rewrite Hs in He. simpl in He.
    by destruct (getSignature_total (mkRemoteValidator (si_URL s) (si_Address s) (wrap32 (Z.of_nat k))) cert lastBlock Hhash)
      as [r Hr]; rewrite Hr in He.
Qed.

(** A member of the committee that runs the validator service. *)
Record Member := mkMember {
  mb_agglayer : AgglayerClient;
  mb_l1 : L1InfoTreeDataQuerier;
  mb_querier : CertificateQuerier;
  mb_flow : AggsenderVerifierFlow;
  mb_initialLER : Z;
  mb_signer : option Signer
}.

(** Behind the URL is the service of the member: a signature that comes back is the service's answer to
    the request, the certificate and the identifier of the previous one sent as messages. *)
Definition runs_service (url : string) (mb : Member) : Prop :=
  forall previous cert lastBlock sig, client url previous cert lastBlock = Ok sig ->
  exists proto, ConvertCertToProtoCertificate cert = Some (Ok proto) /\
    Service_ValidateCertificate (Ac := mb_agglayer mb) (Lq := mb_l1 mb) (Cq := mb_querier mb)
      (mb_flow mb) (mb_initialLER mb) (mb_signer mb) (Hash_Bytes <$> previous) (Some proto) lastBlock = Some (Ok sig).

Lemma Service_validates mb previous cert proto lastBlock sig :
  ConvertCertToProtoCertificate cert = Some (Ok proto) ->
  Service_ValidateCertificate (Ac := mb_agglayer mb) (Lq := mb_l1 mb) (Cq := mb_querier mb)
    (mb_flow mb) (mb_initialLER mb) (mb_signer mb) (Hash_Bytes <$> previous) (Some proto) lastBlock = Some (Ok sig) ->
  exists header cert', match previous with
      | None => header = None
      | Some id => exists h, header = Some h /\ @GetCertificateHeader (mb_agglayer mb) (BytesToHash (Hash_Bytes id)) = Ok h
      end /\
    received cert cert' /\
    accepted (Cq := mb_querier mb) (mb_flow mb) (mb_initialLER mb)
      (mkRequest (Some (fl_cert cert')) header lastBlock).
Proof.
  intros Hp. unfold Service_ValidateCertificate. intros H. apply obind_Ok in H as (header & Hh & H).
  apply obind_Ok in H as (c & Hc & H). apply obind_Ok in H as ([] & Hv & _).
  exists header, c. injection Hh as Hh. split_and!.
  - destruct previous as [id|]; cbn [fmap option_fmap option_map] in Hh; [|by injection Hh as <-].
    destruct (GetCertificateHeader _) as [h|]; [|done]. injection Hh as <-. eauto.
  - exists proto. split; [done|]. destruct (ConvertProtoCertToAgglayer proto) as [[c'|]|]; [|done|done]. by injection Hc as <-.
  - apply (ValidateCertificate_accepted (Lq := mb_l1 mb)).
    destruct (ValidateCertificate _ _ _) as [[[]|]|]; [done | done | done].
Qed.

(** Members that do not run the service. *)
Definition others (members : nat -> option Member) (m : MultisigCommittee) : list nat :=
  bfilter (fun k => bool_decide (members k = None)) (seq 0 (length (mc_signers m))).

(** A member that runs the service signs only what it validated. *)
Lemma honest_entry_validated m members cert lastBlock k e mb :
  (forall k s mb, mc_signers m !! k = Some s -> members k = Some mb ->
     si_Address s <> sg_PublicAddress proposer /\ runs_service (si_URL s) mb) ->
  member_entry storage proposer client m cert lastBlock k = Some e -> members k = Some mb ->
  exists previous header cert',
    getPreviousCertificate storage (ct_Height (fl_cert cert)) = Ok previous /\
    match previous with
    | None => header = None
    | Some p => exists h, header = Some h /\ @GetCertificateHeader (mb_agglayer mb) (BytesToHash (Hash_Bytes (ah_CertificateID p))) = Ok h
    end /\
    received cert cert' /\
    accepted (Cq := mb_querier mb) (mb_flow mb) (mb_initialLER mb) (mkRequest (Some (fl_cert cert')) header lastBlock).
Proof.
  intros Hrun He Hmb. apply member_entry_Some in He as [_ [Ha _]]. unfold member_answer in Ha.
  destruct (mc_signers m !! k) as [s|] eqn:Hs; [|done]. destruct (Hrun k s mb Hs Hmb) as [Hne Hsrv].
  simpl in Ha. unfold getSignatureFromValidator in Ha. cbn [rv_address] in Ha.
  rewrite (proj2 (Z.eqb_neq _ _)) in Ha by done.
  apply Remote_ValidateAndSign_Ok in Ha as (h & previous & _ & Hp & Hc & _). cbn [rv_url] in Hc.
  apply Hsrv in Hc as (proto & Hproto & Hc). apply (Service_validates _ _ cert) in Hc as (header & cert' & Hh & Hr & Hacc); [|done].
  exists previous, header, cert'. split; [done|]. split; [|done]. by destruct previous.
Qed.

(** More entries than members of one kind: one of them is of another kind. *)
Lemma entry_outside_others m members cert lastBlock arrivals n :
  NoDup arrivals -> Forall (fun k => (k < length (mc_signers m))%nat) arrivals ->
  (length (others members m) < n)%nat ->
  length (take n (omap (member_entry storage proposer client m cert lastBlock) arrivals)) = n ->
  exists k e mb, member_entry storage proposer client m cert lastBlock k = Some e /\ members k = Some mb.
Proof.
  intros Hnd Hlt Hothers Hlen. rewrite length_take in Hlen.
  set (signing := bfilter (fun k => bool_decide (is_Some (member_entry storage proposer client m cert lastBlock k))) arrivals).
  assert (length signing = length (omap (member_entry storage proposer client m cert lastBlock) arrivals)) as Hs.
  { unfold signing. clear. induction arrivals as [|k l IH]; [done|]. cbn [bfilter omap list_omap].
    destruct (member_entry _ _ _ m cert lastBlock k); [rewrite bool_decide_true by eauto | rewrite bool_decide_false by (intros [? ?]; done)];
      simpl; by rewrite ?IH. }
  destruct (decide (Forall (fun k => members k = None) signing)) as [Hall|Hex].
  - exfalso. enough (length signing <= length (others members m))%nat by lia.
    apply submseteq_length, NoDup_submseteq.
    + unfold signing. rewrite <- (map_id arrivals) in Hnd. apply (map_bfilter_NoDup (fun k => k)) with (p := fun k => bool_decide (is_Some (member_entry storage proposer client m cert lastBlock k))) in Hnd. by rewrite map_id in Hnd.
    + intros k Hk. rewrite Forall_forall in Hall, Hlt. pose proof (Hall k Hk) as Hnone.
      apply list_elem_of_In, bfilter_In in Hk as [Hk _]. apply list_elem_of_In in Hk.
      apply list_elem_of_In, bfilter_In. split; [|by apply bool_decide_eq_true].
      apply in_seq. specialize (Hlt k Hk). lia.
  - apply not_Forall_Exists, Exists_exists in Hex as (k & Hk & Hmb); [|intros k; destruct (members k); [by right | by left]].
    apply list_elem_of_In, bfilter_In in Hk as [_ Hk]. apply bool_decide_eq_true in Hk as [e He].
    destruct (members k) as [mb|] eqn:Em; [|done]. eauto.
Qed.

(** C20. A quorum is worth a validation: if fewer members than the threshold do not run the validator service
    (the proposer, who signs without validating, among them), then for every multisig some member accepted the
    certificate as it received it: converted to messages by the proposer's client and back by the member's service,
    which is the certificate itself when every amount is present, all metadata is empty or of 32 bytes, the claims are
    complete and all values fit their fields ([survives]; otherwise [exit_changed_on_the_wire]).  What it accepted
    continues the certificate before it in the storage of the proposer, whose header the member took from its own
    agglayer client, it is the certificate that member builds from its own syncers, and its claims are proved. *)
Theorem quorum_validated_by_a_member members arrivals cert lastBlock ms m :
  NoDup arrivals -> GetMultisigCommittee contract override = Ok m ->
  (forall k s mb, mc_signers m !! k = Some s -> members k = Some mb ->
     si_Address s <> sg_PublicAddress proposer /\ runs_service (si_URL s) mb) ->
  Z.of_nat (length (others members m)) < mc_threshold m ->
  PollValidators storage proposer contract override newClient client arrivals
    (Some (mkValidationRequest (Some cert) lastBlock)) = Some (Ok ms) ->
  exists k mb previous header cert', members k = Some mb /\
    getPreviousCertificate storage (ct_Height (fl_cert cert)) = Ok previous /\
    match previous with
    | None => header = None
    | Some p => exists h, header = Some h /\ @GetCertificateHeader (mb_agglayer mb) (BytesToHash (Hash_Bytes (ah_CertificateID p))) = Ok h
    end /\
    received cert cert' /\ (survives cert -> cert' = cert) /\
    accepted (Cq := mb_querier mb) (mb_flow mb) (mb_initialLER mb) (mkRequest (Some (fl_cert cert')) header lastBlock).
Proof.
  intros Hnd Hm Hrun Hothers Hpoll.
  apply PollValidators_Ok in Hpoll as (m' & Hm' & _ & Hlt & Hlen & Htake). rewrite Hm in Hm'. injection Hm' as <-.
  rewrite Htake in Hlen.
  destruct (entry_outside_others m members cert lastBlock arrivals (Z.to_nat (mc_threshold m))) as (k & e & mb & He & Hmb);
    [done | done | lia | lia|].
  destruct (honest_entry_validated m members cert lastBlock k e mb Hrun He Hmb) as (previous & header & cert' & Hp & Hh & Hr & Hacc).
  exists k, mb, previous, header, cert'. split_and!; [done.. | | done]. intros Hs. by apply (received_unique cert), received_as_sent.
Qed.

End Quorum.

(** ** Examples *)

#[local] Existing Instance toy_keccak.

(** A signature is the hash followed by the address of the signer. *)
Definition toy_ecdsa : Ecdsa := fun h sig =>
  if bool_decide (take 32 sig = Hash_Bytes h) then Some (be_value (drop 32 sig)) else None.

Definition toy_signer (address : Z) : Signer := mkSigner address (fun h => Ok (Hash_Bytes h ++ be_bytes 33 address)).

Lemma toy_signer_signs address : 0 <= address < pow2_64 -> signs_for (H := toy_ecdsa) (toy_signer address).
Proof.
  intros Ha h sig Hsig. apply (f_equal (fun r => match r with Ok s => s | Err _ => [] end)) in Hsig. cbv beta iota in Hsig.
  change (Hash_Bytes h ++ be_bytes 33 address = sig) in Hsig. subst sig. unfold recover_address, toy_ecdsa.
  assert (length (Hash_Bytes h) = 32%nat) as Hl by apply be_bytes_length.
  rewrite (take_app_length' _ _ 32), (drop_app_length' _ _ 32), bool_decide_true by done.
  rewrite be_value_be_bytes_small; [done|]. assert (pow2_64 <= 256 ^ Z.of_nat 33) by (vm_compute; congruence). lia.
Qed.

Definition example_agglayer : AgglayerClient := {|
  GetCertificateHeader := fun id =>
    match ConvertAggsenderCertHeaderToAgglayer (Some example_last) with
    | Some h => if id =? ah_CertificateID h then Ok h else Err ErrAgglayerClient
    | None => Err ErrAgglayerClient
    end;
  GetLatestSettledCertificateHeader := Ok (ConvertAggsenderCertHeaderToAgglayer (Some example_last));
  GetLatestPendingCertificateHeader := Ok None
|}.

Definition example_member (address : Z) : Member :=
  mkMember example_agglayer example_prover example_querier example_verifier 77 (Some (toy_signer address)).

Definition example_service (address : Z) (previous : option Z) (cert : FullCertificate) (lastBlock : Z)
  : result pollError (list Z) :=
  match ConvertCertToProtoCertificate cert with
  | Some (Ok proto) =>
      default (Err ErrValidatorRequest)
        (Service_ValidateCertificate (Ac := example_agglayer) (Lq := example_prover) (Cq := example_querier)
           example_verifier 77 (Some (toy_signer address)) (Hash_Bytes <$> previous) (Some proto) lastBlock)
  | _ => Err ErrValidatorRequest
  end.

Definition example_signers : list SignerInfo :=
  [mkSignerInfo "proposer" 100; mkSignerInfo "one" 200; mkSignerInfo "two" 300].

Definition example_contract : MultisigContract := mkMultisigContract (Ok 2) (Ok example_signers) (Ok 1) (Ok (0, 0)).

(** The members at ["one"] and ["two"] run the service. *)
Definition example_client (url : string) (previous : option Z) (cert : FullCertificate) (lastBlock : Z)
  : result pollError (list Z) :=
  if String.eqb url "one" then example_service 200 previous cert lastBlock
  else if String.eqb url "two" then example_service 300 previous cert lastBlock
  else Err ErrValidatorRequest.

Definition example_members (k : nat) : option Member :=
  match k with 1%nat => Some (example_member 200) | 2%nat => Some (example_member 300) | _ => None end.

Definition example_committee : MultisigCommittee := mkCommittee example_signers {[300; 200; 100]} 2.
Definition example_full : FullCertificate := mkFullCertificate example_bridge_only AggchainDataNil.

Definition example_poll (arrivals : list nat) : option (result pollError Multisig) :=
  PollValidators (Ec := toy_ecdsa) example_store (toy_signer 100) example_contract None (fun _ => true) example_client
    arrivals (Some (mkValidationRequest (Some example_full) 30)).

(** The two members that answer first. *)
Definition example_multisig : Multisig :=
  match example_poll [2; 1; 0]%nat with Some (Ok ms) => ms | _ => mkMultisig [] end.

Lemma example_poll_Ok :
  PollValidators (Kc := toy_keccak) (Ec := toy_ecdsa) example_store (toy_signer 100) example_contract None (fun _ => true)
    example_client [2; 1; 0]%nat (Some (mkValidationRequest (Some example_full) 30)) = Some (Ok example_multisig).
Proof. vm_compute. reflexivity. Qed.

Lemma example_committee_Ok : GetMultisigCommittee example_contract None = Ok example_committee.
Proof. vm_compute. reflexivity. Qed.

Lemma default_Err_Ok {E A} (e : E) (o : option (result E A)) (a : A) : default (Err e) o = Ok a -> o = Some (Ok a).
Proof. destruct o; simpl; [by intros -> | done]. Qed.

Lemma example_members_run k s mb :
  mc_signers example_committee !! k = Some s -> example_members k = Some mb ->
  si_Address s <> sg_PublicAddress (toy_signer 100) /\ runs_service example_client (si_URL s) mb.
Proof.
  destruct k as [|[|[|k]]]; intros [= <-] [= <-]; (split; [done|]); intros previous cert lastBlock sig Hc.
  all: unfold example_client, example_service in Hc; cbn [String.eqb Ascii.eqb Bool.eqb si_URL] in Hc.
  all: destruct (ConvertCertToProtoCertificate cert) as [[proto|]|]; [|done|done].
  all: exists proto; split; [done | exact (default_Err_Ok _ _ _ Hc)].
Qed.

Lemma multisig_is_quorum_witness :
  exists m h, GetMultisigCommittee example_contract None = Ok m /\ HashCertificateToSign example_full = Some (Ok h) /\
    Z.of_nat (length (ms_Signatures example_multisig)) = mc_threshold m /\ 0 < mc_threshold m /\
    Forall (entry_of (Ec := toy_ecdsa) m h) (ms_Signatures example_multisig) /\
    NoDup (map me_Index (ms_Signatures example_multisig)) /\
    NoDup (map (fun e => @recover_address toy_ecdsa h (me_Signature e)) (ms_Signatures example_multisig)).
Proof.
  refine (multisig_is_quorum (Kc := toy_keccak) (Ec := toy_ecdsa) example_store (toy_signer 100) example_contract None (fun _ => true) example_client
    [2; 1; 0]%nat example_full 30 example_multisig _ _ _ example_poll_Ok).
  - apply (bool_decide_eq_true_1 (NoDup [2; 1; 0]%nat)). reflexivity.
  - apply toy_signer_signs. split; vm_compute; congruence.
  - rewrite example_committee_Ok. intros m [= <-]. vm_compute. congruence.
Defined.

Lemma quorum_found_in_any_order_witness :
  exists r, example_poll [1; 0; 2]%nat = Some r /\
    (is_ok r = true <->
     2 <= Z.of_nat (length (omap (member_entry (Ec := toy_ecdsa) example_store (toy_signer 100) example_client
            example_committee example_full 30) (seq 0 3)))).
Proof.
  refine (quorum_found_in_any_order (Kc := toy_keccak) (Ec := toy_ecdsa) example_store (toy_signer 100) example_contract None (fun _ => true)
    example_client [1; 0; 2]%nat example_committee example_full 30 example_committee_Ok _ _ _ _ _).
  - vm_compute. congruence.
  - reflexivity.
  - apply perm_swap.
  - congruence.
  - vm_compute. congruence.
Defined.

Lemma quorum_validated_by_a_member_witness :
  exists k mb previous header cert', example_members k = Some mb /\
    getPreviousCertificate example_store 5 = Ok previous /\
    match previous with
    | None => header = None
    | Some p => exists h, header = Some h /\ @GetCertificateHeader (mb_agglayer mb) (BytesToHash (Hash_Bytes (ah_CertificateID p))) = Ok h
    end /\
    received example_full cert' /\ (survives example_full -> cert' = example_full) /\
    accepted (Cq := mb_querier mb) (mb_flow mb) (mb_initialLER mb) (mkRequest (Some (fl_cert cert')) header 30).
Proof.
  refine (quorum_validated_by_a_member (Kc := toy_keccak) (Ec := toy_ecdsa) example_store (toy_signer 100) example_contract None (fun _ => true)
    example_client example_members [2; 1; 0]%nat example_full 30 example_multisig example_committee
    _ example_committee_Ok example_members_run _ example_poll_Ok).
  - apply (bool_decide_eq_true_1 (NoDup [2; 1; 0]%nat)). reflexivity.
  - vm_compute. reflexivity.
Defined.
