(* ===== verification/Retry.v ===== *)
(** Retries ([common/retry_delays_config.go], [common/retry_config.go], [common/retry_backoff_config.go],
    [common/retry_handler_delays.go]): the configuration of delays and attempts, and the loop that runs a
    payload until it succeeds.

    The payload changes a state and can fail; what the world answers in each attempt is a function of the
    number of the attempt.  Durations are numbers of nanoseconds.  The delays of the backoff mode are
    computed in floating point with [math.Pow]: they are a parameter. *)

From S2P Require Import Prelude.

(** ** Configuration *)

Record RetryDelaysConfig := mkRetryDelays { rd_MaxRetries : Z; rd_Delays : list Z }.

Definition MaxAttemptsInfinite : Z := -1.

Inductive retryError := ErrInvalidConfig | ErrInvalidRetryConfigMode.

(** [None] is the nil configuration. *)
Definition RetryDelays_Validate (r : option RetryDelaysConfig) : result retryError unit :=
  match r with
  | None => Ok tt
  | Some r =>
      let empty := (length (rd_Delays r) =? 0)%nat in
      if empty && (rd_MaxRetries r =? 0) then Ok tt
      else if empty then Err ErrInvalidConfig
      else if existsb (fun d => d <=? 0) (rd_Delays r) then Err ErrInvalidConfig
      else if rd_MaxRetries r <? MaxAttemptsInfinite then Err ErrInvalidConfig
      else Ok tt
  end.

Record RetryBackoffConfig := mkRetryBackoff {
  rb_InitialBackoff : Z;
  rb_MaxBackoff : Z;
  rb_MultiplierAboveOne : bool;
  rb_MaxRetries : Z
}.

Definition RetryBackoff_Validate (r : option RetryBackoffConfig) : result retryError unit :=
  match r with
  | None => Err ErrInvalidConfig
  | Some r =>
      if rb_MaxRetries r <? MaxAttemptsInfinite then Err ErrInvalidConfig
      else if rb_InitialBackoff r <=? 0 then Err ErrInvalidConfig
      else if rb_MaxBackoff r <=? 0 then Err ErrInvalidConfig
      else if rb_MaxBackoff r <? rb_InitialBackoff r then Err ErrInvalidConfig
      else if negb (rb_MultiplierAboveOne r) then Err ErrInvalidConfig
      else Ok tt
  end.

Inductive RetryConfigMode := RetryConfigModeNoRetries | RetryConfigModeDelays | RetryConfigModeBackoff | RetryConfigModeOther.

Record RetryPolicyGenericConfig := mkRetryPolicy {
  rg_Mode : RetryConfigMode;
  rg_MaxRetries : Z;
  rg_Delays : list Z;
  rg_InitialBackoff : Z;
  rg_MaxBackoff : Z;
  rg_MultiplierAboveOne : bool
}.

(** [Factory] followed by [NewRetryHandler] of the configuration it makes. *)
Definition NewRetryHandler (backoffDelays : RetryBackoffConfig -> list Z) (r : RetryPolicyGenericConfig)
  : result retryError RetryDelaysConfig :=
  match rg_Mode r with
  | RetryConfigModeDelays =>
      let cfg := mkRetryDelays (rg_MaxRetries r) (rg_Delays r) in
      let? _ := RetryDelays_Validate (Some cfg) in
      Ok cfg
  | RetryConfigModeBackoff =>
      let cfg := mkRetryBackoff (rg_InitialBackoff r) (rg_MaxBackoff r) (rg_MultiplierAboveOne r) (rg_MaxRetries r) in
      let? _ := RetryBackoff_Validate (Some cfg) in
      Ok (mkRetryDelays (rb_MaxRetries cfg) (backoffDelays cfg))
  | RetryConfigModeNoRetries => Ok (mkRetryDelays 0 [])
  | RetryConfigModeOther => Err ErrInvalidRetryConfigMode
  end.

(** ** The handler *)

Definition IsInfiniteRetriesConfigured (r : RetryDelaysConfig) : bool := rd_MaxRetries r =? MaxAttemptsInfinite.

Definition Delay (r : RetryDelaysConfig) (attempt : nat) : Z :=
  match rd_Delays r with
  | [] => 0
  | ds => default 0 (ds !! (attempt `min` (length ds - 1))%nat)
  end.

Definition MustExecuteAttempt (r : RetryDelaysConfig) (attempt : nat) : bool :=
  if IsInfiniteRetriesConfigured r then true else Z.of_nat attempt <=? rd_MaxRetries r.

Inductive execError (E : Type) :=
| ExecInvalid (e : retryError)
| ExecAborted (e : E)
| ExecCancelled
| ExecFails (attempts : nat) (lastError : option E).
Arguments ExecInvalid {E} e.
Arguments ExecAborted {E} e.
Arguments ExecCancelled {E}.
Arguments ExecFails {E} attempts lastError.

Section Execute.
Context {St E A : Type}.
Context (isAbort : E -> bool) (cancelled : nat -> bool).
Context (payload : nat -> St -> option (St * result E A)).

(** The loop, with the time waited so far; [None] is a crash of the payload, or no fuel. *)
Fixpoint Execute_loop (fuel : nat) (r : RetryDelaysConfig) (attempt : nat) (lastError : option E) (waited : Z) (s : St)
  : option (St * Z * result (execError E) A) :=
  match fuel with
  | O => None
  | S fuel =>
      if MustExecuteAttempt r attempt then
        match payload attempt s with
        | None => None
        | Some (s, Ok a) => Some (s, waited, Ok a)
        | Some (s, Err e) =>
            if isAbort e then Some (s, waited, Err (ExecAborted e))
            else if cancelled attempt then Some (s, waited, Err ExecCancelled)
            else Execute_loop fuel r (attempt + 1) (Some e) (waited + Delay r attempt) s
        end
      else Some (s, waited, Err (ExecFails attempt lastError))
  end.

(** A nil handler makes no retries. *)
Definition Execute (fuel : nat) (r : option RetryDelaysConfig) (s : St) : option (St * Z * result (execError E) A) :=
  let r := default (mkRetryDelays 0 []) r in
  match RetryDelays_Validate (Some r) with
  | Err e => Some (s, 0, Err (ExecInvalid e))
  | Ok _ => Execute_loop fuel r 0 None 0 s
  end.

(** ** Lemmas *)

Lemma Execute_loop_ends r n attempt lastError waited s :
  rd_MaxRetries r = Z.of_nat n -> (attempt <= n + 1)%nat -> (forall i s, payload i s <> None) ->
  Execute_loop (n + 2 - attempt) r attempt lastError waited s <> None.
Proof.
  intros Hn Hle Htotal. remember (n + 2 - attempt)%nat as fuel eqn:Hf.
  revert attempt lastError waited s Hle Hf. induction fuel as [|fuel IH]; intros attempt lastError waited s Hle Hf; [lia|].
  simpl. unfold MustExecuteAttempt, IsInfiniteRetriesConfigured, MaxAttemptsInfinite. rewrite Hn.
  rewrite (proj2 (Z.eqb_neq _ _)) by lia. destruct (Z.leb_spec (Z.of_nat attempt) (Z.of_nat n)) as [Ha|Ha]; [|done].
  pose proof (Htotal attempt s) as Hp. destruct (payload attempt s) as [[s1 [a|e]]|]; [done | | done].
  destruct (isAbort e); [done|]. destruct (cancelled attempt); [done|]. apply IH; lia.
Qed.

(** What holds before an attempt and after every failed one holds at the end, and a result is the result of an
    attempt made in such a state. *)
Lemma Execute_loop_invariant (P : St -> Prop) fuel r attempt lastError waited s s' w res :
  (forall i s s' e, P s -> payload i s = Some (s', Err e) -> P s') ->
  P s -> Execute_loop fuel r attempt lastError waited s = Some (s', w, res) ->
  match res with
  | Ok a => exists i s0, P s0 /\ payload i s0 = Some (s', Ok a)
  | Err _ => P s'
  end.
Proof.
  intros Hstep. revert attempt lastError waited s.
  induction fuel as [|fuel IH]; intros attempt lastError waited s Hs; simpl; [done|].
  destruct (MustExecuteAttempt r attempt); [|by intros [= <- _ <-]].
  destruct (payload attempt s) as [[s1 [a|e]]|] eqn:Hp; [|pose proof (Hstep _ _ _ _ Hs Hp) as Hs1|done].
  - intros [= <- _ <-]. eauto.
  - destruct (isAbort e); [by intros [= <- _ <-]|]. destruct (cancelled attempt); [by intros [= <- _ <-]|].
    by apply IH.
Qed.

Lemma Execute_invariant (P : St -> Prop) fuel r s s' w res :
  (forall i s s' e, P s -> payload i s = Some (s', Err e) -> P s') ->
  P s -> Execute fuel r s = Some (s', w, res) ->
  match res with
  | Ok a => exists i s0, P s0 /\ payload i s0 = Some (s', Ok a)
  | Err _ => P s'
  end.
Proof.
  intros Hstep Hs. unfold Execute. destruct (RetryDelays_Validate _); [|by intros [= <- _ <-]].
  by apply Execute_loop_invariant.
Qed.

End Execute.

(** [Execute] with a bounded number of retries ends, whatever the payload does: one unit of fuel per
    attempt and one to find the attempts used up. *)
Theorem Execute_terminates {St E A} (isAbort : E -> bool) cancelled (payload : nat -> St -> option (St * result E A))
    (r : RetryDelaysConfig) s :
  0 <= rd_MaxRetries r -> (forall i s, payload i s <> None) ->
  exists s' w res, Execute isAbort cancelled payload (Z.to_nat (rd_MaxRetries r) + 2) (Some r) s = Some (s', w, res).
Proof.
  intros Hn Htotal. unfold Execute. change (default (mkRetryDelays 0 []) (Some r)) with r. destruct (RetryDelays_Validate (Some r)); [|by do 3 eexists].
  pose proof (Execute_loop_ends isAbort cancelled payload r (Z.to_nat (rd_MaxRetries r)) 0 None 0 s) as H.
  rewrite Nat.sub_0_r in H. destruct (Execute_loop _ _ _ _ _ _ _ _ _) as [[[s' w] res]|]; [by do 3 eexists|].
  exfalso. apply H; [lia | lia | done | done].
Qed.

(** A payload that fails three times, with two retries. *)
Lemma Execute_terminates_witness :
  exists s' w res, Execute (fun _ : Z => false) (fun _ => false)
    (fun i (s : nat) => Some (S s, (if (i <? 3)%nat then Err 7 else Ok tt) : result Z unit)) 4 (Some (mkRetryDelays 2 [10; 20])) 0%nat
    = Some (s', w, res).
Proof. refine (Execute_terminates _ _ _ (mkRetryDelays 2 [10; 20]) 0%nat _ _); [vm_compute; congruence | intros i s; done]. Defined.

Example Execute_gives_up :
  Execute (fun _ : Z => false) (fun _ => false) (fun i (s : nat) => Some (S s, Err (A := unit) (Z.of_nat i) : result Z unit))
    4 (Some (mkRetryDelays 2 [10; 20])) 0%nat = Some (3%nat, 50, Err (ExecFails 3 (Some 2))).
Proof. reflexivity. Qed.
