(* ===== verification/Aggsender.v ===== *)
(** The aggsender service ([aggsender/aggsender.go]): building, validating, signing, sending and storing a
    certificate, and the loop that does so on ticks and triggers.

    A flow is a record of operations, the interface [AggsenderBuilderFlow] of the source, with the laws the
    service relies on; the pessimistic-proof flow implements it.  The world answers differently each
    time it is asked: an [Env] holds its answers during one status check or one attempt to send.  The effects of
    the service on the world (submissions to the agglayer, calls of the trigger, warnings) are returned in
    their order.  [None] is a crash of the process, or no fuel.  Logs, metrics and the iteration limit of
    the tests are left out. *)

From S2P Require Import Prelude Bytes BlockRange Merkle AgglayerTypes CertStorage StatusChecker.
From S2P Require Import BuildParams Flow AdjustRange Validator Committee Retry.

(** ** Flows *)

Record AggsenderBuilderFlow := mkBuilderFlow {
  fw_CheckInitialStatus : result flowError unit;
  fw_GetCertificateBuildParams : Storage -> Z -> option (result flowError (option CertificateBuildParams));
  fw_BuildCertificate : Storage -> CertificateBuildParams -> result flowError FullCertificate;
  fw_UpdateAggchainData : FullCertificate -> option Multisig -> result flowError FullCertificate;
  fw_Signer : Signer
}.

(** [PPBuilderFlow.UpdateAggchainData]. *)
Definition PP_UpdateAggchainData (cert : FullCertificate) (multisig : option Multisig) : result flowError FullCertificate :=
  match multisig with
  | None => Ok cert
  | Some m => Ok (mkFullCertificate (fl_cert cert) (AggchainDataMultisig (Some m)))
  end.

Definition ppBuilderFlow `{Kc : Keccak} `{Bq : BridgeQuerier} `{Lq : L1InfoTreeDataQuerier} `{Cq : CertificateQuerier}
    (fuel : nat) (p : PPBuilderFlow) (signer : Signer) : AggsenderBuilderFlow := {|
  fw_CheckInitialStatus := Ok tt;
  fw_GetCertificateBuildParams := PP_GetCertificateBuildParams p fuel;
  fw_BuildCertificate := fun s params =>
    let? cert := PP_BuildCertificate p s params in Ok (mkFullCertificate cert AggchainDataNil);
  fw_UpdateAggchainData := PP_UpdateAggchainData;
  fw_Signer := signer
|}.

(** ** The service *)

Record AggConfig := mkAggConfig {
  cf_DryRun : bool;
  cf_RetryCertAfterInError : bool;
  cf_StopOnFinishedSendingAllCertificates : bool;
  cf_MaxRetriesStoreCertificate : Z;
  cf_CheckStatusCertificateInterval : Z;
  cf_Retries : RetryPolicyGenericConfig
}.

Inductive AggsenderStatusType :=
| StatusNone | StatusCheckingDBCompatibility | StartingClaimSyncerStage
| StatusCheckingInitialStage | StatusFlowCheckingInitialStage | StatusCertificateStage.

Inductive aggError :=
| AErrFlow (e : flowError)
| AErrPoll (e : pollError)
| AErrSend (text : list Z)
| AErrMarshal
| AErrSave (e : storageError)
| AErrChecker (e : checkerError)
| AErrRetryConfig (e : retryError)
| AErrExecute (e : execError aggError).

(** What the service does to the world, in order. *)
Inductive Effect :=
| EffLocalInvalid (e : pollError)
| EffSubmitted (cert : FullCertificate) (answer : result (list Z) Z)
| EffOnIdle
| EffTriggerSetup.

(** The answers of the world during a check or an attempt. *)
Record Env := mkEnv {
  en_now : Z;
  en_agglayer : AgglayerClient;
  en_querier : CertificateQuerier;
  en_l1 : L1InfoTreeDataQuerier;
  en_flow : AggsenderBuilderFlow;
  en_verifier : AggsenderVerifierFlow;
  en_contract : MultisigContract;
  en_newClient : string -> bool;
  en_client : string -> option Z -> FullCertificate -> Z -> result pollError (list Z);
  en_arrivals : list nat;
  en_SendCertificate : FullCertificate -> result (list Z) Z
}.

Record AggSender := mkAggSender {
  ag_storage : Storage;
  ag_status : AggsenderStatusType;
  ag_lastError : option aggError
}.

Definition SetStatus (a : AggSender) (st : AggsenderStatusType) : AggSender :=
  mkAggSender (ag_storage a) st (ag_lastError a).
Definition SetLastError (a : AggSender) (err : option aggError) : AggSender :=
  mkAggSender (ag_storage a) (ag_status a) err.
Definition set_storage (a : AggSender) (s : Storage) : AggSender := mkAggSender s (ag_status a) (ag_lastError a).

Definition err_of {E A} (r : result E A) : option E := match r with Ok _ => None | Err e => Some e end.

(** A step of the service on the storage: the storage it leaves, its effects and its result. *)
Definition act (A : Type) : Type := Storage -> option (Storage * list Effect * result aggError A).

Definition aret {A} (a : A) : act A := fun s => Some (s, [], Ok a).
Definition abind {A B} (c : act A) (k : A -> act B) : act B := fun s =>
  match c s with
  | None => None
  | Some (s1, es1, Err e) => Some (s1, es1, Err e)
  | Some (s1, es1, Ok a) =>
      match k a s1 with
      | None => None
      | Some (s2, es2, r) => Some (s2, es1 ++ es2, r)
      end
  end.
(** A computation that only reads the storage. *)
Definition aread {E A} (wrap : E -> aggError) (c : Storage -> option (result E A)) : act A := fun s =>
  match c s with
  | None => None
  | Some (Ok a) => Some (s, [], Ok a)
  | Some (Err e) => Some (s, [], Err (wrap e))
  end.
Definition aemit (es : list Effect) : act unit := fun s => Some (s, es, Ok tt).

Notation "'let*' x ':=' c 'in' k" := (abind c (fun x => k))
  (at level 10, x pattern, c at level 100, k at level 200) : go_scope.

Section Service.
Context `{Kc : Keccak} `{Ec : Ecdsa}.
Context (path_text : certPath -> list Z) (override : option (gmap string string)).
Context (cfg : AggConfig) (initialLER : Z) (backoffDelays : RetryBackoffConfig -> list Z).

(** [json.Marshal] of a certificate. *)
Context (marshal : FullCertificate -> option (list Z)).

Definition saveNonAcceptedCert (s : Storage) (cert : FullCertificate) (createdAt : Z) (certError : list Z) : Storage :=
  match marshal cert with
  | None => s
  | Some raw =>
      fst (SaveNonAcceptedCertificate path_text s
             (Some (mkNonAccepted (ct_Height (fl_cert cert)) (SignedContent raw) createdAt 0 certError)))
  end.

(** The loop of [saveCertificateToStorage]; [maxRetries = 0] never gives up. *)
Fixpoint saveCertificateToStorage (fuel : nat) (retries maxRetries : Z) (cert : StoredCertificate) (s : Storage)
  : option (Storage * result storageError unit) :=
  match fuel with
  | O => None
  | S fuel =>
      match SaveLastSentCertificate s cert with
      | (s, Ok _) => Some (s, Ok tt)
      | (s, Err e) =>
          if retries =? maxRetries then Some (s, Err e)
          else saveCertificateToStorage fuel (retries + 1) maxRetries cert s
      end
  end.

(** The header stored for a certificate the agglayer accepted; its status is the zero value. *)
Definition sentHeader (params : CertificateBuildParams) (cert : FullCertificate) (certificateHash : Z) : CertificateHeader :=
  mkCertificateHeader (ct_Height (fl_cert cert)) (bp_RetryCount params) certificateHash
    (Some (ct_PrevLocalExitRoot (fl_cert cert))) (ct_NewLocalExitRoot (fl_cert cert))
    (bp_FromBlock params) (bp_ToBlock params) Pending (bp_CreatedAt params) (bp_CreatedAt params)
    (Some (bp_L1InfoTreeRootFromWhichToProve params)) (bp_L1InfoTreeLeafCount params)
    (bp_CertificateType params) CertificateSourceLocal.

(** Submitting the certificate and recording the answer. *)
Definition submit (e : Env) (fuel : nat) (params : CertificateBuildParams) (cert : FullCertificate)
  : act (option FullCertificate) := fun s =>
  match en_SendCertificate e cert with
  | Err text =>
      Some (saveNonAcceptedCert s cert (bp_CreatedAt params) text, [EffSubmitted cert (Err text)], Err (AErrSend text))
  | Ok certificateHash =>
      match marshal cert with
      | None => Some (s, [EffSubmitted cert (Ok certificateHash)], Err AErrMarshal)
      | Some raw =>
          let certInfo := mkStoredCertificate (Some (sentHeader params cert certificateHash)) (Some (SignedContent raw))
                            (bp_AggchainProof params) (bp_ExtraData params) in
          match saveCertificateToStorage fuel 1 (cf_MaxRetriesStoreCertificate cfg) certInfo s with
          | None => None
          | Some (s, Err x) => Some (s, [EffSubmitted cert (Ok certificateHash)], Err (AErrSave x))
          | Some (s, Ok _) => Some (s, [EffSubmitted cert (Ok certificateHash)], Ok (Some cert))
          end
      end
  end.

(** The result of the local validation is only logged. *)
Definition localWarning (r : result pollError (list Z)) : list Effect :=
  match r with Err x => [EffLocalInvalid x] | Ok _ => [] end.

(** [Ok None]: nothing to send. *)
Definition sendCertificate (e : Env) (fuel : nat) : act (option FullCertificate) :=
  let* certificateParams := aread AErrFlow (fun s => fw_GetCertificateBuildParams (en_flow e) s (en_now e)) in
  match certificateParams with
  | None => aret None
  | Some params =>
      let* certificate := aread AErrFlow (fun s => Some (fw_BuildCertificate (en_flow e) s params)) in
      let* local := aread (A := result pollError (list Z)) AErrPoll (fun s => Ok <$>
        Local_ValidateAndSign (Lq := en_l1 e) (Cq := en_querier e) (en_verifier e) initialLER s certificate (bp_ToBlock params)) in
      let* _ := aemit (localWarning local) in
      let* multisig := aread AErrPoll (fun s =>
        PollValidators s (fw_Signer (en_flow e)) (en_contract e) override (en_newClient e) (en_client e) (en_arrivals e)
          (Some (mkValidationRequest (Some certificate) (bp_ToBlock params)))) in
      let* certificate := aread AErrFlow (fun s => Some (fw_UpdateAggchainData (en_flow e) certificate (Some multisig))) in
      if cf_DryRun cfg then aret (Some certificate)
      else submit e fuel params certificate
  end.

(** [errors.Is(err, flows.ErrComplete)]. *)
Fixpoint isErrComplete (err : aggError) : bool :=
  match err with
  | AErrFlow ErrComplete => true
  | AErrExecute (ExecAborted err) => isErrComplete err
  | AErrExecute (ExecFails _ (Some err)) => isErrComplete err
  | _ => false
  end.

(** [true]: the process stops. *)
Definition checkSendCertificateStopCondition (err : option aggError) : bool :=
  match err with
  | Some err => isErrComplete err && cf_StopOnFinishedSendingAllCertificates cfg
  | None => false
  end.

(** One attempt of [sendCertificateWithRetries], which remembers the error. *)
Definition sendAttempt (env : nat -> Env) (fuel : nat) (attempt : nat) (st : AggSender * list Effect)
  : option ((AggSender * list Effect) * result aggError (option FullCertificate)) :=
  let '(a, es) := st in
  match sendCertificate (env attempt) fuel (ag_storage a) with
  | None => None
  | Some (s, es', r) => Some ((SetLastError (set_storage a s) (err_of r), es ++ es'), r)
  end.

Definition sendCertificateWithRetries (env : nat -> Env) (cancelled : nat -> bool) (fuel : nat) (a : AggSender)
  : option (AggSender * list Effect * bool * result aggError (option FullCertificate)) :=
  match NewRetryHandler backoffDelays (cf_Retries cfg) with
  | Err e => Some (a, [], false, Err (AErrRetryConfig e))
  | Ok retryHandler =>
      match Execute isErrComplete cancelled (sendAttempt env fuel) fuel (Some retryHandler) (a, []) with
      | None => None
      | Some ((a, es), _, r) =>
          let r := match r with Ok c => Ok c | Err x => Err (AErrExecute x) end in
          Some (a, es, checkSendCertificateStopCondition (err_of r), r)
      end
  end.

(** ** The loop *)

Inductive LoopEvent :=
| CheckCertTick (check send : Env)
| SendTrigger (check : Env) (send : nat -> Env) (cancelled : nat -> bool).

Definition checkStatus (e : Env) (a : AggSender) : AggSender * (CertStatus * result checkerError unit) :=
  let '(s, r) := CheckPeriodicallyStatus (H := en_agglayer e) (H0 := en_querier e) (en_now e) (ag_storage a) in
  (set_storage a s, r).

(** A case of the select; the flag says that the process stops. *)
Definition onTick (check send : Env) (fuel : nat) (a : AggSender) : option (AggSender * list Effect * bool) :=
  let '(a, (checkResult, err)) := checkStatus check a in
  let sent :=
    match err with
    | Err e => Some (SetLastError a (Some (AErrChecker e)), [], false)
    | Ok _ =>
        if negb (ExistPendingCerts checkResult) && ExistNewInErrorCert checkResult && cf_RetryCertAfterInError cfg then
          match sendCertificate send fuel (ag_storage a) with
          | None => None
          | Some (s, es, r) =>
              Some (SetLastError (set_storage a s) (err_of r), es, checkSendCertificateStopCondition (err_of r))
          end
        else Some (a, [], false)
    end in
  match sent with
  | None => None
  | Some (a, es, true) => Some (a, es, true)
  | Some (a, es, false) =>
      if negb (ExistPendingCerts checkResult) && negb (ExistNewInErrorCert checkResult)
      then Some (a, es ++ [EffOnIdle], false)
      else Some (a, es, false)
  end.

Definition onTrigger (check : Env) (send : nat -> Env) (cancelled : nat -> bool) (fuel : nat) (a : AggSender)
  : option (AggSender * list Effect * bool) :=
  let '(a, (checkResult, err)) := checkStatus check a in
  match err with
  | Err e => Some (SetLastError a (Some (AErrChecker e)), [], false)
  | Ok _ =>
      if negb (ExistPendingCerts checkResult) then
        match sendCertificateWithRetries send cancelled fuel a with
        | None => None
        | Some (a, es, true, _) => Some (a, es, true)
        | Some (a, es, false, Err e) => Some (SetLastError a (Some e), es, false)
        | Some (a, es, false, Ok _) => Some (a, es, false)
        end
      else Some (a, [], false)
  end.

(** Without a check interval the ticker never fires. *)
Definition onEvent (fuel : nat) (ev : LoopEvent) (a : AggSender) : option (AggSender * list Effect * bool) :=
  match ev with
  | CheckCertTick check send =>
      if 0 <? cf_CheckStatusCertificateInterval cfg then onTick check send fuel a else Some (a, [], false)
  | SendTrigger check send cancelled => onTrigger check send cancelled fuel a
  end.

Fixpoint sendCertificates_loop (fuel : nat) (events : list LoopEvent) (a : AggSender)
  : option (AggSender * list Effect * bool) :=
  match events with
  | [] => Some (a, [], false)
  | ev :: events =>
      match onEvent fuel ev a with
      | None => None
      | Some (a, es, true) => Some (a, es, true)
      | Some (a, es, false) =>
          match sendCertificates_loop fuel events a with
          | None => None
          | Some (a, es', p) => Some (a, es ++ es', p)
          end
      end
  end.

Definition sendCertificates (fuel : nat) (events : list LoopEvent) (a : AggSender)
  : option (AggSender * list Effect * bool) :=
  let es := if 0 <? cf_CheckStatusCertificateInterval cfg then [] else [EffOnIdle] in
  match sendCertificates_loop fuel events (SetStatus a StatusCertificateStage) with
  | None => None
  | Some (a, es', p) => Some (a, es ++ es', p)
  end.

(** ** Starting *)

(** [CheckInitialStatus] of the status checker: one environment per iteration, until one succeeds; [false]
    when they are used up, that is, when the context ended. *)
Fixpoint CheckInitialStatus (envs : list Env) (a : AggSender) : AggSender * bool :=
  match envs with
  | [] => (a, false)
  | e :: envs =>
      let '(s, r) := CheckInitialStatus_iteration (H := en_agglayer e) (H0 := en_querier e) (en_now e) (ag_storage a) in
      let a := SetLastError (set_storage a s)
                 (match r with Ok _ => None | Err x => Some (AErrChecker x) end) in
      match r with
      | Ok _ => (a, true)
      | Err _ => CheckInitialStatus envs a
      end
  end.

(** [compatible] and [claimSyncerSet] are the results of the storage compatibility check and of setting the
    first block of the claim syncer; an error of either, or of the flow, stops the process. *)
Definition Start (compatible claimSyncerSet : bool) (initial : list Env) (flow : AggsenderBuilderFlow) (fuel : nat)
    (events : list LoopEvent) (a : AggSender) : option (AggSender * list Effect * bool) :=
  let a := SetStatus a StatusCheckingDBCompatibility in
  if negb compatible then Some (a, [], true)
  else
    let a := SetStatus a StartingClaimSyncerStage in
    if negb claimSyncerSet then Some (a, [], true)
    else
      let '(a, checked) := CheckInitialStatus initial (SetStatus a StatusCheckingInitialStage) in
      let a := SetStatus a StatusFlowCheckingInitialStage in
      match fw_CheckInitialStatus flow with
      | Err _ => Some (a, [], true)
      | Ok _ =>
          match sendCertificates fuel events a with
          | None => None
          | Some (a, es, p) => Some (a, EffTriggerSetup :: es, p)
          end
      end.

End Service.
