(* ===== verification/AggsenderProofs.v ===== *)
(** Properties of the aggsender service: what it submits continues what is settled, nothing is submitted while a
    certificate is undecided, and every certificate the agglayer accepted is in the local tables. *)

From S2P Require Import Prelude Bytes BlockRange Merkle AgglayerTypes CertStorage StatusChecker.
From S2P Require Import BuildParams Flow AdjustRange Validator Committee Retry Aggsender.

(** ** What the service relies on in a flow *)

(** The retry count of the certificate after [last]. *)
Definition next_retry (last : option CertificateHeader) : Z :=
  match last with
  | Some c => if bool_decide (ch_Status c = InError) then ch_RetryCount c + 1 else 0
  | None => 0
  end.

(** The certificate takes the place after [last]: the first of all, the one above a settled certificate, or
    another attempt at the height of one in error. *)
Definition follows (initialLER : Z) (last : option CertificateHeader) (cert : Certificate) : Prop :=
  match last with
  | None => ct_Height cert = 0 /\ ct_PrevLocalExitRoot cert = initialLER
  | Some c =>
      (ch_Status c = Settled /\ ct_Height cert = ch_Height c +u64 1 /\ ct_PrevLocalExitRoot cert = ch_NewLocalExitRoot c) \/
      (ch_Status c = InError /\ ct_Height cert = ch_Height c /\
       forall ler, ch_PreviousLocalExitRoot c = Some ler -> ct_PrevLocalExitRoot cert = ler)
  end.

Class FlowLaws (initialLER : Z) (f : AggsenderBuilderFlow) : Prop := {
  fl_params : forall s now p, fw_GetCertificateBuildParams f s now = Some (Ok (Some p)) ->
    GetLastSentCertificateHeader s = Ok (bp_LastSentCertificate p) /\
    bp_RetryCount p = next_retry (bp_LastSentCertificate p);
  fl_build : forall s p c, fw_BuildCertificate f s p = Ok c -> follows initialLER (bp_LastSentCertificate p) (fl_cert c);
  fl_update : forall c m c', fw_UpdateAggchainData f c m = Ok c' -> fl_cert c' = fl_cert c
}.

(** ** The pessimistic flow meets the laws *)

(** What the adjustment of the range never changes. *)
Definition same_origin (p q : CertificateBuildParams) : Prop :=
  bp_FromBlock q = bp_FromBlock p /\ bp_RetryCount q = bp_RetryCount p /\ bp_LastSentCertificate q = bp_LastSentCertificate p /\
  bp_CertificateType q = bp_CertificateType p /\
  bp_L1InfoTreeRootFromWhichToProve q = bp_L1InfoTreeRootFromWhichToProve p.

#[local] Instance same_origin_preorder : PreOrder same_origin.
Proof. unfold same_origin. split; [by intros p | intros p q r (-> & -> & -> & -> & ->); done]. Qed.

Lemma clone_origin p t q : cloneCertificateBuildParamsWithRange p (bp_FromBlock p) t = Ok q -> same_origin p q.
Proof. unfold cloneCertificateBuildParamsWithRange. cases; by intros [= <-]. Qed.

Lemma trim_origin p t q : trimCertificateToBlock p t = Ok q -> same_origin p q.
Proof. unfold trimCertificateToBlock. cases; try (by intros [= <-]). apply clone_origin. Qed.

Lemma adjustToMax_origin p o m b q : adjustToMaxL2Block p o m b = Ok q -> same_origin p q.
Proof. unfold adjustToMaxL2Block. intros H. inv_ok H as p1 H1. apply clone_origin in H1. by revert H; cases; intros [= <-]. Qed.

Section Origin.
Context `{Lq : L1InfoTreeDataQuerier} (f : baseFlow).

Lemma adjustBeforeSize_origin p o q c : adjustBeforeSize p o = Ok (q, c) -> same_origin p q.
Proof.
  unfold adjustBeforeSize. intros H. inv_ok H as p1 H1. inv_ok H as p2 H2. inv_ok H as u Hu.
  transitivity p1; [|transitivity p2].
  - revert H1. clear. unfold adjustMaxL2BlockNumber. cases; try (by intros [= <-]). apply adjustToMax_origin.
  - revert H2. clear. unfold adjustMaxL2BlockRange. cases; try (by intros [= <-]). apply adjustToMax_origin.
  - revert H. clear. unfold adjustClaimsNotProvableAgainstRoot. intros H. inv_ok H as [nur c1] Hl.
    destruct nur as [cl|]; [|by injection H as <- _]. revert H. cases; [done|]. intros H.
    inv_ok H as p3 H3. injection H as <- _. by apply trim_origin in H3.
Qed.

Lemma limitCertSize_origin fuel p q : limitCertSize f fuel p = Some (Ok q) -> same_origin p q.
Proof.
  revert p. induction fuel as [|fuel IH]; intros p; simpl; [done|]. cases; try (by intros [= <-]).
  destruct (cloneCertificateBuildParamsWithRange _ _ _) as [p1|] eqn:E; [|done].
  intros H. transitivity p1; [by eapply clone_origin | by apply IH].
Qed.

Lemma adjustInvalid_origin fuel p c q : adjustInvalidClaimsAreNotUnclaimed fuel p c = Some (Ok q) -> same_origin p q.
Proof.
  revert p c. induction fuel as [|fuel IH]; intros p c; simpl; [done|].
  destruct (findFirstMissingGERClaimWithoutFinalUnclaim p c) as [[[cl|] c1]|]; [|by intros [= <-]|done].
  cases; [done|]. destruct (trimCertificateToBlock _ _) as [p1|] eqn:E; [|done].
  intros H. transitivity p1; [by eapply trim_origin | by eapply IH].
Qed.

Lemma AdjustBlockRange_origin fuel p o q : AdjustBlockRange f fuel (Some p) o = Some (Ok q) -> same_origin p q.
Proof.
  unfold AdjustBlockRange. destruct (adjustBeforeSize p o) as [[p1 c]|] eqn:E1; [|done].
  apply adjustBeforeSize_origin in E1.
  destruct (if op_DisableSizeLimit o then _ else _) as [[p2|]|] eqn:E2; [|done..].
  intros H. transitivity p1; [done|]. transitivity p2; [|by eapply adjustInvalid_origin].
  destruct (op_DisableSizeLimit o); [by injection E2 as <- | by eapply limitCertSize_origin].
Qed.

End Origin.

Section PPLaws.
Context `{Kc : Keccak} `{Bq : BridgeQuerier} `{Lq : L1InfoTreeDataQuerier} `{Cq : CertificateQuerier}.

Lemma NextCertificateBlockRange_retry f last range retry :
  NextCertificateBlockRange f last = Ok (range, retry) -> retry = next_retry last /\ is_u64 (br_FromBlock range).
Proof.
  unfold NextCertificateBlockRange. intros H. inv_ok H as processed Hp. destruct processed as [synced|]; [|done].
  destruct (getLastSentBlockAndRetryCount f last) as [to r] eqn:Er. inv_ok H as to1 Ht. revert H.
  cases; [done|]. intros [= <- <-]. split; [|apply wrap64_range].
  unfold getLastSentBlockAndRetryCount, next_retry in *.
  destruct last as [c|]; [|by injection Er as _ <-]. by destruct (bool_decide _); injection Er as _ <-.
Qed.

Lemma BuildParamsInternal_origin f s now ct p :
  GetCertificateBuildParamsInternal f s now ct = Ok p ->
  GetLastSentCertificateHeader s = Ok (bp_LastSentCertificate p) /\
  bp_RetryCount p = next_retry (bp_LastSentCertificate p) /\
  is_u64 (bp_FromBlock p) /\ bp_CertificateType p = ct.
Proof.
  unfold GetCertificateBuildParamsInternal, GeneratePreBuildParams, GetLastCertificate. intros H.
  inv_ok H as pre Hpre. inv_ok Hpre as last Hlast. inv_ok Hpre as [range retry] Hr. inv_ok Hpre as root Hroot.
  injection Hpre as <-. apply NextCertificateBlockRange_retry in Hr as [-> Hu64].
  unfold GenerateBuildParams in H. cbn in H. inv_ok H as [bs cs] Hb. inv_ok H as us Hu. injection H as <-. simpl.
  split; [|done]. by destruct (GetLastSentCertificateHeader s); simplify_eq/=.
Qed.

Lemma getNextHeight_follows f s last h ler cert :
  getNextHeightAndPreviousLER f s last = Ok (h, ler) -> ct_Height cert = h -> ct_PrevLocalExitRoot cert = ler ->
  follows (bf_initialLER f) last cert.
Proof.
  unfold getNextHeightAndPreviousLER, follows. intros H <- <-. destruct last as [c|]; [|by injection H as <- <-].
  destruct (IsClosed (ch_Status c)); simpl in H; [|done]. unfold IsSettled, IsInError in H.
  case_bool_decide as Hs; [injection H as <- <-; by left|].
  case_bool_decide as He; [|done]. right. destruct (ch_PreviousLocalExitRoot c) as [prev|].
  - injection H as <- <-. split_and!; [done..|]. by intros ? [= <-].
  - destruct (Z.eqb_spec (ch_Height c) 0) as [Hz|]; [injection H as <- <-; by rewrite Hz|].
    inv_ok H as settled Hset. destruct settled as [settled|]; [|done].
    destruct (negb _); [done|]. by injection H as <- <-.
Qed.

(** The pessimistic-proof flow is a flow the service can rely on. *)
#[global] Instance ppBuilderFlow_laws fuel p signer : FlowLaws (bf_initialLER (pf_baseFlow p)) (ppBuilderFlow fuel p signer).
Proof.
  split; cbn.
  - intros s now q. unfold PP_GetCertificateBuildParams.
    destruct (GetCertificateBuildParamsInternal _ _ _ _) as [p0|[]] eqn:E; try done.
    apply BuildParamsInternal_origin in E as (E1 & E2 & _).
    destruct (pf_forceOneBridgeExit p && _); [done|]. destruct (IsEmpty p0); [done|]. intros H.
    apply obind_Ok in H as (q1 & Hq & H). apply obind_Ok in H as (u & _ & H). injection H as <-.
    by apply AdjustBlockRange_origin in Hq as (_ & -> & -> & _).
  - intros s q c H. inv_ok H as cert Hc. injection H as <-. unfold PP_BuildCertificate, BuildCertificate in Hc.
    destruct (negb false && IsEmpty q); [done|]. inv_ok Hc as ibes Hi. inv_ok Hc as [h ler] Hh.
    inv_ok Hc as newLER Hn. injection Hc as <-. by eapply getNextHeight_follows.
  - intros c [m|] c' [= <-]; done.
Qed.

End PPLaws.

(** ** The log of certificates *)

Section Log.

(** Every attempt of every height is kept, under the default policy, and the heights are below a bound. *)
Record log_ok (B : Z) (s : Storage) : Prop := {
  lo_policy : st_retainPolicy s = NewStorageRetainCertificatesPolicyDefault;
  lo_log : exists A, attempts_rel s A;
  lo_height : forall h c, cert_info s !! h = Some c -> 0 <= h < B
}.

(** A certificate identifier that is in one of the tables. *)
Definition recorded (s : Storage) (id : Z) : Prop :=
  (exists h c, cert_info s !! h = Some c /\ ci_CertificateID c = id) \/
  (exists k c, cert_history s !! k = Some c /\ ci_CertificateID c = id).

(** From [s] to [s'] the log stays a log and forgets nothing. *)
Definition keeps (B : Z) (s s' : Storage) : Prop :=
  log_ok B s -> log_ok B s' /\ forall id, recorded s id -> recorded s' id.

#[global] Instance keeps_preorder B : PreOrder (keeps B).
Proof.
  split; [by intros s|]. intros s1 s2 s3 H12 H23 H1. destruct (H12 H1) as [H2 Hr]. destruct (H23 H2) as [H3 Hr'].
  split; [done|]. auto.
Qed.

Lemma log_ok_weaken B B' s : B <= B' -> log_ok B s -> log_ok B' s.
Proof. intros Hle [Hp Hl Hh]. split; [done..|]. intros h c Hc. specialize (Hh h c Hc). lia. Qed.

(** Changing the last attempt of a height, with its height and number kept. *)
Definition map_last (f : certificateInfo -> certificateInfo) (l : list certificateInfo) : list certificateInfo :=
  match last l with
  | None => []
  | Some c => removelast l ++ [f c]
  end.

Lemma map_last_snoc f l c : map_last f (l ++ [c]) = l ++ [f c].
Proof. unfold map_last. by rewrite last_snoc, removelast_last. Qed.

Lemma attempts_rel_map_last s s' A f :
  (forall c, ci_Height (f c) = ci_Height c /\ ci_RetryCount (f c) = ci_RetryCount c) ->
  cert_info s' = f <$> cert_info s -> cert_history s' = cert_history s ->
  attempts_rel s A -> attempts_rel s' (fun h => map_last f (A h)).
Proof.
  intros Hf Hi Hh [Ha1 Ha2 Ha3]. split.
  - intros h. rewrite Hi, lookup_fmap, Ha1. destruct (A h) as [|c l _] using rev_ind; [done|].
    by rewrite map_last_snoc, !last_snoc.
  - intros h r. rewrite Hh, Ha2. destruct (A h) as [|c l _] using rev_ind; [done|].
    by rewrite map_last_snoc, !removelast_last.
  - intros h i c Hc. specialize (Ha3 h). destruct (A h) as [|c0 l _] using rev_ind; [done|].
    rewrite map_last_snoc in Hc. apply lookup_app_Some in Hc as [Hc|[Hlen Hc]].
    + apply Ha3. by apply lookup_app_l_Some.
    + apply list_lookup_singleton_Some in Hc as [Hi0 <-]. destruct (Hf c0) as [-> ->]. apply Ha3.
      rewrite lookup_app_r by done. by rewrite Hi0.
Qed.

Lemma map_last_keeps B s s' f :
  (forall c, ci_Height (f c) = ci_Height c /\ ci_RetryCount (f c) = ci_RetryCount c /\
     ci_CertificateID (f c) = ci_CertificateID c) ->
  cert_info s' = f <$> cert_info s -> cert_history s' = cert_history s -> st_retainPolicy s' = st_retainPolicy s ->
  keeps B s s'.
Proof.
  intros Hf Hi Hh Hp [Hpol [A HA] Hb]. split.
  - split; [congruence | |].
    + eexists. eapply attempts_rel_map_last; [|done|done|done]. intros c. by destruct (Hf c) as (-> & -> & _).
    + intros h c. rewrite Hi, lookup_fmap. intros (c0 & Hc & _)%fmap_Some. by eapply Hb.
  - intros id [(h & c & Hc & Hid)|(k & c & Hc & Hid)]; [left | right].
    + exists h, (f c). rewrite Hi, lookup_fmap, Hc. split; [done|]. by destruct (Hf c) as (_ & _ & ->).
    + exists k, c. by rewrite Hh.
Qed.

Lemma UpdateCertificateStatus_keeps B s id st t : keeps B s (UpdateCertificateStatus s id st t).
Proof.
  apply (map_last_keeps B s _ (fun c => if ci_CertificateID c =? id then setStatus c st t else c)); [|done..].
  intros c. by destruct (_ =? _).
Qed.

Lemma last_None_nil {A} (l : list A) : last l = None -> l = [].
Proof. destruct l as [|x l _] using rev_ind; [done|]. by rewrite last_snoc. Qed.

Lemma add_attempt_keeps B s s' A c :
  attempts_rel s A -> ci_RetryCount c = Z.of_nat (length (A (ci_Height c))) -> 0 <= ci_Height c < B ->
  cert_info s' = <[ci_Height c := c]> (cert_info s) ->
  cert_history s' =
    match last (A (ci_Height c)) with
    | Some c0 => <[(ci_Height c, ci_RetryCount c0) := c0]> (cert_history s)
    | None => cert_history s
    end ->
  st_retainPolicy s' = st_retainPolicy s -> keeps B s s' /\ (log_ok B s -> recorded s' (ci_CertificateID c)).
Proof.
  intros HA Hr Hb Hi Hh Hp.
  split; [|intros _; left; exists (ci_Height c), c; by rewrite Hi, lookup_insert_eq].
  intros [Hpol _ Hbound]. split.
  - split; [congruence | eexists; by eapply attempts_rel_add|]. intros h d. rewrite Hi.
    intros [[<- <-]|[_ Hd]]%lookup_insert_Some; [done | by eapply Hbound].
  - intros id [(h & d & Hd & Hid)|(k & d & Hd & Hid)].
    + destruct (decide (h = ci_Height c)) as [->|Hne].
      * right. rewrite (ar_info _ _ HA) in Hd. rewrite Hd in Hh. exists (ci_Height c, ci_RetryCount d), d.
        by rewrite Hh, lookup_insert_eq.
      * left. exists h, d. by rewrite Hi, lookup_insert_ne.
    + right. destruct (last (A (ci_Height c))) as [c0|] eqn:El; [|exists k, d; by rewrite Hh].
      destruct (decide (k = (ci_Height c, ci_RetryCount c0))) as [->|Hne];
        [|exists k, d; by rewrite Hh, lookup_insert_ne].
      exfalso. rewrite (ar_history _ _ HA) in Hd. destruct (A (ci_Height c)) as [|x l _] eqn:EA using rev_ind; [done|].
      rewrite last_snoc in El. injection El as ->.
      destruct (ar_rows _ _ HA (ci_Height c) (length l) c0) as [_ Hrc]. { rewrite EA. by apply list_lookup_middle. }
      rewrite Hrc, removelast_last, (proj2 (Z.leb_le _ _)), Nat2Z.id in Hd by lia.
      apply lookup_lt_Some in Hd. lia.
Qed.

Lemma SaveOrUpdate_keeps B s cert hdr :
  sc_Header cert = Some hdr -> ch_RetryCount hdr = 0 -> 0 <= ch_Height hdr < B ->
  keeps B s (fst (SaveOrUpdateCertificate s cert)).
Proof.
  intros Hhdr Hretry Hheight. unfold SaveOrUpdateCertificate, convertCertificateToCertificateInfo. rewrite Hhdr.
  set (info := mkCertificateInfo hdr _ _ _). destruct (handleCertificateFile s info) as [s1 c1] eqn:Hf.
  destruct (handleCertificateFile_facts _ _ _ _ Hf) as (Ht & Hp & Hh1 & _).
  assert (cert_info s1 = cert_info s) as Hci by (unfold cert_info; by rewrite Ht).
  assert (cert_history s1 = cert_history s) as Hch by (unfold cert_history; by rewrite Ht).
  assert (ci_Height c1 = ch_Height hdr) as Hc1 by (unfold ci_Height; by rewrite Hh1).
  assert (ci_RetryCount c1 = 0) as Hr1 by (unfold ci_RetryCount; by rewrite Hh1).
  destruct (cert_info s1 !! ci_Height c1) as [old|] eqn:Hold; cbn [fst].
  - apply (map_last_keeps B s _ (fun c => if ci_CertificateID c =? ci_CertificateID c1
      then setStatus c (ci_Status c1) (ch_UpdatedAt (ci_Header c1)) else c)); [|by rewrite <- Hci|done|done].
    intros c. by destruct (_ =? _).
  - unfold insert_info. rewrite Hold. cbn [fst]. intros Hlog. pose proof (lo_log _ _ Hlog) as [A HA].
    assert (last (A (ci_Height c1)) = None) as Hnone by (rewrite <- (ar_info _ _ HA); by rewrite <- Hci).
    destruct (add_attempt_keeps B s (set_info s1 (<[ci_Height c1:=c1]> (cert_info s1))) A c1) as [Hk _]; [done| |lia|..].
    + rewrite (last_None_nil _ Hnone), Hr1. done.
    + by rewrite <- Hci.
    + rewrite Hnone. done.
    + done.
    + by apply Hk.
Qed.

End Log.

(** ** The status checks keep the log *)

Section Checks.
Context `{Ac : AgglayerClient} `{Cq : CertificateQuerier} (now B : Z).

(** The heights the agglayer reports are below the bound. *)
Definition headers_below : Prop :=
  forall hdr, GetLatestSettledCertificateHeader = Ok (Some hdr) \/ GetLatestPendingCertificateHeader = Ok (Some hdr) ->
  0 <= ah_Height hdr < B.

Lemma updateCertificateStatus_keeps s l a s' l' :
  updateCertificateStatus now s l a = (s', l') -> keeps B s s'.
Proof.
  unfold updateCertificateStatus. case_bool_decide; intros [= <- _]; [done|]. apply UpdateCertificateStatus_keeps.
Qed.

Lemma checkPending_loop_keeps s certs p e s' r : checkPending_loop now s certs p e = (s', r) -> keeps B s s'.
Proof.
  revert s p e. induction certs as [|c certs IH]; intros s p e; simpl; [by intros [= <- _]|].
  destruct (GetCertificateHeader (ch_CertificateID c)) as [h|]; [|by intros [= <- _]].
  destruct (updateCertificateStatus now s c h) as [s1 c1] eqn:Hu. intros Hl.
  transitivity s1; [by eapply updateCertificateStatus_keeps | by eapply IH].
Qed.

Lemma checkPending_keeps s s' st : checkPendingCertificatesStatus now s = (s', st) -> keeps B s s'.
Proof.
  unfold checkPendingCertificatesStatus. destruct (checkPending_loop _ _ _ _ _) as [s1 [[p e]|]] eqn:E;
    intros [= <- _]; by eapply checkPending_loop_keeps.
Qed.

Lemma executeAction_keeps s a l s' l' r :
  (forall c, a = InitialStatusActionInsertNewCert c -> 0 <= ah_Height c < B) ->
  executeInitialStatusAction now s a l = (s', l', r) -> keeps B s s'.
Proof.
  intros Hc. destruct a as [|c|c]; cbn [executeInitialStatusAction]; [by intros [= <- _ _]| |].
  - destruct l as [l|]; [|by intros [= <- _ _]].
    destruct (updateCertificateStatus now s l c) as [s1 l1] eqn:E. intros [= <- _ _].
    by eapply updateCertificateStatus_keeps.
  - destruct (IsInError _); [by intros [= <- _ _]|]. destruct (IsOpen _); [by intros [= <- _ _]|].
    unfold updateLocalStorageWithSettledAggLayerCert, newSettledCertificateInfoFromAgglayerCertHeader.
    destruct (GetLastSettledCertificateToBlock (Some c)) as [to|]; cbn [rbind]; [|by intros [= <- _ _]].
    set (cert := mkStoredCertificate _ _ _ _). intros Hrun.
    assert (s' = fst (SaveOrUpdateCertificate s cert)) as ->
      by (revert Hrun; unfold lift_storage; by destruct (SaveOrUpdateCertificate s cert) as [s1 []]; intros [= <- _ _]).
    eapply SaveOrUpdate_keeps; [done | done | by apply Hc].
Qed.

Lemma executeActions_keeps s as_ l s' r :
  (forall c, In (InitialStatusActionInsertNewCert c) as_ -> 0 <= ah_Height c < B) ->
  executeActions now s as_ l = (s', r) -> keeps B s s'.
Proof.
  revert s l. induction as_ as [|a as_ IH]; intros s l Hc; cbn [executeActions]; [by intros [= <- _]|].
  destruct (executeInitialStatusAction now s a l) as [[s1 l1] [u|e]] eqn:E.
  - intros Hl. transitivity s1.
    + eapply executeAction_keeps; [|exact E]. intros c ->. apply Hc. by left.
    + eapply IH; [|exact Hl]. intros c Hin. apply Hc. by right.
  - intros [= <- _]. eapply executeAction_keeps; [|exact E]. intros c ->. apply Hc. by left.
Qed.

(** What is inserted comes from the agglayer's headers. *)
Lemma process_inserts i actions c :
  process i = Ok actions -> In (InitialStatusActionInsertNewCert c) actions ->
  is_AgglayerLastSettledCert i = Some c \/ is_AgglayerLastPendingCert i = Some c.
Proof.
  unfold process. intros H. inv_ok H as u Hu. inv_ok H as a Ha. inv_ok H as sa Hsa. injection H as <-. intros [ -> | Hin ].
  - revert Ha. clear. unfold processLastLocalCert, processLastLocalCert_cases, getLatestAggLayerCert.
    destruct (is_LocalLastCert i), (is_AgglayerLastSettledCert i), (is_AgglayerLastPendingCert i); cases; naive_solver.
  - revert Hsa Hin. clear. unfold processLastSettledCert.
    destruct (is_AgglayerLastPendingCert i), (is_AgglayerLastSettledCert i), (is_LocalLastSettledCert i); cases; naive_solver.
Qed.

Lemma checkLast_keeps s s' r : headers_below -> checkLastCertificateFromAgglayer now s = (s', r) -> keeps B s s'.
Proof.
  intros Hb. unfold checkLastCertificateFromAgglayer. destruct (newInitialStatus s) as [i|e] eqn:Hi; [|by intros [= <- _]].
  destruct (process i) as [actions|e] eqn:Hp; [|by intros [= <- _]]. apply executeActions_keeps.
  intros c Hin. apply Hb. unfold newInitialStatus in Hi.
  inv_ok Hi as settled Hs. inv_ok Hi as pending Hpd. inv_ok Hi as ll Hl. inv_ok Hi as ls Hls. injection Hi as <-.
  pose proof (process_inserts _ _ _ Hp Hin) as Hcase. simpl in Hcase. destruct Hcase as [ -> | -> ]; [by left | by right].
Qed.

Lemma CheckPeriodically_keeps s s' r : headers_below -> CheckPeriodicallyStatus now s = (s', r) -> keeps B s s'.
Proof.
  intros Hb. unfold CheckPeriodicallyStatus. destruct (checkLastCertificateFromAgglayer now s) as [s1 e] eqn:E1.
  destruct (checkPendingCertificatesStatus now s1) as [s2 st] eqn:E2. intros [= <- _].
  transitivity s1; [by eapply checkLast_keeps | by eapply checkPending_keeps].
Qed.

Lemma CheckInitial_keeps s s' r : headers_below -> CheckInitialStatus_iteration now s = (s', r) -> keeps B s s'.
Proof.
  intros Hb. unfold CheckInitialStatus_iteration. destruct (checkPendingCertificatesStatus now s) as [s1 st] eqn:E1.
  intros E2. transitivity s1; [by eapply checkPending_keeps | by eapply checkLast_keeps].
Qed.

(** ** No open certificate after a check that found none *)

Definition no_open (s : Storage) : Prop := forall h c, cert_info s !! h = Some c -> IsOpen (ci_Status c) = false.

Lemma checkPending_loop_closes certs s p e s' e' :
  Forall (fun c => IsOpen (ch_Status c) = true) certs ->
  (forall h c, cert_info s !! h = Some c -> IsOpen (ci_Status c) = true -> ci_CertificateID c ∈ map ch_CertificateID certs) ->
  checkPending_loop now s certs p e = (s', Ok (false, e')) -> no_open s'.
Proof.
  revert s p e. induction certs as [|c certs IH]; intros s p e Hopen Hids; simpl.
  { intros [= <- -> _] h c Hc. destruct (IsOpen (ci_Status c)) eqn:E; [|done].
    specialize (Hids h c Hc E). by apply elem_of_nil in Hids. }
  apply Forall_cons in Hopen as [Hc Hopen]. destruct (GetCertificateHeader (ch_CertificateID c)) as [hdr|]; [|done].
  unfold updateCertificateStatus. destruct (IsOpen (ah_Status hdr)) eqn:Ho.
  - (* still open: the flag is raised *)
    assert (forall s p e s' e', p = true -> checkPending_loop now s certs p e <> (s', Ok (false, e'))) as Hno.
    { clear. induction certs as [|c certs IH]; intros s p e s' e' ->; simpl; [congruence|].
      destruct (GetCertificateHeader _); [|done]. destruct (updateCertificateStatus _ _ _ _). by apply IH. }
    case_bool_decide as Heq.
    + intros Hl. exfalso. eapply Hno; [|exact Hl]. unfold IsClosed. rewrite Hc. simpl. apply orb_true_r.
    + intros Hl. exfalso. eapply Hno; [|exact Hl]. cbn. unfold IsClosed. rewrite Ho. simpl. apply orb_true_r.
  - rewrite bool_decide_false by congruence. cbn [ch_Status ch_CertificateID setHeaderStatus setStatus ci_Header].
    apply IH; [done|]. intros h d. rewrite UpdateCertificateStatus_info, updateCertStatus_lookup.
    intros (d0 & Hd & ->)%fmap_Some Hod. cbn in Hod |- *. destruct (Z.eqb_spec (ci_CertificateID d0) (ch_CertificateID c)) as [E|E].
    + cbn in Hod. unfold ci_Status in Hod. simpl in Hod. congruence.
    + specialize (Hids h d0 Hd Hod). apply elem_of_cons in Hids as [Hids|Hids]; [done | exact Hids].
Qed.

Lemma checkPending_no_open s s' st :
  checkPendingCertificatesStatus now s = (s', st) -> ExistPendingCerts st = false -> no_open s'.
Proof.
  unfold checkPendingCertificatesStatus. destruct (checkPending_loop _ _ _ _ _) as [s1 [[p e]|]] eqn:E; intros [= <- <-]; [|done].
  simpl. intros ->. eapply checkPending_loop_closes; [| |exact E].
  - apply Forall_forall. intros hdr Hin. apply list_elem_of_In, pending_In in Hin as (h & c & _ & <- & Ho). done.
  - intros h c Hc Ho. apply list_elem_of_fmap. exists (ci_Header c). split; [done|].
    apply list_elem_of_In, pending_In. eauto.
Qed.

Lemma CheckPeriodically_no_open s s' st err :
  CheckPeriodicallyStatus now s = (s', (st, err)) -> ExistPendingCerts st = false -> no_open s'.
Proof.
  unfold CheckPeriodicallyStatus. destruct (checkLastCertificateFromAgglayer now s) as [s1 e] eqn:E1.
  destruct (checkPendingCertificatesStatus now s1) as [s2 st2] eqn:E2. intros [= <- <- _]. by eapply checkPending_no_open.
Qed.

End Checks.

(** ** The place of the next certificate *)

Lemma fold_last_row_max l best c :
  fold_left last_row_step l best = Some c ->
  (forall b, best = Some b -> ci_Height b <= ci_Height c) /\ (forall x, In x l -> ci_Height x <= ci_Height c).
Proof.
  revert best. induction l as [|x l IH]; intros best; simpl; [intros ->; split; [by intros b [= ->] | done]|].
  intros Hf. apply IH in Hf as [Hb Hl]. unfold last_row_step, higher in Hb. destruct best as [b|].
  - specialize (Hb _ eq_refl). destruct (Z.ltb_spec (ci_Height b) (ci_Height x)); split; try (intros ? [= <-]; lia);
      intros y [->|Hy]; auto; lia.
  - specialize (Hb _ eq_refl). split; [done|]. intros y [->|Hy]; auto.
Qed.

Lemma fold_last_row_None l best : fold_left last_row_step l best = None -> best = None /\ l = [].
Proof.
  revert best. induction l as [|x l IH]; intros best; simpl; [done|]. intros Hf. apply IH in Hf as [Hf _].
  unfold last_row_step in Hf. by destruct best.
Qed.

(** The last certificate sent is the row of the greatest height; there is none only in an empty table. *)
Lemma GetLastSent_max s last :
  keyed s -> GetLastSentCertificateHeader s = Ok last ->
  match last with
  | None => cert_info s = ∅
  | Some l => (exists c, cert_info s !! ch_Height l = Some c /\ ci_Header c = l) /\
      forall h c, cert_info s !! h = Some c -> h <= ch_Height l
  end.
Proof.
  intros Hk. unfold GetLastSentCertificateHeader, getSelectQueryError.
  destruct (last_row _ _) as [c|] eqn:E; simpl; intros [= <-].
  - split.
    + apply last_row_In in E as (_ & h & Hc). exists c. split; [|done].
      change (ch_Height (ci_Header c)) with (ci_Height c). by rewrite (Hk h c Hc).
    + intros h d Hd. unfold last_row in E. apply fold_last_row_max in E as [_ Hmax]. rewrite <- (Hk h d Hd).
      apply Hmax, bfilter_In. split; [|done]. apply in_map_iff. exists (h, d). split; [done|].
      apply list_elem_of_In. by apply elem_of_map_to_list.
  - unfold last_row in E. apply fold_last_row_None in E as [_ E]. apply map_to_list_empty_iff.
    rewrite bfilter_all in E by done. by apply map_eq_nil in E.
Qed.

Lemma attempts_keyed s A : attempts_rel s A -> keyed s.
Proof.
  intros HA h c Hc. rewrite (ar_info _ _ HA), last_lookup in Hc. by destruct (ar_rows _ _ HA _ _ _ Hc).
Qed.

(** The certificate after the last one is a new attempt of its height, with its number. *)
Lemma next_attempt B s A last cert initialLER :
  attempts_rel s A -> log_ok B s -> 0 <= B < pow2_64 ->
  GetLastSentCertificateHeader s = Ok last -> follows initialLER last cert ->
  next_retry last = Z.of_nat (length (A (ct_Height cert))) /\ 0 <= ct_Height cert < B + 1.
Proof.
  intros HA Hlog HB Hlast Hf. pose proof (GetLastSent_max s last (attempts_keyed _ _ HA) Hlast) as Hmax.
  destruct last as [l|]; simpl in Hf; unfold next_retry.
  - destruct Hmax as [(c & Hc & Hhdr) Hmax]. pose proof (lo_height _ _ Hlog _ _ Hc) as Hb.
    destruct Hf as [(Hst & Hh & _)|(Hst & Hh & _)].
    + rewrite add64_small in Hh by (unfold_words; lia). rewrite bool_decide_false by congruence. split; [|lia].
      assert (A (ct_Height cert) = []) as ->; [|done]. apply last_None_nil. rewrite <- (ar_info _ _ HA), Hh.
      destruct (cert_info s !! (ch_Height l + 1)) as [d|] eqn:Hd; [|done]. specialize (Hmax _ _ Hd). lia.
    + rewrite bool_decide_true by done. split; [|lia]. rewrite Hh. rewrite (ar_info _ _ HA), last_lookup in Hc.
      pose proof (lookup_lt_Some _ _ _ Hc) as Hlen. destruct (ar_rows _ _ HA _ _ _ Hc) as [_ Hrc].
      unfold ci_RetryCount in Hrc. rewrite Hhdr in Hrc. rewrite Hrc. lia.
  - destruct Hf as [-> _]. split; [|lia]. assert (A 0 = []) as ->; [|done]. apply last_None_nil.
    by rewrite <- (ar_info _ _ HA), Hmax.
Qed.

(** ** Saving what was sent *)

Lemma SaveLastSent_policy s cert : st_retainPolicy (fst (SaveLastSentCertificate s cert)) = st_retainPolicy s.
Proof.
  assert (forall s h, st_retainPolicy (fst (deleteFromInfo s h)) = st_retainPolicy s) as Hdi.
  { intros s0 h. unfold deleteFromInfo. destruct (rows_of_option _) eqn:E; [done|]. rewrite <- E. simpl.
    by apply deleteCertificateFiles_tables. }
  assert (forall s h, st_retainPolicy (fst (deleteFromHistory s h)) = st_retainPolicy s) as Hdh.
  { intros s0 h. unfold deleteFromHistory. destruct (rows_at _ _) eqn:E; [done|]. rewrite <- E. simpl.
    by apply deleteCertificateFiles_tables. }
  assert (forall r s h n, st_retainPolicy (fst (OnNewCert r s h n)) = st_retainPolicy s) as Hon.
  { intros r s0 h n. unfold OnNewCert. destruct (0 <? n).
    - destruct (rp_KeepCertificatesHistory r).
      + unfold MoveCertificateToHistory. destruct (cert_info s0 !! h); [|apply Hdi].
        destruct (cert_history s0 !! _); [done|]. by rewrite Hdi.
      + unfold DeleteCertificate. pose proof (Hdi s0 h) as H1. destruct (deleteFromInfo s0 h) as [s1 [u|e]]; simpl in H1.
        * pose proof (Hdh s1 h) as H2. destruct (deleteFromHistory s1 h) as [s2 []]; simpl in *; congruence.
        * destruct (_ || _); [done|]. pose proof (Hdh s1 h) as H2.
          destruct (deleteFromHistory s1 h) as [s2 []]; simpl in *; congruence.
    - cases; try done. unfold DeleteOldCertificates. cases; [done|]. simpl. apply deleteCertificateFiles_tables. }
  unfold SaveLastSentCertificate. destruct (convertCertificateToCertificateInfo cert) as [info|]; [|done].
  destruct (handleCertificateFile s info) as [s1 c1] eqn:Hf. apply handleCertificateFile_facts in Hf as (_ & Hp & _).
  pose proof (Hon (st_retainPolicy s1) s1 (ci_Height c1) (ci_RetryCount c1)) as H1.
  destruct (OnNewCert _ _ _ _) as [s2 [u|e]]; simpl in H1 |- *; [|congruence].
  unfold insert_info. destruct (cert_info s2 !! _); simpl; congruence.
Qed.

(** The identifiers in the tables are those of the attempts. *)
Lemma recorded_attempts s A id :
  attempts_rel s A -> recorded s id <-> exists h c, In c (A h) /\ ci_CertificateID c = id.
Proof.
  intros HA. split.
  - intros [(h & c & Hc & Hid)|([h r] & c & Hc & Hid)].
    + exists h, c. rewrite (ar_info _ _ HA), last_lookup in Hc. split; [|done].
      apply list_elem_of_In. by eapply list_elem_of_lookup_2.
    + exists h, c. rewrite (ar_history _ _ HA) in Hc. destruct (0 <=? r); [|done]. split; [|done].
      destruct (A h) as [|x l _] using rev_ind; [done|]. rewrite removelast_last in Hc. apply in_app_iff. left.
      apply list_elem_of_In. by eapply list_elem_of_lookup_2.
  - intros (h & c & Hin & Hid). apply list_elem_of_In, list_elem_of_lookup in Hin as [i Hi].
    pose proof (ar_info _ _ HA h) as Hinfo. pose proof (ar_history _ _ HA h (Z.of_nat i)) as Hhist.
    destruct (A h) as [|x l _] using rev_ind; [done|]. apply lookup_app_Some in Hi as [Hi|[_ Hi]].
    + right. exists (h, Z.of_nat i), c. split; [|done]. rewrite Hhist, removelast_last.
      rewrite (proj2 (Z.leb_le _ _)), Nat2Z.id by lia. done.
    + left. apply list_lookup_singleton_Some in Hi as [_ <-]. exists h, x. split; [|done]. by rewrite Hinfo, last_snoc.
Qed.

Lemma SaveLastSent_log B s cert hdr initialLER last c :
  log_ok B s -> 0 <= B < pow2_64 -> sc_Header cert = Some hdr ->
  GetLastSentCertificateHeader s = Ok last -> follows initialLER last c ->
  ch_Height hdr = ct_Height c -> ch_RetryCount hdr = next_retry last ->
  exists s', SaveLastSentCertificate s cert = (s', Ok tt) /\ log_ok (B + 1) s' /\
    (forall id, recorded s id -> recorded s' id) /\ recorded s' (ch_CertificateID hdr).
Proof.
  intros Hlog HB Hhdr Hlast Hf Hh Hr. pose proof (lo_log _ _ Hlog) as [A HA].
  destruct (next_attempt B s A last c initialLER HA Hlog HB Hlast Hf) as [Hretry Hheight].
  destruct (SaveLastSentCertificate_run s A cert hdr HA) as (s' & Hrun & HA' & Hrow); [apply Hlog | done | congruence|].
  exists s'. split; [done|]. set (row := saved_row s hdr cert) in *.
  assert (ci_Header row = hdr) as Hrowh.
  { unfold row, saved_row. destruct (handleCertificateFile _ _) as [s1 c1] eqn:E.
    apply handleCertificateFile_facts in E as (_ & _ & E & _). exact E. }
  split; [|split].
  - split.
    + pose proof (SaveLastSent_policy s cert) as Hp. rewrite Hrun in Hp. simpl in Hp. rewrite Hp. apply Hlog.
    + by eexists.
    + intros h d Hd. rewrite (ar_info _ _ HA') in Hd. unfold add_attempt in Hd.
      destruct (Z.eqb_spec h (ci_Height row)) as [->|Hne].
      * unfold ci_Height. rewrite Hrowh. lia.
      * rewrite <- (ar_info _ _ HA) in Hd. apply (lo_height _ _ Hlog) in Hd. lia.
  - intros id. rewrite (recorded_attempts s A id HA), (recorded_attempts s' _ id HA'). intros (h & d & Hd & Hid).
    exists h, d. split; [|done]. unfold add_attempt. destruct (_ =? _); [apply in_app_iff; by left | done].
  - left. exists (ch_Height hdr), row. split; [done|]. unfold ci_CertificateID. by rewrite Hrowh.
Qed.

(** ** One attempt to send *)

Lemma aread_bind {E A C} (wrap : E -> aggError) (c : Storage -> option (result E A)) (k : A -> act C) s :
  abind (aread wrap c) k s =
  match c s with
  | None => None
  | Some (Err e) => Some (s, [], Err (wrap e))
  | Some (Ok a) => k a s
  end.
Proof. unfold abind, aread. destruct (c s) as [[a|e]|]; [|done..]. by destruct (k a s) as [[[]]|]. Qed.

Lemma aemit_bind {C} es (k : unit -> act C) s :
  abind (aemit es) k s = match k tt s with None => None | Some (s2, es2, r) => Some (s2, es ++ es2, r) end.
Proof. done. Qed.

Section ServiceProofs.
Context `{Kc : Keccak} `{Ec : Ecdsa}.
Context (path_text : certPath -> list Z) (override : option (gmap string string)).
Context (cfg : AggConfig) (initialLER : Z) (backoffDelays : RetryBackoffConfig -> list Z).
Context (marshal : FullCertificate -> option (list Z)) (Hmarshal : forall c, is_Some (marshal c)).

Abbreviation sendCertificate := (sendCertificate path_text override cfg initialLER marshal).
Abbreviation submit := (submit path_text cfg marshal).

(** What an attempt to send does to the log, and what it submits. *)
Record attempt_spec (B : Z) (s s' : Storage) (es : list Effect) (r : result aggError (option FullCertificate)) : Prop := {
  as_log : log_ok (B + 1) s';
  as_grows : forall id, recorded s id -> recorded s' id;
  as_recorded : forall cert id, In (EffSubmitted cert (Ok id)) es -> recorded s' id;
  as_follows : forall cert ans, In (EffSubmitted cert ans) es ->
    exists last, GetLastSentCertificateHeader s = Ok last /\ follows initialLER last (fl_cert cert);
  as_err : forall e, r = Err e -> log_ok B s' /\ cert_info s' = cert_info s /\
    forall cert id, ~ In (EffSubmitted cert (Ok id)) es
}.

Lemma attempt_spec_silent B s es r :
  log_ok B s -> (forall cert ans, ~ In (EffSubmitted cert ans) es) -> attempt_spec B s s es r.
Proof.
  intros Hlog Hes. split; [by eapply log_ok_weaken; [|done]; lia | done | | |].
  - intros cert id Hin. by apply Hes in Hin.
  - intros cert ans Hin. by apply Hes in Hin.
  - intros e _. split_and!; [done..|]. intros cert id Hin. by apply Hes in Hin.
Qed.

Lemma saveNonAccepted_keeps B s cert t text :
  keeps B s (saveNonAcceptedCert path_text marshal s cert t text) /\
  cert_info (saveNonAcceptedCert path_text marshal s cert t text) = cert_info s.
Proof.
  unfold saveNonAcceptedCert. destruct (marshal cert); [|done]. split; [|done].
  apply (map_last_keeps B s _ (fun c => c)); [done | symmetry; apply map_fmap_id | done | done].
Qed.

Lemma submit_spec B e fuel params cert s s' es r :
  log_ok B s -> 0 <= B < pow2_64 ->
  GetLastSentCertificateHeader s = Ok (bp_LastSentCertificate params) ->
  bp_RetryCount params = next_retry (bp_LastSentCertificate params) ->
  follows initialLER (bp_LastSentCertificate params) (fl_cert cert) ->
  submit e fuel params cert s = Some (s', es, r) -> attempt_spec B s s' es r.
Proof.
  intros Hlog HB Hlast Hretry Hf. unfold Aggsender.submit.
  destruct (en_SendCertificate e cert) as [hash|text].
  - destruct (Hmarshal cert) as [raw ->]. set (certInfo := mkStoredCertificate _ _ _ _).
    destruct (SaveLastSent_log B s certInfo (sentHeader params cert hash) initialLER (bp_LastSentCertificate params) (fl_cert cert))
      as (s1 & Hsave & Hlog1 & Hgrow & Hrec); [done..|].
    destruct fuel as [|fuel]; cbn [saveCertificateToStorage]; [done|]. rewrite Hsave. intros [= <- <- <-].
    split; [done | done | | | done].
    + intros c id [[= <- <-]|[]]. exact Hrec.
    + intros c ans [[= <- _]|[]]. eauto.
  - intros [= <- <- <-]. destruct (saveNonAccepted_keeps B s cert (bp_CreatedAt params) text) as [Hk Hci].
    destruct (Hk Hlog) as [Hlog' Hgrow]. split; [by eapply log_ok_weaken; [|done]; lia | done | | |].
    + by intros c id [[=]|[]].
    + intros c ans [[= <- _]|[]]. eauto.
    + intros x _. split_and!; [done..|]. by intros c id [[=]|[]].
Qed.

Lemma attempt_spec_prefix B s s' pre es r :
  (forall cert ans, ~ In (EffSubmitted cert ans) pre) -> attempt_spec B s s' es r -> attempt_spec B s s' (pre ++ es) r.
Proof.
  intros Hpre [H1 H2 H3 H4 H5].
  assert (forall cert ans, In (EffSubmitted cert ans) (pre ++ es) -> In (EffSubmitted cert ans) es) as Hin.
  { intros cert ans [Hin|Hin]%in_app_iff; [by apply Hpre in Hin | done]. }
  split; [done | done | eauto | eauto |]. intros e He. destruct (H5 e He) as (? & ? & Hno). split_and!; [done..|].
  intros cert id Hin'. by eapply Hno, Hin.
Qed.

Lemma sendCertificate_spec B e fuel s s' es r :
  log_ok B s -> 0 <= B < pow2_64 -> FlowLaws initialLER (en_flow e) ->
  sendCertificate e fuel s = Some (s', es, r) -> attempt_spec B s s' es r.
Proof.
  intros Hlog HB Hlaws. unfold Aggsender.sendCertificate. rewrite aread_bind.
  destruct (fw_GetCertificateBuildParams (en_flow e) s (en_now e)) as [[[params|]|x]|] eqn:Hp; [| | |done].
  2,3: intros [= <- <- <-]; apply attempt_spec_silent; [done | by intros ? ? []].
  apply fl_params in Hp as [Hlast Hretry]. rewrite aread_bind.
  destruct (fw_BuildCertificate (en_flow e) s params) as [cert|x] eqn:Hb;
    [|intros [= <- <- <-]; apply attempt_spec_silent; [done | by intros ? ? []]].
  apply fl_build in Hb. rewrite aread_bind.
  destruct (Local_ValidateAndSign _ _ _ _ _) as [local|]; [|done]. cbn [fmap option_fmap option_map].
  rewrite aemit_bind, aread_bind.
  assert (forall c ans, ~ In (EffSubmitted c ans) (localWarning local)) as Hwarn
    by (intros c ans; destruct local; intros Hin; [destruct Hin | destruct Hin as [[=]|[]]]).
  destruct (PollValidators _ _ _ _ _ _ _ _) as [[ms|x]|]; [| |done].
  2: (intros [= <- <- <-]; rewrite app_nil_r; apply attempt_spec_silent; done).
  rewrite aread_bind. destruct (fw_UpdateAggchainData _ _ _) as [cert'|x] eqn:Hu;
    [|intros [= <- <- <-]; rewrite app_nil_r; by apply attempt_spec_silent].
  apply fl_update in Hu. destruct (cf_DryRun cfg).
  { intros [= <- <- <-]. rewrite app_nil_r. by apply attempt_spec_silent. }
  destruct (submit e fuel params cert' s) as [[[s2 es2] r2]|] eqn:Hs; [|done]. intros [= <- <- <-].
  apply attempt_spec_prefix; [done|]. eapply (submit_spec B e fuel params cert'); [done | done | done | done | by rewrite Hu | done].
Qed.

(** ** An event of the loop *)

(** What a sequence of attempts between two storages does. *)
Record sends (B : Z) (s s' : Storage) (es : list Effect) : Prop := {
  se_log : log_ok (B + 1) s';
  se_grows : forall id, recorded s id -> recorded s' id;
  se_recorded : forall cert id, In (EffSubmitted cert (Ok id)) es -> recorded s' id;
  se_follows : forall cert ans, In (EffSubmitted cert ans) es ->
    exists last, GetLastSentCertificateHeader s = Ok last /\ follows initialLER last (fl_cert cert)
}.

Lemma attempt_sends B s s' es r : attempt_spec B s s' es r -> sends B s s' es.
Proof. by intros [H1 H2 H3 H4 _]. Qed.

Lemma sends_nothing B s : log_ok B s -> sends B s s [].
Proof. intros Hlog. eapply attempt_sends, (attempt_spec_silent B s [] (Ok None)); [done | by intros ? ? []]. Qed.

Lemma GetLastSent_ext s s' :
  cert_info s = cert_info s' -> GetLastSentCertificateHeader s = GetLastSentCertificateHeader s'.
Proof. unfold GetLastSentCertificateHeader. by intros ->. Qed.

(** Between failed attempts the certificates of the storage do not change. *)
Record between (B : Z) (s : Storage) (st : AggSender * list Effect) : Prop := {
  bt_log : log_ok B (ag_storage (fst st));
  bt_info : cert_info (ag_storage (fst st)) = cert_info s;
  bt_grows : forall id, recorded s id -> recorded (ag_storage (fst st)) id;
  bt_none : forall cert id, ~ In (EffSubmitted cert (Ok id)) (snd st);
  bt_follows : forall cert ans, In (EffSubmitted cert ans) (snd st) ->
    exists last, GetLastSentCertificateHeader s = Ok last /\ follows initialLER last (fl_cert cert)
}.

Abbreviation sendAttempt := (sendAttempt path_text override cfg initialLER marshal).

Lemma sendAttempt_inv env fuel i st st' r :
  sendAttempt env fuel i st = Some (st', r) ->
  exists s' es', sendCertificate (env i) fuel (ag_storage (fst st)) = Some (s', es', r) /\
    ag_storage (fst st') = s' /\ snd st' = snd st ++ es'.
Proof.
  destruct st as [a es]. cbn. destruct (sendCertificate (env i) fuel (ag_storage a)) as [[[s' es'] r']|]; [|done].
  intros [= <- <-]. by exists s', es'.
Qed.

Lemma follows_between B s st cert last :
  between B s st -> GetLastSentCertificateHeader (ag_storage (fst st)) = Ok last -> follows initialLER last cert ->
  exists last, GetLastSentCertificateHeader s = Ok last /\ follows initialLER last cert.
Proof. intros [_ Hi _ _ _] Hl Hf. exists last. by rewrite <- (GetLastSent_ext _ _ Hi). Qed.

Lemma sendAttempt_between B s env fuel i st st' e :
  0 <= B < pow2_64 -> (forall i, FlowLaws initialLER (en_flow (env i))) ->
  between B s st -> sendAttempt env fuel i st = Some (st', Err e) -> between B s st'.
Proof.
  intros HB Hlaws Hbt (s' & es' & Hrun & Hs' & Hes)%sendAttempt_inv. pose proof Hbt as [H1 H2 H3 H4 H5].
  destruct (sendCertificate_spec B (env i) fuel _ _ _ _ H1 HB (Hlaws i) Hrun) as [A1 A2 A3 A4 A5].
  destruct (A5 e eq_refl) as (L1 & L2 & L3). split; rewrite ?Hs', ?Hes.
  - done.
  - congruence.
  - auto.
  - intros cert id [Hin|Hin]%in_app_iff; [by eapply H4 | by eapply L3].
  - intros cert ans [Hin|Hin]%in_app_iff; [by eapply H5|]. destruct (A4 cert ans Hin) as (last & Hl & Hf).
    by eapply follows_between.
Qed.

Lemma sendAttempt_last B s env fuel i st st' c :
  0 <= B < pow2_64 -> (forall i, FlowLaws initialLER (en_flow (env i))) ->
  between B s st -> sendAttempt env fuel i st = Some (st', Ok c) -> sends B s (ag_storage (fst st')) (snd st').
Proof.
  intros HB Hlaws Hbt (s' & es' & Hrun & Hs' & Hes)%sendAttempt_inv. pose proof Hbt as [H1 H2 H3 H4 H5].
  destruct (sendCertificate_spec B (env i) fuel _ _ _ _ H1 HB (Hlaws i) Hrun) as [A1 A2 A3 A4 _].
  split; rewrite ?Hs', ?Hes.
  - done.
  - auto.
  - intros cert id [Hin|Hin]%in_app_iff; [by apply H4 in Hin | by eapply A3].
  - intros cert ans [Hin|Hin]%in_app_iff; [by eapply H5|]. destruct (A4 cert ans Hin) as (last & Hl & Hf).
    by eapply follows_between.
Qed.

Lemma sendWithRetries_sends B env cancelled fuel a a' es stop r :
  log_ok B (ag_storage a) -> 0 <= B < pow2_64 -> (forall i, FlowLaws initialLER (en_flow (env i))) ->
  sendCertificateWithRetries path_text override cfg initialLER backoffDelays marshal env cancelled fuel a
    = Some (a', es, stop, r) -> sends B (ag_storage a) (ag_storage a') es.
Proof.
  intros Hlog HB Hlaws. unfold sendCertificateWithRetries.
  destruct (NewRetryHandler backoffDelays (cf_Retries cfg)) as [handler|e];
    [|intros [= <- <- _ _]; by apply sends_nothing].
  destruct (Execute _ _ _ _ _ _) as [[[[a1 es1] w] r1]|] eqn:Hex; [|done]. intros [= <- <- _ _].
  apply (Execute_invariant _ _ _ (between B (ag_storage a))) in Hex.
  - destruct r1 as [c|x].
    + destruct Hex as (i & st0 & Hbt & Hrun). by eapply (sendAttempt_last B _ env fuel i st0 (a1, es1)).
    + destruct Hex as [H1 H2 H3 H4 H5]. split; [by eapply log_ok_weaken; [|done]; lia | done | | done].
      intros cert id Hin. by apply H4 in Hin.
  - intros i st st' e Hbt Hrun. by eapply sendAttempt_between.
  - split; [done | done | done | by intros ? ? [] | by intros ? ? []].
Qed.

Definition event_ok (B : Z) (ev : LoopEvent) : Prop :=
  match ev with
  | CheckCertTick check send => headers_below (Ac := en_agglayer check) B /\ FlowLaws initialLER (en_flow send)
  | SendTrigger check send _ =>
      headers_below (Ac := en_agglayer check) B /\ forall i, FlowLaws initialLER (en_flow (send i))
  end.

(** The storage after the status check of an event. *)
Definition checked_storage (ev : LoopEvent) (a : AggSender) : Storage :=
  match ev with
  | CheckCertTick check _ | SendTrigger check _ _ => ag_storage (fst (checkStatus check a))
  end.

Lemma checkStatus_spec B e a a' st err :
  headers_below (Ac := en_agglayer e) B -> checkStatus e a = (a', (st, err)) ->
  keeps B (ag_storage a) (ag_storage a') /\ (ExistPendingCerts st = false -> no_open (ag_storage a')).
Proof.
  intros Hb. unfold checkStatus. destruct (CheckPeriodicallyStatus _ _) as [s r] eqn:E. intros [= <- ->]. cbn [set_storage ag_storage].
  split; [by eapply CheckPeriodically_keeps | by eapply CheckPeriodically_no_open].
Qed.

Lemma in_submitted_idle cert ans es :
  In (EffSubmitted cert ans) (es ++ [EffOnIdle]) -> In (EffSubmitted cert ans) es.
Proof. intros [Hin|[[=]|[]]]%in_app_iff. done. Qed.

Lemma sends_idle B s s' es : sends B s s' es -> sends B s s' (es ++ [EffOnIdle]).
Proof. intros [H1 H2 H3 H4]. split; [done | done | |]; intros ? ? Hin%in_submitted_idle; eauto. Qed.

Abbreviation onEvent := (onEvent path_text override cfg initialLER backoffDelays marshal).
Abbreviation sendCertificates := (sendCertificates path_text override cfg initialLER backoffDelays marshal).
Abbreviation sendCertificates_loop := (sendCertificates_loop path_text override cfg initialLER backoffDelays marshal).

(** An event sends from the storage its status check leaves, and only if nothing is open there. *)
Lemma onEvent_spec B fuel ev a a' es stop :
  log_ok B (ag_storage a) -> 0 <= B < pow2_64 -> event_ok B ev -> onEvent fuel ev a = Some (a', es, stop) ->
  (ag_storage a' = ag_storage a /\ es = []) \/
  (keeps B (ag_storage a) (checked_storage ev a) /\ sends B (checked_storage ev a) (ag_storage a') es /\
   forall cert ans, In (EffSubmitted cert ans) es -> no_open (checked_storage ev a)).
Proof.
  intros Hlog HB Hev. destruct ev as [check send|check send cancelled]; cbn [Aggsender.onEvent checked_storage];
    destruct Hev as [Hhdr Hlaws].
  - destruct (0 <? _); [|intros [= <- <- _]; by left]. unfold onTick.
    destruct (checkStatus check a) as [a1 [st err]] eqn:Hc. cbn [fst].
    destruct (checkStatus_spec B check a a1 st err Hhdr Hc) as [Hk Hno]. destruct (Hk Hlog) as [Hlog1 _].
    intros Hrun. right. split; [done|]. revert Hrun. destruct err as [u|x].
    + destruct (ExistPendingCerts st) eqn:Ep; simpl.
      { intros [= <- <- _]. split; [by apply sends_nothing | by intros ? ? []]. }
      destruct (ExistNewInErrorCert st && cf_RetryCertAfterInError cfg); simpl.
      * destruct (sendCertificate send fuel (ag_storage a1)) as [[[s2 es2] r]|] eqn:Hs; [|done].
        apply (sendCertificate_spec B) in Hs as Hsp%attempt_sends; [|done..].
        destruct (checkSendCertificateStopCondition cfg (err_of r)); [intros [= <- <- _]; by eauto|].
        destruct (negb (ExistNewInErrorCert st)); intros [= <- <- _]; split; eauto using sends_idle.
      * destruct (negb (ExistNewInErrorCert st)); intros [= <- <- _]; simpl;
          (split; [by apply (sends_idle B _ _ []), sends_nothing || by apply sends_nothing | by eauto]).
    + destruct (negb _ && negb _); intros [= <- <- _]; simpl;
        (split; [by apply (sends_idle B _ _ []), sends_nothing || by apply sends_nothing |]).
      * by intros ? ? [[=]|[]].
      * by intros ? ? [].
  - unfold onTrigger. destruct (checkStatus check a) as [a1 [st err]] eqn:Hc. cbn [fst].
    destruct (checkStatus_spec B check a a1 st err Hhdr Hc) as [Hk Hno]. destruct (Hk Hlog) as [Hlog1 _].
    intros Hrun. right. split; [done|]. revert Hrun.
    destruct err as [u|x]; [|intros [= <- <- _]; split; [by apply sends_nothing | by intros ? ? []]].
    destruct (ExistPendingCerts st) eqn:Ep; simpl; [intros [= <- <- _]; split; [by apply sends_nothing | by intros ? ? []]|].
    destruct (sendCertificateWithRetries _ _ _ _ _ _ _ _ _ _) as [[[[a2 es2] stop2] r]|] eqn:Hs; [|done].
    apply (sendWithRetries_sends B) in Hs as Hsp; [|done..].
    destruct stop2; [intros [= <- <- _]; by eauto|]. destruct r; intros [= <- <- _]; by eauto.
Qed.

Lemma sendCertificates_loop_spec fuel events B a a' es stop :
  log_ok B (ag_storage a) -> 0 <= B -> B + Z.of_nat (length events) < pow2_64 -> Forall (event_ok B) events ->
  sendCertificates_loop fuel events a = Some (a', es, stop) ->
  log_ok (B + Z.of_nat (length events)) (ag_storage a') /\
  (forall id, recorded (ag_storage a) id -> recorded (ag_storage a') id) /\
  forall cert id, In (EffSubmitted cert (Ok id)) es -> recorded (ag_storage a') id.
Proof.
  revert B a es. induction events as [|ev events IH]; intros B a es Hlog HB0 HB Hev; cbn [Aggsender.sendCertificates_loop length] in *.
  { intros [= <- <- _]. rewrite Z.add_0_r. split_and!; [done | done | by intros ? ? []]. }
  apply Forall_cons in Hev as [He Hev]. destruct (onEvent fuel ev a) as [[[a1 es1] stop1]|] eqn:Hrun; [|done].
  assert (log_ok (B + 1) (ag_storage a1) /\ (forall id, recorded (ag_storage a) id -> recorded (ag_storage a1) id) /\
          forall cert id, In (EffSubmitted cert (Ok id)) es1 -> recorded (ag_storage a1) id) as (Hlog1 & Hgrow & Hrec).
  { apply (onEvent_spec B) in Hrun as [[-> ->]|(Hk & [S1 S2 S3 _] & _)]; [| |done|lia|done].
    - split_and!; [by eapply log_ok_weaken; [|done]; lia | done | by intros ? ? []].
    - destruct (Hk Hlog) as [_ Hg]. split_and!; [done | auto | done]. }
  destruct stop1.
  { intros [= <- <- _]. split_and!; [by eapply log_ok_weaken; [|done]; lia | done | done]. }
  destruct (sendCertificates_loop fuel events a1) as [[[a2 es2] stop2]|] eqn:Hrest; [|done]. intros [= <- <- <-].
  destruct (IH (B + 1) a1 es2) as (IH1 & IH2 & IH3); [done | lia | lia | | done |].
  { eapply Forall_impl; [exact Hev|]. intros [c1 c2|c1 c2 c3] [Hh Hl]; (split; [|done]); intros hdr Hh'; specialize (Hh hdr Hh'); lia. }
  split; [by replace (B + Z.of_nat (S (length events))) with (B + 1 + Z.of_nat (length events)) by lia|].
  split; [by auto|]. intros cert id [Hin|Hin]%in_app_iff; [by eauto | by eauto].
Qed.

Lemma CheckInitialStatus_keeps B envs a :
  Forall (fun e => headers_below (Ac := en_agglayer e) B) envs ->
  keeps B (ag_storage a) (ag_storage (fst (CheckInitialStatus envs a))).
Proof.
  revert a. induction envs as [|e envs IH]; intros a Hh; cbn [CheckInitialStatus]; [done|].
  apply Forall_cons in Hh as [He Hh]. destruct (CheckInitialStatus_iteration _ _) as [s r] eqn:E.
  apply (CheckInitial_keeps _ B) in E; [|done]. destruct r as [u|x]; [done|].
  etransitivity; [exact E|]. exact (IH (SetLastError (set_storage a s) (Some (AErrChecker x))) Hh).
Qed.

Abbreviation Start := (Start path_text override cfg initialLER backoffDelays marshal).

(** C2. Every certificate the agglayer accepted is in the tables of the aggsender: starting from tables that hold a
    log of attempts, through the start-up checks and any sequence of ticks and triggers, with whatever
    answers of the agglayer, the syncers and the committee, the tables remain such a log (storing is
    never refused by a primary key) and keep the identifier of every certificate that was ever in them or
    was accepted, under the default retention policy. *)
Theorem accepted_certificates_are_recorded B compatible claimSet initial flow fuel events a a' es stop :
  log_ok B (ag_storage a) -> 0 <= B -> B + Z.of_nat (length events) < pow2_64 ->
  Forall (fun e => headers_below (Ac := en_agglayer e) B) initial -> Forall (event_ok B) events ->
  Start compatible claimSet initial flow fuel events a = Some (a', es, stop) ->
  (exists A, attempts_rel (ag_storage a') A) /\
  (forall id, recorded (ag_storage a) id -> recorded (ag_storage a') id) /\
  forall cert id, In (EffSubmitted cert (Ok id)) es -> recorded (ag_storage a') id.
Proof.
  intros Hlog HB0 HB Hinit Hev. unfold Aggsender.Start.
  destruct compatible; simpl; [|intros [= <- <- _]; split_and!; [apply (lo_log _ _ Hlog) | done | by intros ? ? []]].
  destruct claimSet; simpl; [|intros [= <- <- _]; split_and!; [apply (lo_log _ _ Hlog) | done | by intros ? ? []]].
  pose proof (CheckInitialStatus_keeps B initial (SetStatus (SetStatus (SetStatus a StatusCheckingDBCompatibility)
    StartingClaimSyncerStage) StatusCheckingInitialStage) Hinit Hlog) as [Hlog1 Hgrow1].
  destruct (CheckInitialStatus _ _) as [a1 ok]. cbn [fst ag_storage SetStatus] in Hlog1, Hgrow1.
  destruct (fw_CheckInitialStatus flow); [|intros [= <- <- _]; split_and!; [apply (lo_log _ _ Hlog1) | done | by intros ? ? []]].
  unfold Aggsender.sendCertificates.
  destruct (sendCertificates_loop _ _ _) as [[[a2 es2] stop2]|] eqn:Hrun; [|done]. intros [= <- <- _].
  apply (sendCertificates_loop_spec fuel events B) in Hrun as (H1 & H2 & H3); [|done..].
  split_and!; [apply (lo_log _ _ H1) | auto|]. intros cert id [[=]|Hin].
  apply in_app_iff in Hin as [Hin|Hin]; [|by eauto]. by destruct (0 <? _); [|destruct Hin as [[=]|[]]].
Qed.

(** C5. Nothing is submitted while a certificate is undecided, and what is submitted is the next certificate: when
    an event makes the service submit, then no certificate stored after the status check of that event is
    open, and the certificate is the first one, with the initial exit root, or stands on the last one
    stored, one height above it and on its exit root if it is settled, in its place if it is in error; in
    every attempt of the event. *)
Theorem submissions_wait_and_follow B fuel ev a a' es stop cert ans :
  log_ok B (ag_storage a) -> 0 <= B < pow2_64 -> event_ok B ev -> onEvent fuel ev a = Some (a', es, stop) ->
  In (EffSubmitted cert ans) es ->
  no_open (checked_storage ev a) /\
  exists last, GetLastSentCertificateHeader (checked_storage ev a) = Ok last /\ follows initialLER last (fl_cert cert).
Proof.
  intros Hlog HB Hev Hrun Hin. apply (onEvent_spec B) in Hrun as [[_ ->]|(_ & [_ _ _ Hf] & Hno)]; [done | |done..].
  split; [by eapply Hno | by eapply Hf].
Qed.

(** ** Signatures *)

Lemma sendCertificate_signed e fuel s s' es r cert ans :
  sendCertificate e fuel s = Some (s', es, r) -> In (EffSubmitted cert ans) es ->
  exists params built ms, fw_BuildCertificate (en_flow e) s params = Ok built /\
    PollValidators s (fw_Signer (en_flow e)) (en_contract e) override (en_newClient e) (en_client e) (en_arrivals e)
      (Some (mkValidationRequest (Some built) (bp_ToBlock params))) = Some (Ok ms) /\
    fw_UpdateAggchainData (en_flow e) built (Some ms) = Ok cert.
Proof.
  unfold Aggsender.sendCertificate. rewrite aread_bind.
  destruct (fw_GetCertificateBuildParams (en_flow e) s (en_now e)) as [[[params|]|x]|]; [| | |done].
  2,3: by intros [= <- <- <-] [].
  rewrite aread_bind. destruct (fw_BuildCertificate (en_flow e) s params) as [built|x] eqn:Hb; [|by intros [= <- <- <-] []].
  rewrite aread_bind. destruct (Local_ValidateAndSign _ _ _ _ _) as [local|]; [|done]. cbn [fmap option_fmap option_map].
  rewrite aemit_bind, aread_bind.
  assert (forall l, In (EffSubmitted cert ans) (localWarning local ++ l) -> In (EffSubmitted cert ans) l) as Hwarn
    by (intros l; destruct local; [done | by intros [[=]|Hin]]).
  destruct (PollValidators _ _ _ _ _ _ _ _) as [[ms|x]|] eqn:Hp; [| |done].
  2: by intros [= <- <- <-] Hin%Hwarn.
  rewrite aread_bind. destruct (fw_UpdateAggchainData _ _ _) as [cert'|x] eqn:Hu; [|by intros [= <- <- <-] Hin%Hwarn].
  destruct (cf_DryRun cfg); [by intros [= <- <- <-] Hin%Hwarn|].
  destruct (submit e fuel params cert' s) as [[[s2 es2] r2]|] eqn:Hs; [|done]. intros [= <- <- <-] Hin%Hwarn.
  assert (cert' = cert) as <-; [|by exists params, built, ms].
  revert Hs Hin. unfold Aggsender.submit. destruct (en_SendCertificate e cert').
  - destruct (marshal cert'); [destruct (saveCertificateToStorage _ _ _ _ _) as [[s3 []]|]; [| |done]|];
      intros [= _ <- _] [[= -> _]|[]]; done.
  - by intros [= _ <- _] [[= -> _]|[]].
Qed.

(** C7. What the pessimistic flow submits carries the signatures of a quorum of the committee of the rollup contract
    at that moment, over the hash of that very certificate. *)
Theorem submitted_certificate_is_signed `{Bq : BridgeQuerier} `{Lq : L1InfoTreeDataQuerier} `{Cq : CertificateQuerier}
    e fuel fuel' p signer s s' es r cert ans :
  en_flow e = ppBuilderFlow fuel' p signer -> NoDup (en_arrivals e) -> signs_for signer ->
  (forall m, GetMultisigCommittee (en_contract e) override = Ok m -> Z.of_nat (length (mc_signers m)) <= pow2_32) ->
  sendCertificate e fuel s = Some (s', es, r) -> In (EffSubmitted cert ans) es ->
  exists ms, fl_AggchainData cert = AggchainDataMultisig (Some ms) /\ quorum (en_contract e) override cert ms.
Proof.
  intros Hflow Hnd Hsign Hsize Hrun Hin. apply (sendCertificate_signed e fuel s s' es r cert ans Hrun) in Hin as (params & built & ms & Hb & Hp & Hu).
  rewrite Hflow in Hb, Hp, Hu. cbn in Hb, Hu. injection Hu as <-. exists ms. split; [done|].
  apply PollValidators_quorum in Hp as (m & h & Hm & Hh & Hrest); [|done..]. exists m, h. split; [done|]. split; [|done].
  rewrite <- Hh. inv_ok Hb as c Hc. by injection Hb as <-.
Qed.

End ServiceProofs.

(** ** Examples *)

#[local] Existing Instance toy_keccak.
#[local] Existing Instance toy_ecdsa.

(** The world of the example committee, with a chain that has bridges after the last settled certificate; the
    agglayer accepts what it gets. *)
Definition example_env : Env :=
  mkEnv 100 example_agglayer example_querier example_prover
    (ppBuilderFlow (Bq := example_events) (Lq := example_prover) (Cq := example_querier) 40 example_pp (toy_signer 100))
    example_verifier example_contract (fun _ => true) example_client [2; 1; 0]%nat (fun _ => Ok 777).

Definition example_config : AggConfig :=
  mkAggConfig false true false 3 10 (mkRetryPolicy RetryConfigModeDelays 2 [10] 0 0 false).

Definition example_marshal (c : FullCertificate) : option (list Z) := Some [ct_Height (fl_cert c)].

Definition example_trigger : LoopEvent := SendTrigger example_env (fun _ => example_env) (fun _ => false).
Definition example_tick : LoopEvent := CheckCertTick example_env example_env.

(** One settled certificate, of height 4. *)
Definition example_first : certificateInfo := mkCertificateInfo (example_header 4 0 50 Settled) None None [].
Definition example_log : Storage :=
  mkStorage (mkTables {[ 4 := example_first ]} ∅ None) ∅ NewStorageRetainCertificatesPolicyDefault.

Lemma example_log_ok : log_ok 5 example_log.
Proof.
  split; [done | |].
  - exists (add_attempt (fun _ => []) example_first).
    apply (attempts_rel_add (empty_storage NewStorageRetainCertificatesPolicyDefault)); [apply attempts_rel_empty | done..].
  - intros h c Hc. change (({[ 4 := example_first ]} : gmap Z certificateInfo) !! h = Some c) in Hc.
    apply lookup_singleton_Some in Hc as [<- _]. lia.
Qed.

Definition example_aggsender : AggSender := mkAggSender example_log StatusNone None.

Definition example_start : option (AggSender * list Effect * bool) :=
  Start (fun _ => []) None example_config 77 (fun _ => []) example_marshal true true [example_env] (en_flow example_env) 5
    [example_tick; example_trigger] example_aggsender.

Definition example_started : AggSender * list Effect * bool :=
  default (example_aggsender, [], true) example_start.

Example example_effects :
  map (fun e => match e with EffSubmitted _ (Ok id) => Some id | _ => None end) (snd (fst example_started)) = [None; None; Some 777].
Proof. vm_compute. reflexivity. Qed.

Lemma example_headers : headers_below (Ac := example_agglayer) 5.
Proof. intros hdr [[= <-]|[=]]. simpl. lia. Qed.

Lemma example_tick_ok : event_ok 77 5 example_tick.
Proof. split; [exact example_headers | exact (ppBuilderFlow_laws (Bq := example_events) 40 example_pp (toy_signer 100))]. Qed.

Lemma example_trigger_ok : event_ok 77 5 example_trigger.
Proof.
  split; [exact example_headers | intros i; exact (ppBuilderFlow_laws (Bq := example_events) 40 example_pp (toy_signer 100))].
Qed.

Lemma accepted_certificates_are_recorded_witness :
  (exists A, attempts_rel (ag_storage (fst (fst example_started))) A) /\
  (forall id, recorded example_log id -> recorded (ag_storage (fst (fst example_started))) id) /\
  forall cert id, In (EffSubmitted cert (Ok id)) (snd (fst example_started)) ->
    recorded (ag_storage (fst (fst example_started))) id.
Proof.
  refine (accepted_certificates_are_recorded (fun _ => []) None example_config 77 (fun _ => []) example_marshal _
    5 true true [example_env] (en_flow example_env) 5 [example_tick; example_trigger] example_aggsender
    (fst (fst example_started)) (snd (fst example_started)) (snd example_started) example_log_ok _ _ _ _ _).
  - intros c. by eexists.
  - lia.
  - vm_compute. reflexivity.
  - apply Forall_singleton. exact example_headers.
  - apply Forall_cons. split; [exact example_tick_ok|]. apply Forall_singleton. exact example_trigger_ok.
  - vm_compute. reflexivity.
Defined.

(** The event after start-up, on its own. *)
Definition example_event : AggSender * list Effect * bool :=
  default (example_aggsender, [], true)
    (onEvent (fun _ => []) None example_config 77 (fun _ => []) example_marshal 5 example_trigger example_aggsender).

(** The certificate it submits. *)
Definition example_submitted : FullCertificate :=
  match snd (fst example_event) with
  | [EffSubmitted c _] => c
  | _ => example_full
  end.

Lemma submissions_wait_and_follow_witness :
  no_open (checked_storage example_trigger example_aggsender) /\
  exists last, GetLastSentCertificateHeader (checked_storage example_trigger example_aggsender) = Ok last /\
    follows 77 last (fl_cert example_submitted).
Proof.
  refine (submissions_wait_and_follow (fun _ => []) None example_config 77 (fun _ => []) example_marshal _
    5 5 example_trigger example_aggsender (fst (fst example_event)) (snd (fst example_event)) (snd example_event)
    example_submitted (Ok 777) example_log_ok _ example_trigger_ok _ _).
  - intros c. by eexists.
  - split; [lia | vm_compute; reflexivity].
  - vm_compute. reflexivity.
  - vm_compute. left. reflexivity.
Defined.

(** One attempt. *)
Definition example_attempt : Storage * list Effect * result aggError (option FullCertificate) :=
  default (example_log, [], Ok None)
    (sendCertificate (fun _ => []) None example_config 77 example_marshal example_env 5 example_log).

Lemma submitted_certificate_is_signed_witness :
  exists ms, fl_AggchainData example_submitted = AggchainDataMultisig (Some ms) /\
    quorum example_contract None example_submitted ms.
Proof.
  refine (submitted_certificate_is_signed (Bq := example_events) (Lq := example_prover) (Cq := example_querier)
    (fun _ => []) None example_config 77 example_marshal
    example_env 5 40 example_pp (toy_signer 100) example_log (fst (fst example_attempt)) (snd (fst example_attempt))
    (snd example_attempt) example_submitted (Ok 777) _ _ _ _ _ _).
  - reflexivity.
  - apply (bool_decide_eq_true_1 (NoDup [2; 1; 0]%nat)). reflexivity.
  - apply toy_signer_signs. split; vm_compute; congruence.
  - cbn [en_contract example_env]. rewrite example_committee_Ok. intros m [= <-]. vm_compute. congruence.
  - vm_compute. reflexivity.
  - vm_compute. left. reflexivity.
Defined.
