(* ===== verification/Queriers.v ===== *)
(** The queriers of the aggsender ([aggsender/query]): the implementations of the interfaces
    [BridgeQuerier], [L1InfoTreeDataQuerier] and [CertificateQuerier] that the flows and the
    validator use, over the syncers, the L1 client and the agglayer client, whose operations are
    records of functions.  The laws the flows rely on follow from laws of the syncers. *)

From S2P Require Import Prelude Bytes BlockRange Merkle AgglayerTypes CertStorage StatusChecker.
From S2P Require Import BuildParams Flow AdjustRange Validator.

(** ** Syncers and clients *)

(** [types.L2BridgeSyncer]; roots are [None] when not found. *)
Record L2BridgeSyncer := mkL2BridgeSyncer {
  bs_GetBridges : Z -> Z -> result flowError (list Bridge);
  bs_GetExitRootByIndex : Z -> result flowError Root;
  bs_GetExitRootByHash : Z -> result flowError Root;
  bs_GetLastProcessedBlock : result flowError (option Z);
  bs_OriginNetwork : Z
}.

(** [claimsynctypes.ClaimSyncer]. *)
Record ClaimSyncer := mkClaimSyncer {
  cs_GetClaims : Z -> Z -> result flowError (list SyncedClaim);
  cs_GetClaimsByGlobalIndex : Z -> result flowError (list SyncedClaim);
  cs_GetLastProcessedBlock : result flowError (option Z)
}.

(** [types.L1InfoTreeSyncer]; a leaf pointer can be nil. *)
Record L1InfoTreeSyncer := mkL1InfoTreeSyncer {
  ls_GetInfoByGlobalExitRoot : Z -> result flowError (option L1InfoLeaf);
  ls_GetL1InfoTreeMerkleProofFromIndexToRoot : Z -> Z -> result flowError (list Z);
  ls_GetL1InfoTreeRootByIndex : Z -> result flowError Root;
  ls_GetProcessedBlockUntil : Z -> result flowError (Z * Z);
  ls_GetInfoByIndex : Z -> result flowError (option L1InfoLeaf);
  ls_GetLatestL1InfoLeafUntilBlock : Z -> result flowError L1InfoLeaf
}.

(** The L1 node: the block of the configured finality, a block by number (number and hash), and the
    map of global exit roots of the contract. *)
Record L1Client := mkL1Client {
  lc_TargetHeader : result flowError (Z * Z);
  lc_HeaderByNumber : Z -> result flowError (Z * Z);
  lc_GlobalExitRootMap : Z -> result flowError Z
}.

(** ** Bridges and claims ([bridge_query.go]) *)

Record bridgeDataQuerier := mkBridgeDataQuerier {
  bd_bridgeSyncer : L2BridgeSyncer;
  bd_claimSyncer : option ClaimSyncer;
  bd_GetUnsetClaims : Z -> Z -> result flowError (list Unclaim)
}.

Section BridgeQuery.
Context (b : bridgeDataQuerier).

(** Without a claim syncer the call dereferences nil. *)
Definition bd_GetBridgesAndClaims (fromBlock toBlock : Z) : result flowError (list Bridge * list SyncedClaim) :=
  let? bridges := bs_GetBridges (bd_bridgeSyncer b) fromBlock toBlock in
  match bd_claimSyncer b with
  | None => Err ErrPanic
  | Some cs =>
      let? claims := cs_GetClaims cs fromBlock toBlock in
      Ok (bridges, claims)
  end.

Definition bd_GetExitRootByIndex (index : Z) : result flowError Z :=
  let? exitRoot := bs_GetExitRootByIndex (bd_bridgeSyncer b) index in
  Ok (rt_Hash exitRoot).

Definition bd_GetLastProcessedBlock : result flowError (option Z) :=
  let? bridgeBlock := bs_GetLastProcessedBlock (bd_bridgeSyncer b) in
  match bridgeBlock with
  | None => Ok None
  | Some bridgeBlock =>
      match bd_claimSyncer b with
      | None => Ok (Some bridgeBlock)
      | Some cs =>
          let? claimBlock := cs_GetLastProcessedBlock cs in
          match claimBlock with
          | None => Ok None
          | Some claimBlock => if claimBlock <? bridgeBlock then Ok (Some claimBlock) else Ok (Some bridgeBlock)
          end
      end
  end.

Definition isSyncerCaughtUp (block : Z) : result flowError bool :=
  let? lastProcessedBlock := bs_GetLastProcessedBlock (bd_bridgeSyncer b) in
  Ok (match lastProcessedBlock with None => false | Some n => block <=? n end).

Definition isClaimSyncerCaughtUp (block : Z) : result flowError bool :=
  match bd_claimSyncer b with
  | None => Ok true
  | Some cs =>
      let? lastProcessedBlock := cs_GetLastProcessedBlock cs in
      Ok (match lastProcessedBlock with None => false | Some n => block <=? n end)
  end.

Definition bridgeDataQuerier_impl : BridgeQuerier := {|
  GetLastProcessedBlock := bd_GetLastProcessedBlock;
  GetBridgesAndClaims := bd_GetBridgesAndClaims;
  GetUnsetClaimsForBlockRange := bd_GetUnsetClaims b;
  GetExitRootByIndex := bd_GetExitRootByIndex;
  OriginNetwork := bs_OriginNetwork (bd_bridgeSyncer b)
|}.

End BridgeQuery.

(** The polls of [WaitForSyncerToCatchUp], one state of the syncers per tick; [None]: still waiting
    after the last tick given. *)
Fixpoint WaitForSyncerToCatchUp (polls : list bridgeDataQuerier) (block : Z) : option (result flowError unit) :=
  match polls with
  | [] => None
  | b :: polls' =>
      match isSyncerCaughtUp b block with
      | Err e => Some (Err e)
      | Ok bridgeReady =>
          match isClaimSyncerCaughtUp b block with
          | Err e => Some (Err e)
          | Ok claimReady => if bridgeReady && claimReady then Some (Ok tt) else WaitForSyncerToCatchUp polls' block
          end
      end
  end.

(** ** The L1 info tree ([l1info_tree_data_query.go]) *)

Section L1Query.
Context `{Kc : Keccak} (syncer : L1InfoTreeSyncer) (client : L1Client).

Definition getTargetL1BlockNumber : result flowError Z :=
  let? (finalizedNumber, finalizedHash) := lc_TargetHeader client in
  let? (processedNum, processedHash) := ls_GetProcessedBlockUntil syncer finalizedNumber in
  if processedNum =? 0 then Err ErrNoProcessedBlock
  else
    let? (finalizedNumber, finalizedHash) :=
      if processedNum <? finalizedNumber then lc_HeaderByNumber client processedNum
      else Ok (finalizedNumber, finalizedHash) in
    if (processedHash =? 0) || (processedHash =? finalizedHash) then Ok finalizedNumber
    else Err ErrQuery.

Definition l1_GetTargetL1InfoRoot : result flowError Root :=
  let? block := getTargetL1BlockNumber in
  let? leaf := ls_GetLatestL1InfoLeafUntilBlock syncer block in
  ls_GetL1InfoTreeRootByIndex syncer (il_L1InfoTreeIndex leaf).

Definition l1_GetL1InfoRootByLeafIndex (leafIndex : Z) : result flowError Root :=
  let? root := ls_GetL1InfoTreeRootByIndex syncer leafIndex in
  if rt_Hash root =? ZeroHash then Err ErrQuery else Ok root.

Definition l1_GetInfoByIndex (index : Z) : result flowError L1InfoLeaf :=
  let? info := ls_GetInfoByIndex syncer index in
  match info with None => Err ErrQuery | Some info => Ok info end.

Definition l1_GetFinalizedL1InfoTreeData (rootHash leafCount : Z) : result flowError (list Z * L1InfoLeaf) :=
  let leafIndex := leafCount -u32 1 in
  let? leaf := l1_GetInfoByIndex leafIndex in
  let? proof := ls_GetL1InfoTreeMerkleProofFromIndexToRoot syncer leafIndex rootHash in
  Ok (proof, leaf).

Definition l1_GetProofForGER (ger rootFromWhichToProve : Z) : result flowError (L1InfoLeaf * list Z) :=
  let? l1Info := ls_GetInfoByGlobalExitRoot syncer ger in
  match l1Info with
  | None => Err ErrPanic
  | Some l1Info =>
      let? gerToL1Proof :=
        ls_GetL1InfoTreeMerkleProofFromIndexToRoot syncer (il_L1InfoTreeIndex l1Info) rootFromWhichToProve in
      if VerifyProof (il_Hash l1Info) gerToL1Proof (il_L1InfoTreeIndex l1Info) rootFromWhichToProve
      then Ok (l1Info, gerToL1Proof)
      else Err ErrGERNotProvableAgainstRoot
  end.

Definition l1_IsGERFinalized (ger finalizedL1InfoLeafCount : Z) : result flowError bool :=
  let? info := ls_GetInfoByGlobalExitRoot syncer ger in
  match info with
  | None => Err ErrQuery
  | Some info => Ok (il_L1InfoTreeIndex info <=? finalizedL1InfoLeafCount -u32 1)
  end.

Definition l1_DoesGERExistsOnL1 (ger : Z) : result flowError bool :=
  let? gerIndex := lc_GlobalExitRootMap client ger in
  Ok (0 <? gerIndex).

Definition l1InfoTreeDataQuerier_impl : L1InfoTreeDataQuerier := {|
  GetTargetL1InfoRoot := l1_GetTargetL1InfoRoot;
  GetL1InfoRootByLeafIndex := l1_GetL1InfoRootByLeafIndex;
  GetProofForGER := l1_GetProofForGER;
  IsGERFinalized := l1_IsGERFinalized;
  DoesGERExistsOnL1 := l1_DoesGERExistsOnL1
|}.

End L1Query.

(** ** Certificates ([certificate_query.go]) *)

(** [agglayertypes.SettledImportedBridgeExit]. *)
Record SettledImportedBridgeExit := mkSettledIBE { si_GlobalIndex : Z; si_BridgeExitHash : Z }.

Record SettledBlocks := mkSettledBlocks {
  sb_LastBridgeExitBlock : result flowError Z;
  sb_LastImportedBridgeExitBlock : result flowError Z;
  sb_LastSettledL2BlockNum : result flowError Z;
  sb_SettledImportedBridgeExit : option SettledImportedBridgeExit
}.

Definition LatestBlock (s : SettledBlocks) : result flowError Z :=
  let? a := sb_LastBridgeExitBlock s in
  let? b := sb_LastImportedBridgeExitBlock s in
  let? c := sb_LastSettledL2BlockNum s in
  Ok (Z.max (Z.max a b) c).

Definition EarliestBlock (s : SettledBlocks) : result flowError Z :=
  let? a := sb_LastBridgeExitBlock s in
  let? b := sb_LastImportedBridgeExitBlock s in
  let? c := sb_LastSettledL2BlockNum s in
  let r := if is_nil (sb_SettledImportedBridgeExit s) then a else Z.min a b in
  Ok (if c =? 0 then r else Z.min r c).

(** The kinds of [AggchainData]. *)
Inductive AggchainDataKind :=
| AggchainDataSignature | AggchainDataMultisig | AggchainDataProof | AggchainDataMultisigWithProof.

(** The aggchain contract and the agglayer's network state, which holds the last settled imported
    exit of the network of the header. *)
Record certificateQuerier := mkCertificateQuerier {
  cq_bridgeSyncer : L2BridgeSyncer;
  cq_claimSyncer : ClaimSyncer;
  cq_IsFEP : bool;
  cq_StartL2Block : Z;
  cq_GetLastSettledL2Block : result flowError Z;
  cq_GetNetworkInfo : result flowError (option SettledImportedBridgeExit);
  cq_AggchainData : Certificate -> option AggchainDataKind;
  cq_initialLER : Z
}.

Section CertificateQuery.
Context `{Kc : Keccak} (c : certificateQuerier).

Definition getBlockNumFromLER (localExitRoot : Z) : result flowError Z :=
  if localExitRoot =? cq_initialLER c then Ok 0
  else
    let? exitRoot := bs_GetExitRootByHash (cq_bridgeSyncer c) localExitRoot in
    Ok (rt_BlockNum exitRoot).

(** The loop over the claims of the index. *)
Fixpoint findClaimBlock (claims : list SyncedClaim) (bridgeExitHash : Z) : result flowError Z :=
  match claims with
  | [] => Err ErrQuery
  | claim :: claims' =>
      let? ibe := ConvertToImportedBridgeExitWithoutClaimData claim in
      if BridgeExit_Hash (ie_BridgeExit ibe) =? bridgeExitHash then Ok (sc_BlockNum claim)
      else findClaimBlock claims' bridgeExitHash
  end.

Definition getBlockNumFromGlobalIndex (globalIndex bridgeExitHash : Z) : result flowError Z :=
  let? claims := cs_GetClaimsByGlobalIndex (cq_claimSyncer c) globalIndex in
  findClaimBlock claims bridgeExitHash.

Definition getLastSettledFEPBlock : result flowError Z :=
  let? n := cq_GetLastSettledL2Block c in
  if n =? 0 then Ok (cq_StartL2Block c) else Ok n.

Definition GetSettledBlocksFromCertHeader (cert : option AgglayerHeader) : SettledBlocks :=
  match cert with
  | None => mkSettledBlocks (Ok 0) (Ok 0) getLastSettledFEPBlock None
  | Some h =>
      let lastBridgeExit := getBlockNumFromLER (ah_NewLocalExitRoot h) in
      match cq_GetNetworkInfo c with
      | Err e => mkSettledBlocks lastBridgeExit (Err e) getLastSettledFEPBlock None
      | Ok None => mkSettledBlocks lastBridgeExit (Ok 0) getLastSettledFEPBlock None
      | Ok (Some ibe) =>
          mkSettledBlocks lastBridgeExit (getBlockNumFromGlobalIndex (si_GlobalIndex ibe) (si_BridgeExitHash ibe))
            getLastSettledFEPBlock (Some ibe)
      end
  end.

Definition cq_GetLastSettledCertificateToBlock (cert : option AgglayerHeader) : result flowError Z :=
  match cert with
  | Some h =>
      if negb (bool_decide (ah_Status h = Settled)) then Err ErrNotSettled
      else LatestBlock (GetSettledBlocksFromCertHeader cert)
  | None => LatestBlock (GetSettledBlocksFromCertHeader cert)
  end.

Definition cq_GetNewCertificateToBlock (cert : Certificate) : result flowError Z :=
  let? lastBridgeExitBlock := getBlockNumFromLER (ct_NewLocalExitRoot cert) in
  match last (ct_ImportedBridgeExits cert) with
  | None => Ok (Z.max lastBridgeExitBlock 0)
  | Some ibe =>
      match ibe, ibe ≫= ie_GlobalIndex with
      | Some ibe, Some g =>
          let? n := getBlockNumFromGlobalIndex (GlobalIndex_ToBigInt g) (BridgeExit_Hash (ie_BridgeExit ibe)) in
          Ok (Z.max lastBridgeExitBlock n)
      | _, _ => Err ErrPanic
      end
  end.

Definition cq_CalculateCertificateTypeFromToBlock (certToBlock : Z) : CertificateType :=
  if cq_IsFEP c then if certToBlock <? cq_StartL2Block c then CertificateTypePP else CertificateTypeFEP
  else CertificateTypePP.

Definition cq_CalculateCertificateType (cert : Certificate) (certToBlock : Z) : CertificateType :=
  match cq_AggchainData c cert with
  | Some AggchainDataSignature | Some AggchainDataMultisig => CertificateTypePP
  | Some AggchainDataProof | Some AggchainDataMultisigWithProof => CertificateTypeFEP
  | None => cq_CalculateCertificateTypeFromToBlock certToBlock
  end.

Definition querier_error {A} (r : result flowError A) : result checkerError A :=
  match r with Ok a => Ok a | Err _ => Err ErrQuerier end.

Definition certificateQuerier_impl : CertificateQuerier := {|
  GetLastSettledCertificateToBlock := fun cert => querier_error (cq_GetLastSettledCertificateToBlock cert);
  GetNewCertificateToBlock := fun cert => querier_error (cq_GetNewCertificateToBlock cert);
  CalculateCertificateType := cq_CalculateCertificateType;
  CalculateCertificateTypeFromToBlock := cq_CalculateCertificateTypeFromToBlock
|}.

End CertificateQuery.

(** ** The laws of the interfaces *)

(** The syncers answer from tables of events, and when they can answer for a range they can answer
    for a shorter one. *)
Record syncers_laws (b : bridgeDataQuerier) (cs : ClaimSyncer) (bridges : list Bridge) (claims : list SyncedClaim)
    (unclaims : list Unclaim) : Prop := {
  sl_claimSyncer : bd_claimSyncer b = Some cs;
  sl_bridges : forall from to l, bs_GetBridges (bd_bridgeSyncer b) from to = Ok l ->
    l = filterBridgesInRange bridges from to;
  sl_bridges_down : forall from to t, from <= t <= to -> is_ok (bs_GetBridges (bd_bridgeSyncer b) from to) = true ->
    is_ok (bs_GetBridges (bd_bridgeSyncer b) from t) = true;
  sl_claims : forall from to l, cs_GetClaims cs from to = Ok l -> l = filterClaimsInRange claims from to;
  sl_claims_down : forall from to t, from <= t <= to -> is_ok (cs_GetClaims cs from to) = true ->
    is_ok (cs_GetClaims cs from t) = true;
  sl_unclaims : forall from to l, bd_GetUnsetClaims b from to = Ok l -> l = filterUnclaimsInRange unclaims from to;
  sl_unclaims_down : forall from to t, from <= t <= to -> is_ok (bd_GetUnsetClaims b from to) = true ->
    is_ok (bd_GetUnsetClaims b from t) = true
}.

Section Laws.
Context (b : bridgeDataQuerier) (cs : ClaimSyncer).
Context (bridges : list Bridge) (claims : list SyncedClaim) (unclaims : list Unclaim).
Context (laws : syncers_laws b cs bridges claims unclaims).

(** A query that answers for a range gives the events of the table for any shorter one. *)
Lemma query_cut {A} (query : Z -> Z -> result flowError A) (answer : Z -> Z -> A) from to t l :
  (forall from to l, query from to = Ok l -> l = answer from to) ->
  (forall from to t, from <= t <= to -> is_ok (query from to) = true -> is_ok (query from t) = true) ->
  from <= t <= to -> query from to = Ok l -> query from t = Ok (answer from t) /\ l = answer from to.
Proof.
  intros Hans Hdown Ht Hq. split; [|by apply Hans].
  specialize (Hdown from to t Ht). rewrite Hq in Hdown. specialize (Hdown eq_refl).
  destruct (query from t) as [l'|] eqn:E; [|done]. by rewrite (Hans _ _ _ E).
Qed.

Lemma bd_GetBridgesAndClaims_inv from to bs cls :
  bd_GetBridgesAndClaims b from to = Ok (bs, cls) ->
  bs_GetBridges (bd_bridgeSyncer b) from to = Ok bs /\ cs_GetClaims cs from to = Ok cls.
Proof.
  unfold bd_GetBridgesAndClaims. rewrite (sl_claimSyncer _ _ _ _ _ laws). intros H.
  inv_ok H as l1 H1. inv_ok H as l2 H2. by injection H as <- <-.
Qed.

Lemma bridgeDataQuerier_laws : BridgeQuerierLaws (bridgeDataQuerier_impl b).
Proof.
  destruct laws as [Hcs Hb Hbd Hc Hcd Hu Hud]. constructor; simpl.
  - intros from to bs cls H. apply bd_GetBridgesAndClaims_inv in H as [H1 H2].
    rewrite (Hb _ _ _ H1), (Hc _ _ _ H2). split; apply bfilter_range_Forall.
  - intros from to us H. rewrite (Hu _ _ _ H). apply bfilter_range_Forall.
Qed.

Lemma bridgeDataQuerier_cuts from to t : from <= t <= to -> same_events_up_to (Bq := bridgeDataQuerier_impl b) from to t.
Proof.
  destruct laws as [Hcs Hb Hbd Hc Hcd Hu Hud]. intros Ht. constructor; simpl.
  - intros bs cls H. apply bd_GetBridgesAndClaims_inv in H as [H1 H2].
    destruct (query_cut _ _ _ _ _ _ Hb Hbd Ht H1) as [E1 ->], (query_cut _ _ _ _ _ _ Hc Hcd Ht H2) as [E2 ->].
    unfold bd_GetBridgesAndClaims. rewrite E1, Hcs. cbn [rbind]. rewrite E2. cbn [rbind].
    unfold filterBridgesInRange, filterClaimsInRange. by rewrite !bfilter_range_twice by lia.
  - intros us H. destruct (query_cut _ _ _ _ _ _ Hu Hud Ht H) as [E ->]. rewrite E.
    unfold filterUnclaimsInRange. by rewrite bfilter_range_twice by lia.
Qed.

(** The bridge querier keeps what the flows are promised: over syncers that answer from tables
    of events, the events of a range lie in it and are those of any larger range that lie in it, and the last
    processed block it reports is one both syncers have processed, the lower of their two. *)
Theorem bridge_querier_meets_interface :
  BridgeQuerierLaws (bridgeDataQuerier_impl b) /\
  (forall from to t, from <= t <= to -> same_events_up_to (Bq := bridgeDataQuerier_impl b) from to t) /\
  (forall n, bd_GetLastProcessedBlock b = Ok (Some n) ->
     exists nb nc, bs_GetLastProcessedBlock (bd_bridgeSyncer b) = Ok (Some nb) /\
       cs_GetLastProcessedBlock cs = Ok (Some nc) /\ n = Z.min nb nc).
Proof.
  split; [apply bridgeDataQuerier_laws|]. split; [apply bridgeDataQuerier_cuts|]. intros n. unfold bd_GetLastProcessedBlock.
  rewrite (sl_claimSyncer _ _ _ _ _ laws).
  destruct (bs_GetLastProcessedBlock _) as [[nb|]|]; simpl; try done.
  destruct (cs_GetLastProcessedBlock cs) as [[nc|]|]; simpl; try done.
  destruct (Z.ltb_spec nc nb); intros [= <-]; exists nb, nc; (split; [done|]); (split; [done | lia]).
Qed.

End Laws.

Section L1Laws.
Context `{Kc : Keccak} (syncer : L1InfoTreeSyncer) (client : L1Client).

(** The target root is found under its own index when the tree indexes its roots and no root is zero. *)
Lemma l1InfoTreeDataQuerier_laws :
  (forall i r, ls_GetL1InfoTreeRootByIndex syncer i = Ok r ->
     rt_Index r = i /\ rt_Hash r <> ZeroHash /\ 0 <= i /\ is_u32 (i + 1)) ->
  L1InfoTreeLaws (l1InfoTreeDataQuerier_impl syncer client).
Proof.
  intros Hroot r Hr. simpl in *. unfold l1_GetTargetL1InfoRoot in Hr. inv_ok Hr as blk Hb. inv_ok Hr as leaf Hl.
  destruct (Hroot _ _ Hr) as (Hi & Hz & Hpos & Hu). unfold l1_GetL1InfoRootByLeafIndex. rewrite Hi, Hr. simpl.
  by rewrite (proj2 (Z.eqb_neq _ _) Hz).
Qed.

(** A proof handed out for a global exit root verifies. *)
Lemma l1_GetProofForGER_verifies ger root leaf proof :
  l1_GetProofForGER syncer ger root = Ok (leaf, proof) ->
  VerifyProof (il_Hash leaf) proof (il_L1InfoTreeIndex leaf) root = true.
Proof.
  unfold l1_GetProofForGER. intros H. apply rbind_Ok_inv in H as ([info|] & _ & H); [|discriminate H].
  apply rbind_Ok_inv in H as (pr & _ & H). apply guard_Ok_inv in H as [E H]. injection H as <- <-. exact E.
Qed.

End L1Laws.

(** ** Examples *)

Definition example_bridgeSyncer : L2BridgeSyncer :=
  mkL2BridgeSyncer (fun from to => Ok (filterBridgesInRange [example_bridge 25 3] from to))
    (fun i => Ok (mkRoot 99 i 25 0)) (fun h => Ok (mkRoot h 3 25 0)) (Ok (Some 30)) 1.
Definition example_claimSyncer : ClaimSyncer :=
  mkClaimSyncer (fun from to => Ok (filterClaimsInRange [example_synced_claim 12 5 3] from to)) (fun _ => Ok []) (Ok (Some 28)).
Definition example_dataQuerier : bridgeDataQuerier :=
  mkBridgeDataQuerier example_bridgeSyncer (Some example_claimSyncer) (fun _ _ => Ok []).

Lemma bridge_querier_meets_interface_witness :
  BridgeQuerierLaws (bridgeDataQuerier_impl example_dataQuerier) /\
  (forall from to t, from <= t <= to -> same_events_up_to (Bq := bridgeDataQuerier_impl example_dataQuerier) from to t) /\
  (forall n, bd_GetLastProcessedBlock example_dataQuerier = Ok (Some n) ->
     exists nb nc, bs_GetLastProcessedBlock (bd_bridgeSyncer example_dataQuerier) = Ok (Some nb) /\
       cs_GetLastProcessedBlock example_claimSyncer = Ok (Some nc) /\ n = Z.min nb nc).
Proof.
  refine (bridge_querier_meets_interface example_dataQuerier example_claimSyncer
    [example_bridge 25 3] [example_synced_claim 12 5 3] [] _).
  constructor; simpl; try done; by intros from to l [= <-].
Defined.
