(* ===== verification/Downloader.v ===== *)
(** The downloader of a syncer ([sync/evmdownloader.go]): fetching the logs of a range in batches,
    turning them into blocks, and the loop that walks the chain and reports blocks to the driver.

    The Ethereum client is a parameter.  An iteration of the loop of [Download] is a function of the
    variables of the loop and of what the client answers during the iteration; the messages sent on
    the channel are part of its result. *)

From S2P Require Import Prelude.

(** ** Data ([sync/evmtypes.go]) *)

Record EVMBlockHeader := mkEVMBlockHeader { eh_Num : Z; eh_Hash : Z; eh_ParentHash : Z; eh_Timestamp : Z }.

(** Events are appended by the syncer's own functions: their type is a parameter. *)
Record EVMBlock (E : Type) := mkEVMBlock {
  eb_Header : EVMBlockHeader;
  eb_IsFinalizedBlock : bool;
  eb_Events : list E
}.
Arguments mkEVMBlock {E} _ _ _.
Arguments eb_Header {E} _.
Arguments eb_IsFinalizedBlock {E} _.
Arguments eb_Events {E} _.

Definition eb_Num {E} (b : EVMBlock E) : Z := eh_Num (eb_Header b).
Definition eb_Hash {E} (b : EVMBlock E) : Z := eh_Hash (eb_Header b).

Definition EVMBlocks_LastBlock {E} (e : list (EVMBlock E)) : option (EVMBlock E) := last e.

(** The fields of a log the downloader reads; [lg_Index] stands for the rest. *)
Record Log := mkLog { lg_BlockNumber : Z; lg_BlockHash : Z; lg_Topic : Z; lg_Removed : bool; lg_Index : Z }.

(** ** Logs of a range *)

Inductive filterError := FCanceled | FTooManyLogs | FOther.

(** The answers of [FilterLogs], one per call. *)
Abbreviation filterClient := (Z -> Z -> nat -> result filterError (list Log)).

Inductive logsResult := LOk (logs : list Log) | LNil | LFatal | LFuel.

Section Logs.
Context (client : filterClient) (maxRetry : Z).

Definition HandleAttempts (attempts : Z) : bool := (-1 <? maxRetry) && (maxRetry <=? attempts).

(** The inner loop: one batch from [start] on; the number of the call, the size of the batch, and the
    end reached with the logs. *)
Inductive batchResult := BOk (logs : list Log) (end_ batchSize : Z) (call : nat) | BNil | BFatal | BFuel.

Fixpoint fetchBatch (fuel call : nat) (start toBlock batchSize attempts : Z) : batchResult :=
  match fuel with
  | O => BFuel
  | S fuel' =>
      let end0 := start +u64 batchSize -u64 1 in
      let end_ := if toBlock <? end0 then toBlock else end0 in
      match client start end_ call with
      | Ok logs => BOk logs end_ batchSize (S call)
      | Err FCanceled => BNil
      | Err FTooManyLogs =>
          if batchSize =? 1 then BNil else fetchBatch fuel' (S call) start toBlock (batchSize / 2) attempts
      | Err FOther =>
          if HandleAttempts (attempts + 1) then BFatal else fetchBatch fuel' (S call) start toBlock batchSize (attempts + 1)
      end
  end.

Fixpoint unfilteredLogs_loop (fuel call : nat) (start toBlock batchSize : Z) (results : list Log) : logsResult :=
  if toBlock <? start then LOk results
  else match fuel with
       | O => LFuel
       | S fuel' =>
           match fetchBatch fuel' call start toBlock batchSize 0 with
           | BOk logs end_ batchSize' call' =>
               unfilteredLogs_loop fuel' call' (end_ +u64 1) toBlock batchSize' (results ++ logs)
           | BNil => LNil
           | BFatal => LFatal
           | BFuel => LFuel
           end
       end.

Definition getUnfilteredLogs (fuel : nat) (fromBlock toBlock : Z) : logsResult :=
  unfilteredLogs_loop fuel 0 fromBlock toBlock (toBlock -u64 fromBlock +u64 1) [].

End Logs.

Definition filterLogs (topicsToQuery : list Z) (unfilteredLogs : list Log) : list Log :=
  bfilter (fun l => negb (lg_Removed l) && existsb (Z.eqb (lg_Topic l)) topicsToQuery) unfilteredLogs.

Definition GetLogs (client : filterClient) (maxRetry : Z) (topicsToQuery : list Z) (fuel : nat) (fromBlock toBlock : Z) : logsResult :=
  match getUnfilteredLogs client maxRetry fuel fromBlock toBlock with
  | LOk logs => LOk (filterLogs topicsToQuery logs)
  | LNil => LOk []
  | r => r
  end.

(** ** Blocks with events *)

Definition MaxRetryCountBlockHashMismatch : Z := 5.

Section Events.
Context {E : Type}.

(** [GetBlockHeader]: the answers of the client in order; [None]: the context was canceled. *)
Inductive headerError := HCanceled | HNotFound | HOther.
Inductive headerResult := HeaderOk (h : EVMBlockHeader) | HeaderCanceled | HeaderFatal | HeaderFuel.

Fixpoint GetBlockHeader (maxRetry : Z) (answers : list (result headerError EVMBlockHeader)) (attempts : Z) : headerResult :=
  match answers with
  | [] => HeaderFuel
  | Ok h :: _ => HeaderOk h
  | Err HCanceled :: _ => HeaderCanceled
  | Err HNotFound :: answers' => GetBlockHeader maxRetry answers' attempts
  | Err HOther :: answers' =>
      if HandleAttempts maxRetry (attempts + 1) then HeaderFatal else GetBlockHeader maxRetry answers' (attempts + 1)
  end.

(** One query: the filtered logs after the hook, the header of a block, and the events the function of
    the syncer appends for a log (its errors are retried). *)
Record eventsQuery := mkEventsQuery {
  eq_logs : list Log;
  eq_header : Z -> option EVMBlockHeader;
  eq_append : Log -> list E
}.

Inductive eventsResult := EvBlocks (blocks : list (EVMBlock E)) | EvCanceled | EvMismatch.

(** [append] to the events of the last block. *)
Definition addEvents (blocks : list (EVMBlock E)) (es : list E) : list (EVMBlock E) :=
  match last blocks with
  | None => blocks
  | Some b => removelast blocks ++ [mkEVMBlock (eb_Header b) (eb_IsFinalizedBlock b) (eb_Events b ++ es)]
  end.

(** The loop over the logs; [blocks] grows at its end. *)
Fixpoint eventsLoop (q : eventsQuery) (logs : list Log) (blocks : list (EVMBlock E)) : eventsResult :=
  match logs with
  | [] => EvBlocks blocks
  | l :: logs' =>
      let isNew := match last blocks with None => true | Some b => eb_Num b <? lg_BlockNumber l end in
      if isNew then
        match eq_header q (lg_BlockNumber l) with
        | None => EvCanceled
        | Some b =>
            if negb (eh_Hash b =? lg_BlockHash l) then EvMismatch
            else
              let hdr := mkEVMBlockHeader (lg_BlockNumber l) (lg_BlockHash l) (eh_ParentHash b) (eh_Timestamp b) in
              eventsLoop q logs' (addEvents (blocks ++ [mkEVMBlock hdr false []]) (eq_append q l))
        end
      else eventsLoop q logs' (addEvents blocks (eq_append q l))
  end.

(** [queries i]: the i-th attempt; [done i]: the context is done before it.  [retryCount] goes up to
    the maximum, so the recursion is on what is left. *)
Fixpoint getEventsByBlockRangeWithRetry (queries : nat -> eventsQuery) (done : nat -> bool) (retryCount left : nat)
    : list (EVMBlock E) :=
  if done retryCount then []
  else match eventsLoop (queries retryCount) (eq_logs (queries retryCount)) [] with
       | EvBlocks blocks => blocks
       | EvCanceled => []
       | EvMismatch => match left with O => [] | S left' => getEventsByBlockRangeWithRetry queries done (S retryCount) left' end
       end.

Definition GetEventsByBlockRange (queries : nat -> eventsQuery) (done : nat -> bool) : list (EVMBlock E) :=
  getEventsByBlockRangeWithRetry queries done 0 (Z.to_nat MaxRetryCountBlockHashMismatch).

(** ** The loop of [Download] *)

Record EVMDownloader := mkEVMDownloader {
  dl_syncBlockChunkSize : Z;
  dl_stopDownloaderOnIterationN : Z;
  dl_stopOnFinalizedBlockReached : bool
}.

(** The variables of the loop. *)
Record downloadState := mkDownloadState {
  fromBlock : Z;
  toBlock : Z;
  lastBlock : Z;
  reachTop : bool;
  initialBlockSent : bool;
  iteration : Z
}.

(** What the environment answers during one iteration. *)
Record downloadEnv := mkDownloadEnv {
  env_done : bool;
  env_WaitForNewBlocks : Z -> Z;
  env_GetLastFinalizedBlock : option Z;
  env_GetEventsByBlockRange : Z -> Z -> list (EVMBlock E);
  env_GetBlockHeader : Z -> option EVMBlockHeader
}.

Inductive downloadOutcome := Continue (s : downloadState) | Closed | Stopped.

Definition reportBlocks (blocks : list (EVMBlock E)) (lastFinalizedBlock : Z) : list (EVMBlock E) :=
  map (fun b => mkEVMBlock (eb_Header b) (eb_Num b <=? lastFinalizedBlock) (eb_Events b)) blocks.

Definition reportEmptyBlock (getHeader : Z -> option EVMBlockHeader) (blockNum minBlock lastFinalizedBlock : Z)
    : list (EVMBlock E) * bool :=
  match getHeader blockNum with
  | None => ([], false)
  | Some header =>
      if negb (eh_Num header =? blockNum) && (eh_Num header <? minBlock) then ([], false)
      else ([mkEVMBlock header (eh_Num header <=? lastFinalizedBlock) []], true)
  end.

Section Download.
Context (d : EVMDownloader) (initialFromBlock : Z) (lastBlockNum : option Z).

Definition clampTo (z : Z) : Z := match lastBlockNum with None => z | Some l => Z.min z l end.
Definition nextTo (from : Z) : Z := clampTo (from +u64 dl_syncBlockChunkSize d).

(** The start of an iteration: wait when the top was reached. *)
Definition waitPhase (e : downloadEnv) (s : downloadState) : downloadState :=
  if (lastBlock s <? fromBlock s) || (reachTop s && (lastBlock s <=? toBlock s)) then
    let lb := env_WaitForNewBlocks e (lastBlock s) in
    let tb := if fromBlock s -u64 toBlock s <? dl_syncBlockChunkSize d then nextTo (fromBlock s) else toBlock s in
    mkDownloadState (fromBlock s) tb lb false (initialBlockSent s) (iteration s)
  else mkDownloadState (fromBlock s) (toBlock s) (lastBlock s) false (initialBlockSent s) (iteration s).

(** The range asked for, and whether the top is reached. *)
Definition requestRange (s : downloadState) : Z * bool :=
  let '(r, top) := if lastBlock s <=? toBlock s then (lastBlock s, true) else (toBlock s, false) in
  (match lastBlockNum with Some l => if l <? r then l else r | None => r end, top).

(** The initial block, reported even when empty: what is sent, and whether it was sent as empty;
    [None]: it cannot be reported. *)
Definition reportInitial (e : downloadEnv) (s : downloadState) (requestTo lastFin : Z) (blocks : list (EVMBlock E))
    : option (list (EVMBlock E) * bool * bool) :=
  if negb (initialBlockSent s) && (initialFromBlock <=? requestTo) then
    if existsb (fun b => eb_Num b =? initialFromBlock) blocks then Some ([], false, true)
    else match reportEmptyBlock (env_GetBlockHeader e) initialFromBlock initialFromBlock lastFin with
         | (msgs, true) => Some (msgs, true, true)
         | (_, false) => None
         end
  else Some ([], false, initialBlockSent s).

(** Reporting the range: the messages and the next [fromBlock] and [toBlock]. *)
Definition reportRange (e : downloadEnv) (s : downloadState) (requestTo lastFin : Z) (top preReportedInitial : bool)
    (blocks : list (EVMBlock E)) : list (EVMBlock E) * Z * Z :=
  let empty n min := fst (reportEmptyBlock (env_GetBlockHeader e) n min lastFin) in
  if requestTo <=? lastFin then
    let skipEmpty := preReportedInitial && (requestTo =? initialFromBlock) in
    let short := match last blocks with None => true | Some b => eb_Num b <? requestTo end in
    let minBlock := match last blocks with None => fromBlock s | Some b => Z.max (fromBlock s) (eb_Num b +u64 1) end in
    let msgs := reportBlocks blocks lastFin ++ (if negb skipEmpty && short then empty requestTo minBlock else []) in
    (msgs, requestTo +u64 1, nextTo (requestTo +u64 1))
  else
    match last blocks with
    | None =>
        if fromBlock s <=? lastFin then
          let skipEmpty := preReportedInitial && (lastFin =? initialFromBlock) in
          ((if skipEmpty then [] else empty lastFin (fromBlock s)), lastFin +u64 1, nextTo (lastFin +u64 1))
        else if top then
          let skipEmpty := preReportedInitial && (requestTo =? initialFromBlock) in
          ((if skipEmpty then [] else empty requestTo (fromBlock s)), requestTo +u64 1, nextTo (requestTo +u64 1))
        else match lastBlockNum with
             | None => ([], fromBlock s, toBlock s +u64 dl_syncBlockChunkSize d)
             | Some _ => ([], fromBlock s, toBlock s)
             end
    | Some b => (reportBlocks blocks lastFin, eb_Num b +u64 1, nextTo (eb_Num b +u64 1))
    end.

(** One iteration. *)
Definition downloadIteration (e : downloadEnv) (s0 : downloadState) : list (EVMBlock E) * downloadOutcome :=
  if env_done e then ([], Closed)
  else
    let s := waitPhase e s0 in
    match env_GetLastFinalizedBlock e with
    | None => ([], Continue s)
    | Some lastFinalizedBlock =>
        let lastFin := Z.min (lastBlock s) lastFinalizedBlock in
        let '(requestTo, top) := requestRange s in
        let blocks := env_GetEventsByBlockRange e (fromBlock s) requestTo in
        match reportInitial e s requestTo lastFin blocks with
        | None => ([], Closed)
        | Some (msgs1, preReported, sent) =>
            let '(msgs2, from', to') := reportRange e s requestTo lastFin top preReported blocks in
            let s' := mkDownloadState from' to' (lastBlock s) top sent (iteration s + 1) in
            (msgs1 ++ msgs2,
             if match lastBlockNum with Some l => (l <? from') || (l <=? requestTo) | None => false end then Closed
             else if negb (dl_stopDownloaderOnIterationN d =? 0) && (dl_stopDownloaderOnIterationN d <=? iteration s + 1) then Stopped
             else if dl_stopOnFinalizedBlockReached d && (lastFin <=? from') then Stopped
             else Continue s')
        end
    end.

(** The loop, one environment per iteration; it goes on when the environments are used up. *)
Fixpoint downloadLoop (envs : list downloadEnv) (s : downloadState) : list (EVMBlock E) * downloadOutcome :=
  match envs with
  | [] => ([], Continue s)
  | e :: envs' =>
      match downloadIteration e s with
      | (msgs, Continue s') => let (msgs', o) := downloadLoop envs' s' in (msgs ++ msgs', o)
      | (msgs, o) => (msgs, o)
      end
  end.

End Download.

Definition Download (d : EVMDownloader) (from : Z) (lastBlockNum : option Z) (includeEmptyFirstBlock : bool)
    (firstWait : Z) (envs : list downloadEnv) : list (EVMBlock E) * downloadOutcome :=
  downloadLoop d from lastBlockNum envs
    (mkDownloadState from (nextTo d lastBlockNum from) firstWait false (negb includeEmptyFirstBlock) 0).

End Events.

(** ** Ranges of ordered lists *)

(** The elements with a key between two bounds. *)
Definition between {A} (key : A -> Z) (from to : Z) (l : list A) : list A :=
  bfilter (fun x => (from <=? key x) && (key x <=? to)) l.

Lemma between_cons {A} (key : A -> Z) from to x l :
  between key from to (x :: l) = if (from <=? key x) && (key x <=? to) then x :: between key from to l else between key from to l.
Proof. done. Qed.

Lemma between_empty {A} (key : A -> Z) from to l : to < from -> between key from to l = [].
Proof.
  intros H. unfold between. induction l as [|x l IH]; [done|]. simpl.
  destruct ((from <=? key x) && (key x <=? to)) eqn:E; bool_hyps; [lia | done].
Qed.

(** Consecutive ranges of an ordered list. *)
Lemma between_app {A} (key : A -> Z) from mid to l :
  StronglySorted (fun a b => key a <= key b) l -> from <= mid + 1 -> mid <= to ->
  between key from mid l ++ between key (mid + 1) to l = between key from to l.
Proof.
  intros Hs Hf Ht. induction Hs as [|x l Hs IH Hl]; [done|]. unfold between in *. simpl.
  destruct (decide (key x <= mid)) as [Hle|Hgt].
  - rewrite (proj2 (Z.leb_le (key x) mid)) by done. rewrite (proj2 (Z.leb_gt (mid + 1) _)) by lia.
    rewrite (proj2 (Z.leb_le (key x) to)) by lia. simpl. rewrite andb_true_r.
    destruct (from <=? key x); simpl; [by rewrite IH | done].
  - assert (Hnil : bfilter (fun y => (from <=? key y) && (key y <=? mid)) l = []).
    { clear IH. induction Hl as [|y l Hy Hl IH]; [done|]. simpl. inversion Hs; subst.
      rewrite (proj2 (Z.leb_gt (key y) mid)) by lia. rewrite andb_false_r. by apply IH. }
    rewrite Hnil in *. rewrite (proj2 (Z.leb_gt (key x) mid)) by lia. rewrite andb_false_r. simpl.
    rewrite (proj2 (Z.leb_le (mid + 1) _)) by lia. rewrite (proj2 (Z.leb_le from _)) by lia. simpl in *. by rewrite IH.
Qed.

Lemma between_elem {A} (key : A -> Z) from to l x : x ∈ between key from to l <-> x ∈ l /\ from <= key x <= to.
Proof.
  rewrite !list_elem_of_In. unfold between. rewrite bfilter_In, andb_true_iff, !Z.leb_le. done.
Qed.

Abbreviation logs_between := (between lg_BlockNumber).
Abbreviation blocks_between := (between eb_Num).

(** ** Logs of a range: completeness *)

Section LogsProofs.
Context (client : filterClient) (maxRetry : Z) (truth : list Log).

(** Whenever the node answers a call it answers with the logs of the range; it may refuse any call. *)
Definition truthful : Prop := forall from to call logs, client from to call = Ok logs -> logs = logs_between from to truth.

(** Logs are ordered by block. *)
Definition logs_sorted (logs : list Log) : Prop := StronglySorted (fun a b => lg_BlockNumber a <= lg_BlockNumber b) logs.

(** A call inside a range that ends the search for its logs: the context was canceled, or the node
    has too many logs in a single block. *)
Definition search_ended (from to : Z) : Prop :=
  exists f t call, from <= f <= t /\ t <= to /\
    (client f t call = Err FCanceled \/ (f = t /\ client f t call = Err FTooManyLogs)).

(** From call [k] on the node has no other errors. *)
Definition errors_stop (k : nat) : Prop := forall f t call, (k <= call)%nat -> client f t call <> Err FOther.

(** The retry handler ended the process. *)
Definition retries_exhausted : Prop := -1 < maxRetry /\ exists f t call, client f t call = Err FOther.

(** A batch of ordered blocks below the last [uint64]: some first part of the range. *)
Lemma fetchBatch_cases fuel call start to size attempts :
  truthful -> 0 <= start <= to -> to < MaxUint64 -> 1 <= size -> start + size <= MaxUint64 ->
  match fetchBatch client maxRetry fuel call start to size attempts with
  | BOk logs end_ size' call' => logs = logs_between start end_ truth /\ start <= end_ <= to /\ 1 <= size' <= size /\ (call < call')%nat
  | BNil => search_ended start to
  | BFatal => retries_exhausted
  | BFuel => forall k, errors_stop k -> Z.of_nat fuel < size + Z.of_nat (k - call)
  end.
Proof.
  intros Hcl Hs Hto. revert call size attempts.
  induction fuel as [|fuel IH]; intros call size attempts H1 Hm; cbn [fetchBatch]; [intros; lia|].
  rewrite (add64_small start size) by (unfold_words; lia). rewrite sub64_small by (unfold_words; lia).
  set (end_ := if to <? start + size - 1 then to else start + size - 1).
  assert (He : start <= end_ <= to /\ (size = 1 -> end_ = start)).
  { unfold end_. destruct (to <? start + size - 1) eqn:E; bool_hyps; lia. }
  destruct (client start end_ call) as [logs|[]] eqn:Ec.
  - split_and!; [by apply (Hcl _ _ call) | lia..].
  - exists start, end_, call. split_and!; [lia.. | by left].
  - destruct (size =? 1) eqn:E1; bool_hyps.
    { exists start, end_, call. split_and!; [lia.. | right]. split; [symmetry; by apply He | done]. }
    assert (1 <= size / 2 <= size - 1) by (pose proof (Z.div_mod size 2); pose proof (Z.mod_pos_bound size 2); lia).
    specialize (IH (S call) (size / 2) attempts ltac:(lia) ltac:(lia)).
    destruct (fetchBatch _ _ _ _ _ _ _ _); [|done|done|intros k Hk; specialize (IH k Hk); lia].
    destruct IH as (? & ? & ? & ?). split_and!; [done | lia..].
  - destruct (HandleAttempts maxRetry (attempts + 1)) eqn:Ea.
    { split; [unfold HandleAttempts in Ea; bool_hyps; lia | by exists start, end_, call]. }
    specialize (IH (S call) size (attempts + 1) ltac:(lia) ltac:(lia)).
    destruct (fetchBatch _ _ _ _ _ _ _ _); [|done|done|].
    + destruct IH as (? & ? & ? & ?). split_and!; [done | lia..].
    + intros k Hk. specialize (IH k Hk). destruct (Nat.le_gt_cases k call) as [Hle|Hgt]; [by destruct (Hk start end_ call Hle) | lia].
Qed.

Lemma search_ended_mono from from' to : from <= from' -> search_ended from' to -> search_ended from to.
Proof. intros Hle (f & t & c & ? & ? & ?). exists f, t, c. split_and!; [lia.. | done]. Qed.

Lemma unfilteredLogs_loop_cases fuel call start to size results :
  truthful -> logs_sorted truth -> 0 <= start <= to + 1 -> to < MaxUint64 -> 1 <= size -> to + size < MaxUint64 ->
  match unfilteredLogs_loop client maxRetry fuel call start to size results with
  | LOk logs => logs = results ++ logs_between start to truth
  | LNil => search_ended start to
  | LFatal => retries_exhausted
  | LFuel => forall k, errors_stop k -> Z.of_nat fuel < to + 1 - start + size + Z.of_nat (k - call)
  end.
Proof.
  intros Hcl Hsort. revert call start size results.
  induction fuel as [|fuel IH]; intros call start size results Hs Hto H1 Hm; cbn [unfilteredLogs_loop].
  all: destruct (to <? start) eqn:E; bool_hyps; [by rewrite between_empty, app_nil_r by lia|].
  { intros; lia. }
  pose proof (fetchBatch_cases fuel call start to size 0 Hcl ltac:(lia) ltac:(lia) ltac:(lia) ltac:(lia)) as Hb.
  destruct (fetchBatch _ _ _ _ _ _ _ _) as [logs e s' c' | | |]; [|done|done|intros k Hk; specialize (Hb k Hk); lia].
  destruct Hb as (-> & He & Hs' & Hc). rewrite add64_small by (unfold_words; lia).
  specialize (IH c' (e + 1) s' (results ++ logs_between start e truth) ltac:(lia) ltac:(lia) ltac:(lia) ltac:(lia)).
  destruct (unfilteredLogs_loop _ _ _ _ _ _ _ _); [| |done|].
  - by rewrite IH, <- app_assoc, between_app by (done || lia).
  - by apply (search_ended_mono _ (e + 1)); [lia|].
  - intros k Hk. specialize (IH k Hk). lia.
Qed.

Lemma getUnfilteredLogs_cases fuel from to :
  truthful -> logs_sorted truth -> 0 <= from <= to -> 2 * to + 1 < MaxUint64 ->
  match getUnfilteredLogs client maxRetry fuel from to with
  | LOk logs => logs = logs_between from to truth
  | LNil => search_ended from to
  | LFatal => retries_exhausted
  | LFuel => forall k, errors_stop k -> Z.of_nat fuel < 2 * (to - from + 1) + Z.of_nat k
  end.
Proof.
  intros Hcl Hsort Hft Hto. unfold getUnfilteredLogs. rewrite sub64_small by (unfold_words; lia).
  rewrite add64_small by (unfold_words; lia).
  pose proof (unfilteredLogs_loop_cases fuel 0 from to (to - from + 1) [] Hcl Hsort ltac:(lia) ltac:(lia) ltac:(lia) ltac:(lia)) as H.
  destruct (unfilteredLogs_loop _ _ _ _ _ _ _ _); [done | done | done |]. intros k Hk. specialize (H k Hk). lia.
Qed.

(** C34. Whatever the node refuses, as long as the logs it does answer with are those of the range asked
    for and its errors stop at some call [k], the search ends within a number of steps given by the size
    of the range and [k].  If it returns logs, they are exactly the logs of the range, in order, once
    each: halving loses and repeats nothing.  It returns nil only when a call was canceled or the node
    refused a single block of the range as having too many logs, and it ends the process only when the
    number of retries is limited and the node had an error. *)
Theorem getUnfilteredLogs_complete fuel from to k :
  truthful -> logs_sorted truth -> errors_stop k -> 0 <= from <= to -> 2 * to + 1 < MaxUint64 ->
  2 * (to - from + 1) + Z.of_nat k <= Z.of_nat fuel ->
  match getUnfilteredLogs client maxRetry fuel from to with
  | LOk logs => logs = logs_between from to truth
  | LNil => search_ended from to
  | LFatal => retries_exhausted
  | LFuel => False
  end.
Proof.
  intros Hcl Hsort Hk Hft Hto Hf. pose proof (getUnfilteredLogs_cases fuel from to Hcl Hsort Hft Hto) as H.
  destruct (getUnfilteredLogs _ _ _ _ _); [done.. |]. specialize (H k Hk). lia.
Qed.

End LogsProofs.

(** ** Logs into blocks *)

Section EventsProofs.
Context {E : Type}.
Implicit Types (q : @eventsQuery E) (b : EVMBlock E).

(** The header of the block of every log is available and has the hash of the log. *)
Definition headers_match q (logs : list Log) : Prop :=
  Forall (fun l => exists h, eq_header q (lg_BlockNumber l) = Some h /\ eh_Hash h = lg_BlockHash l) logs.

(** The block of a log, with its events only. *)
Definition newBlock q (l : Log) : EVMBlock E :=
  let (p, t) := match eq_header q (lg_BlockNumber l) with Some h => (eh_ParentHash h, eh_Timestamp h) | None => (0, 0) end in
  mkEVMBlock (mkEVMBlockHeader (lg_BlockNumber l) (lg_BlockHash l) p t) false (eq_append q l).

(** Prepend the events of a block to the first of a list when it is the same block. *)
Definition mergeFirst b (bs : list (EVMBlock E)) : list (EVMBlock E) :=
  match bs with
  | [] => [b]
  | g :: gs => if eb_Num g =? eb_Num b then mkEVMBlock (eb_Header b) (eb_IsFinalizedBlock b) (eb_Events b ++ eb_Events g) :: gs
               else b :: g :: gs
  end.

(** One block per block number, with the events of its logs in order. *)
Fixpoint groupBlocks q (logs : list Log) : list (EVMBlock E) :=
  match logs with
  | [] => []
  | l :: logs' => mergeFirst (newBlock q l) (groupBlocks q logs')
  end.

Lemma newBlock_num q l : eb_Num (newBlock q l) = lg_BlockNumber l.
Proof. unfold newBlock, eb_Num. by destruct (eq_header q _). Qed.

Lemma mergeFirst_head b bs : exists b' bs', mergeFirst b bs = b' :: bs' /\ eb_Num b' = eb_Num b.
Proof. destruct bs as [|g gs]; simpl; [by eexists _, _|]. destruct (_ =? _); by eexists _, _. Qed.

Lemma addEvents_snoc (pre : list (EVMBlock E)) b es :
  addEvents (pre ++ [b]) es = pre ++ [mkEVMBlock (eb_Header b) (eb_IsFinalizedBlock b) (eb_Events b ++ es)].
Proof. unfold addEvents. rewrite last_snoc. by rewrite removelast_last. Qed.

(** The loop with a current block is the grouping merged with that block. *)
Lemma eventsLoop_group q logs pre b :
  headers_match q logs -> logs_sorted logs -> Forall (fun l => eb_Num b <= lg_BlockNumber l) logs ->
  eventsLoop q logs (pre ++ [b]) = EvBlocks (pre ++ mergeFirst b (groupBlocks q logs)).
Proof.
  revert pre b. induction logs as [|l logs IH]; intros pre b Hm Hs Hb; [done|]. simpl. rewrite last_snoc.
  apply Forall_cons in Hm as [(h & Hh & Hhash) Hm]. inversion Hs as [|? ? Hs' Hl]; subst.
  apply Forall_cons in Hb as [Hbl Hb]. destruct (eb_Num b <? lg_BlockNumber l) eqn:En; bool_hyps.
  - rewrite Hh, Hhash, Z.eqb_refl. simpl. rewrite addEvents_snoc. cbn [eb_Header eb_IsFinalizedBlock eb_Events app].
    replace (mkEVMBlock (mkEVMBlockHeader (lg_BlockNumber l) (lg_BlockHash l) (eh_ParentHash h) (eh_Timestamp h)) false (eq_append q l))
      with (newBlock q l) by (unfold newBlock; by rewrite Hh).
    rewrite IH; [|done|done|by rewrite newBlock_num]. rewrite <- app_assoc. do 2 f_equal.
    destruct (mergeFirst_head (newBlock q l) (groupBlocks q logs)) as (b' & bs' & -> & Hn).
    unfold mergeFirst at 1. rewrite (proj2 (Z.eqb_neq _ _)); [done|]. rewrite Hn, newBlock_num. lia.
  - rewrite addEvents_snoc. assert (Hbn : eb_Num b = lg_BlockNumber l) by lia.
    rewrite IH; [|done|done|done]. do 2 f_equal. set (b' := mkEVMBlock _ _ _).
    assert (Hn : eb_Num (newBlock q l) = eb_Num b) by (rewrite newBlock_num; lia).
    assert (Hev : eb_Events (newBlock q l) = eq_append q l) by (unfold newBlock; by rewrite Hh).
    destruct (groupBlocks q logs) as [|g gs]; cbn [mergeFirst].
    + by rewrite Hn, Z.eqb_refl, Hev.
    + change (eb_Num b') with (eb_Num b). rewrite Hn. destruct (eb_Num g =? eb_Num b) eqn:Eg; cbn [mergeFirst].
      * change (eb_Num (mkEVMBlock (eb_Header (newBlock q l)) _ _)) with (eb_Num (newBlock q l)).
        rewrite Hn, Z.eqb_refl. cbn [eb_Events b' eb_Header eb_IsFinalizedBlock]. by rewrite Hev, <- app_assoc.
      * by rewrite Hn, Z.eqb_refl, Hev.
Qed.

Lemma eventsLoop_groupBlocks q logs :
  headers_match q logs -> logs_sorted logs -> eventsLoop q logs [] = EvBlocks (groupBlocks q logs).
Proof.
  destruct logs as [|l logs]; [done|]. intros Hm Hs. apply Forall_cons in Hm as [(h & Hh & Hhash) Hm].
  inversion Hs as [|? ? Hs' Hl]; subst. simpl. rewrite Hh, Hhash, Z.eqb_refl. simpl.
  unfold addEvents. simpl.
  replace (mkEVMBlock (mkEVMBlockHeader (lg_BlockNumber l) (lg_BlockHash l) (eh_ParentHash h) (eh_Timestamp h)) false (eq_append q l))
    with (newBlock q l) by (unfold newBlock; by rewrite Hh).
  apply (eventsLoop_group q logs [] (newBlock q l)); [done | done |]. by rewrite newBlock_num.
Qed.

Lemma groupBlocks_num q logs b : b ∈ groupBlocks q logs -> exists l, l ∈ logs /\ eb_Num b = lg_BlockNumber l.
Proof.
  induction logs as [|l logs IH]; simpl; [by intros H%elem_of_nil|]. intros Hb.
  assert (Hor : eb_Num b = lg_BlockNumber l \/ b ∈ groupBlocks q logs).
  { destruct (groupBlocks q logs) as [|g gs]; simpl in Hb.
    - apply list_elem_of_singleton in Hb as ->. left. apply newBlock_num.
    - destruct (eb_Num g =? eb_Num (newBlock q l)); apply elem_of_cons in Hb as [-> | Hb].
      + left. apply newBlock_num.
      + right. by right.
      + left. apply newBlock_num.
      + by right. }
  destruct Hor as [Hn|Hin]; [exists l; split; [by left | done]|]. destruct (IH Hin) as (l' & ? & ?). exists l'. split; [by right | done].
Qed.

(** Block numbers of the grouping are strictly increasing. *)
Lemma groupBlocks_sorted q logs : logs_sorted logs -> StronglySorted (fun a b => eb_Num a < eb_Num b) (groupBlocks q logs).
Proof.
  induction 1 as [|l logs Hs IH Hl]; [constructor|]. simpl.
  assert (Hge : forall b, b ∈ groupBlocks q logs -> lg_BlockNumber l <= eb_Num b).
  { intros b Hb. destruct (groupBlocks_num _ _ _ Hb) as (l' & Hl' & ->). rewrite Forall_forall in Hl. by apply Hl. }
  destruct (groupBlocks q logs) as [|g gs]; simpl; [by repeat constructor|].
  inversion IH as [|? ? IH' Hg]; subst. destruct (eb_Num g =? eb_Num (newBlock q l)) eqn:Eg; bool_hyps.
  - constructor; [done|]. eapply Forall_impl; [exact Hg|]. intros x Hx. change (eb_Num (newBlock q l) < eb_Num x). rewrite <- Eg. exact Hx.
  - rewrite newBlock_num in Eg. pose proof (Hge g ltac:(by left)). constructor; [done|]. apply Forall_forall. intros x Hx.
    rewrite newBlock_num. apply elem_of_cons in Hx as [-> | Hx]; [lia|]. rewrite Forall_forall in Hg. specialize (Hg x Hx). lia.
Qed.

Lemma mergeFirst_between from to b bs :
  blocks_between from to (mergeFirst b bs) =
    if (from <=? eb_Num b) && (eb_Num b <=? to) then
      match bs with
      | [] => [b]
      | g :: gs => if eb_Num g =? eb_Num b
                   then mkEVMBlock (eb_Header b) (eb_IsFinalizedBlock b) (eb_Events b ++ eb_Events g) :: blocks_between from to gs
                   else b :: blocks_between from to (g :: gs)
      end
    else match bs with
         | [] => []
         | g :: gs => if eb_Num g =? eb_Num b then blocks_between from to gs else blocks_between from to (g :: gs)
         end.
Proof.
  destruct bs as [|g gs]; unfold between; simpl; [by destruct (_ && _)|].
  destruct (eb_Num g =? eb_Num b); simpl; [|by destruct (_ && _)].
  change (eb_Num (mkEVMBlock (eb_Header b) _ _)) with (eb_Num b). by destruct (_ && _).
Qed.

(** Grouping the logs of a range gives the blocks of the range. *)
Lemma groupBlocks_between q logs from to :
  logs_sorted logs -> groupBlocks q (logs_between from to logs) = blocks_between from to (groupBlocks q logs).
Proof.
  induction 1 as [|l logs Hs IH Hl]; [done|]. cbn [groupBlocks]. rewrite mergeFirst_between, newBlock_num.
  rewrite between_cons. pose proof (groupBlocks_sorted q logs Hs) as Hsb.
  assert (Hge : forall b, b ∈ groupBlocks q logs -> lg_BlockNumber l <= eb_Num b).
  { intros b Hb. destruct (groupBlocks_num _ _ _ Hb) as (l' & Hl' & ->). rewrite Forall_forall in Hl. by apply Hl. }
  destruct ((from <=? lg_BlockNumber l) && (lg_BlockNumber l <=? to)) eqn:Er; cbn [groupBlocks]; rewrite IH; clear IH.
  - destruct (groupBlocks q logs) as [|g gs]; [done|]. inversion Hsb as [|? ? _ Hg]; subst.
    destruct (eb_Num g =? lg_BlockNumber l) eqn:Eg; bool_hyps.
    + rewrite between_cons, Eg, (proj2 (Z.leb_le _ _)), (proj2 (Z.leb_le _ _)) by lia.
      cbn [andb mergeFirst]. by rewrite newBlock_num, Eg, Z.eqb_refl.
    + destruct (blocks_between from to (g :: gs)) as [|x xs] eqn:Ex; [done|]. cbn [mergeFirst].
      assert (Hx : x ∈ g :: gs) by (apply (between_elem eb_Num from to); rewrite Ex; by left).
      rewrite newBlock_num, (proj2 (Z.eqb_neq (eb_Num x) _)); [done|].
      pose proof (Hge g ltac:(by left)). apply elem_of_cons in Hx as [-> | Hx]; [lia|].
      rewrite Forall_forall in Hg. specialize (Hg x Hx). lia.
  - destruct (groupBlocks q logs) as [|g gs]; [done|]. destruct (eb_Num g =? lg_BlockNumber l) eqn:Eg; bool_hyps; [|done].
    by rewrite between_cons, Eg, Er.
Qed.

(** When the headers agree with the logs at the first attempt, [GetEventsByBlockRange] gives one
    block per block number with logs in the range, in increasing order, with the events of its logs:
    the blocks of the range among the blocks of all logs. *)
Theorem GetEventsByBlockRange_blocks (queries : nat -> @eventsQuery E) done logs from to :
  done 0%nat = false -> logs_sorted logs -> eq_logs (queries 0%nat) = logs_between from to logs ->
  headers_match (queries 0%nat) logs ->
  GetEventsByBlockRange queries done = blocks_between from to (groupBlocks (queries 0%nat) logs) /\
  StronglySorted (fun a b => eb_Num a < eb_Num b) (GetEventsByBlockRange queries done).
Proof.
  intros Hd Hs Hq Hm. assert (E0 : GetEventsByBlockRange queries done = groupBlocks (queries 0%nat) (logs_between from to logs)).
  { unfold GetEventsByBlockRange. simpl. rewrite Hd, Hq, eventsLoop_groupBlocks; [done | |].
    - unfold headers_match in *. rewrite Forall_forall in Hm |- *. intros l Hl. apply Hm.
      by apply between_elem in Hl as [Hl _].
    - by apply bfilter_StronglySorted. }
  split; rewrite E0; [by apply groupBlocks_between|]. apply groupBlocks_sorted. by apply bfilter_StronglySorted.
Qed.

End EventsProofs.

(** ** A request to the node *)

Section Requests.
Context {E : Type}.

(** What the node answers during one call of [GetEventsByBlockRange]: for each attempt whether the
    context is done before it, the answers of [FilterLogs], and those of [HeaderByNumber] for a block. *)
Record requestNode := mkRequestNode {
  nd_done : nat -> bool;
  nd_FilterLogs : nat -> filterClient;
  nd_HeaderByNumber : nat -> Z -> list (result headerError EVMBlockHeader)
}.

Context (maxRetry : Z) (topics : list Z) (fuel : nat) (append : Log -> list E).

Definition nodeQuery (n : requestNode) (from to : Z) (i : nat) : @eventsQuery E :=
  mkEventsQuery
    (match GetLogs (nd_FilterLogs n i) maxRetry topics fuel from to with LOk logs => logs | _ => [] end)
    (fun b => match GetBlockHeader maxRetry (nd_HeaderByNumber n i b) 0 with HeaderOk h => Some h | _ => None end)
    append.

Definition nodeEvents (n : requestNode) (from to : Z) : list (EVMBlock E) :=
  GetEventsByBlockRange (nodeQuery n from to) (nd_done n).

(** The chain: its logs [truth] in order, and the header of each block. *)
Context (truth : list Log) (hdr : Z -> EVMBlockHeader).

Record truth_ok : Prop := {
  to_sorted : logs_sorted truth;
  to_hashes : forall l, l ∈ truth -> eh_Hash (hdr (lg_BlockNumber l)) = lg_BlockHash l
}.

Definition chainQuery : @eventsQuery E := mkEventsQuery [] (fun b => Some (hdr b)) append.

(** Its blocks with the events of the topics the syncer follows. *)
Definition chainBlocks : list (EVMBlock E) := groupBlocks chainQuery (filterLogs topics truth).

(** The node may refuse, fail and disagree with itself about headers, but the logs it answers with are
    those of the chain, a header with the hash of a block is the header of the block, and the retry
    handler does not end the process on the ranges below [M]. *)
Record node_ok (M : Z) (n : requestNode) : Prop := {
  no_truthful : forall i, truthful (nd_FilterLogs n i) truth;
  no_header : forall i b h, Ok h ∈ nd_HeaderByNumber n i b -> eh_Hash h = eh_Hash (hdr b) -> h = hdr b;
  no_logs_end : forall i f t, 0 <= f <= t -> t <= M ->
    getUnfilteredLogs (nd_FilterLogs n i) maxRetry fuel f t <> LFatal /\
    getUnfilteredLogs (nd_FilterLogs n i) maxRetry fuel f t <> LFuel;
  no_header_end : forall i b, GetBlockHeader maxRetry (nd_HeaderByNumber n i b) 0 <> HeaderFatal /\
    GetBlockHeader maxRetry (nd_HeaderByNumber n i b) 0 <> HeaderFuel
}.

(** At an attempt the node has a log of the range and a header of its block with another hash. *)
Definition mismatch_at (n : requestNode) (from to : Z) (i : nat) : Prop :=
  exists l h, l ∈ logs_between from to truth /\ Ok h ∈ nd_HeaderByNumber n i (lg_BlockNumber l) /\ eh_Hash h <> lg_BlockHash l.

(** Why a request can be given up: the context was done or a call canceled, the node refused a single
    block as having too many logs, or a hash disagreed at every attempt. *)
Inductive gave_up (n : requestNode) (from to : Z) : Prop :=
| gu_done i : nd_done n i = true -> gave_up n from to
| gu_logs i : search_ended (nd_FilterLogs n i) from to -> gave_up n from to
| gu_header i b : Err HCanceled ∈ nd_HeaderByNumber n i b -> gave_up n from to
| gu_mismatch : (forall i, Z.of_nat i <= MaxRetryCountBlockHashMismatch -> mismatch_at n from to i) -> gave_up n from to.

Lemma GetBlockHeader_cases answers attempts :
  match GetBlockHeader maxRetry answers attempts with
  | HeaderOk h => Ok h ∈ answers
  | HeaderCanceled => Err HCanceled ∈ answers
  | _ => True
  end.
Proof.
  revert attempts. induction answers as [|[h|[]] answers IH]; intros attempts; cbn [GetBlockHeader]; [done | by left | by left | |].
  - specialize (IH attempts). destruct (GetBlockHeader _ _ _); [by right | by right | done | done].
  - destruct (HandleAttempts _ _); [done|]. specialize (IH (attempts + 1)).
    destruct (GetBlockHeader _ _ _); [by right | by right | done | done].
Qed.

(** The loop over logs of the chain: blocks built from the node's headers are those built from the
    headers of the chain. *)
Lemma eventsLoop_cases M n from to i logs blocks :
  node_ok M n -> truth_ok -> (forall l, l ∈ logs -> l ∈ logs_between from to truth) ->
  match eventsLoop (nodeQuery n from to i) logs blocks with
  | EvBlocks bs => eventsLoop chainQuery logs blocks = EvBlocks bs
  | EvCanceled => gave_up n from to
  | EvMismatch => mismatch_at n from to i
  end.
Proof.
  intros Hn Ht. revert blocks. induction logs as [|l logs IH]; intros blocks Hin; cbn [eventsLoop]; [done|].
  assert (Hl : l ∈ logs_between from to truth) by (apply Hin; by left).
  assert (Hin' : forall l', l' ∈ logs -> l' ∈ logs_between from to truth) by (intros; apply Hin; by right).
  destruct (match last blocks with None => true | Some b => eb_Num b <? lg_BlockNumber l end); [|by apply IH].
  cbn [nodeQuery chainQuery eq_header eq_append]. pose proof (GetBlockHeader_cases (nd_HeaderByNumber n i (lg_BlockNumber l)) 0) as Hg.
  destruct (no_header_end M n Hn i (lg_BlockNumber l)) as [Hf1 Hf2].
  destruct (GetBlockHeader _ _ _) as [h| | |]; [|by apply (gu_header n from to i (lg_BlockNumber l))|done|done].
  destruct (eh_Hash h =? lg_BlockHash l) eqn:Eh; cbn [negb]; bool_hyps; [|by exists l, h].
  apply between_elem in Hl as [Hl _]. pose proof (to_hashes Ht l Hl) as Hhash.
  rewrite <- (no_header M n Hn i _ h Hg) by congruence. rewrite Eh, Z.eqb_refl. cbn [negb]. by apply IH.
Qed.

Lemma filterLogs_between from to logs : filterLogs topics (logs_between from to logs) = logs_between from to (filterLogs topics logs).
Proof. unfold filterLogs, between. rewrite !bfilter_bfilter. apply bfilter_ext. intros. apply andb_comm. Qed.

Lemma filterLogs_In l logs : l ∈ filterLogs topics logs -> l ∈ logs.
Proof. rewrite !list_elem_of_In. unfold filterLogs. rewrite bfilter_In. tauto. Qed.

Lemma chainBlocks_loop from to :
  truth_ok -> eventsLoop chainQuery (logs_between from to (filterLogs topics truth)) [] = EvBlocks (blocks_between from to chainBlocks).
Proof.
  intros Ht. assert (Hs : logs_sorted (filterLogs topics truth)) by (apply bfilter_StronglySorted, Ht).
  unfold chainBlocks. rewrite <- groupBlocks_between by done. apply eventsLoop_groupBlocks; [|by apply bfilter_StronglySorted].
  apply Forall_forall. intros l Hl. apply between_elem in Hl as [Hl%filterLogs_In _]. exists (hdr (lg_BlockNumber l)).
  split; [done | by apply Ht].
Qed.

Lemma nodeEvents_attempts M n from to left retry :
  node_ok M n -> truth_ok -> 0 <= from <= to -> to <= M -> 2 * M + 1 < MaxUint64 ->
  getEventsByBlockRangeWithRetry (nodeQuery n from to) (nd_done n) retry left = blocks_between from to chainBlocks \/
  (getEventsByBlockRangeWithRetry (nodeQuery n from to) (nd_done n) retry left = [] /\
   (gave_up n from to \/ forall i, (retry <= i <= retry + left)%nat -> mismatch_at n from to i)).
Proof.
  intros Hn Ht Hf HM Hov. revert retry. induction left as [|left IH]; intros retry; cbn [getEventsByBlockRangeWithRetry].
  all: destruct (nd_done n retry) eqn:Ed; [right; split; [done | left; by apply (gu_done n from to retry)]|].
  all: pose proof (getUnfilteredLogs_cases (nd_FilterLogs n retry) maxRetry truth fuel from to
         (no_truthful M n Hn retry) (to_sorted Ht) Hf ltac:(lia)) as Hlogs.
  all: destruct (no_logs_end M n Hn retry from to Hf HM) as [Hl1 Hl2].
  all: cbn [nodeQuery eq_logs]; unfold GetLogs.
  all: destruct (getUnfilteredLogs _ _ _ _ _) as [logs| | |]; [subst logs | cbn [eventsLoop]; right; split; [done | left; by apply (gu_logs n from to retry)] | done | done].
  all: rewrite filterLogs_between.
  all: pose proof (eventsLoop_cases M n from to retry (logs_between from to (filterLogs topics truth)) [] Hn Ht) as Hev.
  all: rewrite chainBlocks_loop in Hev by done.
  all: assert (Hin : forall l, l ∈ logs_between from to (filterLogs topics truth) -> l ∈ logs_between from to truth)
         by (intros l; rewrite !between_elem; intros [?%filterLogs_In ?]; done).
  all: specialize (Hev Hin); destruct (eventsLoop _ _ _) as [bs| |]; [left; by injection Hev as -> | right; split; [done | by left] |].
  - right. split; [done|]. right. intros i Hi. by replace i with retry by lia.
  - destruct (IH (S retry)) as [-> | [-> [Hg|Hm]]]; [by left | right; by split; [|left] | right]. split; [done|]. right.
    intros i Hi. destruct (decide (i = retry)) as [->|Hne]; [done | apply Hm; lia].
Qed.

(** A request gives the blocks of the chain over its range, or nothing, and then for one of four reasons. *)
Lemma nodeEvents_cases M n from to :
  node_ok M n -> truth_ok -> 0 <= from <= to -> to <= M -> 2 * M + 1 < MaxUint64 ->
  nodeEvents n from to = blocks_between from to chainBlocks \/ (nodeEvents n from to = [] /\ gave_up n from to).
Proof.
  intros Hn Ht Hf HM Hov. unfold nodeEvents, GetEventsByBlockRange.
  destruct (nodeEvents_attempts M n from to (Z.to_nat MaxRetryCountBlockHashMismatch) 0 Hn Ht Hf HM Hov) as [H|[H [Hg|Hm]]];
    [by left | by right | right]. split; [done|]. apply gu_mismatch. intros i Hi. apply Hm. unfold MaxRetryCountBlockHashMismatch in *. lia.
Qed.

Lemma chainBlocks_sorted : truth_ok -> StronglySorted (fun a b => eb_Num a < eb_Num b) chainBlocks.
Proof. intros Ht. apply groupBlocks_sorted, bfilter_StronglySorted, Ht. Qed.

End Requests.

(** ** The loop of [Download] *)

(** Ranges of blocks passed over by requests that were given up, and the blocks outside of them. *)
Definition in_ranges (lost : list (Z * Z)) (n : Z) : bool := existsb (fun r => (fst r <=? n) && (n <=? snd r)) lost.
Definition not_lost {E} (lost : list (Z * Z)) (blocks : list (EVMBlock E)) : list (EVMBlock E) :=
  bfilter (fun b => negb (in_ranges lost (eb_Num b))) blocks.

Section ReportProofs.
Context {E : Type} (d : EVMDownloader) (initial G : Z) (chain : list (EVMBlock E)).

(** The context lives, the head is ahead of what was seen and grows by at most [G] per wait, and a
    missing block resolves to an earlier one. *)
Record env_ok (e : downloadEnv (E := E)) : Prop := {
  eo_done : env_done e = false;
  eo_wait : forall lb, lb < env_WaitForNewBlocks e lb <= lb + G;
  eo_header : forall n h, env_GetBlockHeader e n = Some h -> eh_Num h <= n
}.

Definition chain_ok : Prop := StronglySorted (fun a b : EVMBlock E => eb_Num a < eb_Num b) chain.

Definition payload (b : EVMBlock E) : EVMBlockHeader * list E := (eb_Header b, eb_Events b).
Definition has_events (b : EVMBlock E) : bool := match eb_Events b with [] => false | _ => true end.

(** Reports that cover the blocks from [from] up to, not including, [from'], but for the ranges [lost]. *)
Record covers (lost : list (Z * Z)) (from from' : Z) (msgs : list (EVMBlock E)) : Prop := {
  cv_sorted : StronglySorted (fun a b => eb_Num a < eb_Num b) msgs;
  cv_range : forall b, b ∈ msgs -> from <= eb_Num b < from';
  cv_lost : forall f t, (f, t) ∈ lost -> from <= f /\ t < from';
  cv_events : map payload (bfilter has_events msgs) =
    map payload (bfilter has_events (not_lost lost (blocks_between from (from' - 1) chain)))
}.

(** The loop at the head of an iteration, [n] iterations before the numbers could overflow. *)
Record dl_inv (M : Z) (n : nat) (s : downloadState) : Prop := {
  di_from : 0 <= fromBlock s <= lastBlock s + 1;
  di_to : fromBlock s < toBlock s <= M + 1 + dl_syncBlockChunkSize d;
  di_last : lastBlock s + Z.of_nat n * G <= M;
  di_sent : initialBlockSent s = true
}.

Definition dl_plain : Prop :=
  1 <= dl_syncBlockChunkSize d /\ dl_stopDownloaderOnIterationN d = 0 /\ dl_stopOnFinalizedBlockReached d = false.

Lemma not_lost_nil (bs : list (EVMBlock E)) : not_lost [] bs = bs.
Proof. by apply bfilter_all. Qed.

Lemma covers_nil from : covers [] from from [].
Proof.
  constructor; [constructor | by intros b H%elem_of_nil | by intros f t H%elem_of_nil | by rewrite between_empty by lia].
Qed.

Lemma chain_le : chain_ok -> StronglySorted (fun a b : EVMBlock E => eb_Num a <= eb_Num b) chain.
Proof.
  intros Hs. induction Hs as [|a l Hs IH Ha]; constructor; [done|]. eapply Forall_impl; [exact Ha|]. simpl. lia.
Qed.

(** Ranges that do not meet the blocks of a range play no role there. *)
Lemma not_lost_app from to l1 l2 (bs : list (EVMBlock E)) :
  (forall f t, (f, t) ∈ l2 -> t < from \/ to < f) ->
  not_lost (l1 ++ l2) (blocks_between from to bs) = not_lost l1 (blocks_between from to bs) /\
  not_lost (l2 ++ l1) (blocks_between from to bs) = not_lost l1 (blocks_between from to bs).
Proof.
  intros H. assert (Hf : forall b, In b (blocks_between from to bs) -> in_ranges l2 (eb_Num b) = false).
  { intros b Hb. apply list_elem_of_In, between_elem in Hb as [_ Hb]. apply existsb_false_In. intros [f t] Hr.
    apply list_elem_of_In in Hr. destruct (H f t Hr); cbn; apply andb_false_iff;
      [right; apply Z.leb_gt | left; apply Z.leb_gt]; lia. }
  split; apply bfilter_ext; intros b Hb; unfold in_ranges; rewrite existsb_app; fold (in_ranges l1 (eb_Num b)) (in_ranges l2 (eb_Num b));
    rewrite (Hf b Hb); [by rewrite orb_false_r | done].
Qed.

Lemma not_lost_split l1 l2 a b c :
  chain_ok -> a <= b <= c -> (forall f t, (f, t) ∈ l1 -> t < b) -> (forall f t, (f, t) ∈ l2 -> b <= f) ->
  not_lost (l1 ++ l2) (blocks_between a (c - 1) chain) =
    not_lost l1 (blocks_between a (b - 1) chain) ++ not_lost l2 (blocks_between b (c - 1) chain).
Proof.
  intros Hch Habc H1 H2. rewrite <- (between_app eb_Num a (b - 1) (c - 1)) by (by apply chain_le || lia).
  replace (b - 1 + 1) with b by lia. unfold not_lost at 1. rewrite bfilter_app. f_equal.
  - apply (not_lost_app a (b - 1) l1 l2). intros f t Hf. pose proof (H2 f t Hf). lia.
  - apply (not_lost_app b (c - 1) l2 l1). intros f t Hf. pose proof (H1 f t Hf). lia.
Qed.

Lemma covers_app l1 l2 a b c msgs msgs' :
  chain_ok -> a <= b <= c -> covers l1 a b msgs -> covers l2 b c msgs' -> covers (l1 ++ l2) a c (msgs ++ msgs').
Proof.
  intros Hch Habc [S1 R1 L1 E1] [S2 R2 L2 E2]. constructor.
  - apply StronglySorted_app_2; [|done|done]. intros x y Hx Hy. pose proof (R1 x Hx). pose proof (R2 y Hy). lia.
  - intros x Hx. apply elem_of_app in Hx as [Hx|Hx]; [pose proof (R1 x Hx) | pose proof (R2 x Hx)]; lia.
  - intros f t Hx. apply elem_of_app in Hx as [Hx|Hx]; [pose proof (L1 f t Hx) | pose proof (L2 f t Hx)]; lia.
  - rewrite (not_lost_split l1 l2 a b c), !bfilter_app, !map_app, E1, E2; [done | done | done | |].
    + intros f t Hf. pose proof (L1 f t Hf). lia.
    + intros f t Hf. pose proof (L2 f t Hf). lia.
Qed.

Lemma not_lost_all from to (bs : list (EVMBlock E)) : not_lost [(from, to)] (blocks_between from to bs) = [].
Proof.
  apply drop_all. intros b Hb. apply list_elem_of_In, between_elem in Hb as [_ Hb]. unfold in_ranges. cbn.
  by rewrite (proj2 (Z.leb_le _ _)), (proj2 (Z.leb_le _ _)) by lia.
Qed.

(** A range passed over without an answer is lost. *)
Lemma covers_all_lost from from' msgs :
  StronglySorted (fun a b => eb_Num a < eb_Num b) msgs -> (forall b, b ∈ msgs -> from <= eb_Num b < from') ->
  bfilter has_events msgs = [] -> covers [(from, from' - 1)] from from' msgs.
Proof.
  intros Hs Hr He. constructor; [done | done | intros f t [= -> ->]%list_elem_of_singleton; lia |].
  by rewrite He, not_lost_all.
Qed.

(** The blocks with events of a range. *)
Lemma covers_blocks from to lastFin :
  chain_ok -> covers [] from (to + 1) (reportBlocks (blocks_between from to chain) lastFin).
Proof.
  intros Hs. unfold reportBlocks. set (r := fun b : EVMBlock E => mkEVMBlock (eb_Header b) (eb_Num b <=? lastFin) (eb_Events b)).
  assert (Hbs : StronglySorted (fun a b : EVMBlock E => eb_Num a < eb_Num b) (blocks_between from to chain))
    by (by apply bfilter_StronglySorted).
  constructor.
  - induction Hbs as [|x l Hl IH Hx]; simpl; constructor; [done|]. apply Forall_map. exact Hx.
  - intros b Hb. apply list_elem_of_fmap in Hb as (x & -> & Hx). apply between_elem in Hx as [_ Hx].
    change (from <= eb_Num x < to + 1). lia.
  - by intros f t H%elem_of_nil.
  - replace (to + 1 - 1) with to by lia. rewrite not_lost_nil. clear Hs Hbs. induction (blocks_between from to chain) as [|x l IH]; [done|].
    cbn [map bfilter]. change (has_events (r x)) with (has_events x). destruct (has_events x); [|done]. cbn [map]. by rewrite IH.
Qed.

(** An empty block at the end of a range without further events. *)
Lemma covers_empty e from n min lastFin :
  env_ok e -> from <= n -> min <= n -> from <= min -> blocks_between from n chain = [] ->
  covers [] from (n + 1) (fst (reportEmptyBlock (env_GetBlockHeader e) n min lastFin)) /\
  forall b, b ∈ fst (reportEmptyBlock (E := E) (env_GetBlockHeader e) n min lastFin) -> min <= eb_Num b.
Proof.
  intros He Hf Hm Hfm Hno. unfold reportEmptyBlock.
  assert (Hnil : covers [] from (n + 1) []).
  { constructor; [constructor | by intros b H%elem_of_nil | by intros f t H%elem_of_nil |].
    replace (n + 1 - 1) with n by lia. by rewrite Hno. }
  destruct (env_GetBlockHeader e n) as [h|] eqn:Eh; [|split; [done | by intros b H%elem_of_nil]].
  pose proof (eo_header e He n h Eh) as Hle.
  destruct (negb (eh_Num h =? n) && (eh_Num h <? min)) eqn:Eb; simpl; [split; [done | by intros b H%elem_of_nil]|].
  assert (Hge : min <= eh_Num h).
  { apply andb_false_iff in Eb as [Eb|Eb]; [apply negb_false_iff in Eb|]; bool_hyps; lia. }
  split.
  - constructor; [repeat constructor | | |].
    + intros b Hb. apply list_elem_of_singleton in Hb as ->. unfold eb_Num. simpl. lia.
    + by intros f t H%elem_of_nil.
    + simpl. replace (n + 1 - 1) with n by lia. by rewrite Hno.
  - intros b Hb. apply list_elem_of_singleton in Hb as ->. done.
Qed.

Lemma between_after_last from r b :
  chain_ok -> last (blocks_between from r chain) = Some b ->
  from <= eb_Num b <= r /\ blocks_between (eb_Num b + 1) r chain = [] /\
  blocks_between from (eb_Num b) chain = blocks_between from r chain.
Proof.
  intros Hch Hl. assert (Hb : from <= eb_Num b <= r).
  { apply last_Some_elem_of in Hl. by apply between_elem in Hl as [_ ?]. }
  pose proof (between_app eb_Num from (eb_Num b) r chain (chain_le Hch) ltac:(lia) ltac:(lia)) as Happ.
  assert (Hnil : blocks_between (eb_Num b + 1) r chain = []).
  { destruct (last (blocks_between (eb_Num b + 1) r chain)) as [x|] eqn:Ex; [|by apply last_None in Ex].
    assert (Hx := Ex). apply last_Some_elem_of in Hx. apply between_elem in Hx as [_ Hx].
    rewrite <- Happ, last_app, Ex in Hl. injection Hl as ->. lia. }
  split_and!; [lia | lia | done |]. by rewrite <- Happ, Hnil, app_nil_r.
Qed.

Lemma reportRange_covers e s r lastFin top msgs from' to' :
  env_ok e -> chain_ok -> dl_plain -> 0 <= fromBlock s <= r -> r <= lastBlock s -> lastFin <= lastBlock s ->
  lastBlock s + 2 + 2 * dl_syncBlockChunkSize d <= MaxUint64 -> toBlock s + dl_syncBlockChunkSize d <= MaxUint64 ->
  fromBlock s < toBlock s -> (lastFin < r -> top = false -> r = toBlock s) ->
  reportRange d initial None e s r lastFin top false (blocks_between (fromBlock s) r chain) = (msgs, from', to') ->
  covers [] (fromBlock s) from' msgs /\ fromBlock s <= from' <= r + 1 /\ from' < to' /\
  (to' <= lastBlock s + 1 + dl_syncBlockChunkSize d \/ (top = false /\ to' = toBlock s + dl_syncBlockChunkSize d)) /\
  (fromBlock s < from' \/ (from' = fromBlock s /\ top = false /\ to' = toBlock s + dl_syncBlockChunkSize d)).
Proof.
  intros He Hch [Hc _] Hf Hr Hfin Ho1 Ho2 Hft Htop H. unfold reportRange, nextTo, clampTo in H. cbn [andb negb] in H.
  assert (Hnext : forall x, 0 <= x <= lastBlock s + 1 -> (x +u64 dl_syncBlockChunkSize d) = x + dl_syncBlockChunkSize d)
    by (intros; apply add64_small; unfold_words; lia).
  assert (Hsucc : forall x, 0 <= x <= lastBlock s -> (x +u64 1) = x + 1) by (intros; apply add64_small; unfold_words; lia).
  pose proof (covers_blocks (fromBlock s) r lastFin Hch) as Hblocks.
  destruct (r <=? lastFin) eqn:Esafe; bool_hyps.
  - rewrite Hsucc, Hnext in H by lia. injection H as <- <- <-.
    split; [|split_and!; [lia | lia | lia | left; lia | left; lia]].
    destruct (last (blocks_between (fromBlock s) r chain)) as [b|] eqn:El.
    + destruct (between_after_last _ _ _ Hch El) as (Hb & Hnil & Heq). rewrite Hsucc by lia.
      destruct (eb_Num b <? r) eqn:Es; bool_hyps; [|by rewrite app_nil_r].
      apply (covers_app [] [] _ (eb_Num b + 1)); [done | lia | |].
      * rewrite <- Heq. by apply covers_blocks.
      * rewrite Z.max_r by lia. apply covers_empty; (done || lia).
    + apply last_None in El. rewrite El. simpl. apply covers_empty; (done || lia).
  - destruct (last (blocks_between (fromBlock s) r chain)) as [b|] eqn:El.
    + destruct (between_after_last _ _ _ Hch El) as (Hb & Hnil & Heq). rewrite Hsucc, Hnext in H by lia.
      injection H as <- <- <-. split; [|split_and!; [lia | lia | lia | left; lia | left; lia]].
      rewrite <- Heq. by apply covers_blocks.
    + apply last_None in El. destruct (fromBlock s <=? lastFin) eqn:Ef; bool_hyps.
      * rewrite Hsucc, Hnext in H by lia. injection H as <- <- <-.
        split; [|split_and!; [lia | lia | lia | left; lia | left; lia]]. apply covers_empty; try (done || lia).
        pose proof (between_app eb_Num (fromBlock s) lastFin r chain (chain_le Hch) ltac:(lia) ltac:(lia)) as Happ.
        rewrite El in Happ. by apply app_eq_nil in Happ as [? _].
      * destruct top.
        -- rewrite Hsucc, Hnext in H by lia. injection H as <- <- <-.
           split; [|split_and!; [lia | lia | lia | left; lia | left; lia]]. apply covers_empty; (done || lia).
        -- rewrite add64_small in H by (unfold_words; lia). injection H as <- <- <-.
           split_and!; [apply covers_nil | lia | lia | lia | by right | by right].
Qed.

(** The head seen after the wait is not behind the next block. *)
Lemma waitPhase_ok M n s e :
  env_ok e -> dl_plain -> 0 <= G -> M + 4 + 4 * dl_syncBlockChunkSize d <= MaxUint64 -> dl_inv M (S n) s ->
  let s1 := waitPhase d None e s in
  fromBlock s1 = fromBlock s /\ toBlock s1 = toBlock s /\ initialBlockSent s1 = true /\ reachTop s1 = false /\
  fromBlock s <= lastBlock s1 /\ lastBlock s <= lastBlock s1 <= lastBlock s + G /\
  (reachTop s = false -> fromBlock s <= lastBlock s -> lastBlock s1 = lastBlock s).
Proof.
  intros He [Hc _] HG HM [Hf Ht Hl Hs]. pose proof (eo_wait e He (lastBlock s)) as Hw. unfold waitPhase.
  assert (Hwrap : (fromBlock s -u64 toBlock s <? dl_syncBlockChunkSize d) = false).
  { apply Z.ltb_ge. unfold sub64, wrap64. rewrite <- (Z.mod_unique (fromBlock s - toBlock s) pow2_64 (-1) (fromBlock s - toBlock s + pow2_64));
      unfold_words; lia. }
  destruct ((lastBlock s <? fromBlock s) || (reachTop s && (lastBlock s <=? toBlock s))) eqn:Ew; simpl.
  - rewrite Hwrap. split_and!; try done; try lia. intros Hr Hfl. rewrite Hr, (proj2 (Z.ltb_ge _ _) Hfl) in Ew. done.
  - apply orb_false_iff in Ew as [Ew _]. bool_hyps. split_and!; try done; lia.
Qed.

End ReportProofs.

Section DownloadProofs.
Context {E N : Type} (d : EVMDownloader) (initial G : Z) (chain : list (EVMBlock E)) (given_up : N -> Z -> Z -> Prop).

(** A request below [M] is answered with the blocks of the chain over its range, or given up. *)
Definition answers (M : Z) (e : downloadEnv (E := E)) (n : N) : Prop :=
  forall f t, 0 <= f <= t -> t <= M ->
    env_GetEventsByBlockRange e f t = blocks_between f t chain \/ (env_GetEventsByBlockRange e f t = [] /\ given_up n f t).

Definition env_serves (M : Z) (e : downloadEnv (E := E)) (n : N) : Prop := env_ok G e /\ answers M e n.

(** The lost ranges are parts of requests that were given up, from their start on. *)
Definition lost_by (nodes : list N) (lost : list (Z * Z)) : Prop :=
  forall f t, (f, t) ∈ lost -> exists n r, n ∈ nodes /\ t <= r /\ given_up n f r.

(** Reporting an answered request covers its range; after one that was given up the range is lost. *)
Lemma reportRange_answer M e n s r lastFin top msgs from' to' :
  env_serves M e n -> chain_ok chain -> dl_plain d -> 0 <= fromBlock s <= r -> r <= lastBlock s -> lastFin <= lastBlock s -> r <= M ->
  lastBlock s + 2 + 2 * dl_syncBlockChunkSize d <= MaxUint64 -> toBlock s + dl_syncBlockChunkSize d <= MaxUint64 ->
  fromBlock s < toBlock s -> (lastFin < r -> top = false -> r = toBlock s) ->
  reportRange d initial None e s r lastFin top false (env_GetEventsByBlockRange e (fromBlock s) r) = (msgs, from', to') ->
  (exists lost, covers chain lost (fromBlock s) from' msgs /\ lost_by [n] lost) /\
  fromBlock s <= from' <= r + 1 /\ from' < to' /\
  (to' <= lastBlock s + 1 + dl_syncBlockChunkSize d \/ (top = false /\ to' = toBlock s + dl_syncBlockChunkSize d)) /\
  (fromBlock s < from' \/ (from' = fromBlock s /\ top = false /\ to' = toBlock s + dl_syncBlockChunkSize d)).
Proof.
  intros [He Ha] Hch Hp Hf Hr Hfin HM Ho1 Ho2 Hft Htop H.
  destruct (Ha (fromBlock s) r Hf HM) as [E1|[E1 Hg]]; rewrite E1 in H.
  - apply (reportRange_covers d initial G chain) in H as (Hc & Hrest); try done. split; [|done].
    exists []. split; [done | by intros f t Hx%elem_of_nil].
  - change (@nil (EVMBlock E)) with (blocks_between (fromBlock s) r (@nil (EVMBlock E))) in H at 1.
    assert (Hch0 : chain_ok (@nil (EVMBlock E))) by constructor.
    apply (reportRange_covers d initial G []) in H as (Hc & Hrest); try done. split; [|done].
    exists [(fromBlock s, from' - 1)]. destruct Hc as [Cs Cr _ Ce]. split.
    + apply covers_all_lost; [done | done |]. by apply map_eq_nil in Ce.
    + intros f t [= -> ->]%list_elem_of_singleton. exists n, r. split_and!; [by left | lia | done].
Qed.

(** One iteration of the loop: what it reports, and progress. *)
Lemma iteration_step M n s e nd :
  env_serves M e nd -> chain_ok chain -> dl_plain d -> 0 <= G -> M + 4 + 4 * dl_syncBlockChunkSize d <= MaxUint64 -> dl_inv d G M (S n) s ->
  exists msgs s' lost, downloadIteration d initial None e s = (msgs, Continue s') /\ dl_inv d G M n s' /\
    covers chain lost (fromBlock s) (fromBlock s') msgs /\ lost_by [nd] lost /\ fromBlock s <= fromBlock s' /\
    (is_Some (env_GetLastFinalizedBlock e) -> fromBlock s < fromBlock s' \/
       (reachTop s' = false /\ fromBlock s' <= lastBlock s' <= lastBlock s + G /\ toBlock s + 1 <= toBlock s' /\
        toBlock s < lastBlock s' /\ (reachTop s = false -> fromBlock s <= lastBlock s -> lastBlock s' = lastBlock s))).
Proof.
  intros Hsv Hch Hp HG HM Hinv. pose proof Hinv as [Hf Ht Hl Hs]. pose proof Hsv as [He _].
  unfold downloadIteration. rewrite (eo_done _ e He).
  destruct (waitPhase_ok d G M n s e He Hp HG HM Hinv) as (W1 & W2 & W3 & W4 & W5 & W6 & W7).
  set (s1 := waitPhase d None e s) in *. pose proof Hp as (Hc & Hn & Hst).
  destruct (env_GetLastFinalizedBlock e) as [fin|].
  2:{ exists [], s1, []. split_and!; [done | | rewrite W1; apply covers_nil | by intros f t Hx%elem_of_nil | lia | by intros []].
      constructor; [rewrite W1; lia | rewrite W1, W2; lia | lia | done]. }
  set (lastFin := Z.min (lastBlock s1) fin). unfold requestRange. set (top := lastBlock s1 <=? toBlock s1).
  set (r := if top then lastBlock s1 else toBlock s1).
  replace (if top then (lastBlock s1, true) else (toBlock s1, false)) with (r, top) by (unfold r; by destruct top).
  assert (Hr : fromBlock s1 <= r <= lastBlock s1).
  { unfold r, top. destruct (lastBlock s1 <=? toBlock s1) eqn:Et; bool_hyps; lia. }
  assert (Hnn : 0 <= Z.of_nat n * G) by nia. unfold reportInitial. rewrite W3. cbn [negb andb].
  destruct (reportRange d initial None e s1 r lastFin top false _) as [[msgs from'] to'] eqn:Hrep.
  apply (reportRange_answer M e nd) in Hrep as ((lost & Hcov & Hlost) & Hfr & Hft & Hto & Hprog);
    [|done|done|done|lia|lia|unfold lastFin; lia|lia|lia|lia|lia|].
  2:{ intros _ Htop. unfold r. by rewrite Htop. }
  rewrite Hn, Hst. cbn [Z.eqb negb andb]. eexists _, _, lost. split; [done|]. rewrite W1 in Hcov. split_and!.
  - constructor; simpl; [lia | | lia | done]. split; [lia|]. destruct Hto as [Hto|[Htop Hto]]; [lia|].
    unfold top in Htop. bool_hyps. lia.
  - done.
  - done.
  - simpl. lia.
  - intros _. simpl. destruct Hprog as [Hprog|(Hfe & Htop & Hte)]; [left; lia|]. right. split_and!; [done | lia | lia | lia | | done].
    unfold top in Htop. bool_hyps. lia.
Qed.

Lemma lost_by_app nodes nodes' l1 l2 : lost_by nodes l1 -> lost_by nodes' l2 -> lost_by (nodes ++ nodes') (l1 ++ l2).
Proof.
  intros H1 H2 f t Hx. apply elem_of_app in Hx as [Hx|Hx].
  - destruct (H1 f t Hx) as (n & r & ? & ? & ?). exists n, r. split_and!; [apply elem_of_app; by left | done..].
  - destruct (H2 f t Hx) as (n & r & ? & ? & ?). exists n, r. split_and!; [apply elem_of_app; by right | done..].
Qed.

Lemma downloadLoop_covers M envs nodes s :
  Forall2 (env_serves M) envs nodes -> chain_ok chain -> dl_plain d -> 0 <= G -> M + 4 + 4 * dl_syncBlockChunkSize d <= MaxUint64 ->
  dl_inv d G M (length envs) s ->
  exists msgs s' lost, downloadLoop d initial None envs s = (msgs, Continue s') /\
    covers chain lost (fromBlock s) (fromBlock s') msgs /\ lost_by nodes lost /\ fromBlock s <= fromBlock s'.
Proof.
  intros Henvs Hch Hp HG HM. revert s. induction Henvs as [|e nd envs nodes He _ IH]; intros s Hinv; simpl.
  { exists [], s, []. split_and!; [done | apply covers_nil | by intros f t Hx%elem_of_nil | lia]. }
  destruct (iteration_step M (length envs) s e nd He Hch Hp HG HM Hinv) as (m1 & s1 & l1 & -> & Hinv1 & Hc1 & Hl1 & Hle & _).
  destruct (IH s1 Hinv1) as (m2 & s2 & l2 & -> & Hc2 & Hl2 & Hle2). exists (m1 ++ m2), s2, (l1 ++ l2).
  split_and!; [done | by apply (covers_app _ _ _ _ (fromBlock s1)) | by apply (lost_by_app [nd]) | lia].
Qed.

(** While the context lives, and the head of the node is never behind what was processed, the
    blocks [Download] sends are strictly increasing from its first block on, and the ones with events
    are exactly the blocks with events of the chain up to where it has got, but for the ranges of the
    requests that were given up: nothing else is skipped, and nothing is repeated or reordered. *)
Lemma Download_covers firstWait envs nodes :
  Forall2 (env_serves (firstWait + Z.of_nat (length envs) * G)) envs nodes -> chain_ok chain -> dl_plain d -> 0 <= G ->
  0 <= initial <= firstWait + 1 ->
  firstWait + Z.of_nat (length envs) * G + 4 + 4 * dl_syncBlockChunkSize d <= MaxUint64 ->
  exists msgs s' lost, Download d initial None false firstWait envs = (msgs, Continue s') /\
    covers chain lost initial (fromBlock s') msgs /\ lost_by nodes lost /\ initial <= fromBlock s'.
Proof.
  intros Henvs Hch Hp HG Hf HM. unfold Download.
  destruct (downloadLoop_covers (firstWait + Z.of_nat (length envs) * G) envs nodes
    (mkDownloadState initial (nextTo d None initial) firstWait false (negb false) 0)) as (m & s' & lost & Hrun & Hc & Hl & Hle);
    try done; [|by exists m, s', lost].
  destruct Hp as (Hc1 & _). unfold nextTo, clampTo. rewrite add64_small by (unfold_words; lia).
  constructor; simpl; [lia | nia | lia | done].
Qed.

(** The loop does not stay at a block: enough iterations with an answer for the finalized block pass
    it, either by what they report or by extending the range up to the head. *)
Lemma downloadLoop_progress M envs nodes s :
  Forall2 (env_serves M) envs nodes -> Forall (fun e => is_Some (env_GetLastFinalizedBlock e)) envs ->
  chain_ok chain -> dl_plain d -> 0 <= G -> M + 4 + 4 * dl_syncBlockChunkSize d <= MaxUint64 -> dl_inv d G M (length envs) s ->
  reachTop s = false -> fromBlock s <= lastBlock s -> lastBlock s - toBlock s < Z.of_nat (length envs) ->
  (0 < length envs)%nat ->
  exists msgs s', downloadLoop d initial None envs s = (msgs, Continue s') /\ fromBlock s < fromBlock s'.
Proof.
  intros Henvs Hfin Hch Hp HG HM. revert s.
  induction Henvs as [|e nd envs nodes He Henvs IH]; intros s Hinv Htop Hfl Hlen Hpos; [simpl in Hpos; lia|].
  apply Forall_cons in Hfin as [Hfe Hfin]. simpl.
  destruct (iteration_step M (length envs) s e nd He Hch Hp HG HM Hinv) as (m1 & s1 & l1 & -> & Hinv1 & _ & _ & Hle & Hprog).
  destruct (Hprog Hfe) as [Hlt|(Htop1 & Hfl1 & Hto & Htl & Hlast)].
  - destruct (downloadLoop_covers M envs nodes s1 Henvs Hch Hp HG HM Hinv1) as (m2 & s2 & l2 & -> & _ & _ & Hle2).
    exists (m1 ++ m2), s2. split; [done | lia].
  - pose proof (Hlast Htop Hfl) as El. destruct (decide (length envs = 0%nat)) as [E0|Hne].
    { cbn [length] in Hlen. lia. }
    cbn [length] in Hlen. destruct (IH Hfin s1 Hinv1 Htop1) as (m2 & s2 & -> & Hlt2); [lia | lia | lia |].
    exists (m1 ++ m2), s2. split; [done | lia].
Qed.

(** From any point of the loop, as many iterations as blocks between the end of the current range
    and the head, and two more, pass the current block, as long as the node answers for the finalized
    block, and even when requests are given up: the download never stays at a block. *)
Theorem Download_progress M envs nodes s :
  Forall2 (env_serves M) envs nodes -> Forall (fun e => is_Some (env_GetLastFinalizedBlock e)) envs ->
  chain_ok chain -> dl_plain d -> 0 <= G -> M + 4 + 4 * dl_syncBlockChunkSize d <= MaxUint64 -> dl_inv d G M (length envs) s ->
  Z.max 0 (lastBlock s + G - toBlock s) + 1 < Z.of_nat (length envs) ->
  exists msgs s', downloadLoop d initial None envs s = (msgs, Continue s') /\ fromBlock s < fromBlock s'.
Proof.
  intros Henvs Hfin Hch Hp HG HM Hinv Hlen. destruct Henvs as [|e nd envs nodes He Henvs]; [simpl in Hlen; lia|].
  apply Forall_cons in Hfin as [Hfe Hfin]. simpl.
  destruct (iteration_step M (length envs) s e nd He Hch Hp HG HM Hinv) as (m1 & s1 & l1 & -> & Hinv1 & _ & _ & Hle & Hprog).
  destruct (Hprog Hfe) as [Hlt|(Htop1 & Hfl1 & Hto & Htl & _)].
  - destruct (downloadLoop_covers M envs nodes s1 Henvs Hch Hp HG HM Hinv1) as (m2 & s2 & l2 & -> & _ & _ & Hle2).
    exists (m1 ++ m2), s2. split; [done | lia].
  - simpl in Hlen. destruct (downloadLoop_progress M envs nodes s1) as (m2 & s2 & -> & Hlt); try (done || lia).
    exists (m1 ++ m2), s2. split; [done | lia].
Qed.

End DownloadProofs.

Section DownloadFindings.
Context {E : Type} (d : EVMDownloader) (initial : Z).

(** A node behind what was processed sends the download backwards: when the head after the wait
    is still below [fromBlock], its block is reported although it is before the start of the range,
    and the download goes on from there, over blocks that were already reported. *)
Theorem lagging_node_goes_backwards (e : downloadEnv (E := E)) s h fin :
  env_done e = false -> env_GetLastFinalizedBlock e = Some fin -> initialBlockSent s = true ->
  lastBlock s < fromBlock s -> 0 <= env_WaitForNewBlocks e (lastBlock s) < fromBlock s ->
  fromBlock s < toBlock s -> toBlock s + dl_syncBlockChunkSize d <= MaxUint64 -> dl_plain d ->
  (forall f t, t < f -> env_GetEventsByBlockRange e f t = []) ->
  env_GetBlockHeader e (env_WaitForNewBlocks e (lastBlock s)) = Some h -> eh_Num h = env_WaitForNewBlocks e (lastBlock s) ->
  exists b s', downloadIteration d initial None e s = ([b], Continue s') /\
    eb_Num b = env_WaitForNewBlocks e (lastBlock s) /\ fromBlock s' = eb_Num b + 1 /\ fromBlock s' <= fromBlock s.
Proof.
  intros Hd Hfin Hs Hlf Hw Hft Hov (Hc & Hn & Hst) Hev Hh Hnum. set (w := env_WaitForNewBlocks e (lastBlock s)) in *.
  assert (Hwrap : (fromBlock s -u64 toBlock s <? dl_syncBlockChunkSize d) = false).
  { apply Z.ltb_ge. unfold sub64, wrap64. rewrite <- (Z.mod_unique (fromBlock s - toBlock s) pow2_64 (-1) (fromBlock s - toBlock s + pow2_64));
      unfold_words; lia. }
  assert (Es : waitPhase d None e s = mkDownloadState (fromBlock s) (toBlock s) w false (initialBlockSent s) (iteration s)).
  { unfold waitPhase. rewrite (proj2 (Z.ltb_lt _ _) Hlf), Hwrap. done. }
  assert (Hsucc : (w +u64 1) = w + 1) by (apply add64_small; unfold_words; lia).
  assert (Hempty : forall min lf, fst (reportEmptyBlock (E := E) (env_GetBlockHeader e) w min lf) = [mkEVMBlock h (w <=? lf) []]).
  { intros min lf. unfold reportEmptyBlock. rewrite Hh, Hnum, Z.eqb_refl. done. }
  unfold downloadIteration. rewrite Hd, Es, Hfin. unfold requestRange, reportInitial.
  cbn [fromBlock toBlock lastBlock initialBlockSent iteration reachTop]. rewrite Hs, (proj2 (Z.leb_le w (toBlock s))) by lia.
  cbn [negb andb]. rewrite Hev by lia. unfold reportRange. cbn [last fromBlock toBlock lastBlock andb negb].
  rewrite (proj2 (Z.leb_gt (fromBlock s) (Z.min w fin))) by lia. rewrite !Hempty, Hsucc, Hn, Hst. cbn [Z.eqb negb andb app].
  exists (mkEVMBlock h (w <=? Z.min w fin) []). unfold eb_Num. cbn [eb_Header]. rewrite Hnum.
  destruct (w <=? Z.min w fin); eexists; (split; [reflexivity|]); simpl; lia.
Qed.

Lemma mismatch_gives_nothing (queries : nat -> eventsQuery (E := E)) done n left :
  (forall i, exists l rest h, eq_logs (queries i) = l :: rest /\ eq_header (queries i) (lg_BlockNumber l) = Some h /\
     eh_Hash h <> lg_BlockHash l) ->
  getEventsByBlockRangeWithRetry queries done n left = [].
Proof.
  intros Hm. revert n. induction left as [|left IH]; intros n; simpl; (destruct (done n); [done|]);
    destruct (Hm n) as (l & rest & h & -> & Hh & Hne); simpl; rewrite Hh, (proj2 (Z.eqb_neq _ _) Hne); [done | apply IH].
Qed.

(** Logs whose block hash keeps differing from the hash of the header are given up after the last
    retry with an empty answer, which the loop takes for a range without events: in the finalized
    part of the chain it moves on past the range and the events are never reported. *)
Theorem hash_mismatch_skips_range (queries : nat -> eventsQuery (E := E)) done e s fin :
  (forall i, exists l rest h, eq_logs (queries i) = l :: rest /\ eq_header (queries i) (lg_BlockNumber l) = Some h /\
     eh_Hash h <> lg_BlockHash l) ->
  env_done e = false -> env_GetLastFinalizedBlock e = Some fin -> initialBlockSent s = true -> reachTop s = false ->
  0 <= fromBlock s <= toBlock s -> toBlock s < lastBlock s -> toBlock s <= fin -> lastBlock s < MaxUint64 -> dl_plain d ->
  env_GetEventsByBlockRange e (fromBlock s) (toBlock s) = GetEventsByBlockRange queries done ->
  exists msgs s', downloadIteration d initial None e s = (msgs, Continue s') /\
    fromBlock s' = toBlock s + 1 /\ Forall (fun b => eb_Events b = []) msgs.
Proof.
  intros Hm Hd Hfin Hs Ht Hft Htl Hf Hmax (Hc & Hn & Hst) Hev. unfold downloadIteration. rewrite Hd, Hfin.
  assert (Es : waitPhase d None e s = mkDownloadState (fromBlock s) (toBlock s) (lastBlock s) false (initialBlockSent s) (iteration s)).
  { unfold waitPhase. rewrite Ht, (proj2 (Z.ltb_ge _ _)) by lia. done. }
  rewrite Es. unfold requestRange, reportInitial, reportRange.
  cbn [fromBlock toBlock lastBlock initialBlockSent iteration reachTop]. rewrite Hs, (proj2 (Z.leb_gt (lastBlock s) _)) by lia.
  cbn [negb andb]. rewrite Hev. unfold GetEventsByBlockRange. rewrite mismatch_gives_nothing by done.
  rewrite (proj2 (Z.leb_le (toBlock s) (Z.min _ _))) by lia. cbn [last negb andb reportBlocks map app].
  rewrite Hn, Hst. cbn [Z.eqb negb andb]. eexists _, _. split; [done|]. simpl. split.
  - apply add64_small. unfold_words; lia.
  - unfold reportEmptyBlock. destruct (env_GetBlockHeader e (toBlock s)) as [h|]; [|constructor].
    destruct (_ && _); constructor; [done | constructor].
Qed.

End DownloadFindings.

(** ** Examples *)

Definition example_hdr (n : Z) : EVMBlockHeader := mkEVMBlockHeader n (100 + n) (99 + n) (1000 * n).
Definition example_truth : list Log := [mkLog 5 105 1 false 1; mkLog 7 107 9 false 7; mkLog 9 109 1 false 2; mkLog 9 109 1 false 3].
Definition example_append (l : Log) : list Z := [lg_Index l].
Definition example_chain : list (EVMBlock Z) := chainBlocks [1] example_append example_truth example_hdr.

(** A node that answers every call, and one whose header of block 9 has another hash than its logs. *)
Definition example_requestNode : requestNode :=
  mkRequestNode (fun _ => false) (fun _ from to _ => Ok (logs_between from to example_truth)) (fun _ b => [Ok (example_hdr b)]).
Definition example_forkedNode : requestNode :=
  mkRequestNode (fun _ => false) (fun _ from to _ => Ok (logs_between from to example_truth))
    (fun _ b => [Ok (if b =? 9 then mkEVMBlockHeader 9 0 0 0 else example_hdr b)]).
Definition example_env_of (nd : requestNode) (fin : Z) : downloadEnv (E := Z) :=
  mkDownloadEnv false (fun lb => lb + 1) (Some fin) (nodeEvents 3 [1] 300 example_append nd) (fun n => Some (example_hdr n)).
Definition example_env : Z -> downloadEnv (E := Z) := example_env_of example_requestNode.
Definition example_downloader : EVMDownloader := mkEVMDownloader 3 0 false.

(** Blocks 5 and 9 have events, the head is 10 and block 6 is final. *)
Example example_download :
  map (fun b => (eb_Num b, eb_IsFinalizedBlock b, eb_Events b))
    (fst (Download example_downloader 3 None false 10 (replicate 4 (example_env 6)))) =
  [(5, true, [1]); (6, true, []); (9, false, [2; 3]); (11, false, []); (12, false, [])].
Proof. reflexivity. Qed.

(** The same run when the request for the final blocks 7 to 9 meets the other node: block 9 is passed over. *)
Example example_download_loses :
  map (fun b => (eb_Num b, eb_IsFinalizedBlock b, eb_Events b))
    (fst (Download example_downloader 3 None false 12 [example_env 9; example_env_of example_forkedNode 9])) =
  [(5, true, [1]); (6, true, []); (9, true, [])].
Proof. vm_compute. reflexivity. Qed.

Lemma example_truth_ok : truth_ok example_truth example_hdr.
Proof.
  split; [repeat constructor; simpl; lia|]. intros l Hl. repeat (apply elem_of_cons in Hl as [->|Hl]; [done|]). by apply elem_of_nil in Hl.
Qed.

Lemma example_node_ok hs :
  (forall b, eh_Hash (hs b) = eh_Hash (example_hdr b) -> hs b = example_hdr b) ->
  node_ok 3 300 example_truth example_hdr 100
    (mkRequestNode (fun _ => false) (fun _ from to _ => Ok (logs_between from to example_truth)) (fun _ b => [Ok (hs b)])).
Proof.
  intros Hh. split; cbn [nd_done nd_FilterLogs nd_HeaderByNumber].
  - intros i from to call logs. by intros [= <-].
  - intros i b h Hin Hhash. apply list_elem_of_singleton in Hin as [= ->]. by apply Hh.
  - intros i f t Hf Ht. set (cl := fun from to (_ : nat) => Ok (logs_between from to example_truth) : result filterError (list Log)).
    assert (Hc : truthful cl example_truth) by (intros ? ? ? ? [= <-]; done).
    pose proof (getUnfilteredLogs_cases cl 3 example_truth 300 f t Hc (to_sorted _ _ example_truth_ok) Hf ltac:(unfold_words; lia)) as H.
    destruct (getUnfilteredLogs cl 3 300 f t) eqn:E; [done | done | |].
    + destruct H as [_ (? & ? & ? & [=])].
    + specialize (H 0%nat ltac:(intros ? ? ? ? [=])). lia.
  - done.
Qed.

Lemma example_serves nd fin M :
  node_ok 3 300 example_truth example_hdr 100 nd -> M <= 100 ->
  env_serves 1 example_chain (gave_up example_truth) M (example_env_of nd fin) nd.
Proof.
  intros Hn HM. split; [constructor; cbn [env_done env_WaitForNewBlocks env_GetBlockHeader example_env_of]; [done | lia | by intros n h [= <-]]|].
  intros f t Hf Ht. apply (nodeEvents_cases 3 [1] 300 example_append example_truth example_hdr 100); [done | apply example_truth_ok | lia | lia |].
  unfold_words. lia.
Qed.

Lemma example_requestNode_ok : node_ok 3 300 example_truth example_hdr 100 example_requestNode.
Proof. by apply (example_node_ok example_hdr). Qed.
Lemma example_forkedNode_ok : node_ok 3 300 example_truth example_hdr 100 example_forkedNode.
Proof. apply (example_node_ok (fun b => if b =? 9 then mkEVMBlockHeader 9 0 0 0 else example_hdr b)). intros b. by destruct (b =? 9) eqn:E; bool_hyps; [subst|]. Qed.

Lemma example_chain_ok : chain_ok example_chain.
Proof. apply chainBlocks_sorted, example_truth_ok. Qed.
Lemma example_plain : dl_plain example_downloader.
Proof. by vm_compute. Qed.

Lemma Download_progress_witness :
  exists msgs s', downloadLoop example_downloader 3 None (replicate 9 (example_env 2)) (mkDownloadState 3 6 10 false true 0) =
      (msgs, Continue s') /\ 3 < fromBlock s'.
Proof.
  refine (Download_progress example_downloader 3 1 example_chain (gave_up example_truth) 100 (replicate 9 (example_env 2))
    (replicate 9 example_requestNode) (mkDownloadState 3 6 10 false true 0) _ _ _ _ _ _ _ _).
  - apply Forall2_replicate, example_serves; [apply example_requestNode_ok | lia].
  - apply Forall_replicate. by eexists.
  - apply example_chain_ok.
  - apply example_plain.
  - lia.
  - by vm_compute.
  - constructor; simpl; lia || done.
  - simpl. lia.
Defined.

(** The answers of a node whose head is at block 91. *)
Definition example_laggingEnv : downloadEnv (E := Z) :=
  mkDownloadEnv false (fun lb => lb + 1) (Some 50) (fun from to => blocks_between from to example_chain) (fun n => Some (example_hdr n)).

Lemma lagging_node_goes_backwards_witness :
  exists b s', downloadIteration example_downloader 101 None example_laggingEnv (mkDownloadState 101 104 90 false true 0) =
      ([b], Continue s') /\ eb_Num b = 91 /\ fromBlock s' = eb_Num b + 1 /\ fromBlock s' <= 101.
Proof.
  refine (lagging_node_goes_backwards example_downloader 101 example_laggingEnv (mkDownloadState 101 104 90 false true 0)
    (example_hdr 91) 50 _ _ _ _ _ _ _ _ _ _ _); try done.
  intros f t Hft. by apply between_empty.
Defined.

(** A node whose logs carry another hash than its headers. *)
Definition example_mismatch (i : nat) : eventsQuery (E := Z) :=
  mkEventsQuery [mkLog 5 77 1 false 0] (fun n => Some (example_hdr n)) (fun l => [lg_Index l]).

Lemma hash_mismatch_skips_range_witness :
  exists msgs s', downloadIteration example_downloader 3 None
      (mkDownloadEnv false (fun lb => lb + 1) (Some 20) (fun _ _ => GetEventsByBlockRange example_mismatch (fun _ => false))
        (fun n => Some (example_hdr n))) (mkDownloadState 3 6 10 false true 0) = (msgs, Continue s') /\
    fromBlock s' = 6 + 1 /\ Forall (fun b => eb_Events b = []) msgs.
Proof.
  refine (hash_mismatch_skips_range example_downloader 3 example_mismatch (fun _ => false)
    (mkDownloadEnv false (fun lb => lb + 1) (Some 20) (fun _ _ => GetEventsByBlockRange example_mismatch (fun _ => false))
        (fun n => Some (example_hdr n))) (mkDownloadState 3 6 10 false true 0) 20 _ _ _ _ _ _ _ _ _ _ _); try done.
  intros i. by eexists _, _, _.
Defined.

(** A node that answers at most one block at a time, and the logs of three blocks. *)
Definition example_logs : list Log := [mkLog 5 105 1 false 0; mkLog 5 105 1 false 1; mkLog 8 108 1 false 2].
Definition example_filterClient : filterClient := fun from to call =>
  if from <? to then Err FTooManyLogs else Ok (logs_between from to example_logs).

(** It also fails its first two calls. *)
Definition example_flakyClient : filterClient := fun from to call =>
  if (call <? 2)%nat then Err FOther else example_filterClient from to call.

Lemma getUnfilteredLogs_complete_witness :
  getUnfilteredLogs example_flakyClient 3 20 3 9 = LOk (logs_between 3 9 example_logs) /\
  match getUnfilteredLogs example_flakyClient 3 20 3 9 with
  | LOk logs => logs = logs_between 3 9 example_logs
  | LNil => search_ended example_flakyClient 3 9
  | LFatal => retries_exhausted example_flakyClient 3
  | LFuel => False
  end.
Proof.
  split; [reflexivity|].
  refine (getUnfilteredLogs_complete example_flakyClient 3 example_logs 20 3 9 2 _ _ _ _ _ _).
  - intros from to call logs. unfold example_flakyClient, example_filterClient. destruct (call <? 2)%nat; [done|].
    by destruct (from <? to); [|intros [= <-]].
  - repeat constructor; simpl; lia.
  - intros f t call Hc. unfold example_flakyClient, example_filterClient. rewrite (proj2 (Nat.ltb_ge _ _) Hc). by destruct (f <? t).
  - lia.
  - by vm_compute.
  - simpl. lia.
Defined.

(** A node that refuses block 5 alone: the search returns nil, although block 8 has a log too. *)
Example single_block_refused :
  getUnfilteredLogs (fun from to call => if (from <=? 5) && (5 <=? to) then Err FTooManyLogs else Ok (logs_between from to example_logs))
    3 20 3 9 = LNil.
Proof. reflexivity. Qed.

Lemma GetEventsByBlockRange_blocks_witness :
  GetEventsByBlockRange (fun _ => mkEventsQuery (logs_between 3 6 example_logs) (fun n => Some (example_hdr n)) (fun l => [lg_Index l]))
    (fun _ => false) = blocks_between 3 6 (groupBlocks
      (mkEventsQuery (logs_between 3 6 example_logs) (fun n => Some (example_hdr n)) (fun l => [lg_Index l])) example_logs) /\
  StronglySorted (fun a b => eb_Num a < eb_Num b)
    (GetEventsByBlockRange (fun _ => mkEventsQuery (logs_between 3 6 example_logs) (fun n => Some (example_hdr n)) (fun l => [lg_Index l]))
      (fun _ => false)).
Proof.
  refine (GetEventsByBlockRange_blocks (fun _ => mkEventsQuery (logs_between 3 6 example_logs) (fun n => Some (example_hdr n))
    (fun l => [lg_Index l])) (fun _ => false) example_logs 3 6 _ _ _ _); try done.
  - repeat constructor; simpl; lia.
  - repeat constructor; eexists; by split.
Defined.
