(* ===== verification/ReorgDetector.v ===== *)
(** The reorg detector ([reorgdetector]): the blocks each subscriber tracks, in memory and in the
    database, the periodic comparison with the chain, and the finality answer built on it.

    The Ethereum client is a parameter: a header by number (its hash) and the number of the last
    finalized block.  The header lists are keyed by block number as in the code.  The goroutines of a
    tick, one per subscriber, run one after the other in an arbitrary order; the acknowledgement of a
    notification is where the code lets the subscriber go on, so the work of a goroutine is split
    there ([checkHeaders], [dropReorged]). *)

From S2P Require Import Prelude.

Inductive rdError :=
| ErrNotFound | ErrSubscriberNotFound | ErrNotSubscribed | ErrClient | ErrPrimaryKey | ErrDiverges | ErrStoredHash.

(** ** Header lists ([types.go]) *)

Record Header := mkHeader { hd_Num : Z; hd_Hash : Z }.
Record HeaderWithSubscriberID := mkRow { row_SubscriberID : string; row_Num : Z; row_Hash : Z }.

#[global] Instance Header_eq_dec : EqDecision Header.
Proof. solve_decision. Defined.

Abbreviation headersList := (gmap Z Header).

Definition newHeader (num hash : Z) : Header := mkHeader num hash.

Definition newHeadersList (headers : list Header) : headersList :=
  fold_left (fun m b => <[hd_Num b := b]> m) headers ∅.

Definition hl_len (hl : headersList) : nat := size hl.
Definition hl_isEmpty (hl : headersList) : bool := Nat.eqb (hl_len hl) 0.
Definition hl_add (hl : headersList) (h : Header) : headersList := <[hd_Num h := h]> hl.

Definition hl_get (hl : headersList) (num : Z) : result rdError Header :=
  match hl !! num with Some b => Ok b | None => Err ErrNotFound end.

Definition header_le (a b : Header) : Prop := hd_Num a <= hd_Num b.
#[global] Instance header_le_dec : RelDecision header_le.
Proof. intros a b. apply Z_le_dec. Defined.

Definition getSorted (hl : headersList) : list Header := merge_sort header_le (map snd (map_to_list hl)).

(** [for i := from; i <= to; i++ { delete(m, i) }]; [None]: the loop does not end. *)
Fixpoint deleteRange_loop {V} (fuel : nat) (i to : Z) (m : gmap Z V) : option (gmap Z V) :=
  if to <? i then Some m
  else match fuel with
       | O => None
       | S fuel' => deleteRange_loop fuel' (i +u64 1) to (delete i m)
       end.

Definition removeRange {V} (from to : Z) (m : gmap Z V) : option (gmap Z V) :=
  deleteRange_loop (Z.to_nat (to - from + 1)) from to m.

(** ** The detector ([reorgdetector.go]) *)

Record ReorgEvent := mkReorgEvent {
  ev_DetectedAt : Z;
  ev_FromBlock : Z;
  ev_ToBlock : Z;
  ev_SubscriberID : string;
  ev_TrackedHash : Z;
  ev_CurrentHash : Z
}.

(** Memory, database tables and the notifications sent so far; a subscription is the identity of its
    channels. *)
Record ReorgDetector := mkReorgDetector {
  trackedBlocks : gmap string headersList;
  subscriptions : gmap string nat;
  headersCache : gmap Z Z;
  nextChan : nat;
  tracked_block : list HeaderWithSubscriberID;
  reorg_event : list ReorgEvent;
  sent : list (nat * Z)
}.

Definition set_trackedBlocks (f : gmap string headersList -> gmap string headersList) (rd : ReorgDetector) :=
  mkReorgDetector (f (trackedBlocks rd)) (subscriptions rd) (headersCache rd) (nextChan rd) (tracked_block rd)
    (reorg_event rd) (sent rd).
Definition set_headersCache (c : gmap Z Z) (rd : ReorgDetector) :=
  mkReorgDetector (trackedBlocks rd) (subscriptions rd) c (nextChan rd) (tracked_block rd) (reorg_event rd) (sent rd).
Definition set_tracked_block (f : list HeaderWithSubscriberID -> list HeaderWithSubscriberID) (rd : ReorgDetector) :=
  mkReorgDetector (trackedBlocks rd) (subscriptions rd) (headersCache rd) (nextChan rd) (f (tracked_block rd))
    (reorg_event rd) (sent rd).
Definition set_reorg_event (e : list ReorgEvent) (rd : ReorgDetector) :=
  mkReorgDetector (trackedBlocks rd) (subscriptions rd) (headersCache rd) (nextChan rd) (tracked_block rd) e (sent rd).
Definition set_sent (l : list (nat * Z)) (rd : ReorgDetector) :=
  mkReorgDetector (trackedBlocks rd) (subscriptions rd) (headersCache rd) (nextChan rd) (tracked_block rd)
    (reorg_event rd) l.
Definition new_subscription (id : string) (rd : ReorgDetector) :=
  mkReorgDetector (trackedBlocks rd) (<[id := nextChan rd]> (subscriptions rd)) (headersCache rd) (S (nextChan rd))
    (tracked_block rd) (reorg_event rd) (sent rd).

Abbreviation RD := (eff ReorgDetector rdError).

(** ** Database ([reorgdetector_db.go]) *)

Definition row_le (a b : HeaderWithSubscriberID) : Prop := String.le (row_SubscriberID a) (row_SubscriberID b).
#[global] Instance row_le_dec : RelDecision row_le.
Proof. intros a b. unfold row_le. apply _. Defined.

(** The loop that groups the sorted rows. *)
Fixpoint groupRows (rows : list HeaderWithSubscriberID) (currentID : string) (currentHeaders : list Header)
    (acc : gmap string headersList) : gmap string headersList :=
  match rows with
  | [] => <[currentID := newHeadersList currentHeaders]> acc
  | row :: rows' =>
      let h := mkHeader (row_Num row) (row_Hash row) in
      if String.eqb (row_SubscriberID row) currentID
      then groupRows rows' currentID (currentHeaders ++ [h]) acc
      else groupRows rows' (row_SubscriberID row) [h] (<[currentID := newHeadersList currentHeaders]> acc)
  end.

Definition getTrackedBlocks (rows : list HeaderWithSubscriberID) : gmap string headersList :=
  match merge_sort row_le rows with
  | [] => ∅
  | row :: rows' => groupRows (row :: rows') (row_SubscriberID row) [] ∅
  end.

Definition saveTrackedBlock (id : string) (b : Header) : RD unit :=
  let! _ := smodify (set_trackedBlocks (fun tb =>
    match tb !! id with
    | None => <[id := newHeadersList [b]]> tb
    | Some hdrs => if hl_isEmpty hdrs then <[id := newHeadersList [b]]> tb else <[id := hl_add hdrs b]> tb
    end)) in
  smodify (set_tracked_block (fun rows => rows ++ [mkRow id (hd_Num b) (hd_Hash b)])).

Definition row_in_range (id : string) (fromBlock toBlock : Z) (r : HeaderWithSubscriberID) : bool :=
  (fromBlock <=? row_Num r) && (row_Num r <=? toBlock) && String.eqb (row_SubscriberID r) id.

Definition removeTrackedBlockRange (id : string) (fromBlock toBlock : Z) : RD unit :=
  smodify (set_tracked_block (bfilter (fun r => negb (row_in_range id fromBlock toBlock r)))).

Definition event_key_eq (a b : ReorgEvent) : bool :=
  (ev_DetectedAt a =? ev_DetectedAt b) && String.eqb (ev_SubscriberID a) (ev_SubscriberID b) &&
  (ev_FromBlock a =? ev_FromBlock b) && (ev_ToBlock a =? ev_ToBlock b).

Definition insertReorgEvent (event : ReorgEvent) : RD unit :=
  let! rd := sget in
  if existsb (event_key_eq event) (reorg_event rd) then sfail ErrPrimaryKey
  else smodify (set_reorg_event (reorg_event rd ++ [event])).

(** [ORDER BY detected_at DESC LIMIT 1]; the zero event when there is none. *)
Definition GetLastReorgEvent (rd : ReorgDetector) : ReorgEvent :=
  fold_left (fun best e => if ev_DetectedAt best <? ev_DetectedAt e then e else best)
    (tl (reorg_event rd)) (hd (mkReorgEvent 0 0 0 "" 0 0) (reorg_event rd)).

(** ** Subscriptions ([reorgdetector_sub.go]) *)

Definition Subscribe (id : string) : RD nat :=
  let! rd := sget in
  match subscriptions rd !! id with
  | Some sub => sret sub
  | None =>
      let! _ := smodify (new_subscription id) in
      let! _ := smodify (set_trackedBlocks (insert id (newHeadersList []))) in
      sret (nextChan rd)
  end.

Definition notifySubscriber (id : string) (startingBlock : Header) : RD unit :=
  let! rd := sget in
  match subscriptions rd !! id with
  | Some sub => smodify (set_sent (sent rd ++ [(sub, hd_Num startingBlock)]))
  | None => sret tt
  end.

Definition getSubscriberIDs (rd : ReorgDetector) : list string := map fst (map_to_list (subscriptions rd)).

(** ** Tracking *)

Definition AddBlockToTrack (id : string) (num hash : Z) : RD unit :=
  let! rd := sget in
  match trackedBlocks rd !! id with
  | None => sfail ErrNotSubscribed
  | Some hdrs =>
      match hl_get hdrs num with
      | Ok existing => if hd_Hash existing =? hash then sret tt else saveTrackedBlock id (newHeader num hash)
      | Err _ => saveTrackedBlock id (newHeader num hash)
      end
  end.

Definition GetTrackedBlockByBlockNumber (rd : ReorgDetector) (id : string) (blockNumber : Z) : result rdError Header :=
  match trackedBlocks rd !! id with
  | None => Err ErrSubscriberNotFound
  | Some header => hl_get header blockNumber
  end.

(** [subscriptions[id] = &Subscription{...}] for every loaded id. *)
Definition loadTrackedHeaders (rd : ReorgDetector) : ReorgDetector :=
  let tb := getTrackedBlocks (tracked_block rd) in
  fold_left (fun s id => new_subscription id s) (map fst (map_to_list tb)) (set_trackedBlocks (fun _ => tb) rd).

(** ** Detection *)

Section Detection.
(** The client: the hash of a block, and the last finalized block. *)
Context (client : Z -> result rdError Z) (finalizedBlock : result rdError Z) (startTime : Z).

(** The header of the cache, filled with the current one when missing. *)
Definition cachedHeader (num currentHash : Z) : RD Z :=
  let! rd := sget in
  match headersCache rd !! num with
  | Some oldHash => sret oldHash
  | None => let! _ := smodify (set_headersCache (<[num := currentHash]> (headersCache rd))) in sret currentHash
  end.

(** [hdrs.removeRange] on the list of the subscriber. *)
Definition removeTracked (id : string) (from to : Z) : RD unit :=
  let! rd := sget in
  match trackedBlocks rd !! id with
  | None => sret tt
  | Some hdrs =>
      match removeRange from to hdrs with
      | None => sfail ErrDiverges
      | Some hdrs' => smodify (set_trackedBlocks (insert id hdrs'))
      end
  end.

Definition cleanCache (from to : Z) : RD unit :=
  let! rd := sget in
  match removeRange from to (headersCache rd) with
  | None => sfail ErrDiverges
  | Some c => smodify (set_headersCache c)
  end.

(** The loop over the headers up to the notification; the event when a reorg was found. *)
Fixpoint checkHeaders (id : string) (lastFinalized lastNum : Z) (headers : list Header) : RD (option ReorgEvent) :=
  match headers with
  | [] => sret None
  | hdr :: headers' =>
      let! currentHash := slift (client (hd_Num hdr)) in
      let! oldHash := cachedHeader (hd_Num hdr) currentHash in
      if (hd_Hash hdr =? oldHash) && (currentHash =? hd_Hash hdr) then
        let! _ := (if hd_Num hdr <=? lastFinalized
                   then let! _ := removeTracked id (hd_Num hdr) (hd_Num hdr) in
                        removeTrackedBlockRange id (hd_Num hdr) (hd_Num hdr)
                   else sret tt) in
        checkHeaders id lastFinalized lastNum headers'
      else
        let event := mkReorgEvent startTime (hd_Num hdr) lastNum id (hd_Hash hdr) currentHash in
        let! _ := insertReorgEvent event in
        let! _ := notifySubscriber id hdr in
        sret (Some event)
  end.

(** What follows the acknowledgement of the subscriber. *)
Definition dropReorged (event : ReorgEvent) : RD unit :=
  let! _ := removeTrackedBlockRange (ev_SubscriberID event) (ev_FromBlock event) (ev_ToBlock event) in
  let! _ := removeTracked (ev_SubscriberID event) (ev_FromBlock event) (ev_ToBlock event) in
  cleanCache (ev_FromBlock event) (ev_ToBlock event).

Definition lastHeaderNum (headers : list Header) : Z := match last headers with Some h => hd_Num h | None => 0 end.

(** The goroutine of one subscriber. *)
Definition detectSubscriber (lastFinalized : Z) (id : string) : RD unit :=
  let! rd := sget in
  match trackedBlocks rd !! id with
  | None => sret tt
  | Some hdrs =>
      let headers := getSorted hdrs in
      let! r := checkHeaders id lastFinalized (lastHeaderNum headers) headers in
      match r with Some event => dropReorged event | None => sret tt end
  end.

(** All goroutines run; [Wait] returns the first error. *)
Fixpoint detectAll (lastFinalized : Z) (ids : list string) : RD unit :=
  match ids with
  | [] => sret tt
  | id :: ids' => fun rd =>
      let (rd1, r1) := detectSubscriber lastFinalized id rd in
      let (rd2, r2) := detectAll lastFinalized ids' rd1 in
      (rd2, match r1 with Ok _ => r2 | Err e => Err e end)
  end.

Definition detectReorgInTrackedList : RD unit :=
  let! lastFinalized := slift finalizedBlock in
  let! rd := sget in
  detectAll lastFinalized (getSubscriberIDs rd).

End Detection.

(** ** Finality ([is_block_finalized.go]) *)

(** The tracker is asked in one state of the detector; [storedHash] reads the syncer afterwards. *)
Definition IsBlockFinalized (tracker : Z -> result rdError Header) (blockNum blockHash : Z)
    (storedHash : Z -> result rdError (option Z)) : result rdError (bool * bool) :=
  if blockHash =? 0 then Ok (false, false)
  else match tracker blockNum with
       | Ok header => if negb (hd_Hash header =? blockHash) then Ok (false, false) else Ok (false, true)
       | Err ErrSubscriberNotFound => Err ErrSubscriberNotFound
       | Err ErrNotFound =>
           match storedHash blockNum with
           | Err e => Err e
           | Ok None => Ok (false, false)
           | Ok (Some stored) => if negb (stored =? blockHash) then Ok (false, false) else Ok (true, true)
           end
       | Err e => Err e
       end.

(** ** Lemmas on header lists *)

(** The entries of [m] outside a range of blocks. *)
Definition outside {V} (from to : Z) (m : gmap Z V) : gmap Z V := filter (fun kv => ~ (from <= kv.1 <= to)) m.

Lemma outside_lookup {V} from to (m : gmap Z V) k :
  outside from to m !! k = if (from <=? k) && (k <=? to) then None else m !! k.
Proof.
  unfold outside. destruct ((from <=? k) && (k <=? to)) eqn:E; bool_hyps.
  - apply map_lookup_filter_None. right. intros v _. simpl. lia.
  - apply andb_false_iff in E. destruct (m !! k) eqn:Hk.
    + apply map_lookup_filter_Some. split; [done|]. simpl. intros [H1 H2].
      destruct E as [E|E]; bool_hyps; lia.
    + apply map_lookup_filter_None. by left.
Qed.

Lemma deleteRange_loop_correct {V} fuel i to (m : gmap Z V) :
  0 <= i -> to < MaxUint64 -> to - i + 1 <= Z.of_nat fuel -> deleteRange_loop fuel i to m = Some (outside i to m).
Proof.
  revert i m. induction fuel as [|fuel IH]; intros i m Hi Hto Hf; simpl.
  - rewrite (proj2 (Z.ltb_lt _ _)) by lia. f_equal. apply map_eq. intros k. rewrite outside_lookup.
    destruct (i <=? k) eqn:E1, (k <=? to) eqn:E2; bool_hyps; simpl; (done || lia).
  - destruct (to <? i) eqn:E; bool_hyps.
    + f_equal. apply map_eq. intros k. rewrite outside_lookup.
      destruct (i <=? k) eqn:E1, (k <=? to) eqn:E2; bool_hyps; simpl; (done || lia).
    + rewrite add64_small by (unfold_words; lia). rewrite IH by lia. f_equal. apply map_eq. intros k.
      rewrite !outside_lookup, lookup_delete.
      destruct (i + 1 <=? k) eqn:E1, (i <=? k) eqn:E2, (k <=? to) eqn:E3; bool_hyps; simpl;
        try lia; try done; case_decide; (done || lia).
Qed.

(** The deletion loop ends, unless the range reaches the last [uint64]. *)
Lemma removeRange_outside {V} from to (m : gmap Z V) :
  0 <= from -> to < MaxUint64 -> removeRange from to m = Some (outside from to m).
Proof. intros. apply deleteRange_loop_correct; lia. Qed.

(** Header lists are keyed by the number of the header, a [uint64] below the last one. *)
Definition keyed (hl : headersList) : Prop :=
  forall n h, hl !! n = Some h -> hd_Num h = n /\ 0 <= n < MaxUint64.

Lemma getSorted_elem hl h : keyed hl -> h ∈ getSorted hl <-> hl !! hd_Num h = Some h.
Proof.
  intros Hk. unfold getSorted. rewrite merge_sort_Permutation. rewrite list_elem_of_fmap. split.
  - intros ([n h'] & -> & Hin). simpl. apply elem_of_map_to_list in Hin. by rewrite (proj1 (Hk _ _ Hin)).
  - intros Hh. exists (hd_Num h, h). split; [done|]. by apply elem_of_map_to_list.
Qed.

Lemma getSorted_singleton n h : getSorted {[n := h]} = [h].
Proof. unfold getSorted. by rewrite map_to_list_singleton. Qed.

#[global] Instance header_le_trans : Transitive header_le.
Proof. intros a b c. unfold header_le. lia. Qed.
#[global] Instance header_le_total : Total header_le.
Proof. intros a b. unfold header_le. lia. Qed.

Definition header_lt (a b : Header) : Prop := hd_Num a < hd_Num b.

Lemma sorted_nodup_lt (l : list Header) :
  StronglySorted header_le l -> NoDup (map hd_Num l) -> StronglySorted header_lt l.
Proof.
  induction 1 as [|a l Hs IH Ha]; simpl; intros Hnd; constructor; apply NoDup_cons in Hnd as [Hni Hnd]; [by apply IH|].
  rewrite Forall_forall in Ha |- *. intros b Hb. specialize (Ha b Hb). unfold header_le, header_lt in *.
  destruct (decide (hd_Num a = hd_Num b)) as [E|]; [|lia]. destruct Hni. rewrite E. by apply list_elem_of_fmap_2.
Qed.

Lemma keyed_nums hl : keyed hl -> map hd_Num (map snd (map_to_list hl)) = map fst (map_to_list hl).
Proof.
  intros Hk. rewrite map_map. apply map_ext_in. intros [n h] Hin. simpl.
  apply list_elem_of_In, elem_of_map_to_list in Hin. by apply Hk.
Qed.

Lemma getSorted_sorted hl : keyed hl -> StronglySorted header_lt (getSorted hl).
Proof.
  intros Hk. apply sorted_nodup_lt.
  - apply StronglySorted_merge_sort; apply _.
  - unfold getSorted. change (NoDup (hd_Num <$> merge_sort header_le (map snd (map_to_list hl)))).
    rewrite merge_sort_Permutation. change (NoDup (map hd_Num (map snd (map_to_list hl)))).
    rewrite keyed_nums by done. apply NoDup_fst_map_to_list.
Qed.

Lemma sorted_last_ge (l : list Header) h : StronglySorted header_lt l -> h ∈ l -> hd_Num h <= lastHeaderNum l.
Proof.
  unfold lastHeaderNum. induction 1 as [|a l Hs IH Ha]; [by rewrite elem_of_nil|].
  rewrite elem_of_cons. intros [-> | Hin].
  - destruct l as [|b l]; [simpl; lia|]. rewrite last_cons_cons. destruct (last (b :: l)) as [c|] eqn:E.
    + rewrite Forall_forall in Ha. specialize (Ha c ltac:(by apply last_Some_elem_of)). unfold header_lt in Ha. lia.
    + apply last_None in E. done.
  - destruct l as [|b l]; [by apply elem_of_nil in Hin|]. rewrite last_cons_cons. auto.
Qed.

Lemma sorted_last_elem (l : list Header) : l <> [] -> exists h, h ∈ l /\ lastHeaderNum l = hd_Num h.
Proof.
  intros Hne. unfold lastHeaderNum. destruct (last l) as [h|] eqn:E.
  - exists h. split; [by apply last_Some_elem_of | done].
  - by apply last_None in E.
Qed.

(** ** The work of one goroutine *)

(** The blocks of a range are no longer tracked by [id], in memory and in the database. *)
Definition untracked (id : string) (from to : Z) (rd : ReorgDetector) : ReorgDetector :=
  set_tracked_block (bfilter (fun r => negb (row_in_range id from to r)))
    (set_trackedBlocks (alter (outside from to) id) rd).

Definition fillCache (num cur : Z) (rd : ReorgDetector) : ReorgDetector :=
  match headersCache rd !! num with
  | Some _ => rd
  | None => set_headersCache (<[num := cur]> (headersCache rd)) rd
  end.

(** No event of [id] was recorded at time [t]. *)
Definition no_event_at (t : Z) (id : string) (rd : ReorgDetector) : Prop :=
  Forall (fun e => ev_DetectedAt e <> t \/ ev_SubscriberID e <> id) (reorg_event rd).

Section DetectionLemmas.
Context (client : Z -> result rdError Z) (startTime lastFinalized : Z).

(** The tracked hash is the current one, and the cached one when there is one. *)
Definition goodHeader (rd : ReorgDetector) (h : Header) : bool :=
  match client (hd_Num h) with Ok c => c =? hd_Hash h | Err _ => false end &&
  match headersCache rd !! hd_Num h with Some c => hd_Hash h =? c | None => true end.

(** A header found good: cached, and no longer tracked when final. *)
Definition verify1 (id : string) (rd : ReorgDetector) (h : Header) : ReorgDetector :=
  let rd1 := fillCache (hd_Num h) (hd_Hash h) rd in
  if hd_Num h <=? lastFinalized then untracked id (hd_Num h) (hd_Num h) rd1 else rd1.

(** A header found bad: recorded and notified. *)
Definition reorgAt (id : string) (lastNum : Z) (h : Header) (cur : Z) : ReorgEvent :=
  mkReorgEvent startTime (hd_Num h) lastNum id (hd_Hash h) cur.
Definition notified (id : string) (ev : ReorgEvent) (rd : ReorgDetector) : ReorgDetector :=
  let rd1 := set_reorg_event (reorg_event rd ++ [ev]) rd in
  match subscriptions rd !! id with
  | Some sub => set_sent (sent rd ++ [(sub, ev_FromBlock ev)]) rd1
  | None => rd1
  end.

Lemma fillCache_tracked num cur rd : trackedBlocks (fillCache num cur rd) = trackedBlocks rd.
Proof. unfold fillCache. by destruct (headersCache rd !! num). Qed.

Lemma removeTracked_run id from to rd :
  0 <= from -> to < MaxUint64 -> removeTracked id from to rd = (set_trackedBlocks (alter (outside from to) id) rd, Ok tt).
Proof.
  intros Hf Ht. unfold removeTracked, sbind, sget, smodify, sret. destruct (trackedBlocks rd !! id) as [hl|] eqn:Hid.
  - rewrite removeRange_outside by done. unfold set_trackedBlocks. do 2 f_equal. apply map_eq. intros k.
    destruct (decide (k = id)) as [-> | Hne].
    + by rewrite lookup_insert_eq, lookup_alter_eq, Hid.
    + by rewrite lookup_insert_ne, lookup_alter_ne.
  - replace (set_trackedBlocks (alter (outside from to) id) rd) with rd; [done|]. unfold set_trackedBlocks.
    replace (alter (outside from to) id (trackedBlocks rd)) with (trackedBlocks rd); [by destruct rd|].
    apply map_eq. intros k. rewrite lookup_alter. case_decide; [subst; by rewrite Hid | done].
Qed.

Lemma untracked_run id from to rd :
  0 <= from -> to < MaxUint64 ->
  sbind (removeTracked id from to) (fun _ => removeTrackedBlockRange id from to) rd = (untracked id from to rd, Ok tt).
Proof. intros Hf Ht. by rewrite (sbind_run _ _ _ _ _ (removeTracked_run id from to rd Hf Ht)). Qed.

Lemma checkHeaders_good id lastNum h hs rd :
  0 <= hd_Num h < MaxUint64 -> goodHeader rd h = true ->
  checkHeaders client startTime id lastFinalized lastNum (h :: hs) rd =
    checkHeaders client startTime id lastFinalized lastNum hs (verify1 id rd h).
Proof.
  intros Hb Hg. unfold goodHeader in Hg. destruct (client (hd_Num h)) as [c|] eqn:Ec; [|done].
  apply andb_true_iff in Hg as [Hc Hcache]. bool_hyps. subst c. cbn [checkHeaders].
  erewrite sbind_run; [|unfold slift; by rewrite Ec].
  set (rd1 := fillCache (hd_Num h) (hd_Hash h) rd).
  assert (Hold : exists old, cachedHeader (hd_Num h) (hd_Hash h) rd = (rd1, Ok old) /\ (hd_Hash h =? old) = true).
  { unfold cachedHeader, sget, sbind, rd1, fillCache.
    destruct (headersCache rd !! hd_Num h) as [c|]; [by exists c|]. exists (hd_Hash h). by rewrite Z.eqb_refl. }
  destruct Hold as (old & Hrun & Heq). rewrite (sbind_run _ _ _ _ _ Hrun), Heq, Z.eqb_refl. cbn [andb].
  unfold verify1. fold rd1. destruct (hd_Num h <=? lastFinalized); [|done].
  erewrite sbind_run; [reflexivity|]. apply untracked_run; lia.
Qed.

Lemma no_event_no_key id lastNum h cur rd :
  no_event_at startTime id rd -> existsb (event_key_eq (reorgAt id lastNum h cur)) (reorg_event rd) = false.
Proof.
  unfold no_event_at. induction 1 as [|e l He _ IH]; [done|]. simpl. rewrite IH, orb_false_r.
  unfold event_key_eq. cbn. destruct He as [He|He].
  - rewrite (proj2 (Z.eqb_neq _ _)); [done|]. congruence.
  - rewrite (proj2 (String.eqb_neq _ _)); [by rewrite andb_false_r|]. congruence.
Qed.

Lemma checkHeaders_bad id lastNum h hs rd cur :
  client (hd_Num h) = Ok cur -> goodHeader rd h = false -> no_event_at startTime id rd ->
  checkHeaders client startTime id lastFinalized lastNum (h :: hs) rd =
    (notified id (reorgAt id lastNum h cur) (fillCache (hd_Num h) cur rd), Ok (Some (reorgAt id lastNum h cur))).
Proof.
  intros Ec Hg Hev. unfold goodHeader in Hg. rewrite Ec in Hg. cbn [checkHeaders].
  erewrite sbind_run; [|unfold slift; by rewrite Ec].
  set (rd1 := fillCache (hd_Num h) cur rd).
  assert (Hold : exists old, cachedHeader (hd_Num h) cur rd = (rd1, Ok old) /\
    ((hd_Hash h =? old) && (cur =? hd_Hash h))%bool = false).
  { unfold cachedHeader, sget, sbind, rd1, fillCache.
    destruct (headersCache rd !! hd_Num h) as [c|]; [exists c; split; [done|]; by rewrite andb_comm|].
    exists cur. split; [done|]. rewrite andb_true_r in Hg. by rewrite Hg, andb_false_r. }
  destruct Hold as (old & Hrun & Heq). rewrite (sbind_run _ _ _ _ _ Hrun), Heq.
  fold (reorgAt id lastNum h cur).
  assert (Hevs : reorg_event rd1 = reorg_event rd /\ subscriptions rd1 = subscriptions rd /\ sent rd1 = sent rd)
    by (unfold rd1, fillCache; by destruct (headersCache rd !! hd_Num h)).
  destruct Hevs as (E1 & E2 & E3).
  erewrite sbind_run; [|unfold insertReorgEvent, sget, sbind; rewrite E1, no_event_no_key by done; reflexivity].
  unfold notifySubscriber, sget, sbind, smodify, sret, notified. cbn [subscriptions set_reorg_event sent].
  rewrite E1. by destruct (subscriptions rd1 !! id).
Qed.

Lemma verify1_frame id rd h :
  subscriptions (verify1 id rd h) = subscriptions rd /\ sent (verify1 id rd h) = sent rd /\
  reorg_event (verify1 id rd h) = reorg_event rd /\
  (forall id', id' <> id -> trackedBlocks (verify1 id rd h) !! id' = trackedBlocks rd !! id') /\
  (forall k, headersCache (verify1 id rd h) !! k =
     if decide (k = hd_Num h) then Some (default (hd_Hash h) (headersCache rd !! k)) else headersCache rd !! k).
Proof.
  unfold verify1, fillCache. destruct (headersCache rd !! hd_Num h) as [c|] eqn:Ec, (hd_Num h <=? lastFinalized); simpl;
    (split; [done|]; split; [done|]; split; [done|]; split; [by intros id' Hne; rewrite ?lookup_alter_ne by done|]);
    intros k; case_decide as Hk; subst; rewrite ?Ec, ?lookup_insert_eq, ?lookup_insert_ne by done; done.
Qed.

Lemma verify1_tracked id rd h hl :
  trackedBlocks rd !! id = Some hl ->
  exists hl', trackedBlocks (verify1 id rd h) !! id = Some hl' /\
    forall n, hl' !! n = if (n =? hd_Num h) && (n <=? lastFinalized) then None else hl !! n.
Proof.
  intros Hid. unfold verify1. destruct (hd_Num h <=? lastFinalized) eqn:E; bool_hyps; simpl.
  - rewrite fillCache_tracked, lookup_alter_eq, Hid. eexists. split; [done|]. intros n. rewrite outside_lookup.
    destruct (hd_Num h <=? n) eqn:E1, (n <=? hd_Num h) eqn:E2, (n =? hd_Num h) eqn:E3, (n <=? lastFinalized) eqn:E4;
      bool_hyps; simpl; (done || lia).
  - rewrite fillCache_tracked. exists hl. split; [done|]. intros n.
    destruct (n =? hd_Num h) eqn:E3, (n <=? lastFinalized) eqn:E4; bool_hyps; simpl; (done || lia).
Qed.

Lemma verify_all_frame id pre rd :
  let rd' := foldl (verify1 id) rd pre in
  subscriptions rd' = subscriptions rd /\ sent rd' = sent rd /\ reorg_event rd' = reorg_event rd /\
  (forall id', id' <> id -> trackedBlocks rd' !! id' = trackedBlocks rd !! id') /\
  (forall k, (forall h, h ∈ pre -> hd_Num h <> k) -> headersCache rd' !! k = headersCache rd !! k).
Proof.
  revert rd. induction pre as [|h pre IH]; intros rd; simpl; [by split_and!|].
  destruct (IH (verify1 id rd h)) as (E1 & E2 & E3 & E4 & E5), (verify1_frame id rd h) as (F1 & F2 & F3 & F4 & F5).
  split_and!; [by rewrite E1 | by rewrite E2 | by rewrite E3 | intros id' Hne; by rewrite E4, F4 |].
  intros k Hk. rewrite E5 by (intros h' Hh'; apply Hk; by right). rewrite F5.
  destruct (decide (k = hd_Num h)) as [-> |]; [|done]. by destruct (Hk h ltac:(by left)).
Qed.

Lemma verify_all_tracked id pre rd hl :
  trackedBlocks rd !! id = Some hl ->
  exists hl', trackedBlocks (foldl (verify1 id) rd pre) !! id = Some hl' /\
    forall n, hl' !! n = if existsb (fun h => (n =? hd_Num h) && (n <=? lastFinalized)) pre then None else hl !! n.
Proof.
  revert rd hl. induction pre as [|h pre IH]; intros rd hl Hid; simpl; [by exists hl|].
  destruct (verify1_tracked id rd h hl Hid) as (hl1 & H1 & Hl1).
  destruct (IH _ _ H1) as (hl2 & H2 & Hl2). exists hl2. split; [done|]. intros n. rewrite Hl2, Hl1.
  destruct (existsb _ pre); [by rewrite orb_true_r|]. by rewrite orb_false_r.
Qed.

(** The cache is filled with hashes of the client only. *)
Lemma verify_all_cache id pre rd k c :
  Forall (fun h => client (hd_Num h) = Ok (hd_Hash h)) pre ->
  headersCache (foldl (verify1 id) rd pre) !! k = Some c -> headersCache rd !! k = Some c \/ client k = Ok c.
Proof.
  intros Hall. revert rd. induction Hall as [|h pre Hh _ IH]; intros rd; simpl; [by left|].
  intros H. destruct (IH _ H) as [H1|H1]; [|by right]. destruct (verify1_frame id rd h) as (_ & _ & _ & _ & F5).
  rewrite F5 in H1. case_decide as Hk; [|by left]. subst k. destruct (headersCache rd !! hd_Num h) as [c'|]; simpl in H1.
  - left. congruence.
  - right. congruence.
Qed.

Lemma goodHeader_cache_ext rd rd' h :
  headersCache rd' !! hd_Num h = headersCache rd !! hd_Num h -> goodHeader rd' h = goodHeader rd h.
Proof. unfold goodHeader. by intros ->. Qed.

Lemma goodHeader_client rd h : goodHeader rd h = true -> client (hd_Num h) = Ok (hd_Hash h).
Proof.
  unfold goodHeader. destruct (client (hd_Num h)) as [c|]; [|done]. intros H. bool_hyps. congruence.
Qed.

(** The headers before the first bad one are verified, the first bad one is notified. *)
Lemma checkHeaders_run id lastNum hs rd hl :
  StronglySorted header_lt hs ->
  (forall h, h ∈ hs -> 0 <= hd_Num h < MaxUint64 /\ is_ok (client (hd_Num h)) = true) ->
  trackedBlocks rd !! id = Some hl -> no_event_at startTime id rd ->
  (Forall (fun h => goodHeader rd h = true) hs /\
   checkHeaders client startTime id lastFinalized lastNum hs rd = (foldl (verify1 id) rd hs, Ok None)) \/
  (exists pre h post cur, hs = pre ++ h :: post /\ Forall (fun h => goodHeader rd h = true) pre /\
     goodHeader rd h = false /\ client (hd_Num h) = Ok cur /\
     checkHeaders client startTime id lastFinalized lastNum hs rd =
       (notified id (reorgAt id lastNum h cur) (fillCache (hd_Num h) cur (foldl (verify1 id) rd pre)),
        Ok (Some (reorgAt id lastNum h cur)))).
Proof.
  intros Hs. revert rd hl. induction Hs as [|h hs Hs IH Hlt]; intros rd hl Hok Hid Hev; [by left|].
  destruct (Hok h ltac:(by left)) as [Hb Hcl]. destruct (goodHeader rd h) eqn:Eg.
  2:{ right. destruct (client (hd_Num h)) as [cur|] eqn:Ec; [|done]. exists [], h, hs, cur.
      split_and!; try done. by apply checkHeaders_bad. }
  rewrite checkHeaders_good by done.
  destruct (verify1_frame id rd h) as (F1 & F2 & F3 & F4 & F5). destruct (verify1_tracked id rd h hl Hid) as (hl1 & H1 & _).
  assert (Hext : forall h', h' ∈ hs -> goodHeader (verify1 id rd h) h' = goodHeader rd h').
  { intros h' Hh'. apply goodHeader_cache_ext. rewrite F5. case_decide as E; [|done].
    rewrite Forall_forall in Hlt. specialize (Hlt _ Hh'). unfold header_lt in Hlt. lia. }
  destruct (IH (verify1 id rd h) hl1) as [[Hall Hrun]|(pre & b & post & cur & -> & Hall & Hbad & Hc & Hrun)]; try done.
  - intros h' Hh'. apply Hok. by right.
  - unfold no_event_at. by rewrite F3.
  - left. split; [|done]. constructor; [done|]. rewrite Forall_forall in Hall |- *.
    intros h' Hh'. by rewrite <- Hext by done; apply Hall.
  - right. exists (h :: pre), b, post, cur. split_and!; [done | | | done | done].
    + constructor; [done|]. rewrite Forall_forall in Hall |- *.
      intros h' Hh'. rewrite <- Hext by (apply elem_of_app; by left). by apply Hall.
    + rewrite <- Hext; [done|]. apply elem_of_app. right. by left.
Qed.

Lemma dropReorged_run ev rd :
  0 <= ev_FromBlock ev -> ev_ToBlock ev < MaxUint64 ->
  dropReorged ev rd =
    (set_headersCache (outside (ev_FromBlock ev) (ev_ToBlock ev) (headersCache rd))
       (untracked (ev_SubscriberID ev) (ev_FromBlock ev) (ev_ToBlock ev) rd), Ok tt).
Proof.
  intros Hf Ht. unfold dropReorged, removeTrackedBlockRange.
  erewrite sbind_run; [|reflexivity]. erewrite sbind_run; [|by apply removeTracked_run].
  unfold cleanCache, sget, sbind. by rewrite removeRange_outside.
Qed.

(** What a goroutine does to the list of its subscriber: everything from the first bad block on is
    dropped and notified, and the final blocks before it are dropped as verified. *)
Definition detection_outcome (rd rd' : ReorgDetector) (id : string) (hl hl' : headersList) : Prop :=
  ((forall n h, hl !! n = Some h -> goodHeader rd h = true) /\ sent rd' = sent rd /\
   forall n, hl' !! n = if n <=? lastFinalized then None else hl !! n) \/
  (exists m h, hl !! m = Some h /\ goodHeader rd h = false /\
     (forall n h', hl !! n = Some h' -> n < m -> goodHeader rd h' = true) /\
     sent rd' = sent rd ++ (match subscriptions rd !! id with Some ch => [(ch, m)] | None => [] end) /\
     forall n, hl' !! n = if (lastFinalized <? n) && (n <? m) then hl !! n else None).

(** The lists and the cache apart, a goroutine leaves the rest as it was. *)
Definition detection_frame (rd rd' : ReorgDetector) (id : string) : Prop :=
  subscriptions rd' = subscriptions rd /\
  (forall id', id' <> id -> trackedBlocks rd' !! id' = trackedBlocks rd !! id') /\
  (forall id', id' <> id -> no_event_at startTime id' rd -> no_event_at startTime id' rd') /\
  (forall k c, headersCache rd' !! k = Some c -> headersCache rd !! k = Some c \/ client k = Ok c) /\
  (exists l, sent rd' = sent rd ++ l).

Lemma detection_all_good id rd hl :
  keyed hl -> trackedBlocks rd !! id = Some hl -> Forall (fun h => goodHeader rd h = true) (getSorted hl) ->
  let rd' := foldl (verify1 id) rd (getSorted hl) in
  detection_frame rd rd' id /\
  exists hl', trackedBlocks rd' !! id = Some hl' /\ detection_outcome rd rd' id hl hl'.
Proof.
  intros Hk Hid Hall rd'. destruct (verify_all_frame id (getSorted hl) rd) as (E1 & E2 & E3 & E4 & E5).
  fold rd' in E1, E2, E3, E4, E5. split.
  - split_and!; [done | done | | | exists []; by rewrite app_nil_r].
    + intros id' _. unfold no_event_at. by rewrite E3.
    + intros k c. apply verify_all_cache. eapply Forall_impl; [exact Hall|]. intros h. apply goodHeader_client.
  - destruct (verify_all_tracked id (getSorted hl) rd hl Hid) as (hl' & H1 & H2). exists hl'. split; [done|]. left.
    rewrite Forall_forall in Hall. split_and!; [|done|].
    + intros n h Hh. apply Hall, getSorted_elem; [done|]. by rewrite (proj1 (Hk _ _ Hh)).
    + intros n. rewrite H2. destruct (existsb _ _) eqn:Eb.
      * apply existsb_exists in Eb as (h & _ & Hb). bool_hyps. by rewrite (proj2 (Z.leb_le _ _)).
      * destruct (n <=? lastFinalized) eqn:En; [|done]. destruct (hl !! n) as [h|] eqn:Eh; [|done].
        apply not_true_iff_false in Eb as []. apply existsb_exists. exists h. destruct (Hk _ _ Eh) as [Hn _]. split.
        -- apply list_elem_of_In, getSorted_elem; [done|]. by rewrite Hn.
        -- by rewrite Hn, Z.eqb_refl.
Qed.

Lemma notified_frame id ev rd :
  trackedBlocks (notified id ev rd) = trackedBlocks rd /\ headersCache (notified id ev rd) = headersCache rd /\
  subscriptions (notified id ev rd) = subscriptions rd /\ reorg_event (notified id ev rd) = reorg_event rd ++ [ev] /\
  sent (notified id ev rd) =
    sent rd ++ (match subscriptions rd !! id with Some ch => [(ch, ev_FromBlock ev)] | None => [] end).
Proof. unfold notified. destruct (subscriptions rd !! id); simpl; by rewrite ?app_nil_r. Qed.

Lemma fillCache_frame num cur rd :
  subscriptions (fillCache num cur rd) = subscriptions rd /\ sent (fillCache num cur rd) = sent rd /\
  reorg_event (fillCache num cur rd) = reorg_event rd /\
  (forall k c, headersCache (fillCache num cur rd) !! k = Some c ->
     headersCache rd !! k = Some c \/ (k = num /\ c = cur)).
Proof.
  unfold fillCache. destruct (headersCache rd !! num) eqn:E; (split_and!; [done | done | done |]).
  - by left.
  - simpl. intros k c. rewrite lookup_insert. case_decide; [intros [= <-]; by right | by left].
Qed.

(** In a sorted list split at [h], the headers before [h] are the ones with smaller numbers. *)
Lemma sorted_split pre h post x :
  StronglySorted header_lt (pre ++ h :: post) -> x ∈ pre ++ h :: post ->
  (x ∈ pre <-> hd_Num x < hd_Num h) /\ (forall y, y ∈ pre -> hd_Num y < hd_Num h).
Proof.
  intros Hs Hx. assert (Hpre : forall y, y ∈ pre -> hd_Num y < hd_Num h).
  { intros y Hy. apply (StronglySorted_app_1_elem_of _ _ _ y h Hs Hy). by left. }
  split; [|done]. split; [by apply Hpre|]. intros Hlt. apply elem_of_app in Hx as [Hx|Hx]; [done|].
  apply elem_of_cons in Hx as [-> | Hx]; [lia|]. apply StronglySorted_app_1_r in Hs. inversion Hs as [|? ? _ Ha]; subst.
  rewrite Forall_forall in Ha. specialize (Ha _ Hx). unfold header_lt in Ha. lia.
Qed.

(** Dropping the final headers before [h] and everything from [h] on. *)
Lemma cut_lookup hl pre h post n :
  keyed hl -> getSorted hl = pre ++ h :: post ->
  (if (hd_Num h <=? n) && (n <=? lastHeaderNum (getSorted hl)) then None
   else if existsb (fun x => (n =? hd_Num x) && (n <=? lastFinalized)) pre then None else hl !! n) =
  (if (lastFinalized <? n) && (n <? hd_Num h) then hl !! n else None).
Proof.
  intros Hk Hsplit. pose proof (getSorted_sorted hl Hk) as Hs. destruct (hl !! n) as [x|] eqn:Ex.
  2:{ by repeat case_match. }
  pose proof (Hk _ _ Ex) as [Hn _]. assert (Hin : x ∈ getSorted hl) by (apply getSorted_elem; [done | by rewrite Hn]).
  pose proof (sorted_last_ge _ _ Hs Hin) as Hle. rewrite Hn in Hle.
  rewrite Hsplit in Hs, Hin. pose proof (sorted_split _ _ _ _ Hs Hin) as [Hiff Hpre]. rewrite Hn in Hiff.
  rewrite (proj2 (Z.leb_le _ _) Hle), andb_true_r.
  destruct (hd_Num h <=? n) eqn:Eh; bool_hyps.
  { rewrite (proj2 (Z.ltb_ge n _)) by lia. by rewrite andb_false_r. }
  rewrite (proj2 (Z.ltb_lt n _)), andb_true_r by lia. destruct (existsb _ pre) eqn:Eb.
  - apply existsb_exists in Eb as (y & _ & Hb). bool_hyps. by rewrite (proj2 (Z.ltb_ge _ _)) by lia.
  - destruct (lastFinalized <? n) eqn:Ef; [done|]. bool_hyps. apply not_true_iff_false in Eb as [].
    apply existsb_exists. exists x. split; [apply list_elem_of_In, Hiff; lia|].
    rewrite Hn, Z.eqb_refl. simpl. by apply Z.leb_le.
Qed.

Lemma detection_bad id rd hl pre h post cur :
  keyed hl -> trackedBlocks rd !! id = Some hl -> getSorted hl = pre ++ h :: post ->
  Forall (fun h => goodHeader rd h = true) pre -> goodHeader rd h = false -> client (hd_Num h) = Ok cur ->
  let ev := reorgAt id (lastHeaderNum (getSorted hl)) h cur in
  exists rd', dropReorged ev (notified id ev (fillCache (hd_Num h) cur (foldl (verify1 id) rd pre))) = (rd', Ok tt) /\
    detection_frame rd rd' id /\ exists hl', trackedBlocks rd' !! id = Some hl' /\ detection_outcome rd rd' id hl hl'.
Proof.
  intros Hk Hid Hsplit Hpre Hbad Hcur ev. pose proof (getSorted_sorted hl Hk) as Hs.
  assert (Helem : forall x, x ∈ getSorted hl <-> hl !! hd_Num x = Some x) by (intros; by apply getSorted_elem).
  assert (Hh : hl !! hd_Num h = Some h) by (apply Helem; rewrite Hsplit; apply elem_of_app; right; by left).
  destruct (sorted_last_elem (getSorted hl)) as (lh & Hlh & Hlast); [rewrite Hsplit; by destruct pre|].
  destruct (Hk _ _ (proj1 (Helem _) Hlh)) as [_ Hlb]. destruct (Hk _ _ Hh) as [_ Hhb].
  destruct (verify_all_frame id pre rd) as (E1 & E2 & E3 & E4 & _).
  destruct (verify_all_tracked id pre rd hl Hid) as (hl1 & H1 & H2).
  set (rd1 := foldl (verify1 id) rd pre) in *. set (rd2 := fillCache (hd_Num h) cur rd1).
  destruct (fillCache_frame (hd_Num h) cur rd1) as (G1 & G2 & G3 & G4). fold rd2 in G1, G2, G3, G4.
  destruct (notified_frame id ev rd2) as (N1 & N2 & N3 & N4 & N5).
  assert (Ht2 : trackedBlocks rd2 = trackedBlocks rd1) by apply fillCache_tracked.
  rewrite (dropReorged_run ev); simpl; [|lia|lia].
  eexists. split; [done|]. split.
  - split_and!; simpl; [by rewrite N3, G1 | | | | exists (match subscriptions rd2 !! id with Some ch => [(ch, ev_FromBlock ev)] | None => [] end)].
    + intros id' Hne. rewrite lookup_alter_ne by done. by rewrite N1, Ht2, E4.
    + intros id' Hne Hno. unfold no_event_at in *. simpl. rewrite N4, G3, E3. apply Forall_app. split; [done|].
      constructor; [right; simpl; congruence | constructor].
    + intros k c Hc. rewrite outside_lookup, N2 in Hc. destruct (_ && _) in Hc; [done|].
      destruct (G4 _ _ Hc) as [Hc'|[-> ->]]; [|by right]. apply (verify_all_cache id pre); [|exact Hc'].
      eapply Forall_impl; [exact Hpre|]. intros x. apply goodHeader_client.
    + by rewrite N5, G2, E2.
  - simpl. rewrite lookup_alter_eq, N1, Ht2, H1. eexists. split; [done|]. right. exists (hd_Num h), h.
    rewrite Forall_forall in Hpre. rewrite Hsplit in Hs, Helem. split_and!; [done | done | | |].
    + intros n h' Hh' Hlt. apply Hpre. pose proof (Hk _ _ Hh') as [Hn _].
      assert (Hin : h' ∈ pre ++ h :: post) by (apply Helem; by rewrite Hn).
      apply (proj1 (sorted_split _ _ _ _ Hs Hin)). lia.
    + simpl. by rewrite N5, G1, G2, E1, E2.
    + intros n. rewrite outside_lookup, H2. rewrite <- Hsplit in Hs. by apply cut_lookup with post.
Qed.

(** The goroutine of a subscriber ends and has the outcome above. *)
Lemma detectSubscriber_outcome id rd hl :
  keyed hl -> trackedBlocks rd !! id = Some hl ->
  (forall n h, hl !! n = Some h -> is_ok (client n) = true) -> no_event_at startTime id rd ->
  exists rd', detectSubscriber client startTime lastFinalized id rd = (rd', Ok tt) /\
    detection_frame rd rd' id /\ exists hl', trackedBlocks rd' !! id = Some hl' /\ detection_outcome rd rd' id hl hl'.
Proof.
  intros Hk Hid Hcl Hev. unfold detectSubscriber. rewrite (sbind_run sget _ rd rd rd) by done. rewrite Hid.
  destruct (checkHeaders_run id (lastHeaderNum (getSorted hl)) (getSorted hl) rd hl)
    as [[Hall Hrun]|(pre & h & post & cur & Hsplit & Hpre & Hbad & Hcur & Hrun)]; try done.
  - by apply getSorted_sorted.
  - intros h Hh. apply getSorted_elem in Hh; [|done]. split; [by apply (Hk _ _ Hh) | by apply (Hcl _ h)].
  - rewrite (sbind_run _ _ _ _ _ Hrun). eexists. split; [done|]. by apply detection_all_good.
  - rewrite (sbind_run _ _ _ _ _ Hrun). by apply (detection_bad id rd hl pre h post).
Qed.

End DetectionLemmas.

(** ** A tick of the detector *)

Section Tick.
Context (client : Z -> result rdError Z) (startTime lastFinalized : Z).

(** What a tick guarantees to one subscriber: whatever is still tracked is on the chain and not yet
    final; a block that left the chain was notified, at it or before, and everything from there on
    is dropped; nothing else is dropped, stale entries of the cache apart. *)
Definition tick_guarantee (rd rd' : ReorgDetector) (new : list (nat * Z)) (id : string) (hl hl' : headersList) : Prop :=
  (forall n h, hl' !! n = Some h -> hl !! n = Some h /\ client n = Ok (hd_Hash h) /\ lastFinalized < n) /\
  (forall n h, hl !! n = Some h -> client n <> Ok (hd_Hash h) ->
     exists m, m <= n /\ (forall k, m <= k -> hl' !! k = None) /\
       forall ch, subscriptions rd !! id = Some ch -> (ch, m) ∈ new) /\
  (forall n h, hl !! n = Some h -> hl' !! n = None -> lastFinalized < n ->
     exists m hm, m <= n /\ hl !! m = Some hm /\
       (client m <> Ok (hd_Hash hm) \/ exists c, headersCache rd !! m = Some c /\ c <> hd_Hash hm)).

Lemma outcome_guarantee rd rd1 id hl hl' l :
  keyed hl -> detection_outcome client lastFinalized rd rd1 id hl hl' -> sent rd1 = sent rd ++ l ->
  tick_guarantee rd rd1 l id hl hl'.
Proof.
  intros Hk Hout Hl. assert (Hgood : forall n h, hl !! n = Some h -> goodHeader client rd h = true -> client n = Ok (hd_Hash h)).
  { intros n h Hh Hg. apply goodHeader_client in Hg. by rewrite (proj1 (Hk _ _ Hh)) in Hg. }
  destruct Hout as [(Hall & Hs & Hhl)|(m & h & Hm & Hbad & Hpre & Hs & Hhl)]; unfold tick_guarantee.
  - split_and!; intros n h Hh.
    + rewrite Hhl in Hh. destruct (n <=? lastFinalized) eqn:E; bool_hyps; [done|]. split_and!; [done | eauto | lia].
    + intros Hne. destruct Hne. eauto.
    + intros Hd Hf. rewrite Hhl, (proj2 (Z.leb_gt _ _) Hf), Hh in Hd. done.
  - split_and!.
    + intros n x Hx. rewrite Hhl in Hx. destruct ((lastFinalized <? n) && (n <? m)) eqn:E; bool_hyps; [|done].
      split_and!; [done | | done]. eauto.
    + intros n x Hx Hne. exists m. split_and!.
      * destruct (decide (m <= n)); [done|]. destruct Hne. apply (Hgood n x Hx), (Hpre n x Hx). lia.
      * intros k Hmk. rewrite Hhl, (proj2 (Z.ltb_ge k m)), andb_false_r by lia. done.
      * intros ch Hch. rewrite Hs, Hch in Hl. apply app_inv_head in Hl as <-. by left.
    + intros n x Hx Hd Hf. rewrite Hhl, Hx in Hd. exists m, h.
      assert (m <= n) by (destruct (decide (m <= n)); [done|]; rewrite (proj2 (Z.ltb_lt lastFinalized n)), (proj2 (Z.ltb_lt n m)) in Hd by lia; done).
      split_and!; [done | done |]. unfold goodHeader in Hbad. rewrite (proj1 (Hk _ _ Hm)) in Hbad.
      destruct (client m) as [c|]; [|by left]. destruct (c =? hd_Hash h) eqn:Ec; bool_hyps; [|left; congruence].
      right. destruct (headersCache rd !! m) as [c'|]; simpl in Hbad; [|done]. exists c'. bool_hyps. by split.
Qed.

(** The guarantee only depends on the lists, the subscription, and the cache up to the hashes of the
    client. *)
Lemma tick_guarantee_later rd rd0 rd1 rd2 id hl hl' l l0 l2 :
  subscriptions rd0 = subscriptions rd ->
  (forall k c, headersCache rd0 !! k = Some c -> headersCache rd !! k = Some c \/ client k = Ok c) ->
  tick_guarantee rd0 rd1 l id hl hl' -> tick_guarantee rd rd2 (l0 ++ l ++ l2) id hl hl'.
Proof.
  intros Hsub Hc (G1 & G2 & G3). split_and!; [done | |].
  - intros n h Hh Hne. destruct (G2 n h Hh Hne) as (m & Hm & Hk & Hs). exists m. split_and!; [done | done |].
    intros ch Hch. rewrite <- Hsub in Hch. rewrite !elem_of_app. right. left. by apply Hs.
  - intros n h Hh Hn Hf. destruct (G3 n h Hh Hn Hf) as (m & hm & Hle & Hm & Hor). exists m, hm. split_and!; [done | done |].
    destruct Hor as [?|(c & Hcc & Hne)]; [by left|]. destruct (Hc _ _ Hcc) as [?|Hcl]; [right; eauto|].
    left. intros E. congruence.
Qed.

Definition tick_ready (ids : list string) (rd : ReorgDetector) : Prop :=
  forall id, id ∈ ids -> no_event_at startTime id rd /\
    forall hl, trackedBlocks rd !! id = Some hl -> keyed hl /\ forall n h, hl !! n = Some h -> is_ok (client n) = true.

(** One goroutine, the subscriber tracked or not. *)
Lemma detectSubscriber_total id rd :
  tick_ready [id] rd ->
  exists rd' l, detectSubscriber client startTime lastFinalized id rd = (rd', Ok tt) /\
    detection_frame client startTime rd rd' id /\ sent rd' = sent rd ++ l /\
    forall hl, trackedBlocks rd !! id = Some hl ->
      exists hl', trackedBlocks rd' !! id = Some hl' /\ tick_guarantee rd rd' l id hl hl'.
Proof.
  intros Hr. destruct (Hr id ltac:(by left)) as [Hev Hl]. destruct (trackedBlocks rd !! id) as [hl|] eqn:Hid.
  - destruct (Hl hl eq_refl) as [Hk Hcl].
    destruct (detectSubscriber_outcome client startTime lastFinalized id rd hl) as (rd' & Hrun & Hfr & hl' & Hid' & Hout); try done.
    assert (Hfr' := Hfr). destruct Hfr' as (_ & _ & _ & _ & l & Hs). exists rd', l. split_and!; try done.
    intros ? [= <-]. exists hl'. split; [done|]. by apply outcome_guarantee.
  - exists rd, []. unfold detectSubscriber. rewrite (sbind_run sget _ rd rd rd) by done. rewrite Hid, app_nil_r.
    split_and!; try done. unfold detection_frame. split_and!; try done; [by left | exists []; by rewrite app_nil_r].
Qed.

(** C21. A tick in which the node answers for every tracked block, and at whose start time no event is recorded
    yet, ends, whatever the order of its goroutines: what a subscriber still tracks is on the chain and not final;
    every tracked block that is not on the chain was notified to the subscriber, at its number or below, and
    everything from there on is dropped; and a block above the finalized one is only dropped when it or an earlier
    tracked block has left the chain, or is tracked with another hash than the one cached from an earlier tick,
    which may be stale although the block is on the chain ([stale_cache_drops_canonical_block]). *)
Theorem detectAll_no_missed_reorg ids rd :
  NoDup ids -> tick_ready ids rd ->
  exists rd' l, detectAll client startTime lastFinalized ids rd = (rd', Ok tt) /\ sent rd' = sent rd ++ l /\
    (forall id, id ∉ ids -> trackedBlocks rd' !! id = trackedBlocks rd !! id) /\
    forall id hl, id ∈ ids -> trackedBlocks rd !! id = Some hl ->
      exists hl', trackedBlocks rd' !! id = Some hl' /\ tick_guarantee rd rd' l id hl hl'.
Proof.
  intros Hnd. revert rd. induction Hnd as [|id ids Hni Hnd IH]; intros rd Hr; cbn [detectAll].
  { exists rd, []. split_and!; [done | by rewrite app_nil_r | done |]. intros id hl Hin. by apply elem_of_nil in Hin. }
  destruct (detectSubscriber_total id rd) as (rd1 & l1 & -> & (F1 & F2 & F3 & F4 & _) & Hs1 & Hg1).
  { intros id' Hin. apply list_elem_of_singleton in Hin as ->. apply Hr. by left. }
  destruct (IH rd1) as (rd2 & l2 & -> & Hs2 & Hfr2 & Hg2).
  { intros id' Hin. assert (id' <> id) by (by intros ->). destruct (Hr id' ltac:(by right)) as [Hev Hl].
    split; [by apply F3|]. rewrite F2 by done. done. }
  exists rd2, (l1 ++ l2). split_and!; [done | by rewrite Hs2, Hs1, app_assoc | |].
  - intros id' Hn. apply not_elem_of_cons in Hn as [Hn1 Hn2]. by rewrite Hfr2, F2.
  - intros id' hl Hin Hid. apply elem_of_cons in Hin as [-> | Hin].
    + destruct (Hg1 hl Hid) as (hl' & Hid1 & Hg). exists hl'. split; [by rewrite Hfr2|].
      apply (tick_guarantee_later rd rd rd1 rd2 id hl hl' l1 [] l2); [done | by left | done].
    + assert (id' <> id) by (by intros ->). destruct (Hg2 id' hl Hin) as (hl' & Hid2 & Hg); [by rewrite F2|].
      exists hl'. split; [done|]. rewrite <- (app_nil_r l2).
      by apply (tick_guarantee_later rd rd1 rd2 rd2 id' hl hl' l2 l1 []).
Qed.

End Tick.

(** ** The database mirrors the memory *)

Definition rows_of (id : string) (rows : list HeaderWithSubscriberID) : list Header :=
  map (fun r => mkHeader (row_Num r) (row_Hash r)) (bfilter (fun r => String.eqb (row_SubscriberID r) id) rows).

Lemma rows_of_cons id r rows :
  rows_of id (r :: rows) =
    if String.eqb (row_SubscriberID r) id then mkHeader (row_Num r) (row_Hash r) :: rows_of id rows else rows_of id rows.
Proof. unfold rows_of. simpl. by destruct (String.eqb _ _). Qed.

Lemma rows_of_none id rows :
  existsb (fun r => String.eqb (row_SubscriberID r) id) rows = false -> rows_of id rows = [].
Proof.
  induction rows as [|r rows IH]; [done|]. simpl. intros H. apply orb_false_iff in H as [E H].
  rewrite rows_of_cons, E. auto.
Qed.

Lemma rows_of_elem id rows h : h ∈ rows_of id rows <-> In (mkRow id (hd_Num h) (hd_Hash h)) rows.
Proof.
  unfold rows_of. rewrite list_elem_of_In, in_map_iff. split.
  - intros (r & <- & Hr). apply bfilter_In in Hr as [Hr E]. apply String.eqb_eq in E as <-. by destruct r.
  - intros Hin. eexists. split; [|apply bfilter_In; split; [exact Hin | by rewrite String.eqb_refl]]. by destruct h.
Qed.

Lemma newHeadersList_lookup_acc l (acc : headersList) n h :
  NoDup (map hd_Num l) ->
  (fold_left (fun m b => <[hd_Num b := b]> m) l acc) !! n = Some h <->
  (h ∈ l /\ hd_Num h = n) \/ (~ (n ∈ map hd_Num l) /\ acc !! n = Some h).
Proof.
  revert acc. induction l as [|b l IH]; intros acc Hnd; simpl.
  - rewrite elem_of_nil. pose proof (not_elem_of_nil n). tauto.
  - apply NoDup_cons in Hnd as [Hni Hnd]. rewrite IH by done. rewrite elem_of_cons, not_elem_of_cons, lookup_insert_Some.
    split.
    + intros [[Hin Hn]|(Hn & [[<- <-]|[Hne Ha]])]; [left; auto | left; auto | right; split_and!; auto].
    + intros [[[-> | Hin] Hn]|[[Hne Hn] Ha]]; [subst n; right | left; auto | right; split; [done | right; auto]].
      split; [done | by left].
Qed.

Lemma newHeadersList_lookup l n h :
  NoDup (map hd_Num l) -> newHeadersList l !! n = Some h <-> h ∈ l /\ hd_Num h = n.
Proof.
  intros Hnd. unfold newHeadersList. rewrite newHeadersList_lookup_acc by done. rewrite lookup_empty. naive_solver.
Qed.

Lemma groupRows_lookup rows cur hs acc id :
  StronglySorted row_le rows -> Forall (fun r => String.le cur (row_SubscriberID r)) rows ->
  groupRows rows cur hs acc !! id =
    if String.eqb id cur then Some (newHeadersList (hs ++ rows_of cur rows))
    else if existsb (fun r => String.eqb (row_SubscriberID r) id) rows then Some (newHeadersList (rows_of id rows))
    else acc !! id.
Proof.
  intros Hs. revert cur hs acc. induction Hs as [|r rows Hs IH Hr]; intros cur hs acc Hcur; simpl.
  - rewrite app_nil_r. destruct (String.eqb_spec id cur) as [-> | Hne]; [by rewrite lookup_insert_eq|].
    by rewrite lookup_insert_ne.
  - apply Forall_cons in Hcur as [Hcr Hcur]. destruct (String.eqb_spec (row_SubscriberID r) cur) as [E|Hne].
    + rewrite IH by done. rewrite !rows_of_cons, E, String.eqb_refl, <- app_assoc.
      destruct (String.eqb_spec id cur) as [-> | Hne]; [done|].
      by rewrite (proj2 (String.eqb_neq cur id)) by congruence.
    + assert (Hno : existsb (fun r => String.eqb (row_SubscriberID r) cur) rows = false).
      { apply not_true_iff_false. intros Hb. apply existsb_exists in Hb as (r' & Hin & E). apply String.eqb_eq in E.
        apply list_elem_of_In in Hin. rewrite Forall_forall in Hr. specialize (Hr r' Hin). unfold row_le in Hr.
        rewrite E in Hr. apply Hne. by apply (anti_symm String.le). }
      rewrite IH by done. rewrite !rows_of_cons, (proj2 (String.eqb_neq (row_SubscriberID r) cur)) by done.
      rewrite (rows_of_none cur) by done. rewrite app_nil_r. simpl.
      destruct (String.eqb_spec id (row_SubscriberID r)) as [-> | Hne'].
      * by rewrite String.eqb_refl, (proj2 (String.eqb_neq _ cur)).
      * rewrite (proj2 (String.eqb_neq (row_SubscriberID r) id)) by congruence. simpl.
        destruct (String.eqb_spec id cur) as [-> | Hne2]; [by rewrite Hno, lookup_insert_eq | by rewrite lookup_insert_ne].
Qed.

#[global] Instance row_le_trans : Transitive row_le.
Proof. intros a b c. unfold row_le. apply transitivity. Qed.
#[global] Instance row_le_total : Total row_le.
Proof. intros a b. unfold row_le. apply (total String.le). Qed.

Lemma getTrackedBlocks_lookup rows id :
  getTrackedBlocks rows !! id =
    if existsb (fun r => String.eqb (row_SubscriberID r) id) rows
    then Some (newHeadersList (rows_of id (merge_sort row_le rows))) else None.
Proof.
  assert (Hex : existsb (fun r => String.eqb (row_SubscriberID r) id) rows =
                existsb (fun r => String.eqb (row_SubscriberID r) id) (merge_sort row_le rows)).
  { apply eq_true_iff_eq. rewrite !existsb_exists.
    split; intros (r & Hin & E); exists r; (split; [|done]); apply list_elem_of_In; apply list_elem_of_In in Hin;
      [by rewrite merge_sort_Permutation | by rewrite merge_sort_Permutation in Hin]. }
  pose proof (StronglySorted_merge_sort row_le rows) as Hs. rewrite Hex. unfold getTrackedBlocks.
  destruct (merge_sort row_le rows) as [|r l] eqn:E; [done|]. rewrite groupRows_lookup; [|done|].
  - simpl. destruct (String.eqb_spec id (row_SubscriberID r)) as [-> | Hne]; [by rewrite String.eqb_refl|].
    by rewrite (proj2 (String.eqb_neq (row_SubscriberID r) id)) by congruence.
  - constructor; [done|]. inversion Hs as [|? ? _ Ha]; subst. eapply Forall_impl; [exact Ha|]. done.
Qed.

(** Lists are keyed, the rows are the tracked blocks, one per subscriber and number, and every
    tracked list has a subscription. *)
Record rd_wf (rd : ReorgDetector) : Prop := {
  wf_keyed : forall id hl, trackedBlocks rd !! id = Some hl -> keyed hl;
  wf_rows : forall id n h, In (mkRow id n h) (tracked_block rd) <->
    exists hl, trackedBlocks rd !! id = Some hl /\ hl !! n = Some (mkHeader n h);
  wf_nodup : NoDup (map (fun r => (row_SubscriberID r, row_Num r)) (tracked_block rd));
  wf_subscribed : forall id, is_Some (trackedBlocks rd !! id) -> is_Some (subscriptions rd !! id)
}.

Lemma rows_of_nodup id rows :
  NoDup (map (fun r => (row_SubscriberID r, row_Num r)) rows) -> NoDup (map hd_Num (rows_of id rows)).
Proof.
  induction rows as [|r rows IH]; [intros _; constructor|]. simpl. rewrite rows_of_cons, NoDup_cons. intros [Hni Hnd].
  destruct (String.eqb_spec (row_SubscriberID r) id) as [<-|]; [|auto]. simpl. apply NoDup_cons. split; [|auto].
  intros Hin. apply Hni. apply list_elem_of_fmap in Hin as (h & -> & Hh). apply rows_of_elem in Hh.
  apply list_elem_of_fmap. eexists. split; [|apply list_elem_of_In, Hh]. done.
Qed.

(** Loading the rows gives every tracked block back. *)
Lemma load_lookup rd id n h :
  rd_wf rd ->
  (exists hl, getTrackedBlocks (tracked_block rd) !! id = Some hl /\ hl !! n = Some h) <->
  (exists hl, trackedBlocks rd !! id = Some hl /\ hl !! n = Some h).
Proof.
  intros Hwf. rewrite getTrackedBlocks_lookup. set (rows := tracked_block rd).
  assert (Hnd : NoDup (map hd_Num (rows_of id (merge_sort row_le rows)))).
  { apply rows_of_nodup. change (NoDup ((fun r => (row_SubscriberID r, row_Num r)) <$> merge_sort row_le rows)).
    rewrite merge_sort_Permutation. apply (wf_nodup rd Hwf). }
  assert (Hrow : h ∈ rows_of id (merge_sort row_le rows) /\ hd_Num h = n <-> In (mkRow id n (hd_Hash h)) rows /\ hd_Num h = n).
  { rewrite rows_of_elem, <- !list_elem_of_In, merge_sort_Permutation. naive_solver. }
  transitivity (In (mkRow id n (hd_Hash h)) rows /\ hd_Num h = n).
  - split.
    + intros (hl & Hhl & Hn). destruct (existsb _ rows); [|done]. injection Hhl as <-.
      apply newHeadersList_lookup in Hn; [|done]. by apply Hrow.
    + intros Hin. destruct (existsb _ rows) eqn:Eb.
      * eexists. split; [done|]. apply newHeadersList_lookup; [done|]. by apply Hrow.
      * apply not_true_iff_false in Eb as []. apply existsb_exists. eexists. split; [apply Hin|]. simpl. apply String.eqb_refl.
  - unfold rows. rewrite (wf_rows rd Hwf). split.
    + intros [(hl & Hhl & Hn) <-]. exists hl. by destruct h.
    + intros (hl & Hhl & Hn). destruct (wf_keyed rd Hwf id hl Hhl n h Hn) as [<- _]. split; [|done]. exists hl. by destruct h.
Qed.

Lemma load_subscriptions_frame ids rd :
  let rd' := fold_left (fun s id => new_subscription id s) ids rd in
  trackedBlocks rd' = trackedBlocks rd /\ tracked_block rd' = tracked_block rd /\
  forall id, id ∈ ids \/ is_Some (subscriptions rd !! id) -> is_Some (subscriptions rd' !! id).
Proof.
  revert rd. induction ids as [|i ids IH]; intros rd; simpl.
  - split_and!; try done. intros id [H|H]; [by apply elem_of_nil in H | done].
  - destruct (IH (new_subscription i rd)) as (E1 & E2 & E3). split_and!; [by rewrite E1 | by rewrite E2 |].
    intros id H. apply E3. simpl. rewrite lookup_insert. case_decide; [right; eauto|].
    destruct H as [H|H]; [|by right]. apply elem_of_cons in H as [-> | H]; [done | by left].
Qed.

(** A restart: a new detector on the same database. *)
Definition New (rows : list HeaderWithSubscriberID) (events : list ReorgEvent) : ReorgDetector :=
  mkReorgDetector ∅ ∅ ∅ 0 rows events [].
Definition restart (rd : ReorgDetector) : ReorgDetector := loadTrackedHeaders (New (tracked_block rd) (reorg_event rd)).

Lemma restart_wf rd : rd_wf rd -> rd_wf (restart rd).
Proof.
  intros Hwf. unfold restart, loadTrackedHeaders. cbn [tracked_block New].
  set (tb := getTrackedBlocks (tracked_block rd)).
  destruct (load_subscriptions_frame (map fst (map_to_list tb))
    (set_trackedBlocks (fun _ => tb) (New (tracked_block rd) (reorg_event rd)))) as (E1 & E2 & E3).
  assert (Hl : forall id n h, (exists hl, tb !! id = Some hl /\ hl !! n = Some h) <->
    exists hl, trackedBlocks rd !! id = Some hl /\ hl !! n = Some h) by (intros; by apply load_lookup).
  constructor; rewrite ?E1, ?E2; simpl.
  - intros id hl Hid n h Hn. destruct (proj1 (Hl id n h) ltac:(eauto)) as (hl0 & H0 & Hn0). by apply (wf_keyed rd Hwf id hl0).
  - intros id n h. rewrite (wf_rows rd Hwf), Hl. done.
  - apply (wf_nodup rd Hwf).
  - intros id [hl Hid]. apply E3. left. apply list_elem_of_fmap. exists (id, hl). split; [done|].
    by apply elem_of_map_to_list.
Qed.

(** ** Every operation keeps the mirror *)

(** The invariant reads lists, rows and subscriptions only. *)
Lemma rd_wf_ext rd rd' :
  trackedBlocks rd' = trackedBlocks rd -> tracked_block rd' = tracked_block rd -> subscriptions rd' = subscriptions rd ->
  rd_wf rd -> rd_wf rd'.
Proof. intros E1 E2 E3 [H1 H2 H3 H4]. constructor; by rewrite ?E1, ?E2, ?E3. Qed.

Lemma untracked_wf id from to rd : rd_wf rd -> rd_wf (untracked id from to rd).
Proof.
  intros [H1 H2 H3 H4]. constructor; simpl.
  - intros id' hl Hid. apply lookup_alter_Some in Hid as [(-> & hl0 & Hid & ->)|[_ Hid]]; [|eauto].
    intros n h Hn. rewrite outside_lookup in Hn. destruct (_ && _); [done|]. by apply (H1 _ _ Hid).
  - intros id' n h. rewrite bfilter_In, H2. unfold row_in_range. simpl.
    destruct (String.eqb_spec id' id) as [-> | Hne].
    + rewrite lookup_alter_eq, andb_true_r. split.
      * intros [(hl & Hid & Hn) Hb]. rewrite Hid. eexists. split; [done|]. rewrite outside_lookup. bool_hyps. by rewrite Hb.
      * intros (hl & Hid & Hn). destruct (trackedBlocks rd !! id) as [hl0|]; [|done]. injection Hid as <-.
        rewrite outside_lookup in Hn. destruct (_ && _); [done|]. eauto.
    + rewrite lookup_alter_ne, andb_false_r by done. naive_solver.
  - by apply map_bfilter_NoDup.
  - intros id' [hl Hid]. apply lookup_alter_Some in Hid as [(-> & hl0 & Hid & _)|[_ Hid]]; eauto.
Qed.

(** A block tracked for the first time. *)
Lemma saveTrackedBlock_wf id n h rd hl :
  rd_wf rd -> trackedBlocks rd !! id = Some hl -> hl !! n = None -> 0 <= n < MaxUint64 ->
  rd_wf (fst (saveTrackedBlock id (newHeader n h) rd)).
Proof.
  intros [H1 H2 H3 H4] Hid Hn Hb. unfold saveTrackedBlock, sbind, smodify. cbn [fst].
  set (hl' := <[n := mkHeader n h]> hl).
  assert (E : trackedBlocks (set_trackedBlocks (fun tb => match tb !! id with
      | None => <[id := newHeadersList [newHeader n h]]> tb
      | Some hdrs => if hl_isEmpty hdrs then <[id := newHeadersList [newHeader n h]]> tb
                     else <[id := hl_add hdrs (newHeader n h)]> tb end) rd) = <[id := hl']> (trackedBlocks rd)).
  { simpl. rewrite Hid. unfold hl_isEmpty, hl_len. destruct (Nat.eqb_spec (size hl) 0) as [Es|]; [|done].
    apply map_size_empty_inv in Es. unfold hl'. by rewrite Es. }
  constructor; cbn [set_tracked_block trackedBlocks tracked_block subscriptions] in *; rewrite ?E.
  - intros id' l Hl. apply lookup_insert_Some in Hl as [[<- <-]|[_ Hl]]; [|eauto].
    intros k x Hx. apply lookup_insert_Some in Hx as [[<- <-]|[_ Hx]]; [done|]. by apply (H1 id hl).
  - intros id' k x. rewrite in_app_iff, H2. cbn [In]. split.
    + intros [(l & Hl & Hk)|[[= -> -> ->]|[]]].
      * destruct (decide (id' = id)) as [-> | Hne]; [|exists l; by rewrite lookup_insert_ne].
        rewrite lookup_insert_eq. exists hl'. split; [done|]. unfold hl'. rewrite lookup_insert_ne; congruence.
      * exists hl'. unfold hl'. by rewrite !lookup_insert_eq.
    + intros (l & Hl & Hk). apply lookup_insert_Some in Hl as [[<- <-]|[Hne Hl]]; [|left; eauto].
      apply lookup_insert_Some in Hk as [[<- [= <-]]|[_ Hk]]; [right; by left | left; eauto].
  - rewrite map_app. apply NoDup_app. split_and!; [done | | apply NoDup_singleton].
    intros [i k] Hin Hin2. apply list_elem_of_singleton in Hin2 as [= -> ->].
    apply list_elem_of_fmap in Hin as ([i k x] & [= -> ->] & Hin). apply list_elem_of_In, H2 in Hin as (l & Hl & Hk). congruence.
  - intros id' Hs. destruct (decide (id' = id)) as [-> | Hne]; [eauto|]. rewrite lookup_insert_ne in Hs by done. auto.
Qed.

Lemma AddBlockToTrack_wf id n h rd :
  rd_wf rd -> 0 <= n < MaxUint64 ->
  (forall hl x, trackedBlocks rd !! id = Some hl -> hl !! n = Some x -> hd_Hash x = h) ->
  rd_wf (fst (AddBlockToTrack id n h rd)).
Proof.
  intros Hwf Hb Hsame. unfold AddBlockToTrack. rewrite (sbind_run sget _ rd rd rd) by done.
  destruct (trackedBlocks rd !! id) as [hl|] eqn:Hid; [|done]. unfold hl_get. destruct (hl !! n) as [x|] eqn:Hn.
  - rewrite (Hsame hl x) by done. by rewrite Z.eqb_refl.
  - by apply saveTrackedBlock_wf with hl.
Qed.

Lemma Subscribe_wf id rd : rd_wf rd -> rd_wf (fst (Subscribe id rd)).
Proof.
  intros Hwf. unfold Subscribe. rewrite (sbind_run sget _ rd rd rd) by done.
  destruct (subscriptions rd !! id) as [c|] eqn:Es; [done|]. destruct Hwf as [H1 H2 H3 H4].
  assert (Hid : trackedBlocks rd !! id = None).
  { apply eq_None_not_Some. intros Hs. destruct (H4 id Hs). congruence. }
  unfold sbind, smodify, sret. constructor; simpl.
  - intros id' hl Hl. apply lookup_insert_Some in Hl as [[<- <-]|[_ Hl]]; [intros n h Hn; done | eauto].
  - intros id' n h. rewrite H2. split; intros (hl & Hl & Hn).
    + exists hl. rewrite lookup_insert_ne by congruence. done.
    + apply lookup_insert_Some in Hl as [[<- <-]|[_ Hl]]; [done | eauto].
  - done.
  - intros id' Hs. rewrite lookup_insert. case_decide as E; [eauto|]. rewrite lookup_insert_ne in Hs by congruence. auto.
Qed.

(** The headers a goroutine looks at are [uint64] values below the last. *)
Definition bounded (hs : list Header) : Prop := Forall (fun h => 0 <= hd_Num h < MaxUint64) hs.

Lemma getSorted_bounded hl : keyed hl -> bounded (getSorted hl).
Proof. intros Hk. apply Forall_forall. intros h Hh. apply getSorted_elem in Hh; [|done]. by apply (Hk _ _ Hh). Qed.

Lemma lastHeaderNum_bounded hl : keyed hl -> lastHeaderNum (getSorted hl) < MaxUint64.
Proof.
  intros Hk. destruct (decide (getSorted hl = [])) as [-> | Hne]; [done|].
  destruct (sorted_last_elem _ Hne) as (h & Hh & ->). apply getSorted_elem in Hh; [|done]. by apply (Hk _ _ Hh).
Qed.

Section DetectionKeeps.
Context (client : Z -> result rdError Z) (startTime lastFinalized : Z).

Lemma checkHeaders_wf id lastNum hs rd rd' r :
  bounded hs -> rd_wf rd -> checkHeaders client startTime id lastFinalized lastNum hs rd = (rd', r) ->
  rd_wf rd' /\
  forall ev, r = Ok (Some ev) -> ev_ToBlock ev = lastNum /\ 0 <= ev_FromBlock ev /\ ev_SubscriberID ev = id.
Proof.
  intros Hb. revert rd. induction Hb as [|h hs Hh _ IH]; intros rd Hwf H; [by injection H as <- <-|]. cbn [checkHeaders] in H.
  destruct (client (hd_Num h)) as [cur|e] eqn:Ec; [|by injection H as <- <-].
  rewrite (sbind_run _ _ rd rd cur) in H by done.
  assert (Hc : exists old rd1, cachedHeader (hd_Num h) cur rd = (rd1, Ok old) /\ rd_wf rd1).
  { unfold cachedHeader, sbind, sget, smodify, sret. destruct (headersCache rd !! hd_Num h); eexists _, _; (split; [done|]); [done|].
    by apply (rd_wf_ext rd). }
  destruct Hc as (old & rd1 & Hrun & Hwf1). rewrite (sbind_run _ _ _ _ _ Hrun) in H.
  destruct ((hd_Hash h =? old) && (cur =? hd_Hash h)).
  - destruct (hd_Num h <=? lastFinalized).
    + rewrite (sbind_run _ _ _ _ _ (untracked_run id (hd_Num h) (hd_Num h) rd1 ltac:(lia) ltac:(lia))) in H.
      eapply IH; [|exact H]. by apply untracked_wf.
    + rewrite (sbind_run _ _ rd1 rd1 tt) in H by done. by eapply IH.
  - unfold insertReorgEvent, notifySubscriber, sbind, sget, smodify, sfail, sret in H.
    destruct (existsb _ _); [by injection H as <- <-|]. cbn [subscriptions set_reorg_event] in H.
    destruct (subscriptions rd1 !! id); injection H as <- <-;
      (split; [by apply (rd_wf_ext rd1) | intros ev [= <-]; simpl; split_and!; [done | lia | done]]).
Qed.

(** Whatever happens, a header the loop removes was found on the chain and final. *)
Lemma checkHeaders_removes_final id lastNum hs rd rd' r hl :
  bounded hs -> checkHeaders client startTime id lastFinalized lastNum hs rd = (rd', r) ->
  trackedBlocks rd !! id = Some hl -> (forall x y, x ∈ hs -> hl !! hd_Num x = Some y -> y = x) ->
  exists hl', trackedBlocks rd' !! id = Some hl' /\
    forall n h, hl !! n = Some h -> hl' !! n = Some h \/ (client n = Ok (hd_Hash h) /\ n <= lastFinalized).
Proof.
  intros Hb. revert rd hl. induction Hb as [|h hs Hh _ IH]; intros rd hl H Hid Hhs.
  { injection H as <- <-. exists hl. auto. }
  cbn [checkHeaders] in H. destruct (client (hd_Num h)) as [cur|e] eqn:Ec; [|injection H as <- <-; exists hl; auto].
  rewrite (sbind_run _ _ rd rd cur) in H by done.
  assert (Hc : exists old rd1, cachedHeader (hd_Num h) cur rd = (rd1, Ok old) /\ trackedBlocks rd1 !! id = Some hl).
  { unfold cachedHeader, sbind, sget, smodify, sret. destruct (headersCache rd !! hd_Num h); eexists _, _; by split. }
  destruct Hc as (old & rd1 & Hrun & Hid1). rewrite (sbind_run _ _ _ _ _ Hrun) in H.
  destruct ((hd_Hash h =? old) && (cur =? hd_Hash h)) eqn:Eg; bool_hyps.
  - subst. destruct (hd_Num h <=? lastFinalized) eqn:Ef; bool_hyps.
    + rewrite (sbind_run _ _ _ _ _ (untracked_run id (hd_Num h) (hd_Num h) rd1 ltac:(lia) ltac:(lia))) in H.
      destruct (IH _ (outside (hd_Num h) (hd_Num h) hl) H) as (hl' & Hid' & Hk).
      * simpl. by rewrite lookup_alter_eq, Hid1.
      * intros x y Hx Hy. rewrite outside_lookup in Hy. destruct (_ && _); [done|]. apply Hhs; [by right | done].
      * exists hl'. split; [done|]. intros n x Hx. destruct (decide (n = hd_Num h)) as [-> | Hne].
        -- right. rewrite (Hhs h x) by (done || by left). by split.
        -- apply Hk. rewrite outside_lookup. destruct (hd_Num h <=? n) eqn:E1, (n <=? hd_Num h) eqn:E2; bool_hyps; try done. lia.
    + rewrite (sbind_run _ _ rd1 rd1 tt) in H by done. apply (IH _ hl H Hid1). intros x y Hx. apply Hhs. by right.
  - exists hl. split; [|auto]. unfold insertReorgEvent, notifySubscriber, sbind, sget, smodify, sfail, sret in H.
    destruct (existsb _ _); [by injection H as <- <-|]. cbn [subscriptions set_reorg_event] in H.
    by destruct (subscriptions rd1 !! id); injection H as <- <-.
Qed.

Lemma detectSubscriber_wf id rd : rd_wf rd -> rd_wf (fst (detectSubscriber client startTime lastFinalized id rd)).
Proof.
  intros Hwf. unfold detectSubscriber. rewrite (sbind_run sget _ rd rd rd) by done.
  destruct (trackedBlocks rd !! id) as [hl|] eqn:Hid; [|done]. pose proof (wf_keyed rd Hwf id hl Hid) as Hk.
  pose proof (getSorted_bounded hl Hk) as Hb.
  unfold sbind. destruct (checkHeaders _ _ _ _ _ _ _) as [rd1 r] eqn:Hrun.
  destruct (checkHeaders_wf _ _ _ _ _ _ Hb Hwf Hrun) as [Hwf1 Hev]. destruct r as [[ev|]|e]; [|done|done].
  destruct (Hev ev eq_refl) as (Hto & Hfrom & _). rewrite dropReorged_run; [|done|].
  - apply (rd_wf_ext (untracked (ev_SubscriberID ev) (ev_FromBlock ev) (ev_ToBlock ev) rd1)); try done. by apply untracked_wf.
  - rewrite Hto. by apply lastHeaderNum_bounded.
Qed.

Lemma detectAll_wf ids rd : rd_wf rd -> rd_wf (fst (detectAll client startTime lastFinalized ids rd)).
Proof.
  revert rd. induction ids as [|id ids IH]; intros rd Hwf; [done|]. cbn [detectAll].
  pose proof (detectSubscriber_wf id rd Hwf) as H1. destruct (detectSubscriber _ _ _ _ _) as [rd1 r1].
  pose proof (IH rd1 H1) as H2. by destruct (detectAll _ _ _ _ _) as [rd2 r2].
Qed.

End DetectionKeeps.

(** The calls on a detector: subscribing, tracking a block (with the hash it is tracked with, if it
    is), a tick with any client, complete or cut short by an error, and a restart. *)
Inductive rd_step : ReorgDetector -> ReorgDetector -> Prop :=
| step_Subscribe id rd : rd_step rd (fst (Subscribe id rd))
| step_AddBlockToTrack id n h rd :
    0 <= n < MaxUint64 ->
    (forall hl x, trackedBlocks rd !! id = Some hl -> hl !! n = Some x -> hd_Hash x = h) ->
    rd_step rd (fst (AddBlockToTrack id n h rd))
| step_detect client finalized startTime rd : rd_step rd (fst (detectReorgInTrackedList client finalized startTime rd))
| step_restart rd : rd_step rd (restart rd).

Lemma rd_step_wf rd rd' : rd_step rd rd' -> rd_wf rd -> rd_wf rd'.
Proof.
  intros [id rd0|id n h rd0 Hb Hs|client [fin|e] t rd0|rd0] Hwf.
  - by apply Subscribe_wf.
  - by apply AddBlockToTrack_wf.
  - by apply detectAll_wf.
  - done.
  - by apply restart_wf.
Qed.

Lemma New_wf : rd_wf (New [] []).
Proof.
  constructor; simpl; [done | | apply NoDup_nil_2 | intros i [? H]; by rewrite lookup_empty in H].
  intros i n h. rewrite lookup_empty. naive_solver.
Qed.

(** Whatever calls are made, restarting the detector gives back exactly the blocks each
    subscriber tracked: the rows of the database are the tracked blocks. *)
Theorem restart_restores_tracked rd id :
  rtc rd_step (New [] []) rd ->
  default ∅ (trackedBlocks (restart rd) !! id) = default ∅ (trackedBlocks rd !! id).
Proof.
  intros Hr. assert (Hwf : rd_wf rd).
  { remember (New [] []) as rd0 eqn:E. assert (H0 : rd_wf rd0).
    { subst. apply New_wf. }
    clear E. induction Hr as [|a b c Hs _ IH]; [done|]. apply IH. by apply rd_step_wf with a. }
  apply map_eq. intros n. apply option_eq. intros h.
  pose proof (load_lookup rd id n h Hwf) as Hl.
  assert (E : trackedBlocks (restart rd) = getTrackedBlocks (tracked_block rd)).
  { unfold restart, loadTrackedHeaders. cbn [tracked_block New].
    by rewrite (proj1 (load_subscriptions_frame _ _)). }
  rewrite E. destruct (getTrackedBlocks (tracked_block rd) !! id) as [l1|], (trackedBlocks rd !! id) as [l2|]; simpl;
    rewrite ?lookup_empty; naive_solver.
Qed.

(** ** Order of start and subscription *)

Lemma load_channels ids rd id :
  (nextChan rd <= nextChan (fold_left (fun s id => new_subscription id s) ids rd))%nat /\
  (id ∈ ids -> exists ch, subscriptions (fold_left (fun s id => new_subscription id s) ids rd) !! id = Some ch /\
     (nextChan rd <= ch)%nat) /\
  (id ∉ ids -> subscriptions (fold_left (fun s id => new_subscription id s) ids rd) !! id = subscriptions rd !! id).
Proof.
  revert rd. induction ids as [|i ids IH]; intros rd; simpl.
  { split_and!; [done | by intros H%elem_of_nil | done]. }
  destruct (IH (new_subscription i rd)) as (H1 & H2 & H3). simpl in *. split_and!; [lia | |].
  - intros Hcons. destruct (decide (id ∈ ids)) as [Hin|Hni].
    + destruct (H2 Hin) as (ch & -> & Hle). exists ch. split; [done | lia].
    + rewrite H3 by done. rewrite lookup_insert. case_decide; [exists (nextChan rd); split; [done | lia]|].
      by apply elem_of_cons in Hcons as [?|?].
  - intros Hni. apply not_elem_of_cons in Hni as [Hne Hni]. rewrite H3 by done. by rewrite lookup_insert_ne.
Qed.

(** A block that is not tracked stays so after a restart, the subscriber subscribing again. *)
Lemma restart_untracked rd id n hl :
  rd_wf rd -> trackedBlocks rd !! id = Some hl -> hl !! n = None ->
  GetTrackedBlockByBlockNumber (fst (Subscribe id (restart rd))) id n = Err ErrNotFound.
Proof.
  intros Hwf Hid Hn. unfold GetTrackedBlockByBlockNumber, Subscribe.
  rewrite (sbind_run sget _ (restart rd) (restart rd) (restart rd)) by done.
  set (tb := getTrackedBlocks (tracked_block rd)). set (ids := map fst (map_to_list tb)).
  assert (Hr : trackedBlocks (restart rd) = tb).
  { unfold restart, loadTrackedHeaders. by rewrite (proj1 (load_subscriptions_frame _ _)). }
  destruct (subscriptions (restart rd) !! id) eqn:Es; [|unfold sbind, smodify, sret; simpl; by rewrite lookup_insert_eq].
  unfold sret. cbn [fst]. rewrite Hr. destruct (tb !! id) as [l|] eqn:Hl.
  - unfold hl_get. destruct (l !! n) as [x|] eqn:Hx; [|done].
    destruct (proj1 (load_lookup rd id n x Hwf) ltac:(eauto)) as (l1 & Hl1 & Hx1). congruence.
  - exfalso. destruct (load_channels ids (set_trackedBlocks (fun _ => tb) (New (tracked_block rd) (reorg_event rd))) id)
      as (_ & _ & H). unfold restart, loadTrackedHeaders in Es. cbn [tracked_block New] in Es. fold tb ids in Es.
    rewrite H in Es; [done|]. intros Hin. apply list_elem_of_fmap in Hin as ([i l] & -> & Hin).
    apply elem_of_map_to_list in Hin. simpl in Hl. congruence.
Qed.

(** A subscriber that subscribes before the detector has loaded its rows is lost: without rows of
    its own it is no longer known and tracking a block fails; with rows the notifications go to
    channels it does not hold. *)
Theorem Subscribe_before_load_is_lost rd id rd1 ch n h :
  subscriptions rd !! id = None -> Subscribe id rd = (rd1, Ok ch) ->
  let rd2 := loadTrackedHeaders rd1 in
  (existsb (fun r => String.eqb (row_SubscriberID r) id) (tracked_block rd) = false ->
     AddBlockToTrack id n h rd2 = (rd2, Err ErrNotSubscribed)) /\
  (existsb (fun r => String.eqb (row_SubscriberID r) id) (tracked_block rd) = true ->
     exists ch', subscriptions rd2 !! id = Some ch' /\ ch' <> ch).
Proof.
  intros Hs Hsub rd2. unfold Subscribe in Hsub. rewrite (sbind_run sget _ rd rd rd) in Hsub by done. rewrite Hs in Hsub.
  unfold sbind, smodify, sret in Hsub. injection Hsub as <- <-. unfold rd2, loadTrackedHeaders. simpl.
  pose proof (getTrackedBlocks_lookup (tracked_block rd) id) as Hg. set (tb := getTrackedBlocks (tracked_block rd)) in *.
  set (rd0 := set_trackedBlocks _ _). split; intros Hrows; rewrite Hrows in Hg.
  - unfold AddBlockToTrack. match goal with |- sbind sget _ ?r = _ => rewrite (sbind_run sget _ r r r) by done end.
    rewrite (proj1 (load_subscriptions_frame _ _)). simpl. by rewrite Hg.
  - destruct (load_channels (map fst (map_to_list tb)) rd0 id) as (_ & Hin & _). destruct Hin as (ch' & Hch & Hle).
    + apply list_elem_of_fmap. eexists (id, _). split; [done|]. by apply elem_of_map_to_list.
    + exists ch'. split; [exact Hch|]. simpl in Hle. lia.
Qed.

(** ** Examples *)

(** Subscriber "a" tracks blocks 10 and 12; block 12 has another hash on the chain. *)
Definition example_detector : ReorgDetector :=
  fst (AddBlockToTrack "a" 12 2 (fst (AddBlockToTrack "a" 10 1 (fst (Subscribe "a" (New [] [])))))).
Definition example_client (n : Z) : result rdError Z := if n =? 12 then Ok 3 else Ok 1.

Example example_tick :
  let rd := fst (detectReorgInTrackedList example_client (Ok 10) 1000 example_detector) in
  (sent rd, tracked_block rd, map_to_list <$> trackedBlocks rd !! "a", length (reorg_event rd)) =
  ([(0%nat, 12)], [], Some [], 1%nat).
Proof. vm_compute. reflexivity. Qed.

(** Block 12 was seen with hash 2, left the chain, and is tracked again with its new hash 3: the cached hash makes the
    detector notify a reorg and drop the block although it is on the chain. *)
Definition example_cached : ReorgDetector :=
  fst (AddBlockToTrack "a" 12 3
    (fst (detectReorgInTrackedList (fun n => if n =? 12 then Ok 2 else Ok 1) (Ok 10) 1000 example_detector))).

Example stale_cache_drops_canonical_block :
  let rd := fst (detectReorgInTrackedList example_client (Ok 10) 1001 example_cached) in
  (map_to_list <$> trackedBlocks example_cached !! "a", example_client 12, headersCache example_cached !! 12) =
    (Some [(12, mkHeader 12 3)], Ok 3, Some 2) /\
  (sent rd, map_to_list <$> trackedBlocks rd !! "a") = ([(0%nat, 12)], Some []).
Proof. split; vm_compute; reflexivity. Qed.

Lemma example_tracked : trackedBlocks example_detector !! "a" = Some {[12 := mkHeader 12 2; 10 := mkHeader 10 1]}.
Proof. vm_compute. reflexivity. Qed.

Lemma detectAll_no_missed_reorg_witness :
  exists rd' l, detectAll example_client 1000 10 ["a"] example_detector = (rd', Ok tt) /\
    sent rd' = sent example_detector ++ l /\
    (forall id, id ∉ ["a"] -> trackedBlocks rd' !! id = trackedBlocks example_detector !! id) /\
    forall id hl, id ∈ ["a"] -> trackedBlocks example_detector !! id = Some hl ->
      exists hl', trackedBlocks rd' !! id = Some hl' /\ tick_guarantee example_client 10 example_detector rd' l id hl hl'.
Proof.
  refine (detectAll_no_missed_reorg example_client 1000 10 ["a"] example_detector _ _).
  - apply NoDup_singleton.
  - intros id Hin. apply list_elem_of_singleton in Hin as ->. split; [constructor|].
    intros hl Hhl. rewrite example_tracked in Hhl. injection Hhl as <-. split.
    + intros n h Hn. apply lookup_insert_Some in Hn as [[<- <-]|[_ Hn]]; [by vm_compute|].
      apply lookup_singleton_Some in Hn as [<- <-]. by vm_compute.
    + intros n h _. unfold example_client. by destruct (n =? 12).
Defined.

Lemma restart_restores_tracked_witness :
  default ∅ (trackedBlocks (restart example_detector) !! "a") = default ∅ (trackedBlocks example_detector !! "a").
Proof.
  refine (restart_restores_tracked example_detector "a" _).
  eapply rtc_l; [apply (step_Subscribe "a")|]. eapply rtc_l; [apply (step_AddBlockToTrack "a" 10 1)|].
  - by vm_compute.
  - intros hl x Hhl Hx. exfalso. revert Hx. vm_compute in Hhl. injection Hhl as <-. by vm_compute.
  - eapply rtc_l; [apply (step_AddBlockToTrack "a" 12 2)|].
    + by vm_compute.
    + intros hl x Hhl Hx. exfalso. revert Hx. vm_compute in Hhl. injection Hhl as <-. by vm_compute.
    + apply rtc_refl.
Defined.

Definition example_sub : ReorgDetector := fst (Subscribe "b" (New [mkRow "c" 5 7] [])).

Lemma Subscribe_before_load_is_lost_witness :
  let rd2 := loadTrackedHeaders example_sub in
  (existsb (fun r => String.eqb (row_SubscriberID r) "b") (tracked_block (New [mkRow "c" 5 7] [])) = false ->
     AddBlockToTrack "b" 6 8 rd2 = (rd2, Err ErrNotSubscribed)) /\
  (existsb (fun r => String.eqb (row_SubscriberID r) "b") (tracked_block (New [mkRow "c" 5 7] [])) = true ->
     exists ch', subscriptions rd2 !! "b" = Some ch' /\ ch' <> 0%nat).
Proof. refine (Subscribe_before_load_is_lost (New [mkRow "c" 5 7] []) "b" example_sub 0 6 8 _ _); reflexivity. Defined.
