(* ===== verification/SyncDriver.v ===== *)
(** The driver of a syncer ([sync/evmdriver.go]) with the retry handler ([sync/common.go]) and the
    compatibility check of the database ([db/compatibility]), over a processor used through its
    interface and the reorg detector; and the composition of the three: when the answer of
    [IsBlockFinalized] can be trusted.

    A context is a boolean function of the number of the check ("is the context done at the i-th
    look?").  A loop without a bound of its own takes fuel; running out of it is an outcome of its own. *)

From S2P Require Import Prelude Downloader ReorgDetector.

(** ** Data *)

Record Block (Ev : Type) := mkBlock { bk_Num : Z; bk_Events : list Ev; bk_Hash : Z }.
Arguments mkBlock {Ev} _ _ _.
Arguments bk_Num {Ev} _.
Arguments bk_Events {Ev} _.
Arguments bk_Hash {Ev} _.

(** [sync.Block] of a downloaded block. *)
Definition block_of {Ev} (b : EVMBlock Ev) : Block Ev := mkBlock (eb_Num b) (eb_Events b) (eb_Hash b).

(** Errors of a processor: the one that stops retrying, and the others. *)
Inductive procError := ErrInconsistentState | ErrOther.

(** [processorInterface]. *)
Class Processor (Ev PS : Type) := {
  GetLastProcessedBlock : PS -> result procError (option Z);
  ProcessBlock : Block Ev -> eff PS procError unit;
  processor_Reorg : Z -> eff PS procError unit
}.

(** ** Compatibility of the database ([db/compatibility]) *)

Record RuntimeData := mkRuntimeData { ChainID : Z; Addresses : list Z }.

Inductive compatError := ErrRuntime | ErrStorageRead | ErrStorageWrite | ErrIncompatible.

(** The loop over the addresses of the first argument; the lengths are equal. *)
Fixpoint sameAddresses (a b : list Z) : result compatError unit :=
  match a, b with
  | [], _ => Ok tt
  | x :: a', y :: b' => if negb (x =? y) then Err ErrIncompatible else sameAddresses a' b'
  | _ :: _, [] => Err ErrIncompatible
  end.

Definition IsCompatible (r other : RuntimeData) : result compatError (option RuntimeData) :=
  if negb (ChainID r =? ChainID other) then Err ErrIncompatible
  else if negb (Nat.eqb (length (Addresses r)) (length (Addresses other))) then Err ErrIncompatible
  else let? _ := sameAddresses (Addresses r) (Addresses other) in Ok None.

(** The storage holds at most one value. *)
Definition CompatibilityCheck_Check (required : bool) (runtime : result compatError RuntimeData)
    (readable writable : bool) : eff (option RuntimeData) compatError unit :=
  let! runtimeData := slift runtime in
  let! stored := sget in
  if negb readable then sfail ErrStorageRead
  else match stored with
       | None => if writable then smodify (fun _ => Some runtimeData) else sfail ErrStorageWrite
       | Some storageData =>
           match IsCompatible runtimeData storageData with
           | Err e => if required then sfail e else sret tt
           | Ok (Some newData) => if writable then smodify (fun _ => Some newData) else sfail ErrStorageWrite
           | Ok None => sret tt
           end
       end.

(** ** Retries *)

(** [Handle] ends the process ([true]) or sleeps and returns. *)
Definition Handle (maxRetryAttempts attempts : Z) : bool := (-1 <? maxRetryAttempts) && (maxRetryAttempts <=? attempts).

(** What the callback of [withRetry] returns: an error is permanent or not. *)
Inductive fnError := StopRetry (e : procError) | Retry.

Inductive retryResult := RNil | RErr (e : procError) | RFatal | RFuel.

(** [done i]: the context is done at the check before attempt [i]. *)
Fixpoint withRetry {S} (fuel : nat) (maxRetry : Z) (done : Z -> bool) (attempts : Z) (fn : eff S fnError unit) (s : S)
    : S * retryResult :=
  match fuel with
  | O => (s, RFuel)
  | S fuel' =>
      if done attempts then (s, RNil)
      else match fn s with
           | (s', Ok _) => (s', RNil)
           | (s', Err (StopRetry e)) => (s', RErr e)
           | (s', Err Retry) =>
               if Handle maxRetry (attempts + 1) then (s', RFatal)
               else withRetry fuel' maxRetry done (attempts + 1) fn s'
           end
  end.

(** ** The driver *)

Section Driver.
Context {Ev PS : Type} {Pr : Processor Ev PS} (reorgDetectorID : string) (maxRetry : Z).

(** The detector, the database of the processor, and the blocks published. *)
Record driverState := mkDriverState { ds_rd : ReorgDetector; ds_ps : PS; ds_published : list (Block Ev) }.

Definition on_rd {A} (c : RD A) (s : driverState) : driverState * result rdError A :=
  let (rd', r) := c (ds_rd s) in (mkDriverState rd' (ds_ps s) (ds_published s), r).
Definition on_ps {A} (c : eff PS procError A) (s : driverState) : driverState * result procError A :=
  let (ps', r) := c (ds_ps s) in (mkDriverState (ds_rd s) ps' (ds_published s), r).

Definition track_fn (b : EVMBlock Ev) : eff driverState fnError unit := fun s =>
  match on_rd (AddBlockToTrack reorgDetectorID (eb_Num b) (eb_Hash b)) s with
  | (s', Ok _) => (s', Ok tt)
  | (s', Err _) => (s', Err Retry)
  end.

Definition trackNonFinalizedBlock fuel (done : Z -> bool) (b : EVMBlock Ev) (s : driverState) : driverState * retryResult :=
  if eb_IsFinalizedBlock b then (s, RNil) else withRetry fuel maxRetry done 0 (track_fn b) s.

Definition process_fn (b : EVMBlock Ev) : eff driverState fnError unit := fun s =>
  match on_ps (ProcessBlock (block_of b)) s with
  | (s', Ok _) => (mkDriverState (ds_rd s') (ds_ps s') (ds_published s' ++ [block_of b]), Ok tt)
  | (s', Err ErrInconsistentState) => (s', Err (StopRetry ErrInconsistentState))
  | (s', Err ErrOther) => (s', Err Retry)
  end.

Definition processBlock fuel (done : Z -> bool) (b : EVMBlock Ev) (s : driverState) : driverState * retryResult :=
  withRetry fuel maxRetry done 0 (process_fn b) s.

(** An error of the tracking is answered with nil; [RFatal] is the end of the process. *)
Definition handleNewBlock fuel (doneTrack doneProcess : Z -> bool) (b : EVMBlock Ev) (s : driverState)
    : driverState * retryResult :=
  match trackNonFinalizedBlock fuel doneTrack b s with
  | (s', RNil) => processBlock fuel doneProcess b s'
  | (s', RErr _) => (s', RNil)
  | (s', r) => (s', r)
  end.

Definition reorg_fn (firstReorgedBlock : Z) : eff driverState fnError unit := fun s =>
  match on_ps (processor_Reorg firstReorgedBlock) s with
  | (s', Ok _) => (s', Ok tt)
  | (s', Err _) => (s', Err Retry)
  end.

(** The acknowledgement follows in every case, in a deferred function. *)
Definition handleReorg fuel (done : Z -> bool) (firstReorgedBlock : Z) (s : driverState) : driverState * retryResult :=
  withRetry fuel maxRetry done 0 (reorg_fn firstReorgedBlock) s.

(** *** [WaitForNewBlocks] of the downloader, which tracks the head *)

(** What a tick of the timer finds: the context done, an error of the client (with the context alive
    or done), or a header. *)
Inductive waitTick := WDone | WError (ctxDone : bool) | WHeader (num hash : Z).
Inductive waitResult := WNewBlock (n : Z) | WFatal | WFuel.

Fixpoint WaitForNewBlocks (ticks : list waitTick) (latestSyncedBlock attempts : Z) (rd : ReorgDetector)
    : ReorgDetector * waitResult :=
  match ticks with
  | [] => (rd, WFuel)
  | WDone :: _ => (rd, WNewBlock latestSyncedBlock)
  | WError true :: ticks' => WaitForNewBlocks ticks' latestSyncedBlock attempts rd
  | WError false :: ticks' =>
      if Handle maxRetry (attempts + 1) then (rd, WFatal)
      else WaitForNewBlocks ticks' latestSyncedBlock (attempts + 1) rd
  | WHeader blockNumber headerHash :: ticks' =>
      if latestSyncedBlock <? blockNumber
      then (fst (AddBlockToTrack reorgDetectorID blockNumber headerHash rd), WNewBlock blockNumber)
      else match GetTrackedBlockByBlockNumber rd reorgDetectorID blockNumber with
           | Err _ => WaitForNewBlocks ticks' latestSyncedBlock attempts rd
           | Ok trackedBlock =>
               if negb (hd_Hash trackedBlock =? headerHash)
               then (fst (AddBlockToTrack reorgDetectorID blockNumber headerHash rd), WNewBlock blockNumber)
               else WaitForNewBlocks ticks' latestSyncedBlock attempts rd
           end
  end.

(** *** Start of [Sync]: the compatibility check, then the block to download next *)

Inductive startResult := StartAt (nextBlock : Z) | StartCanceled | StartFatal | StartFuel.

(** Both loops share [attempts]; the answers of the checks and of the processor are given one per
    iteration, and the context is looked at only while waiting for a first block. *)
Fixpoint waitLastProcessed (firstBlockNumber : option Z) (attempts : Z) (answers : list (result procError (option Z)))
    (done : nat -> bool) : startResult :=
  match answers with
  | [] => StartFuel
  | Ok (Some lastProcessedBlock) :: _ => StartAt (lastProcessedBlock +u64 1)
  | Err _ :: answers' =>
      if Handle maxRetry (attempts + 1) then StartFatal
      else waitLastProcessed firstBlockNumber (attempts + 1) answers' done
  | Ok None :: answers' =>
      match firstBlockNumber with
      | Some n => StartAt n
      | None => if done (length answers') then StartCanceled else waitLastProcessed firstBlockNumber attempts answers' done
      end
  end.

Fixpoint checkCompatibility (attempts : Z) (checks : list (result compatError unit)) : option (option Z) :=
  match checks with
  | [] => None
  | Ok _ :: _ => Some (Some attempts)
  | Err _ :: checks' => if Handle maxRetry (attempts + 1) then Some None else checkCompatibility (attempts + 1) checks'
  end.

Definition Sync_start (firstBlockNumber : option Z) (checks : list (result compatError unit))
    (answers : list (result procError (option Z))) (done : nat -> bool) : startResult :=
  match checkCompatibility 0 checks with
  | None => StartFuel
  | Some None => StartFatal
  | Some (Some attempts) => waitLastProcessed firstBlockNumber attempts answers done
  end.

(** [SyncNextBlock]: the first message of the download ([None]: the channel was closed). *)
Inductive syncNextError := ErrGetLast | ErrAlreadyBootstrapped | ErrChannelClosed | ErrProcess (r : retryResult).

Definition SyncNextBlock fuel (doneTrack doneProcess : Z -> bool) (downloaded : option (EVMBlock Ev)) (s : driverState)
    : driverState * result syncNextError unit :=
  match GetLastProcessedBlock (ds_ps s) with
  | Err _ => (s, Err ErrGetLast)
  | Ok (Some _) => (s, Err ErrAlreadyBootstrapped)
  | Ok None =>
      match downloaded with
      | None => (s, Err ErrChannelClosed)
      | Some b =>
          match handleNewBlock fuel doneTrack doneProcess b s with
          | (s', RNil) => (s', Ok tt)
          | (s', r) => (s', Err (ErrProcess r))
          end
      end
  end.

End Driver.
Arguments driverState : clear implicits.

(** ** Retries end *)

Lemma withRetry_fuel {S} fuel maxRetry done attempts (fn : eff S fnError unit) s :
  0 <= maxRetry -> 0 <= attempts -> Z.max 1 (maxRetry - attempts) <= Z.of_nat fuel ->
  snd (withRetry fuel maxRetry done attempts fn s) <> RFuel.
Proof.
  intros Hm. revert attempts s. induction fuel as [|fuel IH]; intros attempts s Ha Hf; [lia|]. simpl.
  destruct (done attempts); [done|]. destruct (fn s) as [s' [?|[e|]]]; try done.
  unfold Handle. rewrite (proj2 (Z.ltb_lt _ _)) by lia. simpl.
  destruct (maxRetry <=? attempts + 1) eqn:E; bool_hyps; [done|]. apply IH; lia.
Qed.

(** With a bound on the retries every operation of the driver ends: as many attempts as the
    bound (at least one) are enough fuel for handling a block and for handling a reorg. *)
Theorem driver_operations_terminate {Ev PS} {Pr : Processor Ev PS} id maxRetry fuel doneTrack doneProcess b n (s : driverState Ev PS) :
  0 <= maxRetry -> Z.max 1 maxRetry <= Z.of_nat fuel ->
  snd (handleNewBlock id maxRetry fuel doneTrack doneProcess b s) <> RFuel /\
  snd (handleReorg maxRetry fuel doneTrack n s) <> RFuel.
Proof.
  intros Hm Hf. split; [|apply withRetry_fuel; lia]. unfold handleNewBlock, trackNonFinalizedBlock.
  assert (Hp : forall s, snd (processBlock maxRetry fuel doneProcess b s) <> RFuel) by (intros; apply withRetry_fuel; lia).
  destruct (eb_IsFinalizedBlock b); [apply Hp|].
  pose proof (withRetry_fuel fuel maxRetry doneTrack 0 (track_fn id b) s Hm ltac:(lia) ltac:(lia)) as Ht.
  destruct (withRetry _ _ _ _ _ _) as [s' []]; try done.
Qed.

(** ** The interface of a processor *)

(** The blocks in the database of a processor, by number: a number holds one hash, errors change
    nothing, and a reorg removes the blocks from its number on. *)
Class ProcessorLaws (Ev PS : Type) {Pr : Processor Ev PS} := {
  stored : PS -> gmap Z Z;
  ProcessBlock_Ok : forall b ps ps' u, ProcessBlock b ps = (ps', Ok u) ->
    (stored ps !! bk_Num b = None \/ stored ps !! bk_Num b = Some (bk_Hash b)) /\
    stored ps' = <[bk_Num b := bk_Hash b]> (stored ps);
  ProcessBlock_Err : forall b ps ps' e, ProcessBlock b ps = (ps', Err e) -> stored ps' = stored ps;
  Reorg_Ok : forall n ps ps' u, processor_Reorg n ps = (ps', Ok u) ->
    stored ps' = filter (fun kv => kv.1 < n) (stored ps);
  Reorg_Err : forall n ps ps' e, processor_Reorg n ps = (ps', Err e) -> stored ps' = stored ps;
  GetLast_max : forall ps n, GetLastProcessedBlock ps = Ok (Some n) ->
    is_Some (stored ps !! n) /\ forall k, is_Some (stored ps !! k) -> k <= n
}.

Section Finality.
Context {Ev PS : Type} {Pr : Processor Ev PS} {Pl : ProcessorLaws Ev PS} (id : string) (maxRetry : Z).

Abbreviation state := (driverState Ev PS).

(** A tick for the subscriber: the loop up to the notification, the driver handling the reorg, and,
    once it acknowledges, the removal.  A driver that dies or never returns sends no acknowledgement. *)
Definition tick (fuel : nat) (done : Z -> bool) (client : Z -> result rdError Z) (finalized now : Z) (s : state) : state :=
  match trackedBlocks (ds_rd s) !! id with
  | None => s
  | Some hdrs =>
      let headers := getSorted hdrs in
      match on_rd (checkHeaders client now id finalized (lastHeaderNum headers) headers) s with
      | (s1, Ok (Some event)) =>
          match handleReorg maxRetry fuel done (ev_FromBlock event) s1 with
          | (s2, RNil) | (s2, RErr _) => fst (on_rd (dropReorged event) s2)
          | (s2, _) => s2
          end
      | (s1, _) => s1
      end
  end.

(** What happens to the detector and the database, in order. *)
Inductive action :=
| ATrack (n h : Z)
| ABlock (b : EVMBlock Ev)
| ATick (client : Z -> result rdError Z) (finalized : Z).

(** The block is not tracked with another hash. *)
Definition no_conflict (s : state) (n h : Z) : Prop :=
  0 <= n < MaxUint64 /\
  forall hl x, trackedBlocks (ds_rd s) !! id = Some hl -> hl !! n = Some x -> hd_Hash x = h.

(** Blocks seen by the downloader are tracked, blocks of the driver are tracked unless final and then
    processed, and ticks compare.  A context that is done stays done, and it is not done while a
    reorg is handled. *)
Inductive sys_step : action -> state -> state -> Prop :=
| do_track n h s : no_conflict s n h -> sys_step (ATrack n h) s (fst (on_rd (AddBlockToTrack id n h) s))
| do_block fuel doneTrack doneProcess b s :
    no_conflict s (eb_Num b) (eb_Hash b) -> (forall i, doneTrack i = true -> doneProcess 0 = true) ->
    sys_step (ABlock b) s (fst (handleNewBlock id maxRetry fuel doneTrack doneProcess b s))
| do_tick fuel client finalized now s :
    sys_step (ATick client finalized) s (tick fuel (fun _ => false) client finalized now s).

Inductive sys_run : state -> list action -> state -> Prop :=
| run_nil s : sys_run s [] s
| run_snoc s as1 s1 a s2 : sys_run s as1 s1 -> sys_step a s1 s2 -> sys_run s (as1 ++ [a]) s2.

(** The block was found final on the chain, by the downloader or by a tick. *)
Definition confirmed (acts : list action) (n h : Z) : Prop :=
  (exists b, ABlock b ∈ acts /\ eb_IsFinalizedBlock b = true /\ eb_Num b = n /\ eb_Hash b = h) \/
  (exists client finalized, ATick client finalized ∈ acts /\ client n = Ok h /\ n <= finalized).

Definition tracked_at (rd : ReorgDetector) (n h : Z) : Prop :=
  exists hl, trackedBlocks rd !! id = Some hl /\ hl !! n = Some (mkHeader n h).

Definition final_inv (acts : list action) (s : state) : Prop :=
  rd_wf (ds_rd s) /\ is_Some (trackedBlocks (ds_rd s) !! id) /\
  forall n h, stored (ds_ps s) !! n = Some h -> tracked_at (ds_rd s) n h \/ confirmed acts n h.

Lemma confirmed_more acts acts' n h : confirmed acts n h -> confirmed (acts ++ acts') n h.
Proof.
  intros [(b & Hin & H)|(c & f & Hin & H)]; [left; exists b | right; exists c, f];
    (split; [apply elem_of_app; by left | done]).
Qed.

(** Tracking a block keeps the tracked ones and adds it. *)
Lemma AddBlockToTrack_effect rd n h :
  is_Some (trackedBlocks rd !! id) ->
  (forall hl x, trackedBlocks rd !! id = Some hl -> hl !! n = Some x -> hd_Hash x = h) ->
  rd_wf rd -> 0 <= n < MaxUint64 ->
  exists rd', AddBlockToTrack id n h rd = (rd', Ok tt) /\ rd_wf rd' /\ is_Some (trackedBlocks rd' !! id) /\
    tracked_at rd' n h /\ forall k x, tracked_at rd k x -> tracked_at rd' k x.
Proof.
  intros [hl Hid] Hsame Hwf Hb. pose proof (AddBlockToTrack_wf id n h rd Hwf Hb Hsame) as Hwf'. revert Hwf'.
  unfold AddBlockToTrack. rewrite (sbind_run sget _ rd rd rd) by done. rewrite Hid. unfold hl_get.
  destruct (hl !! n) as [x|] eqn:Hn.
  - pose proof (Hsame hl x Hid Hn) as Hx. destruct (wf_keyed rd Hwf id hl Hid n x Hn) as [Hnum _].
    rewrite Hx, Z.eqb_refl. intros Hwf'. exists rd. split_and!; try done.
    exists hl. split; [done|]. rewrite Hn. destruct x; simpl in *. congruence.
  - intros Hwf'. eexists. split; [reflexivity|]. split; [exact Hwf'|].
    assert (E : trackedBlocks (fst (saveTrackedBlock id (newHeader n h) rd)) = <[id := <[n := mkHeader n h]> hl]> (trackedBlocks rd)).
    { unfold saveTrackedBlock, sbind, smodify. simpl. rewrite Hid. unfold hl_isEmpty, hl_len.
      destruct (Nat.eqb_spec (size hl) 0) as [Es|]; [|done]. apply map_size_empty_inv in Es. by rewrite Es. }
    change (is_Some (trackedBlocks (fst (saveTrackedBlock id (newHeader n h) rd)) !! id) /\
      tracked_at (fst (saveTrackedBlock id (newHeader n h) rd)) n h /\
      forall k x, tracked_at rd k x -> tracked_at (fst (saveTrackedBlock id (newHeader n h) rd)) k x).
    unfold tracked_at. rewrite E, lookup_insert_eq. split_and!; [done | |].
    + eexists. split; [done|]. by rewrite lookup_insert_eq.
    + intros k x (l & Hl & Hk). rewrite Hid in Hl. injection Hl as <-. eexists. split; [done|].
      rewrite lookup_insert_ne; [done | congruence].
Qed.

Lemma processBlock_effect fuel done b (s : state) s' r :
  processBlock maxRetry fuel done b s = (s', r) ->
  ds_rd s' = ds_rd s /\
  (stored (ds_ps s') = stored (ds_ps s) \/
   done 0 = false /\ stored (ds_ps s') = <[eb_Num b := eb_Hash b]> (stored (ds_ps s))).
Proof.
  unfold processBlock. assert (Hgen : forall attempts s, withRetry fuel maxRetry done attempts (process_fn b) s = (s', r) ->
    ds_rd s' = ds_rd s /\ (stored (ds_ps s') = stored (ds_ps s) \/
      stored (ds_ps s') = <[eb_Num b := eb_Hash b]> (stored (ds_ps s)))).
  { clear s. induction fuel as [|fuel IH]; intros attempts s H; simpl in H; [injection H as <- <-; auto|].
    destruct (done attempts); [injection H as <- <-; auto|]. unfold process_fn, on_ps in H.
    destruct (ProcessBlock (block_of b) (ds_ps s)) as [ps' [u|[]]] eqn:Ep.
    - injection H as <- <-. split; [done|]. right. by apply ProcessBlock_Ok in Ep as [_ Ep].
    - injection H as <- <-. split; [done|]. left. by apply ProcessBlock_Err in Ep.
    - apply ProcessBlock_Err in Ep. destruct (Handle maxRetry (attempts + 1)); [injection H as <- <-; auto|].
      apply IH in H as [E1 E2]. simpl in E1, E2. rewrite Ep in E2. auto. }
  intros H. destruct (done 0) eqn:Ed; [|apply Hgen in H as [? [?|?]]; auto].
  destruct fuel; simpl in H; rewrite ?Ed in H; injection H as <- <-; auto.
Qed.

Lemma handleReorg_effect fuel n (s : state) s' r :
  handleReorg maxRetry fuel (fun _ => false) n s = (s', r) ->
  ds_rd s' = ds_rd s /\ (forall e, r <> RErr e) /\
  stored (ds_ps s') = match r with RNil => filter (fun kv => kv.1 < n) (stored (ds_ps s)) | _ => stored (ds_ps s) end.
Proof.
  unfold handleReorg. generalize 0. revert s. induction fuel as [|fuel IH]; intros s attempts H; simpl in H.
  { by injection H as <- <-. }
  unfold reorg_fn, on_ps in H. destruct (processor_Reorg n (ds_ps s)) as [ps' [u|e]] eqn:Er.
  - injection H as <- <-. split_and!; [done | done |]. by apply Reorg_Ok in Er.
  - apply Reorg_Err in Er. destruct (Handle maxRetry (attempts + 1)); [by injection H as <- <-|].
    apply IH in H as (E1 & E2 & E3). simpl in E1, E3. rewrite Er in E3. auto.
Qed.

(** A block of the driver is tracked or final before it is stored. *)
Lemma handleNewBlock_inv acts fuel doneTrack doneProcess b s :
  final_inv acts s -> no_conflict s (eb_Num b) (eb_Hash b) -> (forall i, doneTrack i = true -> doneProcess 0 = true) ->
  final_inv (acts ++ [ABlock b]) (fst (handleNewBlock id maxRetry fuel doneTrack doneProcess b s)).
Proof.
  intros (Hwf & Hsome & Hst) [Hb Hsame] Hctx. unfold handleNewBlock, trackNonFinalizedBlock.
  assert (Hproc : forall s1, rd_wf (ds_rd s1) -> is_Some (trackedBlocks (ds_rd s1) !! id) -> ds_ps s1 = ds_ps s ->
    (forall k x, tracked_at (ds_rd s) k x -> tracked_at (ds_rd s1) k x) ->
    (doneProcess 0 = false -> tracked_at (ds_rd s1) (eb_Num b) (eb_Hash b) \/ eb_IsFinalizedBlock b = true) ->
    final_inv (acts ++ [ABlock b]) (fst (processBlock maxRetry fuel doneProcess b s1))).
  { intros s1 Hwf1 Hs1 Hps Hmono Hnew. destruct (processBlock _ _ _ _ _) as [s2 r] eqn:Ep.
    apply processBlock_effect in Ep as [Erd Est]. unfold final_inv. cbn [fst]. rewrite Erd. split_and!; [done | done |].
    intros n h Hn. assert (Hold : stored (ds_ps s) !! n = Some h -> tracked_at (ds_rd s1) n h \/ confirmed (acts ++ [ABlock b]) n h).
    { intros Ho. destruct (Hst n h Ho) as [Ht|Hc]; [left; by apply Hmono | right; by apply confirmed_more]. }
    destruct Est as [Est|[Hd Est]]; rewrite Est, Hps in Hn; [by apply Hold|].
    apply lookup_insert_Some in Hn as [[<- <-]|[_ Hn]]; [|by apply Hold].
    destruct (Hnew Hd) as [Ht|Hf]; [by left|]. right. left. exists b. split_and!; [|done..]. apply elem_of_app. right. by left. }
  destruct (eb_IsFinalizedBlock b) eqn:Ef; [apply Hproc; auto|].
  destruct fuel as [|fuel]; [split_and!; try done; intros n h Hn; destruct (Hst n h Hn); [by left | right; by apply confirmed_more]|].
  cbn [withRetry]. destruct (doneTrack 0) eqn:Ed.
  - apply Hproc; try done. rewrite (Hctx 0 Ed). done.
  - destruct (AddBlockToTrack_effect (ds_rd s) (eb_Num b) (eb_Hash b)) as (rd' & Hrun & Hwf' & Hs' & Ht & Hmono); try done.
    unfold track_fn, on_rd. rewrite Hrun. apply Hproc; auto.
Qed.

(** A tick untracks what it finds final, and what it drops was removed from the database before. *)
Lemma tick_inv acts fuel client finalized now s :
  final_inv acts s -> final_inv (acts ++ [ATick client finalized]) (tick fuel (fun _ => false) client finalized now s).
Proof.
  intros (Hwf & [hl Hid] & Hst). unfold tick. rewrite Hid. pose proof (wf_keyed _ Hwf id hl Hid) as Hk. unfold on_rd at 1.
  destruct (checkHeaders client now id finalized (lastHeaderNum (getSorted hl)) (getSorted hl) (ds_rd s)) as [rd1 r] eqn:Hrun.
  destruct (checkHeaders_wf _ _ _ _ _ _ _ _ _ (getSorted_bounded hl Hk) Hwf Hrun) as [Hwf1 Hev].
  destruct (checkHeaders_removes_final _ _ _ _ _ _ _ _ _ _ (getSorted_bounded hl Hk) Hrun Hid) as (hl1 & Hid1 & Hkeep).
  { intros x y Hx Hy. apply getSorted_elem in Hx; [|done]. congruence. }
  assert (Hst1 : forall n h, stored (ds_ps s) !! n = Some h ->
    hl1 !! n = Some (mkHeader n h) \/ confirmed (acts ++ [ATick client finalized]) n h).
  { intros n h Hn. destruct (Hst n h Hn) as [(l & Hl & Hln)|Hc]; [|right; by apply confirmed_more].
    rewrite Hid in Hl. injection Hl as <-. destruct (Hkeep _ _ Hln) as [?|[Hc Hf]]; [by left|].
    right. right. exists client, finalized. split_and!; [|done..]. apply elem_of_app. right. by left. }
  assert (Hstay : forall ps' pub, stored ps' = stored (ds_ps s) ->
    final_inv (acts ++ [ATick client finalized]) (mkDriverState rd1 ps' pub)).
  { intros ps' pub E. split_and!; [done | by exists hl1 |]. simpl. rewrite E. intros n h Hn.
    destruct (Hst1 n h Hn); [left; by exists hl1 | by right]. }
  destruct r as [[ev|]|e]; [|by apply Hstay..]. destruct (Hev ev eq_refl) as (Hto & Hfrom & Hsub).
  destruct (handleReorg _ _ _ _ _) as [s2 r2] eqn:Hr. apply handleReorg_effect in Hr as (Erd & Herr & Est). simpl in Erd, Est.
  destruct s2 as [rd2 ps2 pub2]. simpl in Erd, Est. subst rd2.
  destruct r2 as [|e| |]; [|by destruct (Herr e) | by apply Hstay | by apply Hstay].
  unfold on_rd. cbn [ds_rd ds_ps ds_published]. rewrite dropReorged_run by (done || (rewrite Hto; by apply lastHeaderNum_bounded)).
  rewrite Hsub. cbn [fst]. split_and!.
  - apply (rd_wf_ext (untracked id (ev_FromBlock ev) (ev_ToBlock ev) rd1)); try done. by apply untracked_wf.
  - simpl. by rewrite lookup_alter_eq, Hid1.
  - simpl. rewrite Est. intros n h Hn. apply map_lookup_filter_Some in Hn as [Hn Hlt]. simpl in Hlt.
    destruct (Hst1 n h Hn) as [Hh|Hc]; [left | by right]. eexists. simpl. rewrite lookup_alter_eq, Hid1. split; [done|].
    rewrite outside_lookup, (proj2 (Z.leb_gt (ev_FromBlock ev) n)) by done. done.
Qed.

Lemma sys_step_inv acts a s s' : sys_step a s s' -> final_inv acts s -> final_inv (acts ++ [a]) s'.
Proof.
  intros [n h s0 [Hb Hsame]|fuel dT dP b s0 Hc Hctx|fuel client fin now s0] Hinv.
  - destruct Hinv as (Hwf & Hsome & Hst).
    destruct (AddBlockToTrack_effect (ds_rd s0) n h) as (rd' & Hrun & Hwf' & Hs' & Ht & Hmono); try done.
    unfold on_rd. rewrite Hrun. split_and!; [done | done |]. simpl. intros k x Hk.
    destruct (Hst k x Hk); [left; auto | right; by apply confirmed_more].
  - by apply handleNewBlock_inv.
  - by apply tick_inv.
Qed.

Lemma sys_run_inv acts0 s0 acts s : sys_run s0 acts s -> final_inv acts0 s0 -> final_inv (acts0 ++ acts) s.
Proof.
  induction 1 as [s|s as1 s1 a s2 _ IH Hs]; intros Hinv; [by rewrite app_nil_r|].
  rewrite app_assoc. eapply sys_step_inv; eauto.
Qed.

Lemma track_keeps_ps fuel done attempts b (s : state) :
  ds_ps (fst (withRetry fuel maxRetry done attempts (track_fn id b) s)) = ds_ps s.
Proof.
  revert attempts s. induction fuel as [|fuel IH]; intros attempts s; simpl; [done|]. destruct (done attempts); [done|].
  unfold track_fn, on_rd. destruct (AddBlockToTrack id _ _ (ds_rd s)) as [rd' [u|e]]; [done|].
  destruct (Handle _ _); [done|]. fold (track_fn (Ev := Ev) (PS := PS) id b). by rewrite IH.
Qed.

(** A block that is stored after steps that do not process it was stored before them. *)
Lemma stored_before acts s s' n h :
  sys_run s acts s' -> (forall b, ABlock b ∈ acts -> eb_Num b = n -> eb_Hash b = h -> False) ->
  stored (ds_ps s') !! n = Some h -> stored (ds_ps s) !! n = Some h.
Proof.
  induction 1 as [s|s as1 s1 a s2 _ IH Hs]; intros Hno Hn; [done|]. apply IH.
  { intros b Hb. apply Hno. apply elem_of_app. by left. }
  assert (Ha : forall b, a = ABlock b -> eb_Num b = n -> eb_Hash b = h -> False).
  { intros b ->. apply Hno. apply elem_of_app. right. by left. }
  clear IH Hno. destruct Hs as [k x s0 _|fuel dT dP b s0 _ _|fuel client fin now s0].
  - revert Hn. unfold on_rd. by destruct (AddBlockToTrack id k x (ds_rd s0)).
  - revert Hn. unfold handleNewBlock, trackNonFinalizedBlock.
    assert (Hp : forall s1, ds_ps s1 = ds_ps s0 -> stored (ds_ps (fst (processBlock maxRetry fuel dP b s1))) !! n = Some h ->
      stored (ds_ps s0) !! n = Some h).
    { intros s2 E Hn. destruct (processBlock maxRetry fuel dP b s2) as [s3 r] eqn:Ep.
      apply processBlock_effect in Ep as [_ [Est|[_ Est]]]; simpl in Hn; rewrite Est, E in Hn; [done|].
      apply lookup_insert_Some in Hn as [[Hn1 Hn2]|[_ Hn]]; [|done]. by destruct (Ha b eq_refl). }
    destruct (eb_IsFinalizedBlock b); [by apply Hp|]. pose proof (track_keeps_ps fuel dT 0 b s0) as Ht0.
    destruct (withRetry fuel maxRetry dT 0 (track_fn id b) s0) as [s2 []]; simpl in Ht0 |- *; try (by rewrite Ht0).
    by apply Hp.
  - revert Hn. unfold tick. destruct (trackedBlocks (ds_rd s0) !! id) as [hl|]; [|done]. unfold on_rd at 1.
    destruct (checkHeaders _ _ _ _ _ _ _) as [rd1 [[ev|]|e]]; [|done..].
    destruct (handleReorg _ _ _ _ _) as [s2 r2] eqn:Hr. apply handleReorg_effect in Hr as (_ & _ & Est). simpl in Est.
    unfold on_rd. destruct (dropReorged ev (ds_rd s2)) as [rd3 r3].
    destruct r2; simpl; rewrite Est; try done. intros Hn. by apply map_lookup_filter_Some in Hn as [Hn _].
Qed.

(** [IsBlockFinalized] can be trusted: when the tracker is asked in a state and the database in a
    later one, between which the block is not processed again, the answer "finalized" means that the
    block was found on the chain at or below the finalized block, by the downloader or by a tick. *)
Theorem IsBlockFinalized_confirmed s0 acts1 s1 acts2 s2 n h :
  final_inv [] s0 -> sys_run s0 acts1 s1 -> sys_run s1 acts2 s2 ->
  (forall b, ABlock b ∈ acts2 -> eb_Num b = n -> eb_Hash b = h -> False) ->
  IsBlockFinalized (GetTrackedBlockByBlockNumber (ds_rd s1) id) n h (fun k => Ok (stored (ds_ps s2) !! k)) = Ok (true, true) ->
  confirmed (acts1 ++ acts2) n h.
Proof.
  intros Hinv Hr1 Hr2 Hno Hf. apply confirmed_more.
  destruct (sys_run_inv [] s0 acts1 s1 Hr1 Hinv) as (_ & [hl Hid] & Hst). simpl in Hst.
  unfold IsBlockFinalized, GetTrackedBlockByBlockNumber in Hf. rewrite Hid in Hf. unfold hl_get in Hf.
  destruct (h =? 0); [done|]. destruct (hl !! n) as [x|] eqn:Hn; [by destruct (negb _)|].
  destruct (stored (ds_ps s2) !! n) as [st|] eqn:Es; [|done]. destruct (st =? h) eqn:E; [|done]. bool_hyps. subst st.
  apply (stored_before acts2 s1 s2) in Es; [|done|done].
  destruct (Hst n h Es) as [(l & Hl & Hln)|]; [|done]. congruence.
Qed.

(** ** Where the answer cannot be trusted *)

Lemma final_answer rd n h (storedHash : Z -> result rdError (option Z)) :
  GetTrackedBlockByBlockNumber rd id n = Err ErrNotFound -> storedHash n = Ok (Some h) -> h <> 0 ->
  IsBlockFinalized (GetTrackedBlockByBlockNumber rd id) n h storedHash = Ok (true, true).
Proof.
  intros Ht Hs Hh. unfold IsBlockFinalized. rewrite (proj2 (Z.eqb_neq _ _) Hh), Ht, Hs, Z.eqb_refl. done.
Qed.

(** A block tracked again with another hash before any tick looked at it hides the reorg: the
    next tick finds the new hash on the chain, notifies nothing and stops tracking the block once it
    is final, while the syncer keeps the orphaned block, which is then reported as finalized. *)
Theorem retrack_hides_reorg fuel done client finalized now (s : state) n h h' :
  0 <= n < MaxUint64 -> h <> 0 -> h <> h' ->
  trackedBlocks (ds_rd s) !! id = Some {[n := mkHeader n h]} -> headersCache (ds_rd s) !! n = None ->
  stored (ds_ps s) !! n = Some h -> client n = Ok h' -> n <= finalized ->
  let s1 := fst (on_rd (AddBlockToTrack id n h') s) in
  let s2 := tick fuel done client finalized now s1 in
  sent (ds_rd s2) = sent (ds_rd s) /\ stored (ds_ps s2) !! n = Some h /\
  IsBlockFinalized (GetTrackedBlockByBlockNumber (ds_rd s2) id) n h (fun k => Ok (stored (ds_ps s2) !! k)) = Ok (true, true).
Proof.
  intros Hb Hh Hne Hid Hc Hst Hcl Hf s1 s2.
  assert (E1 : exists rd1, AddBlockToTrack id n h' (ds_rd s) = (rd1, Ok tt) /\
    trackedBlocks rd1 !! id = Some {[n := mkHeader n h']} /\ headersCache rd1 = headersCache (ds_rd s) /\
    sent rd1 = sent (ds_rd s)).
  { unfold AddBlockToTrack. rewrite (sbind_run sget _ (ds_rd s) (ds_rd s) (ds_rd s)) by done. rewrite Hid. unfold hl_get.
    rewrite lookup_singleton_eq. simpl. rewrite (proj2 (Z.eqb_neq _ _) Hne). unfold saveTrackedBlock, sbind, smodify.
    eexists. split; [reflexivity|]. simpl. rewrite Hid. unfold hl_isEmpty, hl_len. rewrite map_size_singleton. simpl.
    rewrite lookup_insert_eq. split_and!; [|done|done]. unfold hl_add. simpl. by rewrite insert_singleton_eq. }
  destruct E1 as (rd1 & Ha & Hid1 & Hc1 & Hs1).
  assert (Es1 : s1 = mkDriverState rd1 (ds_ps s) (ds_published s)) by (unfold s1, on_rd; by rewrite Ha).
  assert (Hg : goodHeader client rd1 (mkHeader n h') = true).
  { unfold goodHeader. simpl. by rewrite Hcl, Hc1, Hc, Z.eqb_refl. }
  assert (E2 : s2 = mkDriverState (verify1 finalized id rd1 (mkHeader n h')) (ds_ps s) (ds_published s)).
  { unfold s2. rewrite Es1. unfold tick. cbn [ds_rd]. rewrite Hid1, getSorted_singleton. unfold on_rd. cbn [ds_rd ds_ps ds_published].
    by rewrite checkHeaders_good. }
  destruct (verify1_frame finalized id rd1 (mkHeader n h')) as (_ & Es & _).
  destruct (verify1_tracked finalized id rd1 (mkHeader n h') _ Hid1) as (hl' & Hid2 & Hl). rewrite E2. cbn [ds_rd ds_ps].
  split_and!; [congruence | done |]. apply final_answer; [|by rewrite Hst|done].
  unfold GetTrackedBlockByBlockNumber, hl_get. rewrite Hid2, Hl. simpl. rewrite Z.eqb_refl, (proj2 (Z.leb_le _ _) Hf). done.
Qed.

(** Between the acknowledgement of a reorg and the removal of the reorged blocks the subscriber
    already goes on: a block of the new chain it tracks in between is removed with the old ones, and
    once stored it is reported as finalized although nothing was compared. *)
Theorem ack_race_untracks rd rd1 ev n h (storedHash : Z -> result rdError (option Z)) :
  ev_SubscriberID ev = id -> 0 <= ev_FromBlock ev <= n -> n <= ev_ToBlock ev < MaxUint64 -> h <> 0 ->
  AddBlockToTrack id n h rd = (rd1, Ok tt) -> storedHash n = Ok (Some h) ->
  let rd2 := fst (dropReorged ev rd1) in
  IsBlockFinalized (GetTrackedBlockByBlockNumber rd2 id) n h storedHash = Ok (true, true).
Proof.
  intros Hsub Hf Ht Hh Ha Hst rd2. apply final_answer; [|done|done].
  assert (Hid : is_Some (trackedBlocks rd1 !! id)).
  { unfold AddBlockToTrack in Ha. rewrite (sbind_run sget _ rd rd rd) in Ha by done.
    destruct (trackedBlocks rd !! id) as [hl|] eqn:Hid; [|done].
    assert (Hsave : forall b, is_Some (trackedBlocks (fst (saveTrackedBlock id b rd)) !! id)).
    { intros b. unfold saveTrackedBlock, sbind, smodify. simpl. rewrite Hid.
      destruct (hl_isEmpty hl); rewrite lookup_insert_eq; eauto. }
    destruct (hl_get hl n) as [x|]; [destruct (hd_Hash x =? h)|].
    - injection Ha as <-. eauto.
    - pose proof (Hsave (newHeader n h)) as H. by rewrite Ha in H.
    - pose proof (Hsave (newHeader n h)) as H. by rewrite Ha in H. }
  destruct Hid as [hl Hid]. unfold rd2. rewrite dropReorged_run by lia. unfold GetTrackedBlockByBlockNumber. simpl.
  rewrite Hsub, lookup_alter_eq, Hid. simpl. unfold hl_get. rewrite outside_lookup.
  by rewrite (proj2 (Z.leb_le _ _)), (proj2 (Z.leb_le _ _)) by lia.
Qed.

(** With a context that is done the handler of a reorg acknowledges without touching the database. *)
Lemma tick_canceled fuel client finalized now (s : state) :
  tick (S fuel) (fun _ => true) client finalized now s =
    mkDriverState (fst (detectSubscriber client now finalized id (ds_rd s))) (ds_ps s) (ds_published s).
Proof.
  unfold tick, detectSubscriber. rewrite (sbind_run sget _ _ (ds_rd s) (ds_rd s)) by done.
  destruct (trackedBlocks (ds_rd s) !! id) as [hl|]; [|by destruct s]. unfold on_rd at 1, sbind.
  destruct (checkHeaders _ _ _ _ _ _ _) as [rd1 [[ev|]|e]]; [|done|done].
  unfold handleReorg. cbn [withRetry]. unfold on_rd. cbn [ds_rd ds_ps ds_published].
  by destruct (dropReorged ev rd1) as [rd2 r2].
Qed.

(** A shutdown in the middle of a reorg loses it: the handler of the driver gives up but
    acknowledges, the detector removes the rows, and after a restart the orphaned blocks are stored,
    not tracked, and reported as finalized. *)
Theorem shutdown_loses_reorg fuel client finalized now (s : state) hl n h :
  rd_wf (ds_rd s) -> trackedBlocks (ds_rd s) !! id = Some hl -> no_event_at now id (ds_rd s) ->
  (forall k x, hl !! k = Some x -> is_ok (client k) = true) ->
  hl !! n = Some (mkHeader n h) -> client n <> Ok h -> stored (ds_ps s) !! n = Some h -> h <> 0 ->
  let s' := tick (S fuel) (fun _ => true) client finalized now s in
  let rd' := fst (Subscribe id (restart (ds_rd s'))) in
  stored (ds_ps s') = stored (ds_ps s) /\
  IsBlockFinalized (GetTrackedBlockByBlockNumber rd' id) n h (fun k => Ok (stored (ds_ps s') !! k)) = Ok (true, true).
Proof.
  intros Hwf Hid Hev Hcl Hn Hne Hst Hh s' rd'. pose proof (wf_keyed _ Hwf id hl Hid) as Hk.
  pose proof (detectSubscriber_wf client now finalized id _ Hwf) as Hwf'.
  destruct (detectSubscriber_outcome client now finalized id (ds_rd s) hl) as (rd1 & Hrun & _ & hl1 & Hid1 & Hout); try done.
  rewrite Hrun in Hwf'. cbn [fst] in Hwf'.
  assert (Es : s' = mkDriverState rd1 (ds_ps s) (ds_published s)) by (unfold s'; by rewrite tick_canceled, Hrun).
  unfold rd'. rewrite Es. cbn [ds_rd ds_ps]. split; [done|].
  apply final_answer; [|by rewrite Hst|done]. apply (restart_untracked rd1 id n hl1); [done | done |].
  destruct Hout as [(Hall & _ & _)|(m & x & Hm & Hbad & Hpre & _ & Hl)].
  - destruct Hne. apply (goodHeader_client client (ds_rd s) (mkHeader n h)). by apply (Hall n).
  - rewrite Hl. destruct (n <? m) eqn:E; [|by rewrite andb_false_r]. bool_hyps. destruct Hne.
    apply (goodHeader_client client (ds_rd s) (mkHeader n h)). by apply (Hpre n).
Qed.

(** After a reorg at [n] the database holds blocks below [n] only, and the download starts again
    right after the last of them, never beyond [n]. *)
Theorem resync_after_reorg fuel n (s s' : state) firstBlockNumber k :
  0 <= n <= MaxUint64 -> (forall j, is_Some (stored (ds_ps s) !! j) -> 0 <= j) ->
  handleReorg maxRetry fuel (fun _ => false) n s = (s', RNil) ->
  Sync_start maxRetry firstBlockNumber [Ok tt] [GetLastProcessedBlock (ds_ps s')] (fun _ => false) = StartAt k ->
  (forall j h, stored (ds_ps s') !! j = Some h <-> stored (ds_ps s) !! j = Some h /\ j < n) /\
  ((exists l, is_Some (stored (ds_ps s') !! l) /\ k = l + 1 /\ k <= n /\
      forall j, is_Some (stored (ds_ps s') !! j) -> j < k) \/
   (GetLastProcessedBlock (ds_ps s') = Ok None /\ firstBlockNumber = Some k)).
Proof.
  intros Hn Hpos Hr Hs. apply handleReorg_effect in Hr as (_ & _ & Est). simpl in Est.
  assert (Hl : forall j h, stored (ds_ps s') !! j = Some h <-> stored (ds_ps s) !! j = Some h /\ j < n).
  { intros j h. rewrite Est. by rewrite map_lookup_filter_Some. }
  split; [done|]. unfold Sync_start in Hs. cbn [checkCompatibility waitLastProcessed] in Hs.
  destruct (GetLastProcessedBlock (ds_ps s')) as [[l|]|e] eqn:El.
  - left. injection Hs as <-. apply GetLast_max in El as [[h Hh] Hmax]. exists l.
    pose proof (proj1 (Hl l h) Hh) as [Hh' Hlt]. pose proof (Hpos l ltac:(eauto)).
    rewrite add64_small by (unfold_words; lia). split_and!; [eauto | done | lia |]. intros j Hj. specialize (Hmax j Hj). lia.
  - right. destruct firstBlockNumber as [f|]; [|done]. by injection Hs as <-.
  - by destruct (Handle maxRetry (0 + 1)).
Qed.

End Finality.

(** ** Download and driver together *)

Section Synced.
Context {Ev PS : Type} {Pr : Processor Ev PS} {Pl : ProcessorLaws Ev PS} (id : string) (maxRetry : Z).

(** The processing goroutine on the messages of the channel: the first block it cannot process cancels
    the context, ends the process or is retried without end, and nothing is processed after it. *)
Fixpoint processBlocks (fuel : nat) (msgs : list (EVMBlock Ev)) (s : driverState Ev PS) : driverState Ev PS * retryResult :=
  match msgs with
  | [] => (s, RNil)
  | b :: msgs' =>
      match handleNewBlock id maxRetry fuel (fun _ => false) (fun _ => false) b s with
      | (s', RNil) => processBlocks fuel msgs' s'
      | (s', r) => (s', r)
      end
  end.

(** The processor refused a block over a database with the blocks of [ps]. *)
Definition refused (b : EVMBlock Ev) (ps : PS) : Prop :=
  exists ps1 ps2 e, stored ps1 = stored ps /\ ProcessBlock (block_of b) ps1 = (ps2, Err e).

Lemma withRetry_S fuel attempts (fn : eff (driverState Ev PS) fnError unit) s :
  withRetry (S fuel) maxRetry (fun _ => false) attempts fn s =
    match fn s with
    | (s', Ok _) => (s', RNil)
    | (s', Err (StopRetry e)) => (s', RErr e)
    | (s', Err Retry) => if Handle maxRetry (attempts + 1) then (s', RFatal) else withRetry fuel maxRetry (fun _ => false) (attempts + 1) fn s'
    end.
Proof. done. Qed.

Lemma processBlock_cases fuel b attempts (s : driverState Ev PS) :
  let (s', r) := withRetry (S fuel) maxRetry (fun _ => false) attempts (process_fn b) s in
  ds_rd s' = ds_rd s /\
  ((r = RNil /\ ds_published s' = ds_published s ++ [block_of b] /\
    stored (ds_ps s') = <[eb_Num b := eb_Hash b]> (stored (ds_ps s))) \/
   (r <> RNil /\ ds_published s' = ds_published s /\ stored (ds_ps s') = stored (ds_ps s) /\ refused b (ds_ps s'))).
Proof.
  revert attempts s. induction fuel as [|fuel IH]; intros attempts s; rewrite withRetry_S; unfold process_fn at 1, on_ps.
  all: destruct (ProcessBlock (block_of b) (ds_ps s)) as [ps' [u|e]] eqn:Ep.
  1,3: apply ProcessBlock_Ok in Ep as [_ Ep]; split; [done | left; by split_and!].
  all: assert (Hs := ProcessBlock_Err _ _ _ _ Ep).
  all: assert (Hr : refused b ps') by (by exists (ds_ps s), ps', e; split; [symmetry|]).
  all: destruct e; [by split; [|right; split_and!]|].
  all: destruct (Handle maxRetry (attempts + 1)); [by split; [|right; split_and!]|].
  - by split; [|right; split_and!].
  - specialize (IH (attempts + 1) (mkDriverState (ds_rd s) ps' (ds_published s))).
    destruct (withRetry (S fuel) _ _ _ _ _) as [s' r]. cbn [ds_rd ds_ps ds_published] in *.
    destruct IH as [E1 [IH|IH]]; (split; [done|]).
    + left. by rewrite <- Hs.
    + right. by rewrite <- Hs.
Qed.

Lemma handleNewBlock_cases fuel b (s : driverState Ev PS) :
  is_Some (trackedBlocks (ds_rd s) !! id) ->
  let (s', r) := handleNewBlock id maxRetry (S fuel) (fun _ => false) (fun _ => false) b s in
  is_Some (trackedBlocks (ds_rd s') !! id) /\
  ((r = RNil /\ ds_published s' = ds_published s ++ [block_of b] /\
    stored (ds_ps s') = <[eb_Num b := eb_Hash b]> (stored (ds_ps s))) \/
   (r <> RNil /\ ds_published s' = ds_published s /\ stored (ds_ps s') = stored (ds_ps s) /\ refused b (ds_ps s'))).
Proof.
  intros [hl Hid]. unfold handleNewBlock, trackNonFinalizedBlock, processBlock.
  assert (Hproc : forall s1, ds_ps s1 = ds_ps s -> ds_published s1 = ds_published s -> is_Some (trackedBlocks (ds_rd s1) !! id) ->
    let (s', r) := withRetry (S fuel) maxRetry (fun _ => false) 0 (process_fn b) s1 in
    is_Some (trackedBlocks (ds_rd s') !! id) /\
    ((r = RNil /\ ds_published s' = ds_published s ++ [block_of b] /\
      stored (ds_ps s') = <[eb_Num b := eb_Hash b]> (stored (ds_ps s))) \/
     (r <> RNil /\ ds_published s' = ds_published s /\ stored (ds_ps s') = stored (ds_ps s) /\ refused b (ds_ps s')))).
  { intros s1 Hps Hpub Hs1. pose proof (processBlock_cases fuel b 0 s1) as H. destruct (withRetry (S fuel) _ _ _ _ _) as [s' r].
    rewrite <- Hps, <- Hpub. destruct H as [-> H]. by split. }
  destruct (eb_IsFinalizedBlock b); [apply Hproc; eauto|]. rewrite (withRetry_S fuel 0 (track_fn id b)). unfold track_fn at 1, on_rd.
  assert (Ht : exists rd', AddBlockToTrack id (eb_Num b) (eb_Hash b) (ds_rd s) = (rd', Ok tt) /\ is_Some (trackedBlocks rd' !! id)).
  { unfold AddBlockToTrack. rewrite (sbind_run sget _ _ (ds_rd s) (ds_rd s)) by done. rewrite Hid.
    assert (Hsave : forall x, exists rd', saveTrackedBlock id x (ds_rd s) = (rd', Ok tt) /\ is_Some (trackedBlocks rd' !! id)).
    { intros x. eexists. split; [reflexivity|]. simpl. rewrite Hid. destruct (hl_isEmpty hl); rewrite lookup_insert_eq; eauto. }
    destruct (hl_get hl (eb_Num b)) as [x|]; [destruct (hd_Hash x =? eb_Hash b); [exists (ds_rd s); eauto|]|]; apply Hsave. }
  destruct Ht as (rd' & -> & Hs'). apply Hproc; done.
Qed.

(** The blocks processed are a first part of the messages, and what follows begins with a block the processor refuses. *)
Lemma processBlocks_cases fuel msgs (s : driverState Ev PS) :
  is_Some (trackedBlocks (ds_rd s) !! id) ->
  let (s', r) := processBlocks (S fuel) msgs s in
  exists accepted rest, msgs = accepted ++ rest /\
    ds_published s' = ds_published s ++ map block_of accepted /\
    (forall n, is_Some (stored (ds_ps s') !! n) <-> is_Some (stored (ds_ps s) !! n) \/ exists b, b ∈ accepted /\ eb_Num b = n) /\
    ((r = RNil /\ rest = []) \/ (r <> RNil /\ exists b rest', rest = b :: rest' /\ refused b (ds_ps s'))).
Proof.
  revert s. induction msgs as [|b msgs IH]; intros s Hid; cbn [processBlocks].
  { exists [], []. split_and!; [done | by rewrite app_nil_r | | by left]. intros n. split; [by left|].
    by intros [?|(b & Hb%elem_of_nil & _)]. }
  pose proof (handleNewBlock_cases fuel b s Hid) as H. destruct (handleNewBlock _ _ _ _ _ _ _) as [s1 r1].
  destruct H as [Hid1 [(-> & Hpub & Hst)|(Hr & Hpub & Hst & Href)]].
  - specialize (IH s1 Hid1). destruct (processBlocks (S fuel) msgs s1) as [s' r].
    destruct IH as (acc & rest & -> & E1 & E2 & E3). exists (b :: acc), rest. split; [done|].
    rewrite E1, Hpub, <- app_assoc. split_and!; [done | | done]. intros n. rewrite E2, Hst, lookup_insert_is_Some'. split.
    + intros [[<-|?]|(x & Hx & <-)]; [right; exists b; split; [by left | done] | by left | right; exists x; split; [by right | done]].
    + intros [?|(x & Hx & <-)]; [left; by right|]. apply elem_of_cons in Hx as [-> | Hx]; [left; by left | right; eauto].
  - destruct r1; [done| | |]; (exists [], (b :: msgs); rewrite Hst; split_and!; [done | by rewrite app_nil_r | |
      right; split; [done | by exists b, msgs]]; intros n; split; [by left | by intros [?|(x & Hx%elem_of_nil & _)]]).
Qed.

(** C18. A syncer follows the chain. The driver starts right after the last block it has stored, the downloader is
    not stopped, the head it waits for is ahead of what was processed by at most [G] blocks per iteration, headers
    are of the block asked for or an earlier one, and the answers of [GetEventsByBlockRange] are computed from
    those of the node: every request ends before its retries run out, the logs, when the node answers, are those
    of the chain, but it may refuse calls and give headers of another chain. Then the blocks sent are in
    increasing order, and the ones with events are exactly the blocks with events of the chain over the range
    passed, but for the ranges [lost], each passed by a request that was given up: canceled, a single block
    refused, or a hash that disagreed at every attempt. The driver publishes a first part of the blocks sent, all
    of them unless the processor refuses the next, and the database then ends below where the download has got. *)
Theorem synced_blocks_are_the_chain d dlRetry topics dlFuel append truth hdr G k firstWait envs nodes fuel (s : driverState Ev PS) :
  let M := firstWait + Z.of_nat (length envs) * G in
  let chain := chainBlocks topics append truth hdr in
  truth_ok truth hdr ->
  Forall2 (fun e n => env_ok G e /\ node_ok dlRetry dlFuel truth hdr M n /\
    env_GetEventsByBlockRange e = nodeEvents dlRetry topics dlFuel append n) envs nodes ->
  dl_plain d -> 0 <= G -> 0 <= k <= firstWait + 1 -> M + 4 + 4 * dl_syncBlockChunkSize d <= MaxUint64 -> 2 * M + 1 < MaxUint64 ->
  is_Some (trackedBlocks (ds_rd s) !! id) -> (forall n, is_Some (stored (ds_ps s) !! n) -> n < k) ->
  exists msgs dl' lost, Download d k None false firstWait envs = (msgs, Continue dl') /\
    StronglySorted (fun a b => eb_Num a < eb_Num b) msgs /\
    map payload (bfilter has_events msgs) =
      map payload (bfilter has_events (not_lost lost (blocks_between k (fromBlock dl' - 1) chain))) /\
    (forall f t, (f, t) ∈ lost -> exists n r, n ∈ nodes /\ t <= r /\ gave_up truth n f r) /\
    let (s', r) := processBlocks (S fuel) msgs s in
    exists accepted rest, msgs = accepted ++ rest /\ ds_published s' = ds_published s ++ map block_of accepted /\
      (forall n, is_Some (stored (ds_ps s') !! n) -> n < fromBlock dl') /\
      ((r = RNil /\ rest = []) \/ (r <> RNil /\ exists b rest', rest = b :: rest' /\ refused b (ds_ps s'))).
Proof.
  intros M chain Ht Henvs Hp HG Hk HM HM2 Hid Hbelow.
  assert (Hsv : Forall2 (env_serves G chain (gave_up truth) M) envs nodes).
  { eapply Forall2_impl; [exact Henvs|]. intros e n (He & Hn & Hev). split; [done|]. intros f t Hf Hft. rewrite Hev.
    by apply (nodeEvents_cases dlRetry topics dlFuel append truth hdr M). }
  destruct (Download_covers d k G chain (gave_up truth) firstWait envs nodes Hsv) as (msgs & dl' & lost & Hrun & [Hs Hr _ He] & Hl & Hle);
    try done; [by apply chainBlocks_sorted|].
  exists msgs, dl', lost. split_and!; [done.. |]. pose proof (processBlocks_cases fuel msgs s Hid) as H.
  destruct (processBlocks (S fuel) msgs s) as [s' r]. destruct H as (acc & rest & -> & E1 & E2 & E3). exists acc, rest.
  split_and!; [done | done | | done]. intros n Hn. apply E2 in Hn as [Hn|(b & Hb & <-)]; [pose proof (Hbelow n Hn); lia|].
  apply Hr. apply elem_of_app. by left.
Qed.

End Synced.

(** ** Examples *)

(** A processor that stores the hash of each block. *)
Definition max_key (m : gmap Z Z) : option Z :=
  map_fold (fun k _ acc => Some (match acc with None => k | Some a => Z.max a k end)) None m.

#[global] Instance example_processor : Processor Z (gmap Z Z) := {
  GetLastProcessedBlock m := Ok (max_key m);
  ProcessBlock b m := match m !! bk_Num b with Some _ => (m, Err ErrOther) | None => (<[bk_Num b := bk_Hash b]> m, Ok tt) end;
  processor_Reorg n m := (filter (fun kv => kv.1 < n) m, Ok tt)
}.

Lemma max_key_spec m :
  match max_key m with
  | Some n => is_Some (m !! n) /\ forall k, is_Some (m !! k) -> k <= n
  | None => forall k, m !! k = None
  end.
Proof.
  unfold max_key. apply (map_fold_weak_ind (fun acc m => match acc with
    | Some n => is_Some (m !! n) /\ forall k, is_Some (m !! k) -> k <= n | None => forall k, m !! k = None end)).
  - apply lookup_empty.
  - intros i x m' acc Hi IH. destruct acc as [n|].
    + destruct IH as [Hn Hmax]. split.
      * destruct (decide (i = Z.max n i)) as [<-|Hne]; [rewrite lookup_insert_eq; eauto|].
        replace (Z.max n i) with n by lia. rewrite lookup_insert_ne by lia. done.
      * intros k Hk. rewrite lookup_insert in Hk. case_decide; [lia|]. specialize (Hmax k Hk). lia.
    + split; [rewrite lookup_insert_eq; eauto|]. intros k Hk. rewrite lookup_insert in Hk. case_decide; [lia|].
      rewrite IH in Hk. by destruct Hk.
Qed.

#[global] Instance example_processor_laws : ProcessorLaws Z (gmap Z Z).
Proof.
  refine {| stored := fun m => m |}; simpl.
  - intros b m m' u. destruct (m !! bk_Num b) eqn:E; [done|]. intros [= <-]. split; [by left | done].
  - intros b m m' e. by destruct (m !! bk_Num b) eqn:E; [intros [= <-]|].
  - by intros n m m' u [= <-].
  - done.
  - intros m n [= H]. pose proof (max_key_spec m) as Hs. by rewrite H in Hs.
Defined.

Definition example_start : driverState Z (gmap Z Z) := mkDriverState (fst (Subscribe "a" (New [] []))) ∅ [].
Definition example_block (n h : Z) (final : bool) : EVMBlock Z := mkEVMBlock (mkEVMBlockHeader n h 0 0) final [].
Definition never (i : Z) : bool := false.

Lemma example_start_inv : final_inv "a" [] example_start.
Proof.
  split_and!; [apply Subscribe_wf, New_wf | by eexists |]. intros n h Hn. simpl in Hn. by rewrite lookup_empty in Hn.
Qed.

(** Block 10 is processed and tracked, and a tick finds it final. *)
Definition example_s1 : driverState Z (gmap Z Z) :=
  fst (handleNewBlock "a" 3 5 never never (example_block 10 7 false) example_start).
Definition example_s2 : driverState Z (gmap Z Z) :=
  tick "a" 3 5 (fun _ => false) (fun _ => Ok 7) 20 100 example_s1.

Lemma driver_operations_terminate_witness :
  snd (handleNewBlock "a" 3 3 never never (example_block 10 7 false) example_start) <> RFuel /\
  snd (handleReorg 3 3 never 10 example_start) <> RFuel.
Proof. refine (driver_operations_terminate "a" 3 3 never never (example_block 10 7 false) 10 example_start _ _); lia. Defined.

Lemma IsBlockFinalized_confirmed_witness :
  confirmed ([ABlock (example_block 10 7 false); ATick (fun _ => Ok 7) 20] ++ []) 10 7.
Proof.
  refine (IsBlockFinalized_confirmed "a" 3 example_start _ example_s2 [] example_s2 10 7 _ _ _ _ _).
  - apply example_start_inv.
  - apply (run_snoc _ _ _ [ABlock (example_block 10 7 false)] example_s1).
    + apply (run_snoc _ _ _ [] example_start); [constructor|]. apply do_block; [|done]. split; [by vm_compute|].
      intros hl x Hhl Hx. vm_compute in Hhl. injection Hhl as <-. by vm_compute in Hx.
    + apply do_tick.
  - constructor.
  - intros b Hb. by apply elem_of_nil in Hb.
  - vm_compute. reflexivity.
Defined.

(** The block of the driver is tracked with hash 7, the chain has it with hash 8. *)
Lemma retrack_hides_reorg_witness :
  let s1 := fst (on_rd (AddBlockToTrack "a" 10 8) example_s1) in
  let s2 := tick "a" 3 5 never (fun _ => Ok 8) 20 100 s1 in
  sent (ds_rd s2) = sent (ds_rd example_s1) /\ stored (ds_ps s2) !! 10 = Some 7 /\
  IsBlockFinalized (GetTrackedBlockByBlockNumber (ds_rd s2) "a") 10 7 (fun k => Ok (stored (ds_ps s2) !! k)) = Ok (true, true).
Proof.
  refine (retrack_hides_reorg "a" 3 5 never (fun _ => Ok 8) 20 100 example_s1 10 7 8 _ _ _ _ _ _ _ _);
    [by vm_compute | lia | lia | reflexivity | reflexivity | reflexivity | reflexivity | lia].
Defined.

Lemma ack_race_untracks_witness :
  let rd2 := fst (dropReorged (mkReorgEvent 100 10 12 "a" 7 8) (fst (AddBlockToTrack "a" 11 9 (ds_rd example_s1)))) in
  IsBlockFinalized (GetTrackedBlockByBlockNumber rd2 "a") 11 9 (fun _ => Ok (Some 9)) = Ok (true, true).
Proof.
  refine (ack_race_untracks "a" (ds_rd example_s1) _ (mkReorgEvent 100 10 12 "a" 7 8) 11 9 (fun _ => Ok (Some 9)) _ _ _ _ _ _);
    [reflexivity | simpl; lia | by vm_compute | lia | reflexivity | reflexivity].
Defined.

Lemma shutdown_loses_reorg_witness :
  let s' := tick "a" 3 5 (fun _ => true) (fun _ => Ok 8) 5 100 example_s1 in
  let rd' := fst (Subscribe "a" (restart (ds_rd s'))) in
  stored (ds_ps s') = stored (ds_ps example_s1) /\
  IsBlockFinalized (GetTrackedBlockByBlockNumber rd' "a") 10 7 (fun k => Ok (stored (ds_ps s') !! k)) = Ok (true, true).
Proof.
  refine (shutdown_loses_reorg "a" 3 4 (fun _ => Ok 8) 5 100 example_s1 {[10 := mkHeader 10 7]} 10 7 _ _ _ _ _ _ _ _).
  - assert (H : final_inv "a" ([] ++ [ABlock (example_block 10 7 false)]) example_s1).
    { apply handleNewBlock_inv; [apply example_start_inv | | done]. split; [by vm_compute|].
      intros hl x Hhl Hx. vm_compute in Hhl. injection Hhl as <-. by vm_compute in Hx. }
    apply H.
  - reflexivity.
  - constructor.
  - done.
  - reflexivity.
  - done.
  - reflexivity.
  - lia.
Defined.

Lemma resync_after_reorg_witness :
  (forall j h, stored (∅ : gmap Z Z) !! j = Some h <-> stored (ds_ps example_s1) !! j = Some h /\ j < 10) /\
  ((exists l, is_Some (stored (∅ : gmap Z Z) !! l) /\ 4 = l + 1 /\ 4 <= 10 /\
      forall j, is_Some (stored (∅ : gmap Z Z) !! j) -> j < 4) \/
   (GetLastProcessedBlock (∅ : gmap Z Z) = Ok None /\ Some 4 = Some 4)).
Proof.
  refine (resync_after_reorg 3 5 10 example_s1 (mkDriverState (ds_rd example_s1) ∅ (ds_published example_s1)) (Some 4) 4 _ _ _ _).
  - by vm_compute.
  - intros j [h Hj]. vm_compute in Hj. by destruct j.
  - reflexivity.
  - reflexivity.
Defined.

Lemma synced_blocks_are_the_chain_witness :
  exists msgs dl' lost,
    Download example_downloader 3 None false 12 [example_env 9; example_env_of example_forkedNode 9] = (msgs, Continue dl') /\
    StronglySorted (fun a b => eb_Num a < eb_Num b) msgs /\
    map payload (bfilter has_events msgs) =
      map payload (bfilter has_events (not_lost lost (blocks_between 3 (fromBlock dl' - 1) example_chain))) /\
    (forall f t, (f, t) ∈ lost -> exists n r, n ∈ [example_requestNode; example_forkedNode] /\ t <= r /\ gave_up example_truth n f r) /\
    let (s', r) := processBlocks "a" 3 1 msgs example_start in
    exists accepted rest, msgs = accepted ++ rest /\ ds_published s' = ds_published example_start ++ map block_of accepted /\
      (forall n, is_Some (stored (ds_ps s') !! n) -> n < fromBlock dl') /\
      ((r = RNil /\ rest = []) \/ (r <> RNil /\ exists b rest', rest = b :: rest' /\ refused b (ds_ps s'))).
Proof.
  assert (Hle : forall nd, node_ok 3 300 example_truth example_hdr 100 nd ->
    node_ok 3 300 example_truth example_hdr (12 + Z.of_nat (length [example_env 9; example_env_of example_forkedNode 9]) * 1) nd).
  { intros nd []. constructor; try done. intros i f t Hf Hft. apply no_logs_end; [done|]. simpl in Hft. lia. }
  assert (Hen : forall nd, env_ok 1 (example_env_of nd 9)).
  { intros nd. constructor; cbn [env_done env_WaitForNewBlocks env_GetBlockHeader example_env_of]; [done | lia | by intros n h [= <-]]. }
  refine (synced_blocks_are_the_chain "a" 3 example_downloader 3 [1] 300 example_append example_truth example_hdr 1 3 12
    [example_env 9; example_env_of example_forkedNode 9] [example_requestNode; example_forkedNode] 0 example_start _ _ _ _ _ _ _ _ _).
  - apply example_truth_ok.
  - apply List.Forall2_cons; [|apply List.Forall2_cons; [|apply List.Forall2_nil]].
    + split_and!; [apply Hen | apply Hle, example_requestNode_ok | done].
    + split_and!; [apply Hen | apply Hle, example_forkedNode_ok | done].
  - apply example_plain.
  - lia.
  - lia.
  - by vm_compute.
  - by vm_compute.
  - by eexists.
  - intros n [h Hn]. simpl in Hn. by rewrite lookup_empty in Hn.
Defined.
