(* ===== verification/Tables.v ===== *)
(** What the tables of the processors of the syncers share: the first row of an order, searches by key,
    and the block table, a number and a hash per row (NULL in rows older than that column). *)

From S2P Require Import Prelude.

(** ** Queries: the first row of an order *)

Definition firstBy {A} (before : A -> A -> bool) (rows : list A) : option A :=
  fold_left (fun best r => match best with None => Some r | Some b => if before r b then Some r else Some b end) rows None.

(** [ORDER BY block_num DESC, block_pos DESC] and its reverse, on (block_num, block_pos). *)
Definition pos_ltb (a b : Z * Z) : bool := (fst a <? fst b) || ((fst a =? fst b) && (snd a <? snd b)).
Definition latest {A} (pos : A -> Z * Z) : list A -> option A := firstBy (fun a b => pos_ltb (pos b) (pos a)).
Definition earliest {A} (pos : A -> Z * Z) : list A -> option A := firstBy (fun a b => pos_ltb (pos a) (pos b)).

(** [ORDER BY block_num ASC, block_pos ASC] and its reverse on whole tables. *)
Definition pos_le {A} (pos : A -> Z * Z) (a b : A) : Prop := pos_ltb (pos b) (pos a) = false.
Definition pos_ge {A} (pos : A -> Z * Z) (a b : A) : Prop := pos_ltb (pos a) (pos b) = false.
#[global] Instance pos_le_dec {A} (pos : A -> Z * Z) : RelDecision (pos_le pos).
Proof. intros a b. unfold pos_le. apply bool_eq_dec. Defined.
#[global] Instance pos_ge_dec {A} (pos : A -> Z * Z) : RelDecision (pos_ge pos).
Proof. intros a b. unfold pos_ge. apply bool_eq_dec. Defined.

(** [LIMIT $1 OFFSET $2]. *)
Definition page {A} (limit offset : Z) (rows : list A) : list A := take (Z.to_nat limit) (drop (Z.to_nat offset) rows).

(** ** The block table *)

(** [SELECT ... FROM block ORDER BY num DESC LIMIT 1]. *)
Definition lastRow (rows : list (Z * option Z)) : option (Z * option Z) := firstBy (fun a b => fst b <? fst a) rows.

(** NULL or missing: not found. *)
Definition rowHash (rows : list (Z * option Z)) (blockNum : Z) : option Z :=
  match List.find (fun b => fst b =? blockNum) rows with Some b => snd b | None => None end.

(** ** Lemmas *)

Lemma firstBy_app {A} (before : A -> A -> bool) l x :
  (forall y, In y l -> before x y = true) -> firstBy before (l ++ [x]) = Some x.
Proof.
  intros H. unfold firstBy. rewrite fold_left_app. simpl.
  assert (Hg : forall o, (forall b, o = Some b -> before x b = true) ->
    forall b, fold_left (fun best r => match best with None => Some r | Some b => if before r b then Some r else Some b end) l o = Some b ->
    before x b = true).
  { induction l as [|y l IH]; intros o Ho b Hb; simpl in Hb; [by apply Ho|].
    apply (IH (fun z Hz => H z (or_intror Hz)) _) in Hb; [done|]. intros b' Hb'. pose proof (H y (or_introl eq_refl)) as Hy.
    destruct o as [b0|]; [|congruence]. destruct (before y b0); [congruence | by apply Ho]. }
  destruct (fold_left _ l None) as [b|] eqn:E; [|done]. by rewrite (Hg None ltac:(done) b E).
Qed.

Lemma pos_ltb_lt a b : pos_ltb a b = true <-> fst a < fst b \/ (fst a = fst b /\ snd a < snd b).
Proof. unfold pos_ltb. rewrite orb_true_iff, andb_true_iff, !Z.ltb_lt, Z.eqb_eq. done. Qed.

(** A search for a key without duplicates finds its row. *)
Lemma find_unique {A} (f : A -> Z) (l : list A) k x :
  NoDup (map f l) -> l !! k = Some x -> List.find (fun y => f y =? f x) l = Some x.
Proof.
  intros Hnd Hk. destruct (List.find _ l) as [y|] eqn:E.
  - apply find_some in E as [Hy E]. bool_hyps. apply list_elem_of_In, list_elem_of_lookup in Hy as [j Hj].
    assert (j = k) as ->; [|congruence]. apply (NoDup_lookup (map f l) j k (f x) Hnd).
    + change (map f l) with (f <$> l). by rewrite list_lookup_fmap, Hj, <- E.
    + change (map f l) with (f <$> l). by rewrite list_lookup_fmap, Hk.
  - pose proof (find_none _ _ E x ltac:(by eapply list_elem_of_In, list_elem_of_lookup_2)) as H. cbn in H. bool_hyps. done.
Qed.

Lemma index_NoDup {A} (f : A -> Z) (l : list A) : (forall k x, l !! k = Some x -> f x = Z.of_nat k) -> NoDup (map f l).
Proof.
  intros H. apply NoDup_alt. intros i j x Hi Hj. apply list_lookup_fmap_Some in Hi as (a & -> & Hi), Hj as (b & E & Hj).
  rewrite (H i a Hi), (H j b Hj) in E. lia.
Qed.

(** The blocks of the table, by number. *)
Definition row_hash (b : Z * option Z) : Z * Z := (fst b, default 0 (snd b)).
Definition storedRows (rows : list (Z * option Z)) : gmap Z Z := list_to_map (map row_hash rows).

Lemma row_hash_fst rows : map fst (map row_hash rows) = map fst rows.
Proof. rewrite map_map. by apply map_ext. Qed.

Lemma list_to_map_snoc (rows : list (Z * Z)) n h :
  n ∉ map fst rows -> (list_to_map (rows ++ [(n, h)]) : gmap Z Z) = <[n := h]> (list_to_map rows).
Proof.
  intros Hn. induction rows as [|[k v] rows IH]; [done|]. cbn in *. apply not_elem_of_cons in Hn as [Hk Hn].
  by rewrite IH, insert_insert_ne by done.
Qed.

Lemma list_to_map_keep rows n :
  (list_to_map (map row_hash (bfilter (fun b => negb (n <=? fst b)) rows)) : gmap Z Z)
  = filter (fun kv => kv.1 < n) (list_to_map (map row_hash rows) : gmap Z Z).
Proof.
  induction rows as [|[k v] rows IH]; cbn; [done|]. destruct (n <=? k) eqn:E; bool_hyps; cbn.
  - rewrite map_filter_insert_not by (cbn; lia). exact IH.
  - rewrite map_filter_insert_True by (cbn; lia). by rewrite <- IH.
Qed.

Lemma lastRow_spec (rows : list (Z * option Z)) o :
  match fold_left (fun best r => match best with None => Some r | Some b => if fst b <? fst r then Some r else Some b end) rows o with
  | None => o = None /\ rows = []
  | Some m => (o = Some m \/ m ∈ rows) /\ (forall b, o = Some b \/ b ∈ rows -> fst b <= fst m)
  end.
Proof.
  revert o. induction rows as [|r rows IH]; intros o; cbn [fold_left].
  - destruct o; [|done]. split; [by left|]. intros b [[= ->]|H]; [lia | by apply elem_of_nil in H].
  - set (o' := match o with None => Some r | Some b => if fst b <? fst r then Some r else Some b end).
    assert (Ho' : exists b, o' = Some b /\ fst r <= fst b /\ (forall c, o = Some c -> fst c <= fst b) /\ (o = Some b \/ b = r)).
    { subst o'. destruct o as [c|]; [destruct (fst c <? fst r) eqn:E; bool_hyps|]; eexists; (split; [done|]);
        (split; [lia|]); (split; [intros ? [=]; subst; lia|]); auto. }
    destruct Ho' as (b & Hb & Hrb & Hob & Hfrom). specialize (IH o'). destruct (fold_left _ rows o') as [m|]; [|destruct IH; congruence].
    destruct IH as [Hin Hmax]. pose proof (Hmax b (or_introl Hb)). split.
    + destruct Hin as [Hin|Hin]; [|right; by apply list_elem_of_further]. rewrite Hb in Hin. injection Hin as <-.
      destruct Hfrom as [?| ->]; [by left | right; apply list_elem_of_here].
    + intros c [Hc|Hc]; [pose proof (Hob c Hc); lia|]. apply elem_of_cons in Hc as [->|Hc]; [lia | apply Hmax; by right].
Qed.

Lemma storedRows_dom rows k : is_Some (storedRows rows !! k) <-> k ∈ map fst rows.
Proof. rewrite <- elem_of_dom. unfold storedRows. rewrite dom_list_to_map_L, elem_of_list_to_set, row_hash_fst. done. Qed.

Lemma storedRows_snoc rows n h :
  n ∉ map fst rows -> storedRows rows !! n = None /\ storedRows (rows ++ [(n, Some h)]) = <[n := h]> (storedRows rows).
Proof.
  rewrite <- row_hash_fst. intros Hn. unfold storedRows. rewrite map_app.
  split; [by apply not_elem_of_list_to_map | by apply list_to_map_snoc].
Qed.

Lemma storedRows_last rows n :
  fst <$> lastRow rows = Some n -> is_Some (storedRows rows !! n) /\ forall k, is_Some (storedRows rows !! k) -> k <= n.
Proof.
  intros E. unfold lastRow, firstBy in E. pose proof (lastRow_spec rows None) as Hs.
  destruct (fold_left _ _ None) as [m|]; [|done]. injection E as <-. destruct Hs as [[?|Hin] Hmax]; [done|].
  setoid_rewrite storedRows_dom. split; [apply list_elem_of_fmap; by exists m|].
  intros k Hk. apply list_elem_of_fmap in Hk as (c & -> & Hc). apply Hmax. by right.
Qed.

(** ** Ordered tables *)

Lemma lookups_StronglySorted {A} (R : A -> A -> Prop) (l : list A) :
  (forall i j x y, (i < j)%nat -> l !! i = Some x -> l !! j = Some y -> R x y) -> StronglySorted R l.
Proof.
  induction l as [|a l IH]; intros H; [constructor|]. constructor.
  - apply IH. intros i j x y Hij Hx Hy. by apply (H (S i) (S j)); [lia|..].
  - apply Forall_forall. intros x Hx. apply list_elem_of_lookup in Hx as [k Hk]. by apply (H 0%nat (S k)); [lia|..].
Qed.

Abbreviation ordered pos := (StronglySorted (fun a b => pos_ltb (pos a) (pos b) = true)).

(** A table in the order of its positions is its own sorted version. *)
Lemma merge_sort_ordered {A} (pos : A -> Z * Z) (l : list A) : ordered pos l -> merge_sort (pos_le pos) l = l.
Proof.
  intros Hs. apply (StronglySorted_unique_strong (pos_le pos)).
  - intros x1 x2 H1 H2 L1 L2. rewrite merge_sort_Permutation in H1. unfold pos_le in *.
    assert (Hget : forall x y, x ∈ l -> y ∈ l -> x = y \/ pos_ltb (pos x) (pos y) = true \/ pos_ltb (pos y) (pos x) = true).
    { clear -Hs. induction Hs as [|a l Hs IH Ha]; intros x y Hx Hy; [by apply elem_of_nil in Hx|].
      rewrite Forall_forall in Ha. apply elem_of_cons in Hx as [->|Hx], Hy as [->|Hy]; auto. }
    destruct (Hget x1 x2 H1 H2) as [?|[?|?]]; congruence.
  - apply StronglySorted_merge_sort; unfold pos_le.
    + intros x y z Hxy Hyz. apply not_true_is_false. intros E.
      apply not_true_iff_false in Hxy, Hyz. rewrite pos_ltb_lt in *. lia.
    + intros x y. destruct (pos_ltb (pos y) (pos x)) eqn:E; [|by left]. right. apply not_true_is_false. intros E'.
      rewrite pos_ltb_lt in *. lia.
  - clear -Hs. induction Hs as [|a l Hs IH Ha]; constructor; [done|]. eapply Forall_impl; [exact Ha|]. intros x Hx.
    unfold pos_le. apply not_true_is_false. intros E. rewrite pos_ltb_lt in *. lia.
  - apply merge_sort_Permutation.
Qed.

(** The rows up to a block are those before the first block of a range, then those of the range. *)
Lemma ordered_split {A} (pos : A -> Z * Z) from to (l : list A) :
  ordered pos l -> from <= to ->
  bfilter (fun x => fst (pos x) <=? to) l =
  bfilter (fun x => fst (pos x) <? from) l ++ bfilter (fun x => (from <=? fst (pos x)) && (fst (pos x) <=? to)) l.
Proof.
  intros Hs Hft. induction Hs as [|a l Hs IH Ha]; [done|]. cbn [bfilter].
  destruct (Z.ltb_spec (fst (pos a)) from) as [Hlt|Hge].
  - rewrite (proj2 (Z.leb_le _ _)), (proj2 (Z.leb_gt from _)) by lia. cbn [andb app]. by rewrite IH.
  - assert (E : bfilter (fun x => fst (pos x) <? from) l = []).
    { assert (H : forall x, In x l -> (fst (pos x) <? from) = false).
      { intros x Hx. rewrite Forall_forall in Ha. apply list_elem_of_In in Hx. pose proof (Ha x Hx) as Hax.
        apply pos_ltb_lt in Hax. apply Z.ltb_ge. lia. }
      clear -H. induction l as [|x l IH]; [done|]. cbn. rewrite (H x (or_introl eq_refl)). apply IH. intros y Hy. apply H. by right. }
    rewrite (proj2 (Z.leb_le from _)) by lia. rewrite E in IH |- *. cbn [andb app] in IH |- *. by rewrite <- IH.
Qed.

(** ** First rows *)

Lemma firstBy_spec {A} (before : A -> A -> bool) rows x :
  (forall a b c, before a b = false -> before b c = false -> before a c = false) -> (forall a, before a a = false) ->
  (forall a b, before a b = true -> before b a = false) ->
  firstBy before rows = Some x -> x ∈ rows /\ forall y, y ∈ rows -> before y x = false.
Proof.
  intros Htr Hrefl Has. unfold firstBy.
  assert (forall l o, fold_left (fun best r => match best with None => Some r | Some b => if before r b then Some r else Some b end) l o = Some x ->
    (o = Some x \/ x ∈ l) /\ (forall y, y ∈ l -> before y x = false) /\ (forall b, o = Some b -> before b x = false)) as Hl.
  { induction l as [|r l IH]; intros o; cbn [fold_left].
    - intros ->. split; [by left|]. split; [by intros y ?%not_elem_of_nil|]. by intros b [= <-].
    - intros H. destruct o as [b|].
      + destruct (before r b) eqn:E; apply IH in H as (H1 & H2 & H3).
        * split; [right; destruct H1 as [[= <-]|]; set_solver|]. pose proof (H3 r eq_refl) as Hr.
          split; [intros y [->|Hy]%elem_of_cons; auto|]. intros b' [= <-]. eapply Htr; [apply Has, E | done].
        * split; [destruct H1; [by left | right; set_solver]|]. pose proof (H3 b eq_refl) as Hb.
          split; [intros y [->|Hy]%elem_of_cons; [by eapply Htr | auto]|]. by intros b' [= <-].
      + apply IH in H as (H1 & H2 & H3). split; [right; destruct H1 as [[= <-]|]; set_solver|]. split; [|done].
        intros y [->|Hy]%elem_of_cons; auto. }
  intros H. apply Hl in H as ([|Hin] & H2 & _); [done|]. done.
Qed.

Lemma earliest_spec {A} (pos : A -> Z * Z) rows x :
  earliest pos rows = Some x -> x ∈ rows /\ forall y, y ∈ rows -> pos_le pos x y.
Proof.
  apply firstBy_spec; intros *; try (intros ?; intros); rewrite <- ?not_true_iff_false, ?pos_ltb_lt in *; lia.
Qed.

Lemma latest_spec {A} (pos : A -> Z * Z) rows x :
  latest pos rows = Some x -> x ∈ rows /\ forall y, y ∈ rows -> pos_le pos y x.
Proof.
  apply firstBy_spec; intros *; try (intros ?; intros); rewrite <- ?not_true_iff_false, ?pos_ltb_lt in *; lia.
Qed.

Lemma firstBy_some {A} (before : A -> A -> bool) rows x : x ∈ rows -> exists y, firstBy before rows = Some y.
Proof.
  unfold firstBy. intros Hx. destruct rows as [|r rows]; [by apply not_elem_of_nil in Hx|]. cbn. clear Hx. revert r.
  induction rows as [|r' rows IH]; intros r; cbn; [by exists r|]. destruct (before r' r); apply IH.
Qed.

Lemma pos_le_block {A} (pos : A -> Z * Z) x y : pos_le pos x y -> fst (pos x) <= fst (pos y).
Proof. unfold pos_le. rewrite <- not_true_iff_false, pos_ltb_lt. lia. Qed.
