(* ===== verification/MultiStorage.v ===== *)
(** The tables of the multidownloader ([multidownloader/storage/]): blocks, logs, the synced range of each contract,
    and what reorgs moved away.  Rows are lists in insertion order; the constraints of the migrations are errors.

    Finality tags are stored as text and parsed back: here the column holds the tag. *)

From S2P Require Import Prelude BlockRange Finality Tables SyncSegments.

(** ** Data *)

Record BlockHeader := mkBlockHeader {
  bh_Number : Z;
  bh_Hash : Z;
  bh_Time : Z;
  bh_ParentHash : option Z
}.

Record EthLog := mkEthLog {
  el_Address : Z;
  el_Topics : list Z;
  el_Data : list Z;
  el_BlockNumber : Z;
  el_TxHash : Z;
  el_TxIndex : Z;
  el_Index : Z;
  el_BlockHash : Z;
  el_BlockTimestamp : Z
}.

Record logRow := mkLogRow {
  lr_Address : Z;
  lr_Topics : list Z;
  lr_Data : list Z;
  lr_BlockNumber : Z;
  lr_TxHash : Z;
  lr_TxIndex : Z;
  lr_Index : Z
}.

Record blockRow := mkBlockRow {
  bl_Number : Z;
  bl_Hash : Z;
  bl_Timestamp : Z;
  bl_ParentHash : option Z;
  bl_IsFinal : bool
}.

Record syncStatusRow := mkSyncStatusRow {
  sy_Address : Z;
  sy_TargetFromBlock : Z;
  sy_TargetToBlock : BlockNumberFinality;
  sy_SyncedFromBlock : Z;
  sy_SyncedToBlock : Z
}.

Record ReorgData := mkReorgData {
  rd_ReorgID : Z;
  rd_BlockRangeAffected : BlockRange;
  rd_DetectedAtBlock : Z;
  rd_NetworkLatestBlock : Z;
  rd_NetworkFinalizedBlock : Z
}.

Record mdb := mkMdb {
  mb_blocks : list blockRow;
  mb_logs : list logRow;
  mb_sync_status : list syncStatusRow;
  mb_reorgs : list ReorgData;
  mb_blocks_reorged : list (Z * blockRow);
  mb_logs_reorged : list (Z * logRow)
}.

Inductive ReorgDetectionReason := BlockHashMismatch | ParentHashMismatch | MissingBlock | Forced.
Record DetectedReorgError := mkDetectedReorg { dr_OffendingBlockNumber : Z; dr_Reason : ReorgDetectionReason; dr_OldHash : Z; dr_NewHash : Z }.

Inductive mdError :=
| MErrConstraint
| MErrInvalidSegment (s : SyncSegment)
| MErrNoRowsUpdated (addr : Z)
| MErrEmptyIn
| MErrReorg (e : DetectedReorgError)
| MErrRPC
| MErrSync (e : sync_error)
| MErrInitialized
| MErrNotInitialized
| MErrIncompatible
| MErrNoHeaders
| MErrIntegrity (blockNumber : Z)
| MErrCannotReduce
| MErrBlockZero
| MErrGenesis
| MErrNumberMismatch
| MErrNotSynced
| MErrOtherStored
| MErrAboveFinalized
| MErrNotCanonical
| MErrPanic
| MErrFuel.

Abbreviation Md := (eff mdb mdError).

Definition set_blocks (f : list blockRow -> list blockRow) (db : mdb) : mdb :=
  mkMdb (f (mb_blocks db)) (mb_logs db) (mb_sync_status db) (mb_reorgs db) (mb_blocks_reorged db) (mb_logs_reorged db).
Definition set_logs (f : list logRow -> list logRow) (db : mdb) : mdb :=
  mkMdb (mb_blocks db) (f (mb_logs db)) (mb_sync_status db) (mb_reorgs db) (mb_blocks_reorged db) (mb_logs_reorged db).
Definition set_sync_status (f : list syncStatusRow -> list syncStatusRow) (db : mdb) : mdb :=
  mkMdb (mb_blocks db) (mb_logs db) (f (mb_sync_status db)) (mb_reorgs db) (mb_blocks_reorged db) (mb_logs_reorged db).

(** ** Blocks and logs *)

Definition NewLogRowFromEthLog (l : EthLog) : logRow :=
  mkLogRow (el_Address l) (el_Topics l) (el_Data l) (el_BlockNumber l) (el_TxHash l) (el_TxIndex l) (el_Index l).

Definition newBlockRowFromAggkitBlock (isFinal : bool) (h : BlockHeader) : blockRow :=
  mkBlockRow (bh_Number h) (bh_Hash h) (bh_Time h) (bh_ParentHash h) isFinal.

(** The map from numbers to rows; a later header of the same number replaces the row. *)
Definition NewBlockRowsFromAggkitBlock (headers : list BlockHeader) (isFinal : bool) : list blockRow :=
  fold_left (fun rows h =>
    bfilter (fun r => negb (bl_Number r =? bh_Number h)) rows ++ [newBlockRowFromAggkitBlock isFinal h]) headers [].

Definition hasBlockRow (db : mdb) (n : Z) : bool := existsb (fun r => bl_Number r =? n) (mb_blocks db).

Definition saveBlock (row : blockRow) : Md unit :=
  let! db := sget in
  if hasBlockRow db (bl_Number row) then sfail MErrConstraint
  else smodify (set_blocks (fun rows => rows ++ [row])).

Fixpoint saveBlocksNoMutex (rows : list blockRow) : Md unit :=
  match rows with
  | [] => sret tt
  | row :: rows => let! _ := saveBlock row in saveBlocksNoMutex rows
  end.

Definition sameLogKey (a b : logRow) : bool :=
  (lr_Address a =? lr_Address b) && (lr_BlockNumber a =? lr_BlockNumber b) && (lr_Index a =? lr_Index b).

Definition saveLog (row : logRow) : Md unit :=
  let! db := sget in
  if existsb (sameLogKey row) (mb_logs db) || negb (hasBlockRow db (lr_BlockNumber row)) then sfail MErrConstraint
  else smodify (set_logs (fun rows => rows ++ [row])).

Fixpoint saveLogsNoMutex (rows : list logRow) : Md unit :=
  match rows with
  | [] => sret tt
  | row :: rows => let! _ := saveLog row in saveLogsNoMutex rows
  end.

Definition saveLogsAndBlocks (blockRows : list blockRow) (logRows : list logRow) : Md unit :=
  let! _ := saveBlocksNoMutex blockRows in
  saveLogsNoMutex logRows.

Definition SaveEthLogsWithHeaders (blockHeaders : list BlockHeader) (logs : list EthLog) (isFinal : bool) : Md unit :=
  saveLogsAndBlocks (NewBlockRowsFromAggkitBlock blockHeaders isFinal) (map NewLogRowFromEthLog logs).

(** Without headers: the block of each log, from the first log of the block. *)
Definition NewBlockRowFromEthLog (isFinal : bool) (l : EthLog) : blockRow :=
  mkBlockRow (el_BlockNumber l) (el_BlockHash l) (el_BlockTimestamp l) None isFinal.

Definition NewBlockRowsFromLogs (logs : list EthLog) (isFinal : bool) : list blockRow :=
  fold_left (fun rows l =>
    if existsb (fun r => bl_Number r =? el_BlockNumber l) rows then rows else rows ++ [NewBlockRowFromEthLog isFinal l]) logs [].

Definition SaveEthLogs (logs : list EthLog) (isFinal : bool) : Md unit :=
  saveLogsAndBlocks (NewBlockRowsFromLogs logs isFinal) (map NewLogRowFromEthLog logs).

Definition saveAggkitBlock (header : BlockHeader) (isFinal : bool) : Md unit :=
  saveBlocksNoMutex [newBlockRowFromAggkitBlock isFinal header].

Definition headerOf (r : blockRow) : BlockHeader := mkBlockHeader (bl_Number r) (bl_Hash r) (bl_Timestamp r) (bl_ParentHash r).

Definition GetBlockHeaderByNumber (db : mdb) (n : Z) : option (BlockHeader * bool) :=
  (fun r => (headerOf r, bl_IsFinal r)) <$> List.find (fun r => bl_Number r =? n) (mb_blocks db).

(** Go iterates over a map here; its callers sort the numbers or build maps again. *)
Definition GetBlockHeadersNotFinalized (db : mdb) (maxBlock : option Z) : list BlockHeader :=
  map headerOf (bfilter (fun r => negb (bl_IsFinal r) && match maxBlock with Some m => bl_Number r <=? m | None => true end) (mb_blocks db)).

(** The lowest and the highest stored block of the zone. *)
Definition GetRangeBlockHeader (db : mdb) (isFinal : bool) : option (BlockHeader * BlockHeader) :=
  let rows := bfilter (fun r => Bool.eqb (bl_IsFinal r) isFinal) (mb_blocks db) in
  match firstBy (fun a b => bl_Number a <? bl_Number b) rows, firstBy (fun a b => bl_Number b <? bl_Number a) rows with
  | Some lowest, Some highest => Some (headerOf lowest, headerOf highest)
  | _, _ => None
  end.

Definition UpdateBlockToFinalized (blockNumbers : list Z) (db : mdb) : mdb :=
  set_blocks (map (fun r =>
    if existsb (Z.eqb (bl_Number r)) blockNumbers
    then mkBlockRow (bl_Number r) (bl_Hash r) (bl_Timestamp r) (bl_ParentHash r) true else r)) db.

Definition GetHighestBlockNumber (db : mdb) : Z :=
  default 0 (bl_Number <$> firstBy (fun a b => bl_Number b <? bl_Number a) (mb_blocks db)).

(** The logs of a query joined with their blocks, by block and index. *)
Definition lr_pos (r : logRow) : Z * Z := (lr_BlockNumber r, lr_Index r).

Definition queriedRows (db : mdb) (query : LogQuery) : list logRow :=
  merge_sort (pos_le lr_pos)
    (bfilter (fun r => existsb (Z.eqb (lr_Address r)) (lq_Addrs query) &&
       (br_FromBlock (lq_BlockRange query) <=? lr_BlockNumber r) && (lr_BlockNumber r <=? br_ToBlock (lq_BlockRange query))) (mb_logs db)).

(** A missing block leaves the zero values of a left join. *)
Definition joinedLog (db : mdb) (r : logRow) : EthLog :=
  let '(hash, time) := match GetBlockHeaderByNumber db (lr_BlockNumber r) with Some (h, _) => (bh_Hash h, bh_Time h) | None => (0, 0) end in
  mkEthLog (lr_Address r) (lr_Topics r) (lr_Data r) (lr_BlockNumber r) (lr_TxHash r) (lr_TxIndex r) (lr_Index r) hash time.

(** [sqlx.In] refuses an empty list. *)
Definition GetEthLogs (db : mdb) (query : LogQuery) : result mdError (list EthLog) :=
  match lq_Addrs query with
  | [] => Err MErrEmptyIn
  | _ => Ok (map (joinedLog db) (queriedRows db query))
  end.

Record BlockWithLogs := mkBlockWithLogs { bw_Header : BlockHeader; bw_IsFinal : bool; bw_Logs : list EthLog }.
Record LogQueryResponse := mkLogQueryResponse { lp_Blocks : list BlockWithLogs; lp_ResponseRange : BlockRange; lp_UnsafeRange : BlockRange }.

(** The blocks in the order of their first log. *)
Definition addToBlock (db : mdb) (blocks : list BlockWithLogs) (l : EthLog) : list BlockWithLogs :=
  if existsb (fun b => bh_Number (bw_Header b) =? el_BlockNumber l) blocks
  then map (fun b => if bh_Number (bw_Header b) =? el_BlockNumber l then mkBlockWithLogs (bw_Header b) (bw_IsFinal b) (bw_Logs b ++ [l]) else b) blocks
  else
    let '(header, isFinal) := match GetBlockHeaderByNumber db (el_BlockNumber l) with
      | Some (h, f) => (h, f)
      | None => (mkBlockHeader (el_BlockNumber l) 0 0 None, false)
      end in
    blocks ++ [mkBlockWithLogs header isFinal [l]].

Definition Storage_LogQuery (db : mdb) (query : LogQuery) : result mdError LogQueryResponse :=
  let? logs := GetEthLogs db query in
  Ok (mkLogQueryResponse (fold_left (addToBlock db) logs []) (lq_BlockRange query) BlockRangeZero).

(** ** The synced ranges *)

Definition ToSyncSegment (r : syncStatusRow) : SyncSegment :=
  mkSyncSegment (sy_Address r)
    (if (sy_SyncedFromBlock r =? 0) && (sy_SyncedToBlock r =? 0) then BlockRangeZero
     else NewBlockRange (sy_SyncedFromBlock r) (sy_SyncedToBlock r))
    (sy_TargetToBlock r).

Definition GetSyncedBlockRangePerContract (db : mdb) : list SyncSegment :=
  fold_left (fun set r => Set_Add set (ToSyncSegment r)) (mb_sync_status db) [].

Definition updateStatus (segment : SyncSegment) : Md unit :=
  if negb (SyncSegment_IsValid segment) then sfail (MErrInvalidSegment segment)
  else
    let br := if BlockRange_IsEmpty (ss_BlockRange segment) then BlockRangeZero else ss_BlockRange segment in
    let! db := sget in
    if existsb (fun r => sy_Address r =? ss_ContractAddr segment) (mb_sync_status db) then
      smodify (set_sync_status (map (fun r =>
        if sy_Address r =? ss_ContractAddr segment
        then mkSyncStatusRow (sy_Address r) (sy_TargetFromBlock r) (sy_TargetToBlock r) (br_FromBlock br) (br_ToBlock br)
        else r)))
    else sfail (MErrNoRowsUpdated (ss_ContractAddr segment)).

Fixpoint UpdateSyncedStatus (segments : list SyncSegment) : Md unit :=
  match segments with
  | [] => sret tt
  | segment :: segments => let! _ := updateStatus segment in UpdateSyncedStatus segments
  end.

Record ContractConfig := mkContractConfig { cf_Address : Z; cf_FromBlock : Z; cf_ToBlock : BlockNumberFinality }.

Definition upsertConfig (rows : list syncStatusRow) (c : ContractConfig) : list syncStatusRow :=
  if existsb (fun r => sy_Address r =? cf_Address c) rows
  then map (fun r => if sy_Address r =? cf_Address c
                     then mkSyncStatusRow (sy_Address r) (cf_FromBlock c) (cf_ToBlock c) (sy_SyncedFromBlock r) (sy_SyncedToBlock r)
                     else r) rows
  else rows ++ [mkSyncStatusRow (cf_Address c) (cf_FromBlock c) (cf_ToBlock c) 0 0].

Definition UpsertSyncerConfigs (configs : list ContractConfig) (db : mdb) : mdb :=
  set_sync_status (fun rows => fold_left upsertConfig configs rows) db.

(** ** Reorgs *)

Definition inAffected (br : BlockRange) (n : Z) : bool := (br_FromBlock br <=? n) && (n <=? br_ToBlock br).

Definition nextReorgID (db : mdb) : Z :=
  match firstBy (fun a b => rd_ReorgID b <? rd_ReorgID a) (mb_reorgs db) with
  | None => 1
  | Some r => rd_ReorgID r +u64 1
  end.

(** The parent hash of a reorged block may not be NULL; the key of the new rows starts with a new reorg. *)
Definition moveReorgedBlocksAndLogs (reorgID : Z) (br : BlockRange) : Md unit :=
  let! db := sget in
  let moved := bfilter (fun r => inAffected br (bl_Number r)) (mb_blocks db) in
  if existsb (fun r => match bl_ParentHash r with None => true | Some _ => false end) moved then sfail MErrConstraint
  else
    smodify (fun db => mkMdb
      (bfilter (fun r => negb (inAffected br (bl_Number r))) (mb_blocks db))
      (bfilter (fun r => negb (inAffected br (lr_BlockNumber r))) (mb_logs db))
      (mb_sync_status db) (mb_reorgs db)
      (mb_blocks_reorged db ++ map (pair reorgID) moved)
      (mb_logs_reorged db ++ map (pair reorgID) (bfilter (fun r => inAffected br (lr_BlockNumber r)) (mb_logs db)))).

Definition adjustSyncStatusForReorg (br : BlockRange) (db : mdb) : mdb :=
  let newSyncedToBlock := if 0 <? br_FromBlock br then br_FromBlock br -u64 1 else 0 in
  set_sync_status (map (fun r =>
    if br_FromBlock br <=? sy_SyncedToBlock r
    then mkSyncStatusRow (sy_Address r) (sy_TargetFromBlock r) (sy_TargetToBlock r) (sy_SyncedFromBlock r) newSyncedToBlock
    else r)) db.

Definition InsertReorgAndMoveReorgedBlocksAndLogs (data : ReorgData) : Md Z :=
  let! db := sget in
  let id := nextReorgID db in
  let row := mkReorgData id (rd_BlockRangeAffected data) (rd_DetectedAtBlock data) (rd_NetworkLatestBlock data) (rd_NetworkFinalizedBlock data) in
  let! _ := smodify (fun db => mkMdb (mb_blocks db) (mb_logs db) (mb_sync_status db) (mb_reorgs db ++ [row])
                                (mb_blocks_reorged db) (mb_logs_reorged db)) in
  let! _ := moveReorgedBlocksAndLogs id (rd_BlockRangeAffected data) in
  let! _ := smodify (adjustSyncStatusForReorg (rd_BlockRangeAffected data)) in
  sret id.

Definition GetReorgedDataByReorgID (db : mdb) (reorgID : Z) : option ReorgData :=
  List.find (fun r => rd_ReorgID r =? reorgID) (mb_reorgs db).

(** The reorg that starts lowest, of those that moved the block away. *)
Definition GetBlockReorgedReorgID (db : mdb) (blockNumber blockHash : Z) : option Z :=
  let rows := bfilter (fun b => (bl_Number (snd b) =? blockNumber) && (bl_Hash (snd b) =? blockHash)) (mb_blocks_reorged db) in
  let joined := flat_map (fun b => map (fun r => (fst b, br_FromBlock (rd_BlockRangeAffected r)))
                                     (bfilter (fun r => rd_ReorgID r =? fst b) (mb_reorgs db))) rows in
  fst <$> firstBy (fun a b => snd a <? snd b) joined.
