(* ===== verification/MultiEngine.v ===== *)
(** The multidownloader ([multidownloader/evm_multidownloader.go]): registration, the state from storage, the safe and
    unsafe steps, the move of blocks to the safe zone, the detection of reorgs and their processing
    ([reorg_processor.go], [reorg_processor_port.go]), and what syncers ask of it ([evm_multidownloader_syncers.go],
    [evm_multidownloader_reorg.go]).

    The answers of the node during one step are a record of functions; a transaction that is not committed leaves the
    tables as they were.  Contexts that end, statistics and the developer mode are left out. *)

From S2P Require Import Prelude BlockRange Finality Tables SyncSegments MultiStorage.

(** ** The node *)

Inductive headerError := HNotFound | HOther.

Record BlockHeadersResult := mkHeadersResult {
  hr_Headers : list (Z * BlockHeader);
  hr_Errors : list (Z * headerError)
}.

(** The data of a node's refusal: too many results, with the range it suggests when one can be read. *)
Inductive logsError := LTooManyResults (suggested : option BlockRange) | LOther.

Record Node := mkNode {
  nd_CurrentBlockNumber : BlockNumberFinality -> option Z;
  nd_RetrieveBlockHeaders : list Z -> option BlockHeadersResult;
  nd_FilterLogs : LogQuery -> result logsError (list EthLog);
  nd_HeaderByNumber : Z -> result headerError BlockHeader;
  nd_HeaderByTag : BlockNumberFinality -> option BlockHeader
}.

Definition hr_lookup (r : BlockHeadersResult) (n : Z) : option BlockHeader :=
  snd <$> List.find (fun p => fst p =? n) (hr_Headers r).

Definition hr_Success (r : BlockHeadersResult) : bool := match hr_Errors r with [] => true | _ => false end.
Definition hr_PartialSuccess (r : BlockHeadersResult) : bool := match hr_Headers r with [] => false | _ => true end.
Definition hr_GetOrderedHeaders (r : BlockHeadersResult) (blockNumbers : list Z) : list BlockHeader := omap (hr_lookup r) blockNumbers.

Definition isNotFound (e : headerError) : bool := match e with HNotFound => true | HOther => false end.
Definition hr_AreAllErrorsNotFound (r : BlockHeadersResult) : bool := forallb (fun p => isNotFound (snd p)) (hr_Errors r).
Definition hr_ListBlocksNumberNotFound (r : BlockHeadersResult) : list Z :=
  merge_sort Z.le (map fst (bfilter (fun p => isNotFound (snd p)) (hr_Errors r))).

(** ** The downloader *)

Record Config := mkConfig { cg_BlockChunkSize : Z; cg_BlockFinality : BlockNumberFinality }.

Record Downloader := mkDownloader {
  md_cfg : Config;
  md_syncersConfig : list SyncerConfig;
  md_state : option State;
  md_db : mdb
}.

Definition set_state (st : State) (dh : Downloader) : Downloader := mkDownloader (md_cfg dh) (md_syncersConfig dh) (Some st) (md_db dh).
Definition set_mdb (db : mdb) (dh : Downloader) : Downloader := mkDownloader (md_cfg dh) (md_syncersConfig dh) (md_state dh) db.

Abbreviation Dh := (eff Downloader mdError).

(** A transaction: committed when its body succeeds, rolled back otherwise. *)
Definition inTransaction {A} (body : Md A) : Dh A := fun dh =>
  match body (md_db dh) with
  | (db, Ok a) => (set_mdb db dh, Ok a)
  | (_, Err e) => (dh, Err e)
  end.

Definition getState : Dh State := fun dh =>
  match md_state dh with Some st => (dh, Ok st) | None => (dh, Err MErrPanic) end.

Definition liftSync {A} (r : result sync_error A) : Dh A := fun dh => match r with Ok a => (dh, Ok a) | Err e => (dh, Err (MErrSync e)) end.
Definition orRPC {A} (o : option A) : Dh A := fun dh => match o with Some a => (dh, Ok a) | None => (dh, Err MErrRPC) end.

(** [Add]: a syncer that registers again replaces its filter. *)
Definition RegisterSyncer (data : SyncerConfig) : Dh unit := fun dh =>
  match md_state dh with
  | Some _ => (dh, Err MErrInitialized)
  | None =>
      (mkDownloader (md_cfg dh)
         (bfilter (fun f => negb (String.eqb (sc_SyncerID f) (sc_SyncerID data))) (md_syncersConfig dh) ++ [data]) None (md_db dh), Ok tt)
  end.

(** The numbers of the tags the syncers target. *)
Definition GetTargetToBlockTags (filters : list SyncerConfig) : list BlockNumberFinality :=
  fold_left (fun tags f => if bool_decide (sc_ToBlock f ∈ tags) then tags else tags ++ [sc_ToBlock f]) filters [].

Definition mapBlockTagToBlockNumber (node : Node) (filters : list SyncerConfig) : option (BlockNumberFinality -> option Z) :=
  let tags := GetTargetToBlockTags filters in
  if forallb (fun t => match nd_CurrentBlockNumber node t with Some _ => true | None => false end) tags
  then Some (fun t => if bool_decide (t ∈ tags) then nd_CurrentBlockNumber node t else None)
  else None.

(** The configuration of each contract: the lowest first block, and the least final target. *)
Definition ContractConfig_Update (c : ContractConfig) (f : SyncerConfig) : ContractConfig :=
  let from := if sc_FromBlock f <? cf_FromBlock c then sc_FromBlock f else cf_FromBlock c in
  match Finality_LessFinalThan (sc_ToBlock f) (cf_ToBlock c) with
  | Ok true => mkContractConfig (cf_Address c) from (sc_ToBlock f)
  | _ => mkContractConfig (cf_Address c) from (cf_ToBlock c)
  end.

Definition addContract (f : SyncerConfig) (configs : list ContractConfig) (addr : Z) : list ContractConfig :=
  if existsb (fun c => cf_Address c =? addr) configs
  then map (fun c => if cf_Address c =? addr then ContractConfig_Update c f else c) configs
  else configs ++ [mkContractConfig addr (sc_FromBlock f) (sc_ToBlock f)].

Definition ContractConfigs (filters : list SyncerConfig) : list ContractConfig :=
  fold_left (fun configs f => fold_left (addContract f) (sc_ContractAddresses f) configs) filters [].

Definition newStateFromStorage (node : Node) : Dh State :=
  let! dh := sget in
  let! mapBlocks := orRPC (mapBlockTagToBlockNumber node (md_syncersConfig dh)) in
  let! syncSegments := liftSync (SyncSegments (md_syncersConfig dh) mapBlocks) in
  liftSync (NewStateFromStorageSyncedBlocks (GetSyncedBlockRangePerContract (md_db dh)) syncSegments).

(** [compatible]: the check of the chain and data version against the database. *)
Definition Initialize (node : Node) (compatible : bool) : Dh unit :=
  let! dh := sget in
  match md_state dh with
  | Some _ => sfail MErrInitialized
  | None =>
      if negb compatible then sfail MErrIncompatible
      else
        let! _ := smodify (fun dh => set_mdb (UpsertSyncerConfigs (ContractConfigs (md_syncersConfig dh)) (md_db dh)) dh) in
        let! st := newStateFromStorage node in
        smodify (set_state st)
  end.

Definition GetFinalizedBlockNumber (node : Node) : Dh Z :=
  let! dh := sget in orRPC (nd_CurrentBlockNumber node (cg_BlockFinality (md_cfg dh))).

(** The code extends the pending ranges in place.  It stops half-way only at a contract without a synced segment, and
    [Initialize] gives every contract of the configuration one. *)
Definition updateTargetBlockNumber (node : Node) : Dh unit :=
  let! dh := sget in
  let! mapBlocks := orRPC (mapBlockTagToBlockNumber node (md_syncersConfig dh)) in
  let! st := getState in
  let! st := liftSync (State_ExtendPendingRange st mapBlocks (md_syncersConfig dh)) in
  smodify (set_state st).

(** ** Reorg detection *)

Definition lookupHeader (headers : list BlockHeader) (n : Z) : option BlockHeader :=
  List.find (fun h => bh_Number h =? n) (rev headers).

Definition blockNumbers (headers : list BlockHeader) : list Z := merge_sort Z.le (map bh_Number headers).

Fixpoint compareHeaders (blocks : list BlockHeader) (rpc : BlockHeadersResult) (numbers : list Z) : result mdError unit :=
  match numbers with
  | [] => Ok tt
  | number :: numbers =>
      match hr_lookup rpc number with
      | None => Err (MErrReorg (mkDetectedReorg number MissingBlock 0 0))
      | Some rpcBlock =>
          match lookupHeader blocks number with
          | None => Err (MErrIntegrity number)
          | Some storageBlock =>
              if negb (bh_Hash storageBlock =? bh_Hash rpcBlock)
              then Err (MErrReorg (mkDetectedReorg (bh_Number storageBlock) BlockHashMismatch (bh_Hash storageBlock) (bh_Hash rpcBlock)))
              else compareHeaders blocks rpc numbers
          end
      end
  end.

Definition detectReorgs (node : Node) (blocks : list BlockHeader) : result mdError unit :=
  match blocks with
  | [] => Ok tt
  | _ =>
      let numbers := blockNumbers blocks in
      match nd_RetrieveBlockHeaders node numbers with
      | None => Err MErrRPC
      | Some rpc =>
          if negb (hr_Success rpc) then
            if hr_AreAllErrorsNotFound rpc then
              match hr_ListBlocksNumberNotFound rpc with
              | n :: _ => Err (MErrReorg (mkDetectedReorg n MissingBlock 0 0))
              | [] => Err MErrPanic
              end
            else Err MErrRPC
          else compareHeaders blocks rpc numbers
      end
  end.

Definition checkReorgsUnsafeZone (node : Node) : Dh unit :=
  let! dh := sget in slift (detectReorgs node (GetBlockHeadersNotFinalized (md_db dh) None)).

Definition moveUnsafeToSafeIfPossible (node : Node) : Dh unit :=
  let! finalizedBlockNumber := GetFinalizedBlockNumber node in
  let! dh := sget in
  let blocks := GetBlockHeadersNotFinalized (md_db dh) (Some finalizedBlockNumber) in
  match blocks with
  | [] => sret tt
  | _ =>
      let! _ := slift (detectReorgs node blocks) in
      smodify (fun dh => set_mdb (UpdateBlockToFinalized (blockNumbers blocks) (md_db dh)) dh)
  end.

(** ** Steps *)

Definition getBlockNumbers (logs : list EthLog) : list Z :=
  fold_left (fun ns l => if existsb (Z.eqb (el_BlockNumber l)) ns then ns else ns ++ [el_BlockNumber l]) logs [].

(** The headers that were answered; an error only when none was. *)
Definition retrievedHeaders (node : Node) (blocks : list Z) : Dh (list BlockHeader) :=
  let! r := orRPC (nd_RetrieveBlockHeaders node blocks) in
  if negb (hr_Success r) && negb (hr_PartialSuccess r) then sfail MErrNoHeaders
  else sret (hr_GetOrderedHeaders r blocks).

Definition storeData (logs : list EthLog) (blocks : list BlockHeader) (updatedSegments : list SyncSegment) (isFinal : bool) : Dh unit :=
  inTransaction (
    let! _ := SaveEthLogsWithHeaders blocks logs isFinal in
    UpdateSyncedStatus updatedSegments).

Definition chunkSizeReductionFactor : Z := 10.
Definition minChunkSize : Z := 1.

(** The loop over the ranges the node suggests.  [suggested] is a pointer that may be nil; the reduced chunk
    size is computed and not used. *)
Fixpoint requestLogs_loop (fuel : nat) (node : Node) (chunkSize : Z) (query : LogQuery) (suggested : option BlockRange)
  : result mdError (list EthLog * LogQuery) :=
  match fuel with
  | O => Err MErrFuel
  | S fuel =>
      match suggested with
      | None => Err MErrPanic
      | Some br =>
          let query := mkLogQuery (lq_Addrs query) br (lq_BlockHash query) in
          match nd_FilterLogs node query with
          | Ok logs => Ok (logs, query)
          | Err LOther => Err MErrRPC
          | Err (LTooManyResults None) => Err MErrPanic
          | Err (LTooManyResults (Some next)) =>
              if BlockRange_Overlaps (lq_BlockRange query) next then requestLogs_loop fuel node chunkSize query (Some next)
              else if chunkSize / chunkSizeReductionFactor <? minChunkSize then Err MErrCannotReduce
              else requestLogs_loop fuel node (chunkSize / chunkSizeReductionFactor) query (Some next)
          end
      end
  end.

Definition getNextQuery (node : Node) (chunk : Z) : Dh LogQuery :=
  let! maxBlock := GetFinalizedBlockNumber node in
  let! st := getState in
  liftSync (State_NextQueryToSync st chunk maxBlock true).

Definition requestLogs (fuel : nat) (node : Node) : Dh (list EthLog * LogQuery) :=
  let! dh := sget in
  let! query := getNextQuery node (cg_BlockChunkSize (md_cfg dh)) in
  slift (requestLogs_loop fuel node (cg_BlockChunkSize (md_cfg dh)) query (Some (lq_BlockRange query))).

Definition is_finished {A} (r : result mdError A) : bool :=
  match r with Err (MErrSync ErrFinished) => true | _ => false end.

(** True when nothing is left to sync. *)
Definition StepSafe (fuel : nat) (node : Node) : Dh bool := fun dh =>
  match requestLogs fuel node dh with
  | (dh, Err e) => if is_finished (A := unit) (Err e) then (dh, Ok true) else (dh, Err e)
  | (dh, Ok (logs, query)) =>
      (let blocks := getBlockNumbers logs in
       let! headers := (match blocks with [] => sret [] | _ => retrievedHeaders node blocks end) in
       let! st := getState in
       let! st := liftSync (State_OnNewSyncedLogQuery (State_Clone st) (Some query)) in
       let! _ := storeData logs headers (Set_SegmentsByContract (st_Synced st) (lq_Addrs query)) true in
       let! _ := smodify (set_state st) in
       sret (State_IsSyncFinished st)) dh
  end.

Definition getUnsafeLogQueries (st : State) (headers : list BlockHeader) : list LogQuery :=
  map (fun h => NewLogQueryBlockHash (bh_Number h) (bh_Hash h) (Set_GetAddressesForBlock (st_Pending st) (bh_Number h))) headers.

Definition requestMultiplesLogs (node : Node) (queries : list LogQuery) : result mdError (list EthLog) :=
  rfold (fun all q => match nd_FilterLogs node q with Ok logs => Ok (all ++ logs) | Err _ => Err MErrRPC end) queries [].

Definition checkIntegrityNewLogsBlockHeaders (logs : list EthLog) (headers : list BlockHeader) : result mdError unit :=
  rforeach (fun l => match lookupHeader headers (el_BlockNumber l) with
    | None => Err (MErrIntegrity (el_BlockNumber l))
    | Some h => if bh_Hash h =? el_BlockHash l then Ok tt else Err (MErrIntegrity (el_BlockNumber l))
    end) logs.

Definition newStateAfterLogQueries (st : State) (queries : list LogQuery) : result sync_error State :=
  rfold (fun st q =>
    let synced := Set_AddLogQuery (st_Synced st) (Some q) in
    let? pending := Set_SubtractLogQuery (st_Pending st) (Some q) in
    Ok (mkState synced pending)) queries (State_Clone st).

(** Sorted, in the code by their text. *)
Definition getContracts (queries : list LogQuery) : list Z :=
  merge_sort Z.le (remove_dups (concat (map lq_Addrs queries))).

(** [listBlocks] is the fuel of the list of the pending blocks. *)
Definition StepUnsafe (listBlocks : nat) (node : Node) : Dh bool :=
  let! st := getState in
  match Set_GetTotalPendingBlockRange (st_Pending st) with
  | None => sret false
  | Some pending =>
      match BlockRange_ListBlockNumbers listBlocks pending with
      | None => sfail MErrFuel
      | Some blocks =>
          let! headers := retrievedHeaders node blocks in
          let queries := getUnsafeLogQueries st headers in
          let! logs := slift (requestMultiplesLogs node queries) in
          let! _ := slift (checkIntegrityNewLogsBlockHeaders logs headers) in
          let! st := liftSync (newStateAfterLogQueries st queries) in
          let! _ := storeData logs headers (Set_SegmentsByContract (st_Synced st) (getContracts queries)) false in
          let! _ := smodify (set_state st) in
          sret (State_IsSyncFinished st)
      end
  end.

(** ** Waiting for a new block *)

Inductive waitPoll := PollHeader (h : option BlockHeader) | PollNumber (n : option Z).

(** One tick; [None]: nothing new. *)
Definition waitTick (last : BlockHeader) (poll : waitPoll) : option (result mdError Z) :=
  match poll with
  | PollHeader None | PollNumber None => Some (Err MErrRPC)
  | PollHeader (Some current) =>
      if (bh_Number current =? bh_Number last) && negb (bh_Hash current =? bh_Hash last)
      then Some (Err (MErrReorg (mkDetectedReorg (bh_Number last) BlockHashMismatch (bh_Hash last) (bh_Hash current))))
      else if (bh_Number current =? bh_Number last +u64 1) &&
              match bh_ParentHash current with Some p => negb (p =? bh_Hash last) | None => false end
      then Some (Err (MErrReorg (mkDetectedReorg (bh_Number last) ParentHashMismatch (bh_Hash last) (default 0 (bh_ParentHash current)))))
      else if bh_Number current <? bh_Number last
      then Some (Err (MErrReorg (mkDetectedReorg (bh_Number last) MissingBlock (bh_Hash last) (bh_Hash current))))
      else if bh_Number last <? bh_Number current then Some (Ok (bh_Number current)) else None
  | PollNumber (Some n) => if bh_Number last <? n then Some (Ok n) else None
  end.

(** [None]: still waiting after the ticks given. *)
Fixpoint waitForNewBlocks (last : BlockHeader) (polls : list waitPoll) : option (result mdError Z) :=
  match polls with
  | [] => None
  | poll :: polls => match waitTick last poll with Some r => Some r | None => waitForNewBlocks last polls end
  end.

(** The header waited for; [true]: finalized. *)
Definition waitFrom (dh : Downloader) (st : State) : BlockHeader * bool :=
  let '(n, _) := State_GetHighestBlockNumberPendingToSync st in
  match GetBlockHeaderByNumber (md_db dh) n with
  | Some (h, finalized) => (h, finalized)
  | None => (mkBlockHeader n 0 0 None, true)
  end.

(** The polls ask for the header only when the block is not final. *)
Definition WaitForNewLatestBlocks (headers : list (option BlockHeader)) (numbers : list (option Z)) (dh : Downloader) (st : State)
  : option (result mdError Z) :=
  let '(last, finalized) := waitFrom dh st in
  waitForNewBlocks last (if finalized : bool then map PollNumber numbers else map PollHeader headers).

(** ** One iteration *)

Inductive stepOutcome := StepSynced (finished : bool) | StepWait.

(** What an iteration does before it waits. *)
Definition StartStep (fuel listBlocks : nat) (node : Node) : Dh stepOutcome :=
  let! _ := updateTargetBlockNumber node in
  let! _ := moveUnsafeToSafeIfPossible node in
  let! _ := checkReorgsUnsafeZone node in
  let! st := getState in
  match Set_GetTotalPendingBlockRange (st_Pending st) with
  | None => sret StepWait
  | Some pending =>
      let! finalizedBlockNumber := GetFinalizedBlockNumber node in
      let '(safe, unsafe) := BlockRange_SplitByBlockNumber pending finalizedBlockNumber in
      if negb (BlockRange_IsEmpty safe) then let! f := StepSafe fuel node in sret (StepSynced f)
      else if negb (BlockRange_IsEmpty unsafe) then let! f := StepUnsafe listBlocks node in sret (StepSynced f)
      else sret StepWait
  end.

(** ** Processing a reorg *)

(** Whether a stored block is on the chain of the node; [None]: neither side knows it or they differ. *)
Definition checkBlocks (storage : option BlockHeader) (rpc : option BlockHeader) : result mdError bool :=
  match storage, rpc with
  | Some s, Some r =>
      if negb (bh_Number s =? bh_Number r) then Err MErrNumberMismatch
      else Ok (bh_Hash s =? bh_Hash r)
  | _, _ => Ok false
  end.

Definition GetBlockStorageAndRPC (node : Node) (db : mdb) (n : Z) : result mdError (option BlockHeader * option BlockHeader) :=
  let storage := fst <$> GetBlockHeaderByNumber db n in
  match nd_HeaderByNumber node n with
  | Ok h => Ok (storage, Some h)
  | Err HNotFound => Ok (storage, None)
  | Err HOther => Err MErrRPC
  end.

Fixpoint findFirstUnaffectedBlock (fuel : nat) (node : Node) (db : mdb) (current : Z) : result mdError Z :=
  match fuel with
  | O => Err MErrFuel
  | S fuel =>
      if current =? 0 then Err MErrGenesis
      else
        let? (storage, rpc) := GetBlockStorageAndRPC node db current in
        let? same := checkBlocks storage rpc in
        if same : bool then Ok current else findFirstUnaffectedBlock fuel node db (current -u64 1)
  end.

Definition ProcessReorg (fuel : nat) (node : Node) (e : DetectedReorgError) (finalizedBlockTag : BlockNumberFinality) : Dh Z :=
  if dr_OffendingBlockNumber e =? 0 then sfail MErrBlockZero
  else
    inTransaction (fun db =>
      match findFirstUnaffectedBlock fuel node db (dr_OffendingBlockNumber e -u64 1) with
      | Err x => (db, Err x)
      | Ok firstUnaffectedBlock =>
          let lastBlockNumberInStorage := GetHighestBlockNumber db in
          match nd_HeaderByTag node LatestBlock, nd_HeaderByTag node finalizedBlockTag with
          | Some latest, Some finalized =>
              InsertReorgAndMoveReorgedBlocksAndLogs
                (mkReorgData 0 (NewBlockRange (firstUnaffectedBlock +u64 1) lastBlockNumberInStorage) (dr_OffendingBlockNumber e)
                   (bh_Number latest) (bh_Number finalized)) db
          | _, _ => (db, Err MErrRPC)
          end
      end).

(** One pass of the inner loop of [Start] after a detected reorg: it is repeated until it succeeds. *)
Definition handleReorg (fuel : nat) (node : Node) (e : DetectedReorgError) : Dh unit :=
  let! dh := sget in
  let! _ := ProcessReorg fuel node e (cg_BlockFinality (md_cfg dh)) in
  let! st := newStateFromStorage node in
  smodify (set_state st).

(** ** What syncers ask *)

(** [None]: the caller waits. *)
Definition FilterLogs (dh : Downloader) (query : LogQuery) : result mdError (option (list EthLog)) :=
  match md_state dh with
  | None => Err MErrNotInitialized
  | Some st =>
      if State_IsAvailable st query then let? logs := GetEthLogs (md_db dh) query in Ok (Some logs) else Ok None
  end.

Definition Dh_LogQuery (node : Node) (dh : Downloader) (query : LogQuery) : result mdError LogQueryResponse :=
  match md_state dh with
  | None => Err MErrNotInitialized
  | Some st =>
      match State_IsPartiallyAvailable st query with
      | None => Err MErrNotSynced
      | Some avail =>
          match nd_CurrentBlockNumber node (cg_BlockFinality (md_cfg dh)) with
          | None => Err MErrRPC
          | Some finalizedBlockNumber =>
              let? r := Storage_LogQuery (md_db dh) avail in
              Ok (mkLogQueryResponse (lp_Blocks r) (lp_ResponseRange r)
                    (snd (BlockRange_SplitByBlockNumber (lp_ResponseRange r) finalizedBlockNumber)))
          end
      end
  end.

(** From the tables, or from the node. *)
Definition Dh_HeaderByNumber (node : Node) (dh : Downloader) (number : option BlockNumberFinality) : result mdError BlockHeader :=
  match nd_CurrentBlockNumber node (default LatestBlock number) with
  | None => Err MErrRPC
  | Some n =>
      match GetBlockHeaderByNumber (md_db dh) n with
      | Some (h, _) => Ok h
      | None => match nd_HeaderByNumber node n with Ok h => Ok h | Err _ => Err MErrRPC end
      end
  end.

Definition StorageHeaderByNumber (node : Node) (dh : Downloader) (number : option BlockNumberFinality)
  : result mdError (option (BlockHeader * bool)) :=
  match nd_CurrentBlockNumber node (default LatestBlock number) with
  | None => Err MErrRPC
  | Some n => Ok (GetBlockHeaderByNumber (md_db dh) n)
  end.

Inductive blockVerdict := BlockValid | BlockReorged (reorgID : Z).

Definition checkValidBlockAgainstL1 (node : Node) (dh : Downloader) (blockNumber blockHash : Z) : result mdError blockVerdict :=
  match nd_CurrentBlockNumber node (cg_BlockFinality (md_cfg dh)) with
  | None => Err MErrRPC
  | Some finalizedBlockNumber =>
      if finalizedBlockNumber <? blockNumber then Err MErrAboveFinalized
      else match nd_HeaderByNumber node blockNumber with
           | Err _ => Err MErrRPC
           | Ok h => if bh_Hash h =? blockHash then Ok BlockValid else Err MErrNotCanonical
           end
  end.

Definition CheckValidBlock (node : Node) (dh : Downloader) (blockNumber blockHash : Z) : result mdError blockVerdict :=
  let stored := fst <$> GetBlockHeaderByNumber (md_db dh) blockNumber in
  if match stored with Some h => bh_Hash h =? blockHash | None => false end then Ok BlockValid
  else
    match GetBlockReorgedReorgID (md_db dh) blockNumber blockHash with
    | Some reorgID => Ok (BlockReorged reorgID)
    | None =>
        match stored with
        | Some _ => Err MErrOtherStored
        | None => checkValidBlockAgainstL1 node dh blockNumber blockHash
        end
    end.
