(* ===== verification/MultiProofs.v ===== *)
(** The theorems on the multidownloader ([MultiStorage.v], [MultiEngine.v]): whatever steps and reorgs happened, a query
    that is available returns the logs of the chain. *)

From S2P Require Import Prelude BlockRange Finality Tables SyncSegments MultiStorage MultiEngine.

Lemma rfold_inv {E A S} (P : S -> Prop) (body : S -> A -> result E S) l s s' :
  P s -> (forall s a s', a ∈ l -> P s -> body s a = Ok s' -> P s') -> rfold body l s = Ok s' -> P s'.
Proof.
  revert s. induction l as [|a l IH]; intros s Hs Hstep; cbn; [by intros [= <-]|].
  destruct (body s a) as [s1|] eqn:E1; cbn; [|done]. apply IH; [apply (Hstep s a s1); [by constructor | done..]|].
  intros s2 b s3 Hb. apply Hstep. by constructor.
Qed.

(** ** The sets of segments, by the blocks they cover *)

(** [start a]: the first block the syncers of contract [a] ask for. *)
Section Segments.
Context (start : Z -> Z).

(** Synced blocks come before pending ones, no block the syncers ask for lies between, and whatever is synced or
    pending reaches down to the first block asked for. *)
Record linked (st : State) : Prop := {
  lk_synced_wf : set_wf (st_Synced st);
  lk_pending_wf : set_wf (st_Pending st);
  lk_before : forall a s p, covered (st_Synced st) a s -> covered (st_Pending st) a p -> s < p;
  lk_between : forall a s p k, covered (st_Synced st) a s -> covered (st_Pending st) a p -> s < k < p -> start a <= k ->
    covered (st_Synced st) a k \/ covered (st_Pending st) a k;
  lk_synced_start : forall a s, covered (st_Synced st) a s -> exists m, m <= start a /\ covered (st_Synced st) a m;
  lk_pending_start : forall a p, covered (st_Pending st) a p -> (forall s, ~ covered (st_Synced st) a s) ->
    exists m, m <= start a /\ covered (st_Pending st) a m;
  lk_low : forall a p, covered (st_Pending st) a p -> 1 <= p
}.

(** Coverage is an interval. *)
Lemma covered_convex f a x y k : covered f a x -> covered f a y -> x <= k <= y -> covered f a k.
Proof. intros (b & Hb & Hx1 & Hx2) (b' & Hb' & Hy1 & Hy2) Hk. rewrite Hb in Hb'. injection Hb' as <-. exists b. split; [done|]. split; [done|]. lia. Qed.

#[local] Instance covered_dec f a n : Decision (covered f a n).
Proof.
  unfold covered. destruct (range_of f a) as [b|] eqn:E; [|right; by intros (? & ? & _)].
  destruct (decide (br_isNotEmpty b = true /\ br_FromBlock b <= n <= br_ToBlock b)) as [H|H]; [left; by exists b|].
  right. intros (b' & [= <-] & Hb). by apply H.
Defined.

#[local] Instance covered_any_dec f a : Decision (exists n, covered f a n).
Proof.
  destruct (range_of f a) as [b|] eqn:E; [destruct (BlockRange_IsEmpty b) eqn:Eb|].
  - right. intros (n & b' & Hb' & Hn). rewrite E in Hb'. injection Hb' as <-. rewrite BlockRange_IsEmpty_true in Eb. by apply Eb in Hn.
  - left. apply BlockRange_IsEmpty_false in Eb as [H1 H2]. exists (br_FromBlock b), b. split; [done|]. split; [done | lia].
  - right. intros (n & b' & Hb' & _). congruence.
Defined.

(** The queries of a step: non-empty, for contracts with pending blocks, none of them before the query. *)
Definition query_ok (st : State) (q : LogQuery) : Prop :=
  BlockRange_IsEmpty (lq_BlockRange q) = false /\ br_wf (lq_BlockRange q) /\
  forall a, a ∈ lq_Addrs q -> (exists p, covered (st_Pending st) a p) /\
    forall p, covered (st_Pending st) a p -> br_FromBlock (lq_BlockRange q) <= p.

(** Where the synced range of a contract goes when a query is added. *)
Lemma AddLogQuery_cases f q a n :
  BlockRange_IsEmpty (lq_BlockRange q) = false -> covered (Set_AddLogQuery f (Some q)) a n ->
  covered f a n \/ (a ∈ lq_Addrs q /\
    (br_in n (lq_BlockRange q) \/
     (exists s, covered f a s /\ s < n < br_FromBlock (lq_BlockRange q)) \/
     (exists s, covered f a s /\ br_ToBlock (lq_BlockRange q) < n < s /\ forall s', covered f a s' -> n < s'))).
Proof.
  intros Hq (br & Hr & Hn). unfold Set_AddLogQuery in Hr. rewrite fold_LogQuery_range in Hr.
  destruct (bool_decide_reflect (a ∈ lq_Addrs q)) as [Ha|Ha]; [|left; by exists br].
  injection Hr as <-. destruct (range_of f a) as [b|] eqn:Eb; [|right; split; [done | by left]].
  unfold BlockRange_Extend in Hn. destruct (BlockRange_IsEmpty b) eqn:Ee; [right; split; [done | by left]|].
  rewrite Hq in Hn. apply br_in_New in Hn. pose proof Hq as Hq'. apply BlockRange_IsEmpty_false in Ee as [Hb1 Hb2], Hq' as [Hq1 Hq2].
  pose proof (fun n => covered_Some f a n b Eb) as Hcov. unfold br_in in Hcov.
  destruct (Z.le_gt_cases (br_FromBlock b) n) as [H1|H1]; [destruct (Z.le_gt_cases n (br_ToBlock b)) as [H2|H2]|].
  - left. apply Hcov. auto.
  - right. split; [done|]. destruct (Z.lt_ge_cases n (br_FromBlock (lq_BlockRange q))) as [H3|H3].
    + right; left. exists (br_ToBlock b). split; [apply Hcov; split; [done | lia] | lia].
    + left. split; [done | lia].
  - right. split; [done|]. destruct (Z.le_gt_cases n (br_ToBlock (lq_BlockRange q))) as [H3|H3].
    + left. split; [done | lia].
    + right; right. exists (br_FromBlock b). split; [apply Hcov; split; [done | lia]|]. split; [lia|].
      intros s' Hs'. apply Hcov in Hs'. lia.
Qed.

(** A query of a step adds its own blocks, as far as the syncers ask. *)
Lemma query_covers st q a n :
  linked st -> query_ok st q -> covered (Set_AddLogQuery (st_Synced st) (Some q)) a n -> start a <= n ->
  covered (st_Synced st) a n \/ (a ∈ lq_Addrs q /\ br_in n (lq_BlockRange q)).
Proof.
  intros Hl (Hne & _ & Hq) Hn Hs. apply AddLogQuery_cases in Hn; [|done].
  destruct Hn as [?|[Ha [?|[(s & Hsc & Hlt)|(s & Hsc & Hgt & Hmin)]]]]; [by left | by right| |].
  - destruct (Hq a Ha) as [[p Hp] Hmin]. specialize (Hmin p Hp). left.
    destruct (lk_between st Hl a s p n Hsc Hp ltac:(lia) Hs) as [?|Hpn]; [done|]. destruct (Hq a Ha) as [_ Hmin'].
    specialize (Hmin' n Hpn). lia.
  - destruct (lk_synced_start st Hl a s Hsc) as (m & Hm & Hmc). specialize (Hmin m Hmc). lia.
Qed.

Lemma query_linked st q pending' :
  linked st -> query_ok st q -> Set_SubtractLogQuery (st_Pending st) (Some q) = Ok pending' ->
  linked (mkState (Set_AddLogQuery (st_Synced st) (Some q)) pending') /\
  forall a p, covered pending' a p <-> covered (st_Pending st) a p /\ ~ (a ∈ lq_Addrs q /\ br_in p (lq_BlockRange q)).
Proof.
  intros Hl Hqo H. pose proof Hqo as (Hne & Hwf & Hq). pose proof Hne as Hne'. apply BlockRange_IsEmpty_false in Hne' as [Hq1 Hq2].
  unfold Set_SubtractLogQuery, Set_SubtractSegments in H. rewrite Clone_id in H by apply (lk_pending_wf st Hl).
  destruct (SubtractSegments_covered _ _ _ (lk_pending_wf st Hl) (proj2 (NewSetFromLogQuery_wf q Hwf)) H) as (Hpw & _ & Hcov).
  assert (Hp' : forall a p, covered pending' a p <-> covered (st_Pending st) a p /\ ~ (a ∈ lq_Addrs q /\ br_in p (lq_BlockRange q))).
  { intros a p. by rewrite Hcov, NewSetFromLogQuery_Exists. }
  split; [|done].
  assert (Hbefore : forall a s p, covered (Set_AddLogQuery (st_Synced st) (Some q)) a s -> covered pending' a p -> s < p).
  { intros a s p Hs Hp. apply Hp' in Hp as [Hp Hout]. apply AddLogQuery_cases in Hs; [|done].
    destruct Hs as [Hs|[Ha Hs]]; [by eapply (lk_before st Hl)|]. destruct (Hq a Ha) as [_ Hmin]. pose proof (Hmin p Hp) as Hfp.
    destruct Hs as [Hs|[(s0 & Hs0 & Hlt)|(s0 & Hs0 & Hgt & _)]].
    - destruct (Z.le_gt_cases p (br_ToBlock (lq_BlockRange q))) as [Hle|Hgt]; [|destruct Hs; lia].
      exfalso. apply Hout. split; [done|]. split; [done | lia].
    - lia.
    - pose proof (lk_before st Hl a s0 p Hs0 Hp). lia. }
  split; cbn [st_Synced st_Pending].
  - apply fold_LogQuery_wf; [apply (lk_synced_wf st Hl) | done].
  - done.
  - done.
  - intros a s p k Hs Hp Hk Hst. destruct (decide (covered (Set_AddLogQuery (st_Synced st) (Some q)) a k)) as [?|Hnk]; [by left|]. right.
    pose proof Hp as Hp0. apply Hp' in Hp as [Hp Hout].
    assert (Hnq : ~ (a ∈ lq_Addrs q /\ br_in k (lq_BlockRange q))).
    { intros [Ha Hkq]. apply Hnk. by apply AddLogQuery_query. }
    apply Hp'. split; [|done].
    destruct (decide (exists s0, covered (st_Synced st) a s0)) as [[s0 Hs0]|Hno].
    + assert (Hs0k : s0 < k).
      { destruct (Z.lt_ge_cases s0 k); [done|]. exfalso. apply Hnk. apply (covered_convex _ a s s0); [done | by apply AddLogQuery_covered | lia]. }
      destruct (lk_between st Hl a s0 p k Hs0 Hp ltac:(lia) Hst) as [Hc|?]; [|done]. exfalso. by apply Hnk, AddLogQuery_covered.
    + destruct (lk_pending_start st Hl a p Hp) as (m & Hm & Hmc); [intros s' Hs'; apply Hno; by exists s'|].
      apply (covered_convex _ a m p); [done | done | lia].
  - intros a s Hs. destruct (decide (exists s0, covered (st_Synced st) a s0)) as [[s0 Hs0]|Hno].
    + destruct (lk_synced_start st Hl a s0 Hs0) as (m & Hm & Hmc). exists m. split; [done | by apply AddLogQuery_covered].
    + apply AddLogQuery_cases in Hs; [|done]. destruct Hs as [Hs|[Ha _]]; [exfalso; apply Hno; by exists s|].
      destruct (Hq a Ha) as [[p Hp] Hmin]. destruct (lk_pending_start st Hl a p Hp) as (m & Hm & Hmc); [intros s' Hs'; apply Hno; by exists s'|].
      exists (br_FromBlock (lq_BlockRange q)). split; [specialize (Hmin m Hmc); lia|]. apply AddLogQuery_query; [done|]. split; [done | lia].
  - intros a p Hp Hno. apply Hp' in Hp as [Hp Hout].
    destruct (decide (a ∈ lq_Addrs q)) as [Ha|Ha].
    + exfalso. apply (Hno (br_FromBlock (lq_BlockRange q))). apply AddLogQuery_query; [done|]. split; [done | lia].
    + destruct (lk_pending_start st Hl a p Hp) as (m & Hm & Hmc); [intros s' Hs'; apply (Hno s'); by apply AddLogQuery_covered|].
      exists m. split; [done|]. apply Hp'. split; [done | by intros [? _]].
  - intros a p Hp. apply Hp' in Hp as [Hp _]. by apply (lk_low st Hl a).
Qed.

(** *** The targets *)

Definition starts_at (filters : list SyncerConfig) : Prop :=
  Forall (fun f => Forall (fun a => sc_FromBlock f = start a) (sc_ContractAddresses f)) filters.

Context (start_range : forall a, 1 <= start a < pow2_64).

Definition from_start (f : list SyncSegment) : Prop :=
  set_wf f /\ forall a br, range_of f a = Some br -> br_FromBlock br = start a /\ br_isNotEmpty br = true.

Lemma SyncSegments_from_start filters blocks segs :
  starts_at filters -> (forall t n, blocks t = Some n -> is_u64 n) -> SyncSegments filters blocks = Ok segs -> from_start segs.
Proof.
  intros Hs Hn H. unfold SyncSegments in H. revert H. apply rfold_inv.
  { split; [split; [apply NoDup_nil_2 | constructor]|]. done. }
  intros segs0 f segs1 Hf Hsegs0. apply rfold_inv; [done|]. clear segs Hsegs0.
  intros segs a segs' Ha [Hw Hr]. destruct (blocks (sc_ToBlock f)) as [to|] eqn:Eb; [|done]. intros [= <-].
  unfold starts_at in Hs. rewrite Forall_forall in Hs. specialize (Hs f Hf). rewrite Forall_forall in Hs. specialize (Hs a Ha).
  specialize (Hn _ _ Eb). rewrite Hs. split.
  - apply Add_wf; [done|]. split; [|done]. specialize (start_range a). cbn. unfold_words. lia.
  - intros a' br. rewrite Add_range. cbn [ss_ContractAddr ss_BlockRange]. destruct (a' =? a) eqn:E; bool_hyps; [|apply Hr]. subst a'.
    intros [= <-]. destruct (range_of segs a) as [b|] eqn:Er; [|done]. destruct (Hr a b Er) as [H1 H2].
    unfold BlockRange_Extend. destruct (BlockRange_IsEmpty b); [done|]. destruct (BlockRange_IsEmpty (NewBlockRange (start a) to)); [done|].
    cbn. split; [lia | done].
Qed.

Lemma from_start_segment f s : from_start f -> s ∈ f -> br_FromBlock (ss_BlockRange s) = start (ss_ContractAddr s) /\ br_isNotEmpty (ss_BlockRange s) = true /\ br_wf (ss_BlockRange s).
Proof.
  intros [[Hnd Hw] Hr] Hs. pose proof (GetByContract_NoDup f s Hnd ltac:(by apply list_elem_of_In)) as Hg.
  destruct (Hr (ss_ContractAddr s) (ss_BlockRange s)) as [H1 H2]; [unfold range_of; by rewrite Hg|].
  split; [done|]. split; [done|]. rewrite Forall_forall in Hw. by apply Hw.
Qed.

(** What is added to the pending range of a contract: the target after what is synced. *)
Lemma target_piece b s sub0 rest :
  br_wf b -> br_wf s -> BlockRange_IsEmpty b = false -> (BlockRange_IsEmpty s = false -> br_FromBlock s <= br_FromBlock b) ->
  BlockRange_Subtract b s = sub0 :: rest ->
  br_isNotEmpty sub0 = true /\ br_wf sub0 /\ br_FromBlock b <= br_FromBlock sub0 <= br_ToBlock sub0 /\ br_ToBlock sub0 = br_ToBlock b /\
  (BlockRange_IsEmpty s = true -> sub0 = b) /\
  (BlockRange_IsEmpty s = false -> br_ToBlock s < br_FromBlock sub0 /\ forall k, br_ToBlock s < k -> br_FromBlock b <= k -> br_FromBlock sub0 <= k).
Proof.
  intros Hb Hs Hne Hfrom. pose proof Hne as Hne'. apply BlockRange_IsEmpty_false in Hne' as [H1 H2].
  unfold BlockRange_Subtract. destruct (BlockRange_Overlaps b s) eqn:Eo; cbn [negb].
  - apply BlockRange_Overlaps_bounds in Eo as (_ & H3 & _ & H4 & H5 & H6).
    assert (Es : BlockRange_IsEmpty s = false) by by apply BlockRange_IsEmpty_false. specialize (Hfrom Es).
    rewrite (proj2 (Z.ltb_ge _ _)) by lia. cbn [app]. destruct (br_ToBlock s <? br_ToBlock b) eqn:Et; [|done]. bool_hyps.
    intros [= <- <-]. destruct Hb, Hs. cbn. rewrite (add64_small (br_ToBlock s) 1) by (unfold_words; lia).
    split; [done|]. split; [split; cbn; unfold_words; lia|]. split; [lia|]. split; [done|]. split; [congruence|]. intros _. split; [lia|]. intros; lia.
  - intros [= <- <-]. split; [done|]. split; [done|]. split; [lia|]. split; [done|]. split; [done|]. intros Es. specialize (Hfrom Es).
    unfold BlockRange_Overlaps in Eo. rewrite Hne, Es in Eo. cbn in Eo. apply andb_false_iff in Eo as [Eo|Eo]; bool_hyps; [split; intros; lia | lia].
Qed.

Lemma Add_covered f s a n :
  covered (Set_Add f s) a n <->
  if a =? ss_ContractAddr s
  then br_in n (match range_of f a with None => ss_BlockRange s | Some br => BlockRange_Extend br (ss_BlockRange s) end)
  else covered f a n.
Proof.
  unfold covered. rewrite Add_range. destruct (a =? ss_ContractAddr s); [|done]. split; [by intros (? & [= <-] & ?) | by eexists].
Qed.

Lemma extend_linked st seg synced sub0 rest :
  linked st -> br_FromBlock (ss_BlockRange seg) = start (ss_ContractAddr seg) -> br_wf (ss_BlockRange seg) ->
  BlockRange_IsEmpty (ss_BlockRange seg) = false ->
  Set_GetByContract (st_Synced st) (ss_ContractAddr seg) = Some synced ->
  BlockRange_Subtract (ss_BlockRange seg) (ss_BlockRange synced) = sub0 :: rest ->
  linked (mkState (st_Synced st) (Set_Add (st_Pending st) (SyncSegment_NewBlockRange seg sub0))).
Proof.
  intros Hl Hfrom Hwf Hne Hsy Hsub. set (a0 := ss_ContractAddr seg) in *.
  assert (Hr : range_of (st_Synced st) a0 = Some (ss_BlockRange synced)) by (unfold range_of; by rewrite Hsy).
  pose proof (fun n => covered_Some (st_Synced st) a0 n _ Hr) as HcS. pose proof (range_of_wf _ _ _ (lk_synced_wf st Hl) Hr) as HsW.
  assert (HsF : BlockRange_IsEmpty (ss_BlockRange synced) = false -> br_FromBlock (ss_BlockRange synced) <= br_FromBlock (ss_BlockRange seg)).
  { intros Es. apply BlockRange_IsEmpty_false in Es as [H1 H2].
    destruct (lk_synced_start st Hl a0 (br_FromBlock (ss_BlockRange synced))) as (m & Hm & Hmc); [apply HcS; split; [done | lia]|].
    apply HcS in Hmc as [_ Hmc]. lia. }
  destruct (target_piece _ _ _ _ Hwf HsW Hne HsF Hsub) as (P1 & P2 & P3 & P4 & P5 & P6).
  assert (HP : forall a n, covered (Set_Add (st_Pending st) (SyncSegment_NewBlockRange seg sub0)) a n ->
    covered (st_Pending st) a n \/ (a = a0 /\ (br_in n sub0 \/ exists x y, covered (st_Pending st) a x /\ br_in y sub0 /\ (x < n < y \/ y < n < x)))).
  { intros a n. rewrite Add_covered. cbn [ss_ContractAddr SyncSegment_NewBlockRange ss_BlockRange]. fold a0. destruct (a =? a0) eqn:Ea; bool_hyps; [subst a|by left].
    destruct (range_of (st_Pending st) a0) as [b|] eqn:Eb; [|by auto]. unfold BlockRange_Extend.
    destruct (BlockRange_IsEmpty b) eqn:Ebe; [by auto|]. destruct (BlockRange_IsEmpty sub0) eqn:Ese.
    { intros Hn. left. by exists b. }
    apply BlockRange_IsEmpty_false in Ebe as [B1 B2]. intros Hn. apply br_in_New in Hn. pose proof (fun n => covered_Some _ a0 n b Eb) as HcP.
    destruct (decide (br_FromBlock b <= n <= br_ToBlock b)); [left; apply HcP; by split|].
    right. split; [done|]. destruct (decide (br_FromBlock sub0 <= n <= br_ToBlock sub0)); [left; by split|]. right.
    destruct (Z.lt_ge_cases n (br_FromBlock b)).
    - exists (br_FromBlock b), (br_ToBlock sub0). split; [apply HcP; split; [done | lia]|]. split; [split; [done | lia] | lia].
    - exists (br_ToBlock b), (br_FromBlock sub0). split; [apply HcP; split; [done | lia]|]. split; [split; [done | lia] | lia]. }
  assert (HPold : forall a n, covered (st_Pending st) a n -> covered (Set_Add (st_Pending st) (SyncSegment_NewBlockRange seg sub0)) a n).
  { intros a n (b & Hb & Hn). rewrite Add_covered. cbn [ss_ContractAddr SyncSegment_NewBlockRange ss_BlockRange]. fold a0. destruct (a =? a0); [|by exists b]. rewrite Hb.
    unfold BlockRange_Extend. destruct (BlockRange_IsEmpty b) eqn:Ebe; [rewrite BlockRange_IsEmpty_true in Ebe; by apply Ebe in Hn|].
    destruct (BlockRange_IsEmpty sub0); [done|]. apply br_in_New. destruct Hn. lia. }
  assert (HPnew : forall n, br_in n sub0 -> covered (Set_Add (st_Pending st) (SyncSegment_NewBlockRange seg sub0)) a0 n).
  { intros n Hn. rewrite Add_covered. cbn [ss_ContractAddr SyncSegment_NewBlockRange ss_BlockRange]. fold a0. rewrite Z.eqb_refl. destruct (range_of (st_Pending st) a0) as [b|]; [|done].
    unfold BlockRange_Extend. destruct (BlockRange_IsEmpty b); [done|]. rewrite (proj2 (BlockRange_IsEmpty_false sub0)) by (split; [done | lia]).
    apply br_in_New. destruct Hn. lia. }
  assert (Hafter : forall s y, covered (st_Synced st) a0 s -> br_in y sub0 -> s < y).
  { intros s y Hs [_ Hy]. apply HcS in Hs as [S1 S2]. destruct P6 as [P6 _]; [apply BlockRange_IsEmpty_false; split; [done | lia]|]. lia. }
  split; cbn [st_Synced st_Pending].
  - apply (lk_synced_wf st Hl).
  - apply Add_wf; [apply (lk_pending_wf st Hl) | done].
  - intros a s p Hs Hp. apply HP in Hp as [Hp|[-> [Hp|(x & y & Hx & Hy & Hxy)]]]; [by eapply (lk_before st Hl) | by eapply Hafter|].
    pose proof (lk_before st Hl a0 s x Hs Hx). pose proof (Hafter s y Hs Hy). lia.
  - intros a s p k Hs Hp Hk Hst. destruct (decide (a = a0)) as [->|Hna].
    + destruct (decide (covered (st_Synced st) a0 k)) as [?|Hnk]; [by left|]. right.
      pose proof Hs as Hs'. apply HcS in Hs' as [S1 S2].
      destruct P6 as [P6 P7]; [apply BlockRange_IsEmpty_false; split; [done | lia]|].
      assert (br_ToBlock (ss_BlockRange synced) < k).
      { destruct (Z.lt_ge_cases (br_ToBlock (ss_BlockRange synced)) k); [done|]. exfalso. apply Hnk, HcS. split; [done | lia]. }
      pose proof (P7 k ltac:(lia) ltac:(lia)).
      apply (covered_convex _ a0 (br_FromBlock sub0) p); [apply HPnew; split; [done | lia] | done | lia].
    + apply HP in Hp as [Hp|[? _]]; [|done]. destruct (lk_between st Hl a s p k Hs Hp Hk Hst) as [?|?]; [by left | right; by apply HPold].
  - apply (lk_synced_start st Hl).
  - intros a p Hp Hno. destruct (decide (a = a0)) as [->|Hna].
    + exists (br_FromBlock sub0). assert (Ee : BlockRange_IsEmpty (ss_BlockRange synced) = true).
      { apply BlockRange_IsEmpty_true. intros n Hn. apply (Hno n). by apply HcS. }
      pose proof (f_equal br_FromBlock (P5 Ee)). split; [lia|]. apply HPnew. split; [done | lia].
    + apply HP in Hp as [Hp|[? _]]; [|done]. destruct (lk_pending_start st Hl a p Hp Hno) as (m & Hm & Hmc). exists m. split; [done | by apply HPold].
  - intros a p Hp. pose proof (start_range a0). apply HP in Hp as [Hp|[-> [[_ Hp]|(x & y & Hx & [_ Hy] & Hxy)]]]; [by apply (lk_low st Hl a) | lia|].
    pose proof (lk_low st Hl a0 x Hx). lia.
Qed.

Lemma ExtendPendingRange_linked st blocks filters st' :
  linked st -> starts_at filters -> (forall t n, blocks t = Some n -> is_u64 n) ->
  State_ExtendPendingRange st blocks filters = Ok st' -> linked st' /\ st_Synced st' = st_Synced st.
Proof.
  intros Hl Hs Hn H. unfold State_ExtendPendingRange in H. inv_ok H as segs Hsegs.
  pose proof (SyncSegments_from_start _ _ _ Hs Hn Hsegs) as Hfs. revert H.
  apply (rfold_inv (fun x => linked x /\ st_Synced x = st_Synced st)); [done|].
  intros x seg x' Hseg [Hx Hxs]. destruct (from_start_segment _ _ Hfs Hseg) as (F1 & F2 & F3).
  destruct (BlockRange_IsEmpty (ss_BlockRange seg)) eqn:Ee; [by intros [= <-]|].
  destruct (Set_GetByContract (st_Synced x) (ss_ContractAddr seg)) as [synced|] eqn:Eg; [|done].
  destruct (BlockRange_Subtract _ _) as [|sub0 rest] eqn:Esub; [by intros [= <-]|]. intros [= <-]. split; [|done].
  by apply (extend_linked x seg synced sub0 rest).
Qed.

Lemma fromStorage_linked synced segs st :
  set_wf synced -> (forall a s, covered synced a s -> exists m, m <= start a /\ covered synced a m) -> from_start segs ->
  NewStateFromStorageSyncedBlocks synced segs = Ok st -> linked st /\ st_Synced st = synced.
Proof.
  intros Hw Hst [Hsw Hfs] H. unfold NewStateFromStorageSyncedBlocks in H. inv_ok H as pending Hp. injection H as <-. split; [|done].
  unfold Set_SubtractSegments in Hp. rewrite Clone_id in Hp by apply Hsw.
  destruct (SubtractSegments_covered _ _ _ Hsw (proj2 Hw) Hp) as (Hpw & _ & Hcov).
  assert (Hsyn : forall a n, Exists (fun s => a = ss_ContractAddr s /\ br_in n (ss_BlockRange s)) synced <-> covered synced a n).
  { intros a n. rewrite Exists_exists. split.
    - intros (s & Hs & -> & Hn). exists (ss_BlockRange s). split; [|done]. unfold range_of.
      by rewrite (GetByContract_NoDup _ _ (proj1 Hw) ltac:(by apply list_elem_of_In)).
    - intros (b & Hb & Hn). unfold range_of in Hb. apply fmap_Some in Hb as (s & Hs & ->). exists s. split; [apply list_elem_of_In; by eapply GetByContract_In|].
      split; [symmetry; by eapply GetByContract_addr | done]. }
  assert (HT : forall a p, covered segs a p -> start a <= p /\ forall k, start a <= k <= p -> covered segs a k).
  { intros a p (b & Hb & Hp1 & Hp2). destruct (Hfs a b Hb) as [F1 F2]. split; [lia|]. intros k Hk. exists b. split; [done|]. split; [done | lia]. }
  assert (HP : forall a p, covered pending a p <-> covered segs a p /\ ~ covered synced a p) by (intros a p; by rewrite Hcov, Hsyn).
  split; cbn [st_Synced st_Pending]; try done.
  - intros a s p Hs Hpp. apply HP in Hpp as [Ht Hn]. destruct (Hst a s Hs) as (m & Hm & Hmc). destruct (HT a p Ht) as [Hsp _].
    destruct (Z.lt_ge_cases s p); [done|]. exfalso. apply Hn. apply (covered_convex _ a m s); [done | done | lia].
  - intros a s p k Hs Hpp Hk Hsk. apply HP in Hpp as [Ht Hn]. destruct (decide (covered synced a k)); [by left|]. right. apply HP. split; [|done].
    destruct (HT a p Ht) as [_ HT']. apply HT'. lia.
  - intros a p Hpp Hno. apply HP in Hpp as [Ht Hn]. destruct (HT a p Ht) as [Hsp HT']. exists (start a). split; [lia|]. apply HP.
    split; [apply HT'; lia | by apply Hno].
  - intros a p Hpp. apply HP in Hpp as [Ht _]. destruct (HT a p Ht) as [Hsp _]. specialize (start_range a). lia.
Qed.

End Segments.

(** ** The synced ranges of the tables *)

Definition row_range (r : syncStatusRow) : BlockRange := ss_BlockRange (ToSyncSegment r).

Lemma GetSynced_map db : NoDup (map sy_Address (mb_sync_status db)) -> GetSyncedBlockRangePerContract db = map ToSyncSegment (mb_sync_status db).
Proof.
  intros Hnd. unfold GetSyncedBlockRangePerContract.
  assert (E : forall rows acc, fold_left (fun set r => Set_Add set (ToSyncSegment r)) rows acc = fold_left Set_Add (map ToSyncSegment rows) acc).
  { induction rows as [|r rows IH]; intros acc; cbn; [done | apply IH]. }
  rewrite E, fold_Add_fresh; [done|]. cbn [app]. unfold Set_GetContracts. by rewrite map_map.
Qed.

Lemma GetSynced_wf db :
  NoDup (map sy_Address (mb_sync_status db)) ->
  Forall (fun r => is_u64 (sy_SyncedFromBlock r) /\ is_u64 (sy_SyncedToBlock r)) (mb_sync_status db) ->
  set_wf (GetSyncedBlockRangePerContract db).
Proof.
  intros Hnd Hw. rewrite (GetSynced_map db Hnd). split; [unfold Set_GetContracts; by rewrite map_map|].
  apply Forall_map. eapply Forall_impl; [exact Hw|]. intros r [H1 H2]. unfold ToSyncSegment. cbn. destruct (_ && _); [apply BlockRangeZero_wf | by split].
Qed.

Lemma GetSynced_covered db a n :
  NoDup (map sy_Address (mb_sync_status db)) ->
  covered (GetSyncedBlockRangePerContract db) a n <-> exists r, r ∈ mb_sync_status db /\ sy_Address r = a /\ br_in n (row_range r).
Proof.
  intros Hnd. rewrite (GetSynced_map db Hnd). split.
  - intros (b & Hb & Hn). unfold range_of in Hb. apply fmap_Some in Hb as (s & Hs & ->). pose proof (GetByContract_addr _ _ _ Hs).
    apply GetByContract_In, in_map_iff in Hs as (r & <- & Hr). exists r. split; [by apply list_elem_of_In|]. done.
  - intros (r & Hr & <- & Hn). exists (row_range r). split; [|done]. unfold range_of. change (sy_Address r) with (ss_ContractAddr (ToSyncSegment r)).
    rewrite (GetByContract_NoDup (map ToSyncSegment (mb_sync_status db)) (ToSyncSegment r)); [done | unfold Set_GetContracts; by rewrite map_map|].
    apply in_map. by apply list_elem_of_In.
Qed.

(** Rows that keep their contract. *)
Lemma map_status_addresses f (rows : list syncStatusRow) :
  (forall r, sy_Address (f r) = sy_Address r) -> map sy_Address (map f rows) = map sy_Address rows.
Proof. intros H. rewrite map_map. by apply map_ext. Qed.

Definition status_wf (db : mdb) : Prop :=
  NoDup (map sy_Address (mb_sync_status db)) /\
  Forall (fun r => is_u64 (sy_SyncedFromBlock r) /\ is_u64 (sy_SyncedToBlock r)) (mb_sync_status db).

Lemma updateStatus_Ok seg db db' u :
  status_wf db -> br_wf (ss_BlockRange seg) -> updateStatus seg db = (db', Ok u) ->
  exists rows, db' = set_sync_status (fun _ => rows) db /\ status_wf db' /\
  forall a n, covered (GetSyncedBlockRangePerContract db') a n <->
    if a =? ss_ContractAddr seg then br_in n (ss_BlockRange seg) else covered (GetSyncedBlockRangePerContract db) a n.
Proof.
  intros [Hnd Hw] Hbr H. unfold updateStatus in H. destruct (SyncSegment_IsValid seg) eqn:Ev; cbn [negb] in H; [|discriminate H].
  inv_seq H as d t E. injection E as <- <-. destruct (existsb _ (mb_sync_status db)) eqn:Ee; [|discriminate H]. injection H as <- _.
  set (br := if BlockRange_IsEmpty (ss_BlockRange seg) then BlockRangeZero else ss_BlockRange seg).
  set (f := fun r => if sy_Address r =? ss_ContractAddr seg
    then mkSyncStatusRow (sy_Address r) (sy_TargetFromBlock r) (sy_TargetToBlock r) (br_FromBlock br) (br_ToBlock br) else r).
  assert (Hf : forall r, sy_Address (f r) = sy_Address r) by (intros r; unfold f; by destruct (_ =? _)).
  assert (Hnd' : NoDup (map sy_Address (map f (mb_sync_status db)))) by by rewrite (map_status_addresses f).
  assert (Hbrw : br_wf br) by (unfold br; destruct (BlockRange_IsEmpty _); [apply BlockRangeZero_wf | done]).
  exists (map f (mb_sync_status db)). split; [done|]. split.
  { split; [done|]. cbn. apply Forall_map. eapply Forall_impl; [exact Hw|]. intros r Hr. unfold f. by destruct (_ =? _). }
  intros a n. rewrite !GetSynced_covered by done. cbn [mb_sync_status set_sync_status]. split.
  - intros (r & Hr & <- & Hn). apply list_elem_of_fmap in Hr as (r0 & -> & Hr0). rewrite Hf. unfold f in Hn.
    destruct (sy_Address r0 =? ss_ContractAddr seg) eqn:Ea; [|apply GetSynced_covered; [done|]; by exists r0].
    unfold row_range, ToSyncSegment, br in Hn. cbn in Hn. destruct (BlockRange_IsEmpty (ss_BlockRange seg)) eqn:Es; [by apply br_in_Zero in Hn|].
    destruct (_ && _) in Hn; [by apply br_in_Zero in Hn|]. apply br_in_New in Hn. apply BlockRange_IsEmpty_false in Es as [E1 _]. by split.
  - destruct (a =? ss_ContractAddr seg) eqn:Ea; bool_hyps.
    + intros Hn. subst a. apply existsb_exists in Ee as (r0 & Hr0 & Er0). bool_hyps. exists (f r0). split; [apply list_elem_of_fmap; exists r0; split; [done | by apply list_elem_of_In]|].
      rewrite Hf. split; [done|]. unfold f. rewrite (proj2 (Z.eqb_eq _ _) Er0). unfold row_range, ToSyncSegment. cbn.
      assert (Es : BlockRange_IsEmpty (ss_BlockRange seg) = false).
      { destruct (BlockRange_IsEmpty (ss_BlockRange seg)) eqn:Es; [|done]. rewrite BlockRange_IsEmpty_true in Es. by apply Es in Hn. }
      unfold br. rewrite Es. unfold SyncSegment_IsValid, SyncSegment_IsEmpty in Ev. rewrite Es in Ev. cbn [negb andb] in Ev.
      rewrite (proj1 (negb_true_iff _) Ev). destruct Hn. by apply br_in_New.
    + intros Hc. apply GetSynced_covered in Hc as (r & Hr & <- & Hn); [|done]. exists (f r). split; [apply list_elem_of_fmap; by exists r|]. rewrite Hf. split; [done|]. unfold f.
      by rewrite (proj2 (Z.eqb_neq _ _) Ea).
Qed.

Lemma UpdateSyncedStatus_Ok set segs db db' u :
  status_wf db -> set_wf set -> Forall (fun seg => Set_GetByContract set (ss_ContractAddr seg) = Some seg) segs ->
  UpdateSyncedStatus segs db = (db', Ok u) ->
  exists rows, db' = set_sync_status (fun _ => rows) db /\ status_wf db' /\
  forall a n, covered (GetSyncedBlockRangePerContract db') a n <->
    if bool_decide (a ∈ map ss_ContractAddr segs) then covered set a n else covered (GetSyncedBlockRangePerContract db) a n.
Proof.
  intros Hw Hset Hsegs. revert db Hw. induction Hsegs as [|seg segs Hseg Hsegs IH]; intros db Hw H; cbn [UpdateSyncedStatus] in H.
  - injection H as <- _. exists (mb_sync_status db). split; [by destruct db|]. split; [done|]. intros a n. rewrite bool_decide_false by apply not_elem_of_nil. done.
  - inv_seq H as x db1 E1. assert (Hb : br_wf (ss_BlockRange seg)).
    { apply (range_of_wf set (ss_ContractAddr seg)); [done|]. unfold range_of. by rewrite Hseg. }
    destruct (updateStatus_Ok _ _ _ _ Hw Hb E1) as (rows1 & -> & Hw1 & Hc1).
    destruct (IH _ Hw1 H) as (rows & -> & Hw' & Hc). exists rows. split; [done|]. split; [done|]. intros a n. rewrite Hc. cbn [map].
    destruct (bool_decide_reflect (a ∈ map ss_ContractAddr segs)) as [Ha|Ha].
    + rewrite bool_decide_true by by constructor. done.
    + rewrite Hc1. destruct (a =? ss_ContractAddr seg) eqn:Ea; bool_hyps.
      * subst a. rewrite bool_decide_true by by constructor. rewrite (covered_Some set _ n (ss_BlockRange seg)); [done|]. unfold range_of. by rewrite Hseg.
      * rewrite bool_decide_false; [done|]. rewrite elem_of_cons. naive_solver.
Qed.

Lemma SegmentsByContract_spec set addrs :
  Forall (fun seg => Set_GetByContract set (ss_ContractAddr seg) = Some seg) (Set_SegmentsByContract set addrs) /\
  forall a, a ∈ addrs -> is_Some (Set_GetByContract set a) -> a ∈ map ss_ContractAddr (Set_SegmentsByContract set addrs).
Proof.
  induction addrs as [|x addrs [IH1 IH2]]; cbn; [split; [constructor|]; intros a Ha; by apply not_elem_of_nil in Ha|].
  destruct (Set_GetByContract set x) as [seg|] eqn:E.
  - pose proof (GetByContract_addr _ _ _ E) as Ea. split; [constructor; [by rewrite Ea | done]|].
    intros a Ha Hs. cbn. apply elem_of_cons in Ha as [->|Ha]; [rewrite Ea; by constructor | constructor; by apply IH2].
  - split; [done|]. intros a Ha Hs. apply elem_of_cons in Ha as [->|Ha]; [rewrite E in Hs; by destruct Hs | by apply IH2].
Qed.

Lemma SegmentsByContract_In set addrs a : a ∈ map ss_ContractAddr (Set_SegmentsByContract set addrs) -> a ∈ addrs.
Proof.
  induction addrs as [|x addrs IH]; cbn; [done|]. destruct (Set_GetByContract set x) as [seg|] eqn:E; cbn.
  - rewrite (GetByContract_addr _ _ _ E). intros [->|Ha]%elem_of_cons; [by constructor | constructor; by apply IH].
  - intros Ha. constructor. by apply IH.
Qed.
