(* ===== verification/MultiChain.v ===== *)
(** What the multidownloader promises to the syncers: over a node that serves a chain, through every step and reorg,
    a query that is available is answered with the logs of the chain; and the situations in which it is stuck or
    answers wrongly. *)

From S2P Require Import Prelude BlockRange Finality Tables SyncSegments MultiStorage MultiEngine MultiProofs.

(** ** Chains and nodes *)

Record Chain := mkChain { ch_header : Z -> BlockHeader; ch_logs : list EthLog }.

Definition el_pos (l : EthLog) : Z * Z := (el_BlockNumber l, el_Index l).

Record chain_wf (c : Chain) : Prop := {
  cw_number : forall n, bh_Number (ch_header c n) = n;
  cw_ordered : ordered el_pos (ch_logs c);
  cw_logs : forall l, l ∈ ch_logs c ->
    el_BlockHash l = bh_Hash (ch_header c (el_BlockNumber l)) /\ el_BlockTimestamp l = bh_Time (ch_header c (el_BlockNumber l))
}.

Definition asks (addrs : list Z) (from to : Z) (l : EthLog) : bool :=
  existsb (Z.eqb (el_Address l)) addrs && (from <=? el_BlockNumber l) && (el_BlockNumber l <=? to).

Definition chainLogs (c : Chain) (addrs : list Z) (from to : Z) : list EthLog := bfilter (asks addrs from to) (ch_logs c).

(** The answers of a node that follows the chain up to its head: headers of the chain, of as many blocks of a batch as
    it pleases but, when the blocks asked for follow one another, none behind one it left out; the logs asked for or
    an error; and suggestions that shorten a range from its end. *)
Record serves (head : Z) (node : Node) (c : Chain) : Prop := {
  sv_numbers : forall t n, nd_CurrentBlockNumber node t = Some n -> is_u64 n;
  sv_headers : forall ns r n h, nd_RetrieveBlockHeaders node ns = Some r -> n ∈ ns -> hr_lookup r n = Some h ->
    h = ch_header c n /\ n <= head;
  sv_no_hole : forall b len r n m, nd_RetrieveBlockHeaders node (seqZ b len) = Some r -> b <= n < m -> m < b + len ->
    hr_lookup r n = None -> hr_lookup r m = None;
  sv_logs : forall q logs, lq_BlockHash q = None -> br_ToBlock (lq_BlockRange q) <= head -> nd_FilterLogs node q = Ok logs ->
    logs = chainLogs c (lq_Addrs q) (br_FromBlock (lq_BlockRange q)) (br_ToBlock (lq_BlockRange q));
  sv_block_logs : forall q n logs, n <= head -> lq_BlockHash q = Some (bh_Hash (ch_header c n)) -> nd_FilterLogs node q = Ok logs ->
    logs = chainLogs c (lq_Addrs q) n n;
  sv_suggested : forall q br, lq_BlockHash q = None -> nd_FilterLogs node q = Err (LTooManyResults (Some br)) ->
    br_isNotEmpty br = true /\ br_FromBlock br = br_FromBlock (lq_BlockRange q) /\
    br_FromBlock br <= br_ToBlock br <= br_ToBlock (lq_BlockRange q);
  sv_header : forall n h, nd_HeaderByNumber node n = Ok h -> h = ch_header c n
}.

(** ** The tables *)

Record db_ok (c : Chain) (db : mdb) : Prop := {
  do_blocks : forall r, r ∈ mb_blocks db -> headerOf r = ch_header c (bl_Number r);
  do_logs : forall r, r ∈ mb_logs db -> exists l, l ∈ ch_logs c /\ NewLogRowFromEthLog l = r;
  do_fk : forall r, r ∈ mb_logs db -> hasBlockRow db (lr_BlockNumber r) = true;
  do_nodup : NoDup (mb_logs db);
  do_status : status_wf db
}.

Section Start.
Context (start : Z -> Z) (start_range : forall a, 1 <= start a < pow2_64).

(** The logs of every covered block the syncers ask for are stored. *)
Definition complete (c : Chain) (db : mdb) (cov : Z -> Z -> Prop) : Prop :=
  forall a n l, cov a n -> start a <= n -> l ∈ ch_logs c -> el_Address l = a -> el_BlockNumber l = n -> NewLogRowFromEthLog l ∈ mb_logs db.

(** [P]: the blocks that no reorg reaches.  Final blocks are of these, and so is every synced block that is not stored. *)
Definition settled (P : Z -> Prop) (db : mdb) (cov : Z -> Z -> Prop) : Prop :=
  (forall r, r ∈ mb_blocks db -> bl_IsFinal r = true -> P (bl_Number r)) /\
  (forall a n, cov a n -> start a <= n -> P n \/ hasBlockRow db n = true).

Record md_ok (P : Z -> Prop) (c : Chain) (dh : Downloader) (st : State) : Prop := {
  mo_state : md_state dh = Some st;
  mo_linked : linked start st;
  mo_config : starts_at start (md_syncersConfig dh);
  mo_db : db_ok c (md_db dh);
  mo_complete : complete c (md_db dh) (covered (st_Synced st));
  mo_settled : settled P (md_db dh) (covered (st_Synced st));
  mo_agree : forall a n, covered (GetSyncedBlockRangePerContract (md_db dh)) a n <-> covered (st_Synced st) a n
}.

(** ** Answers *)

Lemma find_block_row db n h : (exists r, r ∈ mb_blocks db /\ bl_Number r = n) -> (forall r, r ∈ mb_blocks db -> bl_Number r = n -> headerOf r = h) ->
  exists f, GetBlockHeaderByNumber db n = Some (h, f).
Proof.
  intros (r0 & Hr0 & E0) Hall. unfold GetBlockHeaderByNumber. destruct (List.find _ (mb_blocks db)) as [r|] eqn:E.
  - apply find_some in E as [Hr E]. bool_hyps. cbn. exists (bl_IsFinal r). rewrite (Hall r); [done | by apply list_elem_of_In | done].
  - pose proof (find_none _ _ E r0 ltac:(by apply list_elem_of_In)) as H. cbn in H. bool_hyps. done.
Qed.

Lemma hasBlockRow_iff db n : hasBlockRow db n = true <-> exists r, r ∈ mb_blocks db /\ bl_Number r = n.
Proof.
  unfold hasBlockRow. rewrite existsb_exists. split; intros (r & Hr & E); exists r; (split; [by apply list_elem_of_In|]); bool_hyps; [done | by apply Z.eqb_eq].
Qed.

Lemma joined_is_log c db l :
  chain_wf c -> db_ok c db -> NewLogRowFromEthLog l ∈ mb_logs db -> l ∈ ch_logs c -> joinedLog db (NewLogRowFromEthLog l) = l.
Proof.
  intros Hc Hdb Hl Hin. unfold joinedLog. cbn. pose proof (do_fk c db Hdb _ Hl) as Hfk. cbn in Hfk. apply hasBlockRow_iff in Hfk.
  destruct (find_block_row db (el_BlockNumber l) (ch_header c (el_BlockNumber l)) Hfk) as [f ->].
  { intros r Hr Hn. rewrite (do_blocks c db Hdb r Hr). by rewrite Hn. }
  destruct (cw_logs c Hc l Hin) as [E1 E2]. destruct l; cbn in *. by rewrite E1, E2.
Qed.

(** A row is of one log of the chain. *)
Lemma row_injective c l l' : chain_wf c -> l ∈ ch_logs c -> l' ∈ ch_logs c -> NewLogRowFromEthLog l = NewLogRowFromEthLog l' -> l = l'.
Proof.
  intros Hc Hl Hl' E. destruct (cw_logs c Hc l Hl) as [A1 A2], (cw_logs c Hc l' Hl') as [B1 B2].
  assert (En : el_BlockNumber l = el_BlockNumber l') by (by injection E). rewrite En in A1, A2. rewrite <- B1 in A1. rewrite <- B2 in A2.
  destruct l, l'. unfold NewLogRowFromEthLog in E. cbn in *. injection E. intros. by subst.
Qed.

Lemma pos_sorted {A} (pos : A -> Z * Z) l : StronglySorted (pos_le pos) (merge_sort (pos_le pos) l).
Proof.
  apply StronglySorted_merge_sort; unfold pos_le.
  - intros x y z Hxy Hyz. apply not_true_is_false. intros E. apply not_true_iff_false in Hxy, Hyz. rewrite pos_ltb_lt in *. lia.
  - intros x y. destruct (pos_ltb (pos y) (pos x)) eqn:E; [|by left]. right. apply not_true_is_false. intros E'. rewrite pos_ltb_lt in *. lia.
Qed.

Definition rowAsked (q : LogQuery) (r : logRow) : bool :=
  existsb (Z.eqb (lr_Address r)) (lq_Addrs q) && (br_FromBlock (lq_BlockRange q) <=? lr_BlockNumber r) && (lr_BlockNumber r <=? br_ToBlock (lq_BlockRange q)).

Lemma queried_rows c db q :
  chain_wf c -> db_ok c db ->
  (forall l, l ∈ chainLogs c (lq_Addrs q) (br_FromBlock (lq_BlockRange q)) (br_ToBlock (lq_BlockRange q)) -> NewLogRowFromEthLog l ∈ mb_logs db) ->
  queriedRows db q = map NewLogRowFromEthLog (chainLogs c (lq_Addrs q) (br_FromBlock (lq_BlockRange q)) (br_ToBlock (lq_BlockRange q))).
Proof.
  intros Hc Hdb Hall. set (L := chainLogs c _ _ _) in *.
  assert (Hord : ordered el_pos L) by (apply bfilter_StronglySorted, (cw_ordered c Hc)).
  assert (HordR : ordered lr_pos (map NewLogRowFromEthLog L)).
  { clear Hall. induction Hord as [|x l Hs IH Hx]; cbn; constructor; [done|]. apply Forall_map. exact Hx. }
  rewrite <- (merge_sort_ordered lr_pos _ HordR). unfold queriedRows. change (fun r => _) with (rowAsked q).
  assert (Hp : bfilter (rowAsked q) (mb_logs db) ≡ₚ map NewLogRowFromEthLog L).
  { apply NoDup_Permutation.
    - pose proof (map_bfilter_NoDup id (rowAsked q) (mb_logs db)) as H. rewrite !map_id in H. by apply H, (do_nodup c db Hdb).
    - assert (HndL : NoDup L).
      { clear -Hord. induction Hord as [|x l Hs IH Hx]; [apply NoDup_nil_2|]. apply NoDup_cons. split; [|done]. intros Hin.
        rewrite Forall_forall in Hx. specialize (Hx x Hin). apply pos_ltb_lt in Hx. lia. }
      apply NoDup_alt. intros i j x Hi Hj. change (map NewLogRowFromEthLog L) with (NewLogRowFromEthLog <$> L) in Hi, Hj.
      apply list_lookup_fmap_Some in Hi as (l & -> & Hi), Hj as (l' & E & Hj).
      assert (l = l') as <-.
      { apply (row_injective c); [done| | |done].
        - apply list_elem_of_lookup_2 in Hi. apply list_elem_of_In, bfilter_In in Hi as [Hi _]. by apply list_elem_of_In.
        - apply list_elem_of_lookup_2 in Hj. apply list_elem_of_In, bfilter_In in Hj as [Hj _]. by apply list_elem_of_In. }
      by eapply NoDup_lookup.
    - intros r. rewrite list_elem_of_In, bfilter_In. change (map NewLogRowFromEthLog L) with (NewLogRowFromEthLog <$> L). rewrite list_elem_of_fmap. split.
      + intros [Hr Ha]. apply list_elem_of_In in Hr. destruct (do_logs c db Hdb r Hr) as (l & Hl & <-). exists l. split; [done|].
        apply list_elem_of_In, bfilter_In. split; [by apply list_elem_of_In | exact Ha].
      + intros (l & -> & Hl). split; [apply list_elem_of_In; by apply Hall|]. apply list_elem_of_In, bfilter_In in Hl as [_ Ha]. exact Ha. }
  apply (StronglySorted_unique_strong (pos_le lr_pos)).
  - intros x y Hx Hy H1 H2. rewrite merge_sort_Permutation in Hx, Hy. rewrite Hp in Hx.
    assert (Hget : forall x y, x ∈ map NewLogRowFromEthLog L -> y ∈ map NewLogRowFromEthLog L -> x = y \/ pos_ltb (lr_pos x) (lr_pos y) = true \/ pos_ltb (lr_pos y) (lr_pos x) = true).
    { clear -HordR. induction HordR as [|a l Hs IH Ha]; intros x y Hx Hy; [by apply not_elem_of_nil in Hx|].
      rewrite Forall_forall in Ha. apply elem_of_cons in Hx as [->|Hx], Hy as [->|Hy]; auto. }
    unfold pos_le in *. destruct (Hget x y Hx Hy) as [?|[?|?]]; congruence.
  - apply pos_sorted.
  - apply pos_sorted.
  - by rewrite !merge_sort_Permutation.
Qed.

(** An available query is answered with the logs of the chain. *)
Lemma available_answer P c dh st q logs :
  chain_wf c -> md_ok P c dh st -> Forall (fun a => start a <= br_FromBlock (lq_BlockRange q)) (lq_Addrs q) ->
  FilterLogs dh q = Ok (Some logs) ->
  logs = chainLogs c (lq_Addrs q) (br_FromBlock (lq_BlockRange q)) (br_ToBlock (lq_BlockRange q)).
Proof.
  intros Hc Hok Hst H. unfold FilterLogs in H. rewrite (mo_state _ _ _ _ Hok) in H. destruct (State_IsAvailable st q) eqn:Ea; [|discriminate H].
  inv_ok H as ls E. injection H as <-. unfold GetEthLogs in E. destruct (lq_Addrs q) as [|a0 rest] eqn:Eaddr; [discriminate E|]. injection E as <-. rewrite <- Eaddr in *.
  assert (Hall : forall l, l ∈ chainLogs c (lq_Addrs q) (br_FromBlock (lq_BlockRange q)) (br_ToBlock (lq_BlockRange q)) -> NewLogRowFromEthLog l ∈ mb_logs (md_db dh)).
  { intros l Hl. apply list_elem_of_In, bfilter_In in Hl as [Hl Hask]. unfold asks in Hask. bool_hyps. apply existsb_exists in H as (a & Ha & E). bool_hyps. subst a.
    apply list_elem_of_In in Ha, Hl. rewrite Forall_forall in Hst. specialize (Hst _ Ha).
    apply (mo_complete _ _ _ _ Hok (el_Address l) (el_BlockNumber l) l); try done; [|lia].
    unfold State_IsAvailable, Set_IsAvailable in Ea. clear -Ea Ha H0 H1. induction (lq_Addrs q) as [|x addrs IH]; [by apply not_elem_of_nil in Ha|].
    cbn in Ea. destruct (Set_GetByContract (st_Synced st) x) as [seg|] eqn:Eg; [|discriminate Ea].
    destruct (BlockRange_Contains (ss_BlockRange seg) (lq_BlockRange q)) eqn:Ec; [|discriminate Ea].
    apply elem_of_cons in Ha as [<-|Ha]; [|by apply IH]. exists (ss_BlockRange seg). split; [unfold range_of; by rewrite Eg|].
    unfold BlockRange_Contains in Ec. destruct (BlockRange_IsEmpty (ss_BlockRange seg)) eqn:Ee; [discriminate Ec|]. bool_hyps.
    apply BlockRange_IsEmpty_false in Ee as [? ?]. split; [done | lia]. }
  rewrite (queried_rows c); [|done | apply (mo_db _ _ _ _ Hok) | done]. rewrite map_map.
  assert (Hid : forall l, l ∈ chainLogs c (lq_Addrs q) (br_FromBlock (lq_BlockRange q)) (br_ToBlock (lq_BlockRange q)) ->
    joinedLog (md_db dh) (NewLogRowFromEthLog l) = l).
  { intros l Hl. apply (joined_is_log c); [done | apply (mo_db _ _ _ _ Hok) | by apply Hall|]. apply list_elem_of_In, bfilter_In in Hl as [Hl _]. by apply list_elem_of_In. }
  clear -Hid. induction (chainLogs c _ _ _) as [|l ls IH]; [done|]. cbn. rewrite Hid by by constructor. f_equal. apply IH. intros x Hx. apply Hid. by constructor.
Qed.

(** ** Storing *)

Lemma saveBlocks_Ok rows db db' u : saveBlocksNoMutex rows db = (db', Ok u) -> db' = set_blocks (fun l => l ++ rows) db.
Proof.
  revert db. induction rows as [|r rows IH]; intros db H; cbn [saveBlocksNoMutex] in H.
  - injection H as <- _. destruct db. unfold set_blocks. cbn. by rewrite app_nil_r.
  - inv_seq H as x db1 E. unfold saveBlock in E. inv_seq E as d t E1. injection E1 as <- <-. destruct (hasBlockRow _ _); [discriminate E|].
    injection E as <- _. rewrite (IH _ H). unfold set_blocks. cbn. by rewrite <- app_assoc.
Qed.

Lemma sameLogKey_refl r : sameLogKey r r = true.
Proof. unfold sameLogKey. by rewrite !Z.eqb_refl. Qed.

Lemma saveLogs_Ok rows db db' u :
  saveLogsNoMutex rows db = (db', Ok u) ->
  db' = set_logs (fun l => l ++ rows) db /\ (NoDup (mb_logs db) -> NoDup (mb_logs db ++ rows)) /\
  Forall (fun r => hasBlockRow db (lr_BlockNumber r) = true) rows.
Proof.
  revert db. induction rows as [|r rows IH]; intros db H; cbn [saveLogsNoMutex] in H.
  - injection H as <- _. destruct db. unfold set_logs. cbn. rewrite app_nil_r. by split_and!.
  - inv_seq H as x db1 E. unfold saveLog in E. inv_seq E as d t E1. injection E1 as <- <-.
    destruct (existsb (sameLogKey r) (mb_logs db) || _) eqn:Ee; [discriminate E|]. bool_hyps. injection E as <- _.
    destruct (IH _ H) as (-> & Hnd & Hfk). unfold set_logs in *. cbn in *. rewrite <- app_assoc in *. cbn in *. split_and!; [done| |by constructor].
    intros Hd. apply Hnd. apply NoDup_app. split_and!; [done| |apply NoDup_singleton]. intros y Hy ->%list_elem_of_singleton.
    rewrite existsb_false_In in H0. specialize (H0 r ltac:(by apply list_elem_of_In)). by rewrite sameLogKey_refl in H0.
Qed.

Lemma NewBlockRows_spec headers isFinal r :
  r ∈ NewBlockRowsFromAggkitBlock headers isFinal -> exists h, h ∈ headers /\ r = newBlockRowFromAggkitBlock isFinal h.
Proof.
  unfold NewBlockRowsFromAggkitBlock.
  assert (Hg : forall acc, r ∈ fold_left (fun rows h => bfilter (fun r => negb (bl_Number r =? bh_Number h)) rows ++ [newBlockRowFromAggkitBlock isFinal h]) headers acc ->
    r ∈ acc \/ exists h, h ∈ headers /\ r = newBlockRowFromAggkitBlock isFinal h).
  { induction headers as [|h headers IH]; intros acc Hr; cbn in Hr; [by left|]. apply IH in Hr as [Hr|(h' & Hh' & ->)].
    - apply elem_of_app in Hr as [Hr|Hr].
      + left. apply list_elem_of_In, bfilter_In in Hr as [Hr _]. by apply list_elem_of_In.
      + apply list_elem_of_singleton in Hr as ->. right. exists h. split; [by constructor | done].
    - right. exists h'. split; [by constructor | done]. }
  intros Hr. apply Hg in Hr as [Hr|Hr]; [by apply not_elem_of_nil in Hr | done].
Qed.

Lemma NewBlockRows_has headers isFinal h :
  h ∈ headers -> exists r, r ∈ NewBlockRowsFromAggkitBlock headers isFinal /\ bl_Number r = bh_Number h.
Proof.
  intros Hh. unfold NewBlockRowsFromAggkitBlock.
  assert (Hkeep : forall hs acc r, r ∈ acc ->
    exists r', r' ∈ fold_left (fun rows h => bfilter (fun r => negb (bl_Number r =? bh_Number h)) rows ++ [newBlockRowFromAggkitBlock isFinal h]) hs acc /\
      bl_Number r' = bl_Number r).
  { induction hs as [|x hs IH]; intros acc r Hr; cbn; [by exists r|]. destruct (bl_Number r =? bh_Number x) eqn:E; bool_hyps.
    - destruct (IH (bfilter (fun r => negb (bl_Number r =? bh_Number x)) acc ++ [newBlockRowFromAggkitBlock isFinal x]) (newBlockRowFromAggkitBlock isFinal x))
        as (r' & Hr' & Er'); [apply elem_of_app; right; by constructor|]. exists r'. split; [done|]. by rewrite Er', E.
    - apply IH, elem_of_app. left. apply list_elem_of_In, bfilter_In. split; [by apply list_elem_of_In|]. cbn. by rewrite (proj2 (Z.eqb_neq _ _) E). }
  generalize (@nil blockRow) at 2. revert Hh. induction headers as [|x headers IH]; intros Hh acc; [by apply not_elem_of_nil in Hh|]. cbn. apply elem_of_cons in Hh as [->|Hh]; [|by apply IH].
  apply (Hkeep headers _ (newBlockRowFromAggkitBlock isFinal x)), elem_of_app. right. by constructor.
Qed.

(** What a step stores keeps the invariant when it holds the logs of every block it marks. *)
Lemma storeData_ok P c dh st st' logs headers addrs isFinal dh' u :
  md_ok P c dh st -> linked start st' ->
  Forall (fun h => h = ch_header c (bh_Number h)) headers -> Forall (fun l => l ∈ ch_logs c) logs ->
  (forall a n l, covered (st_Synced st') a n -> start a <= n -> l ∈ ch_logs c -> el_Address l = a -> el_BlockNumber l = n ->
     covered (st_Synced st) a n \/ l ∈ logs) ->
  (forall h, h ∈ headers -> isFinal = true -> P (bh_Number h)) ->
  (forall a n, covered (st_Synced st') a n -> start a <= n -> covered (st_Synced st) a n \/ P n \/ exists h, h ∈ headers /\ bh_Number h = n) ->
  (forall a, a ∈ addrs -> is_Some (Set_GetByContract (st_Synced st') a)) ->
  (forall a n, a ∉ addrs -> covered (st_Synced st') a n <-> covered (st_Synced st) a n) ->
  storeData logs headers (Set_SegmentsByContract (st_Synced st') addrs) isFinal dh = (dh', Ok u) ->
  md_ok P c (set_state st' dh') st'.
Proof.
  intros Hok Hl Hh Hlogs Hcov Hfin Hset Hhas Hother H. unfold storeData, inTransaction in H.
  destruct ((let! _ := SaveEthLogsWithHeaders headers logs isFinal in UpdateSyncedStatus _) (md_db dh)) as [db' [x|e]] eqn:E; [|discriminate H].
  injection H as <- _.
  inv_seq E as y db1 E1. unfold SaveEthLogsWithHeaders, saveLogsAndBlocks in E1. inv_seq E1 as z db2 E2.
  apply saveBlocks_Ok in E2 as ->. apply saveLogs_Ok in E1 as (-> & Hnd & Hfk).
  destruct (SegmentsByContract_spec (st_Synced st') addrs) as [Hsegs Hin].
  pose proof (mo_db _ _ _ _ Hok) as Hdb. set (db := md_db dh) in *.
  destruct (UpdateSyncedStatus_Ok (st_Synced st') _ _ _ _ (do_status _ _ Hdb : status_wf (set_logs _ (set_blocks _ db))) (lk_synced_wf _ _ Hl) Hsegs E)
    as (rows & -> & Hst & Hc).
  split; cbn [md_state set_state set_mdb md_db md_syncersConfig]; [done | done | apply (mo_config _ _ _ _ Hok)| | | |].
  - split; cbn [mb_blocks mb_logs set_sync_status set_logs set_blocks].
    + intros r Hr. apply elem_of_app in Hr as [Hr|Hr]; [by apply (do_blocks _ _ Hdb)|].
      apply NewBlockRows_spec in Hr as (h & Hh' & ->). rewrite Forall_forall in Hh. cbn. rewrite <- (Hh h Hh'). by destruct h.
    + intros r Hr. apply elem_of_app in Hr as [Hr|Hr]; [by apply (do_logs _ _ Hdb)|]. apply list_elem_of_fmap in Hr as (l & -> & Hl').
      rewrite Forall_forall in Hlogs. exists l. split; [by apply Hlogs | done].
    + intros r Hr. apply elem_of_app in Hr as [Hr|Hr].
      * pose proof (do_fk _ _ Hdb r Hr) as Hf. apply hasBlockRow_iff in Hf as (b & Hb & Eb). apply hasBlockRow_iff. exists b. split; [|done].
        cbn. apply elem_of_app. by left.
      * rewrite Forall_forall in Hfk. exact (Hfk r Hr).
    + apply Hnd, (do_nodup _ _ Hdb).
    + exact Hst.
  - intros a n l Hn Hs Hlc Ha Hln. cbn. apply elem_of_app. destruct (Hcov a n l Hn Hs Hlc Ha Hln) as [Hold|Hnew].
    + left. by apply (mo_complete _ _ _ _ Hok a n l).
    + right. apply list_elem_of_fmap. by exists l.
  - destruct (mo_settled _ _ _ _ Hok) as [S1 S2]. split; cbn [mb_blocks set_sync_status set_logs set_blocks].
    + intros r Hr Hf. apply elem_of_app in Hr as [Hr|Hr]; [by apply S1|]. apply NewBlockRows_spec in Hr as (h & Hh' & ->). by apply Hfin.
    + intros a n Hn Hs. destruct (Hset a n Hn Hs) as [Hold|[Hp|(h & Hh' & En)]]; [|by left|].
      * destruct (S2 a n Hold Hs) as [?|Hb]; [by left|]. right. apply hasBlockRow_iff in Hb as (b & Hb & Eb). apply hasBlockRow_iff. exists b. split; [|done].
        cbn. apply elem_of_app. by left.
      * right. apply hasBlockRow_iff. destruct (NewBlockRows_has headers isFinal h Hh') as (r & Hr & Er). exists r. split; [cbn; apply elem_of_app; by right|]. by rewrite Er.
  - intros a n. rewrite Hc. destruct (bool_decide_reflect (a ∈ map ss_ContractAddr (Set_SegmentsByContract (st_Synced st') addrs))) as [Ha|Ha]; [done|].
    rewrite Hother; [exact (mo_agree _ _ _ _ Hok a n)|]. intros Ha'. apply Ha, Hin; [done | by apply Hhas].
Qed.

Lemma storeData_Err logs headers segs isFinal dh dh' e : storeData logs headers segs isFinal dh = (dh', Err e) -> dh' = dh.
Proof.
  unfold storeData, inTransaction. destruct ((let! _ := SaveEthLogsWithHeaders headers logs isFinal in UpdateSyncedStatus segs) (md_db dh)) as [? [?|?]];
    [discriminate | by intros [= <- _]].
Qed.

(** ** The safe step *)

Lemma NextQuery_ok st chunk max q :
  linked start st -> Set_NextQuery (st_Pending st) chunk max true = Ok q -> query_ok st q /\ lq_BlockHash q = None /\ br_ToBlock (lq_BlockRange q) <= max.
Proof.
  intros Hl H. pose proof (lk_pending_wf _ _ Hl) as [Hnd Hw]. unfold Set_NextQuery in H.
  destruct (Set_GetLowestFromBlockSegment (st_Pending st)) as [low|] eqn:Elow; [|discriminate H].
  destruct (GetLowest_spec _ _ Elow) as [Hin Hmin]. set (lr := ss_BlockRange low) in *.
  set (br0 := BlockRange_Intersect lr _) in *. destruct (BlockRange_IsEmpty (BlockRange_Cap br0 max)) eqn:Ee; [discriminate H|].
  destruct (Nat.eqb _ 0); [discriminate H|]. injection H as <-.
  assert (Hbr : br_FromBlock (BlockRange_Cap br0 max) = br_FromBlock lr /\ br_ToBlock (BlockRange_Cap br0 max) <= br_ToBlock lr /\ br_ToBlock (BlockRange_Cap br0 max) <= max /\
    BlockRange_Cap br0 max = NewBlockRange (br_FromBlock (BlockRange_Cap br0 max)) (br_ToBlock (BlockRange_Cap br0 max))).
  { unfold BlockRange_Cap in *. destruct (BlockRange_IsEmpty br0) eqn:E0; [discriminate Ee|]. destruct (max <? br_FromBlock br0); [discriminate Ee|].
    cbn. split_and!; [| |lia|done]; unfold br0, BlockRange_Intersect in *; destruct (BlockRange_Overlaps _ _); cbn in *; try discriminate E0; lia. }
  destruct Hbr as (B1 & B2 & Bm & B3). pose proof Ee as Ee'. apply BlockRange_IsEmpty_false in Ee' as [_ B4].
  assert (Hlw : br_wf lr) by (rewrite Forall_forall in Hw; apply Hw; by apply list_elem_of_In).
  split; [|by split]. split_and!; cbn [lq_BlockRange lq_Addrs]; [done | destruct Hlw; split; unfold_words; lia|].
  intros a Ha. rewrite B3 in Ha. apply list_elem_of_In, GetAddresses_covered in Ha as (p & Hp & _); [|done]. split; [by exists p|].
  intros p' (b & Hb & _ & Hp'). unfold range_of in Hb. apply fmap_Some in Hb as (seg & Hseg & ->). apply GetByContract_In in Hseg.
  specialize (Hmin seg Hseg). lia.
Qed.

Lemma requestLogs_loop_ok head node c st fuel chunk q sugg logs q' :
  serves head node c -> query_ok st q -> lq_BlockHash q = None -> br_ToBlock (lq_BlockRange q) <= head ->
  br_isNotEmpty sugg = true -> br_FromBlock sugg = br_FromBlock (lq_BlockRange q) -> br_FromBlock sugg <= br_ToBlock sugg <= br_ToBlock (lq_BlockRange q) ->
  requestLogs_loop fuel node chunk q (Some sugg) = Ok (logs, q') ->
  query_ok st q' /\ lq_BlockHash q' = None /\ br_ToBlock (lq_BlockRange q') <= br_ToBlock (lq_BlockRange q) /\
  logs = chainLogs c (lq_Addrs q') (br_FromBlock (lq_BlockRange q')) (br_ToBlock (lq_BlockRange q')).
Proof.
  intros Hn. revert chunk q sugg. induction fuel as [|fuel IH]; intros chunk q sugg Hq Hh Hhd S1 S2 S3 H; [discriminate H|]. cbn [requestLogs_loop] in H.
  set (q1 := mkLogQuery (lq_Addrs q) sugg (lq_BlockHash q)) in *.
  assert (Hq1 : query_ok st q1).
  { destruct Hq as (H1 & [W1 W2] & H3). split_and!; cbn [lq_BlockRange lq_Addrs q1]; [apply BlockRange_IsEmpty_false; split; [done | lia] | split; unfold_words; lia|].
    intros a Ha. destruct (H3 a Ha) as [H4 H5]. split; [done|]. intros p Hp. specialize (H5 p Hp). lia. }
  destruct (nd_FilterLogs node q1) as [ls|[[next|]|]] eqn:Ef; [| |discriminate H|discriminate H].
  - injection H as <- <-. split_and!; [done | done | cbn; lia|]. apply (sv_logs _ _ _ Hn q1); [done | cbn; lia | done].
  - destruct (sv_suggested _ _ _ Hn q1 next Hh Ef) as (T1 & T2 & T3).
    assert (Hrec : forall ch, requestLogs_loop fuel node ch q1 (Some next) = Ok (logs, q') ->
      query_ok st q' /\ lq_BlockHash q' = None /\ br_ToBlock (lq_BlockRange q') <= br_ToBlock (lq_BlockRange q) /\
      logs = chainLogs c (lq_Addrs q') (br_FromBlock (lq_BlockRange q')) (br_ToBlock (lq_BlockRange q'))).
    { intros ch Hr. destruct (IH ch q1 next Hq1 Hh ltac:(cbn; lia) T1 T2 T3 Hr) as (? & ? & ? & ?). split_and!; [done | done | cbn in *; lia | done]. }
    destruct (BlockRange_Overlaps _ _); [by apply Hrec in H|]. destruct (_ <? minChunkSize); [discriminate H | by apply Hrec in H].
Qed.

Lemma GetFinalized_read node dh : exists r, GetFinalizedBlockNumber node dh = (dh, r).
Proof. unfold GetFinalizedBlockNumber, sbind, sget, orRPC. destruct (nd_CurrentBlockNumber _ _); by eexists. Qed.

(** The block the node reports as final is below its head, and no reorg reaches it. *)
Definition final_below (P : Z -> Prop) (head : Z) (node : Node) (dh : Downloader) : Prop :=
  forall f, nd_CurrentBlockNumber node (cg_BlockFinality (md_cfg dh)) = Some f -> f <= head /\ forall n, n <= f -> P n.

Lemma GetFinalized_Ok node dh dh' f : GetFinalizedBlockNumber node dh = (dh', Ok f) -> nd_CurrentBlockNumber node (cg_BlockFinality (md_cfg dh)) = Some f.
Proof. unfold GetFinalizedBlockNumber, sbind, sget, orRPC. destruct (nd_CurrentBlockNumber _ _); [by intros [= _ <-] | done]. Qed.

Lemma getState_run P c dh st : md_ok P c dh st -> getState dh = (dh, Ok st).
Proof. intros H. unfold getState. by rewrite (mo_state _ _ _ _ H). Qed.

Lemma requestLogs_ok P head node c dh st fuel dh' r :
  serves head node c -> md_ok P c dh st -> final_below P head node dh -> requestLogs fuel node dh = (dh', r) ->
  dh' = dh /\ forall logs q, r = Ok (logs, q) ->
    query_ok st q /\ lq_BlockHash q = None /\ (forall n, n <= br_ToBlock (lq_BlockRange q) -> P n) /\ logs = chainLogs c (lq_Addrs q) (br_FromBlock (lq_BlockRange q)) (br_ToBlock (lq_BlockRange q)).
Proof.
  intros Hn Hok Hfb H. unfold requestLogs in H. unfold sbind at 1, sget in H. unfold sbind, getNextQuery, sbind in H.
  destruct (GetFinalized_read node dh) as [[max|e] Er]; rewrite Er in H; [|by injection H as <- <-].
  rewrite (getState_run P c dh st Hok) in H. unfold liftSync, State_NextQueryToSync in H.
  destruct (Set_NextQuery (st_Pending st) _ max true) as [q|e] eqn:Eq; [|by injection H as <- <-]. unfold slift in H. injection H as <- <-. split; [done|].
  intros logs q' Hr. destruct (NextQuery_ok _ _ _ _ (mo_linked _ _ _ _ Hok) Eq) as (Hq & Hh & Hm). destruct (Hfb _ (GetFinalized_Ok _ _ _ _ Er)) as [Hmh HP]. pose proof Hq as (Hne & _ & _). apply BlockRange_IsEmpty_false in Hne as [N1 N2].
  destruct (requestLogs_loop_ok head node c st _ _ q (lq_BlockRange q) logs q' Hn Hq Hh ltac:(lia) N1 eq_refl ltac:(lia) Hr) as (? & ? & ? & ?).
  split_and!; [done | done | intros n ?; apply HP; lia | done].
Qed.

Definition answered (res : BlockHeadersResult) (n : Z) : bool := match hr_lookup res n with Some _ => true | None => false end.

Lemma retrieved_ok head node c dh ns dh' r :
  chain_wf c -> serves head node c -> retrievedHeaders node ns dh = (dh', r) ->
  dh' = dh /\ forall hs, r = Ok hs -> exists res, nd_RetrieveBlockHeaders node ns = Some res /\
    hs = map (ch_header c) (bfilter (answered res) ns) /\ Forall (fun n => n <= head) (bfilter (answered res) ns).
Proof.
  intros Hc Hn H. unfold retrievedHeaders, sbind, orRPC in H. destruct (nd_RetrieveBlockHeaders node ns) as [res|] eqn:E; [|by injection H as <- <-].
  destruct (_ && _); [by injection H as <- <-|]. injection H as <- <-. split; [done|]. intros hs [= <-]. exists res. split; [done|]. unfold hr_GetOrderedHeaders.
  pose proof (fun n h => sv_headers _ _ _ Hn ns res n h E) as Hl. clear -Hl. unfold answered. induction ns as [|n ns IH]; [by split; [|constructor]|]. cbn.
  destruct IH as [IH1 IH2]; [intros m h Hm; apply Hl; by constructor|].
  destruct (hr_lookup res n) as [h|] eqn:En; cbn; [|done]. destruct (Hl n h ltac:(by constructor) En) as [-> ?]. split; [by f_equal | by constructor].
Qed.

Lemma headers_of_chain c ns : chain_wf c -> Forall (fun h => h = ch_header c (bh_Number h)) (map (ch_header c) ns).
Proof. intros Hc. apply Forall_map, Forall_forall. intros n _. by rewrite (cw_number _ Hc). Qed.

Lemma AddLogQuery_has f q a : a ∈ lq_Addrs q -> is_Some (Set_GetByContract (Set_AddLogQuery f (Some q)) a).
Proof.
  intros Ha. pose proof (fold_LogQuery_range q (lq_Addrs q) f a) as H. rewrite bool_decide_true in H by done. unfold range_of in H.
  change (fold_left _ _ f) with (Set_AddLogQuery f (Some q)) in H. destruct (Set_GetByContract _ a); [done | discriminate H].
Qed.

Lemma AddLogQuery_other f q a n : a ∉ lq_Addrs q -> covered (Set_AddLogQuery f (Some q)) a n <-> covered f a n.
Proof. intros Ha. apply covered_range. unfold Set_AddLogQuery. rewrite fold_LogQuery_range. by rewrite bool_decide_false. Qed.

Lemma chainLogs_In c addrs from to l : l ∈ chainLogs c addrs from to <-> l ∈ ch_logs c /\ el_Address l ∈ addrs /\ from <= el_BlockNumber l <= to.
Proof.
  unfold chainLogs. rewrite !list_elem_of_In, bfilter_In. unfold asks. rewrite !andb_true_iff, existsb_exists, !Z.leb_le. split.
  - intros (H1 & ((a & Ha & E) & H2) & H3). bool_hyps. by subst a.
  - intros (H1 & H2 & H3). split; [done|]. split; [split; [|lia] | lia]. exists (el_Address l). split; [done | apply Z.eqb_refl].
Qed.

(** A step that fails leaves the downloader as it was. *)
Definition step_ok {A} (P : Z -> Prop) (c : Chain) (dh dh' : Downloader) (r : result mdError A) : Prop :=
  match r with Ok _ => exists st, md_ok P c dh' st | Err _ => dh' = dh end.

Lemma getBlockNumbers_In logs n : n ∈ getBlockNumbers logs -> exists l, l ∈ logs /\ el_BlockNumber l = n.
Proof.
  unfold getBlockNumbers. induction logs as [|l logs IH] using rev_ind; [intros H; by apply not_elem_of_nil in H|]. rewrite fold_left_app. cbn.
  destruct (existsb _ _); intros H; [|apply elem_of_app in H as [H|H%list_elem_of_singleton]].
  - destruct (IH H) as (l' & ? & ?). exists l'. split; [apply elem_of_app; by left | done].
  - destruct (IH H) as (l' & ? & ?). exists l'. split; [apply elem_of_app; by left | done].
  - exists l. split; [apply elem_of_app; right; by constructor | done].
Qed.

Lemma StepSafe_ok P head node c dh st fuel dh' r :
  chain_wf c -> serves head node c -> md_ok P c dh st -> final_below P head node dh -> StepSafe fuel node dh = (dh', r) -> step_ok P c dh dh' r.
Proof.
  intros Hc Hn Hok Hfb H. unfold StepSafe in H. destruct (requestLogs fuel node dh) as [dh1 [[logs q]|e]] eqn:Er;
    destruct (requestLogs_ok P head node c dh st fuel dh1 _ Hn Hok Hfb Er) as [-> Hq].
  2: { destruct (is_finished _); injection H as <- <-; [by exists st | done]. }
  specialize (Hq logs q eq_refl) as (Hqo & Hh & HP & Hlogs).
  assert (Hhs : exists rh, (match getBlockNumbers logs with [] => sret [] | _ => retrievedHeaders node (getBlockNumbers logs) end) dh = (dh, rh) /\
    forall hs, rh = Ok hs -> exists p, hs = map (ch_header c) (bfilter p (getBlockNumbers logs))).
  { destruct (getBlockNumbers logs) as [|n ns] eqn:En; [eexists; split; [done|]; intros hs [= <-]; by exists (fun _ => true)|].
    destruct (retrievedHeaders node (n :: ns) dh) as [dh2 rh] eqn:Eh. destruct (retrieved_ok _ _ _ _ _ _ _ Hc Hn Eh) as [-> Hhs]. exists rh. split; [done|].
    intros hs Hr. destruct (Hhs hs Hr) as (res & _ & -> & _). by exists (answered res). }
  destruct Hhs as (rh & Eh & Hhs). unfold sbind in H. rewrite Eh in H. destruct rh as [hs|e]; [|by injection H as <- <-].
  destruct (Hhs hs eq_refl) as [p Ehs]. clear Hhs. rewrite (getState_run P c dh st Hok) in H. pose proof (mo_linked _ _ _ _ Hok) as Hl.
  unfold State_OnNewSyncedLogQuery, State_Clone in H. cbn [st_Synced st_Pending] in H.
  rewrite (Clone_id (st_Synced st)), (Clone_id (st_Pending st)) in H by (apply (lk_synced_wf _ _ Hl) || apply (lk_pending_wf _ _ Hl)).
  rewrite (Clone_id (st_Synced st)), (Clone_id (st_Pending st)) in H by (apply (lk_synced_wf _ _ Hl) || apply (lk_pending_wf _ _ Hl)).
  unfold liftSync in H. destruct (LogQuery_IsEmpty q); [by injection H as <- <-|].
  destruct (Set_SubtractLogQuery (st_Pending st) (Some q)) as [pending'|e] eqn:Es; cbn [rbind] in H; [|by injection H as <- <-].
  destruct (query_linked start st q pending' Hl Hqo Es) as [Hl' _]. set (st' := mkState (Set_AddLogQuery (st_Synced st) (Some q)) pending') in *.
  change (Set_AddLogQuery (st_Synced st) (Some q)) with (st_Synced st') in H.
  destruct (storeData logs hs _ true dh) as [dh2 [x|e]] eqn:Est.
  - injection H as <- <-. exists st'. apply (storeData_ok P c dh st st' logs hs (lq_Addrs q) true dh2 x Hok Hl'); [subst hs; by apply headers_of_chain| | | | | | |exact Est].
    + subst logs. apply Forall_forall. intros l Hl0. by apply chainLogs_In in Hl0 as [? _].
    + intros a n l Hcv Hs Hlc Ha Hln. destruct (query_covers start st q a n Hl Hqo Hcv Hs) as [?|[Hin [_ Hb]]]; [by left|]. right. subst logs.
      apply chainLogs_In. subst. done.
    + intros h Hh0 _. subst hs. apply list_elem_of_fmap in Hh0 as (n & -> & Hh0). apply list_elem_of_In, bfilter_In in Hh0 as [Hh0 _].
      apply list_elem_of_In, getBlockNumbers_In in Hh0 as (l & Hl0 & <-). rewrite (cw_number _ Hc). subst logs. apply chainLogs_In in Hl0 as (_ & _ & Hl0). apply HP. lia.
    + intros a n Hcv Hs. destruct (query_covers start st q a n Hl Hqo Hcv Hs) as [?|[_ [_ Hb]]]; [by left|]. right; left. apply HP. lia.
    + intros a Ha. by apply AddLogQuery_has.
    + intros a n Ha. by apply AddLogQuery_other.
  - apply storeData_Err in Est as ->. by injection H as <- <-.
Qed.

(** ** The unsafe step *)

Lemma listBlockNumbers_last fuel i to acc : (forall x, is_u64 x -> x <= to) -> is_u64 i -> listBlockNumbers_loop fuel i to acc = None.
Proof.
  intros Hall. revert i acc. induction fuel as [|fuel IH]; intros i acc Hi; [done|]. cbn [listBlockNumbers_loop].
  rewrite (proj2 (Z.leb_le i to)) by by apply Hall. apply IH, add64_range.
Qed.

Lemma listBlockNumbers_Some fuel i to acc l :
  is_u64 i -> is_u64 to -> listBlockNumbers_loop fuel i to acc = Some l -> i <= to + 1 -> l = acc ++ seqZ i (to - i + 1).
Proof.
  intros Hi Ht H. assert (Hm : to < MaxUint64).
  { destruct (Z.lt_ge_cases to MaxUint64) as [|Hge]; [done|]. rewrite listBlockNumbers_last in H; [done| |done].
    intros x Hx. unfold_words. lia. }
  revert i acc Hi H. induction fuel as [|fuel IH]; intros i acc Hi H Hle; [done|]. cbn [listBlockNumbers_loop] in H.
  destruct (i <=? to) eqn:E; bool_hyps.
  - rewrite (add64_small i 1) in H by (unfold_words; lia). apply IH in H; [|unfold_words; lia | lia]. subst l.
    rewrite <- app_assoc. f_equal. rewrite (seqZ_cons i) by lia. cbn [app]. f_equal. f_equal; lia.
  - injection H as <-. replace (to - i + 1) with 0 by lia. cbn. by rewrite app_nil_r.
Qed.

Lemma GetTotalPending_spec f : 
  match Set_GetTotalPendingBlockRange f with
  | None => Forall (fun s => SyncSegment_IsEmpty s = true) f
  | Some t => BlockRange_IsEmpty t = false /\
      Forall (fun s => SyncSegment_IsEmpty s = true \/ br_FromBlock t <= br_FromBlock (ss_BlockRange s) /\ br_ToBlock (ss_BlockRange s) <= br_ToBlock t) f /\
      (exists s, s ∈ f /\ SyncSegment_IsEmpty s = false /\ br_FromBlock t = br_FromBlock (ss_BlockRange s)) /\
      (exists s, s ∈ f /\ SyncSegment_IsEmpty s = false /\ br_ToBlock t = br_ToBlock (ss_BlockRange s))
  end.
Proof.
  unfold Set_GetTotalPendingBlockRange. induction f as [|s f IH] using rev_ind; [constructor|]. rewrite fold_left_app. cbn [fold_left].
  destruct (fold_left _ f None) as [t|].
  - destruct IH as (T1 & T2 & (x & X1 & X2 & X3) & (y & Y1 & Y2 & Y3)). destruct (SyncSegment_IsEmpty s) eqn:Es.
    + split_and!; [done | apply Forall_app; split; [done | by repeat constructor]| |].
      * exists x. split_and!; [apply elem_of_app; by left | done | done].
      * exists y. split_and!; [apply elem_of_app; by left | done | done].
    + unfold BlockRange_Extend. rewrite T1. unfold SyncSegment_IsEmpty in Es |- *. rewrite Es. pose proof T1 as T1'. pose proof Es as Es'.
      apply BlockRange_IsEmpty_false in T1' as [_ ?], Es' as [_ ?]. split_and!.
      * apply BlockRange_IsEmpty_false. cbn. split; [done | lia].
      * cbn. apply Forall_app. split; [|constructor; [right; lia | constructor]]. eapply Forall_impl; [exact T2|]. intros z [Hz|Hz]; [by left | right; lia].
      * cbn. destruct (Z.le_ge_cases (br_FromBlock t) (br_FromBlock (ss_BlockRange s))).
        -- exists x. split_and!; [apply elem_of_app; by left | done | lia].
        -- exists s. split_and!; [apply elem_of_app; right; by constructor | done | lia].
      * cbn. destruct (Z.le_ge_cases (br_ToBlock t) (br_ToBlock (ss_BlockRange s))).
        -- exists s. split_and!; [apply elem_of_app; right; by constructor | done | lia].
        -- exists y. split_and!; [apply elem_of_app; by left | done | lia].
  - destruct (SyncSegment_IsEmpty s) eqn:Es; [apply Forall_app; split; [done | by repeat constructor]|].
    split_and!; [done| |exists s; split_and!; [apply elem_of_app; right; by constructor | done | done]..].
    apply Forall_app. split; [eapply Forall_impl; [exact IH|]; by left | constructor; [right; lia | constructor]].
Qed.

(** The blocks of the unsafe zone, one query per block, in their order. *)
Lemma unsafe_fold c st0 cur b k st' :
  chain_wf c -> linked start st0 -> linked start cur -> 1 <= b -> b + Z.of_nat k <= pow2_64 ->
  (forall a p, covered (st_Pending cur) a p <-> covered (st_Pending st0) a p /\ b <= p) ->
  rfold (fun st q =>
    let synced := Set_AddLogQuery (st_Synced st) (Some q) in
    let? pending := Set_SubtractLogQuery (st_Pending st) (Some q) in
    Ok (mkState synced pending)) (getUnsafeLogQueries st0 (map (ch_header c) (seqZ b (Z.of_nat k)))) cur = Ok st' ->
  linked start st' /\
  (forall a n, covered (st_Synced st') a n -> start a <= n -> covered (st_Synced cur) a n \/ (b <= n < b + Z.of_nat k /\ covered (st_Pending st0) a n)) /\
  (forall a n, (forall m, b <= m < b + Z.of_nat k -> ~ covered (st_Pending st0) a m) -> covered (st_Synced st') a n <-> covered (st_Synced cur) a n) /\
  (forall a, is_Some (Set_GetByContract (st_Synced cur) a) \/ (exists m, b <= m < b + Z.of_nat k /\ covered (st_Pending st0) a m) ->
     is_Some (Set_GetByContract (st_Synced st') a)).
Proof.
  intros Hc H0. revert cur b. induction k as [|k IH]; intros cur b Hl Hb Hk Hp H.
  - cbn in H. injection H as <-. split_and!; [done | by left | done | intros a [?|(m & ? & _)]; [done | lia]].
  - rewrite Nat2Z.inj_succ in *. rewrite (seqZ_cons b) in H by lia. cbn [map getUnsafeLogQueries rfold] in H.
    rewrite (cw_number _ Hc) in H. set (q := NewLogQueryBlockHash b _ _) in H.
    assert (Hbr : lq_BlockRange q = NewBlockRange b b) by (unfold q, NewLogQueryBlockHash; cbn; by rewrite (proj2 (Z.eqb_neq b 0)) by lia).
    assert (Haddr : forall a, a ∈ lq_Addrs q <-> covered (st_Pending st0) a b).
    { intros a. unfold q, NewLogQueryBlockHash. cbn [lq_Addrs]. unfold Set_GetAddressesForBlock.
      rewrite list_elem_of_In, GetAddresses_covered by apply (lk_pending_wf _ _ H0). split; [intros (n & Hn & ?); by replace b with n by lia | intros; exists b; split; [done | lia]]. }
    assert (Hq : query_ok cur q).
    { unfold query_ok. rewrite Hbr. split_and!; [apply BlockRange_IsEmpty_false; cbn; split; [done | lia] | split; cbn; unfold_words; lia|].
      intros a Ha. apply Haddr in Ha. cbn. split; [exists b; apply Hp; split; [done | lia]|]. intros p Hpp. apply Hp in Hpp. lia. }
    destruct (Set_SubtractLogQuery (st_Pending cur) (Some q)) as [pending'|e] eqn:Es; cbn [rbind] in H; [|discriminate H].
    destruct (query_linked start cur q pending' Hl Hq Es) as [Hl1 Hp1]. set (cur1 := mkState (Set_AddLogQuery (st_Synced cur) (Some q)) pending') in *.
    replace (Z.succ (Z.of_nat k) - 1) with (Z.of_nat k) in H by lia. replace (Z.pred (Z.succ (Z.of_nat k))) with (Z.of_nat k) in H by lia.
    replace (Z.succ b) with (b + 1) in H by lia.
    destruct (IH cur1 (b + 1) Hl1 ltac:(lia) ltac:(lia)) as (R1 & R2 & R3 & R4); [| exact H |].
    { intros a p. cbn [st_Pending cur1]. rewrite Hp1, Hp, Hbr, br_in_New. split.
      - intros [[Hc0 Hbp] Hn]. split; [done|]. destruct (Z.eq_dec p b) as [->|]; [|lia]. exfalso. apply Hn. split; [by apply Haddr | lia].
      - intros [Hc0 Hbp]. split; [split; [done | lia]|]. intros [_ ?]. lia. }
    split_and!; [done| | |].
    + intros a n Hn Hs. destruct (R2 a n Hn Hs) as [Hcur|[? ?]]; [|right; split; [lia | done]].
      destruct (query_covers start cur q a n Hl Hq Hcur Hs) as [?|[Ha Hbn]]; [by left|]. right. rewrite Hbr, br_in_New in Hbn.
      replace n with b by lia. split; [lia | by apply Haddr].
    + intros a n Hno. rewrite R3 by (intros m Hm; apply Hno; lia). apply AddLogQuery_other. intros Ha. apply Haddr in Ha. apply (Hno b); [lia | done].
    + intros a Ha. apply R4. destruct Ha as [Ha|(m & Hm & Hcm)].
      * left. cbn [cur1 st_Synced]. destruct (decide (a ∈ lq_Addrs q)) as [Hin|Hin]; [by apply AddLogQuery_has|].
        pose proof (fold_LogQuery_range q (lq_Addrs q) (st_Synced cur) a) as Hr. rewrite bool_decide_false in Hr by done. unfold range_of in Hr.
        change (fold_left _ _ (st_Synced cur)) with (Set_AddLogQuery (st_Synced cur) (Some q)) in Hr.
        destruct Ha as [x Hx]. rewrite Hx in Hr. destruct (Set_GetByContract (Set_AddLogQuery (st_Synced cur) (Some q)) a); [done | discriminate Hr].
      * destruct (Z.eq_dec m b) as [->|]; [left; apply AddLogQuery_has; by apply Haddr|]. right. exists m. split; [lia | done].
Qed.

(** The logs of the queries, each by the hash of its block. *)
Lemma requestMultiples_ok head node c st ns logs :
  chain_wf c -> serves head node c -> linked start st -> Forall (fun n => n <= head) ns ->
  requestMultiplesLogs node (getUnsafeLogQueries st (map (ch_header c) ns)) = Ok logs ->
  Forall (fun l => l ∈ ch_logs c) logs /\
  forall n a l, n ∈ ns -> covered (st_Pending st) a n -> l ∈ ch_logs c -> el_Address l = a -> el_BlockNumber l = n -> l ∈ logs.
Proof.
  intros Hc Hn Hl Hhd. unfold requestMultiplesLogs.
  assert (Hg : forall acc, Forall (fun l => l ∈ ch_logs c) acc ->
    rfold (fun all q => match nd_FilterLogs node q with Ok logs => Ok (all ++ logs) | Err _ => Err MErrRPC end) (getUnsafeLogQueries st (map (ch_header c) ns)) acc = Ok logs ->
    Forall (fun l => l ∈ ch_logs c) logs /\ (forall l, l ∈ acc -> l ∈ logs) /\
    forall n a l, n ∈ ns -> covered (st_Pending st) a n -> l ∈ ch_logs c -> el_Address l = a -> el_BlockNumber l = n -> l ∈ logs).
  { induction Hhd as [|n ns Hhn Hhd IH]; intros acc Hacc H.
    - cbn in H. injection H as <-. split_and!; [done | done|]. intros n a l Hn'. by apply not_elem_of_nil in Hn'.
    - cbn [map getUnsafeLogQueries rfold] in H. rewrite (cw_number _ Hc) in H. set (q := NewLogQueryBlockHash n _ _) in H.
      destruct (nd_FilterLogs node q) as [ls|e] eqn:Ef; cbn [rbind] in H; [|discriminate H].
      pose proof (sv_block_logs _ _ _ Hn q n ls Hhn eq_refl Ef) as ->.
      destruct (IH (acc ++ chainLogs c (lq_Addrs q) n n)) as (R1 & R2 & R3); [|exact H|].
      { apply Forall_app. split; [done|]. apply Forall_forall. intros l Hl0. by apply chainLogs_In in Hl0 as [? _]. }
      split_and!; [done | intros l Hl0; apply R2, elem_of_app; by left|].
      intros m a l Hm Hcov Hlc Ha Hln. apply elem_of_cons in Hm as [->|Hm]; [|by eapply R3].
      apply R2, elem_of_app. right. apply chainLogs_In. split; [done|]. split; [|lia]. unfold q, NewLogQueryBlockHash. cbn [lq_Addrs].
      apply list_elem_of_In. unfold Set_GetAddressesForBlock. apply GetAddresses_covered; [apply (lk_pending_wf _ _ Hl)|]. exists n. split; [by subst a | lia]. }
  intros H. destruct (Hg [] ltac:(constructor) H) as (R1 & _ & R3). done.
Qed.

Lemma getContracts_In queries a : a ∈ getContracts queries <-> exists q, q ∈ queries /\ a ∈ lq_Addrs q.
Proof.
  unfold getContracts. rewrite merge_sort_Permutation, elem_of_remove_dups, list_elem_of_In, in_concat. split.
  - intros (l & Hl & Ha). apply in_map_iff in Hl as (q & <- & Hq). exists q. split; by apply list_elem_of_In.
  - intros (q & Hq & Ha). exists (lq_Addrs q). split; [apply in_map|]; by apply list_elem_of_In.
Qed.

(** What is answered of a batch of consecutive blocks is a beginning of it. *)
Lemma answered_prefix (p : Z -> bool) b k :
  (forall n m, b <= n < m -> m < b + Z.of_nat k -> p n = false -> p m = false) ->
  exists k', (k' <= k)%nat /\ bfilter p (seqZ b (Z.of_nat k)) = seqZ b (Z.of_nat k').
Proof.
  revert b. induction k as [|k IH]; intros b Hp; [exists O; split; [lia | done]|].
  rewrite Nat2Z.inj_succ, (seqZ_cons b) by lia. cbn. replace (Z.pred (Z.succ (Z.of_nat k))) with (Z.of_nat k) by lia.
  destruct (IH (Z.succ b)) as (k' & Hk & E); [intros n m ? ?; apply Hp; lia|]. destruct (p b) eqn:Eb.
  - exists (S k'). split; [lia|]. rewrite Nat2Z.inj_succ, (seqZ_cons b) by lia. replace (Z.pred (Z.succ (Z.of_nat k'))) with (Z.of_nat k') by lia. by rewrite E.
  - exists O. split; [lia|]. rewrite E. destruct k' as [|k']; [done|]. exfalso.
    assert (Hin : In (Z.succ b) (bfilter p (seqZ (Z.succ b) (Z.of_nat k)))) by (rewrite E, Nat2Z.inj_succ, (seqZ_cons (Z.succ b)) by lia; by left).
    apply bfilter_In in Hin as [_ Hin]. rewrite (Hp b (Z.succ b)) in Hin; [done | lia | lia | done].
Qed.

Lemma StepUnsafe_ok P head node c dh st lb dh' r :
  chain_wf c -> serves head node c -> md_ok P c dh st -> StepUnsafe lb node dh = (dh', r) -> step_ok P c dh dh' r.
Proof.
  intros Hc Hn Hok H. pose proof (mo_linked _ _ _ _ Hok) as Hl. pose proof (lk_pending_wf _ _ Hl) as [Hnd Hw]. rewrite Forall_forall in Hw.
  unfold StepUnsafe in H. unfold sbind at 1 in H. rewrite (getState_run P c dh st Hok) in H.
  pose proof (GetTotalPending_spec (st_Pending st)) as Ht. destruct (Set_GetTotalPendingBlockRange (st_Pending st)) as [t|]; [|injection H as <- <-; by exists st].
  destruct Ht as (T1 & T2 & (x & X1 & X2 & X3) & (y & Y1 & Y2 & Y3)). pose proof T1 as T1'. apply BlockRange_IsEmpty_false in T1' as [_ T3].
  assert (Hlow : 1 <= br_FromBlock t).
  { unfold SyncSegment_IsEmpty in X2. apply BlockRange_IsEmpty_false in X2 as [X2 X4].
    rewrite X3. apply (lk_low _ _ Hl (ss_ContractAddr x)). exists (ss_BlockRange x). split; [|split; [done | lia]].
    unfold range_of. by rewrite (GetByContract_NoDup _ x Hnd ltac:(by apply list_elem_of_In)). }
  destruct (Hw x X1) as [Wx _], (Hw y Y1) as [_ Wy].
  assert (Hin : forall a p, covered (st_Pending st) a p -> br_FromBlock t <= p <= br_ToBlock t).
  { intros a p (b & Hb & Hp1 & Hp2). unfold range_of in Hb. apply fmap_Some in Hb as (seg & Hseg & ->). apply GetByContract_In, list_elem_of_In in Hseg.
    rewrite Forall_forall in T2. destruct (T2 seg Hseg) as [He|He]; [|lia]. unfold SyncSegment_IsEmpty in He. rewrite BlockRange_IsEmpty_true in He. exfalso. by apply (He p). }
  unfold BlockRange_ListBlockNumbers in H. rewrite T1 in H. destruct (listBlockNumbers_loop lb _ _ []) as [blocks|] eqn:Elb; [|by injection H as <- <-].
  apply listBlockNumbers_Some in Elb; [|by rewrite X3 | by rewrite Y3 | lia]. cbn [app] in Elb.
  unfold sbind at 1 in H. destruct (retrievedHeaders node blocks dh) as [dh1 [hs|e]] eqn:Eh; destruct (retrieved_ok _ _ _ _ _ _ _ Hc Hn Eh) as [-> Hhs];
    [|by injection H as <- <-]. destruct (Hhs hs eq_refl) as (res & Eres & Ehs & Hhd). clear Hhs.
  unfold sbind at 1, slift at 1 in H. destruct (requestMultiplesLogs node (getUnsafeLogQueries st hs)) as [logs|e] eqn:Em; [|by injection H as <- <-].
  unfold sbind at 1, slift at 1 in H. destruct (checkIntegrityNewLogsBlockHeaders logs hs) as [u0|e]; [|by injection H as <- <-].
  unfold sbind at 1, liftSync at 1 in H. destruct (newStateAfterLogQueries st (getUnsafeLogQueries st hs)) as [st'|e] eqn:En; [|by injection H as <- <-].
  unfold newStateAfterLogQueries, State_Clone in En. rewrite (Clone_id (st_Synced st)), (Clone_id (st_Pending st)) in En by (apply (lk_synced_wf _ _ Hl) || apply (lk_pending_wf _ _ Hl)).
  subst hs blocks. set (k0 := Z.to_nat (br_ToBlock t - br_FromBlock t + 1)) in *.
  replace (br_ToBlock t - br_FromBlock t + 1) with (Z.of_nat k0) in * by (unfold k0; rewrite Z2Nat.id; lia).
  assert (Hk0 : br_FromBlock t + Z.of_nat k0 = br_ToBlock t + 1) by (unfold k0; rewrite Z2Nat.id; lia).
  destruct (answered_prefix (answered res) (br_FromBlock t) k0) as (k & Hk & Ek).
  { intros n m ? ? Hnone. unfold answered in *. destruct (hr_lookup res n) eqn:E0; [done|].
    by rewrite (sv_no_hole _ _ _ Hn _ _ res n m Eres ltac:(lia) ltac:(lia) E0). }
  rewrite Ek in *.
  destruct (unsafe_fold c st (mkState (st_Synced st) (st_Pending st)) (br_FromBlock t) k st' Hc Hl) as (R1 & R2 & R3 & R4); [by destruct st | lia | rewrite <- Y3 in Wy; unfold_words; lia| |exact En|].
  { intros a p. cbn. split; [intros Hp; split; [done|]; apply (Hin a p Hp) | by intros [? _]]. }
  cbn [st_Synced st_Pending] in R2, R3, R4.
  destruct (requestMultiples_ok head node c st (seqZ (br_FromBlock t) (Z.of_nat k)) logs Hc Hn Hl Hhd Em) as [M1 M2].
  set (queries := getUnsafeLogQueries st (map (ch_header c) (seqZ (br_FromBlock t) (Z.of_nat k)))) in *.
  assert (Haddrs : forall a, a ∈ getContracts queries <-> exists m, br_FromBlock t <= m < br_FromBlock t + Z.of_nat k /\ covered (st_Pending st) a m).
  { intros a. rewrite getContracts_In. unfold queries, getUnsafeLogQueries. split.
    - intros (q & Hq & Ha). apply list_elem_of_fmap in Hq as (h & -> & Hh). apply list_elem_of_fmap in Hh as (m & -> & Hm). apply elem_of_seqZ in Hm.
      unfold NewLogQueryBlockHash in Ha. cbn [lq_Addrs] in Ha. rewrite (cw_number _ Hc) in Ha. apply list_elem_of_In in Ha. unfold Set_GetAddressesForBlock in Ha.
      apply GetAddresses_covered in Ha as (n & Hcn & ?); [|done]. exists m. split; [lia|]. by replace m with n by lia.
    - intros (m & Hm & Hcm). eexists. split; [apply list_elem_of_fmap; eexists; split; [reflexivity|]; apply list_elem_of_fmap; exists m; split; [reflexivity|]; apply elem_of_seqZ; lia|].
      unfold NewLogQueryBlockHash. cbn [lq_Addrs]. rewrite (cw_number _ Hc). apply list_elem_of_In. unfold Set_GetAddressesForBlock. apply GetAddresses_covered; [done|].
      exists m. split; [done | lia]. }
  unfold sbind at 1 in H. destruct (storeData logs _ _ false dh) as [dh2 [x0|e]] eqn:Est.
  - injection H as <- <-. exists st'. apply (storeData_ok P c dh st st' logs (map (ch_header c) (seqZ (br_FromBlock t) (Z.of_nat k))) (getContracts queries) false dh2 x0 Hok R1); [| | | | | | |exact Est].
    + by apply headers_of_chain.
    + exact M1.
    + intros a n l Hcv Hs Hlc Ha Hln. destruct (R2 a n Hcv Hs) as [?|[Hr Hcp]]; [by left|]. right. apply (M2 n a l); try done. apply elem_of_seqZ. lia.
    + done.
    + intros a n Hcv Hs. destruct (R2 a n Hcv Hs) as [?|[Hr _]]; [by left|]. right; right. exists (ch_header c n). split; [|apply (cw_number _ Hc)].
      apply list_elem_of_fmap. exists n. split; [done|]. apply elem_of_seqZ. lia.
    + intros a Ha. apply Haddrs in Ha. apply R4. by right.
    + intros a n Ha. apply R3. intros m Hm Hcm. apply Ha, Haddrs. by exists m.
  - apply storeData_Err in Est as ->. by injection H as <- <-.
Qed.

End Start.
