(* ===== verification/MultiRun.v ===== *)
(** The multidownloader over a chain that reorganises: whatever steps, failures, restarts and reorgs happened, an
    available query is answered with the logs of the chain the last successful step saw. *)

From S2P Require Import Prelude BlockRange Finality Tables SyncSegments MultiStorage MultiEngine MultiProofs MultiChain.

(** ** Chains that share their past *)

Definition agree (c k : Chain) (n : Z) : Prop :=
  (forall m, m <= n -> ch_header c m = ch_header k m) /\
  (forall l, el_BlockNumber l <= n -> l ∈ ch_logs c <-> l ∈ ch_logs k).

Lemma agree_refl c n : agree c c n.
Proof. by split. Qed.

Lemma agree_trans c k d n : agree c k n -> agree k d n -> agree c d n.
Proof. intros [H1 H2] [H3 H4]. split; [intros m Hm; by rewrite H1, H3 | intros l Hl; by rewrite H2, H4]. Qed.

Lemma agree_le c k n m : agree c k n -> m <= n -> agree c k m.
Proof. intros [H1 H2] Hm. split; intros; [apply H1 | apply H2]; lia. Qed.

Section Run.
Context (start : Z -> Z) (start_range : forall a, 1 <= start a < pow2_64).

(** The chains the node may follow: a block hash fixes the chain below it. *)
Context (world : Chain -> Prop) (world_wf : forall c, world c -> chain_wf c)
  (world_hash : forall c k n, world c -> world k -> bh_Hash (ch_header c n) = bh_Hash (ch_header k n) -> agree c k n).

(** ** Tables without a state *)

Record tables_ok (P : Z -> Prop) (c : Chain) (db : mdb) : Prop := {
  to_db : db_ok c db;
  to_complete : complete start c db (covered (GetSyncedBlockRangePerContract db));
  to_settled : settled start P db (covered (GetSyncedBlockRangePerContract db));
  to_start : forall a s, covered (GetSyncedBlockRangePerContract db) a s ->
    exists m, m <= start a /\ covered (GetSyncedBlockRangePerContract db) a m
}.

Lemma md_tables P c dh st : md_ok start P c dh st -> tables_ok P c (md_db dh).
Proof.
  intros [Hs Hl Hcf Hdb Hcm [S1 S2] Ha]. split; [done| | |].
  - intros a n l Hn. apply Hcm. by apply Ha.
  - split; [done|]. intros a n Hn. apply (S2 a). by apply Ha.
  - intros a s Hc. apply Ha in Hc. destruct (lk_synced_start _ _ Hl a s Hc) as (m & Hm & Hmc). exists m. split; [done | by apply Ha].
Qed.

Lemma md_settled_mono (P Q : Z -> Prop) c dh st : (forall n, P n -> Q n) -> md_ok start P c dh st -> md_ok start Q c dh st.
Proof. intros H [? ? ? ? ? [S1 S2] ?]. split; try done. split; [auto|]. intros a n Hn Hs. destruct (S2 a n Hn Hs); auto. Qed.

(** Tables whose blocks are on another chain as well. *)
Lemma db_transfer c k db : db_ok c db -> (forall r, r ∈ mb_blocks db -> agree c k (bl_Number r)) -> db_ok k db.
Proof.
  intros [B L F N S] H. split; try done.
  - intros r Hr. rewrite (B r Hr). apply (H r Hr). lia.
  - intros r Hr. destruct (L r Hr) as (l & Hl & <-). exists l. split; [|done]. pose proof (F _ Hr) as Hb. cbn in Hb. apply hasBlockRow_iff in Hb as (b & Hb & Eb).
    apply (H b Hb); [lia | done].
Qed.

Lemma complete_transfer P c k db cov :
  settled start P db cov -> complete start c db cov -> (forall n, P n -> agree c k n) -> (forall r, r ∈ mb_blocks db -> agree c k (bl_Number r)) ->
  complete start k db cov.
Proof.
  intros [_ S] Hc HP Hr a n l Hn Hs Hl Ha Hln. apply (Hc a n l); try done.
  destruct (S a n Hn Hs) as [Hp|Hb]; [apply (HP n Hp); [lia | done]|].
  apply hasBlockRow_iff in Hb as (b & Hb & Eb). apply (Hr b Hb); [lia | done].
Qed.

Lemma md_transfer (P Q : Z -> Prop) c k dh st :
  md_ok start P c dh st -> (forall n, P n -> agree c k n) -> (forall n, P n -> Q n) -> (forall r, r ∈ mb_blocks (md_db dh) -> agree c k (bl_Number r)) ->
  md_ok start Q k dh st.
Proof.
  intros Hok HP HQ Hr. apply (md_settled_mono P); [done|]. destruct Hok as [H1 H2 H3 H4 H5 H6 H7].
  split; try done; [by eapply db_transfer | by eapply complete_transfer].
Qed.

(** ** A state from the tables *)

Lemma newState_ok P c dh node head k dh' r :
  tables_ok P c (md_db dh) -> starts_at start (md_syncersConfig dh) -> serves head node k ->
  newStateFromStorage node dh = (dh', r) -> dh' = dh /\ forall st, r = Ok st -> md_ok start P c (set_state st dh) st.
Proof.
  intros Ht Hs Hn H. unfold newStateFromStorage, sbind, sget, orRPC, liftSync in H.
  destruct (mapBlockTagToBlockNumber node (md_syncersConfig dh)) as [blocks|] eqn:Eb; [|by injection H as <- <-].
  destruct (SyncSegments _ blocks) as [segs|e] eqn:Es; [|by injection H as <- <-].
  destruct (NewStateFromStorageSyncedBlocks _ segs) as [st|e] eqn:En; injection H as <- <-; [|done]. split; [done|]. intros x [= <-].
  assert (Hb : forall t n, blocks t = Some n -> is_u64 n).
  { intros t n Ht'. unfold mapBlockTagToBlockNumber in Eb. destruct (forallb _ _); [|done]. injection Eb as <-.
    destruct (bool_decide _); [by eapply sv_numbers | done]. }
  pose proof (do_status _ _ (to_db _ _ _ Ht)) as [Hnd Hw].
  destruct (fromStorage_linked start start_range _ _ _ (GetSynced_wf _ Hnd Hw) (to_start _ _ _ Ht)
    (SyncSegments_from_start start start_range _ _ _ Hs Hb Es) En) as [Hl Hsy].
  split; cbn [md_state set_state md_db md_syncersConfig]; rewrite ?Hsy; [done | done | done | apply Ht | apply Ht | apply Ht | done].
Qed.

Lemma upsertConfig_ok rows c :
  NoDup (map sy_Address rows) -> Forall (fun r => is_u64 (sy_SyncedFromBlock r) /\ is_u64 (sy_SyncedToBlock r)) rows ->
  NoDup (map sy_Address (upsertConfig rows c)) /\
  Forall (fun r => is_u64 (sy_SyncedFromBlock r) /\ is_u64 (sy_SyncedToBlock r)) (upsertConfig rows c) /\
  forall a n, (exists r, r ∈ upsertConfig rows c /\ sy_Address r = a /\ br_in n (row_range r)) <->
              (exists r, r ∈ rows /\ sy_Address r = a /\ br_in n (row_range r)).
Proof.
  intros Hnd Hw. unfold upsertConfig. destruct (existsb _ rows) eqn:E.
  - set (f := fun r => if sy_Address r =? cf_Address c then _ else r).
    assert (Hf : forall r, sy_Address (f r) = sy_Address r /\ sy_SyncedFromBlock (f r) = sy_SyncedFromBlock r /\ sy_SyncedToBlock (f r) = sy_SyncedToBlock r)
      by (intros r; unfold f; by destruct (_ =? _)).
    assert (Hr : forall r, row_range (f r) = row_range r) by (intros r; destruct (Hf r) as (_ & E1 & E2); unfold row_range, ToSyncSegment; cbn; by rewrite E1, E2).
    split_and!.
    + by rewrite (map_status_addresses f) by (intros r; apply (Hf r)).
    + apply Forall_map. eapply Forall_impl; [exact Hw|]. intros r Hr'. cbn. destruct (Hf r) as (_ & -> & ->). done.
    + intros a n. split.
      * intros (r & Hr' & Ha & Hn). apply list_elem_of_fmap in Hr' as (r0 & -> & Hr0). rewrite Hr in Hn. exists r0. split_and!; [done | rewrite <- Ha; symmetry; apply (Hf r0) | done].
      * intros (r & Hr' & Ha & Hn). exists (f r). split_and!; [apply list_elem_of_fmap; by exists r | rewrite <- Ha; apply (Hf r) | by rewrite Hr].
  - rewrite existsb_false_In in E. split_and!.
    + rewrite map_app. apply NoDup_app. split_and!; [done| |apply NoDup_singleton]. intros a Ha Hx. apply list_elem_of_singleton in Hx. cbn in Hx. subst a.
      apply list_elem_of_fmap in Ha as (r & Er & Hr). specialize (E r ltac:(by apply list_elem_of_In)). cbn in E. bool_hyps. congruence.
    + apply Forall_app. split; [done|]. constructor; [cbn; unfold_words; lia | constructor].
    + intros a n. split; [|intros (r & Hr & ?); exists r; split; [apply elem_of_app; by left | done]].
      intros (r & Hr & Ha & Hn). apply elem_of_app in Hr as [Hr|Hr]; [by exists r|]. apply list_elem_of_singleton in Hr. subst r. by apply br_in_Zero in Hn.
Qed.

Lemma Upsert_tables P c configs db : tables_ok P c db -> tables_ok P c (UpsertSyncerConfigs configs db).
Proof.
  intros Ht. pose proof (do_status _ _ (to_db _ _ _ Ht)) as [Hnd Hw].
  assert (H : NoDup (map sy_Address (fold_left upsertConfig configs (mb_sync_status db))) /\
    Forall (fun r => is_u64 (sy_SyncedFromBlock r) /\ is_u64 (sy_SyncedToBlock r)) (fold_left upsertConfig configs (mb_sync_status db)) /\
    forall a n, (exists r, r ∈ fold_left upsertConfig configs (mb_sync_status db) /\ sy_Address r = a /\ br_in n (row_range r)) <->
                (exists r, r ∈ mb_sync_status db /\ sy_Address r = a /\ br_in n (row_range r))).
  { clear Ht. revert Hnd Hw. generalize (mb_sync_status db). induction configs as [|x configs IH]; intros rows Hnd Hw; cbn; [by split_and!|].
    destruct (upsertConfig_ok rows x Hnd Hw) as (A & B & C). destruct (IH _ A B) as (A' & B' & C'). split_and!; [done | done|]. intros a n. by rewrite C', C. }
  destruct H as (A & B & C).
  assert (Hcov : forall a n, covered (GetSyncedBlockRangePerContract (UpsertSyncerConfigs configs db)) a n <-> covered (GetSyncedBlockRangePerContract db) a n).
  { intros a n. rewrite !GetSynced_covered by done. apply C. }
  destruct Ht as [[D1 D2 D3 D4 D5] T2 [T3 T4] T5]. split.
  - by split.
  - intros a n l Hn. apply T2. by apply Hcov.
  - split; [done|]. intros a n Hn. apply (T4 a). by apply Hcov.
  - intros a s Hc. apply Hcov in Hc. destruct (T5 a s Hc) as (m & Hm & Hmc). exists m. split; [done | by apply Hcov].
Qed.

Lemma Initialize_ok P c dh node head k ok dh' r :
  tables_ok P c (md_db dh) -> starts_at start (md_syncersConfig dh) -> serves head node k -> Initialize node ok dh = (dh', r) ->
  tables_ok P c (md_db dh') /\ starts_at start (md_syncersConfig dh') /\ md_cfg dh' = md_cfg dh /\
  match r with Ok _ => exists st, md_ok start P c dh' st | Err _ => md_state dh' = md_state dh end.
Proof.
  intros Ht Hs Hn H. unfold Initialize, sbind at 1, sget in H. destruct (md_state dh) as [s|] eqn:Es; [by injection H as <- <-|].
  destruct ok; cbn [negb] in H; [|by injection H as <- <-]. unfold sbind, smodify in H.
  set (dh1 := set_mdb _ dh) in H. pose proof (Upsert_tables P c (ContractConfigs (md_syncersConfig dh)) (md_db dh) Ht) as Ht1.
  destruct (newStateFromStorage node dh1) as [dh2 [st|e]] eqn:En; destruct (newState_ok P c dh1 node head k _ _ Ht1 Hs Hn En) as [-> Hst]; injection H as <- <-.
  - specialize (Hst st eq_refl). split_and!; [done | done | done | by exists st].
  - by split_and!.
Qed.

(** ** Detection *)

Lemma detectReorgs_Ok head node c k blocks u :
  world c -> world k -> serves head node k -> Forall (fun h => h = ch_header c (bh_Number h)) blocks ->
  detectReorgs node blocks = Ok u -> forall h, h ∈ blocks -> agree c k (bh_Number h).
Proof.
  intros Wc Wk Hn Hb H h Hh. unfold detectReorgs in H. destruct blocks as [|b0 bs] eqn:Eb; [by apply not_elem_of_nil in Hh|]. rewrite <- Eb in *. clear Eb b0 bs.
  destruct (nd_RetrieveBlockHeaders node (blockNumbers blocks)) as [rpc|] eqn:Er; [|done].
  destruct (hr_Success rpc); cbn [negb] in H; [|destruct (hr_AreAllErrorsNotFound rpc); [destruct (hr_ListBlocksNumberNotFound rpc)|]; done].
  assert (Hin : bh_Number h ∈ blockNumbers blocks).
  { unfold blockNumbers. rewrite merge_sort_Permutation. apply list_elem_of_fmap. by exists h. }
  assert (Hall : forall ns, (forall n, n ∈ ns -> n ∈ blockNumbers blocks) -> compareHeaders blocks rpc ns = Ok u -> bh_Number h ∈ ns -> agree c k (bh_Number h)).
  { induction ns as [|n ns IH]; intros Hsub Hc Hns; [by apply not_elem_of_nil in Hns|]. cbn [compareHeaders] in Hc.
    destruct (hr_lookup rpc n) as [h0|] eqn:El; [|done]. destruct (sv_headers _ _ _ Hn _ _ n h0 Er (Hsub n ltac:(by constructor)) El) as [-> _].
    unfold lookupHeader in Hc. destruct (List.find _ (rev blocks)) as [s|] eqn:Ef; [|done]. apply find_some in Ef as [Hs En]. bool_hyps. rewrite <- in_rev in Hs.
    destruct (bh_Hash s =? bh_Hash (ch_header k n)) eqn:Eh; cbn [negb] in Hc; [|done]. bool_hyps.
    apply elem_of_cons in Hns as [<-|Hns]; [|apply IH; [intros m Hm; apply Hsub; by constructor | done | done]].
    apply world_hash; [done | done|]. rewrite Forall_forall in Hb. specialize (Hb s ltac:(by apply list_elem_of_In)). rewrite En in Hb. by rewrite <- Eh, <- Hb. }
  by apply (Hall (blockNumbers blocks)).
Qed.

Lemma notFinalized_of_chain c db m : chain_wf c -> db_ok c db -> Forall (fun h => h = ch_header c (bh_Number h)) (GetBlockHeadersNotFinalized db m).
Proof.
  intros Hc Hdb. apply Forall_forall. intros h Hh. unfold GetBlockHeadersNotFinalized in Hh. apply list_elem_of_fmap in Hh as (r & -> & Hr).
  apply list_elem_of_In, bfilter_In in Hr as [Hr _]. apply list_elem_of_In in Hr. cbn. apply (do_blocks _ _ Hdb r Hr).
Qed.

Lemma notFinalized_has db m r :
  r ∈ mb_blocks db -> bl_IsFinal r = false -> match m with Some x => bl_Number r <= x | None => True end -> headerOf r ∈ GetBlockHeadersNotFinalized db m.
Proof.
  intros Hr Hf Hm. apply list_elem_of_fmap. exists r. split; [done|]. apply list_elem_of_In, bfilter_In. split; [by apply list_elem_of_In|].
  rewrite Hf. cbn. destruct m as [x|]; [by apply Z.leb_le | done].
Qed.

(** ** One iteration *)

(** What no reorg reaches, as the node of chain [k] knows it, for tables of chain [c]. *)
Definition firm (fin : Z) (c k : Chain) (n : Z) : Prop := n <= fin /\ agree c k n.

Definition fin_after (node : Node) (dh : Downloader) (fin : Z) : Z :=
  match nd_CurrentBlockNumber node (cg_BlockFinality (md_cfg dh)) with Some f => Z.max fin f | None => fin end.

Lemma firm_next fin fin' c k k' n : fin <= fin' -> agree k k' fin -> firm fin c k n -> firm fin' c k' n.
Proof. intros Hf Ha [Hn Hc]. split; [lia|]. apply (agree_trans c k); [done | by apply (agree_le k k' fin)]. Qed.

Lemma updateTarget_ok P c dh st head node k dh' r :
  md_ok start P c dh st -> serves head node k -> updateTargetBlockNumber node dh = (dh', r) ->
  md_cfg dh' = md_cfg dh /\ md_db dh' = md_db dh /\ exists st', md_ok start P c dh' st' /\ st_Synced st' = st_Synced st.
Proof.
  intros Hok Hn H. unfold updateTargetBlockNumber, sbind, sget, orRPC in H.
  destruct (mapBlockTagToBlockNumber node (md_syncersConfig dh)) as [blocks|] eqn:Eb; [|injection H as <- <-; split_and!; [done | done | by exists st]].
  rewrite (getState_run start P c dh st Hok) in H. unfold liftSync in H.
  destruct (State_ExtendPendingRange st blocks (md_syncersConfig dh)) as [st'|e] eqn:Ee; injection H as <- <-; [|split_and!; [done | done | by exists st]].
  assert (Hb : forall t n, blocks t = Some n -> is_u64 n).
  { intros t n Ht'. unfold mapBlockTagToBlockNumber in Eb. destruct (forallb _ _); [|done]. injection Eb as <-.
    destruct (bool_decide _); [by eapply sv_numbers | done]. }
  destruct Hok as [H1 H2 H3 H4 H5 H6 H7].
  destruct (ExtendPendingRange_linked start start_range _ _ _ _ H2 H3 Hb Ee) as [Hl Hsy]. split_and!; [done | done|]. exists st'. split; [|done].
  split; cbn [md_state set_state md_db md_syncersConfig]; rewrite ?Hsy; done.
Qed.

Lemma hasBlockRow_map f db n : (forall r, bl_Number (f r) = bl_Number r) -> hasBlockRow (set_blocks (map f) db) n = hasBlockRow db n.
Proof.
  intros Hf. apply eq_true_iff_eq. rewrite !hasBlockRow_iff. cbn [mb_blocks set_blocks]. split.
  - intros (r & Hr & E). apply list_elem_of_fmap in Hr as (r0 & -> & Hr0). exists r0. by rewrite Hf in E.
  - intros (r & Hr & E). exists (f r). split; [apply list_elem_of_fmap; by exists r | by rewrite Hf].
Qed.

(** Marking blocks that no reorg reaches as final. *)
Lemma finalize_ok (P : Z -> Prop) c dh st ns :
  md_ok start P c dh st -> (forall r, r ∈ mb_blocks (md_db dh) -> bl_Number r ∈ ns -> P (bl_Number r)) ->
  md_ok start P c (set_mdb (UpdateBlockToFinalized ns (md_db dh)) dh) st.
Proof.
  intros [H1 H2 H3 [D1 D2 D3 D4 D5] H5 [S1 S2] H7] HP. unfold UpdateBlockToFinalized. set (f := fun r => if existsb _ _ then _ else r).
  assert (Hf : forall r, bl_Number (f r) = bl_Number r) by (intros r; unfold f; by destruct (existsb _ _)).
  split; cbn [md_state set_mdb md_db md_syncersConfig]; try done.
  - split; try done.
    + intros r Hr. apply list_elem_of_fmap in Hr as (r0 & -> & Hr0). rewrite Hf, <- (D1 r0 Hr0). unfold f. by destruct (existsb _ _).
    + intros r Hr. rewrite (hasBlockRow_map f) by done. by apply D3.
  - split.
    + intros r Hr Hfin. apply list_elem_of_fmap in Hr as (r0 & -> & Hr0). rewrite Hf. unfold f in Hfin.
      destruct (existsb (Z.eqb (bl_Number r0)) ns) eqn:E; [|by apply S1]. apply existsb_exists in E as (n & Hn & En). bool_hyps. subst n.
      apply HP; [done | by apply list_elem_of_In].
    + intros a n Hn Hs. rewrite (hasBlockRow_map f) by done. by apply (S2 a).
Qed.

Lemma move_ok fin c k dh st head node dh' r :
  world c -> world k -> serves head node k -> md_ok start (firm fin c k) c dh st ->
  (forall f, nd_CurrentBlockNumber node (cg_BlockFinality (md_cfg dh)) = Some f -> f <= fin) ->
  moveUnsafeToSafeIfPossible node dh = (dh', r) ->
  md_ok start (firm fin c k) c dh' st /\ md_cfg dh' = md_cfg dh.
Proof.
  intros Wc Wk Hn Hok Hfin H. unfold moveUnsafeToSafeIfPossible, sbind in H.
  destruct (GetFinalized_read node dh) as [[f|e] Er]; rewrite Er in H; [|by injection H as <- <-]. pose proof (Hfin f (GetFinalized_Ok _ _ _ _ Er)) as Hf.
  unfold sget in H. set (blocks := GetBlockHeadersNotFinalized (md_db dh) (Some f)) in *.
  destruct blocks as [|b0 bs] eqn:Eb; [by injection H as <- <-|]. rewrite <- Eb in *. clear b0 bs Eb. unfold slift, smodify in H.
  destruct (detectReorgs node blocks) as [u|e] eqn:Ed; injection H as <- <-; [|done]. split; [|done].
  pose proof (mo_db _ _ _ _ _ Hok) as Hdb. pose proof (detectReorgs_Ok head node c k blocks u Wc Wk Hn (notFinalized_of_chain c _ _ (world_wf c Wc) Hdb) Ed) as Hag.
  apply finalize_ok; [done|]. intros r0 Hr0 Hin. unfold blockNumbers in Hin. rewrite merge_sort_Permutation in Hin. apply list_elem_of_fmap in Hin as (h & E & Hh).
  rewrite E. split; [|by apply Hag]. subst blocks. unfold GetBlockHeadersNotFinalized in Hh. apply list_elem_of_fmap in Hh as (r1 & -> & Hr1).
  apply list_elem_of_In, bfilter_In in Hr1 as [_ Hb]. bool_hyps. cbn. lia.
Qed.

(** After the checks every stored block is on the chain of the node. *)
Lemma checked_ok fin c k dh st head node u :
  world c -> world k -> serves head node k -> md_ok start (firm fin c k) c dh st -> checkReorgsUnsafeZone node dh = (dh, Ok u) ->
  md_ok start (firm fin k k) k dh st.
Proof.
  intros Wc Wk Hn Hok H. unfold checkReorgsUnsafeZone, sbind, sget, slift in H. destruct (detectReorgs node _) as [u'|e] eqn:Ed; [|done].
  pose proof (mo_db _ _ _ _ _ Hok) as Hdb. pose proof (detectReorgs_Ok head node c k _ u' Wc Wk Hn (notFinalized_of_chain c _ _ (world_wf c Wc) Hdb) Ed) as Hag.
  apply (md_transfer (firm fin c k) _ c); [done | by intros n [_ ?] | intros n [? _]; split; [done | apply agree_refl]|].
  intros r Hr. destruct (bl_IsFinal r) eqn:Ef; [apply (proj1 (mo_settled _ _ _ _ _ Hok) r Hr Ef)|].
  apply (Hag (headerOf r)). by apply notFinalized_has.
Qed.

Lemma StartStep_ok fin c k k' dh st fuel lb head node dh' r :
  world c -> world k' -> serves head node k' -> agree k k' fin -> md_ok start (firm fin c k) c dh st ->
  (forall f, nd_CurrentBlockNumber node (cg_BlockFinality (md_cfg dh)) = Some f -> f <= head) ->
  StartStep fuel lb node dh = (dh', r) ->
  let c' := match r with Ok _ => k' | Err _ => c end in
  exists st', md_ok start (firm (fin_after node dh fin) c' k') c' dh' st'.
Proof.
  intros Wc Wk Hn Hag Hok Hhead H. cbn zeta. set (fin' := fin_after node dh fin).
  assert (Hfin : fin <= fin' /\ forall f, nd_CurrentBlockNumber node (cg_BlockFinality (md_cfg dh)) = Some f -> f <= fin').
  { unfold fin', fin_after. destruct (nd_CurrentBlockNumber node _); split; [lia | intros ? [= <-]; lia | lia | done]. }
  destruct Hfin as [Hf1 Hf2].
  assert (Hok1 : md_ok start (firm fin' c k') c dh st) by (apply (md_settled_mono (firm fin c k)); [intros n; by apply firm_next | done]). clear Hok.
  unfold StartStep in H. unfold sbind at 1 in H. destruct (updateTargetBlockNumber node dh) as [dh1 [u1|e]] eqn:E1;
    destruct (updateTarget_ok _ c dh st head node k' _ _ Hok1 Hn E1) as (C1 & _ & st1 & Hok2 & _); [|injection H as <- <-; by exists st1].
  unfold sbind at 1 in H. rewrite <- C1 in Hf2, Hhead. destruct (moveUnsafeToSafeIfPossible node dh1) as [dh2 [u2|e]] eqn:E2;
    destruct (move_ok fin' c k' dh1 st1 head node _ _ Wc Wk Hn Hok2 Hf2 E2) as [Hok3 C2]; [|injection H as <- <-; by exists st1].
  rewrite <- C2 in Hf2, Hhead. unfold sbind at 1 in H.
  assert (Hcd : exists rc, checkReorgsUnsafeZone node dh2 = (dh2, rc)) by (unfold checkReorgsUnsafeZone, sbind, sget, slift; destruct (detectReorgs _ _); by eexists).
  destruct Hcd as [rc Ec]. rewrite Ec in H. destruct rc as [u3|e]; [|injection H as <- <-; by exists st1].
  pose proof (checked_ok fin' c k' dh2 st1 head node u3 Wc Wk Hn Hok3 Ec) as Hok4. pose proof (world_wf k' Wk) as Wf.
  unfold sbind at 1 in H. rewrite (getState_run start _ k' dh2 st1 Hok4) in H.
  destruct (Set_GetTotalPendingBlockRange (st_Pending st1)) as [t|]; [|injection H as <- <-; by exists st1].
  unfold sbind at 1 in H. destruct (GetFinalized_read node dh2) as [[f|e] Er]; rewrite Er in H; [|injection H as <- <-; by exists st1].
  assert (Hfb : final_below (firm fin' k' k') head node dh2).
  { intros x Hx. split; [by apply Hhead|]. intros n Hnx. split; [specialize (Hf2 x Hx); lia | apply agree_refl]. }
  destruct (BlockRange_SplitByBlockNumber t f) as [safe unsafe].
  destruct (negb (BlockRange_IsEmpty safe)); [|destruct (negb (BlockRange_IsEmpty unsafe)); [|injection H as <- <-; by exists st1]].
  - unfold sbind in H. destruct (StepSafe fuel node dh2) as [dh3 [x|e]] eqn:Es;
      pose proof (StepSafe_ok start _ head node k' dh2 st1 fuel _ _ Wf Hn Hok4 Hfb Es) as Hs; cbn in Hs; injection H as <- <-; [done | subst dh3; by exists st1].
  - unfold sbind in H. destruct (StepUnsafe lb node dh2) as [dh3 [x|e]] eqn:Es;
      pose proof (StepUnsafe_ok start _ head node k' dh2 st1 lb _ _ Wf Hn Hok4 Es) as Hs; cbn in Hs; injection H as <- <-; [done | subst dh3; by exists st1].
Qed.

(** ** Processing a reorg *)

Lemma firstUnaffected_Ok fuel node db cur u :
  is_u64 cur -> findFirstUnaffectedBlock fuel node db cur = Ok u ->
  1 <= u <= cur /\ exists s f h, GetBlockHeaderByNumber db u = Some (s, f) /\ nd_HeaderByNumber node u = Ok h /\ bh_Hash s = bh_Hash h.
Proof.
  revert cur. induction fuel as [|fuel IH]; intros cur Hc H; [done|]. cbn [findFirstUnaffectedBlock] in H. destruct (cur =? 0) eqn:E0; [done|]. bool_hyps.
  assert (Hrec : findFirstUnaffectedBlock fuel node db (cur -u64 1) = Ok u ->
    1 <= u <= cur /\ exists s f h, GetBlockHeaderByNumber db u = Some (s, f) /\ nd_HeaderByNumber node u = Ok h /\ bh_Hash s = bh_Hash h).
  { intros Hr. rewrite (sub64_small cur 1) in Hr by (unfold_words; lia). destruct (IH (cur - 1) ltac:(unfold_words; lia) Hr) as [? ?]. split; [lia | done]. }
  unfold GetBlockStorageAndRPC in H. destruct (GetBlockHeaderByNumber db cur) as [[s f]|] eqn:Es, (nd_HeaderByNumber node cur) as [h|[]] eqn:Eh; cbn in H; try done; try by apply Hrec.
  destruct (bh_Number s =? bh_Number h); cbn in H; [|done]. destruct (bh_Hash s =? bh_Hash h) eqn:E; [|by apply Hrec]. bool_hyps. injection H as <-.
  split; [unfold_words; lia|]. by exists s, f, h.
Qed.

Lemma highest_bound db r : r ∈ mb_blocks db -> bl_Number r <= GetHighestBlockNumber db.
Proof.
  intros Hr. assert (H : exists y, firstBy (fun a b => bl_Number b <? bl_Number a) (mb_blocks db) = Some y /\ bl_Number r <= bl_Number y);
    [|destruct H as (y & E & ?); unfold GetHighestBlockNumber; by rewrite E].
  revert Hr. unfold firstBy. induction (mb_blocks db) as [|x rows IH] using rev_ind; intros Hr; [by apply not_elem_of_nil in Hr|].
  rewrite fold_left_app. cbn. apply elem_of_app in Hr as [Hr|Hr%list_elem_of_singleton].
  - destruct (IH Hr) as (y & -> & Hy). destruct (bl_Number y <? bl_Number x) eqn:E; bool_hyps; eexists; (split; [done | lia]).
  - subst r. destruct (fold_left _ rows None) as [y|]; [|by exists x]. destruct (bl_Number y <? bl_Number x) eqn:E; bool_hyps; eexists; (split; [done | lia]).
Qed.

Lemma adjust_covered br u db :
  status_wf db -> br_FromBlock br = u + 1 -> is_u64 (u + 1) -> 1 <= u ->
  status_wf (adjustSyncStatusForReorg br db) /\
  forall a n, covered (GetSyncedBlockRangePerContract (adjustSyncStatusForReorg br db)) a n <-> covered (GetSyncedBlockRangePerContract db) a n /\ n <= u.
Proof.
  intros [Hnd Hw] Hfrom Hu H1. unfold adjustSyncStatusForReorg.
  rewrite Hfrom, (proj2 (Z.ltb_lt _ _)), (sub64_small (u + 1) 1) by (unfold_words; lia). replace (u + 1 - 1) with u by lia.
  set (g := fun r => if u + 1 <=? sy_SyncedToBlock r then mkSyncStatusRow (sy_Address r) (sy_TargetFromBlock r) (sy_TargetToBlock r) (sy_SyncedFromBlock r) u else r).
  assert (Hg : forall r, sy_Address (g r) = sy_Address r) by (intros r; unfold g; by destruct (_ <=? _)).
  assert (Hnd' : NoDup (map sy_Address (map g (mb_sync_status db)))) by by rewrite (map_status_addresses g).
  assert (Hrr : forall r n, br_in n (row_range (g r)) <-> br_in n (row_range r) /\ n <= u).
  { intros r n. unfold g, row_range, ToSyncSegment. destruct (u + 1 <=? sy_SyncedToBlock r) eqn:E; bool_hyps; cbn.
    - rewrite (proj2 (Z.eqb_neq u 0)), (proj2 (Z.eqb_neq (sy_SyncedToBlock r) 0)), !andb_false_r by lia. rewrite !br_in_New. lia.
    - split; [|by intros [? _]]. intros Hn. split; [done|]. destruct (_ && _); [by apply br_in_Zero in Hn|]. apply br_in_New in Hn. lia. }
  split.
  - split; [done|]. cbn. apply Forall_map. eapply Forall_impl; [exact Hw|]. intros r [Hr1 Hr2]. unfold g. destruct (_ <=? _); cbn; [split; [done | unfold_words; lia] | done].
  - intros a n. rewrite !GetSynced_covered by done. cbn [mb_sync_status set_sync_status]. split.
    + intros (r & Hr & Ha & Hn). apply list_elem_of_fmap in Hr as (r0 & -> & Hr0). rewrite Hg in Ha. apply Hrr in Hn as [Hn ?]. split; [by exists r0 | done].
    + intros [(r & Hr & Ha & Hn) Hle]. exists (g r). split_and!; [apply list_elem_of_fmap; by exists r | by rewrite Hg | by apply Hrr].
Qed.

(** The tables after a reorg whose first unaffected block is [u]: what was stored and synced up to it. *)
Lemma reorg_tables P c db u data db' id :
  tables_ok P c db -> is_u64 (u + 1) -> 1 <= u ->
  br_FromBlock (rd_BlockRangeAffected data) = u + 1 -> br_ToBlock (rd_BlockRangeAffected data) = GetHighestBlockNumber db ->
  InsertReorgAndMoveReorgedBlocksAndLogs data db = (db', Ok id) ->
  tables_ok P c db' /\ (forall r, r ∈ mb_blocks db' -> bl_Number r <= u) /\
  (forall a n, covered (GetSyncedBlockRangePerContract db') a n <-> covered (GetSyncedBlockRangePerContract db) a n /\ n <= u).
Proof.
  intros [[D1 D2 D3 D4 D5] T2 [S1 S2] T4] Hu H1 Hfrom Hto H. set (br := rd_BlockRangeAffected data) in *.
  unfold InsertReorgAndMoveReorgedBlocksAndLogs, sbind, sget, smodify, moveReorgedBlocksAndLogs, sbind, sget, smodify in H. cbn [mb_blocks mb_logs mb_sync_status] in H.
  destruct (existsb _ _) in H; [discriminate H|]. injection H as <- _. fold br. set (db0 := mkMdb _ _ _ _ _ _).
  destruct (adjust_covered br u db0 D5 Hfrom Hu H1) as [Hwf Hcov]. change (GetSyncedBlockRangePerContract db0) with (GetSyncedBlockRangePerContract db) in Hcov.
  set (db1 := adjustSyncStatusForReorg br db0) in *.
  assert (Haff : forall n, (exists r, r ∈ mb_blocks db /\ bl_Number r = n) -> inAffected br n = true <-> u < n).
  { intros n (r & Hr & <-). pose proof (highest_bound db r Hr). unfold inAffected. rewrite andb_true_iff, !Z.leb_le. lia. }
  assert (Hblk : forall r, r ∈ mb_blocks db1 <-> r ∈ mb_blocks db /\ bl_Number r <= u).
  { intros r. change (mb_blocks db1) with (bfilter (fun r => negb (inAffected br (bl_Number r))) (mb_blocks db)).
    rewrite list_elem_of_In, bfilter_In, <- list_elem_of_In, negb_true_iff, <- not_true_iff_false. split; intros [Hr Hx]; rewrite Haff in * by (by exists r); (split; [done | lia]). }
  assert (Hlog : forall r, r ∈ mb_logs db1 <-> r ∈ mb_logs db /\ lr_BlockNumber r <= u).
  { intros r. change (mb_logs db1) with (bfilter (fun r => negb (inAffected br (lr_BlockNumber r))) (mb_logs db)).
    rewrite list_elem_of_In, bfilter_In, <- list_elem_of_In, negb_true_iff, <- not_true_iff_false.
    split; intros [Hr Hx]; rewrite Haff in * by (by apply hasBlockRow_iff, D3); (split; [done | lia]). }
  assert (Hrow : forall n, hasBlockRow db n = true -> n <= u -> hasBlockRow db1 n = true).
  { intros n Hn Hle. apply hasBlockRow_iff in Hn as (r & Hr & <-). apply hasBlockRow_iff. exists r. split; [by apply Hblk | done]. }
  split_and!; [split| by intros r [_ ?]%Hblk | done].
  - split; [by intros r [? _]%Hblk; apply D1 | by intros r [? _]%Hlog; apply D2 | | | done].
    + intros r [Hr Hle]%Hlog. apply Hrow; [by apply D3 | done].
    + pose proof (map_bfilter_NoDup (fun r => r) (fun r => negb (inAffected br (lr_BlockNumber r))) (mb_logs db)) as Hb. rewrite !map_id in Hb. by apply Hb.
  - intros a n l [Hn Hle]%Hcov Hs Hl Ha Hln. apply Hlog. split; [by apply (T2 a n) | cbn; lia].
  - split; [intros r [Hr _]%Hblk; by apply S1|]. intros a n [Hn Hle]%Hcov Hs. destruct (S2 a n Hn Hs) as [?|Hb]; [by left | right; by apply Hrow].
  - intros a s [Hn Hle]%Hcov. destruct (T4 a s Hn) as (m & Hm & Hmc). exists (Z.min m s). split; [lia|]. apply Hcov. split; [|lia].
    destruct (Z.min_spec m s) as [[_ ->]|[_ ->]]; done.
Qed.

Lemma ProcessReorg_ok fin c k k' dh node head fuel e tag dh' r :
  world c -> world k' -> serves head node k' -> agree k k' fin -> tables_ok (firm fin c k) c (md_db dh) -> is_u64 (dr_OffendingBlockNumber e) ->
  ProcessReorg fuel node e tag dh = (dh', r) ->
  match r with
  | Ok _ => tables_ok (firm fin k' k') k' (md_db dh') /\ md_cfg dh' = md_cfg dh /\ md_syncersConfig dh' = md_syncersConfig dh
  | Err _ => dh' = dh
  end.
Proof.
  intros Wc Wk Hn Hag Ht Ho H. unfold ProcessReorg in H. destruct (dr_OffendingBlockNumber e =? 0) eqn:E0; [by injection H as <- <-|]. bool_hyps.
  unfold inTransaction in H. rewrite (sub64_small (dr_OffendingBlockNumber e) 1) in H by (unfold_words; lia).
  destruct (findFirstUnaffectedBlock fuel node (md_db dh) _) as [u|x] eqn:Eu; [|by injection H as <- <-].
  apply firstUnaffected_Ok in Eu; [|unfold_words; lia]. destruct Eu as (Hu & s & f & h & Es & Eh & Ehash).
  destruct (nd_HeaderByTag node LatestBlock) as [lat|], (nd_HeaderByTag node tag) as [finh|]; try by injection H as <- <-.
  destruct (InsertReorgAndMoveReorgedBlocksAndLogs _ (md_db dh)) as [db' [id|x]] eqn:Ei; [|by injection H as <- <-]. injection H as <- <-.
  assert (Hu1 : is_u64 (u + 1)) by (unfold_words; lia).
  rewrite (add64_small u 1 Hu1) in Ei. destruct (reorg_tables (firm fin c k) c (md_db dh) u (mkReorgData 0 (NewBlockRange (u + 1) (GetHighestBlockNumber (md_db dh))) (dr_OffendingBlockNumber e) (bh_Number lat) (bh_Number finh))
    db' id Ht Hu1 ltac:(lia) eq_refl eq_refl Ei) as (Ht' & Hb & Hcov).
  assert (Hagree : agree c k' u).
  { apply world_hash; [done | done|]. pose proof (sv_header _ _ _ Hn _ _ Eh) as ->. rewrite <- Ehash. unfold GetBlockHeaderByNumber in Es.
    destruct (List.find _ (mb_blocks (md_db dh))) as [row|] eqn:Ef; [|done]. injection Es as <- _. apply find_some in Ef as [Hrow En]. bool_hyps.
    rewrite <- En. by rewrite (do_blocks _ _ (to_db _ _ _ Ht) row ltac:(by apply list_elem_of_In)). }
  assert (HP : forall n, firm fin c k n -> agree c k' n) by (intros n Hf; by apply (firm_next fin fin c k k' n ltac:(lia) Hag)).
  assert (Hrows : forall r, r ∈ mb_blocks db' -> agree c k' (bl_Number r)) by (intros r Hr; apply (agree_le c k' u); [done | by apply Hb]).
  cbn [md_db set_mdb]. split; [|done]. destruct Ht' as [T1 T2 [S1 S2] T4]. split; [by eapply db_transfer | by eapply complete_transfer| |done].
  split; [intros r Hr Hf; destruct (S1 r Hr Hf); split; [done | apply agree_refl]|].
  intros a n Hn' Hs. destruct (S2 a n Hn' Hs) as [[? _]|?]; [left; split; [done | apply agree_refl] | by right].
Qed.

Lemma handleReorg_ok fin c k k' dh node head fuel e dh' r :
  world c -> world k' -> serves head node k' -> agree k k' fin -> tables_ok (firm fin c k) c (md_db dh) -> starts_at start (md_syncersConfig dh) ->
  is_u64 (dr_OffendingBlockNumber e) -> handleReorg fuel node e dh = (dh', r) ->
  starts_at start (md_syncersConfig dh') /\ md_cfg dh' = md_cfg dh /\
  match r with
  | Ok _ => exists st, md_ok start (firm fin k' k') k' dh' st
  | Err _ => dh' = dh \/ tables_ok (firm fin k' k') k' (md_db dh')
  end.
Proof.
  intros Wc Wk Hn Hag Ht Hs Ho H. unfold handleReorg, sbind, sget, smodify in H.
  destruct (ProcessReorg fuel node e _ dh) as [dh1 [id|x]] eqn:Ep; pose proof (ProcessReorg_ok fin c k k' dh node head _ _ _ _ _ Wc Wk Hn Hag Ht Ho Ep) as Hp; cbn in Hp.
  - destruct Hp as (Ht1 & Hc1 & Hs1). rewrite <- Hs1 in Hs. destruct (newStateFromStorage node dh1) as [dh2 [st|x]] eqn:En;
      destruct (newState_ok _ k' dh1 node head k' _ _ Ht1 Hs Hn En) as [-> Hst]; injection H as <- <-.
    + specialize (Hst st eq_refl). split_and!; [done | done | by exists st].
    + split_and!; [done | done | by right].
  - subst dh1. injection H as <- <-. split_and!; [done | done | by left].
Qed.

(** ** Runs *)

Inductive phase := Down | Steady | Reorging.

(** The node the downloader talks to follows chain [k] and has the blocks it calls final. *)
Definition talks (head : Z) (node : Node) (k : Chain) (dh : Downloader) : Prop :=
  serves head node k /\ forall f, nd_CurrentBlockNumber node (cg_BlockFinality (md_cfg dh)) = Some f -> f <= head.

Definition emptyMdb : mdb := mkMdb [] [] [] [] [] [].

(** [run c k fin ph dh]: [dh] is reached, [c] is the chain the last successful step or reorg saw, [k] the chain of the
    node, which changes at will above the last block [fin] that was called final. *)
Inductive run : Chain -> Chain -> Z -> phase -> Downloader -> Prop :=
| run_new k fin cfg syncers :
    world k -> starts_at start syncers -> run k k fin Down (mkDownloader cfg syncers None emptyMdb)
| run_initialize c k k' fin dh head node compatible dh' r :
    run c k fin Down dh -> world k' -> agree k k' fin -> talks head node k' dh -> Initialize node compatible dh = (dh', r) ->
    run c k' fin (match r with Ok _ => Steady | Err _ => Down end) dh'
| run_step c k k' fin dh head node fuel listBlocks dh' r :
    run c k fin Steady dh -> world k' -> agree k k' fin -> talks head node k' dh -> StartStep fuel listBlocks node dh = (dh', r) ->
    run (match r with Ok _ => k' | Err _ => c end) k' (fin_after node dh fin) Steady dh'
| run_reorg c k k' fin ph dh head node fuel e dh' :
    run c k fin ph dh -> ph <> Down -> world k' -> agree k k' fin -> talks head node k' dh -> is_u64 (dr_OffendingBlockNumber e) ->
    handleReorg fuel node e dh = (dh', Ok tt) -> run k' k' fin Steady dh'
| run_reorg_pending c k k' fin ph dh head node fuel e id dh' x :
    run c k fin ph dh -> ph <> Down -> world k' -> agree k k' fin -> talks head node k' dh -> is_u64 (dr_OffendingBlockNumber e) ->
    ProcessReorg fuel node e (cg_BlockFinality (md_cfg dh)) dh = (dh', Ok id) -> newStateFromStorage node dh' = (dh', Err x) ->
    run k' k' fin Reorging dh'
| run_restart c k fin ph dh cfg syncers :
    run c k fin ph dh -> starts_at start syncers -> run c k fin Down (mkDownloader cfg syncers None (md_db dh)).

Lemma empty_tables P c : tables_ok P c emptyMdb.
Proof.
  split.
  - split; try (intros r Hr; by apply not_elem_of_nil in Hr); [apply NoDup_nil_2 | split; [apply NoDup_nil_2 | constructor]].
  - by intros a n l (b & ? & _).
  - split; [intros r Hr; by apply not_elem_of_nil in Hr | by intros a n (b & ? & _)].
  - by intros a n (b & ? & _).
Qed.

Lemma tables_mono (P Q : Z -> Prop) c db : (forall n, P n -> Q n) -> tables_ok P c db -> tables_ok Q c db.
Proof. intros H [? ? [S1 S2] ?]. split; try done. split; [auto|]. intros a n Hn Hs. destruct (S2 a n Hn Hs); auto. Qed.

Lemma run_inv c k fin ph dh :
  run c k fin ph dh ->
  world c /\ world k /\ starts_at start (md_syncersConfig dh) /\ tables_ok (firm fin c k) c (md_db dh) /\
  (ph = Steady -> exists st, md_ok start (firm fin c k) c dh st).
Proof.
  induction 1 as [k fin cfg syncers Wk Hs | c k k' fin dh head node ok dh' r Hrun (Wc & Wk & Hs & Ht & _) Wk' Hag [Hn _] E
    | c k k' fin dh head node fuel lb dh' r Hrun (Wc & Wk & Hs & _ & Hst) Wk' Hag [Hn Hhead] E
    | c k k' fin ph dh head node fuel e dh' Hrun (Wc & Wk & Hs & Ht & _) Hph Wk' Hag [Hn _] He E
    | c k k' fin ph dh head node fuel e id dh' x Hrun (Wc & Wk & Hs & Ht & _) Hph Wk' Hag [Hn _] He E _
    | c k fin ph dh cfg syncers Hrun (Wc & Wk & Hs & Ht & _) Hs'].
  - split_and!; [done | done | done | apply empty_tables | done].
  - apply (tables_mono _ (firm fin c k')) in Ht; [|intros n; by apply firm_next].
    destruct (Initialize_ok _ c dh node head k' ok dh' r Ht Hs Hn E) as (Ht' & Hs' & _ & Hr). split_and!; [done..|]. by destruct r.
  - destruct (Hst eq_refl) as [st Hok]. destruct (StartStep_ok fin c k k' dh st fuel lb head node dh' r Wc Wk' Hn Hag Hok Hhead E) as [st' Hok'].
    split_and!; [by destruct r | done | apply (mo_config _ _ _ _ _ Hok') | by eapply md_tables | by exists st'].
  - destruct (handleReorg_ok fin c k k' dh node head fuel e dh' _ Wc Wk' Hn Hag Ht Hs He E) as (Hs' & _ & st & Hok).
    split_and!; [done | done | done | by eapply md_tables | by exists st].
  - destruct (ProcessReorg_ok fin c k k' dh node head fuel e _ dh' _ Wc Wk' Hn Hag Ht He E) as (Ht' & _ & Hs'). rewrite <- Hs' in Hs. by split_and!.
  - by split_and!.
Qed.

(** Without a state nothing is answered. *)
Lemma run_down c k fin ph dh : run c k fin ph dh -> ph = Down -> md_state dh = None.
Proof.
  induction 1 as [ | c k k' fin dh head node ok dh' r Hrun IH Wk' Hag [Hn _] E | | | | ]; intros Hd; try done.
  destruct r as [?|?]; [done|]. specialize (IH eq_refl). destruct (run_inv _ _ _ _ _ Hrun) as (_ & _ & Hs & Ht & _).
  destruct (Initialize_ok _ c dh node head k' ok dh' _ Ht Hs Hn E) as (_ & _ & _ & Hr). by rewrite Hr.
Qed.


End Run.
