(* ===== verification/MultiCases.v ===== *)
(** The multidownloader over concrete nodes: a run through a reorg, and the situations in which the code stays stuck
    or marks blocks whose logs it does not have. *)

From S2P Require Import Prelude BlockRange Finality Tables SyncSegments MultiStorage MultiEngine MultiProofs MultiChain MultiRun.

(** ** A node of a chain *)

Definition nodeOf (head fin : Z) (c : Chain) : Node :=
  mkNode
    (fun t => Some (if bool_decide (t = FinalizedBlock) then fin else head))
    (fun ns => Some (mkHeadersResult (map (fun n => (n, ch_header c n)) (bfilter (fun n => n <=? head) ns))
                                     (map (fun n => (n, HNotFound)) (bfilter (fun n => negb (n <=? head)) ns))))
    (fun q => Ok (match lq_BlockHash q with
      | None => chainLogs c (lq_Addrs q) (br_FromBlock (lq_BlockRange q)) (br_ToBlock (lq_BlockRange q))
      | Some h => bfilter (fun l => existsb (Z.eqb (el_Address l)) (lq_Addrs q) && (el_BlockHash l =? h)) (ch_logs c)
      end))
    (fun n => if n <=? head then Ok (ch_header c n) else Err HNotFound)
    (fun t => Some (ch_header c (if bool_decide (t = FinalizedBlock) then fin else head))).

Lemma find_mapped (f : Z -> BlockHeader) ns n : snd <$> List.find (fun p => fst p =? n) (map (fun m => (m, f m)) ns) = if existsb (Z.eqb n) ns then Some (f n) else None.
Proof.
  induction ns as [|m ns IH]; [done|]. cbn. rewrite (Z.eqb_sym n m). destruct (m =? n) eqn:E; bool_hyps; [by subst m | exact IH].
Qed.

Lemma nodeOf_lookup head c ns n : n ∈ ns ->
  hr_lookup (mkHeadersResult (map (fun n => (n, ch_header c n)) (bfilter (fun n => n <=? head) ns)) (map (fun n => (n, HNotFound)) (bfilter (fun n => negb (n <=? head)) ns))) n =
  if n <=? head then Some (ch_header c n) else None.
Proof.
  intros Hn. unfold hr_lookup. cbn. rewrite find_mapped. destruct (n <=? head) eqn:E.
  - assert (Ee : existsb (Z.eqb n) (bfilter (fun n => n <=? head) ns) = true); [|by rewrite Ee].
    apply existsb_exists. exists n. split; [apply bfilter_In; split; [by apply list_elem_of_In | done] | apply Z.eqb_refl].
  - assert (Ee : existsb (Z.eqb n) (bfilter (fun n => n <=? head) ns) = false); [|by rewrite Ee].
    apply existsb_false_In. intros m Hm. apply bfilter_In in Hm as [_ Hm]. apply Z.eqb_neq. intros <-. congruence.
Qed.

Lemma nodeOf_serves head fin c :
  chain_wf c -> (forall n m, bh_Hash (ch_header c n) = bh_Hash (ch_header c m) -> n = m) -> is_u64 head -> is_u64 fin -> serves head (nodeOf head fin c) c.
Proof.
  intros Hc Hinj Hh Hf. split; cbn.
  - intros t n [= <-]. by destruct (bool_decide _).
  - intros ns r n h [= <-] Hn. rewrite (nodeOf_lookup head c ns n Hn). destruct (n <=? head) eqn:E; [|done]. bool_hyps. by intros [= <-].
  - intros b len r n m [= <-] Hn Hm. rewrite !nodeOf_lookup by (apply elem_of_seqZ; lia). destruct (n <=? head) eqn:E; [done|]. bool_hyps. intros _.
    destruct (m <=? head) eqn:E'; [bool_hyps; lia | done].
  - intros q logs -> _ [= <-]. done.
  - intros q n logs _ -> [= <-]. unfold chainLogs. apply bfilter_ext. intros l Hl. unfold asks.
    destruct (cw_logs c Hc l ltac:(by apply list_elem_of_In)) as [El _]. rewrite El, <- andb_assoc. f_equal.
    apply eq_true_iff_eq. rewrite andb_true_iff, Z.eqb_eq, !Z.leb_le. split; [intros E%Hinj; lia | intros ?; do 2 f_equal; lia].
  - done.
  - intros n h. destruct (n <=? head); [by intros [= <-] | done].
Qed.

(** ** Two chains that part at block 5 *)

Definition exHash (v n : Z) : Z := if n <? 5 then 2 * n else 2 * n + v.
Definition exHeader (v n : Z) : BlockHeader := mkBlockHeader n (exHash v n) (12 * n) (Some (exHash v (n - 1))).
Definition exLog (v addr n index : Z) : EthLog := mkEthLog addr [] [] n 0 0 index (exHash v n) (12 * n).
Definition exChain (v : Z) : Chain := mkChain (exHeader v) [exLog v 7 2 0; exLog v 9 2 1; exLog v 7 5 v].
Definition exWorld (c : Chain) : Prop := c = exChain 0 \/ c = exChain 1.

Lemma exHash_parts v v' n m : 0 <= v <= 1 -> 0 <= v' <= 1 -> exHash v n = exHash v' m -> n = m /\ (v = v' \/ n < 5).
Proof. intros Hv Hv'. unfold exHash. destruct (n <? 5) eqn:E, (m <? 5) eqn:E'; bool_hyps; lia. Qed.

Lemma exChain_wf v : 0 <= v <= 1 -> chain_wf (exChain v).
Proof.
  intros Hv. split; [done | |].
  - repeat constructor.
  - intros l Hl. cbn in Hl. repeat (apply elem_of_cons in Hl as [->|Hl]; [done|]). by apply not_elem_of_nil in Hl.
Qed.

Lemma exWorld_wf c : exWorld c -> chain_wf c.
Proof. intros [ -> | -> ]; apply exChain_wf; lia. Qed.

Lemma exAgree v v' n : n < 5 -> agree (exChain v) (exChain v') n.
Proof.
  intros Hn. split.
  - intros m Hm. cbn. unfold exHeader, exHash. by rewrite !(proj2 (Z.ltb_lt _ _)) by lia.
  - intros l Hl. cbn [ch_logs exChain]. rewrite !elem_of_cons. split; intros [ -> |[ -> |[ -> |Hx]]]; cbn in Hl; try lia; try (by apply not_elem_of_nil in Hx); auto.
Qed.

Lemma exWorld_hash c k n : exWorld c -> exWorld k -> bh_Hash (ch_header c n) = bh_Hash (ch_header k n) -> agree c k n.
Proof.
  intros Hc Hk E. destruct Hc as [ -> | -> ], Hk as [ -> | -> ]; try apply agree_refl; apply exAgree; apply exHash_parts in E; lia.
Qed.

Lemma exTalks head fin v dh :
  0 <= v <= 1 -> is_u64 head -> is_u64 fin -> fin <= head -> cg_BlockFinality (md_cfg dh) = FinalizedBlock -> talks head (nodeOf head fin (exChain v)) (exChain v) dh.
Proof.
  intros Hv Hh Hf Hle Hcfg. split.
  - apply nodeOf_serves; [by apply exChain_wf | | done | done]. intros n m E. by apply exHash_parts in E as [? _].
  - intros f. cbn. rewrite Hcfg. rewrite bool_decide_true by done. by intros [= <-].
Qed.

(** ** A run through a reorg *)

Definition exStart (_ : Z) : Z := 1.
Definition exNew : Downloader := mkDownloader (mkConfig 100 FinalizedBlock) [mkSyncerConfig "bridge" [7] 1 LatestBlock] None emptyMdb.
Definition exInit : Downloader := fst (Initialize (nodeOf 4 3 (exChain 0)) true exNew).
Definition exSafe : Downloader := fst (StartStep 5 20 (nodeOf 4 3 (exChain 0)) exInit).
Definition exUnsafe : Downloader := fst (StartStep 5 20 (nodeOf 6 3 (exChain 0)) exSafe).
Definition exDetected : Downloader := fst (StartStep 5 20 (nodeOf 6 3 (exChain 1)) exUnsafe).
Definition exReorged : Downloader := fst (handleReorg 20 (nodeOf 6 3 (exChain 1)) (mkDetectedReorg 5 BlockHashMismatch 10 11) exDetected).
Definition exResynced : Downloader := fst (StartStep 5 20 (nodeOf 6 3 (exChain 1)) exReorged).

Lemma exRun : run exStart exWorld (exChain 1) (exChain 1) 3 Steady exResynced.
Proof.
  assert (H0 : run exStart exWorld (exChain 0) (exChain 0) 0 Down exNew) by (apply run_new; [by left | by repeat constructor]).
  assert (H1 : run exStart exWorld (exChain 0) (exChain 0) 0 Steady exInit).
  { refine (run_initialize exStart exWorld (exChain 0) (exChain 0) (exChain 0) 0 exNew 4 (nodeOf 4 3 (exChain 0)) true exInit (Ok tt) H0 _ _ _ _);
      [by left | apply agree_refl | apply exTalks; [lia | vm_compute; split; congruence.. | lia | done] | by vm_compute]. }
  assert (H2 : run exStart exWorld (exChain 0) (exChain 0) 3 Steady exSafe).
  { refine (run_step exStart exWorld (exChain 0) (exChain 0) (exChain 0) 0 exInit 4 (nodeOf 4 3 (exChain 0)) 5 20 exSafe (Ok (StepSynced false)) H1 _ _ _ _);
      [by left | apply agree_refl | apply exTalks; [lia | vm_compute; split; congruence.. | lia | by vm_compute] | by vm_compute]. }
  assert (H3 : run exStart exWorld (exChain 0) (exChain 0) 3 Steady exUnsafe).
  { refine (run_step exStart exWorld (exChain 0) (exChain 0) (exChain 0) 3 exSafe 6 (nodeOf 6 3 (exChain 0)) 5 20 exUnsafe (Ok (StepSynced true)) H2 _ _ _ _);
      [by left | apply agree_refl | apply exTalks; [lia | vm_compute; split; congruence.. | lia | by vm_compute] | by vm_compute]. }
  assert (H4 : run exStart exWorld (exChain 0) (exChain 1) 3 Steady exDetected).
  { refine (run_step exStart exWorld (exChain 0) (exChain 0) (exChain 1) 3 exUnsafe 6 (nodeOf 6 3 (exChain 1)) 5 20 exDetected
      (Err (MErrReorg (mkDetectedReorg 5 BlockHashMismatch 10 11))) H3 _ _ _ _);
      [by right | apply exAgree; lia | apply exTalks; [lia | vm_compute; split; congruence.. | lia | by vm_compute] | by vm_compute]. }
  assert (H5 : run exStart exWorld (exChain 1) (exChain 1) 3 Steady exReorged).
  { refine (run_reorg exStart exWorld (exChain 0) (exChain 1) (exChain 1) 3 Steady exDetected 6 (nodeOf 6 3 (exChain 1)) 20 (mkDetectedReorg 5 BlockHashMismatch 10 11) exReorged
      H4 _ _ _ _ _ _);
      [done | by right | apply agree_refl | apply exTalks; [lia | vm_compute; split; congruence.. | lia | by vm_compute] | vm_compute; split; congruence | by vm_compute]. }
  refine (run_step exStart exWorld (exChain 1) (exChain 1) (exChain 1) 3 exReorged 6 (nodeOf 6 3 (exChain 1)) 5 20 exResynced (Ok (StepSynced true)) H5 _ _ _ _);
    [by right | apply agree_refl | apply exTalks; [lia | vm_compute; split; congruence.. | lia | by vm_compute] | by vm_compute].
Qed.


(** ** Blocks moved away by a reorg *)

(** Every block a reorg moved away is reported as reorged to the syncer that holds it. *)
Theorem moved_blocks_are_reported fuel node e tag dh dh' id asked r :
  ProcessReorg fuel node e tag dh = (dh', Ok id) -> r ∈ mb_blocks (md_db dh) -> r ∉ mb_blocks (md_db dh') ->
  exists reorgID, CheckValidBlock asked dh' (bl_Number r) (bl_Hash r) = Ok (BlockReorged reorgID).
Proof.
  intros H Hr Hout. unfold ProcessReorg in H. destruct (_ =? 0); [done|]. unfold inTransaction in H.
  destruct (findFirstUnaffectedBlock _ _ _ _) as [u|]; [|done]. destruct (nd_HeaderByTag _ _) as [lat|], (nd_HeaderByTag node tag) as [finh|]; try done.
  set (br := NewBlockRange _ _) in H.
  unfold InsertReorgAndMoveReorgedBlocksAndLogs, sbind, sget, smodify, moveReorgedBlocksAndLogs, sbind, sget, smodify in H. cbn [rd_BlockRangeAffected mb_blocks mb_logs mb_sync_status] in H.
  destruct (existsb _ _) in H; [discriminate H|]. injection H as <- _. cbn [md_db set_mdb] in *.
  assert (Hin : inAffected br (bl_Number r) = true).
  { destruct (inAffected br (bl_Number r)) eqn:E; [done|]. exfalso. apply Hout. cbn. apply list_elem_of_In, bfilter_In. split; [by apply list_elem_of_In | by rewrite E]. }
  unfold CheckValidBlock. cbn [md_db set_mdb]. unfold GetBlockHeaderByNumber. cbn [mb_blocks adjustSyncStatusForReorg set_sync_status].
  destruct (List.find _ _) as [b|] eqn:Ef.
  { apply find_some in Ef as [Hb Eb]. apply bfilter_In in Hb as [_ Hb]. bool_hyps. rewrite Eb in Hb. congruence. }
  cbn [fmap option_fmap option_map]. unfold GetBlockReorgedReorgID. cbn [mb_blocks_reorged mb_reorgs adjustSyncStatusForReorg set_sync_status].
  match goal with |- context [firstBy ?b ?l] => destruct (firstBy_some b l (nextReorgID (md_db dh), br_FromBlock br)) as [y ->] end; [|by exists (fst y)].
  apply list_elem_of_In, in_flat_map. exists (nextReorgID (md_db dh), r). split.
  - apply bfilter_In. cbn [snd]. rewrite !Z.eqb_refl. split; [|done]. apply in_or_app. right. apply in_map, bfilter_In. split; [by apply list_elem_of_In | done].
  - apply in_map_iff. eexists (mkReorgData (nextReorgID (md_db dh)) br _ _ _). split; [done|]. apply bfilter_In. split; [apply in_or_app; right; by left | apply Z.eqb_refl].
Qed.

Lemma moved_blocks_are_reported_witness :
  exists reorgID, CheckValidBlock (nodeOf 6 3 (exChain 1)) (fst (ProcessReorg 20 (nodeOf 6 3 (exChain 1)) (mkDetectedReorg 5 BlockHashMismatch 10 11) FinalizedBlock exDetected)) 5 10
    = Ok (BlockReorged reorgID).
Proof.
  refine (moved_blocks_are_reported 20 (nodeOf 6 3 (exChain 1)) (mkDetectedReorg 5 BlockHashMismatch 10 11) FinalizedBlock exDetected _ 1 (nodeOf 6 3 (exChain 1))
    (mkBlockRow 5 10 60 (Some 8) false) _ _ _).
  - by vm_compute.
  - apply list_elem_of_In. vm_compute. tauto.
  - intros Hx. apply list_elem_of_In in Hx. vm_compute in Hx. intuition discriminate.
Defined.

(** ** A reorg without an unaffected block *)

(** The stored block and the one of the node are not the same; the node answers. *)
Definition unmatched (node : Node) (db : mdb) (n : Z) : Prop :=
  match GetBlockHeaderByNumber db n, nd_HeaderByNumber node n with
  | Some (s, _), Ok h => bh_Number s = bh_Number h /\ bh_Hash s <> bh_Hash h
  | _, Err HOther => False
  | _, _ => True
  end.

Lemma firstUnaffected_genesis fuel node db cur :
  is_u64 cur -> (Z.to_nat cur < fuel)%nat -> (forall n, 1 <= n <= cur -> unmatched node db n) -> findFirstUnaffectedBlock fuel node db cur = Err MErrGenesis.
Proof.
  revert cur. induction fuel as [|fuel IH]; intros cur Hc Hf Hn; [lia|]. cbn [findFirstUnaffectedBlock]. destruct (cur =? 0) eqn:E0; [done|]. bool_hyps.
  pose proof (Hn cur ltac:(unfold_words; lia)) as Hcur. unfold unmatched in Hcur. unfold GetBlockStorageAndRPC.
  assert (Hrec : findFirstUnaffectedBlock fuel node db (cur -u64 1) = Err MErrGenesis).
  { rewrite (sub64_small cur 1) by (unfold_words; lia). apply IH; [unfold_words; lia | unfold_words; lia | intros n Hr; apply Hn; lia]. }
  destruct (GetBlockHeaderByNumber db cur) as [[s f]|], (nd_HeaderByNumber node cur) as [h|[]]; try done; cbn; try exact Hrec.
  destruct Hcur as [H1 H2]. rewrite (proj2 (Z.eqb_eq _ _) H1). cbn. rewrite (proj2 (Z.eqb_neq _ _) H2). exact Hrec.
Qed.

(** When no stored block below the offending one is on the node's chain the reorg is never processed: every pass
    fails and leaves the downloader as it was. *)
Theorem reorg_without_anchor_never_processed fuel node e dh :
  0 < dr_OffendingBlockNumber e < pow2_64 -> (Z.to_nat (dr_OffendingBlockNumber e) <= fuel)%nat ->
  (forall n, 1 <= n < dr_OffendingBlockNumber e -> unmatched node (md_db dh) n) ->
  handleReorg fuel node e dh = (dh, Err MErrGenesis).
Proof.
  intros He Hf Hn. unfold handleReorg, sbind, sget, ProcessReorg. rewrite (proj2 (Z.eqb_neq _ 0)) by lia. unfold inTransaction.
  rewrite (sub64_small _ 1) by (unfold_words; lia). rewrite firstUnaffected_genesis; [done | unfold_words; lia | lia | intros n Hr; apply Hn; lia].
Qed.

(** The first block of the chain that was synced is reorganised: the blocks before it are not stored. *)
Definition exFresh : Downloader :=
  let dh := mkDownloader (mkConfig 100 FinalizedBlock) [mkSyncerConfig "bridge" [7] 5 LatestBlock] None emptyMdb in
  fst (StartStep 5 20 (nodeOf 6 3 (exChain 0)) (fst (Initialize (nodeOf 6 3 (exChain 0)) true dh))).

Lemma reorg_without_anchor_never_processed_witness :
  snd (StartStep 5 20 (nodeOf 6 3 (exChain 1)) exFresh) = Err (MErrReorg (mkDetectedReorg 5 BlockHashMismatch 10 11)) /\
  handleReorg 20 (nodeOf 6 3 (exChain 1)) (mkDetectedReorg 5 BlockHashMismatch 10 11) exFresh = (exFresh, Err MErrGenesis).
Proof.
  split; [by vm_compute|]. refine (reorg_without_anchor_never_processed 20 (nodeOf 6 3 (exChain 1)) (mkDetectedReorg 5 BlockHashMismatch 10 11) exFresh _ _ _).
  - vm_compute. split; congruence.
  - apply Nat.leb_le. by vm_compute.
  - intros n Hn. cbn in Hn. assert (n = 1 \/ n = 2 \/ n = 3 \/ n = 4) as [ -> | [ -> | [ -> | -> ] ] ] by lia; by vm_compute.
Defined.

(** ** A second contract over blocks that are stored *)

(** A safe step whose logs fall in a block that is already stored fails, and leaves the downloader as it was: it is
    repeated for ever. *)
Theorem safe_step_over_stored_block_fails fuel node dh logs query headers dh1 :
  requestLogs fuel node dh = (dh1, Ok (logs, query)) ->
  retrievedHeaders node (getBlockNumbers logs) dh = (dh, Ok headers) ->
  Exists (fun h => hasBlockRow (md_db dh) (bh_Number h) = true) headers ->
  exists e, StepSafe fuel node dh = (dh, Err e).
Proof.
  intros Hr Hh Hex. assert (dh1 = dh) as ->.
  { unfold requestLogs, getNextQuery, sbind, sget in Hr. destruct (GetFinalized_read node dh) as [[f|x] Ef]; rewrite Ef in Hr; [|done].
    unfold getState in Hr. destruct (md_state dh); [|done]. unfold liftSync in Hr. destruct (State_NextQueryToSync _ _ _ _); [|done]. unfold slift in Hr. by injection Hr. }
  unfold StepSafe. rewrite Hr. destruct (getBlockNumbers logs) as [|n ns] eqn:En.
  { unfold retrievedHeaders, sbind, orRPC in Hh. destruct (nd_RetrieveBlockHeaders node []) as [r|]; [|done]. destruct (_ && _); [done|]. injection Hh as <-. by apply Exists_nil in Hex. }
  cbv zeta. unfold sbind at 1. rewrite Hh. unfold sbind at 1, getState. destruct (md_state dh) as [st|]; [|by eexists].
  unfold sbind at 1, liftSync. destruct (State_OnNewSyncedLogQuery _ _) as [st'|]; [|by eexists]. unfold sbind at 1, storeData, inTransaction.
  assert (Hfail : forall segs, exists db x, (let! _ := SaveEthLogsWithHeaders headers logs true in UpdateSyncedStatus segs) (md_db dh) = (db, Err x)).
  { intros segs. unfold SaveEthLogsWithHeaders, saveLogsAndBlocks, sbind. destruct (saveBlocksNoMutex _ (md_db dh)) as [db [u|x]] eqn:Es; [|by do 2 eexists].
    exfalso. apply Exists_exists in Hex as (h & Hin & Hb). destruct (NewBlockRows_has headers true h Hin) as (r & Hrow & Er). rewrite <- Er in Hb. clear -Es Hrow Hb.
    revert Es Hb. generalize (md_db dh). induction (NewBlockRowsFromAggkitBlock headers true) as [|x rows IH]; intros d Es Hb; [by apply not_elem_of_nil in Hrow|].
    cbn [saveBlocksNoMutex] in Es. inv_seq Es as y db1 E. unfold saveBlock in E. inv_seq E as d0 t E1. injection E1 as <- <-.
    destruct (hasBlockRow d (bl_Number x)) eqn:Ex; [discriminate E|]. injection E as <- _. apply elem_of_cons in Hrow as [->|Hrow]; [congruence|].
    apply (IH Hrow _ Es). apply hasBlockRow_iff in Hb as (b & Hb & Eb). apply hasBlockRow_iff. exists b. split; [cbn; apply elem_of_app; by left | done]. }
  destruct (Hfail (Set_SegmentsByContract (st_Synced st') (lq_Addrs query))) as (db & x & ->). by eexists.
Qed.

(** A restart with a second contract, which has a log in a block the first one stored. *)
Definition exSecond : Downloader :=
  fst (Initialize (nodeOf 4 3 (exChain 0)) true
    (mkDownloader (mkConfig 100 FinalizedBlock) [mkSyncerConfig "bridge" [7] 1 LatestBlock; mkSyncerConfig "rollup" [9] 1 LatestBlock] None (md_db exSafe))).

Lemma safe_step_over_stored_block_fails_witness : exists e, StepSafe 5 (nodeOf 4 3 (exChain 0)) exSecond = (exSecond, Err e).
Proof.
  refine (safe_step_over_stored_block_fails 5 (nodeOf 4 3 (exChain 0)) exSecond [exLog 0 9 2 1] (NewLogQuery 1 3 [9]) [exHeader 0 2] exSecond _ _ _).
  - by vm_compute.
  - by vm_compute.
  - constructor. by vm_compute.
Defined.

(** ** A header that is not answered *)

(** A node that fails on the header of one block. *)
Definition withHole (node : Node) (hole : Z) : Node :=
  mkNode (nd_CurrentBlockNumber node)
    (fun ns => (fun r => mkHeadersResult (bfilter (fun p => negb (fst p =? hole)) (hr_Headers r)) (map (fun n => (n, HOther)) (bfilter (Z.eqb hole) ns)))
                 <$> nd_RetrieveBlockHeaders node ns)
    (nd_FilterLogs node) (nd_HeaderByNumber node) (nd_HeaderByTag node).

Definition exHole : Downloader := fst (StartStep 5 20 (withHole (nodeOf 6 3 (exChain 0)) 5) exSafe).

(** One header that is not answered between two that are: the step succeeds, the block in between counts as synced,
    and a query over it is answered without its log. *)
Theorem missing_header_loses_logs :
  snd (StartStep 5 20 (withHole (nodeOf 6 3 (exChain 0)) 5) exSafe) = Ok (StepSynced false) /\
  FilterLogs exHole (NewLogQuery 1 6 [7]) = Ok (Some [exLog 0 7 2 0]) /\
  chainLogs (exChain 0) [7] 1 6 = [exLog 0 7 2 0; exLog 0 7 5 0].
Proof. split_and!; by vm_compute. Qed.

(** After a restart the block is not asked for again: the stored range covers it. *)
Example missing_header_lost_after_restart :
  let dh := fst (Initialize (nodeOf 6 3 (exChain 0)) true (mkDownloader (md_cfg exHole) (md_syncersConfig exHole) None (md_db exHole))) in
  snd (StartStep 5 20 (nodeOf 6 3 (exChain 0)) dh) = Ok StepWait /\ FilterLogs dh (NewLogQuery 1 6 [7]) = Ok (Some [exLog 0 7 2 0]).
Proof. split; by vm_compute. Qed.

(** ** A reorg whose state is not rebuilt *)

(** A node that answers headers and fails on block numbers. *)
Definition withoutNumbers (node : Node) : Node :=
  mkNode (fun _ => None) (nd_RetrieveBlockHeaders node) (nd_FilterLogs node) (nd_HeaderByNumber node) (nd_HeaderByTag node).

(** Between the passes the old state claims blocks that the tables no longer hold. *)
Example stale_state_while_reorging :
  let '(dh, r) := handleReorg 20 (withoutNumbers (nodeOf 6 3 (exChain 1))) (mkDetectedReorg 5 BlockHashMismatch 10 11) exDetected in
  r = Err MErrRPC /\ FilterLogs dh (NewLogQuery 1 6 [7]) = Ok (Some [exLog 0 7 2 0]).
Proof. vm_compute. done. Qed.

(** ** A refusal without a suggested range *)

(** The node refuses a range and suggests none that can be read: the code dereferences a nil pointer. *)
Lemma refusal_without_range_panics fuel node chunk q br :
  nd_FilterLogs node (mkLogQuery (lq_Addrs q) br (lq_BlockHash q)) = Err (LTooManyResults None) ->
  requestLogs_loop (S fuel) node chunk q (Some br) = Err MErrPanic.
Proof. intros H. cbn. by rewrite H. Qed.
