(* ===== verification/ClaimStorage.v ===== *)
(** The tables of the claim syncer ([claimsync/storage/]) and its processor ([claimsync/processor.go],
    [claimsync/embedded.go]): blocks, claims, unset and set claims, the queries by range, by global index and by
    page, which merge the claims of one global index, and reorgs.

    A claim is the record the aggsender uses, with the columns it does not read beside it.  A query that ranks
    rows with [ROW_NUMBER] is written with the row that has no earlier, or no later, one; positions
    are primary keys, so it is the same row. *)

From S2P Require Import Prelude Tables BuildParams Downloader ReorgDetector SyncDriver.

(** ** Data *)

Inductive ClaimType := TypeNone | ClaimEvent | DetailedClaimEvent.

Record Claim := mkClaim {
  cl_claim : SyncedClaim;
  cl_TxHash : Z;
  cl_BlockTimestamp : Z;
  cl_Type : ClaimType;
  cl_BlockHash : Z
}.

Record UnsetClaim := mkUnsetClaim {
  uu_BlockNum : Z;
  uu_BlockPos : Z;
  uu_TxHash : Z;
  uu_GlobalIndex : option Z;
  uu_UnsetGlobalIndexHashChain : Z;
  uu_CreatedAt : Z
}.

Record SetClaim := mkSetClaim {
  us_BlockNum : Z;
  us_BlockPos : Z;
  us_TxHash : Z;
  us_GlobalIndex : option Z;
  us_CreatedAt : Z
}.

Record ClaimsEvent := mkClaimsEvent {
  ce_Claim : option Claim;
  ce_UnsetClaim : option UnsetClaim;
  ce_SetClaim : option SetClaim
}.

Inductive claimError :=
| ErrConstraint
| ErrOtherHash
| ErrNilGlobalIndex
| ErrInvalidPage.

Record claimdb := mkClaimdb {
  cd_block : list (Z * option Z);
  cd_claim : list Claim;
  cd_unset_claim : list UnsetClaim;
  cd_set_claim : list SetClaim
}.

#[global] Instance SyncedClaim_eq_dec : EqDecision SyncedClaim.
Proof. solve_decision. Defined.
#[global] Instance ClaimType_eq_dec : EqDecision ClaimType.
Proof. solve_decision. Defined.
#[global] Instance Claim_eq_dec : EqDecision Claim.
Proof. solve_decision. Defined.

Definition cl_pos (c : Claim) : Z * Z := (sc_BlockNum (cl_claim c), sc_BlockPos (cl_claim c)).
Definition cl_GlobalIndex (c : Claim) : option Z := sc_GlobalIndex (cl_claim c).
Definition uu_pos (u : UnsetClaim) : Z * Z := (uu_BlockNum u, uu_BlockPos u).
Definition us_pos (u : SetClaim) : Z * Z := (us_BlockNum u, us_BlockPos u).

Definition pos_eqb (a b : Z * Z) : bool := (fst a =? fst b) && (snd a =? snd b).
Definition hasBlock (db : claimdb) (num : Z) : bool := existsb (fun b => fst b =? num) (cd_block db).

Abbreviation Cs := (eff claimdb claimError).

(** ** Insertions *)

(** Inserting a stored block again is accepted when the hash is the same. *)
Definition InsertBlock (blockNum blockHash : Z) : Cs unit :=
  let! db := sget in
  if hasBlock db blockNum then
    if bool_decide (rowHash (cd_block db) blockNum = Some blockHash) then sret tt else sfail ErrOtherHash
  else smodify (fun db => mkClaimdb (cd_block db ++ [(blockNum, Some blockHash)]) (cd_claim db) (cd_unset_claim db) (cd_set_claim db)).

(** The columns of a claim: the block hash is not one. *)
Definition claim_columns (c : Claim) : Claim := mkClaim (cl_claim c) (cl_TxHash c) (cl_BlockTimestamp c) (cl_Type c) 0.

(** The primary key, and the reference to the block. *)
Definition InsertClaim (c : Claim) : Cs unit :=
  let! db := sget in
  if existsb (fun x => pos_eqb (cl_pos x) (cl_pos c)) (cd_claim db) || negb (hasBlock db (fst (cl_pos c))) then sfail ErrConstraint
  else smodify (fun db => mkClaimdb (cd_block db) (cd_claim db ++ [claim_columns c]) (cd_unset_claim db) (cd_set_claim db)).

Definition InsertUnsetClaim (u : UnsetClaim) : Cs unit :=
  let! db := sget in
  if existsb (fun x => pos_eqb (uu_pos x) (uu_pos u)) (cd_unset_claim db) || negb (hasBlock db (fst (uu_pos u))) then sfail ErrConstraint
  else smodify (fun db => mkClaimdb (cd_block db) (cd_claim db) (cd_unset_claim db ++ [u]) (cd_set_claim db)).

Definition InsertSetClaim (u : SetClaim) : Cs unit :=
  let! db := sget in
  if existsb (fun x => pos_eqb (us_pos x) (us_pos u)) (cd_set_claim db) || negb (hasBlock db (fst (us_pos u))) then sfail ErrConstraint
  else smodify (fun db => mkClaimdb (cd_block db) (cd_claim db) (cd_unset_claim db) (cd_set_claim db ++ [u])).

(** ** The processor *)

Definition optionally {A} (f : A -> Cs unit) (o : option A) : Cs unit := match o with Some a => f a | None => sret tt end.

Definition ProcessBlockWithTx (ev : ClaimsEvent) : Cs unit :=
  let! _ := optionally InsertClaim (ce_Claim ev) in
  let! _ := optionally InsertUnsetClaim (ce_UnsetClaim ev) in
  optionally InsertSetClaim (ce_SetClaim ev).

Fixpoint processEvents (evs : list ClaimsEvent) : Cs unit :=
  match evs with
  | [] => sret tt
  | ev :: evs => let! _ := ProcessBlockWithTx ev in processEvents evs
  end.

(** One transaction. *)
Definition cl_ProcessBlock (b : Block ClaimsEvent) : Cs unit := fun db =>
  match (let! _ := InsertBlock (bk_Num b) (bk_Hash b) in processEvents (bk_Events b)) db with
  | (db', Ok _) => (db', Ok tt)
  | (_, Err e) => (db, Err e)
  end.

(** The rows of the deleted blocks go with them. *)
Definition DeleteBlocksFrom (firstBlock : Z) (db : claimdb) : claimdb :=
  mkClaimdb (bfilter (fun b => negb (firstBlock <=? fst b)) (cd_block db))
    (bfilter (fun c => negb (firstBlock <=? fst (cl_pos c))) (cd_claim db))
    (bfilter (fun u => negb (firstBlock <=? uu_BlockNum u)) (cd_unset_claim db))
    (bfilter (fun u => negb (firstBlock <=? us_BlockNum u)) (cd_set_claim db)).

Definition cl_Reorg (firstReorgedBlock : Z) (db : claimdb) : claimdb := DeleteBlocksFrom firstReorgedBlock db.

Definition cl_GetLastProcessedBlock (db : claimdb) : option Z := fst <$> lastRow (cd_block db).
Definition cl_GetFirstProcessedBlock (db : claimdb) : option Z := fst <$> firstBy (fun a b => fst a <? fst b) (cd_block db).
Definition cl_GetBlockHash (db : claimdb) (blockNum : Z) : option Z := rowHash (cd_block db) blockNum.

(** ** Queries *)

Definition sameIndex (a b : Claim) : bool := bool_decide (cl_GlobalIndex a = cl_GlobalIndex b).

(** [ROW_NUMBER() OVER (PARTITION BY global_index ORDER BY ...) = 1]. *)
Definition isOldest (rows : list Claim) (c : Claim) : bool :=
  negb (existsb (fun x => sameIndex x c && pos_ltb (cl_pos x) (cl_pos c)) rows).
Definition isNewest (rows : list Claim) (c : Claim) : bool :=
  negb (existsb (fun x => sameIndex x c && pos_ltb (cl_pos c) (cl_pos x)) rows).

Definition hasUnset (db : claimdb) (c : Claim) : bool :=
  existsb (fun u => bool_decide (uu_GlobalIndex u = cl_GlobalIndex c)) (cd_unset_claim db).

(** The oldest claim with the proofs and exit roots of the newest. *)
Definition compacted (o n : Claim) : Claim :=
  let co := cl_claim o in
  let cn := cl_claim n in
  mkClaim
    (mkSyncedClaim (sc_BlockNum co) (sc_BlockPos co) (sc_GlobalIndex co) (sc_OriginNetwork co) (sc_OriginAddress co)
       (sc_DestinationAddress co) (sc_Amount co) (sc_ProofLocalExitRoot cn) (sc_ProofRollupExitRoot cn)
       (sc_MainnetExitRoot cn) (sc_RollupExitRoot cn) (sc_GlobalExitRoot cn) (sc_DestinationNetwork co) (sc_Metadata co)
       (sc_IsMessage co))
    (cl_TxHash o) (cl_BlockTimestamp o) (cl_Type o) 0.

(** The join of the oldest and newest rows of [rows], ranked among [ranked]. *)
Definition compactable (db : claimdb) (ranked rows : list Claim) : list Claim :=
  flat_map (fun o =>
    if isOldest ranked o && negb (hasUnset db o)
    then map (compacted o) (bfilter (fun n => sameIndex o n && isNewest ranked n) rows)
    else []) rows.

Definition GetClaims (db : claimdb) (fromBlock toBlock : Z) : list Claim :=
  let inRange := bfilter (fun c => (fromBlock <=? fst (cl_pos c)) && (fst (cl_pos c) <=? toBlock)) (cd_claim db) in
  merge_sort (pos_le cl_pos) (bfilter (hasUnset db) inRange ++ compactable db (cd_claim db) inRange).

(** [None] is the nil index. *)
Definition GetClaimsByGlobalIndex (db : claimdb) (globalIndex : option Z) : result claimError (list Claim) :=
  match globalIndex with
  | None => Err ErrNilGlobalIndex
  | Some _ =>
      let rows := bfilter (fun c => bool_decide (cl_GlobalIndex c = globalIndex)) (cd_claim db) in
      Ok (merge_sort (pos_le cl_pos) (bfilter (hasUnset db) rows ++ compactable db rows rows))
  end.

(** With the hash of the block joined; a NULL hash reads as zero. *)
Definition withHash (db : claimdb) (c : Claim) : Claim :=
  mkClaim (cl_claim c) (cl_TxHash c) (cl_BlockTimestamp c) (cl_Type c) (default 0 (rowHash (cd_block db) (fst (cl_pos c)))).

Definition GetClaimsByGER (db : claimdb) (globalExitRoot : Z) : list Claim :=
  map (withHash db) (merge_sort (pos_le cl_pos)
    (bfilter (fun c => (sc_GlobalExitRoot (cl_claim c) =? globalExitRoot) && bool_decide (cl_Type c = DetailedClaimEvent)) (cd_claim db))).

(** ** Pages *)

Definition calculateOffset (pageNumber pageSize recordsCount : Z) : result claimError Z :=
  let offset := (pageNumber -u32 1) *u32 pageSize in
  if wrap32 recordsCount <=? offset then Err ErrInvalidPage else Ok offset.

Definition claimsFilter (networkIDs : list Z) (globalIndex : option Z) (c : Claim) : bool :=
  (match networkIDs with [] => true | _ => existsb (Z.eqb (sc_OriginNetwork (cl_claim c))) networkIDs end) &&
  (match globalIndex with None => true | Some _ => bool_decide (cl_GlobalIndex c = globalIndex) end).

(** Every claim of an unset index, and one per other index. *)
Definition getCompactedClaimsCount (db : claimdb) (rows : list Claim) : Z :=
  Z.of_nat (length (bfilter (hasUnset db) rows)) +
  Z.of_nat (length (remove_dups (map cl_GlobalIndex (bfilter (fun c => negb (hasUnset db c)) rows)))).

Definition GetClaimsPaged (db : claimdb) (pageNumber pageSize : Z) (networkIDs : list Z) (globalIndex : option Z)
  : result claimError (list Claim * Z) :=
  let filtered := bfilter (claimsFilter networkIDs globalIndex) (cd_claim db) in
  let claimsCount := getCompactedClaimsCount db filtered in
  if claimsCount =? 0 then Ok ([], 0)
  else
    let? offset := calculateOffset pageNumber pageSize claimsCount in
    let page_claims := page pageSize offset (merge_sort (pos_ge cl_pos) filtered) in
    let ranked := bfilter (fun c => existsb (sameIndex c) page_claims) filtered in
    let newest_on_page (o : Claim) :=
      existsb (fun pc => sameIndex pc o && negb (hasUnset db pc) &&
                         existsb (fun acr => sameIndex pc acr && isNewest ranked acr && pos_eqb (cl_pos pc) (cl_pos acr)) ranked)
        page_claims in
    let compactable_claims :=
      flat_map (fun o =>
        if isOldest ranked o && newest_on_page o
        then map (compacted o) (bfilter (fun n => sameIndex o n && isNewest ranked n) ranked)
        else []) ranked in
    Ok (map (withHash db) (merge_sort (pos_ge cl_pos) (bfilter (hasUnset db) page_claims ++ compactable_claims)), claimsCount).

Definition sameIndexAs {A} (index : A -> option Z) (globalIndex : option Z) (a : A) : bool :=
  match globalIndex with None => true | Some _ => bool_decide (index a = globalIndex) end.

Definition GetUnsetClaimsPaged (db : claimdb) (pageNumber pageSize : Z) (globalIndex : option Z)
  : result claimError (list UnsetClaim * Z) :=
  let rows := bfilter (sameIndexAs uu_GlobalIndex globalIndex) (cd_unset_claim db) in
  let count := Z.of_nat (length rows) in
  if count =? 0 then Ok ([], 0)
  else
    let? offset := calculateOffset pageNumber pageSize count in
    Ok (page pageSize offset (merge_sort (pos_ge uu_pos) rows), count).

Definition GetSetClaimsPaged (db : claimdb) (pageNumber pageSize : Z) (globalIndex : option Z)
  : result claimError (list SetClaim * Z) :=
  let rows := bfilter (sameIndexAs us_GlobalIndex globalIndex) (cd_set_claim db) in
  let count := Z.of_nat (length rows) in
  if count =? 0 then Ok ([], 0)
  else
    let? offset := calculateOffset pageNumber pageSize count in
    Ok (page pageSize offset (merge_sort (pos_ge us_pos) rows), count).
