(* ===== verification/ClaimProofs.v ===== *)
(** Properties of the tables of the claim syncer: what a query for a range reports of each global index, when the
    claims of a range can be cut or split, the agreement of the query by global index with it, the laws the
    querier of the aggsender and the sync driver rely on, and reorgs. *)

From S2P Require Import Prelude Tables BuildParams AdjustRange Downloader ReorgDetector SyncDriver ClaimStorage.

(** ** Lemmas on lists *)

#[local] Instance bfilter_Permutation {A} (p : A -> bool) : Proper (Permutation ==> Permutation) (bfilter p).
Proof.
  induction 1 as [|x l1 l2 H IH|x y l|l1 l2 l3 H1 IH1 H2 IH2]; cbn; [done | | |by etrans].
  - by destruct (p x); [f_equiv|].
  - by destruct (p x), (p y); [constructor|..].
Qed.

(** The only element that passes a test. *)
Lemma bfilter_only {A} `{EqDecision A} (p : A -> bool) l x :
  NoDup l -> p x = true -> (forall y, y ∈ l -> p y = true -> y = x) -> bfilter p l = if decide (x ∈ l) then [x] else [].
Proof.
  intros Hnd Hx Huniq. induction Hnd as [|y l Hy Hnd IH]; cbn.
  { case_decide as Hin; [by apply elem_of_nil in Hin | done]. }
  destruct (p y) eqn:Ep.
  - assert (y = x) as -> by (apply Huniq; [by left | done]). rewrite (decide_True) by (by left). f_equal.
    apply drop_all. intros z Hz. apply list_elem_of_In in Hz. destruct (p z) eqn:Ez; [|done].
    assert (z = x) as -> by (apply Huniq; [by right | done]). done.
  - rewrite IH by (intros z Hz; apply Huniq; by right). destruct (decide (x ∈ l)) as [Hin|Hin].
    + by rewrite decide_True by (by right).
    + rewrite decide_False; [done|]. intros [->|?]%elem_of_cons; [congruence | done].
Qed.

Lemma bfilter_flat_map {A B} (p : B -> bool) (f : A -> list B) l :
  bfilter p (flat_map f l) = flat_map (fun x => bfilter p (f x)) l.
Proof. induction l as [|x l IH]; cbn; [done|]. by rewrite bfilter_app, IH. Qed.

Lemma flat_map_ext_in {A B} (f g : A -> list B) l : (forall x, x ∈ l -> f x = g x) -> flat_map f l = flat_map g l.
Proof.
  induction l as [|x l IH]; cbn; intros H; [done|]. rewrite (H x (list_elem_of_here _ _)), IH; [done|].
  intros y Hy. apply H. by right.
Qed.

Lemma flat_map_test {A B} (p : A -> bool) (f : A -> list B) l :
  flat_map (fun x => if p x then f x else []) l = flat_map f (bfilter p l).
Proof. induction l as [|x l IH]; cbn; [done|]. destruct (p x); cbn; by rewrite IH. Qed.

(** A first row in the order of positions. *)
Lemma exists_first {A} (pos : A -> Z * Z) (l : list A) :
  l <> [] -> exists o, o ∈ l /\ forall x, x ∈ l -> pos_ltb (pos x) (pos o) = false.
Proof.
  induction l as [|a l IH]; [done|]. intros _. destruct (decide (l = [])) as [->|Hne].
  { exists a. split; [by left|]. intros x ->%list_elem_of_singleton. apply not_true_is_false. rewrite pos_ltb_lt. lia. }
  destruct (IH Hne) as (o & Ho & Hmin). destruct (pos_ltb (pos a) (pos o)) eqn:E.
  - exists a. split; [by left|]. intros x [->|Hx]%elem_of_cons; apply not_true_is_false; rewrite pos_ltb_lt in *; [lia|].
    specialize (Hmin x Hx). apply not_true_iff_false in Hmin. rewrite pos_ltb_lt in Hmin. lia.
  - exists o. split; [by right|]. intros x [->|Hx]%elem_of_cons; [done | by apply Hmin].
Qed.

Lemma exists_last_row {A} (pos : A -> Z * Z) (l : list A) :
  l <> [] -> exists n, n ∈ l /\ forall x, x ∈ l -> pos_ltb (pos n) (pos x) = false.
Proof.
  intros Hne. destruct (exists_first (fun x => (- fst (pos x), - snd (pos x))) l Hne) as (n & Hn & Hmax). exists n. split; [done|].
  intros x Hx. specialize (Hmax x Hx). apply not_true_is_false. apply not_true_iff_false in Hmax. rewrite pos_ltb_lt in *. cbn in Hmax. lia.
Qed.

(** ** The claims of a global index *)

Lemma sameIndex_iff a b : sameIndex a b = true <-> cl_GlobalIndex a = cl_GlobalIndex b.
Proof. unfold sameIndex. by rewrite bool_decide_eq_true. Qed.

Lemma sameIndex_sym a b : sameIndex a b = sameIndex b a.
Proof. unfold sameIndex. apply bool_decide_ext. split; congruence. Qed.

Lemma hasUnset_index db a b : cl_GlobalIndex a = cl_GlobalIndex b -> hasUnset db a = hasUnset db b.
Proof. intros E. unfold hasUnset. by rewrite E. Qed.

Definition inRange (from to : Z) (c : Claim) : bool := (from <=? fst (cl_pos c)) && (fst (cl_pos c) <=? to).

Section Index.
Context (db : claimdb) (c : Claim).
Abbreviation rows := (cd_claim db).
Definition group : list Claim := bfilter (sameIndex c) (cd_claim db).

Lemma group_elem x : x ∈ group <-> x ∈ rows /\ cl_GlobalIndex c = cl_GlobalIndex x.
Proof. unfold group. by rewrite list_elem_of_In, bfilter_In, <- list_elem_of_In, sameIndex_iff. Qed.

Definition oldest_of (o : Claim) : Prop := o ∈ group /\ forall x, x ∈ group -> pos_ltb (cl_pos x) (cl_pos o) = false.
Definition newest_of (n : Claim) : Prop := n ∈ group /\ forall x, x ∈ group -> pos_ltb (cl_pos n) (cl_pos x) = false.

Lemma isOldest_iff x : x ∈ group -> isOldest rows x = true <-> oldest_of x.
Proof.
  intros Hx. unfold isOldest. rewrite negb_true_iff, existsb_false_In. split.
  - intros H. split; [done|]. intros y Hy. apply group_elem in Hy as [Hy Ey]. apply group_elem in Hx as [_ Ex].
    specialize (H y (proj1 (list_elem_of_In _ _) Hy)). rewrite (proj2 (sameIndex_iff y x)) in H by congruence. done.
  - intros [_ H] y Hy. destruct (sameIndex y x) eqn:E; [|done]. cbn. apply H. apply group_elem. apply group_elem in Hx as [_ Ex].
    apply sameIndex_iff in E. split; [by apply list_elem_of_In | congruence].
Qed.

Lemma isNewest_iff x : x ∈ group -> isNewest rows x = true <-> newest_of x.
Proof.
  intros Hx. unfold isNewest. rewrite negb_true_iff, existsb_false_In. split.
  - intros H. split; [done|]. intros y Hy. apply group_elem in Hy as [Hy Ey]. apply group_elem in Hx as [_ Ex].
    specialize (H y (proj1 (list_elem_of_In _ _) Hy)). rewrite (proj2 (sameIndex_iff y x)) in H by congruence. done.
  - intros [_ H] y Hy. destruct (sameIndex y x) eqn:E; [|done]. cbn. apply H. apply group_elem. apply group_elem in Hx as [_ Ex].
    apply sameIndex_iff in E. split; [by apply list_elem_of_In | congruence].
Qed.

Context (Hpk : NoDup (map cl_pos (cd_claim db))).

Lemma same_row x y : x ∈ rows -> y ∈ rows -> pos_ltb (cl_pos x) (cl_pos y) = false -> pos_ltb (cl_pos y) (cl_pos x) = false -> x = y.
Proof.
  intros Hx Hy H1 H2. assert (E : cl_pos x = cl_pos y).
  { apply not_true_iff_false in H1, H2. rewrite pos_ltb_lt in H1, H2. destruct (cl_pos x), (cl_pos y). cbn in *. f_equal; lia. }
  apply list_elem_of_lookup in Hx as [i Hi], Hy as [j Hj]. assert (i = j) as ->; [|congruence].
  apply (NoDup_lookup _ i j (cl_pos x) Hpk); change (map cl_pos rows) with (cl_pos <$> rows); rewrite list_lookup_fmap.
  - by rewrite Hi.
  - by rewrite Hj, E.
Qed.

(** The rows of a range that are the oldest, or the newest, of the index. *)
Lemma ranked_rows (test : Claim -> bool) x from to :
  x ∈ group -> test x = true -> (forall y, y ∈ group -> test y = true -> y = x) ->
  bfilter (fun y => sameIndex c y && test y) (bfilter (inRange from to) rows) = if inRange from to x then [x] else [].
Proof.
  intros Hx Ht Hu. rewrite (bfilter_only _ _ x).
  - assert (Hin : x ∈ bfilter (inRange from to) rows <-> inRange from to x = true).
    { rewrite list_elem_of_In, bfilter_In, <- list_elem_of_In. apply group_elem in Hx as [Hx _]. tauto. }
    destruct (inRange from to x) eqn:E; [rewrite decide_True by (by apply Hin) | rewrite decide_False; [|intros ?%Hin]]; done.
  - apply NoDup_fmap_1 in Hpk. apply (sublist_NoDup (bfilter (inRange from to) rows) rows); [done|].
    clear. induction rows as [|y l IH]; cbn; [constructor|]. destruct (inRange from to y); by constructor.
  - apply group_elem in Hx as [_ E]. by rewrite (proj2 (sameIndex_iff c x)).
  - intros y Hy E. bool_hyps. apply Hu; [|done]. apply group_elem. apply list_elem_of_In, bfilter_In in Hy as [Hy _].
    split; [by apply list_elem_of_In | by apply sameIndex_iff].
Qed.

Lemma compacted_index o n : cl_GlobalIndex (compacted o n) = cl_GlobalIndex o.
Proof. done. Qed.

Lemma inRange_group from to o n :
  oldest_of o -> newest_of n -> Forall (fun x => inRange from to x = true) group <-> inRange from to o = true /\ inRange from to n = true.
Proof.
  intros [Ho Hmin] [Hn Hmax]. rewrite Forall_forall. split; [by auto|]. intros [H1 H2] x Hx.
  specialize (Hmin x Hx). specialize (Hmax x Hx). apply not_true_iff_false in Hmin, Hmax. rewrite pos_ltb_lt in Hmin, Hmax.
  unfold inRange in *. bool_hyps. apply andb_true_iff. rewrite !Z.leb_le. lia.
Qed.

(** The merged claim of the index among those of a range. *)
Lemma compactable_group from to o n :
  hasUnset db c = false -> oldest_of o -> newest_of n ->
  bfilter (sameIndex c) (compactable db rows (bfilter (inRange from to) rows)) =
  if inRange from to o && inRange from to n then [compacted o n] else [].
Proof.
  intros Hun Ho Hn. pose proof (proj1 Ho) as Hog. pose proof (proj1 Hn) as Hng. unfold compactable. rewrite bfilter_flat_map.
  erewrite (flat_map_ext_in _ (fun x => if sameIndex c x && isOldest rows x
    then map (compacted x) (bfilter (fun y => sameIndex c y && isNewest rows y) (bfilter (inRange from to) rows)) else [])).
  2: { intros x Hx. destruct (sameIndex c x) eqn:E; cbn [andb].
    - apply sameIndex_iff in E. rewrite <- (hasUnset_index db c x E), Hun, andb_true_r. destruct (isOldest rows x); [|done].
      assert (Eq : forall y, sameIndex x y = sameIndex c y) by (intros y; unfold sameIndex; by rewrite E).
      rewrite (bfilter_ext (fun y => sameIndex x y && _) (fun y => sameIndex c y && isNewest rows y)) by (intros; by rewrite Eq).
      apply bfilter_all. intros z Hz. apply in_map_iff in Hz as (y & <- & _). apply sameIndex_iff. by rewrite compacted_index.
    - destruct (_ && _); [|done]. apply drop_all. intros z Hz. apply in_map_iff in Hz as (y & <- & _). exact E. }
  rewrite flat_map_test, (ranked_rows (isOldest rows) o); [|done | by apply isOldest_iff |].
  2: { intros y Hy [_ Hmin]%isOldest_iff; [|done]. apply group_elem in Hy as Hy'. apply group_elem in Hog as Hog'.
       apply same_row; [tauto.. | by apply (proj2 Ho) | by apply Hmin]. }
  destruct (inRange from to o); [|done]. cbn [flat_map andb]. rewrite app_nil_r.
  rewrite (ranked_rows (isNewest rows) n); [|done | by apply isNewest_iff |].
  2: { intros y Hy [_ Hmax]%isNewest_iff; [|done]. apply group_elem in Hy as Hy'. apply group_elem in Hng as Hng'.
       apply same_row; [tauto.. | by apply Hmax | by apply (proj2 Hn)]. }
  by destruct (inRange from to n).
Qed.

Lemma GetClaims_parts from to :
  GetClaims db from to ≡ₚ bfilter (hasUnset db) (bfilter (inRange from to) rows) ++ compactable db rows (bfilter (inRange from to) rows).
Proof. unfold GetClaims. apply merge_sort_Permutation. Qed.

Lemma GetClaims_unset from to : hasUnset db c = true -> bfilter (sameIndex c) (GetClaims db from to) ≡ₚ bfilter (inRange from to) group.
Proof.
  intros Hun. rewrite GetClaims_parts, bfilter_app. rewrite (drop_all _ (compactable db rows _)), app_nil_r.
  - unfold group. rewrite !bfilter_bfilter. erewrite bfilter_ext; [done|]. intros x _. cbn.
    destruct (sameIndex c x) eqn:E; [|by destruct (inRange from to x), (hasUnset db x)]. apply sameIndex_iff in E.
    rewrite <- (hasUnset_index db c x E), Hun. by destruct (inRange from to x).
  - intros z Hz. apply in_flat_map in Hz as (x & _ & Hz). destruct (isOldest rows x && negb (hasUnset db x)) eqn:Et; [|done].
    apply in_map_iff in Hz as (y & <- & _). apply not_true_is_false. intros E%sameIndex_iff. rewrite compacted_index in E.
    bool_hyps. rewrite (hasUnset_index db c x E) in Hun. congruence.
Qed.

Lemma GetClaims_compacted from to o n :
  hasUnset db c = false -> oldest_of o -> newest_of n ->
  bfilter (sameIndex c) (GetClaims db from to) = if inRange from to o && inRange from to n then [compacted o n] else [].
Proof.
  intros Hun Ho Hn. pose proof (bfilter_Permutation (sameIndex c) _ _ (GetClaims_parts from to)) as Hp. rewrite bfilter_app in Hp.
  rewrite (drop_all _ (bfilter (hasUnset db) _)) in Hp.
  2: { intros x Hx. apply bfilter_In in Hx as [_ Hx]. apply not_true_is_false. intros E%sameIndex_iff.
       rewrite (hasUnset_index db c x E) in Hun. congruence. }
  rewrite (compactable_group from to o n) in Hp by done. cbn [app] in Hp.
  destruct (inRange from to o && inRange from to n); [by apply Permutation_singleton_r in Hp | by apply Permutation_nil_r in Hp].
Qed.

Lemma exists_oldest_newest : c ∈ rows -> exists o n, oldest_of o /\ newest_of n.
Proof.
  intros Hc. assert (Hne : group <> []). { intros E. assert (Hin : c ∈ group) by (by apply group_elem). rewrite E in Hin. by apply elem_of_nil in Hin. }
  destruct (exists_first cl_pos group Hne) as (o & Ho), (exists_last_row cl_pos group Hne) as (n & Hn). by exists o, n.
Qed.

(** What a query for a range reports of a global index: all its claims of the range when the index was ever unset;
    otherwise one claim, the oldest with the proofs of the newest, when all the claims of the index lie in the
    range, and none as soon as one of them lies outside. *)
Theorem GetClaims_of_index from to :
  c ∈ rows ->
  if hasUnset db c then bfilter (sameIndex c) (GetClaims db from to) ≡ₚ bfilter (inRange from to) group
  else exists o n, oldest_of o /\ newest_of n /\
    (Forall (fun x => inRange from to x = true) group -> bfilter (sameIndex c) (GetClaims db from to) = [compacted o n]) /\
    (~ Forall (fun x => inRange from to x = true) group -> bfilter (sameIndex c) (GetClaims db from to) = []).
Proof.
  intros Hc. destruct (hasUnset db c) eqn:Hun; [by apply GetClaims_unset|].
  destruct (exists_oldest_newest Hc) as (o & n & Ho & Hn). exists o, n. split; [done|]. split; [done|].
  rewrite (inRange_group from to o n Ho Hn), (GetClaims_compacted from to o n Hun Ho Hn), <- andb_true_iff.
  by destruct (_ && _).
Qed.

(** Splitting or cutting a range loses claims: when an index that was never unset has claims on both sides of a block,
    neither the range up to it nor the range after it reports the index, although the whole range does; and
    the claims of the whole range restricted to the first part hold it, those asked for the first part do not. *)
Theorem split_range_loses_claim from mid to :
  c ∈ rows -> hasUnset db c = false -> Forall (fun x => inRange from to x = true) group ->
  Exists (fun x => fst (cl_pos x) <= mid) group -> Exists (fun x => mid < fst (cl_pos x)) group ->
  bfilter (sameIndex c) (GetClaims db from mid) = [] /\ bfilter (sameIndex c) (GetClaims db (mid + 1) to) = [] /\
  exists m, bfilter (sameIndex c) (GetClaims db from to) = [m] /\
    cl_claim m ∈ filterClaimsInRange (map cl_claim (GetClaims db from to)) from mid.
Proof.
  intros Hc Hun Hall (x & Hx & Hxm)%Exists_exists (y & Hy & Hym)%Exists_exists. destruct (exists_oldest_newest Hc) as (o & n & Ho & Hn).
  pose proof (proj1 (inRange_group from to o n Ho Hn) Hall) as [Hro Hrn]. rewrite !(GetClaims_compacted _ _ o n Hun Ho Hn).
  pose proof (proj2 Ho x Hx) as Hox. pose proof (proj2 Hn y Hy) as Hny. apply not_true_iff_false in Hox, Hny. rewrite pos_ltb_lt in Hox, Hny.
  assert (E1 : inRange from mid n = false) by (apply not_true_is_false; unfold inRange; rewrite andb_true_iff, !Z.leb_le; lia).
  assert (E2 : inRange (mid + 1) to o = false) by (apply not_true_is_false; unfold inRange; rewrite andb_true_iff, !Z.leb_le; lia).
  rewrite E1, E2, andb_false_r. split; [done|]. split; [done|]. rewrite Hro, Hrn. exists (compacted o n). split; [done|].
  unfold filterClaimsInRange. rewrite list_elem_of_In, bfilter_In. split.
  - apply in_map. assert (Hin : In (compacted o n) (bfilter (sameIndex c) (GetClaims db from to)))
      by (rewrite (GetClaims_compacted _ _ o n Hun Ho Hn), Hro, Hrn; by left). by apply bfilter_In in Hin as [Hin _].
  - unfold inRange in Hro. bool_hyps. cbn [cl_claim compacted sc_BlockNum]. apply andb_true_iff. rewrite !Z.leb_le.
    unfold cl_pos in *. cbn in *. lia.
Qed.

End Index.

(** ** Sorted answers *)

(** Rows with different positions have one order. *)
Lemma merge_sort_unique (l1 l2 : list Claim) :
  (forall x y, x ∈ l1 -> y ∈ l1 -> pos_ltb (cl_pos x) (cl_pos y) = false -> pos_ltb (cl_pos y) (cl_pos x) = false -> x = y) ->
  l1 ≡ₚ l2 -> StronglySorted (pos_le cl_pos) l2 -> merge_sort (pos_le cl_pos) l1 = l2.
Proof.
  intros Hu Hp Hs. apply (StronglySorted_unique_strong (pos_le cl_pos)).
  - intros x y Hx Hy H1 H2. rewrite merge_sort_Permutation in Hx. rewrite <- Hp in Hy. by apply Hu.
  - apply StronglySorted_merge_sort.
    + intros x y z. unfold pos_le. rewrite <- !not_true_iff_false, !pos_ltb_lt. lia.
    + intros x y. unfold pos_le. rewrite <- !not_true_iff_false, !pos_ltb_lt. lia.
  - done.
  - by rewrite merge_sort_Permutation.
Qed.

Lemma GetClaims_sorted db from to : StronglySorted (pos_le cl_pos) (GetClaims db from to).
Proof.
  apply StronglySorted_merge_sort.
  - intros x y z. unfold pos_le. rewrite <- !not_true_iff_false, !pos_ltb_lt. lia.
  - intros x y. unfold pos_le. rewrite <- !not_true_iff_false, !pos_ltb_lt. lia.
Qed.

(** The table with the rows of one index only. *)
Definition only_index (db : claimdb) (c : Claim) : claimdb :=
  mkClaimdb (cd_block db) (group db c) (cd_unset_claim db) (cd_set_claim db).

Lemma group_only_index db c : group (only_index db c) c = group db c.
Proof. unfold group at 1. cbn. apply bfilter_all. intros x Hx. by apply bfilter_In in Hx as [_ ?]. Qed.

(** Asked for a global index, the storage answers with what a range that holds all its claims reports of it. *)
Theorem GetClaimsByGlobalIndex_is_range db c gi from to :
  NoDup (map cl_pos (cd_claim db)) -> c ∈ cd_claim db -> cl_GlobalIndex c = Some gi ->
  Forall (fun x => inRange from to x = true) (group db c) ->
  GetClaimsByGlobalIndex db (Some gi) = Ok (bfilter (sameIndex c) (GetClaims db from to)).
Proof.
  intros Hpk Hc Hgi Hall. unfold GetClaimsByGlobalIndex. f_equal.
  rewrite (bfilter_ext (fun x => bool_decide (cl_GlobalIndex x = Some gi)) (sameIndex c))
    by (intros x _; unfold sameIndex; rewrite Hgi; apply bool_decide_ext; split; congruence).
  fold (group db c). set (db' := only_index db c).
  assert (Hr : bfilter (inRange from to) (group db c) = group db c)
    by (apply bfilter_all; intros x Hx; rewrite Forall_forall in Hall; by apply Hall, list_elem_of_In).
  assert (Hc' : c ∈ cd_claim db') by (by apply group_elem).
  assert (Hpk' : NoDup (map cl_pos (cd_claim db'))) by (by apply map_bfilter_NoDup).
  assert (Hs : StronglySorted (pos_le cl_pos) (bfilter (sameIndex c) (GetClaims db from to))) by apply bfilter_StronglySorted, GetClaims_sorted.
  destruct (hasUnset db c) eqn:Hun.
  - assert (Hg : forall x, In x (group db c) -> hasUnset db x = true).
    { intros x Hx. apply bfilter_In in Hx as [_ E%sameIndex_iff]. by rewrite <- (hasUnset_index db c x E). }
    rewrite (bfilter_all (hasUnset db) (group db c)) by done. unfold compactable. rewrite (flat_map_ext_in _ (fun _ => [])).
    2: { intros x Hx. by rewrite Hg, andb_false_r by (by apply list_elem_of_In). }
    assert (Hnil : forall l : list Claim, flat_map (fun _ : Claim => ([] : list Claim)) l = []) by (by induction l).
    rewrite Hnil, app_nil_r. apply merge_sort_unique; [|by rewrite (GetClaims_unset db c from to Hun), Hr|done].
    intros x y Hx Hy. apply group_elem in Hx as [Hx _], Hy as [Hy _]. by apply (same_row db Hpk).
  - destruct (exists_oldest_newest db c Hc) as (o & n & Ho & Hn). assert (Hon : inRange from to o && inRange from to n = true)
      by (apply andb_true_iff, (inRange_group db c from to o n Ho Hn); done).
    rewrite (GetClaims_compacted db c Hpk from to o n Hun Ho Hn), Hon.
    assert (Ho' : oldest_of db' c o) by (unfold oldest_of, db'; by rewrite group_only_index).
    assert (Hn' : newest_of db' c n) by (unfold newest_of, db'; by rewrite group_only_index).
    pose proof (GetClaims_compacted db' c Hpk' from to o n Hun Ho' Hn') as Hc2. rewrite Hon in Hc2. rewrite <- Hc2.
    assert (El : GetClaims db' from to = merge_sort (pos_le cl_pos)
      (bfilter (hasUnset db) (group db c) ++ compactable db (group db c) (group db c))).
    { unfold GetClaims. cbn [cd_claim db' only_index]. change (fun c0 => _) with (inRange from to). by rewrite Hr. }
    rewrite El. symmetry. apply bfilter_all. intros x Hx. apply list_elem_of_In in Hx. rewrite merge_sort_Permutation in Hx.
    assert (Hsame : forall y, y ∈ group db c -> sameIndex c y = true) by (by intros y [_ E]%group_elem; apply sameIndex_iff).
    apply elem_of_app in Hx as [Hx|Hx]; apply list_elem_of_In in Hx.
    + apply bfilter_In in Hx as [Hx _]. by apply Hsame, list_elem_of_In.
    + apply in_flat_map in Hx as (y & Hy & Hx). destruct (isOldest _ _ && _); [|done]. apply in_map_iff in Hx as (z & <- & _).
      change (sameIndex c y = true). by apply Hsame, list_elem_of_In.
Qed.

(** ** The querier of the aggsender *)

(** The tables of a syncer that processes blocks in order, as its insertions leave them. *)
Record claims_ordered (db : claimdb) : Prop := {
  co_order : ordered cl_pos (cd_claim db);
  co_columns : Forall (fun c => cl_BlockHash c = 0) (cd_claim db)
}.

(** No index that was never unset has two claims. *)
Definition single_claims (db : claimdb) : Prop :=
  forall x y, x ∈ cd_claim db -> y ∈ cd_claim db -> cl_GlobalIndex x = cl_GlobalIndex y -> hasUnset db x = false -> x = y.

Lemma bfilter_partition {A} (p : A -> bool) (l : list A) : bfilter p l ++ bfilter (fun x => negb (p x)) l ≡ₚ l.
Proof. induction l as [|x l IH]; cbn; [done|]. destruct (p x); cbn; [by rewrite IH|]. by rewrite <- Permutation_middle, IH. Qed.

Lemma pos_ltb_irrefl a : pos_ltb a a = false.
Proof. apply not_true_is_false. rewrite pos_ltb_lt. lia. Qed.

Lemma ordered_positions (l : list Claim) : ordered cl_pos l -> NoDup (map cl_pos l) /\ StronglySorted (pos_le cl_pos) l.
Proof.
  induction 1 as [|c l Hs [IH1 IH2] Hc]; [split; constructor|]. rewrite Forall_forall in Hc. split.
  - cbn. apply NoDup_cons. split; [|done]. intros (x & E & Hx)%list_elem_of_fmap. specialize (Hc x Hx). by rewrite <- E, pos_ltb_irrefl in Hc.
  - constructor; [done|]. apply Forall_forall. intros x Hx. specialize (Hc x Hx). unfold pos_le. apply not_true_is_false.
    rewrite pos_ltb_lt in *. lia.
Qed.

Lemma compactable_single db from to :
  claims_ordered db -> single_claims db ->
  compactable db (cd_claim db) (bfilter (inRange from to) (cd_claim db)) =
  bfilter (fun c => negb (hasUnset db c)) (bfilter (inRange from to) (cd_claim db)).
Proof.
  intros [Ho Hcol] Hsingle. destruct (ordered_positions _ Ho) as [Hpk _]. unfold compactable.
  rewrite (flat_map_ext_in _ (fun o => if negb (hasUnset db o) then [o] else [])).
  { rewrite flat_map_test. generalize (bfilter (fun c => negb (hasUnset db c)) (bfilter (inRange from to) (cd_claim db))).
    induction l as [|x l IH]; cbn; [done | by rewrite IH]. }
  intros o Hin. apply list_elem_of_In, bfilter_In in Hin as [Hin Hr]. apply list_elem_of_In in Hin.
  destruct (hasUnset db o) eqn:Hun; [by rewrite andb_false_r|]. cbn [negb]. rewrite andb_true_r.
  assert (Hg : forall x, x ∈ group db o -> x = o) by (intros x [Hx E]%group_elem; symmetry; by apply Hsingle).
  assert (Hog : o ∈ group db o) by (by apply group_elem).
  rewrite (proj2 (isOldest_iff db o o Hog)) by (split; [done|]; intros x ->%Hg; apply pos_ltb_irrefl).
  rewrite (ranked_rows db o Hpk (isNewest (cd_claim db)) o); [|done| |by intros y Hy _; apply Hg].
  - rewrite Hr. cbn [map]. f_equal. rewrite Forall_forall in Hcol. specialize (Hcol o Hin).
    destruct o as [[] ? ? ? ?]. unfold compacted. cbn in *. by subst.
  - apply (proj2 (isNewest_iff db o o Hog)). split; [done|]. intros x ->%Hg. apply pos_ltb_irrefl.
Qed.

(** The law the querier of the aggsender needs of the claim syncer, that the claims of a range are those of a table,
    holds of this storage when no claim of an index that was never unset came twice. *)
Theorem claims_answer_from_table db from to :
  claims_ordered db -> single_claims db ->
  map cl_claim (GetClaims db from to) = filterClaimsInRange (map cl_claim (cd_claim db)) from to.
Proof.
  intros Hco Hsingle. destruct (ordered_positions _ (co_order _ Hco)) as [Hpk Hs].
  assert (E : GetClaims db from to = bfilter (inRange from to) (cd_claim db)).
  { unfold GetClaims. change (fun c => _) with (inRange from to). rewrite compactable_single by done. apply merge_sort_unique.
    - intros x y. rewrite bfilter_partition. rewrite !list_elem_of_In, !bfilter_In, <- !list_elem_of_In. intros [Hx _] [Hy _].
      by apply (same_row db Hpk).
    - apply bfilter_partition.
    - by apply bfilter_StronglySorted. }
  rewrite E. unfold filterClaimsInRange. clear. induction (cd_claim db) as [|c l IH]; cbn; [done|]. unfold inRange at 1.
  cbn [cl_pos fst]. destruct (_ && _); cbn; by rewrite IH.
Qed.

(** ** The sync driver and reorgs *)

(** Rows appended to the tables. *)
Record appended (num : Z) (db db' : claimdb) : Prop := {
  ap_block : cd_block db' = cd_block db;
  ap_claim : exists l, cd_claim db' = cd_claim db ++ l /\ Forall (fun c => fst (cl_pos c) = num) l;
  ap_unset : exists l, cd_unset_claim db' = cd_unset_claim db ++ l /\ Forall (fun u => uu_BlockNum u = num) l;
  ap_set : exists l, cd_set_claim db' = cd_set_claim db ++ l /\ Forall (fun u => us_BlockNum u = num) l
}.

(** The events of a block carry its number. *)
Definition event_of (num : Z) (ev : ClaimsEvent) : Prop :=
  (forall c, ce_Claim ev = Some c -> fst (cl_pos c) = num) /\ (forall u, ce_UnsetClaim ev = Some u -> uu_BlockNum u = num) /\
  (forall u, ce_SetClaim ev = Some u -> us_BlockNum u = num).

Lemma appended_refl num db : appended num db db.
Proof. split; [done|..]; exists []; by rewrite app_nil_r. Qed.

Lemma appended_trans num db1 db2 db3 : appended num db1 db2 -> appended num db2 db3 -> appended num db1 db3.
Proof.
  intros [B1 (c1 & C1 & F1) (u1 & U1 & G1) (s1 & S1 & H1)] [B2 (c2 & C2 & F2) (u2 & U2 & G2) (s2 & S2 & H2)].
  split; [congruence | exists (c1 ++ c2) | exists (u1 ++ u2) | exists (s1 ++ s2)]; (split; [|by apply Forall_app]);
    rewrite ?C2, ?C1, ?U2, ?U1, ?S2, ?S1; by rewrite <- app_assoc.
Qed.

(** A successful optional insertion appends its row, if any, to one table. *)
Ltac insertion H :=
  unfold optionally, InsertClaim, InsertUnsetClaim, InsertSetClaim in H;
  first
    [ let d := fresh in let t := fresh in let E := fresh in
      apply sbind_Ok_inv in H as (d & t & E & H); injection E as <- <-; destruct (_ || _); [discriminate H|];
      injection H as <- _; split; cbn; [done|..];
      (eexists; split; [first [reflexivity | symmetry; apply app_nil_r]|]); repeat constructor;
      match goal with Hx : forall c, Some ?x = Some c -> _ |- _ => exact (Hx x eq_refl) end
    | injection H; intros; subst; apply appended_refl ].

Lemma ProcessBlockWithTx_appends num ev db db' u : event_of num ev -> ProcessBlockWithTx ev db = (db', Ok u) -> appended num db db'.
Proof.
  intros (Hc & Hu & Hs) H. unfold ProcessBlockWithTx in H. inv_seq H as v1 s1 E1. inv_seq H as v2 s2 E2.
  apply (appended_trans _ _ s1); [|apply (appended_trans _ _ s2)].
  - destruct (ce_Claim ev); insertion E1.
  - destruct (ce_UnsetClaim ev); insertion E2.
  - destruct (ce_SetClaim ev); insertion H.
Qed.

Lemma processEvents_appends num evs db db' u :
  Forall (event_of num) evs -> processEvents evs db = (db', Ok u) -> appended num db db'.
Proof.
  intros Hev. revert db. induction Hev as [|ev evs He Hev IH]; intros db H; cbn in H; [injection H as <- _; apply appended_refl|].
  inv_seq H as v s E. eapply appended_trans; [by eapply ProcessBlockWithTx_appends | by apply IH].
Qed.

(** A processed block is new, or it was stored with the same hash. *)
Lemma cl_ProcessBlock_Ok b db db' u :
  Forall (event_of (bk_Num b)) (bk_Events b) -> cl_ProcessBlock b db = (db', Ok u) ->
  exists db1, appended (bk_Num b) db1 db' /\
    ((db1 = db /\ rowHash (cd_block db) (bk_Num b) = Some (bk_Hash b)) \/
     (hasBlock db (bk_Num b) = false /\
      db1 = mkClaimdb (cd_block db ++ [(bk_Num b, Some (bk_Hash b))]) (cd_claim db) (cd_unset_claim db) (cd_set_claim db))).
Proof.
  intros Hev. unfold cl_ProcessBlock. destruct (sbind _ _ db) as [d [v|]] eqn:E; [|done]. intros [= <- _].
  inv_seq E as w s Ei. exists s. split; [by eapply processEvents_appends|]. unfold InsertBlock in Ei. inv_seq Ei as d1 s1 E1.
  injection E1 as <- <-. destruct (hasBlock db (bk_Num b)) eqn:Eb.
  - case_bool_decide as Hh; [|done]. injection Ei as <- _. by left.
  - injection Ei as <- _. by right.
Qed.

(** The tables hold rows of blocks before [n] only. *)
Record before (n : Z) (db : claimdb) : Prop := {
  bf_block : Forall (fun b => fst b < n) (cd_block db);
  bf_claim : Forall (fun c => fst (cl_pos c) < n) (cd_claim db);
  bf_unset : Forall (fun u => uu_BlockNum u < n) (cd_unset_claim db);
  bf_set : Forall (fun u => us_BlockNum u < n) (cd_set_claim db)
}.

Lemma keep_app {A} (f : A -> Z) n (l l' : list A) num :
  n <= num -> Forall (fun x => f x = num) l' ->
  bfilter (fun x => negb (n <=? f x)) (l ++ l') = bfilter (fun x => negb (n <=? f x)) l.
Proof.
  intros Hn H. rewrite bfilter_app, (drop_all _ l'), app_nil_r; [done|]. intros x Hx. rewrite Forall_forall in H.
  apply list_elem_of_In in Hx. rewrite (H x Hx). apply negb_false_iff, Z.leb_le. done.
Qed.

(** A block from [n] on leaves no trace of itself after the deletion of the blocks from [n] on. *)
Lemma delete_ProcessBlock n b db db' u :
  n <= bk_Num b -> Forall (event_of (bk_Num b)) (bk_Events b) -> cl_ProcessBlock b db = (db', Ok u) ->
  DeleteBlocksFrom n db' = DeleteBlocksFrom n db.
Proof.
  intros Hn Hev H. apply cl_ProcessBlock_Ok in H as (db1 & [Hb (c & C & Fc) (x & X & Fx) (y & Y & Fy)] & Hdb1); [|done].
  unfold DeleteBlocksFrom. rewrite Hb, C, X, Y. rewrite (keep_app (fun c => fst (cl_pos c)) n _ c (bk_Num b)),
    (keep_app uu_BlockNum n _ x (bk_Num b)), (keep_app us_BlockNum n _ y (bk_Num b)) by done.
  destruct Hdb1 as [[-> _]|[_ ->]]; [done|]. cbn. f_equal. by apply (keep_app fst n _ _ (bk_Num b)); [|repeat constructor].
Qed.

Fixpoint cl_ProcessBlocks (bs : list (Block ClaimsEvent)) : eff claimdb claimError unit :=
  match bs with
  | [] => sret tt
  | b :: bs => let! _ := cl_ProcessBlock b in cl_ProcessBlocks bs
  end.

(** Reorging processed blocks brings the tables back to what they were before them. *)
Theorem claims_Reorg_undoes n bs db db' :
  before n db -> Forall (fun b => n <= bk_Num b /\ Forall (event_of (bk_Num b)) (bk_Events b)) bs ->
  cl_ProcessBlocks bs db = (db', Ok tt) -> cl_Reorg n db' = db.
Proof.
  intros Hbefore Hbs H. assert (E : DeleteBlocksFrom n db' = DeleteBlocksFrom n db).
  { clear Hbefore. revert db H. induction Hbs as [|b bs [Hn Hev] Hbs IH]; intros db H; cbn in H; [by injection H as <-|].
    inv_seq H as v s Eb. rewrite (IH s H). by eapply delete_ProcessBlock. }
  unfold cl_Reorg. rewrite E. destruct Hbefore as [B C U S]. destruct db. unfold DeleteBlocksFrom. cbn in *.
  f_equal; [apply (keep_all fst) | apply (keep_all (fun c => fst (cl_pos c))) | apply (keep_all uu_BlockNum) | apply (keep_all us_BlockNum)];
    intros x Hx; apply list_elem_of_In in Hx; by eapply Forall_forall in Hx; [|eassumption].
Qed.

(** The hash stored under a number. *)
Lemma rowHash_stored rows n h : rowHash rows n = Some h -> storedRows rows !! n = Some h.
Proof.
  unfold rowHash, storedRows. induction rows as [|[k v] rows IH]; cbn; [done|]. destruct (k =? n) eqn:E; bool_hyps.
  - cbn. intros ->. subst. by rewrite lookup_insert_eq.
  - intros H. rewrite lookup_insert_ne by done. by apply IH.
Qed.

Lemma processEvents_block evs db db' u : processEvents evs db = (db', Ok u) -> cd_block db' = cd_block db.
Proof.
  revert db. induction evs as [|ev evs IH]; intros db H; cbn in H; [by injection H as <- _|]. inv_seq H as v s E. rewrite (IH s H).
  unfold ProcessBlockWithTx in E. inv_seq E as v1 s1 E1. inv_seq E as v2 s2 E2.
  assert (Hins : forall {A} (f : A -> eff claimdb claimError unit) o d d' w,
    (forall a e e' r, f a e = (e', Ok r) -> cd_block e' = cd_block e) -> optionally f o d = (d', Ok w) -> cd_block d' = cd_block d).
  { intros A f [a|] d d' w Hf Hr; [by eapply Hf | by injection Hr as <- _]. }
  apply Hins in E1, E2, E; [congruence|..]; clear; intros a e e' r H;
    unfold InsertClaim, InsertUnsetClaim, InsertSetClaim in H; inv_seq H as d t E; injection E as <- <-;
    (destruct (_ || _); [done|]); by injection H as <- _.
Qed.

#[local] Instance cl_processor : Processor ClaimsEvent claimdb := {|
  GetLastProcessedBlock := fun db => Ok (cl_GetLastProcessedBlock db);
  ProcessBlock := fun b db =>
    let '(db', r) := cl_ProcessBlock b db in (db', match r with Ok u => Ok u | Err _ => Err ErrOther end);
  processor_Reorg := fun n db => (cl_Reorg n db, Ok tt)
|}.

Definition cl_stored (db : claimdb) : gmap Z Z := storedRows (cd_block db).

Lemma cl_ProcessBlock_stored b db db' u :
  ProcessBlock b db = (db', Ok u) ->
  (cl_stored db !! bk_Num b = None \/ cl_stored db !! bk_Num b = Some (bk_Hash b)) /\
  cl_stored db' = <[bk_Num b := bk_Hash b]> (cl_stored db).
Proof.
  cbn. unfold cl_ProcessBlock. destruct (sbind _ _ db) as [d [v|]] eqn:E; [|done]. intros [= <- _].
  inv_seq E as w s Ei. unfold InsertBlock in Ei. inv_seq Ei as d1 s1 E1. injection E1 as <- <-. apply processEvents_block in E.
  unfold cl_stored. rewrite E. destruct (hasBlock db (bk_Num b)) eqn:Eb.
  - case_bool_decide as Hh; [|done]. injection Ei as <- _. apply rowHash_stored in Hh. split; [by right|]. by rewrite insert_id.
  - injection Ei as <- _. assert (Hnew : bk_Num b ∉ map fst (cd_block db)).
    { intros Hin. apply list_elem_of_fmap in Hin as (row & Hr & Hin). apply list_elem_of_In in Hin.
      pose proof (proj1 (existsb_false_In _ _) Eb row Hin) as Hne. cbn in Hne. bool_hyps. congruence. }
    destruct (storedRows_snoc (cd_block db) (bk_Num b) (bk_Hash b) Hnew) as [H1 H2]. split; [by left | done].
Qed.

#[local] Instance cl_processor_laws : ProcessorLaws ClaimsEvent claimdb := {|
  stored := cl_stored;
  ProcessBlock_Ok := cl_ProcessBlock_stored;
  ProcessBlock_Err := fun b db db' e => ltac:(cbn; unfold cl_ProcessBlock;
    destruct (sbind _ _ db) as [d [v|e']]; [by intros [= <- _] | by intros [= <- _]]);
  Reorg_Ok := fun n db db' u E => ltac:(injection E as <- _; apply list_to_map_keep);
  Reorg_Err := fun n db db' e E => ltac:(discriminate E);
  GetLast_max := fun db n E => ltac:(injection E as E; by apply storedRows_last)
|}.

(** The claim processor satisfies the interface the sync driver is verified against. *)
Theorem claim_processor_meets_interface : exists L : ProcessorLaws ClaimsEvent claimdb, @stored _ _ _ L = cl_stored.
Proof. by exists cl_processor_laws. Qed.

(** ** Examples *)

(** Claims of index 100 in blocks 1 and 3, of index 5 in block 2. *)
Definition example_claim (gi num ger : Z) : Claim :=
  mkClaim (mkSyncedClaim num 0 (Some gi) 0 0 0 (Some 1) [] [] 0 0 ger 0 [] false) 0 0 DetailedClaimEvent 0.
Definition example_claims : claimdb :=
  mkClaimdb [(1, Some 10); (2, Some 20); (3, Some 30)] [example_claim 100 1 7; example_claim 5 2 8; example_claim 100 3 9] [] [].

Lemma example_pk : NoDup (map cl_pos (cd_claim example_claims)).
Proof. apply (bool_decide_eq_true_1 (NoDup (map cl_pos (cd_claim example_claims)))). reflexivity. Defined.

Lemma GetClaims_of_index_witness :
  if hasUnset example_claims (example_claim 100 1 7)
  then bfilter (sameIndex (example_claim 100 1 7)) (GetClaims example_claims 1 3) ≡ₚ bfilter (inRange 1 3) (group example_claims (example_claim 100 1 7))
  else exists o n, oldest_of example_claims (example_claim 100 1 7) o /\ newest_of example_claims (example_claim 100 1 7) n /\
    (Forall (fun x => inRange 1 3 x = true) (group example_claims (example_claim 100 1 7)) ->
     bfilter (sameIndex (example_claim 100 1 7)) (GetClaims example_claims 1 3) = [compacted o n]) /\
    (~ Forall (fun x => inRange 1 3 x = true) (group example_claims (example_claim 100 1 7)) ->
     bfilter (sameIndex (example_claim 100 1 7)) (GetClaims example_claims 1 3) = []).
Proof. refine (GetClaims_of_index example_claims (example_claim 100 1 7) example_pk 1 3 _). by left. Defined.

Lemma split_range_loses_claim_witness :
  bfilter (sameIndex (example_claim 100 1 7)) (GetClaims example_claims 1 2) = [] /\
  bfilter (sameIndex (example_claim 100 1 7)) (GetClaims example_claims (2 + 1) 3) = [] /\
  exists m, bfilter (sameIndex (example_claim 100 1 7)) (GetClaims example_claims 1 3) = [m] /\
    cl_claim m ∈ filterClaimsInRange (map cl_claim (GetClaims example_claims 1 3)) 1 2.
Proof.
  refine (split_range_loses_claim example_claims (example_claim 100 1 7) example_pk 1 2 3 _ _ _ _ _).
  - by left.
  - reflexivity.
  - repeat constructor.
  - apply Exists_cons_hd. vm_compute. discriminate.
  - apply Exists_cons_tl, Exists_cons_hd. reflexivity.
Defined.

Lemma GetClaimsByGlobalIndex_is_range_witness :
  GetClaimsByGlobalIndex example_claims (Some 100) = Ok (bfilter (sameIndex (example_claim 100 1 7)) (GetClaims example_claims 0 9)).
Proof.
  refine (GetClaimsByGlobalIndex_is_range example_claims (example_claim 100 1 7) 100 0 9 example_pk _ _ _);
    [by left | reflexivity | repeat constructor].
Defined.

Definition example_single : claimdb :=
  mkClaimdb [(1, Some 10); (2, Some 20)] [example_claim 100 1 7; example_claim 5 2 8] [] [].

Lemma claims_answer_from_table_witness :
  map cl_claim (GetClaims example_single 1 1) = filterClaimsInRange (map cl_claim (cd_claim example_single)) 1 1.
Proof.
  refine (claims_answer_from_table example_single 1 1 _ _).
  - split; repeat constructor.
  - intros x y [->|[->|[]%elem_of_nil]%elem_of_cons]%elem_of_cons [->|[->|[]%elem_of_nil]%elem_of_cons]%elem_of_cons; done.
Defined.

Definition example_claim_block (num : Z) : Block ClaimsEvent :=
  mkBlock num [mkClaimsEvent (Some (example_claim 100 num 9)) None None; mkClaimsEvent None (Some (mkUnsetClaim num 1 0 (Some 5) 0 0)) None] (10 * num).

Lemma claims_Reorg_undoes_witness :
  exists db', cl_ProcessBlocks [example_claim_block 3; example_claim_block 4] example_single = (db', Ok tt) /\ cl_Reorg 3 db' = example_single.
Proof.
  eexists. split; [vm_compute; reflexivity|].
  refine (claims_Reorg_undoes 3 [example_claim_block 3; example_claim_block 4] example_single _ _ _ _).
  - split; repeat constructor.
  - assert (Hev : forall n, Forall (event_of n) (bk_Events (example_claim_block n)))
      by (intros n; repeat constructor; by intros ? [= <-]).
    constructor; [split; [discriminate | apply Hev]|]. constructor; [split; [discriminate | apply Hev]|]. constructor.
  - vm_compute. reflexivity.
Defined.

(** The count of pages merges the claims of an index, the pages do not: with pages of one claim, the claim of index 5
    is on the third page of two, which is refused, and the second page is empty. *)
Example claim_pages_unreachable :
  let db := mkClaimdb [(1, Some 10); (2, Some 20); (3, Some 30)] [example_claim 5 1 7; example_claim 100 2 8; example_claim 100 3 9] [] [] in
  (exists p1, GetClaimsPaged db 1 1 [] None = Ok ([p1], 2) /\ cl_GlobalIndex p1 = Some 100) /\
  GetClaimsPaged db 2 1 [] None = Ok ([], 2) /\ GetClaimsPaged db 3 1 [] None = Err ErrInvalidPage.
Proof. split; [eexists; split; vm_compute; reflexivity|]. split; vm_compute; reflexivity. Qed.
