(* ===== verification/ClaimDownloader.v ===== *)
(** What the claim syncer reads from the chain: the functions that turn logs into events
    ([claimsync/downloader.go]) with the search of a transaction trace for the call of the bridge and the decoding
    of its arguments ([claimsync/types/claim_data.go]), the hook that prefers detailed claim events, the
    search for the block of a claim and the choice of the first block ([claimsync/claimsync.go]), and the
    reader of unset claims ([claimsync/agglayer_bridge_l2_reader.go]).

    The parsing of logs and of call data by the contract bindings is a parameter: an unpacked call is a list of
    values with their types, which the code asserts one by one.  [ErrPanic] is a panic, [ErrFuel] the end of
    the fuel. *)

From S2P Require Import Prelude Bytes BlockRange BuildParams Downloader ReorgDetector SyncDriver ClaimStorage.

(** ** Traces *)

Inductive CallType := CallTypeCall | CallTypeOther (name : string).

Inductive Call := mkCall (Type_ : CallType) (From To : Z) (Err_ : option string) (Input : list Z) (Calls : list Call).

Definition call_Type (c : Call) : CallType := let 'mkCall t _ _ _ _ _ := c in t.
Definition call_To (c : Call) : Z := let 'mkCall _ _ t _ _ _ := c in t.
Definition call_Err (c : Call) : option string := let 'mkCall _ _ _ e _ _ := c in e.
Definition call_Input (c : Call) : list Z := let 'mkCall _ _ _ _ i _ := c in i.
Definition call_Calls (c : Call) : list Call := let 'mkCall _ _ _ _ _ l := c in l.

Inductive decodeError :=
| ErrUnexpectedType
| ErrInputTooShort
| ErrABI
| ErrAmbiguous (found : nat)
| ErrCallNotFound
| ErrTrace
| ErrReverted
| ErrParse
| ErrPanic
| ErrFuel.

Definition reverted (c : Call) : bool := match call_Err c with Some _ => true | None => false end.
Definition isCall (c : Call) : bool := match call_Type c with CallTypeCall => true | CallTypeOther _ => false end.

(** Pushing the calls that did not revert, in their order; the top of the stack is the head. *)
Definition pushCalls (calls stack : list Call) : list Call :=
  fold_left (fun st c => if reverted c then st else c :: st) calls stack.

Section FindCall.
Context {St : Type} (targetAddr : Z) (callback : option (Call -> eff St decodeError bool)).

Definition matchCall (c : Call) : eff St decodeError bool :=
  if (call_To c =? targetAddr) && isCall c then
    match callback with Some cb => cb c | None => sret true end
  else sret false.

Fixpoint findCall_loop (fuel : nat) (callStack matchingCalls : list Call) : eff St decodeError (list Call) :=
  match callStack with
  | [] => sret matchingCalls
  | currentCall :: callStack =>
      match fuel with
      | O => sfail ErrFuel
      | S fuel =>
          if reverted currentCall then findCall_loop fuel callStack matchingCalls
          else
            let! found := matchCall currentCall in
            findCall_loop fuel (pushCalls (call_Calls currentCall) callStack)
              (if found then matchingCalls ++ [currentCall] else matchingCalls)
      end
  end.

Definition findCall (fuel : nat) (rootCall : Call) : eff St decodeError (list Call) :=
  let! matchingCalls := findCall_loop fuel [rootCall] [] in
  match matchingCalls with
  | [] => sfail ErrCallNotFound
  | _ => sret matchingCalls
  end.

End FindCall.

(** ** The arguments of a claim *)

(** A value of the unpacked arguments, with its Go type. *)
Inductive abiValue :=
| VBigInt (z : Z)
| VProof (p : list Z)
| VHash (h : Z)
| VUint32 (n : Z)
| VAddress (a : Z)
| VBytes (b : list Z).

(** [data[i]], which panics outside the slice. *)
Definition value (data : list abiValue) (i : nat) : result decodeError abiValue :=
  match data !! i with Some v => Ok v | None => Err ErrPanic end.

Definition asBigInt (v : abiValue) : result decodeError Z := match v with VBigInt z => Ok z | _ => Err ErrUnexpectedType end.
Definition asProof (v : abiValue) : result decodeError (list Z) := match v with VProof p => Ok p | _ => Err ErrUnexpectedType end.
Definition asHash (v : abiValue) : result decodeError Z := match v with VHash h => Ok h | _ => Err ErrUnexpectedType end.
Definition asUint32 (v : abiValue) : result decodeError Z := match v with VUint32 n => Ok n | _ => Err ErrUnexpectedType end.
Definition asBytes (v : abiValue) : result decodeError (list Z) := match v with VBytes b => Ok b | _ => Err ErrUnexpectedType end.

(** The fields decoding sets; the others are those of the event. *)
Definition withCalldata (c : Claim) (lerProof rerProof : list Z) (mainnetExitRoot rollupExitRoot globalExitRoot destinationNetwork : Z)
    (metadata : list Z) (isMessage : bool) : Claim :=
  let s := cl_claim c in
  mkClaim
    (mkSyncedClaim (sc_BlockNum s) (sc_BlockPos s) (sc_GlobalIndex s) (sc_OriginNetwork s) (sc_OriginAddress s)
       (sc_DestinationAddress s) (sc_Amount s) lerProof rerProof mainnetExitRoot rollupExitRoot globalExitRoot
       destinationNetwork metadata isMessage)
    (cl_TxHash c) (cl_BlockTimestamp c) (cl_Type c) (cl_BlockHash c).

Section Decode.
Context `{Kc : Keccak}.

(** [None]: not the claim looked for.  [isMessage] is set by the caller once the claim is found. *)
Definition DecodeEtrogCalldata (c : Claim) (isMessage : bool) (data : list abiValue) : result decodeError (option Claim) :=
  let? v2 := value data 2 in let? actualGlobalIndex := asBigInt v2 in
  if negb (bool_decide (cl_GlobalIndex c = Some actualGlobalIndex)) then Ok None
  else
    let? v0 := value data 0 in let? rawLERProof := asProof v0 in
    let? v1 := value data 1 in let? rawRERProof := asProof v1 in
    let? v3 := value data 3 in let? mainnetExitRoot := asHash v3 in
    let? v4 := value data 4 in let? rollupExitRoot := asHash v4 in
    let? v7 := value data 7 in let? destinationNetwork := asUint32 v7 in
    let? v10 := value data 10 in let? metadata := asBytes v10 in
    Ok (Some (withCalldata c rawLERProof rawRERProof mainnetExitRoot rollupExitRoot (CalculateGER mainnetExitRoot rollupExitRoot)
                destinationNetwork metadata isMessage)).

(** The proof of the rollup exit root stays as it was. *)
Definition DecodePreEtrogCalldata (c : Claim) (isMessage : bool) (data : list abiValue) : result decodeError (option Claim) :=
  let? v1 := value data 1 in let? actualGlobalIndex := asUint32 v1 in
  if negb (bool_decide (cl_GlobalIndex c = Some actualGlobalIndex)) then Ok None
  else
    let? v0 := value data 0 in let? rawLERProof := asProof v0 in
    let? v2 := value data 2 in let? mainnetExitRoot := asHash v2 in
    let? v3 := value data 3 in let? rollupExitRoot := asHash v3 in
    let? v6 := value data 6 in let? destinationNetwork := asUint32 v6 in
    let? v9 := value data 9 in let? metadata := asBytes v9 in
    Ok (Some (withCalldata c rawLERProof (sc_ProofRollupExitRoot (cl_claim c)) mainnetExitRoot rollupExitRoot
                (CalculateGER mainnetExitRoot rollupExitRoot) destinationNetwork metadata isMessage)).

Definition methodIDLength : nat := 4.
Definition claimAssetEtrogMethodID : list Z := [204; 170; 45; 17].
Definition claimMessageEtrogMethodID : list Z := [245; 239; 205; 121].
Definition claimAssetPreEtrogMethodID : list Z := [44; 255; 208; 46].
Definition claimMessagePreEtrogMethodID : list Z := [45; 44; 157; 148].

(** [method.Inputs.Unpack] of the method of the given identifier, and of its arguments. *)
Context (unpack : list Z -> list Z -> result decodeError (list abiValue)).

Definition tryDecodeClaimCalldata (c : Claim) (input : list Z) : result decodeError (option Claim) :=
  if (length input <? methodIDLength)%nat then Err ErrInputTooShort
  else
    let methodID := take methodIDLength input in
    if bool_decide (methodID = claimAssetEtrogMethodID) || bool_decide (methodID = claimMessageEtrogMethodID) then
      let? data := unpack methodID (drop methodIDLength input) in
      DecodeEtrogCalldata c (bool_decide (methodID = claimMessageEtrogMethodID)) data
    else if bool_decide (methodID = claimAssetPreEtrogMethodID) || bool_decide (methodID = claimMessagePreEtrogMethodID) then
      let? data := unpack methodID (drop methodIDLength input) in
      DecodePreEtrogCalldata c (bool_decide (methodID = claimMessagePreEtrogMethodID)) data
    else Ok None.

Definition hasClaimCandidate (candidates : list Claim) (candidate : Claim) : bool := bool_decide (candidate ∈ candidates).

(** The callback of the search, over the candidates found so far. *)
Definition collectCandidate (c : Claim) (call : Call) : eff (list Claim) decodeError bool :=
  if reverted call then sret false
  else
    let! found := slift (tryDecodeClaimCalldata c (call_Input call)) in
    match found with
    | None => sret false
    | Some candidate =>
        let! candidates := sget in
        if hasClaimCandidate candidates candidate then sret true
        else let! _ := smodify (fun l => l ++ [candidate]) in sret true
    end.

Definition setClaimCalldataFromRoot (fuel : nat) (c : Claim) (rootCall : Call) (bridge : Z) : result decodeError Claim :=
  match findCall bridge (Some (collectCandidate c)) fuel rootCall [] with
  | (_, Err e) => Err e
  | ([candidate], Ok _) => Ok candidate
  | (candidates, Ok _) => Err (ErrAmbiguous (length candidates))
  end.

(** ** The events of a log *)

Record ClaimLog := mkClaimLog { lo_TxHash : Z; lo_Index : Z }.

(** The fields of a parsed [ClaimEvent]; before Etrog the index has 32 bits. *)
Record ParsedClaim := mkParsedClaim {
  pc_GlobalIndex : Z;
  pc_OriginNetwork : Z;
  pc_OriginAddress : Z;
  pc_DestinationAddress : Z;
  pc_Amount : Z
}.

Definition claimOfEvent (header : EVMBlockHeader) (l : ClaimLog) (ev : ParsedClaim) (type_ : ClaimType) : Claim :=
  mkClaim
    (mkSyncedClaim (eh_Num header) (lo_Index l) (Some (pc_GlobalIndex ev)) (pc_OriginNetwork ev) (pc_OriginAddress ev)
       (pc_DestinationAddress ev) (Some (pc_Amount ev)) (repeat 0 32) (repeat 0 32) 0 0 0 0 [] false)
    (lo_TxHash l) (eh_Timestamp header) type_ 0.

(** [debug_traceTransaction]; [extractCallData] also fails when the trace has no call of the bridge. *)
Definition extractCallData (fuel : nat) (trace : result decodeError Call) (bridge : Z) : result decodeError (list Call * Call) :=
  match trace with
  | Err _ => Err ErrTrace
  | Ok rootCall =>
      match snd (findCall (St := unit) bridge None fuel rootCall tt) with
      | Err e => Err e
      | Ok foundCalls => Ok (foundCalls, rootCall)
      end
  end.

(** The handler of [ClaimEvent]; that of the event before Etrog differs in the type it leaves empty. *)
Definition appendClaim (fuel : nat) (type_ : ClaimType) (trace : result decodeError Call) (bridge : Z) (header : EVMBlockHeader)
    (l : ClaimLog) (parsed : option ParsedClaim) (events : list ClaimsEvent) : result decodeError (list ClaimsEvent) :=
  match parsed with
  | None => Err ErrParse
  | Some ev =>
      let? (_, rootCall) := extractCallData fuel trace bridge in
      if reverted rootCall then Err ErrReverted
      else
        let? claim := setClaimCalldataFromRoot fuel (claimOfEvent header l ev type_) rootCall bridge in
        Ok (events ++ [mkClaimsEvent (Some claim) None None])
  end.

Definition appendClaimPreEtrog (fuel : nat) (trace : result decodeError Call) (bridge : Z) (header : EVMBlockHeader)
    (l : ClaimLog) (parsed : option ParsedClaim) (events : list ClaimsEvent) : result decodeError (list ClaimsEvent) :=
  appendClaim fuel TypeNone trace bridge header l parsed events.

(** The fields of a parsed [DetailedClaimEvent]. *)
Record ParsedDetailed := mkParsedDetailed {
  pd_claim : ParsedClaim;
  pd_SmtProofLocalExitRoot : list Z;
  pd_SmtProofRollupExitRoot : list Z;
  pd_MainnetExitRoot : Z;
  pd_RollupExitRoot : Z;
  pd_LeafType : Z;
  pd_DestinationNetwork : Z;
  pd_Metadata : list Z
}.

Definition isClaimEventOf (txHash : Z) (ev : ClaimsEvent) : bool :=
  match ce_Claim ev with
  | Some c => bool_decide (cl_Type c = ClaimEvent) && (cl_TxHash c =? txHash)
  | None => false
  end.

(** The plain event of the same transaction makes way. *)
Definition appendDetailedClaim (header : EVMBlockHeader) (l : ClaimLog) (parsed : option ParsedDetailed) (events : list ClaimsEvent)
  : result decodeError (list ClaimsEvent) :=
  match parsed with
  | None => Err ErrParse
  | Some ev =>
      let p := pd_claim ev in
      let claim := mkClaim
        (mkSyncedClaim (eh_Num header) (lo_Index l) (Some (pc_GlobalIndex p)) (pc_OriginNetwork p) (pc_OriginAddress p)
           (pc_DestinationAddress p) (Some (pc_Amount p)) (pd_SmtProofLocalExitRoot ev) (pd_SmtProofRollupExitRoot ev)
           (pd_MainnetExitRoot ev) (pd_RollupExitRoot ev) (CalculateGER (pd_MainnetExitRoot ev) (pd_RollupExitRoot ev))
           (pd_DestinationNetwork ev) (pd_Metadata ev) (pd_LeafType ev =? 1))
        (lo_TxHash l) (eh_Timestamp header) DetailedClaimEvent 0 in
      Ok (bfilter (fun e => negb (isClaimEventOf (lo_TxHash l) e)) events ++ [mkClaimsEvent (Some claim) None None])
  end.

Definition appendUnsetClaim (header : EVMBlockHeader) (l : ClaimLog) (parsed : option (Z * Z)) (events : list ClaimsEvent)
  : result decodeError (list ClaimsEvent) :=
  match parsed with
  | None => Err ErrParse
  | Some (globalIndex, hashChain) =>
      Ok (events ++ [mkClaimsEvent None (Some (mkUnsetClaim (eh_Num header) (lo_Index l) (lo_TxHash l) (Some globalIndex) hashChain 0)) None])
  end.

Definition appendSetClaim (header : EVMBlockHeader) (l : ClaimLog) (parsed : option Z) (events : list ClaimsEvent)
  : result decodeError (list ClaimsEvent) :=
  match parsed with
  | None => Err ErrParse
  | Some globalIndex =>
      Ok (events ++ [mkClaimsEvent None None (Some (mkSetClaim (eh_Num header) (lo_Index l) (lo_TxHash l) (Some globalIndex) 0))])
  end.

End Decode.

(** ** The hook on logs *)

(** The first topic of a log; [TopicNone] when it has no topics. *)
Inductive ClaimTopic := TopicClaimPreEtrog | TopicClaim | TopicDetailedClaim | TopicOther | TopicNone.
Record RawLog := mkRawLog { rl_Topic : ClaimTopic; rl_TxHash : Z; rl_BlockNumber : Z; rl_GlobalIndex : option Z }.

Definition isDetailed (l : RawLog) : bool := match rl_Topic l with TopicDetailedClaim => true | _ => false end.
Definition isPlain (l : RawLog) : bool := match rl_Topic l with TopicClaim => true | _ => false end.

Definition preferDetailedClaimLogs (logs : list RawLog) : list RawLog :=
  let detailedTxs := map rl_TxHash (bfilter isDetailed logs) in
  match detailedTxs with
  | [] => logs
  | _ => bfilter (fun l => negb (isPlain l && existsb (Z.eqb (rl_TxHash l)) detailedTxs)) logs
  end.

(** ** The block of a claim *)

Inductive scanError := SErrRPC (maxRange : option Z) | SErrFinality | SErrFuel.

(** The last log of the range with the index; [rl_GlobalIndex] is [None] for a log that cannot be parsed. *)
Definition lastMatch (globalIndex : Z) (logs : list RawLog) : option Z :=
  rl_BlockNumber <$> List.find (fun l => match rl_Topic l with
    | TopicNone | TopicOther => false
    | _ => bool_decide (rl_GlobalIndex l = Some globalIndex)
    end) (rev logs).

Definition scanRange (filterLogs : Z -> Z -> result (option Z) (list RawLog)) (globalIndex from to : Z) : result scanError (option Z) :=
  match filterLogs from to with
  | Err m => Err (SErrRPC m)
  | Ok logs => Ok (lastMatch globalIndex logs)
  end.

(** Backwards in chunks. *)
Fixpoint scanBackwards (fuel : nat) (filterLogs : Z -> Z -> result (option Z) (list RawLog)) (globalIndex chunkSize current : Z)
  : result scanError (option Z) :=
  match fuel with
  | O => Err SErrFuel
  | S fuel =>
      let chunkFrom := if chunkSize <=? current then current -u64 chunkSize +u64 1 else 0 in
      let? found := scanRange filterLogs globalIndex chunkFrom current in
      match found with
      | Some blockNum => Ok (Some blockNum)
      | None => if chunkFrom =? 0 then Ok None else scanBackwards fuel filterLogs globalIndex chunkSize (chunkFrom -u64 1)
      end
  end.

Definition GetLatestBlockNumByGlobalIndexFromRPC (fuel : nat) (toBlock : option Z) (filterLogs : Z -> Z -> result (option Z) (list RawLog))
    (globalIndex : Z) : result scanError (option Z) :=
  match toBlock with
  | None => Err SErrFinality
  | Some toBlockNum =>
      match scanRange filterLogs globalIndex 0 toBlockNum with
      | Ok found => Ok found
      | Err (SErrRPC (Some chunkSize)) => scanBackwards fuel filterLogs globalIndex chunkSize toBlockNum
      | Err e => Err e
      end
  end.

(** ** The first block *)

Inductive nextBlockResult := NextNoAction | NextBootstrapped | NextErrBootstrap | NextErrBelowFirst.

(** [syncNextBlock] is the driver: whether it bootstraps the block. *)
Definition SetNextRequiredBlock (InitialBlockNum : Z) (syncNextBlock : Z -> bool) (db : claimdb) (blockNumber : Z) : nextBlockResult :=
  let blockNumber := if blockNumber <? InitialBlockNum then InitialBlockNum else blockNumber in
  match cl_GetLastProcessedBlock db with
  | None => if syncNextBlock blockNumber then NextBootstrapped else NextErrBootstrap
  | Some _ =>
      let firstBlock := default 0 (cl_GetFirstProcessedBlock db) in
      if blockNumber <? firstBlock then NextErrBelowFirst else NextNoAction
  end.

(** ** Unset claims from the contract *)

Inductive unsetError := UErrRange | UErrRPC (maxRange : option Z) | UErrZeroMaxRange | UErrChunk (from to : Z) (e : unsetError) | UErrFuel.

Fixpoint unset_maxRange (e : unsetError) : option Z :=
  match e with UErrRPC m => m | UErrChunk _ _ e => unset_maxRange e | _ => None end.

Definition unsetChunked {A} (r : option (result (chunked_error unsetError) A)) : result unsetError A :=
  match r with
  | None => Err UErrFuel
  | Some (Ok a) => Ok a
  | Some (Err ErrMaxRangeZero) => Err UErrZeroMaxRange
  | Some (Err (ErrChunk f t e)) => Err (UErrChunk f t e)
  end.

Section UnsetReader.

(** [fetchUnsetClaims]: the events of the contract in a range, as unclaims. *)
Context (fetchUnsetClaims : Z -> Z -> result unsetError (list Unclaim)).

(** The two functions that call each other; [fuel] is the depth, [steps] the chunks of a level. *)
Fixpoint fetchUnsetClaimsWithFallbackChunking (fuel steps : nat) (fromBlock toBlock : Z) : result unsetError (list Unclaim) :=
  match fetchUnsetClaims fromBlock toBlock with
  | Ok unclaims => Ok unclaims
  | Err e =>
      match unset_maxRange e with
      | None => Err e
      | Some maxRange =>
          match fuel with
          | O => Err UErrFuel
          | S fuel =>
              unsetChunked (ChunkedRangeQuery (fetchUnsetClaimsWithFallbackChunking fuel steps) app steps fromBlock toBlock maxRange [])
          end
      end
  end.

Definition getUnsetClaimsInChunks (fuel steps : nat) (fromBlock toBlock maxRange : Z) : result unsetError (list Unclaim) :=
  unsetChunked (ChunkedRangeQuery (fetchUnsetClaimsWithFallbackChunking fuel steps) app steps fromBlock toBlock maxRange []).

Definition GetUnsetClaimsForBlockRange (fuel steps : nat) (unsetClaimsMaxLogBlockRange fromBlock toBlock : Z)
  : result unsetError (list Unclaim) :=
  if toBlock <? fromBlock then Err UErrRange
  else if (0 <? unsetClaimsMaxLogBlockRange) && (unsetClaimsMaxLogBlockRange <=? toBlock -u64 fromBlock)
  then getUnsetClaimsInChunks fuel steps fromBlock toBlock unsetClaimsMaxLogBlockRange
  else fetchUnsetClaimsWithFallbackChunking fuel steps fromBlock toBlock.

End UnsetReader.
