(* ===== verification/ClaimDownloaderProofs.v ===== *)
(** The theorems on what the claim syncer reads from the chain ([ClaimDownloader.v]): the search of a trace visits
    every call below no reverted one exactly once and ends, the arguments of a claim are the only ones decoded
    for its global index, the hook leaves one event per detailed claim, the block of a claim is the last one whatever
    the range the node serves, and the unset claims of a range are complete. *)

From S2P Require Import Prelude Bytes BlockRange BuildParams Downloader ReorgDetector SyncDriver ClaimStorage ClaimDownloader.

(** ** The search of a trace *)

(** The calls of a tree that are not below a reverted one, the last sibling first. *)
Fixpoint visible (c : Call) : list Call :=
  match c with
  | mkCall _ _ _ (Some _) _ _ => []
  | mkCall _ _ _ None _ calls => c :: fold_left (fun acc x => visible x ++ acc) calls []
  end.

(** Induction over a trace. *)
Fixpoint Call_nested_ind (P : Call -> Prop)
    (H : forall ty fr to er inp calls, Forall P calls -> P (mkCall ty fr to er inp calls)) (c : Call) : P c :=
  match c with
  | mkCall ty fr to er inp calls =>
      H ty fr to er inp calls
        ((fix all (l : list Call) : Forall P l :=
            match l with
            | [] => Forall_nil_2 P
            | x :: l => Forall_cons_2 P x l (Call_nested_ind P H x) (all l)
            end) calls)
  end.

Lemma visible_reverted c : reverted c = true -> visible c = [].
Proof. by destruct c as [? ? ? [] ? ?]. Qed.

Lemma visible_run c : reverted c = false -> visible c = c :: fold_left (fun acc x => visible x ++ acc) (call_Calls c) [].
Proof. by destruct c as [? ? ? [] ? ?]. Qed.

Definition stack_visible (stack : list Call) : list Call := concat (map visible stack).

Lemma visible_acc calls acc :
  fold_left (fun acc x => visible x ++ acc) calls acc = fold_left (fun acc x => visible x ++ acc) calls [] ++ acc.
Proof.
  revert acc. induction calls as [|x calls IH]; intros acc; cbn [fold_left]; [done|].
  rewrite (IH (visible x ++ acc)), (IH (visible x ++ [])), app_nil_r. by rewrite app_assoc.
Qed.

Lemma pushCalls_visible calls stack :
  stack_visible (pushCalls calls stack) = fold_left (fun acc x => visible x ++ acc) calls [] ++ stack_visible stack.
Proof.
  unfold pushCalls. revert stack. induction calls as [|x calls IH]; intros stack; cbn [fold_left]; [done|].
  rewrite (visible_acc calls (visible x ++ [])), app_nil_r, <- app_assoc. rewrite IH. f_equal.
  destruct (reverted x) eqn:E; [by rewrite visible_reverted | done].
Qed.

Lemma pushCalls_alive calls stack :
  Forall (fun c => reverted c = false) stack -> Forall (fun c => reverted c = false) (pushCalls calls stack).
Proof.
  unfold pushCalls. revert stack. induction calls as [|x calls IH]; intros stack H; cbn [fold_left]; [done|].
  apply IH. destruct (reverted x) eqn:E; [done|]. by constructor.
Qed.

Section Search.
Context {St : Type} (targetAddr : Z) (callback : option (Call -> eff St decodeError bool)).

(** The reference: the test on each call of a list in turn. *)
Fixpoint matchAll (calls found : list Call) : eff St decodeError (list Call) :=
  match calls with
  | [] => sret found
  | c :: calls => let! m := matchCall targetAddr callback c in matchAll calls (if m then found ++ [c] else found)
  end.

Lemma findCall_loop_run fuel stack found s :
  Forall (fun c => reverted c = false) stack -> (length (stack_visible stack) <= fuel)%nat ->
  findCall_loop targetAddr callback fuel stack found s = matchAll (stack_visible stack) found s.
Proof.
  revert stack found s. induction fuel as [|fuel IH]; intros stack found s Ha Hl.
  - destruct Ha as [|c stack Hc Ha]; [done|]. unfold stack_visible in Hl. cbn in Hl. rewrite (visible_run c Hc) in Hl. cbn in Hl. lia.
  - destruct Ha as [|c stack Hc Ha]; [done|]. cbn [findCall_loop]. rewrite Hc.
    unfold stack_visible in *. cbn [map concat] in *. rewrite (visible_run c Hc) in *. cbn [app matchAll].
    unfold sbind. destruct (matchCall targetAddr callback c s) as [s1 [m|e]]; [|done].
    pose proof (pushCalls_visible (call_Calls c) stack) as Ev. unfold stack_visible in Ev. rewrite IH.
    + by rewrite Ev.
    + by apply pushCalls_alive.
    + rewrite Ev. cbn in Hl. lia.
Qed.

Lemma findCall_run fuel root s :
  (length (visible root) < fuel)%nat ->
  findCall targetAddr callback fuel root s =
  (let! found := matchAll (visible root) [] in match found with [] => sfail ErrCallNotFound | _ => sret found end) s.
Proof.
  intros Hf. unfold findCall, sbind. destruct (reverted root) eqn:E.
  - destruct fuel as [|fuel]; [lia|]. cbn [findCall_loop]. rewrite E. rewrite (visible_reverted _ E). by destruct fuel.
  - rewrite findCall_loop_run; [|by repeat constructor | unfold stack_visible; cbn; rewrite app_nil_r; lia].
    unfold stack_visible. cbn. by rewrite app_nil_r.
Qed.

End Search.

(** Without a test the search returns the calls of the bridge in the order of the traversal. *)
Lemma matchAll_plain bridge calls found s :
  matchAll (St := unit) bridge None calls found s = (s, Ok (found ++ bfilter (fun c => (call_To c =? bridge) && isCall c) calls)).
Proof.
  revert found. induction calls as [|c calls IH]; intros found; cbn [matchAll bfilter]; [by rewrite app_nil_r|].
  unfold sbind, matchCall at 1. destruct ((call_To c =? bridge) && isCall c); cbn; rewrite IH; [|done].
  by rewrite <- app_assoc.
Qed.

(** ** Unique arguments *)

Section Unique.
Context `{Kc : Keccak} (unpack : list Z -> list Z -> result decodeError (list abiValue)).

(** The calls of the bridge a transaction made that took effect. *)
Definition bridgeCalls (root : Call) (bridge : Z) : list Call :=
  bfilter (fun c => (call_To c =? bridge) && isCall c) (visible root).

Definition decodes (c : Claim) (call : Call) : result decodeError (option Claim) :=
  tryDecodeClaimCalldata unpack c (call_Input call).

Definition addCandidate (l : list Claim) (o : option Claim) : list Claim :=
  match o with Some x => if hasClaimCandidate l x then l else l ++ [x] | None => l end.

Lemma visible_alive c : Forall (fun x => reverted x = false) (visible c).
Proof.
  induction c as [ty fr to er inp calls IH] using Call_nested_ind. destruct er as [e|]; cbn; [constructor|]. constructor; [done|].
  enough (H : forall acc, Forall (fun x => reverted x = false) acc ->
    Forall (fun x => reverted x = false) (fold_left (fun acc x => visible x ++ acc) calls acc)) by (apply H; constructor).
  induction IH as [|x calls Hx _ IHc]; intros acc Hacc; cbn; [done|]. apply IHc, Forall_app. done.
Qed.

Definition isSome {A} (o : option A) : bool := match o with Some _ => true | None => false end.

Lemma matchCall_candidates c bridge x cands :
  reverted x = false ->
  matchCall bridge (Some (collectCandidate unpack c)) x cands =
  if (call_To x =? bridge) && isCall x
  then match decodes c x with Ok o => (addCandidate cands o, Ok (isSome o)) | Err e => (cands, Err e) end
  else (cands, Ok false).
Proof.
  intros Hx. unfold matchCall. destruct ((call_To x =? bridge) && isCall x); [|done].
  unfold collectCandidate, decodes. rewrite Hx. unfold sbind, slift, sget. destruct (tryDecodeClaimCalldata unpack c (call_Input x)) as [[cand|]|]; cbn; try done.
  by destruct (hasClaimCandidate cands cand).
Qed.

(** The search with the candidates decoded so far. *)
Lemma matchAll_candidates c bridge calls found cands :
  Forall (fun x => reverted x = false) calls ->
  match rmap (decodes c) (bfilter (fun x => (call_To x =? bridge) && isCall x) calls) with
  | Ok os => exists found', matchAll bridge (Some (collectCandidate unpack c)) calls found cands = (fold_left addCandidate os cands, Ok found') /\
      (found' = [] <-> found = [] /\ Forall (eq None) os)
  | Err e => exists cands', matchAll bridge (Some (collectCandidate unpack c)) calls found cands = (cands', Err e)
  end.
Proof.
  intros Ha. revert found cands. induction Ha as [|x calls Hx _ IH]; intros found cands; cbn [bfilter matchAll].
  - exists found. split; [done|]. split; [done | by intros [? _]].
  - unfold sbind. rewrite (matchCall_candidates _ _ _ _ Hx). destruct ((call_To x =? bridge) && isCall x); [|apply IH].
    cbn [rmap]. destruct (decodes c x) as [o|e]; cbn [rbind]; [|by eexists].
    specialize (IH (if isSome o then found ++ [x] else found) (addCandidate cands o)).
    destruct (rmap (decodes c) _) as [os|e]; cbn [rbind]; [|exact IH].
    destruct IH as (f' & -> & Hf). exists f'. split; [done|]. rewrite Hf, Forall_cons. destruct o; cbn; [|naive_solver].
    split; [intros [Hn _]; by destruct found | by intros (_ & ? & _)].
Qed.

Lemma addCandidates_fixed os c : Forall (fun o => o = None \/ o = Some c) os -> fold_left addCandidate os [c] = [c].
Proof.
  induction 1 as [|o os [ -> | -> ] _ IH]; cbn; [done..|]. unfold hasClaimCandidate. rewrite bool_decide_true by by constructor. done.
Qed.

Lemma addCandidates_prefix os l : exists l', fold_left addCandidate os l = l ++ l'.
Proof.
  revert l. induction os as [|o os IH]; intros l; cbn; [by exists []; rewrite app_nil_r|].
  destruct (IH (addCandidate l o)) as [l' ->]. destruct o as [x|]; cbn; [|by exists l'].
  destruct (hasClaimCandidate l x); [by exists l'|]. exists (x :: l'). by rewrite <- app_assoc.
Qed.

Lemma addCandidates_members os l x : Some x ∈ os -> x ∈ fold_left addCandidate os l.
Proof.
  revert l. induction os as [|o os IH]; intros l Hx; [by apply not_elem_of_nil in Hx|]. cbn.
  apply elem_of_cons in Hx as [<-|Hx]; [|by apply IH]. destruct (addCandidates_prefix os (addCandidate l (Some x))) as [l' ->].
  apply elem_of_app. left. cbn. unfold hasClaimCandidate. case_bool_decide; [done|]. apply elem_of_app. right. by constructor.
Qed.

Lemma addCandidates_single os c : fold_left addCandidate os [] = [c] <-> Some c ∈ os /\ Forall (fun o => o = None \/ o = Some c) os.
Proof.
  split.
  - intros E. assert (Hall : Forall (fun o => o = None \/ o = Some c) os).
    { apply Forall_forall. intros [x|] Hx; [|by left]. right. apply (addCandidates_members os []) in Hx. rewrite E in Hx.
      by apply list_elem_of_singleton in Hx as ->. }
    split; [|done]. clear - E Hall. induction Hall as [|o os [ -> | -> ] Hall IH]; [done| |by constructor]. right. by apply IH.
  - intros [Hin Hall]. induction Hall as [|o os [ -> | -> ] Hall IH]; [by apply not_elem_of_nil in Hin| |].
    + cbn. apply IH. by apply elem_of_cons in Hin as [?|?].
    + cbn. by apply addCandidates_fixed.
Qed.

(** Decoding succeeds exactly when every call of the bridge that took effect decodes, at least one is of the claim's global
    index, and all of that index carry the same arguments. *)
Lemma setClaimCalldataFromRoot_Ok fuel c root bridge c' :
  (length (visible root) < fuel)%nat ->
  setClaimCalldataFromRoot unpack fuel c root bridge = Ok c' <->
  (exists call, In call (bridgeCalls root bridge) /\ decodes c call = Ok (Some c')) /\
  (forall call, In call (bridgeCalls root bridge) -> decodes c call = Ok None \/ decodes c call = Ok (Some c')).
Proof.
  intros Hf. unfold setClaimCalldataFromRoot. rewrite findCall_run by done. unfold sbind.
  pose proof (matchAll_candidates c bridge (visible root) [] [] (visible_alive root)) as H. fold (bridgeCalls root bridge) in H.
  destruct (rmap (decodes c) (bridgeCalls root bridge)) as [os|e] eqn:Em.
  - destruct H as (found & -> & Hn). 
    assert (Hiff : (exists call, In call (bridgeCalls root bridge) /\ decodes c call = Ok (Some c')) /\
      (forall call, In call (bridgeCalls root bridge) -> decodes c call = Ok None \/ decodes c call = Ok (Some c')) <->
      Some c' ∈ os /\ Forall (fun o => o = None \/ o = Some c') os).
    { setoid_rewrite Forall_forall. rewrite (rmap_members _ _ _ Em). split.
      - intros [Hin Hall]. split; [done|]. intros o Ho. apply (rmap_members _ _ _ Em) in Ho as (x & Hx & Ex).
        destruct (Hall x Hx) as [E|E]; rewrite Ex in E; injection E as ->; auto.
      - intros [Hin Hall]. split; [done|]. intros x Hx. destruct (rmap_total _ _ _ Em x Hx) as [o Eo].
        destruct (Hall o) as [ -> | -> ]; [apply (rmap_members _ _ _ Em); by exists x | by left | by right]. }
    rewrite Hiff, <- addCandidates_single. destruct found as [|x found].
    + split; [by destruct (fold_left addCandidate os []) as [|? [|? ?]]|]. intros E. exfalso. destruct Hn as [Hn _]. destruct (Hn eq_refl) as [_ HF].
      apply addCandidates_single in E as [Hin _]. rewrite Forall_forall in HF. by apply HF in Hin.
    + unfold sret. destruct (fold_left addCandidate os []) as [|a [|b l]]; split; intros E; try discriminate E; congruence.
  - destruct H as [cands' ->]. split; [by destruct cands' as [|? [|? ?]]|]. intros [_ Hall]. exfalso.
    assert (Hok : exists os, rmap (decodes c) (bridgeCalls root bridge) = Ok os).
    { clear Em. induction (bridgeCalls root bridge) as [|x l IH]; cbn; [by eexists|].
      destruct IH as [os Eos]; [intros y Hy; apply Hall; by right|].
      destruct (Hall x (or_introl eq_refl)) as [ -> | -> ]; cbn; rewrite Eos; by eexists. }
    destruct Hok as [os Hok]. by rewrite Hok in Em.
Qed.

Lemma extractCallData_run fuel root bridge :
  (length (visible root) < fuel)%nat ->
  extractCallData fuel (Ok root) bridge =
  match bridgeCalls root bridge with [] => Err ErrCallNotFound | found => Ok (found, root) end.
Proof.
  intros Hf. unfold extractCallData. rewrite findCall_run by done. unfold sbind. rewrite matchAll_plain. cbn [app].
  unfold bridgeCalls. by destruct (bfilter _ (visible root)).
Qed.

(** What the event says is kept, and the global exit root is that of the two roots. *)
Definition keepsEvent (c c' : Claim) : Prop :=
  cl_pos c' = cl_pos c /\ cl_GlobalIndex c' = cl_GlobalIndex c /\ cl_TxHash c' = cl_TxHash c /\ cl_Type c' = cl_Type c /\
  cl_BlockTimestamp c' = cl_BlockTimestamp c /\
  sc_OriginNetwork (cl_claim c') = sc_OriginNetwork (cl_claim c) /\ sc_OriginAddress (cl_claim c') = sc_OriginAddress (cl_claim c) /\
  sc_DestinationAddress (cl_claim c') = sc_DestinationAddress (cl_claim c) /\ sc_Amount (cl_claim c') = sc_Amount (cl_claim c) /\
  sc_GlobalExitRoot (cl_claim c') = CalculateGER (sc_MainnetExitRoot (cl_claim c')) (sc_RollupExitRoot (cl_claim c')).

Lemma DecodeEtrogCalldata_keeps c m data c' : DecodeEtrogCalldata c m data = Ok (Some c') -> keepsEvent c c'.
Proof.
  unfold DecodeEtrogCalldata. intros H. inv_ok H as v2 E2. inv_ok H as g Eg. destruct (negb _); [discriminate H|].
  do 12 (let x := fresh "x" in let Ex := fresh "Ex" in inv_ok H as x Ex). by injection H as <-.
Qed.

Lemma DecodePreEtrogCalldata_keeps c m data c' : DecodePreEtrogCalldata c m data = Ok (Some c') -> keepsEvent c c'.
Proof.
  unfold DecodePreEtrogCalldata. intros H. inv_ok H as v2 E2. inv_ok H as g Eg. destruct (negb _); [discriminate H|].
  do 10 (let x := fresh "x" in let Ex := fresh "Ex" in inv_ok H as x Ex). by injection H as <-.
Qed.

Lemma decodes_keeps c call c' : decodes c call = Ok (Some c') -> keepsEvent c c'.
Proof.
  unfold decodes, tryDecodeClaimCalldata. destruct (_ <? _)%nat; [done|]. destruct (_ || _).
  - intros H. inv_ok H as data E. by eapply DecodeEtrogCalldata_keeps.
  - destruct (_ || _); [|done]. intros H. inv_ok H as data E. by eapply DecodePreEtrogCalldata_keeps.
Qed.

(** C28. A claim event of a traced transaction is stored exactly when every call of the bridge that took effect decodes, one
    is of its global index and all of that index carry the same arguments; what is stored is the event with these
    arguments. *)
Theorem claim_event_has_unique_arguments fuel type_ root bridge header l ev events events' :
  (length (visible root) < fuel)%nat ->
  let c := claimOfEvent header l ev type_ in
  appendClaim unpack fuel type_ (Ok root) bridge header l (Some ev) events = Ok events' <->
  exists c', events' = events ++ [mkClaimsEvent (Some c') None None] /\ keepsEvent c c' /\
    (exists call, In call (bridgeCalls root bridge) /\ decodes c call = Ok (Some c')) /\
    (forall call, In call (bridgeCalls root bridge) -> decodes c call = Ok None \/ decodes c call = Ok (Some c')).
Proof.
  intros Hf c. unfold appendClaim. rewrite extractCallData_run by done. split.
  - intros H. destruct (bridgeCalls root bridge) as [|x xs] eqn:E; [discriminate H|]. cbn [rbind] in H.
    destruct (reverted root) eqn:Er; [discriminate H|]. inv_ok H as c' Ec. injection H as <-.
    apply setClaimCalldataFromRoot_Ok in Ec; [|done]. exists c'. rewrite E in Ec. destruct Ec as [(call & Hin & Hd) Hall].
    split; [done|]. split; [by eapply decodes_keeps|]. split; [by exists call | done].
  - intros (c' & -> & _ & Hex & Hall). pose proof (proj2 (setClaimCalldataFromRoot_Ok fuel c root bridge c' Hf) (conj Hex Hall)) as Ec.
    destruct (bridgeCalls root bridge) as [|x xs] eqn:E; [by destruct Hex as (? & [] & _)|]. cbn [rbind].
    assert (Er : reverted root = false).
    { destruct (reverted root) eqn:Er; [|done]. unfold bridgeCalls in E. by rewrite (visible_reverted _ Er) in E. }
    rewrite Er. fold c. by rewrite Ec.
Qed.

End Unique.

(** A router (address 5) calls the bridge (address 9) twice: the second call reverted, a third one is of another claim. *)
Definition etrog_arguments (index : Z) : list abiValue :=
  [VProof [1; 2]; VProof [3]; VBigInt index; VHash 10; VHash 11; VUint32 0; VAddress 0; VUint32 1; VAddress 0; VBigInt 0; VBytes [6]].

Definition sample_unpack (methodID args : list Z) : result decodeError (list abiValue) :=
  match args with [index] => Ok (etrog_arguments index) | _ => Err ErrABI end.

Definition sample_trace : Call :=
  mkCall CallTypeCall 1 5 None []
    [mkCall CallTypeCall 5 9 None (claimAssetEtrogMethodID ++ [77]) [];
     mkCall CallTypeCall 5 9 (Some "reverted") (claimMessageEtrogMethodID ++ [77]) [];
     mkCall CallTypeCall 5 9 None (claimMessageEtrogMethodID ++ [78]) []].

Lemma claim_event_has_unique_arguments_witness :
  let ev := mkParsedClaim 77 0 20 21 100 in
  let c := claimOfEvent (mkEVMBlockHeader 40 0 0 1000) (mkClaimLog 3 2) ev ClaimEvent in
  appendClaim (Kc := fun _ => 12) sample_unpack 4 ClaimEvent (Ok sample_trace) 9 (mkEVMBlockHeader 40 0 0 1000) (mkClaimLog 3 2) (Some ev) [] =
  Ok [mkClaimsEvent (Some (withCalldata c [1; 2] [3] 10 11 12 1 [6] false)) None None].
Proof.
  refine (proj2 (claim_event_has_unique_arguments (Kc := fun _ => 12) sample_unpack 4 ClaimEvent sample_trace 9
    (mkEVMBlockHeader 40 0 0 1000) (mkClaimLog 3 2) (mkParsedClaim 77 0 20 21 100) [] _ _) _).
  - vm_compute. lia.
  - eexists. split; [reflexivity|]. split; [vm_compute; by repeat split|]. split.
    + eexists. split; [right; left; reflexivity | vm_compute; reflexivity].
    + intros call [<-|[<-|[]]]; [left | right]; vm_compute; reflexivity.
Defined.

(** ** One event per detailed claim *)

(** The hook keeps the order, and drops a log exactly when it is a plain claim event of a transaction with a detailed one. *)
Lemma preferDetailed_bfilter logs :
  preferDetailedClaimLogs logs = bfilter (fun l => negb (isPlain l && existsb (Z.eqb (rl_TxHash l)) (map rl_TxHash (bfilter isDetailed logs)))) logs.
Proof.
  unfold preferDetailedClaimLogs. destruct (map rl_TxHash (bfilter isDetailed logs)); [|done].
  symmetry. apply bfilter_all. intros x _. cbn. by rewrite andb_false_r.
Qed.

Theorem plain_claims_make_way logs l :
  In l (preferDetailedClaimLogs logs) <->
  In l logs /\ ~ (rl_Topic l = TopicClaim /\ exists d, In d logs /\ rl_Topic d = TopicDetailedClaim /\ rl_TxHash d = rl_TxHash l).
Proof.
  rewrite preferDetailed_bfilter, bfilter_In. apply and_iff_compat_l. rewrite negb_true_iff, andb_false_iff. split.
  - intros H [Ht (d & Hd & Htd & Hh)]. destruct H as [H|H]; [unfold isPlain in H; by rewrite Ht in H|].
    rewrite existsb_false_In in H. specialize (H (rl_TxHash d)). rewrite Hh in H. rewrite Z.eqb_refl in H.
    discriminate H. apply in_map_iff. exists d. split; [done|]. apply bfilter_In. split; [done|]. unfold isDetailed. by rewrite Htd.
  - intros H. destruct (isPlain l) eqn:Ep; [|by left]. right. apply existsb_false_In. intros h Hh.
    apply in_map_iff in Hh as (d & <- & Hd). apply bfilter_In in Hd as [Hd Hdd]. apply Z.eqb_neq. intros E. apply H. split.
    + unfold isPlain in Ep. by destruct (rl_Topic l).
    + exists d. split; [done|]. split; [|done]. unfold isDetailed in Hdd. by destruct (rl_Topic d).
Qed.

(** ** The block of a claim *)

(** A node that holds [chain], in the order of blocks, and serves at most [cap] blocks at once. *)
Definition cappedNode (cap : Z) (chain : list RawLog) (from to : Z) : result (option Z) (list RawLog) :=
  if to - from + 1 <=? cap then Ok (between rl_BlockNumber from to chain)
  else Err (Some cap).

Definition inOrder (chain : list RawLog) : Prop := StronglySorted (fun a b => rl_BlockNumber a <= rl_BlockNumber b) chain.

Lemma find_app {A} (p : A -> bool) l1 l2 : List.find p (l1 ++ l2) = match List.find p l1 with Some x => Some x | None => List.find p l2 end.
Proof. induction l1 as [|x l1 IH]; cbn; [done|]. by destruct (p x). Qed.

Lemma lastMatch_app g l1 l2 : lastMatch g (l1 ++ l2) = match lastMatch g l2 with Some b => Some b | None => lastMatch g l1 end.
Proof. unfold lastMatch. rewrite rev_app_distr, find_app. by destruct (List.find _ (rev l2)). Qed.

Lemma scanBackwards_run fuel cap chain g current :
  inOrder chain -> 0 < cap -> 0 <= current < pow2_64 -> (Z.to_nat (current / cap) < fuel)%nat ->
  scanBackwards fuel (cappedNode cap chain) g cap current =
  Ok (lastMatch g (between rl_BlockNumber 0 current chain)).
Proof.
  intros Hs Hcap. revert current. induction fuel as [|fuel IH]; intros current Hc Hf; [lia|]. cbn [scanBackwards].
  destruct (cap <=? current) eqn:E; bool_hyps.
  - rewrite (sub64_small current cap) by (unfold_words; lia). rewrite (add64_small (current - cap) 1) by (unfold_words; lia).
    unfold scanRange, cappedNode at 1. rewrite (proj2 (Z.leb_le _ cap)) by lia. cbn [rbind].
    rewrite <- (between_app rl_BlockNumber 0 (current - cap) current) by (done || lia). rewrite lastMatch_app.
    destruct (lastMatch g _); [done|]. rewrite (proj2 (Z.eqb_neq (current - cap + 1) 0)) by lia.
    rewrite (sub64_small (current - cap + 1) 1) by (unfold_words; lia). rewrite Z.add_simpl_r.
    apply IH; [lia|]. replace (current - cap) with (current + (-1) * cap) by lia. rewrite Z.div_add by lia.
    assert (1 <= current / cap) by (apply Z.div_le_lower_bound; lia). lia.
  - unfold scanRange, cappedNode at 1. rewrite (proj2 (Z.leb_le _ cap)) by lia. cbn [rbind]. by destruct (lastMatch g _).
Qed.

(** Whatever range the node serves at once, the block found is that of the last event of the index up to the last
    block, and the search ends within one query per range. *)
Theorem latest_claim_block_found fuel cap chain g to :
  inOrder chain -> 0 < cap -> 0 <= to < pow2_64 -> (Z.to_nat (to / cap) < fuel)%nat ->
  GetLatestBlockNumByGlobalIndexFromRPC fuel (Some to) (cappedNode cap chain) g =
  Ok (lastMatch g (between rl_BlockNumber 0 to chain)).
Proof.
  intros. unfold GetLatestBlockNumByGlobalIndexFromRPC, scanRange at 1. unfold cappedNode at 1.
  destruct (to - 0 + 1 <=? cap); [done|]. by apply scanBackwards_run.
Qed.

Definition sample_chain : list RawLog :=
  [mkRawLog TopicClaim 1 3 (Some 7); mkRawLog TopicDetailedClaim 2 12 (Some 7); mkRawLog TopicClaim 3 12 (Some 8); mkRawLog TopicClaim 4 29 (Some 7)].

Lemma latest_claim_block_found_witness :
  GetLatestBlockNumByGlobalIndexFromRPC 4 (Some 28) (cappedNode 10 sample_chain) 7 = Ok (Some 12).
Proof.
  refine (eq_trans (latest_claim_block_found 4 10 sample_chain 7 28 _ _ _ _) eq_refl); [|lia | unfold_words; lia | vm_compute; lia].
  repeat constructor; cbn; lia.
Defined.

(** A node whose message states a range of zero blocks makes the search repeat the same empty query for ever. *)
Lemma scanBackwards_zero fuel node g current :
  (forall n, is_u64 (n + 1) -> node (n + 1) n = Ok []) -> 0 <= current < pow2_64 - 1 -> scanBackwards fuel node g 0 current = Err SErrFuel.
Proof.
  intros Hn Hc. revert current Hc. induction fuel as [|fuel IH]; intros current Hc; [done|]. cbn [scanBackwards].
  rewrite (proj2 (Z.leb_le 0 current)) by lia. rewrite (sub64_small current 0), Z.sub_0_r by (unfold_words; lia).
  rewrite (add64_small current 1) by (unfold_words; lia). unfold scanRange. rewrite Hn by (unfold_words; lia). cbn.
  rewrite (proj2 (Z.eqb_neq (current + 1) 0)) by lia. rewrite (sub64_small (current + 1) 1) by (unfold_words; lia).
  replace (current + 1 - 1) with current by lia. by apply IH.
Qed.

Theorem zero_range_scan_never_ends fuel node g to :
  node 0 to = Err (Some 0) -> (forall n, is_u64 (n + 1) -> node (n + 1) n = Ok []) -> 0 <= to < pow2_64 - 1 ->
  GetLatestBlockNumByGlobalIndexFromRPC fuel (Some to) node g = Err SErrFuel.
Proof.
  intros H0 Hn Ht. unfold GetLatestBlockNumByGlobalIndexFromRPC, scanRange at 1. rewrite H0. by apply scanBackwards_zero.
Qed.

Lemma zero_range_scan_never_ends_witness :
  GetLatestBlockNumByGlobalIndexFromRPC 1000 (Some 28) (fun from to => if from <=? to then Err (Some 0) else Ok []) 7 = Err SErrFuel.
Proof.
  refine (zero_range_scan_never_ends 1000 (fun from to => if from <=? to then Err (Some 0) else Ok []) 7 28 _ _ _);
    [reflexivity | | unfold_words; lia].
  intros n _. by rewrite (proj2 (Z.leb_gt (n + 1) n)) by lia.
Defined.

(** ** Unset claims of a range *)

Definition cappedUnclaims (cap : Z) (unclaims : list Unclaim) (from to : Z) : result unsetError (list Unclaim) :=
  if to - from + 1 <=? cap then Ok (between uc_BlockNumber from to unclaims) else Err (UErrRPC (Some cap)).

(** Chunks that are answered in full make up the range. *)
Lemma chunked_loop_between {E} (fetch : Z -> Z -> result E (list Unclaim)) unclaims fuel from to m all :
  StronglySorted (fun a b => uc_BlockNumber a <= uc_BlockNumber b) unclaims ->
  0 < m -> 0 <= from -> to + m < pow2_64 -> (Z.to_nat (to - from + 1) < fuel)%nat ->
  (forall f t, from <= f <= t -> t <= to -> t - f < m -> fetch f t = Ok (between uc_BlockNumber f t unclaims)) ->
  chunked_loop fetch app fuel from to m all = Some (Ok (all ++ between uc_BlockNumber from to unclaims)).
Proof.
  intros Hs Hm. revert from all. induction fuel as [|fuel IH]; intros from all Hf Hto Hfuel Hfetch; [lia|]. cbn [chunked_loop].
  destruct (from <=? to) eqn:E1; bool_hyps; [|by rewrite between_empty, app_nil_r by lia].
  rewrite (add64_small from m) by (unfold_words; lia). rewrite (sub64_small (from + m) 1) by (unfold_words; lia).
  set (mid := Z.min (from + m - 1) to). rewrite Hfetch by lia. rewrite (add64_small mid 1) by (unfold_words; lia).
  rewrite IH; [|lia | done | lia | intros; apply Hfetch; lia]. by rewrite <- app_assoc, between_app by (done || lia).
Qed.

(** Whatever range the node serves and whatever limit is configured, the reader returns the unset claims of the range,
    in order: one fallback is enough, since the chunks have the size the node stated. *)
Theorem unset_claims_complete cap unclaims fuel steps limit from to :
  StronglySorted (fun a b => uc_BlockNumber a <= uc_BlockNumber b) unclaims ->
  0 < cap -> 0 <= limit -> 0 <= from <= to -> to + Z.max cap limit < pow2_64 -> (0 < fuel)%nat -> (Z.to_nat (to - from + 1) < steps)%nat ->
  GetUnsetClaimsForBlockRange (cappedUnclaims cap unclaims) fuel steps limit from to = Ok (between uc_BlockNumber from to unclaims).
Proof.
  intros Hs Hc Hl Hf Hto Hfuel Hsteps.
  assert (Hin : forall k f t, t - f < cap -> fetchUnsetClaimsWithFallbackChunking (cappedUnclaims cap unclaims) k steps f t =
    Ok (between uc_BlockNumber f t unclaims)).
  { intros k f t Hft. destruct k; cbn; unfold cappedUnclaims at 1; by rewrite (proj2 (Z.leb_le _ _)) by lia. }
  assert (Hany : forall f t, from <= f <= t -> t <= to -> fetchUnsetClaimsWithFallbackChunking (cappedUnclaims cap unclaims) fuel steps f t =
    Ok (between uc_BlockNumber f t unclaims)).
  { intros f t Hft Ht. destruct (Z.lt_ge_cases (t - f) cap) as [Hlt|Hge]; [by apply Hin|].
    destruct fuel as [|fuel]; [lia|]. cbn. unfold cappedUnclaims at 1. rewrite (proj2 (Z.leb_gt _ _)) by lia. cbn [unset_maxRange].
    unfold ChunkedRangeQuery. rewrite (proj2 (Z.eqb_neq cap 0)) by lia.
    rewrite (chunked_loop_between _ unclaims); [done..| | | | |intros; by apply Hin]; lia. }
  unfold GetUnsetClaimsForBlockRange. rewrite (proj2 (Z.ltb_ge to from)) by lia. destruct (_ && _) eqn:E; [|by apply Hany; lia].
  bool_hyps. unfold getUnsetClaimsInChunks, ChunkedRangeQuery. rewrite (proj2 (Z.eqb_neq limit 0)) by lia.
  rewrite (chunked_loop_between _ unclaims); [done..| | | | |intros; by apply Hany]; lia.
Qed.

Lemma unset_claims_complete_witness :
  GetUnsetClaimsForBlockRange (cappedUnclaims 3 [mkUnclaim (Some 1) 4 0; mkUnclaim (Some 2) 9 1; mkUnclaim (Some 3) 30 0]) 1 40 7 2 20 =
  Ok [mkUnclaim (Some 1) 4 0; mkUnclaim (Some 2) 9 1].
Proof.
  refine (eq_trans (unset_claims_complete 3 [mkUnclaim (Some 1) 4 0; mkUnclaim (Some 2) 9 1; mkUnclaim (Some 3) 30 0] 1 40 7 2 20 _ _ _ _ _ _ _) eq_refl);
    [|lia.. | unfold_words; lia | lia | vm_compute; lia].
  repeat constructor; cbn; lia.
Defined.
