(* ===== verification/L2GerSync.v ===== *)
(** The syncer of the global exit roots injected on L2 ([l2gersync/]): its processor and tables, the syncer in
    front of it, the downloader of sovereign chains with its recovery from invalid roots, the polling
    downloader of legacy chains, and the reader that asks the contract directly.

    The tables are lists of rows with the constraints of the migrations: primary keys, and references to the
    block table whose rows take theirs with them when deleted.  The contracts are parameters; an error of a
    call is what [ParseMaxRangeFromError] makes of its text, a limit on the range or nothing, and the
    errors that wrap it keep that text. *)

From S2P Require Import Prelude BlockRange Tables BuildParams Downloader ReorgDetector SyncDriver.

(** ** Data *)

Record GlobalExitRootInfo := mkGERInfo {
  gi_GlobalExitRoot : Z;
  gi_L1InfoTreeIndex : Z;
  gi_BlockNum : Z;
  gi_BlockPosition : Z;
  gi_Timestamp : option Z;
  gi_Removed : bool;
  gi_BlockHash : Z
}.

Record RemoveGEREvent := mkRemoveGEREvent {
  re_GlobalExitRoot : Z;
  re_BlockNum : Z;
  re_BlockPos : Z;
  re_CreatedAt : Z
}.

Definition newGlobalExitRootInfo (globalExitRoot l1InfoTreeIndex blockNum blockPosition : Z) : GlobalExitRootInfo :=
  mkGERInfo globalExitRoot l1InfoTreeIndex blockNum blockPosition None false 0.

Inductive GEREventType := GEREventTypeInsert | GEREventTypeRemove.
Record GEREvent := mkGEREvent { ge_GERInfo : GlobalExitRootInfo; ge_EventType : GEREventType }.

Inductive SyncMode := Legacy | SovereignChain.

Inductive gerError :=
| ErrPrimaryKey
| ErrForeignKey
| GErrNotFound
| ErrInvalidRange
| ErrRPC (maxRange : option Z)
| ErrZeroMaxRange
| ErrChunkOf (from to : Z) (e : gerError)
| ErrRemovals (e : gerError)
| ErrL1Info
| ErrHead
| ErrSyncMode
| ErrFatal
| ErrFuel.

(** The tables. *)
Record gerdb := mkGerdb {
  block : list (Z * option Z);
  imported : list GlobalExitRootInfo;
  removals : list RemoveGEREvent
}.

Definition ger_pos (g : GlobalExitRootInfo) : Z * Z := (gi_BlockNum g, gi_BlockPosition g).
Definition rem_pos (r : RemoveGEREvent) : Z * Z := (re_BlockNum r, re_BlockPos r).

(** The columns of a row. *)
Definition columns (g : GlobalExitRootInfo) : GlobalExitRootInfo :=
  mkGERInfo (gi_GlobalExitRoot g) (gi_L1InfoTreeIndex g) (gi_BlockNum g) (gi_BlockPosition g) (gi_Timestamp g) false 0.

Definition same_pos (a b : Z * Z) : bool := (fst a =? fst b) && (snd a =? snd b).
Definition blockStored (db : gerdb) (num : Z) : bool := existsb (fun b => fst b =? num) (block db).

Abbreviation Ger := (eff gerdb gerError).

(** ** The processor *)

Definition insertGER (info : GlobalExitRootInfo) : Ger unit :=
  let! db := sget in
  if existsb (fun g => same_pos (ger_pos g) (ger_pos info)) (imported db) then sfail ErrPrimaryKey
  else if negb (blockStored db (gi_BlockNum info)) then sfail ErrForeignKey
  else smodify (fun db => mkGerdb (block db) (imported db ++ [columns info]) (removals db)).

Definition deleteGER (ger : Z) : Ger unit :=
  smodify (fun db => mkGerdb (block db) (bfilter (fun g => negb (gi_GlobalExitRoot g =? ger)) (imported db)) (removals db)).

Definition insertRemoval (r : RemoveGEREvent) : Ger unit :=
  let! db := sget in
  if existsb (fun x => same_pos (rem_pos x) (rem_pos r)) (removals db) then sfail ErrPrimaryKey
  else if negb (blockStored db (re_BlockNum r)) then sfail ErrForeignKey
  else smodify (fun db => mkGerdb (block db) (imported db) (removals db ++ [r])).

Section Processor.

(** The time of the removal of a root ([time.Now]). *)
Context (now : GlobalExitRootInfo -> Z).

Definition handleGEREvent (ev : GEREvent) : Ger unit :=
  let gerInfo := ge_GERInfo ev in
  match ge_EventType ev with
  | GEREventTypeInsert => insertGER gerInfo
  | GEREventTypeRemove =>
      let! _ := deleteGER (gi_GlobalExitRoot gerInfo) in
      insertRemoval (mkRemoveGEREvent (gi_GlobalExitRoot gerInfo) (gi_BlockNum gerInfo) (gi_BlockPosition gerInfo) (now gerInfo))
  end.

Definition insertBlock (num hash : Z) : Ger unit :=
  let! db := sget in
  if blockStored db num then sfail ErrPrimaryKey
  else smodify (fun db => mkGerdb (block db ++ [(num, Some hash)]) (imported db) (removals db)).

Fixpoint handleEvents (evs : list GEREvent) : Ger unit :=
  match evs with
  | [] => sret tt
  | ev :: evs => let! _ := handleGEREvent ev in handleEvents evs
  end.

(** One transaction: an error leaves the tables as they were. *)
Definition ger_ProcessBlock (b : Block GEREvent) : Ger unit := fun db =>
  match (let! _ := insertBlock (bk_Num b) (bk_Hash b) in handleEvents (bk_Events b)) db with
  | (db', Ok _) => (db', Ok tt)
  | (_, Err e) => (db, Err e)
  end.

End Processor.

(** The rows of the deleted blocks go with them. *)
Definition ger_Reorg (firstReorgedBlock : Z) (db : gerdb) : gerdb :=
  mkGerdb (bfilter (fun b => negb (firstReorgedBlock <=? fst b)) (block db))
    (bfilter (fun g => negb (firstReorgedBlock <=? gi_BlockNum g)) (imported db))
    (bfilter (fun r => negb (firstReorgedBlock <=? re_BlockNum r)) (removals db)).

Definition ger_GetLastProcessedBlock (db : gerdb) : option Z := fst <$> lastRow (block db).

Definition byIndexDesc (a b : GlobalExitRootInfo) : bool := gi_L1InfoTreeIndex b <? gi_L1InfoTreeIndex a.
Definition byIndexAsc (a b : GlobalExitRootInfo) : bool := gi_L1InfoTreeIndex a <? gi_L1InfoTreeIndex b.

Definition orNotFound {A} (o : option A) : result gerError A := match o with Some a => Ok a | None => Err GErrNotFound end.

Definition getLatestL1InfoTreeIndex (db : gerdb) : result gerError Z :=
  let? g := orNotFound (firstBy byIndexDesc (imported db)) in Ok (gi_L1InfoTreeIndex g).

Definition GetRemoveGEREvents (db : gerdb) (globalExitRoot : option Z) (limit : Z) : list RemoveGEREvent :=
  let rows := match globalExitRoot with
              | None => removals db
              | Some ger => bfilter (fun r => re_GlobalExitRoot r =? ger) (removals db)
              end in
  take (Z.to_nat limit) (merge_sort (pos_ge rem_pos) rows).

(** The hash of the block is joined to the row; a NULL hash reads as zero. *)
Definition GetFirstGERAfterL1InfoTreeIndex (db : gerdb) (l1InfoTreeIndex : Z) : result gerError GlobalExitRootInfo :=
  let? g := orNotFound (firstBy byIndexAsc (bfilter (fun g => l1InfoTreeIndex <=? gi_L1InfoTreeIndex g) (imported db))) in
  Ok (mkGERInfo (gi_GlobalExitRoot g) (gi_L1InfoTreeIndex g) (gi_BlockNum g) (gi_BlockPosition g) (gi_Timestamp g) false
        (default 0 (rowHash (block db) (gi_BlockNum g)))).

Definition getBlockHash (db : gerdb) (blockNum : Z) : option Z := rowHash (block db) blockNum.

Definition GetLastGER (db : gerdb) : result gerError GlobalExitRootInfo := orNotFound (firstBy byIndexDesc (imported db)).

Definition UpdateTimestamp (blockNum blockPosition timestamp : Z) (db : gerdb) : gerdb :=
  mkGerdb (block db)
    (map (fun g => if same_pos (ger_pos g) (blockNum, blockPosition)
                   then mkGERInfo (gi_GlobalExitRoot g) (gi_L1InfoTreeIndex g) (gi_BlockNum g) (gi_BlockPosition g)
                          (Some timestamp) (gi_Removed g) (gi_BlockHash g)
                   else g) (imported db))
    (removals db).

(** A Go map filled row by row: the last row of a root stays. *)
Definition byGER (rows : list GlobalExitRootInfo) : gmap Z GlobalExitRootInfo :=
  fold_left (fun m g => <[gi_GlobalExitRoot g := g]> m) rows ∅.

Definition p_GetInjectedGERsForRange (db : gerdb) (fromBlock toBlock : Z) : result gerError (gmap Z GlobalExitRootInfo) :=
  if toBlock <? fromBlock then Err ErrInvalidRange
  else Ok (byGER (bfilter (fun g => (fromBlock <=? gi_BlockNum g) && (gi_BlockNum g <=? toBlock)) (imported db))).

(** ** The syncer *)

(** The header of a block from the L2 node: its time; [None] client is the missing one. *)
Definition s_GetFirstGERAfterL1InfoTreeIndex (syncMode : SyncMode) (l2Client : option (Z -> option Z)) (index : Z)
  : Ger GlobalExitRootInfo := fun db =>
  match GetFirstGERAfterL1InfoTreeIndex db index with
  | Err e => (db, Err e)
  | Ok info =>
      match gi_Timestamp info, syncMode, l2Client with
      | Some _, _, _ => (db, Ok info)
      | None, Legacy, _ => (db, Ok info)
      | None, SovereignChain, None => (db, Ok info)
      | None, SovereignChain, Some client =>
          match client (gi_BlockNum info) with
          | None => (db, Ok info)
          | Some time =>
              (UpdateTimestamp (gi_BlockNum info) (gi_BlockPosition info) time db,
               Ok (mkGERInfo (gi_GlobalExitRoot info) (gi_L1InfoTreeIndex info) (gi_BlockNum info) (gi_BlockPosition info)
                     (Some time) (gi_Removed info) (gi_BlockHash info)))
          end
      end
  end.

Definition s_IsBlockFinalized (syncMode : SyncMode) (tracker : Z -> result rdError Header) (db : gerdb) (blockNum blockHash : Z)
  : result rdError (bool * bool) :=
  match syncMode with
  | Legacy => Ok (false, false)
  | SovereignChain =>
      if blockHash =? 0 then Ok (false, false)
      else IsBlockFinalized tracker blockNum blockHash (fun n => Ok (getBlockHash db n))
  end.

(** The answer of a probe of the contract: present, reverted, or another error; [None] when the binding
    cannot be made. *)
Inductive probe := ProbeOk | ProbeReverted | ProbeError.

Definition resolveSyncMode (sovereign legacy : option probe) : result gerError SyncMode :=
  match sovereign with
  | Some ProbeOk => Ok SovereignChain
  | Some ProbeError => Err ErrSyncMode
  | _ => match legacy with Some ProbeOk => Ok Legacy | _ => Err ErrSyncMode end
  end.

(** ** Reading the contract *)

Record RemovedGER := mkRemovedGER { rm_GlobalExitRoot : Z; rm_BlockNumber : Z; rm_LogIndex : Z }.

(** A log of the contract: the root it is about and where it was emitted. *)
Record GERLog := mkGERLog { gl_GlobalExitRoot : Z; gl_BlockNumber : Z; gl_Index : Z }.
Record Iterator := mkIterator { it_events : list GERLog; it_Error : option gerError }.

(** The contract of L2: [None] as the last block is the head, no root means all of them; [None] as the answer
    of the map is an error. *)
Class L2GERManager := {
  FilterUpdateHashChainValue : Z -> option Z -> result gerError Iterator;
  FilterUpdateRemovalHashChainValue : Z -> option Z -> list Z -> result gerError Iterator;
  GlobalExitRootMap : Z -> option Z
}.

(** [ParseMaxRangeFromError] of the text of an error. *)
Fixpoint err_maxRange (e : gerError) : option Z :=
  match e with
  | ErrRPC m => m
  | ErrChunkOf _ _ e => err_maxRange e
  | ErrRemovals e => err_maxRange e
  | _ => None
  end.

Definition removedGER_of (l : GERLog) : RemovedGER := mkRemovedGER (gl_GlobalExitRoot l) (gl_BlockNumber l) (gl_Index l).

(** The result of [ChunkedRangeQuery]; without fuel left, [ErrFuel]. *)
Definition chunkedOf {A} (r : option (result (chunked_error gerError) A)) : result gerError A :=
  match r with
  | None => Err ErrFuel
  | Some (Ok a) => Ok a
  | Some (Err ErrMaxRangeZero) => Err ErrZeroMaxRange
  | Some (Err (ErrChunk f t e)) => Err (ErrChunkOf f t e)
  end.

Section Reader.
Context `{Gm : L2GERManager}.

Definition filterRemovedGERs (fromBlock : Z) (toBlock : option Z) (gers : list Z) : result gerError (list RemovedGER) :=
  let? removalIterator := FilterUpdateRemovalHashChainValue fromBlock toBlock gers in
  match it_Error removalIterator with
  | Some e => Err e
  | None => Ok (map removedGER_of (it_events removalIterator))
  end.

Definition fetchRemovedGERs (fromBlock toBlock : Z) : result gerError (list RemovedGER) :=
  filterRemovedGERs fromBlock (Some toBlock) [].

Definition GetRemovedGERsForRange (fuel : nat) (fromBlock toBlock : Z) : result gerError (list RemovedGER) :=
  if toBlock <? fromBlock then Err ErrInvalidRange
  else match fetchRemovedGERs fromBlock toBlock with
       | Ok removedGERs => Ok removedGERs
       | Err e =>
           match err_maxRange e with
           | Some maxRange => chunkedOf (ChunkedRangeQuery fetchRemovedGERs app fuel fromBlock toBlock maxRange [])
           | None => Err e
           end
       end.

(** [GetInfoByGlobalExitRoot] of the L1 info tree syncer. *)
Context (GetInfoByGlobalExitRoot : Z -> result gerError L1InfoLeaf).

Definition injectedGER (removedGERs : list RemovedGER) (injected : gmap Z GlobalExitRootInfo) (ev : GERLog)
  : result gerError (gmap Z GlobalExitRootInfo) :=
  let ger := gl_GlobalExitRoot ev in
  let removed := existsb (fun r => rm_GlobalExitRoot r =? ger) removedGERs in
  let? l1InfoTreeIndex :=
    if removed then Ok 0
    else match GetInfoByGlobalExitRoot ger with Ok leaf => Ok (il_L1InfoTreeIndex leaf) | Err _ => Err ErrL1Info end in
  Ok (<[ger := mkGERInfo ger l1InfoTreeIndex (gl_BlockNumber ev) (gl_Index ev) None removed 0]> injected).

Definition fetchInjectedGERs (fuel : nat) (fromBlock toBlock : Z) : result gerError (gmap Z GlobalExitRootInfo) :=
  let? insertIterator := FilterUpdateHashChainValue fromBlock (Some toBlock) in
  let? removedGERs := match GetRemovedGERsForRange fuel fromBlock toBlock with Ok l => Ok l | Err e => Err (ErrRemovals e) end in
  let? injectedGERs := rfold (injectedGER removedGERs) (it_events insertIterator) ∅ in
  match it_Error insertIterator with
  | Some e => Err e
  | None => Ok injectedGERs
  end.

(** [maps.Copy] puts the entries of the chunk over those before. *)
Definition GetInjectedGERsForRange (fuel : nat) (fromBlock toBlock : Z) : result gerError (gmap Z GlobalExitRootInfo) :=
  if toBlock <? fromBlock then Err ErrInvalidRange
  else match fetchInjectedGERs fuel fromBlock toBlock with
       | Ok injectedGERs => Ok injectedGERs
       | Err e =>
           match err_maxRange e with
           | Some maxRange =>
               chunkedOf (ChunkedRangeQuery (fetchInjectedGERs fuel) (fun all chunk => chunk ∪ all) fuel fromBlock toBlock maxRange ∅)
           | None => Err e
           end
       end.

(** ** The downloader of sovereign chains *)

(** [ChunkedRangeQuery] with a query that changes the downloader, whose only field that changes is
    [removalScanMaxRange]. *)
Fixpoint chunkedScan (fetch : Z -> Z -> eff Z gerError (list RemovedGER)) (fuel : nat) (currentFrom toBlock maxRange : Z)
    (all : list RemovedGER) : eff Z gerError (list RemovedGER) :=
  match fuel with
  | O => sfail ErrFuel
  | S fuel =>
      if currentFrom <=? toBlock then
        let currentTo := Z.min (currentFrom +u64 maxRange -u64 1) toBlock in
        let! chunk := fun s => match fetch currentFrom currentTo s with
                               | (s, Err e) => (s, Err (ErrChunkOf currentFrom currentTo e))
                               | r => r
                               end in
        chunkedScan fetch fuel (currentTo +u64 1) toBlock maxRange (all ++ chunk)
      else sret all
  end.

Definition chunkedScanQuery (fetch : Z -> Z -> eff Z gerError (list RemovedGER)) (fuel : nat) (fromBlock toBlock maxRange : Z)
  : eff Z gerError (list RemovedGER) :=
  if maxRange =? 0 then sfail ErrZeroMaxRange else chunkedScan fetch fuel fromBlock toBlock maxRange [].

(** [fuel] bounds the depth of the recursion, [steps] the chunks of each level. *)
Fixpoint fetchRemovedGERsChunk (fuel steps : nat) (gers : list Z) (fromBlock toBlock : Z) : eff Z gerError (list RemovedGER) :=
  match filterRemovedGERs fromBlock (Some toBlock) gers with
  | Ok removedEvents => sret removedEvents
  | Err e =>
      match err_maxRange e with
      | None => sfail e
      | Some maxRange =>
          let! _ := smodify (fun _ => maxRange) in
          match fuel with
          | O => sfail ErrFuel
          | S fuel => chunkedScanQuery (fetchRemovedGERsChunk fuel steps gers) steps fromBlock toBlock maxRange
          end
      end
  end.

(** [head] is the answer of [GetLastFinalizedBlock]. *)
Definition scanRemovedGERs (fuel steps : nat) (head : result gerError Z) (fromBlock ger : Z) : eff Z gerError (list RemovedGER) :=
  let chunked : eff Z gerError (list RemovedGER) :=
    match head with
    | Err _ => sfail ErrHead
    | Ok toBlock =>
        if toBlock <? fromBlock then sret []
        else let! maxRange := sget in
             chunkedScanQuery (fetchRemovedGERsChunk fuel steps [ger]) steps fromBlock toBlock maxRange
    end in
  let! removalScanMaxRange := sget in
  if removalScanMaxRange =? 0 then
    match filterRemovedGERs fromBlock None [ger] with
    | Ok removedEvents => sret removedEvents
    | Err e =>
        match err_maxRange e with
        | None => sfail e
        | Some maxRange => let! _ := smodify (fun _ => maxRange) in chunked
        end
    end
  else chunked.

Definition isGERRemovedFromL2 (fuel steps : nat) (head : result gerError Z) (fromBlock ger : Z) (s : Z) : Z * bool :=
  match scanRemovedGERs fuel steps head fromBlock ger s with
  | (s, Err _) => (s, false)
  | (s, Ok []) => (s, false)
  | (s, Ok _) => (s, match GlobalExitRootMap ger with Some timestampL2 => timestampL2 =? 0 | None => false end)
  end.

(** The functions of the appender: the events a log adds to a block; [parsed] is the log as the binding
    parses it, [None] when it cannot. *)
Definition appendRemove (header : EVMBlockHeader) (parsed : option Z) (index : Z) : result gerError (list GEREvent) :=
  match parsed with
  | None => Err (ErrRPC None)
  | Some ger => Ok [mkGEREvent (newGlobalExitRootInfo ger 0 (eh_Num header) index) GEREventTypeRemove]
  end.

Definition appendInsert (fuel steps : nat) (head : result gerError Z) (header : EVMBlockHeader) (parsed : option Z) (index : Z)
  : eff Z gerError (list GEREvent) :=
  match parsed with
  | None => sfail (ErrRPC None)
  | Some ger =>
      match GetInfoByGlobalExitRoot ger with
      | Err _ => fun s =>
          let '(s, removed) := isGERRemovedFromL2 fuel steps head (eh_Num header) ger s in
          (s, if removed then Ok [] else Err ErrL1Info)
      | Ok leaf =>
          sret [mkGEREvent (mkGERInfo ger (il_L1InfoTreeIndex leaf) (eh_Num header) index (Some (eh_Timestamp header)) false 0)
                  GEREventTypeInsert]
      end
  end.

End Reader.

(** An iteration of the loop of [Download]: the messages, and the next block; [None] when the context ended. *)
Definition sovereignIteration (syncBlockChunkSize : Z) (e : downloadEnv (E := GEREvent)) (fromBlock : Z)
  : list (EVMBlock GEREvent) * option Z :=
  if env_done e then ([], None)
  else
    let latestBlock := env_WaitForNewBlocks e fromBlock in
    let toBlock := Z.min (fromBlock +u64 syncBlockChunkSize -u64 1) latestBlock in
    (env_GetEventsByBlockRange e fromBlock toBlock, Some (toBlock +u64 1)).

Fixpoint sovereignLoop (syncBlockChunkSize : Z) (envs : list (downloadEnv (E := GEREvent))) (fromBlock : Z)
  : list (EVMBlock GEREvent) * option Z :=
  match envs with
  | [] => ([], Some fromBlock)
  | e :: envs =>
      match sovereignIteration syncBlockChunkSize e fromBlock with
      | (msgs, None) => (msgs, None)
      | (msgs, Some from) => let '(msgs', o) := sovereignLoop syncBlockChunkSize envs from in (msgs ++ msgs', o)
      end
  end.

(** ** The downloader of legacy chains *)

(** A call repeated until it succeeds, under the retry handler: [call i] is the answer of attempt [i]. *)
Fixpoint retried {A} (maxRetry : Z) (fuel : nat) (call : nat -> result gerError A) (attempts : nat) : result gerError A :=
  match fuel with
  | O => Err ErrFuel
  | S fuel =>
      match call attempts with
      | Ok a => Ok a
      | Err _ => if HandleAttempts maxRetry (Z.of_nat attempts + 1) then Err ErrFatal else retried maxRetry fuel call (S attempts)
      end
  end.

Definition startIndex (db : gerdb) : Z :=
  match getLatestL1InfoTreeIndex db with
  | Err _ => 0
  | Ok latestL1InfoTreeIndex => if 0 <? latestL1InfoTreeIndex then latestL1InfoTreeIndex +u32 1 else 0
  end.

(** The loop over the leaves, from index [i] to [last]; the index wraps. *)
Fixpoint leavesFrom (fuel : nat) (info : Z -> result gerError L1InfoLeaf) (blockNum i last : Z)
  : result gerError (list GlobalExitRootInfo) :=
  match fuel with
  | O => Err ErrFuel
  | S fuel =>
      if last <? i then Ok []
      else
        let? leaf := info i in
        let? gers := leavesFrom fuel info blockNum (i +u32 1) last in
        Ok (newGlobalExitRootInfo (il_GlobalExitRoot leaf) i blockNum i :: gers)
  end.

(** The index of the last root of the L1 info tree, or that there is none. *)
Definition getGERsFromIndex (fuel : nat) (lastRoot : result gerError Z) (info : Z -> result gerError L1InfoLeaf)
    (blockNum fromL1InfoTreeIndex : Z) : result gerError (list GlobalExitRootInfo) :=
  match lastRoot with
  | Err GErrNotFound => Ok []
  | Err e => Err e
  | Ok last => leavesFrom fuel info blockNum fromL1InfoTreeIndex last
  end.

(** Newest first; [map i ger] is the answer of the contract at attempt [i]. *)
Fixpoint latestInjected (maxRetry : Z) (fuel : nat) (map : nat -> Z -> result gerError Z) (newestFirst : list GlobalExitRootInfo)
  : result gerError (option GlobalExitRootInfo) :=
  match newestFirst with
  | [] => Ok None
  | gerInfo :: older =>
      let? blockHash := retried maxRetry fuel (fun i => map i (gi_GlobalExitRoot gerInfo)) 0 in
      if negb (blockHash =? 0) then Ok (Some gerInfo) else latestInjected maxRetry fuel map older
  end.

Definition findLatestInjectedGER (maxRetry : Z) (fuel : nat) (map : nat -> Z -> result gerError Z) (gerInfos : list GlobalExitRootInfo)
  : result gerError (option GlobalExitRootInfo) :=
  latestInjected maxRetry fuel map (rev gerInfos).

(** What the world answers during an iteration, per attempt where the call is retried. *)
Record legacyEnv := mkLegacyEnv {
  le_done : bool;
  le_WaitForNewBlocks : Z -> Z;
  le_lastRoot : nat -> result gerError Z;
  le_info : nat -> Z -> result gerError L1InfoLeaf;
  le_map : nat -> Z -> result gerError Z;
  le_GetBlockHeader : Z -> option EVMBlockHeader
}.

Inductive legacyOutcome := LegacyContinue (fromBlock nextL1InfoTreeIndex : Z) | LegacyClosed | LegacyCanceled | LegacyDead (e : gerError).

Definition legacyIteration (maxRetry : Z) (fuel : nat) (e : legacyEnv) (fromBlock nextL1InfoTreeIndex : Z)
  : list (EVMBlock GEREvent) * legacyOutcome :=
  if le_done e then ([], LegacyClosed)
  else
    let fromBlock := le_WaitForNewBlocks e fromBlock in
    match retried maxRetry fuel (fun i => getGERsFromIndex fuel (le_lastRoot e i) (le_info e i) fromBlock nextL1InfoTreeIndex) 0 with
    | Err x => ([], LegacyDead x)
    | Ok gers =>
        match findLatestInjectedGER maxRetry fuel (le_map e) gers with
        | Err x => ([], LegacyDead x)
        | Ok gerInfo =>
            match le_GetBlockHeader e fromBlock with
            | None => ([], LegacyCanceled)
            | Some header =>
                if (eh_Num header =? 0) && (eh_Hash header =? 0) && (eh_ParentHash header =? 0) && (eh_Timestamp header =? 0)
                then ([], LegacyContinue fromBlock nextL1InfoTreeIndex)
                else match gerInfo with
                     | None => ([mkEVMBlock header false []], LegacyContinue fromBlock nextL1InfoTreeIndex)
                     | Some g =>
                         ([mkEVMBlock header false [mkGEREvent g GEREventTypeInsert]],
                          LegacyContinue fromBlock (gi_L1InfoTreeIndex g +u32 1))
                     end
            end
        end
    end.

Fixpoint legacyLoop (maxRetry : Z) (fuel : nat) (envs : list legacyEnv) (fromBlock nextL1InfoTreeIndex : Z)
  : list (EVMBlock GEREvent) * legacyOutcome :=
  match envs with
  | [] => ([], LegacyContinue fromBlock nextL1InfoTreeIndex)
  | e :: envs =>
      match legacyIteration maxRetry fuel e fromBlock nextL1InfoTreeIndex with
      | (msgs, LegacyContinue from next) => let '(msgs', o) := legacyLoop maxRetry fuel envs from next in (msgs ++ msgs', o)
      | r => r
      end
  end.

Definition legacyDownload (maxRetry : Z) (fuel : nat) (db : gerdb) (envs : list legacyEnv) (fromBlock : Z)
  : list (EVMBlock GEREvent) * legacyOutcome :=
  legacyLoop maxRetry fuel envs fromBlock (startIndex db).
