(* ===== verification/L2GerProofs.v ===== *)
(** Properties of the syncer of injected global exit roots: its tables are those of the history of events, when
    a reorg undoes the blocks it deletes, the contract with the sync driver, the completeness of the
    scan for removals and of the download, and what the reader of the contract reports. *)

From S2P Require Import Prelude BlockRange Tables BuildParams Downloader ReorgDetector SyncDriver L2GerSync.

(** ** The tables and the history *)

Definition removes (ger : Z) (ev : GEREvent) : bool :=
  match ge_EventType ev with
  | GEREventTypeRemove => gi_GlobalExitRoot (ge_GERInfo ev) =? ger
  | GEREventTypeInsert => false
  end.

(** The specification: a root is live when it was inserted and not removed afterwards. *)
Fixpoint live (h : list GEREvent) : list GlobalExitRootInfo :=
  match h with
  | [] => []
  | ev :: h =>
      match ge_EventType ev with
      | GEREventTypeInsert =>
          if existsb (removes (gi_GlobalExitRoot (ge_GERInfo ev))) h then live h else columns (ge_GERInfo ev) :: live h
      | GEREventTypeRemove => live h
      end
  end.

Definition survives (h : list GEREvent) (g : GlobalExitRootInfo) : bool := negb (existsb (removes (gi_GlobalExitRoot g)) h).

Definition history (bs : list (Block GEREvent)) : list GEREvent := concat (map bk_Events bs).

(** The events of a block carry its number, as the downloaders make them. *)
Definition events_of_block (b : Block GEREvent) : Prop := Forall (fun ev => gi_BlockNum (ge_GERInfo ev) = bk_Num b) (bk_Events b).

Lemma live_app h1 h2 : live (h1 ++ h2) = bfilter (survives h2) (live h1) ++ live h2.
Proof.
  induction h1 as [|ev h1 IH]; cbn; [done|]. destruct (ge_EventType ev); [|done]. rewrite existsb_app.
  destruct (existsb _ h1); cbn; [done|]. unfold survives at 1. cbn. destruct (existsb _ h2); cbn; by rewrite IH.
Qed.

Lemma live_origin h g : g ∈ live h -> exists ev, ev ∈ h /\ g = columns (ge_GERInfo ev).
Proof.
  induction h as [|ev h IH]; cbn; [by intros ?%elem_of_nil|]. intros H.
  assert (Hs : g ∈ live h -> exists ev', ev' ∈ ev :: h /\ g = columns (ge_GERInfo ev')).
  { intros (x & Hx & ->)%IH. exists x. split; [by right | done]. }
  destruct (ge_EventType ev); [|by apply Hs]. destruct (existsb _ h); [by apply Hs|].
  apply elem_of_cons in H as [->|H]; [exists ev; split; [by left | done] | by apply Hs].
Qed.

Section Processor.
Context (now : GlobalExitRootInfo -> Z).

Definition removal_of (ev : GEREvent) : option RemoveGEREvent :=
  let g := ge_GERInfo ev in
  match ge_EventType ev with
  | GEREventTypeInsert => None
  | GEREventTypeRemove => Some (mkRemoveGEREvent (gi_GlobalExitRoot g) (gi_BlockNum g) (gi_BlockPosition g) (now g))
  end.

(** The tables of a history of blocks. *)
Definition tables_of (bs : list (Block GEREvent)) : gerdb :=
  mkGerdb (map (fun b => (bk_Num b, Some (bk_Hash b))) bs) (live (history bs)) (omap removal_of (history bs)).

Lemma handleGEREvent_Ok ev db db' u :
  handleGEREvent now ev db = (db', Ok u) ->
  block db' = block db /\ imported db' = bfilter (survives [ev]) (imported db) ++ live [ev] /\
  removals db' = removals db ++ omap removal_of [ev].
Proof.
  unfold handleGEREvent, survives, removal_of. cbn [live existsb omap list_omap]. unfold removes.
  destruct (ge_EventType ev) eqn:Et; cbn [existsb].
  - unfold insertGER. intros H. inv_seq H as db1 s E. injection E as -> ->. destruct (existsb _ _); [discriminate|]. destruct (negb _); [discriminate|].
    injection H as <- _. cbn. split_and!; [done | | by rewrite app_nil_r]. by rewrite bfilter_all.
  - intros H. inv_seq H as v s E. injection E as <- _. unfold insertRemoval in H. inv_seq H as db1 s E. injection E as <- <-.
    destruct (existsb _ _); [discriminate|]. destruct (negb _); [discriminate|]. injection H as <- _. cbn. rewrite app_nil_r. split_and!; [done | | done].
    apply bfilter_ext. intros g _. by rewrite orb_false_r, Z.eqb_sym.
Qed.

Lemma handleEvents_Ok evs db db' u :
  handleEvents now evs db = (db', Ok u) ->
  block db' = block db /\ imported db' = bfilter (survives evs) (imported db) ++ live evs /\
  removals db' = removals db ++ omap removal_of evs.
Proof.
  revert db. induction evs as [|ev evs IH]; intros db; cbn [handleEvents].
  - intros [= <- _]. cbn. by rewrite !app_nil_r, bfilter_all.
  - intros H. inv_seq H as v s E. apply handleGEREvent_Ok in E as (B1 & I1 & R1). apply IH in H as (B2 & I2 & R2).
    split_and!; [congruence | |].
    + change (ev :: evs) with ([ev] ++ evs). rewrite I2, I1, (live_app [ev] evs), bfilter_app, <- app_assoc, bfilter_bfilter. f_equal. apply bfilter_ext. intros g _.
      unfold survives. rewrite existsb_app. by destruct (existsb _ [ev]), (existsb _ evs).
    + rewrite R2, R1, <- app_assoc. f_equal. change (ev :: evs) with ([ev] ++ evs). by rewrite omap_app.
Qed.

Lemma ger_ProcessBlock_Ok b db db' u :
  ger_ProcessBlock now b db = (db', Ok u) ->
  blockStored db (bk_Num b) = false /\ block db' = block db ++ [(bk_Num b, Some (bk_Hash b))] /\
  imported db' = bfilter (survives (bk_Events b)) (imported db) ++ live (bk_Events b) /\
  removals db' = removals db ++ omap removal_of (bk_Events b).
Proof.
  unfold ger_ProcessBlock. destruct (sbind _ _ db) as [d [v|]] eqn:E; [|discriminate]. intros [= <- _].
  inv_seq E as w s Ei. unfold insertBlock in Ei. inv_seq Ei as db1 s1 E1. injection E1 as -> ->.
  destruct (blockStored _ _); [discriminate|]. injection Ei as <- _.
  apply handleEvents_Ok in E as (B & I & R). split_and!; [done | by rewrite B | by rewrite I | by rewrite R].
Qed.

(** Processing block after block. *)
Fixpoint ProcessBlocks (bs : list (Block GEREvent)) : eff gerdb gerError unit :=
  match bs with
  | [] => sret tt
  | b :: bs => let! _ := ger_ProcessBlock now b in ProcessBlocks bs
  end.

Lemma ProcessBlocks_tables pre bs db u :
  ProcessBlocks bs (tables_of pre) = (db, Ok u) -> db = tables_of (pre ++ bs).
Proof.
  revert pre. induction bs as [|b bs IH]; intros pre; cbn [ProcessBlocks].
  - intros [= <- _]. by rewrite app_nil_r.
  - intros H. inv_seq H as v s E. apply ger_ProcessBlock_Ok in E as (_ & B & I & R).
    assert (Es : s = tables_of (pre ++ [b])).
    { unfold tables_of, history. rewrite !map_app, concat_app, live_app, omap_app. cbn [map concat]. rewrite app_nil_r.
      destruct s. cbn in B, I, R. by rewrite B, I, R. }
    rewrite Es in H. apply IH in H. by rewrite <- app_assoc in H.
Qed.

(** The events of blocks from [n] on, or all before it. *)
Lemma history_nums (P : Z -> Prop) bs ev :
  Forall events_of_block bs -> Forall (fun b => P (bk_Num b)) bs -> ev ∈ history bs -> P (gi_BlockNum (ge_GERInfo ev)).
Proof.
  intros He Hn Hin. unfold history in Hin. apply list_elem_of_In, in_concat in Hin as (l & Hl & Hin).
  apply in_map_iff in Hl as (b & <- & Hb). apply list_elem_of_In in Hb, Hin. rewrite Forall_forall in He, Hn.
  pose proof (He b Hb) as Hev. unfold events_of_block in Hev. rewrite Forall_forall in Hev. rewrite (Hev ev Hin). by apply Hn.
Qed.

Lemma Reorg_tables n kept gone :
  Forall events_of_block (kept ++ gone) -> Forall (fun b => bk_Num b < n) kept -> Forall (fun b => n <= bk_Num b) gone ->
  ger_Reorg n (tables_of (kept ++ gone)) =
  mkGerdb (block (tables_of kept)) (bfilter (survives (history gone)) (imported (tables_of kept))) (removals (tables_of kept)).
Proof.
  intros [Hk Hg]%Forall_app Hlt Hge. pose proof (history_nums (fun x => x < n) kept) as Nk. pose proof (history_nums (fun x => n <= x) gone) as Ng.
  unfold ger_Reorg, tables_of. cbn. unfold history at 1 2. rewrite !map_app, !concat_app. fold (history kept) (history gone).
  rewrite live_app, omap_app, !bfilter_app. f_equal.
  - rewrite (drop_all _ (map _ gone)), app_nil_r.
    + apply keep_all. intros x Hx. apply in_map_iff in Hx as (b & <- & Hb). rewrite Forall_forall in Hlt. by apply Hlt, list_elem_of_In.
    + intros x Hx. apply in_map_iff in Hx as (b & <- & Hb). apply negb_false_iff, Z.leb_le. rewrite Forall_forall in Hge. by apply Hge, list_elem_of_In.
  - rewrite (drop_all _ (live (history gone))), app_nil_r.
    + apply keep_all. intros g [Hin _]%bfilter_In. apply list_elem_of_In, live_origin in Hin as (ev & Hev & ->). by apply Nk.
    + intros g Hin. apply list_elem_of_In, live_origin in Hin as (ev & Hev & ->). apply negb_false_iff, Z.leb_le. by apply Ng.
  - rewrite (drop_all _ (omap removal_of (history gone))), app_nil_r.
    + apply keep_all. intros r Hr. apply list_elem_of_In, list_elem_of_omap in Hr as (ev & Hev & Er).
      unfold removal_of in Er. destruct (ge_EventType ev); [done|]. injection Er as <-. by apply Nk.
    + intros r Hr. apply list_elem_of_In, list_elem_of_omap in Hr as (ev & Hev & Er). apply negb_false_iff, Z.leb_le.
      unfold removal_of in Er. destruct (ge_EventType ev); [done|]. injection Er as <-. by apply Ng.
Qed.

(** C31. The tables of the syncer are those of the history of the blocks it processed, a root being in them when it was
    inserted and not removed since.  A reorg of the last blocks leaves the tables of the blocks before exactly when
    the reorged blocks removed no root those tables hold; a root they removed stays removed. *)
Theorem Reorg_equals_resync_iff n kept gone db1 db2 :
  Forall events_of_block (kept ++ gone) -> Forall (fun b => bk_Num b < n) kept -> Forall (fun b => n <= bk_Num b) gone ->
  ProcessBlocks kept (mkGerdb [] [] []) = (db1, Ok tt) -> ProcessBlocks gone db1 = (db2, Ok tt) ->
  imported db1 = live (history kept) /\
  (ger_Reorg n db2 = db1 <-> forall g, g ∈ imported db1 -> survives (history gone) g = true) /\
  forall g, g ∈ imported (ger_Reorg n db2) <-> g ∈ imported db1 /\ survives (history gone) g = true.
Proof.
  intros Hev Hk Hg H1 H2. apply (ProcessBlocks_tables []) in H1. cbn [app] in H1. subst db1. apply ProcessBlocks_tables in H2. subst db2.
  rewrite (Reorg_tables n kept gone Hev Hk Hg). split; [done|]. split.
  - split.
    + intros E g Hin. injection E as E. cbn [imported tables_of] in Hin. rewrite <- E in Hin. by apply list_elem_of_In, bfilter_In in Hin as [_ ?].
    + intros H. unfold tables_of at 4. f_equal. apply bfilter_all. intros g Hin. apply H. by apply list_elem_of_In.
  - intros g. cbn [imported]. by rewrite list_elem_of_In, bfilter_In, <- list_elem_of_In.
Qed.

End Processor.

(** A root inserted in block 1, another in block 2 and removed in block 3. *)
Definition example_ger (ger num : Z) : GlobalExitRootInfo := newGlobalExitRootInfo ger (ger - 100) num 0.
Definition example_insert (ger num : Z) : Block GEREvent := mkBlock num [mkGEREvent (example_ger ger num) GEREventTypeInsert] (10 * num).
Definition example_remove (ger num : Z) : Block GEREvent := mkBlock num [mkGEREvent (example_ger ger num) GEREventTypeRemove] (10 * num).

Definition example_db1 : gerdb := Eval vm_compute in fst (ProcessBlocks (fun _ => 7) [example_insert 101 1; example_insert 102 2] (mkGerdb [] [] [])).
Definition example_db2 : gerdb := Eval vm_compute in fst (ProcessBlocks (fun _ => 7) [example_remove 102 3] example_db1).

Lemma Reorg_equals_resync_iff_witness :
  imported example_db1 = live (history [example_insert 101 1; example_insert 102 2]) /\
  (ger_Reorg 3 example_db2 = example_db1 <->
   forall g, g ∈ imported example_db1 -> survives (history [example_remove 102 3]) g = true) /\
  forall g, g ∈ imported (ger_Reorg 3 example_db2) <->
            g ∈ imported example_db1 /\ survives (history [example_remove 102 3]) g = true.
Proof.
  refine (Reorg_equals_resync_iff (fun _ => 7) 3 [example_insert 101 1; example_insert 102 2] [example_remove 102 3]
            example_db1 example_db2 _ _ _ _ _).
  - repeat constructor.
  - repeat constructor.
  - repeat constructor; vm_compute; congruence.
  - reflexivity.
  - reflexivity.
Defined.

(** After the reorg of block 3 the syncer has lost a root that is injected on the chain of blocks 1 and 2. *)
Example reorged_removal_is_not_undone :
  ger_Reorg 3 example_db2 <> example_db1 /\
  GetFirstGERAfterL1InfoTreeIndex example_db1 2 = Ok (mkGERInfo 102 2 2 0 None false 20) /\
  GetFirstGERAfterL1InfoTreeIndex (ger_Reorg 3 example_db2) 2 = Err GErrNotFound.
Proof. split; [by vm_compute|]. split; reflexivity. Qed.

(** ** The contract with the sync driver *)

Section Laws.
Context (now : GlobalExitRootInfo -> Z).

#[local] Instance ger_processor : Processor GEREvent gerdb := {|
  GetLastProcessedBlock := fun db => Ok (ger_GetLastProcessedBlock db);
  ProcessBlock := fun b db =>
    let '(db', r) := ger_ProcessBlock now b db in (db', match r with Ok u => Ok u | Err _ => Err ErrOther end);
  processor_Reorg := fun n db => (ger_Reorg n db, Ok tt)
|}.

Definition ger_stored (db : gerdb) : gmap Z Z := storedRows (block db).

Lemma ger_ProcessBlock_stored b db db' u :
  ProcessBlock b db = (db', Ok u) ->
  ger_stored db !! bk_Num b = None /\ ger_stored db' = <[bk_Num b := bk_Hash b]> (ger_stored db).
Proof.
  cbn. destruct (ger_ProcessBlock now b db) as [d [v|]] eqn:E; [|discriminate]. intros [= <- _].
  apply ger_ProcessBlock_Ok in E as (Hs & Hb & _). unfold ger_stored. rewrite Hb. apply storedRows_snoc.
  intros Hin. apply list_elem_of_fmap in Hin as (row & Hr & Hin). apply list_elem_of_In in Hin.
  pose proof (proj1 (existsb_false_In _ _) Hs row Hin) as Hne. cbn in Hne. bool_hyps. congruence.
Qed.

#[local] Instance ger_processor_laws : ProcessorLaws GEREvent gerdb := {|
  stored := ger_stored;
  ProcessBlock_Ok := fun b p p' u E => let '(conj H1 H2) := ger_ProcessBlock_stored b p p' u E in conj (or_introl H1) H2;
  ProcessBlock_Err := fun b db db' e => ltac:(cbn; unfold ger_ProcessBlock;
    destruct (sbind _ _ db) as [d [v|e']]; [by intros [= <- _] | by intros [= <- _]]);
  Reorg_Ok := fun n db db' u E => ltac:(injection E as <- _; apply list_to_map_keep);
  Reorg_Err := fun n db db' e E => ltac:(discriminate E);
  GetLast_max := fun db n E => ltac:(injection E as E; by apply storedRows_last)
|}.

(** The processor satisfies the interface the sync driver is verified against: what is stored, what a failed block
    leaves, what a reorg keeps, and the last processed block. *)
Theorem ger_processor_meets_interface :
  exists L : ProcessorLaws GEREvent gerdb, @stored _ _ _ L = ger_stored.
Proof. by exists ger_processor_laws. Qed.

End Laws.

(** ** The scan for removals *)

(** The logs of a query for some roots, none meaning all of them. *)
Definition asked (gers : list Z) (l : GERLog) : bool :=
  match gers with [] => true | _ => existsb (Z.eqb (gl_GlobalExitRoot l)) gers end.

Section Node.
Context `{Gm : L2GERManager} (cap : Z) (removed : list GERLog).

Definition removal_logs (gers : list Z) (from to : Z) : list GERLog := between gl_BlockNumber from to (bfilter (asked gers) removed).

(** A node that serves ranges of up to [cap] blocks and names this limit when it refuses one. *)
Record serves_removals : Prop := {
  sr_cap : 0 < cap;
  sr_sorted : StronglySorted (fun a b => gl_BlockNumber a <= gl_BlockNumber b) removed;
  sr_within : forall from to gers, to - from < cap ->
    FilterUpdateRemovalHashChainValue from (Some to) gers = Ok (mkIterator (removal_logs gers from to) None);
  sr_beyond : forall from to gers, cap <= to - from ->
    FilterUpdateRemovalHashChainValue from (Some to) gers = Err (ErrRPC (Some cap))
}.

Lemma removal_logs_app gers from mid to :
  serves_removals -> from <= mid + 1 -> mid <= to ->
  removal_logs gers from mid ++ removal_logs gers (mid + 1) to = removal_logs gers from to.
Proof. intros Hs Hf Ht. apply between_app; [|lia|lia]. apply bfilter_StronglySorted, (sr_sorted Hs). Qed.

Lemma chunkedScan_run gers fetch fuel from to m all s :
  serves_removals -> 0 < m -> 0 <= from -> to + m < pow2_64 -> (Z.to_nat (to - from + 1) < fuel)%nat ->
  (forall f t s, from <= f <= t -> t <= to -> t - f < m -> exists s', fetch f t s = (s', Ok (map removedGER_of (removal_logs gers f t)))) ->
  exists s', chunkedScan fetch fuel from to m all s = (s', Ok (all ++ map removedGER_of (removal_logs gers from to))).
Proof.
  intros Hn Hm. revert from all s. induction fuel as [|fuel IH]; intros from all s Hf Hto Hfuel Hfetch; [lia|]. cbn [chunkedScan].
  destruct (from <=? to) eqn:E; bool_hyps.
  - rewrite add64_small, sub64_small by (unfold_words; lia). set (mid := Z.min (from + m - 1) to).
    destruct (Hfetch from mid s) as [s1 E1]; [lia..|]. rewrite (add64_small mid) by (unfold_words; lia).
    destruct (IH (mid + 1) (all ++ map removedGER_of (removal_logs gers from mid)) s1) as [s2 E2]; [lia | done | lia | |].
    { intros f t s' Hft Ht Hl. apply Hfetch; lia. }
    exists s2. rewrite (sbind_run _ _ s s1 (map removedGER_of (removal_logs gers from mid))) by (cbn; by rewrite E1).
    rewrite E2, <- app_assoc, <- map_app, removal_logs_app by (done || lia). done.
  - exists s. unfold removal_logs. by rewrite between_empty, app_nil_r by lia.
Qed.

Lemma chunkedScanQuery_run gers fetch fuel from to m s :
  serves_removals -> 0 < m -> 0 <= from -> to + m < pow2_64 -> (Z.to_nat (to - from + 1) < fuel)%nat ->
  (forall f t s, from <= f <= t -> t <= to -> t - f < m -> exists s', fetch f t s = (s', Ok (map removedGER_of (removal_logs gers f t)))) ->
  exists s', chunkedScanQuery fetch fuel from to m s = (s', Ok (map removedGER_of (removal_logs gers from to))).
Proof. intros. unfold chunkedScanQuery. rewrite (proj2 (Z.eqb_neq m 0)) by lia. by apply (chunkedScan_run gers fetch fuel from to m []). Qed.

Lemma filterRemovedGERs_within gers from to :
  serves_removals -> to - from < cap -> filterRemovedGERs from (Some to) gers = Ok (map removedGER_of (removal_logs gers from to)).
Proof. intros Hn Hc. unfold filterRemovedGERs. by rewrite (sr_within Hn). Qed.

Lemma fetchRemovedGERsChunk_run fuel steps gers from to s :
  serves_removals -> 0 <= from <= to -> to + cap < pow2_64 -> (Z.to_nat (to - from + 1) < steps)%nat ->
  exists s', fetchRemovedGERsChunk (S fuel) steps gers from to s = (s', Ok (map removedGER_of (removal_logs gers from to))).
Proof.
  intros Hn Hf Hto Hsteps. pose proof (sr_cap Hn). destruct (Z.lt_ge_cases (to - from) cap) as [Hc|Hc]; cbn [fetchRemovedGERsChunk].
  { rewrite filterRemovedGERs_within by done. by exists s. }
  unfold filterRemovedGERs at 1. rewrite (sr_beyond Hn) by done. cbn [rbind err_maxRange].
  rewrite (sbind_run _ _ s cap tt) by done. apply chunkedScanQuery_run; [done | lia | lia | done | done |].
  intros f t s' Hft Ht Hl. exists s'. destruct fuel; cbn [fetchRemovedGERsChunk]; by rewrite filterRemovedGERs_within by done.
Qed.

(** Whether the open query from the insertion on is served or refused, and whatever limit was learned before,
    the scan finds the removals up to the head. *)
Lemma scanRemovedGERs_run fuel steps head from ger s :
  serves_removals -> 0 <= from <= head -> 0 <= s -> head + cap < pow2_64 -> head + s < pow2_64 ->
  (Z.to_nat (head - from + 1) < steps)%nat ->
  FilterUpdateRemovalHashChainValue from None [ger] = Ok (mkIterator (removal_logs [ger] from head) None) \/
  FilterUpdateRemovalHashChainValue from None [ger] = Err (ErrRPC (Some cap)) ->
  exists s', scanRemovedGERs (S fuel) steps (Ok head) from ger s = (s', Ok (map removedGER_of (removal_logs [ger] from head))).
Proof.
  intros Hn Hf Hs Hc Hhs Hsteps Hopen. pose proof (sr_cap Hn).
  assert (Hch : forall m s0, 0 < m -> head + m < pow2_64 ->
    exists s', chunkedScanQuery (fetchRemovedGERsChunk (S fuel) steps [ger]) steps from head m s0 =
      (s', Ok (map removedGER_of (removal_logs [ger] from head)))).
  { intros m s0 Hm Hhm. apply chunkedScanQuery_run; [done.. | lia | done | done |].
    intros f t s1 Hft Ht _. apply fetchRemovedGERsChunk_run; [done | lia | lia | lia]. }
  unfold scanRemovedGERs. erewrite sbind_run by reflexivity. rewrite (proj2 (Z.ltb_ge head from)) by lia.
  destruct (s =? 0) eqn:E; bool_hyps.
  - unfold filterRemovedGERs at 1. destruct Hopen as [-> | ->]; cbn [rbind it_Error it_events err_maxRange]; [by exists s|].
    rewrite (sbind_run _ _ s cap tt) by done. rewrite (sbind_run _ _ cap cap cap) by done. apply Hch; lia.
  - rewrite (sbind_run _ _ s s s) by done. apply Hch; lia.
Qed.

(** The insertion of a root the L1 info tree does not know is skipped exactly when a removal of that root was logged
    at or after the insertion and the contract does not hold the root now; otherwise it is an error, which is
    retried.  A root the tree knows becomes an event with its index and the time of its block. *)
Theorem unknown_root_skipped_iff_removed infoOf fuel steps head header ger index s :
  serves_removals -> 0 <= eh_Num header <= head -> 0 <= s -> head + cap < pow2_64 -> head + s < pow2_64 ->
  (Z.to_nat (head - eh_Num header + 1) < steps)%nat ->
  FilterUpdateRemovalHashChainValue (eh_Num header) None [ger] = Ok (mkIterator (removal_logs [ger] (eh_Num header) head) None) \/
  FilterUpdateRemovalHashChainValue (eh_Num header) None [ger] = Err (ErrRPC (Some cap)) ->
  exists s' r, appendInsert infoOf (S fuel) steps (Ok head) header (Some ger) index s = (s', r) /\
    match infoOf ger with
    | Ok leaf => r = Ok [mkGEREvent (mkGERInfo ger (il_L1InfoTreeIndex leaf) (eh_Num header) index (Some (eh_Timestamp header)) false 0)
                          GEREventTypeInsert]
    | Err _ =>
        (r = Ok [] \/ r = Err ErrL1Info) /\
        (r = Ok [] <-> GlobalExitRootMap ger = Some 0 /\
           exists l, l ∈ removed /\ gl_GlobalExitRoot l = ger /\ eh_Num header <= gl_BlockNumber l <= head)
    end.
Proof.
  intros Hn Hf Hs Hc Hhs Hsteps Hopen. unfold appendInsert. destruct (infoOf ger) as [leaf|e]; [by do 2 eexists|].
  destruct (scanRemovedGERs_run fuel steps head (eh_Num header) ger s Hn Hf Hs Hc Hhs Hsteps Hopen) as [s' Hscan].
  unfold isGERRemovedFromL2. rewrite Hscan.
  assert (Hlogs : forall l, l ∈ removal_logs [ger] (eh_Num header) head <->
    l ∈ removed /\ gl_GlobalExitRoot l = ger /\ eh_Num header <= gl_BlockNumber l <= head).
  { intros l. unfold removal_logs. rewrite between_elem, list_elem_of_In, bfilter_In, <- list_elem_of_In. cbn.
    rewrite orb_false_r, Z.eqb_eq. tauto. }
  destruct (removal_logs [ger] (eh_Num header) head) as [|l ls] eqn:El; cbn [map].
  - exists s', (Err ErrL1Info). split; [done|]. split; [by right|]. split; [done|].
    intros (_ & l & Hl). apply Hlogs, elem_of_nil in Hl as [].
  - do 2 eexists. split; [done|]. destruct (GlobalExitRootMap ger) as [v|]; [|split; [by right | split; [done | by intros [? _]]]].
    destruct (v =? 0) eqn:Ev; bool_hyps.
    + split; [by left|]. split; [|done]. intros _. split; [by subst|]. exists l. apply Hlogs. by left.
    + split; [by right|]. split; [done|]. intros [[= ->] _]. done.
Qed.

(** Without fuel left in some chunk. *)
Fixpoint ran_out (e : gerError) : bool :=
  match e with ErrFuel => true | ErrChunkOf _ _ e => ran_out e | _ => false end.

(** A node that refuses a range although it has no more blocks than the limit it names sends the scan into a
    recursion without end: at every depth the range is asked for again. *)
Theorem refused_chunk_never_ends fuel steps gers from to m s :
  0 <= from <= to -> to - from < m -> to + m < pow2_64 ->
  FilterUpdateRemovalHashChainValue from (Some to) gers = Err (ErrRPC (Some m)) ->
  exists s' e, fetchRemovedGERsChunk fuel steps gers from to s = (s', Err e) /\ ran_out e = true.
Proof.
  intros Hf Hl Hm Hrefuse. revert s. induction fuel as [|fuel IH]; intros s; cbn [fetchRemovedGERsChunk];
    unfold filterRemovedGERs at 1; rewrite Hrefuse; cbn [rbind err_maxRange]; rewrite (sbind_run _ _ s m tt) by done; [by do 2 eexists|].
  unfold chunkedScanQuery. rewrite (proj2 (Z.eqb_neq m 0)) by lia. destruct steps as [|steps']; cbn [chunkedScan]; [by do 2 eexists|].
  rewrite (proj2 (Z.leb_le from to)) by lia. rewrite add64_small, sub64_small by (unfold_words; lia).
  replace (Z.min (from + m - 1) to) with to by lia. destruct (IH m) as (s' & e & E & Hr).
  exists s', (ErrChunkOf from to e). split; [|done]. unfold sbind. by rewrite E.
Qed.

End Node.

(** ** The download *)

Section Download.
Context (chunk maxRetry : Z) (topics : list Z) (fuel : nat) (append : Log -> list GEREvent) (truth : list Log) (hdr : Z -> EVMBlockHeader).

(** What an iteration meets: the context lives, the head is not behind the next block, and the events are
    those [GetEventsByBlockRange] computes from the answers of the node. *)
Definition iteration_meets (M : Z) (e : downloadEnv (E := GEREvent)) (n : requestNode) : Prop :=
  env_done e = false /\ (forall lb, lb <= env_WaitForNewBlocks e lb) /\ node_ok maxRetry fuel truth hdr M n /\
  env_GetEventsByBlockRange e = nodeEvents maxRetry topics fuel append n.

(** C33. The downloader of a sovereign chain that is not stopped, over a node whose head is never behind what was
    processed, whose logs are those of the chain when it answers, whose headers may disagree with them, and which
    may refuse any call as long as every request ends before its retries run out: it reports exactly the blocks of
    the chain from its first block to where it has got, in order, once each, but for the ranges of the requests
    that were given up (canceled, a single block refused as having too many logs, or a hash that disagreed at all
    six attempts), and every iteration moves on by at least one block and at most a chunk. *)
Theorem sovereign_download_complete envs nodes from :
  let M := from + (Z.of_nat (length envs) + 1) * chunk in
  1 <= chunk -> 0 <= from -> 2 * M + 1 < MaxUint64 -> truth_ok truth hdr -> Forall2 (iteration_meets M) envs nodes ->
  exists next lost,
    sovereignLoop chunk envs from = (not_lost lost (blocks_between from (next - 1) (chainBlocks topics append truth hdr)), Some next) /\
    from + Z.of_nat (length envs) <= next <= from + Z.of_nat (length envs) * chunk /\
    (forall f t, (f, t) ∈ lost -> from <= f /\ t < next /\ exists n, n ∈ nodes /\ gave_up truth n f t).
Proof.
  intros M Hc Hf Hover Ht Henv. assert (Hpos : from + (Z.of_nat (length envs) + 1) * chunk <= M) by (unfold M; lia).
  clearbody M. set (chain := chainBlocks topics append truth hdr). assert (Hch : chain_ok chain) by (by apply chainBlocks_sorted).
  revert from Hf Hpos. induction Henv as [|e n envs nodes (Hd & Hw & Hn & Hev) Henv IH]; intros from Hf Hpos.
  { exists from, []. cbn. rewrite between_empty by lia. split_and!; [done | lia | lia |]. by intros f t H%elem_of_nil. }
  cbn [sovereignLoop length] in *. unfold sovereignIteration. rewrite Hd. specialize (Hw from). rewrite Nat2Z.inj_succ in Hpos |- *.
  assert (Hlen : 0 <= Z.of_nat (length envs) * chunk) by nia. rewrite (add64_small from), sub64_small by (unfold_words; lia).
  set (to := Z.min (from + chunk - 1) (env_WaitForNewBlocks e from)). rewrite (add64_small to) by (unfold_words; lia).
  destruct (IH (to + 1)) as (next & lost & E & Hnx & Hl); [lia | lia |]. rewrite E, Hev.
  assert (Hlost : forall f t, (f, t) ∈ lost -> to + 1 <= f) by (intros f t Hx; by apply (Hl f t)).
  assert (Hlift : forall f t, (f, t) ∈ lost -> from <= f /\ t < next /\ exists n', n' ∈ n :: nodes /\ gave_up truth n' f t).
  { intros f t Hx. destruct (Hl f t Hx) as (? & ? & m & Hm & ?). split_and!; [lia | done|]. exists m. split; [by right | done]. }
  destruct (nodeEvents_cases maxRetry topics fuel append truth hdr M n from to Hn Ht) as [Eb|[Eb Hg]]; [lia | lia | lia | |]; rewrite Eb.
  - exists next, lost. split_and!; [|lia|lia|done]. change lost with ([] ++ lost) at 2.
    rewrite (not_lost_split chain [] lost from (to + 1) next); [|done|lia| |done].
    + rewrite not_lost_nil. by replace (to + 1 - 1) with to by lia.
    + by intros f t Hx%elem_of_nil.
  - exists next, ((from, to) :: lost). split_and!; [|lia|lia|].
    + change ((from, to) :: lost) with ([(from, to)] ++ lost). rewrite (not_lost_split chain [(from, to)] lost from (to + 1) next); [|done|lia| |done].
      * replace (to + 1 - 1) with to by lia. by rewrite not_lost_all.
      * intros f t [= -> ->]%list_elem_of_singleton. lia.
    + intros f t [[= -> ->]|Hx]%elem_of_cons; [|by apply Hlift]. split_and!; [lia | lia|]. exists n. split; [by left | done].
Qed.

End Download.

(** ** The reader of the contract *)

(** A node with a limit on ranges over the logs of a chain up to [top]. *)
Definition node (cap top : Z) (inserted removed : list GERLog) (held : Z -> option Z) : L2GERManager := {|
  FilterUpdateHashChainValue := fun from to =>
    let to := default top to in
    if cap <=? to - from then Err (ErrRPC (Some cap)) else Ok (mkIterator (between gl_BlockNumber from to inserted) None);
  FilterUpdateRemovalHashChainValue := fun from to gers =>
    let to := default top to in
    if cap <=? to - from then Err (ErrRPC (Some cap)) else Ok (mkIterator (removal_logs removed gers from to) None);
  GlobalExitRootMap := held
|}.

Lemma node_serves cap top inserted removed held :
  0 < cap -> StronglySorted (fun a b => gl_BlockNumber a <= gl_BlockNumber b) removed ->
  serves_removals (Gm := node cap top inserted removed held) cap removed.
Proof.
  intros Hc Hs. split; [done | done | |]; intros from to gers H; cbn.
  - by rewrite (proj2 (Z.leb_gt _ _)) by lia.
  - by rewrite (proj2 (Z.leb_le _ _)) by lia.
Qed.

Section Reader.
Context (infoOf : Z -> result gerError L1InfoLeaf).

Definition removed_in (removals : list RemovedGER) (ger : Z) : bool := existsb (fun r => rm_GlobalExitRoot r =? ger) removals.

Definition index_of (ger : Z) : Z := match infoOf ger with Ok leaf => il_L1InfoTreeIndex leaf | Err _ => 0 end.

(** The entry of a logged insertion. *)
Definition entry_of_log (removals : list RemovedGER) (l : GERLog) : GlobalExitRootInfo :=
  let ger := gl_GlobalExitRoot l in
  mkGERInfo ger (if removed_in removals ger then 0 else index_of ger) (gl_BlockNumber l) (gl_Index l) None (removed_in removals ger) 0.

Definition last_of (ger : Z) (logs : list GERLog) : option GERLog := last (bfilter (fun l => gl_GlobalExitRoot l =? ger) logs).

Lemma injected_entries removals logs m0 :
  (forall l, l ∈ logs -> removed_in removals (gl_GlobalExitRoot l) = true \/ is_ok (infoOf (gl_GlobalExitRoot l)) = true) ->
  exists m, rfold (injectedGER infoOf removals) logs m0 = Ok m /\
    forall ger, m !! ger = match last_of ger logs with Some l => Some (entry_of_log removals l) | None => m0 !! ger end.
Proof.
  revert m0. induction logs as [|l logs IH]; intros m0 Hk; [by exists m0|]. cbn [rfold].
  assert (E : injectedGER infoOf removals m0 l = Ok (<[gl_GlobalExitRoot l := entry_of_log removals l]> m0)).
  { unfold injectedGER, entry_of_log, index_of. fold (removed_in removals (gl_GlobalExitRoot l)).
    destruct (Hk l (list_elem_of_here _ _)) as [H|H]; [by rewrite H|]. destruct (removed_in _ _); [done|].
    by destruct (infoOf (gl_GlobalExitRoot l)). }
  rewrite E. cbn [rbind]. destruct (IH (<[gl_GlobalExitRoot l := entry_of_log removals l]> m0)) as (m & Hm & Hl).
  { intros x Hx. apply Hk. by right. }
  exists m. split; [done|]. intros ger. rewrite Hl. unfold last_of. cbn [bfilter].
  destruct (gl_GlobalExitRoot l =? ger) eqn:Eg; bool_hyps.
  - rewrite last_cons. destruct (last _); [done|]. subst ger. by rewrite lookup_insert_eq.
  - destruct (last _); [done|]. by rewrite lookup_insert_ne.
Qed.

(** Asked for a range the node serves at once, the reader reports for every root the last insertion of the range,
    marked as removed when a removal of the root lies in the range, and needs the index of the others only. *)
Theorem reader_reports_range cap top inserted removed held fuel from to :
  from <= to -> to - from < cap ->
  (forall l, l ∈ between gl_BlockNumber from to inserted ->
     removed_in (map removedGER_of (removal_logs removed [] from to)) (gl_GlobalExitRoot l) = true \/
     is_ok (infoOf (gl_GlobalExitRoot l)) = true) ->
  exists m, GetInjectedGERsForRange (Gm := node cap top inserted removed held) infoOf fuel from to = Ok m /\
    forall ger, m !! ger =
      entry_of_log (map removedGER_of (removal_logs removed [] from to)) <$> last_of ger (between gl_BlockNumber from to inserted).
Proof.
  intros Hft Hc Hk. unfold GetInjectedGERsForRange. rewrite (proj2 (Z.ltb_ge _ _)) by done.
  assert (Er : GetRemovedGERsForRange (Gm := node cap top inserted removed held) fuel from to =
    Ok (map removedGER_of (removal_logs removed [] from to))).
  { unfold GetRemovedGERsForRange, fetchRemovedGERs, filterRemovedGERs. rewrite (proj2 (Z.ltb_ge _ _)) by done.
    cbn. by rewrite (proj2 (Z.leb_gt _ _)) by done. }
  destruct (injected_entries _ _ ∅ Hk) as (m & Hm & Hl). exists m. split.
  - unfold fetchInjectedGERs. rewrite Er. cbn [FilterUpdateHashChainValue node]. change (default top (Some to)) with to. rewrite (proj2 (Z.leb_gt _ _)) by done.
    cbn [rbind it_events it_Error]. by rewrite Hm.
  - intros ger. rewrite Hl, lookup_empty. by destruct (last_of _ _).
Qed.

End Reader.

(** Root 9 is not on L1; it was inserted in block 3 and removed in block 8. *)
Definition example_inserted : list GERLog := [mkGERLog 101 2 0; mkGERLog 9 3 1].
Definition example_removed : list GERLog := [mkGERLog 9 8 0].
Definition example_info (ger : Z) : result gerError L1InfoLeaf :=
  if ger =? 101 then Ok (mkL1InfoLeaf 1 0 7 0 0 0 0 101 0) else Err ErrL1Info.
Definition example_node (cap : Z) : L2GERManager := node cap 20 example_inserted example_removed (fun _ => Some 0).

Lemma reader_reports_range_witness :
  exists m, GetInjectedGERsForRange (Gm := example_node 10) example_info 5 1 9 = Ok m /\
    forall ger, m !! ger =
      entry_of_log example_info (map removedGER_of (removal_logs example_removed [] 1 9)) <$>
      last_of ger (between gl_BlockNumber 1 9 example_inserted).
Proof.
  refine (reader_reports_range example_info 10 20 example_inserted example_removed (fun _ => Some 0) 5 1 9 _ _ _); [lia | lia |].
  intros l Hl. apply elem_of_cons in Hl as [->|Hl]; [by right|]. apply list_elem_of_singleton in Hl as ->. by left.
Defined.

(** The same range on a node that serves five blocks at a time: the removal is in another chunk than the
    insertion, the root counts as injected, and the query fails because L1 does not know it. *)
Example chunking_hides_removal :
  is_ok (GetInjectedGERsForRange (Gm := example_node 10) example_info 5 1 9) = true /\
  GetInjectedGERsForRange (Gm := example_node 5) example_info 5 1 9 = Err (ErrChunkOf 1 5 ErrL1Info).
Proof. split; vm_compute; reflexivity. Qed.

Definition example_header : EVMBlockHeader := mkEVMBlockHeader 3 33 32 1000.

Lemma unknown_root_skipped_iff_removed_witness :
  exists s' r, appendInsert (Gm := example_node 5) example_info 1 20 (Ok 12) example_header (Some 9) 1 0 = (s', r) /\
    match example_info 9 with
    | Ok leaf => r = Ok [mkGEREvent (mkGERInfo 9 (il_L1InfoTreeIndex leaf) 3 1 (Some 1000) false 0) GEREventTypeInsert]
    | Err _ =>
        (r = Ok [] \/ r = Err ErrL1Info) /\
        (r = Ok [] <-> GlobalExitRootMap (L2GERManager := example_node 5) 9 = Some 0 /\
           exists l, l ∈ example_removed /\ gl_GlobalExitRoot l = 9 /\ 3 <= gl_BlockNumber l <= 12)
    end.
Proof.
  refine (unknown_root_skipped_iff_removed (Gm := example_node 5) 5 example_removed example_info 0 20 12 example_header 9 1 0 _ _ _ _ _ _ _).
  - apply node_serves; [lia | repeat constructor].
  - cbn; lia.
  - lia.
  - reflexivity.
  - reflexivity.
  - cbn; lia.
  - right. reflexivity.
Defined.

(** A node that names a limit of five blocks and refuses five. *)
Definition strict_node : L2GERManager := {|
  FilterUpdateHashChainValue := fun _ _ => Err (ErrRPC (Some 5));
  FilterUpdateRemovalHashChainValue := fun from to _ => if 4 <=? default 20 to - from then Err (ErrRPC (Some 5)) else Ok (mkIterator [] None);
  GlobalExitRootMap := fun _ => Some 0
|}.

Lemma refused_chunk_never_ends_witness :
  exists s' e, fetchRemovedGERsChunk (Gm := strict_node) 50 10 [9] 3 7 0 = (s', Err e) /\ ran_out e = true.
Proof. refine (refused_chunk_never_ends (Gm := strict_node) 50 10 [9] 3 7 5 0 _ _ _ _); [lia | lia | reflexivity | reflexivity]. Defined.

(** Blocks 2 and 8 have logs; the head grows by two blocks per wait, and in the second iteration the header of
    block 6 disagrees with the log. *)
Definition example_logs : list Log := [mkLog 2 20 1 false 0; mkLog 6 60 1 false 1; mkLog 8 80 1 false 2].
Definition example_hdrs (b : Z) : EVMBlockHeader := mkEVMBlockHeader b (10 * b) (10 * b - 10) 0.
Definition example_events (l : Log) : list GEREvent := bk_Events (example_insert (100 + lg_Index l) (lg_BlockNumber l)).
Definition example_request (hs : Z -> EVMBlockHeader) : requestNode :=
  mkRequestNode (fun _ => false) (fun _ from to _ => Ok (logs_between from to example_logs)) (fun _ b => [Ok (hs b)]).
Definition example_forked (b : Z) : EVMBlockHeader := if b =? 6 then mkEVMBlockHeader 6 61 50 0 else example_hdrs b.
Definition example_env (n : requestNode) : downloadEnv (E := GEREvent) :=
  mkDownloadEnv false (fun lb => lb + 2) (Some 0) (nodeEvents 3 [1] 60 example_events n) (fun _ => None).

(** The range of the second iteration is lost. *)
Example example_sovereign_loses :
  map eb_Num (fst (sovereignLoop 5 (map example_env [example_request example_hdrs; example_request example_forked;
    example_request example_hdrs]) 1)) = [2; 8].
Proof. vm_compute. reflexivity. Qed.

Lemma example_logs_ok : truth_ok example_logs example_hdrs.
Proof.
  split; [repeat constructor; simpl; lia|]. intros l Hl. repeat (apply elem_of_cons in Hl as [->|Hl]; [done|]). by apply elem_of_nil in Hl.
Qed.

Lemma example_meets hs :
  (forall b, eh_Hash (hs b) = eh_Hash (example_hdrs b) -> hs b = example_hdrs b) ->
  iteration_meets 3 [1] 60 example_events example_logs example_hdrs 21 (example_env (example_request hs)) (example_request hs).
Proof.
  intros Hh. split_and!; [done | cbn [env_WaitForNewBlocks example_env]; lia | | done].
  split; cbn [nd_done nd_FilterLogs nd_HeaderByNumber example_request].
  - intros i from to call logs. by intros [= <-].
  - intros i b h Hin Hhash. apply list_elem_of_singleton in Hin as [= ->]. by apply Hh.
  - intros i f t Hf Ht. set (cl := fun from to (_ : nat) => Ok (logs_between from to example_logs) : result filterError (list Log)).
    assert (Hc : truthful cl example_logs) by (intros ? ? ? ? [= <-]; done).
    pose proof (getUnfilteredLogs_cases cl 3 example_logs 60 f t Hc (to_sorted _ _ example_logs_ok) Hf ltac:(unfold_words; lia)) as H.
    destruct (getUnfilteredLogs cl 3 60 f t) eqn:E; [done | done | |].
    + destruct H as [_ (? & ? & ? & [=])].
    + specialize (H 0%nat ltac:(intros ? ? ? ? [=])). lia.
  - done.
Qed.

Lemma sovereign_download_complete_witness :
  exists next lost,
    sovereignLoop 5 (map example_env [example_request example_hdrs; example_request example_forked; example_request example_hdrs]) 1 =
      (not_lost lost (blocks_between 1 (next - 1) (chainBlocks [1] example_events example_logs example_hdrs)), Some next) /\
    1 + 3 <= next <= 1 + 3 * 5 /\
    (forall f t, (f, t) ∈ lost -> 1 <= f /\ t < next /\ exists n,
       n ∈ [example_request example_hdrs; example_request example_forked; example_request example_hdrs] /\ gave_up example_logs n f t).
Proof.
  assert (H0 : iteration_meets 3 [1] 60 example_events example_logs example_hdrs 21 (example_env (example_request example_hdrs))
    (example_request example_hdrs)) by (by apply example_meets).
  refine (sovereign_download_complete 5 3 [1] 60 example_events example_logs example_hdrs
    (map example_env [example_request example_hdrs; example_request example_forked; example_request example_hdrs])
    [example_request example_hdrs; example_request example_forked; example_request example_hdrs] 1 _ _ _ _ _).
  - lia.
  - lia.
  - by vm_compute.
  - apply example_logs_ok.
  - apply List.Forall2_cons; [exact H0|]. apply List.Forall2_cons; [|apply List.Forall2_cons; [exact H0 | apply List.Forall2_nil]].
    apply example_meets. intros b. unfold example_forked. by destruct (b =? 6) eqn:E; bool_hyps; [subst|].
Defined.

(** ** The polling downloader *)

(** The last element of an enumeration that passes a test. *)
Lemma find_rev_seq {A} (p : A -> bool) (f : nat -> A) n :
  match List.find p (rev (map f (seq 0 n))) with
  | Some x => exists k, (k < n)%nat /\ x = f k /\ p (f k) = true /\ forall j, (k < j < n)%nat -> p (f j) = false
  | None => forall j, (j < n)%nat -> p (f j) = false
  end.
Proof.
  induction n as [|n IH]; [cbn; intros; lia|]. rewrite seq_S, map_app, rev_app_distr. cbn. destruct (p (f n)) eqn:E.
  - exists n. split_and!; [lia | done | done | intros; lia].
  - assert (Hlast : forall j, (j < S n)%nat -> (j < n)%nat \/ j = n) by lia. destruct (List.find _ _) as [x|].
    + destruct IH as (k & Hk & -> & Hp & Hno). exists k. split_and!; [lia | done | done |].
      intros j Hj. destruct (Hlast j ltac:(lia)) as [?| ->]; [apply Hno; lia | done].
    + intros j Hj. destruct (Hlast j Hj) as [?| ->]; [by apply IH | done].
Qed.

Section Legacy.
Context (leaf : Z -> L1InfoLeaf) (held : Z -> Z).

Definition polled (blockNum i : Z) : GlobalExitRootInfo := newGlobalExitRootInfo (il_GlobalExitRoot (leaf i)) i blockNum i.

Lemma leavesFrom_run n fuel blockNum i last :
  last = i + Z.of_nat n - 1 -> 0 <= i -> last < MaxUint64 -> last + 1 < pow2_32 -> (n < fuel)%nat ->
  leavesFrom fuel (fun i => Ok (leaf i)) blockNum i last = Ok (map (fun k => polled blockNum (i + Z.of_nat k)) (seq 0 n)).
Proof.
  revert fuel i. induction n as [|n IH]; intros fuel i Hl Hi Hm Hw Hf; destruct fuel as [|fuel]; [lia| |lia|]; cbn [leavesFrom].
  { by rewrite (proj2 (Z.ltb_lt last i)) by lia. }
  rewrite (proj2 (Z.ltb_ge last i)) by lia. cbn [rbind]. unfold add32. rewrite wrap32_small by (unfold_words; lia).
  rewrite (IH fuel (i + 1)) by lia. cbn [rbind seq map]. rewrite <- seq_shift, map_map, Z.add_0_r. do 2 f_equal.
  apply map_ext. intros k. f_equal. lia.
Qed.

(** A call that succeeds at once. *)
Lemma retried_now {A} maxRetry fuel (call : nat -> result gerError A) a :
  call 0%nat = Ok a -> retried maxRetry (S fuel) call 0 = Ok a.
Proof. cbn. by intros ->. Qed.

Definition is_held (g : GlobalExitRootInfo) : bool := negb (held (gi_GlobalExitRoot g) =? 0).

Lemma latestInjected_run maxRetry fuel (calls : nat -> Z -> result gerError Z) gers :
  (forall ger, calls 0%nat ger = Ok (held ger)) ->
  latestInjected maxRetry (S fuel) calls gers = Ok (List.find is_held gers).
Proof.
  intros Hc. induction gers as [|g gers IH]; [done|]. cbn [latestInjected List.find].
  rewrite (retried_now _ _ _ (held (gi_GlobalExitRoot g))) by apply Hc. cbn [rbind]. fold (is_held g). by destruct (is_held g).
Qed.

(** Of the leaves from the next index on, an iteration of the polling downloader reports the newest one injected
    on L2, with the block at the head, and goes on after it; it reports a block without events when none is. *)
Theorem legacy_reports_newest maxRetry fuel e fromBlock next last header :
  0 <= next -> next <= last + 1 -> last + 1 < pow2_32 -> (Z.to_nat (last - next + 1) < S fuel)%nat ->
  le_done e = false -> le_lastRoot e 0%nat = Ok last -> le_info e 0%nat = (fun i => Ok (leaf i)) ->
  (forall ger, le_map e 0%nat ger = Ok (held ger)) ->
  le_GetBlockHeader e (le_WaitForNewBlocks e fromBlock) = Some header -> eh_Hash header <> 0 ->
  let head := le_WaitForNewBlocks e fromBlock in
  (legacyIteration maxRetry (S fuel) e fromBlock next = ([mkEVMBlock header false []], LegacyContinue head next) /\
   forall i, next <= i <= last -> held (il_GlobalExitRoot (leaf i)) = 0) \/
  exists i, next <= i <= last /\
    legacyIteration maxRetry (S fuel) e fromBlock next =
      ([mkEVMBlock header false [mkGEREvent (polled head i) GEREventTypeInsert]], LegacyContinue head (i + 1)) /\
    held (il_GlobalExitRoot (leaf i)) <> 0 /\ forall j, i < j <= last -> held (il_GlobalExitRoot (leaf j)) = 0.
Proof.
  intros Hn Hnl Hl Hf Hd Hroot Hinfo Hmap Hhead Hhash head. unfold legacyIteration. rewrite Hd.
  set (n := Z.to_nat (last - next + 1)) in *. set (gers := map (fun k => polled head (next + Z.of_nat k)) (seq 0 n)).
  rewrite (retried_now _ _ _ gers).
  2: { rewrite Hroot, Hinfo. cbn [getGERsFromIndex]. apply leavesFrom_run; unfold_words; lia. }
  unfold findLatestInjectedGER. rewrite latestInjected_run by done. fold head in Hhead |- *. rewrite Hhead.
  rewrite (proj2 (Z.eqb_neq (eh_Hash header) 0)), andb_false_r by done. cbn [andb].
  assert (Hidx : forall i, next <= i <= last -> exists k, (k < n)%nat /\ next + Z.of_nat k = i)
    by (intros i Hi; exists (Z.to_nat (i - next)); lia).
  pose proof (find_rev_seq is_held (fun k => polled head (next + Z.of_nat k)) n) as Hfind. fold gers in Hfind.
  destruct (List.find is_held (rev gers)) as [g|].
  - right. destruct Hfind as (k & Hk & -> & Hp & Hno). exists (next + Z.of_nat k). split; [lia|].
    cbn [gi_L1InfoTreeIndex polled newGlobalExitRootInfo]. unfold add32. rewrite wrap32_small by (unfold_words; lia).
    unfold is_held in Hp, Hno. bool_hyps. split_and!; [done | done |]. intros j Hj. destruct (Hidx j) as (m & Hm & <-); [lia|].
    specialize (Hno m ltac:(lia)). by bool_hyps.
  - left. split; [done|]. intros i (k & Hk & <-)%Hidx. specialize (Hfind k Hk). unfold is_held in Hfind. by bool_hyps.
Qed.

End Legacy.

(** Leaves 0 to 2 of L1, the first two injected. *)
Definition example_leaf (i : Z) : L1InfoLeaf := mkL1InfoLeaf 1 i i 0 0 0 0 (101 + i) 0.
Definition example_held (ger : Z) : Z := if ger <? 103 then 1 else 0.
Definition example_legacyEnv (head : Z) : legacyEnv :=
  mkLegacyEnv false (fun _ => head) (fun _ => Ok 2) (fun _ i => Ok (example_leaf i)) (fun _ ger => Ok (example_held ger))
    (fun n => Some (mkEVMBlockHeader n (10 * n) 0 0)).

Lemma legacy_reports_newest_witness :
  let head := 7 in
  (legacyIteration 3 5 (example_legacyEnv 7) 4 0 = ([mkEVMBlock (mkEVMBlockHeader 7 70 0 0) false []], LegacyContinue head 0) /\
   forall i, 0 <= i <= 2 -> example_held (il_GlobalExitRoot (example_leaf i)) = 0) \/
  exists i, 0 <= i <= 2 /\
    legacyIteration 3 5 (example_legacyEnv 7) 4 0 =
      ([mkEVMBlock (mkEVMBlockHeader 7 70 0 0) false [mkGEREvent (polled example_leaf head i) GEREventTypeInsert]], LegacyContinue head (i + 1)) /\
    example_held (il_GlobalExitRoot (example_leaf i)) <> 0 /\
    forall j, i < j <= 2 -> example_held (il_GlobalExitRoot (example_leaf j)) = 0.
Proof.
  refine (legacy_reports_newest example_leaf example_held 3 4 (example_legacyEnv 7) 4 0 2 (mkEVMBlockHeader 7 70 0 0) _ _ _ _ _ _ _ _ _ _);
    try reflexivity; try (cbn; lia).
Defined.

(** The index zero is taken for none: after a restart with only the first root stored, it is reported again, in
    another block, and stored twice. *)
Example legacy_restart_reports_first_again :
  let first := mkLegacyEnv false (fun _ => 8) (fun _ => Ok 0) (fun _ i => Ok (example_leaf i)) (fun _ ger => Ok (example_held ger))
                 (fun n => Some (mkEVMBlockHeader n (10 * n) 0 0)) in
  let db := fst (ProcessBlocks (fun _ => 0) [mkBlock 7 [mkGEREvent (polled example_leaf 7 0) GEREventTypeInsert] 70] (mkGerdb [] [] [])) in
  exists msgs next, legacyDownload 3 5 db [first] 7 = (msgs, next) /\
    map gi_GlobalExitRoot (imported (fst (ProcessBlocks (fun _ => 0) (map block_of msgs) db))) = [101; 101].
Proof. do 2 eexists. split; vm_compute; reflexivity. Qed.
