(* ===== verification/ProverFlow.v ===== *)
(** The flow with validity proofs ([aggsender/flows/builder_flow_aggchain_prover.go],
    [verifier_flow_aggchain_prover.go]) and what it asks: the proof request
    ([aggsender/query/aggchain_proof_query.go], [ger_query.go]), the contract and the op-node behind the public values
    ([agg_proof_public_values_query.go], [agg_proof_fep_inputs_query.go], [aggsender/types/fep_inputs.go]) and the
    optimistic signature ([aggsender/optimistic/]).

    The prover and the nodes are records of functions whose answers do not change during one call.  Proofs are kept in
    the tables as opaque values; [proofData] reads one. *)

From S2P Require Import Prelude Bytes BlockRange Merkle AgglayerTypes CertStorage StatusChecker.
From S2P Require Import Queriers BuildParams Flow AdjustRange Validator Committee Aggsender L2GerSync.

#[global] Instance CertificateType_eq_dec : EqDecision CertificateType.
Proof. solve_decision. Defined.

(** ** Public values *)

(** [crypto/sha256]. *)
Class Sha256 := sha256 : list Z -> Z.

Record AggregationProofPublicValues := mkPublicValues {
  av_L1Head : Z;
  av_L2PreRoot : Z;
  av_ClaimRoot : Z;
  av_L2BlockNumber : Z;
  av_RollupConfigHash : Z;
  av_MultiBlockVKey : Z;
  av_TrustedSigner : Z;
  av_AggregationVKeyHash : Z
}.

(** ABI encoding: every value is one word of 32 bytes. *)
Definition PublicValues_Hash `{Sha256} (v : AggregationProofPublicValues) : Z :=
  sha256 (concat (map (be_bytes HashLength)
    [av_L1Head v; av_L2PreRoot v; av_ClaimRoot v; av_L2BlockNumber v; av_RollupConfigHash v; av_MultiBlockVKey v; av_TrustedSigner v])).

Record AggchainParams := mkAggchainParams { pa_Values : AggregationProofPublicValues; pa_OptimisticMode : bool }.

Definition AggchainParams_bytes (a : AggchainParams) : list Z :=
  let v := pa_Values a in
  concat [Hash_Bytes (av_L2PreRoot v); Hash_Bytes (av_ClaimRoot v); be_bytes HashLength (av_L2BlockNumber v);
          Hash_Bytes (av_RollupConfigHash v); [if pa_OptimisticMode a then 1 else 0];
          be_bytes AddressLength (av_TrustedSigner v); Hash_Bytes (av_MultiBlockVKey v); Hash_Bytes (av_AggregationVKeyHash v)].

Definition AggchainParams_Hash `{Keccak} (a : AggchainParams) : Z := keccak256 (AggchainParams_bytes a).

Record OpSuccinctConfig := mkOpConfig { oc_AggregationVkey : Z; oc_RangeVkeyCommitment : Z; oc_RollupConfigHash : Z }.

(** The contract of the rollup and the op-node. *)
Record FEPContract := mkFEPContract {
  fp_StartingBlockNumber : result flowError Z;
  fp_LatestBlockNumber : result flowError Z;
  fp_SelectedOpSuccinctConfigName : result flowError Z;
  fp_OpSuccinctConfigs : Z -> result flowError OpSuccinctConfig;
  fp_GetAggchainSigners : result flowError (list Z);
  fp_OptimisticMode : result flowError bool;
  fp_OutputAtBlockRoot : Z -> result flowError Z
}.

Definition GetTrustedSignerAddr (c : FEPContract) : result flowError Z :=
  let? signers := fp_GetAggchainSigners c in
  match signers with [] => Err ErrNoSigners | a :: _ => Ok a end.

Definition GetAggregationProofPublicValuesData (c : FEPContract) (proverAddress lastProvenBlock requestedEndBlock l1InfoTreeLeafHash : Z)
  : result flowError AggregationProofPublicValues :=
  let? l2PreRoot := fp_OutputAtBlockRoot c lastProvenBlock in
  let? claimRoot := fp_OutputAtBlockRoot c requestedEndBlock in
  let? configName := fp_SelectedOpSuccinctConfigName c in
  let? opConfig := fp_OpSuccinctConfigs c configName in
  let? trustedSigner := if proverAddress =? 0 then GetTrustedSignerAddr c else Ok proverAddress in
  Ok (mkPublicValues l1InfoTreeLeafHash l2PreRoot claimRoot requestedEndBlock (oc_RollupConfigHash opConfig)
        (oc_RangeVkeyCommitment opConfig) trustedSigner (oc_AggregationVkey opConfig)).

(** The validator does not know the prover: its address is read from the contract. *)
Definition GetAggchainParams (c : FEPContract) (lastProvenBlock requestedEndBlock l1InfoTreeLeafHash : Z) : result flowError AggchainParams :=
  let? publicValues := GetAggregationProofPublicValuesData c 0 lastProvenBlock requestedEndBlock l1InfoTreeLeafHash in
  let? optimistic := fp_OptimisticMode c in
  Ok (mkAggchainParams publicValues optimistic).

(** ** The rollup contract as the base flow sees it *)

Inductive AggchainFEPRollupQuerier := NoOpFEP | FEPRollup (startL2BlockNum : Z) (contract : FEPContract).

(** [pessimistic]: the mode of the aggsender. *)
Definition NewAggchainFEPQuerier (aggchainFEPAddr : Z) (pessimistic : bool) (c : FEPContract) : result flowError AggchainFEPRollupQuerier :=
  if (aggchainFEPAddr =? 0) || pessimistic then Ok NoOpFEP
  else let? startL2Block := fp_StartingBlockNumber c in Ok (FEPRollup (wrap64 startL2Block) c).

Definition FEP_IsFEP (q : AggchainFEPRollupQuerier) : bool := match q with NoOpFEP => false | FEPRollup _ _ => true end.
Definition FEP_StartL2Block (q : AggchainFEPRollupQuerier) : Z := match q with NoOpFEP => 0 | FEPRollup b _ => b end.
Definition FEP_GetLastSettledL2Block (q : AggchainFEPRollupQuerier) : result flowError Z :=
  match q with NoOpFEP => Ok 0 | FEPRollup _ c => let? n := fp_LatestBlockNumber c in Ok (wrap64 n) end.

(** [lerDataQuerier]: the root of the rollup at the genesis block of L1. *)
Definition EmptyLER : Z := 0x27ae5ba08d7291c96c8cbddcc148bf48a6d68c7974b94356f53754ef6171d757.

Definition GetInitialLocalExitRoot (lastLocalExitRootAt : Z -> result flowError Z) (l1GenesisBlock : Z) : result flowError Z :=
  let? ler := lastLocalExitRootAt l1GenesisBlock in
  Ok (if ler =? ZeroHash then EmptyLER else ler).

(** ** Proofs and requests *)

Record SP1StarkProof := mkSP1 { sp_Version : string; sp_Proof : list Z; sp_Vkey : list Z }.

Record AggchainProof := mkAggchainProof {
  ap_LastProvenBlock : Z;
  ap_EndBlock : Z;
  ap_CustomChainData : list Z;
  ap_LocalExitRoot : Z;
  ap_AggchainParams : Z;
  ap_Context : list (string * list Z);
  ap_SP1StarkProof : SP1StarkProof;
  ap_Signature : list Z
}.

Record ImportedBridgeExitWithBlockNumber := mkIBEWithBlock {
  ib_BlockNumber : Z;
  ib_LogIndex : Z;
  ib_ImportedBridgeExit : ImportedBridgeExit
}.

Record ProvenInsertedGERWithBlockNumber := mkProvenGER {
  pg_BlockNumber : Z;
  pg_LogIndex : Z;
  pg_ProofGERToL1Root : MerkleProof;
  pg_L1Leaf : L1InfoTreeLeaf
}.

Record AgglayerUnclaim := mkAgglayerUnclaim { au_GlobalIndex : GlobalIndex; au_BlockNumber : Z; au_LogIndex : Z }.

Record AggchainProofRequest := mkProofRequest {
  rq_LastProvenBlock : Z;
  rq_RequestedEndBlock : Z;
  rq_L1InfoTreeRootHash : Z;
  rq_L1InfoTreeLeaf : L1InfoLeaf;
  rq_L1InfoTreeMerkleProof : MerkleProof;
  rq_GERLeavesWithBlockNumber : gmap Z ProvenInsertedGERWithBlockNumber;
  rq_ImportedBridgeExitsWithBlockNumber : list ImportedBridgeExitWithBlockNumber;
  rq_RemovedGERs : list RemovedGER;
  rq_Unclaims : list AgglayerUnclaim
}.

(** [GetL1InfoRootByLeafIndex], with the one error the flow tells from others. *)
Inductive rootError := RootNotFound | RootQuery.

(** What the flow asks, beyond the interfaces of the base flow. *)
Record ProverQueriers := mkProverQueriers {
  pq_IsOptimisticModeOn : result flowError bool;
  pq_GetL1InfoRootByLeafIndex : Z -> result rootError Root;
  pq_GetFinalizedL1InfoTreeData : Z -> Z -> result flowError (list Z * L1InfoLeaf);
  pq_GetInjectedGERsForRange : Z -> Z -> result flowError (gmap Z GlobalExitRootInfo);
  pq_GetRemovedGERsForRange : Z -> Z -> result flowError (list RemovedGER);
  pq_Sign : AggchainProofRequest -> Z -> list SyncedClaim -> result flowError (list Z * list Z);
  pq_GenerateAggchainProof : AggchainProofRequest -> result flowError Z;
  pq_GenerateOptimisticAggchainProof : AggchainProofRequest -> list Z -> result flowError Z
}.

(** ** The optimistic signature *)

(** A nil index is a nil dereference. *)
Definition CalculateCommitImportedBrdigeExitsHashFromClaims `{Keccak} (claims : list SyncedClaim) : result flowError Z :=
  let? bridges := rmap (fun c => match sc_GlobalIndex c with
    | None => Err ErrPanic
    | Some globalIndex => Ok (BigIntToLittleEndianBytes globalIndex ++ Hash_Bytes (BridgeExit_Hash (Some (ConvertBridgeExitFromClaim c))))
    end) claims in
  Ok (keccak256 (concat bridges)).

Definition OptimisticSignatureData_Hash `{Keccak} (publicValuesHash newLocalExitRoot commitImportedBridgeExits : Z) : Z :=
  Keccak256Hash [Hash_Bytes publicValuesHash; Hash_Bytes newLocalExitRoot; Hash_Bytes commitImportedBridgeExits].

(** The text for the logs is a parameter. *)
Definition OptimisticSign `{Keccak} `{Sha256} (c : FEPContract) (signerAddress : Z) (signHash : Z -> result flowError (list Z))
    (describe : AggregationProofPublicValues -> Z -> list Z)
    (req : AggchainProofRequest) (newLocalExitRoot : Z) (claims : list SyncedClaim) : result flowError (list Z * list Z) :=
  let? values := GetAggregationProofPublicValuesData c signerAddress (rq_LastProvenBlock req) (rq_RequestedEndBlock req)
                   (il_PreviousBlockHash (rq_L1InfoTreeLeaf req)) in
  let? importedBridgesHash := CalculateCommitImportedBrdigeExitsHashFromClaims claims in
  let hashToSign := OptimisticSignatureData_Hash (PublicValues_Hash values) newLocalExitRoot importedBridgesHash in
  let? signData := signHash hashToSign in
  Ok (signData, describe values hashToSign).

Definition validateSignerAgainstContract (c : FEPContract) (signerAddr : Z) (requireKeyMatch : bool) : result flowError Z :=
  match GetTrustedSignerAddr c with
  | Err e => if requireKeyMatch then Err e else Ok 0
  | Ok trusted => if negb (signerAddr =? trusted) && requireKeyMatch then Err ErrSignerMismatch else Ok trusted
  end.

(** ** Exit roots injected into L2 ([ger_query.go]) *)

Section GERQuery.
Context `{Lq : L1InfoTreeDataQuerier} (q : ProverQueriers).

(** The leaf that stands for a root that was removed. *)
Definition dummyLeaf (ger : Z) : L1InfoLeaf := mkL1InfoLeaf 0 0 (pow2_32 - 1) 0 0 0 0 ger 0.

Definition provenGER (root ger : Z) (injected : GlobalExitRootInfo) : result flowError ProvenInsertedGERWithBlockNumber :=
  let? (info, proof) := if gi_Removed injected then Ok (dummyLeaf ger, repeat 0 32) else GetProofForGER ger root in
  Ok (mkProvenGER (gi_BlockNum injected) (gi_BlockPosition injected) (mkMerkleProof root proof)
        (mkL1InfoTreeLeaf (il_L1InfoTreeIndex info) (il_RollupExitRoot info) (il_MainnetExitRoot info)
           (Some (mkInner (il_GlobalExitRoot info) (il_PreviousBlockHash info) (il_Timestamp info))))).

Definition GetInjectedGERsProofs (root fromBlock toBlock : Z) : result flowError (gmap Z ProvenInsertedGERWithBlockNumber) :=
  let? injectedGERs := pq_GetInjectedGERsForRange q fromBlock toBlock in
  rfold (fun proofs e => let? p := provenGER root (fst e) (snd e) in Ok (<[fst e := p]> proofs)) (map_to_list injectedGERs) ∅.

End GERQuery.

(** ** The proof query *)

Section ProofQuery.
Context `{Kc : Keccak} `{Bq : BridgeQuerier} `{Lq : L1InfoTreeDataQuerier} `{Cq : CertificateQuerier}.
Context (f : baseFlow) (q : ProverQueriers).

Definition getImportedBridgeExitsForProver (claims : list SyncedClaim) : result flowError (list ImportedBridgeExitWithBlockNumber) :=
  rmap (fun c => let? ibe := ConvertToImportedBridgeExitWithoutClaimData c in Ok (mkIBEWithBlock (sc_BlockNum c) (sc_BlockPos c) ibe)) claims.

(** Decoding a nil index is a nil dereference. *)
Definition convertUnclaimsToAgglayerUnclaims (unclaims : list Unclaim) : result flowError (list AgglayerUnclaim) :=
  rmap (fun u => match uc_GlobalIndex u ≫= DecodeGlobalIndex with
    | None => Err ErrPanic
    | Some (mainnetFlag, rollupIndex, leafIndex) =>
        Ok (mkAgglayerUnclaim (mkGlobalIndex mainnetFlag rollupIndex leafIndex) (uc_BlockNumber u) (uc_LogIndex u))
    end) unclaims.

Definition set_ExtraData (p : CertificateBuildParams) (extraData : list Z) : CertificateBuildParams :=
  mkBuildParams (bp_FromBlock p) (bp_ToBlock p) (bp_Bridges p) (bp_Claims p) (bp_Unclaims p) (bp_CreatedAt p) (bp_RetryCount p)
    (bp_LastSentCertificate p) (bp_L1InfoTreeRootFromWhichToProve p) (bp_L1InfoTreeLeafCount p) (bp_AggchainProof p)
    (bp_CertificateType p) extraData.

Definition set_AggchainProof (p : CertificateBuildParams) (proof : Z) : CertificateBuildParams :=
  mkBuildParams (bp_FromBlock p) (bp_ToBlock p) (bp_Bridges p) (bp_Claims p) (bp_Unclaims p) (bp_CreatedAt p) (bp_RetryCount p)
    (bp_LastSentCertificate p) (bp_L1InfoTreeRootFromWhichToProve p) (bp_L1InfoTreeLeafCount p) (Some proof)
    (bp_CertificateType p) (bp_ExtraData p).

(** The parameters are mutated: the text of the signature goes with them. *)
Definition generateOptimisticAggchainProof (s : Storage) (p : CertificateBuildParams) (request : AggchainProofRequest)
  : result flowError (Z * CertificateBuildParams) :=
  let? newLER := GetNewLocalExitRoot f s p in
  let? (sign, extraData) := pq_Sign q request newLER (bp_Claims p) in
  let? proof := pq_GenerateOptimisticAggchainProof q request sign in
  Ok (proof, set_ExtraData p extraData).

Definition proofRequest (lastProvenBlock toBlock : Z) (p : CertificateBuildParams) : result flowError AggchainProofRequest :=
  let root := bp_L1InfoTreeRootFromWhichToProve p in
  let? (proof, leaf) := pq_GetFinalizedL1InfoTreeData q root (bp_L1InfoTreeLeafCount p) in
  let fromBlock := lastProvenBlock +u64 1 in
  let? injectedGERsProofs := GetInjectedGERsProofs q root fromBlock toBlock in
  let? importedBridgeExits := getImportedBridgeExitsForProver (bp_Claims p) in
  let? removedGERs := pq_GetRemovedGERsForRange q fromBlock toBlock in
  let? unclaims := convertUnclaimsToAgglayerUnclaims (bp_Unclaims p) in
  Ok (mkProofRequest lastProvenBlock toBlock root leaf (mkMerkleProof root proof) injectedGERsProofs importedBridgeExits removedGERs unclaims).

Definition GenerateAggchainProof (s : Storage) (lastProvenBlock toBlock : Z) (p : CertificateBuildParams)
  : result flowError (Z * CertificateBuildParams) :=
  let? request := proofRequest lastProvenBlock toBlock p in
  if bool_decide (bp_CertificateType p = CertificateTypeOptimistic) then generateOptimisticAggchainProof s p request
  else let? proof := pq_GenerateAggchainProof q request in Ok (proof, p).

End ProofQuery.

(** ** The flow *)

Record AggchainProverBuilderFlow := mkProverFlow {
  av_baseFlow : baseFlow;
  av_maxL2BlockNumber : Z;
  av_maxL2BlockRange : Z
}.

Section ProverFlow.
Context `{Kc : Keccak} `{Bq : BridgeQuerier} `{Lq : L1InfoTreeDataQuerier} `{Cq : CertificateQuerier}.
Context (a : AggchainProverBuilderFlow) (q : ProverQueriers) (proofData : Z -> AggchainProof).

(** [None]: the syncers did not catch up within the ticks given. *)
Definition Prover_CheckInitialStatus (s : Storage) (polls : list bridgeDataQuerier) : option (result flowError unit) :=
  let?? lastSent := Some (lift_db (GetLastSentCertificateHeader s)) in
  let startL2Block := StartL2Block (av_baseFlow a) in
  let?? _ := WaitForSyncerToCatchUp polls startL2Block in
  Some (VerifyBlockRangeGaps (av_baseFlow a) lastSent startL2Block startL2Block).

Definition getCertificateTypeToGenerate : result flowError CertificateType :=
  let? optimistic := pq_IsOptimisticModeOn q in
  Ok (if optimistic : bool then CertificateTypeOptimistic else CertificateTypeFEP).

Definition proverAdjustmentOptions (validateRootToProve : bool) : BlockRangeAdjustmentOptions :=
  mkOptions (av_maxL2BlockNumber a) (av_maxL2BlockRange a) false false validateRootToProve validateRootToProve.

Definition Prover_GenerateBuildParams (fuel : nat) (preParams : option CertificatePreBuildParams)
  : option (result flowError CertificateBuildParams) :=
  match preParams with
  | None => Some (Err ErrBuildParamsIsNil)
  | Some preParams =>
      let?? params := Some (GenerateBuildParams preParams) in
      let?? params := AdjustBlockRange (av_baseFlow a) fuel (Some params) (proverAdjustmentOptions true) in
      let?? _ := Some (VerifyBuildParams params) in
      Some (Ok params)
  end.

Definition getLastProvenBlock (fromBlock : Z) (lastCertificate : option CertificateHeader) : Z :=
  let start := StartL2Block (av_baseFlow a) in
  if fromBlock =? 0 then start
  else if match lastCertificate with Some c => ch_ToBlock c <? start | None => false end then start
  else if (fromBlock -u64 1) <? start then start
  else fromBlock -u64 1.

Definition checkBlockRangeAdjustmentAfterProof (fuel : nat) (p : CertificateBuildParams) : option (result flowError unit) :=
  let?? adjusted := AdjustBlockRange (av_baseFlow a) fuel (Some p) (proverAdjustmentOptions false) in
  if negb (bp_FromBlock adjusted =? bp_FromBlock p) || negb (bp_ToBlock adjusted =? bp_ToBlock p)
  then Some (Err ErrAdjustedAfterProof) else Some (Ok tt).

(** [Ok None]: no proof yet. *)
Definition verifyBuildParamsAndGenerateProof (fuel : nat) (s : Storage) (p : CertificateBuildParams)
  : option (result flowError (option CertificateBuildParams)) :=
  let?? _ := Some (VerifyBuildParams p) in
  let lastProvenBlock := getLastProvenBlock (bp_FromBlock p) (bp_LastSentCertificate p) in
  match GenerateAggchainProof (av_baseFlow a) q s lastProvenBlock (bp_ToBlock p) p with
  | Err ErrNoProofBuiltYet => Some (Ok None)
  | Err e => Some (Err e)
  | Ok (proof, p) =>
      let?? p := Some (cloneCertificateBuildParamsWithRange (set_AggchainProof p proof) (bp_FromBlock p) (ap_EndBlock (proofData proof))) in
      let?? _ := checkBlockRangeAdjustmentAfterProof fuel p in
      Some (Ok (Some p))
  end.

Definition isInErrorCertL1InfoRootValid (c : CertificateHeader) : result flowError bool :=
  match ch_FinalizedL1InfoTreeRoot c with
  | None => Ok true
  | Some root =>
      if ch_L1InfoTreeLeafCount c =? 0 then Ok true
      else match pq_GetL1InfoRootByLeafIndex q (ch_L1InfoTreeLeafCount c -u32 1) with
           | Err RootNotFound => Ok false
           | Err RootQuery => Err ErrQuery
           | Ok current => Ok (rt_Hash current =? root)
           end
  end.

Definition canReuseRetryProof (p : CertificateBuildParams) (c : CertificateHeader) (proof : option Z) (rangeChanged : bool) : bool :=
  match proof with
  | None => false
  | Some proof =>
      negb rangeChanged && (ap_LastProvenBlock (proofData proof) =? getLastProvenBlock (bp_FromBlock p) (Some c)) &&
      (ap_EndBlock (proofData proof) =? bp_ToBlock p)
  end.

(** The certificate in error again, with the root it was built on. *)
Definition buildRetrySameCertificateParams (fuel : nat) (s : Storage) (c : CertificateHeader) (proof : option Z) (typeCert : CertificateType)
  : option (result flowError (option CertificateBuildParams)) :=
  let?? (bridges, claims) := Some (GetBridgesAndClaims (ch_FromBlock c) (ch_ToBlock c)) in
  let?? unclaims := Some (GetUnsetClaimsForBlockRange (ch_FromBlock c) (ch_ToBlock c)) in
  match ch_FinalizedL1InfoTreeRoot c with
  | None => Some (Err ErrPanic)
  | Some root =>
      let p := mkBuildParams (ch_FromBlock c) (ch_ToBlock c) bridges claims unclaims (ch_CreatedAt c) (ch_RetryCount c + 1) (Some c)
                 root (ch_L1InfoTreeLeafCount c) None typeCert [] in
      let?? p := AdjustBlockRange (av_baseFlow a) fuel (Some p) (proverAdjustmentOptions false) in
      let rangeChanged := negb (bp_FromBlock p =? ch_FromBlock c) || negb (bp_ToBlock p =? ch_ToBlock c) in
      match proof with
      | Some pr =>
          if canReuseRetryProof p c proof rangeChanged then Some (Ok (Some (set_AggchainProof p pr)))
          else verifyBuildParamsAndGenerateProof fuel s p
      | None => verifyBuildParamsAndGenerateProof fuel s p
      end
  end.

(** A certificate from scratch. *)
Definition buildNewCertificateParams (fuel : nat) (s : Storage) (now : Z) (lastSent : option CertificateHeader) (typeCert : CertificateType)
  : option (result flowError (option CertificateBuildParams)) :=
  match GetCertificateBuildParamsInternal (av_baseFlow a) s now typeCert with
  | Err ErrNoNewBlocks => Some (Ok None)
  | Err e => Some (Err e)
  | Ok p =>
      let?? p := AdjustBlockRange (av_baseFlow a) fuel (Some p) (proverAdjustmentOptions false) in
      let lastProvenBlock := getLastProvenBlock (bp_FromBlock p) lastSent in
      let?? p := Some (if negb (bp_FromBlock p =? lastProvenBlock +u64 1)
                       then cloneCertificateBuildParamsWithRange p (lastProvenBlock +u64 1) (bp_ToBlock p) else Ok p) in
      verifyBuildParamsAndGenerateProof fuel s p
  end.

Definition Prover_GetCertificateBuildParams (fuel : nat) (s : Storage) (now : Z)
  : option (result flowError (option CertificateBuildParams)) :=
  let?? last := Some (lift_db (GetLastSentCertificateHeaderWithProofIfInError s)) in
  let?? typeCert := Some getCertificateTypeToGenerate in
  match last with
  | Some (c, proof) =>
      if IsInError (ch_Status c) && bool_decide (ch_CertType c = typeCert) then
        let?? rootValid := Some (isInErrorCertL1InfoRootValid c) in
        if rootValid : bool then buildRetrySameCertificateParams fuel s c proof typeCert
        else buildNewCertificateParams fuel s now (Some c) typeCert
      else buildNewCertificateParams fuel s now (Some c) typeCert
  | None => buildNewCertificateParams fuel s now None typeCert
  end.

Definition proofToData (p : AggchainProof) : AggchainProofData :=
  mkAggchainProofData (sp_Proof (ap_SP1StarkProof p)) (sp_Version (ap_SP1StarkProof p)) (sp_Vkey (ap_SP1StarkProof p))
    (ap_AggchainParams p) (ap_Context p) [].

(** The custom chain data of the proof travels outside of what is modelled of a certificate. *)
Definition Prover_BuildCertificate (s : Storage) (p : CertificateBuildParams) : result flowError FullCertificate :=
  let? cert := BuildCertificate (av_baseFlow a) s p (bp_LastSentCertificate p) true in
  Ok (mkFullCertificate cert (match bp_AggchainProof p with
    | Some proof => AggchainDataProof (proofToData (proofData proof))
    | None => AggchainDataNil
    end)).

Definition Prover_UpdateAggchainData (cert : FullCertificate) (multisig : option Multisig) : result flowError FullCertificate :=
  match multisig with
  | None => Ok cert
  | Some _ =>
      match fl_AggchainData cert with
      | AggchainDataProof data => Ok (mkFullCertificate (fl_cert cert) (AggchainDataMultisigWithProof multisig (Some data)))
      | AggchainDataMultisigWithProof _ data => Ok (mkFullCertificate (fl_cert cert) (AggchainDataMultisigWithProof multisig data))
      | _ => Err ErrAggchainData
      end
  end.

Definition proverBuilderFlow (fuel : nat) (initial : result flowError unit) (signer : Signer) : AggsenderBuilderFlow := {|
  fw_CheckInitialStatus := initial;
  fw_GetCertificateBuildParams := Prover_GetCertificateBuildParams fuel;
  fw_BuildCertificate := Prover_BuildCertificate;
  fw_UpdateAggchainData := Prover_UpdateAggchainData;
  fw_Signer := signer
|}.

(** ** Verification *)

Definition Prover_VerifyCertificate (getInfoByIndex : Z -> result flowError L1InfoLeaf) (contract : FEPContract)
    (cert : FullCertificate) (lastBlockInCert lastSettledBlock : Z) : result flowError unit :=
  let? data := match fl_AggchainData cert with
    | AggchainDataProof data => Ok data
    | AggchainDataMultisigWithProof _ (Some data) => Ok data
    | AggchainDataMultisigWithProof _ None => Err ErrPanic
    | _ => Err ErrAggchainData
    end in
  let? l1InfoLeaf := getInfoByIndex (ct_L1InfoTreeLeafCount (fl_cert cert) -u32 1) in
  let? expected := GetAggchainParams contract lastSettledBlock lastBlockInCert (il_Hash l1InfoLeaf) in
  if ad_AggchainParams data =? AggchainParams_Hash expected then Ok tt else Err ErrAggchainParams.

(** The flow of a validator, for a certificate that carries [data]. *)
Definition proverVerifierFlow (fuel : nat) (s : Storage) (getInfoByIndex : Z -> result flowError L1InfoLeaf) (contract : FEPContract)
    (data : AggchainData) : AggsenderVerifierFlow := {|
  vf_GenerateBuildParams := Prover_GenerateBuildParams fuel;
  vf_BuildCertificate := fun p => let? c := Prover_BuildCertificate s p in Ok (fl_cert c);
  vf_VerifyCertificate := fun cert => Prover_VerifyCertificate getInfoByIndex contract (mkFullCertificate cert data)
|}.

End ProverFlow.
