(* ===== verification/ProverProofs.v ===== *)
(** What the flow with validity proofs guarantees: it meets the laws the service relies on, the certificate ends where
    the proof ends, a proof is used again only for the range it was made for, and the parameters a validator accepts
    determine what was proved. *)

From S2P Require Import Prelude Bytes BlockRange Merkle AgglayerTypes CertStorage StatusChecker.
From S2P Require Import Queriers BuildParams Flow AdjustRange Validator Committee Aggsender AggsenderProofs L2GerSync ProverFlow.

Lemma lastSent_agree s last :
  GetLastSentCertificateHeaderWithProofIfInError s = Ok last -> GetLastSentCertificateHeader s = Ok (fst <$> last).
Proof.
  unfold GetLastSentCertificateHeaderWithProofIfInError, GetLastSentCertificateHeader. intros H. inv_ok H as row Hr.
  destruct row as [c|]; [|by injection H as <-]. destruct (IsInError _); [|by injection H as <-].
  destruct (cert_info s !! ci_Height c); [|done]. by injection H as <-.
Qed.

(** A slice is part of what it was cut from; what is not cut stays. *)
Lemma clone_range p f t r :
  cloneCertificateBuildParamsWithRange p f t = Ok r ->
  bp_FromBlock r = f /\ bp_ToBlock r = t /\ f <= t /\ bp_FromBlock p <= f /\ t <= bp_ToBlock p /\
  bp_AggchainProof r = bp_AggchainProof p /\
  bp_L1InfoTreeRootFromWhichToProve r = bp_L1InfoTreeRootFromWhichToProve p /\
  bp_LastSentCertificate r = bp_LastSentCertificate p /\ bp_RetryCount r = bp_RetryCount p.
Proof.
  unfold cloneCertificateBuildParamsWithRange. destruct (_ || _) eqn:E1; [done|]. destruct (t <? f) eqn:E2; [done|].
  bool_hyps. destruct (_ && _) eqn:E3; intros [= <-]; bool_hyps; repeat split; simpl; lia.
Qed.

Section Prover.
Context `{Kc : Keccak} `{Bq : BridgeQuerier} `{Lq : L1InfoTreeDataQuerier} `{Cq : CertificateQuerier}.
Context (a : AggchainProverBuilderFlow) (q : ProverQueriers) (proofData : Z -> AggchainProof).

(** [proof] is the answer of the prover to a request for the blocks after [lastProven] up to [upTo]. *)
Definition prover_answered (lastProven upTo root : Z) (proof : Z) : Prop :=
  exists request,
    rq_LastProvenBlock request = lastProven /\ rq_RequestedEndBlock request = upTo /\ rq_L1InfoTreeRootHash request = root /\
    (pq_GenerateAggchainProof q request = Ok proof \/ exists sign, pq_GenerateOptimisticAggchainProof q request sign = Ok proof).

Lemma proofRequest_fields last upTo p request :
  proofRequest q last upTo p = Ok request ->
  rq_LastProvenBlock request = last /\ rq_RequestedEndBlock request = upTo /\
  rq_L1InfoTreeRootHash request = bp_L1InfoTreeRootFromWhichToProve p.
Proof.
  unfold proofRequest. intros H. inv_ok H as [pr leaf] H1. inv_ok H as gers H2. inv_ok H as ibes H3. inv_ok H as rem H4.
  inv_ok H as uncl H5. by injection H as <-.
Qed.

Lemma GenerateAggchainProof_answer s last upTo p proof p' :
  GenerateAggchainProof (av_baseFlow a) q s last upTo p = Ok (proof, p') ->
  prover_answered last upTo (bp_L1InfoTreeRootFromWhichToProve p) proof /\ exists extra, p' = set_ExtraData p extra.
Proof.
  unfold GenerateAggchainProof. intros H. inv_ok H as request Hr. apply proofRequest_fields in Hr as (H1 & H2 & H3).
  destruct (bool_decide _).
  - unfold generateOptimisticAggchainProof in H. inv_ok H as ler Hl. inv_ok H as [sign extra] Hs. inv_ok H as pr Hp.
    injection H as <- <-. split; [|by eexists]. exists request. repeat split; try done. right. by exists sign.
  - inv_ok H as pr Hp. injection H as <- <-. split; [|exists (bp_ExtraData p); by destruct p].
    exists request. repeat split; try done. by left.
Qed.

(** The result of asking the prover. *)
Lemma verifyBuildParams_result fuel s p r :
  verifyBuildParamsAndGenerateProof a q proofData fuel s p = Some (Ok (Some r)) ->
  VerifyBuildParams p = Ok tt /\ same_origin p r /\
  bp_FromBlock r <= bp_ToBlock r <= bp_ToBlock p /\
  checkBlockRangeAdjustmentAfterProof a fuel r = Some (Ok tt) /\
  exists proof, bp_AggchainProof r = Some proof /\ ap_EndBlock (proofData proof) = bp_ToBlock r /\
    prover_answered (getLastProvenBlock a (bp_FromBlock p) (bp_LastSentCertificate p)) (bp_ToBlock p)
      (bp_L1InfoTreeRootFromWhichToProve r) proof.
Proof.
  unfold verifyBuildParamsAndGenerateProof. intros H. apply obind_Ok in H as ([] & Hv & H). injection Hv as Hv.
  destruct (GenerateAggchainProof _ _ _ _ _ _) as [[proof p']|[]] eqn:Eg; try done.
  apply GenerateAggchainProof_answer in Eg as [Hans [extra ->]].
  apply obind_Ok in H as (r' & Hc & H). injection Hc as Hc. apply obind_Ok in H as ([] & Hadj & H). injection H as <-.
  pose proof (clone_origin _ _ _ Hc) as Ho.
  apply clone_range in Hc as (E1 & E2 & Hle & _ & Hto & E3 & E4 & _). cbn in *.
  split; [done|]. split; [done|]. split; [lia|]. split; [done|].
  exists proof. by rewrite E4.
Qed.

(** The block after the last proven one follows the same last proven block. *)
Lemma getLastProvenBlock_next from last :
  is_u64 from -> 0 <= StartL2Block (av_baseFlow a) -> is_u64 (StartL2Block (av_baseFlow a) + 1) ->
  let lp := getLastProvenBlock a from last in
  getLastProvenBlock a (lp +u64 1) last = lp /\ lp +u64 1 = lp + 1 /\ StartL2Block (av_baseFlow a) <= lp.
Proof.
  intros Hf H0 Hs. unfold getLastProvenBlock.
  generalize (match last with Some c => ch_ToBlock c <? StartL2Block (av_baseFlow a) | None => false end) as below.
  intros below. revert H0 Hs. generalize (StartL2Block (av_baseFlow a)) as start. intros start H0 Hs.
  assert (start +u64 1 = start + 1) as E1 by word_lia. assert (start + 1 -u64 1 = start) as E2 by word_lia.
  assert ((start + 1 =? 0) = false) as E3 by (apply Z.eqb_neq; lia).
  assert ((start <? start) = false) as E4 by (apply Z.ltb_ge; lia).
  destruct (Z.eqb_spec from 0) as [->|Hne]; [rewrite E1, E2, E3, E4; by destruct below|].
  destruct below; [by rewrite E1, E3|].
  destruct (Z.ltb_spec (from -u64 1) start) as [|Hge]; [by rewrite E1, E2, E3, E4|].
  assert (from -u64 1 = from - 1) as E5 by word_lia. rewrite E5 in *.
  assert (from - 1 +u64 1 = from) as E6 by word_lia. rewrite E6, E5.
  rewrite (proj2 (Z.eqb_neq _ _) Hne), (proj2 (Z.ltb_ge _ _) Hge). lia.
Qed.

(** ** The flow meets the laws of a flow *)

Lemma buildNew_asks fuel s now last ct r :
  GetLastSentCertificateHeader s = Ok last ->
  buildNewCertificateParams a q proofData fuel s now last ct = Some (Ok (Some r)) ->
  exists p from, verifyBuildParamsAndGenerateProof a q proofData fuel s p = Some (Ok (Some r)) /\ is_u64 from /\
    bp_FromBlock p = getLastProvenBlock a from last +u64 1 /\
    bp_LastSentCertificate p = last /\ bp_RetryCount p = next_retry last.
Proof.
  intros Hs. unfold buildNewCertificateParams. destruct (GetCertificateBuildParamsInternal _ _ _ _) as [p0|[]] eqn:E; try done.
  apply BuildParamsInternal_origin in E as (E1 & E2 & Hf & E3). rewrite Hs in E1. injection E1 as E1. intros H.
  apply obind_Ok in H as (p1 & Ha & H). apply AdjustBlockRange_origin in Ha as (A1 & A2 & A3 & A4 & _).
  apply obind_Ok in H as (p2 & Hc & H). injection Hc as Hc. exists p2, (bp_FromBlock p1). rewrite A1.
  split; [done|]. split; [done|]. destruct (negb _) eqn:En; bool_hyps.
  - apply clone_range in Hc as (C1 & _ & _ & _ & _ & _ & _ & C2 & C3). split; [by rewrite C1, A1|]. split; congruence.
  - injection Hc as <-. split; [by rewrite <- A1|]. split; congruence.
Qed.

(** The certificate in error again: the stored proof for the range it was made for, or a new one. *)
Lemma buildRetry_result fuel s c proof ct r :
  buildRetrySameCertificateParams a q proofData fuel s c proof ct = Some (Ok (Some r)) ->
  bp_FromBlock r = ch_FromBlock c /\ bp_LastSentCertificate r = Some c /\ bp_RetryCount r = ch_RetryCount c + 1 /\
  ch_FinalizedL1InfoTreeRoot c = Some (bp_L1InfoTreeRootFromWhichToProve r) /\
  ((exists pr, proof = Some pr /\ bp_AggchainProof r = Some pr /\ bp_ToBlock r = ch_ToBlock c /\
      ap_LastProvenBlock (proofData pr) = getLastProvenBlock a (ch_FromBlock c) (Some c) /\
      ap_EndBlock (proofData pr) = bp_ToBlock r) \/
   (exists p, same_origin p r /\ verifyBuildParamsAndGenerateProof a q proofData fuel s p = Some (Ok (Some r)))).
Proof.
  unfold buildRetrySameCertificateParams. intros H. apply obind_Ok in H as ([bs cs] & _ & H).
  apply obind_Ok in H as (us & _ & H). destruct (ch_FinalizedL1InfoTreeRoot c) as [root|]; [|done].
  apply obind_Ok in H as (p & Ha & H). apply AdjustBlockRange_origin in Ha as (A1 & A2 & A3 & A4 & A5). cbn in *.
  assert (forall r0, verifyBuildParamsAndGenerateProof a q proofData fuel s p = Some (Ok (Some r0)) ->
    bp_FromBlock r0 = ch_FromBlock c /\ bp_LastSentCertificate r0 = Some c /\ bp_RetryCount r0 = ch_RetryCount c + 1 /\
    Some root = Some (bp_L1InfoTreeRootFromWhichToProve r0) /\ same_origin p r0) as Hv.
  { intros r0 H0. apply verifyBuildParams_result in H0 as (_ & Ho & _). pose proof Ho as (O1 & O2 & O3 & O4 & O5).
    repeat split; congruence. }
  destruct proof as [pr|].
  - destruct (canReuseRetryProof _ _ _ _ _ _) eqn:Er.
    + injection H as <-. cbn. unfold canReuseRetryProof in Er. bool_hyps. repeat (split; [congruence|]). left. exists pr.
      repeat (split; [congruence|]). rewrite A1 in *. done.
    + destruct (Hv r H) as (? & ? & ? & ? & ?). repeat (split; [done|]). right. by exists p.
  - destruct (Hv r H) as (? & ? & ? & ? & ?). repeat (split; [done|]). right. by exists p.
Qed.

(** The path taken: the certificate in error again, or a new one. *)
Lemma Prover_params_path fuel s now r :
  Prover_GetCertificateBuildParams a q proofData fuel s now = Some (Ok (Some r)) ->
  exists last ct, GetLastSentCertificateHeaderWithProofIfInError s = Ok last /\ getCertificateTypeToGenerate q = Ok ct /\
    ((exists c proof, last = Some (c, proof) /\ ch_Status c = InError /\ ch_CertType c = ct /\
        isInErrorCertL1InfoRootValid q c = Ok true /\
        buildRetrySameCertificateParams a q proofData fuel s c proof ct = Some (Ok (Some r))) \/
     (GetLastSentCertificateHeader s = Ok (fst <$> last) /\
        buildNewCertificateParams a q proofData fuel s now (fst <$> last) ct = Some (Ok (Some r)))).
Proof.
  unfold Prover_GetCertificateBuildParams. intros H. apply obind_Ok in H as (last & Hl & H). injection Hl as Hl.
  apply obind_Ok in H as (ct & Ht & H). injection Ht as Ht.
  destruct (GetLastSentCertificateHeaderWithProofIfInError s) as [l|] eqn:El; [|done]. injection Hl as ->.
  apply lastSent_agree in El as Hs. exists last, ct. split; [done|]. split; [done|].
  destruct last as [[c proof]|]; [|by right]. destruct (IsInError _ && _) eqn:Ei; [|by right].
  apply obind_Ok in H as (valid & Hv & H). injection Hv as Hv. destruct valid; [|by right]. left. exists c, proof.
  unfold IsInError in Ei. apply andb_true_iff in Ei as [E1 E2]. apply bool_decide_eq_true in E1, E2. done.
Qed.

(** The flow with proofs is a flow the service can rely on. *)
#[global] Instance proverBuilderFlow_laws fuel initial signer :
  FlowLaws (bf_initialLER (av_baseFlow a)) (proverBuilderFlow a q proofData fuel initial signer).
Proof.
  split; cbn.
  - intros s now r H. apply Prover_params_path in H as (last & ct & Hl & _ & [(c & proof & -> & Hi & _ & _ & H)|[Hs H]]).
    + apply lastSent_agree in Hl. apply buildRetry_result in H as (_ & -> & -> & _). split; [done|].
      unfold next_retry. by rewrite bool_decide_true.
    + apply (buildNew_asks _ _ _ _ _ _ Hs) in H as (p & from & H & _ & _ & Hlast & Hretry).
      apply verifyBuildParams_result in H as (_ & (_ & -> & -> & _) & _). by rewrite Hs, Hlast.
  - intros s p c H. unfold Prover_BuildCertificate in H. inv_ok H as cert Hc. injection H as <-. unfold BuildCertificate in Hc.
    destruct (_ && IsEmpty p); [done|]. inv_ok Hc as ibes Hi. inv_ok Hc as [h ler] Hh.
    inv_ok Hc as newLER Hn. injection Hc as <-. by eapply getNextHeight_follows.
  - intros c [m|] c'; unfold Prover_UpdateAggchainData; [|by intros [= <-]].
    destruct (fl_AggchainData c); try done; by intros [= <-].
Qed.

(** C8. Parameters the flow with proofs returns carry a proof that ends where the certificate ends.  It is the proof stored
    with the certificate in error that is sent again, for exactly the blocks it was made for, or the prover's answer to a
    request that starts after the last proven block; a new certificate starts right after that block and never at or
    before the first block of the rollup contract. *)
Theorem proof_covers_the_certificate fuel s now r :
  0 <= StartL2Block (av_baseFlow a) -> is_u64 (StartL2Block (av_baseFlow a) + 1) ->
  Prover_GetCertificateBuildParams a q proofData fuel s now = Some (Ok (Some r)) ->
  let lastProven := getLastProvenBlock a (bp_FromBlock r) (bp_LastSentCertificate r) in
  exists proof, bp_AggchainProof r = Some proof /\ ap_EndBlock (proofData proof) = bp_ToBlock r /\
    ((exists c, GetLastSentCertificateHeaderWithProofIfInError s = Ok (Some (c, Some proof)) /\ ch_Status c = InError /\
        bp_FromBlock r = ch_FromBlock c /\ bp_ToBlock r = ch_ToBlock c /\ ap_LastProvenBlock (proofData proof) = lastProven) \/
     (bp_FromBlock r <= bp_ToBlock r /\
        (exists upTo, bp_ToBlock r <= upTo /\ prover_answered lastProven upTo (bp_L1InfoTreeRootFromWhichToProve r) proof) /\
        ((exists c, bp_LastSentCertificate r = Some c /\ ch_Status c = InError /\ bp_FromBlock r = ch_FromBlock c) \/
         (bp_FromBlock r = lastProven + 1 /\ StartL2Block (av_baseFlow a) <= lastProven)))).
Proof.
  intros H0 Hs H lastProven. unfold lastProven. clear lastProven.
  apply Prover_params_path in H as (last & ct & Hl & _ & [(c & proof & -> & Hi & _ & _ & H)|[Hls H]]).
  - apply buildRetry_result in H as (Hf & Hlast & _ & _ & [(pr & -> & Hp & Ht & Hlp & He)|(p & (O1 & _ & O3 & _) & H)]).
    + exists pr. rewrite Hf, Hlast. split; [done|]. split; [done|]. left. by exists c.
    + apply verifyBuildParams_result in H as (_ & _ & Hle & _ & pr & Hp & He & Hans). exists pr. rewrite <- O1, <- O3 in Hans.
      split; [done|]. split; [done|]. right. split; [lia|]. split; [|left; by exists c].
      exists (bp_ToBlock p). split; [lia|done].
  - apply (buildNew_asks _ _ _ _ _ _ Hls) in H as (p & from & H & Hu & Hf & Hlast & _).
    apply verifyBuildParams_result in H as (_ & (O1 & _ & O3 & _) & Hle & _ & pr & Hp & He & Hans). exists pr.
    rewrite <- O1, <- O3 in Hans. split; [done|]. split; [done|]. right. split; [lia|].
    split; [exists (bp_ToBlock p); split; [lia|done]|]. right.
    destruct (getLastProvenBlock_next from (fst <$> last) Hu H0 Hs) as (N1 & N2 & N3). cbn zeta in *.
    rewrite O1, O3, Hf, Hlast, N1. done.
Qed.

(** A pessimistic certificate in error that ends before the blocks of the rollup contract is never passed over: until it
    is dealt with the flow returns no parameters, because the new range would not start where the failed one did. *)
Theorem failed_certificate_not_passed_over fuel s now c proof r :
  GetLastSentCertificateHeaderWithProofIfInError s = Ok (Some (c, proof)) -> ch_Status c = InError ->
  ch_CertType c = CertificateTypePP -> 0 <= ch_RetryCount c -> ch_FromBlock c <= ch_ToBlock c ->
  ch_ToBlock c < StartL2Block (av_baseFlow a) -> 0 <= StartL2Block (av_baseFlow a) -> is_u64 (StartL2Block (av_baseFlow a) + 1) ->
  Prover_GetCertificateBuildParams a q proofData fuel s now <> Some (Ok (Some r)).
Proof.
  intros Hl Hi Hpp Hrc Hft Hlt H0 Hs H. pose proof (lastSent_agree _ _ Hl) as Hls. cbn in Hls.
  apply Prover_params_path in H as (last & ct & Hl' & Hct & H). rewrite Hl in Hl'. injection Hl' as <-.
  destruct H as [(c' & pr & [= <- <-] & _ & Ht & _)|[_ H]].
  { unfold getCertificateTypeToGenerate in Hct. inv_ok Hct as opt Ho. rewrite Hpp in Ht. by destruct opt; simplify_eq/=. }
  cbn in H. apply (buildNew_asks _ _ _ _ _ _ Hls) in H as (p & from & H & Hu & Hf & Hlast & Hretry).
  apply verifyBuildParams_result in H as (Hv & _).
  assert (getLastProvenBlock a from (Some c) = StartL2Block (av_baseFlow a)) as Elp.
  { unfold getLastProvenBlock. rewrite (proj2 (Z.ltb_lt _ _) Hlt). by destruct (from =? 0). }
  rewrite Elp, add64_small in Hf by (unfold_words; lia).
  unfold VerifyBuildParams, verifyRetryCertStartingBlock, IsARetry in Hv. unfold next_retry in Hretry.
  rewrite Hlast, Hretry, Hf, bool_decide_true in Hv by done.
  rewrite (proj2 (Z.ltb_lt _ _)), (proj2 (Z.eqb_neq _ _)) in Hv by lia. done.
Qed.

(** A certificate in error that has no finalized root on record is taken for valid and then dereferenced. *)
Lemma retry_without_root_panics fuel s now c proof :
  GetLastSentCertificateHeaderWithProofIfInError s = Ok (Some (c, proof)) -> ch_Status c = InError ->
  getCertificateTypeToGenerate q = Ok (ch_CertType c) -> ch_FinalizedL1InfoTreeRoot c = None ->
  is_ok (GetBridgesAndClaims (ch_FromBlock c) (ch_ToBlock c)) = true ->
  is_ok (GetUnsetClaimsForBlockRange (ch_FromBlock c) (ch_ToBlock c)) = true ->
  Prover_GetCertificateBuildParams a q proofData fuel s now = Some (Err ErrPanic).
Proof.
  intros Hl Hi Ht Hr Hb Hu. unfold Prover_GetCertificateBuildParams. rewrite Hl, Ht. cbn [lift_db obind].
  unfold IsInError. rewrite !bool_decide_true by done. cbn [andb]. unfold isInErrorCertL1InfoRootValid. rewrite Hr. cbn [obind].
  unfold buildRetrySameCertificateParams. destruct (GetBridgesAndClaims _ _) as [[bs cs]|]; [|done]. cbn [obind].
  destruct (GetUnsetClaimsForBlockRange _ _); [|done]. cbn [obind]. by rewrite Hr.
Qed.

End Prover.

(** ** What the accepted parameters determine *)

Section Binding.
Context `{Kc : Keccak}.

Definition is_address (z : Z) : Prop := 0 <= z < 256 ^ Z.of_nat AddressLength.

Record params_ok (p : AggchainParams) : Prop := {
  po_pre : is_hash (av_L2PreRoot (pa_Values p));
  po_claim : is_hash (av_ClaimRoot (pa_Values p));
  po_block : is_u64 (av_L2BlockNumber (pa_Values p));
  po_config : is_hash (av_RollupConfigHash (pa_Values p));
  po_signer : is_address (av_TrustedSigner (pa_Values p));
  po_range : is_hash (av_MultiBlockVKey (pa_Values p));
  po_agg : is_hash (av_AggregationVKeyHash (pa_Values p))
}.

(** Everything but the L1 head is in the bytes. *)
Definition same_commitment (p p' : AggchainParams) : Prop :=
  let v := pa_Values p in let v' := pa_Values p' in
  av_L2PreRoot v = av_L2PreRoot v' /\ av_ClaimRoot v = av_ClaimRoot v' /\ av_L2BlockNumber v = av_L2BlockNumber v' /\
  av_RollupConfigHash v = av_RollupConfigHash v' /\ pa_OptimisticMode p = pa_OptimisticMode p' /\
  av_TrustedSigner v = av_TrustedSigner v' /\ av_MultiBlockVKey v = av_MultiBlockVKey v' /\
  av_AggregationVKeyHash v = av_AggregationVKeyHash v'.

Lemma be_bytes_app_inj n x y l l' :
  0 <= x < 256 ^ Z.of_nat n -> 0 <= y < 256 ^ Z.of_nat n -> be_bytes n x ++ l = be_bytes n y ++ l' -> x = y /\ l = l'.
Proof.
  intros Hx Hy E. apply app_inj_1 in E as [E ->]; [|by rewrite !be_bytes_length]. split; [|done]. by eapply be_bytes_inj.
Qed.

Lemma u64_hash z : is_u64 z -> is_hash z.
Proof.
  assert (pow2_64 <= 256 ^ Z.of_nat HashLength) by (vm_compute; congruence). unfold is_hash, is_u64. lia.
Qed.

Lemma AggchainParams_bytes_inj p p' :
  params_ok p -> params_ok p' -> AggchainParams_bytes p = AggchainParams_bytes p' -> same_commitment p p'.
Proof.
  intros [P1 P2 P3 P4 P5 P6 P7] [Q1 Q2 Q3 Q4 Q5 Q6 Q7] E. apply u64_hash in P3, Q3.
  unfold AggchainParams_bytes, Hash_Bytes in E. cbn [concat] in E.
  apply be_bytes_app_inj in E as [E1 E]; [|done..]. apply be_bytes_app_inj in E as [E2 E]; [|done..].
  apply be_bytes_app_inj in E as [E3 E]; [|done..]. apply be_bytes_app_inj in E as [E4 E]; [|done..].
  apply app_inj_1 in E as [E5 E]; [|done]. apply be_bytes_app_inj in E as [E6 E]; [|done..].
  apply be_bytes_app_inj in E as [E7 E]; [|done..]. apply be_bytes_app_inj in E as [E8 _]; [|done..].
  repeat split; try done. by destruct (pa_OptimisticMode p), (pa_OptimisticMode p').
Qed.

(** The contract answers with words of their sizes. *)
Record contract_ok (c : FEPContract) : Prop := {
  co_roots : forall n h, fp_OutputAtBlockRoot c n = Ok h -> is_hash h;
  co_configs : forall n o, fp_OpSuccinctConfigs c n = Ok o ->
    is_hash (oc_AggregationVkey o) /\ is_hash (oc_RangeVkeyCommitment o) /\ is_hash (oc_RollupConfigHash o);
  co_signers : forall l, fp_GetAggchainSigners c = Ok l -> Forall is_address l
}.

Lemma GetAggchainParams_ok c settled last leaf expected :
  contract_ok c -> is_u64 last -> GetAggchainParams c settled last leaf = Ok expected ->
  params_ok expected /\ fp_OutputAtBlockRoot c settled = Ok (av_L2PreRoot (pa_Values expected)) /\
  fp_OutputAtBlockRoot c last = Ok (av_ClaimRoot (pa_Values expected)) /\
  av_L2BlockNumber (pa_Values expected) = last /\ fp_OptimisticMode c = Ok (pa_OptimisticMode expected) /\
  GetTrustedSignerAddr c = Ok (av_TrustedSigner (pa_Values expected)).
Proof.
  intros [Hr Hc Hs] Hu H. unfold GetAggchainParams, GetAggregationProofPublicValuesData in H. inv_ok H as v Hv. inv_ok H as m Hm.
  injection H as <-. inv_ok Hv as pre H1. inv_ok Hv as claim H2. inv_ok Hv as name H3. inv_ok Hv as o H4. inv_ok Hv as sg H5.
  injection Hv as <-. cbn in *. destruct (Hc _ _ H4) as (? & ? & ?).
  assert (is_address sg) as Hsg.
  { unfold GetTrustedSignerAddr in H5. inv_ok H5 as l Hl. destruct l as [|x l]; [done|]. injection H5 as <-.
    pose proof (Hs _ eq_refl) as Hf. by inversion Hf. }
  split; [constructor; cbn; eauto|]. done.
Qed.

(** The proof a certificate carries. *)
Definition carried_proof (d : AggchainData) : option AggchainProofData :=
  match d with
  | AggchainDataProof data => Some data
  | AggchainDataMultisigWithProof _ (Some data) => Some data
  | _ => None
  end.

(** C27. A certificate whose proof was made for the parameters [made] passes the validator only when the contract and the
    op-node agree with them: the state proved starts at the last settled block and ends at the last block of the
    certificate, under the mode, the signer, the configuration and the keys of the contract; or the two encodings are a
    collision of the hash. *)
Theorem accepted_proof_matches_contract getInfoByIndex contract cert last settled made data :
  contract_ok contract -> is_u64 last -> params_ok made ->
  carried_proof (fl_AggchainData cert) = Some data -> ad_AggchainParams data = AggchainParams_Hash made ->
  Prover_VerifyCertificate getInfoByIndex contract cert last settled = Ok tt ->
  (fp_OutputAtBlockRoot contract settled = Ok (av_L2PreRoot (pa_Values made)) /\
   fp_OutputAtBlockRoot contract last = Ok (av_ClaimRoot (pa_Values made)) /\
   av_L2BlockNumber (pa_Values made) = last /\ fp_OptimisticMode contract = Ok (pa_OptimisticMode made) /\
   GetTrustedSignerAddr contract = Ok (av_TrustedSigner (pa_Values made))) \/
  exists expected, AggchainParams_bytes expected <> AggchainParams_bytes made /\
    keccak256 (AggchainParams_bytes expected) = keccak256 (AggchainParams_bytes made).
Proof.
  intros Hc Hu Hm Hp Hh H. unfold Prover_VerifyCertificate in H. inv_ok H as data' Hd.
  assert (data' = data) as -> by (destruct (fl_AggchainData cert) as [| | | |? []]; simplify_eq/=; done).
  inv_ok H as leaf Hl. inv_ok H as expected He. destruct (Z.eqb_spec (ad_AggchainParams data) (AggchainParams_Hash expected)) as [E|]; [|done].
  rewrite Hh in E. destruct (GetAggchainParams_ok _ _ _ _ _ Hc Hu He) as (Ho & R1 & R2 & R3 & R4 & R5).
  destruct (decide (AggchainParams_bytes expected = AggchainParams_bytes made)) as [Eb|Hne]; [left | right; by exists expected].
  apply AggchainParams_bytes_inj in Eb as (S1 & S2 & S3 & _ & S4 & S5 & _); [|done..].
  rewrite <- S1, <- S2, <- S3, <- S4, <- S5. done.
Qed.

End Binding.

(** ** Examples *)

#[local] Existing Instance toy_keccak.

(** A prover that proves up to block 28; a proof is named after the blocks it covers. *)
Definition example_proof_data (z : Z) : AggchainProof := mkAggchainProof (z / 1000) (z mod 1000) [] 99 5 [] (mkSP1 "v1" [1] [2]) [].
Definition example_request_proof (r : AggchainProofRequest) : Z := 1000 * rq_LastProvenBlock r + Z.min 28 (rq_RequestedEndBlock r).

Definition example_prover_queriers : ProverQueriers := {|
  pq_IsOptimisticModeOn := Ok false;
  pq_GetL1InfoRootByLeafIndex := fun i => Ok (mkRoot 40 i 100 0);
  pq_GetFinalizedL1InfoTreeData := fun _ _ => Ok (repeat 0 32, mkL1InfoLeaf 90 0 3 0 0 0 0 8 0);
  pq_GetInjectedGERsForRange := fun _ _ => Ok {[ 11 := mkGERInfo 11 3 12 0 None false 0 ]};
  pq_GetRemovedGERsForRange := fun _ _ => Ok [];
  pq_Sign := fun _ _ _ => Ok ([1], []);
  pq_GenerateAggchainProof := fun r => Ok (example_request_proof r);
  pq_GenerateOptimisticAggchainProof := fun r _ => Ok (example_request_proof r)
|}.

Definition example_prover_flow (start : Z) : AggchainProverBuilderFlow :=
  mkProverFlow (mkBaseFlow 77 true (mkBaseFlowConfig 0 start false true)) 0 0.

Definition example_proven : option (result flowError (option CertificateBuildParams)) :=
  Prover_GetCertificateBuildParams (Bq := example_chain) (Lq := example_prover) (Cq := example_querier) (example_prover_flow 5)
    example_prover_queriers example_proof_data 40 example_store 100.

Definition example_proven_params : CertificateBuildParams :=
  match example_proven with Some (Ok (Some r)) => r | _ => example_sent_params end.

Example example_proven_range :
  (bp_FromBlock example_proven_params, bp_ToBlock example_proven_params, bp_AggchainProof example_proven_params) = (10, 28, Some 9028).
Proof. vm_compute. reflexivity. Qed.

Lemma proof_covers_the_certificate_witness :
  let r := example_proven_params in
  let lastProven := getLastProvenBlock (example_prover_flow 5) (bp_FromBlock r) (bp_LastSentCertificate r) in
  exists proof, bp_AggchainProof r = Some proof /\ ap_EndBlock (example_proof_data proof) = bp_ToBlock r /\
    ((exists c, GetLastSentCertificateHeaderWithProofIfInError example_store = Ok (Some (c, Some proof)) /\ ch_Status c = InError /\
        bp_FromBlock r = ch_FromBlock c /\ bp_ToBlock r = ch_ToBlock c /\
        ap_LastProvenBlock (example_proof_data proof) = lastProven) \/
     (bp_FromBlock r <= bp_ToBlock r /\
        (exists upTo, bp_ToBlock r <= upTo /\
           prover_answered example_prover_queriers lastProven upTo (bp_L1InfoTreeRootFromWhichToProve r) proof) /\
        ((exists c, bp_LastSentCertificate r = Some c /\ ch_Status c = InError /\ bp_FromBlock r = ch_FromBlock c) \/
         (bp_FromBlock r = lastProven + 1 /\ 5 <= lastProven)))).
Proof.
  refine (proof_covers_the_certificate (Bq := example_chain) (Lq := example_prover) (Cq := example_querier) (example_prover_flow 5)
    example_prover_queriers example_proof_data 40 example_store 100 example_proven_params _ _ _).
  - vm_compute. congruence.
  - split; vm_compute; congruence.
  - vm_compute. reflexivity.
Defined.

(** A certificate of the pessimistic flow in error, below the blocks of the contract. *)
Definition example_failed_store : Storage :=
  mkStorage (mkTables {[ 4 := mkCertificateInfo (example_sent 1 9 InError) None None [] ]} ∅ None) ∅
    NewStorageRetainCertificatesPolicyDefault.

Lemma failed_certificate_not_passed_over_witness :
  Prover_GetCertificateBuildParams (Bq := example_chain) (Lq := example_prover) (Cq := example_querier) (example_prover_flow 20)
    example_prover_queriers example_proof_data 40 example_failed_store 100 <> Some (Ok (Some example_proven_params)).
Proof.
  refine (failed_certificate_not_passed_over (Bq := example_chain) (Lq := example_prover) (Cq := example_querier)
    (example_prover_flow 20) example_prover_queriers example_proof_data 40 example_failed_store 100 (example_sent 1 9 InError) None
    example_proven_params _ _ _ _ _ _ _ _); try (vm_compute; reflexivity); try (vm_compute; congruence).
  split; vm_compute; congruence.
Defined.

Definition example_fep_contract : FEPContract := {|
  fp_StartingBlockNumber := Ok 5;
  fp_LatestBlockNumber := Ok 9;
  fp_SelectedOpSuccinctConfigName := Ok 1;
  fp_OpSuccinctConfigs := fun _ => Ok (mkOpConfig 21 22 23);
  fp_GetAggchainSigners := Ok [300];
  fp_OptimisticMode := Ok false;
  fp_OutputAtBlockRoot := fun n => if (0 <=? n) && (n <? 1000) then Ok (7000 + n) else Err ErrQuery
|}.

Definition example_params : AggchainParams := mkAggchainParams (mkPublicValues 8 7009 7028 28 23 22 300 21) false.
Definition example_carried : AggchainProofData := mkAggchainProofData [1] "v1" [2] (AggchainParams_Hash example_params) [] [].
Definition example_proven_cert : FullCertificate := mkFullCertificate example_built (AggchainDataProof example_carried).

Lemma small_hash z : 0 <= z < pow2_64 -> is_hash z.
Proof. apply u64_hash. Qed.

Lemma example_contract_fits : contract_ok example_fep_contract.
Proof.
  constructor.
  - intros n h. cbn [fp_OutputAtBlockRoot example_fep_contract]. destruct (_ && _) eqn:E; [|done]. bool_hyps. intros [= <-].
    apply small_hash. unfold_words. lia.
  - intros n o [= <-]. cbn. split_and!; apply small_hash; unfold_words; lia.
  - intros l [= <-]. repeat constructor; vm_compute; congruence.
Qed.

Lemma accepted_proof_matches_contract_witness :
  let v := pa_Values example_params in
  (fp_OutputAtBlockRoot example_fep_contract 9 = Ok (av_L2PreRoot v) /\ fp_OutputAtBlockRoot example_fep_contract 28 = Ok (av_ClaimRoot v) /\
   av_L2BlockNumber v = 28 /\ fp_OptimisticMode example_fep_contract = Ok (pa_OptimisticMode example_params) /\
   GetTrustedSignerAddr example_fep_contract = Ok (av_TrustedSigner v)) \/
  exists expected, AggchainParams_bytes expected <> AggchainParams_bytes example_params /\
    keccak256 (AggchainParams_bytes expected) = keccak256 (AggchainParams_bytes example_params).
Proof.
  refine (accepted_proof_matches_contract (Kc := toy_keccak) (fun _ => Ok (mkL1InfoLeaf 90 0 3 0 0 0 0 8 0)) example_fep_contract
    example_proven_cert 28 9 example_params example_carried example_contract_fits _ _ _ _ _).
  - split; vm_compute; congruence.
  - constructor; cbn; try (apply small_hash; unfold_words; lia); vm_compute; split; congruence.
  - reflexivity.
  - reflexivity.
  - vm_compute. reflexivity.
Defined.
