(* ===== verification/TreeTx.v ===== *)
(** Database transactions around an append-only tree, as the processors of the syncers use them: the
    tables [D] of the processor and those of the tree change inside a transaction, the tree object and
    the halted flag outside of it.  An error rolls the tables back and runs the callbacks of the tree. *)

From S2P Require Import Prelude Bytes Merkle Tables.

(** A processor with tables [D] and one append-only tree. *)
Record treeProc (D : Type) := mkTreeProc {
  p_db : D;
  p_treeDB : TreeDB;
  p_tree : AppendOnlyTree;
  p_halted : bool
}.
Arguments mkTreeProc {D}.
Arguments p_db {D}.
Arguments p_treeDB {D}.
Arguments p_tree {D}.
Arguments p_halted {D}.

(** The state of an open transaction. *)
Record txState (D : Type) := mkTxState {
  ts_db : D;
  ts_tree : AppendOnlyTree;
  ts_tx : Tx AppendOnlyTree;
  ts_halted : bool
}.
Arguments mkTxState {D}.
Arguments ts_db {D}.
Arguments ts_tree {D}.
Arguments ts_tx {D}.
Arguments ts_halted {D}.

Section TreeTx.
Context {D E : Type}.

Definition set_db (f : D -> D) (s : txState D) : txState D := mkTxState (f (ts_db s)) (ts_tree s) (ts_tx s) (ts_halted s).

(** A statement on the tables of the tree. *)
Definition set_treeDB (f : TreeDB -> TreeDB) (s : txState D) : txState D :=
  mkTxState (ts_db s) (ts_tree s) (tx_set (ts_tx s) (f (tx_db (ts_tx s)))) (ts_halted s).

Definition halt : eff (txState D) E unit := smodify (fun s => mkTxState (ts_db s) (ts_tree s) (ts_tx s) true).

Definition putLeaf `{Keccak} (inj : treeError -> E) (blockNum blockPosition : Z) (leaf : Leaf) : eff (txState D) E Z := fun s =>
  let '(t, tx, r) := AppendOnly_PutLeaf (ts_tree s) (ts_tx s) blockNum blockPosition leaf in
  (mkTxState (ts_db s) t tx (ts_halted s), match r with Ok h => Ok h | Err e => Err (inj e) end).

Definition beginTx (p : treeProc D) : txState D := mkTxState (p_db p) (p_tree p) (NewTx (p_treeDB p)) (p_halted p).

Definition commitTx (s : txState D) : treeProc D :=
  let (db, t) := Tx_Commit (ts_tx s) (ts_tree s) in mkTreeProc (ts_db s) db t (ts_halted s).

(** The deferred rollback: the tables of [saved], the tree object after the callbacks. *)
Definition rollbackTx (saved : D) (s : txState D) : treeProc D :=
  let (db, t) := Tx_Rollback (ts_tx s) (ts_tree s) in mkTreeProc saved db t (ts_halted s).

Definition inTx (c : eff (txState D) E unit) (p : treeProc D) : treeProc D * result E unit :=
  match c (beginTx p) with
  | (s, Ok _) => (commitTx s, Ok tt)
  | (s, Err e) => (rollbackTx (p_db p) s, Err e)
  end.

Lemma PutLeaf_saved `{Keccak} t tx bn bp leaf t' tx' r :
  AppendOnly_PutLeaf t tx bn bp leaf = (t', tx', r) -> tx_saved tx' = tx_saved tx.
Proof.
  assert (Hins : forall u, AppendOnly_insert u tx bn bp leaf = (t', tx', r) -> tx_saved tx' = tx_saved tx).
  { intros u. unfold AppendOnly_insert. destruct (AppendOnly_climb _ _ _ _) as [[h c] ns].
    destruct (storeRoot _ _); by intros [= <- <- <-]. }
  unfold AppendOnly_PutLeaf. destruct (negb _); [|apply Hins].
  destruct (initCache _ _) as [u [?|?]]; [|by intros [= <- <- <-]].
  destruct (negb _); [by intros [= <- <- <-] | apply Hins].
Qed.

(** ** What every computation in a transaction respects *)

(** The tables saved at its start stay saved, and [P] relates the states and the result. *)
Definition tx_resp {A} (P : txState D -> txState D -> result E A -> Prop) (c : eff (txState D) E A) : Prop :=
  forall s s' r, c s = (s', r) -> tx_saved (ts_tx s') = tx_saved (ts_tx s) /\ P s s' r.

Lemma inTx_Err P c p p' e :
  tx_resp P c -> inTx c p = (p', Err e) ->
  p_db p' = p_db p /\ p_treeDB p' = p_treeDB p /\
  exists s, P (beginTx p) s (Err e) /\ p_halted p' = ts_halted s.
Proof.
  intros Hc. unfold inTx. destruct (c (beginTx p)) as [s [?|e']] eqn:Erun; [discriminate|]. intros [= <- <-].
  apply Hc in Erun as [E1 E2]. unfold rollbackTx, Tx_Rollback. cbn. rewrite E1. eauto.
Qed.

Lemma inTx_Ok P c p p' u :
  tx_resp P c -> inTx c p = (p', Ok u) -> exists s a, P (beginTx p) s (Ok a) /\ p_db p' = ts_db s /\ p_halted p' = ts_halted s.
Proof.
  intros Hc. unfold inTx. destruct (c (beginTx p)) as [s [a|e']] eqn:Erun; [|discriminate]. intros [= <- _].
  apply Hc in Erun as [_ Erun]. unfold commitTx, Tx_Commit. cbn. eauto.
Qed.

(** Computations that keep the tables saved at the start of the transaction. *)
Definition tx_keeps {A} (c : eff (txState D) E A) : Prop :=
  forall s s' r, c s = (s', r) -> tx_saved (ts_tx s') = tx_saved (ts_tx s).

Lemma tx_keeps_ret {A} (a : A) : tx_keeps (sret a).
Proof. by intros s s' r [= <- _]. Qed.
Lemma tx_keeps_fail {A} (e : E) : tx_keeps (A := A) (sfail e).
Proof. by intros s s' r [= <- _]. Qed.
Lemma tx_keeps_lift {A} (x : result E A) : tx_keeps (slift x).
Proof. by intros s s' r [= <- _]. Qed.
Lemma tx_keeps_get : tx_keeps sget.
Proof. by intros s s' r [= <- _]. Qed.
Lemma tx_keeps_set f : tx_keeps (smodify (set_db f)).
Proof. by intros s s' r [= <- _]. Qed.
Lemma tx_keeps_tree f : tx_keeps (smodify (set_treeDB f)).
Proof. by intros s s' r [= <- _]. Qed.
Lemma tx_keeps_bind {A B} (c : eff (txState D) E A) (k : A -> eff (txState D) E B) :
  tx_keeps c -> (forall a, tx_keeps (k a)) -> tx_keeps (sbind c k).
Proof.
  intros Hc Hk s s' r. unfold sbind. destruct (c s) as [s1 [a|e]] eqn:Erun; apply Hc in Erun.
  - intros Hr. apply Hk in Hr. congruence.
  - by intros [= <- _].
Qed.
Lemma tx_keeps_put `{Keccak} inj bn bp leaf : tx_keeps (putLeaf inj bn bp leaf).
Proof.
  intros s s' r. unfold putLeaf. destruct (AppendOnly_PutLeaf _ _ _ _ _) as [[t tx] q] eqn:Erun.
  apply PutLeaf_saved in Erun. by intros [= <- _].
Qed.

(** A failed transaction leaves the tables as they were. *)
Lemma inTx_failed c p p' e : tx_keeps c -> inTx c p = (p', Err e) -> p_db p' = p_db p /\ p_treeDB p' = p_treeDB p.
Proof.
  intros Hc Hr. destruct (inTx_Err (fun _ _ _ => True) c p p' e) as (E1 & E2 & _); [|done|done].
  intros s s' r Hrun. split; [by apply Hc in Hrun | done].
Qed.

End TreeTx.

#[export] Hint Resolve tx_keeps_ret tx_keeps_fail tx_keeps_lift tx_keeps_get tx_keeps_set tx_keeps_tree tx_keeps_bind tx_keeps_put : aggkit.

(** Split a computation at its binds, cases and loops. *)
Ltac tx_keeps := repeat first
  [ apply tx_keeps_ret | apply tx_keeps_fail | apply tx_keeps_lift | apply tx_keeps_get | apply tx_keeps_set | apply tx_keeps_tree
  | apply tx_keeps_put | apply tx_keeps_bind; [|intros ?] | solve [auto with aggkit]
  | progress cbv beta zeta
  | match goal with
    | |- tx_keeps (match ?x with _ => _ end) => destruct x
    end ].

(** ** Rows and roots *)

(** The position of a root row. *)
Definition root_pos (r : Root) : Z * Z := (rt_BlockNum r, rt_BlockPosition r).

Lemma Root_lt_pos a b : Root_lt a b <-> pos_ltb (root_pos a) (root_pos b) = true.
Proof.
  unfold Root_lt, Root_leb, pos_ltb, root_pos. simpl.
  destruct (rt_BlockNum b <? rt_BlockNum a) eqn:E1, (rt_BlockNum b =? rt_BlockNum a) eqn:E2, (rt_BlockNum a <? rt_BlockNum b) eqn:E3,
    (rt_BlockNum a =? rt_BlockNum b) eqn:E4, (rt_BlockPosition b <=? rt_BlockPosition a) eqn:E5,
    (rt_BlockPosition a <? rt_BlockPosition b) eqn:E6; bool_hyps; simpl; (split; intros; (done || lia)).
Qed.

(** The rows kept are the leaves of the roots kept. *)
Lemma rows_prefix {A} (pos : A -> Z * Z) n k (rows : list A) (roots : list Root) :
  map root_pos roots = map pos rows -> (k <= length rows)%nat ->
  (forall i r, roots !! i = Some r -> rt_BlockNum r < n <-> (i < k)%nat) ->
  bfilter (fun l => negb (n <=? fst (pos l))) rows = take k rows.
Proof.
  revert k roots. induction rows as [|l rows IH]; intros k [|r roots] Hpos Hk Hiff; try done; [by rewrite take_nil|].
  injection Hpos as Hp Hpos. apply (f_equal fst) in Hp as Hn. cbn [fst root_pos] in Hn. cbn [bfilter length] in *. pose proof (Hiff 0%nat r eq_refl) as H0. rewrite Hn in H0.
  destruct k as [|k].
  - assert (E : (n <=? fst (pos l)) = true) by (apply Z.leb_le; lia). rewrite E. cbn [negb]. cbn [take].
    rewrite (IH 0%nat roots) by (done || lia || (intros i r' Hr'; rewrite (Hiff (S i) r' Hr'); lia)). apply take_0.
  - assert (E : (n <=? fst (pos l)) = false) by (apply Z.leb_gt; lia). rewrite E. cbn [negb take]. f_equal.
    apply (IH k roots); [done | lia|]. intros i r' Hr'. rewrite (Hiff (S i) r' Hr'). lia.
Qed.

Section Roots.
Context `{Kc : Keccak}.

(** The root row of an index: the root of the leaves up to it. *)
Lemma GetRootByIndex_spec t db leaves k r :
  aot_inv t db leaves -> db_root db !! k = Some r ->
  GetRootByIndex db (Z.of_nat k) = Ok r /\ rt_Hash r = tree_root (take (S k) leaves) /\ rt_Index r = Z.of_nat k.
Proof.
  intros Hinv Hr. pose proof (ai_db _ _ _ Hinv) as Hdb. destruct (di_rows _ _ Hdb k r Hr) as [Hi Hh]. split_and!; [|done..].
  unfold GetRootByIndex. rewrite <- Hi. rewrite (find_unique rt_Index (db_root db) k r); [done | | done].
  apply index_NoDup. intros j x Hj. by apply (di_rows _ _ Hdb j x Hj).
Qed.

(** A position the tree accepts is not the position of a row. *)
Lemma put_pos_fresh {A} (pos : A -> Z * Z) (rows : list A) db leaves bn bp v l :
  map root_pos (db_root db) = map pos rows -> put_ok db leaves bn bp v -> In l rows ->
  (fst (pos l) =? bn) && (snd (pos l) =? bp) = false.
Proof.
  intros Hpos Hput Hl. apply list_elem_of_In, list_elem_of_lookup in Hl as [k Hk].
  assert (E : map root_pos (db_root db) !! k = Some (pos l)).
  { rewrite Hpos. change (map pos) with (fmap pos (M := list)). by rewrite list_lookup_fmap, Hk. }
  apply list_lookup_fmap_Some in E as (r & E & Hr). apply list_elem_of_lookup_2, list_elem_of_In in Hr.
  pose proof (po_position _ _ _ _ _ Hput r Hr) as Hlt. apply Root_lt_pos in Hlt. rewrite <- E in Hlt.
  unfold pos_ltb, root_pos in Hlt. cbn in Hlt |- *.
  destruct (fst (pos l) =? bn) eqn:E1, (snd (pos l) =? bp) eqn:E2; bool_hyps; try done.
  rewrite E1, E2, !Z.ltb_irrefl, andb_false_r in Hlt. done.
Qed.

(** ** Truncation by index *)

Lemma BackwardToIndex_prefix t db leaves n :
  aot_inv t db leaves -> (1 <= n <= length leaves)%nat ->
  aot_inv t (BackwardToIndex db (Z.of_nat n - 1)) (take n leaves) /\
  db_root (BackwardToIndex db (Z.of_nat n - 1)) = take n (db_root db).
Proof.
  intros [Hz Hc Hdb Hi Hr] Hn. pose proof (di_length _ _ Hdb) as Hlen.
  destruct (bfilter_prefix (fun r => negb (Z.of_nat n - 1 <? rt_Index r)) (db_root db)) as (k & Hk & Hf & Hiff).
  { intros i j x y Hij Hx Hy Hp. destruct (di_rows _ _ Hdb i x Hx) as [Ex _], (di_rows _ _ Hdb j y Hy) as [Ey _].
    bool_hyps. apply negb_true_iff, Z.ltb_ge. lia. }
  assert (k = n) as ->.
  { assert (Hat : forall i, (i < length (db_root db))%nat -> (i < n)%nat <-> (i < k)%nat).
    { intros i Hil. destruct (lookup_lt_is_Some_2 _ _ Hil) as [r Hr']. rewrite <- (Hiff i r Hr'), negb_true_iff, Z.ltb_ge.
      destruct (di_rows _ _ Hdb i r Hr') as [-> _]. lia. }
    pose proof (Hat n). pose proof (Hat k). lia. }
  unfold BackwardToIndex. rewrite Hf. split; [|done]. split; [done | done | by apply db_inv_prefix; [|lia] | |].
  - rewrite length_take. lia.
  - rewrite length_take. intros Hl. assert (n = length leaves) as -> by lia. rewrite take_ge by lia. apply Hr. lia.
Qed.

(** ** Putting back leaves whose nodes are stored *)

(** Every tree of the leaves can be read from the table. *)
Definition readable (rht : gmap Z TreeNode) (leaves : list Z) : Prop :=
  rht_sound rht /\ forall m, (m <= length leaves)%nat -> stored rht (leaves_fn (take m leaves)) (Z.of_nat m).

Lemma PutLeaf_keeps_nodes t tx bn bp leaf t' tx' r k nd :
  AppendOnly_PutLeaf t tx bn bp leaf = (t', tx', r) -> db_rht (tx_db tx) !! k = Some nd -> db_rht (tx_db tx') !! k = Some nd.
Proof.
  assert (Hins : forall u, AppendOnly_insert u tx bn bp leaf = (t', tx', r) ->
    db_rht (tx_db tx) !! k = Some nd -> db_rht (tx_db tx') !! k = Some nd).
  { intros u. unfold AppendOnly_insert. destruct (AppendOnly_climb _ _ _ _) as [[h c] ns]. unfold storeRoot.
    destruct (existsb _ _); intros [= <- <- <-]; [done|]. apply storeNodes_monotone. }
  unfold AppendOnly_PutLeaf. destruct (negb _); [|apply Hins].
  destruct (initCache _ _) as [u [?|?]]; [|by intros [= <- <- <-]].
  destruct (negb _); [by intros [= <- <- <-] | apply Hins].
Qed.

Lemma rht_nodes_inv rht nd : rht_sound rht -> In nd (rht_nodes rht) -> rht !! tn_Hash nd = Some nd.
Proof.
  intros Hs Hin. unfold rht_nodes in Hin. apply in_map_iff in Hin as ([k x] & <- & Hin).
  apply list_elem_of_In, elem_of_map_to_list in Hin. cbn. by destruct (Hs _ _ Hin) as [-> _].
Qed.

(** No collision when the nodes are already stored. *)
Lemma put_ok_readable db leaves v rest bn bp :
  readable (db_rht db) (leaves ++ v :: rest) -> Z.of_nat (length leaves) < 2 ^ 32 ->
  (forall r, In r (db_root db) -> Root_lt r (mkRoot (tree_root (leaves ++ [v])) (Z.of_nat (length leaves)) bn bp)) ->
  (forall r, In r (db_root db) -> rt_Hash r <> tree_root (leaves ++ [v])) ->
  put_ok db leaves bn bp v.
Proof.
  intros [Hs Hst] Hsz Hpos Hfresh. split; [done..|].
  assert (Hnodes : forall nd, In nd (rht_nodes (db_rht db) ++ path_nodes (leaves_fn (leaves ++ [v])) (Z.of_nat (length leaves)) DefaultHeight) ->
    db_rht db !! tn_Hash nd = Some nd).
  { intros nd Hin. apply in_app_or in Hin as [Hin|Hin]; [by apply rht_nodes_inv|].
    apply path_nodes_In in Hin as (h & Hh & ->).
    specialize (Hst (S (length leaves)) ltac:(rewrite length_app; simpl; lia)).
    replace (take (S (length leaves)) (leaves ++ v :: rest)) with (leaves ++ [v]) in Hst.
    2:{ rewrite take_app, take_ge by lia. replace (S (length leaves) - length leaves)%nat with 1%nat by lia. done. }
    apply (stored_path _ _ _ (Z.of_nat (length leaves)) h Hst); [lia | done]. }
  unfold collision_free. apply Forall_forall. intros a Ha. apply Forall_forall. intros b Hb E.
  apply list_elem_of_In in Ha, Hb. pose proof (Hnodes a Ha) as Ea. pose proof (Hnodes b Hb) as Eb. rewrite E in Ea. congruence.
Qed.

End Roots.
