(* ===== verification/L1InfoTree.v ===== *)
(** The processor of the L1 info tree syncer ([l1infotreesync/processor*.go]) over the Merkle trees:
    the tables it keeps, the processing of a block or of a batch of blocks in one transaction, reorgs,
    halting, and the queries the aggsender relies on.

    The tables are lists of rows with the constraints of the migrations (primary keys, the unique
    global exit root, deletion of the rows of a deleted block).  The hash of a block row is NULL in rows
    older than that column.  The transaction over the tables of the append-only tree is [Merkle.Tx], whose
    callbacks act on the tree object. *)

From S2P Require Import Prelude Bytes Merkle Tables TreeTx BuildParams Downloader ReorgDetector SyncDriver.

(** ** Data *)

Record UpdateL1InfoTree := mkUpdateL1InfoTree {
  ut_BlockPosition : Z;
  ut_MainnetExitRoot : Z;
  ut_RollupExitRoot : Z;
  ut_ParentHash : Z;
  ut_Timestamp : Z
}.

Record UpdateL1InfoTreeV2 := mkUpdateL1InfoTreeV2 {
  v2_CurrentL1InfoRoot : Z;
  v2_LeafCount : Z;
  v2_Blockhash : Z;
  v2_MinTimestamp : Z
}.

Record VerifyBatches := mkVerifyBatches {
  vb_BlockNumber : Z;
  vb_BlockPosition : Z;
  vb_RollupID : Z;
  vb_NumBatch : Z;
  vb_StateRoot : Z;
  vb_ExitRoot : Z;
  vb_Aggregator : Z;
  vb_TxHash : option Z;
  vb_BlockTimestamp : option Z;
  vb_RollupExitRoot : Z
}.

Record InitL1InfoRootMap := mkInitL1InfoRootMap { im_LeafCount : Z; im_CurrentL1InfoRoot : Z }.
Record L1InfoTreeInitial := mkL1InfoTreeInitial { li_BlockNumber : Z; li_LeafCount : Z; li_L1InfoRoot : Z }.

Record Event := mkEvent {
  ev_UpdateL1InfoTree : option UpdateL1InfoTree;
  ev_UpdateL1InfoTreeV2 : option UpdateL1InfoTreeV2;
  ev_VerifyBatches : option VerifyBatches;
  ev_InitL1InfoRootMap : option InitL1InfoRootMap
}.

Inductive l1Error :=
| ErrInconsistent | ErrPrimaryKey | ErrTree (e : treeError) | ErrNoRows | ErrNoBlock0 | ErrBlockNotProcessed.

(** The tables, those of the append-only tree apart. *)
Record l1db := mkL1db {
  block : list (Z * option Z);
  l1info_leaf : list L1InfoLeaf;
  verify_batches : list VerifyBatches;
  l1info_initial : option L1InfoTreeInitial;
  rollupExitTree : TreeDB
}.

Definition processor : Type := treeProc l1db.

Definition leaf_pos (l : L1InfoLeaf) : Z * Z := (il_BlockNumber l, il_BlockPosition l).
Definition vb_pos (v : VerifyBatches) : Z * Z := (vb_BlockNumber v, vb_BlockPosition v).

Definition orNotFound {A} (o : option A) : result l1Error A := match o with Some a => Ok a | None => Err ErrNoRows end.

(** [SELECT ... FROM block ORDER BY num DESC LIMIT 1]. *)
Definition lastBlock (db : l1db) : option (Z * option Z) := lastRow (block db).

Abbreviation L1 := (eff (txState l1db) l1Error).

Section Processor.
Context `{Kc : Keccak}.

Definition GetGlobalExitRoot (mainnetExitRoot rollupExitRoot : Z) : Z := CalculateGER mainnetExitRoot rollupExitRoot.

(** [L1InfoTreeLeaf.GetHash]. *)
Definition leaf_GetHash (mainnetExitRoot rollupExitRoot previousBlockHash timestamp : Z) : Z :=
  Keccak256Hash [Hash_Bytes (GetGlobalExitRoot mainnetExitRoot rollupExitRoot); Hash_Bytes previousBlockHash;
                 Uint64ToBigEndianBytes timestamp].

(** ** Processing a block *)


Definition insertBlock (num hash : Z) : L1 unit :=
  let! s := sget in
  if existsb (fun b => fst b =? num) (block (ts_db s)) then sfail ErrPrimaryKey
  else smodify (set_db (fun db => mkL1db (block db ++ [(num, Some hash)]) (l1info_leaf db) (verify_batches db)
                                   (l1info_initial db) (rollupExitTree db))).

(** The row violates the primary key or the unique exit root. *)
Definition leaf_conflict (info r : L1InfoLeaf) : bool :=
  ((il_BlockNumber r =? il_BlockNumber info) && (il_BlockPosition r =? il_BlockPosition info)) ||
  (il_GlobalExitRoot r =? il_GlobalExitRoot info).

Definition insertLeaf (info : L1InfoLeaf) : L1 unit :=
  let! s := sget in
  if existsb (leaf_conflict info) (l1info_leaf (ts_db s)) then sfail ErrPrimaryKey
  else smodify (set_db (fun db => mkL1db (block db) (l1info_leaf db ++ [info]) (verify_batches db)
                                   (l1info_initial db) (rollupExitTree db))).

Definition getLastIndex (db : l1db) : option Z :=
  match latest leaf_pos (l1info_leaf db) with Some l => Some (il_L1InfoTreeIndex l) | None => None end.

(** The leaf of an update, at an index. *)
Definition leaf_of (blockNum index : Z) (u : UpdateL1InfoTree) : L1InfoLeaf :=
  mkL1InfoLeaf blockNum (ut_BlockPosition u) index (ut_ParentHash u) (ut_Timestamp u) (ut_MainnetExitRoot u)
    (ut_RollupExitRoot u) (GetGlobalExitRoot (ut_MainnetExitRoot u) (ut_RollupExitRoot u))
    (leaf_GetHash (ut_MainnetExitRoot u) (ut_RollupExitRoot u) (ut_ParentHash u) (ut_Timestamp u)).

Definition processUpdate (blockNum index : Z) (u : UpdateL1InfoTree) : L1 unit :=
  let info := leaf_of blockNum index u in
  let! _ := insertLeaf info in
  let! _ := putLeaf ErrTree (il_BlockNumber info) (il_BlockPosition info) (mkLeaf (il_L1InfoTreeIndex info) (il_Hash info)) in
  sret tt.

(** The sanity check against the root of the contract. *)
Definition processUpdateV2 (v : UpdateL1InfoTreeV2) : L1 unit :=
  let! s := sget in
  match GetLastRoot (tx_db (ts_tx s)) with
  | Err e => sfail (ErrTree e)
  | Ok root =>
      if negb (rt_Hash root =? v2_CurrentL1InfoRoot v) || negb (rt_Index root +u32 1 =? v2_LeafCount v)
      then let! _ := halt in sfail ErrInconsistent
      else sret tt
  end.

(** *** Verified batches ([processor_verifybatches.go]) *)

Definition isNewValueForRollupExitTree (db : TreeDB) (event : VerifyBatches) : result l1Error bool :=
  match GetLastRoot db with
  | Err Merkle.ErrNotFound => Ok true
  | Err e => Err (ErrTree e)
  | Ok currentRoot =>
      match GetLeaf db (vb_RollupID event -u32 1) (rt_Hash currentRoot) with
      | Err Merkle.ErrNotFound => Ok true
      | Err e => Err (ErrTree e)
      | Ok leaf => Ok (negb (leaf =? vb_ExitRoot event))
      end
  end.

Definition processVerifyBatches (blockNumber : Z) (event : VerifyBatches) : L1 unit :=
  if vb_ExitRoot event =? 0 then sret tt
  else
    let! s := sget in
    let! isNewLeaf := slift (isNewValueForRollupExitTree (rollupExitTree (ts_db s)) event) in
    if negb isNewLeaf then sret tt
    else
      match Updatable_PutLeaf newTree (rollupExitTree (ts_db s)) blockNumber (vb_BlockPosition event)
              (mkLeaf (vb_RollupID event -u32 1) (vb_ExitRoot event)) with
      | Err e => sfail (ErrTree e)
      | Ok (tree, newRoot) =>
          let! _ := smodify (set_db (fun db => mkL1db (block db) (l1info_leaf db) (verify_batches db) (l1info_initial db) tree)) in
          if existsb (fun r => (vb_BlockNumber r =? blockNumber) && (vb_BlockPosition r =? vb_BlockPosition event))
               (verify_batches (ts_db s)) then sfail ErrPrimaryKey
          else
            let row := mkVerifyBatches blockNumber (vb_BlockPosition event) (vb_RollupID event) (vb_NumBatch event)
              (vb_StateRoot event) (vb_ExitRoot event) (vb_Aggregator event) (vb_TxHash event) (vb_BlockTimestamp event) newRoot in
            smodify (set_db (fun db => mkL1db (block db) (l1info_leaf db) (verify_batches db ++ [row]) (l1info_initial db) (rollupExitTree db)))
      end.

(** [l1info_initial] holds at most one row. *)
Definition processEventInitL1InfoRootMap (blockNumber : Z) (event : InitL1InfoRootMap) : L1 unit :=
  let! s := sget in
  match l1info_initial (ts_db s) with
  | Some _ => sfail ErrPrimaryKey
  | None => smodify (set_db (fun db => mkL1db (block db) (l1info_leaf db) (verify_batches db)
      (Some (mkL1InfoTreeInitial blockNumber (im_LeafCount event) (im_CurrentL1InfoRoot event))) (rollupExitTree db)))
  end.

(** [if event.X != nil { ... }]. *)
Definition on_some {A} (o : option A) (f : A -> L1 unit) : L1 unit := match o with Some a => f a | None => sret tt end.

(** The loop over the events; [index] is [initialL1InfoIndex + l1InfoLeavesAdded]. *)
Fixpoint processEvents (blockNum index : Z) (events : list Event) : L1 unit :=
  match events with
  | [] => sret tt
  | event :: events' =>
      let! _ := on_some (ev_UpdateL1InfoTree event) (processUpdate blockNum index) in
      let! _ := on_some (ev_UpdateL1InfoTreeV2 event) processUpdateV2 in
      let! _ := on_some (ev_VerifyBatches event) (processVerifyBatches blockNum) in
      let! _ := on_some (ev_InitL1InfoRootMap event) (processEventInitL1InfoRootMap blockNum) in
      processEvents blockNum (match ev_UpdateL1InfoTree event with Some _ => index +u32 1 | None => index end) events'
  end.

Definition processBlock (b : Block Event) : L1 unit :=
  let! _ := insertBlock (bk_Num b) (bk_Hash b) in
  let! s := sget in
  let initialL1InfoIndex := match getLastIndex (ts_db s) with None => 0 | Some lastIndex => lastIndex +u32 1 end in
  processEvents (bk_Num b) initialL1InfoIndex (bk_Events b).

(** ** Transactions *)

Definition l1_ProcessBlock (b : Block Event) (p : processor) : processor * result l1Error unit :=
  if p_halted p then (p, Err ErrInconsistent) else inTx (processBlock b) p.

Fixpoint processAll (blocks : list (Block Event)) : L1 unit :=
  match blocks with
  | [] => sret tt
  | b :: blocks' => let! _ := processBlock b in processAll blocks'
  end.

Definition processBlocksSameTx (blocks : list (Block Event)) : processor -> processor * result l1Error unit :=
  inTx (processAll blocks).

Definition ProcessBlocks (blocks : list (Block Event)) (p : processor) : processor * result l1Error unit :=
  match blocks with
  | [] => (p, Ok tt)
  | _ => if p_halted p then (p, Err ErrInconsistent) else processBlocksSameTx blocks p
  end.

(** Deleting blocks deletes the rows that refer to them; the unhalting is unconditional. *)
Definition l1_Reorg (firstReorgedBlock : Z) (p : processor) : processor :=
  let keep n := negb (firstReorgedBlock <=? n) in
  let db := p_db p in
  mkTreeProc
    (mkL1db (bfilter (fun b => keep (fst b)) (block db)) (bfilter (fun l => keep (il_BlockNumber l)) (l1info_leaf db))
       (bfilter (fun v => keep (vb_BlockNumber v)) (verify_batches db))
       (match l1info_initial db with Some i => if keep (li_BlockNumber i) then Some i else None | None => None end)
       (Reorg (rollupExitTree db) firstReorgedBlock))
    (Reorg (p_treeDB p) firstReorgedBlock) (p_tree p) false.

(** ** Queries *)

Definition l1_GetLastProcessedBlock (p : processor) : result l1Error (option Z) := Ok (fst <$> lastBlock (p_db p)).

Definition getLastProcessedBlockWithTx (p : processor) : Z := match lastBlock (p_db p) with Some b => fst b | None => 0 end.

Definition GetProcessedBlockUntil (p : processor) (blockNum : Z) : result l1Error (Z * Z) :=
  let? b := orNotFound (lastRow (bfilter (fun b => fst b <=? blockNum) (block (p_db p)))) in
  Ok (fst b, default 0 (snd b)).

(** The number and the hash, zero for NULL. *)
Definition GetLastProcessedBlockHeader (p : processor) : option (Z * Z) :=
  match lastBlock (p_db p) with Some b => Some (fst b, default 0 (snd b)) | None => None end.

Definition GetLatestL1InfoLeafUntilBlock (p : processor) (blockNum : option Z) : result l1Error L1InfoLeaf :=
  match blockNum with
  | None => orNotFound (latest leaf_pos (l1info_leaf (p_db p)))
  | Some n =>
      if n =? 0 then Err ErrNoBlock0
      else if getLastProcessedBlockWithTx p <? n then Err ErrBlockNotProcessed
      else orNotFound (latest leaf_pos (bfilter (fun l => il_BlockNumber l <=? n) (l1info_leaf (p_db p))))
  end.

Definition GetLatestL1InfoGER (p : processor) : result l1Error Z :=
  match latest leaf_pos (l1info_leaf (p_db p)) with Some l => Ok (il_GlobalExitRoot l) | None => Err ErrNoRows end.

(** NULL or missing: not found. *)
Definition getBlockHash (p : processor) (blockNum : Z) : option Z :=
  rowHash (block (p_db p)) blockNum.


Definition GetInfoByIndex (p : processor) (index : Z) : result l1Error L1InfoLeaf :=
  orNotFound (List.find (fun l => il_L1InfoTreeIndex l =? index) (l1info_leaf (p_db p))).

(** The leaf joined with the hash of its block, zero when there is none. *)
Definition getInfoByIndexWithBlockHash (p : processor) (index : Z) : result l1Error (L1InfoLeaf * Z) :=
  let? l := GetInfoByIndex p index in
  Ok (l, default 0 (getBlockHash p (il_BlockNumber l))).

Definition GetFirstL1InfoWithRollupExitRoot (p : processor) (rollupExitRoot : Z) : result l1Error L1InfoLeaf :=
  orNotFound (earliest leaf_pos (bfilter (fun l => il_RollupExitRoot l =? rollupExitRoot) (l1info_leaf (p_db p)))).
Definition GetLastInfo (p : processor) : result l1Error L1InfoLeaf := orNotFound (latest leaf_pos (l1info_leaf (p_db p))).
Definition GetFirstInfo (p : processor) : result l1Error L1InfoLeaf := orNotFound (earliest leaf_pos (l1info_leaf (p_db p))).
Definition GetFirstInfoAfterBlock (p : processor) (blockNum : Z) : result l1Error L1InfoLeaf :=
  orNotFound (earliest leaf_pos (bfilter (fun l => blockNum <=? il_BlockNumber l) (l1info_leaf (p_db p)))).
Definition GetInfoByGlobalExitRoot (p : processor) (ger : Z) : result l1Error L1InfoLeaf :=
  orNotFound (List.find (fun l => il_GlobalExitRoot l =? ger) (l1info_leaf (p_db p))).
Definition GetInfoByRoot (p : processor) (root : Z) : result l1Error L1InfoLeaf :=
  match GetRootByHash (p_treeDB p) root with
  | Err e => Err (ErrTree e)
  | Ok treeRoot => GetInfoByIndex p (rt_Index treeRoot)
  end.
Definition GetInitL1InfoRootMap (p : processor) : option L1InfoTreeInitial := l1info_initial (p_db p).

Definition vb_of (rollupID : Z) (p : processor) : list VerifyBatches :=
  bfilter (fun v => vb_RollupID v =? rollupID) (verify_batches (p_db p)).
Definition GetLastVerifiedBatches (p : processor) (rollupID : Z) : result l1Error VerifyBatches :=
  orNotFound (latest vb_pos (vb_of rollupID p)).
Definition GetFirstVerifiedBatches (p : processor) (rollupID : Z) : result l1Error VerifyBatches :=
  orNotFound (earliest vb_pos (vb_of rollupID p)).
Definition GetFirstVerifiedBatchesAfterBlock (p : processor) (rollupID blockNum : Z) : result l1Error VerifyBatches :=
  orNotFound (earliest vb_pos (bfilter (fun v => blockNum <=? vb_BlockNumber v) (vb_of rollupID p))).

(** The page is cut out of the rows ordered by settlement, latest first. *)
Definition GetVerifiedBatchesPaged (p : processor) (rollupID pageNumber pageSize : Z) : list (VerifyBatches * option Z) * Z :=
  let rows := vb_of rollupID p in
  let count := Z.of_nat (length rows) in
  if count =? 0 then ([], 0)
  else
    let offset := (pageNumber -u64 1) *u64 pageSize in
    (map (fun v => (v, getBlockHash p (vb_BlockNumber v)))
       (page pageSize offset (merge_sort (pos_ge vb_pos) rows)), count).

End Processor.

Section Proofs.
Context `{Kc : Keccak}.

(** ** The invariant of the processor *)

(** The rows are the leaves of the tree, at their indexes and positions, with the hashes computed from
    their contents, of known blocks, with distinct global exit roots. *)
Record l1_inv (db : l1db) (t : AppendOnlyTree) (tdb : TreeDB) : Prop := {
  iv_tree : aot_inv t tdb (map il_Hash (l1info_leaf db));
  iv_index : forall k l, l1info_leaf db !! k = Some l -> il_L1InfoTreeIndex l = Z.of_nat k;
  iv_roots : map root_pos (db_root tdb) = map leaf_pos (l1info_leaf db);
  iv_leaf : Forall (fun l => il_GlobalExitRoot l = CalculateGER (il_MainnetExitRoot l) (il_RollupExitRoot l) /\
    il_Hash l = leaf_GetHash (il_MainnetExitRoot l) (il_RollupExitRoot l) (il_PreviousBlockHash l) (il_Timestamp l)) (l1info_leaf db);
  iv_ger : NoDup (map il_GlobalExitRoot (l1info_leaf db));
  iv_blocks : Forall (fun l => il_BlockNumber l ∈ map fst (block db)) (l1info_leaf db);
  iv_nodup : NoDup (map fst (block db))
}.

Definition p_inv (p : processor) : Prop := l1_inv (p_db p) (p_tree p) (p_treeDB p).

(** Rows are in the order of their positions. *)
Lemma leaves_ordered db t tdb i j a b :
  l1_inv db t tdb -> (i < j)%nat -> l1info_leaf db !! i = Some a -> l1info_leaf db !! j = Some b ->
  pos_ltb (leaf_pos a) (leaf_pos b) = true.
Proof.
  intros Hinv Hij Ha Hb. pose proof (iv_roots _ _ _ Hinv) as Hr.
  assert (Hget : forall k l, l1info_leaf db !! k = Some l -> exists r, db_root tdb !! k = Some r /\ root_pos r = leaf_pos l).
  { intros k l Hk. assert (E : map root_pos (db_root tdb) !! k = Some (leaf_pos l))
      by (rewrite Hr; change (leaf_pos <$> l1info_leaf db) with (map leaf_pos (l1info_leaf db)); by rewrite list_lookup_fmap, Hk).
    apply list_lookup_fmap_Some in E as (r & Hrk & E). eauto. }
  destruct (Hget i a Ha) as (ra & Hra & <-), (Hget j b Hb) as (rb & Hrb & <-). apply Root_lt_pos.
  by apply (di_sorted _ _ (ai_db _ _ _ (iv_tree _ _ _ Hinv)) i j).
Qed.

Lemma getLastIndex_last db t tdb :
  l1_inv db t tdb ->
  match getLastIndex db with
  | None => l1info_leaf db = []
  | Some i => i = Z.of_nat (length (l1info_leaf db)) - 1 /\ l1info_leaf db <> []
  end.
Proof.
  intros Hinv. unfold getLastIndex, latest. destruct (l1info_leaf db) as [|x l _] eqn:E using rev_ind; [done|].
  rewrite firstBy_app.
  - split; [|by destruct l]. rewrite length_app. simpl. rewrite (iv_index _ _ _ Hinv (length l) x); [lia|].
    rewrite E. by rewrite lookup_app_r, Nat.sub_diag by lia.
  - intros y Hy. apply list_elem_of_In, list_elem_of_lookup in Hy as [k Hk].
    assert (k < length l)%nat by (by eapply lookup_lt_Some).
    apply (leaves_ordered db t tdb k (length l)); [done | lia | |]; rewrite E.
    + by rewrite lookup_app_l by lia.
    + by rewrite lookup_app_r, Nat.sub_diag by lia.
Qed.

(** ** Atomicity

    What every computation inside a transaction respects: the tables saved at its start stay saved, the
    processor halts exactly on the inconsistency error, and success adds exactly the blocks given. *)
Definition l1_safe {A} (added : list (Z * option Z)) (s s' : txState l1db) (r : result l1Error A) : Prop :=
  ts_halted s' = match r with Err ErrInconsistent => true | _ => ts_halted s end /\
  (is_ok r = true -> block (ts_db s') = block (ts_db s) ++ added).
Abbreviation tx_safe added := (tx_resp (l1_safe added)).

Lemma tx_safe_ret {A} (a : A) : tx_safe [] (sret a : L1 A).
Proof. intros s s' r [= <- <-]. unfold l1_safe. by rewrite app_nil_r. Qed.

Lemma tx_safe_fail {A} added (e : l1Error) : e <> ErrInconsistent -> tx_safe added (sfail e : L1 A).
Proof. intros He s s' r [= <- <-]. split; [done|]. split; [by destruct e | done]. Qed.

Lemma tx_safe_get : tx_safe [] (sget : L1 (txState l1db)).
Proof. intros s s' r [= <- <-]. unfold l1_safe. by rewrite app_nil_r. Qed.

Lemma tx_safe_set added f : (forall db, block (f db) = block db ++ added) -> tx_safe added (smodify (set_db f) : L1 unit).
Proof. intros Hf s s' r [= <- <-]. split; [done|]. split; [done|]. intros _. apply Hf. Qed.

Lemma tx_safe_bind {A B} a1 a2 (c : L1 A) (k : A -> L1 B) :
  tx_safe a1 c -> (forall a, tx_safe a2 (k a)) -> tx_safe (a1 ++ a2) (sbind c k).
Proof.
  intros Hc Hk s s' r. unfold sbind. destruct (c s) as [s1 [a|e]] eqn:E; apply Hc in E as (E1 & E2 & E3).
  - intros Hr. apply Hk in Hr as (Hr1 & Hr2 & Hr3). split; [congruence|]. split; [rewrite Hr2; by destruct r as [|[]]|].
    intros Hok. by rewrite (Hr3 Hok), (E3 eq_refl), app_assoc.
  - intros [= <- <-]. done.
Qed.

(** A step that adds no block, then the rest. *)
Lemma tx_safe_seq {A B} added (c : L1 A) (k : A -> L1 B) :
  tx_safe [] c -> (forall a, tx_safe added (k a)) -> tx_safe added (sbind c k).
Proof. apply (tx_safe_bind []). Qed.

Lemma tx_safe_on_some {A} (o : option A) f : (forall a, tx_safe [] (f a)) -> tx_safe [] (on_some o f).
Proof. intros Hf. destruct o; [apply Hf | apply tx_safe_ret]. Qed.

Ltac tx_safe := first [ apply tx_safe_ret | by apply tx_safe_fail | apply tx_safe_get
  | apply tx_safe_set; intros db; cbn; (reflexivity || by rewrite app_nil_r) ].

Lemma putLeaf_safe bn bp leaf : tx_safe [] (putLeaf ErrTree bn bp leaf).
Proof.
  intros s s' r. unfold putLeaf. destruct (AppendOnly_PutLeaf _ _ _ _ _) as [[t tx] q] eqn:E.
  apply PutLeaf_saved in E. intros [= <- <-]. split; [done|]. unfold l1_safe. rewrite app_nil_r. by destruct q.
Qed.

Lemma processUpdateV2_safe v : tx_safe [] (processUpdateV2 v).
Proof.
  unfold processUpdateV2. apply tx_safe_seq; [tx_safe|]. intros s0. destruct (GetLastRoot _); [|tx_safe].
  destruct (_ || _); [|tx_safe]. intros s s' r [= <- <-]. done.
Qed.

Lemma processVerifyBatches_safe bn v : tx_safe [] (processVerifyBatches bn v).
Proof.
  unfold processVerifyBatches. destruct (_ =? 0); [tx_safe|]. apply tx_safe_seq; [tx_safe|]. intros s0.
  apply tx_safe_seq.
  { unfold isNewValueForRollupExitTree. intros s s' r [= <- <-]. split; [done|]. unfold l1_safe. rewrite app_nil_r.
    destruct (GetLastRoot _) as [|[]]; [destruct (GetLeaf _ _ _) as [|[]]|..]; done. }
  intros isNew. destruct (negb isNew); [tx_safe|]. destruct (Updatable_PutLeaf _ _ _ _ _) as [[tree root]|e]; [|tx_safe].
  apply tx_safe_seq; [tx_safe|]. intros _. destruct (existsb _ _); tx_safe.
Qed.

Lemma processInit_safe bn i : tx_safe [] (processEventInitL1InfoRootMap bn i).
Proof. unfold processEventInitL1InfoRootMap. apply tx_safe_seq; [tx_safe|]. intros s0. destruct (l1info_initial _); tx_safe. Qed.

Lemma processUpdate_safe bn index u : tx_safe [] (processUpdate bn index u).
Proof.
  unfold processUpdate, insertLeaf. apply tx_safe_seq; [|intros _].
  - apply tx_safe_seq; [tx_safe|]. intros s0. destruct (existsb _ _); tx_safe.
  - apply tx_safe_seq; [apply putLeaf_safe | intros _; tx_safe].
Qed.

Lemma processEvents_safe bn events : forall index, tx_safe [] (processEvents bn index events).
Proof.
  induction events as [|e es IH]; intros index; cbn [processEvents]; [tx_safe|].
  repeat (apply tx_safe_seq; [|intros _]); [..|apply IH]; apply tx_safe_on_some; intros x.
  - apply processUpdate_safe.
  - apply processUpdateV2_safe.
  - apply processVerifyBatches_safe.
  - apply processInit_safe.
Qed.

Definition block_row (b : Block Event) : Z * option Z := (bk_Num b, Some (bk_Hash b)).

Lemma processBlock_safe b : tx_safe [block_row b] (processBlock b).
Proof.
  unfold processBlock, insertBlock. apply (tx_safe_bind [block_row b] []).
  - apply tx_safe_seq; [tx_safe|]. intros s0. destruct (existsb _ _); tx_safe.
  - intros _. apply tx_safe_seq; [tx_safe|]. intros s0. apply processEvents_safe.
Qed.

Lemma processAll_safe blocks : tx_safe (map block_row blocks) (processAll blocks).
Proof.
  induction blocks as [|b bs IH]; cbn [processAll map]; [tx_safe|].
  apply (tx_safe_bind [_]); [apply processBlock_safe | done].
Qed.

Lemma inTx_err added c p p' e :
  tx_safe added c -> inTx c p = (p', Err e) ->
  p_db p' = p_db p /\ p_treeDB p' = p_treeDB p /\ p_halted p' = match e with ErrInconsistent => true | _ => p_halted p end.
Proof. intros Hc Hr. destruct (inTx_Err _ _ _ _ _ Hc Hr) as (E1 & E2 & s & [E3 _] & E4). by rewrite E4, E3. Qed.

Lemma inTx_ok added c p p' u : tx_safe added c -> inTx c p = (p', Ok u) -> block (p_db p') = block (p_db p) ++ added.
Proof. intros Hc Hr. destruct (inTx_Ok _ _ _ _ _ Hc Hr) as (s & a & [_ E] & -> & _). by apply E. Qed.

(** A batch of blocks is processed entirely or not at all: when any block of it fails, at any event
    and for any reason, every table is as it was before the batch, and the processor is halted exactly
    when the reason is that a root or leaf count differs from the contract's; once halted, every
    further batch is refused and changes nothing. *)
Theorem ProcessBlocks_atomic blocks p p' e :
  ProcessBlocks blocks p = (p', Err e) ->
  p_db p' = p_db p /\ p_treeDB p' = p_treeDB p /\
  p_halted p' = match e with ErrInconsistent => true | _ => false end /\
  (p_halted p' = true -> forall blocks', blocks' <> [] -> ProcessBlocks blocks' p' = (p', Err ErrInconsistent)).
Proof.
  intros Hrun. assert (Hhalt : p_halted p' = true -> forall blocks', blocks' <> [] -> ProcessBlocks blocks' p' = (p', Err ErrInconsistent)).
  { intros Hh blocks' Hne. unfold ProcessBlocks. destruct blocks'; [done|]. by rewrite Hh. }
  unfold ProcessBlocks in Hrun. destruct blocks; [discriminate|]. destruct (p_halted p) eqn:Hh.
  { injection Hrun as <- <-. split_and!; done. }
  apply (inTx_err _ _ _ _ _ (processAll_safe _)) in Hrun as (E1 & E2 & E3). rewrite Hh in E3. done.
Qed.

(** ** Appending the leaves of a block *)

Definition ts_inv (s : txState l1db) : Prop := l1_inv (ts_db s) (ts_tree s) (tx_db (ts_tx s)).

Abbreviation hashes db := (map il_Hash (l1info_leaf db)).

(** The conditions on an update in a state: the append-only tree accepts the leaf (a later position,
    no collision), and its global exit root is new. *)
Record update_ok (blockNum index : Z) (u : UpdateL1InfoTree) (s : txState l1db) : Prop := {
  uk_put : put_ok (tx_db (ts_tx s)) (hashes (ts_db s)) blockNum (ut_BlockPosition u) (il_Hash (leaf_of blockNum index u));
  uk_ger : il_GlobalExitRoot (leaf_of blockNum index u) ∉ map il_GlobalExitRoot (l1info_leaf (ts_db s))
}.

(** The same along the events of a block. *)
Fixpoint events_ok (blockNum index : Z) (events : list Event) (s : txState l1db) : Prop :=
  match events with
  | [] => True
  | e :: es =>
      match ev_UpdateL1InfoTree e with
      | None => events_ok blockNum index es s
      | Some u => update_ok blockNum index u s /\
          forall s', processUpdate blockNum index u s = (s', Ok tt) -> events_ok blockNum (index +u32 1) es s'
      end
  end.

(** The leaves of the events, from an index on. *)
Fixpoint new_leaves (blockNum index : Z) (events : list Event) : list L1InfoLeaf :=
  match events with
  | [] => []
  | e :: es =>
      match ev_UpdateL1InfoTree e with
      | None => new_leaves blockNum index es
      | Some u => leaf_of blockNum index u :: new_leaves blockNum (index +u32 1) es
      end
  end.

(** Every root and leaf count the contract reports is that of the leaves so far. *)
Fixpoint v2_truthful (leaves : list Z) (events : list Event) : Prop :=
  match events with
  | [] => True
  | e :: es =>
      let leaves := match ev_UpdateL1InfoTree e with Some u => leaves ++ [il_Hash (leaf_of 0 0 u)] | None => leaves end in
      match ev_UpdateL1InfoTreeV2 e with
      | None => True
      | Some v => leaves <> [] /\ v2_CurrentL1InfoRoot v = tree_root leaves /\ v2_LeafCount v = wrap32 (Z.of_nat (length leaves))
      end /\ v2_truthful leaves es
  end.

Definition only_updates (events : list Event) : Prop :=
  Forall (fun e => ev_VerifyBatches e = None /\ ev_InitL1InfoRootMap e = None) events.

Lemma insertLeaf_run info s :
  (forall l, In l (l1info_leaf (ts_db s)) -> leaf_conflict info l = false) ->
  insertLeaf info s = (set_db (fun db => mkL1db (block db) (l1info_leaf db ++ [info]) (verify_batches db)
                                 (l1info_initial db) (rollupExitTree db)) s, Ok tt).
Proof. intros Hc. unfold insertLeaf. erewrite sbind_run by reflexivity. by rewrite (proj2 (existsb_false_In _ _) Hc). Qed.

(** The last row is before any position the tree accepts. *)
Lemma update_no_conflict bn index u s l :
  ts_inv s -> update_ok bn index u s -> In l (l1info_leaf (ts_db s)) -> leaf_conflict (leaf_of bn index u) l = false.
Proof.
  intros Hinv [Hput Hger] Hl. unfold leaf_conflict. apply orb_false_iff. split.
  - apply (put_pos_fresh leaf_pos _ _ _ _ _ _ l (iv_roots _ _ _ Hinv) Hput Hl).
  - apply Z.eqb_neq. intros E. apply Hger. rewrite <- E. apply list_elem_of_In. by apply in_map.
Qed.


(** The state after a leaf: its row, and the tree with its hash. *)
Definition leaf_added (info : L1InfoLeaf) (s s' : txState l1db) : Prop :=
  ts_db s' = mkL1db (block (ts_db s)) (l1info_leaf (ts_db s) ++ [info]) (verify_batches (ts_db s))
               (l1info_initial (ts_db s)) (rollupExitTree (ts_db s)) /\
  tx_commitCallbacks (ts_tx s') = tx_commitCallbacks (ts_tx s).

Lemma processUpdate_run bn index u s :
  ts_inv s -> bn ∈ map fst (block (ts_db s)) -> index = wrap32 (Z.of_nat (length (l1info_leaf (ts_db s)))) ->
  update_ok bn index u s ->
  exists s', processUpdate bn index u s = (s', Ok tt) /\ ts_inv s' /\ leaf_added (leaf_of bn index u) s s'.
Proof.
  intros Hinv Hbn Hidx Hok. pose proof Hok as [Hput Hger].
  assert (Hi : index = Z.of_nat (length (hashes (ts_db s)))).
  { rewrite length_map, Hidx. apply wrap32_small. pose proof (po_size _ _ _ _ _ Hput) as Hs. rewrite length_map in Hs.
    unfold is_u32, pow2_32. lia. }
  destruct (PutLeaf_run (ts_tree s) (ts_tx s) (hashes (ts_db s)) bn (ut_BlockPosition u) (il_Hash (leaf_of bn index u))
    (iv_tree _ _ _ Hinv) Hput) as (t' & tx' & Hrun & Hinv' & Hrows & Hsaved & Hcommit).
  rewrite <- Hi in Hrun.
  exists (mkTxState (mkL1db (block (ts_db s)) (l1info_leaf (ts_db s) ++ [leaf_of bn index u]) (verify_batches (ts_db s))
    (l1info_initial (ts_db s)) (rollupExitTree (ts_db s))) t' tx' (ts_halted s)).
  split; [|split; [|done]].
  - unfold processUpdate. erewrite sbind_run by (apply insertLeaf_run; intros l; by apply update_no_conflict).
    unfold sbind, putLeaf. cbn [set_db ts_tree ts_tx ts_db ts_halted il_BlockNumber il_BlockPosition il_L1InfoTreeIndex leaf_of].
    rewrite Hrun. done.
  - destruct Hinv as [Htree Hindex Hroots Hleaf Hgers Hblocks Hnd]. split; cbn [ts_db ts_tree ts_tx l1info_leaf block].
    + by rewrite map_app.
    + intros k l Hk. apply lookup_app_Some in Hk as [Hk|[Hge Hk]]; [by apply Hindex|].
      apply list_lookup_singleton_Some in Hk as [Hk <-]. cbn. rewrite Hi, length_map. lia.
    + by rewrite Hrows, !map_app, Hroots.
    + apply Forall_app. split; [done|]. by apply Forall_singleton.
    + rewrite map_app. apply NoDup_app. split; [done|]. split; [|apply NoDup_singleton].
      intros x Hx Hx'. apply list_elem_of_singleton in Hx' as ->. done.
    + apply Forall_app. split; [done|]. by apply Forall_singleton.
    + done.
Qed.

(** The check of the contract's root reads the last root of the tree. *)
Lemma processUpdateV2_run v s :
  ts_inv s ->
  (processUpdateV2 v s = (s, Ok tt) /\ hashes (ts_db s) <> [] /\
     v2_CurrentL1InfoRoot v = tree_root (hashes (ts_db s)) /\ v2_LeafCount v = wrap32 (Z.of_nat (length (hashes (ts_db s))))) \/
  (exists s' e, processUpdateV2 v s = (s', Err e) /\
     ~ (hashes (ts_db s) <> [] /\ v2_CurrentL1InfoRoot v = tree_root (hashes (ts_db s)) /\
        v2_LeafCount v = wrap32 (Z.of_nat (length (hashes (ts_db s)))))).
Proof.
  intros Hinv. unfold processUpdateV2. erewrite !sbind_run by reflexivity. pose proof (ai_db _ _ _ (iv_tree _ _ _ Hinv)) as Hdb.
  destruct (hashes (ts_db s)) as [|x l] eqn:E.
  { assert (E' : db_root (tx_db (ts_tx s)) = []) by (apply nil_length_inv; by rewrite (di_length _ _ Hdb)).
    unfold GetLastRoot. rewrite E'. right. do 2 eexists. split; [done|]. by intros [? _]. }
  destruct (GetLastRoot_db_inv _ _ Hdb ltac:(done)) as (r & -> & Hri & Hrh). rewrite Hri, Hrh.
  unfold add32. replace (Z.of_nat (length (x :: l)) - 1 + 1) with (Z.of_nat (length (x :: l))) by lia.
  destruct (tree_root (x :: l) =? v2_CurrentL1InfoRoot v) eqn:E1, (wrap32 (Z.of_nat (length (x :: l))) =? v2_LeafCount v) eqn:E2;
    bool_hyps; cbn [negb orb]; [left; done|..]; right; do 2 eexists; (split; [done|]); intros (_ & ? & ?); congruence.
Qed.


(** What a successful run over the events of a block leaves. *)
Definition block_added (bn index : Z) (events : list Event) (s s' : txState l1db) : Prop :=
  ts_inv s' /\ l1info_leaf (ts_db s') = l1info_leaf (ts_db s) ++ new_leaves bn index events /\
  block (ts_db s') = block (ts_db s) /\ tx_commitCallbacks (ts_tx s') = tx_commitCallbacks (ts_tx s).

Lemma wrap32_succ n : wrap32 (Z.of_nat n) +u32 1 = wrap32 (Z.of_nat (S n)).
Proof. unfold add32, wrap32. rewrite Zplus_mod_idemp_l. f_equal. lia. Qed.

(** The update of an event, if any. *)
Lemma on_update_run bn index e es s :
  ts_inv s -> bn ∈ map fst (block (ts_db s)) -> index = wrap32 (Z.of_nat (length (l1info_leaf (ts_db s)))) ->
  events_ok bn index (e :: es) s ->
  exists s1, on_some (ev_UpdateL1InfoTree e) (processUpdate bn index) s = (s1, Ok tt) /\ ts_inv s1 /\
    block (ts_db s1) = block (ts_db s) /\ tx_commitCallbacks (ts_tx s1) = tx_commitCallbacks (ts_tx s) /\
    l1info_leaf (ts_db s1) = l1info_leaf (ts_db s) ++ match ev_UpdateL1InfoTree e with Some u => [leaf_of bn index u] | None => [] end /\
    events_ok bn (match ev_UpdateL1InfoTree e with Some _ => index +u32 1 | None => index end) es s1.
Proof.
  intros Hinv Hbn Hidx Hok. cbn [events_ok] in Hok. destruct (ev_UpdateL1InfoTree e) as [u|]; cbn [on_some].
  - destruct Hok as [Hu Hnext]. destruct (processUpdate_run bn index u s Hinv Hbn Hidx Hu) as (s1 & Hrun & Hinv1 & Hdb & Hcb).
    exists s1. split; [done|]. split; [done|]. rewrite Hdb. split_and!; auto.
  - exists s. rewrite app_nil_r. split_and!; done.
Qed.

Lemma processEvents_run bn events : forall index s,
  ts_inv s -> bn ∈ map fst (block (ts_db s)) -> index = wrap32 (Z.of_nat (length (l1info_leaf (ts_db s)))) ->
  only_updates events -> events_ok bn index events s ->
  (v2_truthful (hashes (ts_db s)) events /\
     exists s', processEvents bn index events s = (s', Ok tt) /\ block_added bn index events s s') \/
  (~ v2_truthful (hashes (ts_db s)) events /\ exists s' e, processEvents bn index events s = (s', Err e)).
Proof.
  induction events as [|e es IH]; intros index s Hinv Hbn Hidx Honly Hok.
  { left. split; [done|]. exists s. split; [done|]. split; [done|]. by rewrite app_nil_r. }
  apply Forall_cons in Honly as [[Hvb Him] Honly]. cbn [processEvents]. rewrite Hvb, Him. cbn [on_some].
  pose proof (on_update_run bn index e es s Hinv Hbn Hidx Hok) as Hup.
  destruct Hup as (s1 & Hrun & Hinv1 & Hblk & Hcb & Hrows & Hok1). erewrite sbind_run by exact Hrun. clear Hrun Hok.
  assert (Hhash : match ev_UpdateL1InfoTree e with Some u => hashes (ts_db s) ++ [il_Hash (leaf_of 0 0 u)] | None => hashes (ts_db s) end
                  = hashes (ts_db s1)).
  { rewrite Hrows, map_app. destruct (ev_UpdateL1InfoTree e); [done|]. cbn. by rewrite app_nil_r. }
  cbn [v2_truthful]. rewrite Hhash.
  assert (Hidx1 : match ev_UpdateL1InfoTree e with Some _ => index +u32 1 | None => index end = wrap32 (Z.of_nat (length (l1info_leaf (ts_db s1))))).
  { rewrite Hrows, length_app, Hidx. destruct (ev_UpdateL1InfoTree e); cbn [length].
    - rewrite wrap32_succ. do 2 f_equal. lia.
    - by rewrite Nat.add_0_r. }
  assert (Htail : forall s2, s2 = s1 -> (v2_truthful (hashes (ts_db s1)) es /\
     exists s', processEvents bn (match ev_UpdateL1InfoTree e with Some _ => index +u32 1 | None => index end) es s2 = (s', Ok tt) /\
       block_added bn index (e :: es) s s') \/
    (~ v2_truthful (hashes (ts_db s1)) es /\ exists s' err,
       processEvents bn (match ev_UpdateL1InfoTree e with Some _ => index +u32 1 | None => index end) es s2 = (s', Err err))).
  { intros s2 ->. destruct (IH _ s1 Hinv1 ltac:(by rewrite Hblk) Hidx1 Honly Hok1) as [[Ht (s' & Hrun & Hadd)]|Herr]; [left|by right].
    split; [done|]. exists s'. split; [done|]. destruct Hadd as (Hi & Hl & Hb & Hc). split; [done|].
    rewrite Hl, Hrows, <- app_assoc, Hb, Hc. cbn [new_leaves]. by destruct (ev_UpdateL1InfoTree e). }
  destruct (ev_UpdateL1InfoTreeV2 e) as [v|]; cbn [on_some].
  - destruct (processUpdateV2_run v s1 Hinv1) as [(Hrun & Htr)|(s' & err & Hrun & Hntr)].
    + erewrite sbind_run by exact Hrun. destruct (Htail s1 eq_refl) as [[? ?]|[Hn ?]]; [left; done|right].
      split; [by intros [_ ?] | done].
    + right. split; [by intros [? _]|]. exists s', err. unfold sbind at 1. by rewrite Hrun.
  - destruct (Htail s1 eq_refl) as [[? ?]|[Hn ?]]; [left; done | right]. split; [by intros [_ ?] | done].
Qed.


(** The transaction once the row of the block is inserted, and the index of its first leaf. *)
Definition with_block (b : Block Event) (p : processor) : txState l1db :=
  set_db (fun db => mkL1db (block db ++ [(bk_Num b, Some (bk_Hash b))]) (l1info_leaf db) (verify_batches db)
                      (l1info_initial db) (rollupExitTree db)) (beginTx p).

Definition next_index (p : processor) : Z := wrap32 (Z.of_nat (length (l1info_leaf (p_db p)))).

Lemma with_block_inv b p : p_inv p -> bk_Num b ∉ map fst (block (p_db p)) -> ts_inv (with_block b p).
Proof.
  intros [Htree Hindex Hroots Hleaf Hgers Hblocks Hnd] Hnew. split; cbn; try done.
  - rewrite map_app. eapply Forall_impl; [exact Hblocks|]. intros l Hl. apply elem_of_app. by left.
  - rewrite map_app. apply NoDup_app. split; [done|]. split; [|apply NoDup_singleton].
    intros x Hx Hx'. apply list_elem_of_singleton in Hx' as ->. done.
Qed.

Lemma processBlock_start b p :
  p_inv p -> bk_Num b ∉ map fst (block (p_db p)) ->
  processBlock b (beginTx p) = processEvents (bk_Num b) (next_index p) (bk_Events b) (with_block b p).
Proof.
  intros Hinv Hnew. unfold processBlock. erewrite sbind_run.
  2:{ unfold insertBlock. erewrite sbind_run by reflexivity. rewrite (proj2 (existsb_false_In _ _)); [reflexivity|].
      intros x Hx. apply Z.eqb_neq. intros E. apply Hnew. rewrite <- E. apply list_elem_of_In. by apply in_map. }
  erewrite sbind_run by reflexivity. unfold next_index. pose proof (getLastIndex_last _ _ _ Hinv) as Hlast.
  change (getLastIndex (ts_db (set_db _ (beginTx p)))) with (getLastIndex (p_db p)).
  destruct (getLastIndex (p_db p)) as [i|].
  - destruct Hlast as [-> Hne]. unfold add32. do 2 f_equal. lia.
  - by rewrite Hlast.
Qed.

Lemma ProcessBlock_run b p :
  p_inv p -> p_halted p = false -> bk_Num b ∉ map fst (block (p_db p)) -> only_updates (bk_Events b) ->
  events_ok (bk_Num b) (next_index p) (bk_Events b) (with_block b p) ->
  let '(p', r) := l1_ProcessBlock b p in
  (r = Ok tt <-> v2_truthful (hashes (p_db p)) (bk_Events b)) /\
  (r = Ok tt -> p_inv p' /\ block (p_db p') = block (p_db p) ++ [(bk_Num b, Some (bk_Hash b))] /\
     l1info_leaf (p_db p') = l1info_leaf (p_db p) ++ new_leaves (bk_Num b) (next_index p) (bk_Events b)).
Proof.
  intros Hinv Hh Hnew Honly Hok. unfold l1_ProcessBlock, inTx. rewrite Hh, processBlock_start by done.
  destruct (processEvents_run (bk_Num b) (bk_Events b) (next_index p) (with_block b p)) as
    [(Ht & s' & -> & Hi & Hl & Hb & Hc)|(Hn & s' & e & ->)]; try done.
  - by apply with_block_inv.
  - cbn. rewrite map_app. apply elem_of_app. right. by apply list_elem_of_singleton.
  - unfold commitTx, Tx_Commit. rewrite Hc. cbn [with_block set_db beginTx ts_tx NewTx tx_commitCallbacks fold_left].
    split; [done|]. intros _. split; [done|]. cbn [p_db]. by rewrite Hb, Hl.
Qed.

(** C23. Processing a block of updates: it succeeds exactly when every root and leaf count the contract
    reports is the root and the count of the leaves so far; then the block and one row per update are
    appended, the tree holds their hashes in order, and the correspondence between rows, roots and tree
    is kept. *)
Theorem ProcessBlock_appends_leaves b p :
  p_inv p -> p_halted p = false -> bk_Num b ∉ map fst (block (p_db p)) -> only_updates (bk_Events b) ->
  events_ok (bk_Num b) (next_index p) (bk_Events b) (with_block b p) ->
  let '(p', r) := l1_ProcessBlock b p in
  (r = Ok tt <-> v2_truthful (hashes (p_db p)) (bk_Events b)) /\
  (r = Ok tt -> p_inv p' /\ block (p_db p') = block (p_db p) ++ [(bk_Num b, Some (bk_Hash b))] /\
     l1info_leaf (p_db p') = l1info_leaf (p_db p) ++ new_leaves (bk_Num b) (next_index p) (bk_Events b)).
Proof. apply ProcessBlock_run. Qed.

(** ** Reorgs *)

(** C30. A reorg leaves the processor as if no block from the first reorged one on had been seen: exactly
    the earlier blocks remain, with exactly their leaves, the tree answers for those leaves, the
    invariant holds, and processing resumes even if the processor was halted. *)
Theorem l1_Reorg_restores firstReorgedBlock p :
  p_inv p ->
  let p' := l1_Reorg firstReorgedBlock p in
  p_inv p' /\ p_halted p' = false /\
  (forall n h, (n, h) ∈ block (p_db p') <-> (n, h) ∈ block (p_db p) /\ n < firstReorgedBlock) /\
  exists k, l1info_leaf (p_db p') = take k (l1info_leaf (p_db p)) /\
    forall i l, l1info_leaf (p_db p) !! i = Some l -> il_BlockNumber l < firstReorgedBlock <-> (i < k)%nat.
Proof.
  intros Hinv p'. destruct (Reorg_prefix _ _ _ firstReorgedBlock (iv_tree _ _ _ Hinv)) as (k & Hk & Htree & Hroots & Hiff).
  rewrite length_map in Hk. pose proof (iv_roots _ _ _ Hinv) as Hpos.
  assert (Hrows : l1info_leaf (p_db p') = take k (l1info_leaf (p_db p))) by (cbn; by apply (rows_prefix leaf_pos _ _ _ _ Hpos)).
  assert (Hblk : forall n h, (n, h) ∈ block (p_db p') <-> (n, h) ∈ block (p_db p) /\ n < firstReorgedBlock).
  { intros n h. cbn. rewrite !list_elem_of_In, bfilter_In. cbn. rewrite negb_true_iff, Z.leb_gt. done. }
  assert (Hcut : forall i l, l1info_leaf (p_db p) !! i = Some l -> il_BlockNumber l < firstReorgedBlock <-> (i < k)%nat).
  { intros i l Hl. assert (E : map root_pos (db_root (p_treeDB p)) !! i = Some (leaf_pos l)).
    { rewrite Hpos. change (map leaf_pos) with (fmap leaf_pos (M := list)). by rewrite list_lookup_fmap, Hl. }
    apply list_lookup_fmap_Some in E as (r & E & Hr). rewrite <- (Hiff i r Hr). by injection E as -> _. }
  split; [|split; [done|split; [done|by exists k]]].
  unfold p_inv. split; rewrite ?Hrows.
  - by rewrite <- firstn_map.
  - intros i l Hi. apply lookup_take_Some in Hi as [Hi _]. by apply (iv_index _ _ _ Hinv).
  - cbn [p_treeDB p' l1_Reorg]. rewrite Hroots, <- !firstn_map. by rewrite Hpos.
  - apply Forall_take, (iv_leaf _ _ _ Hinv).
  - rewrite <- firstn_map. eapply sublist_NoDup; [apply (iv_ger _ _ _ Hinv) | apply sublist_take].
  - apply Forall_forall. intros l Hl. apply list_elem_of_lookup in Hl as [i Hi]. apply lookup_take_Some in Hi as [Hi Hik].
    pose proof (proj1 (Forall_forall _ _) (iv_blocks _ _ _ Hinv) l ltac:(by eapply list_elem_of_lookup_2)) as Hb.
    apply list_elem_of_fmap in Hb as ([n h] & E & Hb). apply list_elem_of_fmap. exists (n, h). split; [done|].
    apply Hblk. split; [done|]. cbn in E. rewrite <- E. by apply (Hcut i l Hi).
  - cbn. apply map_bfilter_NoDup, (iv_nodup _ _ _ Hinv).
Qed.


(** ** The processor behind the sync driver *)

Definition procError_of (e : l1Error) : procError := match e with ErrInconsistent => ErrInconsistentState | _ => ErrOther end.

#[global] Instance l1_processor : Processor Event processor := {|
  GetLastProcessedBlock := fun p => match l1_GetLastProcessedBlock p with Ok o => Ok o | Err e => Err (procError_of e) end;
  ProcessBlock := fun b p =>
    let '(p', r) := l1_ProcessBlock b p in (p', match r with Ok u => Ok u | Err e => Err (procError_of e) end);
  processor_Reorg := fun n p => (l1_Reorg n p, Ok tt)
|}.

Definition l1_stored (p : processor) : gmap Z Z := storedRows (block (p_db p)).

Lemma l1_ProcessBlock_Ok b p p' u :
  ProcessBlock b p = (p', Ok u) -> l1_stored p !! bk_Num b = None /\ l1_stored p' = <[bk_Num b := bk_Hash b]> (l1_stored p).
Proof.
  cbn. unfold l1_ProcessBlock. destruct (p_halted p); [discriminate|].
  destruct (inTx _ p) as [q [v|e]] eqn:E; intros [= <- _]. pose proof (inTx_ok _ _ _ _ _ (processBlock_safe b) E) as Hb.
  assert (Hnew : bk_Num b ∉ map fst (block (p_db p))).
  { unfold inTx in E. destruct (processBlock b (beginTx p)) as [s [w|]] eqn:Eb; [|discriminate]. unfold processBlock, insertBlock in Eb.
    inv_seq Eb as w1 s1 E1. inv_seq E1 as w2 s2 E2. injection E2 as <- <-. cbn in E1.
    destruct (existsb _ _) eqn:Ex; [discriminate|]. intros Hin. apply list_elem_of_fmap in Hin as (row & Hr & Hin).
    apply list_elem_of_In in Hin. pose proof (proj1 (existsb_false_In _ _) Ex row Hin) as Hne. cbn in Hne. bool_hyps. congruence. }
  unfold l1_stored. rewrite Hb. by apply storedRows_snoc.
Qed.

Lemma l1_ProcessBlock_Err b p p' e : ProcessBlock b p = (p', Err e) -> l1_stored p' = l1_stored p.
Proof.
  cbn. destruct (l1_ProcessBlock b p) as [q [v|e']] eqn:E; intros [= <- _]. unfold l1_ProcessBlock in E.
  destruct (p_halted p); [by injection E as <- _|]. apply (inTx_err [block_row b]) in E as (E & _); [|apply processBlock_safe].
  unfold l1_stored. by rewrite E.
Qed.

Lemma l1_Reorg_Ok n p p' u : processor_Reorg n p = (p', Ok u) -> l1_stored p' = filter (fun kv => kv.1 < n) (l1_stored p).
Proof. intros [= <- _]. apply list_to_map_keep. Qed.

Lemma l1_GetLast_max p n :
  GetLastProcessedBlock p = Ok (Some n) -> is_Some (l1_stored p !! n) /\ forall k, is_Some (l1_stored p !! k) -> k <= n.
Proof. intros [= E]. by apply storedRows_last. Qed.

#[global] Instance l1_processor_laws : ProcessorLaws Event processor := {|
  stored := l1_stored;
  ProcessBlock_Ok := fun b p p' u E => let '(conj H1 H2) := l1_ProcessBlock_Ok b p p' u E in conj (or_introl H1) H2;
  ProcessBlock_Err := l1_ProcessBlock_Err;
  Reorg_Ok := l1_Reorg_Ok;
  Reorg_Err := fun n p p' e E => ltac:(discriminate E);
  GetLast_max := l1_GetLast_max
|}.

(** C35. The processor keeps the contract the sync driver is verified against: a processed block is
    stored under its number, which held no other hash; a failed one leaves the stored blocks; a reorg
    keeps exactly the earlier blocks; the last processed block is the highest stored. *)
Theorem l1_processor_meets_interface : exists L : ProcessorLaws Event processor, @stored _ _ _ L = l1_stored.
Proof. by exists l1_processor_laws. Qed.

Definition newProcessor : processor := mkTreeProc (mkL1db [] [] [] None emptyTreeDB) emptyTreeDB NewAppendOnlyTree false.

Lemma newProcessor_inv : p_inv newProcessor.
Proof. split; try done; [apply aot_inv_new, db_inv_empty | apply NoDup_nil_2..]. Qed.

End Proofs.

(** ** Examples *)

#[local] Existing Instance toy_keccak.

Definition update_event (u : UpdateL1InfoTree) : Event := mkEvent (Some u) None None None.
Definition v2_event (v : UpdateL1InfoTreeV2) : Event := mkEvent None (Some v) None None.

Definition example_u1 : UpdateL1InfoTree := mkUpdateL1InfoTree 0 1 2 3 4.
Definition example_leaf1 : L1InfoLeaf := Eval vm_compute in leaf_of 5 0 example_u1.
Definition example_root1 : Z := Eval vm_compute in tree_root_sparse [il_Hash example_leaf1].
Definition example_block : Block Event :=
  mkBlock 5 [update_event example_u1; v2_event (mkUpdateL1InfoTreeV2 example_root1 1 0 0)] 55.
Definition example_p1 : processor := fst (l1_ProcessBlock example_block newProcessor).

Lemma example_block_ok : events_ok 5 0 (bk_Events example_block) (with_block example_block newProcessor).
Proof.
  split; [|done]. split.
  - apply put_okb_sound. vm_compute. reflexivity.
  - apply not_elem_of_nil.
Qed.

Lemma example_block_truthful : v2_truthful [] (bk_Events example_block).
Proof. split; [done|]. split; [|done]. split; [done|]. rewrite tree_root_sparse_eq. split; vm_compute; reflexivity. Qed.

Lemma example_only_updates : only_updates (bk_Events example_block).
Proof. repeat constructor. Qed.

Lemma ProcessBlock_appends_leaves_witness :
  let '(p', r) := l1_ProcessBlock example_block newProcessor in
  (r = Ok tt <-> v2_truthful [] (bk_Events example_block)) /\
  (r = Ok tt -> p_inv p' /\ block (p_db p') = [] ++ [(5, Some 55)] /\ l1info_leaf (p_db p') = [] ++ new_leaves 5 0 (bk_Events example_block)).
Proof.
  refine (ProcessBlock_appends_leaves example_block newProcessor newProcessor_inv eq_refl _ example_only_updates example_block_ok).
  apply not_elem_of_nil.
Defined.

Lemma example_p1_inv : p_inv example_p1.
Proof.
  pose proof (ProcessBlock_run example_block newProcessor newProcessor_inv eq_refl (not_elem_of_nil 5) example_only_updates example_block_ok) as H.
  unfold example_p1. destruct (l1_ProcessBlock example_block newProcessor) as [p' r] eqn:E. destruct H as [Hiff Hok].
  by apply Hok, Hiff, example_block_truthful.
Qed.

Lemma l1_Reorg_restores_witness :
  let p' := l1_Reorg 5 example_p1 in
  p_inv p' /\ p_halted p' = false /\
  (forall n h, (n, h) ∈ block (p_db p') <-> (n, h) ∈ block (p_db example_p1) /\ n < 5) /\
  exists k, l1info_leaf (p_db p') = take k (l1info_leaf (p_db example_p1)) /\
    forall i l, l1info_leaf (p_db example_p1) !! i = Some l -> il_BlockNumber l < 5 <-> (i < k)%nat.
Proof. refine (l1_Reorg_restores 5 example_p1 example_p1_inv). Defined.

(** A block whose contract root is not the root of its leaves. *)
Definition example_bad_block : Block Event :=
  mkBlock 6 [update_event (mkUpdateL1InfoTree 0 11 12 13 14); v2_event (mkUpdateL1InfoTreeV2 99 2 0 0)] 66.
Definition example_p2 : processor := fst (ProcessBlocks [example_bad_block] example_p1).

Lemma ProcessBlocks_atomic_witness :
  p_db example_p2 = p_db example_p1 /\ p_treeDB example_p2 = p_treeDB example_p1 /\ p_halted example_p2 = true /\
  (p_halted example_p2 = true -> forall blocks', blocks' <> [] -> ProcessBlocks blocks' example_p2 = (example_p2, Err ErrInconsistent)).
Proof.
  refine (ProcessBlocks_atomic [example_bad_block] example_p1 example_p2 ErrInconsistent _).
  unfold example_p2. assert (E : snd (ProcessBlocks [example_bad_block] example_p1) = Err ErrInconsistent) by (vm_compute; reflexivity).
  destruct (ProcessBlocks _ _) as [q r]. cbn in *. by rewrite E.
Defined.

(** After a batch of two leaves failed the check against the contract and a reorg resumed
    processing, the next block stores a wrong root: the left node the tree object remembers is not
    restored, so the block is refused although its root and leaf count are the contract's. *)
Theorem failed_batch_poisons_tree :
  let bad := mkBlock 6 [update_event (mkUpdateL1InfoTree 0 11 12 13 14); update_event (mkUpdateL1InfoTree 1 21 22 23 24);
                        v2_event (mkUpdateL1InfoTreeV2 99 3 0 0)] 66 in
  let good_leaf := leaf_of 6 1 (mkUpdateL1InfoTree 0 31 32 33 34) in
  let good := mkBlock 6 [update_event (mkUpdateL1InfoTree 0 31 32 33 34);
                         v2_event (mkUpdateL1InfoTreeV2 (tree_root [il_Hash example_leaf1; il_Hash good_leaf]) 2 0 0)] 67 in
  let '(p2, r2) := ProcessBlocks [bad] example_p1 in
  let p3 := l1_Reorg 6 p2 in
  r2 = Err ErrInconsistent /\ p_db p3 = p_db example_p1 /\ p_treeDB p3 = p_treeDB example_p1 /\
  snd (ProcessBlocks [good] example_p1) = Ok tt /\ snd (ProcessBlocks [good] p3) = Err ErrInconsistent.
Proof. cbv zeta. rewrite tree_root_sparse_eq. vm_compute. split_and!; reflexivity. Qed.
