(* ===== verification/L1InfoTreeSync.v ===== *)
(** The L1 info tree syncer as the other components see it ([l1infotreesync/l1infotreesync.go]): every
    query refuses while the processor is halted, and otherwise reads the tables.  The last part puts it
    under the data querier of the aggsender: the roots it targets prove every exit root they cover. *)

From S2P Require Import Prelude Bytes Merkle Tables TreeTx BuildParams Validator Queriers Downloader ReorgDetector SyncDriver L1InfoTree.

(** ** Queries *)

(** [if s.processor.isHalted() { return ..., sync.ErrInconsistentState }]. *)
Definition ifActive {A} (p : processor) (r : result l1Error A) : result l1Error A :=
  if p_halted p then Err ErrInconsistent else r.

Definition fromTree {A} (r : result treeError A) : result l1Error A :=
  match r with Ok a => Ok a | Err e => Err (ErrTree e) end.

Section Queries.
Context `{Kc : Keccak} (p : processor).

(** Network 0 is not in the tree: the proof is empty. *)
Definition s_GetRollupExitTreeMerkleProof (networkID root : Z) : result l1Error (list Z) :=
  ifActive p (if networkID =? 0 then Ok (repeat 0 DefaultHeight)
              else fromTree (GetProof newTree (rollupExitTree (p_db p)) (networkID -u32 1) root)).

Definition s_GetLatestL1InfoLeafUntilBlock (blockNum : Z) : result l1Error L1InfoLeaf :=
  ifActive p (GetLatestL1InfoLeafUntilBlock p (Some blockNum)).
Definition s_GetLatestL1InfoLeaf : result l1Error L1InfoLeaf := ifActive p (GetLatestL1InfoLeafUntilBlock p None).
Definition s_GetLatestL1InfoGER : result l1Error Z := ifActive p (GetLatestL1InfoGER p).
Definition s_GetInfoByIndex (index : Z) : result l1Error (L1InfoLeaf * Z) := ifActive p (getInfoByIndexWithBlockHash p index).
Definition s_GetL1InfoTreeRootByIndex (index : Z) : result l1Error Root := ifActive p (fromTree (GetRootByIndex (p_treeDB p) index)).
Definition s_GetLastRollupExitRoot : result l1Error Root := ifActive p (fromTree (GetLastRoot (rollupExitTree (p_db p)))).
Definition s_GetLastL1InfoTreeRoot : result l1Error Root := ifActive p (fromTree (GetLastRoot (p_treeDB p))).

(** Zero when nothing was processed. *)
Definition s_GetLastProcessedBlock : result l1Error Z :=
  ifActive p (let? num := l1_GetLastProcessedBlock p in Ok (default 0 num)).

Definition s_IsActive : bool := negb (p_halted p).

Definition s_GetLocalExitRoot (networkID rollupExitRoot : Z) : result l1Error Z :=
  ifActive p (if networkID =? 0 then Err ErrNoRows
              else fromTree (GetLeaf (rollupExitTree (p_db p)) (networkID -u32 1) rollupExitRoot)).

Definition s_GetLastVerifiedBatches (rollupID : Z) : result l1Error VerifyBatches := ifActive p (GetLastVerifiedBatches p rollupID).
Definition s_GetFirstVerifiedBatches (rollupID : Z) : result l1Error VerifyBatches := ifActive p (GetFirstVerifiedBatches p rollupID).
Definition s_GetFirstVerifiedBatchesAfterBlock (rollupID blockNum : Z) : result l1Error VerifyBatches :=
  ifActive p (GetFirstVerifiedBatchesAfterBlock p rollupID blockNum).
Definition s_GetVerifiedBatchesPaged (rollupID pageNumber pageSize : Z) : result l1Error (list (VerifyBatches * option Z) * Z) :=
  ifActive p (Ok (GetVerifiedBatchesPaged p rollupID pageNumber pageSize)).
Definition s_GetFirstL1InfoWithRollupExitRoot (rollupExitRoot : Z) : result l1Error L1InfoLeaf :=
  ifActive p (GetFirstL1InfoWithRollupExitRoot p rollupExitRoot).
Definition s_GetLastInfo : result l1Error L1InfoLeaf := ifActive p (GetLastInfo p).
Definition s_GetFirstInfo : result l1Error L1InfoLeaf := ifActive p (GetFirstInfo p).
Definition s_GetInfoByRoot (root : Z) : result l1Error L1InfoLeaf := ifActive p (GetInfoByRoot p root).
Definition s_GetFirstInfoAfterBlock (blockNum : Z) : result l1Error L1InfoLeaf := ifActive p (GetFirstInfoAfterBlock p blockNum).
Definition s_GetInfoByGlobalExitRoot (ger : Z) : result l1Error L1InfoLeaf := ifActive p (GetInfoByGlobalExitRoot p ger).
Definition s_GetL1InfoTreeMerkleProofFromIndexToRoot (index root : Z) : result l1Error (list Z) :=
  ifActive p (fromTree (GetProof (aot_Tree (p_tree p)) (p_treeDB p) index root)).
Definition s_GetInitL1InfoRootMap : result l1Error (option L1InfoTreeInitial) := ifActive p (Ok (GetInitL1InfoRootMap p)).
Definition s_GetProcessedBlockUntil (blockNum : Z) : result l1Error (Z * Z) := ifActive p (GetProcessedBlockUntil p blockNum).

(** [finalizedBlock]: what the node answers for the finalized block. *)
Definition s_IsUpToDate (finalizedBlock : result l1Error Z) : result l1Error bool :=
  ifActive p (let? lastProcessedBlock := l1_GetLastProcessedBlock p in
              let? finalized := finalizedBlock in
              Ok (finalized <=? default 0 lastProcessedBlock)).

(** Finality of a block read from the syncer: the multidownloader's flag ([blockFinality], what
    [StorageHeaderByNumber] answers: hash and flag), else the reorg detector, else unknown. *)
Inductive finalitySource :=
| FromMultidownloader (header : Z -> result rdError (option (Z * bool)))
| FromReorgDetector (tracker : Z -> result rdError Header)
| ReadOnly.

Definition isBlockFinalizedLegacy (tracker : Z -> result rdError Header) (blockNum blockHash : Z)
  : option (result rdError (bool * bool)) :=
  if p_halted p then None
  else Some (IsBlockFinalized tracker blockNum blockHash (fun n => Ok (getBlockHash p n))).

(** [None]: [ErrInconsistentState]. *)
Definition s_IsBlockFinalized (source : finalitySource) (blockNum blockHash : Z) : option (result rdError (bool * bool)) :=
  if blockHash =? 0 then Some (Ok (false, false))
  else match source with
       | FromMultidownloader header =>
           Some (let? h := header blockNum in
                 Ok (match h with
                     | Some (hash, isFinal) => if negb (hash =? blockHash) then (false, false) else (isFinal, true)
                     | None => (false, false)
                     end))
       | FromReorgDetector tracker => isBlockFinalizedLegacy tracker blockNum blockHash
       | ReadOnly => Some (Ok (false, false))
       end.

(** ** The syncer under the querier of the aggsender *)

Definition toFlow {A} (r : result l1Error A) : result flowError A := match r with Ok a => Ok a | Err _ => Err ErrQuery end.

Definition l1_syncer : L1InfoTreeSyncer := {|
  ls_GetInfoByGlobalExitRoot := fun ger => let? l := toFlow (s_GetInfoByGlobalExitRoot ger) in Ok (Some l);
  ls_GetL1InfoTreeMerkleProofFromIndexToRoot := fun index root => toFlow (s_GetL1InfoTreeMerkleProofFromIndexToRoot index root);
  ls_GetL1InfoTreeRootByIndex := fun index => toFlow (s_GetL1InfoTreeRootByIndex index);
  ls_GetProcessedBlockUntil := fun n => toFlow (s_GetProcessedBlockUntil n);
  ls_GetInfoByIndex := fun index => let? l := toFlow (s_GetInfoByIndex index) in Ok (Some (fst l));
  ls_GetLatestL1InfoLeafUntilBlock := fun n => toFlow (s_GetLatestL1InfoLeafUntilBlock n)
|}.

End Queries.

(** ** Reading the tables *)

Section Reading.
Context `{Kc : Keccak}.

(** The latest leaf until a block is the last of the leaves of the blocks up to it, which are a prefix. *)
Lemma latest_until p n l :
  p_inv p -> latest leaf_pos (bfilter (fun x => il_BlockNumber x <=? n) (l1info_leaf (p_db p))) = Some l ->
  exists k, l1info_leaf (p_db p) !! k = Some l /\ il_L1InfoTreeIndex l = Z.of_nat k /\
    forall i x, l1info_leaf (p_db p) !! i = Some x -> il_BlockNumber x <= n <-> (i <= k)%nat.
Proof.
  intros Hinv Hl. destruct (bfilter_prefix (fun x => il_BlockNumber x <=? n) (l1info_leaf (p_db p))) as (m & Hm & Hf & Hiff).
  { intros i j x y Hij Hx Hy Hp. pose proof (leaves_ordered _ _ _ i j x y Hinv Hij Hx Hy) as Hlt. apply pos_ltb_lt in Hlt.
    cbn in Hlt. bool_hyps. apply Z.leb_le. lia. }
  rewrite Hf in Hl. destruct m as [|m]; [by rewrite take_0 in Hl|].
  destruct (l1info_leaf (p_db p) !! m) as [y|] eqn:Hy; [|apply lookup_ge_None in Hy; lia].
  assert (El : latest leaf_pos (take (S m) (l1info_leaf (p_db p))) = Some y).
  { rewrite (take_S_r _ _ _ Hy). apply firstBy_app. intros x Hx. apply list_elem_of_In, list_elem_of_lookup in Hx as [j Hj].
    apply lookup_take_Some in Hj as [Hj Hjm]. by apply (leaves_ordered _ _ _ j m x y Hinv). }
  rewrite El in Hl. injection Hl as <-. exists m. split; [done|]. split; [by apply (iv_index _ _ _ Hinv)|].
  intros i x Hx. specialize (Hiff i x Hx). rewrite Z.leb_le in Hiff. lia.
Qed.

(** A leaf is proven against the root of any later index. *)
Lemma GER_provable p k l m r :
  p_inv p -> p_halted p = false -> l1info_leaf (p_db p) !! k = Some l -> (k <= m)%nat -> db_root (p_treeDB p) !! m = Some r ->
  exists proof, l1_GetProofForGER (l1_syncer p) (il_GlobalExitRoot l) (rt_Hash r) = Ok (l, proof) /\
    VerifyProof (il_Hash l) proof (il_L1InfoTreeIndex l) (rt_Hash r) = true.
Proof.
  intros Hinv Hh Hl Hkm Hr. destruct (GetRootByIndex_spec _ _ _ m r (iv_tree _ _ _ Hinv) Hr) as (_ & Hhash & _).
  pose proof (iv_index _ _ _ Hinv k l Hl) as Hi.
  assert (Hmlen : (S m <= length (map il_Hash (l1info_leaf (p_db p))))%nat).
  { rewrite <- (di_length _ _ (ai_db _ _ _ (iv_tree _ _ _ Hinv))). apply lookup_lt_Some in Hr. lia. }
  destruct (GetProof_run _ _ _ (S m) k (il_Hash l) (iv_tree _ _ _ Hinv) Hmlen) as (_ & proof & Hp & _ & Hv).
  { apply lookup_take_Some. split; [|lia]. change (map il_Hash) with (fmap il_Hash (M := list)). by rewrite list_lookup_fmap, Hl. }
  rewrite <- Hhash, <- Hi in Hp, Hv. exists proof. split; [|exact Hv].
  unfold l1_GetProofForGER. cbn [l1_syncer ls_GetInfoByGlobalExitRoot]. unfold s_GetInfoByGlobalExitRoot, ifActive. rewrite Hh.
  unfold GetInfoByGlobalExitRoot. rewrite (find_unique il_GlobalExitRoot _ k l (iv_ger _ _ _ Hinv) Hl).
  cbn [orNotFound toFlow rbind l1_syncer ls_GetL1InfoTreeMerkleProofFromIndexToRoot].
  unfold s_GetL1InfoTreeMerkleProofFromIndexToRoot, ifActive. rewrite Hh, Hp. cbn [fromTree toFlow rbind]. by rewrite Hv.
Qed.

Lemma root_row_exists p k l : p_inv p -> l1info_leaf (p_db p) !! k = Some l -> exists r, db_root (p_treeDB p) !! k = Some r.
Proof.
  intros Hinv Hl. apply lookup_lt_is_Some. rewrite (di_length _ _ (ai_db _ _ _ (iv_tree _ _ _ Hinv))), length_map.
  by eapply lookup_lt_Some.
Qed.

(** C17. The root a certificate is proven against covers exactly what is final: when the querier finds a
    target root at a target block of L1, a synced global exit root of that block or an earlier one gets a
    proof the verifier accepts against it, and the leaves under the root are exactly those of these
    blocks. *)
Theorem target_root_proves_final_GERs p client n root :
  p_inv p -> p_halted p = false ->
  getTargetL1BlockNumber (l1_syncer p) client = Ok n -> l1_GetTargetL1InfoRoot (l1_syncer p) client = Ok root ->
  (forall k l, l1info_leaf (p_db p) !! k = Some l -> il_BlockNumber l <= n <-> Z.of_nat k <= rt_Index root) /\
  rt_Hash root = tree_root (take (S (Z.to_nat (rt_Index root))) (map il_Hash (l1info_leaf (p_db p)))) /\
  forall l, l ∈ l1info_leaf (p_db p) -> il_BlockNumber l <= n ->
    exists proof, l1_GetProofForGER (l1_syncer p) (il_GlobalExitRoot l) (rt_Hash root) = Ok (l, proof) /\
      VerifyProof (il_Hash l) proof (il_L1InfoTreeIndex l) (rt_Hash root) = true.
Proof.
  intros Hinv Hh Hn Hroot. unfold l1_GetTargetL1InfoRoot in Hroot. rewrite Hn in Hroot. cbn [rbind] in Hroot.
  apply rbind_Ok_inv in Hroot as (leaf & Hleaf & Hroot). cbn [l1_syncer ls_GetLatestL1InfoLeafUntilBlock] in Hleaf.
  unfold s_GetLatestL1InfoLeafUntilBlock, ifActive, GetLatestL1InfoLeafUntilBlock in Hleaf. rewrite Hh in Hleaf.
  destruct (n =? 0); [done|]. destruct (_ <? n); [done|]. destruct (latest _ _) as [y|] eqn:E; [|done]. injection Hleaf as ->.
  destruct (latest_until p n leaf Hinv E) as (k & Hk & Hi & Hiff). destruct (root_row_exists p k leaf Hinv Hk) as [r Hr].
  destruct (GetRootByIndex_spec _ _ _ k r (iv_tree _ _ _ Hinv) Hr) as (Hget & Hhash & Hidx).
  cbn [l1_syncer ls_GetL1InfoTreeRootByIndex] in Hroot. unfold s_GetL1InfoTreeRootByIndex, ifActive in Hroot.
  rewrite Hh, Hi, Hget in Hroot. injection Hroot as <-. rewrite Hidx, Nat2Z.id. split; [|split; [exact Hhash|]].
  - intros i x Hx. rewrite (Hiff i x Hx). lia.
  - intros x Hx Hxn. apply list_elem_of_lookup in Hx as [i Hx]. apply (GER_provable p i x k r); try done. by apply (Hiff i x Hx).
Qed.

End Reading.

(** ** Examples *)

#[local] Existing Instance toy_keccak.

Definition example_client : L1Client := {|
  lc_TargetHeader := Ok (7, 77);
  lc_HeaderByNumber := fun n => Ok (n, 55);
  lc_GlobalExitRootMap := fun _ => Ok 0
|}.
Definition example_target : Root := mkRoot example_root1 0 5 0.

Lemma target_root_proves_final_GERs_witness :
  (forall k l, l1info_leaf (p_db example_p1) !! k = Some l -> il_BlockNumber l <= 5 <-> Z.of_nat k <= 0) /\
  example_root1 = tree_root (take 1 (map il_Hash (l1info_leaf (p_db example_p1)))) /\
  forall l, l ∈ l1info_leaf (p_db example_p1) -> il_BlockNumber l <= 5 ->
    exists proof, l1_GetProofForGER (l1_syncer example_p1) (il_GlobalExitRoot l) example_root1 = Ok (l, proof) /\
      VerifyProof (il_Hash l) proof (il_L1InfoTreeIndex l) example_root1 = true.
Proof.
  refine (target_root_proves_final_GERs example_p1 example_client 5 example_target example_p1_inv _ _ _);
    vm_compute; reflexivity.
Defined.
