(* ===== verification/BridgeSync.v ===== *)
(** The processor of the bridge syncer ([bridgesync/processor.go], [leaf_data.go]): bridges and their local
    exit tree, token tables, the rewinding and replaying of the exit tree ([BackwardLET], [ForwardLET]), and
    reorgs, which undo the rewinding.

    Tables are lists of rows in insertion order with the constraints of the migrations (primary keys, rows
    refer to known blocks, deletion of the rows of a deleted block; [bridge_archive] is keyed by the
    deposit count and outlives its blocks).  Amounts and counts decoded from events are not nil and fit
    256 bits.  Decoding the leaves of a [ForwardLET] is a parameter (the ABI decoder). *)

From S2P Require Import Prelude Bytes Merkle Tables TreeTx AgglayerTypes BuildParams Downloader ReorgDetector SyncDriver.

(** ** Data *)

Inductive BridgeSource := NoSource | BridgeSourceBackwardLET | BridgeSourceForwardLET.

(** A bridge with its transaction data. *)
Record BridgeRow := mkBridgeRow {
  bw_Bridge : Bridge;
  bw_FromAddress : option Z;
  bw_TxHash : Z;
  bw_BlockTimestamp : Z;
  bw_TxnSender : Z;
  bw_Source : BridgeSource;
  bw_ToAddress : Z
}.

Definition bw_DepositCount (b : BridgeRow) : Z := br_DepositCount (bw_Bridge b).
Definition bw_BlockNum (b : BridgeRow) : Z := br_BlockNum (bw_Bridge b).
Definition bw_pos (b : BridgeRow) : Z * Z := (br_BlockNum (bw_Bridge b), br_BlockPos (bw_Bridge b)).

Record TokenMapping := mkTokenMapping {
  tm_BlockNum : Z;
  tm_BlockPos : Z;
  tm_BlockTimestamp : Z;
  tm_TxHash : Z;
  tm_OriginNetwork : Z;
  tm_OriginTokenAddress : Z;
  tm_WrappedTokenAddress : Z;
  tm_Metadata : list Z;
  tm_IsNotMintable : bool;
  tm_Type : Z
}.

Record LegacyTokenMigration := mkLegacyTokenMigration {
  lm_BlockNum : Z;
  lm_BlockPos : Z;
  lm_BlockTimestamp : Z;
  lm_TxHash : Z;
  lm_Sender : Z;
  lm_LegacyTokenAddress : Z;
  lm_UpdatedTokenAddress : Z;
  lm_Amount : Z
}.

Record RemoveLegacyToken := mkRemoveLegacyToken {
  rl_BlockNum : Z;
  rl_BlockPos : Z;
  rl_BlockTimestamp : Z;
  rl_TxHash : Z;
  rl_LegacyTokenAddress : Z
}.

Record BackwardLET := mkBackwardLET {
  bl_BlockNum : Z;
  bl_BlockPos : Z;
  bl_PreviousDepositCount : Z;
  bl_PreviousRoot : Z;
  bl_NewDepositCount : Z;
  bl_NewRoot : Z
}.

Record ForwardLET := mkForwardLET {
  fl_BlockNum : Z;
  fl_BlockPos : Z;
  fl_BlockTimestamp : Z;
  fl_TxnHash : Z;
  fl_PreviousDepositCount : Z;
  fl_PreviousRoot : Z;
  fl_NewDepositCount : Z;
  fl_NewRoot : Z;
  fl_NewLeaves : list Z
}.

Record Event := mkEvent {
  ev_Bridge : option BridgeRow;
  ev_TokenMapping : option TokenMapping;
  ev_LegacyTokenMigration : option LegacyTokenMigration;
  ev_RemoveLegacyToken : option RemoveLegacyToken;
  ev_BackwardLET : option BackwardLET;
  ev_ForwardLET : option ForwardLET
}.

Record LeafData := mkLeafData {
  ld_LeafType : Z;
  ld_OriginNetwork : Z;
  ld_OriginAddress : Z;
  ld_DestinationNetwork : Z;
  ld_DestinationAddress : Z;
  ld_Amount : Z;
  ld_Metadata : list Z
}.

Inductive bError :=
| ErrInconsistent | ErrPrimaryKey | ErrForeignKey | ErrTree (e : treeError) | ErrLERMismatch | ErrDepositCount
| ErrDecode | ErrNoRows | ErrInvalidPage.

Record bdb := mkBdb {
  block : list (Z * option Z);
  bridge : list BridgeRow;
  bridge_archive : list BridgeRow;
  token_mapping : list TokenMapping;
  legacy_token_migration : list LegacyTokenMigration;
  backward_let : list BackwardLET;
  forward_let : list ForwardLET
}.

Definition set_bridge (f : list BridgeRow -> list BridgeRow) (d : bdb) : bdb :=
  mkBdb (block d) (f (bridge d)) (bridge_archive d) (token_mapping d) (legacy_token_migration d) (backward_let d) (forward_let d).
Definition set_archive (f : list BridgeRow -> list BridgeRow) (d : bdb) : bdb :=
  mkBdb (block d) (bridge d) (f (bridge_archive d)) (token_mapping d) (legacy_token_migration d) (backward_let d) (forward_let d).

(** The processor: tables, exit tree, and the block numbers published to the subscribers. *)
Record processor := mkProcessor { bp_proc : treeProc bdb; bp_published : list Z }.

Abbreviation BS := (eff (txState bdb) bError).

(** ** Hashes and conversions *)

Section Processor.
Context `{Kc : Keccak}.
Context (initialLER : Z) (decodeForwardLETLeaves : list Z -> option (list LeafData)).

Definition Bridge_Hash (b : Bridge) : Z :=
  Keccak256Hash [ [br_LeafType b]; Uint32ToBigEndianBytes (br_OriginNetwork b); be_bytes AddressLength (br_OriginAddress b);
    Uint32ToBigEndianBytes (br_DestinationNetwork b); be_bytes AddressLength (br_DestinationAddress b);
    Hash_Bytes (default 0 (br_Amount b)); Hash_Bytes (keccak256 (br_Metadata b)) ].

Definition row_Hash (b : BridgeRow) : Z := Bridge_Hash (bw_Bridge b).

(** Hashing replaces a nil amount by zero, in place. *)
Definition hashed (b : BridgeRow) : BridgeRow :=
  let r := bw_Bridge b in
  mkBridgeRow (mkBridge (br_BlockNum r) (br_BlockPos r) (br_LeafType r) (br_OriginNetwork r) (br_OriginAddress r)
    (br_DestinationNetwork r) (br_DestinationAddress r) (Some (default 0 (br_Amount r))) (br_Metadata r) (br_DepositCount r))
    (bw_FromAddress b) (bw_TxHash b) (bw_BlockTimestamp b) (bw_TxnSender b) (bw_Source b) (bw_ToAddress b).

Definition with_pos (pos : Z) (b : BridgeRow) : BridgeRow :=
  let r := bw_Bridge b in
  mkBridgeRow (mkBridge (br_BlockNum r) pos (br_LeafType r) (br_OriginNetwork r) (br_OriginAddress r)
    (br_DestinationNetwork r) (br_DestinationAddress r) (br_Amount r) (br_Metadata r) (br_DepositCount r))
    (bw_FromAddress b) (bw_TxHash b) (bw_BlockTimestamp b) (bw_TxnSender b) (bw_Source b) (bw_ToAddress b).

Definition with_source (src : BridgeSource) (b : BridgeRow) : BridgeRow :=
  mkBridgeRow (bw_Bridge b) (bw_FromAddress b) (bw_TxHash b) (bw_BlockTimestamp b) (bw_TxnSender b) src (bw_ToAddress b).

Definition ToBridge (l : LeafData) (blockNum blockPos blockTimestamp depositCount txnHash txnSender : Z) (fromAddr : option Z) : BridgeRow :=
  mkBridgeRow (mkBridge blockNum blockPos (ld_LeafType l) (ld_OriginNetwork l) (ld_OriginAddress l) (ld_DestinationNetwork l)
    (ld_DestinationAddress l) (Some (ld_Amount l)) (ld_Metadata l) depositCount)
    fromAddr txnHash blockTimestamp txnSender BridgeSourceForwardLET 0.

(** ** Statements *)

(** The constraints of a table keyed by block and position. *)
Definition insert_check {A} (pos : A -> Z * Z) (table : list A) (a : A) : BS unit :=
  let! s := sget in
  if existsb (fun r => (fst (pos r) =? fst (pos a)) && (snd (pos r) =? snd (pos a))) table then sfail ErrPrimaryKey
  else if negb (existsb (fun b => fst b =? fst (pos a)) (block (ts_db s))) then sfail ErrForeignKey
  else sret tt.

Definition insertBridge (b : BridgeRow) : BS unit :=
  let! s := sget in
  let! _ := insert_check bw_pos (bridge (ts_db s)) b in
  smodify (set_db (set_bridge (fun rows => rows ++ [b]))).

Definition insertArchive (b : BridgeRow) : BS unit :=
  let! s := sget in
  if existsb (fun r => bw_DepositCount r =? bw_DepositCount b) (bridge_archive (ts_db s)) then sfail ErrPrimaryKey
  else smodify (set_db (set_archive (fun rows => rows ++ [b]))).

Definition insertTokenMapping (t : TokenMapping) : BS unit :=
  let! s := sget in
  let! _ := insert_check (fun t => (tm_BlockNum t, tm_BlockPos t)) (token_mapping (ts_db s)) t in
  smodify (set_db (fun d => mkBdb (block d) (bridge d) (bridge_archive d) (token_mapping d ++ [t]) (legacy_token_migration d)
                              (backward_let d) (forward_let d))).

Definition insertLegacyTokenMigration (l : LegacyTokenMigration) : BS unit :=
  let! s := sget in
  let! _ := insert_check (fun l => (lm_BlockNum l, lm_BlockPos l)) (legacy_token_migration (ts_db s)) l in
  smodify (set_db (fun d => mkBdb (block d) (bridge d) (bridge_archive d) (token_mapping d) (legacy_token_migration d ++ [l])
                              (backward_let d) (forward_let d))).

Definition removeLegacyToken (r : RemoveLegacyToken) : BS unit :=
  smodify (set_db (fun d => mkBdb (block d) (bridge d) (bridge_archive d) (token_mapping d)
    (bfilter (fun l => negb (lm_LegacyTokenAddress l =? rl_LegacyTokenAddress r)) (legacy_token_migration d))
    (backward_let d) (forward_let d))).

Definition insertBackwardRow (b : BackwardLET) : BS unit :=
  let! s := sget in
  let! _ := insert_check (fun b => (bl_BlockNum b, bl_BlockPos b)) (backward_let (ts_db s)) b in
  smodify (set_db (fun d => mkBdb (block d) (bridge d) (bridge_archive d) (token_mapping d) (legacy_token_migration d)
                              (backward_let d ++ [b]) (forward_let d))).

Definition insertForwardRow (f : ForwardLET) : BS unit :=
  let! s := sget in
  let! _ := insert_check (fun f => (fl_BlockNum f, fl_BlockPos f)) (forward_let (ts_db s)) f in
  smodify (set_db (fun d => mkBdb (block d) (bridge d) (bridge_archive d) (token_mapping d) (legacy_token_migration d)
                              (backward_let d) (forward_let d ++ [f]))).

(** [INSERT ... ON CONFLICT (num) DO UPDATE SET hash]. *)
Fixpoint upsertBlock (num hash : Z) (rows : list (Z * option Z)) : list (Z * option Z) :=
  match rows with
  | [] => [(num, Some hash)]
  | b :: rows' => if fst b =? num then (num, Some hash) :: rows' else b :: upsertBlock num hash rows'
  end.

Definition insertBlock (num hash : Z) : BS unit :=
  smodify (set_db (fun d => mkBdb (upsertBlock num hash (block d)) (bridge d) (bridge_archive d) (token_mapping d)
                              (legacy_token_migration d) (backward_let d) (forward_let d))).

(** ** Rewinding the exit tree *)

Definition normalizeDepositCount (depositCount : Z) : result bError (Z * Z) :=
  match SafeUint64 (Some depositCount) with
  | Err _ => Err ErrDepositCount
  | Ok u64 => match SafeUint32 u64 with Err _ => Err ErrDepositCount | Ok u32 => Ok (u64, u32) end
  end.

(** The loop over the bridges to archive. *)
Fixpoint archiveBridges (bridges : list BridgeRow) : BS unit :=
  match bridges with
  | [] => sret tt
  | b :: bridges' =>
      let! s := sget in
      let! _ := if existsb (fun r => bw_DepositCount r =? bw_DepositCount b) (bridge_archive (ts_db s)) then sret tt
                else insertArchive (with_source BridgeSourceBackwardLET b) in
      archiveBridges bridges'
  end.

Definition archiveAndDeleteBridgesAbove (depositCount : Z) : BS unit :=
  let! s := sget in
  let bridges := bfilter (fun b => depositCount <=? bw_DepositCount b) (bridge (ts_db s)) in
  match bridges with
  | [] => sret tt
  | _ =>
      let! _ := archiveBridges bridges in
      smodify (set_db (set_bridge (bfilter (fun b => negb (depositCount <=? bw_DepositCount b)))))
  end.

Definition sanityCheckLatestLER (ler : Z) : BS unit :=
  let! s := sget in
  let lastRootHash := match GetLastRoot (tx_db (ts_tx s)) with Ok root => rt_Hash root | Err _ => ZeroHash end in
  if ler =? initialLER then (if negb (lastRootHash =? ZeroHash) then sfail ErrLERMismatch else sret tt)
  else if negb (lastRootHash =? ler) then sfail ErrLERMismatch
  else sret tt.

Definition insertBackwardLET (event : BackwardLET) : BS unit :=
  let! _ := sanityCheckLatestLER (bl_PreviousRoot event) in
  let! (newDepositCount, leafIndex) := slift (normalizeDepositCount (bl_NewDepositCount event)) in
  let! _ := archiveAndDeleteBridgesAbove newDepositCount in
  let! _ := smodify (set_treeDB (fun db => if leafIndex =? 0 then Reorg db 0 else BackwardToIndex db (leafIndex -u32 1))) in
  let! _ := sanityCheckLatestLER (bl_NewRoot event) in
  insertBackwardRow event.

(** ** Replaying leaves *)

(** [SELECT * FROM bridge_archive WHERE leaf_type = ... AND metadata = ...]. *)
Definition matches_leaf (l : LeafData) (b : BridgeRow) : bool :=
  let r := bw_Bridge b in
  (br_LeafType r =? ld_LeafType l) && (br_OriginNetwork r =? ld_OriginNetwork l) && (br_OriginAddress r =? ld_OriginAddress l) &&
  (br_DestinationNetwork r =? ld_DestinationNetwork l) && (br_DestinationAddress r =? ld_DestinationAddress l) &&
  bool_decide (br_Amount r = Some (ld_Amount l)) && bool_decide (br_Metadata r = ld_Metadata l).

(** [PutLeaf] in a block: an invalid index halts the processor, every error is reported as inconsistency. *)
Definition putOrHalt (blockNum blockPos : Z) (leaf : Leaf) : BS unit := fun s =>
  match putLeaf ErrTree blockNum blockPos leaf s with
  | (s', Ok _) => (s', Ok tt)
  | (s', Err (ErrTree Merkle.ErrInvalidIndex)) => (fst (halt (E := bError) s'), Err ErrInconsistent)
  | (s', Err _) => (s', Err ErrInconsistent)
  end.

(** One new leaf: the bridge of an archived match keeps its transaction data. *)
Definition forwardLeaf (event : ForwardLET) (newDepositCount newBlockPos : Z) (leaf : LeafData) : BS unit :=
  let! s := sget in
  let '(txnHash, txnSender, fromAddr) :=
    match bfilter (matches_leaf leaf) (bridge_archive (ts_db s)) with
    | [archived] => (bw_TxHash archived, bw_TxnSender archived, bw_FromAddress archived)
    | _ => (fl_TxnHash event, 0, None)
    end in
  let b := ToBridge leaf (fl_BlockNum event) newBlockPos (fl_BlockTimestamp event) newDepositCount txnHash txnSender fromAddr in
  let! _ := putOrHalt (fl_BlockNum event) newBlockPos (mkLeaf newDepositCount (row_Hash b)) in
  insertBridge b.

(** The loop over the new leaves; the position after the last. *)
Fixpoint forwardLeaves (event : ForwardLET) (newDepositCount newBlockPos : Z) (leaves : list LeafData) : BS Z :=
  match leaves with
  | [] => sret newBlockPos
  | leaf :: leaves' =>
      let! _ := forwardLeaf event newDepositCount newBlockPos leaf in
      forwardLeaves event (newDepositCount +u32 1) (newBlockPos +u64 1) leaves'
  end.

Definition handleForwardLETEvent (event : ForwardLET) (blockPos : option Z) : BS Z :=
  let! _ := sanityCheckLatestLER (fl_PreviousRoot event) in
  match decodeForwardLETLeaves (fl_NewLeaves event) with
  | None => sfail ErrDecode
  | Some decodedNewLeaves =>
      let! newDepositCount :=
        if negb (fl_PreviousRoot event =? initialLER)
        then let! (_, u32) := slift (normalizeDepositCount (fl_PreviousDepositCount event)) in sret u32
        else sret 0 in
      let! newBlockPos := forwardLeaves event newDepositCount (default (fl_BlockPos event) blockPos) decodedNewLeaves in
      let! _ := sanityCheckLatestLER (fl_NewRoot event) in
      let! _ := insertForwardRow event in
      sret newBlockPos
  end.

(** ** Processing a block *)

Definition on_some {A} (o : option A) (f : A -> BS unit) : BS unit := match o with Some a => f a | None => sret tt end.

(** The bridge of an event; the position it leaves for the next one. *)
Definition processBridge (blockNum : Z) (blockPos : option Z) (b : BridgeRow) : BS (option Z) :=
  let (b, blockPos) := match blockPos with Some pos => (with_pos pos b, Some (pos +u64 1)) | None => (b, None) end in
  let! _ := putOrHalt blockNum (snd (bw_pos b)) (mkLeaf (bw_DepositCount b) (row_Hash b)) in
  let! _ := insertBridge (hashed b) in
  sret blockPos.

(** The loop over the events; [blockPos] is the next position after a [ForwardLET] of the block. *)
Fixpoint processEvents (blockNum : Z) (blockPos : option Z) (events : list Event) : BS unit :=
  match events with
  | [] => sret tt
  | event :: events' =>
      let! blockPos := match ev_Bridge event with Some b => processBridge blockNum blockPos b | None => sret blockPos end in
      let! _ := on_some (ev_TokenMapping event) insertTokenMapping in
      let! _ := on_some (ev_LegacyTokenMigration event) insertLegacyTokenMigration in
      let! _ := on_some (ev_RemoveLegacyToken event) removeLegacyToken in
      let! _ := on_some (ev_BackwardLET event) insertBackwardLET in
      let! blockPos := match ev_ForwardLET event with
                       | Some f => let! pos := handleForwardLETEvent f blockPos in sret (Some pos)
                       | None => sret blockPos
                       end in
      processEvents blockNum blockPos events'
  end.

Definition hasAnyBridge (b : Block Event) : bool := existsb (fun e => match ev_Bridge e with Some _ => true | None => false end) (bk_Events b).

(** The block number is published when the block has a bridge. *)
Definition b_ProcessBlock (b : Block Event) (p : processor) : processor * result bError unit :=
  if p_halted (bp_proc p) then (p, Err ErrInconsistent)
  else match inTx (let! _ := insertBlock (bk_Num b) (bk_Hash b) in processEvents (bk_Num b) None (bk_Events b)) (bp_proc p) with
       | (q, Ok _) => (mkProcessor q (bp_published p ++ if hasAnyBridge b then [bk_Num b] else []), Ok tt)
       | (q, Err e) => (mkProcessor q (bp_published p), Err e)
       end.

(** ** Reorgs *)

(** The deposit counts of archived bridges of the reorged blocks. *)
Definition loadReorgedDepositCounts (d : bdb) (fromBlock : Z) : list Z :=
  map bw_DepositCount (bfilter (fun b => fromBlock <=? bw_BlockNum b) (bridge_archive d)).

Definition count_le (a b : BridgeRow) : Prop := bw_DepositCount a <= bw_DepositCount b.
#[global] Instance count_le_dec : RelDecision count_le.
Proof. intros a b. unfold count_le. apply Z_le_dec. Defined.

(** The archived bridges of a range of deposit counts, in their order. *)
Definition archivedBetween (next prev : Z) (d : bdb) : list BridgeRow :=
  merge_sort count_le (bfilter (fun b => (next <=? bw_DepositCount b) && (bw_DepositCount b <=? prev)) (bridge_archive d)).

Fixpoint restoreBridges (removedDepositCounts : list Z) (bridges : list BridgeRow) : BS unit :=
  match bridges with
  | [] => sret tt
  | b :: bridges' =>
      let! _ :=
        if existsb (fun c => c =? bw_DepositCount b) removedDepositCounts then sret tt
        else
          let b := with_source NoSource b in
          let! _ := insertBridge b in
          let! _ := putLeaf ErrTree (fst (bw_pos b)) (snd (bw_pos b)) (mkLeaf (bw_DepositCount b) (row_Hash b)) in
          sret tt in
      restoreBridges removedDepositCounts bridges'
  end.

Fixpoint restoreBackwardLETBridges (backwardLETs : list BackwardLET) (removedDepositCounts : list Z) : BS unit :=
  match backwardLETs with
  | [] => sret tt
  | backwardLET :: backwardLETs' =>
      match SafeUint64 (Some (bl_PreviousDepositCount backwardLET)), SafeUint64 (Some (bl_NewDepositCount backwardLET)) with
      | Ok prev, Ok next =>
          let! s := sget in
          let! _ := restoreBridges removedDepositCounts (archivedBetween next prev (ts_db s)) in
          let! _ := smodify (set_db (set_archive
            (bfilter (fun b => negb ((next <=? bw_DepositCount b) && (bw_DepositCount b <=? prev)))))) in
          restoreBackwardLETBridges backwardLETs' removedDepositCounts
      | _, _ => sfail ErrDepositCount
      end
  end.

(** [DELETE FROM block WHERE num >= $1], with the rows that refer to the deleted blocks. *)
Definition deleteBlocks (n : Z) (d : bdb) : bdb :=
  let keep k := negb (n <=? k) in
  mkBdb (bfilter (fun b => keep (fst b)) (block d)) (bfilter (fun b => keep (bw_BlockNum b)) (bridge d)) (bridge_archive d)
    (bfilter (fun t => keep (tm_BlockNum t)) (token_mapping d)) (bfilter (fun l => keep (lm_BlockNum l)) (legacy_token_migration d))
    (bfilter (fun b => keep (bl_BlockNum b)) (backward_let d)) (bfilter (fun f => keep (fl_BlockNum f)) (forward_let d)).

Definition reorgTx (firstReorgedBlock : Z) : BS unit :=
  let! s := sget in
  let backwardLETs := bfilter (fun b => firstReorgedBlock <=? bl_BlockNum b) (backward_let (ts_db s)) in
  let depositCountsToRemove := match backwardLETs with [] => [] | _ => loadReorgedDepositCounts (ts_db s) firstReorgedBlock end in
  let! _ := smodify (set_db (deleteBlocks firstReorgedBlock)) in
  let! _ := smodify (set_treeDB (fun db => Reorg db firstReorgedBlock)) in
  restoreBackwardLETBridges backwardLETs depositCountsToRemove.

(** Unhalts once committed. *)
Definition b_Reorg (firstReorgedBlock : Z) (p : processor) : processor * result bError unit :=
  match inTx (reorgTx firstReorgedBlock) (bp_proc p) with
  | (q, Ok _) => (mkProcessor (mkTreeProc (p_db q) (p_treeDB q) (p_tree q) false) (bp_published p), Ok tt)
  | (q, Err e) => (mkProcessor q (bp_published p), Err e)
  end.

End Processor.

(** ** Queries of the processor *)

Section Queries.
Context `{Kc : Keccak} (p : processor).

Abbreviation db := (p_db (bp_proc p)).
Abbreviation treeDB := (p_treeDB (bp_proc p)).

Definition GetBridges (fromBlock toBlock : Z) : list BridgeRow :=
  merge_sort (pos_le bw_pos) (bfilter (fun b => (fromBlock <=? bw_BlockNum b) && (bw_BlockNum b <=? toBlock)) (bridge db)).

Definition b_GetLastProcessedBlock : option Z := fst <$> lastRow (block db).

Definition b_getBlockHash (blockNum : Z) : option Z := rowHash (block db) blockNum.

(** A row joined with the hash of its block, zero when there is none. *)
Definition withBlockHash (b : BridgeRow) : BridgeRow * Z := (b, default 0 (b_getBlockHash (bw_BlockNum b))).

Definition calculateOffset (pageNumber pageSize recordsCount : Z) : result bError Z :=
  let offset := (pageNumber -u32 1) *u32 pageSize in
  if recordsCount <=? offset then Err ErrInvalidPage else Ok offset.

(** [None]: no filter on that column; an address that does not parse is no filter. *)
Definition bridgesFilter (depositCount : option Z) (networkIDs : list Z) (fromAddress : option Z) (b : BridgeRow) : bool :=
  match depositCount with Some c => bw_DepositCount b =? c | None => true end &&
  match networkIDs with [] => true | _ => existsb (Z.eqb (br_DestinationNetwork (bw_Bridge b))) networkIDs end &&
  match fromAddress with Some a => bool_decide (bw_FromAddress b = Some a) | None => true end.

Definition count_ge (a b : BridgeRow) : Prop := bw_DepositCount b <= bw_DepositCount a.
#[global] Instance count_ge_dec : RelDecision count_ge.
Proof. intros a b. unfold count_ge. apply Z_le_dec. Defined.

Definition GetBridgesPaged (pageNumber pageSize : Z) (depositCount : option Z) (networkIDs : list Z) (fromAddress : option Z)
  : result bError (list (BridgeRow * Z) * Z) :=
  let rows := bfilter (bridgesFilter depositCount networkIDs fromAddress) (bridge db) in
  let bridgesCount := Z.of_nat (length rows) in
  if bridgesCount =? 0 then Ok ([], 0)
  else let? offset := calculateOffset pageNumber pageSize bridgesCount in
       Ok (map withBlockHash (page pageSize offset (merge_sort count_ge rows)), bridgesCount).

Definition GetLegacyTokenMigrations (pageNumber pageSize : Z) : result bError (list LegacyTokenMigration * Z) :=
  let rows := legacy_token_migration db in
  let count := Z.of_nat (length rows) in
  if count =? 0 then Ok ([], 0)
  else let? offset := calculateOffset pageNumber pageSize count in
       Ok (page pageSize offset (merge_sort (pos_ge (fun l => (lm_BlockNum l, lm_BlockPos l))) rows), count).

(** [ORDER BY block_num DESC]. *)
Definition mapping_newer (a b : TokenMapping) : Prop := tm_BlockNum b <= tm_BlockNum a.
#[global] Instance mapping_newer_dec : RelDecision mapping_newer.
Proof. intros a b. unfold mapping_newer. apply Z_le_dec. Defined.

Definition GetTokenMappings (pageNumber pageSize : Z) (originTokenAddress : option Z) : result bError (list TokenMapping * Z) :=
  let rows := bfilter (fun t => match originTokenAddress with Some a => tm_OriginTokenAddress t =? a | None => true end) (token_mapping db) in
  let count := Z.of_nat (length rows) in
  if count =? 0 then Ok ([], 0)
  else let? offset := calculateOffset pageNumber pageSize count in
       Ok (page pageSize offset (merge_sort mapping_newer rows), count).

(** The bridge table first, then the archive. *)
Definition GetBridgeByDepositCount (depositCount : Z) : result bError (BridgeRow * Z) :=
  let at_count := List.find (fun b => bw_DepositCount b =? depositCount) in
  match at_count (bridge db) with
  | Some b => Ok (withBlockHash b)
  | None => match at_count (bridge_archive db) with Some b => Ok (withBlockHash b) | None => Err ErrNoRows end
  end.

Definition contentFilter (leafType originAddress destinationNetwork destinationAddress : Z) (amount : option Z) (metadata : list Z)
    (b : BridgeRow) : bool :=
  let r := bw_Bridge b in
  (br_OriginNetwork r =? 0) && (br_LeafType r =? leafType) && (br_OriginAddress r =? originAddress) &&
  (br_DestinationNetwork r =? destinationNetwork) && (br_DestinationAddress r =? destinationAddress) &&
  bool_decide (br_Amount r = Some (default 0 amount)) && bool_decide (br_Metadata r = metadata).

Definition GetBridgesByContent (leafType originAddress destinationNetwork destinationAddress : Z) (amount : option Z)
    (metadata : list Z) : list (BridgeRow * Z) :=
  let f := contentFilter leafType originAddress destinationNetwork destinationAddress amount metadata in
  map withBlockHash (bfilter f (bridge db) ++ bfilter f (bridge_archive db)).

Definition fromTree {A} (r : result treeError A) : result bError A := match r with Ok a => Ok a | Err e => Err (ErrTree e) end.

Definition getExitTreeRootByHash (hash : Z) : result bError (Root * Z) :=
  let? root := fromTree (GetRootByHash treeDB hash) in
  Ok (root, default 0 (b_getBlockHash (rt_BlockNum root))).

(** ** The syncer ([bridgesync.go]) *)

Definition ifActive {A} (r : result bError A) : result bError A := if p_halted (bp_proc p) then Err ErrInconsistent else r.

Definition s_GetBridgesPaged (page pageSize : Z) (depositCount : option Z) (networkIDs : list Z) (fromAddress : option Z)
  : result bError (list (BridgeRow * Z) * Z) := ifActive (GetBridgesPaged page pageSize depositCount networkIDs fromAddress).
Definition s_GetLastProcessedBlock : result bError (option Z) := ifActive (Ok b_GetLastProcessedBlock).
Definition s_GetExitRootByHash (root : Z) : result bError Root := ifActive (fromTree (GetRootByHash treeDB root)).
Definition s_GetBridges (fromBlock toBlock : Z) : result bError (list BridgeRow) := ifActive (Ok (GetBridges fromBlock toBlock)).

Definition s_GetTokenMappings (pageNumber pageSize : Z) (originTokenAddress : option Z) : result bError (list TokenMapping * Z) :=
  ifActive (if (pageNumber =? 0) || (pageSize =? 0) then Err ErrInvalidPage else GetTokenMappings pageNumber pageSize originTokenAddress).
Definition s_GetLegacyTokenMigrations (pageNumber pageSize : Z) : result bError (list LegacyTokenMigration * Z) :=
  ifActive (if (pageNumber =? 0) || (pageSize =? 0) then Err ErrInvalidPage else GetLegacyTokenMigrations pageNumber pageSize).
Definition s_GetProof (depositCount localExitRoot : Z) : result bError (list Z) :=
  ifActive (fromTree (GetProof (aot_Tree (p_tree (bp_proc p))) treeDB depositCount localExitRoot)).
Definition s_GetBlockByLER (ler : Z) : result bError Z :=
  ifActive (let? root := fromTree (GetRootByHash treeDB ler) in Ok (rt_BlockNum root)).
Definition s_GetLastRoot : result bError Root := ifActive (fromTree (GetLastRoot treeDB)).
Definition s_GetRootByLER (ler : Z) : result bError (Root * Z) := ifActive (getExitTreeRootByHash ler).
Definition s_GetExitRootByIndex (index : Z) : result bError Root := ifActive (fromTree (GetRootByIndex treeDB index)).
Definition s_IsActive : bool := negb (p_halted (bp_proc p)).

(** [None]: [ErrInconsistentState]. *)
Definition s_IsBlockFinalized (tracker : Z -> result rdError Header) (blockNum blockHash : Z) : option (result rdError (bool * bool)) :=
  if p_halted (bp_proc p) then None
  else Some (IsBlockFinalized tracker blockNum blockHash (fun n => Ok (b_getBlockHash n))).

(** [depositCount]: what the contract answers. *)
Definition s_GetContractDepositCount (depositCount : result bError Z) : result bError Z :=
  ifActive (let? n := depositCount in let? (_, u32) := normalizeDepositCount n in Ok u32).

End Queries.

(** ** Runtime data of the database *)

Record BridgeSyncRuntimeData := mkBridgeSyncRuntimeData {
  rd_ChainID : Z;
  rd_Addresses : list Z;
  rd_DBVersion : option Z;
  rd_SyncFromInBridges : option bool
}.

(** [Ok (Some d)]: compatible, store [d]; [ErrRuntime] is the panic on a missing version. *)
Definition b_IsCompatible (b storage : BridgeSyncRuntimeData) : result compatError (option BridgeSyncRuntimeData) :=
  let? _ := IsCompatible (mkRuntimeData (rd_ChainID b) (rd_Addresses b)) (mkRuntimeData (rd_ChainID storage) (rd_Addresses storage)) in
  match rd_DBVersion storage, rd_DBVersion b with
  | None, _ => Err ErrIncompatible
  | Some _, None => Err ErrRuntime
  | Some v, Some w =>
      if negb (v =? w) then Err ErrIncompatible
      else match rd_SyncFromInBridges b with
           | None => Err ErrIncompatible
           | Some _ => match rd_SyncFromInBridges storage with None => Ok (Some b) | Some _ => Ok None end
           end
  end.
