(* ===== verification/BridgeProofs.v ===== *)
(** Properties of the processor of the bridge syncer: what blocks of bridges, rewinding the exit tree and
    reorgs do to the tables and the tree, and how the exit tree relates to the exits of certificates. *)

From S2P Require Import Prelude Bytes Merkle Tables TreeTx AgglayerTypes CertStorage BuildParams Flow Validator Queriers.
From S2P Require Import Downloader ReorgDetector SyncDriver BridgeSync.

Section Proofs.
Context `{Kc : Keccak}.
Context (initialLER : Z) (decode : list Z -> option (list LeafData)).

Abbreviation rows_hashes d := (map row_Hash (bridge d)).

(** ** The invariant *)

(** The bridges are the leaves of the exit tree, at their deposit counts and positions, of known blocks. *)
Record b_inv (d : bdb) (t : AppendOnlyTree) (tdb : TreeDB) : Prop := {
  bi_tree : aot_inv t tdb (rows_hashes d);
  bi_count : forall k b, bridge d !! k = Some b -> bw_DepositCount b = Z.of_nat k;
  bi_roots : map root_pos (db_root tdb) = map bw_pos (bridge d);
  bi_hashes : NoDup (map rt_Hash (db_root tdb));
  bi_blocks : Forall (fun b => bw_BlockNum b ∈ map fst (block d)) (bridge d);
  bi_nonneg : Forall (fun n => 0 <= n) (map fst (block d))
}.

Definition bp_inv (p : processor) : Prop := b_inv (p_db (bp_proc p)) (p_tree (bp_proc p)) (p_treeDB (bp_proc p)).
Definition ts_inv (s : txState bdb) : Prop := b_inv (ts_db s) (ts_tree s) (tx_db (ts_tx s)).

(** ** Adding bridges *)

Lemma row_Hash_hashed b : row_Hash (hashed b) = row_Hash b.
Proof. done. Qed.

Lemma insert_check_run {A} (pos : A -> Z * Z) table (a : A) s :
  (forall r, In r table -> (fst (pos r) =? fst (pos a)) && (snd (pos r) =? snd (pos a)) = false) ->
  fst (pos a) ∈ map fst (block (ts_db s)) -> insert_check pos table a s = (s, Ok tt).
Proof.
  intros Hfresh Hblk. unfold insert_check. erewrite sbind_run by reflexivity. rewrite (proj2 (existsb_false_In _ _) Hfresh).
  assert (E : existsb (fun b => fst b =? fst (pos a)) (block (ts_db s)) = true).
  { apply list_elem_of_fmap in Hblk as (b & E & Hb). apply existsb_exists. exists b. rewrite E, Z.eqb_refl.
    split; [by apply list_elem_of_In | done]. }
  by rewrite E.
Qed.

Lemma insertBridge_run b s :
  (forall r, In r (bridge (ts_db s)) -> (fst (bw_pos r) =? fst (bw_pos b)) && (snd (bw_pos r) =? snd (bw_pos b)) = false) ->
  bw_BlockNum b ∈ map fst (block (ts_db s)) ->
  insertBridge b s = (set_db (set_bridge (fun rows => rows ++ [b])) s, Ok tt).
Proof.
  intros Hf Hb. unfold insertBridge. erewrite sbind_run by reflexivity.
  erewrite sbind_run by (apply insert_check_run; [exact Hf | exact Hb]). done.
Qed.

(** The next leaf of the tree and its row. *)
Definition bridge_ok (b : BridgeRow) (s : txState bdb) : Prop :=
  put_ok (tx_db (ts_tx s)) (rows_hashes (ts_db s)) (fst (bw_pos b)) (snd (bw_pos b)) (row_Hash b) /\
  bw_DepositCount b = Z.of_nat (length (bridge (ts_db s))) /\ bw_BlockNum b ∈ map fst (block (ts_db s)).

Definition added (b : BridgeRow) (s s' : txState bdb) : Prop :=
  ts_db s' = set_bridge (fun rows => rows ++ [b]) (ts_db s) /\ ts_inv s' /\
  db_root (tx_db (ts_tx s')) = db_root (tx_db (ts_tx s)) ++
    [mkRoot (tree_root (rows_hashes (ts_db s'))) (bw_DepositCount b) (fst (bw_pos b)) (snd (bw_pos b))] /\
  tx_commitCallbacks (ts_tx s') = tx_commitCallbacks (ts_tx s) /\ ts_halted s' = ts_halted s /\
  (forall k nd, db_rht (tx_db (ts_tx s)) !! k = Some nd -> db_rht (tx_db (ts_tx s')) !! k = Some nd).

(** Putting the leaf and inserting the row, in either order. *)
Lemma add_bridge b s :
  ts_inv s -> bridge_ok b s ->
  exists t' tx' s', putLeaf ErrTree (fst (bw_pos b)) (snd (bw_pos b)) (mkLeaf (bw_DepositCount b) (row_Hash b)) s
      = (mkTxState (ts_db s) t' tx' (ts_halted s), Ok (tree_root (rows_hashes (ts_db s) ++ [row_Hash b]))) /\
    s' = mkTxState (set_bridge (fun rows => rows ++ [b]) (ts_db s)) t' tx' (ts_halted s) /\ added b s s'.
Proof.
  intros Hinv (Hput & Hcount & Hblk). pose proof (bi_tree _ _ _ Hinv) as iv.
  destruct (PutLeaf_run (ts_tree s) (ts_tx s) _ _ _ _ iv Hput) as (t' & tx' & Hrun & Hinv' & Hrows & Hsaved & Hcommit).
  rewrite length_map, <- Hcount in Hrun, Hrows. exists t', tx'. eexists. split; [|split; [reflexivity|]].
  { unfold putLeaf. rewrite Hrun. done. }
  assert (Hfields : b_inv (set_bridge (fun rows => rows ++ [b]) (ts_db s)) t' (tx_db tx')).
  { destruct Hinv as [Htree Hcnt Hroots Hnd Hblocks Hnn]. split; cbn [set_bridge bridge block].
    - by rewrite map_app.
    - intros k x Hk. apply lookup_app_Some in Hk as [Hk|[Hge Hk]]; [by apply Hcnt|].
      apply list_lookup_singleton_Some in Hk as [Hk <-]. rewrite Hcount. lia.
    - by rewrite Hrows, !map_app, Hroots.
    - rewrite Hrows, map_app. apply NoDup_app. split; [done|]. split; [|apply NoDup_singleton].
      intros x Hx Hx'. apply list_elem_of_singleton in Hx' as ->. apply list_elem_of_fmap in Hx as (r & E & Hr).
      apply list_elem_of_In in Hr. by apply (po_fresh _ _ _ _ _ Hput r Hr).
    - apply Forall_app. split; [done|]. by apply Forall_singleton.
    - done. }
  split_and!; try done; cbn [ts_tx ts_db set_bridge bridge].
  - by rewrite map_app, Hrows.
  - intros k nd. by apply (PutLeaf_keeps_nodes _ _ _ _ _ _ _ _ _ _ Hrun).
Qed.

(** No row at the position of the next leaf. *)
Lemma bridge_pos_fresh b s :
  ts_inv s -> bridge_ok b s ->
  forall r, In r (bridge (ts_db s)) -> (fst (bw_pos r) =? fst (bw_pos b)) && (snd (bw_pos r) =? snd (bw_pos b)) = false.
Proof. intros Hinv (Hput & _) r Hr. by apply (put_pos_fresh bw_pos _ _ _ _ _ _ r (bi_roots _ _ _ Hinv) Hput). Qed.

Lemma processBridge_run b s :
  ts_inv s -> bridge_ok b s ->
  exists s', processBridge (bw_BlockNum b) None b s = (s', Ok None) /\ added (hashed b) s s'.
Proof.
  intros Hinv Hok. destruct (add_bridge (hashed b) s Hinv Hok) as (t' & tx' & s' & Hput & -> & Hadd).
  exists (mkTxState (set_bridge (fun rows => rows ++ [hashed b]) (ts_db s)) t' tx' (ts_halted s)). split; [|done].
  unfold processBridge. cbn [snd]. erewrite sbind_run.
  2:{ unfold putOrHalt. rewrite <- (row_Hash_hashed b).
      change (bw_DepositCount b) with (bw_DepositCount (hashed b)). change (bw_BlockNum b) with (fst (bw_pos (hashed b))).
      change (snd (bw_pos b)) with (snd (bw_pos (hashed b))). rewrite Hput. reflexivity. }
  erewrite sbind_run by (apply insertBridge_run; [exact (bridge_pos_fresh (hashed b) s Hinv Hok) | apply Hok]). done.
Qed.

(** ** A block of bridges *)

Definition bridge_event (b : BridgeRow) : Event := mkEvent (Some b) None None None None None.

(** Each bridge is the next one when its turn comes. *)
Fixpoint bridges_ok (bridges : list BridgeRow) (s : txState bdb) : Prop :=
  match bridges with
  | [] => True
  | b :: bridges' => bridge_ok b s /\
      forall s', processBridge (bw_BlockNum b) None b s = (s', Ok None) -> bridges_ok bridges' s'
  end.

Lemma processBridges_run bn bridges : forall s,
  ts_inv s -> Forall (fun b => bw_BlockNum b = bn) bridges -> bridges_ok bridges s ->
  exists s', processEvents initialLER decode bn None (map bridge_event bridges) s = (s', Ok tt) /\ ts_inv s' /\
    ts_db s' = set_bridge (fun rows => rows ++ map hashed bridges) (ts_db s) /\
    tx_commitCallbacks (ts_tx s') = tx_commitCallbacks (ts_tx s) /\ ts_halted s' = ts_halted s.
Proof.
  induction bridges as [|b bs IH]; intros s Hinv Hbn Hok.
  { exists s. split; [done|]. split; [done|]. split; [|done]. destruct (ts_db s). unfold set_bridge. cbn. by rewrite app_nil_r. }
  apply Forall_cons in Hbn as [<- Hbn]. destruct Hok as [Hb Hnext].
  destruct (processBridge_run b s Hinv Hb) as (s1 & Hrun & Hdb & Hinv1 & _ & Hc & Hh & _).
  destruct (IH s1 Hinv1 Hbn (Hnext s1 Hrun)) as (s' & Hrun' & Hinv' & Hdb' & Hc' & Hh').
  exists s'. split; [|split; [done|]].
  - cbn [map processEvents bridge_event ev_Bridge ev_TokenMapping ev_LegacyTokenMigration ev_RemoveLegacyToken ev_BackwardLET ev_ForwardLET].
    erewrite sbind_run by exact Hrun. cbn [on_some]. do 5 (erewrite sbind_run by reflexivity). exact Hrun'.
  - rewrite Hdb', Hdb, Hc', Hh', Hc, Hh. split; [|done]. unfold set_bridge. cbn. by rewrite <- app_assoc.
Qed.

(** ** Rewinding *)

(** The exit root of a list of leaves, as the bridge contract reports it. *)
Definition ler (leaves : list Z) : Z := match leaves with [] => initialLER | _ => tree_root leaves end.

(** The root of a non-empty tree is not taken for the initial one. *)
Definition ler_distinct (leaves : list Z) : Prop := leaves <> [] -> tree_root leaves <> initialLER.

Lemma sanity_run leaves s :
  db_inv (tx_db (ts_tx s)) leaves -> ler_distinct leaves -> sanityCheckLatestLER initialLER (ler leaves) s = (s, Ok tt).
Proof.
  intros Hdb Hd. unfold sanityCheckLatestLER. erewrite sbind_run by reflexivity. destruct leaves as [|x l].
  - assert (E : db_root (tx_db (ts_tx s)) = []) by (apply nil_length_inv; by rewrite (di_length _ _ Hdb)).
    unfold GetLastRoot. rewrite E. cbn. by rewrite Z.eqb_refl.
  - destruct (GetLastRoot_db_inv _ _ Hdb ltac:(done)) as (r & -> & _ & Hh). cbn [ler]. rewrite Hh.
    rewrite (proj2 (Z.eqb_neq _ _)) by (by apply Hd). by rewrite Z.eqb_refl.
Qed.

(** Deposit counts are positions, so a bound on them cuts the table. *)
Lemma count_cut (rows : list BridgeRow) base n :
  (forall k b, rows !! k = Some b -> bw_DepositCount b = base + Z.of_nat k) ->
  bfilter (fun b => n <=? bw_DepositCount b) rows = drop (Z.to_nat (n - base)) rows /\
  bfilter (fun b => negb (n <=? bw_DepositCount b)) rows = take (Z.to_nat (n - base)) rows.
Proof.
  revert base. induction rows as [|b rows IH]; intros base Hc; [by rewrite drop_nil, take_nil|].
  pose proof (Hc 0%nat b eq_refl) as Hb. destruct (IH (base + 1)) as [E1 E2].
  { intros k x Hk. rewrite (Hc (S k) x Hk). lia. }
  cbn [bfilter]. rewrite Hb, E1, E2. destruct (n <=? base + Z.of_nat 0) eqn:E; bool_hyps; cbn [negb].
  - replace (Z.to_nat (n - (base + 1))) with 0%nat by lia. replace (Z.to_nat (n - base)) with 0%nat by lia. by rewrite !drop_0.
  - replace (Z.to_nat (n - base)) with (S (Z.to_nat (n - (base + 1)))) by lia. done.
Qed.

Definition set_archived (rows : list BridgeRow) (s : txState bdb) : txState bdb :=
  set_db (set_archive (fun a => a ++ map (with_source BridgeSourceBackwardLET) rows)) s.

Lemma archiveBridges_run rows : forall s,
  NoDup (map bw_DepositCount (bridge_archive (ts_db s)) ++ map bw_DepositCount rows) ->
  archiveBridges rows s = (set_archived rows s, Ok tt).
Proof.
  induction rows as [|b rows IH]; intros s Hnd; cbn [archiveBridges].
  { unfold set_archived, set_db, set_archive. destruct s as [[] ???]. cbn. by rewrite app_nil_r. }
  erewrite sbind_run by reflexivity.
  assert (E : existsb (fun r => bw_DepositCount r =? bw_DepositCount b) (bridge_archive (ts_db s)) = false).
  { apply existsb_false_In. intros r Hr. apply Z.eqb_neq. intros Eq. apply NoDup_app in Hnd as (_ & Hd & _).
    apply (Hd (bw_DepositCount r)); [by apply list_elem_of_In, in_map | rewrite Eq; apply list_elem_of_here]. }
  rewrite E. unfold insertArchive. erewrite sbind_run by (erewrite sbind_run by reflexivity; cbn [with_source bw_Bridge]; 
    change (bw_DepositCount (with_source BridgeSourceBackwardLET b)) with (bw_DepositCount b); rewrite E; reflexivity).
  rewrite IH.
  - unfold set_archived, set_db, set_archive. cbn. by rewrite <- app_assoc.
  - cbn. rewrite map_app, <- app_assoc. exact Hnd.
Qed.

(** The tables after the rewinding to [n] leaves. *)
Definition rewound_db (n : nat) (event : BackwardLET) (d : bdb) : bdb :=
  mkBdb (block d) (take n (bridge d)) (bridge_archive d ++ map (with_source BridgeSourceBackwardLET) (drop n (bridge d)))
    (token_mapping d) (legacy_token_migration d) (backward_let d ++ [event]) (forward_let d).

(** The conditions on the event: the contract's counts and roots are those of the tree, none of the
    bridges to archive has its deposit count in the archive, and the event has a fresh position in a known
    block. *)
Record backward_ok (n : nat) (event : BackwardLET) (s : txState bdb) : Prop := {
  bo_count : bl_NewDepositCount event = Z.of_nat n;
  bo_bound : (n <= length (bridge (ts_db s)))%nat /\ Z.of_nat n < pow2_32;
  bo_prev : bl_PreviousRoot event = ler (rows_hashes (ts_db s));
  bo_new : bl_NewRoot event = ler (take n (rows_hashes (ts_db s)));
  bo_distinct : ler_distinct (rows_hashes (ts_db s)) /\ ler_distinct (take n (rows_hashes (ts_db s)));
  bo_archive : NoDup (map bw_DepositCount (bridge_archive (ts_db s)) ++ map bw_DepositCount (drop n (bridge (ts_db s))));
  bo_fresh : forall r, In r (backward_let (ts_db s)) ->
    (bl_BlockNum r =? bl_BlockNum event) && (bl_BlockPos r =? bl_BlockPos event) = false;
  bo_block : bl_BlockNum event ∈ map fst (block (ts_db s))
}.

(** The tree truncated to [n] leaves. *)
Lemma truncate_tree d t tdb n :
  b_inv d t tdb -> (n <= length (bridge d))%nat -> Z.of_nat n < pow2_32 ->
  let tdb' := if Z.of_nat n =? 0 then Reorg tdb 0 else BackwardToIndex tdb (Z.of_nat n -u32 1) in
  aot_inv t tdb' (take n (rows_hashes d)) /\ db_root tdb' = take n (db_root tdb) /\ db_rht tdb' = db_rht tdb.
Proof.
  intros Hinv Hn H32. pose proof (bi_tree _ _ _ Hinv) as Ht. cbv zeta. destruct (Z.of_nat n =? 0) eqn:E; bool_hyps.
  - assert (n = 0)%nat as -> by lia. destruct (Reorg_prefix _ _ _ 0 Ht) as (k & Hk & Ht' & Hr & Hiff).
    destruct k as [|k]; [done|]. exfalso.
    assert (Hlt : (0 < length (db_root tdb))%nat) by (rewrite (di_length _ _ (ai_db _ _ _ Ht)); lia).
    destruct (lookup_lt_is_Some_2 _ _ Hlt) as [r Hr0]. pose proof (proj2 (Hiff 0%nat r Hr0) ltac:(lia)) as Hneg.
    assert (E' : map root_pos (db_root tdb) !! 0%nat = Some (root_pos r))
      by (change (map root_pos) with (fmap root_pos (M := list)); by rewrite list_lookup_fmap, Hr0).
    rewrite (bi_roots _ _ _ Hinv) in E'. apply list_lookup_fmap_Some in E' as (b & Eb & Hb).
    pose proof (proj1 (Forall_forall _ _) (bi_blocks _ _ _ Hinv) b ltac:(by eapply list_elem_of_lookup_2)) as Hblk.
    pose proof (proj1 (Forall_forall _ _) (bi_nonneg _ _ _ Hinv) _ Hblk) as Hnn. cbn in Hnn.
    apply (f_equal fst) in Eb. cbn in Eb. unfold bw_BlockNum in Hnn. lia.
  - assert (Hu : Z.of_nat n -u32 1 = Z.of_nat n - 1).
    { unfold sub32. apply wrap32_small. unfold is_u32. unfold pow2_32 in *. lia. }
    rewrite Hu. destruct (BackwardToIndex_prefix t tdb (rows_hashes d) n Ht) as [H1 H2]; [rewrite length_map; lia|]. done.
Qed.


Lemma truncated_inv d t tdb tdb' n d' :
  b_inv d t tdb -> aot_inv t tdb' (take n (rows_hashes d)) -> db_root tdb' = take n (db_root tdb) ->
  bridge d' = take n (bridge d) -> block d' = block d -> b_inv d' t tdb'.
Proof.
  intros [Ht Hc Hr Hh Hb Hn] Ht' Hr' Eb Ek. split; rewrite ?Eb, ?Ek, ?Hr'.
  - by rewrite <- firstn_map.
  - intros k b Hk. apply lookup_take_Some in Hk as [Hk _]. by apply Hc.
  - rewrite <- !firstn_map. by rewrite Hr.
  - rewrite <- firstn_map. eapply sublist_NoDup; [exact Hh | apply sublist_take].
  - by apply Forall_take.
  - done.
Qed.

Lemma archiveAndDelete_run n s :
  (forall k b, bridge (ts_db s) !! k = Some b -> bw_DepositCount b = Z.of_nat k) ->
  NoDup (map bw_DepositCount (bridge_archive (ts_db s)) ++ map bw_DepositCount (drop n (bridge (ts_db s)))) ->
  archiveAndDeleteBridgesAbove (Z.of_nat n) s =
  (set_db (fun d => mkBdb (block d) (take n (bridge d))
     (bridge_archive d ++ map (with_source BridgeSourceBackwardLET) (drop n (bridge d)))
     (token_mapping d) (legacy_token_migration d) (backward_let d) (forward_let d)) s, Ok tt).
Proof.
  intros Hc Hnd. destruct (count_cut (bridge (ts_db s)) 0 (Z.of_nat n) Hc) as [E1 E2]. rewrite Z.sub_0_r, Nat2Z.id in E1, E2.
  unfold archiveAndDeleteBridgesAbove. erewrite sbind_run by reflexivity. rewrite E1.
  destruct (drop n (bridge (ts_db s))) as [|b rest] eqn:Ed.
  - assert (Et : take n (bridge (ts_db s)) = bridge (ts_db s)).
    { pose proof (take_drop n (bridge (ts_db s))) as Htd. by rewrite Ed, app_nil_r in Htd. }
    destruct s as [[] ???]. cbn in *. unfold set_db. cbn. by rewrite Et, Ed, app_nil_r.
  - rewrite <- Ed in *. erewrite sbind_run by (apply archiveBridges_run; exact Hnd).
    unfold smodify, set_archived, set_db, set_archive, set_bridge. cbn. by rewrite E2, Ed.
Qed.

Lemma normalizeDepositCount_small n : 0 <= n < pow2_32 -> normalizeDepositCount n = Ok (n, n).
Proof.
  intros Hn. unfold normalizeDepositCount, SafeUint64, SafeUint32. unfold pow2_32, pow2_64 in *.
  rewrite (proj2 (Z.leb_le _ _)), (proj2 (Z.ltb_lt _ _)) by lia. cbn [andb]. by rewrite (proj2 (Z.ltb_ge _ _)) by lia.
Qed.

Lemma insertBackwardLET_run n event s :
  ts_inv s -> backward_ok n event s ->
  exists s', insertBackwardLET initialLER event s = (s', Ok tt) /\ ts_inv s' /\
    ts_db s' = rewound_db n event (ts_db s) /\ db_root (tx_db (ts_tx s')) = take n (db_root (tx_db (ts_tx s))) /\
    db_rht (tx_db (ts_tx s')) = db_rht (tx_db (ts_tx s)) /\
    tx_commitCallbacks (ts_tx s') = tx_commitCallbacks (ts_tx s) /\ ts_halted s' = ts_halted s.
Proof.
  intros Hinv [Hcount [Hb H32] Hprev Hnew [Hd1 Hd2] Harch Hfresh Hblk].
  destruct (truncate_tree _ _ _ n Hinv Hb H32) as (Ht & Hr & Hrht). unfold insertBackwardLET.
  erewrite sbind_run by (rewrite Hprev; apply sanity_run; [apply (ai_db _ _ _ (bi_tree _ _ _ Hinv)) | done]).
  erewrite sbind_run by (rewrite Hcount, normalizeDepositCount_small by lia; reflexivity). cbv beta iota.
  erewrite sbind_run by (apply archiveAndDelete_run; [apply (bi_count _ _ _ Hinv) | exact Harch]).
  erewrite sbind_run by reflexivity.
  erewrite sbind_run by (rewrite Hnew; apply sanity_run; [apply (ai_db _ _ _ Ht) | done]).
  unfold insertBackwardRow. erewrite sbind_run by reflexivity.
  erewrite sbind_run by (apply insert_check_run; [exact Hfresh | exact Hblk]).
  eexists. split; [reflexivity|]. split; [|done].
  by apply (truncated_inv (ts_db s) (ts_tree s) (tx_db (ts_tx s)) _ n).
Qed.

(** A [BackwardLET] event whose counts and roots are those of the exit tree rewinds it: exactly the
    first [n] bridges and leaves remain, in order and with their roots, the others move to the archive, and
    rows and tree keep corresponding, so that the next bridge continues from there. *)
Theorem BackwardLET_rewinds n event s :
  ts_inv s -> backward_ok n event s ->
  exists s', insertBackwardLET initialLER event s = (s', Ok tt) /\ ts_inv s' /\
    ts_db s' = rewound_db n event (ts_db s) /\ db_root (tx_db (ts_tx s')) = take n (db_root (tx_db (ts_tx s))) /\
    tx_db (ts_tx s') = mkTreeDB (db_rht (tx_db (ts_tx s))) (take n (db_root (tx_db (ts_tx s)))).
Proof.
  intros Hinv Hok. destruct (insertBackwardLET_run n event s Hinv Hok) as (s' & Hrun & Hinv' & Hdb & Hr & Hrht & _).
  exists s'. split_and!; try done. rewrite <- Hr, <- Hrht. by destruct (tx_db (ts_tx s')).
Qed.


(** ** Undoing a rewinding *)

Lemma putLeaf_set_db f bn bp leaf (s : txState bdb) s' r :
  putLeaf ErrTree bn bp leaf s = (s', r) -> putLeaf ErrTree bn bp leaf (set_db f s) = (set_db f s', r).
Proof.
  unfold putLeaf, set_db. cbn. destruct (AppendOnly_PutLeaf _ _ _ _ _) as [[t tx] q]. by intros [= <- <-].
Qed.

(** Part of the bridges of [d0] are back, with their roots, and every node of its tree is still stored. *)
Record restoring (d0 : bdb) (tdb0 : TreeDB) (j : nat) (s : txState bdb) : Prop := {
  rs_inv : ts_inv s;
  rs_bridge : bridge (ts_db s) = take j (bridge d0);
  rs_roots : db_root (tx_db (ts_tx s)) = take j (db_root tdb0);
  rs_rht : forall k nd, db_rht tdb0 !! k = Some nd -> db_rht (tx_db (ts_tx s)) !! k = Some nd;
  rs_block : forall b, b ∈ bridge d0 -> bw_BlockNum b ∈ map fst (block (ts_db s))
}.

(** The root row of a bridge. *)
Lemma root_of_bridge d t tdb j b :
  b_inv d t tdb -> bridge d !! j = Some b ->
  db_root tdb !! j = Some (mkRoot (tree_root (take (S j) (rows_hashes d))) (Z.of_nat j) (fst (bw_pos b)) (snd (bw_pos b))).
Proof.
  intros Hinv Hb. pose proof (bi_tree _ _ _ Hinv) as Ht.
  assert (E : map root_pos (db_root tdb) !! j = Some (bw_pos b)).
  { rewrite (bi_roots _ _ _ Hinv). change (map bw_pos) with (fmap bw_pos (M := list)). by rewrite list_lookup_fmap, Hb. }
  apply list_lookup_fmap_Some in E as ([h i bn bp] & E & Hr). destruct (di_rows _ _ (ai_db _ _ _ Ht) j _ Hr) as [E1 E2].
  cbn in E1, E2. rewrite Hr, <- E1, <- E2. injection E as <- <-. done.
Qed.

Lemma restoring_ok d0 t0 tdb0 j b s :
  b_inv d0 t0 tdb0 -> restoring d0 tdb0 j s -> bridge d0 !! j = Some b -> bridge_ok b s.
Proof.
  intros H0 [Hinv Hb Hr Hrht Hblk] Hj. pose proof (ai_db _ _ _ (bi_tree _ _ _ H0)) as Hdb0.
  assert (Hjl : (j < length (bridge d0))%nat) by (by eapply lookup_lt_Some).
  assert (Hlen : length (bridge (ts_db s)) = j) by (rewrite Hb, length_take; lia).
  assert (Hh : rows_hashes (ts_db s) ++ [row_Hash b] = take (S j) (rows_hashes d0)).
  { rewrite Hb, <- firstn_map. symmetry. apply take_S_r. change (map row_Hash) with (fmap row_Hash (M := list)).
    by rewrite list_lookup_fmap, Hj. }
  pose proof (root_of_bridge _ _ _ j b H0 Hj) as Hroot.
  split_and!; [|by rewrite (bi_count _ _ _ H0 j b Hj), Hlen | apply Hblk; by eapply list_elem_of_lookup_2].
  assert (Hin : forall r, In r (db_root (tx_db (ts_tx s))) -> exists i, (i < j)%nat /\ db_root tdb0 !! i = Some r).
  { intros r Hin. rewrite Hr in Hin. apply list_elem_of_In, list_elem_of_lookup in Hin as [i Hi].
    apply lookup_take_Some in Hi as [Hi Hij]. eauto. }
  apply (put_ok_readable _ _ _ (map row_Hash (drop (S j) (bridge d0)))).
  - replace (rows_hashes (ts_db s) ++ row_Hash b :: map row_Hash (drop (S j) (bridge d0))) with (rows_hashes d0).
    2:{ rewrite Hb. transitivity (map row_Hash (take j (bridge d0) ++ b :: drop (S j) (bridge d0))).
        - by rewrite take_drop_middle.
        - by rewrite map_app. }
    split; [apply (di_sound _ _ (ai_db _ _ _ (bi_tree _ _ _ Hinv)))|].
    intros m Hm h i Hh' Hi Hlt. apply Hrht. by apply (di_stored _ _ Hdb0 m Hm).
  - rewrite length_map, Hlen. pose proof (di_size _ _ Hdb0) as Hsz. rewrite length_map in Hsz. lia.
  - intros r Hrin. destruct (Hin r Hrin) as (i & Hij & Hi). rewrite Hh, length_map, Hlen. by apply (di_sorted _ _ Hdb0 i j).
  - intros r Hrin E. destruct (Hin r Hrin) as (i & Hij & Hi). assert (i = j); [|lia].
    apply (NoDup_lookup (map rt_Hash (db_root tdb0)) i j (rt_Hash r) (bi_hashes _ _ _ H0)).
    + change (map rt_Hash) with (fmap rt_Hash (M := list)). by rewrite list_lookup_fmap, Hi.
    + change (map rt_Hash) with (fmap rt_Hash (M := list)). rewrite list_lookup_fmap, Hroot. cbn. by rewrite E, Hh.
Qed.

Lemma restoreBridges_run d0 t0 tdb0 rest : forall j s,
  b_inv d0 t0 tdb0 -> restoring d0 tdb0 j s -> rest = drop j (bridge d0) -> Forall (fun b => bw_Source b = NoSource) rest ->
  exists s', restoreBridges [] (map (with_source BridgeSourceBackwardLET) rest) s = (s', Ok tt) /\
    restoring d0 tdb0 (length (bridge d0)) s' /\ ts_db s' = set_bridge (fun _ => bridge d0) (ts_db s) /\
    tx_commitCallbacks (ts_tx s') = tx_commitCallbacks (ts_tx s) /\ ts_halted s' = ts_halted s.
Proof.
  induction rest as [|b rest IH]; intros j s H0 Hrs Hd Hsrc.
  - assert (Hj : (length (bridge d0) <= j)%nat).
    { apply (f_equal length) in Hd. rewrite length_drop in Hd. cbn in Hd. lia. }
    destruct Hrs as [Hinv Hb Hr Hrht Hblk]. rewrite take_ge in Hb by lia.
    rewrite take_ge in Hr by (rewrite (di_length _ _ (ai_db _ _ _ (bi_tree _ _ _ H0))), length_map; lia).
    exists s. split; [done|]. split.
    + split; [done | by rewrite take_ge by lia | | done | done]. rewrite take_ge; [done|].
      rewrite (di_length _ _ (ai_db _ _ _ (bi_tree _ _ _ H0))), length_map. lia.
    + split; [|done]. rewrite <- Hb. by destruct (ts_db s).
  - apply Forall_cons in Hsrc as [Hb Hsrc].
    assert (Hj : bridge d0 !! j = Some b) by (rewrite <- (Nat.add_0_r j), <- lookup_drop, <- Hd; done).
    assert (Hd' : rest = drop (S j) (bridge d0)).
    { replace (S j) with (j + 1)%nat by lia. rewrite <- drop_drop, <- Hd. done. }
    pose proof (restoring_ok _ _ _ _ _ _ H0 Hrs Hj) as Hok. pose proof (rs_inv _ _ _ _ Hrs) as Hinv.
    destruct (add_bridge b s Hinv Hok) as (t' & tx' & s1 & Hput & Es1 & Hadd). destruct Hadd as (Hdb & Hinv1 & Hroots & Hcb & Hh & Hkeep).
    assert (Hrs1 : restoring d0 tdb0 (S j) s1).
    { split; [done | | | |].
      - rewrite Hdb. cbn. rewrite (rs_bridge _ _ _ _ Hrs). symmetry. by apply take_S_r.
      - rewrite Hroots, (rs_roots _ _ _ _ Hrs). symmetry. apply take_S_r. rewrite (root_of_bridge _ _ _ j b H0 Hj), Hdb. cbn.
        rewrite (rs_bridge _ _ _ _ Hrs), <- (take_S_r _ _ _ Hj), <- firstn_map. by rewrite (bi_count _ _ _ H0 j b Hj).
      - intros k nd Hk. apply Hkeep. by apply (rs_rht _ _ _ _ Hrs).
      - rewrite Hdb. apply (rs_block _ _ _ _ Hrs). }
    destruct (IH (S j) s1 H0 Hrs1 Hd' Hsrc) as (s' & Hrun & Hrs' & Hdb' & Hcb' & Hh'). exists s'.
    split; [|split; [done|]].
    + assert (Esrc : with_source NoSource (with_source BridgeSourceBackwardLET b) = b) by (destruct b; cbn in *; by subst).
      cbn [map restoreBridges existsb]. rewrite Esrc. erewrite sbind_run; [exact Hrun|].
      erewrite sbind_run by (apply insertBridge_run; [exact (bridge_pos_fresh b s Hinv Hok) | apply Hok]).
      erewrite sbind_run by (apply putLeaf_set_db; exact Hput). by rewrite Es1.
    + by rewrite Hdb', Hcb', Hh', Hcb, Hh, Hdb.
Qed.


(** Every row of every table is of a block before [n]. *)
Record below (n : Z) (d : bdb) : Prop := {
  bw_blocks : forall b, In b (block d) -> fst b < n;
  bw_bridges : forall b, In b (bridge d) -> bw_BlockNum b < n;
  bw_archive : forall b, In b (bridge_archive d) -> bw_BlockNum b < n;
  bw_tokens : forall t, In t (token_mapping d) -> tm_BlockNum t < n;
  bw_legacy : forall l, In l (legacy_token_migration d) -> lm_BlockNum l < n;
  bw_backward : forall b, In b (backward_let d) -> bl_BlockNum b < n;
  bw_forward : forall f, In f (forward_let d) -> fl_BlockNum f < n
}.

Lemma upsertBlock_new num hash rows : num ∉ map fst rows -> upsertBlock num hash rows = rows ++ [(num, Some hash)].
Proof.
  induction rows as [|b rows IH]; cbn; [done|]. rewrite not_elem_of_cons. intros [Hb Hn].
  rewrite (proj2 (Z.eqb_neq _ _)) by congruence. by rewrite IH.
Qed.

(** Rows in the order of their counts stay as they are. *)
Lemma merge_sort_counts (rows : list BridgeRow) base :
  (forall k b, rows !! k = Some b -> bw_DepositCount b = base + Z.of_nat k) -> merge_sort count_le rows = rows.
Proof.
  intros Hc. apply (StronglySorted_unique_strong count_le).
  - intros x1 x2 H1 H2 L1 L2. rewrite merge_sort_Permutation in H1. apply list_elem_of_lookup in H1 as [i Hi], H2 as [j Hj].
    unfold count_le in *. rewrite (Hc i x1 Hi), (Hc j x2 Hj) in *. assert (i = j) as -> by lia. congruence.
  - apply StronglySorted_merge_sort; unfold count_le; [intros ???; lia | intros x y; lia].
  - clear -Hc. revert base Hc. induction rows as [|b rows IH]; intros base Hc; [constructor|]. constructor.
    + apply (IH (base + 1)). intros k x Hk. rewrite (Hc (S k) x Hk). lia.
    + apply Forall_forall. intros x Hx. apply list_elem_of_lookup in Hx as [k Hk]. unfold count_le.
      rewrite (Hc 0%nat b eq_refl), (Hc (S k) x Hk). lia.
  - apply merge_sort_Permutation.
Qed.

(** What a reorg finds to put back. *)
Lemma archivedBetween_rewound n (d : bdb) event :
  (forall k b, bridge d !! k = Some b -> bw_DepositCount b = Z.of_nat k) ->
  (forall b, In b (bridge_archive d) -> bw_DepositCount b < Z.of_nat n) ->
  let prev := Z.of_nat (length (bridge d)) in
  let d' := rewound_db n event d in
  archivedBetween (Z.of_nat n) prev d' = map (with_source BridgeSourceBackwardLET) (drop n (bridge d)) /\
  bfilter (fun b => negb ((Z.of_nat n <=? bw_DepositCount b) && (bw_DepositCount b <=? prev))) (bridge_archive d') = bridge_archive d.
Proof.
  intros Hc Ha prev d'. set (rows := map (with_source BridgeSourceBackwardLET) (drop n (bridge d))).
  assert (Hrows : forall k b, rows !! k = Some b -> bw_DepositCount b = Z.of_nat n + Z.of_nat k).
  { intros k b Hk. apply list_lookup_fmap_Some in Hk as (x & -> & Hx). rewrite lookup_drop in Hx.
    change (bw_DepositCount (with_source BridgeSourceBackwardLET x)) with (bw_DepositCount x). rewrite (Hc _ _ Hx). lia. }
  assert (Hin : forall b, In b rows -> (Z.of_nat n <=? bw_DepositCount b) && (bw_DepositCount b <=? prev) = true).
  { intros b Hb. apply list_elem_of_In, list_elem_of_lookup in Hb as [k Hk]. rewrite (Hrows k b Hk).
    apply lookup_lt_Some in Hk. subst rows. rewrite length_map, length_drop in Hk. apply andb_true_iff. split; apply Z.leb_le; lia. }
  assert (Hout : forall b, In b (bridge_archive d) -> (Z.of_nat n <=? bw_DepositCount b) && (bw_DepositCount b <=? prev) = false).
  { intros b Hb. apply andb_false_iff. left. apply Z.leb_gt. by apply Ha. }
  unfold archivedBetween, d', rewound_db. cbn [bridge_archive]. fold rows. rewrite !bfilter_app. split.
  - rewrite (drop_all _ _ Hout), (bfilter_all _ _ Hin). by apply (merge_sort_counts rows (Z.of_nat n)).
  - rewrite (bfilter_all _ (bridge_archive d)), (drop_all _ rows), app_nil_r; [done | |].
    + intros x Hx. by rewrite (Hin x Hx).
    + intros x Hx. by rewrite (Hout x Hx).
Qed.


(** The transaction of a block once its row is there. *)
Definition blockTx (b : Block Event) (p : processor) : txState bdb := fst (insertBlock (bk_Num b) (bk_Hash b) (beginTx (bp_proc p))).

Definition backward_event (event : BackwardLET) : Event := mkEvent None None None None (Some event) None.

Lemma blockTx_inv b p :
  bp_inv p -> 0 <= bk_Num b -> bk_Num b ∉ map fst (block (p_db (bp_proc p))) -> ts_inv (blockTx b p).
Proof.
  intros [Ht Hc Hr Hh Hb Hn] H0 Hnew. unfold blockTx, insertBlock, smodify. cbn [fst]. split; cbn; rewrite ?upsertBlock_new by done; try done.
  - rewrite map_app. eapply Forall_impl; [exact Hb|]. intros x Hx. apply elem_of_app. by left.
  - rewrite map_app. apply Forall_app. split; [done|]. by apply Forall_singleton.
Qed.

Lemma SafeUint64_nat n : Z.of_nat n < pow2_64 -> SafeUint64 (Some (Z.of_nat n)) = Ok (Z.of_nat n).
Proof. intros Hn. unfold SafeUint64. by rewrite (proj2 (Z.leb_le _ _)), (proj2 (Z.ltb_lt _ _)) by lia. Qed.

(** The conditions under which a rewinding is undone: every row is of an earlier block, the archive holds
    no deposit count from [n] on, and the bridges were not replayed ones. *)
Record undoable (num : Z) (n : nat) (d : bdb) : Prop := {
  un_below : below num d;
  un_archive : forall x, In x (bridge_archive d) -> bw_DepositCount x < Z.of_nat n;
  un_source : Forall (fun x => bw_Source x = NoSource) (drop n (bridge d))
}.

(** The tables of a rewinding without the rows of its block. *)
Definition purged_db (n : nat) (d : bdb) : bdb :=
  mkBdb (block d) (take n (bridge d)) (bridge_archive d ++ map (with_source BridgeSourceBackwardLET) (drop n (bridge d)))
    (token_mapping d) (legacy_token_migration d) (backward_let d) (forward_let d).

Lemma deleteBlocks_rewound num hash n event d :
  below num d -> bl_BlockNum event = num ->
  deleteBlocks num (rewound_db n event
    (mkBdb (block d ++ [(num, Some hash)]) (bridge d) (bridge_archive d) (token_mapping d) (legacy_token_migration d)
       (backward_let d) (forward_let d))) = purged_db n d.
Proof.
  intros [Bb Br Ba Bt Bl Bk Bf] Hen. unfold deleteBlocks, rewound_db, purged_db. cbn.
  rewrite !bfilter_app. cbn. rewrite Hen, Z.leb_refl, !app_nil_r. cbn.
  rewrite (keep_all fst num (block d) Bb), (keep_all tm_BlockNum num _ Bt), (keep_all lm_BlockNum num _ Bl),
    (keep_all bl_BlockNum num _ Bk), (keep_all fl_BlockNum num _ Bf), (keep_all bw_BlockNum num); [done|].
  intros x Hx. apply Br, list_elem_of_In. apply list_elem_of_In in Hx. by apply (subseteq_take n).
Qed.

(** The roots of earlier blocks stay. *)
Lemma Reorg_below d t tdb num n :
  b_inv d t tdb -> below num d -> bfilter (fun r => negb (num <=? rt_BlockNum r)) (take n (db_root tdb)) = take n (db_root tdb).
Proof.
  intros Hinv Hbel. apply keep_all. intros r Hr. apply list_elem_of_In, (subseteq_take n), list_elem_of_lookup in Hr as [i Hi].
  assert (E : map root_pos (db_root tdb) !! i = Some (root_pos r))
    by (change (map root_pos) with (fmap root_pos (M := list)); by rewrite list_lookup_fmap, Hi).
  rewrite (bi_roots _ _ _ Hinv) in E. apply list_lookup_fmap_Some in E as (b & E & Hb). apply (f_equal fst) in E. cbn in E. rewrite E.
  apply (bw_bridges _ _ Hbel). apply list_elem_of_In. by eapply list_elem_of_lookup_2.
Qed.

Lemma reorged_counts_none num n event d1 :
  (forall b, In b (bridge d1) -> bw_BlockNum b < num) -> (forall b, In b (bridge_archive d1) -> bw_BlockNum b < num) ->
  loadReorgedDepositCounts (rewound_db n event d1) num = [].
Proof.
  intros Br Ba. unfold loadReorgedDepositCounts, rewound_db. cbn [bridge_archive]. rewrite drop_all; [done|].
  intros x Hx. apply Z.leb_gt. apply in_app_or in Hx as [Hx|Hx]; [by apply Ba|].
  apply in_map_iff in Hx as (y & <- & Hy). apply (Br y), list_elem_of_In. apply list_elem_of_In in Hy. by apply (subseteq_drop n).
Qed.

(** The purged tables with the tree of the rewinding are ready to be restored. *)
Lemma purged_restoring d t0 tdb0 n s1 s :
  b_inv d t0 tdb0 -> ts_inv s1 -> bridge (ts_db s1) = take n (bridge d) -> tx_db (ts_tx s1) = mkTreeDB (db_rht tdb0) (take n (db_root tdb0)) ->
  ts_db s = purged_db n d -> ts_tree s = ts_tree s1 -> tx_db (ts_tx s) = tx_db (ts_tx s1) -> restoring d tdb0 n s.
Proof.
  intros H0 H1 Eb Etx Ed Et Ex. assert (Hblk : forall b, b ∈ bridge d -> bw_BlockNum b ∈ map fst (block d)).
  { intros b Hb. by apply (proj1 (Forall_forall _ _) (bi_blocks _ _ _ H0)). }
  split; rewrite ?Ed, ?Ex, ?Etx; try done. destruct H1 as [Ht Hc Hr Hh Hbk Hnn]. rewrite Eb in *.
  unfold ts_inv. rewrite Ed, Et, Ex. split; try done; cbn [purged_db bridge block]; [|apply (bi_nonneg _ _ _ H0)].
  apply Forall_take, (bi_blocks _ _ _ H0).
Qed.


Lemma restore_run d t0 tdb0 n event s :
  b_inv d t0 tdb0 -> restoring d tdb0 n s -> ts_db s = purged_db n d ->
  bl_NewDepositCount event = Z.of_nat n -> bl_PreviousDepositCount event = Z.of_nat (length (bridge d)) ->
  (n <= length (bridge d))%nat -> (forall x, In x (bridge_archive d) -> bw_DepositCount x < Z.of_nat n) ->
  Forall (fun x => bw_Source x = NoSource) (drop n (bridge d)) ->
  exists s', restoreBackwardLETBridges [event] [] s = (s', Ok tt) /\ ts_inv s' /\ ts_db s' = d /\
    db_root (tx_db (ts_tx s')) = db_root tdb0 /\ tx_commitCallbacks (ts_tx s') = tx_commitCallbacks (ts_tx s).
Proof.
  intros H0 Hrs Hdb Hnew Hprev Hn Ha Hsrc. pose proof (di_size _ _ (ai_db _ _ _ (bi_tree _ _ _ H0))) as Hsz. rewrite length_map in Hsz.
  assert (H64 : Z.of_nat (length (bridge d)) < pow2_64) by (unfold pow2_64; lia).
  destruct (archivedBetween_rewound n d event (bi_count _ _ _ H0) Ha) as [E1 E2].
  destruct (restoreBridges_run d t0 tdb0 _ n s H0 Hrs eq_refl Hsrc) as (s' & Hrun & Hrs' & Hdb' & Hcb & _).
  cbn [restoreBackwardLETBridges]. rewrite Hnew, Hprev, !SafeUint64_nat by lia. erewrite sbind_run by reflexivity.
  erewrite sbind_run.
  2:{ replace (archivedBetween _ _ (ts_db s)) with (map (with_source BridgeSourceBackwardLET) (drop n (bridge d))); [exact Hrun|].
      rewrite <- E1. unfold archivedBetween. by rewrite Hdb. }
  erewrite sbind_run by reflexivity. eexists. split; [reflexivity|].
  assert (Ed : ts_db (set_db (set_archive (bfilter (fun b => negb ((Z.of_nat n <=? bw_DepositCount b) &&
    (bw_DepositCount b <=? Z.of_nat (length (bridge d))))))) s') = d).
  { unfold set_db, set_archive. cbn [ts_db]. rewrite Hdb', Hdb. cbn [set_bridge purged_db bridge_archive block bridge token_mapping
      legacy_token_migration backward_let forward_let]. cbn [rewound_db bridge_archive] in E2. rewrite E2. by destruct d. }
  split; [|split; [exact Ed|split; [|exact Hcb]]].
  - pose proof (rs_inv _ _ _ _ Hrs') as [Ht Hc Hr Hh Hbk Hnn]. rewrite (rs_bridge _ _ _ _ Hrs'), take_ge in * by lia.
    unfold ts_inv. rewrite Ed. split; try done; [apply (bi_blocks _ _ _ H0) | apply (bi_nonneg _ _ _ H0)].
  - cbn [set_db ts_tx]. rewrite (rs_roots _ _ _ _ Hrs'). apply take_ge.
    rewrite (di_length _ _ (ai_db _ _ _ (bi_tree _ _ _ H0))), length_map. done.
Qed.

Lemma below_fresh num d : below num d -> num ∉ map fst (block d).
Proof.
  intros Hbel Hin. apply list_elem_of_fmap in Hin as (x & E & Hx). apply list_elem_of_In in Hx. pose proof (bw_blocks _ _ Hbel x Hx). lia.
Qed.

(** The tables with the row of a new block. *)
Definition with_block (num hash : Z) (d : bdb) : bdb :=
  mkBdb (block d ++ [(num, Some hash)]) (bridge d) (bridge_archive d) (token_mapping d) (legacy_token_migration d)
    (backward_let d) (forward_let d).

Lemma process_backward num hash n event p :
  bp_inv p -> p_halted (bp_proc p) = false -> 0 <= num -> num ∉ map fst (block (p_db (bp_proc p))) ->
  backward_ok n event (blockTx (mkBlock num [backward_event event] hash) p) ->
  exists p1, b_ProcessBlock initialLER decode (mkBlock num [backward_event event] hash) p = (p1, Ok tt) /\ bp_inv p1 /\
    p_db (bp_proc p1) = rewound_db n event (with_block num hash (p_db (bp_proc p))) /\
    p_treeDB (bp_proc p1) = mkTreeDB (db_rht (p_treeDB (bp_proc p))) (take n (db_root (p_treeDB (bp_proc p)))).
Proof.
  intros H0 Hh Hnum Hfresh Hok. set (b := mkBlock num [backward_event event] hash) in *.
  destruct (insertBackwardLET_run n event _ (blockTx_inv b p H0 Hnum Hfresh) Hok) as (s1 & Hrun & Hinv1 & Hdb1 & Hr1 & Hrht1 & Hcb1 & _).
  exists (mkProcessor (commitTx s1) (bp_published p ++ [])).
  assert (Hc : commitTx s1 = mkTreeProc (ts_db s1) (tx_db (ts_tx s1)) (ts_tree s1) (ts_halted s1))
    by (unfold commitTx, Tx_Commit; by rewrite Hcb1).
  split; [|split; [|split]].
  - unfold b_ProcessBlock. rewrite Hh. unfold inTx.
    assert (E : (let! _ := insertBlock (bk_Num b) (bk_Hash b) in processEvents initialLER decode (bk_Num b) None (bk_Events b))
                  (beginTx (bp_proc p)) = (s1, Ok tt)); [|by rewrite E].
    erewrite sbind_run by (unfold insertBlock, smodify; reflexivity).
    cbn [b bk_Events processEvents backward_event ev_Bridge ev_TokenMapping ev_LegacyTokenMigration ev_RemoveLegacyToken ev_BackwardLET ev_ForwardLET on_some].
    do 4 (erewrite sbind_run by reflexivity). erewrite sbind_run by exact Hrun. by erewrite sbind_run by reflexivity.
  - unfold bp_inv. cbn [bp_proc]. rewrite Hc. exact Hinv1.
  - cbn [bp_proc]. rewrite Hc. cbn [p_db]. rewrite Hdb1. unfold blockTx, insertBlock, smodify, set_db. cbn [fst ts_db bk_Num bk_Hash b beginTx].
    by rewrite upsertBlock_new.
  - cbn [bp_proc]. rewrite Hc. cbn [p_treeDB]. destruct (tx_db (ts_tx s1)) as [rht roots]. cbn in Hr1, Hrht1. by subst.
Qed.

Lemma reorg_backward num hash n event p p1 :
  bp_inv p -> undoable num n (p_db (bp_proc p)) -> bl_BlockNum event = num -> (n <= length (bridge (p_db (bp_proc p))))%nat ->
  bl_NewDepositCount event = Z.of_nat n -> bl_PreviousDepositCount event = Z.of_nat (length (bridge (p_db (bp_proc p)))) ->
  bp_inv p1 -> p_db (bp_proc p1) = rewound_db n event (with_block num hash (p_db (bp_proc p))) ->
  p_treeDB (bp_proc p1) = mkTreeDB (db_rht (p_treeDB (bp_proc p))) (take n (db_root (p_treeDB (bp_proc p)))) ->
  exists p2, b_Reorg num p1 = (p2, Ok tt) /\ bp_inv p2 /\ p_db (bp_proc p2) = p_db (bp_proc p) /\
    db_root (p_treeDB (bp_proc p2)) = db_root (p_treeDB (bp_proc p)).
Proof.
  intros H0 [Hbel Ha Hsrc] Hen Hn Hnew Hprev H1 Hdb1 Htx1. set (d := p_db (bp_proc p)) in *.
  set (s := set_treeDB (fun db => Reorg db num) (set_db (deleteBlocks num) (beginTx (bp_proc p1)))).
  assert (Eds : ts_db s = purged_db n d).
  { unfold s, set_treeDB, set_db. cbn [ts_db beginTx]. rewrite Hdb1. by apply deleteBlocks_rewound. }
  assert (Etx : tx_db (ts_tx s) = p_treeDB (bp_proc p1)).
  { change (tx_db (ts_tx s)) with (Reorg (p_treeDB (bp_proc p1)) num). unfold Reorg. rewrite Htx1. cbn [db_rht db_root].
    f_equal. by apply (Reorg_below d (p_tree (bp_proc p)) _ num n). }
  assert (Hrs : restoring d (p_treeDB (bp_proc p)) n s).
  { apply (purged_restoring d (p_tree (bp_proc p)) _ n (beginTx (bp_proc p1))); try done. cbn [ts_db beginTx]. by rewrite Hdb1. }
  destruct (restore_run d (p_tree (bp_proc p)) _ n event s H0 Hrs Eds Hnew Hprev Hn Ha Hsrc) as (s2 & Hrun & Hinv2 & Hdb2 & Hr2 & Hcb2).
  assert (Hc : commitTx s2 = mkTreeProc (ts_db s2) (tx_db (ts_tx s2)) (ts_tree s2) (ts_halted s2))
    by (unfold commitTx, Tx_Commit; by rewrite Hcb2).
  eexists. split; [|split; [|split]].
  - unfold b_Reorg, inTx. assert (E : reorgTx num (beginTx (bp_proc p1)) = (s2, Ok tt)); [|rewrite E, Hc; reflexivity].
    unfold reorgTx. erewrite sbind_run by reflexivity. cbn [ts_db beginTx]. rewrite Hdb1.
    assert (EL : bfilter (fun x => num <=? bl_BlockNum x) (backward_let (rewound_db n event (with_block num hash d))) = [event]).
    { cbn [rewound_db with_block backward_let]. rewrite bfilter_app, (drop_all _ (backward_let d)).
      - cbn. by rewrite Hen, Z.leb_refl.
      - intros x Hx. apply Z.leb_gt. by apply (bw_backward _ _ Hbel). }
    rewrite EL, (reorged_counts_none num n event (with_block num hash d)) by (apply Hbel).
    erewrite sbind_run by reflexivity. erewrite sbind_run by reflexivity. exact Hrun.
  - exact Hinv2.
  - exact Hdb2.
  - exact Hr2.
Qed.

(** C25. Processing a block whose only event is a [BackwardLET] and then reorging it brings back every table as it
    was, the exit roots, and the correspondence of rows and tree, under these conditions.  The processor is not
    halted, its tables and tree correspond, and they hold nothing of the block or a later one.  The event tells the
    truth: its counts and roots are those of the tree before and after it, and no non-empty one has the initial root.
    The archive holds no deposit count from the new one on: after an earlier rewinding it may, and then the reorg
    restores a bridge too many ([Reorg_restores_one_too_many]) or another one ([Reorg_restores_other_bridge]).  The
    removed bridges were not replayed ones, whose source is not restored.  Only this block is reorged: the reorg of
    two rewindings fails ([Reorg_of_two_rewindings_fails]). *)
Theorem Reorg_undoes_BackwardLET num hash n event p :
  bp_inv p -> p_halted (bp_proc p) = false -> 0 <= num -> bl_BlockNum event = num ->
  undoable num n (p_db (bp_proc p)) -> bl_PreviousDepositCount event = Z.of_nat (length (bridge (p_db (bp_proc p)))) ->
  backward_ok n event (blockTx (mkBlock num [backward_event event] hash) p) ->
  exists p1 p2, b_ProcessBlock initialLER decode (mkBlock num [backward_event event] hash) p = (p1, Ok tt) /\
    bridge (p_db (bp_proc p1)) = take n (bridge (p_db (bp_proc p))) /\
    b_Reorg num p1 = (p2, Ok tt) /\ bp_inv p2 /\ p_db (bp_proc p2) = p_db (bp_proc p) /\
    db_root (p_treeDB (bp_proc p2)) = db_root (p_treeDB (bp_proc p)).
Proof.
  intros H0 Hh Hnum Hen Hun Hprev Hok. pose proof (below_fresh _ _ (un_below _ _ _ Hun)) as Hfresh.
  destruct (process_backward num hash n event p H0 Hh Hnum Hfresh Hok) as (p1 & Hrun & H1 & Hdb1 & Htx1).
  destruct (reorg_backward num hash n event p p1 H0 Hun Hen (proj1 (bo_bound _ _ _ Hok)) (bo_count _ _ _ Hok) Hprev H1 Hdb1 Htx1)
    as (p2 & Hre & H2 & Hdb2 & Hr2).
  exists p1, p2. split_and!; try done. by rewrite Hdb1.
Qed.


(** ** Blocks of bridges *)

Lemma ProcessBlock_bridges_run num hash bridges p :
  bp_inv p -> p_halted (bp_proc p) = false -> 0 <= num -> num ∉ map fst (block (p_db (bp_proc p))) ->
  Forall (fun b => bw_BlockNum b = num) bridges ->
  bridges_ok bridges (blockTx (mkBlock num (map bridge_event bridges) hash) p) ->
  exists p', b_ProcessBlock initialLER decode (mkBlock num (map bridge_event bridges) hash) p = (p', Ok tt) /\ bp_inv p' /\
    p_db (bp_proc p') = set_bridge (fun rows => rows ++ map hashed bridges) (with_block num hash (p_db (bp_proc p))) /\
    bp_published p' = bp_published p ++ match bridges with [] => [] | _ => [num] end.
Proof.
  intros H0 Hh Hnum Hfresh Hbn Hok. set (b := mkBlock num (map bridge_event bridges) hash) in *.
  destruct (processBridges_run num bridges _ (blockTx_inv b p H0 Hnum Hfresh) Hbn Hok) as (s' & Hrun & Hinv & Hdb & Hcb & _).
  assert (Hc : commitTx s' = mkTreeProc (ts_db s') (tx_db (ts_tx s')) (ts_tree s') (ts_halted s'))
    by (unfold commitTx, Tx_Commit; by rewrite Hcb).
  eexists. split; [|split; [|split]].
  - unfold b_ProcessBlock. rewrite Hh. unfold inTx.
    assert (E : (let! _ := insertBlock (bk_Num b) (bk_Hash b) in processEvents initialLER decode (bk_Num b) None (bk_Events b))
                  (beginTx (bp_proc p)) = (s', Ok tt)); [|rewrite E, Hc; reflexivity].
    erewrite sbind_run by (unfold insertBlock, smodify; reflexivity). exact Hrun.
  - exact Hinv.
  - cbn [bp_proc p_db]. rewrite Hdb. unfold blockTx, insertBlock, smodify, set_db. cbn [fst ts_db bk_Num bk_Hash b beginTx].
    by rewrite upsertBlock_new.
  - cbn [bp_published]. by destruct bridges.
Qed.

(** A block of bridges in the order of their deposit counts is processed: the block and the bridges
    are appended, the exit tree holds their hashes in order, rows and tree keep corresponding, and the
    block number is published. *)
Theorem ProcessBlock_adds_bridges num hash bridges p :
  bp_inv p -> p_halted (bp_proc p) = false -> 0 <= num -> num ∉ map fst (block (p_db (bp_proc p))) ->
  Forall (fun b => bw_BlockNum b = num) bridges ->
  bridges_ok bridges (blockTx (mkBlock num (map bridge_event bridges) hash) p) ->
  exists p', b_ProcessBlock initialLER decode (mkBlock num (map bridge_event bridges) hash) p = (p', Ok tt) /\ bp_inv p' /\
    p_db (bp_proc p') = set_bridge (fun rows => rows ++ map hashed bridges) (with_block num hash (p_db (bp_proc p))) /\
    bp_published p' = bp_published p ++ match bridges with [] => [] | _ => [num] end.
Proof. apply ProcessBlock_bridges_run. Qed.

(** ** Failures *)

#[local] Hint Unfold insert_check : aggkit.

Lemma insertBridge_keeps b : tx_keeps (insertBridge b).
Proof. unfold insertBridge, insert_check. tx_keeps. Qed.

Lemma putOrHalt_keeps bn bp leaf : tx_keeps (putOrHalt bn bp leaf).
Proof.
  intros s s' r. unfold putOrHalt. destruct (putLeaf _ _ _ _ s) as [s1 q] eqn:E. apply tx_keeps_put in E.
  destruct q as [h|[]]; try (by intros [= <- _]). destruct e; by intros [= <- _].
Qed.

Lemma sanity_keeps ler : tx_keeps (sanityCheckLatestLER initialLER ler).
Proof. unfold sanityCheckLatestLER. tx_keeps. Qed.

Lemma archiveBridges_keeps rows : tx_keeps (archiveBridges rows).
Proof. induction rows as [|b rows IH]; cbn [archiveBridges]; unfold insertArchive; tx_keeps. Qed.

#[local] Hint Resolve insertBridge_keeps putOrHalt_keeps sanity_keeps archiveBridges_keeps : aggkit.

Lemma insertBackwardLET_keeps event : tx_keeps (insertBackwardLET initialLER event).
Proof. unfold insertBackwardLET, archiveAndDeleteBridgesAbove, insertBackwardRow, insert_check. tx_keeps. Qed.

Lemma forwardLeaves_keeps event leaves : forall dc pos, tx_keeps (forwardLeaves event dc pos leaves).
Proof.
  induction leaves as [|l leaves IH]; intros dc pos; cbn [forwardLeaves]; unfold forwardLeaf; tx_keeps.
Qed.

#[local] Hint Resolve insertBackwardLET_keeps forwardLeaves_keeps : aggkit.

Lemma handleForwardLET_keeps event pos : tx_keeps (handleForwardLETEvent initialLER decode event pos).
Proof. unfold handleForwardLETEvent, insertForwardRow, insert_check. tx_keeps. Qed.

#[local] Hint Resolve handleForwardLET_keeps : aggkit.

Lemma processEvents_keeps bn events : forall pos, tx_keeps (processEvents initialLER decode bn pos events).
Proof.
  induction events as [|e es IH]; intros pos; cbn [processEvents]; [tx_keeps|].
  unfold on_some, processBridge, insertTokenMapping, insertLegacyTokenMigration, removeLegacyToken, insert_check. tx_keeps.
Qed.

Lemma restoreBridges_keeps removed rows : tx_keeps (restoreBridges removed rows).
Proof. induction rows as [|b rows IH]; cbn [restoreBridges]; tx_keeps. Qed.

#[local] Hint Resolve restoreBridges_keeps processEvents_keeps : aggkit.

Lemma reorgTx_keeps n : tx_keeps (reorgTx n).
Proof.
  assert (H : forall ls removed, tx_keeps (restoreBackwardLETBridges ls removed)).
  { induction ls as [|l ls IH]; intros removed; cbn [restoreBackwardLETBridges]; tx_keeps. }
  unfold reorgTx. tx_keeps; apply H.
Qed.

(** A block or a reorg that fails, at any event and for any reason, changes no table and publishes
    nothing. *)
Theorem bridge_steps_atomic step p p' e :
  (exists b, step = b_ProcessBlock initialLER decode b) \/ (exists n, step = b_Reorg n) -> step p = (p', Err e) ->
  p_db (bp_proc p') = p_db (bp_proc p) /\ p_treeDB (bp_proc p') = p_treeDB (bp_proc p) /\ bp_published p' = bp_published p.
Proof.
  intros [(b & ->)|(n & ->)].
  - unfold b_ProcessBlock. destruct (p_halted _); [by intros [= <- _]|]. destruct (inTx _ _) as [q [u|e']] eqn:E; [done|].
    intros [= <- _]. apply inTx_failed in E as [E1 E2]; [done|]. unfold insertBlock. tx_keeps.
  - unfold b_Reorg. destruct (inTx _ _) as [q [u|e']] eqn:E; [done|]. intros [= <- _].
    apply inTx_failed in E as [E1 E2]; [done | apply reorgTx_keeps].
Qed.


(** ** The exit tree and the exits of certificates *)

(** A bridge of the contract: a known leaf type and a non-negative amount. *)
Definition valid_bridge (b : Bridge) : Prop := br_LeafType b <= LeafTypeMessage /\ 0 <= default 0 (br_Amount b).

(** The leaf of a bridge is the hash of the exit a certificate carries for it. *)
Lemma Bridge_Hash_exit b : valid_bridge b -> BridgeExit_Hash (ConvertToBridgeExit b) = Bridge_Hash b.
Proof.
  intros [Hl Ha]. unfold BridgeExit_Hash, ConvertToBridgeExit, BridgeExit_Validate. cbn [be_LeafType be_Amount be_TokenInfo].
  rewrite (proj2 (Z.ltb_ge _ _)) by lia.
  assert (Hm : convertBridgeMetadata (br_Metadata b) <> []).
  { intros E. apply (f_equal length) in E. unfold convertBridgeMetadata, Hash_Bytes in E. by rewrite be_bytes_length in E. }
  assert (Hbytes : Keccak256Hash (BridgeExit_bytes (mkBridgeExit (br_LeafType b) (Some (mkTokenInfo (br_OriginNetwork b) (br_OriginAddress b)))
    (br_DestinationNetwork b) (br_DestinationAddress b) (br_Amount b) (convertBridgeMetadata (br_Metadata b)))
    (mkTokenInfo (br_OriginNetwork b) (br_OriginAddress b))) = Bridge_Hash b).
  { unfold BridgeExit_bytes, Bridge_Hash. cbn [be_LeafType be_Amount be_DestinationNetwork be_DestinationAddress be_Metadata ti_OriginNetwork ti_OriginTokenAddress].
    destruct (convertBridgeMetadata (br_Metadata b)) as [|x m] eqn:E; [done|]. by rewrite <- E. }
  destruct (br_Amount b) as [a|]; cbn [default id] in Ha; [rewrite (proj2 (Z.ltb_ge _ _)) by lia|]; cbn [TokenInfo_Validate]; exact Hbytes.
Qed.

Definition toFlow {A} (r : result bError A) : result flowError A := match r with Ok a => Ok a | Err _ => Err ErrQuery end.

(** The syncer as the bridge querier uses it. *)
Definition b_syncer (originNetwork : Z) (p : processor) : L2BridgeSyncer := {|
  bs_GetBridges := fun from to => let? rows := toFlow (s_GetBridges p from to) in Ok (map bw_Bridge rows);
  bs_GetExitRootByIndex := fun index => toFlow (s_GetExitRootByIndex p index);
  bs_GetExitRootByHash := fun hash => toFlow (s_GetExitRootByHash p hash);
  bs_GetLastProcessedBlock := toFlow (s_GetLastProcessedBlock p);
  bs_OriginNetwork := originNetwork
|}.

Lemma bridges_ordered d t tdb : b_inv d t tdb -> ordered bw_pos (bridge d).
Proof.
  intros Hinv. apply lookups_StronglySorted. intros i j x y Hij Hx Hy. pose proof (ai_db _ _ _ (bi_tree _ _ _ Hinv)) as Hdb.
  pose proof (di_sorted _ _ Hdb i j _ _ Hij (root_of_bridge _ _ _ i x Hinv Hx) (root_of_bridge _ _ _ j y Hinv Hy)) as Hlt.
  by apply Root_lt_pos in Hlt.
Qed.

Lemma GetBridges_rows p from to :
  bp_inv p -> GetBridges p from to =
  bfilter (fun b => (from <=? fst (bw_pos b)) && (fst (bw_pos b) <=? to)) (bridge (p_db (bp_proc p))).
Proof. intros Hinv. apply merge_sort_ordered, bfilter_StronglySorted. by eapply bridges_ordered. Qed.

(** The bridges up to a block are the first ones. *)
Lemma bridges_until d t tdb to :
  b_inv d t tdb -> exists k, (k <= length (bridge d))%nat /\ bfilter (fun b => fst (bw_pos b) <=? to) (bridge d) = take k (bridge d).
Proof.
  intros Hinv. destruct (bfilter_prefix (fun b => fst (bw_pos b) <=? to) (bridge d)) as (k & Hk & Hf & _); [|eauto].
  intros i j x y Hij Hx Hy Hp. pose proof (ai_db _ _ _ (bi_tree _ _ _ Hinv)) as Hdb.
  pose proof (di_sorted _ _ Hdb i j _ _ Hij (root_of_bridge _ _ _ i x Hinv Hx) (root_of_bridge _ _ _ j y Hinv Hy)) as Hlt.
  apply Root_lt_BlockNum in Hlt. cbn in Hlt. bool_hyps. apply Z.leb_le. unfold bw_pos in *. cbn in *. lia.
Qed.

(** The root of the first [k] bridges, by the deposit count of the last of them. *)
Lemma exit_root_of_prefix net p k b :
  bp_inv p -> p_halted (bp_proc p) = false -> bridge (p_db (bp_proc p)) !! k = Some b ->
  exists r, bs_GetExitRootByIndex (b_syncer net p) (bw_DepositCount b) = Ok r /\
    rt_Hash r = tree_root (take (S k) (rows_hashes (p_db (bp_proc p)))).
Proof.
  intros Hinv Hh Hb. pose proof (root_of_bridge _ _ _ k b Hinv Hb) as Hr.
  destruct (GetRootByIndex_spec _ _ _ k _ (bi_tree _ _ _ Hinv) Hr) as (Hget & Hhash & _). eexists. split; [|exact Hhash].
  cbn [b_syncer bs_GetExitRootByIndex]. unfold s_GetExitRootByIndex, ifActive. rewrite Hh, (bi_count _ _ _ Hinv k b Hb), Hget. done.
Qed.

(** C6. The new local exit root of a certificate is the root of its exits appended to all earlier ones:
    over the synced bridges, for the bridges of a block range and the querier the flows use, the exit root
    the certificate names is the Merkle root of the hashes of the exits of every bridge before the range
    followed by exactly the exits the certificate carries. *)
Theorem certificate_root_is_root_of_exits net p q from to bridges claims params prev :
  bp_inv p -> p_halted (bp_proc p) = false -> Forall (fun b => valid_bridge (bw_Bridge b)) (bridge (p_db (bp_proc p))) ->
  bd_bridgeSyncer q = b_syncer net p -> from <= to ->
  bd_GetBridgesAndClaims q from to = Ok (bridges, claims) -> bp_Bridges params = bridges -> bridges <> [] ->
  let before := map bw_Bridge (bfilter (fun b => fst (bw_pos b) <? from) (bridge (p_db (bp_proc p)))) in
  @getNewLocalExitRoot (bridgeDataQuerier_impl q) params prev =
  Ok (tree_root (map BridgeExit_Hash (getBridgeExits before ++ getBridgeExits (bp_Bridges params)))).
Proof.
  intros Hinv Hh Hv Hq Hft Hget Hbr Hne before. set (rows := bridge (p_db (bp_proc p))) in *.
  destruct (bridges_until _ _ _ to Hinv) as (k & Hk & Hcut). fold rows in Hk, Hcut.
  pose proof (ordered_split bw_pos from to rows (bridges_ordered _ _ _ Hinv) Hft) as Hsplit. rewrite Hcut in Hsplit.
  unfold bd_GetBridgesAndClaims in Hget. rewrite Hq in Hget. cbn [b_syncer bs_GetBridges] in Hget.
  unfold s_GetBridges, ifActive in Hget. rewrite Hh in Hget. cbn [toFlow rbind] in Hget. rewrite GetBridges_rows in Hget by done. fold rows in Hget.
  set (range := bfilter (fun b => (from <=? fst (bw_pos b)) && (fst (bw_pos b) <=? to)) rows) in *.
  assert (Ebr : bridges = map bw_Bridge range).
  { destruct (bd_claimSyncer q) as [cs|]; [|done]. destruct (cs_GetClaims cs from to); [|done]. by injection Hget. }
  assert (Hexits : map BridgeExit_Hash (getBridgeExits before ++ getBridgeExits (bp_Bridges params)) = map row_Hash (take k rows)).
  { unfold getBridgeExits, ConvertToBridgeExits. rewrite Hbr, Ebr, <- map_app. subst before. rewrite <- map_app, <- Hsplit, !map_map.
    apply map_ext_in. intros b Hb. apply Bridge_Hash_exit. apply (proj1 (Forall_forall _ _) Hv).
    apply list_elem_of_In in Hb. by apply (subseteq_take k). }
  assert (Hrne : range <> []) by (intros E; apply Hne; by rewrite Ebr, E).
  unfold getNewLocalExitRoot, NumberOfBridges, MaxDepositCount. rewrite Hbr.
  destruct range as [|x range' _] using rev_ind; [done|]. rewrite Ebr, map_app. cbn [map]. rewrite last_snoc, length_app.
  rewrite (proj2 (Z.eqb_neq _ _)) by (cbn; lia).
  destruct k as [|k]; [by destruct (bfilter _ rows)|].
  assert (Hx : rows !! k = Some x).
  { destruct (lookup_lt_is_Some_2 rows k ltac:(lia)) as [y Hy]. rewrite (take_S_r _ _ _ Hy), app_assoc in Hsplit.
    apply app_inj_tail in Hsplit as [_ ->]. done. }
  destruct (exit_root_of_prefix net p k x Hinv Hh Hx) as (r & Hroot & Hhash).
  cbn [bridgeDataQuerier_impl GetExitRootByIndex]. unfold bd_GetExitRootByIndex. rewrite Hq.
  change (br_DepositCount (bw_Bridge x)) with (bw_DepositCount x). rewrite Hroot. cbn [rbind].
  rewrite Hhash, firstn_map. fold rows. by rewrite <- Hexits, Hbr, Ebr, (map_app bw_Bridge).
Qed.

End Proofs.

(** ** Examples *)

#[local] Existing Instance toy_keccak.

Definition example_row (bn pos dc amount : Z) : BridgeRow :=
  mkBridgeRow (mkBridge bn pos 0 0 0 1 7 (Some amount) [] dc) None 5 6 8 NoSource 0.
Definition newBridgeProcessor : processor := mkProcessor (mkTreeProc (mkBdb [] [] [] [] [] [] []) emptyTreeDB NewAppendOnlyTree false) [].
(** Leaves of bridges that differ in their amounts; the initial exit root is zero. *)
Definition example_leaves (amounts : list Z) : list Z := map (fun a => row_Hash (example_row 0 0 0 a)) amounts.
Definition example_ler (amounts : list Z) : Z := match amounts with [] => 0 | _ => tree_root_sparse (example_leaves amounts) end.
Definition example_decode (l : list Z) : option (list LeafData) := Some (map (fun a => mkLeafData 0 0 0 1 7 a []) l).
Definition example_process (b : Block Event) (p : processor) : processor * result bError unit := b_ProcessBlock 0 example_decode b p.
Definition back (bn prev next : Z) (before after : list Z) : Event :=
  backward_event (mkBackwardLET bn 0 prev (example_ler before) next (example_ler after)).
Definition forward (bn prev next : Z) (before after new : list Z) : Event :=
  mkEvent None None None None None (Some (mkForwardLET bn 0 0 0 prev (example_ler before) next (example_ler after) new)).

(** The amounts of the bridges, by deposit count. *)
Definition amounts (p : processor) : list (Z * option Z) :=
  map (fun b => (bw_DepositCount b, br_Amount (bw_Bridge b))) (bridge (p_db (bp_proc p))).
Definition archived (p : processor) : list (Z * option Z) :=
  map (fun b => (bw_DepositCount b, br_Amount (bw_Bridge b))) (bridge_archive (p_db (bp_proc p))).

(** Block 1 has the bridges 10, 11, 12. *)
Definition example_rows : list BridgeRow := [example_row 1 0 0 10; example_row 1 1 1 11; example_row 1 2 2 12].
Definition example_b1 : processor := fst (example_process (mkBlock 1 (map bridge_event example_rows) 101) newBridgeProcessor).
(** Block 2 rewinds to two leaves, block 3 to one. *)
Definition example_b2 : processor := fst (example_process (mkBlock 2 [back 2 3 2 [10; 11; 12] [10; 11]] 102) example_b1).
Definition example_b3 : processor := fst (example_process (mkBlock 3 [back 3 2 1 [10; 11] [10]] 103) example_b2).

(** Two rewindings cannot be reorged together: the bridges are put back in the order of the events,
    the last ones first, so the exit tree refuses the first leaf; the reorg fails, and fails again each
    time it is tried. *)
Theorem Reorg_of_two_rewindings_fails :
  amounts example_b3 = [(0, Some 10)] /\ archived example_b3 = [(2, Some 12); (1, Some 11)] /\
  snd (b_Reorg 2 example_b3) = Err (ErrTree ErrInvalidIndex) /\
  snd (b_Reorg 2 (fst (b_Reorg 2 example_b3))) = Err (ErrTree ErrInvalidIndex) /\
  p_db (bp_proc (fst (b_Reorg 2 example_b3))) = p_db (bp_proc example_b3).
Proof. vm_compute. split_and!; reflexivity. Qed.

(** Reorging the second of two rewindings also undoes part of the first: the bridge at the previous
    deposit count, archived by the first, is inside the range put back, and becomes a leaf again. *)
Theorem Reorg_restores_one_too_many :
  amounts example_b2 = [(0, Some 10); (1, Some 11)] /\
  snd (b_Reorg 3 example_b3) = Ok tt /\
  amounts (fst (b_Reorg 3 example_b3)) = [(0, Some 10); (1, Some 11); (2, Some 12)].
Proof. vm_compute. split_and!; reflexivity. Qed.

(** Block 3 replays another bridge in place of 12, block 4 rewinds it. *)
Definition example_f3 : processor := fst (example_process (mkBlock 3 [forward 3 2 3 [10; 11] [10; 11; 99] [99]] 103) example_b2).
Definition example_f4 : processor := fst (example_process (mkBlock 4 [back 4 3 2 [10; 11; 99] [10; 11]] 104) example_f3).

(** A replayed bridge is not archived when its deposit count already is: reorging the rewinding of
    the replayed bridge puts the old one back, and the exit tree gets the root of other leaves. *)
Theorem Reorg_restores_other_bridge :
  amounts example_f3 = [(0, Some 10); (1, Some 11); (2, Some 99)] /\
  snd (b_Reorg 4 example_f4) = Ok tt /\ amounts (fst (b_Reorg 4 example_f4)) = [(0, Some 10); (1, Some 11); (2, Some 12)] /\
  GetLastRoot (p_treeDB (bp_proc (fst (b_Reorg 4 example_f4)))) <> GetLastRoot (p_treeDB (bp_proc example_f3)).
Proof. vm_compute. split_and!; [reflexivity.. | discriminate]. Qed.

(** A page beyond the last is refused, unless its offset wraps around 32 bits: then a page of the
    beginning is served. *)
Theorem page_offset_wraps :
  snd (example_process (mkBlock 1 (map bridge_event example_rows) 101) newBridgeProcessor) = Ok tt /\
  GetBridgesPaged example_b1 2 65536 None [] None = Err ErrInvalidPage /\
  GetBridgesPaged example_b1 65537 65536 None [] None = GetBridgesPaged example_b1 1 65536 None [] None /\
  is_ok (GetBridgesPaged example_b1 65537 65536 None [] None) = true.
Proof. vm_compute. split_and!; reflexivity. Qed.

(** ** Witnesses *)

Lemma newBridgeProcessor_inv : bp_inv newBridgeProcessor.
Proof. split; try done; [apply aot_inv_new, db_inv_empty | apply NoDup_nil_2 | apply Forall_nil_2..]. Qed.

Definition example_one : list BridgeRow := [example_row 1 0 0 10].
Definition example_c1 : processor := fst (example_process (mkBlock 1 (map bridge_event example_one) 101) newBridgeProcessor).

Lemma example_one_ok : bridges_ok example_one (blockTx (mkBlock 1 (map bridge_event example_one) 101) newBridgeProcessor).
Proof.
  split; [|done]. split; [apply put_okb_sound; vm_compute; reflexivity|]. split; [done|]. apply list_elem_of_here.
Qed.

Lemma ProcessBlock_adds_bridges_witness :
  exists p', b_ProcessBlock 0 example_decode (mkBlock 1 (map bridge_event example_one) 101) newBridgeProcessor = (p', Ok tt) /\ bp_inv p' /\
    p_db (bp_proc p') = set_bridge (fun rows => rows ++ map hashed example_one) (with_block 1 101 (p_db (bp_proc newBridgeProcessor))) /\
    bp_published p' = [] ++ [1].
Proof.
  refine (ProcessBlock_adds_bridges 0 example_decode 1 101 example_one newBridgeProcessor newBridgeProcessor_inv eq_refl _ _ _ example_one_ok).
  - lia.
  - apply not_elem_of_nil.
  - by apply Forall_singleton.
Defined.

Lemma example_c1_inv : bp_inv example_c1.
Proof.
  destruct (ProcessBlock_bridges_run 0 example_decode 1 101 example_one newBridgeProcessor newBridgeProcessor_inv eq_refl)
    as (p' & Hrun & Hinv & _); [lia | apply not_elem_of_nil | by apply Forall_singleton | apply example_one_ok|].
  unfold example_c1, example_process. by rewrite Hrun.
Qed.

(** Block 2 rewinds everything. *)
Definition example_back : BackwardLET := mkBackwardLET 2 0 1 (example_ler [10]) 0 0.
Definition example_back_tx : txState bdb := blockTx (mkBlock 2 [backward_event example_back] 102) example_c1.

Lemma example_c1_rows : bridge (p_db (bp_proc example_c1)) = example_one.
Proof. vm_compute. reflexivity. Qed.

Lemma example_back_ok : backward_ok 0 0 example_back example_back_tx.
Proof.
  assert (E : map row_Hash (bridge (ts_db example_back_tx)) = example_leaves [10]) by (vm_compute; reflexivity).
  split.
  - reflexivity.
  - split; [apply Nat.le_0_l | reflexivity].
  - rewrite E. unfold example_back, ler, example_ler. cbn [bl_PreviousRoot example_leaves map]. symmetry. apply tree_root_sparse_eq.
  - reflexivity.
  - rewrite E. split; intros Hne; [|by destruct Hne]. rewrite tree_root_sparse_eq. vm_compute. discriminate.
  - vm_compute. apply NoDup_singleton.
  - intros r Hr. vm_compute in Hr. destruct Hr.
  - vm_compute. right. left.
Qed.

Lemma BackwardLET_rewinds_witness :
  exists s', insertBackwardLET 0 example_back example_back_tx = (s', Ok tt) /\ ts_inv s' /\
    ts_db s' = rewound_db 0 example_back (ts_db example_back_tx) /\ db_root (tx_db (ts_tx s')) = [] /\
    tx_db (ts_tx s') = mkTreeDB (db_rht (tx_db (ts_tx example_back_tx))) [].
Proof.
  refine (BackwardLET_rewinds 0 0 example_back example_back_tx _ example_back_ok).
  apply blockTx_inv; [apply example_c1_inv | cbn; lia | vm_compute]. intros H. by apply list_elem_of_singleton in H.
Defined.

Lemma example_undoable : undoable 2 0 (p_db (bp_proc example_c1)).
Proof.
  split.
  - split; try done; intros x Hx; vm_compute in Hx; destruct Hx as [<-|[]]; vm_compute; reflexivity.
  - done.
  - rewrite example_c1_rows. by apply Forall_singleton.
Qed.

Lemma Reorg_undoes_BackwardLET_witness :
  exists p1 p2, b_ProcessBlock 0 example_decode (mkBlock 2 [backward_event example_back] 102) example_c1 = (p1, Ok tt) /\
    bridge (p_db (bp_proc p1)) = [] /\ b_Reorg 2 p1 = (p2, Ok tt) /\ bp_inv p2 /\
    p_db (bp_proc p2) = p_db (bp_proc example_c1) /\ db_root (p_treeDB (bp_proc p2)) = db_root (p_treeDB (bp_proc example_c1)).
Proof.
  refine (Reorg_undoes_BackwardLET 0 example_decode 2 102 0 example_back example_c1 example_c1_inv _ _ _ example_undoable _ example_back_ok).
  - vm_compute. reflexivity.
  - lia.
  - reflexivity.
  - rewrite example_c1_rows. reflexivity.
Defined.

Lemma bridge_steps_atomic_witness :
  let p' := fst (b_Reorg 2 example_b3) in
  p_db (bp_proc p') = p_db (bp_proc example_b3) /\ p_treeDB (bp_proc p') = p_treeDB (bp_proc example_b3) /\
  bp_published p' = bp_published example_b3.
Proof.
  refine (bridge_steps_atomic 0 example_decode (b_Reorg 2) example_b3 (fst (b_Reorg 2 example_b3)) (ErrTree ErrInvalidIndex) _ _).
  - right. by exists 2.
  - vm_compute. reflexivity.
Defined.

Definition example_claims : ClaimSyncer := mkClaimSyncer (fun _ _ => Ok []) (fun _ => Ok []) (Ok None).
Definition example_querier : bridgeDataQuerier := mkBridgeDataQuerier (b_syncer 1 example_c1) (Some example_claims) (fun _ _ => Ok []).

Definition example_params : CertificateBuildParams :=
  mkBuildParams 1 5 (map bw_Bridge example_one) [] [] 0 0 None 0 0 None CertificateTypePP [].

Lemma certificate_root_is_root_of_exits_witness :
  @getNewLocalExitRoot (bridgeDataQuerier_impl example_querier) example_params 0 =
  Ok (tree_root (map BridgeExit_Hash (getBridgeExits [] ++ getBridgeExits (map bw_Bridge example_one)))).
Proof.
  refine (certificate_root_is_root_of_exits 1 example_c1 example_querier 1 5 (map bw_Bridge example_one) [] example_params 0
    example_c1_inv _ _ _ _ _ eq_refl _).
  - vm_compute. reflexivity.
  - rewrite example_c1_rows. apply Forall_singleton. split; vm_compute; discriminate.
  - reflexivity.
  - lia.
  - vm_compute. reflexivity.
  - discriminate.
Defined.
