(* ===== verification/BridgeService.v ===== *)
(** The bridge service ([bridgeservice/bridge.go], [bridgeservice/utils.go]): the parsing of requests, the search for the
    first leaf of the L1 info tree that contains a deposit, the claim proof and the other handlers, the synchronisation
    status and the health derived from it.

    The syncers are the records of operations of [bridge_interfaces.go]; a missing one is [None].  A handler is a function
    from the parameters of a request to a status and a body; bodies are the data behind the JSON, errors carry no text. *)

From Stdlib Require Import Ascii.
From S2P Require Import Prelude Bytes Merkle AgglayerTypes BuildParams Validator Tables ClaimStorage L2GerSync L1InfoTree BridgeSync.

(** ** Numbers and hashes in text ([strconv], [math/big], [encoding/hex], [go-ethereum/common]) *)

Definition chars (s : string) : list ascii := String.list_ascii_of_string s.

Definition hexDigit (c : ascii) : option Z :=
  let n := Z.of_nat (nat_of_ascii c) in
  if (48 <=? n) && (n <=? 57) then Some (n - 48)
  else if (97 <=? n) && (n <=? 102) then Some (n - 87)
  else if (65 <=? n) && (n <=? 70) then Some (n - 55)
  else None.

(** What comes before a character: nothing, a digit or a prefix, an underscore. *)
Inductive prevChar := PrevNone | PrevDigit | PrevUnderscore.

(** Digits of [base]; underscores only between digits, when they are allowed. *)
Fixpoint scanDigits (base : Z) (underscores : bool) (cs : list ascii) (prev : prevChar) (count : nat) (acc : Z) : option (Z * nat) :=
  match cs with
  | [] => match prev with PrevUnderscore => None | _ => Some (acc, count) end
  | c :: cs =>
      if underscores && Ascii.eqb c "_" then
        match prev with PrevDigit => scanDigits base underscores cs PrevUnderscore count acc | _ => None end
      else match hexDigit c with
           | Some d => if d <? base then scanDigits base underscores cs PrevDigit (S count) (acc * base + d) else None
           | None => None
           end
  end.

Definition nonEmptyDigits (r : option (Z * nat)) : option Z :=
  match r with Some (v, S _) => Some v | _ => None end.

Definition decimal (cs : list ascii) : option Z := nonEmptyDigits (scanDigits 10 false cs PrevNone 0 0).

(** [strconv.ParseUint(s, 10, bits)]; every error is one error. *)
Definition ParseUint (s : string) (bits : Z) : option Z :=
  match decimal (chars s) with
  | Some v => if v <? 2 ^ bits then Some v else None
  | None => None
  end.

Definition withSign (parse : list ascii -> option Z) (s : string) : option Z :=
  match chars s with
  | c :: cs => if Ascii.eqb c "-" then Z.opp <$> parse cs else if Ascii.eqb c "+" then parse cs else parse (c :: cs)
  | [] => None
  end.

(** [new(big.Int).SetString(s, 10)]. *)
Definition SetString10 (s : string) : option Z := withSign decimal s.

(** [new(big.Int).SetString(s, 0)]: the base is in the prefix. *)
Definition SetString0 (s : string) : option Z :=
  withSign (fun cs =>
    match cs with
    | z :: cs' =>
        if Ascii.eqb z "0" then
          match cs' with
          | p :: ds =>
              if Ascii.eqb p "b" || Ascii.eqb p "B" then nonEmptyDigits (scanDigits 2 true ds PrevDigit 0 0)
              else if Ascii.eqb p "o" || Ascii.eqb p "O" then nonEmptyDigits (scanDigits 8 true ds PrevDigit 0 0)
              else if Ascii.eqb p "x" || Ascii.eqb p "X" then nonEmptyDigits (scanDigits 16 true ds PrevDigit 0 0)
              else fst <$> scanDigits 8 true cs' PrevDigit 0 0
          | [] => Some 0
          end
        else nonEmptyDigits (scanDigits 10 true cs PrevNone 0 0)
    | [] => None
    end) s.

(** [strconv.ParseBool]. *)
Definition ParseBool (s : string) : option bool :=
  if existsb (String.eqb s) ["1"; "t"; "T"; "TRUE"; "true"; "True"]%string then Some true
  else if existsb (String.eqb s) ["0"; "f"; "F"; "FALSE"; "false"; "False"]%string then Some false
  else None.

Definition isHex (cs : list ascii) : bool := forallb (fun c => negb (is_nil (hexDigit c))) cs.
Definition hexValue (cs : list ascii) : Z := fold_left (fun acc c => acc * 16 + default 0 (hexDigit c)) cs 0.

Definition trim0x (s : string) : list ascii :=
  match chars s with
  | z :: x :: cs => if Ascii.eqb z "0" && Ascii.eqb x "x" then cs else chars s
  | cs => cs
  end.

Definition trim0xX (s : string) : list ascii :=
  match chars s with
  | z :: x :: cs => if Ascii.eqb z "0" && (Ascii.eqb x "x" || Ascii.eqb x "X") then cs else chars s
  | cs => cs
  end.

Definition hexHashLengthWithoutPrefix : nat := 64.

Definition isValidHexHash (s : string) : bool :=
  let hashStr := trim0x s in (length hashStr =? hexHashLengthWithoutPrefix)%nat && isHex hashStr.

(** For a text that [isValidHexHash] accepts. *)
Definition HexToHash (s : string) : Z := hexValue (trim0xX s).

Definition IsHexAddress (s : string) : bool := (length (trim0xX s) =? 2 * AddressLength)%nat && isHex (trim0xX s).
Definition HexToAddress (s : string) : Z := hexValue (trim0xX s).

Fixpoint hexBytes (cs : list ascii) : option (list Z) :=
  match cs with
  | [] => Some []
  | [_] => None
  | a :: b :: cs => x ← hexDigit a; y ← hexDigit b; bs ← hexBytes cs; Some (x * 16 + y :: bs)
  end.

(** ** The syncers ([bridge_interfaces.go]) *)

Inductive svcError :=
| SErrNotFound
| SErrL1NotFound
| SErrBlockNotProcessed
| SErrNoBlock0
| SErrNotOnL1Info
| SErrInconsistentState
| SErrFeeEstimateBadRequest
| SErrFeeEstimateUnavailable
| SErrOther.

Definition finality : Type := Z -> Z -> result svcError (bool * bool).

(** [GetRootByLER] answers a root with the hash of its block. *)
Record Bridger := mkBridger {
  bg_GetProof : Z -> Z -> result svcError (list Z);
  bg_GetRootByLER : Z -> result svcError (Root * Z);
  bg_GetLastRoot : result svcError Root;
  bg_GetBridgesPaged : Z -> Z -> option Z -> list Z -> string -> result svcError (list (BridgeRow * Z) * Z);
  bg_GetTokenMappings : Z -> Z -> string -> result svcError (list TokenMapping * Z);
  bg_GetLegacyTokenMigrations : Z -> Z -> result svcError (list LegacyTokenMigration * Z);
  bg_GetLastReorgEvent : result svcError (Z * Z * Z);
  bg_GetContractDepositCount : result svcError Z;
  bg_GetLastProcessedBlock : result svcError (Z * bool);
  bg_GetLatestNetworkBlock : result svcError Z;
  bg_IsBlockFinalized : finality;
  bg_IsActive : bool;
  bg_GetBridgeByDepositCount : Z -> result svcError (BridgeRow * Z);
  bg_GetBridgesByContent : Z -> Z -> Z -> Z -> Z -> list Z -> result svcError (list (BridgeRow * Z))
}.

Record Claimer := mkClaimer {
  cm_GetClaimsPaged : Z -> Z -> list Z -> option Z -> result svcError (list Claim * Z);
  cm_GetUnsetClaimsPaged : Z -> Z -> option Z -> result svcError (list UnsetClaim * Z);
  cm_GetSetClaimsPaged : Z -> Z -> option Z -> result svcError (list SetClaim * Z);
  cm_GetClaimsByGER : Z -> result svcError (list Claim);
  cm_GetLastProcessedBlock : result svcError (Z * bool);
  cm_IsBlockFinalized : finality
}.

Record L2GERSyncer := mkL2GERSyncer {
  lg_GetFirstGERAfterL1InfoTreeIndex : Z -> result svcError GlobalExitRootInfo;
  lg_GetRemoveGEREvents : option Z -> Z -> result svcError (list RemoveGEREvent);
  lg_GetLastProcessedBlock : result svcError Z;
  lg_IsBlockFinalized : finality
}.

(** [GetInfoByIndex] answers a leaf with the hash of its block. *)
Record L1InfoTreeSyncer := mkL1InfoTreeSyncer {
  lt_GetInfoByIndex : Z -> result svcError (L1InfoLeaf * Z);
  lt_GetInfoByGlobalExitRoot : Z -> result svcError L1InfoLeaf;
  lt_GetRollupExitTreeMerkleProof : Z -> Z -> result svcError (list Z);
  lt_GetLocalExitRoot : Z -> Z -> result svcError Z;
  lt_GetLastInfo : result svcError L1InfoLeaf;
  lt_GetFirstInfo : result svcError L1InfoLeaf;
  lt_GetFirstInfoAfterBlock : Z -> result svcError L1InfoLeaf;
  lt_GetLatestL1InfoLeafUntilBlock : Z -> result svcError L1InfoLeaf;
  lt_GetLastVerifiedBatches : Z -> result svcError VerifyBatches;
  lt_GetFirstVerifiedBatches : Z -> result svcError VerifyBatches;
  lt_GetFirstVerifiedBatchesAfterBlock : Z -> Z -> result svcError VerifyBatches;
  lt_GetFirstL1InfoWithRollupExitRoot : Z -> result svcError L1InfoLeaf;
  lt_GetVerifiedBatchesPaged : Z -> Z -> Z -> result svcError (list (VerifyBatches * option Z) * Z);
  lt_IsActive : bool;
  lt_GetLastProcessedBlock : result svcError Z;
  lt_IsBlockFinalized : finality
}.

Record BridgeService := mkBridgeService {
  sv_networkID : Z;
  sv_l1InfoTree : option L1InfoTreeSyncer;
  sv_injectedGERs : option L2GERSyncer;
  sv_bridgeL1 : option Bridger;
  sv_bridgeL2 : option Bridger;
  sv_claimL1 : option Claimer;
  sv_claimL2 : option Claimer;
  sv_upgradeBlock : Z
}.

Definition mainnetNetworkID : Z := 0.
Definition binarySearchDivider : Z := 2.

(** ** The first leaf of the L1 info tree with a deposit *)

Section Search.
Context (l1 : L1InfoTreeSyncer) (b : Bridger).

(** [None]: more iterations than the fuel. *)
Fixpoint l1BridgeSearch (fuel : nat) (depositCount lowerLimit upperLimit : Z) (bestResult : L1InfoLeaf)
  : option (result svcError L1InfoLeaf) :=
  match fuel with
  | O => None
  | S fuel =>
      if upperLimit <? lowerLimit then Some (Ok bestResult)
      else
        let targetBlock := lowerLimit +u64 (upperLimit -u64 lowerLimit) / binarySearchDivider in
        match lt_GetFirstInfoAfterBlock l1 targetBlock with
        | Err e => Some (Err e)
        | Ok targetInfo =>
            match bg_GetRootByLER b (il_MainnetExitRoot targetInfo) with
            | Err e => Some (Err e)
            | Ok (root, _) =>
                if rt_Index root <? depositCount then l1BridgeSearch fuel depositCount (targetBlock +u64 1) upperLimit bestResult
                else if rt_Index root =? depositCount then Some (Ok targetInfo)
                else l1BridgeSearch fuel depositCount lowerLimit (targetBlock -u64 1) targetInfo
            end
        end
  end.

(** The last leaf to consider and the root that bounds the deposits, with the fallback when the exit root of the last leaf
    is not indexed. *)
Definition l1SearchBound : result svcError (L1InfoLeaf * Root) :=
  let? lastInfo := lt_GetLastInfo l1 in
  match bg_GetRootByLER b (il_MainnetExitRoot lastInfo) with
  | Ok (root, _) => Ok (lastInfo, root)
  | Err _ =>
      let? root := bg_GetLastRoot b in
      if rt_BlockNum root =? 0 then Err SErrNotOnL1Info
      else let? lastInfo := lt_GetLatestL1InfoLeafUntilBlock l1 (rt_BlockNum root) in Ok (lastInfo, root)
  end.

Definition getFirstL1InfoTreeIndexForL1Bridge (fuel : nat) (depositCount : Z) : option (result svcError Z) :=
  match l1SearchBound with
  | Err e => Some (Err e)
  | Ok (lastInfo, root) =>
      if rt_Index root <? depositCount then Some (Err SErrNotOnL1Info)
      else match lt_GetFirstInfo l1 with
           | Err e => Some (Err e)
           | Ok firstInfo =>
               match l1BridgeSearch fuel depositCount (il_BlockNumber firstInfo) (il_BlockNumber lastInfo) lastInfo with
               | None => None
               | Some (Err e) => Some (Err e)
               | Some (Ok info) => Some (Ok (il_L1InfoTreeIndex info))
               end
           end
  end.

Inductive binarySearchAction := binarySearchContinue | binarySearchDone | binarySearchFallback.

Definition isNotFound (e : svcError) : bool := match e with SErrNotFound => true | _ => false end.

Definition binarySearchStep (networkID targetBlock lowerLimit upperLimit depositCount : Z) (best : VerifyBatches)
  : result svcError (VerifyBatches * Z * Z * binarySearchAction) :=
  let? targetVerified := lt_GetFirstVerifiedBatchesAfterBlock l1 networkID targetBlock in
  if upperLimit <? vb_BlockNumber targetVerified then
    if targetBlock =? 0 then Ok (best, lowerLimit, upperLimit, binarySearchDone)
    else Ok (best, lowerLimit, targetBlock -u64 1, binarySearchContinue)
  else
    match bg_GetRootByLER b (vb_ExitRoot targetVerified) with
    | Err e => if isNotFound e then Ok (best, 0, 0, binarySearchFallback) else Err e
    | Ok (root, _) =>
        if rt_Index root <? depositCount then Ok (best, vb_BlockNumber targetVerified +u64 1, upperLimit, binarySearchContinue)
        else if rt_Index root =? depositCount then Ok (targetVerified, lowerLimit, upperLimit, binarySearchDone)
        else if vb_BlockNumber targetVerified =? 0 then Ok (targetVerified, lowerLimit, upperLimit, binarySearchDone)
        else Ok (targetVerified, lowerLimit, vb_BlockNumber targetVerified -u64 1, binarySearchContinue)
    end.

(** [Ok None]: an exit root that is not indexed was met. *)
Fixpoint binarySearch (fuel : nat) (networkID depositCount lowerLimit upperLimit : Z) (bestResult : VerifyBatches)
  : option (result svcError (option VerifyBatches)) :=
  match fuel with
  | O => None
  | S fuel =>
      if upperLimit <? lowerLimit then Some (Ok (Some bestResult))
      else
        let targetBlock := lowerLimit +u64 (upperLimit -u64 lowerLimit) / binarySearchDivider in
        match binarySearchStep networkID targetBlock lowerLimit upperLimit depositCount bestResult with
        | Err e => Some (Err e)
        | Ok (_, _, _, binarySearchFallback) => Some (Ok None)
        | Ok (newBest, _, _, binarySearchDone) => Some (Ok (Some newBest))
        | Ok (newBest, newLower, newUpper, binarySearchContinue) => binarySearch fuel networkID depositCount newLower newUpper newBest
        end
  end.

Definition getFirstVerifiedBatchesForL2DepositCountBinary (fuel : nat) (networkID : Z) (firstVerified lastVerified : VerifyBatches)
    (depositCount : Z) : option (result svcError (option VerifyBatches)) :=
  binarySearch fuel networkID depositCount (vb_BlockNumber firstVerified) (vb_BlockNumber lastVerified) lastVerified.

Fixpoint getFirstVerifiedBatchesForL2DepositCountLinear (fuel : nat) (networkID nextBlock lastBlock depositCount : Z)
  : option (result svcError VerifyBatches) :=
  match fuel with
  | O => None
  | S fuel =>
      if lastBlock <? nextBlock then Some (Err SErrNotOnL1Info)
      else
        match lt_GetFirstVerifiedBatchesAfterBlock l1 networkID nextBlock with
        | Err e => Some (Err e)
        | Ok verified =>
            if lastBlock <? vb_BlockNumber verified then Some (Err SErrNotOnL1Info)
            else
              match bg_GetRootByLER b (vb_ExitRoot verified) with
              | Err e =>
                  if isNotFound e
                  then getFirstVerifiedBatchesForL2DepositCountLinear fuel networkID (vb_BlockNumber verified +u64 1) lastBlock depositCount
                  else Some (Err e)
              | Ok (root, _) =>
                  if depositCount <=? rt_Index root then Some (Ok verified)
                  else getFirstVerifiedBatchesForL2DepositCountLinear fuel networkID (vb_BlockNumber verified +u64 1) lastBlock depositCount
              end
        end
  end.

Definition l2SearchRoot (lastVerified : VerifyBatches) : result svcError Root :=
  match bg_GetRootByLER b (vb_ExitRoot lastVerified) with
  | Ok (root, _) => Ok root
  | Err e => if isNotFound e then bg_GetLastRoot b else Err e
  end.

Definition getFirstL1InfoTreeIndexForL2Bridge (fuel : nat) (networkID depositCount : Z) : option (result svcError Z) :=
  let?? lastVerified := Some (lt_GetLastVerifiedBatches l1 networkID) in
  let?? root := Some (l2SearchRoot lastVerified) in
  if rt_Index root <? depositCount then Some (Err SErrNotOnL1Info)
  else
    let?? firstVerified := Some (lt_GetFirstVerifiedBatches l1 networkID) in
    let?? found := getFirstVerifiedBatchesForL2DepositCountBinary fuel networkID firstVerified lastVerified depositCount in
    let?? bestResult := match found with
      | Some v => Some (Ok v)
      | None => getFirstVerifiedBatchesForL2DepositCountLinear fuel networkID (vb_BlockNumber firstVerified)
                  (vb_BlockNumber lastVerified) depositCount
      end in
    let?? info := Some (lt_GetFirstL1InfoWithRollupExitRoot l1 (vb_RollupExitRoot bestResult)) in
    Some (Ok (il_L1InfoTreeIndex info)).

End Search.
