(* ===== verification/BridgeHandlers.v ===== *)
(** The handlers of the bridge service ([bridgeservice/bridge.go], [bridgeservice/utils.go]), its synchronisation status
    and the health derived from it, over the syncers and the search of [BridgeService].

    A handler returns early with [Err]; what is written to the client is the response of either side.  Dereferencing a
    missing syncer is a panic, answered with 500 by the recovery of the router. *)

From Stdlib Require Import Ascii.
From S2P Require Import Prelude Bytes Merkle AgglayerTypes BuildParams Validator Tables ClaimStorage L2GerSync L1InfoTree BridgeSync BridgeService.

(** ** Responses *)

Definition StatusOK : Z := 200.
Definition StatusBadRequest : Z := 400.
Definition StatusNotFound : Z := 404.
Definition StatusInternalServerError : Z := 500.
Definition StatusServiceUnavailable : Z := 503.

Record BridgeResponse := mkBridgeResponse {
  bs_Bridge : BridgeRow;
  bs_GlobalIndex : Z;
  bs_BridgeHash : Z;
  bs_BlockFinalized : option bool
}.

Record ClaimResponse := mkClaimResponse {
  cs_Claim : Claim;
  cs_Proofs : option (list Z * list Z);
  cs_BlockFinalized : option bool
}.

Record L1InfoTreeLeafResponse := mkLeafResponse {
  lr_Leaf : L1InfoLeaf;
  lr_InjectedL2 : option (Z * option Z);
  lr_BlockFinalized : option bool
}.

Record SettlementResponse := mkSettlementResponse {
  sr_NewLocalExitRoot : Z;
  sr_BlockNumber : Z;
  sr_BlockTimestamp : option Z;
  sr_TxHash : option Z;
  sr_BlockHash : option Z;
  sr_BlockFinalized : option bool
}.

Record NetworkSyncInfo := mkNetworkSyncInfo {
  ni_IsActive : bool;
  ni_IsHalted : bool;
  ni_Error : option svcError;
  ni_ContractDepositCount : Z;
  ni_SynchronizedDepositCount : Z;
  ni_IsSynced : bool;
  ni_LastProcessedBlock : Z;
  ni_NetworkBlock : Z
}.

(** [L2GERSyncInfo] and [SyncerSyncInfo]. *)
Record SyncerSyncInfo := mkSyncerSyncInfo {
  si_IsActive : bool;
  si_IsHalted : bool;
  si_Error : option svcError;
  si_LastProcessedBlock : Z
}.

Record SyncStatus := mkSyncStatus {
  ss_L1Info : NetworkSyncInfo;
  ss_L2Info : NetworkSyncInfo;
  ss_L2GERInfo : SyncerSyncInfo;
  ss_L1InfoTreeInfo : option SyncerSyncInfo;
  ss_ClaimL1Info : option SyncerSyncInfo;
  ss_ClaimL2Info : option SyncerSyncInfo
}.

Inductive Body :=
| BodyError
| BodyPanic
| BodyBridges (bridges : list BridgeResponse) (count : Z)
| BodyBridge (bridge : BridgeResponse)
| BodyClaims (claims : list ClaimResponse) (count : Z)
| BodyUnsetClaims (claims : list UnsetClaim) (count : Z)
| BodySetClaims (claims : list SetClaim) (count : Z)
| BodyTokenMappings (mappings : list TokenMapping) (count : Z)
| BodyTokenMigrations (migrations : list LegacyTokenMigration) (count : Z)
| BodyL1InfoTreeIndex (index : Z)
| BodyL1InfoTreeLeaf (leaf : L1InfoTreeLeafResponse)
| BodyClaimProof (proofLocalExitRoot proofRollupExitRoot : list Z) (leaf : L1InfoTreeLeafResponse)
| BodyReorg (event : Z * Z * Z)
| BodyRemoveGEREvents (events : list RemoveGEREvent)
| BodyRoot (root : Root) (finalized : option bool)
| BodySettlements (settlements : list SettlementResponse) (count : Z)
| BodySyncStatus (status : SyncStatus).

Record Response := mkResponse { rs_status : Z; rs_body : Body }.

Definition failWith (status : Z) : Response := mkResponse status BodyError.
Definition panicked : Response := mkResponse StatusInternalServerError BodyPanic.

Definition handler : Type := result Response Response.
Definition answer (h : handler) : Response := match h with Ok r => r | Err r => r end.
Definition ok (b : Body) : handler := Ok (mkResponse StatusOK b).

Definition httpStatusForSyncerError (e : svcError) : Z :=
  match e with
  | SErrFeeEstimateBadRequest => StatusBadRequest
  | SErrFeeEstimateUnavailable | SErrInconsistentState => StatusServiceUnavailable
  | SErrNotFound | SErrL1NotFound | SErrBlockNotProcessed | SErrNoBlock0 | SErrNotOnL1Info => StatusNotFound
  | SErrOther => StatusInternalServerError
  end.

(** An error of a query: always 500, 404 for a missing row, or by [respondSyncerError]. *)
Definition orInternal {A} (r : result svcError A) : result Response A :=
  match r with Ok a => Ok a | Err _ => Err (failWith StatusInternalServerError) end.
Definition orMissing {A} (r : result svcError A) : result Response A :=
  match r with Ok a => Ok a | Err e => Err (failWith (if isNotFound e then StatusNotFound else StatusInternalServerError)) end.
Definition respondSyncerError {A} (r : result svcError A) : result Response A :=
  match r with Ok a => Ok a | Err e => Err (failWith (httpStatusForSyncerError e)) end.

Definition deref {A} (o : option A) : result Response A := match o with Some a => Ok a | None => Err panicked end.
Definition available {A} (o : option A) : result Response A := match o with Some a => Ok a | None => Err (failWith StatusServiceUnavailable) end.
Definition valid {A} (o : option A) : result Response A := match o with Some a => Ok a | None => Err (failWith StatusBadRequest) end.
Definition check (c : bool) : result Response unit := if c then Ok tt else Err (failWith StatusBadRequest).

(** ** Parameters of a request *)

Record HttpRequest := mkHttpRequest { hq_Query : string -> string; hq_QueryArray : string -> list string }.

Definition DefaultPageSize : Z := 20.
Definition MaxPageSize : Z := 200.
Definition DefaultPage : Z := 1.
Definition MaxNetworkIDs : nat := 5.
Definition DefaultRemoveGERLimit : Z := 50.

Section Params.
Context (c : HttpRequest).

(** [defaultVal]: [None] for a mandatory parameter. *)
Definition parseUintQuery (bits : Z) (key : string) (defaultVal : option Z) : option Z :=
  let paramStr := hq_Query c key in
  if String.eqb paramStr "" then defaultVal
  else match ParseUint paramStr 64 with
       | Some v => if v <? 2 ^ bits then Some v else None
       | None => None
       end.

(** [Some None]: no parameter. *)
Definition parseBigIntQuery : option (option Z) :=
  let paramStr := hq_Query c "global_index" in
  if String.eqb paramStr "" then Some None else Some <$> SetString0 paramStr.

Definition parseNetworkIDSliceParam (key : string) : option (list Z) :=
  let vals := hq_QueryArray c key in
  if (MaxNetworkIDs <? length vals)%nat then None else mapM (fun v => ParseUint v 32) vals.

Definition validatePaginationParams (pageNumber pageSize : Z) : bool :=
  negb (pageNumber =? 0) && negb (pageSize =? 0) && (pageSize <=? MaxPageSize).

Definition setupRequest : result Response (Z * Z) :=
  let? pageNumber := valid (parseUintQuery 32 "page_number" (Some DefaultPage)) in
  let? pageSize := valid (parseUintQuery 32 "page_size" (Some DefaultPageSize)) in
  let? _ := check (validatePaginationParams pageNumber pageSize) in
  Ok (pageNumber, pageSize).

Definition parseGlobalIndexAndSetupRequest : result Response (option Z * Z * Z) :=
  let? globalIndex := valid parseBigIntQuery in
  let? (pageNumber, pageSize) := setupRequest in
  Ok (globalIndex, pageNumber, pageSize).

Definition networkParam : result Response Z := valid (parseUintQuery 32 "network_id" None).

(** A mandatory hash. *)
Definition hashParam (key : string) : result Response Z :=
  let s := hq_Query c key in
  let? _ := check (negb (String.eqb s "")) in
  let? _ := check (isValidHexHash s) in
  Ok (HexToHash s).

Definition addressParam (key : string) : result Response Z :=
  let s := hq_Query c key in
  let? _ := check (negb (String.eqb s "")) in
  let? _ := check (IsHexAddress s) in
  Ok (HexToAddress s).

End Params.

(** ** Handlers *)

Section Handlers.
Context `{Kc : Keccak} (b : BridgeService) (c : HttpRequest).

(** [switch networkID]: the syncer of L1, that of this network, or an unsupported network. *)
Definition onNetwork {A} (networkID : Z) (l1 l2 : result Response A) : result Response A :=
  if networkID =? mainnetNetworkID then l1
  else if networkID =? sv_networkID b then l2
  else Err (failWith StatusBadRequest).

Definition bridgerForNetwork (networkID : Z) : option Bridger :=
  if networkID =? mainnetNetworkID then sv_bridgeL1 b else if networkID =? sv_networkID b then sv_bridgeL2 b else None.

Definition claimerForNetwork (networkID : Z) : option Claimer :=
  if networkID =? mainnetNetworkID then sv_claimL1 b else if networkID =? sv_networkID b then sv_claimL2 b else None.

(** [None]: the syncer cannot tell. *)
Definition blockFinalized (syncer : option finality) (blockNum blockHash : Z) : option bool :=
  match syncer with
  | None => None
  | Some f => match f blockNum blockHash with
              | Ok (finalized, true) => Some finalized
              | _ => None
              end
  end.

Definition l1BlockFinalized (blockNum blockHash : Z) : option bool :=
  blockFinalized (lt_IsBlockFinalized <$> sv_l1InfoTree b) blockNum blockHash.

Definition andFinalized (x y : option bool) : option bool :=
  match x, y with
  | Some false, _ | _, Some false => Some false
  | Some true, Some true => Some true
  | _, _ => None
  end.

Definition NewBridgeResponse (networkID : Z) (row : BridgeRow * Z) : BridgeResponse :=
  let bridge := bw_Bridge (fst row) in
  mkBridgeResponse (fst row)
    (fst (GlobalIndexForBridge (br_DestinationNetwork bridge) (br_BlockNum bridge) (br_DepositCount bridge) networkID (sv_upgradeBlock b)))
    (Bridge_Hash bridge)
    (blockFinalized (bg_IsBlockFinalized <$> bridgerForNetwork networkID) (br_BlockNum bridge) (snd row)).

Definition NewClaimResponse (networkID : Z) (populateProofs : bool) (claim : Claim) : ClaimResponse :=
  mkClaimResponse claim
    (if populateProofs then Some (sc_ProofLocalExitRoot (cl_claim claim), sc_ProofRollupExitRoot (cl_claim claim)) else None)
    (blockFinalized (cm_IsBlockFinalized <$> claimerForNetwork networkID) (sc_BlockNum (cl_claim claim)) (cl_BlockHash claim)).

Definition NewL1InfoTreeLeafResponse (leaf : L1InfoLeaf) : L1InfoTreeLeafResponse := mkLeafResponse leaf None None.

Definition GetBridgesHandler : handler :=
  let? networkID := networkParam c in
  let? depositCount := valid (parseUintQuery c 64 "deposit_count" (Some MaxUint64)) in
  let depositCountPtr := if depositCount =? MaxUint64 then None else Some depositCount in
  let? networkIDs := valid (parseNetworkIDSliceParam c "network_ids") in
  let? (pageNumber, pageSize) := setupRequest c in
  let page (bridger : option Bridger) :=
    let? bridger := available bridger in
    orInternal (bg_GetBridgesPaged bridger pageNumber pageSize depositCountPtr networkIDs (hq_Query c "from_address")) in
  let? (bridges, count) := onNetwork networkID (page (sv_bridgeL1 b)) (page (sv_bridgeL2 b)) in
  ok (BodyBridges (map (NewBridgeResponse networkID) bridges) count).

(** The bridge syncer is tested, the claim syncer is asked. *)
Definition GetClaimsHandler : handler :=
  let? networkID := networkParam c in
  let? networkIDs := valid (parseNetworkIDSliceParam c "network_ids") in
  let? includeAllFields :=
    if String.eqb (hq_Query c "include_all_fields") "" then Ok false else valid (ParseBool (hq_Query c "include_all_fields")) in
  let? (globalIndex, pageNumber, pageSize) := parseGlobalIndexAndSetupRequest c in
  let page (bridger : option Bridger) (claimer : option Claimer) :=
    let? _ := available bridger in
    let? claimer := deref claimer in
    orInternal (cm_GetClaimsPaged claimer pageNumber pageSize networkIDs globalIndex) in
  let? (claims, count) := onNetwork networkID (page (sv_bridgeL1 b) (sv_claimL1 b)) (page (sv_bridgeL2 b) (sv_claimL2 b)) in
  ok (BodyClaims (map (NewClaimResponse networkID includeAllFields) claims) count).

Definition GetUnsetClaimsHandler : handler :=
  let? _ := available (sv_bridgeL2 b) in
  let? (globalIndex, pageNumber, pageSize) := parseGlobalIndexAndSetupRequest c in
  let? claimL2 := deref (sv_claimL2 b) in
  let? (unsetClaims, count) := orInternal (cm_GetUnsetClaimsPaged claimL2 pageNumber pageSize globalIndex) in
  ok (BodyUnsetClaims unsetClaims count).

Definition GetSetClaimsHandler : handler :=
  let? _ := available (sv_bridgeL2 b) in
  let? (globalIndex, pageNumber, pageSize) := parseGlobalIndexAndSetupRequest c in
  let? claimL2 := deref (sv_claimL2 b) in
  let? (setClaims, count) := orInternal (cm_GetSetClaimsPaged claimL2 pageNumber pageSize globalIndex) in
  ok (BodySetClaims setClaims count).

Definition GetTokenMappingsHandler : handler :=
  let? networkID := networkParam c in
  let? (pageNumber, pageSize) := setupRequest c in
  let page (bridger : option Bridger) :=
    let? bridger := available bridger in
    orInternal (bg_GetTokenMappings bridger pageNumber pageSize (hq_Query c "origin_token_address")) in
  let? (mappings, count) := onNetwork networkID (page (sv_bridgeL1 b)) (page (sv_bridgeL2 b)) in
  ok (BodyTokenMappings mappings count).

Definition GetLegacyTokenMigrationsHandler : handler :=
  let? networkID := networkParam c in
  let? (pageNumber, pageSize) := setupRequest c in
  let page (bridger : option Bridger) :=
    let? bridger := available bridger in orInternal (bg_GetLegacyTokenMigrations bridger pageNumber pageSize) in
  let? (migrations, count) := onNetwork networkID (page (sv_bridgeL1 b)) (page (sv_bridgeL2 b)) in
  ok (BodyTokenMigrations migrations count).

(** A missing bridge syncer is an error like any other here.  [None]: more iterations than the fuel. *)
Definition L1InfoTreeIndexForBridgeHandler (fuel : nat) : option handler :=
  match networkParam c with
  | Err r => Some (Err r)
  | Ok networkID =>
      match valid (parseUintQuery c 32 "deposit_count" None) with
      | Err r => Some (Err r)
      | Ok depositCount =>
          let indexOf (bridger : option Bridger) (search : L1InfoTreeSyncer -> Bridger -> option (result svcError Z)) :=
            match bridger with
            | None => Some (Err (failWith StatusInternalServerError))
            | Some bridger =>
                match sv_l1InfoTree b with
                | None => Some (Err panicked)
                | Some l1 => r ← search l1 bridger; Some (let? index := respondSyncerError r in ok (BodyL1InfoTreeIndex index))
                end
            end in
          if networkID =? mainnetNetworkID
          then indexOf (sv_bridgeL1 b) (fun l1 bridger => getFirstL1InfoTreeIndexForL1Bridge l1 bridger fuel depositCount)
          else if networkID =? sv_networkID b
          then indexOf (sv_bridgeL2 b) (fun l1 bridger => getFirstL1InfoTreeIndexForL2Bridge l1 bridger fuel networkID depositCount)
          else Some (Err (failWith StatusBadRequest))
      end
  end.

(** The leaf at an index, with the finality of its block, or the first injected one at or after it. *)
Definition InjectedL1InfoLeafHandler : handler :=
  let? networkID := networkParam c in
  let? l1InfoTreeIndex := valid (parseUintQuery c 32 "leaf_index" None) in
  let? (leaf, leafBlockHash, injected) := onNetwork networkID
    (let? l1 := deref (sv_l1InfoTree b) in
     let? (leaf, hash) := respondSyncerError (lt_GetInfoByIndex l1 l1InfoTreeIndex) in Ok (leaf, hash, None))
    (let? gers := deref (sv_injectedGERs b) in
     let? e := orMissing (lg_GetFirstGERAfterL1InfoTreeIndex gers l1InfoTreeIndex) in
     let? l1 := deref (sv_l1InfoTree b) in
     let? (leaf, hash) := respondSyncerError (lt_GetInfoByIndex l1 (gi_L1InfoTreeIndex e)) in
     Ok (leaf, hash, Some (gi_BlockNum e, gi_Timestamp e, blockFinalized (Some (lg_IsBlockFinalized gers)) (gi_BlockNum e) (gi_BlockHash e)))) in
  let leafFinalized := l1BlockFinalized (il_BlockNumber leaf) leafBlockHash in
  ok (BodyL1InfoTreeLeaf (match injected with
    | None => mkLeafResponse leaf None leafFinalized
    | Some (num, time, injectedFinalized) => mkLeafResponse leaf (Some (num, time)) (andFinalized leafFinalized injectedFinalized)
    end)).

Definition L1InfoTreeLeafByGERHandler : handler :=
  let? networkID := networkParam c in
  let? _ := check (networkID =? mainnetNetworkID) in
  let? ger := hashParam c "global_exit_root" in
  let? l1 := deref (sv_l1InfoTree b) in
  let? leaf := orMissing (lt_GetInfoByGlobalExitRoot l1 ger) in
  ok (BodyL1InfoTreeLeaf (NewL1InfoTreeLeafResponse leaf)).

Definition ClaimProofHandler : handler :=
  let? networkID := networkParam c in
  let? l1InfoTreeIndex := valid (parseUintQuery c 32 "leaf_index" None) in
  let? depositCount := valid (parseUintQuery c 32 "deposit_count" None) in
  let? l1 := deref (sv_l1InfoTree b) in
  let? (info, _) := respondSyncerError (lt_GetInfoByIndex l1 l1InfoTreeIndex) in
  let? proofLocalExitRoot := onNetwork networkID
    (let? bridger := available (sv_bridgeL1 b) in
     respondSyncerError (bg_GetProof bridger depositCount (il_MainnetExitRoot info)))
    (let? localExitRoot := respondSyncerError (lt_GetLocalExitRoot l1 networkID (il_RollupExitRoot info)) in
     let? bridger := available (sv_bridgeL2 b) in
     respondSyncerError (bg_GetProof bridger depositCount localExitRoot)) in
  let? proofRollupExitRoot := respondSyncerError (lt_GetRollupExitTreeMerkleProof l1 networkID (il_RollupExitRoot info)) in
  ok (BodyClaimProof proofLocalExitRoot proofRollupExitRoot (NewL1InfoTreeLeafResponse info)).

Definition GetLastReorgEventHandler : handler :=
  let? networkID := networkParam c in
  let event (bridger : option Bridger) := let? bridger := available bridger in orInternal (bg_GetLastReorgEvent bridger) in
  let? reorgEvent := onNetwork networkID (event (sv_bridgeL1 b)) (event (sv_bridgeL2 b)) in
  ok (BodyReorg reorgEvent).

Definition GetRemoveGEREventsHandler : handler :=
  let? gers := available (sv_injectedGERs b) in
  let s := hq_Query c "global_exit_root" in
  let? globalExitRoot := if String.eqb s "" then Ok None else let? _ := check (isValidHexHash s) in Ok (Some (HexToHash s)) in
  let? limit := valid (parseUintQuery c 32 "limit" (Some DefaultRemoveGERLimit)) in
  let? _ := check (negb (limit =? 0)) in
  let? events := orInternal (lg_GetRemoveGEREvents gers globalExitRoot limit) in
  ok (BodyRemoveGEREvents events).

Definition GetClaimsByGERHandler : handler :=
  let? networkID := networkParam c in
  let? ger := hashParam c "global_exit_root" in
  let claimsOf (claimer : option Claimer) := let? claimer := available claimer in orInternal (cm_GetClaimsByGER claimer ger) in
  let? claims := onNetwork networkID (claimsOf (sv_claimL1 b)) (claimsOf (sv_claimL2 b)) in
  ok (BodyClaims (map (NewClaimResponse networkID false) claims) (Z.of_nat (length claims))).

Definition GetBridgeByDepositCountHandler : handler :=
  let? networkID := networkParam c in
  let? depositCount := valid (parseUintQuery c 32 "deposit_count" None) in
  let bridgeOf (bridger : option Bridger) := let? bridger := available bridger in orMissing (bg_GetBridgeByDepositCount bridger depositCount) in
  let? bridge := onNetwork networkID (bridgeOf (sv_bridgeL1 b)) (bridgeOf (sv_bridgeL2 b)) in
  ok (BodyBridge (NewBridgeResponse networkID bridge)).

(** [leaf_type] is narrowed to eight bits. *)
Definition GetBridgesByContentHandler : handler :=
  let? networkID := networkParam c in
  let? leafType := valid (parseUintQuery c 32 "leaf_type" None) in
  let? _ := check (leafType <=? 255) in
  let? originAddress := addressParam c "origin_address" in
  let? destNetwork := valid (parseUintQuery c 32 "destination_network" None) in
  let? destAddress := addressParam c "destination_address" in
  let? amount := valid (SetString10 (hq_Query c "amount")) in
  let metadataStr := hq_Query c "metadata" in
  let? metadata := if String.eqb metadataStr "" || String.eqb metadataStr "0x" then Ok [] else valid (hexBytes (trim0x metadataStr)) in
  let content (bridger : option Bridger) :=
    let? bridger := available bridger in
    orInternal (bg_GetBridgesByContent bridger leafType originAddress destNetwork destAddress amount metadata) in
  let? bridges := onNetwork networkID (content (sv_bridgeL1 b)) (content (sv_bridgeL2 b)) in
  ok (BodyBridges (map (NewBridgeResponse networkID) bridges) (Z.of_nat (length bridges))).

Definition RootByLERHandler : handler :=
  let? networkID := networkParam c in
  let? ler := hashParam c "ler" in
  let? bridger := onNetwork networkID (available (sv_bridgeL1 b)) (available (sv_bridgeL2 b)) in
  let? (root, hash) := orMissing (bg_GetRootByLER bridger ler) in
  ok (BodyRoot root (blockFinalized (Some (bg_IsBlockFinalized bridger)) (rt_BlockNum root) hash)).

Definition settlementOf (v : VerifyBatches * option Z) : SettlementResponse :=
  mkSettlementResponse (vb_ExitRoot (fst v)) (vb_BlockNumber (fst v)) (vb_BlockTimestamp (fst v)) (vb_TxHash (fst v)) (snd v)
    (l1BlockFinalized (vb_BlockNumber (fst v)) (default 0 (snd v))).

Definition GetSettlementsHandler : handler :=
  let? (pageNumber, pageSize) := setupRequest c in
  let? l1 := available (sv_l1InfoTree b) in
  let? (verified, count) := respondSyncerError (lt_GetVerifiedBatchesPaged l1 (sv_networkID b) pageNumber pageSize) in
  ok (BodySettlements (map settlementOf verified) count).

(** ** Synchronisation status *)

Definition isSyncerHaltedErr (e : svcError) : bool := match e with SErrInconsistentState => true | _ => false end.

(** A query that is only fatal when the syncer halted meanwhile. *)
Definition bestEffort {A} (r : result svcError A) (default : A) : result svcError A :=
  match r with Ok a => Ok a | Err e => if isSyncerHaltedErr e then Err e else Ok default end.

Definition populateNetworkSyncInfo (bridge : Bridger) : result svcError NetworkSyncInfo :=
  let? contractDepositCount := bg_GetContractDepositCount bridge in
  let? (_, bridgesCount) := bg_GetBridgesPaged bridge 1 1 None [] "" in
  let synchronized := wrap32 bridgesCount in
  if contractDepositCount =? synchronized then Ok (mkNetworkSyncInfo true false None contractDepositCount synchronized true 0 0)
  else
    let? lastProcessedBlock := bestEffort (rbind (bg_GetLastProcessedBlock bridge) (fun r => Ok (fst r))) 0 in
    let? networkBlock := bestEffort (bg_GetLatestNetworkBlock bridge) 0 in
    Ok (mkNetworkSyncInfo true false None contractDepositCount synchronized false lastProcessedBlock networkBlock).

Definition haltedNetwork : NetworkSyncInfo := mkNetworkSyncInfo false true None 0 0 false 0 0.

Definition bridgeNetworkSyncInfo (bridge : Bridger) : NetworkSyncInfo :=
  if negb (bg_IsActive bridge) then haltedNetwork
  else match populateNetworkSyncInfo bridge with
       | Ok info => info
       | Err e => if isSyncerHaltedErr e then haltedNetwork else mkNetworkSyncInfo true false (Some e) 0 0 false 0 0
       end.

Definition l2GERSyncInfo (gers : L2GERSyncer) : SyncerSyncInfo :=
  match lg_GetLastProcessedBlock gers with
  | Ok n => mkSyncerSyncInfo true false None n
  | Err e => mkSyncerSyncInfo true false (Some e) 0
  end.

Definition l1InfoTreeSyncInfo (l1 : L1InfoTreeSyncer) : SyncerSyncInfo :=
  if negb (lt_IsActive l1) then mkSyncerSyncInfo false true None 0
  else match lt_GetLastProcessedBlock l1 with
       | Ok n => mkSyncerSyncInfo true false None n
       | Err e => if isSyncerHaltedErr e then mkSyncerSyncInfo false true None 0 else mkSyncerSyncInfo true false (Some e) 0
       end.

Definition claimSyncInfo (claimer : Claimer) : SyncerSyncInfo :=
  match cm_GetLastProcessedBlock claimer with
  | Err e => mkSyncerSyncInfo true false (Some e) 0
  | Ok (n, hasProcessed) => mkSyncerSyncInfo true false None (if hasProcessed : bool then n else 0)
  end.

Definition noNetwork : NetworkSyncInfo := mkNetworkSyncInfo false false None 0 0 false 0 0.

(** The components are computed concurrently and independently of each other. *)
Definition computeSyncStatus : SyncStatus :=
  mkSyncStatus (from_option bridgeNetworkSyncInfo noNetwork (sv_bridgeL1 b)) (from_option bridgeNetworkSyncInfo noNetwork (sv_bridgeL2 b))
    (from_option l2GERSyncInfo (mkSyncerSyncInfo false false None 0) (sv_injectedGERs b))
    (l1InfoTreeSyncInfo <$> sv_l1InfoTree b) (claimSyncInfo <$> sv_claimL1 b) (claimSyncInfo <$> sv_claimL2 b).

Definition GetSyncStatusHandler : handler := ok (BodySyncStatus computeSyncStatus).

(** ** Health *)

Inductive HealthSyncStatus := HealthSyncStatusError | HealthSyncStatusPending | HealthSyncStatusDone.

Record ComponentHealth := mkComponentHealth { hl_IsActive : bool; hl_IsHalted : bool; hl_Error : option svcError; hl_IsSynced : option bool }.

Record HealthCheckDetails := mkHealthCheckDetails {
  hd_L1 : option ComponentHealth;
  hd_L2 : option ComponentHealth;
  hd_L2GER : option ComponentHealth;
  hd_L1InfoTree : option ComponentHealth;
  hd_ClaimL1 : option ComponentHealth;
  hd_ClaimL2 : option ComponentHealth
}.

Definition isFault (isActive isHalted : bool) (error : option svcError) : bool := negb isActive || isHalted || negb (is_nil error).

(** The health, whether it is an error, whether it is pending. *)
Definition componentHealthFromNetworkSyncInfo (info : NetworkSyncInfo) : ComponentHealth * bool * bool :=
  if isFault (ni_IsActive info) (ni_IsHalted info) (ni_Error info)
  then (mkComponentHealth (ni_IsActive info) (ni_IsHalted info) (ni_Error info) None, true, false)
  else (mkComponentHealth (ni_IsActive info) (ni_IsHalted info) None (Some (ni_IsSynced info)), false, negb (ni_IsSynced info)).

(** [componentHealthFromL2GERSyncInfo], [componentHealthFromSyncerSyncInfo]. *)
Definition componentHealthFromSyncerSyncInfo (info : SyncerSyncInfo) : ComponentHealth * bool :=
  (mkComponentHealth (si_IsActive info) (si_IsHalted info) (si_Error info) None,
   isFault (si_IsActive info) (si_IsHalted info) (si_Error info)).

Definition healthFromSyncStatus (s : SyncStatus) (l1Configured l2Configured l2GERConfigured : bool)
  : HealthSyncStatus * HealthCheckDetails :=
  let network (configured : bool) info := if configured then Some (componentHealthFromNetworkSyncInfo info) else None in
  let l1 := network l1Configured (ss_L1Info s) in
  let l2 := network l2Configured (ss_L2Info s) in
  let ger := if l2GERConfigured then Some (componentHealthFromSyncerSyncInfo (ss_L2GERInfo s)) else None in
  let tree := componentHealthFromSyncerSyncInfo <$> ss_L1InfoTreeInfo s in
  let claim1 := componentHealthFromSyncerSyncInfo <$> ss_ClaimL1Info s in
  let claim2 := componentHealthFromSyncerSyncInfo <$> ss_ClaimL2Info s in
  let networks := [l1; l2] in
  let hasError := existsb (from_option (fun h => snd (fst h)) false) networks || existsb (from_option snd false) [ger; tree; claim1; claim2] in
  let hasPending := existsb (from_option snd false) networks in
  (if hasError then HealthSyncStatusError else if hasPending then HealthSyncStatusPending else HealthSyncStatusDone,
   mkHealthCheckDetails ((fun h => fst (fst h)) <$> l1) ((fun h => fst (fst h)) <$> l2) (fst <$> ger) (fst <$> tree) (fst <$> claim1) (fst <$> claim2)).

Definition configured {A} (o : option A) : bool := negb (is_nil o).

Definition buildHealthCheckDetails : HealthSyncStatus * HealthCheckDetails :=
  healthFromSyncStatus computeSyncStatus (configured (sv_bridgeL1 b)) (configured (sv_bridgeL2 b)) (configured (sv_injectedGERs b)).

End Handlers.
