(* ===== verification/BridgeServiceProofs.v ===== *)
(** What the answers of the bridge service mean: the leaf found for a deposit contains it and no earlier block does, the
    searches end, the binary search agrees with the linear one, and the claim proof of the found leaf verifies the deposit
    against the exit roots of the leaf. *)

From Stdlib Require Import Ascii.
From S2P Require Import Prelude Bytes Merkle AgglayerTypes BuildParams Validator Tables TreeTx ClaimStorage L2GerSync L1InfoTree L1InfoTreeSync.
From S2P Require Import BridgeSync BridgeProofs BridgeService BridgeHandlers.

(** ** The first row at or after a block *)

(** [after] answers, for a block, the first row at or after it in the order of positions. *)
Record first_after {A} (block : A -> Z) (before : A -> A -> Prop) (rows : list A) (after : Z -> result svcError A) : Prop := {
  fa_ok : forall n x, after n = Ok x -> x ∈ rows /\ n <= block x /\ forall y, y ∈ rows -> n <= block y -> before x y;
  fa_some : forall n y, y ∈ rows -> n <= block y -> exists x, after n = Ok x
}.

(** The rows carry counts that grow with their positions. *)
Record counted {A} (block : A -> Z) (before : A -> A -> Prop) (rows : list A) (count : A -> Z) : Prop := {
  ct_block : forall x y, before x y -> block x <= block y;
  ct_count : forall x y, x ∈ rows -> y ∈ rows -> before x y -> count x <= count y
}.

(** [x] has a count of at least [d], and either exactly [d] or no row first at its block has one in an earlier block. *)
Definition first_with {A} (block count : A -> Z) (after : Z -> result svcError A) (low d : Z) (x : A) : Prop :=
  d <= count x /\ (count x = d \/ forall n y, low <= n -> after n = Ok y -> d <= count y -> block x <= block y).

Lemma halved low high : low <= high -> let t := low + (high - low) / 2 in low <= t <= high /\ 2 * (high - t) <= high - low + 1 /\ 2 * (t - low) <= high - low.
Proof.
  intros H. cbn zeta. assert (0 <= (high - low) / 2) by (apply Z.div_pos; lia).
  assert ((high - low) = 2 * ((high - low) / 2) + (high - low) mod 2) by (apply Z.div_mod; lia).
  assert (0 <= (high - low) mod 2 < 2) by (apply Z.mod_pos_bound; lia). lia.
Qed.

Lemma target_small low high : 0 <= low -> low <= high -> is_u64 high ->
  low +u64 (high -u64 low) / binarySearchDivider = low + (high - low) / 2.
Proof.
  intros H0 H1 H2. unfold binarySearchDivider. destruct (halved low high H1) as (Ht & _).
  assert (high -u64 low = high - low) as E by (apply sub64_small; unfold_words; lia). rewrite E. apply add64_small.
  unfold_words. lia.
Qed.

Section L1Search.
Context (l1 : L1InfoTreeSyncer) (b : Bridger) (leaves : list L1InfoLeaf) (before : L1InfoLeaf -> L1InfoLeaf -> Prop) (count : L1InfoLeaf -> Z).
Context (Hafter : first_after il_BlockNumber before leaves (lt_GetFirstInfoAfterBlock l1)).
Context (Hcount : counted il_BlockNumber before leaves count).
Context (high0 : Z) (Hroots : forall l, l ∈ leaves -> il_BlockNumber l <= high0 ->
  exists root hash, bg_GetRootByLER b (il_MainnetExitRoot l) = Ok (root, hash) /\ rt_Index root = count l).

(** What the iterations keep. *)
Definition l1_bounds (last : L1InfoLeaf) (d low0 low high : Z) (best : L1InfoLeaf) : Prop :=
  best ∈ leaves /\ d <= count best /\
  (forall n x, low0 <= n < low -> lt_GetFirstInfoAfterBlock l1 n = Ok x -> count x < d) /\
  (high = high0 /\ best = last \/ high < high0 /\ lt_GetFirstInfoAfterBlock l1 (high + 1) = Ok best).

Lemma after_mono n m x y :
  n <= m -> lt_GetFirstInfoAfterBlock l1 n = Ok x -> lt_GetFirstInfoAfterBlock l1 m = Ok y -> x ∈ leaves /\ y ∈ leaves /\ before x y.
Proof.
  intros Hnm Hx Hy. apply (fa_ok _ _ _ _ Hafter) in Hx as (Hx & _ & Hb). apply (fa_ok _ _ _ _ Hafter) in Hy as (Hy & Hm & _).
  split; [done|]. split; [done|]. apply Hb; [done | lia].
Qed.

Lemma l1BridgeSearch_spec k : forall fuel last d low0 low high best,
  (k < fuel)%nat -> high - low + 1 < 2 ^ Z.of_nat k -> 0 < low0 <= low -> low <= high + 1 -> high <= high0 -> is_u64 (high0 + 1) ->
  last ∈ leaves -> il_BlockNumber last = high0 -> l1_bounds last d low0 low high best ->
  exists r, l1BridgeSearch l1 b fuel d low high best = Some (Ok r) /\ r ∈ leaves /\
    first_with il_BlockNumber count (lt_GetFirstInfoAfterBlock l1) low0 d r.
Proof.
  induction k as [|k IH]; intros fuel last d low0 low high best Hf Hsize H0 Hlh Hh Hu Hlast Hlb (Hbest & Hbd & Hlow & Hhigh);
    (destruct fuel as [|fuel]; [lia|]); cbn [l1BridgeSearch].
  all: destruct (Z.ltb_spec high low) as [Hend|Hgo].
  1, 3: exists best; split; [done|]; split; [done|]; split; [done|]; right; intros n y Hn Hy Hdy;
    destruct (Z_lt_le_dec n low) as [Hnl|Hnl]; [exfalso; specialize (Hlow n y ltac:(lia) Hy); lia|];
    destruct Hhigh as [[-> ->]|[_ Hab]];
    [ apply (fa_ok _ _ _ _ Hafter) in Hy as (_ & Hny & _); lia
    | assert (high + 1 = low) as Ehl by lia; rewrite Ehl in Hab;
      apply (ct_block _ _ _ _ Hcount), (after_mono low n best y Hnl Hab Hy) ].
  1: change (2 ^ Z.of_nat 0) with 1 in Hsize; lia.
  rewrite target_small by (try done; unfold is_u64 in *; lia). destruct (halved low high Hgo) as (Ht & Hup & Hdown). cbn zeta in *.
  set (t := low + (high - low) / 2) in *.
  destruct (fa_some _ _ _ _ Hafter t last Hlast ltac:(lia)) as (x & Hx). rewrite Hx.
  destruct (fa_ok _ _ _ _ Hafter t x Hx) as (Hxin & Hxt & Hxb).
  assert (il_BlockNumber x <= high0) as Hxh by (rewrite <- Hlb; apply (ct_block _ _ _ _ Hcount), Hxb; [done | lia]).
  destruct (Hroots x Hxin Hxh) as (root & hash & -> & Hidx). rewrite Hidx.
  assert (2 ^ Z.of_nat (S k) = 2 * 2 ^ Z.of_nat k) as Epow by (rewrite Nat2Z.inj_succ, Z.pow_succ_r; lia).
  destruct (Z.ltb_spec (count x) d) as [Hlt|Hge].
  - rewrite add64_small by (unfold_words; lia). apply (IH fuel last d low0 (t + 1) high best); try done; try lia.
    split; [done|]. split; [done|]. split; [|done]. intros n y Hn Hy. destruct (Z_lt_le_dec n low) as [Hnl|Hnl]; [apply (Hlow n y); [lia | done]|].
    destruct (after_mono n t y x ltac:(lia) Hy Hx) as (Hyin & _ & Hyx). pose proof (ct_count _ _ _ _ Hcount y x Hyin Hxin Hyx). lia.
  - destruct (Z.eqb_spec (count x) d) as [Heq|Hne].
    + exists x. split; [done|]. split; [done|]. split; [lia|]. by left.
    + rewrite sub64_small by (unfold_words; lia). apply (IH fuel last d low0 low (t - 1) x); try done; try lia.
      split; [done|]. split; [lia|]. split; [done|]. right. split; [lia|]. by replace (t - 1 + 1) with t by lia.
Qed.

(** The iterations never exceed the bits of a block number. *)
Lemma getFirst_L1_spec last first root hash d fuel :
  lt_GetLastInfo l1 = Ok last -> lt_GetFirstInfo l1 = Ok first -> last ∈ leaves -> first ∈ leaves -> before first last ->
  il_BlockNumber last = high0 -> 0 < il_BlockNumber first -> is_u64 (high0 + 1) -> (65 < fuel)%nat ->
  bg_GetRootByLER b (il_MainnetExitRoot last) = Ok (root, hash) -> rt_Index root = count last ->
  if count last <? d then getFirstL1InfoTreeIndexForL1Bridge l1 b fuel d = Some (Err SErrNotOnL1Info)
  else exists r, getFirstL1InfoTreeIndexForL1Bridge l1 b fuel d = Some (Ok (il_L1InfoTreeIndex r)) /\ r ∈ leaves /\
         first_with il_BlockNumber count (lt_GetFirstInfoAfterBlock l1) (il_BlockNumber first) d r.
Proof.
  intros HL HF Hlast Hfirst Hfl Eh H0 Hu Hfuel Hr Hidx. unfold getFirstL1InfoTreeIndexForL1Bridge, l1SearchBound.
  rewrite HL. cbn [rbind]. rewrite Hr, Hidx. destruct (Z.ltb_spec (count last) d) as [|Hd]; [done|]. rewrite HF, Eh.
  pose proof (ct_block _ _ _ _ Hcount _ _ Hfl) as Hb.
  destruct (l1BridgeSearch_spec 65 fuel last d (il_BlockNumber first) (il_BlockNumber first) high0 last) as (r & -> & Hin & Hw);
    try done; try lia.
  - change (2 ^ Z.of_nat 65) with (2 * pow2_64). unfold_words. lia.
  - split; [done|]. split; [done|]. split; [intros n x Hn; lia | by left].
  - by exists r.
Qed.

End L1Search.

(** ** The service over the syncers *)

Definition fromL1 {A} (r : result l1Error A) : result svcError A :=
  match r with
  | Ok a => Ok a
  | Err e => Err (match e with
      | L1InfoTree.ErrNoRows | L1InfoTree.ErrTree Merkle.ErrNotFound => SErrNotFound
      | L1InfoTree.ErrInconsistent => SErrInconsistentState
      | ErrNoBlock0 => SErrNoBlock0
      | ErrBlockNotProcessed => SErrBlockNotProcessed
      | _ => SErrOther
      end)
  end.

(** [translateError]. *)
Definition translated {A} (r : result svcError A) : result svcError A :=
  match r with Err SErrNotFound => Err SErrL1NotFound | r => r end.

Definition fromB {A} (r : result bError A) : result svcError A :=
  match r with
  | Ok a => Ok a
  | Err e => Err (match e with
      | ErrNoRows | ErrTree Merkle.ErrNotFound => SErrNotFound
      | ErrInconsistent => SErrInconsistentState
      | _ => SErrOther
      end)
  end.

Section Instances.
Context `{Kc : Keccak}.

Definition l1_of (p : L1InfoTree.processor) (final : finality) : L1InfoTreeSyncer := {|
  lt_GetInfoByIndex := fun i => fromL1 (L1InfoTreeSync.s_GetInfoByIndex p i);
  lt_GetInfoByGlobalExitRoot := fun g => fromL1 (L1InfoTreeSync.s_GetInfoByGlobalExitRoot p g);
  lt_GetRollupExitTreeMerkleProof := fun n r => fromL1 (L1InfoTreeSync.s_GetRollupExitTreeMerkleProof p n r);
  lt_GetLocalExitRoot := fun n r => fromL1 (L1InfoTreeSync.s_GetLocalExitRoot p n r);
  lt_GetLastInfo := fromL1 (L1InfoTreeSync.s_GetLastInfo p);
  lt_GetFirstInfo := fromL1 (L1InfoTreeSync.s_GetFirstInfo p);
  lt_GetFirstInfoAfterBlock := fun n => fromL1 (L1InfoTreeSync.s_GetFirstInfoAfterBlock p n);
  lt_GetLatestL1InfoLeafUntilBlock := fun n => translated (fromL1 (L1InfoTreeSync.s_GetLatestL1InfoLeafUntilBlock p n));
  lt_GetLastVerifiedBatches := fun n => fromL1 (L1InfoTreeSync.s_GetLastVerifiedBatches p n);
  lt_GetFirstVerifiedBatches := fun n => fromL1 (L1InfoTreeSync.s_GetFirstVerifiedBatches p n);
  lt_GetFirstVerifiedBatchesAfterBlock := fun n blk => fromL1 (L1InfoTreeSync.s_GetFirstVerifiedBatchesAfterBlock p n blk);
  lt_GetFirstL1InfoWithRollupExitRoot := fun r => fromL1 (L1InfoTreeSync.s_GetFirstL1InfoWithRollupExitRoot p r);
  lt_GetVerifiedBatchesPaged := fun n pg sz => fromL1 (L1InfoTreeSync.s_GetVerifiedBatchesPaged p n pg sz);
  lt_IsActive := L1InfoTreeSync.s_IsActive p;
  lt_GetLastProcessedBlock := fromL1 (L1InfoTreeSync.s_GetLastProcessedBlock p);
  lt_IsBlockFinalized := final
|}.

(** [addr]: how an address is read from the text of a filter; [deposits], [head], [reorg]: what the node and the reorg
    detector answer. *)
Definition bridger_of (p : BridgeSync.processor) (addr : string -> option Z) (deposits : result bError Z) (head : result svcError Z)
    (reorg : result svcError (Z * Z * Z)) (final : finality) : Bridger := {|
  bg_GetProof := fun d root => fromB (s_GetProof p d root);
  bg_GetRootByLER := fun ler => fromB (s_GetRootByLER p ler);
  bg_GetLastRoot := fromB (s_GetLastRoot p);
  bg_GetBridgesPaged := fun pg sz d ids from => fromB (s_GetBridgesPaged p pg sz d ids (addr from));
  bg_GetTokenMappings := fun pg sz origin => fromB (s_GetTokenMappings p pg sz (addr origin));
  bg_GetLegacyTokenMigrations := fun pg sz => fromB (s_GetLegacyTokenMigrations p pg sz);
  bg_GetLastReorgEvent := reorg;
  bg_GetContractDepositCount := fromB (s_GetContractDepositCount p deposits);
  bg_GetLastProcessedBlock := let? n := fromB (s_GetLastProcessedBlock p) in Ok (default 0 n, negb (is_nil n));
  bg_GetLatestNetworkBlock := head;
  bg_IsBlockFinalized := final;
  bg_IsActive := s_IsActive p;
  bg_GetBridgeByDepositCount := fun d => fromB (ifActive p (GetBridgeByDepositCount p d));
  bg_GetBridgesByContent := fun lt oa dn da amt md => fromB (ifActive p (Ok (GetBridgesByContent p lt oa dn da (Some amt) md)))
|}.

End Instances.

(** ** The queries answer first rows *)

Lemma elem_of_bfilter {A} (q : A -> bool) l x : x ∈ bfilter q l <-> x ∈ l /\ q x = true.
Proof. rewrite !list_elem_of_In. apply bfilter_In. Qed.

Section Tables.
Context `{Kc : Keccak} (p : L1InfoTree.processor) (final : finality).

Lemma l1_first_after : p_halted p = false ->
  first_after il_BlockNumber (pos_le leaf_pos) (l1info_leaf (p_db p)) (lt_GetFirstInfoAfterBlock (l1_of p final)).
Proof.
  intros Hh. cbn [l1_of lt_GetFirstInfoAfterBlock]. unfold L1InfoTreeSync.s_GetFirstInfoAfterBlock, L1InfoTreeSync.ifActive. rewrite Hh.
  unfold GetFirstInfoAfterBlock. split.
  - intros n x. destruct (earliest _ _) as [y|] eqn:E; [|done]. intros [= <-]. apply earliest_spec in E as [Hy Hmin].
    apply elem_of_bfilter in Hy as [Hy Hn]. bool_hyps. split; [done|]. split; [done|]. intros z Hz Hnz. apply Hmin, elem_of_bfilter.
    split; [done|]. by apply Z.leb_le.
  - intros n y Hy Hn. destruct (firstBy_some (fun a b => pos_ltb (leaf_pos a) (leaf_pos b))
      (bfilter (fun l => n <=? il_BlockNumber l) (l1info_leaf (p_db p))) y) as (x & Hx).
    { apply elem_of_bfilter. split; [done|]. by apply Z.leb_le. }
    exists x. unfold earliest. by rewrite Hx.
Qed.

End Tables.

(** ** From a deposit to its proof *)

Section Claim.
Context `{Kc : Keccak} (p1 : L1InfoTree.processor) (p2 : BridgeSync.processor).
Context (f1 f2 : finality) (addr : string -> option Z) (deposits : result bError Z) (head : result svcError Z) (reorg : result svcError (Z * Z * Z)).

Abbreviation leaves := (l1info_leaf (p_db p1)).
Abbreviation l1 := (l1_of p1 f1).
Abbreviation bridger := (bridger_of p2 addr deposits head reorg f2).

(** The index of the last deposit under the mainnet exit root of a leaf. *)
Definition exit_count (l : L1InfoLeaf) : Z :=
  match GetRootByHash (p_treeDB (bp_proc p2)) (il_MainnetExitRoot l) with Ok r => rt_Index r | Err _ => -1 end.

(** The bridge syncer has the exit root of every leaf, and the deposits grow along the tree, as on the chain. *)
Record exits_known : Prop := {
  ek_known : forall l, l ∈ leaves -> exists r, GetRootByHash (p_treeDB (bp_proc p2)) (il_MainnetExitRoot l) = Ok r;
  ek_grows : forall x y, x ∈ leaves -> y ∈ leaves -> pos_le leaf_pos x y -> exit_count x <= exit_count y
}.

Context (Hh1 : p_halted p1 = false) (Hh2 : p_halted (bp_proc p2) = false).

Lemma root_by_ler l r : GetRootByHash (p_treeDB (bp_proc p2)) (il_MainnetExitRoot l) = Ok r ->
  bg_GetRootByLER bridger (il_MainnetExitRoot l) = Ok (r, default 0 (b_getBlockHash p2 (rt_BlockNum r))) /\ rt_Index r = exit_count l.
Proof.
  intros H. cbn [bg_GetRootByLER bridger_of]. unfold s_GetRootByLER, ifActive. rewrite Hh2. unfold getExitTreeRootByHash.
  unfold exit_count. rewrite H. done.
Qed.

Lemma GetRootByHash_row db hash r : GetRootByHash db hash = Ok r -> exists m, db_root db !! m = Some r /\ rt_Hash r = hash.
Proof.
  unfold GetRootByHash. destruct (List.find _ _) as [r'|] eqn:E; [|done]. intros [= <-]. apply List.find_some in E as [Hin He].
  apply list_elem_of_In, list_elem_of_lookup in Hin as [m Hm]. exists m. split; [done|]. by apply Z.eqb_eq.
Qed.

(** The proof of a deposit against an exit root that covers it. *)
Lemma deposit_proof d row hash r :
  bp_inv p2 -> BridgeSync.bridge (p_db (bp_proc p2)) !! d = Some row ->
  GetRootByHash (p_treeDB (bp_proc p2)) hash = Ok r -> Z.of_nat d <= rt_Index r ->
  exists proof, bg_GetProof bridger (Z.of_nat d) hash = Ok proof /\ VerifyProof (row_Hash row) proof (Z.of_nat d) hash = true.
Proof.
  intros Hinv Hrow Hr Hd. apply GetRootByHash_row in Hr as (m & Hm & <-).
  pose proof (bi_tree _ _ _ Hinv) as Ht. destruct (di_rows _ _ (ai_db _ _ _ Ht) m r Hm) as [Hi Hhash].
  assert (S m <= length (map row_Hash (BridgeSync.bridge (p_db (bp_proc p2)))))%nat as Hlen.
  { rewrite <- (di_length _ _ (ai_db _ _ _ Ht)). apply lookup_lt_Some in Hm. lia. }
  destruct (GetProof_run _ _ _ (S m) d (row_Hash row) Ht Hlen) as (_ & proof & Hp & _ & Hv).
  { apply lookup_take_Some. split; [|lia]. change (map row_Hash) with (fmap row_Hash (M := list)). by rewrite list_lookup_fmap, Hrow. }
  rewrite <- Hhash in Hp, Hv. exists proof. split; [|done]. cbn [bg_GetProof bridger_of]. unfold s_GetProof, ifActive.
  by rewrite Hh2, Hp.
Qed.

Lemma info_by_index l : p_inv p1 -> l ∈ leaves ->
  lt_GetInfoByIndex l1 (il_L1InfoTreeIndex l) = Ok (l, default 0 (L1InfoTree.getBlockHash p1 (il_BlockNumber l))).
Proof.
  intros Hinv Hl. apply list_elem_of_lookup in Hl as [k Hk]. cbn [lt_GetInfoByIndex l1_of].
  unfold L1InfoTreeSync.s_GetInfoByIndex, L1InfoTreeSync.ifActive. rewrite Hh1. unfold getInfoByIndexWithBlockHash, GetInfoByIndex.
  rewrite (find_unique il_L1InfoTreeIndex _ k l); [done | | done].
  apply NoDup_alt. intros i j x Hi Hj. change (map il_L1InfoTreeIndex) with (fmap il_L1InfoTreeIndex (M := list)) in Hi, Hj.
  apply list_lookup_fmap_Some in Hi as (a & Ea & Hi), Hj as (a' & Eb & Hj).
  pose proof (iv_index _ _ _ Hinv _ _ Hi). pose proof (iv_index _ _ _ Hinv _ _ Hj). lia.
Qed.

Lemma l1_counted : exits_known -> counted il_BlockNumber (pos_le leaf_pos) leaves exit_count.
Proof. intros [_ H]. split; [intros x y Hxy; apply (pos_le_block leaf_pos x y Hxy) | done]. Qed.

(** C10. A deposit of L1 that is under the exit root of some leaf of the L1 info tree, when the syncers are not
    halted and correspond to their trees, and the bridge syncer knows the exit root of every leaf and these grow:
    the index found for it is that of a leaf that contains it, the claim proof served for that index proves the
    deposit against the mainnet exit root of that leaf, and unless that exit root ends exactly at the deposit, no
    leaf that is the first of an earlier block contains it. A later leaf of an earlier block may: the search only
    sees the first leaf of each block, so the index is not always the smallest ([later_leaf_of_block_not_seen]). *)
Theorem found_leaf_proves_deposit b c d row l fuel :
  p_inv p1 -> bp_inv p2 -> exits_known ->
  (forall x, x ∈ leaves -> 0 < il_BlockNumber x /\ is_u64 (il_BlockNumber x + 1)) -> (65 < fuel)%nat ->
  BridgeSync.bridge (p_db (bp_proc p2)) !! d = Some row -> l ∈ leaves -> Z.of_nat d <= exit_count l ->
  sv_l1InfoTree b = Some l1 -> sv_bridgeL1 b = Some bridger -> networkParam c = Ok 0 ->
  parseUintQuery c 32 "deposit_count" None = Some (Z.of_nat d) ->
  exists r first, L1InfoTreeIndexForBridgeHandler b c fuel = Some (ok (BodyL1InfoTreeIndex (il_L1InfoTreeIndex r))) /\ r ∈ leaves /\
    GetFirstInfo p1 = Ok first /\
    first_with il_BlockNumber exit_count (lt_GetFirstInfoAfterBlock l1) (il_BlockNumber first) (Z.of_nat d) r /\
    (parseUintQuery c 32 "leaf_index" None = Some (il_L1InfoTreeIndex r) ->
     exists proof, ClaimProofHandler b c = ok (BodyClaimProof proof (repeat 0 DefaultHeight) (NewL1InfoTreeLeafResponse r)) /\
       VerifyProof (row_Hash row) proof (Z.of_nat d) (il_MainnetExitRoot r) = true).
Proof.
  intros Hinv1 Hinv2 Hek Hblk Hfuel Hrow Hl Hd Hb1 Hb2 Hnet Hdep. pose proof (l1_counted Hek) as Hcount.
  destruct (firstBy_some (fun a b => pos_ltb (leaf_pos b) (leaf_pos a)) leaves l Hl) as (last & Hlast).
  destruct (firstBy_some (fun a b => pos_ltb (leaf_pos a) (leaf_pos b)) leaves l Hl) as (first & Hfirst).
  destruct (latest_spec leaf_pos _ _ Hlast) as [Hlin Hlmax]. destruct (earliest_spec leaf_pos _ _ Hfirst) as [Hfin Hfmin].
  destruct (ek_known Hek last Hlin) as (rl & Hrl). destruct (root_by_ler last rl Hrl) as [Hrl1 Hrl2].
  pose proof (getFirst_L1_spec l1 bridger leaves (pos_le leaf_pos) exit_count (l1_first_after p1 f1 Hh1) Hcount
    (il_BlockNumber last)) as Hspec.
  assert (forall x, x ∈ leaves -> il_BlockNumber x <= il_BlockNumber last -> exists root hash,
    bg_GetRootByLER bridger (il_MainnetExitRoot x) = Ok (root, hash) /\ rt_Index root = exit_count x) as Hroots.
  { intros x Hx _. destruct (ek_known Hek x Hx) as (rx & Hrx). destruct (root_by_ler x rx Hrx) as [E1 E2]. eauto. }
  specialize (Hspec Hroots last first rl (default 0 (b_getBlockHash p2 (rt_BlockNum rl))) (Z.of_nat d) fuel).
  rewrite (proj2 (Z.ltb_ge _ _)) in Hspec by (pose proof (ek_grows Hek l last Hl Hlin (Hlmax l Hl)); lia).
  destruct Hspec as (r & Hr & Hrin & Hw); try done.
  - cbn [lt_GetLastInfo l1_of]. unfold L1InfoTreeSync.s_GetLastInfo, L1InfoTreeSync.ifActive, GetLastInfo, latest. by rewrite Hh1, Hlast.
  - cbn [lt_GetFirstInfo l1_of]. unfold L1InfoTreeSync.s_GetFirstInfo, L1InfoTreeSync.ifActive, GetFirstInfo, earliest. by rewrite Hh1, Hfirst.
  - by apply Hfmin.
  - by apply Hblk.
  - by apply Hblk.
  - exists r, first. split.
    { unfold L1InfoTreeIndexForBridgeHandler. rewrite Hnet, Hdep, Hb1, Hb2. cbn [valid]. change (0 =? mainnetNetworkID) with true.
      cbv iota beta. by rewrite Hr. }
    split; [done|]. split; [unfold GetFirstInfo, earliest; by rewrite Hfirst|]. split; [done|].
    intros Hidx. destruct (ek_known Hek r Hrin) as (rr & Hrr). destruct Hw as [Hdr _].
    destruct (root_by_ler r rr Hrr) as [_ Hri]. destruct (deposit_proof d row _ rr Hinv2 Hrow Hrr ltac:(lia)) as (proof & Hp & Hv).
    exists proof. split; [|done]. unfold ClaimProofHandler. rewrite Hnet. cbn [rbind]. rewrite Hidx, Hdep. cbn [valid rbind].
    rewrite Hb1. cbn [deref rbind]. rewrite (info_by_index r Hinv1 Hrin). cbn [respondSyncerError rbind].
    unfold onNetwork. change (0 =? mainnetNetworkID) with true. cbv iota. rewrite Hb2. cbn [available rbind]. rewrite Hp.
    cbn [respondSyncerError rbind lt_GetRollupExitTreeMerkleProof l1_of].
    unfold L1InfoTreeSync.s_GetRollupExitTreeMerkleProof, L1InfoTreeSync.ifActive. rewrite Hh1. done.
Qed.

End Claim.

(** ** Examples *)

#[local] Existing Instance toy_keccak.

Definition no_finality : finality := fun _ _ => Ok (false, false).
Definition example_bridger (p : BridgeSync.processor) : Bridger := bridger_of p (fun _ => None) (Ok 0) (Ok 10) (Err SErrNotFound) no_finality.

(** One deposit, and a leaf of the L1 info tree with its exit root. *)
Definition example_update : UpdateL1InfoTree := mkUpdateL1InfoTree 0 (example_ler [10]) 2 3 4.
Definition example_info_block : SyncDriver.Block L1InfoTree.Event := SyncDriver.mkBlock 5 [update_event example_update] 55.
Definition example_info : L1InfoTree.processor := fst (l1_ProcessBlock example_info_block L1InfoTree.newProcessor).
Definition example_info_leaf : L1InfoLeaf := Eval vm_compute in leaf_of 5 0 example_update.

Lemma example_info_inv : p_inv example_info.
Proof.
  assert (events_ok 5 0 (SyncDriver.bk_Events example_info_block) (L1InfoTree.with_block example_info_block L1InfoTree.newProcessor)) as Hok.
  { split; [|done]. split; [apply put_okb_sound; vm_compute; reflexivity | apply not_elem_of_nil]. }
  assert (only_updates (SyncDriver.bk_Events example_info_block)) as Hu by repeat constructor.
  pose proof (ProcessBlock_run example_info_block L1InfoTree.newProcessor newProcessor_inv eq_refl (not_elem_of_nil 5) Hu Hok) as H.
  unfold example_info. destruct (l1_ProcessBlock example_info_block L1InfoTree.newProcessor) as [p' r] eqn:E. destruct H as [Hiff Hp].
  apply Hp, Hiff. done.
Qed.

Lemma example_info_leaves : l1info_leaf (p_db example_info) = [example_info_leaf].
Proof. vm_compute. reflexivity. Qed.

Lemma example_exits_known : exits_known example_info example_c1.
Proof.
  split; rewrite example_info_leaves.
  - intros l ->%list_elem_of_singleton. eexists. vm_compute. reflexivity.
  - intros x y ->%list_elem_of_singleton ->%list_elem_of_singleton _. done.
Qed.

Definition example_service : BridgeService :=
  mkBridgeService 1 (Some (l1_of example_info no_finality)) None (Some (example_bridger example_c1)) None None None 0.

Definition example_http (kvs : list (string * string)) : HttpRequest :=
  mkHttpRequest (fun k => match List.find (fun p => String.eqb (fst p) k) kvs with Some p => snd p | None => "" end) (fun _ => []).

Definition example_claim_request : HttpRequest :=
  example_http [("network_id", "0"); ("deposit_count", "0"); ("leaf_index", "0")]%string.

Lemma found_leaf_proves_deposit_witness :
  exists r first, L1InfoTreeIndexForBridgeHandler example_service example_claim_request 66 = Some (ok (BodyL1InfoTreeIndex (il_L1InfoTreeIndex r))) /\
    r ∈ l1info_leaf (p_db example_info) /\ GetFirstInfo example_info = Ok first /\
    first_with il_BlockNumber (exit_count example_c1) (lt_GetFirstInfoAfterBlock (l1_of example_info no_finality)) (il_BlockNumber first) (Z.of_nat 0) r /\
    (parseUintQuery example_claim_request 32 "leaf_index" None = Some (il_L1InfoTreeIndex r) ->
     exists proof, ClaimProofHandler example_service example_claim_request =
         ok (BodyClaimProof proof (repeat 0 DefaultHeight) (NewL1InfoTreeLeafResponse r)) /\
       VerifyProof (row_Hash (example_row 1 0 0 10)) proof (Z.of_nat 0) (il_MainnetExitRoot r) = true).
Proof.
  refine (found_leaf_proves_deposit example_info example_c1 no_finality no_finality (fun _ => None) (Ok 0) (Ok 10) (Err SErrNotFound)
    eq_refl eq_refl example_service example_claim_request 0 (example_row 1 0 0 10) example_info_leaf 66
    example_info_inv example_c1_inv example_exits_known _ _ _ _ _ eq_refl eq_refl eq_refl _).
  - rewrite example_info_leaves. intros x ->%list_elem_of_singleton. split; [vm_compute; reflexivity | split; vm_compute; congruence].
  - lia.
  - rewrite example_c1_rows. reflexivity.
  - rewrite example_info_leaves. by apply list_elem_of_singleton.
  - vm_compute. congruence.
  - reflexivity.
Defined.

(** Block 5 has a leaf with the first deposit and one with the first two, block 6 one with three: the index answered for the
    second deposit is that of the leaf of block 6, although the second leaf of block 5 contains it. *)
Definition example_blocks_info : L1InfoTree.processor :=
  fst (l1_ProcessBlock (SyncDriver.mkBlock 6 [update_event (mkUpdateL1InfoTree 0 (example_ler [10; 11; 12]) 2 3 4)] 66)
    (fst (l1_ProcessBlock (SyncDriver.mkBlock 5 [update_event (mkUpdateL1InfoTree 0 (example_ler [10]) 2 3 4);
      update_event (mkUpdateL1InfoTree 1 (example_ler [10; 11]) 2 3 4)] 55) L1InfoTree.newProcessor))).

Example later_leaf_of_block_not_seen :
  map (fun l => (il_L1InfoTreeIndex l, il_BlockNumber l, exit_count example_b1 l)) (l1info_leaf (p_db example_blocks_info)) =
    [(0, 5, 0); (1, 5, 1); (2, 6, 2)] /\
  L1InfoTreeIndexForBridgeHandler
    (mkBridgeService 1 (Some (l1_of example_blocks_info no_finality)) None (Some (example_bridger example_b1)) None None None 0)
    (example_http [("network_id", "0"); ("deposit_count", "1")]%string) 66 = Some (ok (BodyL1InfoTreeIndex 2)).
Proof. split; vm_compute; reflexivity. Qed.

(** ** Deposits the service cannot know *)

(** The exit root of the last leaf is not indexed by the bridge syncer, which has two deposits of the same block; the exit root
    of the leaf before contains only the first.  The second deposit is answered with that leaf, whose exit root does not
    contain it. *)
Definition example_two : list BridgeRow := [example_row 4 0 0 10; example_row 5 0 1 11].
Definition example_lagging : BridgeSync.processor :=
  fst (example_process (SyncDriver.mkBlock 5 [bridge_event (example_row 5 0 1 11)] 105)
    (fst (example_process (SyncDriver.mkBlock 4 [bridge_event (example_row 4 0 0 10)] 104) newBridgeProcessor))).
Definition example_ahead : L1InfoTree.processor :=
  fst (l1_ProcessBlock (SyncDriver.mkBlock 6 [update_event (mkUpdateL1InfoTree 0 77 2 3 6)] 66) example_info).

Example fallback_finds_leaf_without_deposit :
  getFirstL1InfoTreeIndexForL1Bridge (l1_of example_ahead no_finality) (example_bridger example_lagging) 66 1 = Some (Ok 0) /\
  map il_L1InfoTreeIndex (l1info_leaf (p_db example_ahead)) = [0; 1] /\
  map (exit_count example_lagging) (l1info_leaf (p_db example_ahead)) = [0; -1].
Proof. vm_compute. split_and!; reflexivity. Qed.

(** A deposit count that was never seen is answered with a proof and status 200. *)
Theorem unknown_deposit_gets_a_proof `{Kc : Keccak} b l1 p1 p2 addr deposits head reorg f2 c d index info hash :
  sv_l1InfoTree b = Some l1 -> sv_bridgeL1 b = Some (bridger_of p2 addr deposits head reorg f2) -> p_halted (bp_proc p2) = false ->
  l1 = l1_of p1 f2 -> p_halted p1 = false ->
  networkParam c = Ok 0 -> parseUintQuery c 32 "leaf_index" None = Some index -> parseUintQuery c 32 "deposit_count" None = Some d ->
  lt_GetInfoByIndex l1 index = Ok (info, hash) ->
  exists proof, ClaimProofHandler b c = ok (BodyClaimProof proof (repeat 0 DefaultHeight) (NewL1InfoTreeLeafResponse info)).
Proof.
  intros H1 H2 Hh -> Hh1 Hn Hi Hd Hinfo. unfold ClaimProofHandler. rewrite Hn. cbn [rbind]. rewrite Hi, Hd. cbn [valid rbind].
  rewrite H1. cbn [deref rbind]. rewrite Hinfo. cbn [respondSyncerError rbind]. unfold onNetwork.
  change (0 =? mainnetNetworkID) with true. cbv iota. rewrite H2. cbn [available rbind bg_GetProof bridger_of].
  unfold s_GetProof, ifActive. rewrite Hh. cbn [GetProof BridgeSync.fromTree fromB respondSyncerError rbind].
  cbn [lt_GetRollupExitTreeMerkleProof l1_of]. unfold L1InfoTreeSync.s_GetRollupExitTreeMerkleProof, L1InfoTreeSync.ifActive. rewrite Hh1.
  eexists. reflexivity.
Qed.

Example unknown_deposit_proof_is_wrong :
  let c := example_http [("network_id", "0"); ("deposit_count", "9"); ("leaf_index", "0")]%string in
  match rs_body (answer (ClaimProofHandler example_service c)) with
  | BodyClaimProof proof _ leaf => VerifyProof (row_Hash (example_row 1 0 0 10)) proof 9 (il_MainnetExitRoot (lr_Leaf leaf)) = false
  | _ => False
  end.
Proof. vm_compute. reflexivity. Qed.
