(* ===== verification/BridgeServiceL2.v ===== *)
(** The search of the bridge service for a deposit of this network ([bridgeservice/bridge.go]): the binary search over the
    verifications ends, where it agrees with the linear one and where not, and the claim proof of the leaf it leads to proves the deposit against a
    local exit root and that root against the rollup exit root of the leaf. *)

From Stdlib Require Import Ascii.
From S2P Require Import Prelude Bytes Merkle AgglayerTypes BuildParams Validator Tables TreeTx ClaimStorage L2GerSync L1InfoTree L1InfoTreeSync.
From S2P Require Import BridgeSync BridgeProofs BridgeService BridgeHandlers BridgeServiceProofs.

(** ** A leaf that can be read can be proven *)

#[local] Strategy 1000 [DefaultHeight GetLeaf_from getSiblings_from CalculateRoot_upto].

Section Readable.
Context `{Kc : Keccak}.

Lemma getSiblings_from_length t db i : forall h cur, length (fst (getSiblings_from t db i cur h)) = h.
Proof.
  induction h as [|h IH]; intros cur; [done|]. cbn [getSiblings_from].
  destruct (getRHTNode db cur) as [nd|]; [destruct (bit_set i h)|].
  1: specialize (IH (tn_Right nd)); destruct (getSiblings_from t db i (tn_Right nd) h).
  2: specialize (IH (tn_Left nd)); destruct (getSiblings_from t db i (tn_Left nd) h).
  3: specialize (IH cur); destruct (getSiblings_from t db i cur h).
  all: cbn [fst] in *; rewrite length_app, IH; cbn; lia.
Qed.

Lemma CalculateRoot_upto_app leaf p q i k : (k <= length p)%nat -> CalculateRoot_upto leaf (p ++ q) i k = CalculateRoot_upto leaf p i k.
Proof. induction k as [|k IH]; intros Hk; [done|]. cbn [CalculateRoot_upto]. rewrite IH, app_nth1 by lia. done. Qed.

Lemma read_proves_from t db i leaf : 0 <= i -> rht_sound (db_rht db) -> forall h cur,
  GetLeaf_from db i cur h = Ok leaf -> CalculateRoot_upto leaf (fst (getSiblings_from t db i cur h)) i h = cur.
Proof.
  intros Hi Hs. induction h as [|h IH]; intros cur Hl; [by injection Hl|]. cbn [GetLeaf_from] in Hl. cbn [getSiblings_from].
  unfold getRHTNode in *. destruct (db_rht db !! cur) as [nd|] eqn:En; [|done]. cbn [rbind] in Hl.
  destruct (Hs _ _ En) as [Hh Hn]. rewrite bit_set_testbit in * by done.
  assert (node_hash (tn_Left nd) (tn_Right nd) = cur) as Hc by (rewrite <- Hh; rewrite Hn at 3; done).
  destruct (Z.testbit i (Z.of_nat h)) eqn:Eb.
  all: match type of Hl with GetLeaf_from _ _ ?c _ = _ => pose proof (IH c Hl) as E; pose proof (getSiblings_from_length t db i h c) as L;
    destruct (getSiblings_from t db i c h) as [ss u] end.
  all: cbn [fst CalculateRoot_upto] in *; rewrite shift_bit_testbit, Eb, CalculateRoot_upto_app, E by lia;
    rewrite app_nth2 by lia; rewrite L, Nat.sub_diag; exact Hc.
Qed.

(** The proof of a leaf that [GetLeaf] answers verifies. *)
Lemma read_proves t db i root leaf : 0 <= i -> rht_sound (db_rht db) -> GetLeaf db i root = Ok leaf ->
  exists proof, GetProof t db i root = Ok proof /\ VerifyProof leaf proof i root = true.
Proof.
  intros Hi Hs Hl. unfold GetLeaf in Hl. pose proof (read_proves_from t db i leaf Hi Hs _ _ Hl) as E.
  exists (fst (getSiblings t db i root)). split; [reflexivity|]. unfold VerifyProof, CalculateRoot, getSiblings.
  rewrite E. apply Z.eqb_refl.
Qed.

End Readable.

(** ** The searches over the verifications *)

Section L2Search.
Context (l1 : L1InfoTreeSyncer) (b : Bridger) (networkID : Z) (rows : list VerifyBatches) (before : VerifyBatches -> VerifyBatches -> Prop)
  (count : VerifyBatches -> Z).
Abbreviation block := vb_BlockNumber.
Abbreviation after := (lt_GetFirstVerifiedBatchesAfterBlock l1 networkID).
Context (Hafter : first_after block before rows after) (Hcount : counted block before rows count).
Context (Hroots : forall v, v ∈ rows -> exists root hash, bg_GetRootByLER b (vb_ExitRoot v) = Ok (root, hash) /\ rt_Index root = count v).
Context (last : VerifyBatches) (Hlast : last ∈ rows) (low0 d : Z) (Hlow0 : 0 < low0) (Hu : is_u64 (block last + 1)).

(** The first verification of its block: the only one of the block the searches see. *)
Definition block_first (v : VerifyBatches) : Prop := v ∈ rows /\ forall y, y ∈ rows -> block y = block v -> before v y.

(** No verification before [low] reaches [d], none after [high] is in an earlier block than [best], and [best] is the
    last verification, with which the search starts, or one the search has seen. *)
Record l2_bounds (low high : Z) (best : VerifyBatches) : Prop := {
  lb_in : best ∈ rows;
  lb_d : d <= count best;
  lb_low : forall n x, low0 <= n < low -> after n = Ok x -> count x < d;
  lb_high : forall n y, high < n -> after n = Ok y -> block best <= block y;
  lb_best : (best = last /\ high = block last) \/ block_first best
}.

(** No row lies strictly above [e] and at most at [high]. *)
Definition empty_above (e high : Z) : Prop := forall y, y ∈ rows -> block y <= e \/ high < block y.

Lemma after_first n m x y : n <= m -> after n = Ok x -> after m = Ok y -> x ∈ rows /\ y ∈ rows /\ before x y.
Proof.
  intros Hnm Hx Hy. apply (fa_ok _ _ _ _ Hafter) in Hx as (Hx & _ & Hb). apply (fa_ok _ _ _ _ Hafter) in Hy as (Hy & Hm & _).
  split; [done|]. split; [done|]. apply Hb; [done | lia].
Qed.

Lemma after_block_first n x : after n = Ok x -> block_first x.
Proof.
  intros Hx. apply (fa_ok _ _ _ _ Hafter) in Hx as (Hx & Hn & Hb). split; [done|]. intros y Hy E. apply Hb; [done | lia].
Qed.

(** The next verification is beyond the range: the upper half is empty. *)
Lemma step_beyond low high best t x :
  l2_bounds low high best -> after t = Ok x -> high < block x -> t <= high -> high <= block last -> l2_bounds low (t - 1) best.
Proof.
  intros [H1 H2 H3 H4 H5] Hx Hh Ht Hl. split; try done.
  - intros n y Hn Hy.
    destruct (Z_lt_le_dec high n) as [Hlt|Hle]; [by apply (H4 n)|].
    destruct (after_first t n x y ltac:(lia) Hx Hy) as (_ & Hyin & Hxy). pose proof (ct_block _ _ _ _ Hcount _ _ Hxy).
    destruct (fa_some _ _ _ _ Hafter (high + 1) y Hyin ltac:(lia)) as (z & Hz). specialize (H4 (high + 1) z ltac:(lia) Hz).
    apply (fa_ok _ _ _ _ Hafter) in Hz as (_ & _ & Hmin). specialize (Hmin y Hyin ltac:(lia)).
    pose proof (ct_block _ _ _ _ Hcount _ _ Hmin). lia.
  - destruct H5 as [[-> E]|H5]; [|by right]. apply (fa_ok _ _ _ _ Hafter) in Hx as (_ & _ & Hb).
    pose proof (ct_block _ _ _ _ Hcount _ _ (Hb last Hlast ltac:(lia))). lia.
Qed.

Lemma step_below low high best t x :
  l2_bounds low high best -> after t = Ok x -> count x < d -> l2_bounds (block x + 1) high best.
Proof.
  intros [H1 H2 H3 H4 H5] Hx Hc. split; try done. intros n y Hn Hy. destruct (fa_ok _ _ _ _ Hafter t x Hx) as (Hxin & _ & _).
  destruct (fa_ok _ _ _ _ Hafter n y Hy) as (Hyin & _ & Hmin).
  pose proof (ct_count _ _ _ _ Hcount y x Hyin Hxin (Hmin x Hxin ltac:(lia))). lia.
Qed.

Lemma step_above low high best t x :
  l2_bounds low high best -> after t = Ok x -> d < count x -> l2_bounds low (block x - 1) x.
Proof.
  intros [H1 H2 H3 H4 H5] Hx Hc. destruct (fa_ok _ _ _ _ Hafter t x Hx) as (Hxin & _ & _).
  split; try done; [lia | | right; by apply (after_block_first t)].
  intros n y Hn Hy. apply (fa_ok _ _ _ _ Hafter) in Hy as (_ & Hny & _). lia.
Qed.

(** No first verification of a block reaches [d]. *)
Definition none_reaches : Prop := forall y, block_first y -> count y < d.

(** The earliest of the first verifications of the blocks that reaches [d]. *)
Definition first_reaching (v : VerifyBatches) : Prop :=
  block_first v /\ d <= count v /\ forall y, block_first y -> d <= count y -> block v <= block y.

(** What the binary search answers with: the first verification that reaches [d], one that ends exactly at [d], or the
    last verification when no other way is left. *)
Definition binary_answer (v : VerifyBatches) : Prop :=
  v ∈ rows /\ d <= count v /\ (first_reaching v \/ (block_first v /\ count v = d) \/ (v = last /\ none_reaches)).

Context (Hmin : forall y, y ∈ rows -> low0 <= block y) (Hmax : forall y, y ∈ rows -> block y <= block last).

(** The rows the searches see are the first of their blocks, up to the count. *)
Lemma seen y : block_first y -> exists z, after (block y) = Ok z /\ block z = block y /\ count z = count y.
Proof.
  intros [Hy Hb]. destruct (fa_some _ _ _ _ Hafter (block y) y Hy ltac:(lia)) as (z & Hz). exists z. split; [done|].
  apply (fa_ok _ _ _ _ Hafter) in Hz as (Hz & Hzy & Hzb). pose proof (Hzb y Hy ltac:(lia)) as Hzy'.
  pose proof (ct_block _ _ _ _ Hcount _ _ Hzy'). assert (E : block z = block y) by lia. pose proof (Hb z Hz E) as Hyz.
  pose proof (ct_count _ _ _ _ Hcount _ _ Hy Hz Hyz). pose proof (ct_count _ _ _ _ Hcount _ _ Hz Hy Hzy'). split; lia.
Qed.

Lemma bounds_end low high best : high < low -> high <= block last -> l2_bounds low high best -> binary_answer best.
Proof.
  intros Hend Hl [H1 H2 H3 H4 H5]. split_and!; [done | done|]. destruct H5 as [[-> E]|H5].
  - right. right. split; [done|]. intros y Hy. destruct (seen y Hy) as (z & Hz & _ & <-). destruct Hy as [Hy _].
    destruct (Z_lt_le_dec (block y) low) as [Hlt|Hle]; [apply (H3 (block y)); [split; [by apply Hmin | done] | done]|].
    exfalso. specialize (H4 (block y) z ltac:(lia) Hz).
    pose proof (Hmax y Hy). lia.
  - left. split_and!; [done | done|]. intros y Hy Hdy. destruct (seen y Hy) as (z & Hz & Ez & Ec). destruct Hy as [Hy _].
    destruct (Z_lt_le_dec (block y) low) as [Hlt|Hle].
    + specialize (H3 (block y) z ltac:(split; [by apply Hmin | done]) Hz). lia.
    + rewrite <- Ez. apply (H4 (block y)); [lia | done].
Qed.

(** Each iteration halves the blocks left, or replaces them by those that may still hold a verification and halves the
    others: twice the bits of a block number are enough. *)
Lemma binarySearch_spec m : forall fuel ka ke low high e best,
  (ka + ke <= m)%nat -> (m < fuel)%nat -> high - low + 1 < 2 ^ Z.of_nat ka -> e - low + 1 < 2 ^ Z.of_nat ke -> e <= high ->
  empty_above e high -> low0 <= low -> low <= high + 1 -> high <= block last -> l2_bounds low high best ->
  exists v, binarySearch l1 b fuel networkID d low high best = Some (Ok (Some v)) /\ binary_answer v.
Proof.
  induction m as [|m IH]; intros fuel ka ke low high e best Hm Hf Ha He Heh Hempty Hl0 Hlh Hh Hb;
    (destruct fuel as [|fuel]; [lia|]); cbn [binarySearch];
    (destruct (Z.ltb_spec high low) as [Hend|Hgo]; [exists best; split; [done | by apply (bounds_end low high)]|]).
  1: replace ka with 0%nat in Ha by lia; change (2 ^ Z.of_nat 0) with 1 in Ha; lia.
  rewrite target_small by (try done; unfold is_u64 in *; lia). destruct (halved low high Hgo) as (Ht & Hup & Hdown). cbn zeta in *.
  set (t := low + (high - low) / 2) in *. destruct ka as [|ka]; [change (2 ^ Z.of_nat 0) with 1 in Ha; lia|].
  rewrite pow2_S in Ha. unfold binarySearchStep.
  destruct (fa_some _ _ _ _ Hafter t last Hlast ltac:(lia)) as (x & Hx). rewrite Hx. cbn [rbind].
  destruct (fa_ok _ _ _ _ Hafter t x Hx) as (Hxin & Hxt & Hxb). destruct (Z.ltb_spec high (block x)) as [Hbeyond|Hin].
  - rewrite (proj2 (Z.eqb_neq t 0)) by lia. rewrite sub64_small by (unfold_words; lia).
    apply (IH fuel ka ke low (t - 1) (Z.min e (t - 1)) best); try lia; [|apply (step_beyond low high best t x); (done || lia)].
    intros y Hy. destruct (Hempty y Hy); lia.
  - destruct (Hroots x Hxin) as (root & hash & -> & Hidx). rewrite Hidx. assert (block x <= e) as Hxe by (destruct (Hempty x Hxin); lia).
    destruct (Z.ltb_spec (count x) d) as [Hlt|Hge].
    + rewrite add64_small by (unfold_words; lia).
      apply (IH fuel ka ke (block x + 1) high e best); try done; try lia. by apply (step_below low high best t x).
    + destruct (Z.eqb_spec (count x) d) as [Heq|Hne]; [exists x; split; [done|]; split_and!; [done | lia | right; left; split; [by apply (after_block_first t) | done]]|].
      rewrite (proj2 (Z.eqb_neq (block x) 0)) by lia. rewrite sub64_small by (unfold_words; lia).
      apply (IH fuel ke ka low (block x - 1) (t - 1) x); try lia; [|apply (step_above low high best t x); [done | done | lia]].
      intros y Hy. destruct (Z_lt_le_dec (block y) t); [lia|]. pose proof (ct_block _ _ _ _ Hcount _ _ (Hxb y Hy ltac:(lia))). lia.
Qed.

Definition later_rows (n : Z) : nat := length (bfilter (fun v => n <=? block v) rows).

Lemma later_rows_lt n m x : x ∈ rows -> n <= block x < m -> (later_rows m < later_rows n)%nat.
Proof.
  unfold later_rows. clear. intros Hx Hn. induction rows as [|y l IH]; [by apply elem_of_nil in Hx|].
  assert (length (bfilter (fun v => (m <=? block v)%Z) l) <= length (bfilter (fun v => (n <=? block v)%Z) l))%nat as Hle.
  { clear IH Hx. induction l as [|z l IHl]; [done|]. cbn [bfilter].
    destruct (Z.leb_spec m (block z)), (Z.leb_spec n (block z)); cbn [length]; lia. }
  cbn [bfilter]. apply elem_of_cons in Hx as [<-|Hx].
  - rewrite (proj2 (Z.leb_gt m (block x))), (proj2 (Z.leb_le n (block x))) by lia. cbn [length]. lia.
  - specialize (IH Hx). destruct (Z.leb_spec m (block y)), (Z.leb_spec n (block y)); cbn [length]; lia.
Qed.

(** The scan ends at the first verification that reaches [d], if there is one. *)
Lemma linear_spec fuel : forall next, (later_rows next < fuel)%nat -> low0 <= next ->
  (forall y, block_first y -> block y < next -> count y < d) ->
  match getFirstVerifiedBatchesForL2DepositCountLinear l1 b fuel networkID next (block last) d with
  | Some (Ok v) => first_reaching v
  | Some (Err e) => e = SErrNotOnL1Info /\ none_reaches
  | None => False
  end.
Proof.
  induction fuel as [|fuel IH]; intros next Hf Hn0 Hlow; [lia|]. cbn [getFirstVerifiedBatchesForL2DepositCountLinear].
  destruct (Z.ltb_spec (block last) next) as [Hend|Hnext].
  { split; [done|]. intros y Hy. apply Hlow; [done|]. destruct Hy as [Hy _]. specialize (Hmax y Hy). lia. }
  destruct (fa_some _ _ _ _ Hafter next last Hlast Hnext) as (x & Hx). rewrite Hx. pose proof (after_block_first _ _ Hx) as Hxf.
  destruct (fa_ok _ _ _ _ Hafter next x Hx) as (Hxin & Hxn & Hxb). pose proof (ct_block _ _ _ _ Hcount _ _ (Hxb last Hlast Hnext)).
  rewrite (proj2 (Z.ltb_ge _ _)) by lia. destruct (Hroots x Hxin) as (root & hash & -> & Hidx). rewrite Hidx.
  destruct (Z.leb_spec d (count x)) as [Hge|Hlt].
  - split_and!; [done | done|]. intros y Hy Hdy.
    destruct (Z_lt_le_dec (block y) next) as [Hyn|Hyn]; [specialize (Hlow y Hy Hyn); lia|]. apply (ct_block _ _ _ _ Hcount), Hxb; [apply Hy | lia].
  - assert (is_u64 (block x + 1)) as Hxu by (unfold_words; lia). rewrite add64_small by done.
    apply IH; [pose proof (later_rows_lt next (block x + 1) x Hxin ltac:(lia)); lia | lia |].
    intros y Hy Hyx. destruct (Z_lt_le_dec (block y) next) as [Hyn|Hyn]; [by apply Hlow|]. pose proof Hy as [Hyin Hyb].
    assert (block y = block x) as Eb by (pose proof (ct_block _ _ _ _ Hcount _ _ (Hxb y Hyin Hyn)); lia).
    pose proof (ct_count _ _ _ _ Hcount y x Hyin Hxin (Hyb x Hxin (eq_sym Eb))). lia.
Qed.

Context (Hanti : forall x y, x ∈ rows -> y ∈ rows -> before x y -> before y x -> x = y).

Lemma block_first_unique v w : block_first v -> block_first w -> block v = block w -> v = w.
Proof. intros [H1 H2] [H3 H4] E. apply Hanti; [done | done | by apply H2 | by apply H4]. Qed.

Lemma first_reaching_unique v w : first_reaching v -> first_reaching w -> v = w.
Proof. intros (H1 & H2 & H3) (H4 & H5 & H6). apply block_first_unique; [done | done |]. specialize (H3 w H4 H5). specialize (H6 v H1 H2). lia. Qed.

Lemma first_reaching_exact v w :
  (forall x y, x ∈ rows -> y ∈ rows -> block x < block y -> before x y) ->
  first_reaching w -> block_first v -> count v = d -> v = w \/ (count w = count v /\ block w < block v).
Proof.
  intros Hbl (H1 & H2 & H3) H4 E. specialize (H3 v H4 ltac:(lia)). destruct (Z_lt_le_dec (block w) (block v)) as [Hlt|Hge].
  - right. split; [|done]. pose proof H1 as [Hw _]. pose proof H4 as [Hv _].
    pose proof (ct_count _ _ _ _ Hcount w v Hw Hv (Hbl w v Hw Hv Hlt)). lia.
  - left. apply block_first_unique; [done | done | lia].
Qed.

End L2Search.

(** ** Over the syncers *)

Section Settled.
Context `{Kc : Keccak} (p1 : L1InfoTree.processor) (p2 : BridgeSync.processor) (networkID : Z).
Context (f1 f2 : finality) (addr : string -> option Z) (deposits : result bError Z) (head : result svcError Z) (reorg : result svcError (Z * Z * Z)).

Abbreviation rows := (vb_of networkID p1).
Abbreviation l1 := (l1_of p1 f1).
Abbreviation bridger := (bridger_of p2 addr deposits head reorg f2).

(** The index of the last deposit under the exit root of a verification. *)
Definition settled_count (v : VerifyBatches) : Z :=
  match GetRootByHash (p_treeDB (bp_proc p2)) (vb_ExitRoot v) with Ok r => rt_Index r | Err _ => -1 end.

(** The verifications of the network, any number of them per block and told apart by their positions (the key of the
    table), settle exit roots the bridge syncer has, with growing deposits. *)
Record settled : Prop := {
  sd_known : forall v, v ∈ rows -> exists r, GetRootByHash (p_treeDB (bp_proc p2)) (vb_ExitRoot v) = Ok r;
  sd_grows : forall x y, x ∈ rows -> y ∈ rows -> pos_le vb_pos x y -> settled_count x <= settled_count y;
  sd_key : forall x y, x ∈ rows -> y ∈ rows -> vb_pos x = vb_pos y -> x = y;
  sd_block : forall v, v ∈ rows -> 0 < vb_BlockNumber v /\ is_u64 (vb_BlockNumber v + 1)
}.

Context (Hh1 : p_halted p1 = false) (Hh2 : p_halted (bp_proc p2) = false).

Lemma vb_first_after : first_after vb_BlockNumber (pos_le vb_pos) rows (lt_GetFirstVerifiedBatchesAfterBlock l1 networkID).
Proof.
  cbn [l1_of lt_GetFirstVerifiedBatchesAfterBlock]. unfold L1InfoTreeSync.s_GetFirstVerifiedBatchesAfterBlock, L1InfoTreeSync.ifActive.
  rewrite Hh1. unfold GetFirstVerifiedBatchesAfterBlock. split.
  - intros n x. destruct (earliest _ _) as [y|] eqn:E; [|done]. intros [= <-]. apply earliest_spec in E as [Hy Hmin].
    apply elem_of_bfilter in Hy as [Hy Hn]. bool_hyps. split; [done|]. split; [done|]. intros z Hz Hnz. apply Hmin, elem_of_bfilter.
    split; [done|]. by apply Z.leb_le.
  - intros n y Hy Hn. destruct (firstBy_some (fun a b => pos_ltb (vb_pos a) (vb_pos b)) (bfilter (fun v => n <=? vb_BlockNumber v) rows) y)
      as (x & Hx). { apply elem_of_bfilter. split; [done|]. by apply Z.leb_le. }
    exists x. unfold earliest. by rewrite Hx.
Qed.

Lemma vb_counted : settled -> counted vb_BlockNumber (pos_le vb_pos) rows settled_count.
Proof. intros H. split; [intros x y Hxy; apply (pos_le_block vb_pos x y Hxy) | apply H]. Qed.

Lemma settled_root v r : GetRootByHash (p_treeDB (bp_proc p2)) (vb_ExitRoot v) = Ok r ->
  bg_GetRootByLER bridger (vb_ExitRoot v) = Ok (r, default 0 (b_getBlockHash p2 (rt_BlockNum r))) /\ rt_Index r = settled_count v.
Proof.
  intros H. cbn [bg_GetRootByLER bridger_of]. unfold s_GetRootByLER, ifActive. rewrite Hh2. unfold getExitTreeRootByHash.
  unfold settled_count. by rewrite H.
Qed.

Lemma settled_roots : settled -> forall v, v ∈ rows ->
  exists root hash, bg_GetRootByLER bridger (vb_ExitRoot v) = Ok (root, hash) /\ rt_Index root = settled_count v.
Proof. intros H v Hv. destruct (sd_known H v Hv) as (r & Hr). destruct (settled_root v r Hr) as [E1 E2]. eauto. Qed.

Lemma settled_bounds v : v ∈ rows -> exists first last,
  GetFirstVerifiedBatches p1 networkID = Ok first /\ GetLastVerifiedBatches p1 networkID = Ok last /\ first ∈ rows /\ last ∈ rows /\
  (forall y, y ∈ rows -> pos_le vb_pos first y) /\ (forall y, y ∈ rows -> pos_le vb_pos y last).
Proof.
  intros Hv. destruct (firstBy_some (fun a b => pos_ltb (vb_pos b) (vb_pos a)) rows v Hv) as (last & Hlast).
  destruct (firstBy_some (fun a b => pos_ltb (vb_pos a) (vb_pos b)) rows v Hv) as (first & Hfirst).
  destruct (latest_spec vb_pos _ _ Hlast) as [Hlin Hlmax]. destruct (earliest_spec vb_pos _ _ Hfirst) as [Hfin Hfmin].
  exists first, last. unfold GetFirstVerifiedBatches, GetLastVerifiedBatches, earliest, latest. rewrite Hfirst, Hlast. done.
Qed.

Lemma pos_le_anti x y : pos_le vb_pos x y -> pos_le vb_pos y x -> vb_pos x = vb_pos y.
Proof.
  unfold pos_le. rewrite <- !not_true_iff_false, !pos_ltb_lt. intros H1 H2. destruct (vb_pos x) as [a1 b1], (vb_pos y) as [a2 b2].
  cbn [fst snd] in *. f_equal; lia.
Qed.

Abbreviation answer := (binary_answer rows (pos_le vb_pos) settled_count).
Abbreviation first_in_block := (block_first rows (pos_le vb_pos)).
Abbreviation reaches_first := (first_reaching rows (pos_le vb_pos) settled_count).
Abbreviation no_first_reaches := (none_reaches rows (pos_le vb_pos) settled_count).

Lemma binary_finds first last d fuel :
  settled -> first ∈ rows -> last ∈ rows -> (forall y, y ∈ rows -> pos_le vb_pos first y) -> (forall y, y ∈ rows -> pos_le vb_pos y last) ->
  d <= settled_count last -> (128 < fuel)%nat ->
  exists v, getFirstVerifiedBatchesForL2DepositCountBinary l1 bridger fuel networkID first last d = Some (Ok (Some v)) /\ answer last d v.
Proof.
  intros Hs Hf Hl Hmin Hmax Hd Hfuel. pose proof (vb_counted Hs) as Hc. pose proof (sd_block Hs first Hf) as [Hf0 _].
  pose proof (sd_block Hs last Hl) as [_ Hu]. pose proof (ct_block _ _ _ _ Hc _ _ (Hmin last Hl)) as Hfl.
  refine (binarySearch_spec l1 bridger networkID rows (pos_le vb_pos) settled_count vb_first_after Hc (settled_roots Hs) last Hl
    (vb_BlockNumber first) d Hf0 Hu _ _ 128 fuel 64 64 (vb_BlockNumber first) (vb_BlockNumber last) (vb_BlockNumber last) last
    _ _ _ _ _ _ _ _ _ _); try lia.
  - intros y Hy. apply (ct_block _ _ _ _ Hc), Hmin, Hy.
  - intros y Hy. apply (ct_block _ _ _ _ Hc), Hmax, Hy.
  - change (2 ^ Z.of_nat 64) with pow2_64; unfold_words; lia.
  - change (2 ^ Z.of_nat 64) with pow2_64; unfold_words; lia.
  - intros y Hy. lia.
  - split; [done | done | intros n x Hn; lia | | by left].
    intros n y Hn Hy. apply (fa_ok _ _ _ _ vb_first_after) in Hy as (_ & Hy & _). lia.
Qed.

(** C11. When the syncers are not halted, every settled exit root is known and settled deposits grow, with any
    number of verifications per block: the binary search answers with a verification that contains the deposit.
    The linear scan answers exactly when the first verification of some block contains the deposit, with the
    earliest such, and the binary search then answers with the same one, or with a later one that settles the same
    number of deposits, exactly up to the deposit; they agree whenever no two first verifications of a block
    settle the same number. When only a later verification of a block contains it, the scan fails although the
    last verification, with which the binary search answers, does contain it. *)
Theorem l2_searches_agree first last d fuel fuel' :
  settled -> GetFirstVerifiedBatches p1 networkID = Ok first -> GetLastVerifiedBatches p1 networkID = Ok last ->
  d <= settled_count last -> (128 < fuel)%nat -> (length rows < fuel')%nat ->
  exists v, getFirstVerifiedBatchesForL2DepositCountBinary l1 bridger fuel networkID first last d = Some (Ok (Some v)) /\
    v ∈ rows /\ d <= settled_count v /\
    match getFirstVerifiedBatchesForL2DepositCountLinear l1 bridger fuel' networkID (vb_BlockNumber first) (vb_BlockNumber last) d with
    | Some (Ok w) => reaches_first d w /\
        (v = w \/ (first_in_block v /\ settled_count v = d /\ settled_count w = d /\ vb_BlockNumber w < vb_BlockNumber v)) /\
        ((forall x y, first_in_block x -> first_in_block y -> settled_count x = settled_count y -> x = y) -> v = w)
    | Some (Err e) => e = SErrNotOnL1Info /\ v = last /\ no_first_reaches d
    | None => False
    end.
Proof.
  intros Hs HF HL Hd Hf1 Hf2. unfold GetFirstVerifiedBatches, GetLastVerifiedBatches in *.
  destruct (earliest vb_pos rows) as [first'|] eqn:EF; [|done]. destruct (latest vb_pos rows) as [last'|] eqn:EL; [|done].
  injection HF as <-. injection HL as <-.
  destruct (earliest_spec vb_pos _ _ EF) as [Hfin Hfmin]. destruct (latest_spec vb_pos _ _ EL) as [Hlin Hlmax].
  pose proof (vb_counted Hs) as Hc. destruct (binary_finds first' last' d fuel Hs Hfin Hlin Hfmin Hlmax Hd Hf1) as (v & Hv & Hvin & Hdv & Hw).
  exists v. split_and!; [done..|].
  assert (Hanti : forall x y, x ∈ rows -> y ∈ rows -> pos_le vb_pos x y -> pos_le vb_pos y x -> x = y).
  { intros x y Hx Hy H1 H2. apply (sd_key Hs); [done | done | by apply pos_le_anti]. }
  pose proof (linear_spec l1 bridger networkID rows (pos_le vb_pos) settled_count vb_first_after Hc (settled_roots Hs) last' Hlin
    (vb_BlockNumber first') d ltac:(apply (sd_block Hs first' Hfin)) ltac:(apply (sd_block Hs last' Hlin))
    ltac:(intros y Hy; apply (ct_block _ _ _ _ Hc), Hlmax, Hy) fuel' (vb_BlockNumber first')) as Hscan.
  pose proof (bfilter_length_le (fun v => vb_BlockNumber first' <=? vb_BlockNumber v) rows) as Hlen.
  specialize (Hscan ltac:(unfold later_rows; lia) ltac:(lia)
    ltac:(intros y [Hy _] Hlt; pose proof (ct_block _ _ _ _ Hc _ _ (Hfmin y Hy)); lia)).
  destruct (getFirstVerifiedBatchesForL2DepositCountLinear _ _ _ _ _ _ _) as [[w|e]|]; [| |done].
  - rename Hscan into Hr.
    assert (Hvw : v = w \/ (first_in_block v /\ settled_count v = d /\ settled_count w = d /\ vb_BlockNumber w < vb_BlockNumber v)).
    { destruct Hw as [Hw|[[Hvf Ev]|[_ Hno]]].
      - left. by apply (first_reaching_unique rows (pos_le vb_pos) settled_count d Hanti).
      - assert (Hbl : forall x y, x ∈ rows -> y ∈ rows -> vb_BlockNumber x < vb_BlockNumber y -> pos_le vb_pos x y).
        { intros x y _ _ Hlt. unfold pos_le. rewrite <- not_true_iff_false, pos_ltb_lt. cbn [vb_pos fst snd]. lia. }
        destruct (first_reaching_exact rows (pos_le vb_pos) settled_count Hc d Hanti v w Hbl Hr Hvf Ev) as [|[E1 E2]]; [by left|].
        right. split_and!; [done | done | lia | done].
      - destruct Hr as (H1 & H2 & _). specialize (Hno w H1). lia. }
    split_and!; [done | done|]. intros Hinj. destruct Hvw as [|(H1 & H2 & H3 & _)]; [done|]. apply Hinj; [done | apply Hr | lia].
  - destruct Hscan as [-> Hno]. split_and!; [done | | done]. destruct Hw as [(H1 & H2 & _)|[[H1 H2]|[H1 _]]]; [| |done].
    all: specialize (Hno v H1); lia.
Qed.

(** The nodes of the rollup exit tree are sound, and every verification is readable under the root it produced. *)
Definition rollup_readable : Prop :=
  rht_sound (db_rht (rollupExitTree (p_db p1))) /\
  forall v, v ∈ verify_batches (p_db p1) ->
    GetLeaf (rollupExitTree (p_db p1)) (vb_RollupID v -u32 1) (vb_RollupExitRoot v) = Ok (vb_ExitRoot v).

Lemma rollup_proof v : rollup_readable -> v ∈ rows -> 0 < networkID -> is_u32 networkID ->
  lt_GetLocalExitRoot l1 networkID (vb_RollupExitRoot v) = Ok (vb_ExitRoot v) /\
  exists proof, lt_GetRollupExitTreeMerkleProof l1 networkID (vb_RollupExitRoot v) = Ok proof /\
    VerifyProof (vb_ExitRoot v) proof (networkID - 1) (vb_RollupExitRoot v) = true.
Proof.
  intros [Hs Hr] Hv Hn Hu. apply elem_of_bfilter in Hv as [Hv Hid]. apply Z.eqb_eq in Hid. specialize (Hr v Hv). rewrite Hid in Hr.
  assert (networkID -u32 1 = networkID - 1) as En by (apply wrap32_small; unfold_words; lia).
  destruct (read_proves newTree _ (networkID -u32 1) _ _ ltac:(lia) Hs Hr) as (proof & Hp & Hvp).
  cbn [l1_of lt_GetLocalExitRoot lt_GetRollupExitTreeMerkleProof].
  unfold L1InfoTreeSync.s_GetLocalExitRoot, L1InfoTreeSync.s_GetRollupExitTreeMerkleProof, L1InfoTreeSync.ifActive.
  rewrite Hh1, (proj2 (Z.eqb_neq networkID 0)), Hr, Hp by lia. split; [reflexivity|]. exists proof. rewrite En in Hvp.
  split; [reflexivity | exact Hvp].
Qed.

Lemma first_info_with root leaf : leaf ∈ l1info_leaf (p_db p1) -> il_RollupExitRoot leaf = root ->
  exists info, lt_GetFirstL1InfoWithRollupExitRoot l1 root = Ok info /\ info ∈ l1info_leaf (p_db p1) /\ il_RollupExitRoot info = root.
Proof.
  intros Hl Hr. destruct (firstBy_some (fun a b => pos_ltb (leaf_pos a) (leaf_pos b))
    (bfilter (fun l => il_RollupExitRoot l =? root) (l1info_leaf (p_db p1))) leaf) as (info & Hi).
  { apply elem_of_bfilter. split; [done|]. by apply Z.eqb_eq. }
  destruct (earliest_spec leaf_pos _ _ Hi) as [Hin _]. apply elem_of_bfilter in Hin as [Hin He]. exists info.
  cbn [l1_of lt_GetFirstL1InfoWithRollupExitRoot]. unfold L1InfoTreeSync.s_GetFirstL1InfoWithRollupExitRoot, L1InfoTreeSync.ifActive.
  rewrite Hh1. unfold GetFirstL1InfoWithRollupExitRoot, earliest. rewrite Hi. split; [done|]. split; [done|]. by apply Z.eqb_eq.
Qed.

Lemma l2_index v d fuel :
  settled -> v ∈ rows -> d <= settled_count v -> (128 < fuel)%nat ->
  (forall x, x ∈ rows -> exists leaf, leaf ∈ l1info_leaf (p_db p1) /\ il_RollupExitRoot leaf = vb_RollupExitRoot x) ->
  exists w info, getFirstL1InfoTreeIndexForL2Bridge l1 bridger fuel networkID d = Some (Ok (il_L1InfoTreeIndex info)) /\ w ∈ rows /\
    d <= settled_count w /\
    (reaches_first d w \/ (first_in_block w /\ settled_count w = d) \/ (GetLastVerifiedBatches p1 networkID = Ok w /\ no_first_reaches d)) /\
    info ∈ l1info_leaf (p_db p1) /\ il_RollupExitRoot info = vb_RollupExitRoot w.
Proof.
  intros Hs Hv Hd Hf Hinfo. destruct (settled_bounds v Hv) as (first & last & EF & EL & Hfin & Hlin & Hfmin & Hlmax).
  pose proof (sd_grows Hs v last Hv Hlin (Hlmax v Hv)) as Hvl.
  destruct (binary_finds first last d fuel Hs Hfin Hlin Hfmin Hlmax ltac:(lia) Hf) as (w & Hw & Hwin & Hdw & Hfirst).
  destruct (Hinfo w Hwin) as (leaf & Hleaf & Er). destruct (first_info_with _ leaf Hleaf Er) as (info & Ei & Hii & Eir).
  exists w, info. split; [|split_and!; [done | done | | done | done]; destruct Hfirst as [?|[?|[-> ?]]]; [by left | by right; left | by right; right]].
  unfold getFirstL1InfoTreeIndexForL2Bridge, l2SearchRoot.
  assert (lt_GetLastVerifiedBatches l1 networkID = Ok last) as ->.
  { cbn [l1_of lt_GetLastVerifiedBatches]. unfold L1InfoTreeSync.s_GetLastVerifiedBatches, L1InfoTreeSync.ifActive. by rewrite Hh1, EL. }
  cbn [obind]. destruct (sd_known Hs last Hlin) as (r & Hr). destruct (settled_root last r Hr) as [-> Hidx]. cbn [obind].
  rewrite Hidx, (proj2 (Z.ltb_ge _ _)) by lia.
  assert (lt_GetFirstVerifiedBatches l1 networkID = Ok first) as ->.
  { cbn [l1_of lt_GetFirstVerifiedBatches]. unfold L1InfoTreeSync.s_GetFirstVerifiedBatches, L1InfoTreeSync.ifActive. by rewrite Hh1, EF. }
  cbn [obind]. rewrite Hw. cbn [obind]. rewrite Ei. reflexivity.
Qed.

(** C9. A deposit of this network that some verification has settled, when the syncers are not halted and
    correspond to their trees, the exit roots of the verifications are known to the bridge syncer and settle
    growing numbers of deposits (any number of verifications per block), every rollup exit root they produced is
    in the L1 info tree, and the rollup exit tree is readable: the index found for the deposit is that of a leaf
    with the rollup exit root a verification [w] containing the deposit produced, and the claim proof served for
    that index proves the deposit against the local exit root of [w], and that root against the rollup exit root
    of the leaf. [w] is the earliest of the first verifications of the blocks that contains the deposit, one that
    ends exactly at it, or, when only a later verification of a block contains it, the last one. *)
Theorem settled_deposit_is_claimable b c d row v fuel :
  p_inv p1 -> bp_inv p2 -> settled -> rollup_readable -> 0 < networkID -> is_u32 networkID -> (128 < fuel)%nat ->
  (forall x, x ∈ rows -> exists leaf, leaf ∈ l1info_leaf (p_db p1) /\ il_RollupExitRoot leaf = vb_RollupExitRoot x) ->
  BridgeSync.bridge (p_db (bp_proc p2)) !! d = Some row -> v ∈ rows -> Z.of_nat d <= settled_count v ->
  sv_l1InfoTree b = Some l1 -> sv_bridgeL2 b = Some bridger -> sv_networkID b = networkID -> networkParam c = Ok networkID ->
  parseUintQuery c 32 "deposit_count" None = Some (Z.of_nat d) ->
  exists w info, L1InfoTreeIndexForBridgeHandler b c fuel = Some (ok (BodyL1InfoTreeIndex (il_L1InfoTreeIndex info))) /\ w ∈ rows /\
    Z.of_nat d <= settled_count w /\ info ∈ l1info_leaf (p_db p1) /\ il_RollupExitRoot info = vb_RollupExitRoot w /\
    (reaches_first (Z.of_nat d) w \/ (first_in_block w /\ settled_count w = Z.of_nat d) \/
     (GetLastVerifiedBatches p1 networkID = Ok w /\ no_first_reaches (Z.of_nat d))) /\
    (parseUintQuery c 32 "leaf_index" None = Some (il_L1InfoTreeIndex info) ->
     exists local rollup, ClaimProofHandler b c = ok (BodyClaimProof local rollup (NewL1InfoTreeLeafResponse info)) /\
       VerifyProof (row_Hash row) local (Z.of_nat d) (vb_ExitRoot w) = true /\
       VerifyProof (vb_ExitRoot w) rollup (networkID - 1) (il_RollupExitRoot info) = true).
Proof.
  intros Hinv1 Hinv2 Hs Hrr Hn Hu Hf Hinfo Hrow Hv Hd Hb1 Hb2 Hid Hnet Hdep.
  destruct (l2_index v (Z.of_nat d) fuel Hs Hv Hd Hf Hinfo) as (w & info & Hi & Hwin & Hdw & Hfirst & Hii & Eir).
  assert ((networkID =? mainnetNetworkID) = false) as Hm by (apply Z.eqb_neq; unfold mainnetNetworkID; lia).
  exists w, info. split.
  { unfold L1InfoTreeIndexForBridgeHandler. rewrite Hnet, Hdep, Hb1, Hb2, Hid. cbn [valid]. rewrite Hm, Z.eqb_refl, Hi. reflexivity. }
  split_and!; [done..|]. intros Hidx. destruct (rollup_proof w Hrr Hwin Hn Hu) as (Hler & rollup & Hrp & Hrv).
  destruct (sd_known Hs w Hwin) as (r & Hr). destruct (settled_root w r Hr) as [_ Hri].
  destruct (deposit_proof p2 f2 addr deposits head reorg Hh2 d row (vb_ExitRoot w) r Hinv2 Hrow Hr ltac:(lia)) as (local & Hp & Hpv).
  exists local, rollup. rewrite Eir. split; [|split; [exact Hpv | exact Hrv]]. unfold ClaimProofHandler. rewrite Hnet. cbn [rbind].
  rewrite Hidx, Hdep. cbn [valid rbind]. rewrite Hb1. cbn [deref rbind]. rewrite (info_by_index p1 f1 Hh1 info Hinv1 Hii).
  cbn [respondSyncerError rbind]. unfold onNetwork. rewrite Hm, Hid, Z.eqb_refl, Eir, Hler. cbn [respondSyncerError rbind].
  rewrite Hb2. cbn [available rbind]. rewrite Hp. cbn [respondSyncerError rbind]. rewrite Hrp. reflexivity.
Qed.

End Settled.

(** ** The rollup exit tree the syncer writes is readable *)

Section RollupTree.
Context `{Kc : Keccak}.

Lemma GetLeaf_from_nonzero db f i h :
  stored_or_empty (db_rht db) f -> 0 <= i < 2 ^ 32 -> f i <> 0 -> (h <= DefaultHeight)%nat ->
  GetLeaf_from db i (mroot f h (i / 2 ^ Z.of_nat h)) h = Ok (f i).
Proof.
  intros Hs Hi Hnz. induction h as [|h IH]; intros Hh; cbn [GetLeaf_from].
  - by rewrite mroot_0, Z.div_1_r.
  - assert (0 <= i / 2 ^ Z.of_nat (S h)) by (apply Z.div_pos; [lia | apply pow2_pos]).
    pose proof (path_span i (S h) ltac:(lia)) as Hspan.
    destruct (Hs h (i / 2 ^ Z.of_nat (S h)) ltac:(lia) ltac:(done) ltac:(lia)) as [Hfound|[_ He]]; [|by rewrite He in Hnz by lia].
    unfold getRHTNode. rewrite Hfound. cbn [rbind mnode tn_Left tn_Right]. pose proof (path_child f i h ltac:(lia)) as Hc.
    destruct (bit_set i h); rewrite Hc; apply IH; lia.
Qed.

Lemma GetLeaf_from_mono db db' i : (forall k nd, db_rht db !! k = Some nd -> db_rht db' !! k = Some nd) -> forall h cur leaf,
  GetLeaf_from db i cur h = Ok leaf -> GetLeaf_from db' i cur h = Ok leaf.
Proof.
  intros Hm. induction h as [|h IH]; intros cur leaf; cbn [GetLeaf_from]; [done|]. unfold getRHTNode.
  destruct (db_rht db !! cur) as [nd|] eqn:E; [|done]. rewrite (Hm _ _ E). cbn [rbind]. destruct (bit_set i h); apply IH.
Qed.

Lemma PutLeaf_keeps_rows t db bn bp leaf db' root k nd :
  Updatable_PutLeaf t db bn bp leaf = Ok (db', root) -> db_rht db !! k = Some nd -> db_rht db' !! k = Some nd.
Proof.
  unfold Updatable_PutLeaf. destruct (getSiblings _ _ _ _) as [ss u]. destruct (Updatable_climb _ _ _) as [r nodes].
  intros H Hk. inv_ok H as db1 E. unfold storeRoot in E. destruct (existsb _ _); [done|]. injection E as <-. injection H as <- _.
  by apply storeNodes_monotone.
Qed.

(** What the tables of the verifications satisfy. *)
Definition rollup_inv (db : l1db) : Prop :=
  (exists f, ut_inv newTree (rollupExitTree db) f) /\
  forall v, v ∈ verify_batches db -> GetLeaf (rollupExitTree db) (vb_RollupID v -u32 1) (vb_RollupExitRoot v) = Ok (vb_ExitRoot v).

Lemma rollup_inv_readable p : rollup_inv (p_db p) -> rollup_readable p.
Proof. intros [[f Hf] Hr]. split; [apply Hf | exact Hr]. Qed.

Lemma rollup_put db f i v bn bp db' root :
  ut_inv newTree db f -> uput_ok db f i v bn bp -> v <> 0 -> Updatable_PutLeaf newTree db bn bp (mkLeaf i v) = Ok (db', root) ->
  ut_inv newTree db' (leaf_update f i v) /\ GetLeaf db' i root = Ok v.
Proof.
  intros Hf Hok Hv Hput. pose proof (Updatable_PutLeaf_updates newTree db f i v bn bp Hf Hok) as H. cbv zeta in H.
  destruct (existsb _ _); [rewrite H in Hput; done|]. destruct H as (db'' & E & Hf'). rewrite E in Hput.
  assert (db'' = db' /\ mroot (leaf_update f i v) DefaultHeight 0 = root) as [-> <-] by (split; congruence). split; [exact Hf'|].
  pose proof (uo_index _ _ _ _ _ _ Hok) as Hi. assert (leaf_update f i v i = v) as Eu by (unfold leaf_update; by rewrite Z.eqb_refl).
  pose proof (GetLeaf_from_nonzero db' (leaf_update f i v) i DefaultHeight (ui_stored _ _ _ Hf') Hi ltac:(by rewrite Eu) (le_n _)) as Hg.
  rewrite path_top, Eu in Hg by exact Hi. exact Hg.
Qed.

(** Processing a verification keeps every verification readable under the root it produced. *)
Theorem processVerifyBatches_readable bn event s s' :
  rollup_inv (ts_db s) ->
  (forall f, ut_inv newTree (rollupExitTree (ts_db s)) f ->
     uput_ok (rollupExitTree (ts_db s)) f (vb_RollupID event -u32 1) (vb_ExitRoot event) bn (vb_BlockPosition event)) ->
  processVerifyBatches bn event s = (s', Ok tt) -> rollup_inv (ts_db s').
Proof.
  intros [[f Hf] Hr] Hok. unfold processVerifyBatches. destruct (Z.eqb_spec (vb_ExitRoot event) 0) as [|Hnz].
  { intros [= <-]. split; [by exists f | done]. }
  intros H. inv_seq H as s0 t0 E0. injection E0 as <- <-. inv_seq H as isNew t1 E1.
  unfold slift in E1. injection E1 as <- _. destruct (negb isNew); [injection H as <-; split; [by exists f | done]|].
  destruct (Updatable_PutLeaf _ _ _ _ _) as [[tree root]|] eqn:Ep; [|done].
  destruct (rollup_put _ f _ _ _ _ _ _ Hf (Hok f Hf) Hnz Ep) as [Hf' Hg].
  assert (forall v, v ∈ verify_batches (ts_db s) -> GetLeaf tree (vb_RollupID v -u32 1) (vb_RollupExitRoot v) = Ok (vb_ExitRoot v)) as Hold.
  { intros v Hv. unfold GetLeaf. apply (GetLeaf_from_mono (rollupExitTree (ts_db s))); [|exact (Hr v Hv)].
    intros k nd. by apply (PutLeaf_keeps_rows _ _ _ _ _ _ _ _ _ Ep). }
  inv_seq H as u t2 E2. injection E2 as <- _. destruct (existsb _ _); [done|]. injection H as <-.
  cbn [set_db ts_db verify_batches rollupExitTree]. split; [by exists (leaf_update f (vb_RollupID event -u32 1) (vb_ExitRoot event))|].
  intros v [Hv| ->%list_elem_of_singleton]%elem_of_app; [by apply Hold | exact Hg].
Qed.

End RollupTree.

(** ** Examples *)

#[local] Existing Instance toy_keccak.

(** Block 4 settles the exit root of the first deposit for network 1; block 5 adds the leaf with the rollup exit root. *)
Definition example_verify : VerifyBatches := mkVerifyBatches 0 0 1 1 0 (example_ler [10]) 7 None None 0.
Definition example_verify_block : SyncDriver.Block L1InfoTree.Event := SyncDriver.mkBlock 4 [L1InfoTree.mkEvent None None (Some example_verify) None] 44.
Definition example_verified : L1InfoTree.processor := fst (l1_ProcessBlock example_verify_block L1InfoTree.newProcessor).
Definition example_rollup_root : Z := Eval vm_compute in
  match verify_batches (p_db example_verified) with v :: _ => vb_RollupExitRoot v | [] => 0 end.
Definition example_settled_update : UpdateL1InfoTree := mkUpdateL1InfoTree 0 1 example_rollup_root 3 4.
Definition example_settled_block : SyncDriver.Block L1InfoTree.Event := SyncDriver.mkBlock 5 [update_event example_settled_update] 55.
Definition example_settled : L1InfoTree.processor := fst (l1_ProcessBlock example_settled_block example_verified).
Definition example_settled_leaf : L1InfoLeaf := Eval vm_compute in leaf_of 5 0 example_settled_update.
Definition example_settled_row : VerifyBatches := mkVerifyBatches 4 0 1 1 0 (example_ler [10]) 7 None None example_rollup_root.

Lemma example_settled_rows : verify_batches (p_db example_settled) = [example_settled_row].
Proof. vm_compute. reflexivity. Qed.

Lemma example_settled_leaves : l1info_leaf (p_db example_settled) = [example_settled_leaf].
Proof. vm_compute. reflexivity. Qed.

(** Rows of other tables do not matter to an empty L1 info tree. *)
Lemma inv_without_leaves p p' num :
  p_inv p -> p_tree p' = p_tree p -> p_treeDB p' = p_treeDB p -> l1info_leaf (p_db p) = [] -> l1info_leaf (p_db p') = [] ->
  map fst (L1InfoTree.block (p_db p')) = [num] -> p_inv p'.
Proof.
  unfold p_inv. intros [H1 H2 H3 H4 H5 H6 H7] Et Ed E E' En. rewrite Et, Ed.
  split; rewrite ?E, ?E', ?En in *; (assumption || constructor); [apply not_elem_of_nil | constructor].
Qed.

Lemma example_verified_inv : p_inv example_verified.
Proof.
  apply (inv_without_leaves L1InfoTree.newProcessor example_verified 4 newProcessor_inv); vm_compute; reflexivity.
Qed.

Lemma example_settled_inv : p_inv example_settled.
Proof.
  assert (events_ok 5 0 (SyncDriver.bk_Events example_settled_block) (L1InfoTree.with_block example_settled_block example_verified)) as Hok.
  { split; [|intros s _; exact I]. split; [apply put_okb_sound; vm_compute; reflexivity|].
    assert (l1info_leaf (ts_db (L1InfoTree.with_block example_settled_block example_verified)) = []) as E by (vm_compute; reflexivity).
    rewrite E. apply not_elem_of_nil. }
  assert (only_updates (SyncDriver.bk_Events example_settled_block)) as Hu by repeat constructor.
  assert (SyncDriver.bk_Num example_settled_block ∉ map fst (L1InfoTree.block (p_db example_verified))) as Hn.
  { assert (map fst (L1InfoTree.block (p_db example_verified)) = [4]) as E by (vm_compute; reflexivity). rewrite E.
    intros H%list_elem_of_singleton. discriminate. }
  pose proof (ProcessBlock_run example_settled_block example_verified example_verified_inv eq_refl Hn Hu Hok) as H.
  unfold example_settled. destruct (l1_ProcessBlock example_settled_block example_verified) as [p' r] eqn:E. destruct H as [Hiff Hp].
  apply Hp, Hiff. exact (conj I I).
Qed.

Lemma example_vb_of : vb_of 1 example_settled = [example_settled_row].
Proof. unfold vb_of. rewrite example_settled_rows. reflexivity. Qed.

Lemma example_is_settled : settled example_settled example_c1 1.
Proof.
  split; rewrite example_vb_of.
  - intros v ->%list_elem_of_singleton. eexists. vm_compute. reflexivity.
  - intros x y ->%list_elem_of_singleton ->%list_elem_of_singleton _. lia.
  - by intros x y ->%list_elem_of_singleton ->%list_elem_of_singleton _.
  - intros v ->%list_elem_of_singleton. split; [vm_compute; reflexivity | split; vm_compute; congruence].
Qed.

Lemma example_readable : rollup_readable example_settled.
Proof.
  apply rollup_inv_readable. pose proof example_settled_rows as Er. split.
  - destruct (rollup_put emptyTreeDB (fun _ => 0) 0 (example_ler [10]) 4 0 (rollupExitTree (p_db example_settled)) example_rollup_root
      ut_inv_empty) as [H _].
    + split; [lia | intros r []|]. rewrite (path_nodes_sparse_eq _ 1).
      * apply collision_freeb_sound. vm_compute. reflexivity.
      * intros j Hj. unfold leaf_update. by rewrite (proj2 (Z.eqb_neq _ _)) by lia.
    + vm_compute. congruence.
    + vm_compute. reflexivity.
    + eexists. exact H.
  - rewrite Er. intros v ->%list_elem_of_singleton. vm_compute. reflexivity.
Qed.

Definition example_l2_bridger : Bridger := example_bridger example_c1.
Definition example_l2_service : BridgeService :=
  mkBridgeService 1 (Some (l1_of example_settled no_finality)) None None (Some example_l2_bridger) None None 0.
Definition example_l2_request : HttpRequest :=
  example_http [("network_id", "1"); ("deposit_count", "0"); ("leaf_index", "0")]%string.

(** Block 4 settles the first deposit and then two more: the scan only sees the first verification of the block. *)
Definition example_verify_as (pos : Z) (amounts : list Z) : VerifyBatches := mkVerifyBatches 0 pos 1 1 0 (example_ler amounts) 7 None None 0.
Definition example_double_block : SyncDriver.Block L1InfoTree.Event :=
  SyncDriver.mkBlock 4 [L1InfoTree.mkEvent None None (Some (example_verify_as 0 [10])) None;
    L1InfoTree.mkEvent None None (Some (example_verify_as 1 [10; 11; 12])) None] 44.
Definition example_double : L1InfoTree.processor := fst (l1_ProcessBlock example_double_block L1InfoTree.newProcessor).
Definition example_double_row (pos : nat) : VerifyBatches := Eval vm_compute in
  nth pos (verify_batches (p_db example_double)) example_settled_row.

Lemma example_double_rows : vb_of 1 example_double = [example_double_row 0; example_double_row 1].
Proof. vm_compute. reflexivity. Qed.

Lemma example_double_settled : settled example_double example_b1 1.
Proof.
  assert (Hin : forall v, v ∈ [example_double_row 0; example_double_row 1] -> v = example_double_row 0 \/ v = example_double_row 1).
  { intros v [->|[->|H%elem_of_nil]%elem_of_cons]%elem_of_cons; [by left | by right | done]. }
  split; rewrite example_double_rows.
  - intros v [->| ->]%Hin; eexists; vm_compute; reflexivity.
  - intros x y [->| ->]%Hin [->| ->]%Hin H; vm_compute; try congruence. vm_compute in H. congruence.
  - intros x y [->| ->]%Hin [->| ->]%Hin H; vm_compute in H; congruence.
  - intros v [->| ->]%Hin; (split; [vm_compute; reflexivity | split; vm_compute; congruence]).
Qed.

Lemma l2_searches_agree_witness :
  getFirstVerifiedBatchesForL2DepositCountLinear (l1_of example_double no_finality) (example_bridger example_b1) 3 1 4 4 1 =
    Some (Err SErrNotOnL1Info) /\
  exists v, getFirstVerifiedBatchesForL2DepositCountBinary (l1_of example_double no_finality) (example_bridger example_b1) 129 1
      (example_double_row 0) (example_double_row 1) 1 = Some (Ok (Some v)) /\
    v ∈ vb_of 1 example_double /\ 1 <= settled_count example_b1 v /\
    match getFirstVerifiedBatchesForL2DepositCountLinear (l1_of example_double no_finality) (example_bridger example_b1) 3 1 4 4 1 with
    | Some (Ok w) => first_reaching (vb_of 1 example_double) (pos_le vb_pos) (settled_count example_b1) 1 w /\
        (v = w \/ (block_first (vb_of 1 example_double) (pos_le vb_pos) v /\ settled_count example_b1 v = 1 /\
           settled_count example_b1 w = 1 /\ vb_BlockNumber w < vb_BlockNumber v)) /\
        ((forall x y, block_first (vb_of 1 example_double) (pos_le vb_pos) x -> block_first (vb_of 1 example_double) (pos_le vb_pos) y ->
            settled_count example_b1 x = settled_count example_b1 y -> x = y) -> v = w)
    | Some (Err e) => e = SErrNotOnL1Info /\ v = example_double_row 1 /\
        none_reaches (vb_of 1 example_double) (pos_le vb_pos) (settled_count example_b1) 1
    | None => False
    end.
Proof.
  split; [vm_compute; reflexivity|].
  refine (l2_searches_agree example_double example_b1 1 no_finality no_finality (fun _ => None) (Ok 0) (Ok 10) (Err SErrNotFound)
    eq_refl eq_refl (example_double_row 0) (example_double_row 1) 1 129 3 example_double_settled _ _ _ _ _).
  - unfold GetFirstVerifiedBatches. rewrite example_double_rows. reflexivity.
  - unfold GetLastVerifiedBatches. rewrite example_double_rows. reflexivity.
  - vm_compute. congruence.
  - lia.
  - rewrite example_double_rows. cbn. lia.
Defined.

Lemma settled_deposit_is_claimable_witness :
  exists w info, L1InfoTreeIndexForBridgeHandler example_l2_service example_l2_request 129 =
      Some (ok (BodyL1InfoTreeIndex (il_L1InfoTreeIndex info))) /\ w ∈ vb_of 1 example_settled /\
    Z.of_nat 0 <= settled_count example_c1 w /\ info ∈ l1info_leaf (p_db example_settled) /\
    il_RollupExitRoot info = vb_RollupExitRoot w /\
    (first_reaching (vb_of 1 example_settled) (pos_le vb_pos) (settled_count example_c1) (Z.of_nat 0) w \/
     (block_first (vb_of 1 example_settled) (pos_le vb_pos) w /\ settled_count example_c1 w = Z.of_nat 0) \/
     (GetLastVerifiedBatches example_settled 1 = Ok w /\
      none_reaches (vb_of 1 example_settled) (pos_le vb_pos) (settled_count example_c1) (Z.of_nat 0))) /\
    (parseUintQuery example_l2_request 32 "leaf_index" None = Some (il_L1InfoTreeIndex info) ->
     exists local rollup, ClaimProofHandler example_l2_service example_l2_request =
         ok (BodyClaimProof local rollup (NewL1InfoTreeLeafResponse info)) /\
       VerifyProof (row_Hash (example_row 1 0 0 10)) local (Z.of_nat 0) (vb_ExitRoot w) = true /\
       VerifyProof (vb_ExitRoot w) rollup (1 - 1) (il_RollupExitRoot info) = true).
Proof.
  refine (settled_deposit_is_claimable example_settled example_c1 1 no_finality no_finality (fun _ => None) (Ok 0) (Ok 10) (Err SErrNotFound)
    eq_refl eq_refl example_l2_service example_l2_request 0 (example_row 1 0 0 10) example_settled_row 129
    example_settled_inv example_c1_inv example_is_settled example_readable _ _ _ _ _ _ _ eq_refl eq_refl eq_refl eq_refl _).
  - lia.
  - split; vm_compute; congruence.
  - lia.
  - rewrite example_vb_of, example_settled_leaves. intros x ->%list_elem_of_singleton. exists example_settled_leaf.
    split; [by apply list_elem_of_singleton | vm_compute; reflexivity].
  - rewrite example_c1_rows. reflexivity.
  - rewrite example_vb_of. by apply list_elem_of_singleton.
  - vm_compute. congruence.
  - reflexivity.
Defined.
