(* ===== verification/Tracker.v ===== *)
(** The domain of the bridge tracker ([bridgetracker/domain], [bridgetracker/types]): the path of steps a bridge walks from
    its transaction to its claim, the resolvers of the steps over the sources they ask, and the status derived from them.

    Times are nanoseconds; [None] is the zero time.  A path that is nil is the empty list.  [None] of a computation that may
    dereference a nil pointer or an index out of range is the panic. *)

From S2P Require Import Prelude AgglayerTypes.

(** ** Types *)

Inductive BridgeType := BridgeTypeL1ToL2 | BridgeTypeL2ToL1 | BridgeTypeL2ToL2.

Inductive BridgeStep :=
| StepWaitingGERUpdate
| StepWaitingLERUpdate
| StepPendingInclusion
| StepCertificatePending
| StepWaitL1SettledGER
| StepWaitingGERInjection
| StepWaitingL1InfoLeafAvailable
| StepWaitingClaim
| StepClaimed.

Inductive StepStatus := StepStatusPending | StepStatusInProgress | StepStatusDone | StepStatusError | StepStatusSkipped.
Inductive StepErrorType := StepErrorTransient | StepErrorPermanent | StepErrorExhausted | StepErrorWarning.
Inductive TrackingStatus := TrackingStatusRegistered | TrackingStatusRunning | TrackingStatusError | TrackingStatusFinished.
Inductive TrackerClaimStatus := TrackerClaimStatusPending | TrackerClaimStatusReadyToClaim | TrackerClaimStatusClaimed | TrackerClaimStatusError.

#[global] Instance BridgeStep_eq_dec : EqDecision BridgeStep.
Proof. solve_decision. Defined.
#[global] Instance StepStatus_eq_dec : EqDecision StepStatus.
Proof. solve_decision. Defined.
#[global] Instance StepErrorType_eq_dec : EqDecision StepErrorType.
Proof. solve_decision. Defined.
#[global] Instance TrackingStatus_eq_dec : EqDecision TrackingStatus.
Proof. solve_decision. Defined.

Record ErrorStep := mkErrorStep { es_ErrorType : StepErrorType; es_RetryCount : Z; es_Description : list string }.

Record GERUpdateResult := mkGERUpdateResult {
  gu_L1InfoTreeIndex : Z;
  gu_GER : Z;
  gu_MainnetExitRoot : Z;
  gu_RollupExitRoot : Z;
  gu_BlockNumber : Z;
  gu_BlockTimestamp : Z;
  gu_LogIndex : Z
}.

Record InjectedGERL1Leaf := mkInjectedGERL1Leaf { ij_GER : Z; ij_BlockNumber : Z; ij_BlockTimestamp : Z }.
Record InjectedL2GERBlock := mkInjectedL2GERBlock { i2_BlockNumber : Z; i2_BlockTimestamp : option Z }.
Record InjectedGERResult := mkInjectedGERResult {
  ir_L1InfoTreeLeaf : InjectedGERL1Leaf;
  ir_L2InjectedGER : option InjectedL2GERBlock;
  ir_L2InjectionWarning : string
}.

Record LERUpdateResult := mkLERUpdateResult { lu_NetworkID : Z; lu_LER : Z; lu_BlockNumber : Z; lu_BlockTimestamp : Z }.
Record ClaimResult := mkClaimResult { cr_ClaimTx : Z; cr_BlockNumber : Z; cr_BlockTimestamp : Z }.

Record L1SettledGERResult := mkL1SettledGERResult {
  lg_TxHash : Z;
  lg_SettlementBlockNumber : Z;
  lg_SettlementBlockTimestamp : Z;
  lg_SettlementLogIndex : Z;
  lg_GER : Z;
  lg_GERBlockNumber : Z;
  lg_GERBlockTimestamp : Z;
  lg_GERLogIndex : Z;
  lg_L1InfoTreeIndex : option Z;
  lg_HasVerifyBatchesTrustedAggregator : bool;
  lg_HasUpdateL1InfoTree : bool;
  lg_HasUpdateL1InfoTreeV2 : bool;
  lg_UsedEarlierSettlement : bool
}.

Record SettlementSearchProgress := mkSettlementSearchProgress { pg_NextToBlock : Z; pg_LastCoveringTxHash : option Z }.

Record GERData := mkGERData {
  gd_NetworkID : Z;
  gd_GER : option Z;
  gd_BlockNumber : option Z;
  gd_BlockTimestamp : option Z;
  gd_L2BlockNumber : option Z;
  gd_L2BlockTimestamp : option Z;
  gd_L2InjectionUnresolvedReason : string
}.

Record CertificateData := mkCertificateData {
  cd_CertificateID : Z;
  cd_Status : CertificateStatus;
  cd_StatusString : string;
  cd_Error : string;
  cd_SettlementTxHash : option Z;
  cd_BlockNumber : option Z;
  cd_BlockTimestamp : option Z
}.

Record CertificateInclusionData := mkCertificateInclusionData {
  id_CertificateData : CertificateData;
  id_PreviousLocalExitRoot : option Z;
  id_NewLocalExitRoot : Z
}.

Record PendingInclusionResult := mkPendingInclusionResult { pi_CertificateID : Z; pi_NewLER : Z; pi_PreviousLER : option Z }.

(** The result a step carries: at most one of the typed fields of [BridgeStepPath] is set. *)
Inductive StepResult :=
| ResultGerUpdate (r : GERUpdateResult)
| ResultInjectedGer (r : InjectedGERResult)
| ResultLerUpdate (r : LERUpdateResult)
| ResultPendingInclusion (r : PendingInclusionResult)
| ResultCertificateData (r : CertificateData)
| ResultL1SettledGer (r : L1SettledGERResult)
| ResultSettlementSearch (r : SettlementSearchProgress)
| ResultL1InfoLeafAvailable (index : Z)
| ResultClaim (r : ClaimResult).

#[global] Instance ErrorStep_eq_dec : EqDecision ErrorStep.
Proof. solve_decision. Defined.
#[global] Instance GERUpdateResult_eq_dec : EqDecision GERUpdateResult.
Proof. solve_decision. Defined.
#[global] Instance InjectedGERL1Leaf_eq_dec : EqDecision InjectedGERL1Leaf.
Proof. solve_decision. Defined.
#[global] Instance InjectedL2GERBlock_eq_dec : EqDecision InjectedL2GERBlock.
Proof. solve_decision. Defined.
#[global] Instance InjectedGERResult_eq_dec : EqDecision InjectedGERResult.
Proof. solve_decision. Defined.
#[global] Instance LERUpdateResult_eq_dec : EqDecision LERUpdateResult.
Proof. solve_decision. Defined.
#[global] Instance ClaimResult_eq_dec : EqDecision ClaimResult.
Proof. solve_decision. Defined.
#[global] Instance L1SettledGERResult_eq_dec : EqDecision L1SettledGERResult.
Proof. solve_decision. Defined.
#[global] Instance SettlementSearchProgress_eq_dec : EqDecision SettlementSearchProgress.
Proof. solve_decision. Defined.
#[global] Instance CertificateData_eq_dec : EqDecision CertificateData.
Proof. solve_decision. Defined.
#[global] Instance PendingInclusionResult_eq_dec : EqDecision PendingInclusionResult.
Proof. solve_decision. Defined.
#[global] Instance StepResult_eq_dec : EqDecision StepResult.
Proof. solve_decision. Defined.

(** The step of a path; [ExpectedDuration] is never set. *)
Record BridgeStepPath := mkBridgeStepPath {
  sp_Step : BridgeStep;
  sp_Status : StepStatus;
  sp_StartDate : option Z;
  sp_EndDate : option Z;
  sp_Result : option StepResult;
  sp_Error : option ErrorStep
}.

Record BridgeInfo := mkBridgeInfo {
  bi_NetworkID : Z;
  bi_LeafType : Z;
  bi_DestinationNetwork : Z;
  bi_DepositCount : Z;
  bi_BlockNumber : Z;
  bi_BlockHash : Z;
  bi_LogIndex : Z;
  bi_OriginNetwork : Z;
  bi_OriginAddress : Z;
  bi_DestinationAddress : Z;
  bi_Amount : option Z;
  bi_BlockTimestamp : Z
}.

#[global] Instance BridgeStepPath_eq_dec : EqDecision BridgeStepPath.
Proof. solve_decision. Defined.
#[global] Instance BridgeInfo_eq_dec : EqDecision BridgeInfo.
Proof. solve_decision. Defined.

Definition BridgeTypeFor (originNetwork destinationNetwork : Z) : BridgeType :=
  if originNetwork =? 0 then BridgeTypeL1ToL2 else if destinationNetwork =? 0 then BridgeTypeL2ToL1 else BridgeTypeL2ToL2.

Definition BridgeInfo_BridgeType (b : BridgeInfo) : BridgeType := BridgeTypeFor (bi_NetworkID b) (bi_DestinationNetwork b).

Definition ExpectedPath (bridgeType : BridgeType) : list BridgeStep :=
  match bridgeType with
  | BridgeTypeL1ToL2 =>
      [StepWaitingGERUpdate; StepWaitingGERInjection; StepWaitingL1InfoLeafAvailable; StepWaitingClaim; StepClaimed]
  | BridgeTypeL2ToL1 =>
      [StepWaitingLERUpdate; StepPendingInclusion; StepCertificatePending; StepWaitL1SettledGER; StepWaitingL1InfoLeafAvailable;
       StepWaitingClaim; StepClaimed]
  | BridgeTypeL2ToL2 =>
      [StepWaitingLERUpdate; StepPendingInclusion; StepCertificatePending; StepWaitL1SettledGER; StepWaitingGERInjection;
       StepWaitingL1InfoLeafAvailable; StepWaitingClaim; StepClaimed]
  end.

Record TrackingBridgeTx := mkTrackingBridgeTx {
  tb_Error : option ErrorStep;
  tb_Info : option BridgeInfo;
  tb_StartDate : option Z;
  tb_Timeout : Z
}.

#[global] Instance TrackingBridgeTx_eq_dec : EqDecision TrackingBridgeTx.
Proof. solve_decision. Defined.

Definition emptyTx : TrackingBridgeTx := mkTrackingBridgeTx None None None 0.

Definition IsDone (t : TrackingBridgeTx) : bool := negb (is_nil (tb_Info t)) && is_nil (tb_Error t).
Definition hasErrorType (e : option ErrorStep) (ty : StepErrorType) : bool :=
  match e with Some e => bool_decide (es_ErrorType e = ty) | None => false end.
Definition IsInPermanentError (t : TrackingBridgeTx) : bool := hasErrorType (tb_Error t) StepErrorPermanent.
Definition IsInTerminalError (t : TrackingBridgeTx) : bool := IsInPermanentError t || hasErrorType (tb_Error t) StepErrorExhausted.
Definition IsOutdated (t : TrackingBridgeTx) (tstamp : Z) : bool :=
  match tb_StartDate t with None => false | Some start => tb_Timeout t <=? tstamp - start end.

Record TrackingID := mkTrackingID { tid_NetworkID : Z; tid_TxHash : Z }.

#[global] Instance TrackingID_eq_dec : EqDecision TrackingID.
Proof. solve_decision. Defined.
#[global] Instance TrackingID_countable : Countable TrackingID.
Proof. apply (inj_countable' (fun i => (tid_NetworkID i, tid_TxHash i)) (fun p => mkTrackingID (fst p) (snd p))). by intros []. Defined.

Record TrackingData := mkTrackingData { td_id : TrackingID; td_tx : TrackingBridgeTx; td_allSteps : list BridgeStepPath }.

#[global] Instance TrackingData_eq_dec : EqDecision TrackingData.
Proof. solve_decision. Defined.

Definition td_Info (t : TrackingData) : option BridgeInfo := tb_Info (td_tx t).

(** ** Status of a snapshot *)

Fixpoint indexWhere {A} (p : A -> bool) (l : list A) : option nat :=
  match l with
  | [] => None
  | x :: l => if p x then Some 0%nat else S <$> indexWhere p l
  end.

Definition isTransientStepError (step : BridgeStepPath) : bool :=
  bool_decide (sp_Status step = StepStatusError) && hasErrorType (sp_Error step) StepErrorTransient.
Definition isTerminalStepError (step : BridgeStepPath) : bool :=
  bool_decide (sp_Status step = StepStatusError) && negb (isTransientStepError step).

Definition StepIndex (t : TrackingData) : option nat :=
  match td_allSteps t with
  | [] => None
  | steps =>
      match indexWhere isTerminalStepError steps with
      | Some i => Some i
      | None =>
          match indexWhere (fun s => bool_decide (sp_Status s = StepStatusInProgress) || isTransientStepError s) steps with
          | Some i => Some i
          | None =>
              match indexWhere (fun s => bool_decide (sp_Status s = StepStatusPending)) steps with
              | Some i => Some i
              | None => Some (length steps - 1)%nat
              end
          end
      end
  end.

Definition currentStep (t : TrackingData) : option BridgeStepPath := i ← StepIndex t; td_allSteps t !! i.

Definition TrackingData_Error (t : TrackingData) : option ErrorStep :=
  match currentStep t with Some s => sp_Error s | None => tb_Error (td_tx t) end.

Definition convertStepStatusToTrackingStatus (step : BridgeStepPath) : TrackingStatus :=
  match sp_Status step with
  | StepStatusPending | StepStatusInProgress => TrackingStatusRunning
  | StepStatusDone | StepStatusSkipped => TrackingStatusFinished
  | StepStatusError => if isTransientStepError step then TrackingStatusRunning else TrackingStatusError
  end.

Definition TrackingStatusOf (t : TrackingData) : TrackingStatus :=
  match currentStep t with
  | Some s => convertStepStatusToTrackingStatus s
  | None => if IsInTerminalError (td_tx t) then TrackingStatusError
            else if IsDone (td_tx t) then TrackingStatusRunning else TrackingStatusRegistered
  end.

Definition ClaimStatus (t : TrackingData) : TrackerClaimStatus :=
  if bool_decide (TrackingStatusOf t = TrackingStatusError) then TrackerClaimStatusError
  else match currentStep t with
       | Some s =>
           match sp_Step s with
           | StepClaimed => if bool_decide (sp_Status s = StepStatusDone) then TrackerClaimStatusClaimed else TrackerClaimStatusPending
           | StepWaitingClaim => TrackerClaimStatusReadyToClaim
           | _ => TrackerClaimStatusPending
           end
       | None => TrackerClaimStatusPending
       end.

Definition Failed (t : TrackingData) : bool := bool_decide (TrackingStatusOf t = TrackingStatusError) && is_nil (td_Info t).
Definition IsTerminal (t : TrackingData) : bool := Failed t || bool_decide (TrackingStatusOf t = TrackingStatusFinished).
Definition TerminallyFailed (t : TrackingData) : bool := is_nil (td_Info t) && IsInTerminalError (td_tx t).

Definition MergeSteps (prev next : list BridgeStepPath) : list BridgeStepPath :=
  match next with [] => prev | _ => next ++ drop (length next) prev end.

(** ** Errors and resolvers *)

(** [errors.Is(err, ErrStepPending)] and [IsPermanent(err)] see through the wrapping of messages. *)
Record stepError := mkStepError { se_Error : string; se_Pending : bool; se_Permanent : bool }.

Definition wrapError (prefix : string) (e : stepError) : stepError :=
  mkStepError (prefix ++ ": " ++ se_Error e) (se_Pending e) (se_Permanent e).

Definition ErrStepPending : stepError := mkStepError "step not ready" true false.
Definition ErrCertificateNotSettled : stepError := wrapError "certificate not settled yet" ErrStepPending.
Definition ErrLeafIndexNotResolved : stepError := wrapError "settlement GER not resolved to a leaf index yet" ErrStepPending.

(** What [Resolve] returns: a result, an error, both or none. *)
Definition resolution : Type := option StepResult * option stepError.

Record StepResolver := mkStepResolver {
  rv_Resolve : TrackingData -> nat -> option resolution;
  rv_StartDate : option BridgeInfo -> option StepResult -> option (option Z);
  rv_EndDate : option StepResult -> option Z;
  rv_Warning : option StepResult -> option string
}.

Definition nanoseconds : Z := 1000000000.

(** [time.Unix(int64(ts), 0)]. *)
Definition blockTime (ts : Z) : option Z :=
  if ts =? 0 then None else Some ((if ts <? 2 ^ 63 then ts else ts - 2 ^ 64) * nanoseconds).
Definition blockTimePtr (ts : option Z) : option Z := ts ≫= blockTime.

(** ** The steps of a path *)

Definition maxErrorDescriptions : nat := 10.

Definition appendErrorDescription (descriptions : list string) (desc : string) : list string :=
  let descriptions := descriptions ++ [desc] in
  if (maxErrorDescriptions <? length descriptions)%nat then drop (length descriptions - maxErrorDescriptions) descriptions
  else descriptions.

Definition settledStatus (s : StepStatus) : bool := match s with StepStatusDone | StepStatusSkipped => true | _ => false end.

Definition currentStepIndex (steps : list BridgeStepPath) : option nat := indexWhere (fun sp => negb (settledStatus (sp_Status sp))) steps.

Definition indexOfStep (steps : list BridgeStepPath) (stepID : BridgeStep) : option nat :=
  indexWhere (fun sp => bool_decide (sp_Step sp = stepID)) steps.

Definition lastDescription (e : option ErrorStep) : string :=
  match e with
  | None => "step failed for a reason retrying cannot fix"
  | Some e => default "step failed for a reason retrying cannot fix" (last (es_Description e))
  end.

(** [None]: the panic on a terminal step without an error. *)
Definition stepFailure (current : BridgeStepPath) (stepErr : stepError) : option ErrorStep :=
  if se_Permanent stepErr then Some (mkErrorStep StepErrorPermanent 0 [se_Error stepErr])
  else if isTerminalStepError current then
    e ← sp_Error current;
    Some (mkErrorStep (es_ErrorType e) (es_RetryCount e + 1) (appendErrorDescription (es_Description e) (se_Error stepErr)))
  else
    Some (match sp_Error current with
          | Some e => mkErrorStep StepErrorTransient (es_RetryCount e + 1) (appendErrorDescription (es_Description e) (se_Error stepErr))
          | None => mkErrorStep StepErrorTransient 1 [se_Error stepErr]
          end).

Definition with_steps (t : TrackingData) (steps : list BridgeStepPath) : TrackingData := mkTrackingData (td_id t) (td_tx t) steps.

Definition orElse {A} (o o' : option A) : option A := match o with Some _ => o | None => o' end.

(** A completed step. *)
Definition completedStep (current : BridgeStepPath) (info : option BridgeInfo) (result : option StepResult) (now : Z)
    (resolver : option StepResolver) : option BridgeStepPath :=
  match resolver with
  | None => Some (mkBridgeStepPath (sp_Step current) StepStatusDone (sp_StartDate current) (Some now) result None)
  | Some r =>
      start ← rv_StartDate r info result;
      Some (mkBridgeStepPath (sp_Step current) StepStatusDone (orElse start (sp_StartDate current))
              (Some (default now (rv_EndDate r result))) result
              ((fun w => mkErrorStep StepErrorWarning 0 [w]) <$> rv_Warning r result))
  end.

Definition openedStep (next : BridgeStepPath) (start : option Z) : BridgeStepPath :=
  mkBridgeStepPath (sp_Step next) StepStatusInProgress start (sp_EndDate next) (sp_Result next) None.

Definition UpdateStep (tracking : TrackingData) (idx : nat) (result : option StepResult) (complete : bool) (stepErr : option stepError)
    (now : Z) (resolver : option StepResolver) : option TrackingData :=
  let steps := td_allSteps tracking in
  match steps !! idx with
  | None => Some tracking
  | Some current =>
      if is_nil stepErr && negb complete && is_nil (sp_Error current) && bool_decide (sp_Result current = result) then Some tracking
      else
        match stepErr with
        | Some e =>
            err ← stepFailure current e;
            Some (with_steps tracking (<[idx := mkBridgeStepPath (sp_Step current) StepStatusError (sp_StartDate current)
              (sp_EndDate current) result (Some err)]> steps))
        | None =>
            if complete then
              done ← completedStep current (td_Info tracking) result now resolver;
              let steps := <[idx := done]> steps in
              Some (with_steps tracking
                (match steps !! S idx with
                 | Some next => <[S idx := openedStep next (sp_EndDate done)]> steps
                 | None => steps
                 end))
            else
              Some (with_steps tracking (<[idx := mkBridgeStepPath (sp_Step current) StepStatusInProgress
                (orElse (sp_StartDate current) (Some now)) (sp_EndDate current) result None]> steps))
        end
  end.

Definition skippedStep (idx i : nat) (idxError : ErrorStep) (sp : BridgeStepPath) : BridgeStepPath :=
  mkBridgeStepPath (sp_Step sp) StepStatusSkipped (if (i =? 0)%nat then sp_StartDate sp else None) None (sp_Result sp)
    (if (i =? idx)%nat then Some idxError else None).

(** [None]: the panic on a path without [StepClaimed]. *)
Definition skipToClaimed (tracking : TrackingData) (idx : nat) (idxError : ErrorStep) (now : Z) : option TrackingData :=
  let steps := td_allSteps tracking in
  claimedIdx ← indexOfStep steps StepClaimed;
  let newSteps := imap (fun i sp => if ((idx <=? i) && (i <? claimedIdx))%nat then skippedStep idx i idxError sp else sp) steps in
  claimedStep ← newSteps !! claimedIdx;
  Some (with_steps tracking (<[claimedIdx := openedStep claimedStep (orElse (sp_StartDate claimedStep) (Some now))]> newSteps)).

Section Resolve.
(** What the resolvers and the check for claims answer in each round of the loop. *)
Context (resolvers : nat -> BridgeStep -> option StepResolver) (claimed : nat -> option BridgeInfo -> result stepError bool).

(** [Some None]: not claimed, or not known to be. *)
Definition trySkipToClaimed (round : nat) (tracking : TrackingData) (idx : nat) (idxError : ErrorStep) (now : Z)
  : option (option TrackingData) :=
  match claimed round (td_Info tracking) with
  | Ok true => Some <$> skipToClaimed tracking idx idxError now
  | _ => Some None
  end.

(** The outer [None] is more rounds than the fuel, the inner one a panic. *)
Fixpoint ResolveSteps (fuel round : nat) (tracking : TrackingData) (now : Z) : option (option (TrackingData * option stepError)) :=
  match fuel with
  | O => None
  | S fuel =>
      match currentStepIndex (td_allSteps tracking) with
      | None => Some (Some (tracking, None))
      | Some idx =>
          match td_allSteps tracking !! idx with
          | None => Some None
          | Some step =>
              let claimChecked := bool_decide (sp_Status step = StepStatusError) && negb (bool_decide (sp_Step step = StepClaimed)) in
              let before := if claimChecked then
                  trySkipToClaimed round tracking idx
                    (mkErrorStep (from_option es_ErrorType StepErrorTransient (sp_Error step)) (from_option es_RetryCount 0 (sp_Error step))
                      [lastDescription (sp_Error step)]) now
                else Some None in
              match before with
              | None => Some None
              | Some (Some skipped) => ResolveSteps fuel (S round) skipped now
              | Some None =>
                  if isTerminalStepError step then Some (Some (tracking, None))
                  else
                    match resolvers round (sp_Step step) with
                    | None => Some (Some (tracking, None))
                    | Some resolver =>
                        match rv_Resolve resolver tracking idx with
                        | None => Some None
                        | Some (result, None) =>
                            match UpdateStep tracking idx result true None now (Some resolver) with
                            | None => Some None
                            | Some tracking => ResolveSteps fuel (S round) tracking now
                            end
                        | Some (result, Some err) =>
                            let failed := Some ((fun t => (t, Some err)) <$> UpdateStep tracking idx result false (Some err) now (Some resolver)) in
                            if se_Pending err then
                              Some ((fun t => (t, None)) <$> UpdateStep tracking idx result false None now (Some resolver))
                            else if negb (bool_decide (sp_Step step = StepClaimed)) && negb claimChecked then
                              match trySkipToClaimed round tracking idx
                                      (mkErrorStep (if se_Permanent err then StepErrorPermanent else StepErrorTransient) 1 [se_Error err]) now with
                              | None => Some None
                              | Some (Some skipped) => ResolveSteps fuel (S round) skipped now
                              | Some None => failed
                              end
                            else failed
                        end
                    end
              end
          end
      end
  end.

End Resolve.
