(* ===== verification/TrackerResolvers.v ===== *)
(** The resolvers of the tracker's steps over the sources they ask ([bridgetracker/domain/resolve_step_*.go]), and the
    resolution of the transaction that created a bridge ([resolve_bridge_tx.go], [steps_path.go]). *)

From S2P Require Import Prelude AgglayerTypes Tracker.

(** ** Sources *)

(** The error of [FindBridge]: whether it is [ErrBridgeTxNotFound]. *)
Record findError := mkFindError { fe_NotFound : bool; fe_Error : stepError }.

Record ResultFindFirstL1InfoTreeAfterBlock := mkResultFindFirst {
  ff_LeafCount : Z;
  ff_BlockNumber : Z;
  ff_BlockTimestamp : Z;
  ff_LogIndex : Z;
  ff_GER : Z;
  ff_MainnetExitRoot : Z;
  ff_RollupExitRoot : Z
}.

(** A bridge is passed as the pointer the snapshot has.  The search for an earlier settlement answers its transaction, how far
    it got, and an error. *)
Record EngineSources := mkEngineSources {
  FindBridge : TrackingID -> result findError BridgeInfo;
  CertificateFor : option BridgeInfo -> result stepError (option CertificateInclusionData);
  FindFirstL1InfoTreeAfterBlock : Z -> Z -> result stepError (option ResultFindFirstL1InfoTreeAfterBlock);
  OriginLER : option BridgeInfo -> result stepError (option LERUpdateResult);
  IsClaimed : option BridgeInfo -> result stepError bool;
  ClaimFor : option BridgeInfo -> result stepError (option ClaimResult);
  SettlementGERUpdate : option BridgeInfo -> Z -> result stepError (option L1SettledGERResult);
  L1InfoTreeIndexForGER : option BridgeInfo -> Z -> result stepError (option Z);
  InjectedGERAtIndex : option BridgeInfo -> Z -> result stepError (option GERData);
  L1InfoTreeIndexForBridge : option BridgeInfo -> result stepError (option Z);
  Covers : option BridgeInfo -> Z -> result stepError bool;
  EarliestSettlementTxCovering : option BridgeInfo -> Z -> option SettlementSearchProgress ->
    option Z * option SettlementSearchProgress * option stepError
}.

(** ** Resolvers *)

Definition met (r : option StepResult) : resolution := (r, None).
Definition notYet (r : option StepResult) (e : stepError) : resolution := (r, Some e).
Definition waiting : resolution := notYet None ErrStepPending.

(** What is asked of a source, with its error wrapped. *)
Definition asked {A} (prefix : string) (r : result stepError A) (k : A -> resolution) : resolution :=
  match r with Err e => notYet None (wrapError prefix e) | Ok a => k a end.

(** The same for an answer that may be missing. *)
Definition asking {A} (prefix : string) (r : result stepError (option A)) (k : A -> resolution) : resolution :=
  asked prefix r (fun o => match o with None => waiting | Some a => k a end).

Section Resolvers.
Context (src : EngineSources).

Definition noStart : option BridgeInfo -> option StepResult -> option (option Z) := fun _ _ => Some None.
Definition creation : option BridgeInfo -> option StepResult -> option (option Z) := fun info _ => i ← info; Some (blockTime (bi_BlockTimestamp i)).
Definition noEnd : option StepResult -> option Z := fun _ => None.
Definition noWarning : option StepResult -> option string := fun _ => None.

Definition gerUpdateOf (r : ResultFindFirstL1InfoTreeAfterBlock) : GERUpdateResult :=
  mkGERUpdateResult (ff_LeafCount r -u32 1) (ff_GER r) (ff_MainnetExitRoot r) (ff_RollupExitRoot r) (ff_BlockNumber r)
    (ff_BlockTimestamp r) (ff_LogIndex r).

Definition WaitingGERUpdateResolver : StepResolver := {|
  rv_Resolve := fun tracking _ =>
    info ← td_Info tracking;
    Some (asking "origin GER" (FindFirstL1InfoTreeAfterBlock src (bi_BlockNumber info) (bi_LogIndex info))
      (fun r => met (Some (ResultGerUpdate (gerUpdateOf r)))));
  rv_StartDate := creation;
  rv_EndDate := fun r => match r with Some (ResultGerUpdate u) => blockTime (gu_BlockTimestamp u) | _ => None end;
  rv_Warning := noWarning
|}.

Definition WaitingLERUpdateResolver : StepResolver := {|
  rv_Resolve := fun tracking _ => Some (asking "origin LER" (OriginLER src (td_Info tracking)) (fun r => met (Some (ResultLerUpdate r))));
  rv_StartDate := creation;
  rv_EndDate := fun r => match r with Some (ResultLerUpdate u) => blockTime (lu_BlockTimestamp u) | _ => None end;
  rv_Warning := noWarning
|}.

Definition PendingInclusionResolver : StepResolver := {|
  rv_Resolve := fun tracking _ => Some (asking "certificate" (CertificateFor src (td_Info tracking)) (fun cert =>
    met (Some (ResultPendingInclusion (mkPendingInclusionResult (cd_CertificateID (id_CertificateData cert)) (id_NewLocalExitRoot cert)
      (id_PreviousLocalExitRoot cert))))));
  rv_StartDate := noStart;
  rv_EndDate := noEnd;
  rv_Warning := noWarning
|}.

Definition CertificatePendingResolver : StepResolver := {|
  rv_Resolve := fun tracking _ => Some (asking "certificate" (CertificateFor src (td_Info tracking)) (fun cert =>
    let data := id_CertificateData cert in
    if IsSettled (cd_Status data) && negb (is_nil (cd_BlockNumber data)) then met (Some (ResultCertificateData data))
    else notYet (Some (ResultCertificateData data)) ErrCertificateNotSettled));
  rv_StartDate := noStart;
  rv_EndDate := fun r => match r with Some (ResultCertificateData c) => blockTimePtr (cd_BlockTimestamp c) | _ => None end;
  rv_Warning := noWarning
|}.

(** The typed results of a step of the path. *)
Definition certificateOf (steps : list BridgeStepPath) : option CertificateData :=
  i ← indexOfStep steps StepCertificatePending;
  s ← steps !! i;
  match sp_Result s with Some (ResultCertificateData c) => Some c | _ => None end.

Definition inclusionOf (steps : list BridgeStepPath) : option PendingInclusionResult :=
  i ← indexOfStep steps StepPendingInclusion;
  s ← steps !! i;
  match sp_Result s with Some (ResultPendingInclusion p) => Some p | _ => None end.

Definition exactSettlementTxHash (tracking : TrackingData) (steps : list BridgeStepPath) (cert : CertificateData)
    (resume : option SettlementSearchProgress) : option Z * option SettlementSearchProgress * option stepError :=
  match inclusionOf steps ≫= pi_PreviousLER with
  | None => (None, None, None)
  | Some previousLER =>
      match Covers src (td_Info tracking) previousLER with
      | Err e => (None, None, Some (wrapError "checking previous LER coverage" e))
      | Ok false => (None, None, None)
      | Ok true =>
          match cd_BlockNumber cert with
          | None => (None, None, Some ErrStepPending)
          | Some blockNumber =>
              match EarliestSettlementTxCovering src (td_Info tracking) blockNumber resume with
              | (_, Some progress, Some e) =>
                  (None, Some progress, Some (wrapError "finding earliest settlement covering the bridge" e))
              | (_, Some progress, None) => (None, Some progress, Some ErrStepPending)
              | (_, None, Some e) => (None, None, Some (wrapError "finding earliest settlement covering the bridge" e))
              | (None, None, None) => (None, None, Some ErrStepPending)
              | (Some exact, None, None) => (Some exact, None, None)
              end
          end
      end
  end.

Definition withLeafIndex (s : L1SettledGERResult) (index : option Z) (usedEarlier : bool) : L1SettledGERResult :=
  mkL1SettledGERResult (lg_TxHash s) (lg_SettlementBlockNumber s) (lg_SettlementBlockTimestamp s) (lg_SettlementLogIndex s) (lg_GER s)
    (lg_GERBlockNumber s) (lg_GERBlockTimestamp s) (lg_GERLogIndex s) index (lg_HasVerifyBatchesTrustedAggregator s)
    (lg_HasUpdateL1InfoTree s) (lg_HasUpdateL1InfoTreeV2 s) usedEarlier.

Definition WaitL1SettledGERResolver : StepResolver := {|
  rv_Resolve := fun tracking idx =>
    let steps := td_allSteps tracking in
    match certificateOf steps with
    | None => Some waiting
    | Some cert =>
        match cd_SettlementTxHash cert with
        | None => Some waiting
        | Some certTxHash =>
            step ← steps !! idx;
            let resume := match sp_Result step with Some (ResultSettlementSearch p) => Some p | _ => None end in
            match exactSettlementTxHash tracking steps cert resume with
            | (_, Some progress, err) => Some (Some (ResultSettlementSearch progress), err)
            | (_, None, Some e) => Some (notYet None e)
            | (exact, None, None) =>
                Some (asking "settlement GER update" (SettlementGERUpdate src (td_Info tracking) (default certTxHash exact)) (fun fetched =>
                  let settlement := withLeafIndex fetched (lg_L1InfoTreeIndex fetched) (negb (is_nil exact)) in
                  if negb (is_nil (lg_L1InfoTreeIndex settlement)) then met (Some (ResultL1SettledGer settlement))
                  else asked "L1 info tree index for GER" (L1InfoTreeIndexForGER src (td_Info tracking) (lg_GER settlement)) (fun leafIndex =>
                    match leafIndex with
                    | None => notYet (Some (ResultL1SettledGer settlement)) ErrLeafIndexNotResolved
                    | Some index => met (Some (ResultL1SettledGer (withLeafIndex settlement (Some index) (negb (is_nil exact)))))
                    end)))
            end
        end
    end;
  rv_StartDate := fun _ r => Some (match r with
    | Some (ResultL1SettledGer s) => if lg_UsedEarlierSettlement s then blockTime (lg_SettlementBlockTimestamp s) else None
    | _ => None
    end);
  rv_EndDate := fun r => match r with Some (ResultL1SettledGer s) => blockTime (lg_SettlementBlockTimestamp s) | _ => None end;
  rv_Warning := noWarning
|}.

(** The inner [Err] is the error of the read; [None] the panic at the first step of a path. *)
Definition getLeafIndexFromPreviousStep (tracking : TrackingData) (idx : nat) : option (result stepError Z) :=
  match idx with
  | O => None
  | S prev =>
      step ← td_allSteps tracking !! prev;
      Some (match sp_Step step with
            | StepWaitL1SettledGER =>
                match sp_Result step with
                | Some (ResultL1SettledGer s) => match lg_L1InfoTreeIndex s with Some i => Ok i | None => Err ErrStepPending end
                | _ => Err ErrStepPending
                end
            | StepWaitingGERUpdate =>
                match sp_Result step with
                | Some (ResultGerUpdate u) => Ok (gu_L1InfoTreeIndex u)
                | _ => Err ErrStepPending
                end
            | _ => Err (mkStepError "unexpected previous step for StepWaitingGERInjection" false false)
            end)
  end.

(** [None]: the panic on an injected root without its hash. *)
Definition injectedResult (injected : GERData) : option InjectedGERResult :=
  ger ← gd_GER injected;
  Some (mkInjectedGERResult (mkInjectedGERL1Leaf ger (default 0 (gd_BlockNumber injected)) (default 0 (gd_BlockTimestamp injected)))
    ((fun n => mkInjectedL2GERBlock n (gd_L2BlockTimestamp injected)) <$> gd_L2BlockNumber injected)
    (gd_L2InjectionUnresolvedReason injected)).

Definition WaitingGERInjectionResolver : StepResolver := {|
  rv_Resolve := fun tracking idx =>
    leaf ← getLeafIndexFromPreviousStep tracking idx;
    match leaf with
    | Err e => Some (notYet None (wrapError "previous step" e))
    | Ok leafIndex =>
        match InjectedGERAtIndex src (td_Info tracking) leafIndex with
        | Err e => Some (notYet None (wrapError "injected GER" e))
        | Ok None => Some waiting
        | Ok (Some injected) => r ← injectedResult injected; Some (met (Some (ResultInjectedGer r)))
        end
    end;
  rv_StartDate := noStart;
  rv_EndDate := fun r => match r with
    | Some (ResultInjectedGer i) => b ← ir_L2InjectedGER i; blockTimePtr (i2_BlockTimestamp b)
    | _ => None
    end;
  rv_Warning := fun r => match r with
    | Some (ResultInjectedGer i) => if String.eqb (ir_L2InjectionWarning i) "" then None else Some (ir_L2InjectionWarning i)
    | _ => None
    end
|}.

Definition WaitingL1InfoLeafAvailableResolver : StepResolver := {|
  rv_Resolve := fun tracking _ => Some (asking "l1 info tree index for bridge" (L1InfoTreeIndexForBridge src (td_Info tracking))
    (fun index => met (Some (ResultL1InfoLeafAvailable index))));
  rv_StartDate := noStart;
  rv_EndDate := noEnd;
  rv_Warning := noWarning
|}.

Definition WaitingClaimResolver : StepResolver := {|
  rv_Resolve := fun tracking _ => Some (asked "claim status" (IsClaimed src (td_Info tracking)) (fun claimed =>
    if claimed : bool then met None else waiting));
  rv_StartDate := noStart;
  rv_EndDate := noEnd;
  rv_Warning := noWarning
|}.

Definition claimTime (r : option StepResult) : option Z := match r with Some (ResultClaim c) => blockTime (cr_BlockTimestamp c) | _ => None end.

Definition ClaimedResolver : StepResolver := {|
  rv_Resolve := fun tracking _ => Some (asking "claim info" (ClaimFor src (td_Info tracking)) (fun claim => met (Some (ResultClaim claim))));
  rv_StartDate := fun _ r => Some (claimTime r);
  rv_EndDate := claimTime;
  rv_Warning := noWarning
|}.

Definition createResolvers (step : BridgeStep) : option StepResolver :=
  Some (match step with
        | StepWaitingGERUpdate => WaitingGERUpdateResolver
        | StepWaitingLERUpdate => WaitingLERUpdateResolver
        | StepPendingInclusion => PendingInclusionResolver
        | StepCertificatePending => CertificatePendingResolver
        | StepWaitL1SettledGER => WaitL1SettledGERResolver
        | StepWaitingL1InfoLeafAvailable => WaitingL1InfoLeafAvailableResolver
        | StepWaitingGERInjection => WaitingGERInjectionResolver
        | StepWaitingClaim => WaitingClaimResolver
        | StepClaimed => ClaimedResolver
        end).

(** ** The transaction of a bridge *)

Definition PendingPath (bridgeType : BridgeType) (info : BridgeInfo) (resolvers : BridgeStep -> option StepResolver) (now : Z)
  : option (list BridgeStepPath) :=
  match ExpectedPath bridgeType with
  | [] => None
  | first :: rest =>
      start ← match resolvers first with Some r => rv_StartDate r (Some info) None | None => Some None end;
      Some (mkBridgeStepPath first StepStatusInProgress (Some (default now start)) None None None ::
            map (fun s => mkBridgeStepPath s StepStatusPending None None None None) rest)
  end.

(** [idString]: the text of an identifier. *)
Definition ResolveBridgeTx (idString : TrackingID -> string) (resolvers : BridgeStep -> option StepResolver) (tracking : TrackingData)
    (unresolvedTimeout now : Z) : option (TrackingData * option stepError) :=
  let tx := td_tx tracking in
  if IsDone tx then Some (tracking, None)
  else
    let '(startDate, timeout) := match tb_StartDate tx with None => (Some now, unresolvedTimeout) | Some s => (Some s, tb_Timeout tx) end in
    let id := td_id tracking in
    match FindBridge src id with
    | Ok info =>
        allSteps ← match td_allSteps tracking with [] => PendingPath (BridgeInfo_BridgeType info) info resolvers now | steps => Some steps end;
        Some (mkTrackingData id (mkTrackingBridgeTx None (Some info) startDate timeout) allSteps, None)
    | Err fe =>
        let err := fe_Error fe in
        let description := if fe_NotFound fe then (idString id ++ " does not exist on the network")%string else se_Error err in
        let failed error := Some (mkTrackingData id (mkTrackingBridgeTx (Some error) (tb_Info tx) startDate timeout) (td_allSteps tracking), Some err) in
        if se_Permanent err then failed (mkErrorStep StepErrorPermanent 0 [description])
        else
          let '(retryCount, descriptions) := match tb_Error tx with
            | Some e => (es_RetryCount e + 1, appendErrorDescription (es_Description e) description)
            | None => (1, [description])
            end in
          let errorType := if IsOutdated (mkTrackingBridgeTx (tb_Error tx) (tb_Info tx) startDate timeout) now
            then StepErrorExhausted else StepErrorTransient in
          failed (mkErrorStep errorType retryCount descriptions)
    end.

End Resolvers.
