(* ===== verification/TrackerEngine.v ===== *)
(** The registry of supervised bridges ([bridgetracker/registry.go]) and the engine that resolves them
    ([bridgetracker/engine.go]).

    The records of bridges are objects: a subscriber keeps the record it subscribed to, also after the registry forgot it, so
    records live in a heap and the registry maps identifiers to them.  Each operation of the registry runs under its lock; the
    steps of the engine and the operations of clients interleave. *)

From S2P Require Import Prelude AgglayerTypes Tracker TrackerResolvers.

(** ** The registry *)

(** [be_subscribers]: the update each channel holds, of a buffer of one. *)
Record bridgeEntry := mkBridgeEntry {
  be_tracking : TrackingData;
  be_subscribers : gmap nat (option TrackingData);
  be_terminalSince : option Z;
  be_lastAccess : Z
}.

Record memoryRegistry := mkMemoryRegistry {
  mr_heap : gmap nat bridgeEntry;
  mr_bridges : gmap TrackingID nat;
  mr_next : nat;
  mr_maxEntries : Z;
  mr_trigger : list TrackingID
}.

Inductive regError := ErrTrackingNotFound | ErrRegistryFull.

Definition triggerBufferSize : nat := 256.
Definition DefaultMaxTrackedBridges : Z := 100000.

Definition newMemoryRegistry (maxEntries : Z) : memoryRegistry :=
  mkMemoryRegistry ∅ ∅ 0 (if maxEntries <=? 0 then DefaultMaxTrackedBridges else maxEntries) [].

Definition set_heap (f : gmap nat bridgeEntry -> gmap nat bridgeEntry) (r : memoryRegistry) : memoryRegistry :=
  mkMemoryRegistry (f (mr_heap r)) (mr_bridges r) (mr_next r) (mr_maxEntries r) (mr_trigger r).
Definition set_bridges (f : gmap TrackingID nat -> gmap TrackingID nat) (r : memoryRegistry) : memoryRegistry :=
  mkMemoryRegistry (mr_heap r) (f (mr_bridges r)) (mr_next r) (mr_maxEntries r) (mr_trigger r).
Definition set_entry (ref : nat) (f : bridgeEntry -> bridgeEntry) : memoryRegistry -> memoryRegistry := set_heap (alter f ref).

Definition set_access (now : Z) (e : bridgeEntry) : bridgeEntry :=
  mkBridgeEntry (be_tracking e) (be_subscribers e) (be_terminalSince e) now.
Definition set_subscribers (f : gmap nat (option TrackingData) -> gmap nat (option TrackingData)) (e : bridgeEntry) : bridgeEntry :=
  mkBridgeEntry (be_tracking e) (f (be_subscribers e)) (be_terminalSince e) (be_lastAccess e).
Definition set_tracking (t : TrackingData) (e : bridgeEntry) : bridgeEntry :=
  mkBridgeEntry t (be_subscribers e) (be_terminalSince e) (be_lastAccess e).

(** A full buffer drops the signal. *)
Definition signalTrigger (id : TrackingID) (r : memoryRegistry) : memoryRegistry :=
  mkMemoryRegistry (mr_heap r) (mr_bridges r) (mr_next r) (mr_maxEntries r)
    (if (length (mr_trigger r) <? triggerBufferSize)%nat then mr_trigger r ++ [id] else mr_trigger r).

Definition freshEntry (id : TrackingID) (now : Z) : bridgeEntry := mkBridgeEntry (mkTrackingData id emptyTx []) ∅ None now.

Definition create (id : TrackingID) (now : Z) (r : memoryRegistry) : result regError (nat * memoryRegistry) :=
  if mr_maxEntries r <=? Z.of_nat (size (mr_bridges r)) then Err ErrRegistryFull
  else
    let ref := mr_next r in
    Ok (ref, signalTrigger id (mkMemoryRegistry (<[ref := freshEntry id now]> (mr_heap r)) (<[id := ref]> (mr_bridges r)) (S ref)
      (mr_maxEntries r) (mr_trigger r))).

(** The record of a bridge, created when it is missing and may be. *)
Definition entryFor (id : TrackingID) (createIfNotExists : bool) (now : Z) (r : memoryRegistry) : result regError (nat * memoryRegistry) :=
  match mr_bridges r !! id with
  | Some ref => Ok (ref, r)
  | None => if createIfNotExists then create id now r else Err ErrTrackingNotFound
  end.

Definition trackingAt (r : memoryRegistry) (ref : nat) : option TrackingData := be_tracking <$> mr_heap r !! ref.

Definition reg_Get (id : TrackingID) (createIfNotExists : bool) (now : Z) (r : memoryRegistry)
  : memoryRegistry * result regError (option TrackingData) :=
  match entryFor id createIfNotExists now r with
  | Err e => (r, Err e)
  | Ok (ref, r) => (set_entry ref (set_access now) r, Ok (trackingAt r ref))
  end.

(** The channel of a new subscription, with its record. *)
Definition subscribeTo (ref : nat) (r : memoryRegistry) : memoryRegistry * (nat * nat) :=
  let ch := mr_next r in
  (mkMemoryRegistry (alter (set_subscribers <[ch := None]>) ref (mr_heap r)) (mr_bridges r) (S ch) (mr_maxEntries r) (mr_trigger r), (ref, ch)).

Definition unsubscribe (sub : nat * nat) : memoryRegistry -> memoryRegistry := set_entry (fst sub) (set_subscribers (delete (snd sub))).

Definition reg_Subscribe (id : TrackingID) (now : Z) (r : memoryRegistry) : memoryRegistry * result regError (nat * nat) :=
  match entryFor id true now r with
  | Err e => (r, Err e)
  | Ok (ref, r) => let '(r, sub) := subscribeTo ref (set_entry ref (set_access now) r) in (r, Ok sub)
  end.

(** What a channel holds is taken. *)
Definition receive (sub : nat * nat) (r : memoryRegistry) : memoryRegistry * option TrackingData :=
  match mr_heap r !! fst sub ≫= fun e => be_subscribers e !! snd sub with
  | Some (Some t) => (set_entry (fst sub) (set_subscribers <[snd sub := None]>) r, Some t)
  | _ => (r, None)
  end.

(** The first part of [GetAndAwait], up to the wait: a snapshot, or the subscription to wait on. *)
Definition reg_GetAndAwait (id : TrackingID) (timeout now : Z) (r : memoryRegistry)
  : memoryRegistry * result regError (option TrackingData + nat * nat) :=
  let existed := negb (is_nil (mr_bridges r !! id)) in
  match entryFor id true now r with
  | Err e => (r, Err e)
  | Ok (ref, r) =>
      let r := set_entry ref (set_access now) r in
      if existed || (timeout <=? 0) then (r, Ok (inl (trackingAt r ref)))
      else let '(r, sub) := subscribeTo ref r in (r, Ok (inr sub))
  end.

(** The second part: the update when there is one, else, when the time is over, the snapshot of the record. *)
Definition awaited (sub : nat * nat) (r : memoryRegistry) : memoryRegistry * option TrackingData :=
  let '(r', update) := receive sub r in
  (unsubscribe sub r', match update with Some t => Some t | None => trackingAt r' (fst sub) end).

Definition notify (update : TrackingData) (e : bridgeEntry) : bridgeEntry := set_subscribers (fmap (fun _ => Some update)) e.

Definition stampTerminal (now : Z) (e : bridgeEntry) : bridgeEntry :=
  mkBridgeEntry (be_tracking e) (be_subscribers e)
    (if is_nil (be_terminalSince e) && IsTerminal (be_tracking e) then Some now else be_terminalSince e) (be_lastAccess e).

(** What an update does to the record of a bridge, after which it is checked for its end and published. *)
Definition updateEntry (id : TrackingID) (now : Z) (f : TrackingData -> TrackingData) (r : memoryRegistry) : memoryRegistry * result regError unit :=
  match mr_bridges r !! id with
  | None => (r, Err ErrTrackingNotFound)
  | Some ref =>
      (set_entry ref (fun e => let e := stampTerminal now (set_tracking (f (be_tracking e)) e) in notify (be_tracking e) e) r, Ok tt)
  end.

(** The code compares the printed fields of the two transactions. *)
Definition UpdateTrackingBridgeTx (id : TrackingID) (tx : TrackingBridgeTx) (now : Z) : memoryRegistry -> memoryRegistry * result regError unit :=
  updateEntry id now (fun t => if bool_decide (td_tx t = tx) then t else mkTrackingData id tx (td_allSteps t)).

Definition UpdateTracking (id : TrackingID) (tx : TrackingBridgeTx) (allSteps : list BridgeStepPath) (now : Z)
  : memoryRegistry -> memoryRegistry * result regError unit :=
  updateEntry id now (fun t => mkTrackingData id tx (if TerminallyFailed t then td_allSteps t else MergeSteps (td_allSteps t) allSteps)).

(** A step beyond the end leaves empty steps before it. *)
Definition emptyStep : BridgeStepPath := mkBridgeStepPath StepWaitingGERUpdate StepStatusPending None None None None.

Definition UpdateTrackingStep (id : TrackingID) (stepIndex : nat) (step : BridgeStepPath) (r : memoryRegistry)
  : memoryRegistry * result regError unit :=
  match mr_bridges r !! id with
  | None => (r, Err ErrTrackingNotFound)
  | Some ref =>
      (set_entry ref (fun e =>
         let t := be_tracking e in
         if TerminallyFailed t then e
         else
           let prev := td_allSteps t in
           set_tracking (mkTrackingData id (td_tx t)
             (<[stepIndex := step]> (prev ++ replicate (S stepIndex - length prev) emptyStep))) e) r, Ok tt)
  end.

Definition entries (r : memoryRegistry) : list (TrackingID * bridgeEntry) :=
  omap (fun p => e ← mr_heap r !! snd p; Some (fst p, e)) (map_to_list (mr_bridges r)).

Definition GetTrackerActives (networkID : option Z) (r : memoryRegistry) : list TrackingData :=
  map (fun p => be_tracking (snd p))
    (bfilter (fun p => match networkID with Some n => tid_NetworkID (fst p) =? n | None => true end && negb (IsTerminal (be_tracking (snd p)))) (entries r)).

(** The bridges whose record satisfies a test are forgotten. *)
Definition forgetWhere (p : bridgeEntry -> bool) (r : memoryRegistry) : memoryRegistry * Z :=
  let kept := filter (fun q => from_option p false (mr_heap r !! snd q) = false) (mr_bridges r) in
  (set_bridges (fun _ => kept) r, Z.of_nat (size (mr_bridges r)) - Z.of_nat (size kept)).

Definition PruneTerminal (olderThan : Z) : memoryRegistry -> memoryRegistry * Z :=
  forgetWhere (fun e => match be_terminalSince e with Some t => t <? olderThan | None => false end).
Definition PruneIdle (olderThan : Z) : memoryRegistry -> memoryRegistry * Z :=
  forgetWhere (fun e => bool_decide (be_subscribers e = ∅) && (be_lastAccess e <? olderThan)).
Definition Forget (id : TrackingID) : memoryRegistry -> memoryRegistry := set_bridges (delete id).

Definition GetNetworks (status : option TrackingStatus) (r : memoryRegistry) : list Z :=
  merge_sort Z.le (elements (list_to_set (map (fun p => tid_NetworkID (fst p))
    (bfilter (fun p => match status with Some s => bool_decide (TrackingStatusOf (be_tracking (snd p)) = s) | None => true end) (entries r))) : gset Z)).
Definition GetNumTracker (r : memoryRegistry) : Z := Z.of_nat (size (mr_bridges r)).

(** ** The engine *)

Record EngineConfig := mkEngineConfig {
  ec_PollInterval : Z;
  ec_ResolveTimeout : Z;
  ec_UnresolvedTimeout : Z;
  ec_RetentionPeriod : Z;
  ec_IdleTimeout : Z;
  ec_MaxConcurrentResolutions : Z
}.

Definition orDefault (v d : Z) : Z := if v <=? 0 then d else v.

Definition withDefaults (cfg : EngineConfig) : EngineConfig :=
  mkEngineConfig (orDefault (ec_PollInterval cfg) (10 * nanoseconds)) (orDefault (ec_ResolveTimeout cfg) (30 * nanoseconds))
    (orDefault (ec_UnresolvedTimeout cfg) (30 * nanoseconds)) (orDefault (ec_RetentionPeriod cfg) (600 * nanoseconds))
    (orDefault (ec_IdleTimeout cfg) (1800 * nanoseconds)) (orDefault (ec_MaxConcurrentResolutions cfg) 50).

Section Engine.
Context (idString : TrackingID -> string) (cfg : EngineConfig).
(** The sources while a bridge is resolved: at the transaction, and in each round of its steps. *)
Context (src0 : EngineSources) (src : nat -> EngineSources).

(** What a resolution writes: nothing, the facts of the transaction, or these with the steps. *)
Inductive commit :=
| NoCommit
| CommitTx (tx : TrackingBridgeTx)
| CommitTracking (tx : TrackingBridgeTx) (allSteps : list BridgeStepPath).

(** Enough for every path: each round completes a step or skips to the last. *)
Definition stepFuel (t : TrackingData) : nat := S (length (td_allSteps t)).

Definition computeAllSteps (tracking : TrackingData) (now : Z) : option (option (TrackingData * option stepError)) :=
  ResolveSteps (fun k => createResolvers (src k)) (fun k => IsClaimed (src k)) (stepFuel tracking) 0 tracking now.

(** The resolution of the transaction, or what is written when it fails. *)
Definition resolveBridgeTx (tracking : TrackingData) (now : Z) : option (TrackingData + commit) :=
  if IsDone (td_tx tracking) then Some (inl tracking)
  else
    match ResolveBridgeTx src0 idString (createResolvers src0) tracking (ec_UnresolvedTimeout cfg) now with
    | None => None
    | Some (resolved, Some _) => Some (inr (CommitTx (td_tx resolved)))
    | Some (resolved, None) => Some (inl resolved)
    end.

(** [None]: a panic; the fuel is enough for every path. *)
Definition resolveBridgeStep (tracking : TrackingData) (now : Z) : option commit :=
  match resolveBridgeTx tracking now with
  | None => None
  | Some (inr c) => Some c
  | Some (inl resolved) =>
      match computeAllSteps resolved now with
      | Some (Some (stepped, Some _)) => Some (CommitTracking (td_tx stepped) (td_allSteps stepped))
      | Some (Some (stepped, None)) =>
          if negb (bool_decide (td_tx tracking = td_tx stepped)) || negb (bool_decide (td_allSteps resolved = td_allSteps stepped))
          then Some (CommitTracking (td_tx stepped) (td_allSteps stepped)) else Some NoCommit
      | Some None | None => None
      end
  end.

Definition persist (id : TrackingID) (c : commit) (now : Z) (r : memoryRegistry) : memoryRegistry :=
  match c with
  | NoCommit => r
  | CommitTx tx => fst (UpdateTrackingBridgeTx id tx now r)
  | CommitTracking tx allSteps => fst (UpdateTracking id tx allSteps now r)
  end.

End Engine.

(** ** Runs *)

(** The registry and the snapshots the engine is resolving. *)
Record engineState := mkEngineState { en_registry : memoryRegistry; en_inFlight : list TrackingData }.

(** What clients do. *)
Inductive apiCall :=
| CallGet (id : TrackingID) (createIfNotExists : bool)
| CallGetAndAwait (id : TrackingID) (timeout : Z)
| CallAwaited (sub : nat * nat)
| CallSubscribe (id : TrackingID)
| CallReceive (sub : nat * nat)
| CallUnsubscribe (sub : nat * nat)
| CallForget (id : TrackingID).

Definition call (c : apiCall) (now : Z) (r : memoryRegistry) : memoryRegistry :=
  match c with
  | CallGet id b => fst (reg_Get id b now r)
  | CallGetAndAwait id timeout => fst (reg_GetAndAwait id timeout now r)
  | CallAwaited sub => fst (awaited sub r)
  | CallSubscribe id => fst (reg_Subscribe id now r)
  | CallReceive sub => fst (receive sub r)
  | CallUnsubscribe sub => unsubscribe sub r
  | CallForget id => Forget id r
  end.

Definition popTrigger (r : memoryRegistry) : memoryRegistry :=
  mkMemoryRegistry (mr_heap r) (mr_bridges r) (mr_next r) (mr_maxEntries r) (tail (mr_trigger r)).

Section Runs.
Context (idString : TrackingID -> string) (cfg : EngineConfig) (truthful : EngineSources -> Prop).

(** A tick reads the active bridges and resolves them in any order, then prunes; a trigger resolves one bridge.  Both run in one
    loop; clients call at any time.  The sources of every resolution satisfy [truthful]. *)
Inductive engine_step : engineState -> engineState -> Prop :=
| step_tick r : engine_step (mkEngineState r []) (mkEngineState r (GetTrackerActives None r))
| step_trigger r id rest now r' t :
    mr_trigger r = id :: rest -> reg_Get id false now (popTrigger r) = (r', Ok (Some t)) ->
    engine_step (mkEngineState r []) (mkEngineState r' [t])
| step_trigger_gone r id rest now r' e :
    mr_trigger r = id :: rest -> reg_Get id false now (popTrigger r) = (r', Err e) ->
    engine_step (mkEngineState r []) (mkEngineState r' [])
| step_resolve r l1 t l2 src0 src now now' c :
    truthful src0 -> (forall k, truthful (src k)) -> resolveBridgeStep idString cfg src0 src t now = Some c ->
    engine_step (mkEngineState r (l1 ++ t :: l2)) (mkEngineState (persist (td_id t) c now' r) (l1 ++ l2))
| step_prune r now now' :
    engine_step (mkEngineState r [])
      (mkEngineState (fst (PruneIdle (now' - ec_IdleTimeout cfg) (fst (PruneTerminal (now - ec_RetentionPeriod cfg) r)))) [])
| step_call r l c now : engine_step (mkEngineState r l) (mkEngineState (call c now r) l).

Definition started (s : engineState) : Prop := exists maxEntries, s = mkEngineState (newMemoryRegistry maxEntries) [].

Definition reachable (s : engineState) : Prop := exists s0, started s0 /\ rtc engine_step s0 s.

End Runs.
