(* ===== verification/TrackerProofs.v ===== *)
(** What the bridge tracker reports: every step called done was confirmed by a source, a finished bridge was claimed, the path
    only grows, resolutions end, and subscribers see the latest snapshot. *)

From S2P Require Import Prelude AgglayerTypes Tracker TrackerResolvers TrackerEngine.

(** ** Searches *)

Lemma indexWhere_Some {A} (p : A -> bool) l i :
  indexWhere p l = Some i <-> exists x, l !! i = Some x /\ p x = true /\ forall j y, (j < i)%nat -> l !! j = Some y -> p y = false.
Proof.
  revert i. induction l as [|x l IH]; intros i; cbn [indexWhere].
  { split; [done | by intros (x & ? & _)]. }
  destruct (p x) eqn:Ex.
  - split; [intros [= <-]; exists x; repeat split; [done | lia]|]. intros (y & Hy & Hp & Hmin). destruct i as [|i]; [done|].
    specialize (Hmin 0%nat x ltac:(lia) eq_refl). congruence.
  - split.
    + destruct (indexWhere p l) as [j|] eqn:E; [|done]. intros [= <-]. destruct (proj1 (IH j) eq_refl) as (y & Hy & Hp & Hmin).
      exists y. repeat split; [done|done|]. intros [|k] z Hk Hz; [by injection Hz as <-|]. apply (Hmin k); [lia | done].
    + intros (y & Hy & Hp & Hmin). destruct i as [|i]; [injection Hy as <-; congruence|]. rewrite (proj2 (IH i)); [done|].
      exists y. split; [done|]. split; [done|]. intros j z Hj Hz. apply (Hmin (S j)); [lia | done].
Qed.

Lemma indexWhere_None {A} (p : A -> bool) l : indexWhere p l = None <-> forall x, x ∈ l -> p x = false.
Proof.
  induction l as [|x l IH]; cbn [indexWhere].
  { split; [intros _ x H; by apply not_elem_of_nil in H | done]. }
  destruct (p x) eqn:Ex.
  - split; [done|]. intros H. rewrite (H x) in Ex; [done | apply elem_of_cons; by left].
  - transitivity (indexWhere p l = None); [by destruct (indexWhere p l)|]. rewrite IH. split.
    + intros H y [->|Hy]%elem_of_cons; auto.
    + intros H y Hy. apply H, elem_of_cons. by right.
Qed.

Lemma indexWhere_map {A B} (f : A -> B) p l : indexWhere p (map f l) = indexWhere (fun x => p (f x)) l.
Proof. induction l as [|x l IH]; cbn [map indexWhere]; [done|]. by rewrite IH. Qed.

(** ** Paths *)

Section Paths.
Context (truthful : EngineSources -> Prop).

(** The answer with which a source confirms a step at index [i] of a path. *)
Definition confirms (src : EngineSources) (info : BridgeInfo) (steps : list BridgeStepPath) (i : nat) (step : BridgeStep)
    (r : option StepResult) : Prop :=
  match step with
  | StepWaitingGERUpdate => exists f,
      FindFirstL1InfoTreeAfterBlock src (bi_BlockNumber info) (bi_LogIndex info) = Ok (Some f) /\ r = Some (ResultGerUpdate (gerUpdateOf f))
  | StepWaitingLERUpdate => exists l, OriginLER src (Some info) = Ok (Some l) /\ r = Some (ResultLerUpdate l)
  | StepPendingInclusion => exists c, CertificateFor src (Some info) = Ok (Some c) /\
      r = Some (ResultPendingInclusion (mkPendingInclusionResult (cd_CertificateID (id_CertificateData c)) (id_NewLocalExitRoot c) (id_PreviousLocalExitRoot c)))
  | StepCertificatePending => exists c, CertificateFor src (Some info) = Ok (Some c) /\ cd_Status (id_CertificateData c) = Settled /\
      cd_BlockNumber (id_CertificateData c) <> None /\ r = Some (ResultCertificateData (id_CertificateData c))
  | StepWaitL1SettledGER => exists tx s index used, SettlementGERUpdate src (Some info) tx = Ok (Some s) /\
      (lg_L1InfoTreeIndex s = Some index \/ L1InfoTreeIndexForGER src (Some info) (lg_GER s) = Ok (Some index)) /\
      r = Some (ResultL1SettledGer (withLeafIndex s (Some index) used))
  | StepWaitingGERInjection => exists index g res,
      getLeafIndexFromPreviousStep (mkTrackingData (mkTrackingID 0 0) emptyTx steps) i = Some (Ok index) /\
      InjectedGERAtIndex src (Some info) index = Ok (Some g) /\ injectedResult g = Some res /\ r = Some (ResultInjectedGer res)
  | StepWaitingL1InfoLeafAvailable => exists index, L1InfoTreeIndexForBridge src (Some info) = Ok (Some index) /\ r = Some (ResultL1InfoLeafAvailable index)
  | StepWaitingClaim => IsClaimed src (Some info) = Ok true
  | StepClaimed => exists c, ClaimFor src (Some info) = Ok (Some c) /\ r = Some (ResultClaim c)
  end.

(** A step that needs no more attention: confirmed, or passed over because the bridge was claimed. *)
Definition settled_step (info : BridgeInfo) (steps : list BridgeStepPath) (i : nat) (s : BridgeStepPath) : Prop :=
  (sp_Status s = StepStatusDone /\ exists src, truthful src /\ confirms src info steps i (sp_Step s) (sp_Result s)) \/
  (sp_Status s = StepStatusSkipped /\ sp_Step s <> StepClaimed /\ exists src, truthful src /\ IsClaimed src (Some info) = Ok true).

Definition active_step (s : BridgeStepPath) : Prop :=
  sp_Status s = StepStatusInProgress \/
  sp_Status s = StepStatusError /\ exists e, sp_Error s = Some e /\ (es_ErrorType e = StepErrorTransient \/ es_ErrorType e = StepErrorPermanent).

(** The path of a bridge whose current step is [k]. *)
Record path_at (info : BridgeInfo) (k : nat) (steps : list BridgeStepPath) : Prop := {
  pa_ids : map sp_Step steps = ExpectedPath (BridgeInfo_BridgeType info);
  pa_le : (k <= length steps)%nat;
  pa_before : forall i s, steps !! i = Some s -> (i < k)%nat -> settled_step info steps i s;
  pa_current : forall s, steps !! k = Some s -> active_step s;
  pa_after : forall i s, steps !! i = Some s -> (k < i)%nat -> sp_Status s = StepStatusPending
}.

Lemma settled_step_status info steps i s : settled_step info steps i s -> settledStatus (sp_Status s) = true.
Proof. by intros [[-> _]|[-> _]]. Qed.

Lemma active_step_status s : active_step s -> settledStatus (sp_Status s) = false.
Proof. by intros [->|[-> _]]. Qed.

Lemma path_current info k steps s : path_at info k steps -> steps !! k = Some s -> currentStepIndex steps = Some k.
Proof.
  intros H Hk. apply indexWhere_Some. exists s. split; [done|]. split.
  - by rewrite (active_step_status s (pa_current _ _ _ H s Hk)).
  - intros j y Hj Hy. by rewrite (settled_step_status info steps j y (pa_before _ _ _ H j y Hy Hj)).
Qed.

Lemma path_end info k steps : path_at info k steps -> length steps = k -> currentStepIndex steps = None.
Proof.
  intros H Hk. apply indexWhere_None. intros y Hy. apply list_elem_of_lookup in Hy as [j Hj].
  rewrite (settled_step_status info steps j y); [done|]. apply (pa_before _ _ _ H); [done|]. apply lookup_lt_Some in Hj. lia.
Qed.

(** The claim is the last step, and only that one. *)
Lemma path_claimed info k steps : path_at info k steps ->
  indexOfStep steps StepClaimed = Some (length steps - 1)%nat /\ (0 < length steps)%nat.
Proof.
  intros H. pose proof (pa_ids _ _ _ H) as E. 
  assert (indexOfStep steps StepClaimed = indexWhere (fun x => bool_decide (x = StepClaimed)) (map sp_Step steps)) as ->
    by (by rewrite indexWhere_map).
  rewrite E.  rewrite <- (length_map sp_Step), E. destruct (BridgeInfo_BridgeType info); cbn; (split; [reflexivity | lia]).
Qed.

Lemma path_last info k steps i s : path_at info k steps -> steps !! i = Some s -> (i < length steps - 1)%nat -> sp_Step s <> StepClaimed.
Proof.
  intros H Hi Hlt He. destruct (path_claimed info k steps H) as [Hc _]. apply indexWhere_Some in Hc as (x & _ & _ & Hmin).
  specialize (Hmin i s Hlt Hi). rewrite He in Hmin. done.
Qed.

(** Steps before the current one stay settled when the rest changes. *)
Lemma settled_stable info steps steps' k i s :
  (forall j, (j < k)%nat -> steps' !! j = steps !! j) -> (i <= k)%nat -> settled_step info steps i s -> settled_step info steps' i s.
Proof.
  intros Hs Hi [[Hd (src & Ht & Hc)]|H]; [|by right]. left. split; [done|]. exists src. split; [done|].
  destruct (sp_Step s); try exact Hc. destruct Hc as (index & g & res & Hp & Hrest). exists index, g, res. split; [|done].
  unfold getLeafIndexFromPreviousStep in *. destruct i as [|i]; [done|]. cbn [td_allSteps] in *. by rewrite Hs by lia.
Qed.

Lemma path_ids info k steps : path_at info k steps -> forall i s s', steps !! i = Some s -> sp_Step s' = sp_Step s ->
  map sp_Step (<[i := s']> steps) = map sp_Step steps.
Proof.
  intros _ i s s' Hi He. change (map sp_Step) with (fmap sp_Step (M := list)). rewrite list_fmap_insert, He. apply list_insert_id.
  by rewrite list_lookup_fmap, Hi.
Qed.

(** The current step changes without being settled. *)
Lemma path_keep info k steps s s' : path_at info k steps -> steps !! k = Some s -> sp_Step s' = sp_Step s -> active_step s' ->
  path_at info k (<[k := s']> steps).
Proof.
  intros H Hk He Ha. assert (forall j, j <> k -> <[k := s']> steps !! j = steps !! j) as Hne by (intros j Hj; by apply list_lookup_insert_ne).
  split.
  - rewrite (path_ids info k steps H k s s' Hk He). apply H.
  - rewrite length_insert. apply H.
  - intros i x Hx Hi. rewrite Hne in Hx by lia. apply (settled_stable info steps _ k i); [|lia | by apply H].
    intros j Hj. apply Hne. lia.
  - intros x Hx. rewrite list_lookup_insert_eq in Hx by (by apply lookup_lt_Some in Hk). by injection Hx as <-.
  - intros i x Hx Hi. rewrite Hne in Hx by lia. by apply (pa_after _ _ _ H i).
Qed.

(** The current step is settled and the next one opened. *)
Lemma path_advance info k steps s s' : path_at info k steps -> steps !! k = Some s -> sp_Step s' = sp_Step s ->
  settled_step info (<[k := s']> steps) k s' ->
  path_at info (S k) (match <[k := s']> steps !! S k with
                      | Some next => <[S k := openedStep next (sp_EndDate s')]> (<[k := s']> steps)
                      | None => <[k := s']> steps
                      end).
Proof.
  intros H Hk He Hset. set (l := <[k := s']> steps) in *. pose proof (lookup_lt_Some _ _ _ Hk) as Hlt.
  assert (forall j, j <> k -> l !! j = steps !! j) as Hne by (intros j Hj; by apply list_lookup_insert_ne).
  assert (l !! k = Some s') as Hlk by (by apply list_lookup_insert_eq). assert (length l = length steps) as Hlen by apply length_insert.
  assert (map sp_Step l = ExpectedPath (BridgeInfo_BridgeType info)) as Hids by (unfold l; rewrite (path_ids info k steps H k s s' Hk He); apply H).
  assert (forall i x, l !! i = Some x -> (i < S k)%nat -> settled_step info l i x) as Hbefore.
  { intros i x Hx Hi. destruct (decide (i = k)) as [->|Hik]; [by replace x with s' by congruence|].
    rewrite Hne in Hx by done. apply (settled_stable info steps l k i); [intros j Hj; apply Hne; lia | lia|]. apply (pa_before _ _ _ H); [done | lia]. }
  destruct (l !! S k) as [next|] eqn:En.
  - pose proof (lookup_lt_Some _ _ _ En) as Hn.
    assert (forall j, j <> S k -> <[S k := openedStep next (sp_EndDate s')]> l !! j = l !! j) as Hne' by (intros j Hj; by apply list_lookup_insert_ne).
    split.
    + change (map sp_Step) with (fmap sp_Step (M := list)). rewrite list_fmap_insert. rewrite list_insert_id; [exact Hids|].
      by rewrite list_lookup_fmap, En.
    + rewrite length_insert. lia.
    + intros i x Hx Hi. rewrite Hne' in Hx by lia. apply (settled_stable info l _ (S k) i); [intros j Hj; apply Hne'; lia | lia | by apply Hbefore].
    + intros x Hx. rewrite list_lookup_insert_eq in Hx by done. injection Hx as <-. by left.
    + intros i x Hx Hi. rewrite Hne', Hne in Hx by lia. apply (pa_after _ _ _ H i); [done | lia].
  - split; [done | | done | intros x Hx; congruence |].
    + apply lookup_ge_None in En. lia.
    + intros i x Hx Hi. apply lookup_lt_Some in Hx. apply lookup_ge_None in En. lia.
Qed.

(** The remaining steps up to the claim are skipped. *)
Lemma path_skip info k steps s idxError start : path_at info k steps -> steps !! k = Some s -> sp_Step s <> StepClaimed ->
  (exists src, truthful src /\ IsClaimed src (Some info) = Ok true) ->
  let c := (length steps - 1)%nat in
  let l := imap (fun i sp => if ((k <=? i) && (i <? c))%nat then skippedStep k i idxError sp else sp) steps in
  exists claimedStep, l !! c = Some claimedStep /\ (k < c)%nat /\
    path_at info c (<[c := openedStep claimedStep (start claimedStep)]> l) /\
    forall j, (j < k)%nat -> <[c := openedStep claimedStep (start claimedStep)]> l !! j = steps !! j.
Proof.
  intros H Hk Hnc Hcl c l. pose proof (lookup_lt_Some _ _ _ Hk) as Hlt.
  assert (k < c)%nat as Hkc.
  { destruct (path_claimed info k steps H) as [Hi _]. apply indexWhere_Some in Hi as (x & Hx & Hp & _). unfold c.
    apply bool_decide_eq_true in Hp. assert (k <> length steps - 1)%nat by (intros E; rewrite <- E in Hx; congruence). lia. }
  assert (length l = length steps) as Hlen by apply length_imap.
  assert (forall i, l !! i = (fun sp => if ((k <=? i) && (i <? c))%nat then skippedStep k i idxError sp else sp) <$> steps !! i) as Hl
    by (intros i; apply list_lookup_imap).
  destruct (lookup_lt_is_Some_2 l c ltac:(lia)) as (claimedStep & Hc). exists claimedStep. split; [done|]. split; [done|].
  assert (forall j, j <> c -> <[c := openedStep claimedStep (start claimedStep)]> l !! j = l !! j) as Hne by (intros j Hj; by apply list_lookup_insert_ne).
  assert (forall j, (j < k)%nat -> <[c := openedStep claimedStep (start claimedStep)]> l !! j = steps !! j) as Hpre.
  { intros j Hj. rewrite Hne, Hl by lia. destruct (steps !! j) as [x|]; [|done]. cbn. rewrite (proj2 (Nat.leb_gt k j)) by lia. done. }
  split; [|exact Hpre]. split.
  - change (map sp_Step) with (fmap sp_Step (M := list)). rewrite list_fmap_insert. rewrite list_insert_id by (by rewrite list_lookup_fmap, Hc).
    rewrite <- (pa_ids _ _ _ H). apply list_eq. intros i. change (map sp_Step) with (fmap sp_Step (M := list)). rewrite !list_lookup_fmap, Hl.
    destruct (steps !! i) as [x|]; [|done]. cbn. by destruct (_ && _).
  - rewrite length_insert. lia.
  - intros i x Hx Hi. rewrite Hne in Hx by lia. rewrite Hl in Hx. destruct (steps !! i) as [y|] eqn:Ey; [|done]. cbn [fmap option_fmap option_map] in Hx.
    rewrite (proj2 (Nat.ltb_lt i c)) in Hx by lia. destruct (Nat.leb_spec k i) as [Hki|Hki]; cbn [andb] in Hx.
    + injection Hx as <-. right. split; [done|]. split; [|done]. cbn [sp_Step skippedStep]. apply (path_last info k steps i y H Ey). unfold c in *. lia.
    + injection Hx as <-. apply (settled_stable info steps _ k i); [exact Hpre | lia | by apply (pa_before _ _ _ H)].
  - intros x Hx. rewrite list_lookup_insert_eq in Hx by lia. injection Hx as <-. by left.
  - intros i x Hx Hi. apply lookup_lt_Some in Hx. rewrite length_insert, Hlen in Hx. unfold c in *. lia.
Qed.

(** ** Resolvers *)

Lemma asked_met {A} prefix (r : result stepError A) k res : asked prefix r k = (res, None) -> exists a, r = Ok a /\ k a = (res, None).
Proof. destruct r as [a|e]; [eauto | done]. Qed.

Lemma asking_met {A} prefix (r : result stepError (option A)) k res :
  asking prefix r k = (res, None) -> exists a, r = Ok (Some a) /\ k a = (res, None).
Proof. intros H. apply asked_met in H as ([a|] & -> & H); [eauto | done]. Qed.

Lemma settled_ger_confirms src t info k res : td_Info t = Some info ->
  rv_Resolve (WaitL1SettledGERResolver src) t k = Some (res, None) -> confirms src info (td_allSteps t) k StepWaitL1SettledGER res.
Proof.
  intros Hi. cbn [rv_Resolve WaitL1SettledGERResolver confirms]. rewrite Hi.
  destruct (certificateOf _) as [cert|]; [|done]. destruct (cd_SettlementTxHash cert) as [tx|]; [|done].
  destruct (td_allSteps t !! k) as [step|]; [|done]. cbn [mbind option_bind].
  destruct (exactSettlementTxHash _ _ _ _ _) as [[exact [progress|]] [e|]] eqn:Ex; try done.
  { exfalso. unfold exactSettlementTxHash in Ex. repeat case_match; simplify_eq. }
  intros [= H]. apply asking_met in H as (s & Hs & H). exists (default tx exact), s.
  destruct (lg_L1InfoTreeIndex s) as [index|] eqn:El.
  - cbn [lg_L1InfoTreeIndex withLeafIndex is_nil negb] in H. exists index, (negb (is_nil exact)). injection H as <-.
    split; [done|]. split; [by left | done].
  - cbn [lg_L1InfoTreeIndex withLeafIndex is_nil negb] in H. apply asked_met in H as ([index|] & Hg & H); [|done].
    injection H as <-. exists index, (negb (is_nil exact)). split; [done|]. split; [by right | done].
Qed.

Lemma resolver_confirms src t info k step r res :
  td_Info t = Some info -> createResolvers src step = Some r -> rv_Resolve r t k = Some (res, None) ->
  confirms src info (td_allSteps t) k step res.
Proof.
  intros Hi Hr. destruct step; injection Hr as <-; try (apply settled_ger_confirms; done); cbn [rv_Resolve confirms
    WaitingGERUpdateResolver WaitingLERUpdateResolver PendingInclusionResolver CertificatePendingResolver WaitingGERInjectionResolver
    WaitingL1InfoLeafAvailableResolver WaitingClaimResolver ClaimedResolver]; rewrite ?Hi; cbn [mbind option_bind].
  1, 2, 3, 6, 8: intros [= H]; apply asking_met in H as (a & -> & H); injection H as <-; eauto.
  - intros [= H]. apply asking_met in H as (cert & Hc & H). exists cert. split; [done|].
    destruct (IsSettled _ && _) eqn:E; [|done]. injection H as <-. apply andb_true_iff in E as [Hs Hb]. split; [by apply bool_decide_eq_true in Hs|].
    split; [by destruct (cd_BlockNumber _) | done].
  - intros H. unfold getLeafIndexFromPreviousStep in *. destruct k as [|k]; [done|]. cbn [td_allSteps]. cbn [mbind option_bind] in H.
    destruct (td_allSteps t !! k) as [p|]; [|done]. cbn [mbind option_bind] in *.
    match type of H with context [match ?m with Ok _ => _ | Err _ => _ end] => destruct m as [index|] eqn:El; [|done] end.
    destruct (InjectedGERAtIndex src (Some info) index) as [[g|]|] eqn:Eg; try done. destruct (injectedResult g) as [ij|] eqn:Ej; [|done].
    cbn [mbind option_bind] in H. injection H as <-. by exists index, g, ij.
  - intros [= H]. apply asked_met in H as ([|] & Hc & H); done.
Qed.

(** The only panic of a resolver: an injected root that comes without its hash. *)
Definition missing_hash (src : EngineSources) (info : BridgeInfo) : Prop :=
  exists index g, InjectedGERAtIndex src (Some info) index = Ok (Some g) /\ gd_GER g = None.

Lemma resolver_panics src t info k s r :
  td_Info t = Some info -> path_at info k (td_allSteps t) -> td_allSteps t !! k = Some s -> createResolvers src (sp_Step s) = Some r ->
  rv_Resolve r t k = None -> missing_hash src info.
Proof.
  intros Hi Hp Hk Hr. destruct (sp_Step s) eqn:Es; injection Hr as <-; cbn [rv_Resolve WaitingGERUpdateResolver WaitingLERUpdateResolver
    PendingInclusionResolver CertificatePendingResolver WaitL1SettledGERResolver WaitingGERInjectionResolver
    WaitingL1InfoLeafAvailableResolver WaitingClaimResolver ClaimedResolver]; rewrite ?Hi; cbn [mbind option_bind]; try done.
  - destruct (certificateOf _) as [cert|]; [|done]. destruct (cd_SettlementTxHash cert); [|done]. rewrite Hk. cbn [mbind option_bind].
    by destruct (exactSettlementTxHash _ _ _ _ _) as [[? []] []].
  - unfold getLeafIndexFromPreviousStep. destruct k as [|k].
    + pose proof (pa_ids _ _ _ Hp) as E. destruct (td_allSteps t) as [|x l]; [done|]. injection Hk as ->. cbn [map] in E. rewrite Es in E.
      by destruct (BridgeInfo_BridgeType info).
    + destruct (lookup_lt_is_Some_2 (td_allSteps t) k) as (p & Hpk); [apply lookup_lt_Some in Hk; lia|]. rewrite Hpk. cbn [mbind option_bind].
      match goal with |- context [match ?m with Ok _ => _ | Err _ => _ end] => destruct m as [index|]; [|done] end.
      destruct (InjectedGERAtIndex src (Some info) index) as [[g|]|] eqn:Eg; try done. unfold injectedResult.
      destruct (gd_GER g) eqn:Eh; [done|]. intros _. by exists index, g.
Qed.

Lemma start_total src step r info res : createResolvers src step = Some r -> exists d, rv_StartDate r (Some info) res = Some d.
Proof. intros Hr. destruct step; injection Hr as <-; eexists; reflexivity. Qed.

(** ** Resolution of the steps *)

(** The snapshot is of the same bridge; its path is the same up to [k] and has its current step at [k'] or later. *)
Definition progressed (info : BridgeInfo) (k k' : nat) (t t' : TrackingData) : Prop :=
  td_id t' = td_id t /\ td_tx t' = td_tx t /\ length (td_allSteps t') = length (td_allSteps t) /\
  (exists m, (k' <= m)%nat /\ path_at info m (td_allSteps t')) /\ forall j, (j < k)%nat -> td_allSteps t' !! j = td_allSteps t !! j.

Lemma progressed_trans info k m t1 t2 t3 : (k <= m)%nat ->
  td_id t2 = td_id t1 -> td_tx t2 = td_tx t1 -> length (td_allSteps t2) = length (td_allSteps t1) ->
  (forall j, (j < k)%nat -> td_allSteps t2 !! j = td_allSteps t1 !! j) ->
  progressed info m m t2 t3 -> progressed info k k t1 t3.
Proof.
  intros Hkm E1 E2 E3 E4 (H1 & H2 & H3 & (n & Hn & Hp) & H5). split; [congruence|]. split; [congruence|]. split; [congruence|].
  split; [exists n; split; [lia | done]|]. intros j Hj. rewrite H5 by lia. by apply E4.
Qed.

Context (src : nat -> EngineSources) (Hsrc : forall n, truthful (src n)).

Lemma try_skip info k t s round e now :
  td_Info t = Some info -> path_at info k (td_allSteps t) -> td_allSteps t !! k = Some s -> sp_Step s <> StepClaimed ->
  trySkipToClaimed (fun n => IsClaimed (src n)) round t k e now = Some None \/
  exists t' m, trySkipToClaimed (fun n => IsClaimed (src n)) round t k e now = Some (Some t') /\ (k < m)%nat /\
    td_id t' = td_id t /\ td_tx t' = td_tx t /\ length (td_allSteps t') = length (td_allSteps t) /\ path_at info m (td_allSteps t') /\
    forall j, (j < k)%nat -> td_allSteps t' !! j = td_allSteps t !! j.
Proof.
  intros Hi Hp Hk Hnc. unfold trySkipToClaimed. rewrite Hi. destruct (IsClaimed (src round) (Some info)) as [[|]|] eqn:Ec; try by left.
  right. unfold skipToClaimed. destruct (path_claimed info k _ Hp) as [-> _]. cbn [mbind option_bind].
  destruct (path_skip info k (td_allSteps t) s e (fun c => orElse (sp_StartDate c) (Some now)) Hp Hk Hnc) as (c & Hc & Hlt & Hpath & Hpre).
  { exists (src round). split; [apply Hsrc | done]. }
  cbv zeta in Hc. rewrite Hc. cbn [mbind option_bind fmap option_fmap option_map]. eexists _, _. split; [reflexivity|]. split; [exact Hlt|].
  cbn [with_steps td_id td_tx td_allSteps]. split; [done|]. split; [done|]. split; [by rewrite length_insert, length_imap|]. done.
Qed.

(** The step the resolver was asked about stays the current one. *)
Lemma update_keeps info k t s result stepErr now r :
  path_at info k (td_allSteps t) -> td_allSteps t !! k = Some s -> isTerminalStepError s = false ->
  exists t', UpdateStep t k result false stepErr now r = Some t' /\ progressed info k k t t'.
Proof.
  intros Hp Hk Hterm. unfold UpdateStep. rewrite Hk.
  assert (progressed info k k t t) as Hsame by (split; [done|]; split; [done|]; split; [done|]; split; [by exists k | done]).
  assert (forall x, sp_Step x = sp_Step s -> active_step x -> progressed info k k t (with_steps t (<[k := x]> (td_allSteps t)))) as Hset.
  { intros x Hx Ha. split; [done|]. split; [done|]. split; [apply length_insert|]. split; [exists k; split; [done | by apply (path_keep _ _ _ s)]|].
    intros j Hj. apply list_lookup_insert_ne. lia. }
  destruct (is_nil stepErr && negb false && is_nil (sp_Error s) && bool_decide (sp_Result s = result)); [by exists t|].
  destruct stepErr as [e|].
  - unfold stepFailure. rewrite Hterm. destruct (se_Permanent e); cbn [mbind option_bind]; (eexists; split; [reflexivity|]; apply Hset; [done|];
      right; split; [done|]; eexists; split; [reflexivity|]); [by right | left; by destruct (sp_Error s)].
  - eexists. split; [reflexivity|]. apply Hset; [done|]. by left.
Qed.

Lemma update_completes info k t s result now round r :
  td_Info t = Some info -> path_at info k (td_allSteps t) -> td_allSteps t !! k = Some s -> createResolvers (src round) (sp_Step s) = Some r ->
  rv_Resolve r t k = Some (result, None) ->
  exists t', UpdateStep t k result true None now (Some r) = Some t' /\ progressed info k (S k) t t' /\ path_at info (S k) (td_allSteps t').
Proof.
  intros Hi Hp Hk Hr Hres. unfold UpdateStep. rewrite Hk, Hi. cbn [is_nil negb andb].
  destruct (start_total (src round) (sp_Step s) r info result Hr) as (d & Hd). unfold completedStep. rewrite Hd. cbn [mbind option_bind].
  set (s' := mkBridgeStepPath _ _ _ _ _ _). eexists. split; [reflexivity|].
  assert (path_at info (S k) (match <[k := s']> (td_allSteps t) !! S k with
    | Some next => <[S k := openedStep next (sp_EndDate s')]> (<[k := s']> (td_allSteps t)) | None => <[k := s']> (td_allSteps t) end)) as Hadv.
  { apply (path_advance _ _ _ s); [done | done | done|].
    apply (settled_stable info (td_allSteps t) _ k k); [intros j Hj; apply list_lookup_insert_ne; lia | lia|].
    left. split; [done|]. exists (src round). split; [apply Hsrc|]. by apply (resolver_confirms (src round) t info k (sp_Step s) r). }
  split; [|exact Hadv]. cbn [with_steps td_id td_tx td_allSteps]. split; [done|]. split; [done|].
  split; [cbn [with_steps td_allSteps]; destruct (<[k := s']> (td_allSteps t) !! S k); by rewrite ?length_insert|]. split; [by exists (S k)|].
  intros j Hj. cbn [with_steps td_allSteps]. destruct (<[k := s']> (td_allSteps t) !! S k); rewrite ?list_lookup_insert_ne by lia; done.
Qed.

(** From a path at [k], with a round for each step left and one more, the loop ends; it panics only for a missing hash. *)
Lemma ResolveSteps_spec now fuel : forall round t info k,
  td_Info t = Some info -> path_at info k (td_allSteps t) -> (length (td_allSteps t) - k < fuel)%nat ->
  match ResolveSteps (fun n => createResolvers (src n)) (fun n => IsClaimed (src n)) fuel round t now with
  | None => False
  | Some None => exists n, missing_hash (src n) info
  | Some (Some (t', _)) => progressed info k k t t'
  end.
Proof.
  induction fuel as [|fuel IH]; intros round t info k Hi Hp Hf; [lia|]. cbn [ResolveSteps].
  assert (progressed info k k t t) as Hsame by (split; [done|]; split; [done|]; split; [done|]; split; [by exists k | done]).
  destruct (td_allSteps t !! k) as [s|] eqn:Hk.
  2:{ rewrite (path_end info k); [done | done|]. apply lookup_ge_None in Hk. pose proof (pa_le _ _ _ Hp). lia. }
  rewrite (path_current info k _ s Hp Hk), Hk. pose proof (lookup_lt_Some _ _ _ Hk) as Hlt.
  assert (forall t' m, (k < m)%nat -> td_id t' = td_id t -> td_tx t' = td_tx t -> length (td_allSteps t') = length (td_allSteps t) ->
    path_at info m (td_allSteps t') -> (forall j, (j < k)%nat -> td_allSteps t' !! j = td_allSteps t !! j) ->
    match ResolveSteps (fun n => createResolvers (src n)) (fun n => IsClaimed (src n)) fuel (S round) t' now with
    | None => False | Some None => exists n, missing_hash (src n) info | Some (Some (t'', _)) => progressed info k k t t'' end) as Hnext.
  { intros t' m Hm E1 E2 E3 Hp' Hpre. assert (td_Info t' = Some info) as Hi' by (unfold td_Info in *; congruence).
    specialize (IH (S round) t' info m Hi' Hp' ltac:(lia)). destruct (ResolveSteps _ _ fuel (S round) t' now) as [[[t'' err]|]|]; [|done|done].
    apply (progressed_trans info k m t t' t''); try done. lia. }
  destruct (bool_decide (sp_Status s = StepStatusError) && negb (bool_decide (sp_Step s = StepClaimed))) eqn:Echk.
  1: apply andb_true_iff in Echk as [_ Hnc]; apply negb_true_iff, bool_decide_eq_false in Hnc;
    match goal with |- context [trySkipToClaimed _ round t k ?e now] =>
      destruct (try_skip info k t s round e now Hi Hp Hk Hnc) as [->|(t' & m & -> & Hm & E1 & E2 & E3 & Hp' & Hpre)] end;
    [|by apply (Hnext t' m)].
  all: destruct (isTerminalStepError s) eqn:Ht; [done|].
  all: destruct (createResolvers (src round) (sp_Step s)) as [r|] eqn:Er; [|done].
  all: destruct (rv_Resolve r t k) as [[result [err|]]|] eqn:Eres; [| |exists round; by apply (resolver_panics (src round) t info k s r)].
  2, 4: destruct (update_completes info k t s result now round r Hi Hp Hk Er Eres) as (t' & -> & (E1 & E2 & E3 & _ & E5) & Hp');
    by apply (Hnext t' (S k)); [lia|..].
  all: destruct (update_keeps info k t s result (Some err) now (Some r) Hp Hk Ht) as (tf & -> & Hfail).
  all: destruct (update_keeps info k t s result None now (Some r) Hp Hk Ht) as (tp & -> & Hpend).
  all: destruct (se_Pending err); [done|].
  - by rewrite andb_false_r.
  - destruct (bool_decide (sp_Step s = StepClaimed)) eqn:Ec; [done|]. apply bool_decide_eq_false in Ec. cbn [negb andb].
    match goal with |- context [trySkipToClaimed _ round t k ?e now] =>
      destruct (try_skip info k t s round e now Hi Hp Hk Ec) as [->|(t' & m & -> & Hm & E1 & E2 & E3 & Hp' & Hpre)] end; [done|].
    by apply (Hnext t' m).
Qed.

End Paths.
