(* ===== verification/TrackerRuns.v ===== *)
(** Runs of the bridge tracker: the engine and its clients over the registry, in any interleaving. *)

From S2P Require Import Prelude AgglayerTypes Tracker TrackerResolvers TrackerEngine TrackerProofs.

(** ** Snapshots *)

Definition freshData (id : TrackingID) : TrackingData := mkTrackingData id emptyTx [].

Section Snapshots.
Context (truthful : EngineSources -> Prop).
Abbreviation path_at := (path_at truthful).

(** A bridge that is not resolved has no path; one that is has no error and a path, or none. *)
Record td_ok (t : TrackingData) : Prop := {
  to_error : td_Info t <> None -> tb_Error (td_tx t) = None;
  to_unknown : td_Info t = None -> td_allSteps t = [];
  to_path : forall info, td_Info t = Some info -> td_allSteps t = [] \/ exists k, path_at info k (td_allSteps t)
}.

Lemma td_ok_fresh id : td_ok (freshData id).
Proof. by split. Qed.

Lemma PendingPath_path info src now steps :
  PendingPath (BridgeInfo_BridgeType info) info (createResolvers src) now = Some steps -> path_at info 0 steps.
Proof.
  unfold PendingPath. destruct (ExpectedPath (BridgeInfo_BridgeType info)) as [|first rest] eqn:E; [done|].
  destruct (createResolvers src first) as [r|] eqn:Er; [|done]. destruct (start_total src first r info None Er) as (d & ->).
  cbn [mbind option_bind]. intros [= <-]. split.
  - rewrite E. cbn [map sp_Step]. f_equal. rewrite map_map. cbn [sp_Step]. apply map_id.
  - lia.
  - lia.
  - intros s [= <-]. by left.
  - intros [|i] s Hs Hi; [lia|]. cbn in Hs. change (map ?f rest) with (f <$> rest) in Hs. apply list_lookup_fmap_Some in Hs as (x & -> & _). done.
Qed.

Lemma PendingPath_total info src now : exists steps, PendingPath (BridgeInfo_BridgeType info) info (createResolvers src) now = Some steps.
Proof.
  unfold PendingPath. destruct (BridgeInfo_BridgeType info); cbn [ExpectedPath createResolvers]; eexists; reflexivity.
Qed.

(** What a resolution of [t] may write. *)
Definition commit_ok (t : TrackingData) (c : commit) : Prop :=
  match c with
  | NoCommit => True
  | CommitTx tx => td_Info t = None /\ tb_Info tx = None
  | CommitTracking tx steps => exists info, tb_Info tx = Some info /\ tb_Error tx = None /\ (exists k, path_at info k steps) /\
      (td_Info t = None \/ td_Info t = Some info) /\ (td_allSteps t = [] \/ length (td_allSteps t) = length steps) /\
      forall j s, td_allSteps t !! j = Some s -> settledStatus (sp_Status s) = true -> steps !! j = Some s
  end.

Lemma settled_before info k steps j s : path_at info k steps -> steps !! j = Some s -> settledStatus (sp_Status s) = true -> (j < k)%nat.
Proof.
  intros H Hj Hs. destruct (Nat.lt_trichotomy j k) as [|[->|Hgt]]; [done|..].
  - by rewrite (active_step_status s (pa_current _ _ _ _ H s Hj)) in Hs.
  - by rewrite (pa_after _ _ _ _ H j s Hj Hgt) in Hs.
Qed.

Section Resolution.
Context (idString : TrackingID -> string) (cfg : EngineConfig) (src0 : EngineSources) (src : nat -> EngineSources).
Context (Hsrc : forall n, truthful (src n)).

Lemma resolveBridgeTx_spec t now : td_ok t ->
  match resolveBridgeTx idString cfg src0 t now with
  | None => False
  | Some (inr c) => commit_ok t c
  | Some (inl t') => td_id t' = td_id t /\ exists info, td_Info t' = Some info /\ tb_Error (td_tx t') = None /\
      (td_Info t = None /\ path_at info 0 (td_allSteps t') \/ t' = t)
  end.
Proof.
  intros Ht. unfold resolveBridgeTx. destruct (IsDone (td_tx t)) eqn:Ed.
  { split; [done|]. unfold IsDone in Ed. apply andb_true_iff in Ed as [Ei Ee]. unfold td_Info.
    destruct (tb_Info (td_tx t)) as [info|]; [|done]. destruct (tb_Error (td_tx t)); [done|]. exists info. split; [done|]. split; [done | by right]. }
  assert (td_Info t = None) as Hnone.
  { destruct (td_Info t) as [info|] eqn:Ei; [|done]. pose proof (to_error t Ht ltac:(congruence)) as Ee. unfold IsDone in Ed.
    unfold td_Info in Ei. rewrite Ei, Ee in Ed. done. }
  unfold ResolveBridgeTx. rewrite Ed, (to_unknown t Ht Hnone).
  destruct (match tb_StartDate (td_tx t) with None => _ | Some s => _ end) as [startDate timeout].
  destruct (FindBridge src0 (td_id t)) as [info|fe].
  - destruct (PendingPath_total info src0 now) as (steps & Hs). rewrite Hs. cbn [mbind option_bind]. split; [done|]. exists info.
    split; [done|]. split; [done|]. left. split; [done|]. by apply (PendingPath_path info src0 now).
  - destruct (se_Permanent (fe_Error fe)).
    + split; done.
    + destruct (tb_Error (td_tx t)); split; done.
Qed.

Lemma resolve_spec t now : td_ok t ->
  match resolveBridgeStep idString cfg src0 src t now with
  | None => exists info n, missing_hash (src n) info
  | Some c => commit_ok t c
  end.
Proof.
  intros Ht. unfold resolveBridgeStep. pose proof (resolveBridgeTx_spec t now Ht) as Hr.
  destruct (resolveBridgeTx idString cfg src0 t now) as [[t'|c]|]; [|done|done].
  destruct Hr as (Hid & info & Hi & He & Hcase). unfold computeAllSteps, stepFuel.
  assert (td_allSteps t' = [] /\ t' = t \/ exists k, path_at info k (td_allSteps t')) as [[Hnil ->]|[k Hp]].
  { destruct Hcase as [[_ Hp]| ->]; [right; by exists 0%nat|]. destruct (to_path t Ht info Hi) as [H|H]; [by left | by right]. }
  { rewrite Hnil. cbn [length ResolveSteps currentStepIndex indexWhere]. rewrite Hnil. cbn [currentStepIndex indexWhere].
    rewrite !bool_decide_eq_true_2 by done. done. }
  pose proof (ResolveSteps_spec truthful src Hsrc now (S (length (td_allSteps t'))) 0 t' info k Hi Hp ltac:(lia)) as Hs.
  destruct (ResolveSteps _ _ _ _ _ _) as [[[t'' err]|]|]; [| destruct Hs as [n Hs]; by exists info, n | done].
  destruct Hs as (_ & Etx & Hlen & (m & _ & Hp') & Hpre).
  assert (commit_ok t (CommitTracking (td_tx t'') (td_allSteps t''))) as Hok.
  { exists info. rewrite Etx. split; [done|]. split; [done|]. split; [by exists m|]. destruct Hcase as [[Hn _]| ->].
    - split; [by left|]. rewrite (to_unknown t Ht Hn). split; [by left | done].
    - split; [by right|]. split; [by right|]. intros j s Hj Hset. rewrite Hpre; [done|]. by apply (settled_before info k (td_allSteps t) j s). }
  destruct err; [done|]. by destruct (_ || _).
Qed.

End Resolution.

(** ** Writing a commit *)

Lemma committed t cur id tx steps : commit_ok t (CommitTracking tx steps) -> cur = t \/ cur = freshData id ->
  let t' := mkTrackingData id tx (if TerminallyFailed cur then td_allSteps cur else MergeSteps (td_allSteps cur) steps) in
  td_ok t -> td_ok t' /\ forall j s, td_allSteps cur !! j = Some s -> settledStatus (sp_Status s) = true -> td_allSteps t' !! j = Some s.
Proof.
  intros (info & Hi & He & (k & Hp) & Hinfo & Hlen & Hpre) Hcur t' Ht.
  assert (td_allSteps cur = [] /\ td_allSteps t' = (if TerminallyFailed cur then [] else steps) \/ cur = t /\ td_allSteps t' = steps) as Hsteps.
  { unfold t'. cbn [td_allSteps]. destruct steps as [|s0 steps'] eqn:Es.
    { pose proof (path_claimed truthful info k [] Hp) as [_ Hc]. cbn in Hc. lia. }
    rewrite <- Es in *. assert (MergeSteps (td_allSteps cur) steps = steps ++ drop (length steps) (td_allSteps cur)) as -> by (by rewrite Es).
    destruct Hcur as [-> | ->].
    - destruct Hlen as [Hnil|Hlen]; [left; rewrite Hnil, drop_nil, app_nil_r; split; [done | by destruct (TerminallyFailed t)]|].
      right. split; [done|]. rewrite <- Hlen, drop_ge, app_nil_r by lia. destruct (TerminallyFailed t) eqn:Ef; [|done].
      unfold TerminallyFailed in Ef. apply andb_true_iff in Ef as [Hn _]. destruct (td_Info t) eqn:Einfo; [done|].
      rewrite (to_unknown t Ht Einfo) in Hlen. rewrite Es in Hlen. done.
    - left. split; [done|]. cbn. by rewrite drop_nil, app_nil_r. }
  split.
  - assert (td_Info t' = Some info) as Hi1 by exact Hi. split; [done | by rewrite Hi1|]. intros info' Hi'.
    replace info' with info by congruence.
    destruct Hsteps as [[_ ->]|[_ ->]]; [|right; by exists k]. destruct (TerminallyFailed cur); [by left | right; by exists k].
  - intros j s Hj Hset. destruct Hsteps as [[Hnil _]|[-> ->]]; [by rewrite Hnil in Hj | by apply Hpre].
Qed.

Lemma committed_tx t cur id tx : commit_ok t (CommitTx tx) -> cur = t \/ cur = freshData id -> td_ok t ->
  td_ok (mkTrackingData id tx (td_allSteps cur)) /\ td_allSteps cur = [].
Proof.
  intros [Hn Hi] Hcur Ht. assert (td_allSteps cur = []) as E by (destruct Hcur as [-> | ->]; [by apply to_unknown | done]).
  split; [|done]. rewrite E. split; unfold td_Info; cbn [td_tx td_allSteps]; [by rewrite Hi | done | by rewrite Hi].
Qed.

End Snapshots.

(** ** Operations that change no snapshot *)

(** What the channels of a record hold is its current snapshot. *)
Definition latest (e : bridgeEntry) : Prop := forall ch t, be_subscribers e !! ch = Some (Some t) -> t = be_tracking e.

Definition bounded (r : memoryRegistry) : Prop := forall ref e, mr_heap r !! ref = Some e -> (ref < mr_next r)%nat.
Definition within (r : memoryRegistry) : Prop := Z.of_nat (size (mr_bridges r)) <= mr_maxEntries r.

(** Records keep their snapshots, and new ones are empty. *)
Record quiet (r r' : memoryRegistry) : Prop := {
  q_next : (mr_next r <= mr_next r')%nat;
  q_max : mr_maxEntries r' = mr_maxEntries r;
  q_size : within r -> within r';
  q_bounded : bounded r -> bounded r';
  q_keep : forall ref e, mr_heap r !! ref = Some e -> exists e', mr_heap r' !! ref = Some e' /\ be_tracking e' = be_tracking e;
  q_heap : forall ref e', mr_heap r' !! ref = Some e' ->
    (exists e, mr_heap r !! ref = Some e /\ be_tracking e' = be_tracking e /\ (latest e -> latest e')) \/
    ((mr_next r <= ref)%nat /\ latest e' /\ exists id, be_tracking e' = freshData id);
  q_bridges : forall id ref, mr_bridges r' !! id = Some ref ->
    mr_bridges r !! id = Some ref \/ ((mr_next r <= ref)%nat /\ exists e', mr_heap r' !! ref = Some e' /\ be_tracking e' = freshData id)
}.

Lemma quiet_same r r' : mr_heap r' = mr_heap r -> mr_bridges r' = mr_bridges r -> (mr_next r <= mr_next r')%nat -> mr_maxEntries r' = mr_maxEntries r ->
  quiet r r'.
Proof.
  intros Eh Eb En Em. split; unfold bounded, within in *; rewrite ?Eh, ?Eb, ?Em; [done | done | done | | eauto | | by left].
  - intros H ref e He. specialize (H ref e He). lia.
  - intros ref e He. left. eauto.
Qed.

Lemma quiet_refl r : quiet r r.
Proof. by apply quiet_same. Qed.

Lemma quiet_trans r1 r2 r3 : quiet r1 r2 -> quiet r2 r3 -> quiet r1 r3.
Proof.
  intros H1 H2. pose proof (q_next _ _ H1) as N1. pose proof (q_next _ _ H2) as N2. split.
  - lia.
  - rewrite (q_max _ _ H2). apply H1.
  - intros H. by apply H2, H1.
  - intros H. by apply H2, H1.
  - intros ref e He. destruct (q_keep _ _ H1 ref e He) as (e2 & He2 & E2). destruct (q_keep _ _ H2 ref e2 He2) as (e3 & He3 & E3).
    exists e3. split; [done | congruence].
  - intros ref e3 He3. destruct (q_heap _ _ H2 ref e3 He3) as [(e2 & He2 & E3 & L3)|(Hn & L3 & Hid)]; [|right; split; [lia | done]].
    destruct (q_heap _ _ H1 ref e2 He2) as [(e1 & He1 & E2 & L2)|(Hn & L2 & id & Eid)].
    + left. exists e1. split; [done|]. split; [congruence | auto].
    + right. split; [done|]. split; [auto|]. exists id. congruence.
  - intros id ref H. destruct (q_bridges _ _ H2 id ref H) as [Hb|(Hn & Hf)]; [|right; split; [lia | done]].
    destruct (q_bridges _ _ H1 id ref Hb) as [|(Hn & e2 & He2 & E2)]; [by left|]. right. split; [done|].
    destruct (q_keep _ _ H2 ref e2 He2) as (e3 & He3 & E3). exists e3. split; [done | congruence].
Qed.

Lemma quiet_entry r ref f : (forall e, be_tracking (f e) = be_tracking e /\ (latest e -> latest (f e))) -> quiet r (set_entry ref f r).
Proof.
  intros Hf.
  assert (forall ref' e', mr_heap (set_entry ref f r) !! ref' = Some e' ->
    exists e, mr_heap r !! ref' = Some e /\ be_tracking e' = be_tracking e /\ (latest e -> latest e')) as Hback.
  { intros ref' e'. cbn. destruct (decide (ref' = ref)) as [->|Hne]; [|rewrite lookup_alter_ne by done; eauto].
    rewrite lookup_alter_eq. destruct (mr_heap r !! ref) as [e|]; [|done]. intros [= <-]. exists e. split; [done | apply Hf]. }
  split; try done.
  - intros Hb ref' e' He'. destruct (Hback ref' e' He') as (e & He & _). by apply (Hb ref' e).
  - intros ref' e He. cbn. destruct (decide (ref' = ref)) as [->|Hne]; [|rewrite lookup_alter_ne by done; eauto].
    rewrite lookup_alter_eq, He. exists (f e). split; [done | apply Hf].
  - intros ref' e' He'. left. by apply Hback.
  - intros id ref' H. by left.
Qed.

Lemma quiet_access r ref now : quiet r (set_entry ref (set_access now) r).
Proof. apply quiet_entry. intros e. split; [done|]. intros H ch t Hch. by apply (H ch). Qed.

Lemma quiet_subs r ref f : (forall m : gmap nat (option TrackingData), forall ch t, f m !! ch = Some (Some t) -> m !! ch = Some (Some t)) ->
  quiet r (set_entry ref (set_subscribers f) r).
Proof. intros Hf. apply quiet_entry. intros e. split; [done|]. intros H ch t Hch. apply (H ch), (Hf _ ch t Hch). Qed.

Lemma lookup_insert_None ch (m : gmap nat (option TrackingData)) c t : <[ch := None]> m !! c = Some (Some t) -> m !! c = Some (Some t).
Proof. rewrite lookup_insert_Some. by intros [[_ ?]|[_ ?]]. Qed.

Lemma quiet_unsubscribe r sub : quiet r (unsubscribe sub r).
Proof. apply quiet_subs. intros m c t. rewrite lookup_delete_Some. by intros [_ ?]. Qed.

Lemma quiet_subscribe r ref : quiet r (fst (subscribeTo ref r)).
Proof.
  apply (quiet_trans _ (set_entry ref (set_subscribers <[mr_next r := None]>) r)).
  - apply quiet_subs. intros m c t. apply lookup_insert_None.
  - apply quiet_same; [done | done | cbn; lia | done].
Qed.

Lemma quiet_receive r sub : quiet r (fst (receive sub r)).
Proof.
  unfold receive. destruct (_ ≫= _) as [[t|]|]; [|apply quiet_refl..]. apply quiet_subs. intros m c t'. apply lookup_insert_None.
Qed.

Lemma quiet_create id now r ref r' : bounded r -> create id now r = Ok (ref, r') -> quiet r r'.
Proof.
  intros Hb. unfold create. destruct (Z.leb_spec (mr_maxEntries r) (Z.of_nat (size (mr_bridges r)))) as [|Hsz]; [done|]. intros [= <- <-].
  assert (mr_heap r !! mr_next r = None) as Hnone.
  { destruct (mr_heap r !! mr_next r) as [e|] eqn:E; [|done]. specialize (Hb _ _ E). lia. }
  split; cbn [signalTrigger mr_heap mr_bridges mr_next mr_maxEntries].
  - lia.
  - done.
  - intros _. unfold within. cbn [signalTrigger mr_bridges mr_maxEntries]. rewrite map_size_insert. destruct (mr_bridges r !! id); cbn; lia.
  - intros _ ref e. cbn [signalTrigger mr_heap mr_next]. rewrite lookup_insert_Some. intros [[<- _]|[_ He]]; [lia|]. specialize (Hb _ _ He). lia.
  - intros ref e He. exists e. rewrite lookup_insert_ne; [done|]. intros <-. congruence.
  - intros ref e. rewrite lookup_insert_Some. intros [[<- <-]|[_ He]]; [|left; eauto]. right. split; [lia|]. split; [done | by exists id].
  - intros id' ref. rewrite lookup_insert_Some. intros [[<- <-]|[_ H]]; [|by left]. right. split; [lia|]. exists (freshEntry id now).
    by rewrite lookup_insert_eq.
Qed.

Lemma quiet_entryFor id b now r ref r' : bounded r -> entryFor id b now r = Ok (ref, r') -> quiet r r'.
Proof.
  intros Hb. unfold entryFor. destruct (mr_bridges r !! id); [intros [= <- <-]; apply quiet_refl|].
  destruct b; [by apply quiet_create | done].
Qed.

Lemma quiet_bridges r f : f (mr_bridges r) ⊆ mr_bridges r -> quiet r (set_bridges f r).
Proof.
  intros Hf. split; try done; cbn [set_bridges mr_heap mr_bridges mr_next mr_maxEntries].
  - unfold within. cbn [set_bridges mr_bridges mr_maxEntries]. pose proof (map_subseteq_size _ _ Hf). lia.
  - eauto.
  - intros ref e He. left. eauto.
  - intros id ref H. left. by apply (lookup_weaken _ _ _ _ H).
Qed.

Lemma quiet_forgetWhere r p : quiet r (fst (forgetWhere p r)).
Proof. apply quiet_bridges, map_filter_subseteq. Qed.

Lemma quiet_Get id b now r : bounded r -> quiet r (fst (reg_Get id b now r)).
Proof.
  intros Hb. unfold reg_Get. destruct (entryFor id b now r) as [[ref r1]|] eqn:E; [|apply quiet_refl].
  apply (quiet_trans _ r1); [by apply (quiet_entryFor id b now r ref) | apply quiet_access].
Qed.

(** No call of a client changes a snapshot. *)
Lemma call_quiet c now r : bounded r -> quiet r (call c now r).
Proof.
  intros Hb. destruct c as [id b|id timeout|sub|id|sub|sub|id]; cbn [call].
  - by apply quiet_Get.
  - unfold reg_GetAndAwait. destruct (entryFor id true now r) as [[ref r1]|] eqn:E; [|apply quiet_refl].
    apply (quiet_trans _ r1); [by apply (quiet_entryFor id true now r ref)|]. apply (quiet_trans _ (set_entry ref (set_access now) r1)); [apply quiet_access|].
    destruct (_ || _); [apply quiet_refl|]. pose proof (quiet_subscribe (set_entry ref (set_access now) r1) ref) as Hs.
    by destruct (subscribeTo ref (set_entry ref (set_access now) r1)).
  - unfold awaited. pose proof (quiet_receive r sub) as Hr. destruct (receive sub r) as [r1 u]. cbn [fst] in *.
    apply (quiet_trans _ r1); [done | apply quiet_unsubscribe].
  - unfold reg_Subscribe. destruct (entryFor id true now r) as [[ref r1]|] eqn:E; [|apply quiet_refl].
    apply (quiet_trans _ r1); [by apply (quiet_entryFor id true now r ref)|]. apply (quiet_trans _ (set_entry ref (set_access now) r1)); [apply quiet_access|].
    pose proof (quiet_subscribe (set_entry ref (set_access now) r1) ref) as Hs. by destruct (subscribeTo ref (set_entry ref (set_access now) r1)).
  - apply quiet_receive.
  - apply quiet_unsubscribe.
  - apply quiet_bridges. apply delete_subseteq.
Qed.

(** ** The invariant of runs *)

Section Invariant.
Context (idString : TrackingID -> string) (cfg : EngineConfig) (truthful : EngineSources -> Prop).

Record registry_inv (r : memoryRegistry) : Prop := {
  ri_bounded : bounded r;
  ri_within : within r;
  ri_refs : forall id ref, mr_bridges r !! id = Some ref -> exists e, mr_heap r !! ref = Some e /\ td_id (be_tracking e) = id;
  ri_entry : forall ref e, mr_heap r !! ref = Some e -> td_ok truthful (be_tracking e) /\ latest e
}.

(** The record of a snapshot in flight is as it was read, or new. *)
Definition flight_ok (r : memoryRegistry) (t : TrackingData) : Prop :=
  td_ok truthful t /\ forall ref e, mr_bridges r !! td_id t = Some ref -> mr_heap r !! ref = Some e ->
    be_tracking e = t \/ be_tracking e = freshData (td_id t).

Definition engine_inv (s : engineState) : Prop :=
  registry_inv (en_registry s) /\ (forall t, t ∈ en_inFlight s -> flight_ok (en_registry s) t) /\ NoDup (map td_id (en_inFlight s)).

(** Settled steps of a record stay as they are. *)
Definition kept (r r' : memoryRegistry) : Prop := forall ref e, mr_heap r !! ref = Some e -> exists e', mr_heap r' !! ref = Some e' /\
  forall j s, td_allSteps (be_tracking e) !! j = Some s -> settledStatus (sp_Status s) = true -> td_allSteps (be_tracking e') !! j = Some s.

Lemma quiet_kept r r' : quiet r r' -> kept r r'.
Proof. intros H ref e He. destruct (q_keep _ _ H ref e He) as (e' & He' & E). exists e'. split; [done|]. by rewrite E. Qed.

Lemma quiet_registry r r' : quiet r r' -> registry_inv r -> registry_inv r'.
Proof.
  intros Q [Hb Hw Hr He]. split.
  - by apply Q.
  - by apply Q.
  - intros id ref H. destruct (q_bridges _ _ Q id ref H) as [Ho|(_ & e' & He' & E)]; [|exists e'; split; [done | by rewrite E]].
    destruct (Hr id ref Ho) as (e & He0 & Eid). destruct (q_keep _ _ Q ref e He0) as (e' & He' & E). exists e'. split; [done | by rewrite E].
  - intros ref e' He'. destruct (q_heap _ _ Q ref e' He') as [(e & He0 & E & L)|(_ & L & id & E)]; rewrite E; [|split; [apply td_ok_fresh | done]].
    destruct (He ref e He0) as [Hok Hl]. split; [done | auto].
Qed.

Lemma quiet_flight r r' t : quiet r r' -> registry_inv r -> flight_ok r t -> flight_ok r' t.
Proof.
  intros Q Hi [Hok Hf]. split; [done|]. intros ref e' Hb He'. destruct (q_bridges _ _ Q _ _ Hb) as [Ho|(_ & e2 & He2 & E)]; [|right; congruence].
  destruct (ri_refs r Hi _ _ Ho) as (e & He & _). destruct (q_keep _ _ Q ref e He) as (e2 & He2 & E). replace e' with e2 by congruence.
  rewrite E. by apply (Hf ref).
Qed.

Lemma quiet_inv r r' l : quiet r r' -> engine_inv (mkEngineState r l) -> engine_inv (mkEngineState r' l).
Proof.
  intros Q (Hr & Hf & Hn). split; [by apply (quiet_registry r)|]. split; [|done]. intros t Ht. by apply (quiet_flight r); [| |apply Hf].
Qed.

(** *** Ticks *)

Lemma entries_spec r id e : (id, e) ∈ entries r <-> exists ref, mr_bridges r !! id = Some ref /\ mr_heap r !! ref = Some e.
Proof.
  unfold entries. rewrite list_elem_of_omap. split.
  - intros ((i & ref) & Hin & H). cbn [fst snd] in H. destruct (mr_heap r !! ref) as [e0|] eqn:E; [|done]. cbn in H. injection H as <- <-.
    exists ref. split; [by apply elem_of_map_to_list | done].
  - intros (ref & Hb & He). exists (id, ref). split; [by apply elem_of_map_to_list|]. cbn [fst snd]. by rewrite He.
Qed.

Lemma nodup_entries r q : NoDup (map fst (bfilter q (entries r))).
Proof.
  unfold entries. pose proof (NoDup_fst_map_to_list (mr_bridges r)) as Hn. induction (map_to_list (mr_bridges r)) as [|[id ref] l IH]; [constructor|].
  cbn [fmap list_fmap fst] in Hn. apply NoDup_cons in Hn as [Hnot Hn]. specialize (IH Hn). cbn [omap list_omap fst snd].
  destruct (mr_heap r !! ref) as [e|]; cbn [mbind option_bind]; [|done]. cbn [bfilter]. destruct (q (id, e)); [|done]. cbn [map fst].
  apply NoDup_cons. split; [|done]. intros Hin. apply Hnot. apply list_elem_of_fmap in Hin as ((i & e') & -> & Hin).
  apply list_elem_of_In, bfilter_In in Hin as [Hin _]. apply list_elem_of_In, list_elem_of_omap in Hin as ((i' & ref') & Hin & H).
  cbn [fst snd] in H. destruct (mr_heap r !! ref'); [|done]. cbn in H. injection H as <- _. apply list_elem_of_fmap. by exists (i', ref').
Qed.

Lemma tracker_tick_inv r : registry_inv r -> engine_inv (mkEngineState r (GetTrackerActives None r)).
Proof.
  intros Hi. split; [done|]. cbn [en_inFlight en_registry]. unfold GetTrackerActives. set (L := bfilter _ (entries r)).
  assert (forall p, p ∈ L -> exists ref, mr_bridges r !! fst p = Some ref /\ mr_heap r !! ref = Some (snd p) /\ td_id (be_tracking (snd p)) = fst p) as HL.
  { intros [id e] Hp. unfold L in Hp. apply list_elem_of_In, bfilter_In in Hp as [Hp _]. apply list_elem_of_In, entries_spec in Hp as (ref & Hb & He).
    destruct (ri_refs r Hi id ref Hb) as (e' & He' & E). exists ref. cbn [fst snd]. split; [done|]. split; [done | congruence]. }
  split.
  - intros t Ht. apply list_elem_of_In, in_map_iff in Ht as (p & <- & Hp). apply list_elem_of_In in Hp. destruct (HL p Hp) as (ref & Hb & He & E).
    split; [apply (ri_entry r Hi ref (snd p) He)|]. intros ref' e' Hb' He'. rewrite E in Hb'. left. congruence.
  - rewrite map_map. assert (map (fun p => td_id (be_tracking (snd p))) L = map fst L) as ->; [|apply nodup_entries].
    apply map_ext_in. intros p Hp. apply list_elem_of_In in Hp. by destruct (HL p Hp) as (ref & _ & _ & E).
Qed.

Lemma trigger_inv r id now r' t : registry_inv r -> reg_Get id false now (popTrigger r) = (r', Ok (Some t)) -> engine_inv (mkEngineState r' [t]).
Proof.
  intros Hi Hg. assert (quiet r (popTrigger r)) as Q1 by (by apply quiet_same). pose proof (quiet_registry _ _ Q1 Hi) as Hi1.
  pose proof (quiet_Get id false now (popTrigger r) (ri_bounded _ Hi1)) as Q2. rewrite Hg in Q2. cbn [fst] in Q2.
  pose proof (quiet_registry _ _ Q2 Hi1) as Hi2. unfold reg_Get, entryFor in Hg. destruct (mr_bridges (popTrigger r) !! id) as [ref|] eqn:Eb; [|done].
  unfold trackingAt in Hg. destruct (ri_refs _ Hi1 id ref Eb) as (e & He & Eid). rewrite He in Hg. cbn in Hg. injection Hg as <- <-.
  split; [done|]. split; [|by apply NoDup_singleton]. cbn [en_inFlight en_registry]. intros t ->%list_elem_of_singleton. apply (quiet_flight _ _ _ Q2 Hi1).
  split; [apply (ri_entry _ Hi1 ref e He)|]. intros ref' e' Hb' He'. rewrite Eid in Hb'. left. congruence.
Qed.

(** *** Writes *)

(** An update of the record of [id] to a good snapshot that keeps the settled steps. *)
Lemma update_inv id now f r l1 t l2 :
  engine_inv (mkEngineState r (l1 ++ t :: l2)) -> td_id t = id ->
  (forall cur, cur = t \/ cur = freshData id -> td_ok truthful (f cur) /\ td_id (f cur) = id /\
     forall j s, td_allSteps cur !! j = Some s -> settledStatus (sp_Status s) = true -> td_allSteps (f cur) !! j = Some s) ->
  engine_inv (mkEngineState (fst (updateEntry id now f r)) (l1 ++ l2)) /\ kept r (fst (updateEntry id now f r)).
Proof.
  intros (Hi & Hfl & Hn) Hid Hf. cbn [en_registry en_inFlight] in *. rewrite map_app in Hn. cbn [map] in Hn.
  assert (NoDup (map td_id (l1 ++ l2)) /\ id ∉ map td_id (l1 ++ l2)) as [Hn' Hnot].
  { rewrite map_app. rewrite Hid in Hn. rewrite <- Permutation_middle in Hn. by apply NoDup_cons in Hn as [? ?]. }
  assert (forall t', t' ∈ l1 ++ l2 -> flight_ok r t' /\ td_id t' <> id) as Hrest.
  { intros t' Ht'. split; [apply Hfl; set_solver|]. intros E. apply Hnot. rewrite <- E. apply list_elem_of_In, in_map, list_elem_of_In. done. }
  unfold updateEntry. destruct (mr_bridges r !! id) as [ref|] eqn:Eb; cbn [fst].
  2:{ split; [split; [done|]; split; [intros t' Ht'; by apply Hrest | done]|]. apply quiet_kept, quiet_refl. }
  destruct (ri_refs r Hi id ref Eb) as (e & He & Eid).
  assert (be_tracking e = t \/ be_tracking e = freshData id) as Hcur.
  { destruct (Hfl t ltac:(set_solver)) as [_ H]. rewrite Hid in H. by apply (H ref). }
  destruct (Hf _ Hcur) as (Hok & Hfid & Hkeep). 
  match goal with |- context [set_entry ref ?h r] => set (g := h) end. set (e' := g e).
  assert (be_tracking e' = f (be_tracking e)) as Et by done.
  assert (forall ref' x, mr_heap (set_entry ref g r) !! ref' = Some x -> ref' = ref /\ x = e' \/ ref' <> ref /\ mr_heap r !! ref' = Some x) as Hback.
  { intros ref' x. cbn. destruct (decide (ref' = ref)) as [->|Hne]; [|rewrite lookup_alter_ne by done; by right].
    rewrite lookup_alter_eq, He. intros [= <-]. by left. }
  assert (forall ref' x, ref' <> ref -> mr_heap r !! ref' = Some x -> mr_heap (set_entry ref g r) !! ref' = Some x) as Hother
    by (intros ref' x Hne Hx; cbn; by rewrite lookup_alter_ne).
  assert (mr_heap (set_entry ref g r) !! ref = Some e') as Href by (cbn; by rewrite lookup_alter_eq, He).
  split.
  - split; [split; cbn [en_registry]|].
    + intros ref' x Hx. destruct (Hback ref' x Hx) as [[-> _]|[_ Hx']]; [by apply (ri_bounded r Hi ref e) | by apply (ri_bounded r Hi ref' x)].
    + apply Hi.
    + intros id' ref' Hb. destruct (ri_refs r Hi id' ref' Hb) as (x & Hx & Ex). destruct (decide (ref' = ref)) as [->|Hne]; [|eauto].
      exists e'. split; [done|]. replace x with e in Ex by congruence. congruence.
    + intros ref' x Hx. destruct (Hback ref' x Hx) as [[_ ->]|[_ Hx']]; [|by apply (ri_entry r Hi ref')]. split; [by rewrite Et|].
      intros ch t' Hch. cbn in Hch. rewrite lookup_fmap in Hch. destruct (be_subscribers e !! ch); [|done]. by injection Hch as <-.
    + cbn [en_inFlight]. split; [|done]. intros t' Ht'. destruct (Hrest t' Ht') as [[Hok' Hfl'] Hne]. split; [done|]. intros ref' x Hb Hx.
      destruct (Hback ref' x Hx) as [[-> ->]|[_ Hx']]; [|by apply (Hfl' ref')].
      destruct (ri_refs r Hi _ _ Hb) as (x & Hx' & Ex). congruence.
  - intros ref' x Hx. destruct (decide (ref' = ref)) as [->|Hne]; [|exists x; eauto]. exists e'. split; [done|]. replace x with e by congruence.
    by rewrite Et.
Qed.

Lemma drop_flight r l1 t l2 : engine_inv (mkEngineState r (l1 ++ t :: l2)) -> engine_inv (mkEngineState r (l1 ++ l2)).
Proof.
  intros (Hi & Hf & Hn). cbn [en_registry en_inFlight] in *. split; [done|]. split; [intros t' Ht'; apply Hf; cbn in *; set_solver|].
  cbn [en_inFlight]. rewrite map_app in *. cbn [map] in Hn. rewrite <- Permutation_middle in Hn.
  by apply NoDup_cons in Hn as [_ ?].
Qed.

Lemma persist_inv r l1 t l2 c now : engine_inv (mkEngineState r (l1 ++ t :: l2)) -> commit_ok truthful t c ->
  engine_inv (mkEngineState (persist (td_id t) c now r) (l1 ++ l2)) /\ kept r (persist (td_id t) c now r).
Proof.
  intros Hinv Hc. pose proof Hinv as (_ & Hfl & _). destruct (Hfl t) as [Ht _]; [cbn; set_solver|].
  destruct c as [|tx|tx steps]; cbn [persist].
  - split; [by apply (drop_flight r l1 t l2) | apply quiet_kept, quiet_refl].
  - apply (update_inv _ _ _ _ _ t); [done | done|]. intros cur Hcur.
    destruct (committed_tx truthful t cur (td_id t) tx Hc Hcur Ht) as [Hok Hnil].
    assert (td_id cur = td_id t) as Eid by (destruct Hcur as [-> | ->]; done).
    destruct (bool_decide _) eqn:E; [|split; [done|]; split; [done|]; by rewrite Hnil].
    apply bool_decide_eq_true in E. split; [|done]. destruct Hcur as [-> | ->]; [done | apply td_ok_fresh].
  - apply (update_inv _ _ _ _ _ t); [done | done|]. intros cur Hcur. destruct (committed truthful t cur (td_id t) tx steps Hc Hcur Ht) as [Hok Hk]. done.
Qed.

Lemma step_inv s s' : engine_step idString cfg truthful s s' -> engine_inv s -> engine_inv s' /\ kept (en_registry s) (en_registry s').
Proof.
  intros Hstep Hinv. destruct Hstep as [r|r id rest now r' t Htr Hg|r id rest now r' e Htr Hg|r l1 t l2 src0 src now now' c H0 Hsrc Hres|r now now'|r l c now];
    pose proof (proj1 Hinv) as Hr; cbn [en_registry] in *.
  - split; [by apply tracker_tick_inv | apply quiet_kept, quiet_refl].
  - split; [by apply (trigger_inv r id now)|]. apply quiet_kept. apply (quiet_trans _ (popTrigger r)); [by apply quiet_same|].
    pose proof (quiet_Get id false now (popTrigger r)) as Q. rewrite Hg in Q. apply Q. intros ref e He. by apply (ri_bounded r Hr ref e).
  - assert (quiet r r') as Q.
    { apply (quiet_trans _ (popTrigger r)); [by apply quiet_same|]. pose proof (quiet_Get id false now (popTrigger r)) as Q. rewrite Hg in Q.
      apply Q. intros ref e' He. by apply (ri_bounded r Hr ref e'). }
    split; [by apply (quiet_inv r) | by apply quiet_kept].
  - apply persist_inv; [done|]. destruct Hinv as (_ & Hfl & _). destruct (Hfl t) as [Ht _]; [cbn; set_solver|].
    pose proof (resolve_spec truthful idString cfg src0 src Hsrc t now Ht) as Hs. by rewrite Hres in Hs.
  - assert (quiet r (fst (PruneIdle (now' - ec_IdleTimeout cfg) (fst (PruneTerminal (now - ec_RetentionPeriod cfg) r))))) as Q.
    { apply (quiet_trans _ (fst (PruneTerminal (now - ec_RetentionPeriod cfg) r))); apply quiet_forgetWhere. }
    split; [by apply (quiet_inv r) | by apply quiet_kept].
  - pose proof (call_quiet c now r (ri_bounded r Hr)) as Q. split; [by apply (quiet_inv r) | by apply quiet_kept].
Qed.

Lemma started_inv s : started s -> engine_inv s.
Proof.
  intros (maxEntries & ->). split; [split|]; cbn [en_registry en_inFlight newMemoryRegistry mr_heap mr_bridges].
  - intros ref e. cbn. by rewrite lookup_empty.
  - unfold within. cbn [newMemoryRegistry mr_bridges mr_maxEntries]. rewrite map_size_empty. unfold DefaultMaxTrackedBridges.
    destruct (Z.leb_spec maxEntries 0); lia.
  - intros id ref. by rewrite lookup_empty.
  - intros ref e. by rewrite lookup_empty.
  - split; [intros t Ht; by apply not_elem_of_nil in Ht | constructor].
Qed.

Lemma reachable_inv s : reachable idString cfg truthful s -> engine_inv s.
Proof.
  intros (s0 & H0 & Hrtc). apply started_inv in H0. induction Hrtc as [s|s s1 s2 Hstep Hrtc IH]; [done|].
  apply IH. by apply (step_inv s s1).
Qed.

End Invariant.

(** ** What is reported *)

Lemma finished_settled t : TrackingStatusOf t = TrackingStatusFinished ->
  td_allSteps t <> [] /\ forall s, s ∈ td_allSteps t -> settledStatus (sp_Status s) = true.
Proof.
  unfold TrackingStatusOf, currentStep, StepIndex. destruct (td_allSteps t) as [|s0 l] eqn:El.
  { cbn [mbind option_bind]. by destruct (IsInTerminalError (td_tx t)), (IsDone (td_tx t)). }
  rewrite <- El. clear El s0 l. intros H. split; [intros E; rewrite E in H; cbn in H; by destruct (IsInTerminalError (td_tx t)), (IsDone (td_tx t))|].
  revert H. destruct (indexWhere isTerminalStepError (td_allSteps t)) as [i|] eqn:E1.
  { intros H. apply indexWhere_Some in E1 as (s & Hi & Hs & _). cbn [mbind option_bind] in H. rewrite Hi in H. apply andb_true_iff in Hs as [Hs Ht].
    apply bool_decide_eq_true in Hs. apply negb_true_iff in Ht. unfold convertStepStatusToTrackingStatus in H. rewrite Hs, Ht in H. done. }
  destruct (indexWhere (fun s => bool_decide (sp_Status s = StepStatusInProgress) || isTransientStepError s) (td_allSteps t)) as [i|] eqn:E2.
  { intros H. apply indexWhere_Some in E2 as (s & Hi & Hs & _). cbn [mbind option_bind] in H. rewrite Hi in H. unfold convertStepStatusToTrackingStatus in H.
    apply orb_true_iff in Hs as [Hs|Ht]; [apply bool_decide_eq_true in Hs; by rewrite Hs in H|]. pose proof Ht as Ht'. apply andb_true_iff in Ht as [Hs _].
    apply bool_decide_eq_true in Hs. rewrite Hs, Ht' in H. done. }
  destruct (indexWhere (fun s => bool_decide (sp_Status s = StepStatusPending)) (td_allSteps t)) as [i|] eqn:E3.
  { intros H. apply indexWhere_Some in E3 as (s & Hi & Hs & _). cbn [mbind option_bind] in H. rewrite Hi in H. apply bool_decide_eq_true in Hs.
    unfold convertStepStatusToTrackingStatus in H. by rewrite Hs in H. }
  intros _ s Hs. rewrite indexWhere_None in E1, E2, E3. specialize (E1 s Hs). specialize (E2 s Hs). specialize (E3 s Hs). cbn beta in *.
  unfold isTerminalStepError in E1. destruct (isTransientStepError s); destruct (sp_Status s); done.
Qed.

Section Reports.
Context (idString : TrackingID -> string) (cfg : EngineConfig) (truthful : EngineSources -> Prop).
Abbreviation reachable := (reachable idString cfg truthful).

(** C12. In any run of the engine and its clients, over sources that answer truthfully, a bridge that is reported as finished was
    claimed: its last step carries the claim a source answered for it, every other step of the path of its kind was confirmed
    by a source, or was passed over after the destination network confirmed the claim. *)
Theorem finished_bridge_was_claimed s ref e :
  reachable s -> mr_heap (en_registry s) !! ref = Some e -> TrackingStatusOf (be_tracking e) = TrackingStatusFinished ->
  exists info claim src sc, td_Info (be_tracking e) = Some info /\ truthful src /\ ClaimFor src (Some info) = Ok (Some claim) /\
    last (td_allSteps (be_tracking e)) = Some sc /\ sp_Step sc = StepClaimed /\ sp_Status sc = StepStatusDone /\ sp_Result sc = Some (ResultClaim claim) /\
    map sp_Step (td_allSteps (be_tracking e)) = ExpectedPath (BridgeInfo_BridgeType info) /\
    forall i st, td_allSteps (be_tracking e) !! i = Some st -> settled_step truthful info (td_allSteps (be_tracking e)) i st.
Proof.
  intros Hr He Hfin. destruct (ri_entry _ _ (proj1 (reachable_inv _ _ _ s Hr)) ref e He) as [Hok _].
  destruct (finished_settled _ Hfin) as [Hne Hall]. set (t := be_tracking e) in *.
  destruct (td_Info t) as [info|] eqn:Ei; [|by rewrite (to_unknown _ _ Hok Ei) in Hne].
  destruct (to_path _ _ Hok info Ei) as [|[k Hp]]; [done|].
  assert (forall i st, td_allSteps t !! i = Some st -> settled_step truthful info (td_allSteps t) i st) as Hset.
  { intros i st Hi. apply (pa_before _ _ _ _ Hp i st Hi). apply (settled_before truthful info k (td_allSteps t) i st Hp Hi).
    apply Hall, list_elem_of_lookup. by exists i. }
  destruct (path_claimed truthful info k _ Hp) as [Hc Hlen]. apply indexWhere_Some in Hc as (sc & Hsc & Hstep & _).
  apply bool_decide_eq_true in Hstep. destruct (Hset _ sc Hsc) as [[Hd (src & Htr & Hconf)]|(_ & Hn & _)]; [|done].
  rewrite Hstep in Hconf. destruct Hconf as (claim & Hcl & Hres). exists info, claim, src, sc. split; [done|]. split; [done|]. split; [done|].
  split; [by rewrite last_lookup, <- Nat.sub_1_r|]. split; [done|]. split; [done|]. split; [done|]. split; [apply Hp | exact Hset].
Qed.

(** C13. Whatever happens later, the steps of a record that were settled stay exactly as they are. *)
Theorem settled_steps_are_final s s' ref e :
  reachable s -> rtc (engine_step idString cfg truthful) s s' -> mr_heap (en_registry s) !! ref = Some e ->
  exists e', mr_heap (en_registry s') !! ref = Some e' /\
    forall j st, td_allSteps (be_tracking e) !! j = Some st -> settledStatus (sp_Status st) = true -> td_allSteps (be_tracking e') !! j = Some st.
Proof.
  intros Hr Hrtc. apply reachable_inv in Hr. revert e. induction Hrtc as [s|s s1 s2 Hstep Hrtc IH]; intros e He; [by exists e|].
  destruct (step_inv _ _ _ s s1 Hstep Hr) as [Hr1 Hk]. destruct (Hk ref e He) as (e1 & He1 & K1). destruct (IH Hr1 e1 He1) as (e2 & He2 & K2).
  exists e2. split; [done|]. intros j st Hj Hs. apply K2; [by apply K1 | done].
Qed.

(** C36. Every resolution the engine has in flight returns, when an injected root is answered with its hash. *)
Theorem resolution_returns s t src0 src now :
  reachable s -> t ∈ en_inFlight s -> (forall n, truthful (src n)) -> (forall n info, missing_hash (src n) info -> False) ->
  exists c, resolveBridgeStep idString cfg src0 src t now = Some c.
Proof.
  intros Hr Ht Hsrc Hh. destruct (reachable_inv _ _ _ s Hr) as (_ & Hf & _). destruct (Hf t Ht) as [Hok _].
  pose proof (resolve_spec truthful idString cfg src0 src Hsrc t now Hok) as H.
  destruct (resolveBridgeStep _ _ _ _ _ _) as [c|]; [by exists c|]. destruct H as (info & n & H). by destruct (Hh n info).
Qed.

(** No more bridges are supervised than the limit, and what waits in the channel of a subscriber is the current snapshot. *)
Theorem registry_promises s :
  reachable s -> GetNumTracker (en_registry s) <= mr_maxEntries (en_registry s) /\
  forall ref e ch t, mr_heap (en_registry s) !! ref = Some e -> be_subscribers e !! ch = Some (Some t) -> t = be_tracking e.
Proof.
  intros Hr. destruct (reachable_inv _ _ _ s Hr) as (Hi & _ & _). split; [apply Hi|]. intros ref e ch t He Hch.
  destruct (ri_entry _ _ Hi ref e He) as [_ Hl]. by apply (Hl ch).
Qed.

End Reports.

(** ** Examples *)

Definition example_failure : stepError := mkStepError "unavailable" false false.
Definition example_bridge : BridgeInfo := mkBridgeInfo 0 0 1 7 100 9 2 0 5 6 (Some 1000) 50.
Definition example_claim : ClaimResult := mkClaimResult 77 200 90.

(** Sources that confirm every step of a bridge from L1, at the answer [found] for its transaction. *)
Definition example_sources (found : result findError BridgeInfo) : EngineSources := {|
  FindBridge := fun _ => found;
  CertificateFor := fun _ => Err example_failure;
  FindFirstL1InfoTreeAfterBlock := fun _ _ => Ok (Some (mkResultFindFirst 4 101 60 0 11 12 13));
  OriginLER := fun _ => Err example_failure;
  IsClaimed := fun _ => Ok true;
  ClaimFor := fun _ => Ok (Some example_claim);
  SettlementGERUpdate := fun _ _ => Err example_failure;
  L1InfoTreeIndexForGER := fun _ _ => Err example_failure;
  InjectedGERAtIndex := fun _ i => Ok (Some (mkGERData 1 (Some 11) (Some 101) (Some 60) (Some 150) (Some 70) ""));
  L1InfoTreeIndexForBridge := fun _ => Ok (Some 3);
  Covers := fun _ _ => Ok false;
  EarliestSettlementTxCovering := fun _ _ _ => (None, None, Some example_failure)
|}.

Definition good_sources : EngineSources := example_sources (Ok example_bridge).
Definition not_a_bridge : EngineSources := example_sources (Err (mkFindError false (mkStepError "tx is not a bridge transaction" false true))).
Definition example_id : TrackingID := mkTrackingID 0 123.
Definition example_cfg : EngineConfig := withDefaults (mkEngineConfig 0 0 0 0 0 0).
Definition example_idString : TrackingID -> string := fun _ => "network=0/tx=0x7b".

Definition example_registered : memoryRegistry := call (CallSubscribe example_id) 1 (newMemoryRegistry 10).
Definition example_popped : memoryRegistry := fst (reg_Get example_id false 2 (popTrigger example_registered)).
Definition resolved_with (first : EngineSources) (now : Z) (r : memoryRegistry) (t : TrackingData) : memoryRegistry :=
  match resolveBridgeStep example_idString example_cfg first (fun _ => good_sources) t now with
  | Some c => persist (td_id t) c now r
  | None => r
  end.
Definition example_finished : memoryRegistry := resolved_with good_sources 3 example_popped (freshData example_id).
Definition example_record (r : memoryRegistry) : bridgeEntry := default (freshEntry example_id 0) (mr_heap r !! 0%nat).

Definition example_truthful (src : EngineSources) : Prop := src = good_sources.

Lemma example_in_flight : reachable example_idString example_cfg example_truthful (mkEngineState example_popped [freshData example_id]).
Proof.
  exists (mkEngineState (newMemoryRegistry 10) []). split; [by exists 10|].
  eapply rtc_l; [apply (step_call _ _ _ (newMemoryRegistry 10) [] (CallSubscribe example_id) 1)|].
  eapply rtc_l; [apply (step_trigger _ _ _ example_registered example_id [] 2 example_popped (freshData example_id)); vm_compute; reflexivity|].
  apply rtc_refl.
Qed.

Lemma example_to_finished : engine_step example_idString example_cfg example_truthful
  (mkEngineState example_popped [freshData example_id]) (mkEngineState example_finished []).
Proof.
  apply (step_resolve example_idString example_cfg example_truthful example_popped [] (freshData example_id) [] good_sources (fun _ => good_sources) 3 3);
    [done | done |]. vm_compute. reflexivity.
Qed.

Lemma example_reached : reachable example_idString example_cfg example_truthful (mkEngineState example_finished []).
Proof.
  destruct example_in_flight as (s0 & H0 & Hrtc). exists s0. split; [done|]. eapply rtc_r; [exact Hrtc | exact example_to_finished].
Qed.

(** The bridge that is resolved in one round over the sources above is reported as finished, with its claim. *)
Lemma finished_bridge_was_claimed_witness : exists info claim src sc,
  td_Info (be_tracking (example_record example_finished)) = Some info /\ example_truthful src /\ ClaimFor src (Some info) = Ok (Some claim) /\
  last (td_allSteps (be_tracking (example_record example_finished))) = Some sc /\ sp_Step sc = StepClaimed /\ sp_Status sc = StepStatusDone /\
  sp_Result sc = Some (ResultClaim claim) /\
  map sp_Step (td_allSteps (be_tracking (example_record example_finished))) = ExpectedPath (BridgeInfo_BridgeType info) /\
  forall i st, td_allSteps (be_tracking (example_record example_finished)) !! i = Some st ->
    settled_step example_truthful info (td_allSteps (be_tracking (example_record example_finished))) i st.
Proof.
  refine (finished_bridge_was_claimed example_idString example_cfg example_truthful (mkEngineState example_finished []) 0
    (example_record example_finished) example_reached _ _); vm_compute; reflexivity.
Defined.

(** Sources without a claim yet: the bridge waits for it. *)
Definition unclaimed_sources : EngineSources := {|
  FindBridge := FindBridge good_sources;
  CertificateFor := CertificateFor good_sources;
  FindFirstL1InfoTreeAfterBlock := FindFirstL1InfoTreeAfterBlock good_sources;
  OriginLER := OriginLER good_sources;
  IsClaimed := fun _ => Ok false;
  ClaimFor := fun _ => Ok None;
  SettlementGERUpdate := SettlementGERUpdate good_sources;
  L1InfoTreeIndexForGER := L1InfoTreeIndexForGER good_sources;
  InjectedGERAtIndex := InjectedGERAtIndex good_sources;
  L1InfoTreeIndexForBridge := L1InfoTreeIndexForBridge good_sources;
  Covers := Covers good_sources;
  EarliestSettlementTxCovering := EarliestSettlementTxCovering good_sources
|}.

Definition eventually (src : EngineSources) : Prop := src = good_sources \/ src = unclaimed_sources.

Definition example_waiting : memoryRegistry :=
  match resolveBridgeStep example_idString example_cfg unclaimed_sources (fun _ => unclaimed_sources) (freshData example_id) 3 with
  | Some c => persist example_id c 3 example_popped
  | None => example_popped
  end.
Definition example_claimed : memoryRegistry :=
  resolved_with good_sources 9 example_waiting (be_tracking (example_record example_waiting)).

Lemma example_waiting_reached : reachable example_idString example_cfg eventually (mkEngineState example_waiting []).
Proof.
  exists (mkEngineState (newMemoryRegistry 10) []). split; [by exists 10|].
  eapply rtc_l; [apply (step_call _ _ _ (newMemoryRegistry 10) [] (CallSubscribe example_id) 1)|].
  eapply rtc_l; [apply (step_trigger _ _ _ example_registered example_id [] 2 example_popped (freshData example_id)); vm_compute; reflexivity|].
  eapply rtc_l; [|apply rtc_refl].
  apply (step_resolve _ _ _ example_popped [] (freshData example_id) [] unclaimed_sources (fun _ => unclaimed_sources) 3 3);
    [by right | by right | vm_compute; reflexivity].
Qed.

Lemma example_waiting_to_claimed : rtc (engine_step example_idString example_cfg eventually)
  (mkEngineState example_waiting []) (mkEngineState example_claimed []).
Proof.
  eapply rtc_l; [apply step_tick|]. eapply rtc_l; [|apply rtc_refl].
  apply (step_resolve _ _ _ example_waiting [] (be_tracking (example_record example_waiting)) [] good_sources (fun _ => good_sources) 9 9);
    [by left | by left | vm_compute; reflexivity].
Qed.

(** The three steps that were settled while the claim was awaited are the same once it is found. *)
Lemma settled_steps_are_final_witness : exists e', mr_heap example_claimed !! 0%nat = Some e' /\
  forall j st, td_allSteps (be_tracking (example_record example_waiting)) !! j = Some st -> settledStatus (sp_Status st) = true ->
    td_allSteps (be_tracking e') !! j = Some st.
Proof.
  refine (settled_steps_are_final example_idString example_cfg eventually (mkEngineState example_waiting []) (mkEngineState example_claimed []) 0
    (example_record example_waiting) example_waiting_reached example_waiting_to_claimed _). vm_compute. reflexivity.
Defined.

Example three_of_five_settled :
  map (fun st => settledStatus (sp_Status st)) (td_allSteps (be_tracking (example_record example_waiting))) = [true; true; true; false; false] /\
  TrackingStatusOf (be_tracking (example_record example_waiting)) = TrackingStatusRunning /\
  ClaimStatus (be_tracking (example_record example_waiting)) = TrackerClaimStatusReadyToClaim /\
  TrackingStatusOf (be_tracking (example_record example_claimed)) = TrackingStatusFinished /\
  ClaimStatus (be_tracking (example_record example_claimed)) = TrackerClaimStatusClaimed.
Proof. repeat split; vm_compute; reflexivity. Qed.

Lemma good_sources_have_hash info : missing_hash good_sources info -> False.
Proof. intros (index & g & Hg & Hn). injection Hg as <-. by cbn in Hn. Qed.

Lemma resolution_returns_witness :
  exists c, resolveBridgeStep example_idString example_cfg good_sources (fun _ => good_sources) (freshData example_id) 3 = Some c.
Proof.
  refine (resolution_returns example_idString example_cfg example_truthful (mkEngineState example_popped [freshData example_id])
    (freshData example_id) good_sources (fun _ => good_sources) 3 example_in_flight _ _ _);
    [cbn [en_inFlight]; by left | intros n; reflexivity | intros n; apply good_sources_have_hash].
Defined.

Lemma registry_promises_witness : GetNumTracker example_finished <= mr_maxEntries example_finished /\
  forall ref e ch t, mr_heap example_finished !! ref = Some e -> be_subscribers e !! ch = Some (Some t) -> t = be_tracking e.
Proof.
  refine (registry_promises example_idString example_cfg example_truthful (mkEngineState example_finished []) example_reached).
Defined.

(** A bridge a tick gave up on while its trigger was still queued: the trigger resolves it once more, and when the transaction
    is found then, its facts replace the failure while the path is refused.  The record is running without a step, and no
    resolution writes to it again. *)
Definition example_failed : memoryRegistry := resolved_with not_a_bridge 3 example_registered (freshData example_id).
Definition example_retried : memoryRegistry := fst (reg_Get example_id false 4 (popTrigger example_failed)).
Definition example_revived : memoryRegistry :=
  resolved_with good_sources 5 example_retried (be_tracking (example_record example_retried)).

Example failed_bridge_is_revived :
  TerminallyFailed (be_tracking (example_record example_failed)) = true /\
  TrackingStatusOf (be_tracking (example_record example_failed)) = TrackingStatusError /\
  td_Info (be_tracking (example_record example_revived)) = Some example_bridge /\
  TrackingStatusOf (be_tracking (example_record example_revived)) = TrackingStatusRunning /\
  td_allSteps (be_tracking (example_record example_revived)) = [] /\
  forall src0 src now, resolveBridgeStep example_idString example_cfg src0 src (be_tracking (example_record example_revived)) now = Some NoCommit.
Proof. repeat split; vm_compute; reflexivity. Qed.
