(* ===== verification/AggOracle.v ===== *)
(** The aggoracle ([aggoracle/oracle.go], [aggoracle/chaingersender/evm.go]): a loop that reads the latest global exit root
    of the L1 info tree syncer and starts a task that injects it into L2, or proposes it to the committee of oracles.

    The contracts, their bindings and the transaction manager are not part of the repository: they are the record [L2Env], over a
    state of the world [W] that may change between any two calls.  A task is a program counter, one call per step, since the
    tasks of several rounds of the loop run at the same time. *)

From S2P Require Import Prelude Bytes Merkle Tables TreeTx BuildParams Validator Queriers Downloader ReorgDetector SyncDriver L1InfoTree L1InfoTreeSync.

(** ** The world *)

Inductive MonitoredTxStatus :=
| MonitoredTxStatusCreated
| MonitoredTxStatusSent
| MonitoredTxStatusFailed
| MonitoredTxStatusEvicted
| MonitoredTxStatusMined
| MonitoredTxStatusSafe
| MonitoredTxStatusFinalized
| OtherTxStatus (s : string).

(** A failed call; an insertion into the transaction manager may also find the transaction there. *)
Inductive callError := CallFailed (msg : string).
Inductive addError := ErrAlreadyExists | AddFailed (msg : string).

(** [Add(ctx, to, Big0, data, gasOffset, nil)]. *)
Record txRequest := mkTxRequest { rq_To : Z; rq_Data : list Z; rq_GasOffset : Z }.

Inductive abiOf := GERManagerAbi | CommitteeAbi.

Record L2Env (W : Type) := mkL2Env {
  GlobalExitRootMap : W -> Z -> result callError Z;
  GlobalExitRootUpdater : W -> result callError Z;
  NewAggoraclecommittee : W -> Z -> result callError unit;
  GetAggOracleMemberIndex : W -> Z -> Z -> result callError Z;
  AggOracleMembers : W -> Z -> Z -> result callError Z;
  AddressToLastProposedGER : W -> Z -> Z -> result callError Z;
  tx_From : Z;
  tx_Add : W -> txRequest -> W * (Z * option addError);
  tx_Result : W -> Z -> result callError MonitoredTxStatus;
  GetAbi : abiOf -> result callError unit;
  abi_Pack : abiOf -> string -> Z -> result callError (list Z)
}.
Arguments GlobalExitRootMap {W}.
Arguments GlobalExitRootUpdater {W}.
Arguments NewAggoraclecommittee {W}.
Arguments GetAggOracleMemberIndex {W}.
Arguments AggOracleMembers {W}.
Arguments AddressToLastProposedGER {W}.
Arguments tx_From {W}.
Arguments tx_Add {W}.
Arguments tx_Result {W}.
Arguments GetAbi {W}.
Arguments abi_Pack {W}.

(** ** The sender *)

Definition insertGERFuncName : string := "insertGlobalExitRoot".
Definition proposeGERFuncName : string := "proposeGlobalExitRoot".

Record EVMConfig := mkEVMConfig { GlobalExitRootL2Addr : Z; AggOracleCommitteeAddr : Z; GasOffset : Z }.

(** Both are all the constructor can choose. *)
Inductive GERMode := DirectInjectionMode | AggOracleCommitteeMode.

(** [gs_aggOracleCommittee]: the address the binding of the committee is for, [None] while it is nil. *)
Record EVMChainGERSender := mkEVMChainGERSender {
  gs_mode : GERMode;
  gs_l2GERManagerAddr : Z;
  gs_aggOracleCommittee : option Z;
  gs_aggOracleCommitteeAddr : Z;
  gs_gasOffset : Z
}.

Inductive oracleError :=
| ErrGetAbi (e : callError)
| ErrUpdater (e : callError)
| ErrInvalidSender (gerUpdater : Z)
| ErrBinding (e : callError)
| ErrNotMember (e : callError)
| ErrMembers (e : callError)
| ErrInjectedCheck (e : callError)
| ErrProposedCheck (e : callError)
| ErrPack (e : callError)
| ErrAdd (msg : string)
| ErrResult (e : callError)
| ErrTxFailed (id : Z).

Definition failing {E E' A} (f : E -> E') (r : result E A) : result E' A := match r with Ok a => Ok a | Err e => Err (f e) end.

Section Sender.
Context {W : Type} (env : L2Env W).

Definition validateGERSender (w : W) (gerSender : Z) : result oracleError unit :=
  let? gerUpdater := failing ErrUpdater (GlobalExitRootUpdater env w) in
  if negb (gerUpdater =? 0) && negb (gerSender =? gerUpdater) then Err (ErrInvalidSender gerUpdater) else Ok tt.

Definition validateGERProposer (w : W) (gerProposer committee : Z) : result oracleError unit :=
  let? _ := failing ErrNotMember (GetAggOracleMemberIndex env w committee gerProposer) in Ok tt.

Definition initializeAndValidateAggOracleCommitteeMode (w : W) (c : EVMChainGERSender) : result oracleError EVMChainGERSender :=
  let committee := gs_aggOracleCommitteeAddr c in
  let? _ := failing ErrBinding (NewAggoraclecommittee env w committee) in
  let? _ := validateGERProposer w (tx_From env) committee in
  let? _ := failing ErrGetAbi (GetAbi env CommitteeAbi) in
  let? _ := failing ErrMembers (AggOracleMembers env w committee 0) in
  Ok (mkEVMChainGERSender (gs_mode c) (gs_l2GERManagerAddr c) (Some committee) committee (gs_gasOffset c)).

Definition initializeAndValidateMode (w : W) (c : EVMChainGERSender) : result oracleError EVMChainGERSender :=
  match gs_mode c with
  | DirectInjectionMode => let? _ := validateGERSender w (tx_From env) in Ok c
  | AggOracleCommitteeMode => initializeAndValidateAggOracleCommitteeMode w c
  end.

Definition NewEVMChainGERSender (w : W) (cfg : EVMConfig) (enableAggOracleCommittee : bool) : result oracleError EVMChainGERSender :=
  let mode := if enableAggOracleCommittee && negb (AggOracleCommitteeAddr cfg =? 0) then AggOracleCommitteeMode else DirectInjectionMode in
  let? _ := failing ErrGetAbi (GetAbi env GERManagerAbi) in
  initializeAndValidateMode w (mkEVMChainGERSender mode (GlobalExitRootL2Addr cfg) None (AggOracleCommitteeAddr cfg) (GasOffset cfg)).

(** ** A task *)

(** Where a task is: before the check of [InjectGER] or [ProposeGER], before the second check of [ProposeGER], at the entry of
    [submitTransaction], in its loop, or returned. *)
Inductive task :=
| AtInject (ger : Z)
| AtPropose (ger : Z)
| AtProposed (ger : Z)
| AtSubmit (toCommittee : bool) (ger : Z)
| AtMonitor (id : Z)
| Returned (r : result oracleError unit).

Context (c : EVMChainGERSender).

Definition IsGERInjected (w : W) (ger : Z) : result oracleError bool :=
  let? gerIndex := failing ErrInjectedCheck (GlobalExitRootMap env w ger) in Ok (0 <? gerIndex).

(** [None]: the panic without the binding of the committee. *)
Definition IsGERProposed (w : W) (ger : Z) : option (result oracleError bool) :=
  committee ← gs_aggOracleCommittee c;
  Some (let? lastProposedGER := failing ErrProposedCheck (AddressToLastProposedGER env w committee (tx_From env)) in Ok (lastProposedGER =? ger)).

Definition checked (r : result oracleError bool) (next : task) : task :=
  match r with
  | Err e => Returned (Err e)
  | Ok true => Returned (Ok tt)
  | Ok false => next
  end.

Definition InjectGER (w : W) (ger : Z) : task := checked (IsGERInjected w ger) (AtSubmit false ger).

Definition ProposeGER (w : W) (ger : Z) : task := checked (IsGERInjected w ger) (AtProposed ger).
Definition ProposeGER_proposed (w : W) (ger : Z) : option task := (fun r => checked r (AtSubmit true ger)) <$> IsGERProposed w ger.

Definition requestFor (toCommittee : bool) (ger : Z) : result callError txRequest :=
  let? data := if toCommittee then abi_Pack env CommitteeAbi proposeGERFuncName ger else abi_Pack env GERManagerAbi insertGERFuncName ger in
  Ok (mkTxRequest (if toCommittee then gs_aggOracleCommitteeAddr c else gs_l2GERManagerAddr c) data (gs_gasOffset c)).

(** The part before the loop, with the request it hands to the transaction manager. *)
Definition submitTransaction (w : W) (toCommittee : bool) (ger : Z) : W * task * list txRequest :=
  match requestFor toCommittee ger with
  | Err e => (w, Returned (Err (ErrPack e)), [])
  | Ok request =>
      match tx_Add env w request with
      | (w, (id, None)) | (w, (id, Some ErrAlreadyExists)) => (w, AtMonitor id, [request])
      | (w, (_, Some (AddFailed msg))) => (w, Returned (Err (ErrAdd msg)), [request])
      end
  end.

(** A tick of its loop. *)
Definition monitorTx (w : W) (id : Z) : task :=
  match tx_Result env w id with
  | Err e => Returned (Err (ErrResult e))
  | Ok MonitoredTxStatusCreated | Ok MonitoredTxStatusSent | Ok (OtherTxStatus _) => AtMonitor id
  | Ok MonitoredTxStatusFailed => Returned (Err (ErrTxFailed id))
  | Ok MonitoredTxStatusEvicted => Returned (Ok tt)
  | Ok MonitoredTxStatusMined | Ok MonitoredTxStatusSafe | Ok MonitoredTxStatusFinalized => Returned (Ok tt)
  end.

Definition ProcessGER (ger : Z) : task :=
  match gs_mode c with
  | DirectInjectionMode => AtInject ger
  | AggOracleCommitteeMode => AtPropose ger
  end.

(** The next call of a task; [None] is a panic. *)
Definition task_step (w : W) (t : task) : option (W * task * list txRequest) :=
  match t with
  | AtInject ger => Some (w, InjectGER w ger, [])
  | AtPropose ger => Some (w, ProposeGER w ger, [])
  | AtProposed ger => (fun t => (w, t, [])) <$> ProposeGER_proposed w ger
  | AtSubmit toCommittee ger => Some (submitTransaction w toCommittee ger)
  | AtMonitor id => Some (w, monitorTx w id, [])
  | Returned r => Some (w, Returned r, [])
  end.

(** ** The loop *)

Context (syncer : W -> processor) (moves : W -> W -> Prop).

(** A round of [Start]: the task it starts, if the syncer has a root. *)
Definition processLatestGER (w : W) : result l1Error task :=
  let? latestGER := s_GetLatestL1InfoGER (syncer w) in Ok (ProcessGER latestGER).

(** [or_past]: the states of the world so far, the current one first; [or_sent]: what the transaction manager was handed, with the
    states up to then. *)
Record oracleState := mkOracleState { or_past : list W; or_tasks : list task; or_sent : list (list W * txRequest) }.

(** The world moves, the loop starts a round, a task makes its next call, or the context ends and a task that waits returns. *)
Inductive oracle_step : oracleState -> oracleState -> Prop :=
| or_move w w' past tasks sent :
    moves w w' -> oracle_step (mkOracleState (w :: past) tasks sent) (mkOracleState (w' :: w :: past) tasks sent)
| or_round w past tasks sent t :
    processLatestGER w = Ok t -> oracle_step (mkOracleState (w :: past) tasks sent) (mkOracleState (w :: past) (tasks ++ [t]) sent)
| or_skip w past tasks sent e :
    processLatestGER w = Err e -> oracle_step (mkOracleState (w :: past) tasks sent) (mkOracleState (w :: past) tasks sent)
| or_call w past l1 t l2 sent w' t' out :
    task_step w t = Some (w', t', out) ->
    oracle_step (mkOracleState (w :: past) (l1 ++ t :: l2) sent)
      (mkOracleState (w' :: w :: past) (l1 ++ t' :: l2) (sent ++ map (pair (w :: past)) out))
| or_cancel past l1 id l2 sent :
    oracle_step (mkOracleState past (l1 ++ AtMonitor id :: l2) sent) (mkOracleState past (l1 ++ Returned (Ok tt) :: l2) sent).

Definition oracle_run (s : oracleState) : Prop := exists w, rtc oracle_step (mkOracleState [w] [] []) s.

End Sender.

(** ** What was seen *)

Section Seen.
Context {W : Type}.

(** [P] held of the states up to some earlier time, or now. *)
Definition once (P : list W -> Prop) (past : list W) : Prop := exists later before, past = later ++ before /\ P before.

(** [P] holds of the current state, [Q] of the states up to it. *)
Definition now (P : W -> Prop) (Q : list W -> Prop) (past : list W) : Prop := exists w, head past = Some w /\ P w /\ Q past.

Lemma once_later P w past : once P past -> once P (w :: past).
Proof. intros (later & before & -> & H). by exists (w :: later), before. Qed.

Lemma once_now P past : P past -> once P past.
Proof. intros H. by exists [], past. Qed.

Lemma once_impl (P Q : list W -> Prop) past : (forall l, P l -> Q l) -> once P past -> once Q past.
Proof. intros HPQ (later & before & -> & H). exists later, before. auto. Qed.

Lemma now_impl (P P' : W -> Prop) (Q Q' : list W -> Prop) past :
  (forall w, P w -> P' w) -> (forall l, Q l -> Q' l) -> now P Q past -> now P' Q' past.
Proof. intros HP HQ (w & Hw & H & H'). exists w. auto. Qed.

End Seen.

#[export] Hint Resolve once_later once_now : core.

Section Proofs.
Context `{Kc : Keccak} {W : Type} (env : L2Env W) (c : EVMChainGERSender) (syncer : W -> processor) (moves : W -> W -> Prop).
Abbreviation step := (oracle_step env c syncer moves).
Abbreviation run := (oracle_run env c syncer moves).

(** The root was the latest of the syncer; then L2 did not have it; then it was not the last proposal of this member. *)
Definition latest_seen (ger : Z) : list W -> Prop := once (now (fun w => s_GetLatestL1InfoGER (syncer w) = Ok ger) (fun _ => True)).
Definition missing_seen (ger : Z) : list W -> Prop :=
  once (now (fun w => exists i, GlobalExitRootMap env w ger = Ok i /\ i <= 0) (latest_seen ger)).
Definition unproposed_seen (ger : Z) : list W -> Prop :=
  once (now (fun w => exists committee g, gs_aggOracleCommittee c = Some committee /\
    AddressToLastProposedGER env w committee (tx_From env) = Ok g /\ g <> ger) (missing_seen ger)).

Definition task_ok (past : list W) (t : task) : Prop :=
  match t with
  | AtInject ger => gs_mode c = DirectInjectionMode /\ latest_seen ger past
  | AtPropose ger => gs_mode c = AggOracleCommitteeMode /\ latest_seen ger past
  | AtProposed ger => gs_mode c = AggOracleCommitteeMode /\ missing_seen ger past
  | AtSubmit false ger => gs_mode c = DirectInjectionMode /\ missing_seen ger past
  | AtSubmit true ger => gs_mode c = AggOracleCommitteeMode /\ unproposed_seen ger past
  | AtMonitor _ | Returned _ => True
  end.

Definition sent_ok (past : list W) (rq : txRequest) : Prop := exists toCommittee ger,
  requestFor env c toCommittee ger = Ok rq /\ task_ok past (AtSubmit toCommittee ger).

Lemma task_ok_later w past t : task_ok past t -> task_ok (w :: past) t.
Proof. destruct t as [| | |[]| |]; cbn; unfold latest_seen, missing_seen, unproposed_seen; intuition auto. Qed.

Lemma task_checked_ok past r next : task_ok past (checked r next) \/ (r = Ok false /\ checked r next = next).
Proof. destruct r as [[]|]; [left; exact I | by right | left; exact I]. Qed.

Lemma missing_now w past ger : IsGERInjected env w ger = Ok false -> latest_seen ger (w :: past) -> missing_seen ger (w :: past).
Proof.
  unfold IsGERInjected. intros H Hl. apply once_now. exists w. split; [done|]. split; [|done].
  destruct (GlobalExitRootMap env w ger) as [i|]; [|done]. exists i. split; [done|]. injection H as H. by apply Z.ltb_ge in H.
Qed.

Lemma unproposed_now w past ger :
  IsGERProposed env c w ger = Some (Ok false) -> missing_seen ger (w :: past) -> unproposed_seen ger (w :: past).
Proof.
  unfold IsGERProposed. destruct (gs_aggOracleCommittee c) as [committee|] eqn:Ec; [|done]. cbn [mbind option_bind]. intros H Hm.
  apply once_now. exists w. split; [done|]. split; [|done]. destruct (AddressToLastProposedGER _ _ _ _) as [g|] eqn:E; [|done].
  exists committee, g. split; [done|]. split; [done|]. injection H as H. by apply Z.eqb_neq in H.
Qed.

Lemma task_step_ok w past t w' t' out :
  task_ok (w :: past) t -> task_step env c w t = Some (w', t', out) ->
  task_ok (w' :: w :: past) t' /\ Forall (sent_ok (w :: past)) out.
Proof.
  intros Ht Hs. destruct t as [ger|ger|ger|b ger|id|r]; cbn [task_step] in Hs.
  - injection Hs as <- <- <-. split; [apply task_ok_later | done]. destruct Ht as [Hm Hl].
    destruct (task_checked_ok (w :: past) (IsGERInjected env w ger) (AtSubmit false ger)) as [H|[H E]]; [done|]. unfold InjectGER. rewrite E.
    split; [done | by apply missing_now].
  - injection Hs as <- <- <-. split; [apply task_ok_later | done]. destruct Ht as [Hm Hl].
    destruct (task_checked_ok (w :: past) (IsGERInjected env w ger) (AtProposed ger)) as [H|[H E]]; [done|]. unfold ProposeGER. rewrite E.
    split; [done | by apply missing_now].
  - unfold ProposeGER_proposed in Hs. destruct (IsGERProposed env c w ger) as [r|] eqn:Er; [|done]. injection Hs as <- <- <-.
    split; [apply task_ok_later | done]. destruct Ht as [Hm Hl].
    destruct (task_checked_ok (w :: past) r (AtSubmit true ger)) as [H|[-> E]]; [done|]. rewrite E. split; [done | by apply unproposed_now].
  - injection Hs as Hs. unfold submitTransaction in Hs. destruct (requestFor env c b ger) as [rq|] eqn:Er; [|by injection Hs as <- <- <-].
    assert (sent_ok (w :: past) rq) as Hok by (exists b, ger; split; [done | exact Ht]).
    destruct (tx_Add env w rq) as [w1 [id [[|msg]|]]]; injection Hs as <- <- <-; (split; [exact I | by constructor]).
  - injection Hs as <- <- <-. split; [|done]. unfold monitorTx. destruct (tx_Result env w id) as [[]|]; exact I.
  - injection Hs as <- <- <-. by split.
Qed.

Record run_inv (s : oracleState) : Prop := {
  rn_past : or_past s <> [];
  rn_tasks : Forall (task_ok (or_past s)) (or_tasks s);
  rn_sent : Forall (fun q => sent_ok (fst q) (snd q)) (or_sent s)
}.

Lemma tasks_later w past l : Forall (task_ok past) l -> Forall (task_ok (w :: past)) l.
Proof. intros H. eapply Forall_impl; [exact H | intros t; apply task_ok_later]. Qed.

Lemma oracle_step_inv s s' : step s s' -> run_inv s -> run_inv s'.
Proof.
  intros Hstep [Hp Ht Hs]. destruct Hstep as [w w' past tasks sent Hm | w past tasks sent t Hr | | w past l1 t l2 sent w' t' out Hc | past l1 id l2 sent];
    cbn [or_past or_tasks or_sent] in *.
  - split; cbn [or_past or_tasks or_sent]; [done | by apply tasks_later | done].
  - split; cbn [or_past or_tasks or_sent]; [done | | done]. apply Forall_app_2; [done|]. constructor; [|constructor].
    unfold processLatestGER in Hr. destruct (s_GetLatestL1InfoGER (syncer w)) as [ger|] eqn:E; [|done]. injection Hr as <-.
    assert (latest_seen ger (w :: past)) as Hl by (apply once_now; exists w; done).
    unfold ProcessGER. destruct (gs_mode c) eqn:Em; split; done.
  - done.
  - apply Forall_app in Ht as [H1 H2]. apply Forall_cons_1 in H2 as [Hh H2]. destruct (task_step_ok w past t w' t' out Hh Hc) as [Ht' Ho].
    split; cbn [or_past or_tasks or_sent]; [done | | apply Forall_app_2; [done|]].
    + apply Forall_app_2; [by apply tasks_later|]. constructor; [done | by apply tasks_later].
    + apply Forall_map. by eapply Forall_impl; [exact Ho|].
  - apply Forall_app in Ht as [H1 H2]. apply Forall_cons_1 in H2 as [_ H2]. split; cbn [or_past or_tasks or_sent]; [done | | done].
    apply Forall_app_2; [done|]. by constructor.
Qed.

Lemma run_run_inv s : run s -> run_inv s.
Proof.
  intros [w Hrtc]. assert (run_inv (mkOracleState [w] [] [])) as H by (by split; cbn).
  induction Hrtc; [done | eauto using oracle_step_inv].
Qed.

End Proofs.

Section Promises.
Context `{Kc : Keccak} {W : Type} (env : L2Env W) (syncer : W -> processor) (moves : W -> W -> Prop).

(** The root is that of the last leaf of the L1 info tree, which the syncer proves against the last root. *)
Definition provable_latest (p : processor) (ger : Z) : Prop := exists l r proof,
  last (l1info_leaf (p_db p)) = Some l /\ il_GlobalExitRoot l = ger /\ last (db_root (p_treeDB p)) = Some r /\
  l1_GetProofForGER (l1_syncer p) ger (rt_Hash r) = Ok (l, proof) /\ VerifyProof (il_Hash l) proof (il_L1InfoTreeIndex l) (rt_Hash r) = true.

Lemma latest_ger_provable p ger : p_inv p -> s_GetLatestL1InfoGER p = Ok ger -> provable_latest p ger.
Proof.
  intros Hinv. unfold s_GetLatestL1InfoGER, ifActive. destruct (p_halted p) eqn:Hh; [done|]. unfold GetLatestL1InfoGER.
  destruct (latest _ _) as [l|] eqn:El; [|done]. intros H. injection H as <-.
  assert (last (l1info_leaf (p_db p)) = Some l) as Hlast.
  { destruct (l1info_leaf (p_db p)) as [|x t _] eqn:E using rev_ind; [done|]. rewrite last_snoc. rewrite <- El. symmetry. unfold latest.
    apply firstBy_app. intros y Hy. apply list_elem_of_In, list_elem_of_lookup in Hy as [j Hj].
    apply (leaves_ordered _ _ _ j (length t) y x Hinv); [by eapply lookup_lt_Some | |]; rewrite E;
      [by apply lookup_app_l_Some | by rewrite lookup_app_r, Nat.sub_diag by lia]. }
  assert (Hk := Hlast). rewrite last_lookup in Hk. destruct (root_row_exists p _ l Hinv Hk) as [r Hr].
  destruct (GER_provable p _ l _ r Hinv Hh Hk (le_n _) Hr) as (proof & Hp & Hv). exists l, r, proof. split; [done|]. split; [done|].
  split; [|done]. rewrite last_lookup, (di_length _ _ (ai_db _ _ _ (iv_tree _ _ _ Hinv))), length_map. exact Hr.
Qed.

(** C16. In any run of the loop and its tasks, while the world moves between any two calls: every transaction handed to the
    transaction manager inserts, or proposes, a root that was provable by the syncer of the L1 info tree as the last one, that L2
    answered after that not to have, and that, in the committee, the contract answered after that not to be the last proposal of
    this member. *)
Theorem sent_roots_were_missing c s past rq :
  (forall w, p_inv (syncer w)) -> oracle_run env c syncer moves s -> (past, rq) ∈ or_sent s ->
  exists ger, requestFor env c (match gs_mode c with AggOracleCommitteeMode => true | DirectInjectionMode => false end) ger = Ok rq /\
    let missing := once (now (fun w => exists i, GlobalExitRootMap env w ger = Ok i /\ i <= 0)
      (once (now (fun w => provable_latest (syncer w) ger) (fun _ => True)))) in
    match gs_mode c with
    | DirectInjectionMode => missing past
    | AggOracleCommitteeMode => once (now (fun w => exists committee g, gs_aggOracleCommittee c = Some committee /\
        AddressToLastProposedGER env w committee (tx_From env) = Ok g /\ g <> ger) missing) past
    end.
Proof.
  intros Hp Hr Hin. pose proof (rn_sent _ _ _ _ (run_run_inv _ _ _ _ s Hr)) as Hs. rewrite Forall_forall in Hs.
  destruct (Hs _ Hin) as (b & ger & Hrq & Hok). exists ger.
  assert (forall l, missing_seen env syncer ger l -> once (now (fun w => exists i, GlobalExitRootMap env w ger = Ok i /\ i <= 0)
      (once (now (fun w => provable_latest (syncer w) ger) (fun _ => True)))) l) as Hmiss.
  { intros l. apply once_impl. intros m. apply now_impl; [done|]. intros m'. apply once_impl. intros m''. apply now_impl; [|done].
    intros w. by apply latest_ger_provable. }
  destruct b; destruct Hok as [-> Hok]; (split; [done|]); cbn zeta; [|by apply Hmiss].
  revert Hok. apply once_impl. intros m. apply now_impl; [done | exact Hmiss].
Qed.

(** What the constructor establishes. *)
Lemma NewEVMChainGERSender_Ok w0 cfg enabled c : NewEVMChainGERSender env w0 cfg enabled = Ok c ->
  match gs_mode c with
  | DirectInjectionMode => (enabled = false \/ AggOracleCommitteeAddr cfg = 0) /\
      exists updater, GlobalExitRootUpdater env w0 = Ok updater /\ (updater = 0 \/ updater = tx_From env)
  | AggOracleCommitteeMode => (enabled = true /\ AggOracleCommitteeAddr cfg <> 0) /\
      gs_aggOracleCommittee c = Some (AggOracleCommitteeAddr cfg) /\
      exists index, GetAggOracleMemberIndex env w0 (AggOracleCommitteeAddr cfg) (tx_From env) = Ok index
  end.
Proof.
  unfold NewEVMChainGERSender. intros H. destruct (GetAbi env GERManagerAbi) as [|]; [|done]. cbn [failing rbind] in H.
  destruct (enabled && negb (AggOracleCommitteeAddr cfg =? 0)) eqn:Em; unfold initializeAndValidateMode in H; cbn [gs_mode] in H.
  - unfold initializeAndValidateAggOracleCommitteeMode, validateGERProposer in H.
    cbn [gs_aggOracleCommitteeAddr gs_mode gs_l2GERManagerAddr gs_gasOffset] in H.
    destruct (NewAggoraclecommittee _ _ _); [|done]. destruct (GetAggOracleMemberIndex _ _ _ _) as [index|]; [|done].
    destruct (GetAbi _ _); [|done]. destruct (AggOracleMembers _ _ _ _); [|done]. injection H as <-. cbn [gs_mode gs_aggOracleCommittee].
    apply andb_true_iff in Em as [-> Em]. apply negb_true_iff, Z.eqb_neq in Em. eauto.
  - unfold validateGERSender in H. destruct (GlobalExitRootUpdater env w0) as [updater|]; [|done]. cbn [failing rbind] in H.
    destruct (negb (updater =? 0) && _) eqn:Eu; [done|]. injection H as <-. cbn [gs_mode]. split.
    + apply andb_false_iff in Em as [->|Em]; [by left | right]. by apply negb_false_iff, Z.eqb_eq in Em.
    + exists updater. split; [done|]. apply andb_false_iff in Eu as [Eu|Eu]; apply negb_false_iff, Z.eqb_eq in Eu; [by left | by right].
Qed.

(** A sender that was constructed was allowed to send when it was: in the direct mode the contract has no updater or this key is
    it, and the committee mode, chosen exactly when it is enabled with an address, found the key among the members.  In any run
    no task of it panics. *)
Theorem constructed_sender_may_send w0 cfg enabled c s :
  NewEVMChainGERSender env w0 cfg enabled = Ok c -> oracle_run env c syncer moves s ->
  match gs_mode c with
  | DirectInjectionMode => (enabled = false \/ AggOracleCommitteeAddr cfg = 0) /\
      exists updater, GlobalExitRootUpdater env w0 = Ok updater /\ (updater = 0 \/ updater = tx_From env)
  | AggOracleCommitteeMode => (enabled = true /\ AggOracleCommitteeAddr cfg <> 0) /\
      exists index, GetAggOracleMemberIndex env w0 (AggOracleCommitteeAddr cfg) (tx_From env) = Ok index
  end /\
  forall t w, t ∈ or_tasks s -> exists next, task_step env c w t = Some next.
Proof.
  intros Hnew Hr. apply NewEVMChainGERSender_Ok in Hnew. split; [by destruct (gs_mode c); intuition|]. intros t w Ht.
  pose proof (rn_tasks _ _ _ _ (run_run_inv _ _ _ _ s Hr)) as Hok. rewrite Forall_forall in Hok. specialize (Hok t Ht).
  destruct t as [ger|ger|ger|b ger|id|r]; cbn [task_step]; try by eexists.
  destruct Hok as [Hm _]. rewrite Hm in Hnew. destruct Hnew as (_ & Hc & _). unfold ProposeGER_proposed, IsGERProposed. rewrite Hc. by eexists.
Qed.

(** A task that waits for its transaction returns with the first status that decides it, and until then sends nothing. *)
Fixpoint monitored (c : EVMChainGERSender) (ws : list W) (t : task) : task :=
  match ws with
  | [] => t
  | w :: ws => match task_step env c w t with Some (_, t', _) => monitored c ws t' | None => t end
  end.

Definition undecided (w : W) (id : Z) : bool :=
  match tx_Result env w id with
  | Ok MonitoredTxStatusCreated | Ok MonitoredTxStatusSent | Ok (OtherTxStatus _) => true
  | _ => false
  end.

Lemma monitored_first c id ws w rest : Forall (fun w => undecided w id = true) ws -> undecided w id = false ->
  monitored c (ws ++ w :: rest) (AtMonitor id) =
  Returned (match tx_Result env w id with
            | Err e => Err (ErrResult e)
            | Ok MonitoredTxStatusFailed => Err (ErrTxFailed id)
            | Ok _ => Ok tt
            end).
Proof.
  intros Hws Hw. assert (forall r, monitored c rest (Returned r) = Returned r) as Hdone by (intros r; clear; by induction rest).
  induction Hws as [|w1 ws H1 Hws IH]; cbn [app monitored task_step].
  - unfold monitorTx, undecided in *. destruct (tx_Result env w id) as [[]|]; try done; apply Hdone.
  - unfold monitorTx, undecided in *. destruct (tx_Result env w1 id) as [[]|]; try done; apply IH.
Qed.

End Promises.

(** ** Examples *)

#[local] Existing Instance toy_keccak.

(** A world with a syncer that may have the first leaf, the roots L2 has, the last proposal of the member, and the
    transactions of the manager, which are mined at once. *)
Record exampleWorld := mkExampleWorld { ew_synced : bool; ew_injected : list Z; ew_proposed : Z; ew_txs : list txRequest }.

Definition example_syncer (w : exampleWorld) : processor := if ew_synced w then example_p1 else newProcessor.

Definition example_env : L2Env exampleWorld := {|
  GlobalExitRootMap := fun w ger => Ok (if bool_decide (ger ∈ ew_injected w) then 1 else 0);
  GlobalExitRootUpdater := fun _ => Ok 5;
  NewAggoraclecommittee := fun _ _ => Ok tt;
  GetAggOracleMemberIndex := fun _ _ member => if member =? 5 then Ok 0 else Err (CallFailed "OracleMemberNotFound");
  AggOracleMembers := fun _ _ _ => Ok 5;
  AddressToLastProposedGER := fun w _ _ => Ok (ew_proposed w);
  tx_From := 5;
  tx_Add := fun w rq => (mkExampleWorld (ew_synced w) (ew_injected w) (ew_proposed w) (ew_txs w ++ [rq]), (Z.of_nat (length (ew_txs w)), None));
  tx_Result := fun _ _ => Ok MonitoredTxStatusMined;
  GetAbi := fun _ => Ok tt;
  abi_Pack := fun _ _ ger => Ok (Hash_Bytes ger)
|}.

Definition example_moves (w w' : exampleWorld) : Prop := w' = mkExampleWorld true (ew_injected w) (ew_proposed w) (ew_txs w).

Definition example_world (synced : bool) : exampleWorld := mkExampleWorld synced [] 0 [].
Definition example_cfg : EVMConfig := mkEVMConfig 11 22 0.
Definition example_member : EVMChainGERSender := mkEVMChainGERSender AggOracleCommitteeMode 11 (Some 22) 22 0.
Definition example_ger : Z := il_GlobalExitRoot example_leaf1.
Definition example_request : txRequest := mkTxRequest 22 (Hash_Bytes example_ger) 0.
Definition example_past : list exampleWorld := [example_world true; example_world true; example_world true; example_world false].
Definition example_after : exampleWorld := mkExampleWorld true [] 0 [example_request].
Definition example_state : oracleState := mkOracleState (example_after :: example_past) [AtMonitor 0] [(example_past, example_request)].

Lemma example_latest : s_GetLatestL1InfoGER (example_syncer (example_world true)) = Ok example_ger.
Proof. vm_compute. reflexivity. Qed.

Lemma example_oracle_run : oracle_run example_env example_member example_syncer example_moves example_state.
Proof.
  exists (example_world false). eapply rtc_l; [by apply (or_move _ _ _ _ _ (example_world true))|].
  eapply rtc_l; [apply (or_round _ _ _ _ _ _ _ _ (AtPropose example_ger)); unfold processLatestGER; by rewrite example_latest|].
  eapply rtc_l; [apply (or_call _ _ _ _ _ _ [] _ [] _ (example_world true) (AtProposed example_ger) []); reflexivity|].
  eapply rtc_l; [apply (or_call _ _ _ _ _ _ [] _ [] _ (example_world true) (AtSubmit true example_ger) []); vm_compute; reflexivity|].
  eapply rtc_l; [apply (or_call _ _ _ _ _ _ [] _ [] _ example_after (AtMonitor 0) [example_request]); reflexivity|].
  apply rtc_refl.
Qed.

Lemma sent_roots_were_missing_witness :
  exists ger, requestFor example_env example_member true ger = Ok example_request /\
    once (now (fun w => exists committee g, gs_aggOracleCommittee example_member = Some committee /\
      AddressToLastProposedGER example_env w committee (tx_From example_env) = Ok g /\ g <> ger)
      (once (now (fun w => exists i, GlobalExitRootMap example_env w ger = Ok i /\ i <= 0)
        (once (now (fun w => provable_latest (example_syncer w) ger) (fun _ => True)))))) example_past.
Proof.
  refine (sent_roots_were_missing example_env example_syncer example_moves example_member example_state example_past example_request
    _ example_oracle_run _); [intros w; unfold example_syncer; destruct (ew_synced w); [exact example_p1_inv | exact newProcessor_inv] | by left].
Defined.

Lemma constructed_sender_may_send_witness :
  ((true = true /\ AggOracleCommitteeAddr example_cfg <> 0) /\
   exists index, GetAggOracleMemberIndex example_env (example_world true) (AggOracleCommitteeAddr example_cfg) (tx_From example_env) = Ok index) /\
  forall t w, t ∈ or_tasks example_state -> exists next, task_step example_env example_member w t = Some next.
Proof.
  refine (constructed_sender_may_send example_env example_syncer example_moves (example_world true) example_cfg true example_member example_state
    _ example_oracle_run). reflexivity.
Defined.

(** Two rounds that read the same root before its transaction is mined both hand it to the transaction manager. *)
Example same_root_sent_twice : exists s, oracle_run example_env example_member example_syncer example_moves s /\
  map snd (or_sent s) = [example_request; example_request].
Proof.
  eexists. split; [exists (example_world true)|].
  { do 2 (eapply rtc_l; [apply (or_round _ _ _ _ _ _ _ _ (AtPropose example_ger)); unfold processLatestGER; by rewrite example_latest|]).
    eapply rtc_l; [apply (or_call _ _ _ _ _ _ [] _ [AtPropose example_ger] _ (example_world true) (AtProposed example_ger) []); reflexivity|].
    eapply rtc_l; [apply (or_call _ _ _ _ _ _ [] _ [AtPropose example_ger] _ (example_world true) (AtSubmit true example_ger) []); vm_compute; reflexivity|].
    eapply rtc_l; [apply (or_call _ _ _ _ _ _ [] _ [AtPropose example_ger] _ example_after (AtMonitor 0) [example_request]); reflexivity|].
    eapply rtc_l; [apply (or_call _ _ _ _ _ _ [AtMonitor 0] _ [] _ example_after (AtProposed example_ger) []); reflexivity|].
    eapply rtc_l; [apply (or_call _ _ _ _ _ _ [AtMonitor 0] _ [] _ example_after (AtSubmit true example_ger) []); vm_compute; reflexivity|].
    eapply rtc_l; [apply (or_call _ _ _ _ _ _ [AtMonitor 0] _ [] _ (mkExampleWorld true [] 0 [example_request; example_request]) (AtMonitor 1) [example_request]); reflexivity|].
    apply rtc_refl. }
  reflexivity.
Qed.
