(* ===== verification/TrackerSQLite.v ===== *)
(** The SQLite adapter of the registry of supervised bridges ([bridgetracker/db/sqlite_registry.go]), and its agreement with the
    one in memory.

    A row holds a snapshot as JSON.  What the encoding changes is written out: errors of certificates and descriptions are
    redacted ([redact], a pure function of texts that the code documents as idempotent), the printed status of a certificate
    is filled in, and the warning about an injection is dropped.  Each operation is taken as a whole; subscriptions belong to identifiers, not to records. *)

From S2P Require Import Prelude AgglayerTypes Tracker TrackerResolvers TrackerEngine TrackerProofs TrackerRuns.

(** ** Rows *)

Definition trackedBridgeSchemaVersion : Z := 1.

Definition CertificateStatus_String (s : CertificateStatus) : string :=
  match s with Pending => "Pending" | Proven => "Proven" | Candidate => "Candidate" | InError => "InError" | Settled => "Settled" end.

Section SQLite.
Context (redact : string -> string).

(** What is read back of what [json.Marshal] wrote. *)
Definition storedError (e : ErrorStep) : ErrorStep := mkErrorStep (es_ErrorType e) (es_RetryCount e) (map redact (es_Description e)).

Definition storedCertificate (c : CertificateData) : CertificateData :=
  mkCertificateData (cd_CertificateID c) (cd_Status c) (CertificateStatus_String (cd_Status c)) (redact (cd_Error c)) (cd_SettlementTxHash c)
    (cd_BlockNumber c) (cd_BlockTimestamp c).

(** The warning about an injection is not encoded. *)
Definition storedInjected (i : InjectedGERResult) : InjectedGERResult :=
  mkInjectedGERResult (ir_L1InfoTreeLeaf i) (ir_L2InjectedGER i) "".

Definition storedResult (r : StepResult) : StepResult :=
  match r with
  | ResultCertificateData c => ResultCertificateData (storedCertificate c)
  | ResultInjectedGer i => ResultInjectedGer (storedInjected i)
  | r => r
  end.

Definition storedStep (s : BridgeStepPath) : BridgeStepPath :=
  mkBridgeStepPath (sp_Step s) (sp_Status s) (sp_StartDate s) (sp_EndDate s) (storedResult <$> sp_Result s) (storedError <$> sp_Error s).

Definition storedTx (t : TrackingBridgeTx) : TrackingBridgeTx :=
  mkTrackingBridgeTx (storedError <$> tb_Error t) (tb_Info t) (tb_StartDate t) (tb_Timeout t).

Definition storedData (t : TrackingData) : TrackingData := mkTrackingData (td_id t) (storedTx (td_tx t)) (map storedStep (td_allSteps t)).

(** [tr_Data]: what it decodes to, [None] when it does not.  Times are seconds. *)
Record trackedBridgeRow := mkTrackedBridgeRow {
  tr_SchemaVersion : Z;
  tr_ClaimStatus : TrackerClaimStatus;
  tr_OriginBlockNumber : Z;
  tr_OriginBlockHash : Z;
  tr_UpdatedAt : Z;
  tr_LastAccess : Z;
  tr_TerminalSince : Z;
  tr_Data : option (TrackingBridgeTx * list BridgeStepPath)
}.

Definition marshal (tx : TrackingBridgeTx) (steps : list BridgeStepPath) : option (TrackingBridgeTx * list BridgeStepPath) :=
  Some (storedTx tx, map storedStep steps).

Definition unix (now : Z) : Z := now / nanoseconds.

Definition row_trackingData (id : TrackingID) (row : trackedBridgeRow) : option TrackingData :=
  '(tx, steps) ← tr_Data row; Some (mkTrackingData id tx steps).

Definition staleSchema (row : trackedBridgeRow) : bool := negb (tr_SchemaVersion row =? trackedBridgeSchemaVersion).

(** [sq_subscribers]: the update each channel of an identifier holds. *)
Record sqliteRegistry := mkSqliteRegistry {
  sq_rows : gmap TrackingID trackedBridgeRow;
  sq_maxEntries : Z;
  sq_numEntries : Z;
  sq_trigger : list TrackingID;
  sq_subscribers : gmap TrackingID (gmap nat (option TrackingData));
  sq_next : nat
}.

Inductive sqliteError := Reg (e : regError) | ErrDecode.

(** The registry of a database that holds rows already. *)
Definition NewSQLiteRegistry (rows : gmap TrackingID trackedBridgeRow) (maxEntries : Z) : sqliteRegistry :=
  mkSqliteRegistry rows (if maxEntries <=? 0 then DefaultMaxTrackedBridges else maxEntries) (Z.of_nat (size rows)) [] ∅ 0.

Definition set_rows (f : gmap TrackingID trackedBridgeRow -> gmap TrackingID trackedBridgeRow) (r : sqliteRegistry) : sqliteRegistry :=
  mkSqliteRegistry (f (sq_rows r)) (sq_maxEntries r) (sq_numEntries r) (sq_trigger r) (sq_subscribers r) (sq_next r).
Definition set_num (n : Z) (r : sqliteRegistry) : sqliteRegistry :=
  mkSqliteRegistry (sq_rows r) (sq_maxEntries r) n (sq_trigger r) (sq_subscribers r) (sq_next r).
Definition set_subs (f : gmap TrackingID (gmap nat (option TrackingData)) -> gmap TrackingID (gmap nat (option TrackingData)))
    (r : sqliteRegistry) : sqliteRegistry :=
  mkSqliteRegistry (sq_rows r) (sq_maxEntries r) (sq_numEntries r) (sq_trigger r) (f (sq_subscribers r)) (sq_next r).

(** [verifier]: the canonical hash of a block of a network, if it is configured; [Err] when it is not reached. *)
Context (verifier : option (Z -> Z -> result unit Z)).

Definition selectRow (id : TrackingID) (r : sqliteRegistry) : option trackedBridgeRow :=
  row ← sq_rows r !! id; if staleSchema row then None else Some row.

Definition rowIsStale (id : TrackingID) (row : trackedBridgeRow) : bool :=
  if staleSchema row then true
  else match tr_Data row with
       | None => true
       | Some _ =>
           match verifier with
           | None => false
           | Some canonicalBlockHash =>
               if tr_OriginBlockNumber row =? 0 then false
               else match canonicalBlockHash (tid_NetworkID id) (tr_OriginBlockNumber row) with
                    | Err _ => false
                    | Ok current => negb (current =? tr_OriginBlockHash row)
                    end
           end
       end.

Definition selectFreshRow (id : TrackingID) (r : sqliteRegistry) : option trackedBridgeRow :=
  row ← selectRow id r; if rowIsStale id row then None else Some row.

Definition freshRow (id : TrackingID) (now : Z) : trackedBridgeRow :=
  mkTrackedBridgeRow trackedBridgeSchemaVersion (ClaimStatus (mkTrackingData id emptyTx [])) 0 0 (unix now) (unix now) 0 (marshal emptyTx []).

(** The row replaces a stale one, or is inserted; an existing row that is not stale is kept. *)
Definition sq_create (id : TrackingID) (now : Z) (r : sqliteRegistry) : sqliteRegistry * result sqliteError trackedBridgeRow :=
  let row := freshRow id now in
  match sq_rows r !! id with
  | Some existing => if rowIsStale id existing then (set_rows <[id := row]> r, Ok row) else (r, Ok existing)
  | None =>
      if sq_maxEntries r <=? sq_numEntries r then (r, Err (Reg ErrRegistryFull))
      else (set_num (sq_numEntries r + 1) (set_rows <[id := row]> r), Ok row)
  end.

Definition getOrCreate (id : TrackingID) (createIfNotExists : bool) (now : Z) (r : sqliteRegistry)
  : sqliteRegistry * result sqliteError (trackedBridgeRow * bool) :=
  match selectFreshRow id r with
  | Some row => (r, Ok (row, false))
  | None =>
      if negb createIfNotExists then (r, Err (Reg ErrTrackingNotFound))
      else match sq_create id now r with
           | (r, Ok row) => (r, Ok (row, true))
           | (r, Err e) => (r, Err e)
           end
  end.

Definition touchLastAccess (id : TrackingID) (now : Z) : sqliteRegistry -> sqliteRegistry :=
  set_rows (alter (fun row => mkTrackedBridgeRow (tr_SchemaVersion row) (tr_ClaimStatus row) (tr_OriginBlockNumber row) (tr_OriginBlockHash row)
    (tr_UpdatedAt row) (unix now) (tr_TerminalSince row) (tr_Data row)) id).

Definition sq_signalTrigger (id : TrackingID) (r : sqliteRegistry) : sqliteRegistry :=
  mkSqliteRegistry (sq_rows r) (sq_maxEntries r) (sq_numEntries r)
    (if (length (sq_trigger r) <? triggerBufferSize)%nat then sq_trigger r ++ [id] else sq_trigger r) (sq_subscribers r) (sq_next r).

Definition accessed (id : TrackingID) (created : bool) (now : Z) (r : sqliteRegistry) : sqliteRegistry :=
  if created then sq_signalTrigger id r else touchLastAccess id now r.

Definition sq_Get (id : TrackingID) (createIfNotExists : bool) (now : Z) (r : sqliteRegistry)
  : sqliteRegistry * result sqliteError (option TrackingData) :=
  match getOrCreate id createIfNotExists now r with
  | (r, Err e) => (r, Err e)
  | (r, Ok (row, created)) => (accessed id created now r, Ok (row_trackingData id row))
  end.

(** A new channel among the subscribers of an identifier. *)
Definition addSubscriber (id : TrackingID) (r : sqliteRegistry) : sqliteRegistry * (TrackingID * nat) :=
  let ch := sq_next r in
  (mkSqliteRegistry (sq_rows r) (sq_maxEntries r) (sq_numEntries r) (sq_trigger r)
     (<[id := <[ch := None]> (default ∅ (sq_subscribers r !! id))]> (sq_subscribers r)) (S ch), (id, ch)).

Definition removeSubscriber (sub : TrackingID * nat) : sqliteRegistry -> sqliteRegistry :=
  set_subs (fun subs => match subs !! fst sub with
                        | None => subs
                        | Some chs => let chs := delete (snd sub) chs in if bool_decide (chs = ∅) then delete (fst sub) subs else <[fst sub := chs]> subs
                        end).

Definition sq_Subscribe (id : TrackingID) (now : Z) (r : sqliteRegistry) : sqliteRegistry * result sqliteError (TrackingID * nat) :=
  match getOrCreate id true now r with
  | (r, Err e) => (r, Err e)
  | (r, Ok (_, created)) => let '(r, sub) := addSubscriber id r in (accessed id created now r, Ok sub)
  end.

(** The first part of [GetAndAwait]: a snapshot, or the subscription to wait on with the row whose snapshot is returned when the
    time is over. *)
Definition sq_GetAndAwait (id : TrackingID) (timeout now : Z) (r : sqliteRegistry)
  : sqliteRegistry * result sqliteError (option TrackingData + (TrackingID * nat) * trackedBridgeRow) :=
  match getOrCreate id true now r with
  | (r, Err e) => (r, Err e)
  | (r, Ok (row, created)) =>
      if negb created || (timeout <=? 0) then (accessed id created now r, Ok (inl (row_trackingData id row)))
      else let '(r, sub) := addSubscriber id r in (sq_signalTrigger id r, Ok (inr (sub, row)))
  end.

Definition sq_awaited (sub : TrackingID * nat) (row : trackedBridgeRow) (r : sqliteRegistry) : sqliteRegistry * option TrackingData :=
  (removeSubscriber sub r,
   match sq_subscribers r !! fst sub ≫= fun chs => chs !! snd sub with
   | Some (Some update) => Some update
   | _ => row_trackingData (fst sub) row
   end).

Definition sq_notify (id : TrackingID) (update : TrackingData) : sqliteRegistry -> sqliteRegistry :=
  set_subs (alter (fmap (fun _ => Some update)) id).

Definition writeTracking (id : TrackingID) (row : trackedBridgeRow) (tx : TrackingBridgeTx) (steps : list BridgeStepPath) (now : Z)
    (r : sqliteRegistry) : sqliteRegistry :=
  let tracking := mkTrackingData id tx steps in
  let terminalSince := if (tr_TerminalSince row =? 0) && IsTerminal tracking then unix now else tr_TerminalSince row in
  sq_notify id tracking
    (set_rows (alter (fun old => mkTrackedBridgeRow (tr_SchemaVersion old) (ClaimStatus tracking) (from_option bi_BlockNumber 0 (tb_Info tx))
       (from_option bi_BlockHash 0 (tb_Info tx)) (unix now) (tr_LastAccess old) terminalSince (marshal tx steps)) id) r).

(** The row an update is for, decoded. *)
Definition updating (id : TrackingID) (r : sqliteRegistry)
    (k : trackedBridgeRow -> TrackingBridgeTx -> list BridgeStepPath -> sqliteRegistry) : sqliteRegistry * result sqliteError unit :=
  match selectRow id r with
  | None => (r, Err (Reg ErrTrackingNotFound))
  | Some row => match tr_Data row with None => (r, Err ErrDecode) | Some (tx, steps) => (k row tx steps, Ok tt) end
  end.

Definition sq_UpdateTrackingBridgeTx (id : TrackingID) (tx : TrackingBridgeTx) (now : Z) (r : sqliteRegistry) : sqliteRegistry * result sqliteError unit :=
  updating id r (fun row _ steps => writeTracking id row tx steps now r).

Definition sq_UpdateTracking (id : TrackingID) (tx : TrackingBridgeTx) (allSteps : list BridgeStepPath) (now : Z) (r : sqliteRegistry)
  : sqliteRegistry * result sqliteError unit :=
  updating id r (fun row prevTx steps =>
    writeTracking id row tx (if TerminallyFailed (mkTrackingData id prevTx steps) then steps else MergeSteps steps allSteps) now r).

Definition sq_UpdateTrackingStep (id : TrackingID) (stepIndex : nat) (step : BridgeStepPath) (now : Z) (r : sqliteRegistry)
  : sqliteRegistry * result sqliteError unit :=
  updating id r (fun row tx prev =>
    if TerminallyFailed (mkTrackingData id tx prev) then r
    else set_rows (alter (fun old => mkTrackedBridgeRow (tr_SchemaVersion old) (tr_ClaimStatus old) (tr_OriginBlockNumber old) (tr_OriginBlockHash old)
           (unix now) (tr_LastAccess old) (tr_TerminalSince old)
           (marshal tx (<[stepIndex := step]> (prev ++ replicate (S stepIndex - length prev) emptyStep)))) id) r).

(** Rows of another schema, and rows that do not decode, are passed over. *)
Definition decodedRows (r : sqliteRegistry) : list (TrackingID * trackedBridgeRow * TrackingData) :=
  omap (fun p => if staleSchema (snd p) then None else t ← row_trackingData (fst p) (snd p); Some (p, t)) (map_to_list (sq_rows r)).

Definition sq_GetTrackerActives (networkID : option Z) (r : sqliteRegistry) : list TrackingData :=
  map snd (bfilter (fun q => (tr_TerminalSince (snd (fst q)) =? 0) &&
    match networkID with Some n => tid_NetworkID (fst (fst q)) =? n | None => true end) (decodedRows r)).

Definition sq_GetNetworks (status : option TrackingStatus) (r : sqliteRegistry) : list Z :=
  merge_sort Z.le (elements (list_to_set (match status with
    | Some s => map (fun q => tid_NetworkID (fst (fst q))) (bfilter (fun q => bool_decide (TrackingStatusOf (snd q) = s)) (decodedRows r))
    | None => map (fun p => tid_NetworkID (fst p)) (bfilter (fun p => negb (staleSchema (snd p))) (map_to_list (sq_rows r)))
    end) : gset Z)).

Definition sq_GetNumTracker (r : sqliteRegistry) : Z := sq_numEntries r.

(** Rows are not pruned. *)
Definition sq_PruneTerminal (r : sqliteRegistry) : sqliteRegistry * Z := (r, 0).
Definition sq_PruneIdle (r : sqliteRegistry) : sqliteRegistry * Z := (r, 0).

Definition sq_Forget (id : TrackingID) (r : sqliteRegistry) : sqliteRegistry :=
  match sq_rows r !! id with
  | None => r
  | Some _ => set_num (sq_numEntries r - 1) (set_rows (delete id) r)
  end.

End SQLite.

(** ** Both adapters *)

(** The operations of the port that register, read, update and forget a bridge. *)
Inductive storeOp :=
| OpGet (id : TrackingID) (createIfNotExists : bool)
| OpSubscribe (id : TrackingID)
| OpUpdateTx (id : TrackingID) (tx : TrackingBridgeTx)
| OpUpdate (id : TrackingID) (tx : TrackingBridgeTx) (allSteps : list BridgeStepPath)
| OpUpdateStep (id : TrackingID) (stepIndex : nat) (step : BridgeStepPath)
| OpForget (id : TrackingID).

Inductive storeAnswer := AnsSnapshot (t : option TrackingData) | AnsDone | AnsErr (e : sqliteError).

Definition answered {S E A} (err : E -> sqliteError) (ans : A -> storeAnswer) (x : S * result E A) : S * storeAnswer :=
  match x with (s, Ok a) => (s, ans a) | (s, Err e) => (s, AnsErr (err e)) end.

Definition mem_op (o : storeOp) (now : Z) (r : memoryRegistry) : memoryRegistry * storeAnswer :=
  match o with
  | OpGet id b => answered Reg AnsSnapshot (reg_Get id b now r)
  | OpSubscribe id => answered Reg (fun _ => AnsDone) (reg_Subscribe id now r)
  | OpUpdateTx id tx => answered Reg (fun _ => AnsDone) (UpdateTrackingBridgeTx id tx now r)
  | OpUpdate id tx steps => answered Reg (fun _ => AnsDone) (UpdateTracking id tx steps now r)
  | OpUpdateStep id i step => answered Reg (fun _ => AnsDone) (UpdateTrackingStep id i step r)
  | OpForget id => (Forget id r, AnsDone)
  end.

Definition sql_op (redact : string -> string) (verifier : option (Z -> Z -> result unit Z)) (o : storeOp) (now : Z) (r : sqliteRegistry) : sqliteRegistry * storeAnswer :=
  match o with
  | OpGet id b => answered (fun e => e) AnsSnapshot (sq_Get redact verifier id b now r)
  | OpSubscribe id => answered (fun e => e) (fun _ => AnsDone) (sq_Subscribe redact verifier id now r)
  | OpUpdateTx id tx => answered (fun e => e) (fun _ => AnsDone) (sq_UpdateTrackingBridgeTx redact id tx now r)
  | OpUpdate id tx steps => answered (fun e => e) (fun _ => AnsDone) (sq_UpdateTracking redact id tx steps now r)
  | OpUpdateStep id i step => answered (fun e => e) (fun _ => AnsDone) (sq_UpdateTrackingStep redact id i step now r)
  | OpForget id => (sq_Forget id r, AnsDone)
  end.

Fixpoint run_ops {S} (op : storeOp -> Z -> S -> S * storeAnswer) (l : list (storeOp * Z)) (s : S) : S * list storeAnswer :=
  match l with
  | [] => (s, [])
  | (o, now) :: l => let '(s, a) := op o now s in let '(s, answers) := run_ops op l s in (s, a :: answers)
  end.

Section Agreement.
Context (redact : string -> string) (redact_idem : forall s, redact (redact s) = redact s).
Context (verifier : option (Z -> Z -> result unit Z)).

(** The verifier does not contradict the block of a bridge: it is not configured, not reached, or knows the block under
    the hash of the bridge. *)
Definition origin_confirmed (id : TrackingID) (number hash : Z) : Prop :=
  number = 0 \/ match verifier with
                | None => True
                | Some canonicalBlockHash => match canonicalBlockHash (tid_NetworkID id) number with Err _ => True | Ok current => current = hash end
                end.

Definition tx_confirmed (id : TrackingID) (tx : TrackingBridgeTx) : Prop :=
  origin_confirmed id (from_option bi_BlockNumber 0 (tb_Info tx)) (from_option bi_BlockHash 0 (tb_Info tx)).

(** The blocks of the bridges an operation writes. *)
Definition op_confirmed (o : storeOp) : Prop :=
  match o with OpUpdateTx id tx => tx_confirmed id tx | OpUpdate id tx _ => tx_confirmed id tx | _ => True end.

Abbreviation sData := (storedData redact).
Abbreviation sTx := (storedTx redact).
Abbreviation sStep := (storedStep redact).
Abbreviation sSteps := (map (storedStep redact)).

(** What is stored is stored as it is. *)
Lemma storedError_idem e : storedError redact (storedError redact e) = storedError redact e.
Proof.
  destruct e as [ty n l]. unfold storedError. cbn. f_equal. rewrite map_map. apply map_ext. exact redact_idem.
Qed.

Lemma storedResult_idem r : storedResult redact (storedResult redact r) = storedResult redact r.
Proof. destruct r; try done. cbn. unfold storedCertificate. cbn. by rewrite redact_idem. Qed.

Lemma storedStep_idem s : sStep (sStep s) = sStep s.
Proof.
  destruct s as [st sta a b r e]. unfold storedStep. cbn. f_equal.
  - destruct r; cbn; [by rewrite storedResult_idem | done].
  - destruct e; cbn; [by rewrite storedError_idem | done].
Qed.

Lemma storedTx_idem t : sTx (sTx t) = sTx t.
Proof. destruct t as [e i d n]. unfold storedTx. cbn. f_equal. destruct e; cbn; [by rewrite storedError_idem | done]. Qed.

Lemma storedSteps_idem l : sSteps (sSteps l) = sSteps l.
Proof. rewrite map_map. apply map_ext, storedStep_idem. Qed.

Lemma storedData_idem t : sData (sData t) = sData t.
Proof. destruct t. unfold storedData. cbn. by rewrite storedTx_idem, storedSteps_idem. Qed.

(** Statuses do not depend on what the encoding changes. *)
Lemma hasErrorType_stored e ty : hasErrorType (storedError redact <$> e) ty = hasErrorType e ty.
Proof. by destruct e. Qed.

Lemma transient_stored s : isTransientStepError (sStep s) = isTransientStepError s.
Proof. unfold isTransientStepError. cbn [storedStep sp_Status sp_Error]. by rewrite hasErrorType_stored. Qed.

Lemma indexWhere_stored (p : BridgeStepPath -> bool) l : (forall s, p (sStep s) = p s) -> indexWhere p (sSteps l) = indexWhere p l.
Proof. intros Hp. induction l as [|s l IH]; [done|]. cbn [map indexWhere]. by rewrite Hp, IH. Qed.

Lemma TerminallyFailed_stored t : TerminallyFailed (sData t) = TerminallyFailed t.
Proof.
  unfold TerminallyFailed, IsInTerminalError, IsInPermanentError, td_Info. cbn [storedData td_tx storedTx tb_Info tb_Error].
  by rewrite !hasErrorType_stored.
Qed.

Lemma StepIndex_stored t : StepIndex (sData t) = StepIndex t.
Proof.
  unfold StepIndex. cbn [storedData td_allSteps]. destruct (td_allSteps t) as [|s l] eqn:E; [done|]. rewrite <- E.
  destruct (sSteps (td_allSteps t)) as [|s' l'] eqn:E'; [by rewrite E in E'|]. rewrite <- E'.
  rewrite !indexWhere_stored, length_map; [done | done | |];
    intros x; unfold isTerminalStepError; cbn [storedStep sp_Status]; by rewrite !transient_stored.
Qed.

Lemma IsTerminal_stored t : IsTerminal (sData t) = IsTerminal t.
Proof.
  assert (TrackingStatusOf (sData t) = TrackingStatusOf t) as E.
  { unfold TrackingStatusOf, currentStep. rewrite StepIndex_stored. cbn [storedData td_allSteps td_tx].
    destruct (StepIndex t) as [i|]; cbn [mbind option_bind]; [change (sSteps) with (fmap (M := list) sStep); rewrite list_lookup_fmap; destruct (td_allSteps t !! i) as [s|]; cbn [fmap option_fmap option_map]|].
    - unfold convertStepStatusToTrackingStatus. rewrite transient_stored. done.
    - unfold IsInTerminalError, IsInPermanentError, IsDone. cbn [storedTx tb_Info tb_Error]. rewrite !hasErrorType_stored. by destruct (tb_Error (td_tx t)).
    - unfold IsInTerminalError, IsInPermanentError, IsDone. cbn [storedTx tb_Info tb_Error]. rewrite !hasErrorType_stored. by destruct (tb_Error (td_tx t)). }
  unfold IsTerminal, Failed. by rewrite E.
Qed.

Lemma same_stored t t' : sData t = sData t' -> IsTerminal t = IsTerminal t' /\ TerminallyFailed t = TerminallyFailed t'.
Proof.
  intros E. split.
  - rewrite <- (IsTerminal_stored t), E. apply IsTerminal_stored.
  - rewrite <- (TerminallyFailed_stored t), E. apply TerminallyFailed_stored.
Qed.

Lemma stored_tx_steps id tx steps : sData (mkTrackingData id (sTx tx) (sSteps steps)) = sData (mkTrackingData id tx steps).
Proof. apply (storedData_idem (mkTrackingData id tx steps)). Qed.

Lemma merge_stored prev next : sSteps (MergeSteps (sSteps prev) next) = sSteps (MergeSteps prev next).
Proof.
  destruct next as [|x next]; [apply storedSteps_idem|]. cbn [MergeSteps]. rewrite !map_app. f_equal.
  by rewrite skipn_map, storedSteps_idem.
Qed.

Lemma padded_stored prev i step : sSteps (<[i := step]> (sSteps prev ++ replicate (S i - length (sSteps prev)) emptyStep)) =
  sSteps (<[i := step]> (prev ++ replicate (S i - length prev) emptyStep)).
Proof.
  rewrite length_map. change sSteps with (fmap (M := list) sStep). rewrite !list_fmap_insert, !fmap_app. do 2 f_equal.
  apply storedSteps_idem.
Qed.

(** A record in memory and a row. *)
Definition same_entry (e : bridgeEntry) (row : trackedBridgeRow) : Prop :=
  tr_SchemaVersion row = trackedBridgeSchemaVersion /\ tr_Data row = marshal redact (td_tx (be_tracking e)) (td_allSteps (be_tracking e)) /\
  (tr_TerminalSince row = 0 <-> be_terminalSince e = None) /\
  origin_confirmed (td_id (be_tracking e)) (tr_OriginBlockNumber row) (tr_OriginBlockHash row).

Record agree (m : memoryRegistry) (s : sqliteRegistry) : Prop := {
  ag_max : mr_maxEntries m = sq_maxEntries s;
  ag_num : Z.of_nat (size (mr_bridges m)) = sq_numEntries s;
  ag_trigger : mr_trigger m = sq_trigger s;
  ag_refs : forall id ref, mr_bridges m !! id = Some ref -> (ref < mr_next m)%nat /\ exists e row,
    mr_heap m !! ref = Some e /\ td_id (be_tracking e) = id /\ sq_rows s !! id = Some row /\ same_entry e row;
  ag_none : forall id, mr_bridges m !! id = None -> sq_rows s !! id = None
}.

(** An update of the record and of the row of one bridge. *)
Lemma agree_alter m s id ref f g :
  agree m s -> mr_bridges m !! id = Some ref ->
  (forall e row, mr_heap m !! ref = Some e -> sq_rows s !! id = Some row -> td_id (be_tracking e) = id -> same_entry e row ->
    td_id (be_tracking (f e)) = id /\ same_entry (f e) (g row)) ->
  agree (set_entry ref f m) (set_rows (alter g id) s).
Proof.
  intros [Hm Hn Ht Hr H0] Hid Hf. split; cbn [set_entry set_heap mr_heap mr_bridges mr_next mr_maxEntries mr_trigger set_rows sq_rows sq_maxEntries sq_numEntries sq_trigger]; try done.
  - intros id' ref' Hid'. destruct (Hr id' ref' Hid') as (Hlt & e & row & He & Hte & Hrow & Hs). split; [done|].
    destruct (decide (id' = id)) as [ -> |Hne].
    + assert (ref' = ref) as -> by congruence. destruct (Hf e row He Hrow Hte Hs) as [Hf1 Hf2]. exists (f e), (g row).
      rewrite !lookup_alter_eq, He, Hrow. done.
    + exists e, row. rewrite lookup_alter_ne, lookup_alter_ne; [done | congruence |]. intros ->.
      destruct (Hr id ref' Hid) as (_ & e2 & _ & He2 & Hte2 & _). congruence.
  - intros id' Hnone. rewrite lookup_alter_ne; [by apply H0|]. intros ->. congruence.
Qed.

Lemma agree_create id now m s :
  agree m s -> mr_bridges m !! id = None ->
  match create id now m with
  | Ok (ref, m') => exists s' row, sq_create redact verifier id now s = (s', Ok row) /\ row = freshRow redact id now /\
      agree m' (sq_signalTrigger id s') /\ mr_bridges m' !! id = Some ref /\ mr_heap m' !! ref = Some (freshEntry id now)
  | Err e => sq_create redact verifier id now s = (s, Err (Reg e))
  end.
Proof.
  intros Hag Hid. unfold create, sq_create. rewrite (ag_none _ _ Hag id Hid), <- (ag_max _ _ Hag), <- (ag_num _ _ Hag).
  destruct (_ <=? _); [done|]. eexists _, _. split; [done|]. split; [done|]. split; [|by cbn; rewrite !lookup_insert_eq].
  destruct Hag as [Hm Hn Ht Hr H0].
  split; cbn [signalTrigger sq_signalTrigger set_num set_rows mr_heap mr_bridges mr_next mr_maxEntries mr_trigger sq_rows sq_maxEntries sq_numEntries sq_trigger].
  - done.
  - rewrite map_size_insert, Hid. lia.
  - by rewrite Ht.
  - intros id' ref'. rewrite lookup_insert_Some. intros [[<- <-]|[Hne Hid']].
    + split; [lia|]. exists (freshEntry id now), (freshRow redact id now). rewrite !lookup_insert_eq.
      split; [done|]. split; [done|]. split; [done|]. split; [done|]. split; [done|]. split; [done | by left].
    + destruct (Hr id' ref' Hid') as (Hlt & e & row & He & Hte & Hrow & Hs). split; [lia|]. exists e, row.
      rewrite lookup_insert_ne by lia. rewrite lookup_insert_ne by done. done.
  - intros id'. rewrite !fin_maps.lookup_insert_None. intros [H Hne]. split; [by apply H0 | done].
Qed.

Lemma agree_row m s id ref : agree m s -> mr_bridges m !! id = Some ref ->
  exists e row, mr_heap m !! ref = Some e /\ td_id (be_tracking e) = id /\ selectRow id s = Some row /\ same_entry e row /\
    selectFreshRow verifier id s = Some row.
Proof.
  intros Hag Hid. destruct (ag_refs _ _ Hag id ref Hid) as (_ & e & row & He & Hte & Hrow & Hs). exists e, row.
  assert (selectRow id s = Some row) as Hsel.
  { unfold selectRow. rewrite Hrow. cbn [mbind option_bind]. destruct Hs as [Hv _]. unfold staleSchema. by rewrite Hv, Z.eqb_refl. }
  split; [done|]. split; [done|]. split; [done|]. split; [done|]. unfold selectFreshRow. rewrite Hsel. cbn [mbind option_bind].
  destruct Hs as (Hv & Hd & _ & Ho). unfold rowIsStale, staleSchema. rewrite Hv, Hd, Z.eqb_refl. cbn [negb marshal].
  unfold origin_confirmed in Ho. rewrite Hte in Ho. destruct verifier as [canonical|]; [|done].
  destruct (Z.eqb_spec (tr_OriginBlockNumber row) 0) as [|Hne]; [done|]. destruct Ho as [|Ho]; [done|].
  destruct (canonical _ _); [by rewrite Ho, Z.eqb_refl | done].
Qed.

Lemma agree_norow m s id : agree m s -> mr_bridges m !! id = None -> selectRow id s = None /\ selectFreshRow verifier id s = None.
Proof. intros Hag Hid. unfold selectFreshRow, selectRow. by rewrite (ag_none _ _ Hag id Hid). Qed.

(** What both do to find or register a bridge. *)
Lemma agree_entryFor id b now m s :
  agree m s ->
  match entryFor id b now m with
  | Ok (ref, m') => exists s' row created, getOrCreate redact verifier id b now s = (s', Ok (row, created)) /\
      agree (set_entry ref (set_access now) m') (accessed id created now s') /\
      mr_bridges m' !! id = Some ref /\ exists e, mr_heap m' !! ref = Some e /\ td_id (be_tracking e) = id /\
      row_trackingData id row = Some (sData (be_tracking e))
  | Err e => getOrCreate redact verifier id b now s = (s, Err (Reg e))
  end.
Proof.
  intros Hag. unfold entryFor, getOrCreate. destruct (mr_bridges m !! id) as [ref|] eqn:Hid.
  - destruct (agree_row m s id ref Hag Hid) as (e & row & He & Hte & _ & Hs & ->). exists s, row, false. split; [done|].
    split; [|split; [done|]]. { cbn [accessed]. unfold touchLastAccess. apply (agree_alter m s id); [done | done |]. intros e' row' _ _ Ht' H'. by split. }
    exists e. split; [done|]. split; [done|]. unfold row_trackingData. destruct Hs as (_ & -> & _). cbn. unfold storedData. by rewrite Hte.
  - destruct (agree_norow m s id Hag Hid) as [_ ->]. destruct b; [|done]. cbn [negb]. pose proof (agree_create id now m s Hag Hid) as Hc.
    destruct (create id now m) as [[ref m']|e]; [|by rewrite Hc]. destruct Hc as (s' & row & -> & -> & Hag' & Hb & Hh).
    exists s', (freshRow redact id now), true. split; [done|]. split; [|split; [done|]].
    + cbn [accessed]. pose proof (agree_alter m' (sq_signalTrigger id s') id ref (set_access now) (fun r => r) Hag' Hb) as H.
      assert (set_rows (alter (fun r => r) id) (sq_signalTrigger id s') = sq_signalTrigger id s') as E.
      { unfold set_rows. rewrite alter_id by done. done. }
      rewrite E in H. apply H. intros e row _ _ Hte Hse. by split.
    + exists (freshEntry id now). done.
Qed.

Lemma agree_subs m s f : agree m s -> agree m (set_subs f s).
Proof. intros []. by split. Qed.

Definition stored_answer (a : storeAnswer) : storeAnswer := match a with AnsSnapshot t => AnsSnapshot (sData <$> t) | a => a end.

Definition agree_after (x : memoryRegistry * storeAnswer) (y : sqliteRegistry * storeAnswer) : Prop :=
  agree (fst x) (fst y) /\ snd y = stored_answer (snd x).

(** A snapshot written by both. *)
Lemma agree_write m s id ref row f tx steps steps' now :
  0 < unix now -> tx_confirmed id tx -> agree m s -> mr_bridges m !! id = Some ref -> selectRow id s = Some row ->
  (forall e, mr_heap m !! ref = Some e -> td_id (be_tracking e) = id -> f (be_tracking e) = mkTrackingData id tx steps') -> sSteps steps = sSteps steps' ->
  agree (fst (updateEntry id now f m)) (writeTracking redact id row tx steps now s).
Proof.
  intros Hnow Hconf Hag Hid Hsel Hf Hst. unfold updateEntry. rewrite Hid. cbn [fst]. apply agree_subs, (agree_alter m s id); [done | done |].
  intros e row' He Hrow Hte Hs. unfold selectRow in Hsel. rewrite Hrow in Hsel. cbn [mbind option_bind] in Hsel.
  destruct (staleSchema row'); [done|]. injection Hsel as ->. cbn [stampTerminal set_tracking notify set_subscribers be_tracking be_terminalSince].
  rewrite (Hf e He Hte). destruct Hs as (Hv & _ & Ht & _). split; [done|]. split; [done|]. split; [|split; [|done]].
  - cbn [tr_Data be_tracking td_tx td_allSteps notify set_subscribers]. unfold marshal. by rewrite Hst.
  - unfold stampTerminal, set_tracking. cbn [tr_TerminalSince be_terminalSince be_tracking notify set_subscribers].
    assert (IsTerminal (mkTrackingData id tx steps) = IsTerminal (mkTrackingData id tx steps')) as ->.
    { apply same_stored. unfold storedData. cbn [td_id td_tx td_allSteps]. by rewrite Hst. }
    destruct (IsTerminal _); rewrite ?andb_true_r, ?andb_false_r; [|exact Ht].
    destruct (Z.eqb_spec (tr_TerminalSince row) 0) as [E|E]; destruct (be_terminalSince e) as [since|].
    + by apply Ht in E.
    + cbn. split; [lia | done].
    + cbn. split; [done|]. intros H. done.
    + by destruct E; apply Ht.
Qed.

Lemma agree_Get id b now m s : agree m s -> agree_after (mem_op (OpGet id b) now m) (sql_op redact verifier (OpGet id b) now s).
Proof.
  intros Hag. cbn [mem_op sql_op]. unfold reg_Get, sq_Get. pose proof (agree_entryFor id b now m s Hag) as H.
  destruct (entryFor id b now m) as [[ref m']|e]; [|by rewrite H].
  destruct H as (s' & row & created & -> & H & _ & e & He & _ & Hrow). split; [done|]. cbn. unfold trackingAt. by rewrite He, Hrow.
Qed.

Lemma agree_Subscribe id now m s : agree m s -> agree_after (mem_op (OpSubscribe id) now m) (sql_op redact verifier (OpSubscribe id) now s).
Proof.
  intros Hag. cbn [mem_op sql_op]. unfold reg_Subscribe, sq_Subscribe. pose proof (agree_entryFor id true now m s Hag) as H.
  destruct (entryFor id true now m) as [[ref m']|e]; [|by rewrite H].
  destruct H as (s' & row & created & -> & H & Hb & _). split; [|done]. cbn [subscribeTo addSubscriber answered fst].
  destruct H as [H1 H2 H3 H4 H5]. destruct created; cbn [accessed] in *.
  all: split; cbn in *; try done; intros id' ref' Hid'; destruct (H4 id' ref' Hid') as (Hlt & e & row' & He & Hte & Hrow & Hs); (split; [lia|]);
    destruct (decide (ref' = ref)) as [ -> |Hne];
    [eexists _, row'; rewrite lookup_alter_eq, He; done | exists e, row'; by rewrite lookup_alter_ne].
Qed.

(** Updates: both refuse an unknown bridge, and write the same snapshot of a known one. *)
Lemma agree_update id tx now m s f g :
  0 < unix now -> tx_confirmed id tx -> agree m s ->
  (forall e, td_id (be_tracking e) = id -> exists steps', f (be_tracking e) = mkTrackingData id tx steps' /\
    sSteps (g (sTx (td_tx (be_tracking e))) (sSteps (td_allSteps (be_tracking e)))) = sSteps steps') ->
  agree_after (answered Reg (fun _ => AnsDone) (updateEntry id now f m))
    (answered (fun e => e) (fun _ => AnsDone) (updating id s (fun row prevTx steps => writeTracking redact id row tx (g prevTx steps) now s))).
Proof.
  intros Hnow Hconf Hag Hf. unfold updating. destruct (mr_bridges m !! id) as [ref|] eqn:Hid.
  - destruct (agree_row m s id ref Hag Hid) as (e & row & He & Hte & Hsel & Hs & _). rewrite Hsel. destruct Hs as (_ & -> & _). cbn [marshal].
    destruct (Hf e Hte) as (steps' & Hf' & Hg).
    pose proof (agree_write m s id ref row f tx (g (sTx (td_tx (be_tracking e))) (sSteps (td_allSteps (be_tracking e)))) steps' now Hnow Hconf Hag Hid Hsel) as H.
    unfold updateEntry in *. rewrite Hid in *. split; [|done]. apply H; [|done]. intros e' He' _. by replace e' with e by congruence.
  - destruct (agree_norow m s id Hag Hid) as [-> _]. unfold updateEntry. by rewrite Hid.
Qed.

Lemma agree_UpdateStep id i step now m s :
  agree m s -> agree_after (mem_op (OpUpdateStep id i step) now m) (sql_op redact verifier (OpUpdateStep id i step) now s).
Proof.
  intros Hag. cbn [mem_op sql_op]. unfold UpdateTrackingStep, sq_UpdateTrackingStep, updating. destruct (mr_bridges m !! id) as [ref|] eqn:Hid.
  2: { by destruct (agree_norow m s id Hag Hid) as [-> _]. }
  destruct (agree_row m s id ref Hag Hid) as (e & row & He & Hte & Hsel & Hs & _). rewrite Hsel. destruct Hs as (_ & -> & _). cbn [marshal].
  assert (TerminallyFailed (mkTrackingData id (sTx (td_tx (be_tracking e))) (sSteps (td_allSteps (be_tracking e)))) = TerminallyFailed (be_tracking e)) as ->.
  { rewrite <- (TerminallyFailed_stored (be_tracking e)). unfold storedData. by rewrite Hte. }
  split; [|done]. cbn [answered fst]. destruct (TerminallyFailed (be_tracking e)) eqn:Ef.
  - pose proof (agree_alter m s id ref (fun e' => if TerminallyFailed (be_tracking e') then e' else set_tracking (mkTrackingData id (td_tx (be_tracking e'))
      (<[i := step]> (td_allSteps (be_tracking e') ++ replicate (S i - length (td_allSteps (be_tracking e'))) emptyStep))) e') (fun r => r) Hag Hid) as H.
    assert (set_rows (alter (fun r => r) id) s = s) as E by (unfold set_rows; rewrite alter_id by done; by destruct s).
    rewrite E in H. apply H. intros e' row' He' _ Hte' Hs'. replace e' with e in * by congruence. by rewrite Ef.
  - apply (agree_alter m s id); [done | done |]. intros e' row' He' _ Hte' (Hv & _ & Ht & Ho). replace e' with e in * by congruence. rewrite Ef.
    split; [done|]. split; [done|]. split; [|split; [done | by rewrite <- Hte]]. cbn [tr_Data set_tracking be_tracking td_tx td_allSteps]. unfold marshal.
    rewrite padded_stored. by rewrite storedTx_idem.
Qed.

Lemma agree_Forget id now m s : agree m s -> agree_after (mem_op (OpForget id) now m) (sql_op redact verifier (OpForget id) now s).
Proof.
  intros Hag. split; [|done]. cbn [mem_op sql_op fst]. unfold sq_Forget. destruct Hag as [H1 H2 H3 H4 H5].
  destruct (mr_bridges m !! id) as [ref|] eqn:Hid.
  - destruct (H4 id ref Hid) as (_ & e & row & _ & _ & Hrow & _). rewrite Hrow.
    split; cbn [Forget set_bridges set_num set_rows mr_bridges mr_maxEntries mr_trigger mr_heap mr_next sq_rows sq_maxEntries sq_numEntries sq_trigger]; try done.
    + rewrite map_size_delete, Hid. pose proof (map_size_non_empty_iff (mr_bridges m)) as Hne. assert (mr_bridges m <> ∅) as Hx by (intros E; by rewrite E, lookup_empty in Hid).
      apply Hne in Hx. lia.
    + intros id' ref'. rewrite lookup_delete_Some. intros [Hne Hid']. destruct (H4 id' ref' Hid') as (Hlt & e' & row' & He' & Hte' & Hrow' & Hs'). split; [done|].
      exists e', row'. by rewrite lookup_delete_ne.
    + intros id'. rewrite !lookup_delete_None. intros [->|H]; [by left | right; by apply H5].
  - rewrite (H5 id Hid). split; cbn [Forget set_bridges mr_bridges mr_maxEntries mr_trigger mr_heap mr_next]; rewrite ?delete_id by done; done.
Qed.

(** Every operation leaves both in agreement, with the same answer up to the encoding. *)
Lemma agree_op o now m s : 0 < unix now -> op_confirmed o -> agree m s -> agree_after (mem_op o now m) (sql_op redact verifier o now s).
Proof.
  intros Hnow Hconf Hag. destruct o as [id b|id|id tx|id tx steps|id i step|id].
  - by apply agree_Get.
  - by apply agree_Subscribe.
  - apply agree_update with (g := fun _ steps => steps); [done | done | done |]. intros e Hte. exists (td_allSteps (be_tracking e)).
    split; [|apply storedSteps_idem]. case_bool_decide as Hd; [|done]. destruct (be_tracking e). cbn in *. by subst.
  - apply agree_update with (g := fun prevTx prev => if TerminallyFailed (mkTrackingData id prevTx prev) then prev else MergeSteps prev steps); [done | done | done |].
    intros e Hte. eexists. split; [done|].
    assert (TerminallyFailed (mkTrackingData id (sTx (td_tx (be_tracking e))) (sSteps (td_allSteps (be_tracking e)))) = TerminallyFailed (be_tracking e)) as ->.
    { rewrite <- (TerminallyFailed_stored (be_tracking e)). unfold storedData. by rewrite Hte. }
    destruct (TerminallyFailed _); [apply storedSteps_idem | apply merge_stored].
  - by apply agree_UpdateStep.
  - by apply agree_Forget.
Qed.

Lemma agree_new maxEntries : agree (newMemoryRegistry maxEntries) (NewSQLiteRegistry ∅ maxEntries).
Proof. split; cbn; try done; intros id ref; by rewrite lookup_empty. Qed.

Lemma agree_run l m s : Forall (fun q => 0 < unix (snd q) /\ op_confirmed (fst q)) l -> agree m s ->
  agree (fst (run_ops mem_op l m)) (fst (run_ops (sql_op redact verifier) l s)) /\
  snd (run_ops (sql_op redact verifier) l s) = map stored_answer (snd (run_ops mem_op l m)).
Proof.
  intros Hl. revert m s. induction Hl as [|[o now] l [Hnow Hconf] Hl IH]; intros m s Hag; [done|]. cbn [run_ops].
  destruct (agree_op o now m s Hnow Hconf Hag) as [Hag' Ha]. destruct (mem_op o now m) as [m' a], (sql_op redact verifier o now s) as [s' b]. cbn in Hag', Ha.
  destruct (IH m' s' Hag') as [Hag'' Hb]. destruct (run_ops mem_op l m') as [m2 as2], (run_ops (sql_op redact verifier) l s') as [s2 bs2]. cbn in *.
  split; [done|]. by subst.
Qed.

(** The active bridges are those that never were terminal. *)
Lemma agree_actives m s t : agree m s -> t ∈ sq_GetTrackerActives None s <->
  exists id ref e, mr_bridges m !! id = Some ref /\ mr_heap m !! ref = Some e /\ be_terminalSince e = None /\ t = sData (be_tracking e).
Proof.
  intros Hag. unfold sq_GetTrackerActives, decodedRows. change map with (fun A B (f : A -> B) => fmap (M := list) f). cbn beta.
  rewrite list_elem_of_fmap. split.
  - intros ([[id row] t'] & -> & Hq). apply list_elem_of_In, bfilter_In in Hq as [Hq Hz]. apply list_elem_of_In, list_elem_of_omap in Hq as ([id' row'] & Hin & Hd).
    apply elem_of_map_to_list in Hin. cbn [fst snd] in *. destruct (staleSchema row'); [done|].
    destruct (row_trackingData id' row') as [t''|] eqn:Er; [|done]. injection Hd as -> -> ->.
    destruct (mr_bridges m !! id) as [ref|] eqn:Hb; [|by rewrite (ag_none _ _ Hag id Hb) in Hin].
    destruct (ag_refs _ _ Hag id ref Hb) as (_ & e & row' & He & Hte & Hrow & Hv & Hdat & Ht & _). rewrite Hin in Hrow. injection Hrow as <-.
    exists id, ref, e. split; [done|]. split; [done|]. apply andb_true_iff in Hz as [Hz _]. apply Z.eqb_eq in Hz. split; [by apply Ht|].
    unfold row_trackingData in Er. rewrite Hdat in Er. injection Er as <-. unfold storedData. by rewrite Hte.
  - intros (id & ref & e & Hb & He & Hn & ->). destruct (ag_refs _ _ Hag id ref Hb) as (_ & e' & row & He' & Hte & Hrow & Hv & Hdat & Ht & _).
    rewrite He in He'. injection He' as <-. exists (id, row, sData (be_tracking e)). split; [done|].
    apply list_elem_of_In, bfilter_In. cbn [fst snd]. split; [|by rewrite (proj2 Ht Hn)]. apply list_elem_of_In, list_elem_of_omap. exists (id, row).
    split; [by apply elem_of_map_to_list|]. cbn [fst snd]. unfold staleSchema, row_trackingData. rewrite Hv, Hdat, Z.eqb_refl. cbn. unfold storedData. by rewrite Hte.
Qed.

End Agreement.

(** C32. Over any sequence of operations the SQLite adapter answers what the one in memory answers, up to what the encoding of
    snapshots changes, as long as its verifier, if it has one, does not contradict the origin block of a bridge (that is,
    none of them left its chain); both count the same bridges and hand the same ones to the engine; the bridges it lists as active
    are those that never were terminal; and after a restart it serves the same snapshots. *)
Theorem sqlite_agrees_with_memory redact verifier maxEntries l :
  (forall x, redact (redact x) = redact x) -> Forall (fun q => 0 < unix (snd q) /\ op_confirmed verifier (fst q)) l ->
  let m := run_ops mem_op l (newMemoryRegistry maxEntries) in
  let s := run_ops (sql_op redact verifier) l (NewSQLiteRegistry ∅ maxEntries) in
  snd s = map (stored_answer redact) (snd m) /\
  sq_GetNumTracker (fst s) = GetNumTracker (fst m) /\ sq_trigger (fst s) = mr_trigger (fst m) /\
  (forall t, t ∈ sq_GetTrackerActives None (fst s) <-> exists id ref e, mr_bridges (fst m) !! id = Some ref /\ mr_heap (fst m) !! ref = Some e /\
    be_terminalSince e = None /\ t = storedData redact (be_tracking e)) /\
  forall id now, snd (sq_Get redact verifier id false now (NewSQLiteRegistry (sq_rows (fst s)) maxEntries)) =
    snd (sq_Get redact verifier id false now (fst s)).
Proof.
  intros Hidem Hl m s. destruct (agree_run redact Hidem verifier l _ _ Hl (agree_new redact verifier maxEntries)) as [Hag Ha]. fold m s in Hag, Ha.
  split; [done|]. split; [symmetry; apply (ag_num _ _ _ _ Hag)|]. split; [symmetry; apply (ag_trigger _ _ _ _ Hag)|].
  split; [intros t; by apply (agree_actives redact verifier)|]. intros id now. unfold sq_Get, getOrCreate, selectFreshRow, selectRow.
  cbn [NewSQLiteRegistry sq_rows]. destruct (sq_rows (fst s) !! id) as [row|]; cbn [mbind option_bind]; [|done].
  destruct (staleSchema row); cbn [mbind option_bind]; [done|]. by destruct (rowIsStale verifier id row).
Qed.

(** ** Examples *)

Definition mask (s : string) : string := if String.eqb s "" then "" else "[redacted]".

Definition failed_tx : TrackingBridgeTx := mkTrackingBridgeTx (Some (mkErrorStep StepErrorPermanent 0 ["tx is not a bridge transaction"])) None (Some 1) 5.
Definition found_tx : TrackingBridgeTx := mkTrackingBridgeTx None (Some example_bridge) (Some 1) 5.
Definition example_ops : list (storeOp * Z) :=
  [(OpGet example_id true, 2 * nanoseconds); (OpUpdateTx example_id failed_tx, 3 * nanoseconds); (OpGet example_id false, 4 * nanoseconds);
   (OpUpdate example_id found_tx (td_allSteps (be_tracking (example_record example_waiting))), 5 * nanoseconds)].

(** The canonical hash of every block is that of the bridge. *)
Definition example_hashes (networkID number : Z) : result unit Z := Ok (bi_BlockHash example_bridge).

Lemma sqlite_agrees_with_memory_witness :
  snd (run_ops (sql_op mask (Some example_hashes)) example_ops (NewSQLiteRegistry ∅ 10)) =
    map (stored_answer mask) (snd (run_ops mem_op example_ops (newMemoryRegistry 10))).
Proof.
  refine (proj1 (sqlite_agrees_with_memory mask (Some example_hashes) 10 example_ops _ _)).
  - intros x. unfold mask. by destruct (String.eqb x "") eqn:E; rewrite ?E.
  - unfold example_ops. repeat (apply Forall_cons; split; [split; [reflexivity | unfold op_confirmed, tx_confirmed, origin_confirmed; cbn; auto]|]).
    apply List.Forall_nil.
Defined.

(** A bridge revived after it was given up is active in memory, and never again in the database. *)
Example revived_bridge_is_not_polled :
  map TrackingStatusOf (GetTrackerActives None (fst (run_ops mem_op example_ops (newMemoryRegistry 10)))) = [TrackingStatusRunning] /\
  sq_GetTrackerActives None (fst (run_ops (sql_op mask None) example_ops (NewSQLiteRegistry ∅ 10))) = [].
Proof. split; vm_compute; reflexivity. Qed.

(** An L2 bridge whose certificate stays pending. *)
Definition pending_certificate : CertificateInclusionData := mkCertificateInclusionData (mkCertificateData 8 Pending "" "" None None None) None 9.
Definition l2_bridge : BridgeInfo := mkBridgeInfo 1 0 0 7 100 9 2 0 5 6 (Some 1000) 50.
Definition pending_sources : EngineSources := {|
  FindBridge := fun _ => Ok l2_bridge;
  CertificateFor := fun _ => Ok (Some pending_certificate);
  FindFirstL1InfoTreeAfterBlock := fun _ _ => Err example_failure;
  OriginLER := fun _ => Ok (Some (mkLERUpdateResult 1 44 100 50));
  IsClaimed := fun _ => Ok false;
  ClaimFor := fun _ => Ok None;
  SettlementGERUpdate := fun _ _ => Err example_failure;
  L1InfoTreeIndexForGER := fun _ _ => Err example_failure;
  InjectedGERAtIndex := fun _ _ => Ok None;
  L1InfoTreeIndexForBridge := fun _ => Ok None;
  Covers := fun _ _ => Ok false;
  EarliestSettlementTxCovering := fun _ _ _ => (None, None, Some example_failure)
|}.
Definition pending_resolve : TrackingData -> option commit :=
  fun t => resolveBridgeStep example_idString example_cfg pending_sources (fun _ => pending_sources) t 7.
Definition pending_snapshot : TrackingData :=
  match pending_resolve (freshData example_id) with
  | Some (CommitTracking tx steps) => mkTrackingData example_id tx steps
  | _ => freshData example_id
  end.

(** While nothing changes, the snapshot in memory is left alone; the one read from the database carries the printed status of the
    certificate, which no source answers, so that every poll writes it again and wakes every subscriber. *)
Example stored_certificate_is_rewritten :
  pending_resolve pending_snapshot = Some NoCommit /\
  exists tx steps, pending_resolve (storedData mask pending_snapshot) = Some (CommitTracking tx steps) /\
    storedData mask (mkTrackingData example_id tx steps) = storedData mask pending_snapshot.
Proof. split; [vm_compute; reflexivity|]. eexists _, _. split; [vm_compute; reflexivity|]. vm_compute. reflexivity. Qed.
