(* ===== verification/TrackerSources.v ===== *)
(** Two sources of the bridge tracker: the certificate that covers a bridge and the settlement that first covered it
    ([bridgetracker/sources/certificate.go]), and the global exit root a settlement left
    ([bridgetracker/sources/settlement.go]).

    The agglayer, the bridge service and the node of L1 are records of answers.  Errors carry the text of the source without the
    values printed into it. *)

From S2P Require Import Prelude Bytes AgglayerTypes ProverFlow Tracker TrackerResolvers TrackerEngine TrackerProofs TrackerRuns.

(** ** Clients *)

Record AgHeader := mkAgHeader {
  hd_CertificateID : Z;
  hd_Status : CertificateStatus;
  hd_Error : option string;
  hd_SettlementTxHash : option Z;
  hd_PreviousLocalExitRoot : option Z;
  hd_NewLocalExitRoot : Z
}.

Record CertificateHeaderClient := mkCertificateHeaderClient {
  GetCertificateHeader : Z -> result stepError AgHeader;
  GetLatestSettledCertificateHeader : Z -> result stepError (option AgHeader);
  GetLatestPendingCertificateHeader : Z -> result stepError (option AgHeader)
}.

Record SettlementResponse := mkSettlementResponse { sr_TxHash : option Z; sr_NewLocalExitRoot : Z; sr_BlockNumber : Z }.

Inductive clientError := ClientNotFound | ClientFailed (e : stepError).

(** The bridge service of a network; [GetSettlements] by page number and size, with the count of all. *)
Record BridgeServiceClient := mkBridgeServiceClient {
  aggkitBridgeClientFor : Z -> result stepError unit;
  GetRootByLER : Z -> Z -> result stepError Z;
  GetSettlements : Z -> Z -> result clientError (list SettlementResponse * Z)
}.

Record RpcLog := mkRpcLog { el_Topics : list Z; el_Data : list Z; el_TxHash : Z; el_BlockNumber : Z; el_BlockHash : Z; el_Index : Z }.
Record Receipt := mkReceipt { rc_BlockNumber : option Z; rc_BlockHash : Z; rc_Logs : list RpcLog }.

(** The node of L1: [RPCClientFor] and its calls; [FinalityNumber] is the number of the block of the configured finality. *)
Record L1Rpc := mkL1Rpc {
  RPCClientFor : result stepError unit;
  TransactionReceipt : Z -> result clientError Receipt;
  HeaderByHash : Z -> result stepError Z;
  FinalityNumber : result stepError Z;
  rpc_FilterLogs : Z -> Z -> Z -> list (list Z) -> result stepError (list RpcLog)
}.

Definition wrapped {A} (prefix : string) (r : result stepError A) : result stepError A :=
  match r with Ok a => Ok a | Err e => Err (wrapError prefix e) end.

Definition verifyBatchesTrustedAggregatorDataLen : nat := 96.
Definition l1InfoTreeBackwardsSearchChunkSize : Z := 10000.

Definition topicOf `{Keccak} (signature : string) : Z :=
  Keccak256Hash [map (fun c => Z.of_nat (Ascii.nat_of_ascii c)) (String.list_ascii_of_string signature)].

Section Sources.
Context `{Kc : Keccak} (client : CertificateHeaderClient) (svc : BridgeServiceClient) (l1 : L1Rpc).
Context (rollupManagerAddress contractGlobalExitRootAddress : Z).

Definition updateL1InfoTreeSignature : Z := topicOf "UpdateL1InfoTree(bytes32,bytes32)".
Definition updateL1InfoTreeV2Signature : Z := topicOf "UpdateL1InfoTreeV2(bytes32,uint32,uint256,uint64)".
Definition verifyBatchesTrustedAggregatorSignature : Z := topicOf "VerifyBatchesTrustedAggregator(uint32,uint64,bytes32,bytes32,address)".

(** ** The certificate of a bridge *)

Definition rootIndexFor (networkID ler : Z) : result stepError Z :=
  let? _ := aggkitBridgeClientFor svc networkID in wrapped "resolving root index of LER" (GetRootByLER svc networkID ler).

Definition source_Covers (bridge : BridgeInfo) (ler : Z) : result stepError bool :=
  if (ler =? EmptyLER) || (ler =? ZeroHash) then Ok false
  else let? index := rootIndexFor (bi_NetworkID bridge) ler in Ok (bi_DepositCount bridge <=? index).

Definition certificateIDFor (bridge : BridgeInfo) : result stepError (option Z) :=
  let? settled := wrapped "fetching latest settled certificate" (GetLatestSettledCertificateHeader client (bi_NetworkID bridge)) in
  let? covering := match settled with None => Ok false | Some h => source_Covers bridge (hd_NewLocalExitRoot h) end in
  if covering : bool then Ok (hd_CertificateID <$> settled)
  else let? pending := wrapped "fetching latest pending certificate" (GetLatestPendingCertificateHeader client (bi_NetworkID bridge)) in
       Ok (hd_CertificateID <$> pending).

Definition blockTimestamp (blockHash : Z) : result stepError Z := wrapped "fetching header of block" (HeaderByHash l1 blockHash).

Definition settlementBlockInfo (settlementTxHash : Z) : result stepError (option (Z * Z)) :=
  let? _ := wrapped "resolving L1 JSON-RPC client" (RPCClientFor l1) in
  match TransactionReceipt l1 settlementTxHash with
  | Err ClientNotFound => Ok None
  | Err (ClientFailed e) => Err (wrapError "fetching settlement tx receipt" e)
  | Ok receipt =>
      match rc_BlockNumber receipt with
      | None => Ok None
      | Some number => let? timestamp := blockTimestamp (rc_BlockHash receipt) in Ok (Some (number, timestamp))
      end
  end.

Definition certificateHeaderFor (certificateID : Z) : result stepError CertificateInclusionData :=
  let? header := wrapped "fetching certificate header" (GetCertificateHeader client certificateID) in
  let? block := match hd_SettlementTxHash header with
                | Some h => if IsSettled (hd_Status header) then settlementBlockInfo h else Ok None
                | None => Ok None
                end in
  Ok (mkCertificateInclusionData
    (mkCertificateData (hd_CertificateID header) (hd_Status header) "" (default ""%string (hd_Error header)) (hd_SettlementTxHash header) (fst <$> block) (snd <$> block))
    (hd_PreviousLocalExitRoot header) (hd_NewLocalExitRoot header)).

Definition source_CertificateFor (bridge : BridgeInfo) : result stepError (option CertificateInclusionData) :=
  let? certID := certificateIDFor bridge in
  match certID with None => Ok None | Some id => let? data := certificateHeaderFor id in Ok (Some data) end.

(** ** The settlement that first covered a bridge *)

Inductive fetchedSettlement := FetchNotFound | Fetched (entry : option SettlementResponse) (count : Z).

Definition fetchSettlementAt (index : Z) : result stepError fetchedSettlement :=
  match GetSettlements svc (wrap32 index +u32 1) 1 with
  | Err ClientNotFound => Ok FetchNotFound
  | Err (ClientFailed e) => Err (wrapError "fetching settlement history entry" e)
  | Ok (settlements, count) => Ok (Fetched (head settlements) count)
  end.

Definition entryCovers (bridge : BridgeInfo) (entry : SettlementResponse) : result stepError bool := source_Covers bridge (sr_NewLocalExitRoot entry).

(** The binary search; the outer [None] is more rounds than the fuel, [Ok None] a history that shrank. *)
Fixpoint settlementSearch (fuel : nat) (bridge : BridgeInfo) (lo hi : Z) (answer : SettlementResponse) : option (result stepError (option SettlementResponse)) :=
  match fuel with
  | O => None
  | S fuel =>
      if hi <? lo then Some (Ok (Some answer))
      else
        let mid := lo + (hi - lo) / 2 in
        match fetchSettlementAt mid with
        | Err e => Some (Err e)
        | Ok FetchNotFound | Ok (Fetched None _) => Some (Ok None)
        | Ok (Fetched (Some entry) _) =>
            match entryCovers bridge entry with
            | Err e => Some (Err e)
            | Ok true => settlementSearch fuel bridge (mid + 1) hi entry
            | Ok false => settlementSearch fuel bridge lo (mid - 1) answer
            end
        end
  end.

Definition settlementTopics (bridge : BridgeInfo) : list (list Z) := [[verifyBatchesTrustedAggregatorSignature]; [bi_NetworkID bridge]].

(** The exit root and the transaction of a log of a settlement; [None]: its data is too short. *)
Definition settlementLog (l : RpcLog) : option (Z * Z) :=
  if (length (el_Data l) <? verifyBatchesTrustedAggregatorDataLen)%nat then None
  else Some (be_value (drop (length (el_Data l) - HashLength) (el_Data l)), el_TxHash l).

Definition verifyBatchesTxHashAtBlock (bridge : BridgeInfo) (blockNumber expectedLER : Z) : result stepError (option Z) :=
  let? _ := wrapped "resolving L1 JSON-RPC client" (RPCClientFor l1) in
  let? logs := wrapped "fetching VerifyBatchesTrustedAggregator log" (rpc_FilterLogs l1 blockNumber blockNumber rollupManagerAddress (settlementTopics bridge)) in
  Ok (snd <$> find (fun q => fst q =? expectedLER) (omap settlementLog logs)).

(** The transaction, and whether the logs have to be read. *)
Definition earliestSettlementTxCoveringViaBridgeService (bridge : BridgeInfo) : option (result stepError (option Z * bool)) :=
  match aggkitBridgeClientFor svc (bi_NetworkID bridge) with
  | Err e => Some (Err e)
  | Ok _ =>
      match fetchSettlementAt 0 with
      | Err e => Some (Err e)
      | Ok FetchNotFound => Some (Ok (None, true))
      | Ok (Fetched None _) => Some (Ok (None, false))
      | Ok (Fetched (Some newest) count) =>
          match entryCovers bridge newest with
          | Err e => Some (Err e)
          | Ok false => Some (Ok (None, false))
          | Ok true =>
              match settlementSearch (S (Z.to_nat count)) bridge 1 (count - 1) newest with
              | None => None
              | Some (Err e) => Some (Err e)
              | Some (Ok None) => Some (Ok (None, false))
              | Some (Ok (Some answer)) =>
                  Some (match sr_TxHash answer with
                        | Some h => Ok (Some h, false)
                        | None =>
                            let? found := verifyBatchesTxHashAtBlock bridge (sr_BlockNumber answer) (sr_NewLocalExitRoot answer) in
                            Ok (found, is_nil found)
                        end)
              end
          end
      end
  end.

(** A chunk of logs, the most recent first. *)
Inductive walk := WalkFailed (e : stepError) (last : option Z) | WalkFound (last : option Z) | WalkOn (last : option Z).

Fixpoint walkLogs (bridge : BridgeInfo) (logs : list (Z * Z)) (last : option Z) : walk :=
  match logs with
  | [] => WalkOn last
  | (exitRoot, txHash) :: logs =>
      match source_Covers bridge exitRoot with
      | Err e => WalkFailed e last
      | Ok false => WalkFound last
      | Ok true => walkLogs bridge logs (Some txHash)
      end
  end.

Definition chunkStart (toBlock : Z) : Z :=
  if l1InfoTreeBackwardsSearchChunkSize <=? toBlock then toBlock -u64 l1InfoTreeBackwardsSearchChunkSize +u64 1 else 0.

(** [late k]: too little time is left before chunk [k] of the call. *)
Fixpoint settlementScan (late : nat -> bool) (fuel k : nat) (bridge : BridgeInfo) (toBlock : Z) (last : option Z)
  : option (option Z * option SettlementSearchProgress * option stepError) :=
  match fuel with
  | O => None
  | S fuel =>
      if late k then Some (None, Some (mkSettlementSearchProgress toBlock last), None)
      else
        match rpc_FilterLogs l1 (chunkStart toBlock) toBlock rollupManagerAddress (settlementTopics bridge) with
        | Err e => Some (None, Some (mkSettlementSearchProgress toBlock last), Some (wrapError "fetching VerifyBatchesTrustedAggregator logs" e))
        | Ok logs =>
            match walkLogs bridge (rev (omap settlementLog logs)) last with
            | WalkFailed e last => Some (None, Some (mkSettlementSearchProgress toBlock last), Some e)
            | WalkFound last => Some (last, None, None)
            | WalkOn last =>
                if chunkStart toBlock =? 0 then Some (last, None, None)
                else settlementScan late fuel (S k) bridge (chunkStart toBlock -u64 1) last
            end
        end
  end.

Definition earliestSettlementTxCoveringViaLogs (late : nat -> bool) (fuel : nat) (bridge : BridgeInfo) (fromBlock : Z)
    (resume : option SettlementSearchProgress) : option (option Z * option SettlementSearchProgress * option stepError) :=
  match wrapped "resolving L1 JSON-RPC client" (RPCClientFor l1) with
  | Err e => Some (None, None, Some e)
  | Ok _ => settlementScan late fuel 0 bridge (from_option pg_NextToBlock fromBlock resume) (resume ≫= pg_LastCoveringTxHash)
  end.

Definition source_EarliestSettlementTxCovering (late : nat -> bool) (fuel : nat) (bridge : BridgeInfo) (fromBlock : Z)
    (resume : option SettlementSearchProgress) : option (option Z * option SettlementSearchProgress * option stepError) :=
  let viaLogs := earliestSettlementTxCoveringViaLogs late fuel bridge fromBlock resume in
  match resume with
  | Some _ => viaLogs
  | None =>
      match earliestSettlementTxCoveringViaBridgeService bridge with
      | None => None
      | Some (Err e) => Some (None, None, Some e)
      | Some (Ok (txHash, needsLogFallback)) => if needsLogFallback : bool then viaLogs else Some (txHash, None, None)
      end
  end.

(** ** The global exit root of a settlement *)

Definition ErrBadSettlementTx : stepError := mkStepError "settlement tx receipt does not carry required events" false true.

Definition exitRoots (l : RpcLog) : option Z :=
  match el_Topics l with
  | _ :: mainnetExitRoot :: rollupExitRoot :: _ => Some (Keccak256Hash [Hash_Bytes mainnetExitRoot; Hash_Bytes rollupExitRoot])
  | _ => None
  end.

Record updateL1InfoTreeEvent := mkUpdateL1InfoTreeEvent { ue_GER : Z; ue_BlockNumber : Z; ue_BlockTimestamp : Z; ue_LogIndex : Z }.

(** The outer [None] is more chunks than the fuel. *)
Fixpoint findEventUpdateL1InfoTreeBackwards (fuel : nat) (fromBlock settlementLogIndex toBlock : Z) : option (result stepError updateL1InfoTreeEvent) :=
  match fuel with
  | O => None
  | S fuel =>
      match rpc_FilterLogs l1 (chunkStart toBlock) toBlock contractGlobalExitRootAddress [[updateL1InfoTreeSignature]] with
      | Err e => Some (Err (wrapError "fetching UpdateL1InfoTree logs" e))
      | Ok logs =>
          match last (bfilter (fun l => negb ((el_BlockNumber l =? fromBlock) && (settlementLogIndex <=? el_Index l))) logs) with
          | Some l =>
              Some (match exitRoots l with
                    | None => Err (wrapError "UpdateL1InfoTree log missing its exit root topics" ErrBadSettlementTx)
                    | Some ger => let? timestamp := blockTimestamp (el_BlockHash l) in Ok (mkUpdateL1InfoTreeEvent ger (el_BlockNumber l) timestamp (el_Index l))
                    end)
          | None =>
              if chunkStart toBlock =? 0 then Some (Err (wrapError "no UpdateL1InfoTree event found" ErrBadSettlementTx))
              else findEventUpdateL1InfoTreeBackwards fuel fromBlock settlementLogIndex (chunkStart toBlock -u64 1)
          end
      end
  end.

Definition withVerify (l : RpcLog) (s : L1SettledGERResult) : L1SettledGERResult :=
  mkL1SettledGERResult (lg_TxHash s) (lg_SettlementBlockNumber s) (lg_SettlementBlockTimestamp s) (el_Index l) (lg_GER s)
    (lg_GERBlockNumber s) (lg_GERBlockTimestamp s) (lg_GERLogIndex s) (lg_L1InfoTreeIndex s) true
    (lg_HasUpdateL1InfoTree s) (lg_HasUpdateL1InfoTreeV2 s) (lg_UsedEarlierSettlement s).

Definition withGER (e : updateL1InfoTreeEvent) (own : bool) (s : L1SettledGERResult) : L1SettledGERResult :=
  mkL1SettledGERResult (lg_TxHash s) (lg_SettlementBlockNumber s) (lg_SettlementBlockTimestamp s) (lg_SettlementLogIndex s) (ue_GER e)
    (ue_BlockNumber e) (ue_BlockTimestamp e) (ue_LogIndex e) (lg_L1InfoTreeIndex s) (lg_HasVerifyBatchesTrustedAggregator s)
    own (lg_HasUpdateL1InfoTreeV2 s) (lg_UsedEarlierSettlement s).

(** [Topics[1].Big().Uint64()] keeps the low 64 bits. *)
Definition withV2 (l : RpcLog) (s : L1SettledGERResult) : L1SettledGERResult :=
  let index := match el_Topics l with
               | _ :: leafCount :: _ => let leafCount := wrap64 leafCount in if 0 <? leafCount then Some (wrap32 (leafCount -u64 1)) else lg_L1InfoTreeIndex s
               | _ => lg_L1InfoTreeIndex s
               end in
  mkL1SettledGERResult (lg_TxHash s) (lg_SettlementBlockNumber s) (lg_SettlementBlockTimestamp s) (lg_SettlementLogIndex s) (lg_GER s)
    (lg_GERBlockNumber s) (lg_GERBlockTimestamp s) (lg_GERLogIndex s) index (lg_HasVerifyBatchesTrustedAggregator s)
    (lg_HasUpdateL1InfoTree s) true (lg_UsedEarlierSettlement s).

Definition settlementLogOf (blockNumber timestamp : Z) (s : L1SettledGERResult) (l : RpcLog) : L1SettledGERResult :=
  match el_Topics l with
  | [] => s
  | topic :: _ =>
      if topic =? verifyBatchesTrustedAggregatorSignature then withVerify l s
      else if topic =? updateL1InfoTreeSignature then
        match exitRoots l with None => s | Some ger => withGER (mkUpdateL1InfoTreeEvent ger blockNumber timestamp (el_Index l)) true s end
      else if topic =? updateL1InfoTreeV2Signature then withV2 l s
      else s
  end.

Definition source_SettlementGERUpdate (fuel : nat) (settlementTxHash : Z) : option (result stepError (option L1SettledGERResult)) :=
  match wrapped "resolving L1 JSON-RPC client" (RPCClientFor l1) with
  | Err e => Some (Err e)
  | Ok _ =>
      match TransactionReceipt l1 settlementTxHash with
      | Err ClientNotFound => Some (Ok None)
      | Err (ClientFailed e) => Some (Err (wrapError "fetching settlement tx receipt" e))
      | Ok receipt =>
          match wrapped "fetching header for network 0" (FinalityNumber l1) with
          | Err e => Some (Err e)
          | Ok finalized =>
              match rc_BlockNumber receipt with
              | None => Some (Ok None)
              | Some number =>
                  if finalized <? number then Some (Ok None)
                  else
                    match blockTimestamp (rc_BlockHash receipt) with
                    | Err e => Some (Err e)
                    | Ok timestamp =>
                        let result := fold_left (settlementLogOf number timestamp) (rc_Logs receipt)
                          (mkL1SettledGERResult settlementTxHash number timestamp 0 0 0 0 0 None false false false false) in
                        if negb (lg_HasVerifyBatchesTrustedAggregator result) then
                          Some (Err (wrapError "settlement tx receipt does not carry VerifyBatchesTrustedAggregator" ErrBadSettlementTx))
                        else if lg_HasUpdateL1InfoTree result then Some (Ok (Some result))
                        else
                          match findEventUpdateL1InfoTreeBackwards fuel number (lg_SettlementLogIndex result) number with
                          | None => None
                          | Some (Err e) => Some (Err e)
                          | Some (Ok event) => Some (Ok (Some (withGER event false result)))
                          end
                    end
              end
          end
      end
  end.

End Sources.

(** ** The search *)

(** A settlement of a network on L1. *)
Record settlement := mkSettlement { ht_Block : Z; ht_Tx : Z; ht_LER : Z }.

Definition logged (e : settlement) : Z * Z := (ht_LER e, ht_Tx e).
Definition between (from to : Z) (h : list settlement) : list settlement := bfilter (fun e => (from <=? ht_Block e) && (ht_Block e <=? to)) h.

Section Search.
Context `{Kc : Keccak} (rollupManagerAddress : Z) (bridge : BridgeInfo).
(** The settlements of the network in their order, of which [x] is the first that covers the bridge. *)
Context (pre : list settlement) (x : settlement) (post : list settlement).
Let history : list settlement := pre ++ x :: post.
Context (Hsorted : StronglySorted (fun a b => ht_Block a <= ht_Block b) history) (Hpos : forall e, e ∈ history -> 0 <= ht_Block e).

(** A bridge service that knows which roots cover the bridge, when it answers. *)
Definition knows_roots (svc : BridgeServiceClient) : Prop :=
  (forall e, e ∈ pre -> source_Covers svc bridge (ht_LER e) <> Ok true) /\ (forall e, e ∈ x :: post -> source_Covers svc bridge (ht_LER e) <> Ok false).

(** A node that answers with the logs of the settlements, when it answers; other logs have too little data. *)
Definition serves_logs (l1 : L1Rpc) : Prop := forall from to logs,
  rpc_FilterLogs l1 from to rollupManagerAddress (settlementTopics bridge) = Ok logs -> omap settlementLog logs = map logged (between from to history).

Lemma walk_app svc l1 l2 last : walkLogs svc bridge (l1 ++ l2) last =
  match walkLogs svc bridge l1 last with WalkOn last => walkLogs svc bridge l2 last | r => r end.
Proof.
  revert last. induction l1 as [|[r t] l1 IH]; intros last; [done|]. cbn [app walkLogs]. destruct (source_Covers svc bridge r) as [[]|]; [apply IH | done | done].
Qed.

(** Settlements that cover the bridge are passed, up to a failure. *)
Lemma walk_covering svc l last : (forall e, e ∈ l -> source_Covers svc bridge (ht_LER e) <> Ok false) ->
  (exists e last', walkLogs svc bridge (rev (map logged l)) last = WalkFailed e last' /\ exists y, y ∈ l /\ source_Covers svc bridge (ht_LER y) = Err e) \/
  walkLogs svc bridge (rev (map logged l)) last = WalkOn (match l with [] => last | e :: _ => Some (ht_Tx e) end).
Proof.
  induction l as [|e l IH]; intros Hl; [by right|]. cbn [map rev]. rewrite walk_app.
  destruct IH as [(er & last' & -> & y & Hy & Hc)| -> ]; [intros e' He'; apply Hl; by right | left; exists er, last'; split; [done|]; exists y; split; [by right | done] |].
  cbn [logged walkLogs]. destruct (source_Covers svc bridge (ht_LER e)) as [[]|er] eqn:E; [by right | |].
  - by destruct (Hl e (list_elem_of_here _ _)).
  - left. eexists er, _. split; [done|]. exists e. split; [by left | done].
Qed.

(** The walk ends at the first that does not. *)
Lemma walk_before svc l last : (forall e, e ∈ l -> source_Covers svc bridge (ht_LER e) <> Ok true) ->
  (l = [] /\ walkLogs svc bridge (rev (map logged l)) last = WalkOn last) \/ walkLogs svc bridge (rev (map logged l)) last = WalkFound last \/
  exists e, walkLogs svc bridge (rev (map logged l)) last = WalkFailed e last /\ exists y, y ∈ l /\ source_Covers svc bridge (ht_LER y) = Err e.
Proof.
  destruct l as [|e l _] using rev_ind; intros Hl; [by left|]. right. rewrite map_app, rev_app_distr. cbn [map rev app logged walkLogs].
  destruct (source_Covers svc bridge (ht_LER e)) as [[]|er] eqn:E; [|by left|].
  - destruct (Hl e); [|done]. apply elem_of_app. right. by left.
  - right. exists er. split; [done|]. exists e. split; [apply elem_of_app; right; by left | done].
Qed.

Lemma settled_between_app from to a b : between from to (a ++ b) = between from to a ++ between from to b.
Proof. apply bfilter_app. Qed.

Lemma between_In from to h e : e ∈ between from to h <-> e ∈ h /\ from <= ht_Block e <= to.
Proof. unfold between. rewrite list_elem_of_In, bfilter_In, <- list_elem_of_In, andb_true_iff, !Z.leb_le. done. Qed.

Lemma blocks_before e : e ∈ pre -> ht_Block e <= ht_Block x.
Proof.
  clear Hpos. revert Hsorted. unfold history. induction pre as [|a l IH]; intros Hs He; [by apply not_elem_of_nil in He|].
  apply StronglySorted_inv in Hs as [Hs Ha]. apply elem_of_cons in He as [ -> |He]; [|by apply IH].
  rewrite Forall_forall in Ha. apply Ha. apply elem_of_app. right. by left.
Qed.

Lemma blocks_after e : e ∈ post -> ht_Block x <= ht_Block e.
Proof.
  clear Hpos. revert Hsorted. unfold history. induction pre as [|a l IH]; intros Hs He.
  - apply StronglySorted_inv in Hs as [_ Ha]. rewrite Forall_forall in Ha. by apply Ha.
  - apply StronglySorted_inv in Hs as [Hs _]. by apply IH.
Qed.

Lemma settled_between_empty from to h : (forall e, e ∈ h -> ht_Block e < from \/ to < ht_Block e) -> between from to h = [].
Proof.
  intros H. destruct (between from to h) as [|e l] eqn:E; [done|]. assert (e ∈ between from to h) as He by (rewrite E; by left).
  apply between_In in He as [He Hb]. specialize (H e He). lia.
Qed.

(** Where a search stands: the settlement is still ahead, or was passed last. *)
Definition searching (toBlock : Z) (last : option Z) : Prop :=
  ht_Block x <= toBlock \/ (toBlock < ht_Block x /\ last = Some (ht_Tx x)).

(** A chunk of the scan. *)
Lemma walk_chunk svc from to last :
  knows_roots svc -> 0 <= from <= to + 1 -> searching to last ->
  match walkLogs svc bridge (rev (map logged (between from to history))) last with
  | WalkFailed e last' => searching to last' /\ exists y, y ∈ history /\ source_Covers svc bridge (ht_LER y) = Err e
  | WalkFound last' => last' = Some (ht_Tx x)
  | WalkOn last' => if from =? 0 then last' = Some (ht_Tx x) else searching (from - 1) last'
  end.
Proof.
  intros [Hpre Hpost] Hfrom Hs. unfold history at 1. rewrite settled_between_app, map_app, rev_app_distr, walk_app.
  destruct Hs as [Hle|[Hlt ->]].
  - destruct (walk_covering svc (between from to (x :: post)) last) as [(er & last' & -> & y & Hy & Hc)| -> ].
    { intros e He. apply between_In in He as [He _]. by apply Hpost. }
    { split; [by left|]. exists y. apply between_In in Hy as [Hy _]. split; [apply elem_of_app; by right | done]. }
    destruct (Z.leb_spec from (ht_Block x)) as [Hx|Hx].
    + assert (between from to (x :: post) = x :: between from to post) as ->.
      { unfold between. cbn [bfilter]. by rewrite (proj2 (Z.leb_le _ _) Hx), (proj2 (Z.leb_le _ _) Hle). }
      destruct (walk_before svc (between from to pre) (Some (ht_Tx x))) as [[_ ->]|[ -> |(er & -> & y & Hy & Hc)]]; [| |done|].
      * intros e He. apply between_In in He as [He _]. by apply Hpre.
      * destruct (Z.eqb_spec from 0); [done|]. right. split; [lia | done].
      * split; [by left|]. exists y. apply between_In in Hy as [Hy _]. split; [apply elem_of_app; by left | done].
    + rewrite (settled_between_empty from to pre) by (intros e He; left; apply blocks_before in He; lia). cbn [map rev walkLogs].
      destruct (Z.eqb_spec from 0) as [->|]; [|left; lia]. assert (0 <= ht_Block x); [|lia]. apply Hpos, elem_of_app. right. by left.
  - rewrite (settled_between_empty from to (x :: post)).
    2: { intros e He. right. apply elem_of_cons in He as [ -> |He]; [done|]. apply blocks_after in He. lia. }
    cbn [map rev walkLogs].
    destruct (walk_before svc (between from to pre) (Some (ht_Tx x))) as [[_ ->]|[ -> |(er & -> & y & Hy & Hc)]].
    { intros e He. apply between_In in He as [He _]. by apply Hpre. }
    + destruct (Z.eqb_spec from 0); [done|]. right. split; [lia | done].
    + done.
    + split; [by right|]. exists y. apply between_In in Hy as [Hy _]. split; [apply elem_of_app; by left | done].
Qed.

Lemma chunkStart_spec to : 0 <= to < pow2_64 -> chunkStart to = Z.max 0 (to - 9999).
Proof.
  intros Hto. unfold chunkStart, l1InfoTreeBackwardsSearchChunkSize. destruct (Z.leb_spec 10000 to); [|lia].
  rewrite sub64_small, add64_small; unfold is_u64; lia.
Qed.

(** Nothing fails and there is time. *)
Definition steady (svc : BridgeServiceClient) (l1 : L1Rpc) (late : nat -> bool) : Prop :=
  (forall k, late k = false) /\ (forall from to, 0 <= from -> exists logs, rpc_FilterLogs l1 from to rollupManagerAddress (settlementTopics bridge) = Ok logs) /\
  (forall e, e ∈ history -> exists b, source_Covers svc bridge (ht_LER e) = Ok b).

Lemma scan_spec svc l1 late fuel k to last :
  knows_roots svc -> serves_logs l1 -> 0 <= to < pow2_64 -> (Z.to_nat to < fuel)%nat -> searching to last ->
  match settlementScan svc l1 rollupManagerAddress late fuel k bridge to last with
  | Some (tx, None, None) => tx = Some (ht_Tx x)
  | Some (_, Some p, _) => 0 <= pg_NextToBlock p <= to /\ searching (pg_NextToBlock p) (pg_LastCoveringTxHash p) /\ ~ steady svc l1 late
  | Some (_, None, Some _) | None => False
  end.
Proof.
  intros Hsvc Hl1. revert k to last. induction fuel as [|fuel IH]; intros k to last Hto Hfuel Hs; [lia|]. cbn [settlementScan].
  destruct (late k) eqn:El. { cbn. split; [lia|]. split; [done|]. intros (H & _). by rewrite H in El. }
  destruct (rpc_FilterLogs _ _ _ _ _) as [logs|er] eqn:Ef.
  2: { cbn. split; [lia|]. split; [done|]. intros (_ & H & _). destruct (H (chunkStart to) to) as [logs H']; [rewrite chunkStart_spec; lia | congruence]. }
  rewrite (Hl1 _ _ _ Ef). pose proof (chunkStart_spec to Hto) as Hc.
  pose proof (walk_chunk svc (chunkStart to) to last Hsvc ltac:(lia) Hs) as Hw. destruct (walkLogs _ _ _ _) as [er last'|last'|last'].
  - destruct Hw as (Hw & y & Hy & Hcov). cbn. split; [lia|]. split; [done|]. intros (_ & _ & H). destruct (H y Hy) as [b Hb]. congruence.
  - done.
  - destruct (Z.eqb_spec (chunkStart to) 0) as [E|E]; [done|].
    assert (chunkStart to -u64 1 = chunkStart to - 1) as ->. { apply sub64_small. unfold is_u64, pow2_64 in *. lia. }
    assert (0 <= chunkStart to - 1 < to) as Hlt by lia.
    specialize (IH (S k) (chunkStart to - 1) last' ltac:(unfold pow2_64 in *; lia) ltac:(lia) Hw).
    destruct (settlementScan _ _ _ _ _ _ _ _ _) as [[[tx [p|]] [e|]]|]; try done; destruct IH as (H1 & H2 & H3); (split; [lia | done]).
Qed.

(** ** Calls that resume each other *)

Record searchCall := mkSearchCall { sc_svc : BridgeServiceClient; sc_l1 : L1Rpc; sc_late : nat -> bool }.

Definition honest_call (c : searchCall) : Prop := knows_roots (sc_svc c) /\ serves_logs (sc_l1 c) /\ RPCClientFor (sc_l1 c) = Ok tt.

(** Each call is given what the one before it left; [None]: the last one left something too. *)
Fixpoint resumed (calls : list searchCall) (fromBlock : Z) (resume : option SettlementSearchProgress) : option (option Z * option stepError) :=
  match calls with
  | [] => None
  | c :: calls =>
      match earliestSettlementTxCoveringViaLogs (sc_svc c) (sc_l1 c) rollupManagerAddress (sc_late c) (S (Z.to_nat fromBlock)) bridge fromBlock resume with
      | None => None
      | Some (_, Some p, _) => resumed calls fromBlock (Some p)
      | Some (tx, None, e) => Some (tx, e)
      end
  end.

Lemma resumed_finds calls final fromBlock resume :
  Forall honest_call calls -> honest_call final -> steady (sc_svc final) (sc_l1 final) (sc_late final) -> 0 <= fromBlock < pow2_64 ->
  0 <= from_option pg_NextToBlock fromBlock resume <= fromBlock ->
  searching (from_option pg_NextToBlock fromBlock resume) (resume ≫= pg_LastCoveringTxHash) ->
  resumed (calls ++ [final]) fromBlock resume = Some (Some (ht_Tx x), None).
Proof.
  intros Hcalls (Hf1 & Hf2 & Hf3) Hst Hfrom. revert resume. induction Hcalls as [|c calls (Hc1 & Hc2 & Hc3) Hcalls IH]; intros resume Hr Hs;
    cbn [app resumed]; unfold earliestSettlementTxCoveringViaLogs.
  - rewrite Hf3. cbn [wrapped].
    pose proof (scan_spec (sc_svc final) (sc_l1 final) (sc_late final) (S (Z.to_nat fromBlock)) 0 (from_option pg_NextToBlock fromBlock resume) _ Hf1 Hf2 ltac:(lia) ltac:(lia) Hs) as H.
    destruct (settlementScan _ _ _ _ _ _ _ _ _) as [[[tx [p|]] [e|]]|]; try done; [by destruct H as (_ & _ & []) | by destruct H as (_ & _ & []) | by subst].
  - rewrite Hc3. cbn [wrapped].
    pose proof (scan_spec (sc_svc c) (sc_l1 c) (sc_late c) (S (Z.to_nat fromBlock)) 0 (from_option pg_NextToBlock fromBlock resume) _ Hc1 Hc2 ltac:(lia) ltac:(lia) Hs) as H.
    destruct (settlementScan _ _ _ _ _ _ _ _ _) as [[[tx [p|]] [e|]]|]; try done; [| |by subst];
      (apply IH; [cbn; lia | cbn; tauto]).
Qed.

(** ** The bridge service *)

(** [recorded]: whether the service knows the transaction of a settlement. *)
Context (recorded : settlement -> bool).

Definition response (e : settlement) : SettlementResponse := mkSettlementResponse (if recorded e then Some (ht_Tx e) else None) (ht_LER e) (ht_Block e).

(** The service lists the settlements, the newest first, and knows which roots cover the bridge. *)
Record serves_history (svc : BridgeServiceClient) : Prop := {
  sv_client : aggkitBridgeClientFor svc (bi_NetworkID bridge) = Ok tt;
  sv_page : forall i e, rev history !! i = Some e -> GetSettlements svc (Z.of_nat i + 1) 1 = Ok ([response e], Z.of_nat (length history));
  sv_before : forall e, e ∈ pre -> source_Covers svc bridge (ht_LER e) = Ok false;
  sv_after : forall e, e ∈ x :: post -> source_Covers svc bridge (ht_LER e) = Ok true
}.

Context (Hshort : Z.of_nat (length history) < pow2_32).

Lemma fetch_served svc i e : serves_history svc -> rev history !! i = Some e ->
  fetchSettlementAt svc (Z.of_nat i) = Ok (Fetched (Some (response e)) (Z.of_nat (length history))).
Proof.
  intros Hsvc Hi. assert (i < length history)%nat as Hlt by (apply lookup_lt_Some in Hi; by rewrite length_rev in Hi).
  unfold fetchSettlementAt. rewrite wrap32_small by (unfold is_u32; lia).
  assert (Z.of_nat i +u32 1 = Z.of_nat i + 1) as ->. { unfold add32. apply wrap32_small. unfold is_u32. lia. }
  by rewrite (sv_page _ Hsvc i e Hi).
Qed.

(** Newest first, the settlements that cover the bridge come before the others, and [x] is the last of them. *)
Lemma newest_first i e : rev history !! i = Some e ->
  ((i < length post)%nat /\ e ∈ post) \/ (i = length post /\ e = x) \/ ((length post < i)%nat /\ e ∈ pre).
Proof.
  unfold history. rewrite rev_app_distr. cbn [rev]. rewrite <- app_assoc. cbn [app]. intros H.
  apply lookup_app_Some in H as [H|[Hle H]].
  - left. split; [apply lookup_lt_Some in H; by rewrite length_rev in H|]. apply list_elem_of_In, in_rev, list_elem_of_In, list_elem_of_lookup. by exists i.
  - rewrite length_rev in *. destruct (i - length post)%nat as [|j] eqn:E; [injection H as ->; right; left; split; [lia | done]|].
    right. right. split; [lia|]. apply list_elem_of_In, in_rev, list_elem_of_In, list_elem_of_lookup. by exists j.
Qed.

Lemma newest_x : rev history !! length post = Some x.
Proof.
  unfold history. rewrite rev_app_distr. cbn [rev]. rewrite <- app_assoc. cbn [app]. rewrite lookup_app_r by (by rewrite length_rev).
  by rewrite length_rev, Nat.sub_diag.
Qed.

Lemma newest_length : length (rev history) = (length post + S (length pre))%nat.
Proof. unfold history. rewrite length_rev, length_app. cbn. lia. Qed.

Lemma search_finds svc fuel lo hi answer : serves_history svc ->
  1 <= lo -> Z.of_nat (length post) <= hi < Z.of_nat (length history) -> lo <= Z.of_nat (length post) + 1 -> hi - lo + 1 < Z.of_nat fuel ->
  (exists e, rev history !! Z.to_nat (lo - 1) = Some e /\ answer = response e) ->
  settlementSearch svc fuel bridge lo hi answer = Some (Ok (Some (response x))).
Proof.
  intros Hsvc. revert lo hi answer. induction fuel as [|fuel IH]; intros lo hi answer Hlo Hhi Hx Hfuel Hans; [lia|]. cbn [settlementSearch].
  destruct (Z.ltb_spec hi lo) as [Hend|Hgo].
  - destruct Hans as (e & He & ->). assert (Z.to_nat (lo - 1) = length post) as E by lia. rewrite E, newest_x in He. injection He as Ex. by rewrite Ex.
  - set (mid := lo + (hi - lo) / 2). assert (lo <= mid <= hi) as Hmid by (unfold mid; pose proof (Z.div_mod (hi - lo) 2); pose proof (Z.mod_pos_bound (hi - lo) 2); lia).
    destruct (rev history !! Z.to_nat mid) as [e|] eqn:He. 2: { apply lookup_ge_None in He. rewrite length_rev in He. lia. }
    replace mid with (Z.of_nat (Z.to_nat mid)) at 1 by lia. rewrite (fetch_served svc _ e Hsvc He). unfold entryCovers. cbn [sr_NewLocalExitRoot response].
    destruct (newest_first _ e He) as [[Hi Hpost]|[[Hi ->]|[Hi Hpre]]].
    + rewrite (sv_after _ Hsvc e) by (by right). apply IH; try lia. exists e. split; [|done]. rewrite <- He. f_equal. lia.
    + rewrite (sv_after _ Hsvc x) by (by left). apply IH; try lia. exists x. split; [|done]. rewrite <- He. f_equal. lia.
    + rewrite (sv_before _ Hsvc e Hpre). apply IH; try lia. done.
Qed.

(** The log of [x] in its block is the first with its root. *)
Lemma log_at_block svc l1 : serves_history svc -> serves_logs l1 -> RPCClientFor l1 = Ok tt ->
  (exists logs, rpc_FilterLogs l1 (ht_Block x) (ht_Block x) rollupManagerAddress (settlementTopics bridge) = Ok logs) ->
  verifyBatchesTxHashAtBlock l1 rollupManagerAddress bridge (ht_Block x) (ht_LER x) = Ok (Some (ht_Tx x)).
Proof.
  intros Hsvc Hl1 Hrpc [logs Hlogs]. unfold verifyBatchesTxHashAtBlock. rewrite Hrpc. cbn [wrapped rbind]. rewrite Hlogs. cbn [wrapped rbind].
  rewrite (Hl1 _ _ _ Hlogs). unfold history. rewrite settled_between_app, map_app. do 2 f_equal.
  assert (forall l, (forall e, e ∈ l -> e ∈ pre) -> find (fun q => fst q =? ht_LER x) (map logged l ++ map logged (between (ht_Block x) (ht_Block x) (x :: post))) = Some (logged x)) as H.
  { intros l. induction l as [|e l IH]; intros Hl.
    - unfold between. cbn [bfilter]. rewrite Z.leb_refl. cbn. by rewrite Z.eqb_refl.
    - cbn [map app find logged fst]. destruct (Z.eqb_spec (ht_LER e) (ht_LER x)) as [E|]; [|apply IH; intros e' He'; apply Hl; by right].
      pose proof (sv_before _ Hsvc e (Hl e ltac:(by left))) as H1. pose proof (sv_after _ Hsvc x ltac:(by left)) as H2. congruence. }
  rewrite H; [done|]. intros e He. by apply between_In in He as [He _].
Qed.

Lemma service_finds svc l1 : serves_history svc -> serves_logs l1 -> RPCClientFor l1 = Ok tt ->
  (exists logs, rpc_FilterLogs l1 (ht_Block x) (ht_Block x) rollupManagerAddress (settlementTopics bridge) = Ok logs) ->
  earliestSettlementTxCoveringViaBridgeService svc l1 rollupManagerAddress bridge = Some (Ok (Some (ht_Tx x), false)).
Proof.
  intros Hsvc Hl1 Hrpc Hlogs. unfold earliestSettlementTxCoveringViaBridgeService. rewrite (sv_client _ Hsvc).
  destruct (rev history !! 0%nat) as [newest|] eqn:E0. 2: { apply lookup_ge_None in E0. rewrite newest_length in E0. lia. }
  change 0 with (Z.of_nat 0) at 1. rewrite (fetch_served svc 0 newest Hsvc E0). unfold entryCovers. cbn [sr_NewLocalExitRoot response].
  assert (newest ∈ x :: post) as Hnew by (destruct (newest_first 0 newest E0) as [[_ H]|[[_ ->]|[H _]]]; [by right | by left | lia]).
  pose proof newest_length as Hlen. rewrite length_rev in Hlen.
  rewrite (sv_after _ Hsvc newest Hnew), (search_finds svc); try done; try lia; [|exists newest; split; [exact E0 | done]].
  unfold response. cbn [sr_TxHash sr_BlockNumber sr_NewLocalExitRoot]. destruct (recorded x); [done|]. by rewrite (log_at_block svc l1).
Qed.

(** C15. The settlement the tracker waits for is the first that covers the bridge, on both routes: the binary search over the
    settlements the bridge service lists, with or without recorded transactions, and the scan of the logs of L1 backwards from a
    block at or after it, over any number of calls that run out of time or fail on the way, each resuming where the one before
    it stopped, once a call is undisturbed. *)
Theorem settlement_search_finds_earliest svc l1 calls final fromBlock :
  serves_history svc -> serves_logs l1 -> RPCClientFor l1 = Ok tt ->
  (exists logs, rpc_FilterLogs l1 (ht_Block x) (ht_Block x) rollupManagerAddress (settlementTopics bridge) = Ok logs) ->
  Forall honest_call calls -> honest_call final -> steady (sc_svc final) (sc_l1 final) (sc_late final) ->
  ht_Block x <= fromBlock < pow2_64 ->
  source_EarliestSettlementTxCovering svc l1 rollupManagerAddress (fun _ => false) 0 bridge fromBlock None = Some (Some (ht_Tx x), None, None) /\
  resumed (calls ++ [final]) fromBlock None = Some (Some (ht_Tx x), None).
Proof.
  intros Hsvc Hl1 Hrpc Hlogs Hcalls Hfinal Hst Hfrom. assert (0 <= ht_Block x) as Hx by (apply Hpos, elem_of_app; right; by left). split.
  - unfold source_EarliestSettlementTxCovering. by rewrite (service_finds svc l1).
  - apply resumed_finds; try done; [lia | cbn; lia | by left; cbn; lia].
Qed.

End Search.

(** ** Examples *)

#[local] Existing Instance toy_keccak.

Definition example_l2_bridge : BridgeInfo := mkBridgeInfo 1 0 0 7 100 9 2 0 5 6 (Some 1000) 50.
Definition settled_before : settlement := mkSettlement 100 71 11.
Definition settled_first : settlement := mkSettlement 15000 72 12.
Definition settled_after : settlement := mkSettlement 31000 73 13.
Definition settled_all : list settlement := [settled_before; settled_first; settled_after].

(** The service did not record the transactions. *)
Definition example_svc : BridgeServiceClient := {|
  aggkitBridgeClientFor := fun _ => Ok tt;
  GetRootByLER := fun _ ler => Ok (if ler =? 11 then 3 else if ler =? 12 then 8 else 20);
  GetSettlements := fun page _ => Ok (match rev settled_all !! Z.to_nat (page - 1) with Some e => [response (fun _ => false) e] | None => [] end, 3)
|}.

Definition example_log (e : settlement) : RpcLog := mkRpcLog [] (repeat 0 64 ++ Hash_Bytes (ht_LER e)) (ht_Tx e) (ht_Block e) 0 0.

(** A node that answers for blocks from [lowest] on. *)
Definition example_node (lowest : Z) : L1Rpc := {|
  RPCClientFor := Ok tt;
  TransactionReceipt := fun tx => Ok (mkReceipt (Some 15000) 5 []);
  HeaderByHash := fun _ => Ok 77;
  FinalityNumber := Ok 20000;
  rpc_FilterLogs := fun from to _ _ => if lowest <=? from then Ok (map example_log (between from to settled_all)) else Err example_failure
|}.

Lemma example_serves_logs lowest : serves_logs 99 example_l2_bridge [settled_before] settled_first [settled_after] (example_node lowest).
Proof.
  intros from to logs. cbn [rpc_FilterLogs example_node]. destruct (lowest <=? from); [|done]. intros [= <-]. unfold between, settled_all. cbn [bfilter app].
  destruct ((from <=? ht_Block settled_before) && _), ((from <=? ht_Block settled_first) && _), ((from <=? ht_Block settled_after) && _); vm_compute; reflexivity.
Qed.

Lemma example_serves_history : serves_history example_l2_bridge [settled_before] settled_first [settled_after] (fun _ => false) example_svc.
Proof.
  split.
  - done.
  - intros i e. destruct i as [|[|[|i]]]; cbn; intros H; try done; injection H as <-; done.
  - intros e He. apply list_elem_of_singleton in He as ->. done.
  - intros e He. apply elem_of_cons in He as [ -> |He]; [done|]. apply list_elem_of_singleton in He as ->. done.
Qed.

Definition example_calls : list searchCall :=
  [mkSearchCall example_svc (example_node 0) (fun k => (1 <=? k)%nat); mkSearchCall example_svc (example_node 20000) (fun _ => false)].
Definition example_final : searchCall := mkSearchCall example_svc (example_node 0) (fun _ => false).

Lemma example_honest late lowest : honest_call 99 example_l2_bridge [settled_before] settled_first [settled_after]
  (mkSearchCall example_svc (example_node lowest) late).
Proof.
  split; [|split; [apply example_serves_logs | done]]. cbn [sc_svc]. split; intros e He.
  - by rewrite (sv_before _ _ _ _ _ _ example_serves_history e He).
  - by rewrite (sv_after _ _ _ _ _ _ example_serves_history e He).
Qed.

Lemma settlement_search_finds_earliest_witness :
  source_EarliestSettlementTxCovering example_svc (example_node 0) 99 (fun _ => false) 0 example_l2_bridge 40000 None = Some (Some 72, None, None) /\
  resumed 99 example_l2_bridge (example_calls ++ [example_final]) 40000 None = Some (Some 72, None).
Proof.
  refine (settlement_search_finds_earliest 99 example_l2_bridge [settled_before] settled_first [settled_after] _ _ (fun _ => false) _
    example_svc (example_node 0) example_calls example_final 40000 example_serves_history (example_serves_logs 0) eq_refl _ _ (example_honest _ _) _ _).
  - repeat constructor; cbn; lia.
  - intros e He. apply list_elem_of_In in He. cbn in He. destruct He as [<-|[<-|[<-|[]]]]; cbn; lia.
  - reflexivity.
  - eexists. reflexivity.
  - repeat constructor; apply example_honest.
  - split; [done|]. split; [intros from to Hfrom; cbn|].
    + eexists. by rewrite (proj2 (Z.leb_le _ _) Hfrom).
    + intros e He. apply list_elem_of_In in He. cbn in He. destruct He as [<-|[<-|[<-|[]]]]; eexists; reflexivity.
  - cbn. unfold pow2_64. lia.
Defined.

(** The two interrupted calls leave the search at blocks 30000 and 20000. *)
Example interrupted_calls :
  (let '(r, p, e) := default (None, None, None) (earliestSettlementTxCoveringViaLogs example_svc (example_node 0) 99 (fun k => (1 <=? k)%nat) 9 example_l2_bridge 40000 None) in
   (r, p, e)) = (None, Some (mkSettlementSearchProgress 30000 (Some 73)), None).
Proof. vm_compute. reflexivity. Qed.

(** A pending certificate that does not cover the bridge settles between the read of its identifier and that of its header. *)
Definition racing_header (status : CertificateStatus) : AgHeader := mkAgHeader 8 status None (Some 71) None 11.
Definition racing_client : CertificateHeaderClient := {|
  GetCertificateHeader := fun _ => Ok (racing_header Settled);
  GetLatestSettledCertificateHeader := fun _ => Ok None;
  GetLatestPendingCertificateHeader := fun _ => Ok (Some (racing_header Pending))
|}.

Example settled_certificate_does_not_cover :
  exists data, source_CertificateFor racing_client example_svc (example_node 0) example_l2_bridge = Ok (Some data) /\
    cd_Status (id_CertificateData data) = Settled /\ cd_BlockNumber (id_CertificateData data) = Some 15000 /\
    source_Covers example_svc example_l2_bridge (id_NewLocalExitRoot data) = Ok false.
Proof. eexists. split; [vm_compute; reflexivity|]. repeat split. Qed.

(** A search that was interrupted, and a check of the previous root that fails once: the step keeps no progress. *)
Definition interrupted_path : list BridgeStepPath :=
  [mkBridgeStepPath StepWaitingLERUpdate StepStatusDone (Some 1) (Some 2) None None;
   mkBridgeStepPath StepPendingInclusion StepStatusDone (Some 2) (Some 3) (Some (ResultPendingInclusion (mkPendingInclusionResult 8 13 (Some 12)))) None;
   mkBridgeStepPath StepCertificatePending StepStatusDone (Some 3) (Some 4)
     (Some (ResultCertificateData (mkCertificateData 8 Settled "" "" (Some 73) (Some 31000) (Some 50)))) None;
   mkBridgeStepPath StepWaitL1SettledGER StepStatusInProgress (Some 4) None (Some (ResultSettlementSearch (mkSettlementSearchProgress 21000 (Some 73)))) None;
   mkBridgeStepPath StepWaitingL1InfoLeafAvailable StepStatusPending None None None None;
   mkBridgeStepPath StepWaitingClaim StepStatusPending None None None None;
   mkBridgeStepPath StepClaimed StepStatusPending None None None None].

Definition failing_covers : EngineSources := {|
  FindBridge := fun _ => Ok example_l2_bridge;
  CertificateFor := fun _ => Ok None;
  FindFirstL1InfoTreeAfterBlock := fun _ _ => Err example_failure;
  OriginLER := fun _ => Err example_failure;
  IsClaimed := fun _ => Ok false;
  ClaimFor := fun _ => Ok None;
  SettlementGERUpdate := fun _ _ => Err example_failure;
  L1InfoTreeIndexForGER := fun _ _ => Err example_failure;
  InjectedGERAtIndex := fun _ _ => Ok None;
  L1InfoTreeIndexForBridge := fun _ => Ok None;
  Covers := fun _ _ => Err example_failure;
  EarliestSettlementTxCovering := fun _ _ _ => (None, None, Some example_failure)
|}.

Example failed_check_loses_progress :
  exists stepped err, computeAllSteps (fun _ => failing_covers) (mkTrackingData example_id (mkTrackingBridgeTx None (Some example_l2_bridge) (Some 1) 5) interrupted_path) 9 =
    Some (Some (stepped, Some err)) /\ sp_Result <$> td_allSteps stepped !! 3%nat = Some None.
Proof. eexists _, _. split; [vm_compute; reflexivity|]. reflexivity. Qed.
