(* ===== verification/LETHelpers.v ===== *)
(** The trees of the recovery tool for local exit trees ([tools/backward_forward_let/helpers.go]): the leaves of exits and of
    answers of the bridge service, the frontier, proof and root the tool computes for the calls of the bridge contract.

    The leaf structure of the contract binding has the fields of [LeafData] and is that record.  Exits are not nil. *)

From Stdlib Require Import Ascii.
From S2P Require Import Prelude Bytes Merkle AgglayerTypes BridgeSync BridgeService.

Inductive letError :=
| LErr (what : string)
| LWrap (what : string) (e : letError)
| LBoth (e alsoFailed : letError)
| LBridgeNotFound.

(** What the tool reads of a bridge the service answers. *)
Record BridgeAnswer := mkBridgeAnswer {
  ba_LeafType : Z;
  ba_OriginNetwork : Z;
  ba_OriginAddress : string;
  ba_DestinationNetwork : Z;
  ba_DestinationAddress : string;
  ba_Amount : string;
  ba_Metadata : string
}.

(** [hex.DecodeString] without its error: the bytes before the first bad digit. *)
Fixpoint decodedPrefix (cs : list ascii) : list Z :=
  match cs with
  | a :: b :: cs => match hexDigit a, hexDigit b with Some x, Some y => x * 16 + y :: decodedPrefix cs | _, _ => [] end
  | _ => []
  end.

(** [common.HexToAddress] of any text: an odd number of digits gets a leading zero, the last 20 bytes count. *)
Definition textAddress (s : string) : Z :=
  let cs := trim0xX s in
  let bs := decodedPrefix (if Nat.odd (length cs) then "0"%char :: cs else cs) in
  be_value (drop (length bs - AddressLength) bs).

Definition parseAmount (s : string) : Z := if String.eqb s "" then 0 else default 0 (SetString10 s).

Definition decodeMetadata (s : string) : list Z :=
  match trim0x s with [] => [] | cs => default [] (hexBytes cs) end.

Definition merkleZeroHashCount : nat := 33.

Section Helpers.
Context `{Kc : Keccak}.

(** ** Leaves *)

Definition BridgeExitToLeafData (be : BridgeExit) : LeafData :=
  let amount := default 0 (be_Amount be) in
  let originAddr := from_option ti_OriginTokenAddress 0 (be_TokenInfo be) in
  let originNetwork := from_option ti_OriginNetwork 0 (be_TokenInfo be) in
  mkLeafData (be_LeafType be) originNetwork originAddr (be_DestinationNetwork be) (be_DestinationAddress be) amount (be_Metadata be).

Definition BridgeResponseToLeafData (br : BridgeAnswer) : LeafData :=
  mkLeafData (ba_LeafType br) (ba_OriginNetwork br) (textAddress (ba_OriginAddress br)) (ba_DestinationNetwork br)
    (textAddress (ba_DestinationAddress br)) (parseAmount (ba_Amount br)) (decodeMetadata (ba_Metadata br)).

Definition BridgeExitLeafHash (be : BridgeExit) : Z := BridgeExit_Hash (Some be).

(** [big.Int.Bytes] drops the sign. *)
Definition BridgeResponseLeafHash (br : BridgeAnswer) : Z :=
  let amount := parseAmount (ba_Amount br) in
  let metadata := decodeMetadata (ba_Metadata br) in
  Keccak256Hash [ [ba_LeafType br]; Uint32ToBigEndianBytes (ba_OriginNetwork br); be_bytes AddressLength (textAddress (ba_OriginAddress br));
    Uint32ToBigEndianBytes (ba_DestinationNetwork br); be_bytes AddressLength (textAddress (ba_DestinationAddress br));
    Hash_Bytes (Z.abs amount); Hash_Bytes (keccak256 metadata) ].

Definition leafDataLeafHash (ld : LeafData) : Z :=
  Keccak256Hash [ [ld_LeafType ld]; Uint32ToBigEndianBytes (ld_OriginNetwork ld); be_bytes AddressLength (ld_OriginAddress ld);
    Uint32ToBigEndianBytes (ld_DestinationNetwork ld); be_bytes AddressLength (ld_DestinationAddress ld);
    Hash_Bytes (Z.abs (ld_Amount ld)); Hash_Bytes (keccak256 (ld_Metadata ld)) ].

Definition bridgeExitToContractLeaf (be : BridgeExit) : LeafData :=
  let originNetwork := from_option ti_OriginNetwork 0 (be_TokenInfo be) in
  let originAddr := from_option ti_OriginTokenAddress 0 (be_TokenInfo be) in
  let amount := default 0 (be_Amount be) in
  mkLeafData (be_LeafType be) originNetwork originAddr (be_DestinationNetwork be) (be_DestinationAddress be) amount (be_Metadata be).

Definition leafDataToContractLeaf (ld : LeafData) : LeafData :=
  mkLeafData (ld_LeafType ld) (ld_OriginNetwork ld) (ld_OriginAddress ld) (ld_DestinationNetwork ld) (ld_DestinationAddress ld)
    (ld_Amount ld) (ld_Metadata ld).

(** ** Trees *)

Fixpoint zeroHashesUpto (i : nat) : list Z :=
  match i with
  | O => [ZeroHash]
  | S i => let zeros := zeroHashesUpto i in
           zeros ++ [Keccak256Hash [Hash_Bytes (nth i zeros 0); Hash_Bytes (nth i zeros 0)]]
  end.

Definition makeZeroHashes : list Z := zeroHashesUpto (merkleZeroHashCount - 1).

Definition lowBit (index : Z) (h : nat) : Z := Z.land (Z.shiftr index (Z.of_nat h)) 1.

(** The iterations for heights 0..k-1 of a leaf: the node and the frontier. *)
Fixpoint climbFrontier (zeros : list Z) (leafIndex leaf : Z) (frontier : list Z) (k : nat) : Z * list Z :=
  match k with
  | O => (leaf, frontier)
  | S h =>
      let '(node, frontier) := climbFrontier zeros leafIndex leaf frontier h in
      if lowBit leafIndex h =? 0
      then (Keccak256Hash [Hash_Bytes node; Hash_Bytes (nth h zeros 0)], <[h := node]> frontier)
      else (Keccak256Hash [Hash_Bytes (nth h frontier 0); Hash_Bytes node], frontier)
  end.

Fixpoint insertLeaves (zeros : list Z) (index : Z) (leaves : list Z) (frontier : list Z) (root : Z) : list Z * Z :=
  match leaves with
  | [] => (frontier, root)
  | leaf :: leaves =>
      let '(node, frontier) := climbFrontier zeros index leaf frontier 32 in
      insertLeaves zeros (index +u32 1) leaves frontier node
  end.

Definition computeFrontier (leafHashes : list Z) (targetIndex : Z) : result letError (list Z) :=
  let target := Z.to_nat targetIndex in
  if (length leafHashes <? target)%nat then Err (LErr "insufficient leaf hashes")
  else
    let '(frontier, _) := insertLeaves makeZeroHashes 0 (take target leafHashes) (repeat ZeroHash 32) ZeroHash in
    Ok (imap (fun h node => if lowBit targetIndex h =? 0 then ZeroHash else node) frontier).

(** The next level: a missing right node is empty. *)
Fixpoint pairUp (zero : Z) (level : list Z) : list Z :=
  match level with
  | l :: r :: level => Keccak256Hash [Hash_Bytes l; Hash_Bytes r] :: pairUp zero level
  | [l] => [Keccak256Hash [Hash_Bytes l; Hash_Bytes zero]]
  | [] => []
  end.

(** The [k] siblings from height [h] on. *)
Fixpoint proofFrom (zeros : list Z) (k h : nat) (currentLevel : list Z) (idx : Z) : list Z :=
  match k with
  | O => []
  | S k =>
      let sibling := Z.lxor idx 1 in
      (if sibling <? wrap32 (Z.of_nat (length currentLevel)) then nth (Z.to_nat sibling) currentLevel 0 else nth h zeros 0)
      :: proofFrom zeros k (S h) (pairUp (nth h zeros 0) currentLevel) (Z.shiftr idx 1)
  end.

Definition computeMerkleProof (allLeafHashes : list Z) (targetIndex : Z) : result letError (list Z) :=
  if wrap32 (Z.of_nat (length allLeafHashes)) <=? targetIndex then Err (LErr "targetIndex out of range")
  else Ok (proofFrom makeZeroHashes 32 0 allLeafHashes targetIndex).

Definition ComputeBackwardLETParams (allLeafHashes : list Z) (targetIndex : Z) : result letError (list Z * Z * list Z) :=
  if wrap32 (Z.of_nat (length allLeafHashes)) <=? targetIndex then Err (LErr "targetIndex out of range")
  else
    let? frontier := computeFrontier allLeafHashes targetIndex in
    let nextLeaf := nth (Z.to_nat targetIndex) allLeafHashes 0 in
    let? proof := computeMerkleProof allLeafHashes targetIndex in
    Ok (frontier, nextLeaf, proof).

Definition computeRootFromFrontier (frontier : list Z) (existingCount : Z) (newLeafHashes : list Z) : result letError Z :=
  match newLeafHashes with
  | [] => Err (LErr "newLeafHashes must not be empty")
  | _ => Ok (snd (insertLeaves makeZeroHashes existingCount newLeafHashes frontier ZeroHash))
  end.

Definition ComputeLERForNewLeaves (existingLeafHashes newLeafHashes : list Z) : result letError Z :=
  let n := wrap32 (Z.of_nat (length existingLeafHashes)) in
  let? frontier := computeFrontier existingLeafHashes n in
  computeRootFromFrontier frontier n newLeafHashes.

(** ** Lemmas *)

(** The frontier of a tree: the left nodes its next leaf will meet, zero where it meets none. *)
Definition frontier_of (leaves : list Z) : list Z :=
  map (fun h => let n := Z.of_nat (length leaves) in if bit_set n h then left_of_path (leaves_fn leaves) n h else 0) (seq 0 DefaultHeight).

Lemma zeroHashesUpto_eq i : zeroHashesUpto i = generateZeroHashes i.
Proof. induction i as [|i IH]; [done|]. cbn [zeroHashesUpto]. by rewrite IH. Qed.

Lemma makeZeroHashes_nth h : (h <= DefaultHeight)%nat -> nth h makeZeroHashes 0 = zero_hash h.
Proof. intros Hh. unfold makeZeroHashes. rewrite zeroHashesUpto_eq. by apply generateZeroHashes_nth. Qed.

Lemma lowBit_zero index h : 0 <= index -> (lowBit index h =? 0) = negb (bit_set index h).
Proof.
  intros Hi. rewrite bit_set_testbit, <- shift_bit_testbit by done. fold (lowBit index h).
  assert (lowBit index h = 0 \/ lowBit index h = 1) as [ -> | -> ]; [|done|done].
  unfold lowBit. set (x := Z.shiftr index (Z.of_nat h)). assert (Z.land x 1 = x mod 2) as -> by (exact (Z.land_ones x 1 ltac:(lia))).
  pose proof (Z.mod_pos_bound x 2 ltac:(lia)). lia.
Qed.

(** The simulation is the climb of the append-only tree without its nodes. *)
Lemma climbFrontier_append zeros index leaf frontier k : 0 <= index ->
  climbFrontier zeros index leaf frontier k = fst (AppendOnly_climb zeros (mkLeaf index leaf) frontier k).
Proof.
  intros Hi. induction k as [|k IH]; [done|]. cbn [climbFrontier AppendOnly_climb]. rewrite IH.
  destruct (AppendOnly_climb _ _ _ k) as [[node f] nodes]. cbn [fst lf_Index]. rewrite lowBit_zero by done.
  by destruct (bit_set index k).
Qed.

Lemma climbFrontier_spec leaves v frontier : length frontier = DefaultHeight -> cache_ready leaves frontier -> Z.of_nat (length leaves) < 2 ^ 32 ->
  climbFrontier makeZeroHashes (Z.of_nat (length leaves)) v frontier 32 =
  (tree_root (leaves ++ [v]), map (left_of_path (leaves_fn (leaves ++ [v])) (Z.of_nat (length leaves))) (seq 0 DefaultHeight)).
Proof.
  intros Hlen Hready Hn. rewrite climbFrontier_append by lia. change 32%nat with DefaultHeight.
  rewrite (AppendOnly_climb_spec makeZeroHashes (leaves_fn (leaves ++ [v]))).
  - cbn [fst]. rewrite path_top by lia. rewrite drop_ge by lia. by rewrite app_nil_r.
  - apply makeZeroHashes_nth.
  - lia.
  - apply leaves_fn_snoc_at.
  - intros j Hj. apply leaves_fn_beyond. rewrite length_app. cbn. lia.
  - done.
  - intros h Hh Hb. rewrite (Hready h Hh Hb). by rewrite left_of_path_prefix.
  - lia.
Qed.

(** After a leaf the left nodes along its path are those the next leaf will meet. *)
Lemma left_nodes_cache leaves v :
  cache_ready (leaves ++ [v]) (map (left_of_path (leaves_fn (leaves ++ [v])) (Z.of_nat (length leaves))) (seq 0 DefaultHeight)).
Proof.
  replace (Z.of_nat (length leaves)) with (Z.of_nat (length (leaves ++ [v])) - 1) by (rewrite length_app; cbn; lia).
  apply left_nodes_ready. by destruct leaves.
Qed.

Lemma insertLeaves_spec leaves new frontier root : length frontier = DefaultHeight -> cache_ready leaves frontier ->
  Z.of_nat (length leaves + length new) <= 2 ^ 32 ->
  exists f, insertLeaves makeZeroHashes (wrap32 (Z.of_nat (length leaves))) new frontier root =
    (f, match new with [] => root | _ => tree_root (leaves ++ new) end) /\ length f = DefaultHeight /\ cache_ready (leaves ++ new) f.
Proof.
  revert leaves frontier root. induction new as [|v new IH]; intros leaves frontier root Hlen Hready Hn.
  { exists frontier. by rewrite app_nil_r. }
  cbn [insertLeaves]. cbn [length] in Hn. assert (Z.of_nat (length leaves) < 2 ^ 32) as Hlt by lia.
  rewrite (wrap32_small (Z.of_nat (length leaves))) by (unfold is_u32, pow2_32; lia). rewrite climbFrontier_spec by done.
  unfold add32. replace (Z.of_nat (length leaves) + 1) with (Z.of_nat (length (leaves ++ [v]))) by (rewrite length_app; cbn; lia).
  destruct (IH (leaves ++ [v]) (map (left_of_path (leaves_fn (leaves ++ [v])) (Z.of_nat (length leaves))) (seq 0 DefaultHeight)) (tree_root (leaves ++ [v])))
    as (f & Hf & Hlenf & Hrf).
  - by rewrite length_map, length_seq.
  - apply left_nodes_cache.
  - rewrite length_app. cbn. lia.
  - exists f. rewrite Hf, <- app_assoc in *. split; [|done]. by destruct new.
Qed.

Lemma cache_ready_nil frontier : cache_ready [] frontier.
Proof. intros h _ Hb. cbn in Hb. rewrite bit_set_testbit in Hb by done. by rewrite Z.bits_0 in Hb. Qed.

(** What [computeFrontier] keeps of a ready frontier is the frontier of the tree. *)
Lemma masked_frontier leaves f : length f = DefaultHeight -> cache_ready leaves f ->
  imap (fun h node => if lowBit (Z.of_nat (length leaves)) h =? 0 then ZeroHash else node) f = frontier_of leaves.
Proof.
  intros Hlen Hready. apply list_eq_same_length with DefaultHeight.
  - unfold frontier_of. by rewrite length_map, length_seq.
  - by rewrite length_imap.
  - intros h x y Hh. rewrite list_lookup_imap. unfold frontier_of. rewrite list_lookup_fmap.
    rewrite lookup_seq_lt by done. cbn. rewrite lowBit_zero by lia.
    destruct (f !! h) as [node|] eqn:Ef; [|done]. cbn. intros [= <-] [= <-]. destruct (bit_set _ h) eqn:Hb; [|done]. cbn.
    rewrite <- (Hready h Hh Hb). by apply nth_lookup_Some with (d := 0) in Ef.
Qed.

Lemma frontier_ready leaves : length (frontier_of leaves) = DefaultHeight /\ cache_ready leaves (frontier_of leaves).
Proof.
  split; [unfold frontier_of; by rewrite length_map, length_seq|]. intros h Hh Hb. unfold frontier_of. rewrite nth_map_seq by done. by rewrite Hb.
Qed.

Lemma computeFrontier_spec leaves n : (n <= length leaves)%nat -> Z.of_nat n < 2 ^ 32 ->
  computeFrontier leaves (Z.of_nat n) = Ok (frontier_of (take n leaves)).
Proof.
  intros Hle Hn. unfold computeFrontier. rewrite Nat2Z.id. rewrite (proj2 (Nat.ltb_ge _ _)) by lia.
  destruct (insertLeaves_spec [] (take n leaves) (repeat ZeroHash 32) ZeroHash) as (f & Hf & Hlen & Hready); [done | apply cache_ready_nil | |].
  { cbn [length Nat.add]. rewrite length_take. lia. }
  change (wrap32 (Z.of_nat (length []))) with 0 in Hf. rewrite Hf. cbn [app] in *. f_equal. rewrite <- masked_frontier with (f := f) by done.
  rewrite length_take, Nat.min_l by lia. done.
Qed.

Lemma computeRootFromFrontier_spec leaves new : new <> [] -> Z.of_nat (length leaves + length new) <= 2 ^ 32 -> Z.of_nat (length leaves) < 2 ^ 32 ->
  computeRootFromFrontier (frontier_of leaves) (Z.of_nat (length leaves)) new = Ok (tree_root (leaves ++ new)).
Proof.
  intros Hne Hn Hl. destruct (frontier_ready leaves) as [Hlen Hready].
  destruct (insertLeaves_spec leaves new (frontier_of leaves) ZeroHash Hlen Hready Hn) as (f & Hf & _).
  rewrite wrap32_small in Hf by (unfold is_u32, pow2_32; lia). unfold computeRootFromFrontier. rewrite Hf. by destruct new.
Qed.

(** ** The proof *)

Lemma pairUp_nth zero level i : nth i (pairUp zero level) (node_hash zero zero) = node_hash (nth (2 * i) level zero) (nth (2 * i + 1) level zero).
Proof.
  revert i. induction level as [level IH] using (induction_ltof1 _ (@length Z)). intros i. unfold ltof in IH.
  destruct level as [|l [|r level]].
  - rewrite !nth_overflow by (cbn; lia). done.
  - destruct i as [|i]; [done|]. rewrite !nth_overflow by (cbn; lia). done.
  - destruct i as [|i]; [done|]. cbn [pairUp nth]. rewrite IH by (cbn; lia).
    replace (2 * S i)%nat with (S (S (2 * i))) by lia. replace (S (S (2 * i)) + 1)%nat with (S (S (2 * i + 1))) by lia. done.
Qed.

Lemma pairUp_length zero level : (length (pairUp zero level) <= length level)%nat.
Proof. induction level as [level IH] using (induction_ltof1 _ (@length Z)). unfold ltof in IH. destruct level as [|l [|r level]]; cbn; [lia..|]. specialize (IH level). cbn in IH. lia. Qed.

(** The nodes of a height: those of the level, empty subtrees beyond it. *)
Definition level_of (f : Z -> Z) (h : nat) (level : list Z) : Prop := forall i, nth i level (zero_hash h) = mroot f h (Z.of_nat i).

Lemma level_of_pairUp f h level : level_of f h level -> level_of f (S h) (pairUp (zero_hash h) level).
Proof.
  intros Hl i. change (zero_hash (S h)) with (node_hash (zero_hash h) (zero_hash h)). rewrite pairUp_nth, !Hl.
  change (mroot f (S h) (Z.of_nat i)) with (node_hash (mroot f h (2 * Z.of_nat i)) (mroot f h (2 * Z.of_nat i + 1))). do 2 f_equal; lia.
Qed.

Lemma sibling_index j h : 0 <= j -> Z.lxor (j / 2 ^ Z.of_nat h) 1 =
  if bit_set j h then 2 * (j / 2 ^ Z.of_nat (S h)) else 2 * (j / 2 ^ Z.of_nat (S h)) + 1.
Proof.
  intros Hj. rewrite (path_step j h Hj), bit_set_testbit by done. set (q := j / 2 ^ Z.of_nat (S h)).
  assert (Z.lxor (2 * q) 1 = 2 * q + 1) as E.
  { symmetry. apply Z.add_nocarry_lxor. rewrite (Z.land_ones (2 * q) 1 ltac:(lia) : Z.land (2 * q) 1 = (2 * q) mod 2). by rewrite Z.mul_comm, Z_mod_mult. }
  destruct (Z.testbit j (Z.of_nat h)); [|by rewrite Z.add_0_r].
  by rewrite <- E, Z.lxor_assoc, Z.lxor_nilpotent, Z.lxor_0_r.
Qed.

Lemma proofFrom_spec f j k h level : 0 <= j -> level_of f h level -> (h + k <= DefaultHeight)%nat -> Z.of_nat (length level) < 2 ^ 32 ->
  proofFrom makeZeroHashes k h level (j / 2 ^ Z.of_nat h) = map (sibling f j) (seq h k).
Proof.
  intros Hj. revert h level. induction k as [|k IH]; intros h level Hl Hk Hn; [done|]. cbn [proofFrom seq map]. rewrite makeZeroHashes_nth by lia. f_equal.
  - rewrite wrap32_small by (unfold is_u32, pow2_32; lia). rewrite sibling_index by done. unfold sibling.
    assert (forall i, 0 <= i -> (if i <? Z.of_nat (length level) then nth (Z.to_nat i) level 0 else zero_hash h) = mroot f h i) as Hat.
    { intros i Hi. rewrite <- (Z2Nat.id i) at 3 by done. rewrite <- Hl. destruct (Z.ltb_spec i (Z.of_nat (length level))).
      - apply nth_indep. lia.
      - rewrite nth_overflow by lia. done. }
    assert (0 <= j / 2 ^ Z.of_nat (S h)) by (apply Z.div_pos; [lia | apply pow2_pos]).
    destruct (bit_set j h); apply Hat; lia.
  - replace (Z.shiftr (j / 2 ^ Z.of_nat h) 1) with (j / 2 ^ Z.of_nat (S h)).
    + apply IH; [by apply level_of_pairUp | lia | pose proof (pairUp_length (zero_hash h) level); lia].
    + rewrite Z.shiftr_div_pow2 by lia. rewrite Z.div_div; [|apply Z.pow_nonzero; lia | lia]. f_equal. rewrite pow2_S. change (2 ^ 1) with 2. lia.
Qed.

Lemma level_of_leaves leaves : level_of (leaves_fn leaves) 0 leaves.
Proof.
  intros i. rewrite mroot_0. change (zero_hash 0) with 0. unfold leaves_fn. rewrite (proj2 (Z.ltb_ge _ _)) by lia. by rewrite Nat2Z.id.
Qed.

(** The proof of any leaf verifies against the root of all leaves. *)
Lemma computeMerkleProof_verifies leaves i : (i < length leaves)%nat -> Z.of_nat (length leaves) < 2 ^ 32 ->
  exists proof, computeMerkleProof leaves (Z.of_nat i) = Ok proof /\ VerifyProof (nth i leaves 0) proof (Z.of_nat i) (tree_root leaves) = true.
Proof.
  intros Hi Hn. unfold computeMerkleProof. rewrite wrap32_small by (unfold is_u32, pow2_32; lia). rewrite (proj2 (Z.leb_gt _ _)) by lia.
  eexists. split; [done|]. unfold VerifyProof. apply Z.eqb_eq. 
  pose proof (proofFrom_spec (leaves_fn leaves) (Z.of_nat i) 32 0 leaves ltac:(lia) (level_of_leaves leaves) (le_n _) Hn) as E.
  rewrite Z.div_1_r in E. rewrite E.
  rewrite <- leaves_fn_nth by done. unfold CalculateRoot. rewrite CalculateRoot_siblings by (lia || done). by rewrite path_top by lia.
Qed.

Lemma ComputeBackwardLETParams_spec leaves i : (i < length leaves)%nat -> Z.of_nat (length leaves) < 2 ^ 32 ->
  exists proof, ComputeBackwardLETParams leaves (Z.of_nat i) = Ok (frontier_of (take i leaves), nth i leaves 0, proof) /\
    VerifyProof (nth i leaves 0) proof (Z.of_nat i) (tree_root leaves) = true.
Proof.
  intros Hi Hn. destruct (computeMerkleProof_verifies leaves i Hi Hn) as (proof & Hp & Hv). exists proof. split; [|done].
  unfold ComputeBackwardLETParams. rewrite wrap32_small by (unfold is_u32, pow2_32; lia). rewrite (proj2 (Z.leb_gt _ _)) by lia.
  rewrite computeFrontier_spec by lia. cbn [rbind]. rewrite Hp. cbn [rbind]. by rewrite Nat2Z.id.
Qed.

(** ** Leaves on both sides *)

Lemma response_leaf br : leafDataLeafHash (leafDataToContractLeaf (BridgeResponseToLeafData br)) = BridgeResponseLeafHash br.
Proof. reflexivity. Qed.

(** A valid exit without metadata is the leaf the contract makes of it. *)
Lemma exit_leaf be : is_ok (BridgeExit_Validate (Some be)) = true -> be_Metadata be = [] ->
  leafDataLeafHash (bridgeExitToContractLeaf be) = BridgeExitLeafHash be.
Proof.
  intros Hv Hm. unfold BridgeExitLeafHash, BridgeExit_Hash. destruct (BridgeExit_Validate (Some be)) as [[]|] eqn:E; [|done].
  cbn in E. destruct (LeafTypeMessage <? be_LeafType be); [done|].
  assert (exists t, be_TokenInfo be = Some t /\ 0 <= default 0 (be_Amount be)) as (t & Ht & Ha).
  { destruct (be_Amount be) as [a|]; [destruct (Z.ltb_spec a 0); [done|]|]; unfold TokenInfo_Validate in E; destruct (be_TokenInfo be) as [t|]; try done; exists t; split; done || cbn; lia. }
  rewrite Ht. unfold leafDataLeafHash, bridgeExitToContractLeaf, BridgeExit_bytes. cbn [ld_LeafType ld_OriginNetwork ld_OriginAddress ld_DestinationNetwork ld_DestinationAddress ld_Amount ld_Metadata].
  rewrite Ht, Hm, Z.abs_eq by done. reflexivity.
Qed.

End Helpers.
