(* ===== verification/LETRecovery.v ===== *)
(** The recovery tool for local exit trees ([tools/backward_forward_let]): the diagnosis of a divergence between the exits settled
    on L1 and the exit tree of the bridge on L2, and the calls that repair it.

    The agglayer, the aggsender, the bridge service and the bridge contract are one record of operations over a state [W]: every
    call may fail and may see a changed world.  Errors carry the text of the source without the values printed into it. *)

From S2P Require Import Prelude Bytes Merkle AgglayerTypes BridgeSync BridgeService LETHelpers.

(** ** Types ([types.go]) *)

Inductive RecoveryCase := NoDivergence | Case1 | Case2 | Case3 | Case4.

Record UndercollateralizedToken := mkUndercollateralizedToken { ut_OriginNetwork : Z; ut_OriginAddress : Z; ut_Amount : Z }.

Record MissingCertInfo := mkMissingCertInfo { mc_Height : Z; mc_CertID : Z; mc_CertIDResolved : bool }.

Record DiagnosisResult := mkDiagnosisResult {
  dr_Case : RecoveryCase;
  dr_L1SettledLER : Z;
  dr_L1SettledDepositCount : Z;
  dr_L1SettledHeight : Z;
  dr_L1SettledCertificateID : Z;
  dr_L2CurrentLER : Z;
  dr_L2CurrentDepositCount : Z;
  dr_DivergencePoint : Z;
  dr_ExtraL2Bridges : list LeafData;
  dr_DivergentLeaves : list BridgeExit;
  dr_Undercollateralization : list UndercollateralizedToken;
  dr_IsEmergencyState : bool;
  dr_AggsenderAPIFailed : bool;
  dr_MissingCerts : list MissingCertInfo;
  dr_FailedCertHeight : Z;
  dr_FailedCertID : Z
}.

Definition IsCompleteNoDivergence (d : DiagnosisResult) : bool :=
  negb (dr_AggsenderAPIFailed d) && match dr_Case d with NoDivergence => true | _ => false end.

(** What the tool reads of the network info of the agglayer. *)
Record NetworkInfo := mkNetworkInfo {
  nf_SettledHeight : option Z;
  nf_SettledCertificateID : option Z;
  nf_SettledLER : option Z;
  nf_SettledLETLeafCount : option Z
}.

Inductive infoError := GRPCError (code : Z) | OtherError (what : string).

Definition NotFoundCode : Z := 5.

(** ** The environment ([run.go]) *)

Record Env (W : Type) := mkEnv {
  chainIDFn : eff W letError Z;
  buildAuthFn : string -> eff W letError unit;
  waitReceiptFn : Z -> eff W letError Z;
  GetNetworkInfo : eff W infoError NetworkInfo;
  GetCertificateBridgeExits : Z -> eff W letError (list BridgeExit);
  BridgeExitsOverride : option (gmap Z (list BridgeExit));
  GetBridgeByDepositCount : Z -> Z -> eff W letError BridgeAnswer;
  DepositCount : eff W letError Z;
  GetRoot : eff W letError Z;
  IsEmergencyState : eff W letError bool;
  ActivateEmergencyState : eff W letError Z;
  DeactivateEmergencyState : eff W letError Z;
  BackwardLET : Z -> list Z -> Z -> list Z -> eff W letError Z;
  ForwardLET : list LeafData -> Z -> eff W letError Z;
  L2NetworkID : Z
}.
Arguments mkEnv {W}.
Arguments chainIDFn {W}.
Arguments buildAuthFn {W}.
Arguments waitReceiptFn {W}.
Arguments GetNetworkInfo {W}.
Arguments GetCertificateBridgeExits {W}.
Arguments BridgeExitsOverride {W}.
Arguments GetBridgeByDepositCount {W}.
Arguments DepositCount {W}.
Arguments GetRoot {W}.
Arguments IsEmergencyState {W}.
Arguments ActivateEmergencyState {W}.
Arguments DeactivateEmergencyState {W}.
Arguments BackwardLET {W}.
Arguments ForwardLET {W}.
Arguments L2NetworkID {W}.

Section Tool.
Context `{Kc : Keccak} {W : Type} (env : Env W).

Abbreviation M := (eff W letError).

Definition wrapErr {A} (what : string) (c : M A) : M A :=
  fun s => match c s with (s, Err e) => (s, Err (LWrap what e)) | r => r end.

Definition require (b : bool) (what : string) : M unit := if b then sret tt else sfail (LErr what).

(** ** Diagnosis ([diagnosis.go], [network_info.go], [override.go]) *)

Definition getNetworkInfoAllowNotFound : M (option NetworkInfo) := fun s =>
  match GetNetworkInfo env s with
  | (s, Ok info) => (s, Ok (Some info))
  | (s, Err (GRPCError code)) => (s, if code =? NotFoundCode then Ok None else Err (LErr "get network info from agglayer"))
  | (s, Err (OtherError what)) => (s, Err (LWrap "get network info from agglayer" (LErr what)))
  end.

Definition GetExits (o : gmap Z (list BridgeExit)) (height : Z) : option (list BridgeExit) := o !! height.

Definition getBridgeExitsForHeight (height : Z) : M (list BridgeExit) := fun s =>
  match GetCertificateBridgeExits env height s with
  | (s, Ok exits) => (s, Ok exits)
  | (s, Err e) =>
      (s, match BridgeExitsOverride env ≫= (fun o => GetExits o height) with
          | Some exits => Ok exits
          | None => Err (LWrap "no bridge exit data for height: aggsender" e)
          end)
  end.

(** A failing service counts as a mismatch. *)
Fixpoint checkCertExitsMatchL2 (exits : list BridgeExit) (dc : Z) (s : W) : W * bool :=
  match exits with
  | [] => (s, true)
  | exit :: exits =>
      match GetBridgeByDepositCount env (L2NetworkID env) dc s with
      | (s, Err _) => (s, false)
      | (s, Ok br) => if negb (BridgeExitLeafHash exit =? BridgeResponseLeafHash br) then (s, false) else checkCertExitsMatchL2 exits (dc +u32 1) s
      end
  end.

(** The certificates from height [h] down to 0: divergent leaves, divergence point, whether a certificate matched, missing heights. *)
Fixpoint divergenceWalk (settledHeight settledCertID : Z) (h : nat) (dcEnd : Z) (divergentLeaves : list BridgeExit) (missing : list MissingCertInfo) (s : W)
  : W * (list BridgeExit * Z * bool * option (list MissingCertInfo)) :=
  let below dcEnd divergentLeaves missing s :=
    match h with
    | S h => divergenceWalk settledHeight settledCertID h dcEnd divergentLeaves missing s
    | O => match missing with
           | [] => (s, (divergentLeaves, 0, false, None))
           | _ => (s, ([], 0, false, Some missing))
           end
    end in
  match getBridgeExitsForHeight (Z.of_nat h) s with
  | (s, Err _) =>
      let certIDResolved := (Z.of_nat h =? settledHeight) && negb (settledCertID =? ZeroHash) in
      below dcEnd divergentLeaves (missing ++ [mkMissingCertInfo (Z.of_nat h) (if certIDResolved then settledCertID else ZeroHash) certIDResolved]) s
  | (s, Ok exits) =>
      let n := wrap32 (Z.of_nat (length exits)) in
      if n =? 0 then below dcEnd divergentLeaves missing s
      else
        let dcStart := dcEnd -u32 n in
        match checkCertExitsMatchL2 exits dcStart s with
        | (s, true) => match missing with [] => (s, (divergentLeaves, dcEnd, true, None)) | _ => below dcEnd divergentLeaves missing s end
        | (s, false) => below dcStart (exits ++ divergentLeaves) missing s
        end
  end.

Definition findDivergencePoint (settledHeight totalSettledLeaves settledCertID : Z) (s : W)
  : W * (list BridgeExit * Z * bool * option (list MissingCertInfo)) :=
  divergenceWalk settledHeight settledCertID (Z.to_nat settledHeight) totalSettledLeaves [] [] s.

Definition classifyCase (l2CurrentDC divergencePoint : Z) (numDivergentLeaves : nat) : RecoveryCase :=
  let hasExtraL2 := divergencePoint <? l2CurrentDC in
  let multipleL1 := (1 <? numDivergentLeaves)%nat in
  match hasExtraL2, multipleL1 with
  | false, false => Case1
  | true, false => Case2
  | false, true => Case3
  | true, true => Case4
  end.

(** The [k] bridges from [dc] on. *)
Fixpoint collectFrom (k : nat) (dc : Z) : M (list LeafData) :=
  match k with
  | O => sret []
  | S k =>
      let! br := wrapErr "bridge service data not ready for recovery" (GetBridgeByDepositCount env (L2NetworkID env) dc) in
      let! extra := collectFrom k (dc +u32 1) in
      sret (BridgeResponseToLeafData br :: extra)
  end.

Definition collectExtraL2Bridges (startDC endDC : Z) : M (list LeafData) := collectFrom (Z.to_nat (endDC - startDC)) startDC.

(** The totals in the order their tokens first appear. *)
Fixpoint addToken (network address amount : Z) (totals : list UndercollateralizedToken) : list UndercollateralizedToken :=
  match totals with
  | [] => [mkUndercollateralizedToken network address amount]
  | t :: totals =>
      if (ut_OriginNetwork t =? network) && (ut_OriginAddress t =? address)
      then mkUndercollateralizedToken network address (ut_Amount t + amount) :: totals
      else t :: addToken network address amount totals
  end.

Definition computeUndercollateralization (leaves : list BridgeExit) : list UndercollateralizedToken :=
  fold_left (fun totals leaf =>
    match be_TokenInfo leaf with
    | None => totals
    | Some t => addToken (ti_OriginNetwork t) (ti_OriginTokenAddress t) (default 0 (be_Amount leaf)) totals
    end) leaves [].

Definition isReplayCase (c : RecoveryCase) : bool := match c with Case2 | Case4 => true | _ => false end.

Definition Diagnose : M DiagnosisResult :=
  let! info := getNetworkInfoAllowNotFound in
  match info ≫= nf_SettledHeight, info with
  | Some settledHeight, Some info =>
      let certID := default ZeroHash (nf_SettledCertificateID info) in
      let ler := default ZeroHash (nf_SettledLER info) in
      let settledDC := wrap32 (default 0 (nf_SettledLETLeafCount info)) in
      let! depositCount := wrapErr "get L2 deposit count" (DepositCount env) in
      let l2DC := wrap32 depositCount in
      let! root := wrapErr "get L2 bridge root" (GetRoot env) in
      let! emergency := wrapErr "check L2 emergency state" (IsEmergencyState env) in
      let result c dp extra leaves under failed missing :=
        mkDiagnosisResult c ler settledDC settledHeight certID root l2DC dp extra leaves under emergency failed missing
          (from_option mc_Height 0 (head missing)) (from_option mc_CertID ZeroHash (head missing)) in
      if (root =? ler) && (l2DC =? settledDC) then sret (result NoDivergence 0 [] [] [] false [])
      else
        let! found := fun s => let '(s, r) := findDivergencePoint settledHeight settledDC certID s in (s, Ok r) in
        match found with
        | (_, _, _, Some missing) => sret (result NoDivergence 0 [] [] [] true missing)
        | (divergentLeaves, divPoint, divFound, None) =>
            let dp := if divFound : bool then divPoint else 0 in
            let c := classifyCase l2DC dp (length divergentLeaves) in
            let! extra := if isReplayCase c then wrapErr "collect extra L2 bridges" (collectExtraL2Bridges dp l2DC) else sret [] in
            sret (result c dp extra divergentLeaves (computeUndercollateralization divergentLeaves) false [])
        end
  | _, _ => sret (mkDiagnosisResult NoDivergence ZeroHash 0 0 ZeroHash ZeroHash 0 0 [] [] [] false false [] 0 ZeroHash)
  end.

(** ** Recovery ([recovery.go]) *)

(** The [k] leaves from [dc] on. *)
Fixpoint fetchFrom (k : nat) (dc : Z) : M (list Z) :=
  match k with
  | O => sret []
  | S k =>
      let! br := wrapErr "get L2 bridge" (GetBridgeByDepositCount env (L2NetworkID env) dc) in
      let! hashes := fetchFrom k (dc +u32 1) in
      sret (BridgeResponseLeafHash br :: hashes)
  end.

Definition fetchL2LeafHashesUpTo (endDC : Z) : M (list Z) := fetchFrom (Z.to_nat endDC) 0.

(** Sending a transaction and waiting for its receipt. *)
Definition transact (name : string) (send : M Z) : M unit :=
  let! tx := wrapErr ("send " ++ name ++ " tx")%string send in
  let! status := wrapErr ("wait for " ++ name ++ " receipt")%string (waitReceiptFn env tx) in
  require (status =? 1) (name ++ " tx failed")%string.

Definition stepActivateEmergency : M unit :=
  let! _ := transact "ActivateEmergencyState" (ActivateEmergencyState env) in
  let! active := wrapErr "verify emergency state after activation" (IsEmergencyState env) in
  require active "emergency state not active after ActivateEmergencyState".

Definition stepDeactivateEmergency : M unit :=
  let! _ := transact "DeactivateEmergencyState" (DeactivateEmergencyState env) in
  let! active := wrapErr "verify emergency state after deactivation" (IsEmergencyState env) in
  require (negb active) "emergency state still active after DeactivateEmergencyState".

Definition stepBackwardLET (d : DiagnosisResult) : M unit :=
  let! allLeafHashes := wrapErr "fetch L2 leaf hashes" (fetchL2LeafHashesUpTo (dr_L2CurrentDepositCount d)) in
  let! params := wrapErr "compute BackwardLET params" (slift (ComputeBackwardLETParams allLeafHashes (dr_DivergencePoint d))) in
  let '(frontier, nextLeaf, proof) := params in
  let! _ := transact "BackwardLET" (BackwardLET env (dr_DivergencePoint d) frontier nextLeaf proof) in
  let! dc := wrapErr "get deposit count after BackwardLET" (DepositCount env) in
  require (wrap32 dc =? dr_DivergencePoint d) "deposit count mismatch after BackwardLET".

(** Both uses of [ForwardLET]: the call, and the checks of count and root after it. *)
Definition forwardAndVerify (name : string) (newLeaves : list LeafData) (expectedLER expectedDC : Z) : M unit :=
  let! _ := transact name (ForwardLET env newLeaves expectedLER) in
  let! dc := wrapErr ("get deposit count after " ++ name)%string (DepositCount env) in
  let! _ := require (wrap32 dc =? expectedDC) ("deposit count mismatch after " ++ name)%string in
  let! root := wrapErr ("get root after " ++ name)%string (GetRoot env) in
  require (root =? expectedLER) ("LER mismatch after " ++ name)%string.

Definition stepForwardLETDivergentLeaves (d : DiagnosisResult) : M unit :=
  let newLeaves := map bridgeExitToContractLeaf (dr_DivergentLeaves d) in
  let! hashes := if 0 <? dr_DivergencePoint d
                 then wrapErr "fetch L2 leaf hashes up to divergence point" (fetchL2LeafHashesUpTo (dr_DivergencePoint d)) else sret [] in
  let! frontier := wrapErr "compute frontier at divergence point" (slift (computeFrontier hashes (dr_DivergencePoint d))) in
  let divergentLeafHashes := map BridgeExitLeafHash (dr_DivergentLeaves d) in
  let! expectedLER := wrapErr "compute expected LER for divergent leaves"
    (slift (computeRootFromFrontier frontier (dr_DivergencePoint d) divergentLeafHashes)) in
  forwardAndVerify "ForwardLET (divergent leaves)" newLeaves expectedLER
    (dr_DivergencePoint d +u32 wrap32 (Z.of_nat (length (dr_DivergentLeaves d)))).

Definition stepForwardLETExtraL2Bridges (d : DiagnosisResult) : M unit :=
  let newLeaves := map leafDataToContractLeaf (dr_ExtraL2Bridges d) in
  let afterDivergentCount := dr_DivergencePoint d +u32 wrap32 (Z.of_nat (length (dr_DivergentLeaves d))) in
  let! l2Hashes := if 0 <? dr_DivergencePoint d
                   then wrapErr "fetch L2 leaf hashes up to divergence point" (fetchL2LeafHashesUpTo (dr_DivergencePoint d)) else sret [] in
  let allHashesBeforeExtra := l2Hashes ++ map BridgeExitLeafHash (dr_DivergentLeaves d) in
  let! frontier := wrapErr "compute frontier after divergent leaves" (slift (computeFrontier allHashesBeforeExtra afterDivergentCount)) in
  let extraLeafHashes := map leafDataLeafHash (dr_ExtraL2Bridges d) in
  let! expectedLER := wrapErr "compute expected LER for extra L2 bridges"
    (slift (computeRootFromFrontier frontier afterDivergentCount extraLeafHashes)) in
  forwardAndVerify "ForwardLET (extra L2 bridges)" newLeaves expectedLER
    (afterDivergentCount +u32 wrap32 (Z.of_nat (length (dr_ExtraL2Bridges d)))).

(** The final state is read and printed; only the reads can fail. *)
Definition printFinalVerification : M unit :=
  let! _ := wrapErr "get final deposit count" (DepositCount env) in
  let! _ := wrapErr "get final LER" (GetRoot env) in
  sret tt.

(** [defer]: the cleanup runs after the body, and its error is joined to that of the body. *)
Definition deferred (body cleanup : M unit) : M unit := fun s =>
  let '(s, r) := body s in
  match cleanup s, r with
  | (s, Ok _), _ => (s, r)
  | (s, Err d), Err e => (s, Err (LBoth e d))
  | (s, Err d), Ok _ => (s, Err (LWrap "failed to deactivate emergency state (bridge is still paused)" d))
  end.

Definition recoverySteps (d : DiagnosisResult) : M unit :=
  let! _ := if isReplayCase (dr_Case d) then wrapErr "backward LET" (stepBackwardLET d) else sret tt in
  let! _ := wrapErr "forward LET divergent leaves" (stepForwardLETDivergentLeaves d) in
  let! _ := match dr_ExtraL2Bridges d with [] => sret tt | _ => wrapErr "forward LET extra L2 bridges" (stepForwardLETExtraL2Bridges d) end in
  wrapErr "final verification" printFinalVerification.

Definition ExecuteRecovery (d : DiagnosisResult) : M unit :=
  let! _ := wrapErr "get L2 chain ID" (chainIDFn env) in
  let! _ := wrapErr "build admin transact opts" (buildAuthFn env "ger-remover") in
  let! _ := wrapErr "build pauser transact opts" (buildAuthFn env "emergency-pauser") in
  let! _ := wrapErr "build unpauser transact opts" (buildAuthFn env "emergency-unpauser") in
  let! _ := if dr_IsEmergencyState d then sret tt else wrapErr "activate emergency state" stepActivateEmergency in
  deferred (recoverySteps d) stepDeactivateEmergency.

(** ** The command ([run.go]) *)

Inductive runOutcome := MissingExits | InSync | DiagnoseOnly | Aborted | Recovered.

(** [confirmed]: the flag or the answer of the operator. *)
Definition Run (diagnoseOnly confirmed : bool) : M runOutcome :=
  let! diagnosis := wrapErr "diagnosis failed" Diagnose in
  if dr_AggsenderAPIFailed diagnosis then sret MissingExits
  else if IsCompleteNoDivergence diagnosis then sret InSync
  else if diagnoseOnly then sret DiagnoseOnly
  else if negb confirmed then sret Aborted
  else let! _ := wrapErr "recovery failed" (ExecuteRecovery diagnosis) in sret Recovered.

End Tool.
