(* ===== verification/LETRecoveryProofs.v ===== *)
(** What the recovery tool for local exit trees achieves: after a completed recovery the exits settled on L1 are the beginning of
    the tree on L2, followed by the bridges of L2 that came after the divergence; and the situations in which it does harm. *)

From S2P Require Import Prelude Bytes Merkle AgglayerTypes BridgeSync BridgeService LETHelpers LETRecovery.

Section Recovery.
Context `{Kc : Keccak} {W : Type} (env : Env W) (leaves : W -> list Z) (paused : W -> bool).

Abbreviation M := (eff W letError).
Abbreviation hashes := (map BridgeExitLeafHash).

Definition mined (send : M Z) (s s' : W) : Prop := exists tx s1, send s = (s1, Ok tx) /\ waitReceiptFn env tx s1 = (s', Ok 1).

(** A transaction that is not sent, or whose receipt says that it failed: nothing changed. *)
Definition reverted (send : M Z) (s s' : W) : Prop :=
  ((exists e, send s = (s', Err e)) \/ (exists tx s1 status, send s = (s1, Ok tx) /\ waitReceiptFn env tx s1 = (s', Ok status) /\ status <> 1)) /\
  leaves s' = leaves s /\ paused s' = paused s.

(** The contract does not extend the tree to another root than the one announced. *)
Definition refuses : Prop := forall s newLeaves root, root <> tree_root (leaves s ++ map leafDataLeafHash newLeaves) ->
  exists s', reverted (ForwardLET env newLeaves root) s s'.

(** The bridge contract as the tool uses it, while nobody else changes it: a list of leaves behind the count and the root, a rewind
    that needs the frontier of the shorter tree and a proof of the first removed leaf, an extension that needs the resulting root. *)
Record contract_ok : Prop := {
  co_chain : forall s, exists id, chainIDFn env s = (s, Ok id);
  co_auth : forall s name, buildAuthFn env name s = (s, Ok tt);
  co_count : forall s, DepositCount env s = (s, Ok (Z.of_nat (length (leaves s))));
  co_root : forall s, GetRoot env s = (s, Ok (tree_root (leaves s)));
  co_paused : forall s, IsEmergencyState env s = (s, Ok (paused s));
  co_activate : forall s, paused s = false -> exists s', mined (ActivateEmergencyState env) s s' /\ leaves s' = leaves s /\ paused s' = true;
  co_deactivate : forall s, paused s = true -> exists s', mined (DeactivateEmergencyState env) s s' /\ leaves s' = leaves s /\ paused s' = false;
  co_backward : forall s n proof, paused s = true -> (n < length (leaves s))%nat ->
    VerifyProof (nth n (leaves s) 0) proof (Z.of_nat n) (tree_root (leaves s)) = true ->
    exists s', mined (BackwardLET env (Z.of_nat n) (frontier_of (take n (leaves s))) (nth n (leaves s) 0) proof) s s' /\
      leaves s' = take n (leaves s) /\ paused s' = true;
  co_forward : forall s newLeaves, paused s = true -> newLeaves <> [] ->
    exists s', mined (ForwardLET env newLeaves (tree_root (leaves s ++ map leafDataLeafHash newLeaves))) s s' /\
      leaves s' = leaves s ++ map leafDataLeafHash newLeaves /\ paused s' = true
}.

(** The bridge service has indexed the tree [l2]; the first [dp] bridges are served also while it follows the recovery. *)
Record service_ok (l2 : list Z) (dp : nat) : Prop := {
  sv_at : forall s dc x, leaves s = l2 -> l2 !! dc = Some x ->
    exists br, GetBridgeByDepositCount env (L2NetworkID env) (Z.of_nat dc) s = (s, Ok br) /\ BridgeResponseLeafHash br = x;
  sv_beyond : forall s dc, leaves s = l2 -> (length l2 <= dc)%nat ->
    exists e, GetBridgeByDepositCount env (L2NetworkID env) (Z.of_nat dc) s = (s, Err e);
  sv_prefix : forall s dc x, take dp (leaves s) = take dp l2 -> (dc < dp)%nat -> l2 !! dc = Some x ->
    exists br, GetBridgeByDepositCount env (L2NetworkID env) (Z.of_nat dc) s = (s, Ok br) /\ BridgeResponseLeafHash br = x
}.

(** The exits of every settled certificate are known, and the agglayer answers for their tree. *)
Record settled_ok (certs : list (list BridgeExit)) : Prop := {
  st_exits : forall s h exits, certs !! h = Some exits -> getBridgeExitsForHeight env (Z.of_nat h) s = (s, Ok exits);
  st_info : exists info, (forall s, GetNetworkInfo env s = (s, Ok info)) /\
    nf_SettledHeight info = Some (Z.of_nat (length certs - 1)) /\
    nf_SettledLER info = Some (tree_root (hashes (concat certs))) /\ nf_SettledLETLeafCount info = Some (Z.of_nat (length (concat certs)))
}.

Context (Hco : contract_ok).

Lemma wrapErr_Ok {A} what (c : M A) s s' a : c s = (s', Ok a) -> wrapErr what c s = (s', Ok a).
Proof. unfold wrapErr. by intros ->. Qed.

Lemma transact_mined name send s s' : mined send s s' -> transact env name send s = (s', Ok tt).
Proof. intros (tx & s1 & H1 & H2). unfold transact, sbind, wrapErr. rewrite H1, H2. done. Qed.

Lemma transact_reverted name send s s' : reverted send s s' -> exists e, transact env name send s = (s', Err e).
Proof.
  intros [[[e He]|(tx & s1 & status & Ht & Hw & Hn)] _]; unfold transact, sbind, wrapErr; [rewrite He; by eexists|].
  rewrite Ht, Hw, (proj2 (Z.eqb_neq _ _) Hn). by eexists.
Qed.

Lemma small32 n : Z.of_nat n < 2 ^ 32 -> wrap32 (Z.of_nat n) = Z.of_nat n.
Proof. intros. apply wrap32_small. unfold is_u32, pow2_32. lia. Qed.

Lemma next32 n : Z.of_nat n + 1 < 2 ^ 32 -> Z.of_nat n +u32 1 = Z.of_nat (S n).
Proof. intros. unfold add32. rewrite wrap32_small by (unfold is_u32, pow2_32; lia). lia. Qed.

Lemma sum32 a b : Z.of_nat (a + b) < 2 ^ 32 -> Z.of_nat a +u32 wrap32 (Z.of_nat b) = Z.of_nat (a + b).
Proof. intros. rewrite small32 by lia. unfold add32. rewrite <- Nat2Z.inj_add. by apply small32. Qed.

(** ** Reading the service *)

Section Service.
Context (l2 : list Z) (dp : nat) (Hsv : service_ok l2 dp) (Hsmall : Z.of_nat (length l2) < 2 ^ 32).

Lemma check_agrees s exits start : leaves s = l2 -> Z.of_nat (start + length exits) < 2 ^ 32 ->
  checkCertExitsMatchL2 env exits (Z.of_nat start) s = (s, bool_decide (hashes exits = take (length exits) (drop start l2))).
Proof.
  intros Hl. revert start. induction exits as [|e exits IH]; intros start Hn; [done|]. cbn [checkCertExitsMatchL2 length map take].
  cbn [length] in Hn. destruct (l2 !! start) as [x|] eqn:Ex.
  - destruct (sv_at _ _ Hsv s start x Hl Ex) as (br & -> & <-). rewrite (drop_S _ _ _ Ex). cbn [take].
    destruct (Z.eqb_spec (BridgeExitLeafHash e) (BridgeResponseLeafHash br)) as [E|E]; cbn [negb].
    + destruct exits as [|e' exits]; [cbn; rewrite E; by rewrite bool_decide_eq_true_2|].
      cbn [length] in *. rewrite next32 by lia. rewrite IH by (cbn [length]; lia). f_equal. apply bool_decide_ext. rewrite E.
      split; [intros H; by rewrite H | by intros [= ?]].
    + rewrite bool_decide_eq_false_2; [done|]. intros H. by injection H.
  - destruct (sv_beyond _ _ Hsv s start Hl) as (err & ->). { by apply lookup_ge_None. }
    rewrite bool_decide_eq_false_2; [done|]. rewrite drop_ge by (by apply lookup_ge_None). done.
Qed.

Lemma collect_spec s k start : leaves s = l2 -> (start + k <= length l2)%nat ->
  exists extra, collectFrom env k (Z.of_nat start) s = (s, Ok extra) /\ map leafDataLeafHash extra = take k (drop start l2) /\
    map (fun l => leafDataLeafHash (leafDataToContractLeaf l)) extra = take k (drop start l2).
Proof.
  intros Hl. revert start. induction k as [|k IH]; intros start Hk; [by exists []|]. cbn [collectFrom].
  destruct (lookup_lt_is_Some_2 l2 start ltac:(lia)) as [x Ex]. destruct (sv_at _ _ Hsv s start x Hl Ex) as (br & Hbr & <-).
  rewrite (sbind_run _ _ s s br (wrapErr_Ok _ _ s s br Hbr)). rewrite (drop_S _ _ _ Ex). cbn [take].
  assert (exists extra, collectFrom env k (Z.of_nat start +u32 1) s = (s, Ok extra) /\ map leafDataLeafHash extra = take k (drop (S start) l2) /\
    map (fun l => leafDataLeafHash (leafDataToContractLeaf l)) extra = take k (drop (S start) l2)) as (extra & Hx & H1 & H2).
  { destruct k as [|k']; [by exists []|]. rewrite next32 by lia. apply IH. lia. }
  rewrite (sbind_run _ _ s s extra Hx). eexists. split; [done|]. cbn [map]. rewrite H1, H2. by rewrite response_leaf.
Qed.

Lemma fetch_spec s k start : (forall dc x, (dc < start + k)%nat -> l2 !! dc = Some x ->
    exists br, GetBridgeByDepositCount env (L2NetworkID env) (Z.of_nat dc) s = (s, Ok br) /\ BridgeResponseLeafHash br = x) ->
  (start + k <= length l2)%nat -> fetchFrom env k (Z.of_nat start) s = (s, Ok (take k (drop start l2))).
Proof.
  revert start. induction k as [|k IH]; intros start Hs Hk; [done|]. cbn [fetchFrom].
  destruct (lookup_lt_is_Some_2 l2 start ltac:(lia)) as [x Ex]. destruct (Hs start x ltac:(lia) Ex) as (br & Hbr & <-).
  rewrite (sbind_run _ _ s s br (wrapErr_Ok _ _ s s br Hbr)). rewrite (drop_S _ _ _ Ex). cbn [take].
  assert (fetchFrom env k (Z.of_nat start +u32 1) s = (s, Ok (take k (drop (S start) l2)))) as Hx.
  { destruct k as [|k']; [done|]. rewrite next32 by lia. apply IH; [|lia]. intros dc y Hdc. apply Hs. lia. }
  by rewrite (sbind_run _ _ s s _ Hx).
Qed.

Lemma fetch_all s : leaves s = l2 -> fetchL2LeafHashesUpTo env (Z.of_nat (length l2)) s = (s, Ok l2).
Proof.
  intros Hl. unfold fetchL2LeafHashesUpTo. rewrite Nat2Z.id. change 0 with (Z.of_nat 0). rewrite fetch_spec; [by rewrite drop_0, take_ge| |lia].
  intros dc x _. by apply (sv_at _ _ Hsv).
Qed.

Lemma fetch_prefix s : take dp (leaves s) = take dp l2 -> (dp <= length l2)%nat ->
  fetchL2LeafHashesUpTo env (Z.of_nat dp) s = (s, Ok (take dp l2)).
Proof.
  intros Hl Hdp. unfold fetchL2LeafHashesUpTo. rewrite Nat2Z.id. change 0 with (Z.of_nat 0). rewrite fetch_spec; [by rewrite drop_0| |lia].
  intros dc x Hdc. by apply (sv_prefix _ _ Hsv).
Qed.

(** The fetch both forward steps make, which is skipped at divergence point zero. *)
Lemma fetch_guarded what s : take dp (leaves s) = take dp l2 -> (dp <= length l2)%nat ->
  (if 0 <? Z.of_nat dp then wrapErr what (fetchL2LeafHashesUpTo env (Z.of_nat dp)) else sret []) s = (s, Ok (take dp l2)).
Proof.
  intros Hl Hdp. destruct (Z.ltb_spec 0 (Z.of_nat dp)) as [H|H]; [by apply wrapErr_Ok, fetch_prefix|].
  assert (dp = 0%nat) as E by lia. by rewrite E.
Qed.

End Service.

(** ** The divergence point *)

Section Diagnosis.
Context (good bad : list (list BridgeExit)) (l2 : list Z).
Let certs := good ++ bad.
Let dp := length (concat good).
Context (Hst : settled_ok certs) (Hsv : service_ok l2 dp).
Context (Htotal : Z.of_nat (length (concat certs) + length l2) < 2 ^ 32).

(** The leaves of the certificates before the divergence are the first of L2 ... *)
Definition matching : Prop := hashes (concat good) = take dp l2.

(** ... and none of the later certificates with exits is found at its place. *)
Definition divergent : Prop := forall b1 c b2, bad = b1 ++ c :: b2 -> c <> [] ->
  hashes c <> take (length c) (drop (length (concat (good ++ b1))) l2).

Context (Hgood : matching) (Hbad : divergent).

Definition walkFrom (sh id : Z) (k : nat) (dcEnd : Z) (div : list BridgeExit) (s : W) : W * (list BridgeExit * Z * bool * option (list MissingCertInfo)) :=
  match k with O => (s, (div, 0, false, None)) | S h => divergenceWalk env sh id h dcEnd div [] s end.

Lemma walk_unfold sh id h dcEnd div s :
  divergenceWalk env sh id h dcEnd div [] s =
  match getBridgeExitsForHeight env (Z.of_nat h) s with
  | (s, Err _) => divergenceWalk env sh id h dcEnd div [] s
  | (s, Ok exits) =>
      if wrap32 (Z.of_nat (length exits)) =? 0 then walkFrom sh id h dcEnd div s
      else match checkCertExitsMatchL2 env exits (dcEnd -u32 wrap32 (Z.of_nat (length exits))) s with
           | (s, true) => (s, (div, dcEnd, true, None))
           | (s, false) => walkFrom sh id h (dcEnd -u32 wrap32 (Z.of_nat (length exits))) (exits ++ div) s
           end
  end \/ exists s' e, getBridgeExitsForHeight env (Z.of_nat h) s = (s', Err e).
Proof.
  destruct (getBridgeExitsForHeight env (Z.of_nat h) s) as [s' [exits|e]] eqn:E; [left | right; eauto].
  destruct h; cbn [divergenceWalk]; rewrite E; done.
Qed.

(** One certificate of the walk. *)
Lemma walk_cert sh id pre c div s : leaves s = l2 -> certs !! length pre = Some c -> Z.of_nat (length (concat (pre ++ [c]))) < 2 ^ 32 ->
  walkFrom sh id (length (pre ++ [c])) (Z.of_nat (length (concat (pre ++ [c])))) div s =
  if bool_decide (c = []) then walkFrom sh id (length pre) (Z.of_nat (length (concat pre))) div s
  else if bool_decide (hashes c = take (length c) (drop (length (concat pre)) l2)) then (s, (div, Z.of_nat (length (concat (pre ++ [c]))), true, None))
  else walkFrom sh id (length pre) (Z.of_nat (length (concat pre))) (c ++ div) s.
Proof.
  intros Hl Hc. rewrite concat_app, length_app. cbn [concat]. rewrite app_nil_r, length_app. cbn [length]. intros Hn.
  replace (length pre + 1)%nat with (S (length pre)) by lia. cbn [walkFrom].
  destruct (walk_unfold sh id (length pre) (Z.of_nat (length (concat pre) + length c)) div s) as [ -> | (s' & e & He) ];
    [|by rewrite (st_exits _ Hst s _ _ Hc) in He].
  rewrite (st_exits _ Hst s _ _ Hc). rewrite small32 by lia. destruct c as [|e c].
  { cbn. by rewrite Nat.add_0_r. }
  rewrite (proj2 (Z.eqb_neq _ _)) by (cbn; lia). rewrite (bool_decide_eq_false_2 (e :: c = [])) by done.
  assert (Z.of_nat (length (concat pre) + length (e :: c)) -u32 Z.of_nat (length (e :: c)) = Z.of_nat (length (concat pre))) as ->.
  { unfold sub32. rewrite <- Nat2Z.inj_sub by lia. rewrite Nat.add_sub. apply small32. lia. }
  rewrite (check_agrees l2 dp Hsv s) by (done || lia). by destruct (bool_decide _).
Qed.

Lemma certs_at pre c post : certs = pre ++ c :: post -> certs !! length pre = Some c.
Proof. intros ->. by apply list_lookup_middle. Qed.

Lemma walk_good sh id g rest div s : leaves s = l2 -> good = g ++ rest -> concat rest = [] ->
  exists found point, walkFrom sh id (length g) (Z.of_nat (length (concat g))) div s = (s, (div, point, found, None)) /\
    (if found then point else 0) = Z.of_nat dp.
Proof.
  intros Hl. revert rest. induction g as [|c g IH] using rev_ind; intros rest Hg Hrest.
  { exists false, 0. split; [done|]. unfold dp. rewrite Hg. cbn. by rewrite Hrest. }
  assert (certs !! length g = Some c) as Hc.
  { apply (certs_at g c (rest ++ bad)). unfold certs. rewrite Hg, <- !app_assoc. done. }
  assert (length (concat (g ++ [c])) = dp) as Hdp.
  { unfold dp. rewrite Hg, (concat_app (g ++ [c])), Hrest, app_nil_r. done. }
  assert (Z.of_nat dp < 2 ^ 32) as Hn.
  { unfold certs in Htotal. rewrite concat_app, length_app in Htotal. unfold dp. lia. }
  rewrite walk_cert by (done || lia). destruct (decide (c = [])) as [->|Hne].
  - rewrite bool_decide_eq_true_2 by done. apply (IH ([] :: rest)); [|done]. rewrite Hg, <- app_assoc. done.
  - rewrite bool_decide_eq_false_2 by done. rewrite bool_decide_eq_true_2; [rewrite Hdp; by exists true, (Z.of_nat dp)|].
    unfold matching in Hgood. rewrite Hg, (concat_app (g ++ [c])), Hrest, app_nil_r, concat_app in Hgood. cbn [concat] in Hgood. rewrite app_nil_r, map_app in Hgood.
    rewrite concat_app in Hdp. cbn [concat] in Hdp. rewrite app_nil_r, length_app in Hdp.
    apply (f_equal (drop (length (concat g)))) in Hgood. rewrite drop_app_length' in Hgood by (by rewrite length_map).
    rewrite Hgood, <- Hdp. rewrite skipn_firstn_comm. f_equal. lia.
Qed.

Lemma walk_bad sh id b rest div s : leaves s = l2 -> bad = b ++ rest ->
  exists found point, walkFrom sh id (length (good ++ b)) (Z.of_nat (length (concat (good ++ b)))) div s = (s, (concat b ++ div, point, found, None)) /\
    (if found then point else 0) = Z.of_nat dp.
Proof.
  intros Hl. revert rest div. induction b as [|c b IH] using rev_ind; intros rest div Hb.
  { rewrite !app_nil_r. by apply (walk_good sh id good []); rewrite ?app_nil_r. }
  rewrite app_assoc. assert (certs = (good ++ b) ++ c :: rest) as Hcerts.
  { unfold certs. rewrite Hb, <- !app_assoc. done. }
  rewrite walk_cert; [ | done | by apply (certs_at _ _ rest) |].
  2: { rewrite Hcerts in Htotal. rewrite (concat_app (good ++ b)) in Htotal. cbn [concat] in Htotal.
       rewrite (concat_app (good ++ b)), length_app. cbn [concat]. rewrite app_nil_r. rewrite !length_app in Htotal. lia. }
  assert (concat (b ++ [c]) ++ div = concat b ++ c ++ div) as ->. { rewrite concat_app. cbn [concat]. by rewrite app_nil_r, app_assoc. }
  destruct (decide (c = [])) as [->|Hne].
  - rewrite bool_decide_eq_true_2 by done. apply (IH ([] :: rest)). rewrite Hb, <- app_assoc. done.
  - rewrite !bool_decide_eq_false_2; [apply (IH (c :: rest)); rewrite Hb, <- app_assoc; done | | done].
    apply (Hbad b c rest); [|done]. rewrite Hb, <- app_assoc. done.
Qed.

Lemma matching_length : (dp <= length l2)%nat.
Proof. pose proof (f_equal length Hgood) as H. rewrite length_map, length_take in H. fold dp in H. lia. Qed.

Lemma certs_length : length (concat certs) = (dp + length (concat bad))%nat.
Proof. unfold certs, dp. by rewrite concat_app, length_app. Qed.

(** The settled exits are those that match and those that diverge. *)
Lemma settled_hashes : hashes (concat certs) = take dp l2 ++ hashes (concat bad).
Proof. unfold certs. rewrite concat_app, map_app. by rewrite Hgood. Qed.

(** What the diagnosis finds. *)
Record diagnosed (s : W) (d : DiagnosisResult) : Prop := {
  dg_point : dr_DivergencePoint d = Z.of_nat dp;
  dg_leaves : dr_DivergentLeaves d = concat bad;
  dg_count : dr_L2CurrentDepositCount d = Z.of_nat (length l2);
  dg_emergency : dr_IsEmergencyState d = paused s;
  dg_failed : dr_AggsenderAPIFailed d = false;
  dg_case : dr_Case d <> NoDivergence;
  dg_replay : isReplayCase (dr_Case d) = (dp <? length l2)%nat;
  dg_extra : map leafDataLeafHash (dr_ExtraL2Bridges d) = drop dp l2;
  dg_extra' : map (fun l => leafDataLeafHash (leafDataToContractLeaf l)) (dr_ExtraL2Bridges d) = drop dp l2
}.

Lemma classify_replay l2DC n : Z.of_nat l2DC < 2 ^ 32 -> isReplayCase (classifyCase (Z.of_nat l2DC) (Z.of_nat dp) n) = (dp <? l2DC)%nat /\
  classifyCase (Z.of_nat l2DC) (Z.of_nat dp) n <> NoDivergence.
Proof.
  intros _. unfold classifyCase. destruct (Z.ltb_spec (Z.of_nat dp) (Z.of_nat l2DC)), (Nat.ltb_spec dp l2DC), (1 <? n)%nat; try lia; done.
Qed.

Lemma Diagnose_spec s : leaves s = l2 -> certs <> [] ->
  tree_root l2 <> tree_root (hashes (concat certs)) \/ length l2 <> length (concat certs) ->
  exists d, Diagnose env s = (s, Ok d) /\ diagnosed s d.
Proof.
  intros Hl Hne Hdiff. destruct (st_info _ Hst) as (info & Hinfo & Hh & Hler & Hcount). pose proof matching_length as Hdp.
  unfold Diagnose. rewrite (sbind_run _ _ s s (Some info)). 2: { unfold getNetworkInfoAllowNotFound. by rewrite Hinfo. }
  cbn [mbind option_bind]. rewrite Hh, Hler, Hcount. cbn [default from_option id]. rewrite small32 by lia.
  rewrite (sbind_run _ _ s s _ (wrapErr_Ok _ _ _ _ _ (co_count Hco s))), Hl.
  rewrite (sbind_run _ _ s s _ (wrapErr_Ok _ _ _ _ _ (co_root Hco s))), Hl.
  rewrite (sbind_run _ _ s s _ (wrapErr_Ok _ _ _ _ _ (co_paused Hco s))). cbv beta zeta. rewrite small32 by lia.
  assert ((tree_root l2 =? tree_root (hashes (concat certs))) && (Z.of_nat (length l2) =? Z.of_nat (length (concat certs))) = false) as ->.
  { apply andb_false_iff. destruct Hdiff; [left | right]; apply Z.eqb_neq; lia || done. }
  destruct (walk_bad (Z.of_nat (length certs - 1)) (default ZeroHash (nf_SettledCertificateID info)) bad [] [] s Hl) as (found & point & Hw & Hpt); [by rewrite app_nil_r|].
  assert (findDivergencePoint env (Z.of_nat (length certs - 1)) (Z.of_nat (length (concat certs))) (default ZeroHash (nf_SettledCertificateID info)) s =
    (s, (concat bad, point, found, None))) as Hf.
  { fold certs in Hw. rewrite app_nil_r in Hw. unfold findDivergencePoint. rewrite Nat2Z.id, <- Hw.
    unfold walkFrom. destruct (length certs) as [|k] eqn:E; [by apply nil_length_inv in E|]. by replace (S k - 1)%nat with k by lia. }
  unfold sbind at 1. rewrite Hf, Hpt. destruct (classify_replay (length l2) (length (concat bad))) as [Hrep Hcase]; [lia|]. rewrite Hrep.
  destruct (Nat.ltb_spec dp (length l2)) as [Hlt|Hge].
  - destruct (collect_spec l2 dp Hsv ltac:(lia) s (length l2 - dp) dp Hl) as (extra & Hx & H1 & H2); [lia|].
    rewrite (sbind_run _ _ s s extra).
    2: { apply wrapErr_Ok. unfold collectExtraL2Bridges. rewrite <- Nat2Z.inj_sub, Nat2Z.id by lia. done. }
    rewrite take_ge in H1, H2 by (rewrite length_drop; lia).
    eexists. split; [done|]. split; try done. cbn [dr_Case]. rewrite Hrep. symmetry. by apply Nat.ltb_lt.
  - rewrite (sbind_run _ _ s s []) by done. eexists. split; [done|]. split; try done; cbn [dr_Case dr_ExtraL2Bridges map]; rewrite ?Hrep.
    + symmetry. by apply Nat.ltb_ge.
    + symmetry. by apply drop_ge.
    + symmetry. by apply drop_ge.
Qed.

(** ** The repair *)

Lemma backward_spec s d : diagnosed s d -> forall s1, leaves s1 = l2 -> paused s1 = true -> (dp < length l2)%nat ->
  exists s2, stepBackwardLET env d s1 = (s2, Ok tt) /\ leaves s2 = take dp l2 /\ paused s2 = true.
Proof.
  intros Hd s1 Hl Hp Hlt. destruct (ComputeBackwardLETParams_spec l2 dp Hlt) as (proof & Hparams & Hv); [lia|]. rewrite <- Hl in Hparams, Hv.
  destruct (co_backward Hco s1 dp proof Hp) as (s2 & Hm & Hl2 & Hp2); [by rewrite Hl | done|]. exists s2. rewrite <- Hl at 1. split; [|done].
  unfold stepBackwardLET. rewrite (dg_count _ _ Hd), (dg_point _ _ Hd).
  rewrite (sbind_run _ _ s1 s1 l2). 2: { apply wrapErr_Ok, (fetch_all l2 dp); done || lia. }
  rewrite <- Hl. rewrite (sbind_run _ _ s1 s1 (frontier_of (take dp (leaves s1)), nth dp (leaves s1) 0, proof)).
  2: { apply wrapErr_Ok. unfold slift. by rewrite Hparams. }
  rewrite (sbind_run _ _ s1 s2 tt (transact_mined _ _ _ _ Hm)).
  rewrite (sbind_run _ _ s2 s2 _ (wrapErr_Ok _ _ _ _ _ (co_count Hco s2))), Hl2, length_take, Hl, Nat.min_l, small32, Z.eqb_refl by lia. done.
Qed.

Lemma forwardAndVerify_spec name newLeaves s1 : paused s1 = true -> newLeaves <> [] ->
  Z.of_nat (length (leaves s1) + length newLeaves) < 2 ^ 32 ->
  exists s2, forwardAndVerify env name newLeaves (tree_root (leaves s1 ++ map leafDataLeafHash newLeaves)) (Z.of_nat (length (leaves s1) + length newLeaves)) s1 = (s2, Ok tt) /\
    leaves s2 = leaves s1 ++ map leafDataLeafHash newLeaves /\ paused s2 = true.
Proof.
  intros Hp Hne Hn. destruct (co_forward Hco s1 newLeaves Hp Hne) as (s2 & Hm & Hl2 & Hp2). exists s2. split; [|done].
  unfold forwardAndVerify. rewrite (sbind_run _ _ s1 s2 tt (transact_mined _ _ _ _ Hm)).
  rewrite (sbind_run _ _ s2 s2 _ (wrapErr_Ok _ _ _ _ _ (co_count Hco s2))), Hl2, length_app, length_map, small32 by lia.
  rewrite (sbind_run _ _ s2 s2 tt) by (by rewrite Z.eqb_refl).
  rewrite (sbind_run _ _ s2 s2 _ (wrapErr_Ok _ _ _ _ _ (co_root Hco s2))), Hl2, Z.eqb_refl. done.
Qed.

(** The extension by the divergent leaves is announced with the settled root. *)
Lemma divergent_forward s d s1 : diagnosed s d -> leaves s1 = take dp l2 -> concat bad <> [] ->
  stepForwardLETDivergentLeaves env d s1 =
  forwardAndVerify env "ForwardLET (divergent leaves)" (map bridgeExitToContractLeaf (concat bad)) (tree_root (hashes (concat certs)))
    (Z.of_nat (dp + length (concat bad))) s1.
Proof.
  intros Hd Hl Hne. pose proof matching_length as Hdp. pose proof certs_length as Hlen.
  assert (length (leaves s1) = dp) as Hl1 by (rewrite Hl, length_take; lia).
  unfold stepForwardLETDivergentLeaves. rewrite (dg_point _ _ Hd), (dg_leaves _ _ Hd).
  rewrite (sbind_run _ _ s1 s1 (take dp l2)). 2: { apply (fetch_guarded l2 dp); try done; try lia. by rewrite Hl, take_take, Nat.min_id. }
  rewrite (sbind_run _ _ s1 s1 (frontier_of (take dp l2))).
  2: { apply wrapErr_Ok. unfold slift. rewrite computeFrontier_spec; [by rewrite take_take, Nat.min_id | rewrite length_take; lia | lia]. }
  rewrite (sbind_run _ _ s1 s1 (tree_root (take dp l2 ++ hashes (concat bad)))).
  2: { apply wrapErr_Ok. unfold slift. f_equal. rewrite <- Hl1 at 2. rewrite <- Hl. apply computeRootFromFrontier_spec; rewrite ?length_map; [by destruct (concat bad) | lia..]. }
  by rewrite sum32, settled_hashes by lia.
Qed.

(** The leaf the contract makes of an exit is that of the certificate. *)
Definition same_leaf (be : BridgeExit) : Prop := leafDataLeafHash (bridgeExitToContractLeaf be) = BridgeExitLeafHash be.

Abbreviation contractLeaves := (map leafDataLeafHash (map bridgeExitToContractLeaf (concat bad))).

Lemma divergent_spec s d : diagnosed s d -> forall s1, leaves s1 = take dp l2 -> paused s1 = true -> concat bad <> [] -> Forall same_leaf (concat bad) ->
  exists s2, stepForwardLETDivergentLeaves env d s1 = (s2, Ok tt) /\ leaves s2 = hashes (concat certs) /\ paused s2 = true.
Proof.
  intros Hd s1 Hl Hp Hne Hsame. rewrite (divergent_forward s d s1 Hd Hl Hne). pose proof matching_length as Hdp. pose proof certs_length as Hlen.
  assert (length (leaves s1) = dp) as Hl1 by (rewrite Hl, length_take; lia).
  assert (contractLeaves = hashes (concat bad)) as Hmap.
  { rewrite map_map. apply map_ext_Forall. exact Hsame. }
  destruct (forwardAndVerify_spec "ForwardLET (divergent leaves)" (map bridgeExitToContractLeaf (concat bad)) s1 Hp) as (s2 & Hf & Hl2 & Hp2).
  { by destruct (concat bad). } { rewrite length_map, Hl1. lia. }
  exists s2. rewrite Hmap, length_map, Hl1, Hl, <- settled_hashes in Hf. split; [exact Hf|]. by rewrite Hl2, Hmap, Hl, <- settled_hashes.
Qed.

Lemma divergent_refused s d : refuses -> diagnosed s d -> forall s1, leaves s1 = take dp l2 -> paused s1 = true -> concat bad <> [] ->
  tree_root (take dp l2 ++ contractLeaves) <> tree_root (hashes (concat certs)) ->
  exists s2 e, stepForwardLETDivergentLeaves env d s1 = (s2, Err e) /\ leaves s2 = take dp l2 /\ paused s2 = true.
Proof.
  intros Href Hd s1 Hl Hp Hne Hroot. rewrite (divergent_forward s d s1 Hd Hl Hne).
  destruct (Href s1 (map bridgeExitToContractLeaf (concat bad)) (tree_root (hashes (concat certs)))) as (s2 & Hrev); [rewrite Hl; by apply not_eq_sym|].
  pose proof Hrev as (_ & Hl2 & Hp2). destruct (transact_reverted "ForwardLET (divergent leaves)" _ _ _ Hrev) as [e He].
  exists s2, e. unfold forwardAndVerify, sbind at 1. by rewrite He, Hl2, Hp2.
Qed.

Lemma extra_spec s d : diagnosed s d -> forall s1, leaves s1 = hashes (concat certs) -> paused s1 = true -> (dp < length l2)%nat ->
  exists s2, stepForwardLETExtraL2Bridges env d s1 = (s2, Ok tt) /\ leaves s2 = hashes (concat certs) ++ drop dp l2 /\ paused s2 = true.
Proof.
  intros Hd s1 Hl Hp Hlt. pose proof certs_length as Hlen. pose proof (dg_extra _ _ Hd) as Hx. pose proof (dg_extra' _ _ Hd) as Hx'.
  assert (length (leaves s1) = (dp + length (concat bad))%nat) as Hl1 by (rewrite Hl, length_map; lia).
  assert (length (dr_ExtraL2Bridges d) = (length l2 - dp)%nat) as Hxlen by (rewrite <- (length_map leafDataLeafHash), Hx, length_drop; done).
  destruct (forwardAndVerify_spec "ForwardLET (extra L2 bridges)" (map leafDataToContractLeaf (dr_ExtraL2Bridges d)) s1 Hp) as (s2 & Hf & Hl2 & Hp2).
  { destruct (dr_ExtraL2Bridges d); [cbn in Hxlen; lia | done]. } { rewrite length_map, Hl1. lia. }
  rewrite map_map, Hx' in Hf, Hl2. exists s2. rewrite Hl2, Hl. split; [|done]. unfold stepForwardLETExtraL2Bridges.
  rewrite (dg_point _ _ Hd), (dg_leaves _ _ Hd), Hx.
  rewrite (sbind_run _ _ s1 s1 (take dp l2)).
  2: { apply (fetch_guarded l2 dp); try done; try lia. by rewrite Hl, settled_hashes, take_app_length' by (rewrite length_take; lia). }
  cbv zeta. rewrite <- settled_hashes. rewrite (sum32 dp) by lia.
  rewrite (sbind_run _ _ s1 s1 (frontier_of (hashes (concat certs)))).
  2: { apply wrapErr_Ok. unfold slift. rewrite computeFrontier_spec by (rewrite ?length_map; lia). by rewrite take_ge by (rewrite length_map; lia). }
  rewrite (sbind_run _ _ s1 s1 (tree_root (hashes (concat certs) ++ drop dp l2))).
  2: { apply wrapErr_Ok. unfold slift. f_equal. rewrite <- Hlen, <- (length_map BridgeExitLeafHash). apply computeRootFromFrontier_spec.
       - intros H. apply (f_equal length) in H. rewrite length_drop in H. cbn in H. lia.
       - rewrite length_map, length_drop. lia.
       - rewrite length_map. lia. }
  rewrite sum32 by lia. rewrite length_map, Hl1, Hl in Hf. exact Hf.
Qed.

Lemma deactivate_spec s1 : paused s1 = true -> exists s2, stepDeactivateEmergency env s1 = (s2, Ok tt) /\ leaves s2 = leaves s1 /\ paused s2 = false.
Proof.
  intros Hp. destruct (co_deactivate Hco s1 Hp) as (s2 & Hm & Hl & Hp2). exists s2. split; [|done]. unfold stepDeactivateEmergency.
  rewrite (sbind_run _ _ s1 s2 tt (transact_mined _ _ _ _ Hm)). rewrite (sbind_run _ _ s2 s2 _ (wrapErr_Ok _ _ _ _ _ (co_paused Hco s2))), Hp2. done.
Qed.

(** Up to the deferred part of the recovery: the bridge is paused and unchanged. *)
Lemma activated s d : diagnosed s d -> leaves s = l2 ->
  exists s1, leaves s1 = l2 /\ paused s1 = true /\ ExecuteRecovery env d s = deferred (recoverySteps env d) (stepDeactivateEmergency env) s1.
Proof.
  intros Hd Hl. unfold ExecuteRecovery. destruct (co_chain Hco s) as [id Hid]. rewrite (sbind_run _ _ s s id (wrapErr_Ok _ _ _ _ _ Hid)).
  do 3 rewrite (sbind_run _ _ s s tt (wrapErr_Ok _ _ _ _ _ (co_auth Hco s _))). rewrite (dg_emergency _ _ Hd). destruct (paused s) eqn:Hp.
  { exists s. by rewrite (sbind_run _ _ s s tt). }
  destruct (co_activate Hco s Hp) as (s1 & Hm & Hl1 & Hp1). exists s1. rewrite Hl1. split; [done|]. split; [done|]. rewrite (sbind_run _ _ s s1 tt); [done|]. apply wrapErr_Ok.
  unfold stepActivateEmergency. rewrite (sbind_run _ _ s s1 tt (transact_mined _ _ _ _ Hm)).
  rewrite (sbind_run _ _ s1 s1 _ (wrapErr_Ok _ _ _ _ _ (co_paused Hco s1))), Hp1. done.
Qed.

(** The rewind, where the case has one: afterwards the tree ends at the divergence point. *)
Lemma rewound s d s1 : diagnosed s d -> leaves s1 = l2 -> paused s1 = true ->
  exists s2, (if isReplayCase (dr_Case d) then wrapErr "backward LET" (stepBackwardLET env d) else sret tt) s1 = (s2, Ok tt) /\
    leaves s2 = take dp l2 /\ paused s2 = true.
Proof.
  intros Hd Hl Hp. rewrite (dg_replay _ _ Hd). destruct (Nat.ltb_spec dp (length l2)).
  - destruct (backward_spec s d Hd s1 Hl Hp) as (s2 & Hb & H2); [done|]. exists s2. split; [by apply wrapErr_Ok | done].
  - exists s1. by rewrite take_ge by lia.
Qed.

Lemma run_recovers s d : Diagnose env s = (s, Ok d) -> diagnosed s d -> Run env false true s =
  match ExecuteRecovery env d s with (s', Ok _) => (s', Ok Recovered) | (s', Err e) => (s', Err (LWrap "recovery failed" e)) end.
Proof.
  intros HD Hd. unfold Run. rewrite (sbind_run _ _ s s d (wrapErr_Ok _ _ _ _ _ HD)). unfold IsCompleteNoDivergence. rewrite (dg_failed _ _ Hd).
  pose proof (dg_case _ _ Hd). destruct (dr_Case d) eqn:E; [done|..]; cbn; unfold sbind, wrapErr; by destruct (ExecuteRecovery env d s) as [s' [[]|e]].
Qed.

(** The steps after the rewind. *)
Lemma recovered_spec s d s1 s2 : diagnosed s d ->
  (if isReplayCase (dr_Case d) then wrapErr "backward LET" (stepBackwardLET env d) else sret tt) s1 = (s2, Ok tt) ->
  leaves s2 = take dp l2 -> paused s2 = true -> concat bad <> [] -> Forall same_leaf (concat bad) ->
  exists s4, recoverySteps env d s1 = (s4, Ok tt) /\ leaves s4 = hashes (concat certs) ++ drop dp l2 /\ paused s4 = true.
Proof.
  intros Hd Hr Hl2 Hp2 Hne Hsame. destruct (divergent_spec s d Hd s2 Hl2 Hp2 Hne Hsame) as (s3 & Hf & Hl3 & Hp3).
  assert (exists s4, match dr_ExtraL2Bridges d with [] => sret tt | _ => wrapErr "forward LET extra L2 bridges" (stepForwardLETExtraL2Bridges env d) end s3 = (s4, Ok tt) /\
    leaves s4 = hashes (concat certs) ++ drop dp l2 /\ paused s4 = true) as (s4 & Hx & Hl4 & Hp4).
  { pose proof (dg_extra _ _ Hd) as Hextra. destruct (Nat.ltb_spec dp (length l2)) as [Hlt|Hge].
    - destruct (extra_spec s d Hd s3 Hl3 Hp3 Hlt) as (s4 & Hx & H4). exists s4. split; [|done].
      destruct (dr_ExtraL2Bridges d); [|by apply wrapErr_Ok]. apply (f_equal length) in Hextra. rewrite length_drop in Hextra. cbn in Hextra. lia.
    - exists s3. rewrite (drop_ge l2 dp) in * by lia. rewrite app_nil_r. by destruct (dr_ExtraL2Bridges d). }
  exists s4. split_and!; try done.
  unfold recoverySteps. rewrite (sbind_run _ _ s1 s2 tt Hr), (sbind_run _ _ s2 s3 tt (wrapErr_Ok _ _ _ _ _ Hf)), (sbind_run _ _ s3 s4 tt Hx).
  apply wrapErr_Ok. unfold printFinalVerification. rewrite (sbind_run _ _ s4 s4 _ (wrapErr_Ok _ _ _ _ _ (co_count Hco s4))).
  by rewrite (sbind_run _ _ s4 s4 _ (wrapErr_Ok _ _ _ _ _ (co_root Hco s4))).
Qed.

(** C14. On a network whose settled certificates split into a first part that L2 has, exit for exit, and a second part
    with exits of which no certificate is found at its place on L2 (otherwise [later_match_hides_divergence]), a
    confirmed run of the recovery does one of two things.  When the contract makes the same leaves of the divergent
    exits as the certificates (valid exits without metadata, [exit_leaf]), the run ends without error, the tree on L2
    begins with the settled exits, followed by the bridges of L2 after the divergence, the bridge is not paused, and
    when there were no such bridges its root is the settled one.  When these leaves give another root, as with an exit
    that carries the hash of its metadata ([hashed_metadata_is_refused]), the run fails and leaves the bridge open,
    with its tree cut at the divergence.  The contract, the bridge service and the agglayer behave as documented and
    answer, nobody else changes the bridge meanwhile, all exits are known, and the counts are below 2^32. *)
Theorem recovery_restores_settled_tree s : leaves s = l2 -> refuses ->
  tree_root l2 <> tree_root (hashes (concat certs)) \/ length l2 <> length (concat certs) -> concat bad <> [] ->
  (Forall same_leaf (concat bad) ->
    exists s', Run env false true s = (s', Ok Recovered) /\ paused s' = false /\ leaves s' = hashes (concat certs) ++ drop dp l2 /\
      ((length l2 <= dp)%nat -> GetRoot env s' = (s', Ok (tree_root (hashes (concat certs)))))) /\
  (tree_root (take dp l2 ++ contractLeaves) <> tree_root (hashes (concat certs)) ->
    exists s' e, Run env false true s = (s', Err e) /\ paused s' = false /\ leaves s' = take dp l2).
Proof.
  intros Hl Href Hdiff Hne. assert (certs <> []) as Hcerts by (intros E; apply Hne; apply app_eq_nil in E as [_ ->]; done).
  destruct (Diagnose_spec s Hl Hcerts Hdiff) as (d & HD & Hd). rewrite (run_recovers s d HD Hd).
  destruct (activated s d Hd Hl) as (s1 & Hl1 & Hp1 & ->). destruct (rewound s d s1 Hd Hl1 Hp1) as (s2 & Hr & Hl2 & Hp2). split.
  - intros Hsame. destruct (recovered_spec s d s1 s2 Hd Hr Hl2 Hp2 Hne Hsame) as (s4 & Hx & Hl4 & Hp4).
    destruct (deactivate_spec s4 Hp4) as (s5 & Hde & Hl5 & Hp5). exists s5. unfold deferred. rewrite Hx, Hde, Hl5, Hl4. split_and!; try done.
    intros Hge. rewrite (co_root Hco), Hl5, Hl4, drop_ge, app_nil_r by done. done.
  - intros Hroot. destruct (divergent_refused s d Href Hd s2 Hl2 Hp2 Hne Hroot) as (s3 & e & He & Hl3 & Hp3).
    destruct (deactivate_spec s3 Hp3) as (s4 & Hde & Hl4 & Hp4). exists s4. rewrite Hl4, Hl3.
    unfold deferred, recoverySteps. rewrite (sbind_run _ _ s1 s2 tt Hr). unfold sbind at 1, wrapErr at 1. rewrite He, Hde. by eexists.
Qed.

(** C37. On a network without divergence, whose L2 is only ahead of the settled certificates, a confirmed run fails after it has
    removed the bridges that are not settled yet, and leaves the bridge open with the shorter tree. *)
Theorem healthy_network_is_truncated s : leaves s = l2 -> certs <> [] -> concat bad = [] -> (dp < length l2)%nat ->
  exists s' e, Run env false true s = (s', Err e) /\ paused s' = false /\ leaves s' = hashes (concat certs) /\ leaves s' = take dp l2.
Proof.
  intros Hl Hcerts Hnone Hlt. pose proof certs_length as Hlen. rewrite Hnone in Hlen. cbn in Hlen.
  destruct (Diagnose_spec s Hl Hcerts) as (d & HD & Hd). { right. lia. } rewrite (run_recovers s d HD Hd).
  destruct (activated s d Hd Hl) as (s1 & Hl1 & Hp1 & ->). destruct (rewound s d s1 Hd Hl1 Hp1) as (s2 & Hr & Hl2 & Hp2).
  assert (exists e, stepForwardLETDivergentLeaves env d s2 = (s2, Err e)) as [e He].
  { unfold stepForwardLETDivergentLeaves. rewrite (dg_point _ _ Hd), (dg_leaves _ _ Hd), Hnone.
    rewrite (sbind_run _ _ s2 s2 (take dp l2)). 2: { apply (fetch_guarded l2 dp); try done; try lia. by rewrite Hl2, take_take, Nat.min_id. }
    rewrite (sbind_run _ _ s2 s2 (frontier_of (take dp l2))).
    2: { apply wrapErr_Ok. unfold slift. rewrite computeFrontier_spec; [by rewrite take_take, Nat.min_id | rewrite length_take; lia | lia]. }
    eexists. reflexivity. }
  destruct (deactivate_spec s2 Hp2) as (s3 & Hde & Hl3 & Hp3). exists s3. rewrite Hl3, Hl2, settled_hashes, Hnone. cbn [map]. rewrite app_nil_r.
  unfold deferred, recoverySteps. rewrite (sbind_run _ _ s1 s2 tt Hr). unfold sbind at 1, wrapErr at 1. rewrite He, Hde. by eexists.
Qed.

End Diagnosis.

End Recovery.

(** ** A bridge to run the tool on

    The contract checks what it is given; the service answers for the bridges it indexed before the recovery. *)

#[local] Existing Instance toy_keccak.

Record bridgeState := mkBridgeState { ts_leaves : list Z; ts_paused : bool }.

(** The receipt of a transaction has the status 1 when its check passes, and the state changes only then. *)
Definition checked_tx (check : bridgeState -> bool) (f : bridgeState -> bridgeState) : eff bridgeState letError Z :=
  fun s => if check s then (f s, Ok 1) else (s, Ok 0).

Definition tool_env (certs : list (list BridgeExit)) (answers : list BridgeAnswer) : Env bridgeState := {|
  chainIDFn := sret 1;
  buildAuthFn := fun _ => sret tt;
  waitReceiptFn := fun tx => sret tx;
  GetNetworkInfo := sret (mkNetworkInfo (Some (Z.of_nat (length certs - 1))) (Some 5)
    (Some (tree_root_sparse (map BridgeExitLeafHash (concat certs)))) (Some (Z.of_nat (length (concat certs)))));
  GetCertificateBridgeExits := fun h => match certs !! Z.to_nat h with Some exits => sret exits | None => sfail (LErr "no certificate") end;
  BridgeExitsOverride := None;
  GetBridgeByDepositCount := fun _ dc => match answers !! Z.to_nat dc with Some br => sret br | None => sfail LBridgeNotFound end;
  DepositCount := fun s => (s, Ok (Z.of_nat (length (ts_leaves s))));
  GetRoot := fun s => (s, Ok (tree_root_sparse (ts_leaves s)));
  IsEmergencyState := fun s => (s, Ok (ts_paused s));
  ActivateEmergencyState := checked_tx (fun s => negb (ts_paused s)) (fun s => mkBridgeState (ts_leaves s) true);
  DeactivateEmergencyState := checked_tx ts_paused (fun s => mkBridgeState (ts_leaves s) false);
  BackwardLET := fun n frontier nextLeaf proof =>
    checked_tx (fun s => ts_paused s && (n <? Z.of_nat (length (ts_leaves s))) &&
      ((2 ^ 32 <=? n) || match computeFrontier (ts_leaves s) n with Ok f => bool_decide (f = frontier) | Err _ => false end) &&
      (nth (Z.to_nat n) (ts_leaves s) 0 =? nextLeaf) && VerifyProof nextLeaf proof n (tree_root_sparse (ts_leaves s)))
      (fun s => mkBridgeState (take (Z.to_nat n) (ts_leaves s)) true);
  ForwardLET := fun newLeaves expectedLER =>
    checked_tx (fun s => ts_paused s && negb (length newLeaves =? 0)%nat &&
      (tree_root_sparse (ts_leaves s ++ map leafDataLeafHash newLeaves) =? expectedLER))
      (fun s => mkBridgeState (ts_leaves s ++ map leafDataLeafHash newLeaves) true);
  L2NetworkID := 1
|}.

Lemma checked_mined certs answers check f s : check s = true -> mined (tool_env certs answers) (checked_tx check f) s (f s).
Proof. intros H. exists 1, (f s). unfold checked_tx. by rewrite H. Qed.

Lemma tool_contract_ok certs answers : contract_ok (tool_env certs answers) ts_leaves ts_paused.
Proof.
  split.
  - intros s. by exists 1.
  - done.
  - done.
  - intros s. rewrite tree_root_sparse_eq. reflexivity.
  - done.
  - intros s Hp. eexists. split; [apply checked_mined; by rewrite Hp | done].
  - intros s Hp. eexists. split; [by apply checked_mined | done].
  - intros s n proof Hp Hn Hv. eexists. split; [apply checked_mined | cbn [ts_leaves]; by rewrite Nat2Z.id].
    rewrite Nat2Z.id, <- tree_root_sparse_eq, Hv, Hp, Z.eqb_refl, (proj2 (Z.ltb_lt _ _)) by lia. cbn [andb].
    destruct (Z.leb_spec (2 ^ 32) (Z.of_nat n)) as [|Hlt]; [done|]. rewrite computeFrontier_spec by lia. by rewrite bool_decide_eq_true_2.
  - intros s newLeaves Hp Hne. eexists. split; [apply checked_mined | done]. rewrite <- tree_root_sparse_eq, Hp, Z.eqb_refl. by destruct newLeaves.
Qed.

Lemma tool_refuses certs answers : refuses (tool_env certs answers) ts_leaves ts_paused.
Proof.
  intros s newLeaves root Hroot. exists s. split; [|done]. right. exists 0, s, 0. cbn [ForwardLET tool_env]. unfold checked_tx.
  rewrite <- tree_root_sparse_eq, (proj2 (Z.eqb_neq _ _)), andb_false_r by (by apply not_eq_sym). done.
Qed.

Lemma tool_service_ok certs answers dp : service_ok (tool_env certs answers) ts_leaves (map BridgeResponseLeafHash answers) dp.
Proof.
  assert (forall s dc x, map BridgeResponseLeafHash answers !! dc = Some x -> exists br,
    GetBridgeByDepositCount (tool_env certs answers) 1 (Z.of_nat dc) s = (s, Ok br) /\ BridgeResponseLeafHash br = x) as H.
  { intros s dc x Hx. apply list_lookup_fmap_Some in Hx as (br & -> & Hbr). exists br. cbn [GetBridgeByDepositCount tool_env]. by rewrite Nat2Z.id, Hbr. }
  split.
  - intros s dc x _. apply H.
  - intros s dc _ Hge. rewrite length_map in Hge. cbn [GetBridgeByDepositCount tool_env]. apply lookup_ge_None in Hge. rewrite Nat2Z.id, Hge. by eexists.
  - intros s dc x _ _. apply H.
Qed.

Lemma tool_settled_ok certs answers : settled_ok (tool_env certs answers) certs.
Proof.
  split.
  - intros s h exits Hh. unfold getBridgeExitsForHeight. cbn [GetCertificateBridgeExits tool_env]. by rewrite Nat2Z.id, Hh.
  - eexists. split; [by intros s|]. rewrite tree_root_sparse_eq. done.
Qed.

Definition tool_exit (amount : Z) : BridgeExit := mkBridgeExit 0 (Some (mkTokenInfo 0 1)) 2 3 (Some amount) [].
Definition tool_answer (amount : string) : BridgeAnswer := mkBridgeAnswer 0 0 "0x0000000000000000000000000000000000000001" 2 "0x0000000000000000000000000000000000000003" amount "0x".
Definition tool_answers : list BridgeAnswer := [tool_answer "10"; tool_answer "20"; tool_answer "30"].
Definition tool_state : bridgeState := mkBridgeState (map BridgeResponseLeafHash tool_answers) false.

(** A certificate with an exit that never happened settled after two bridges, and a third bridge followed on L2. *)
Lemma recovery_restores_settled_tree_witness :
  exists s', Run (tool_env [[tool_exit 10; tool_exit 20]; [tool_exit 99]] tool_answers) false true tool_state = (s', Ok Recovered) /\ ts_paused s' = false /\
    ts_leaves s' = map BridgeExitLeafHash [tool_exit 10; tool_exit 20; tool_exit 99] ++ [BridgeResponseLeafHash (tool_answer "30")] /\
    ((3 <= 2)%nat -> GetRoot (tool_env [[tool_exit 10; tool_exit 20]; [tool_exit 99]] tool_answers) s' =
      (s', Ok (tree_root (map BridgeExitLeafHash [tool_exit 10; tool_exit 20; tool_exit 99])))).
Proof.
  refine (proj1 (recovery_restores_settled_tree (tool_env [[tool_exit 10; tool_exit 20]; [tool_exit 99]] tool_answers) ts_leaves ts_paused (tool_contract_ok _ _)
    [[tool_exit 10; tool_exit 20]] [[tool_exit 99]] (map BridgeResponseLeafHash tool_answers) (tool_settled_ok _ _) (tool_service_ok _ _ _) _ _ _ tool_state eq_refl
    (tool_refuses _ _) _ _) _).
  - vm_compute. reflexivity.
  - vm_compute. reflexivity.
  - intros [|b [|? ?]] c b2; cbn; intros [= <-] _; [vm_compute; discriminate | discriminate..].
  - left. rewrite !tree_root_sparse_eq. vm_compute. discriminate.
  - discriminate.
  - apply Forall_singleton. apply exit_leaf; reflexivity.
Defined.

(** Two settled bridges and a third that waits for the next certificate. *)
Lemma healthy_network_is_truncated_witness :
  exists s' e, Run (tool_env [[tool_exit 10; tool_exit 20]] tool_answers) false true tool_state = (s', Err e) /\ ts_paused s' = false /\
    ts_leaves s' = map BridgeExitLeafHash [tool_exit 10; tool_exit 20] /\ ts_leaves s' = take 2 (map BridgeResponseLeafHash tool_answers).
Proof.
  refine (healthy_network_is_truncated (tool_env [[tool_exit 10; tool_exit 20]] tool_answers) ts_leaves ts_paused (tool_contract_ok _ _)
    [[tool_exit 10; tool_exit 20]] [] (map BridgeResponseLeafHash tool_answers) (tool_settled_ok _ _) (tool_service_ok _ _ _) _ _ _ tool_state eq_refl _ _ _).
  - vm_compute. reflexivity.
  - vm_compute. reflexivity.
  - intros b1 c b2 H. by destruct b1.
  - discriminate.
  - reflexivity.
  - cbn. lia.
Defined.

Definition ran (certs : list (list BridgeExit)) : bool * list Z :=
  let '(s, r) := Run (tool_env certs tool_answers) false true tool_state in (is_ok r, ts_leaves s).

(** A certificate of which the first exit happened: the recovery settles that bridge and replays it after the divergence, so that
    the tree holds it twice. *)
Example partial_match_is_replayed :
  ran [[tool_exit 10; tool_exit 99]] =
  (true, map BridgeExitLeafHash [tool_exit 10; tool_exit 99] ++ map BridgeResponseLeafHash [tool_answer "10"; tool_answer "20"; tool_answer "30"]) /\
  BridgeExitLeafHash (tool_exit 10) = BridgeResponseLeafHash (tool_answer "10").
Proof. split; vm_compute; reflexivity. Qed.

(** An exit as the aggsender sends it carries the hash of its metadata; the contract hashes it again, the extension is refused,
    and the rewind before it stays. *)
Example hashed_metadata_is_refused :
  ran [[tool_exit 10]; [mkBridgeExit 0 (Some (mkTokenInfo 0 1)) 2 3 (Some 99) (Hash_Bytes (keccak256 []))]] = (false, [BridgeExitLeafHash (tool_exit 10)]).
Proof. vm_compute. reflexivity. Qed.

(** The first certificate diverges and a later one is found at its place: the diagnosis stops there, has no divergent leaf, and the
    recovery only removes the last bridge. *)
Example later_match_hides_divergence :
  ran [[tool_exit 99]; [tool_exit 20]] = (false, map BridgeResponseLeafHash [tool_answer "10"; tool_answer "20"]).
Proof. vm_compute. reflexivity. Qed.
